(* ===== verification/_CoqProject ===== *)
-Q . S2P
Prelude.v
DepKeys.v
Engine.v
KeyTable.v
ScanRecords.v
EngineInv.v
EngineSafety.v
EngineCycle.v
EngineRun.v
EngineScan.v
EngineSearch.v
EngineGraph.v
EngineExamples.v
EngineProps.v
Coding.v
BuildValue.v
BuildKey.v
Chars.v
ShellUtility.v
MakefileDeps.v
DependencyInfo.v
NinjaLexer.v
NinjaParser.v
NinjaEvents.v
NinjaPath.v
NinjaManifest.v
NinjaLoader.v
NinjaLoaderInv.v
NinjaLoaderProps.v
Process.v
ControlProtocol.v
Subprocess.v
SubprocessProps.v
ExecutionQueue.v
ExecutionQueueInv.v
ExecutionQueueLanes.v
ExecutionQueueProps.v
ExecutionQueueLive.v
BuildNode.v
ExternalCommand.v
ExternalCommandProps.v
ShellCommand.v
ShellCommandProps.v
BuildTasks.v
BuildTasksProps.v
BuildTrees.v
BuildRules.v
BuildRulesProps.v
BuildTools.v
BuildToolsProps.v
SwiftCompiler.v
SwiftProps.v
BuildCommands.v
BuildClient.v
BuildDescription.v
OwnershipProps.v
DescriptionProps.v
BuildFile.v
BuildFileProps.v
BuildManifest.v
BuildLoad.v
NinjaValue.v
NinjaBuild.v
NinjaBuildProps.v
NinjaStop.v
NinjaRules.v
NinjaStatus.v
SQLiteBuildDB.v
SQLiteProps.v
SQLiteSession.v
SerialQueue.v
SerialQueueProps.v
SerialExecution.v
SerialExecutionProps.v
Invocation.v
Frontend.v
FrontendProps.v
