(* ===== verification/Prelude.v ===== *)
(** * Verification of llbuild's core libraries

    llbuild is a library for incremental builds.  This development models its C++ core
    as executable functions and proves what makes it correct.

    ** The program

    A client gives the build engine (lib/Core) rules for keys.  To build a key the engine
    scans the recorded dependencies of its rule, skips the rule if its stored result is
    up to date and otherwise runs the rule's task, which requests the values of other
    keys; results are kept in a database.  The build system (lib/BuildSystem) is such a
    client: its keys (BuildKey.h) name commands, nodes and directories, its values
    (BuildValue.h) hold the file information of outputs, and its commands
    (ExternalCommand.cpp, ShellCommand.cpp) run processes and read the dependency files the
    processes write.  The Ninja front end (lib/Ninja) lexes, parses and loads Ninja
    manifests, and the ninja command (lib/Commands) is the client of the engine that builds
    them.  Work runs on lanes of an execution queue (lib/Basic), which spawns and
    supervises processes.

    ** The model

    A C++ function is a Rocq function of the same name.  Code that leaves the defined
    behaviour of C++ -- a failed [assert], [abort()], a read outside a buffer, a use of
    freed memory -- is [Crash] with the reason, a value of [outcome]; state is threaded by
    the monad [M].  Pointers are indices or serial numbers of what they point to, or, into
    a character buffer, the rest of the buffer.  Machine integers are [Z] with their
    wrap-around written out.  Calls on delegates are logged in order.  Code outside the
    modelled files (the client's tasks and rules, the database, the file system, the
    operating system, LLVM's hash functions) is a parameter.

    ** The files

    - Prelude: outcomes, the monad, total and partial correctness of its programs, shared
      lemmas and automation.
    - The engine, lib/Core/BuildEngine.cpp: DepKeys (DependencyKeyIDs.h), KeyTable (key
      interning), ScanRecords (the scan record allocator), Engine (state and operations of
      [BuildEngineImpl]: scanning, demanding, executing, cancelling, cycles, [TaskInterface]),
      EngineInv (invariant and its preservation by each update), EngineSafety (operations
      do not crash), EngineCycle ([breakCycle]), EngineRun (the engine thread interleaved
      with calls of other threads), EngineScan (what the dependency scan establishes),
      EngineSearch and EngineGraph ([findCycle]), EngineExamples (concrete builds),
      EngineProps (the guarantees).
    - Data: Coding (BinaryCoding.h, StringList.h, FileInfo.h), BuildValue, BuildKey.
    - Text: Chars (buffers), ShellUtility (ShellUtility.cpp), MakefileDeps
      (MakefileDepsParser.cpp), DependencyInfo (DependencyInfoParser.cpp).
    - Ninja: NinjaLexer (Lexer.cpp), NinjaParser (Parser.cpp), NinjaEvents (the protocol
      between parser and delegate), NinjaPath ([normalize_path] and the LLVM path functions),
      NinjaManifest (Manifest.cpp), NinjaLoader (ManifestLoader.cpp), NinjaLoaderInv,
      NinjaLoaderProps.
    - Processes: Process (POSIXEnvironment.h, ProcessGroup), ControlProtocol
      ([ControlProtocolState]), Subprocess and SubprocessProps (Subprocess.cpp),
      ExecutionQueue (LaneBasedExecutionQueue.cpp as a transition system),
      ExecutionQueueInv, ExecutionQueueLanes, ExecutionQueueProps, ExecutionQueueLive;
      SerialQueue, SerialQueueProps, SerialExecution, SerialExecutionProps (SerialQueue.cpp:
      the serial queue and the execution queue on it, whose steps are steps of the former;
      [addJob] reads and writes its unprotected counter and queues the job in three steps).
    - Commands: BuildNode (BuildNode.cpp, Hashing.h), ExternalCommand and
      ExternalCommandProps (ExternalCommand.cpp), ShellCommand and ShellCommandProps
      (ShellCommand.cpp).
    - Build system, lib/BuildSystem/BuildSystem.cpp: BuildTasks, BuildTasksProps, BuildTrees
      (the tasks behind the keys, directory trees), BuildRules, BuildRulesProps (the rule
      and the task of a key, nodes made on the fly), BuildTools, BuildToolsProps (phony,
      clang, swift-get-version, mkdir, symlink, archive, shared-library,
      stale-file-removal), SwiftCompiler, SwiftProps (the Swift compiler command, JSON.h),
      BuildCommands (the commands as one type, the tools that make them), BuildClient (all
      of it as the client the engine runs; the assertion of a callback that fails ends the
      program, [system_step]).
    - Build description: BuildDescription (BuildDescription.cpp,
      BuildDescriptionBuilder.cpp: the builder and the ownership analysis), OwnershipProps,
      DescriptionProps (the invariant of the builder), BuildFile (BuildFile.cpp: the reader
      of YAML nodes, and the loading of BuildSystem.cpp), BuildFileProps, BuildManifest
      (manifests against calls of the builder), BuildLoad (from a file to a build).
    - Ninja builds, lib/Commands/NinjaBuildCommand.cpp: NinjaValue (the values of rules),
      NinjaBuild (the context, tasks and rules), NinjaBuildProps (when a command is run and
      when its result is valid), NinjaStop (failures and cancellation), NinjaRules (the
      rules of a manifest and the types of their values), NinjaStatus (the status line).
    - The build database, lib/Core/SQLiteBuildDB.cpp: SQLiteBuildDB (tables, operations),
      SQLiteProps (the invariant of tables and caches, look-up and storing), SQLiteSession
      (sequences of operations and processes against a map with transactions).
    - The frontend, lib/BuildSystem/BuildSystemFrontend.cpp: Invocation (the options of the
      build system), Frontend (initialization, builds, the delegate), FrontendProps.

    ** What is proved

    - The engine: a rule the scan skips is up to date; an invariant over rules, tasks,
      queues and counters holds in every state reachable by interleaving the engine with
      other threads; nothing crashes outside cycle resolution; success means the key is
      built, failure leaves nothing running, being stuck means a cycle, [findCycle] reports
      one exactly then; a task's inputs are complete when it is told so.
    - The build database: while the SQLite library's calls succeed, what processes store in
      turn is what they find later, under the keys' names and with their dependencies,
      whatever numbers engine and tables give the keys; a build's changes appear together
      when it is complete.
    - Commands: what a finished command stores and when a later build accepts it, through
      the encoding of the database; when a command is skipped, run or updated; the
      dependencies it registers are exactly those its process wrote; errors in dependency
      files fail it; signatures do not depend on how the environment is shared.
    - The build system: every well-formed key has the rule its kind asks for and a task made for
      it; what is
      read of files and directories is stored and accepted again exactly when it is
      unchanged; tree signatures do not depend on the order of delivery; stale file removal
      removes exactly the stale files, a link is made again exactly when it changed, the
      Swift output file map is JSON that says what it should; and the whole is a client the
      engine's theorems hold for.
    - The build description: loading a file ends with a well-formed description or a
      reported failure; a manifest and a client that calls the builder make the same
      description; the ownership analysis finds commands that write below each other's outputs, gives
      directories to
      those who write around them and lets others wait; a loaded description is one whose
      builds the engine's theorems hold for.
    - The frontend: a build answers true exactly if nothing went wrong and it was not
      cancelled, whatever other threads do; a frontend whose initialization failed only
      answers false; a process's output is printed in one piece; every invocation can be
      asked for on the command line.
    - Round trips and injectivity of keys, values, dependency files and quoted command
      lines; the parsers stay in their buffers and terminate.
    - Ninja: tokens tile the buffer, the parser terminates and follows its delegate's
      protocol, the loader terminates with a well-formed manifest or reports errors, path
      normalization implements the resolution of components.
    - Ninja builds: a command is run, skipped or taken as built exactly when it should; a
      stored result is accepted exactly when the command and its outputs are unchanged; the
      rules of a manifest ask each other only for values they can handle; the tolerated
      number of failures stops the build, whatever runs at the same time.
    - Processes: a spawned process is started, finished and completed exactly once with
      all descriptors closed; the queue runs every job exactly once, loses no wakeup,
      drains under weak fairness, and cancelling interrupts what can be interrupted; the
      serial queue runs its jobs one at a time in the order they were queued, and ends.

    Examples evaluate the definitions on inputs where the code does something its authors
    probably did not intend; they are named after what happens.

    ** Hypotheses

    [client_ok]: the client's tasks respect the protocol of [TaskInterface]; [Hstore]: the
    database can store results; [settled]: the state between two builds; [System_ok]: what
    the operating system does ([pipe] returns new descriptors, processes exit, [poll] does
    not fail); [creation_ok], [label_ok]: a queue with lanes and jobs with descriptors;
    [lanes_fair], [fair], [worker_fair], [destructor_fair]: weak fairness; [ops_ok]: a description's commands ask for inputs only while
    they get ready (proved of the built-in ones, [commandOps_ok]); [delegate_ok]: nodes and
    commands as loading makes them, a client's custom ones and those of custom tasks too; [database_ok], [database_stores]: the database keeps
    its interface and can store results; [orders_ok]: sorting and hash tables give
    permutations; [outputs_named_once], [one_producer]: commands that take part in the
    ownership analysis share no output; [splits_over]: the variables of a shared environment
    come first in each environment split over it; [file_ok]: the nodes of a YAML document are readable; [graph_spec_ok]: what
    a client describes can be written in a manifest; [names_apart]: no two rules of a Ninja
    manifest have one key ([names_apart_plain] shows it of paths without ampersands);
    [verbatim]: a key is not a number, which SQLite would rewrite; [stored_ok]: epochs and
    signatures of 64 bits; fewer than [2 ^ 62] keys;
    [answers_ok], [outputs_fit]: file information of its width, less than [2 ^ 32] outputs.
    The status line of Ninja builds is a parameter of their tasks; NinjaStatus has its
    definition and shows it is always defined.  [reachable_apart]: no two calls of [addJob]
    overlap, needed only for the numbers of jobs.  The file system is the interface
    [BuildTools.FileSystem] or a function from paths to file information.  The parsers are given buffers that do not end in an
    escape character ([in_bounds], [closed], [files_closed_at_end]); the loader literal include
    paths ([literal_includes]), acyclic includes and rule parameters ([acyclic_includes],
    [acyclic_parameters]) and an absolute working directory.  Each theorem with hypotheses has a witness, [<theorem>_witness].

    ** Fuel

    Loops that are not structural take fuel and fail with [OutOfFuel] when it runs out;
    theorems show that the fuel given suffices.  The parsers get the number of characters
    left plus one, each iteration consuming one; [normalize_path] the length of its buffer
    plus one; the dependency scan the number of recorded dependencies plus one; [findCycle] up to
    [2 ^ search_bound] iterations, more than there are simple paths from the build key;
    [hex_loop] the 16 digits of 64 bits.
    The loader's [stack] is the depth of the C++ stack, not fuel: nesting deeper than it
    is a crash of the program too.  In Subprocess an exhausted list of system answers means
    a call that never returns.

    ** Not modelled

    Tracing and statistics; the printing of SQLiteBuildDB.cpp, SQLite itself and the lock
    around each operation; FileSystem.cpp and PlatformUtility.cpp, which are sequences of
    system calls whose effects only the operating system defines; 
    the YAML reader (LLVM's, a parameter); the attachment of the database and the tracing of
    BuildSystem.cpp; the usage text of BuildSystemFrontend.cpp and its callbacks that only
    forward;
    the C API, the Swift bindings and the command line drivers (of the ninja command: its
    options, the thread that waits for signals, the terminal);
    Windows and Apple variants, the [fork] based spawning; llbuild3; the vendored LLVM,
    googletest and sqlite beyond the functions used. *)

From stdpp Require Import base gmap list strings numbers.

Declare Scope llb_scope.
Delimit Scope llb_scope with llb.
Open Scope llb_scope.

(** ** Outcomes

    C++ code that leaves the language's defined behaviour (a failed [assert],
    a read outside a buffer, a dereferenced dangling pointer, [abort()]) is a
    [Crash] with the reason; everything else is [Ok]. *)
Inductive fault :=
| AssertFailed (what : string)
| OutOfBounds (what : string)
| UseAfterFree (what : string)
| AbortCalled (what : string)
| OutOfFuel.

Inductive outcome (A : Type) :=
| Ok (a : A)
| Crash (f : fault).
Arguments Ok {A} a.
Arguments Crash {A} f.

Definition is_ok {A} (o : outcome A) : bool :=
  match o with Ok _ => true | Crash _ => false end.

Definition obind {A B} (o : outcome A) (f : A -> outcome B) : outcome B :=
  match o with Ok a => f a | Crash e => Crash e end.

(** ** A state monad over outcomes *)
Definition M (S A : Type) : Type := S -> outcome (A * S).

Definition ret {S A} (a : A) : M S A := fun s => Ok (a, s).
Definition bind {S A B} (m : M S A) (f : A -> M S B) : M S B :=
  fun s => match m s with Ok (a, s') => f a s' | Crash e => Crash e end.
Definition get {S} : M S S := fun s => Ok (s, s).
Definition gets {S A} (f : S -> A) : M S A := fun s => Ok (f s, s).
Definition modify {S} (f : S -> S) : M S unit := fun s => Ok (tt, f s).
Definition fail {S A} (e : fault) : M S A := fun _ => Crash e.
Definition ensure {S} (b : bool) (e : fault) : M S unit :=
  if b then ret tt else fail e.
Definition of_option {S A} (e : fault) (o : option A) : M S A :=
  match o with Some a => ret a | None => fail e end.

Notation "x <~ c ; k" := (bind c (fun x => k))
  (at level 90, c at level 85, k at level 200, right associativity) : llb_scope.
Notation "c ;;; k" := (bind c (fun _ => k))
  (at level 90, k at level 200, right associativity) : llb_scope.

(** Run an action over every element of a list, in order. *)
Fixpoint mapM_ {S A} (f : A -> M S unit) (l : list A) : M S unit :=
  match l with
  | [] => ret tt
  | x :: l' => f x ;;; mapM_ f l'
  end.

(** ** Partial correctness of one run *)
Section Post.
Context {S : Type}.

(** If [m] returns from [s], its result and state satisfy [Q]. *)
Definition post {A} (m : M S A) (s : S) (Q : A -> S -> Prop) : Prop :=
  forall a s', m s = Ok (a, s') -> Q a s'.

Lemma post_ret {A} (a : A) s (Q : A -> S -> Prop) : Q a s -> post (ret a) s Q.
Proof. intros H b s' [= <- <-]. exact H. Qed.

Lemma post_bind {A B} (m : M S A) (f : A -> M S B) s Q1 Q :
  post m s Q1 -> (forall a s', Q1 a s' -> post (f a) s' Q) -> post (bind m f) s Q.
Proof.
  unfold post, bind. intros Hm Hf b s2. destruct (m s) as [[a s1]|] eqn:E; [|done].
  intros E2. exact (Hf a s1 (Hm a s1 eq_refl) b s2 E2).
Qed.

Lemma post_mono {A} (m : M S A) s (Q Q' : A -> S -> Prop) :
  post m s Q -> (forall a s', Q a s' -> Q' a s') -> post m s Q'.
Proof. unfold post. eauto. Qed.

Lemma post_bind_get {B} (f : S -> M S B) s Q : post (f s) s Q -> post (bind get f) s Q.
Proof. intros H. exact H. Qed.

Lemma post_bind_gets {A B} (g : S -> A) (f : A -> M S B) s Q :
  post (f (g s)) s Q -> post (bind (gets g) f) s Q.
Proof. intros H. exact H. Qed.

Lemma post_bind_modify {B} (g : S -> S) (f : unit -> M S B) s Q :
  post (f tt) (g s) Q -> post (bind (modify g) f) s Q.
Proof. intros H. exact H. Qed.

Lemma post_modify (g : S -> S) s (Q : unit -> S -> Prop) : Q tt (g s) -> post (modify g) s Q.
Proof. intros H a s' [= <- <-]. exact H. Qed.

Lemma post_fail {A} e s (Q : A -> S -> Prop) : post (fail e) s Q.
Proof. by intros a s' [=]. Qed.

Lemma post_bind_ensure {B} b e (f : unit -> M S B) s Q :
  (b = true -> post (f tt) s Q) -> post (bind (ensure b e) f) s Q.
Proof. destruct b; [intros H; exact (H eq_refl)|]. by intros _ a s' [=]. Qed.

Lemma post_mapM_ {A} (f : A -> M S unit) (l : list A) (I : S -> Prop) s :
  I s -> (forall x s, x ∈ l -> I s -> post (f x) s (fun _ => I)) ->
  post (mapM_ f l) s (fun _ => I).
Proof.
  revert s. induction l as [|x l IH]; intros s Hs Hf; simpl; [by apply post_ret|].
  eapply post_bind; [exact (Hf x s ltac:(left) Hs)|]. intros [] s1 H1.
  apply IH; [done|]. intros y s2 Hy. apply Hf. by right.
Qed.
End Post.

(** ** Evaluating monadic code step by step *)
Section Eval.
Context {S : Type}.

Lemma bind_ok {A B} (m : M S A) (f : A -> M S B) s a s' :
  m s = Ok (a, s') -> bind m f s = f a s'.
Proof. intros E. unfold bind. by rewrite E. Qed.

Lemma bind_ret_l {A B} (a : A) (f : A -> M S B) s : bind (ret a) f s = f a s.
Proof. done. Qed.

Lemma bind_modify {B} (g : S -> S) (f : unit -> M S B) s : bind (modify g) f s = f tt (g s).
Proof. done. Qed.

Lemma bind_ensure {B} b e (f : unit -> M S B) s :
  b = true -> bind (ensure b e) f s = f tt s.
Proof. by intros ->. Qed.

Lemma bind_assoc {A B C} (m : M S A) (f : A -> M S B) (g : B -> M S C) s :
  bind (bind m f) g s = bind m (fun a => bind (f a) g) s.
Proof. unfold bind. by destruct (m s) as [[a s']|]. Qed.

Lemma post_assoc {A B C} (m : M S A) (f : A -> M S B) (g : B -> M S C) s Q :
  post (bind m (fun a => bind (f a) g)) s Q -> post (bind (bind m f) g) s Q.
Proof. unfold post. by setoid_rewrite bind_assoc. Qed.

Lemma post_unassoc {A B C} (m : M S A) (f : A -> M S B) (g : B -> M S C) s Q :
  post (bind (bind m f) g) s Q -> post (bind m (fun a => bind (f a) g)) s Q.
Proof. unfold post. by setoid_rewrite bind_assoc. Qed.

Lemma post_bind_fail {A B} e (f : A -> M S B) s Q : post (bind (fail e) f) s Q.
Proof. by intros a s' [=]. Qed.

Lemma bind_inv {A B} (m : M S A) (f : A -> M S B) s b s' :
  bind m f s = Ok (b, s') -> exists a s1, m s = Ok (a, s1) /\ f a s1 = Ok (b, s').
Proof. unfold bind. destruct (m s) as [[a s1]|]; [eauto|done]. Qed.

Lemma mapM__app {A} (f : A -> M S unit) (l1 l2 : list A) : forall s,
  mapM_ f (l1 ++ l2) s = bind (mapM_ f l1) (fun _ => mapM_ f l2) s.
Proof.
  induction l1 as [|x l1 IH]; intros s; [done|].
  simpl. unfold bind. destruct (f x s) as [[[] s']|]; [apply IH|done].
Qed.
End Eval.

(** ** Total correctness of one run *)
Section Runs.
Context {S : Type}.

(** [m] returns from [s] with a result and state that satisfy [Q]. *)
Definition runs {A} (m : M S A) (s : S) (Q : A -> S -> Prop) : Prop :=
  exists a s', m s = Ok (a, s') /\ Q a s'.

Lemma runs_ret {A} (a : A) s (Q : A -> S -> Prop) : Q a s -> runs (ret a) s Q.
Proof. intros H. by exists a, s. Qed.
Lemma runs_bind {A B} (m : M S A) (f : A -> M S B) s (Q1 : A -> S -> Prop) Q :
  runs m s Q1 -> (forall a s', Q1 a s' -> runs (f a) s' Q) -> runs (bind m f) s Q.
Proof.
  intros (a & s1 & E & H1) Hf. destruct (Hf a s1 H1) as (b & s2 & E2 & H2).
  exists b, s2. split; [|done]. by rewrite (bind_ok _ _ _ _ _ E).
Qed.
Lemma runs_step {A B} (m : M S A) (f : A -> M S B) s a s' Q :
  m s = Ok (a, s') -> runs (f a) s' Q -> runs (bind m f) s Q.
Proof. unfold runs, bind. by intros ->. Qed.
Lemma runs_mono {A} (m : M S A) s (Q Q' : A -> S -> Prop) :
  runs m s Q -> (forall a s', Q a s' -> Q' a s') -> runs m s Q'.
Proof. intros (a & s1 & E & H1) H. exists a, s1. auto. Qed.
Lemma runs_get {B} (f : S -> M S B) s Q : runs (f s) s Q -> runs (bind get f) s Q.
Proof. intros H. exact H. Qed.
Lemma runs_modify g s (Q : unit -> S -> Prop) : Q tt (g s) -> runs (modify g) s Q.
Proof. intros H. by exists tt, (g s). Qed.
Lemma runs_ensure {B} b e (f : unit -> M S B) s Q :
  b = true -> runs (f tt) s Q -> runs (bind (ensure b e) f) s Q.
Proof. intros -> H. exact H. Qed.
End Runs.

(** ** Runs that may be cut short

    [safe cut m s Q]: [m] returns from [s] with a result and state that satisfy
    [Q]; it may run out of fuel only if [cut] holds, and crashes in no other way.
    With [cut := False] this is total correctness. *)
Section Safe.
Context {S : Type} (cut : Prop).

Definition safe {A} (m : M S A) (s : S) (Q : A -> S -> Prop) : Prop :=
  match m s with Ok (a, s') => Q a s' | Crash e => e = OutOfFuel /\ cut end.

Lemma safe_ret {A} (a : A) s (Q : A -> S -> Prop) : Q a s -> safe (ret a) s Q.
Proof. done. Qed.
Lemma safe_bind {A B} (m : M S A) (f : A -> M S B) s (Q1 : A -> S -> Prop) Q :
  safe m s Q1 -> (forall a s', Q1 a s' -> safe (f a) s' Q) -> safe (bind m f) s Q.
Proof. unfold safe, bind. destruct (m s) as [[a s1]|e]; [|done]. intros H1 H. by apply H. Qed.
Lemma safe_mono {A} (m : M S A) s (Q Q' : A -> S -> Prop) :
  safe m s Q -> (forall a s', Q a s' -> Q' a s') -> safe m s Q'.
Proof. unfold safe. destruct (m s) as [[a s1]|e]; auto. Qed.
Lemma safe_get {B} (f : S -> M S B) s Q : safe (f s) s Q -> safe (bind get f) s Q.
Proof. done. Qed.
Lemma safe_modify g s (Q : unit -> S -> Prop) : Q tt (g s) -> safe (modify g) s Q.
Proof. done. Qed.
Lemma safe_ensure {B} b e (f : unit -> M S B) s Q :
  b = true -> safe (f tt) s Q -> safe (bind (ensure b e) f) s Q.
Proof. by intros ->. Qed.
Lemma safe_some {A} e (a : A) o s (Q : A -> S -> Prop) : o = Some a -> Q a s -> safe (of_option e o) s Q.
Proof. by intros ->. Qed.
Lemma safe_fuel {A} s (Q : A -> S -> Prop) : cut -> safe (fail OutOfFuel) s Q.
Proof. done. Qed.
End Safe.

(** ** Sums over finite maps *)
Section MapSum.
Context {K V : Type} `{Countable K}.

Definition msum (f : V -> nat) (m : gmap K V) : nat :=
  map_fold (fun _ v acc => f v + acc)%nat 0%nat m.

Lemma msum_empty f : msum f ∅ = 0%nat.
Proof. apply map_fold_empty. Qed.

Lemma msum_insert_new f m k v : m !! k = None -> msum f (<[k := v]> m) = (f v + msum f m)%nat.
Proof. intros Hk. unfold msum. rewrite map_fold_insert_L; [done|intros; lia|done]. Qed.

Lemma msum_delete f m k v : m !! k = Some v -> msum f m = (f v + msum f (delete k m))%nat.
Proof.
  intros Hk. rewrite <- (insert_delete_id m k v) at 1 by done.
  apply msum_insert_new, lookup_delete_eq.
Qed.

Lemma msum_update f m k v v' : m !! k = Some v ->
  (msum f (<[k := v']> m) + f v = msum f m + f v')%nat.
Proof.
  intros Hk. rewrite (msum_delete f m k v), <- insert_delete_eq by done.
  rewrite msum_insert_new by apply lookup_delete_eq. lia.
Qed.

Lemma msum_le f m k v : m !! k = Some v -> (f v <= msum f m)%nat.
Proof. intros Hk. rewrite (msum_delete f m k v) by done. lia. Qed.

Lemma msum_zero f m : (forall k v, m !! k = Some v -> f v = 0%nat) -> msum f m = 0%nat.
Proof.
  induction m as [|k v m Hk IH] using map_ind; intros Hf; [apply msum_empty|].
  rewrite msum_insert_new by done. rewrite (Hf k v), IH; [done| |apply lookup_insert_eq].
  intros k' v' Hk'. apply (Hf k'). rewrite lookup_insert_ne; [done|]. intros ->; congruence.
Qed.

Lemma msum_pos f m : (0 < msum f m)%nat -> exists k v, m !! k = Some v /\ (0 < f v)%nat.
Proof.
  induction m as [|k v m Hk IH] using map_ind; intros Hpos; [rewrite msum_empty in Hpos; lia|].
  rewrite msum_insert_new in Hpos by done.
  destruct (decide (0 < f v)%nat) as [Hv|Hv].
  - exists k, v. split; [apply lookup_insert_eq|done].
  - destruct IH as (k' & v' & Hk' & Hv'); [lia|]. exists k', v'. split; [|done].
    rewrite lookup_insert_ne; [done|]. intros ->; congruence.
Qed.
End MapSum.

(** ** Lists *)
Lemma elem_of_rev {A} (x : A) (l : list A) : x ∈ rev l <-> x ∈ l.
Proof. by rewrite !list_elem_of_In, <- in_rev. Qed.

Lemma NoDup_snoc {A} (x : A) (l : list A) : x ∉ l -> NoDup l -> NoDup (l ++ [x]).
Proof.
  intros Hx Hl. apply list.NoDup_app. split; [done|]. split; [|apply NoDup_singleton].
  intros y Hy Hy2. apply list_elem_of_singleton in Hy2 as ->. done.
Qed.

Lemma drop_cons_lookup {A} (l : list A) i x rest : drop i l = x :: rest -> l !! i = Some x /\ drop (S i) l = rest.
Proof. intros H. split; [by rewrite <- (Nat.add_0_r i), <- lookup_drop, H|by rewrite <- Nat.add_1_r, <- drop_drop, H]. Qed.

(** ** Automation shared by the components *)
Create HintDb llb discriminated.

(** Reduce monadic code in a hypothesis of the form [m s = Ok _]. *)
Ltac monad_unfold :=
  unfold bind, ret, get, gets, modify, fail, ensure, of_option, obind in *.

Lemma obind_inv {A B} (o : outcome A) (f : A -> outcome B) b : obind o f = Ok b -> exists a, o = Ok a /\ f a = Ok b.
Proof. destruct o as [a|]; [|done]. intros H. by exists a. Qed.

(** Follow a computation in [outcome] that succeeded. *)
Ltac ok_inv :=
  repeat match goal with
    | H : obind _ _ = Ok _ |- _ => apply obind_inv in H as (? & ? & H)
    | H : Ok _ = Ok _ |- _ => injection H as H
    | H : Crash _ = Ok _ |- _ => discriminate H
    | H : match ?x with _ => _ end = Ok _ |- _ => destruct x eqn:?
    end; subst; simpl in *.

(** Case analysis on the scrutinee of the innermost [match] of the goal or of a
    hypothesis, keeping the equation. *)
Ltac split_match :=
  match goal with
  | H : context [match ?x with _ => _ end] |- _ =>
      lazymatch x with
      | context [match _ with _ => _ end] => fail
      | _ => destruct x eqn:?
      end
  | |- context [match ?x with _ => _ end] =>
      lazymatch x with
      | context [match _ with _ => _ end] => fail
      | _ => destruct x eqn:?
      end
  end.

(** Open existentials and conjunctions in the context. *)
Ltac open_hyps :=
  repeat match goal with
    | H : ex _ |- _ => destruct H
    | H : _ /\ _ |- _ => destruct H
    end.
