(* ===== verification/DepKeys.v ===== *)
(** * Dependency lists (DependencyKeyIDs.h)

    [DependencyKeyIDs] stores a list of dependencies as two parallel vectors,
    one of key ids and one of flag bytes.  [DependencyKeyIDs] below is that
    pair; [view] is the abstract list of triples it stands for, and each
    operation is proved to implement the list operation it is documented as. *)

From Stdlib Require Import ZArith Lia.
From stdpp Require Import base list numbers strings.
From S2P Require Import Prelude.

Section DepKeys.
Context {KeyID : Type}.

(** [std::vector<KeyID> keys; std::vector<uint8_t> flags;] *)
Record DependencyKeyIDs := mkDeps { keys : list KeyID; flags : list Z }.

(** The value of [operator[]]. *)
Record KeyIDAndFlags := mkDep { dep_key : KeyID; dep_orderOnly : bool; dep_singleUse : bool }.

(** [flags[index] & 1] and [(flags[index] >> 1) & 1], converted to bool. *)
Definition flag_orderOnly (f : Z) : bool := negb (Z.land f 1 =? 0)%Z.
Definition flag_singleUse (f : Z) : bool := negb (Z.land (Z.shiftr f 1) 1 =? 0)%Z.

(** [(singleUseFlag << 1) | orderOnlyFlag], stored in a [uint8_t]. *)
Definition encode_flags (orderOnlyFlag singleUseFlag : bool) : Z :=
  (Z.lor (Z.shiftl (Z.b2z singleUseFlag) 1) (Z.b2z orderOnlyFlag) mod 256)%Z.

Definition deps_clear (d : DependencyKeyIDs) : DependencyKeyIDs := mkDeps [] [].
Definition deps_empty (d : DependencyKeyIDs) : bool :=
  match keys d with [] => true | _ => false end.
Definition deps_size (d : DependencyKeyIDs) : nat := length (keys d).

(** [operator[]]: reading past the end of either vector is undefined. *)
Definition deps_get (d : DependencyKeyIDs) (n : nat) : outcome KeyIDAndFlags :=
  match keys d !! n, flags d !! n with
  | Some k, Some f => Ok (mkDep k (flag_orderOnly f) (flag_singleUse f))
  | _, _ => Crash (OutOfBounds "DependencyKeyIDs")
  end.

Definition deps_set (d : DependencyKeyIDs) (n : nat) (id : KeyID)
    (orderOnlyFlag singleUseFlag : bool) : outcome DependencyKeyIDs :=
  if (n <? length (keys d))%nat && (n <? length (flags d))%nat
  then Ok (mkDeps (<[n := id]> (keys d))
                  (<[n := encode_flags orderOnlyFlag singleUseFlag]> (flags d)))
  else Crash (OutOfBounds "DependencyKeyIDs").

Definition deps_push_back (d : DependencyKeyIDs) (id : KeyID)
    (orderOnlyFlag singleUseFlag : bool) : DependencyKeyIDs :=
  mkDeps (keys d ++ [id]) (flags d ++ [encode_flags orderOnlyFlag singleUseFlag]).

Definition deps_append (d rhs : DependencyKeyIDs) : DependencyKeyIDs :=
  mkDeps (keys d ++ keys rhs) (flags d ++ flags rhs).

(** [resize]: new entries are value-initialised, with key [nokey]. *)
Definition deps_resize (nokey : KeyID) (n : nat) (d : DependencyKeyIDs) : DependencyKeyIDs :=
  mkDeps (resize n nokey (keys d)) (resize n 0%Z (flags d)).

(** [v.erase(v.begin() + index)]. *)
Definition erase {A} (index : nat) (v : list A) : list A :=
  take index v ++ drop (S index) v.

(** The loop [for (int i = size(); i > 0; i--)], on [index = i - 1]. *)
Fixpoint clean_loop (i : nat) (d : DependencyKeyIDs) : outcome DependencyKeyIDs :=
  match i with
  | O => Ok d
  | S index =>
      match flags d !! index with
      | None => Crash (OutOfBounds "DependencyKeyIDs")
      | Some f =>
          if flag_singleUse f
          then clean_loop index (mkDeps (erase index (keys d)) (erase index (flags d)))
          else clean_loop index d
      end
  end.

Definition cleanSingleUseDependencies (d : DependencyKeyIDs) : outcome DependencyKeyIDs :=
  if (0 <? deps_size d)%nat then clean_loop (deps_size d) d else Ok d.

(** ** The abstract list *)

(** The two vectors have the same length. *)
Definition deps_wf (d : DependencyKeyIDs) : Prop := length (keys d) = length (flags d).

Definition view (d : DependencyKeyIDs) : list KeyIDAndFlags :=
  zip_with (fun k f => mkDep k (flag_orderOnly f) (flag_singleUse f)) (keys d) (flags d).

Lemma encode_flags_orderOnly o s : flag_orderOnly (encode_flags o s) = o.
Proof. by destruct o, s. Qed.
Lemma encode_flags_singleUse o s : flag_singleUse (encode_flags o s) = s.
Proof. by destruct o, s. Qed.
Lemma encode_flags_range o s : (0 <= encode_flags o s < 4)%Z.
Proof. destruct o, s; cbv; split; congruence || done. Qed.

Lemma view_length d : deps_wf d -> length (view d) = deps_size d.
Proof. intros H. unfold view, deps_size. rewrite length_zip_with. red in H. lia. Qed.

Lemma view_app ks1 ks2 fs1 fs2 : length ks1 = length fs1 ->
  view (mkDeps (ks1 ++ ks2) (fs1 ++ fs2)) = view (mkDeps ks1 fs1) ++ view (mkDeps ks2 fs2).
Proof. intros H. unfold view; simpl. by rewrite zip_with_app. Qed.

Lemma view_push_back d k o s : deps_wf d ->
  view (deps_push_back d k o s) = view d ++ [mkDep k o s] /\ deps_wf (deps_push_back d k o s).
Proof.
  intros H. unfold deps_push_back. split.
  - rewrite view_app by done. f_equal. unfold view; simpl.
    by rewrite encode_flags_orderOnly, encode_flags_singleUse.
  - red; simpl. rewrite !length_app; simpl. red in H; lia.
Qed.

Lemma view_append d1 d2 : deps_wf d1 -> deps_wf d2 ->
  view (deps_append d1 d2) = view d1 ++ view d2 /\ deps_wf (deps_append d1 d2).
Proof.
  intros H1 H2. unfold deps_append. split.
  - by rewrite view_app.
  - red; simpl. rewrite !length_app. red in H1, H2; lia.
Qed.

Lemma view_clear d : view (deps_clear d) = [] /\ deps_wf (deps_clear d).
Proof. done. Qed.

Lemma deps_empty_size d : deps_empty d = (deps_size d =? 0)%nat.
Proof. unfold deps_empty, deps_size. by destruct (keys d). Qed.

Lemma deps_get_view d n : deps_wf d ->
  deps_get d n = match view d !! n with
                 | Some x => Ok x
                 | None => Crash (OutOfBounds "DependencyKeyIDs")
                 end.
Proof.
  intros H. unfold deps_get, view. rewrite lookup_zip_with.
  destruct (keys d !! n) as [k|] eqn:Hk; simpl; [|done].
  by destruct (flags d !! n).
Qed.

Lemma deps_get_size d n x : deps_get d n = Ok x -> (n < deps_size d)%nat.
Proof.
  unfold deps_get, deps_size. destruct (keys d !! n) eqn:E; [|by destruct (flags d !! n)].
  intros _. by eapply lookup_lt_Some.
Qed.

Lemma deps_get_lt d n : (n < deps_size d)%nat -> deps_wf d -> exists x, deps_get d n = Ok x.
Proof.
  intros Hn Hwf. rewrite (deps_get_view d n Hwf).
  destruct (view d !! n) eqn:E; [eauto|]. apply lookup_ge_None in E. rewrite view_length in E by done. lia.
Qed.

Lemma view_one k f : view (mkDeps [k] [f]) = [mkDep k (flag_orderOnly f) (flag_singleUse f)].
Proof. done. Qed.

Lemma erase_app_mid {A} i (l r : list A) x : length l = i -> erase i (l ++ x :: r) = l ++ r.
Proof.
  intros <-. unfold erase. rewrite take_app_length.
  by rewrite (drop_app_ge _ _ (S (length l))), Nat.sub_succ_l, Nat.sub_diag by lia.
Qed.

Lemma clean_loop_spec i d rest : deps_wf d -> deps_wf rest -> i = length (keys d) ->
  exists d', clean_loop i (mkDeps (keys d ++ keys rest) (flags d ++ flags rest)) = Ok d' /\
    deps_wf d' /\
    view d' = filter (fun x => dep_singleUse x = false) (view d) ++ view rest.
Proof.
  revert d rest. induction i as [|i IH]; intros d rest Hd Hr Hi.
  - destruct d as [[|] [|]]; try done. simpl. destruct rest as [ks fs]. eexists. split; [done|].
    split; done.
  - red in Hd. destruct d as [ks fs]; simpl in *.
    destruct (exists_last (l := ks)) as (ks' & k & ->); [by intros ->|].
    destruct (exists_last (l := fs)) as (fs' & f & ->);
      [intros ->; rewrite length_app in Hi; simpl in *; rewrite length_app in Hd; simpl in Hd; lia|].
    rewrite !length_app in *; simpl in *.
    assert (Hlk : length ks' = i) by lia. assert (Hlf : length fs' = i) by lia.
    rewrite lookup_app_l by (rewrite length_app; simpl; lia).
    rewrite lookup_app_r by lia. rewrite Hlf, Nat.sub_diag; simpl.
    rewrite view_app by lia. rewrite filter_app.
    destruct (flag_singleUse f) eqn:Hf.
    + rewrite <- !app_assoc; simpl. rewrite !erase_app_mid by lia.
      destruct (IH (mkDeps ks' fs') rest) as (d' & E & W & V); [red; simpl; lia|done|done|].
      exists d'. split; [done|split; [done|]].
      rewrite V. f_equal.
      rewrite view_one, filter_cons_False; [done|].
      simpl; congruence.
    + rewrite <- !app_assoc; simpl.
      destruct (IH (mkDeps ks' fs') (mkDeps (k :: keys rest) (f :: flags rest)))
        as (d' & E & W & V); [red; simpl; lia|red; simpl; red in Hr; lia|done|].
      exists d'. split; [done|split; [done|]].
      rewrite V, view_one. f_equal.
      by rewrite filter_cons_True.
Qed.

Lemma cleanSingleUse_ok dp : deps_wf dp ->
  exists dp', cleanSingleUseDependencies dp = Ok dp' /\ deps_wf dp'
    /\ view dp' = filter (fun x => dep_singleUse x = false) (view dp).
Proof.
  intros H. unfold cleanSingleUseDependencies. destruct (0 <? deps_size dp)%nat eqn:E.
  - destruct (clean_loop_spec (deps_size dp) dp (mkDeps [] [])) as (d' & E1 & E2 & E3); [done..|].
    destruct dp as [ks fs]. cbn in *. rewrite !app_nil_r in E1. rewrite app_nil_r in E3. eauto.
  - exists dp. split; [done|]. split; [done|].
    apply Nat.ltb_ge in E. unfold deps_size in E. unfold view.
    destruct dp as [[|] ?]; cbn in *; [done|lia].
Qed.

(** The in-place, reverse-order removal of single-use entries stays inside both
    vectors and leaves exactly the other entries, in order, with their flags. *)
Theorem cleanSingleUse_filters d : deps_wf d ->
  exists d', cleanSingleUseDependencies d = Ok d' /\ deps_wf d'
    /\ view d' = filter (fun x => dep_singleUse x = false) (view d).
Proof. apply cleanSingleUse_ok. Qed.
End DepKeys.

Arguments DependencyKeyIDs : clear implicits.
Arguments KeyIDAndFlags : clear implicits.

Lemma cleanSingleUse_filters_witness :
  exists d', cleanSingleUseDependencies
      (deps_push_back (deps_push_back (deps_push_back (mkDeps [] []) 1 true false) 2 false true) 3 false false)%nat
      = Ok d' /\ view d' = [mkDep 1 true false; mkDep 3 false false]%nat.
Proof.
  destruct (cleanSingleUse_filters
    (deps_push_back (deps_push_back (deps_push_back (mkDeps [] []) 1 true false) 2 false true) 3 false false)%nat)
    as (d' & E & _ & V); [reflexivity|].
  exists d'. split; [exact E|]. rewrite V. reflexivity.
Defined.
