(* ===== verification/Engine.v ===== *)
(** * The build engine (BuildEngine.cpp): data and operations

    A shallow embedding of [BuildEngineImpl].  The engine's fields are the
    record [State]; every member function is an action of the monad [E], which
    threads the state and turns undefined behaviour, [abort()] and failed
    [assert]s into a [Crash].

    - A [RuleInfo*] is the [KeyID] of its rule (the map never erases entries and
      its references are stable).  A [KeyID] is the interned key itself; the key
      table that interns keys is in KeyTable.v.
    - A [Task*]/[TaskInfo*] is a [TaskID]: [createTask] allocates a new object,
      whose address is modelled by a serial number; [taskInfos] is the map of the
      tasks that exist, so a pointer to an erased one fails its lookup.
    - A [RuleScanRecord*] is owned by exactly one scanning rule, so the record is
      stored in the rule; [DanglingScanRecord] is the pointer after its block was
      deleted at the end of a build.  ScanRecords.v models the allocator.
    - [std::vector]s that the engine only uses at the back ([ruleInfosToScan],
      [finishedInputRequests], [finishedTaskInfos]) are lists whose head is
      [back()]; the deques keep their order, head first.
    - Everything outside the engine (the delegate, the rules' and tasks' virtual
      methods, the database, the clock) is the record [Client] of functions on an
      abstract world [W].  A task's callback returns the [TaskInterface] calls it
      makes, in order.
    - [BuildEngineTrace] calls only write a log and are left out. *)

From Stdlib Require Import ZArith Ascii.
From stdpp Require Import base gmap list strings numbers.
From S2P Require Import Prelude DepKeys.

Abbreviation KeyID := string.
Abbreviation TaskID := N.
(** [std::vector<uint8_t>]. *)
Abbreviation ValueType := (list Z).

(** The double quote. *)
Definition dquote : string := String "034"%char EmptyString.

(** [kMustFollowInputID = ~(uintptr_t)0] and
    [kMaximumInputID = ~(uintptr_t)0xFF], on 64-bit targets. *)
Definition kMustFollowInputID : Z := 2 ^ 64 - 1.
Definition kMaximumInputID : Z := 2 ^ 64 - 1 - 255.

(** [Rule::StatusKind], [Rule::CycleAction], [Rule::RunReason]. *)
Inductive StatusKind := StatusIsScanning | StatusIsUpToDate | StatusIsComplete.
Inductive CycleAction := ForceBuild | SupplyPriorValue.
Inductive RunReason := NeverBuilt | SignatureChanged | InvalidValue | InputRebuilt | Forced.

(** The data members of [Rule]; its virtual methods are in [Client]. *)
Record Rule := mkRule { rule_key : KeyID; rule_signature : Z }.

(** [struct Result]. *)
Record Result := mkResult {
  value : ValueType;
  signature : Z;
  computedAt : Z;
  builtAt : Z;
  dependencies : DependencyKeyIDs KeyID;
  start_time : Z;
  end_time : Z }.

(** [Result result = {};] *)
Definition emptyResult : Result := mkResult [] 0 0 0 (mkDeps [] []) 0 0.

(** [RuleInfo::StateKind]. *)
Inductive StateKind :=
| Incomplete | IsScanning | NeedsToRun | DoesNotNeedToRun
| InProgressWaiting | InProgressComputing | Complete.

#[global] Instance StateKind_eq_dec : EqDecision StateKind.
Proof. solve_decision. Defined.

(** The enumerators' integer values, as compared by [isScanned]. *)
Definition StateKind_int (k : StateKind) : Z :=
  match k with
  | Incomplete => 0 | IsScanning => 1 | NeedsToRun => 2 | DoesNotNeedToRun => 3
  | InProgressWaiting => 4 | InProgressComputing => 5 | Complete => 6
  end.

(** [struct TaskInputRequest]. *)
Record TaskInputRequest := mkInputRequest {
  ireq_taskInfo : option TaskID;
  ireq_inputID : Z;
  ireq_inputRuleInfo : KeyID;
  ireq_orderOnly : bool;
  ireq_forcePriorValue : bool;
  ireq_singleUse : bool }.

(** [struct RuleScanRequest]. *)
Record RuleScanRequest := mkScanRequest {
  sreq_ruleInfo : KeyID;
  sreq_inputIndex : nat;
  sreq_inputRuleInfo : option KeyID;
  sreq_orderOnly : bool;
  sreq_singleUse : bool;
  sreq_needsToRun : bool }.

(** [struct RuleScanRecord]. *)
Record RuleScanRecord := mkScanRecord {
  pausedInputRequests : list TaskInputRequest;
  deferredScanRequests : list RuleScanRequest }.

Definition emptyScanRecord : RuleScanRecord := mkScanRecord [] [].

(** The union [inProgressInfo]. *)
Inductive InProgressInfo :=
| NullInfo
| PendingScanRecord (r : RuleScanRecord)
| DanglingScanRecord
| PendingTaskInfo (t : TaskID).

(** [struct RuleInfo]; its [keyID] is the key of the map [ruleInfos]. *)
Record RuleInfo := mkRuleInfo {
  rule : Rule;
  inProgressInfo : InProgressInfo;
  result : Result;
  state : StateKind;
  wasForced : bool }.

(** [struct TaskInfo]; its [task] is the key of the map [taskInfos]. *)
Record TaskInfo := mkTaskInfo {
  requestedBy : list TaskInputRequest;
  ti_deferredScanRequests : list RuleScanRequest;
  forRuleInfo : KeyID;
  waitCount : nat;
  discoveredDependencies : DependencyKeyIDs KeyID }.

(** The calls a task can make through its [TaskInterface]. *)
Inductive TaskCall :=
| CallRequest (key : KeyID) (inputID : Z)
| CallRequestSingleUse (key : KeyID) (inputID : Z)
| CallMustFollow (key : KeyID)
| CallDiscoveredDependency (key : KeyID)
| CallComplete (v : ValueType) (forceChange : bool).

Section Engine.
Context {W : Type}.

(** The abstract interface [BuildDB]; a returned [Some e] is a failure with
    message [e]. *)
Record BuildDB := mkDB {
  db_getCurrentEpoch : W -> (Z * bool) * W;
  db_setCurrentIteration : Z -> W -> option string * W;
  db_lookupRuleResult : KeyID -> Rule -> W -> (option Result * string) * W;
  db_setRuleResult : KeyID -> Rule -> Result -> W -> option string * W;
  db_buildStarted : W -> option string * W;
  db_buildComplete : W -> W }.

(** The client code the engine calls. *)
Record Client := mkClient {
  lookupRule : KeyID -> W -> Rule * W;
  determinedRuleNeedsToRun : Rule -> RunReason -> option Rule -> W -> W;
  shouldResolveCycle : list Rule -> Rule -> CycleAction -> W -> bool * W;
  cycleDetected : list Rule -> W -> W;
  delegate_error : string -> W -> W;
  createTask : Rule -> TaskID -> W -> W;
  isResultValid : Rule -> ValueType -> W -> bool * W;
  updateStatus : Rule -> StatusKind -> W -> W;
  checksDependenciesBeforeRunning : Rule -> bool;
  mustCheckDependencyBeforeRunning : Rule -> KeyID -> W -> bool * W;
  task_start : TaskID -> W -> list TaskCall * W;
  task_providePriorValue : TaskID -> ValueType -> W -> list TaskCall * W;
  task_provideValue : TaskID -> Z -> KeyID -> ValueType -> W -> list TaskCall * W;
  task_inputsAvailable : TaskID -> W -> list TaskCall * W;
  clock_now : W -> Z * W;
  db : option BuildDB }.

(** The fields of [BuildEngineImpl]. *)
Record State := mkState {
  ruleInfos : gmap KeyID RuleInfo;
  taskInfos : gmap TaskID TaskInfo;
  inputRequests : list TaskInputRequest;
  finishedInputRequests : list TaskInputRequest;
  ruleInfosToScan : list RuleScanRequest;
  readyTaskInfos : list TaskID;
  numOutstandingUnfinishedTasks : nat;
  finishedTaskInfos : list TaskID;
  currentEpoch : Z;
  buildCancelled : bool;
  buildRunning : bool;
  executionQueue : bool;
  nextTask : N;
  world : W }.

Definition upd_ruleInfos (f : gmap KeyID RuleInfo -> gmap KeyID RuleInfo) (s : State) : State :=
  mkState (f (ruleInfos s)) (taskInfos s) (inputRequests s) (finishedInputRequests s)
    (ruleInfosToScan s) (readyTaskInfos s) (numOutstandingUnfinishedTasks s)
    (finishedTaskInfos s) (currentEpoch s) (buildCancelled s) (buildRunning s)
    (executionQueue s) (nextTask s) (world s).
Definition upd_taskInfos (f : gmap TaskID TaskInfo -> gmap TaskID TaskInfo) (s : State) : State :=
  mkState (ruleInfos s) (f (taskInfos s)) (inputRequests s) (finishedInputRequests s)
    (ruleInfosToScan s) (readyTaskInfos s) (numOutstandingUnfinishedTasks s)
    (finishedTaskInfos s) (currentEpoch s) (buildCancelled s) (buildRunning s)
    (executionQueue s) (nextTask s) (world s).
Definition upd_inputRequests (f : list TaskInputRequest -> list TaskInputRequest) (s : State) : State :=
  mkState (ruleInfos s) (taskInfos s) (f (inputRequests s)) (finishedInputRequests s)
    (ruleInfosToScan s) (readyTaskInfos s) (numOutstandingUnfinishedTasks s)
    (finishedTaskInfos s) (currentEpoch s) (buildCancelled s) (buildRunning s)
    (executionQueue s) (nextTask s) (world s).
Definition upd_finishedInputRequests (f : list TaskInputRequest -> list TaskInputRequest) (s : State) : State :=
  mkState (ruleInfos s) (taskInfos s) (inputRequests s) (f (finishedInputRequests s))
    (ruleInfosToScan s) (readyTaskInfos s) (numOutstandingUnfinishedTasks s)
    (finishedTaskInfos s) (currentEpoch s) (buildCancelled s) (buildRunning s)
    (executionQueue s) (nextTask s) (world s).
Definition upd_ruleInfosToScan (f : list RuleScanRequest -> list RuleScanRequest) (s : State) : State :=
  mkState (ruleInfos s) (taskInfos s) (inputRequests s) (finishedInputRequests s) (f
    (ruleInfosToScan s)) (readyTaskInfos s) (numOutstandingUnfinishedTasks s)
    (finishedTaskInfos s) (currentEpoch s) (buildCancelled s) (buildRunning s)
    (executionQueue s) (nextTask s) (world s).
Definition upd_readyTaskInfos (f : list TaskID -> list TaskID) (s : State) : State :=
  mkState (ruleInfos s) (taskInfos s) (inputRequests s) (finishedInputRequests s)
    (ruleInfosToScan s) (f (readyTaskInfos s)) (numOutstandingUnfinishedTasks s)
    (finishedTaskInfos s) (currentEpoch s) (buildCancelled s) (buildRunning s)
    (executionQueue s) (nextTask s) (world s).
Definition upd_numOutstandingUnfinishedTasks (f : nat -> nat) (s : State) : State :=
  mkState (ruleInfos s) (taskInfos s) (inputRequests s) (finishedInputRequests s)
    (ruleInfosToScan s) (readyTaskInfos s) (f (numOutstandingUnfinishedTasks s))
    (finishedTaskInfos s) (currentEpoch s) (buildCancelled s) (buildRunning s)
    (executionQueue s) (nextTask s) (world s).
Definition upd_finishedTaskInfos (f : list TaskID -> list TaskID) (s : State) : State :=
  mkState (ruleInfos s) (taskInfos s) (inputRequests s) (finishedInputRequests s)
    (ruleInfosToScan s) (readyTaskInfos s) (numOutstandingUnfinishedTasks s) (f
    (finishedTaskInfos s)) (currentEpoch s) (buildCancelled s) (buildRunning s)
    (executionQueue s) (nextTask s) (world s).
Definition upd_currentEpoch (f : Z -> Z) (s : State) : State :=
  mkState (ruleInfos s) (taskInfos s) (inputRequests s) (finishedInputRequests s)
    (ruleInfosToScan s) (readyTaskInfos s) (numOutstandingUnfinishedTasks s)
    (finishedTaskInfos s) (f (currentEpoch s)) (buildCancelled s) (buildRunning s)
    (executionQueue s) (nextTask s) (world s).
Definition upd_buildCancelled (f : bool -> bool) (s : State) : State :=
  mkState (ruleInfos s) (taskInfos s) (inputRequests s) (finishedInputRequests s)
    (ruleInfosToScan s) (readyTaskInfos s) (numOutstandingUnfinishedTasks s)
    (finishedTaskInfos s) (currentEpoch s) (f (buildCancelled s)) (buildRunning s)
    (executionQueue s) (nextTask s) (world s).
Definition upd_buildRunning (f : bool -> bool) (s : State) : State :=
  mkState (ruleInfos s) (taskInfos s) (inputRequests s) (finishedInputRequests s)
    (ruleInfosToScan s) (readyTaskInfos s) (numOutstandingUnfinishedTasks s)
    (finishedTaskInfos s) (currentEpoch s) (buildCancelled s) (f (buildRunning s))
    (executionQueue s) (nextTask s) (world s).
Definition upd_executionQueue (f : bool -> bool) (s : State) : State :=
  mkState (ruleInfos s) (taskInfos s) (inputRequests s) (finishedInputRequests s)
    (ruleInfosToScan s) (readyTaskInfos s) (numOutstandingUnfinishedTasks s)
    (finishedTaskInfos s) (currentEpoch s) (buildCancelled s) (buildRunning s) (f
    (executionQueue s)) (nextTask s) (world s).
Definition upd_nextTask (f : N -> N) (s : State) : State :=
  mkState (ruleInfos s) (taskInfos s) (inputRequests s) (finishedInputRequests s)
    (ruleInfosToScan s) (readyTaskInfos s) (numOutstandingUnfinishedTasks s)
    (finishedTaskInfos s) (currentEpoch s) (buildCancelled s) (buildRunning s)
    (executionQueue s) (f (nextTask s)) (world s).
Definition upd_world (f : W -> W) (s : State) : State :=
  mkState (ruleInfos s) (taskInfos s) (inputRequests s) (finishedInputRequests s)
    (ruleInfosToScan s) (readyTaskInfos s) (numOutstandingUnfinishedTasks s)
    (finishedTaskInfos s) (currentEpoch s) (buildCancelled s) (buildRunning s)
    (executionQueue s) (nextTask s) (f (world s)).

Abbreviation E := (M State).
Context (client : Client).

(** ** Field access *)

(** Run client code on the world. *)
Definition client_call {A} (f : W -> A * W) : E A :=
  fun s => let (a, w) := f (world s) in Ok (a, upd_world (fun _ => w) s).
Definition client_notify (f : W -> W) : E unit := modify (upd_world f).

(** Dereference a [RuleInfo*] or a [TaskInfo*], and write through it. *)
Definition rule_at (k : KeyID) : E RuleInfo :=
  fun s => match ruleInfos s !! k with
           | Some ri => Ok (ri, s) | None => Crash (UseAfterFree "RuleInfo") end.
Definition write_rule (k : KeyID) (ri : RuleInfo) : E unit :=
  modify (upd_ruleInfos (fun m => <[k := ri]> m)).
Definition task_at (t : TaskID) : E TaskInfo :=
  fun s => match taskInfos s !! t with
           | Some ti => Ok (ti, s) | None => Crash (UseAfterFree "TaskInfo") end.
Definition write_task (t : TaskID) (ti : TaskInfo) : E unit :=
  modify (upd_taskInfos (fun m => <[t := ti]> m)).
Definition lift {A} (o : outcome A) : E A :=
  fun s => match o with Ok a => Ok (a, s) | Crash f => Crash f end.

Definition with_state (k : StateKind) (ri : RuleInfo) : RuleInfo :=
  mkRuleInfo (rule ri) (inProgressInfo ri) (result ri) k (wasForced ri).
Definition with_info (i : InProgressInfo) (ri : RuleInfo) : RuleInfo :=
  mkRuleInfo (rule ri) i (result ri) (state ri) (wasForced ri).
Definition with_result (r : Result) (ri : RuleInfo) : RuleInfo :=
  mkRuleInfo (rule ri) (inProgressInfo ri) r (state ri) (wasForced ri).
Definition with_forced (b : bool) (ri : RuleInfo) : RuleInfo :=
  mkRuleInfo (rule ri) (inProgressInfo ri) (result ri) (state ri) b.
Definition with_dependencies (d : DependencyKeyIDs KeyID) (r : Result) : Result :=
  mkResult (value r) (signature r) (computedAt r) (builtAt r) d (start_time r) (end_time r).

Definition with_requestedBy (l : list TaskInputRequest) (ti : TaskInfo) : TaskInfo :=
  mkTaskInfo l (ti_deferredScanRequests ti) (forRuleInfo ti) (waitCount ti)
    (discoveredDependencies ti).
Definition with_tiDeferred (l : list RuleScanRequest) (ti : TaskInfo) : TaskInfo :=
  mkTaskInfo (requestedBy ti) l (forRuleInfo ti) (waitCount ti) (discoveredDependencies ti).
Definition with_waitCount (n : nat) (ti : TaskInfo) : TaskInfo :=
  mkTaskInfo (requestedBy ti) (ti_deferredScanRequests ti) (forRuleInfo ti) n
    (discoveredDependencies ti).
Definition with_discovered (d : DependencyKeyIDs KeyID) (ti : TaskInfo) : TaskInfo :=
  mkTaskInfo (requestedBy ti) (ti_deferredScanRequests ti) (forRuleInfo ti) (waitCount ti) d.

(** ** RuleInfo's member functions *)

Definition isScanning (ri : RuleInfo) : bool := bool_decide (state ri = IsScanning).
Definition isInProgressWaiting (ri : RuleInfo) : bool :=
  bool_decide (state ri = InProgressWaiting).
Definition isInProgressComputing (ri : RuleInfo) : bool :=
  bool_decide (state ri = InProgressComputing).
Definition isInProgress (ri : RuleInfo) : bool :=
  isInProgressWaiting ri || isInProgressComputing ri.
Definition isComplete (epoch : Z) (ri : RuleInfo) : bool :=
  bool_decide (state ri = Complete) && (builtAt (result ri) =? epoch)%Z.
Definition isScanned (epoch : Z) (ri : RuleInfo) : bool :=
  if bool_decide (state ri = Complete) then isComplete epoch ri
  else (StateKind_int IsScanning <? StateKind_int (state ri))%Z.

Definition setComputing (k : KeyID) : E unit :=
  ri <~ rule_at k;
  ensure (isInProgressWaiting ri) (AssertFailed "setComputing") ;;;
  now <~ client_call (clock_now client);
  let r := result ri in
  write_rule k (with_state InProgressComputing
    (with_result (mkResult (value r) (signature r) (computedAt r) (builtAt r)
                    (dependencies r) now (end_time r)) ri)).

Definition setComplete (k : KeyID) : E unit :=
  ri <~ rule_at k;
  epoch <~ gets currentEpoch;
  now <~ client_call (clock_now client);
  let r := result ri in
  write_rule k (with_state Complete
    (with_result (mkResult (value r) (signature r) (computedAt r) epoch
                    (dependencies r) (start_time r) now) ri)).

(** [state = Incomplete]. *)
Definition setCancelled (ri : RuleInfo) : RuleInfo := with_state Incomplete ri.

Definition getPendingScanRecord (k : KeyID) : E RuleScanRecord :=
  ri <~ rule_at k;
  ensure (isScanning ri) (AssertFailed "getPendingScanRecord") ;;;
  match inProgressInfo ri with
  | PendingScanRecord r => ret r
  | _ => fail (UseAfterFree "RuleScanRecord")
  end.

Definition getPendingTaskInfo (k : KeyID) : E TaskID :=
  ri <~ rule_at k;
  ensure (isInProgress ri) (AssertFailed "getPendingTaskInfo") ;;;
  match inProgressInfo ri with
  | PendingTaskInfo t => ret t
  | _ => fail (UseAfterFree "TaskInfo")
  end.

(** ** Rules *)

Definition push_scan (req : RuleScanRequest) : E unit :=
  modify (upd_ruleInfosToScan (cons req)).
Definition push_input (req : TaskInputRequest) : E unit :=
  modify (upd_inputRequests (fun l => l ++ [req])).
Definition set_cancelled : E unit := modify (upd_buildCancelled (fun _ => true)).

(** [addRule(keyID, rule)]. *)
Definition addRule (k : KeyID) (r : Rule) : E unit :=
  s <~ get;
  match ruleInfos s !! k with
  | Some ri =>
      client_notify (delegate_error client
        ("attempt to register duplicate rule " ++ dquote ++ rule_key (rule ri) ++ dquote
           ++ String "010"%char EmptyString)%string) ;;;
      set_cancelled
  | None =>
      write_rule k (mkRuleInfo r NullInfo emptyResult Incomplete false) ;;;
      match db client with
      | None => ret tt
      | Some d =>
          p <~ client_call (db_lookupRuleResult d k r);
          let (found, err) := p : option Result * string in
          (match found with
           | Some res => ri <~ rule_at k; write_rule k (with_result res ri)
           | None => ret tt
           end) ;;;
          if decide (err = EmptyString) then ret tt
          else client_notify (delegate_error client err) ;;; set_cancelled
      end
  end.

(** [getRuleInfoForKey]: make sure the rule of [k] is registered. *)
Definition getRuleInfoForKey (k : KeyID) : E unit :=
  s <~ get;
  match ruleInfos s !! k with
  | Some _ => ret tt
  | None => r <~ client_call (lookupRule client k); addRule k r
  end.

(** ** Requests made by tasks *)

Definition addTaskInputRequest (t : TaskID) (key : KeyID) (inputID : Z)
    (orderOnly singleUse : bool) : E unit :=
  ti <~ task_at t;
  ri <~ rule_at (forRuleInfo ti);
  ensure (isInProgressWaiting ri) (AbortCalled "addTaskInputRequest") ;;;
  getRuleInfoForKey key ;;;
  push_input (mkInputRequest (Some t) inputID key orderOnly false singleUse) ;;;
  ti <~ task_at t;
  write_task t (with_waitCount (S (waitCount ti)) ti).

Definition reserved_input_id : E unit :=
  client_notify (delegate_error client "attempt to use reserved input ID") ;;; set_cancelled.

Definition taskNeedsInput (t : TaskID) (key : KeyID) (inputID : Z) : E unit :=
  if (kMaximumInputID <? inputID)%Z then reserved_input_id
  else addTaskInputRequest t key inputID false false.

Definition taskNeedsSingleUseInput (t : TaskID) (key : KeyID) (inputID : Z) : E unit :=
  if (kMaximumInputID <? inputID)%Z then reserved_input_id
  else addTaskInputRequest t key inputID false true.

Definition taskMustFollow (t : TaskID) (key : KeyID) : E unit :=
  addTaskInputRequest t key kMustFollowInputID true false.

Definition taskDiscoveredDependency (t : TaskID) (key : KeyID) : E unit :=
  ti <~ task_at t;
  ri <~ rule_at (forRuleInfo ti);
  if isInProgressComputing ri
  then write_task t (with_discovered
         (deps_push_back (discoveredDependencies ti) key false false) ti)
  else client_notify (delegate_error client
         "invalid state for adding discovered dependency") ;;; set_cancelled.

Definition taskIsComplete (t : TaskID) (v : ValueType) (forceChange : bool) : E unit :=
  ti <~ task_at t;
  ri <~ rule_at (forRuleInfo ti);
  if negb (isInProgressComputing ri)
  then client_notify (delegate_error client
         "invalid state for marking task complete") ;;; set_cancelled
  else
    t' <~ getPendingTaskInfo (forRuleInfo ti);
    ensure (bool_decide (t = t')) (AssertFailed "taskIsComplete") ;;;
    epoch <~ gets currentEpoch;
    let r := result ri in
    let r' :=
      if negb forceChange && bool_decide (v = value r)
      then mkResult (value r) (rule_signature (rule ri)) (computedAt r) (builtAt r)
             (dependencies r) (start_time r) (end_time r)
      else mkResult v (rule_signature (rule ri)) epoch (builtAt r)
             (dependencies r) (start_time r) (end_time r) in
    write_rule (forRuleInfo ti) (with_result r' ri) ;;;
    modify (upd_finishedTaskInfos (cons t)).

Definition taskCall (t : TaskID) (c : TaskCall) : E unit :=
  match c with
  | CallRequest key inputID => taskNeedsInput t key inputID
  | CallRequestSingleUse key inputID => taskNeedsSingleUseInput t key inputID
  | CallMustFollow key => taskMustFollow t key
  | CallDiscoveredDependency key => taskDiscoveredDependency t key
  | CallComplete v forceChange => taskIsComplete t v forceChange
  end.

(** Run a callback of task [t] and the calls it makes. *)
Definition task_callback (t : TaskID) (f : W -> list TaskCall * W) : E unit :=
  calls <~ client_call f; mapM_ (taskCall t) calls.

(** ** Scanning *)

(** [setPendingScanRecord(newRuleScanRecord())] followed by the push of a scan
    request, as in [scanRule] and [scheduleChecksBeforeRunning]. *)
Definition start_scanning (k : KeyID) (needsToRun : bool) : E unit :=
  ri <~ rule_at k;
  write_rule k (with_info (PendingScanRecord emptyScanRecord) (with_state IsScanning ri)) ;;;
  push_scan (mkScanRequest k 0 None false false needsToRun).

Definition scheduleChecksBeforeRunning (k : KeyID) : E bool :=
  ri <~ rule_at k;
  ensure (bool_decide (state ri = NeedsToRun)) (AssertFailed "scheduleChecksBeforeRunning") ;;;
  if negb (checksDependenciesBeforeRunning client (rule ri))
     || deps_empty (dependencies (result ri))
  then ret false
  else start_scanning k true ;;; ret true.

Definition determined (k : KeyID) (reason : RunReason) (input : option KeyID) : E unit :=
  ri <~ rule_at k;
  inp <~ match input with
         | None => ret None
         | Some k' => ri' <~ rule_at k'; ret (Some (rule ri'))
         end;
  client_notify (determinedRuleNeedsToRun client (rule ri) reason inp).

Definition set_state (k : KeyID) (st : StateKind) : E unit :=
  ri <~ rule_at k; write_rule k (with_state st ri).

Definition scanRule (k : KeyID) : E bool :=
  epoch <~ gets currentEpoch;
  ri <~ rule_at k;
  if isScanned epoch ri then ret true
  else if isScanning ri then ret false
  else
    deps <~ lift (cleanSingleUseDependencies (dependencies (result ri)));
    write_rule k (with_result (with_dependencies deps (result ri)) ri) ;;;
    client_notify (updateStatus client (rule ri) StatusIsScanning) ;;;
    ri <~ rule_at k;
    write_rule k (with_forced false ri) ;;;
    if (builtAt (result ri) =? 0)%Z
    then set_state k NeedsToRun ;;; determined k NeverBuilt None ;;; ret true
    else if negb (rule_signature (rule ri) =? signature (result ri))%Z
    then set_state k NeedsToRun ;;; determined k SignatureChanged None ;;;
         b <~ scheduleChecksBeforeRunning k; ret (negb b)
    else
      valid <~ client_call (isResultValid client (rule ri) (value (result ri)));
      if negb valid
      then set_state k NeedsToRun ;;; determined k InvalidValue None ;;;
           b <~ scheduleChecksBeforeRunning k; ret (negb b)
      else if deps_empty (dependencies (result ri))
      then set_state k DoesNotNeedToRun ;;; ret true
      else start_scanning k false ;;; ret false.

(** [demandRule]. *)
Definition demandRule (k : KeyID) : E bool :=
  epoch <~ gets currentEpoch;
  ri <~ rule_at k;
  ensure (isScanned epoch ri) (AssertFailed "demandRule: isScanned") ;;;
  if isComplete epoch ri then ret true
  else if isInProgress ri then ret false
  else if bool_decide (state ri = DoesNotNeedToRun)
  then setComplete k ;;;
       client_notify (updateStatus client (rule ri) StatusIsUpToDate) ;;; ret true
  else
    ensure (bool_decide (state ri = NeedsToRun)) (AssertFailed "demandRule: NeedsToRun") ;;;
    t <~ gets nextTask;
    modify (upd_nextTask N.succ) ;;;
    client_notify (createTask client (rule ri) t) ;;;
    write_task t (mkTaskInfo [] [] k 0 (mkDeps [] [])) ;;;
    write_rule k (with_info (PendingTaskInfo t) (with_state InProgressWaiting
      (with_result (with_dependencies (deps_clear (dependencies (result ri))) (result ri)) ri))) ;;;
    task_callback t (task_start client t) ;;;
    ri <~ rule_at k;
    (if negb (builtAt (result ri) =? 0)%Z
        && (rule_signature (rule ri) =? signature (result ri))%Z
     then task_callback t (task_providePriorValue client t (value (result ri)))
     else ret tt) ;;;
    ti <~ task_at t;
    (if (waitCount ti =? 0)%nat
     then modify (upd_readyTaskInfos (fun l => l ++ [t])) else ret tt) ;;;
    ret false.

(** [finishScanRequest]. *)
Definition finishScanRequest (k : KeyID) (newState : StateKind) : E unit :=
  ri <~ rule_at k;
  ensure (isScanning ri) (AssertFailed "finishScanRequest") ;;;
  scanRecord <~ getPendingScanRecord k;
  mapM_ push_scan (deferredScanRequests scanRecord) ;;;
  mapM_ push_input (pausedInputRequests scanRecord) ;;;
  ri <~ rule_at k;
  write_rule k (with_state newState (with_info NullInfo ri)).

Definition defer_on_scan (input : KeyID) (req : RuleScanRequest) : E unit :=
  rec <~ getPendingScanRecord input;
  ri <~ rule_at input;
  write_rule input (with_info (PendingScanRecord
    (mkScanRecord (pausedInputRequests rec) (deferredScanRequests rec ++ [req]))) ri).

Definition defer_on_task (input : KeyID) (req : RuleScanRequest) : E unit :=
  t <~ getPendingTaskInfo input;
  ti <~ task_at t;
  write_task t (with_tiDeferred (ti_deferredScanRequests ti ++ [req]) ti).

(** The [do ... while] loop of [processRuleScanRequest]; [fuel] bounds the number
    of inputs it looks at. *)
Fixpoint scan_loop (fuel : nat) (req : RuleScanRequest) : E unit :=
  match fuel with
  | O => fail OutOfFuel
  | S fuel' =>
    let k := sreq_ruleInfo req in
    (* the loop condition and what follows the loop *)
    let next req' :=
      ri <~ rule_at k;
      if (sreq_inputIndex req' =? deps_size (dependencies (result ri)))%nat
      then if sreq_needsToRun req' then finishScanRequest k NeedsToRun
           else finishScanRequest k DoesNotNeedToRun
      else scan_loop fuel' req' in
    let visit req' input :=
      isScanned <~ scanRule input;
      if negb isScanned then defer_on_scan input req'
      else
        isAvailable <~ demandRule input;
        if negb isAvailable then defer_on_task input req'
        else
          ri <~ rule_at k;
          inp <~ rule_at input;
          let advance b := next (mkScanRequest k (S (sreq_inputIndex req')) None false false b) in
          if sreq_orderOnly req' || sreq_needsToRun req' then advance (sreq_needsToRun req')
          else if (builtAt (result ri) <? computedAt (result inp))%Z
          then if negb (checksDependenciesBeforeRunning client (rule ri))
               then finishScanRequest k NeedsToRun ;;; determined k InputRebuilt (Some input)
               else determined k InputRebuilt (Some input) ;;; advance true
          else advance (sreq_needsToRun req') in
    match sreq_inputRuleInfo req with
    | Some input => visit req input
    | None =>
        ri <~ rule_at k;
        d <~ lift (deps_get (dependencies (result ri)) (sreq_inputIndex req));
        skip <~ (if sreq_needsToRun req
                 then b <~ client_call (mustCheckDependencyBeforeRunning client (rule ri) (dep_key d));
                      ret (negb b)
                 else ret false);
        if skip : bool
        then next (mkScanRequest k (S (sreq_inputIndex req)) None
                     (sreq_orderOnly req) (sreq_singleUse req) (sreq_needsToRun req))
        else getRuleInfoForKey (dep_key d) ;;;
             visit (mkScanRequest k (sreq_inputIndex req) (Some (dep_key d))
                      (dep_orderOnly d) (dep_singleUse d) (sreq_needsToRun req)) (dep_key d)
    end
  end.

Definition processRuleScanRequest (req : RuleScanRequest) : E unit :=
  ri <~ rule_at (sreq_ruleInfo req);
  ensure (isScanning ri || wasForced ri) (AssertFailed "processRuleScanRequest") ;;;
  if negb (isScanning ri) then ret tt
  else scan_loop (S (deps_size (dependencies (result ri)))) req.

(** ** Finding and breaking cycles *)

(** A graph as adjacency lists ([std::unordered_map<Rule*, std::vector<Rule*>>]). *)
Abbreviation Graph := (gmap KeyID (list KeyID)).

Definition graph_edges (g : Graph) (k : KeyID) : list KeyID := default [] (g !! k).
(** [graph[k].push_back(x)]. *)
Definition graph_push (k x : KeyID) (g : Graph) : Graph := <[k := graph_edges g k ++ [x]]> g.

(** [request.taskInfo->forRuleInfo]. *)
Definition request_rule (s : State) (r : TaskInputRequest) : option KeyID :=
  t ← ireq_taskInfo r; ti ← taskInfos s !! t; Some (forRuleInfo ti).

(** The successors contributed by the running tasks: [successorGraph.insert]
    keeps the first entry for a rule. *)
Definition task_successors (s : State) (ti : TaskInfo) : list KeyID :=
  omap (request_rule s) (requestedBy ti) ++ map sreq_ruleInfo (ti_deferredScanRequests ti).
Definition insert_new (k : KeyID) (l : list KeyID) (g : Graph) : Graph :=
  match g !! k with Some _ => g | None => <[k := l]> g end.
Definition add_task (s : State) (e : TaskID * TaskInfo) (g : Graph) : Graph :=
  insert_new (forRuleInfo e.2) (task_successors s e.2) g.

(** The successors contributed by the scan record of one scanning rule. *)
Definition add_record (s : State) (rec : RuleScanRecord) (g : Graph) : Graph :=
  let g1 := fold_left (fun g r =>
              match request_rule s r with
              | Some k => graph_push (ireq_inputRuleInfo r) k g
              | None => g
              end) (pausedInputRequests rec) g in
  fold_left (fun g r =>
    match sreq_inputRuleInfo r with
    | Some input => graph_push input (sreq_ruleInfo r) g
    | None => g
    end) (deferredScanRequests rec) g1.

Definition scan_record (ri : RuleInfo) : option RuleScanRecord :=
  if isScanning ri then
    match inProgressInfo ri with PendingScanRecord r => Some r | _ => None end
  else None.

(** Every scanning rule is pushed on [activeRuleScanRecords] once, and a record
    reached again through a deferred request is skipped as visited, so each
    record contributes exactly once. *)
Definition successor_graph (s : State) : Graph :=
  let g := fold_left (fun g e => add_task s e g) (map_to_list (taskInfos s)) ∅ in
  fold_left (fun g r => add_record s r g)
    (omap (fun e => scan_record e.2) (map_to_list (ruleInfos s))) g.

(** Invert the graph. *)
Definition predecessor_graph (g : Graph) : Graph :=
  fold_left (fun p e => fold_left (fun p succ => graph_push succ e.1 p) e.2 p)
    (map_to_list g) ∅.

(** [std::sort] by key. *)
Fixpoint insert_key (x : KeyID) (l : list KeyID) : list KeyID :=
  match l with
  | [] => [x]
  | y :: l' => if String.leb x y then x :: l else y :: insert_key x l'
  end.
Definition sort_keys (l : list KeyID) : list KeyID := fold_right insert_key [] l.

(** The depth-first search: [stack] holds the work items with their
    [predecessorIndex], top first; [cycleList] is stored with its back first. *)
Record Search := mkSearch {
  stack : list (KeyID * nat);
  cycleList : list KeyID;
  cycleItems : gset KeyID }.

(** One iteration of the search loop: [inl] goes on, [inr] is the loop's exit. *)
Definition search_step (pred : Graph) (x : Search) : Search + Search :=
  match stack x with
  | [] => inr x
  | (node, idx) :: rest =>
      let predecessors := graph_edges pred node in
      let first := (idx =? 0)%nat in
      let cl := if first then node :: cycleList x else cycleList x in
      let items := if first then {[node]} ∪ cycleItems x else cycleItems x in
      if first && bool_decide (node ∈ cycleItems x) then inr (mkSearch (stack x) cl items)
      else
        match predecessors !! idx with
        | Some child => inl (mkSearch ((child, 0%nat) :: (node, S idx) :: rest) cl items)
        | None => inl (mkSearch rest (tail cl) (items ∖ {[node]}))
        end
  end.

(** Up to [2 ^ n] iterations. *)
Fixpoint search_iter (n : nat) (pred : Graph) (x : Search) : Search + Search :=
  match n with
  | O => search_step pred x
  | S n' =>
      match search_iter n' pred x with
      | inl x' => search_iter n' pred x'
      | inr x' => inr x'
      end
  end.

Definition max_degree (g : Graph) : nat :=
  fold_right Nat.max 0 (map (fun e => length e.2) (map_to_list g)).
Definition search_bound (g : Graph) : nat := ((2 + max_degree g) * (3 + size g))%nat.

Definition find_cycle_from (pred : Graph) (root : KeyID) : outcome (list KeyID) :=
  match search_iter (search_bound pred) pred (mkSearch [(root, 0%nat)] [] ∅) with
  | inr x => Ok (rev (cycleList x))
  | inl _ => Crash OutOfFuel
  end.

(** What the code dereferences and asserts while it gathers the graph: the
    requesting tasks exist, scan records are there, deferred requests have an
    input rule and are about a rule that is scanning or was forced. *)
Definition graph_asserts (s : State) : bool :=
  let requested r := bool_decide (is_Some (request_rule s r)) in
  let deferred q :=
    bool_decide (is_Some (sreq_inputRuleInfo q)) &&
    match ruleInfos s !! sreq_ruleInfo q with
    | Some ri => isScanning ri || wasForced ri
    | None => false
    end in
  forallb (fun e => forallb requested (requestedBy e.2)) (map_to_list (taskInfos s)) &&
  forallb (fun e =>
    if isScanning e.2 then
      match scan_record e.2 with
      | Some rec =>
          forallb (fun r => match ireq_taskInfo r with Some _ => requested r | None => true end)
            (pausedInputRequests rec)
          && forallb deferred (deferredScanRequests rec)
      | None => false
      end
    else true) (map_to_list (ruleInfos s)).

Definition findCycle (buildKey : KeyID) : E (list KeyID) :=
  s <~ get;
  ensure (graph_asserts s) (AssertFailed "findCycle") ;;;
  getRuleInfoForKey buildKey ;;;
  lift (find_cycle_from (sort_keys <$> predecessor_graph (successor_graph s)) buildKey).

(** [ruleInfosToScan.erase(findRuleScanRequestForRule(...))]: the first request of
    the vector (the last of our list) for the rule. *)
Fixpoint remove_first {A} (p : A -> bool) (l : list A) : list A :=
  match l with
  | [] => []
  | x :: l' => if p x then l' else x :: remove_first p l'
  end.
Definition erase_scan_request (k : KeyID) (l : list RuleScanRequest) : list RuleScanRequest :=
  rev (remove_first (fun r => bool_decide (sreq_ruleInfo r = k)) (rev l)).

(** [findTaskInputRequestForRule]. *)
Definition requested_by_rule (s : State) (k : KeyID) (r : TaskInputRequest) : bool :=
  bool_decide (request_rule s r = Some k).

Definition rules_of (keys : list KeyID) : E (list Rule) :=
  s <~ get; ret (omap (fun k => rule <$> ruleInfos s !! k) keys).

(** The loop of [breakCycle] over the reversed cycle; [rest] is what follows
    the current iterator, and reading [*std::next(ruleIt)] at [rend()] is out of
    bounds. *)
Fixpoint break_loop (cycle : list Rule) (rest : list KeyID) : E bool :=
  match rest with
  | [] => ret false
  | k0 :: rest' =>
    ri0 <~ rule_at k0;
    let k := rule_key (rule ri0) in
    getRuleInfoForKey k ;;;
    ri <~ rule_at k;
    if isScanning ri then
      yes <~ client_call (shouldResolveCycle client cycle (rule ri) ForceBuild);
      if negb yes then ret false
      else
        modify (upd_ruleInfosToScan (erase_scan_request k)) ;;;
        finishScanRequest k NeedsToRun ;;;
        determined k Forced None ;;;
        ri <~ rule_at k;
        write_rule k (with_forced true ri) ;;;
        ret true
    else if isInProgressWaiting ri && negb (builtAt (result ri) =? 0)%Z then
      t <~ getPendingTaskInfo k;
      next0 <~ of_option (OutOfBounds "std::next(ruleIt)") (head rest');
      rin <~ rule_at next0;
      let nextKey := rule_key (rule rin) in
      getRuleInfoForKey nextKey ;;;
      ti <~ task_at t;
      s <~ get;
      match find (requested_by_rule s nextKey) (requestedBy ti) with
      | None => break_loop cycle rest'
      | Some req =>
          yes <~ client_call (shouldResolveCycle client cycle (rule ri) SupplyPriorValue);
          if negb yes then ret false
          else
            modify (upd_finishedInputRequests (cons (mkInputRequest (ireq_taskInfo req)
              (ireq_inputID req) (ireq_inputRuleInfo req) (ireq_orderOnly req) true
              (ireq_singleUse req)))) ;;;
            write_task t (with_requestedBy
              (remove_first (requested_by_rule s nextKey) (requestedBy ti)) ti) ;;;
            ret true
      end
    else break_loop cycle rest'
  end.

Definition breakCycle (cycleKeys : list KeyID) : E bool :=
  cycle <~ rules_of cycleKeys;
  break_loop cycle (rev cycleKeys).

Definition resolveCycle (buildKey : KeyID) : E bool :=
  cycleKeys <~ findCycle buildKey;
  ensure (negb (bool_decide (cycleKeys = []))) (AssertFailed "resolveCycle") ;;;
  broken <~ breakCycle cycleKeys;
  if broken : bool then ret true
  else cycle <~ rules_of cycleKeys;
       client_notify (cycleDetected client cycle) ;;; ret false.

(** ** The main loop *)

(** The code's unsigned counters would wrap below zero; here that is a fault. *)
Definition decrementTaskWaitCount (t : TaskID) : E unit :=
  ti <~ task_at t;
  match waitCount ti with
  | O => fail (AssertFailed "waitCount underflow")
  | S n =>
      write_task t (with_waitCount n ti) ;;;
      if (n =? 0)%nat then modify (upd_readyTaskInfos (fun l => l ++ [t])) else ret tt
  end.

(** One iteration of "process all of the pending input requests". *)
Definition processInputRequest (req : TaskInputRequest) : E unit :=
  let input := ireq_inputRuleInfo req in
  isScanned <~ scanRule input;
  if negb isScanned then
    rec <~ getPendingScanRecord input;
    ri <~ rule_at input;
    write_rule input (with_info (PendingScanRecord
      (mkScanRecord (pausedInputRequests rec ++ [req]) (deferredScanRequests rec))) ri)
  else
    isAvailable <~ demandRule input;
    match ireq_taskInfo req with
    | None => ret tt
    | Some t =>
        ti <~ task_at t;
        ri <~ rule_at (forRuleInfo ti);
        write_rule (forRuleInfo ti) (with_result (with_dependencies
          (deps_push_back (dependencies (result ri)) input (ireq_orderOnly req)
             (ireq_singleUse req)) (result ri)) ri) ;;;
        if isAvailable : bool
        then modify (upd_finishedInputRequests (cons req))
        else
          t' <~ getPendingTaskInfo input;
          ti' <~ task_at t';
          write_task t' (with_requestedBy (requestedBy ti' ++ [req]) ti')
    end.

(** One iteration of "process all of the finished inputs". *)
Definition processFinishedInput (req : TaskInputRequest) : E unit :=
  let input := ireq_inputRuleInfo req in
  epoch <~ gets currentEpoch;
  ri <~ rule_at input;
  ensure (isComplete epoch ri || ireq_forcePriorValue req || ireq_orderOnly req)
    (AssertFailed "finished input is complete") ;;;
  t <~ of_option (UseAfterFree "request.taskInfo") (ireq_taskInfo req);
  task_at t ;;;
  (if ireq_orderOnly req
   then ensure (ireq_inputID req =? kMustFollowInputID)%Z (AssertFailed "order-only inputID")
   else task_callback t (task_provideValue client t (ireq_inputID req)
          (rule_key (rule ri)) (value (result ri)))) ;;;
  decrementTaskWaitCount t.

(** One iteration of "process all of the ready to run tasks". *)
Definition processReadyTask (t : TaskID) : E unit :=
  ti <~ task_at t;
  let k := forRuleInfo ti in
  t' <~ getPendingTaskInfo k;
  ensure (bool_decide (t = t')) (AssertFailed "ready task") ;;;
  setComputing k ;;;
  task_callback t (task_inputsAvailable client t) ;;;
  modify (upd_numOutstandingUnfinishedTasks S).

Definition push_discovered (d : KeyIDAndFlags KeyID) : E unit :=
  getRuleInfoForKey (dep_key d) ;;;
  push_input (mkInputRequest None 0 (dep_key d) (dep_orderOnly d) false (dep_singleUse d)).

Definition decrement_outstanding : E unit :=
  n <~ gets numOutstandingUnfinishedTasks;
  match n with
  | O => fail (AssertFailed "numOutstandingUnfinishedTasks underflow")
  | S n' => modify (upd_numOutstandingUnfinishedTasks (fun _ => n'))
  end.

(** One iteration of "process all of the finished tasks"; false when the
    database failed and the build must be cancelled. *)
Definition processFinishedTask (t : TaskID) : E bool :=
  ti <~ task_at t;
  let k := forRuleInfo ti in
  t' <~ getPendingTaskInfo k;
  ensure (bool_decide (t = t')) (AssertFailed "finished task") ;;;
  ri <~ rule_at k;
  ensure (isInProgressComputing ri) (AssertFailed "finished task is computing") ;;;
  write_rule k (with_info NullInfo ri) ;;;
  setComplete k ;;;
  client_notify (updateStatus client (rule ri) StatusIsComplete) ;;;
  ri <~ rule_at k;
  write_rule k (with_result (with_dependencies
    (deps_append (dependencies (result ri)) (discoveredDependencies ti)) (result ri)) ri) ;;;
  mapM_ push_discovered (view (discoveredDependencies ti)) ;;;
  ri <~ rule_at k;
  err <~ match db client with
         | None => ret None
         | Some d => client_call (db_setRuleResult d k (rule ri) (result ri))
         end;
  match err : option string with
  | Some e =>
      client_notify (delegate_error client e) ;;;
      decrement_outstanding ;;;
      ret false
  | None =>
      mapM_ push_scan (ti_deferredScanRequests ti) ;;;
      modify (upd_finishedInputRequests (fun l => rev (requestedBy ti) ++ l)) ;;;
      decrement_outstanding ;;;
      modify (upd_taskInfos (fun m => delete t m)) ;;;
      ret true
  end.

(** What [cancelRemainingTasks] does once no task is outstanding. *)
Definition cancel_task (e : TaskID * TaskInfo) : E unit :=
  t' <~ getPendingTaskInfo (forRuleInfo e.2);
  ensure (bool_decide (e.1 = t')) (AssertFailed "cancelled task") ;;;
  ri <~ rule_at (forRuleInfo e.2);
  write_rule (forRuleInfo e.2) (setCancelled (with_info NullInfo ri)).

Definition cancel_scan (ri : RuleInfo) : RuleInfo :=
  if isScanning ri then setCancelled (with_info NullInfo ri) else ri.

Definition cancel_cleanup : E unit :=
  s <~ get;
  mapM_ cancel_task (map_to_list (taskInfos s)) ;;;
  modify (upd_ruleInfos (fmap cancel_scan)) ;;;
  modify (fun s =>
    upd_ruleInfosToScan (fun _ => []) (upd_inputRequests (fun _ => [])
      (upd_finishedInputRequests (fun _ => []) (upd_readyTaskInfos (fun _ => [])
        (upd_finishedTaskInfos (fun _ => []) (upd_taskInfos (fun _ => ∅) s)))))).

(** The control state of [executeTasks]. [Cancelling] is the draining loop of
    [cancelRemainingTasks]. *)
Inductive Phase :=
| LoopTop | ScanRules | HandleInputs | HandleFinishedInputs | HandleReady
| HandleFinished | LoopBottom | Cancelling | Done (success : bool).

Record Config := mkConfig { phase : Phase; didWork : bool; engine : State }.

Definition goto (p : Phase) (w : bool) (m : E unit) (s : State) : outcome Config :=
  match m s with Ok (_, s') => Ok (mkConfig p w s') | Crash f => Crash f end.

(** One step of the engine thread: an iteration of the current inner loop, or
    the move to the next one. *)
Definition step (buildKey : KeyID) (c : Config) : outcome Config :=
  let s := engine c in
  let w := didWork c in
  match phase c with
  | LoopTop =>
      if buildCancelled s then Ok (mkConfig Cancelling false s)
      else Ok (mkConfig ScanRules false s)
  | ScanRules =>
      match ruleInfosToScan s with
      | [] => Ok (mkConfig HandleInputs w s)
      | req :: rest =>
          goto ScanRules true
            (modify (upd_ruleInfosToScan (fun _ => rest)) ;;; processRuleScanRequest req) s
      end
  | HandleInputs =>
      match inputRequests s with
      | [] => Ok (mkConfig HandleFinishedInputs w s)
      | req :: rest =>
          goto HandleInputs true
            (modify (upd_inputRequests (fun _ => rest)) ;;; processInputRequest req) s
      end
  | HandleFinishedInputs =>
      match finishedInputRequests s with
      | [] => Ok (mkConfig HandleReady w s)
      | req :: rest =>
          goto HandleFinishedInputs true
            (modify (upd_finishedInputRequests (fun _ => rest)) ;;; processFinishedInput req) s
      end
  | HandleReady =>
      match readyTaskInfos s with
      | [] => Ok (mkConfig HandleFinished w s)
      | t :: rest =>
          goto HandleReady true
            (modify (upd_readyTaskInfos (fun _ => rest)) ;;; processReadyTask t) s
      end
  | HandleFinished =>
      match finishedTaskInfos s with
      | [] => Ok (mkConfig LoopBottom w s)
      | t :: rest =>
          match (modify (upd_finishedTaskInfos (fun _ => rest)) ;;; processFinishedTask t) s with
          | Ok (ok, s') => Ok (mkConfig (if ok : bool then HandleFinished else Cancelling) true s')
          | Crash f => Crash f
          end
      end
  | LoopBottom =>
      (* waiting on the condition variable returns to the top of the loop *)
      if w || negb (numOutstandingUnfinishedTasks s =? 0)%nat then Ok (mkConfig LoopTop w s)
      else if negb (bool_decide (taskInfos s = ∅)) then
        match resolveCycle buildKey s with
        | Ok (resolved, s') =>
            Ok (mkConfig (if resolved : bool then LoopTop else Cancelling) w s')
        | Crash f => Crash f
        end
      else
        match (getRuleInfoForKey buildKey ;;; rule_at buildKey) s with
        | Ok (ri, s') =>
            if isComplete (currentEpoch s') ri then Ok (mkConfig (Done true) w s')
            else goto Cancelling w (client_notify (delegate_error client
                   "internal error: build engine has no running tasks or pending work, but was not able to compute the requested key, this may indicate a cycle in the build which could not be diagnosed. Please file a bug report.")) s'
        | Crash f => Crash f
        end
  | Cancelling =>
      if (numOutstandingUnfinishedTasks s =? 0)%nat then goto (Done false) w cancel_cleanup s
      else
        match finishedTaskInfos s with
        | [] => Ok c
        | l =>
            if (length l <=? numOutstandingUnfinishedTasks s)%nat
            then Ok (mkConfig Cancelling w
                   (upd_numOutstandingUnfinishedTasks (fun n => n - length l)%nat
                     (upd_finishedTaskInfos (fun _ => []) s)))
            else Crash (AssertFailed "cancelRemainingTasks")
        end
  | Done _ => Ok c
  end.

(** The initial action of [executeTasks]. *)
Definition start_execution (buildKey : KeyID) : E unit :=
  modify (upd_finishedInputRequests (fun _ => [])) ;;;
  getRuleInfoForKey buildKey ;;;
  push_input (mkInputRequest None 0 buildKey false false false).

(** ** Other threads *)

(** What jobs of the execution queue and [cancelBuild] may do between two steps
    of the engine thread. *)
Inductive EnvEvent :=
| EnvTaskCall (t : TaskID) (c : TaskCall)
| EnvCancelBuild
| EnvWorld (f : W -> W).

Definition env_event (e : EnvEvent) : E unit :=
  match e with
  | EnvTaskCall t c => taskCall t c
  | EnvCancelBuild => set_cancelled
  | EnvWorld f => client_notify f
  end.

(** Run the engine thread for at most [fuel] steps, with [sched i] the events of
    the other threads before step [i]. *)
Fixpoint run (fuel : nat) (sched : nat -> list EnvEvent) (buildKey : KeyID) (c : Config)
    : outcome Config :=
  match fuel with
  | O => Ok c
  | S fuel' =>
      match phase c with
      | Done _ => Ok c
      | _ =>
          match mapM_ env_event (sched fuel') (engine c) with
          | Crash f => Crash f
          | Ok (_, s') =>
              match step buildKey (mkConfig (phase c) (didWork c) s') with
              | Crash f => Crash f
              | Ok c' => run fuel' sched buildKey c'
              end
          end
      end
  end.

Definition executeTasks (fuel : nat) (sched : nat -> list EnvEvent) (buildKey : KeyID) : E bool :=
  start_execution buildKey ;;;
  fun s =>
    match run fuel sched buildKey (mkConfig LoopTop false s) with
    | Crash f => Crash f
    | Ok c => match phase c with Done b => Ok (b, engine c) | _ => Crash OutOfFuel end
    end.

(** ** Client API *)

(** The blocks of scan records are deleted when [build] returns. *)
Definition drop_record (ri : RuleInfo) : RuleInfo :=
  match inProgressInfo ri with
  | PendingScanRecord _ => with_info DanglingScanRecord ri
  | _ => ri
  end.

Definition db_error (f : BuildDB -> W -> option string * W) : E bool :=
  match db client with
  | None => ret true
  | Some d =>
      e <~ client_call (f d);
      match e : option string with
      | None => ret true
      | Some m => client_notify (delegate_error client m) ;;; ret false
      end
  end.

Definition db_complete : E unit :=
  match db client with
  | None => ret tt
  | Some d => client_notify (db_buildComplete d)
  end.

(** [build]; the empty vector is the failure result. *)
Definition build (fuel : nat) (sched : nat -> list EnvEvent) (key : KeyID) : E ValueType :=
  running <~ gets buildRunning;
  if running : bool then
    client_notify (delegate_error client "build engine busy") ;;; ret []
  else
    modify (upd_buildRunning (fun _ => true)) ;;;
    started <~ db_error db_buildStarted;
    v <~ (if negb started then ret []
          else
            cancelled <~ gets buildCancelled;
            v <~ (if cancelled : bool then ret []
                  else
                    modify (upd_executionQueue (fun _ => true)) ;;;
                    modify (upd_currentEpoch (fun e => (e + 1) mod 2 ^ 64)%Z) ;;;
                    success <~ executeTasks fuel sched key;
                    epoch <~ gets currentEpoch;
                    stored <~ db_error (fun d => db_setCurrentIteration d epoch);
                    v <~ (if negb (stored && success) then ret []
                          else
                            getRuleInfoForKey key ;;;
                            ri <~ rule_at key;
                            s <~ get;
                            ensure (bool_decide (taskInfos s = ∅) && isComplete epoch ri)
                              (AssertFailed "build") ;;;
                            ret (value (result ri)));
                    modify (upd_ruleInfos (fmap drop_record)) ;;;
                    modify (upd_executionQueue (fun _ => false)) ;;;
                    ret v);
            db_complete ;;; ret v);
    modify (upd_buildRunning (fun _ => false)) ;;;
    ret v.

Definition resetForBuild : E unit := modify (upd_buildCancelled (fun _ => false)).

Definition initial_state (w : W) : State :=
  mkState ∅ ∅ [] [] [] [] 0 [] 0 false false false 0%N w.

(** [attachDB]. *)
Definition attachDB (d : BuildDB) : E bool :=
  s <~ get;
  ensure ((currentEpoch s =? 0)%Z && bool_decide (ruleInfos s = ∅)) (AssertFailed "attachDB") ;;;
  p <~ client_call (db_getCurrentEpoch d);
  modify (upd_currentEpoch (fun _ => (p : Z * bool).1)) ;;;
  ret p.2.
End Engine.
