(* ===== verification/KeyTable.v ===== *)
(** * The key table (BuildEngine.cpp, [getKeyID], [getKeyForID])

    Keys are interned in a [StringMap]; a [KeyID] is the address of the entry's key
    data, which never moves.  This justifies the use of the key itself as its
    [KeyID] in Engine.v. *)

From Stdlib Require Import ZArith Lia.
From stdpp Require Import base gmap list strings numbers.
From S2P Require Import Prelude.

(** The entries by key, and the memory the entries' key data lives in; [nextAddr]
    is the address of the next allocation. *)
Record KeyTable := mkKeyTable {
  entries : gmap string N;
  memory : gmap N string;
  nextAddr : N }.

Definition emptyKeyTable : KeyTable := mkKeyTable ∅ ∅ 1%N.

(** [keyTable.insert(...).first]: the existing entry, or a new one. *)
Definition getKeyID (key : string) (t : KeyTable) : N * KeyTable :=
  match entries t !! key with
  | Some id => (id, t)
  | None =>
      let id := nextAddr t in
      (id, mkKeyTable (<[key := id]> (entries t)) (<[id := key]> (memory t)) (N.succ id))
  end.

(** [GetStringMapEntryFromKeyData(ptr).getKey()]. *)
Definition getKeyForID (id : N) (t : KeyTable) : option string := memory t !! id.

Record table_ok (t : KeyTable) : Prop := {
  tb_entry : forall key id, entries t !! key = Some id <-> memory t !! id = Some key;
  tb_next : forall id, is_Some (memory t !! id) -> (id < nextAddr t)%N }.

Lemma empty_table_ok : table_ok emptyKeyTable.
Proof.
  constructor; cbn.
  - intros key id. by rewrite !lookup_empty.
  - intros id [x Hx]. by rewrite lookup_empty in Hx.
Qed.

Lemma getKeyID_ok t key id t' : table_ok t -> getKeyID key t = (id, t') ->
  table_ok t' /\ entries t' !! key = Some id
  /\ (forall k i, entries t !! k = Some i -> entries t' !! k = Some i).
Proof.
  intros [He Hn]. unfold getKeyID. destruct (entries t !! key) as [i|] eqn:Hk.
  { intros [= <- <-]. split; [by constructor|]. by split. }
  intros [= <- <-]. cbn.
  assert (Hfresh : memory t !! nextAddr t = None).
  { destruct (memory t !! nextAddr t) eqn:E; [|done].
    assert (nextAddr t < nextAddr t)%N by (apply Hn; eauto). lia. }
  split; [|split; [apply lookup_insert_eq|]].
  - constructor; cbn.
    + intros k i. rewrite !lookup_insert_Some. split.
      * intros [[<- <-]|[Hne Hki]]; [by left|]. right. split; [|by apply He].
        intros <-. apply He in Hki. congruence.
      * intros [[<- <-]|[Hne Hki]]; [by left|]. right. split; [|by apply He].
        intros <-. apply He in Hki. congruence.
    + intros i [x [[<- <-]|[_ Hi]]%lookup_insert_Some]; [lia|].
      assert (i < nextAddr t)%N by (apply Hn; eauto). lia.
  - intros k i Hki. rewrite lookup_insert_ne; [done|]. intros ->. congruence.
Qed.

(** Interning a key gives an ID from which the key is recovered, equal keys
    get equal IDs and different keys different ones, and IDs handed out before stay
    valid. *)
Theorem getKeyID_roundtrip t k1 k2 id1 id2 t1 t2 :
  table_ok t -> getKeyID k1 t = (id1, t1) -> getKeyID k2 t1 = (id2, t2) ->
  table_ok t2 /\ getKeyForID id1 t2 = Some k1 /\ getKeyForID id2 t2 = Some k2
  /\ (id1 = id2 <-> k1 = k2).
Proof.
  intros Hok E1 E2. destruct (getKeyID_ok _ _ _ _ Hok E1) as (Hok1 & H1 & _).
  destruct (getKeyID_ok _ _ _ _ Hok1 E2) as (Hok2 & H2 & Hm). pose proof (Hm _ _ H1) as H1'.
  split; [done|]. unfold getKeyForID.
  pose proof (proj1 (tb_entry _ Hok2 k1 id1) H1') as M1.
  pose proof (proj1 (tb_entry _ Hok2 k2 id2) H2) as M2.
  split; [done|]. split; [done|]. split; intros ->; congruence.
Qed.

Lemma getKeyID_roundtrip_witness :
  let '(id1, t1) := getKeyID "a" emptyKeyTable in
  let '(id2, t2) := getKeyID "b" t1 in
  getKeyForID id1 t2 = Some "a" /\ getKeyForID id2 t2 = Some "b" /\ id1 <> id2.
Proof.
  cbn [getKeyID].
  destruct (getKeyID_roundtrip emptyKeyTable "a" "b" _ _ _ _ empty_table_ok eq_refl eq_refl)
    as (_ & H1 & H2 & H3).
  split; [exact H1|]. split; [exact H2|]. intros H. apply H3 in H. discriminate.
Defined.
