(* ===== verification/ScanRecords.v ===== *)
(** * The scan record allocator (BuildEngine.cpp, [newRuleScanRecord])

    Scan records come from a bounded free list backed by blocks.  A
    [RuleScanRecord*] is a block number and an index into the block; the records'
    contents are a map from addresses.  This justifies storing the record of a
    scanning rule in the rule itself (Engine.v): live records never alias and a new
    one is empty. *)

From Stdlib Require Import ZArith Lia.
From stdpp Require Import base gmap list strings numbers.
From S2P Require Import Prelude DepKeys Engine.

Abbreviation Addr := (N * N)%type.

Definition maximumFreeRuleScanRecords : N := 8096.
Definition numScanRecordsPerBlock : N := 4096.

(** The allocator's fields.  [currentBlock] is the block [currentBlockPos] points
    into, at index [currentPos]; both pointers are null before the first block. *)
Record Allocator := mkAllocator {
  freeRuleScanRecords : list Addr;
  ruleScanRecordBlocks : N;
  currentBlock : option (N * N);
  contents : gmap Addr RuleScanRecord }.

Definition newAllocator : Allocator := mkAllocator [] 0%N None ∅.

(** The back of the vector is the head of the list. *)
Definition newRuleScanRecord (a : Allocator) : Addr * Allocator :=
  match freeRuleScanRecords a with
  | p :: rest => (p, mkAllocator rest (ruleScanRecordBlocks a) (currentBlock a) (contents a))
  | [] =>
      let fresh_block := ruleScanRecordBlocks a in
      let '(b, i, nb) :=
        match currentBlock a with
        | Some (b, i) =>
            if (i =? numScanRecordsPerBlock)%N then (fresh_block, 0%N, N.succ fresh_block)
            else (b, i, ruleScanRecordBlocks a)
        | None => (fresh_block, 0%N, N.succ fresh_block)
        end in
      ((b, i), mkAllocator [] nb (Some (b, N.succ i)) (contents a))
  end.

(** The contents of a record: [new RuleScanRecord[n]] default-constructs them. *)
Definition record_at (a : Allocator) (p : Addr) : RuleScanRecord :=
  default emptyScanRecord (contents a !! p).

Definition write_record (p : Addr) (r : RuleScanRecord) (a : Allocator) : Allocator :=
  mkAllocator (freeRuleScanRecords a) (ruleScanRecordBlocks a) (currentBlock a)
    (<[p := r]> (contents a)).

Definition freeRuleScanRecord (p : Addr) (a : Allocator) : Allocator :=
  if (N.of_nat (length (freeRuleScanRecords a)) <? maximumFreeRuleScanRecords)%N
  then mkAllocator (p :: freeRuleScanRecords a) (ruleScanRecordBlocks a) (currentBlock a)
         (<[p := emptyScanRecord]> (contents a))
  else a.

(** The clean-up at the end of [build]. *)
Definition clearBlocks (a : Allocator) : Allocator := newAllocator.

(** ** Invariant *)

(** Addresses handed out so far. *)
Definition handed_out (a : Allocator) (p : Addr) : Prop :=
  match currentBlock a with
  | None => False
  | Some (b, i) => (p.1 < b /\ p.2 < numScanRecordsPerBlock)%N \/ (p.1 = b /\ p.2 < i)%N
  end.

(** [L] are the live records. *)
Record alloc_ok (L : gset Addr) (a : Allocator) : Prop := {
  al_block : match currentBlock a with
             | None => ruleScanRecordBlocks a = 0%N
             | Some (b, i) => ruleScanRecordBlocks a = N.succ b /\ (i <= numScanRecordsPerBlock)%N
             end;
  al_free : NoDup (freeRuleScanRecords a);
  al_disjoint : forall p, p ∈ freeRuleScanRecords a -> p ∉ L;
  al_out : forall p, p ∈ freeRuleScanRecords a \/ p ∈ L -> handed_out a p;
  al_empty : forall p, p ∈ freeRuleScanRecords a -> record_at a p = emptyScanRecord;
  al_fresh : forall p, ~ handed_out a p -> contents a !! p = None;
  al_bound : (N.of_nat (length (freeRuleScanRecords a)) <= maximumFreeRuleScanRecords)%N }.

Lemma new_from_block L a p a' (Hok : alloc_ok L a) (Hf : freeRuleScanRecords a = []) :
  newRuleScanRecord a = (p, a') ->
  freeRuleScanRecords a' = [] /\ contents a' = contents a /\ ~ handed_out a p /\ handed_out a' p
  /\ (forall q, handed_out a q -> handed_out a' q)
  /\ (forall q, handed_out a' q -> handed_out a q \/ q = p)
  /\ match currentBlock a' with
     | None => False | Some (b, i) => ruleScanRecordBlocks a' = N.succ b /\ (i <= numScanRecordsPerBlock)%N end.
Proof.
  unfold newRuleScanRecord. rewrite Hf. destruct Hok as [Hb _ _ _ _ _ _]. unfold handed_out.
  destruct (currentBlock a) as [[b i]|] eqn:Hc.
  - destruct Hb as [Hb Hi]. destruct (N.eqb_spec i numScanRecordsPerBlock) as [->|Hne].
    + intros [= <- <-]. cbn. rewrite Hb. split; [done|]. split; [done|].
      assert (0 < numScanRecordsPerBlock)%N by (unfold numScanRecordsPerBlock; lia).
      split; [lia|]. split; [lia|]. split; [lia|]. split; [|lia].
      intros [q1 q2] Hq. cbn in *. destruct Hq as [Hq|[-> Hq]]; [|right; f_equal; lia].
      left. destruct (decide (q1 = b)); [right|left]; lia.
    + intros [= <- <-]. cbn. split; [done|]. split; [done|]. split; [lia|]. split; [lia|].
      split; [lia|]. split; [|lia]. intros [q1 q2] Hq. cbn in *.
      destruct Hq as [Hq|[-> Hq]]; [left; lia|]. destruct (decide (q2 = i)) as [->|]; [by right|left; lia].
  - intros [= <- <-]. cbn. rewrite Hb. split; [done|]. split; [done|]. split; [by intros []|].
    assert (0 < numScanRecordsPerBlock)%N by (unfold numScanRecordsPerBlock; lia).
    split; [lia|]. split; [by intros q []|]. split; [|lia]. intros [q1 q2] Hq. cbn in *. right. f_equal; lia.
Qed.

(** A newly allocated scan record is empty and distinct from every live one,
    and the allocator's invariant (free records distinct, dead, empty and inside
    the allocated blocks) is kept. *)
Theorem new_record_is_fresh L a p a' :
  alloc_ok L a -> newRuleScanRecord a = (p, a') ->
  (p ∉ L) /\ record_at a' p = emptyScanRecord /\ alloc_ok ({[p]} ∪ L) a'.
Proof.
  intros Hok E. destruct (freeRuleScanRecords a) as [|q rest] eqn:Hf.
  - destruct (new_from_block L a p a' Hok Hf E) as (Hf' & Hc & Hn & Ho & Hmono & Hinv & Hb).
    destruct Hok as [Hb0 Hnd Hdis Hout Hemp Hfr Hbd].
    assert (HpL : p ∉ L) by (intros H; apply Hn, Hout; by right).
    split; [done|]. split; [unfold record_at; rewrite Hc, (Hfr p Hn); done|].
    constructor; rewrite ?Hf'.
    + destruct (currentBlock a') as [[b i]|]; [done|]. by destruct Hb.
    + constructor.
    + by intros q ?%elem_of_nil.
    + intros q [?%elem_of_nil|[->%elem_of_singleton|Hq]%elem_of_union]; [done|done|].
      apply Hmono, Hout. by right.
    + by intros q ?%elem_of_nil.
    + intros q Hq. rewrite Hc. apply Hfr. intros Hq'. by apply Hq, Hmono.
    + cbn. unfold maximumFreeRuleScanRecords. lia.
  - unfold newRuleScanRecord in E. rewrite Hf in E. injection E as <- <-.
    destruct Hok as [Hb0 Hnd Hdis Hout Hemp Hfr Hbd]. rewrite Hf in *.
    apply list.NoDup_cons in Hnd as [Hq Hnd].
    split; [apply Hdis; left|]. split; [apply Hemp; left|]. constructor; cbn; try done.
    + intros r Hr. apply not_elem_of_union. split; [|apply Hdis; by right].
      intros ->%elem_of_singleton. done.
    + intros r Hr. apply Hout. rewrite elem_of_union, elem_of_singleton in Hr.
      destruct Hr as [Hr|[->|Hr]]; [left; by right|left; by left|by right].
    + intros r Hr. apply Hemp. by right.
    + cbn in Hbd. lia.
Qed.

Lemma new_record_is_fresh_witness :
  let a := freeRuleScanRecord (0, 0)%N (newRuleScanRecord newAllocator).2 in
  let (p, a') := newRuleScanRecord a in
  p = (0, 0)%N /\ (p ∉ (∅ : gset Addr)) /\ record_at a' p = emptyScanRecord.
Proof.
  split; [reflexivity|].
  assert (Hok : alloc_ok ∅ (freeRuleScanRecord (0, 0)%N (newRuleScanRecord newAllocator).2)).
  { constructor.
    - split; [reflexivity|]. vm_compute. discriminate.
    - apply NoDup_singleton.
    - intros p _. apply not_elem_of_empty.
    - intros p [->%list_elem_of_singleton|Hp]; [right; split; reflexivity|]. by apply elem_of_empty in Hp.
    - intros p ->%list_elem_of_singleton. reflexivity.
    - intros p Hp. destruct (decide (p = (0, 0)%N)) as [->|Hne].
      + exfalso. apply Hp. right. split; reflexivity.
      + change (<[(0, 0)%N := emptyScanRecord]> (∅ : gmap Addr RuleScanRecord) !! p = None).
        rewrite lookup_insert_ne by congruence. apply lookup_empty.
    - vm_compute. discriminate. }
  destruct (new_record_is_fresh ∅ _ (0, 0)%N _ Hok eq_refl) as (H1 & H2 & _).
  split; [exact H1|exact H2].
Defined.

(** Writing through a live record and freeing it keep the invariant. *)
Lemma write_record_ok L a p r : alloc_ok L a -> p ∈ L -> alloc_ok L (write_record p r a).
Proof.
  intros [Hb Hnd Hdis Hout Hemp Hfr Hbd] Hp. constructor; cbn; try done.
  - intros q Hq. unfold record_at; cbn. rewrite lookup_insert_ne; [by apply Hemp|].
    intros ->. by apply (Hdis q).
  - intros q Hq. rewrite lookup_insert_ne; [by apply Hfr|]. intros ->. apply Hq, Hout. by right.
Qed.

Lemma freeRuleScanRecord_ok L a p : alloc_ok L a -> p ∈ L -> alloc_ok (L ∖ {[p]}) (freeRuleScanRecord p a).
Proof.
  intros [Hb Hnd Hdis Hout Hemp Hfr Hbd] Hp. unfold freeRuleScanRecord.
  destruct (N.ltb_spec (N.of_nat (length (freeRuleScanRecords a))) maximumFreeRuleScanRecords) as [Hlt|Hge].
  - constructor; cbn; try done.
    + constructor; [|done]. intros Hin. by apply (Hdis p).
    + intros q [->|Hq]%elem_of_cons; [set_solver|]. apply Hdis in Hq. set_solver.
    + intros q [[->|Hq]%elem_of_cons|Hq]; apply Hout; [by right|by left|right; set_solver].
    + intros q Hq. unfold record_at; cbn. destruct (decide (p = q)) as [->|Hne];
        [by rewrite lookup_insert_eq|]. rewrite lookup_insert_ne by done.
      apply elem_of_cons in Hq as [->|Hq]; [done|]. by apply Hemp.
    + intros q Hq. rewrite lookup_insert_ne; [by apply Hfr|]. intros ->. apply Hq, Hout. by right.
    + lia.
  - constructor; try done.
    + intros q Hq. apply Hdis in Hq. set_solver.
    + intros q [Hq|Hq]; apply Hout; [by left|right; set_solver].
Qed.
