(* ===== verification/EngineInv.v ===== *)
(** * The invariant of the build engine

    [Inv] relates the rules' states, the running tasks, the work queues and the
    counters of the engine between two steps of the engine thread.  This file
    states it and proves it preserved by every elementary update the engine
    performs; EngineSafety.v lifts it to the operations and to whole builds. *)

From Stdlib Require Import ZArith Lia.
From stdpp Require Import base gmap list strings numbers.
From S2P Require Import Prelude DepKeys Engine.

(** ** Requests in flight *)

(** The number of requests of [l] made by task [t]. *)
Definition count_req (t : TaskID) (l : list TaskInputRequest) : nat :=
  length (filter (fun r => ireq_taskInfo r = Some t) l).

Definition paused_of (ri : RuleInfo) : list TaskInputRequest :=
  match inProgressInfo ri with PendingScanRecord r => pausedInputRequests r | _ => [] end.
Definition deferred_of (ri : RuleInfo) : list RuleScanRequest :=
  match inProgressInfo ri with PendingScanRecord r => deferredScanRequests r | _ => [] end.

Abbreviation Rules := (gmap KeyID RuleInfo).
Abbreviation Tasks := (gmap TaskID TaskInfo).

(** The outstanding requests of task [t]: queued, paused on a scan, waiting on a
    task, or finished and not yet delivered; [h] is the request the engine is
    processing. *)
Definition nreq (h : list TaskInputRequest) (R : Rules) (T : Tasks)
    (IR FR : list TaskInputRequest) (t : TaskID) : nat :=
  (count_req t h + count_req t IR + count_req t FR
   + msum (fun ri => count_req t (paused_of ri)) R
   + msum (fun ti => count_req t (requestedBy ti)) T)%nat.

Definition in_flight (h : list TaskInputRequest) (R : Rules) (T : Tasks)
    (IR FR : list TaskInputRequest) (r : TaskInputRequest) : Prop :=
  r ∈ h \/ r ∈ IR \/ r ∈ FR
  \/ (exists k ri, R !! k = Some ri /\ r ∈ paused_of ri)
  \/ (exists t ti, T !! t = Some ti /\ r ∈ requestedBy ti).

Definition scan_pending (R : Rules) (T : Tasks) (SQ : list RuleScanRequest)
    (q : RuleScanRequest) : Prop :=
  q ∈ SQ
  \/ (exists k ri, R !! k = Some ri /\ q ∈ deferred_of ri)
  \/ (exists t ti, T !! t = Some ti /\ q ∈ ti_deferredScanRequests ti).

(** The number of scan requests of rule [k] in a list, and in the whole engine. *)
Definition count_scan (k : KeyID) (l : list RuleScanRequest) : nat :=
  length (filter (fun q => sreq_ruleInfo q = k) l).
Definition nscan (R : Rules) (T : Tasks) (SQ : list RuleScanRequest) (k : KeyID) : nat :=
  (count_scan k SQ + msum (fun ri => count_scan k (deferred_of ri)) R
   + msum (fun ti => count_scan k (ti_deferredScanRequests ti)) T)%nat.

(** Task [t] exists and its rule is in the given state. *)
Definition task_in (st : StateKind) (R : Rules) (T : Tasks) (t : TaskID) : Prop :=
  exists ti ri, T !! t = Some ti /\ R !! forRuleInfo ti = Some ri /\ state ri = st.

(** A scan request is valid: its rule is being scanned at an index it has, or was
    forced to run by cycle breaking. *)
Definition scan_ok (ep : Z) (R : Rules) (q : RuleScanRequest) : Prop :=
  exists ri, R !! sreq_ruleInfo q = Some ri
    /\ ((state ri = IsScanning /\ (sreq_inputIndex q < deps_size (dependencies (result ri)))%nat)
        \/ (state ri <> IsScanning /\ wasForced ri = true /\ isScanned ep ri = true))
    /\ (forall i, sreq_inputRuleInfo q = Some i -> is_Some (R !! i)).

Definition req_ok (R : Rules) (T : Tasks) (r : TaskInputRequest) : Prop :=
  is_Some (R !! ireq_inputRuleInfo r)
  /\ (forall t, ireq_taskInfo r = Some t ->
       task_in InProgressWaiting R T t
       /\ (ireq_orderOnly r = true -> ireq_inputID r = kMustFollowInputID)).

(** A rule's [inProgressInfo] matches its state. *)
Definition rule_ok (T : Tasks) (k : KeyID) (ri : RuleInfo) : Prop :=
  deps_wf (dependencies (result ri))
  /\ match state ri with
     | IsScanning => exists r, inProgressInfo ri = PendingScanRecord r
     | InProgressWaiting | InProgressComputing =>
         exists t ti, inProgressInfo ri = PendingTaskInfo t /\ T !! t = Some ti /\ forRuleInfo ti = k
     | _ => inProgressInfo ri = NullInfo
     end.

Definition computing (ri : RuleInfo) : nat :=
  if isInProgressComputing ri then 1 else 0.

(** The invariant, on the components of a state.  [h] is the input request being
    processed, [x] a task whose callbacks are running and which is not yet on the
    ready queue, [d] the number of computing tasks not yet counted as
    outstanding. *)
Record InvC (h : list TaskInputRequest) (x : option TaskID) (d : nat)
    (R : Rules) (T : Tasks) (IR FR : list TaskInputRequest) (SQ : list RuleScanRequest)
    (RD : list TaskID) (NO : nat) (FT : list TaskID) (ep : Z) (nt : N) : Prop := mkInvC {
  inv_rule : forall k ri, R !! k = Some ri -> rule_ok T k ri;
  inv_task : forall t ti, T !! t = Some ti ->
    deps_wf (discoveredDependencies ti)
    /\ exists ri, R !! forRuleInfo ti = Some ri /\ inProgressInfo ri = PendingTaskInfo t;
  inv_req : forall r, in_flight h R T IR FR r -> req_ok R T r;
  inv_finished : forall r, r ∈ FR ->
    is_Some (ireq_taskInfo r)
    /\ (ireq_forcePriorValue r = true \/ ireq_orderOnly r = true
        \/ exists ri, R !! ireq_inputRuleInfo r = Some ri /\ isComplete ep ri = true);
  inv_requestedBy : forall t ti r, T !! t = Some ti -> r ∈ requestedBy ti ->
    is_Some (ireq_taskInfo r) /\ ireq_inputRuleInfo r = forRuleInfo ti;
  inv_paused : forall k ri r, R !! k = Some ri -> r ∈ paused_of ri -> ireq_inputRuleInfo r = k;
  inv_scan : forall q, scan_pending R T SQ q -> scan_ok ep R q;
  inv_scan1 : forall k ri, R !! k = Some ri -> state ri = IsScanning -> nscan R T SQ k = 1%nat;
  inv_wait : forall t ti, T !! t = Some ti -> waitCount ti = nreq h R T IR FR t;
  inv_ready : NoDup RD /\ forall t, t ∈ RD ->
    exists ti ri, T !! t = Some ti /\ R !! forRuleInfo ti = Some ri
      /\ state ri = InProgressWaiting /\ waitCount ti = 0%nat;
  inv_idle : forall t ti ri, T !! t = Some ti -> R !! forRuleInfo ti = Some ri ->
    state ri = InProgressWaiting -> waitCount ti = 0%nat -> t ∈ RD \/ x = Some t;
  inv_done : NoDup FT /\ forall t, t ∈ FT -> task_in InProgressComputing R T t;
  inv_outstanding : (NO + d = msum computing R)%nat;
  inv_next : forall t, is_Some (T !! t) -> (t < nt)%N }.

Arguments inv_rule {h x d R T IR FR SQ RD NO FT ep nt} _.
Arguments inv_task {h x d R T IR FR SQ RD NO FT ep nt} _.
Arguments inv_req {h x d R T IR FR SQ RD NO FT ep nt} _.
Arguments inv_finished {h x d R T IR FR SQ RD NO FT ep nt} _.
Arguments inv_requestedBy {h x d R T IR FR SQ RD NO FT ep nt} _.
Arguments inv_paused {h x d R T IR FR SQ RD NO FT ep nt} _.
Arguments inv_scan {h x d R T IR FR SQ RD NO FT ep nt} _.
Arguments inv_scan1 {h x d R T IR FR SQ RD NO FT ep nt} _.
Arguments inv_wait {h x d R T IR FR SQ RD NO FT ep nt} _.
Arguments inv_ready {h x d R T IR FR SQ RD NO FT ep nt} _.
Arguments inv_idle {h x d R T IR FR SQ RD NO FT ep nt} _.
Arguments inv_done {h x d R T IR FR SQ RD NO FT ep nt} _.
Arguments inv_outstanding {h x d R T IR FR SQ RD NO FT ep nt} _.
Arguments inv_next {h x d R T IR FR SQ RD NO FT ep nt} _.

(** The invariant of a state; [g] is the scan request being processed. *)
Definition Inv {W} h g x d (s : State (W := W)) : Prop :=
  InvC h x d (ruleInfos s) (taskInfos s) (inputRequests s) (finishedInputRequests s)
    (g ++ ruleInfosToScan s) (readyTaskInfos s) (numOutstandingUnfinishedTasks s)
    (finishedTaskInfos s) (currentEpoch s) (nextTask s).

(** ** Counting *)

Lemma count_req_app t l1 l2 : count_req t (l1 ++ l2) = (count_req t l1 + count_req t l2)%nat.
Proof. unfold count_req. by rewrite list.filter_app, length_app. Qed.
Lemma count_req_nil t : count_req t [] = 0%nat.
Proof. done. Qed.
Lemma count_req_cons t r l :
  count_req t (r :: l) = ((if decide (ireq_taskInfo r = Some t) then 1 else 0) + count_req t l)%nat.
Proof. unfold count_req. rewrite filter_cons. by case_decide. Qed.
Lemma count_req_rev t l : count_req t (rev l) = count_req t l.
Proof.
  induction l as [|r l IH]; [done|]. simpl. rewrite count_req_app, IH, !count_req_cons, count_req_nil. lia.
Qed.
Lemma count_req_pos t l : (0 < count_req t l)%nat <-> exists r, r ∈ l /\ ireq_taskInfo r = Some t.
Proof.
  induction l as [|r l IH].
  - rewrite count_req_nil. split; [lia|]. intros (r & Hr & _). by apply elem_of_nil in Hr.
  - rewrite count_req_cons. case_decide as Hd.
    + split; [|lia]. intros _. exists r. split; [left|done].
    + rewrite Nat.add_0_l, IH. split; intros (r' & Hr' & Ht); exists r'.
      * split; [by right|done].
      * apply elem_of_cons in Hr' as [->|Hr']; [congruence|done].
Qed.
Lemma count_req_none t l : (forall r, r ∈ l -> ireq_taskInfo r <> Some t) -> count_req t l = 0%nat.
Proof.
  intros Hl. destruct (decide (0 < count_req t l)%nat) as [Hp|]; [|lia].
  apply count_req_pos in Hp as (r & Hr & Ht). by destruct (Hl r Hr).
Qed.

Lemma count_scan_app k l1 l2 : count_scan k (l1 ++ l2) = (count_scan k l1 + count_scan k l2)%nat.
Proof. unfold count_scan. by rewrite list.filter_app, length_app. Qed.
Lemma count_scan_nil k : count_scan k [] = 0%nat.
Proof. done. Qed.
Lemma count_scan_cons k q l :
  count_scan k (q :: l) = ((if decide (sreq_ruleInfo q = k) then 1 else 0) + count_scan k l)%nat.
Proof. unfold count_scan. rewrite filter_cons. by case_decide. Qed.
Lemma count_scan_rev k l : count_scan k (rev l) = count_scan k l.
Proof.
  induction l as [|y l IH]; [done|]. simpl.
  rewrite count_scan_app, IH, !count_scan_cons, count_scan_nil. lia.
Qed.
Lemma count_scan_pos k l : (0 < count_scan k l)%nat <-> exists q, q ∈ l /\ sreq_ruleInfo q = k.
Proof.
  unfold count_scan. split.
  - intros Hp. destruct (filter _ l) as [|q l'] eqn:E; [simpl in Hp; lia|]. exists q.
    assert (Hq : q ∈ filter (fun q => sreq_ruleInfo q = k) l) by (rewrite E; left).
    by apply list_elem_of_filter in Hq as [? ?].
  - intros (q & Hq & Hk).
    assert (Hf : q ∈ filter (fun q => sreq_ruleInfo q = k) l) by by apply list_elem_of_filter.
    destruct (filter _ l); [by apply elem_of_nil in Hf|simpl; lia].
Qed.

Lemma nscan_pos R T SQ k :
  (0 < nscan R T SQ k)%nat <-> exists q, scan_pending R T SQ q /\ sreq_ruleInfo q = k.
Proof.
  unfold nscan, scan_pending. split.
  - intros Hp.
    destruct (decide (0 < count_scan k SQ)%nat) as [H1|H1];
      [apply count_scan_pos in H1 as (r & ? & ?); naive_solver|].
    destruct (decide (0 < msum (fun ri => count_scan k (deferred_of ri)) R)%nat) as [H4|H4].
    + apply msum_pos in H4 as (j & ri & Hj & Hc).
      apply count_scan_pos in Hc as (r & ? & ?). naive_solver.
    + destruct (msum_pos (fun ti => count_scan k (ti_deferredScanRequests ti)) T)
        as (j & ti & Hj & Hc); [lia|].
      apply count_scan_pos in Hc as (r & ? & ?). naive_solver.
  - intros (r & Hr & Ht). destruct Hr as [Hr|[(j & ri & Hj & Hr)|(j & ti & Hj & Hr)]].
    + assert (0 < count_scan k SQ)%nat by (apply count_scan_pos; eauto); lia.
    + assert (0 < count_scan k (deferred_of ri))%nat by (apply count_scan_pos; eauto).
      pose proof (msum_le (fun ri => count_scan k (deferred_of ri)) R j ri Hj). simpl in *. lia.
    + assert (0 < count_scan k (ti_deferredScanRequests ti))%nat by (apply count_scan_pos; eauto).
      pose proof (msum_le (fun ti => count_scan k (ti_deferredScanRequests ti)) T j ti Hj).
      simpl in *. lia.
Qed.

Lemma nreq_pos h R T IR FR t :
  (0 < nreq h R T IR FR t)%nat <-> exists r, in_flight h R T IR FR r /\ ireq_taskInfo r = Some t.
Proof.
  unfold nreq, in_flight. split.
  - intros Hp.
    destruct (decide (0 < count_req t h)%nat) as [H1|H1];
      [apply count_req_pos in H1 as (r & ? & ?); naive_solver|].
    destruct (decide (0 < count_req t IR)%nat) as [H2|H2];
      [apply count_req_pos in H2 as (r & ? & ?); naive_solver|].
    destruct (decide (0 < count_req t FR)%nat) as [H3|H3];
      [apply count_req_pos in H3 as (r & ? & ?); naive_solver|].
    destruct (decide (0 < msum (fun ri => count_req t (paused_of ri)) R)%nat) as [H4|H4].
    + apply msum_pos in H4 as (k & ri & Hk & Hc).
      apply count_req_pos in Hc as (r & ? & ?). naive_solver.
    + destruct (msum_pos (fun ti => count_req t (requestedBy ti)) T) as (k & ti & Hk & Hc); [lia|].
      apply count_req_pos in Hc as (r & ? & ?). naive_solver.
  - intros (r & Hr & Ht). destruct Hr as [Hr|[Hr|[Hr|[(k & ri & Hk & Hr)|(k & ti & Hk & Hr)]]]].
    1-3: assert (0 < count_req t _)%nat by (apply count_req_pos; eauto); lia.
    + assert (0 < count_req t (paused_of ri))%nat by (apply count_req_pos; eauto).
      pose proof (msum_le (fun ri => count_req t (paused_of ri)) R k ri Hk). simpl in *. lia.
    + assert (0 < count_req t (requestedBy ti))%nat by (apply count_req_pos; eauto).
      pose proof (msum_le (fun ti => count_req t (requestedBy ti)) T k ti Hk). simpl in *. lia.
Qed.

Lemma nreq_zero_no_flight h R T IR FR t r :
  nreq h R T IR FR t = 0%nat -> in_flight h R T IR FR r -> ireq_taskInfo r <> Some t.
Proof.
  intros H0 Hr Ht. assert (0 < nreq h R T IR FR t)%nat by (apply nreq_pos; eauto). lia.
Qed.

(** ** Elementary updates *)

Lemma rule_ok_tasks T T' k ri :
  rule_ok T k ri ->
  (forall t ti, T !! t = Some ti -> forRuleInfo ti = k ->
     exists ti', T' !! t = Some ti' /\ forRuleInfo ti' = k) ->
  rule_ok T' k ri.
Proof.
  intros (Hd & Hs) HT. split; [done|].
  destruct (state ri); try done;
    destruct Hs as (t & ti & Hi & Ht & Hf); destruct (HT t ti Ht Hf) as (ti' & ? & ?); eauto.
Qed.

Lemma task_in_rule st R T t k ri ri' :
  R !! k = Some ri -> (state ri = st -> state ri' = st) ->
  task_in st R T t -> task_in st (<[k := ri']> R) T t.
Proof.
  intros Hk Hst (ti & rj & Ht & Hr & Hs). exists ti.
  destruct (decide (forRuleInfo ti = k)) as [<-|Hne].
  - exists ri'. rewrite lookup_insert_eq. naive_solver.
  - exists rj. by rewrite lookup_insert_ne.
Qed.

Lemma is_Some_insert_rule (R : Rules) k (ri' : RuleInfo) j :
  is_Some (R !! j) -> is_Some (<[k := ri']> R !! j).
Proof. intros Hj. destruct (decide (k = j)) as [->|]; [rewrite lookup_insert_eq; eauto|by rewrite lookup_insert_ne]. Qed.

Lemma nreq_rule h R T IR FR t k ri ri' :
  R !! k = Some ri -> paused_of ri' = paused_of ri ->
  nreq h (<[k := ri']> R) T IR FR t = nreq h R T IR FR t.
Proof.
  intros Hk Hp. unfold nreq.
  pose proof (msum_update (fun ri => count_req t (paused_of ri)) R k ri ri' Hk) as E.
  simpl in E. rewrite Hp in E. lia.
Qed.

Lemma nscan_rule R T SQ j k ri ri' :
  R !! k = Some ri -> deferred_of ri' = deferred_of ri ->
  nscan (<[k := ri']> R) T SQ j = nscan R T SQ j.
Proof.
  intros Hk Hp. unfold nscan.
  pose proof (msum_update (fun ri => count_scan j (deferred_of ri)) R k ri ri' Hk) as E.
  simpl in E. rewrite Hp in E. lia.
Qed.

Lemma in_flight_rule h R T IR FR r k ri ri' :
  R !! k = Some ri -> paused_of ri' = paused_of ri ->
  in_flight h (<[k := ri']> R) T IR FR r -> in_flight h R T IR FR r.
Proof.
  intros Hk Hp [?|[?|[?|[(j & rj & Hj & Hr)|?]]]]; unfold in_flight; eauto 6.
  do 3 right. left. destruct (decide (k = j)) as [<-|].
  - rewrite lookup_insert_eq in Hj. simplify_eq. exists k, ri. by rewrite <- Hp.
  - rewrite lookup_insert_ne in Hj by done. eauto.
Qed.

Lemma scan_pending_rule R T SQ q k ri ri' :
  R !! k = Some ri -> deferred_of ri' = deferred_of ri ->
  scan_pending (<[k := ri']> R) T SQ q -> scan_pending R T SQ q.
Proof.
  intros Hk Hp [?|[(j & rj & Hj & Hr)|?]]; unfold scan_pending; eauto.
  right. left. destruct (decide (k = j)) as [<-|].
  - rewrite lookup_insert_eq in Hj. simplify_eq. exists k, ri. by rewrite <- Hp.
  - rewrite lookup_insert_ne in Hj by done. eauto.
Qed.

(** What replacing one rule's record may not break. *)
Record rule_step (ep : Z) (T : Tasks) (k : KeyID) (ri ri' : RuleInfo) : Prop := {
  rs_ok : rule_ok T k ri';
  rs_paused : paused_of ri' = paused_of ri;
  rs_deferred : deferred_of ri' = deferred_of ri;
  rs_waiting : state ri = InProgressWaiting <-> state ri' = InProgressWaiting;
  rs_computing : state ri = InProgressComputing <-> state ri' = InProgressComputing;
  rs_task : forall t, inProgressInfo ri = PendingTaskInfo t -> inProgressInfo ri' = PendingTaskInfo t;
  rs_complete : isComplete ep ri = true -> isComplete ep ri' = true;
  rs_scanning : state ri = IsScanning -> state ri' = IsScanning
    /\ (deps_size (dependencies (result ri)) <= deps_size (dependencies (result ri')))%nat;
  rs_noscan : state ri' = IsScanning -> state ri = IsScanning;
  rs_forced : state ri <> IsScanning -> wasForced ri = true -> isScanned ep ri = true ->
    state ri' <> IsScanning /\ wasForced ri' = true /\ isScanned ep ri' = true }.

Lemma computing_iff ri ri' :
  (state ri = InProgressComputing <-> state ri' = InProgressComputing) ->
  computing ri' = computing ri.
Proof. intros H. unfold computing, isInProgressComputing. by rewrite (bool_decide_ext _ _ H). Qed.

Lemma computing_0 ri : state ri <> InProgressComputing -> computing ri = 0%nat.
Proof. intros H. unfold computing, isInProgressComputing. by rewrite bool_decide_eq_false_2. Qed.
Lemma computing_1 ri : state ri = InProgressComputing -> computing ri = 1%nat.
Proof. intros H. unfold computing, isInProgressComputing. by rewrite bool_decide_eq_true_2. Qed.

Lemma scan_ok_rule ep R T k ri ri' q :
  R !! k = Some ri -> rule_step ep T k ri ri' -> scan_ok ep R q -> scan_ok ep (<[k := ri']> R) q.
Proof.
  intros Hk Hs (rj & Hj & Hq & Hi). destruct (decide (k = sreq_ruleInfo q)) as [->|Hne].
  - exists ri'. rewrite lookup_insert_eq. simplify_eq. split; [done|]. split.
    + destruct Hq as [[H1 H2]|(H1 & H2 & H3)].
      * left. destruct (rs_scanning _ _ _ _ _ Hs H1). split; [done|lia].
      * right. by apply (rs_forced _ _ _ _ _ Hs).
    + intros i Hii. by apply is_Some_insert_rule, Hi.
  - exists rj. rewrite lookup_insert_ne by done. split; [done|]. split; [done|].
    intros i Hii. by apply is_Some_insert_rule, Hi.
Qed.

Section Updates.
Context {h : list TaskInputRequest} {x : option TaskID} {d : nat}
  {R : Rules} {T : Tasks} {IR FR : list TaskInputRequest} {SQ : list RuleScanRequest}
  {RD : list TaskID} {NO : nat} {FT : list TaskID} {ep : Z} {nt : N}.

Abbreviation I := (InvC h x d R T IR FR SQ RD NO FT ep nt).

Lemma req_ok_rule r k ri ri' :
  R !! k = Some ri -> (state ri = InProgressWaiting -> state ri' = InProgressWaiting) ->
  req_ok R T r -> req_ok (<[k := ri']> R) T r.
Proof.
  intros Hk Hw [H1 H2]. split; [by apply is_Some_insert_rule|].
  intros t Ht. destruct (H2 t Ht). split; [|done]. by eapply task_in_rule.
Qed.

Lemma InvC_rule k ri ri' :
  I -> R !! k = Some ri -> rule_step ep T k ri ri' ->
  InvC h x d (<[k := ri']> R) T IR FR SQ RD NO FT ep nt.
Proof.
  intros HI Hk Hs. pose proof Hs as []. constructor.
  - intros j rj Hj. destruct (decide (k = j)) as [<-|].
    + rewrite lookup_insert_eq in Hj. by simplify_eq.
    + rewrite lookup_insert_ne in Hj by done. by eapply inv_rule.
  - intros t ti Ht. destruct (inv_task HI t ti Ht) as (Hd & rj & Hj & Hi).
    split; [done|]. destruct (decide (k = forRuleInfo ti)) as [->|].
    + exists ri'. rewrite lookup_insert_eq. simplify_eq. auto.
    + exists rj. by rewrite lookup_insert_ne.
  - intros r Hr. eapply req_ok_rule; [done|naive_solver|].
    eapply inv_req; [done|]. by eapply in_flight_rule.
  - intros r Hr. destruct (inv_finished HI r Hr) as (H1 & [?|[?|(rj & Hj & Hc)]]); eauto.
    split; [done|]. do 2 right. destruct (decide (k = ireq_inputRuleInfo r)) as [->|].
    + exists ri'. rewrite lookup_insert_eq. simplify_eq. auto.
    + exists rj. by rewrite lookup_insert_ne.
  - by eapply inv_requestedBy.
  - intros j rj r Hj Hr. destruct (decide (k = j)) as [<-|].
    + rewrite lookup_insert_eq in Hj. simplify_eq. rewrite rs_paused0 in Hr.
      by eapply inv_paused.
    + rewrite lookup_insert_ne in Hj by done. by eapply inv_paused.
  - intros q Hq. eapply scan_ok_rule; [done|done|].
    eapply inv_scan; [done|]. by eapply scan_pending_rule.
  - intros j rj Hj Hsc. erewrite nscan_rule by done. destruct (decide (k = j)) as [<-|].
    + rewrite lookup_insert_eq in Hj. simplify_eq. by eapply (inv_scan1 HI); auto.
    + rewrite lookup_insert_ne in Hj by done. by eapply (inv_scan1 HI).
  - intros t ti Ht. erewrite nreq_rule by done. by eapply inv_wait.
  - destruct (inv_ready HI) as [Hn Hr]. split; [done|].
    intros t Ht. destruct (Hr t Ht) as (ti & rj & H1 & H2 & H3 & H4).
    exists ti. destruct (decide (k = forRuleInfo ti)) as [->|].
    + exists ri'. rewrite lookup_insert_eq. simplify_eq. naive_solver.
    + exists rj. by rewrite lookup_insert_ne.
  - intros t ti rj Ht Hj Hw Hc. destruct (decide (k = forRuleInfo ti)) as [->|].
    + rewrite lookup_insert_eq in Hj. simplify_eq.
      eapply (inv_idle HI); naive_solver.
    + rewrite lookup_insert_ne in Hj by done. by eapply inv_idle.
  - destruct (inv_done HI) as [Hn Hr]. split; [done|].
    intros t Ht. eapply task_in_rule; [done|naive_solver|auto].
  - rewrite (inv_outstanding HI).
    pose proof (msum_update computing R k ri ri' Hk) as E.
    rewrite (computing_iff ri ri') in E by done. lia.
  - by eapply inv_next.
Qed.
End Updates.

Section Updates2.
Context {h : list TaskInputRequest} {x : option TaskID} {d : nat}
  {R : Rules} {T : Tasks} {IR FR : list TaskInputRequest} {SQ : list RuleScanRequest}
  {RD : list TaskID} {NO : nat} {FT : list TaskID} {ep : Z} {nt : N}.

Abbreviation I := (InvC h x d R T IR FR SQ RD NO FT ep nt).

(** A rule registered for the first time. *)
Lemma InvC_add_rule k ri :
  I -> R !! k = None -> rule_ok T k ri -> state ri = Incomplete ->
  InvC h x d (<[k := ri]> R) T IR FR SQ RD NO FT ep nt.
Proof.
  intros HI Hk Hok Hst.
  assert (Hpre : forall j rj, R !! j = Some rj -> <[k := ri]> R !! j = Some rj).
  { intros j rj Hj. rewrite lookup_insert_ne; [done|]. intros ->; congruence. }
  assert (Hp : paused_of ri = [] /\ deferred_of ri = []).
  { destruct Hok as (_ & Hi). rewrite Hst in Hi. unfold paused_of, deferred_of. by rewrite Hi. }
  destruct Hp as [Hp Hd].
  assert (Hfl : forall r, in_flight h (<[k := ri]> R) T IR FR r -> in_flight h R T IR FR r).
  { intros r [?|[?|[?|[(j & rj & Hj & Hr)|?]]]]; unfold in_flight; eauto 6.
    apply lookup_insert_Some in Hj as [[<- <-]|[_ Hj]]; [rewrite Hp in Hr; set_solver|]. eauto 8. }
  constructor.
  - intros j rj Hj. apply lookup_insert_Some in Hj as [[<- <-]|[_ Hj]]; [done|]. by eapply inv_rule.
  - intros t ti Ht. destruct (inv_task HI t ti Ht) as (? & rj & Hj & ?). eauto.
  - intros r Hr. destruct (inv_req HI r (Hfl r Hr)) as [[ri' H1] H2]. split; [eauto|].
    intros t Ht. destruct (H2 t Ht) as [(ti & rj & ? & ? & ?) ?]. split; [|done].
    exists ti, rj. auto.
  - intros r Hr. destruct (inv_finished HI r Hr) as (? & [?|[?|(rj & ? & ?)]]); eauto 8.
  - by eapply inv_requestedBy.
  - intros j rj r Hj Hr. apply lookup_insert_Some in Hj as [[<- <-]|[_ Hj]];
      [rewrite Hp in Hr; set_solver|]. by eapply inv_paused.
  - intros q Hq. destruct (inv_scan HI q) as (rj & Hj & ? & Hi).
    { destruct Hq as [?|[(j & rj & Hj & Hr)|?]]; unfold scan_pending; eauto.
      apply lookup_insert_Some in Hj as [[<- <-]|[_ Hj]]; [rewrite Hd in Hr; set_solver|]. eauto 6. }
    exists rj. split; [auto|]. split; [done|]. intros i Hii. by apply is_Some_insert_rule, Hi.
  - intros j rj Hj Hs. apply lookup_insert_Some in Hj as [[<- <-]|[_ Hj]]; [congruence|].
    rewrite <- (inv_scan1 HI j rj Hj Hs). unfold nscan.
    rewrite (msum_insert_new _ R k ri Hk), Hd. done.
  - intros t ti Ht. rewrite (inv_wait HI t ti Ht). unfold nreq. rewrite msum_insert_new by done.
    rewrite Hp. done.
  - destruct (inv_ready HI) as [Hn Hr]. split; [done|]. intros t Ht.
    destruct (Hr t Ht) as (ti & rj & ? & ? & ? & ?). exists ti, rj. auto.
  - intros t ti rj Ht Hj Hw Hc. destruct (inv_task HI t ti Ht) as (_ & rj' & Hj' & _).
    rewrite (Hpre _ _ Hj') in Hj. simplify_eq. by eapply inv_idle.
  - destruct (inv_done HI) as [Hn Hr]. split; [done|]. intros t Ht.
    destruct (Hr t Ht) as (ti & rj & ? & ? & ?). exists ti, rj. auto.
  - rewrite msum_insert_new, <- (inv_outstanding HI) by done.
    unfold computing, isInProgressComputing. rewrite Hst. done.
  - by eapply inv_next.
Qed.

(** The scan queue as a bag. *)
Lemma InvC_scan_perm SQ' : I -> SQ ≡ₚ SQ' -> InvC h x d R T IR FR SQ' RD NO FT ep nt.
Proof.
  intros HI Hp. constructor; try apply HI.
  - intros q [Hq|Hq]; apply (inv_scan HI); [left; by rewrite Hp|by right].
  - intros k ri Hk Hs. rewrite <- (inv_scan1 HI k ri Hk Hs). unfold nscan, count_scan. by rewrite Hp.
Qed.

(** A scan request of a rule that is no longer scanning is ignored. *)
Lemma InvC_drop_scan q SQ' ri :
  I -> SQ = q :: SQ' -> R !! sreq_ruleInfo q = Some ri -> state ri <> IsScanning ->
  InvC h x d R T IR FR SQ' RD NO FT ep nt.
Proof.
  intros HI -> Hri Hst. constructor; try apply HI.
  - intros q' [Hq'|Hq']; apply (inv_scan HI); [left; by right|by right].
  - intros k rk Hk Hs. rewrite <- (inv_scan1 HI k rk Hk Hs). unfold nscan.
    rewrite count_scan_cons, decide_False; [done|]. intros <-. congruence.
Qed.

(** [start_scanning] on a rule that was neither scanned nor being scanned. *)
Lemma InvC_start_scan k ri ri' q :
  I -> R !! k = Some ri -> state ri <> IsScanning -> isInProgress ri = false ->
  isComplete ep ri = false -> nscan R T SQ k = 0%nat -> inProgressInfo ri = NullInfo ->
  rule_ok T k ri' -> state ri' = IsScanning ->
  inProgressInfo ri' = PendingScanRecord emptyScanRecord ->
  (0 < deps_size (dependencies (result ri')))%nat ->
  sreq_ruleInfo q = k -> sreq_inputIndex q = 0%nat -> sreq_inputRuleInfo q = None ->
  InvC h x d (<[k := ri']> R) T IR FR (q :: SQ) RD NO FT ep nt.
Proof.
  intros HI Hk Hns Hnp Hnc Hn0 Hnull Hok Hst Hrec Hsz Hqk Hq0 Hqi.
  assert (Hp : paused_of ri' = paused_of ri /\ deferred_of ri' = deferred_of ri).
  { unfold paused_of, deferred_of. by rewrite Hrec, Hnull. }
  destruct Hp as [Hp Hd].
  assert (Hw : state ri <> InProgressWaiting /\ state ri <> InProgressComputing).
  { unfold isInProgress, isInProgressWaiting, isInProgressComputing in Hnp.
    apply orb_false_iff in Hnp as [H1 H2]. by apply bool_decide_eq_false in H1, H2. }
  assert (Hno : forall q', scan_pending R T SQ q' -> sreq_ruleInfo q' <> k).
  { intros q' Hq' Hk'. assert (0 < nscan R T SQ k)%nat by (apply nscan_pos; eauto). lia. }
  assert (Hne : forall t ti, T !! t = Some ti -> forRuleInfo ti <> k).
  { intros t ti Ht <-. destruct (inv_task HI t ti Ht) as (_ & rj & Hj & Hi). congruence. }
  assert (Htin : forall st t, task_in st R T t -> task_in st (<[k := ri']> R) T t).
  { intros st t (ti & rj & H1 & H2 & H3). exists ti, rj.
    by rewrite lookup_insert_ne by (intros E; by eapply Hne). }
  constructor.
  - intros j rj Hj. apply lookup_insert_Some in Hj as [[<- <-]|[_ Hj]]; [done|]. by eapply inv_rule.
  - intros t ti Ht. destruct (inv_task HI t ti Ht) as (? & rj & Hj & ?). split; [done|].
    exists rj. by rewrite lookup_insert_ne by (intros E; by eapply Hne).
  - intros r Hr. destruct (inv_req HI r) as [H1 H2]; [by eapply in_flight_rule|].
    split; [by apply is_Some_insert_rule|]. intros t Ht. destruct (H2 t Ht). auto.
  - intros r Hr. destruct (inv_finished HI r Hr) as (? & [?|[?|(rj & Hj & ?)]]); eauto.
    split; [done|]. do 2 right. exists rj. rewrite lookup_insert_ne; [done|]. intros ->. congruence.
  - by eapply inv_requestedBy.
  - intros j rj r Hj Hr. apply lookup_insert_Some in Hj as [[<- <-]|[_ Hj]];
      [rewrite Hp in Hr|]; by eapply inv_paused.
  - intros q' Hq'. assert (q' = q \/ scan_pending R T SQ q') as [->|Hq2].
    { destruct Hq' as [Hq'|Hq'].
      - apply elem_of_cons in Hq' as [->|?]; [by left|]. right. by left.
      - right. eapply scan_pending_rule; [done|exact Hd|by right]. }
    + exists ri'. rewrite Hqk, lookup_insert_eq, Hq0, Hqi. split; [done|]. split; [by left|done].
    + destruct (inv_scan HI q' Hq2) as (rj & Hj & ? & Hi). exists rj.
      rewrite lookup_insert_ne by (intros E; by eapply Hno). split; [done|]. split; [done|].
      intros i Hii. by apply is_Some_insert_rule, Hi.
  - intros j rj Hj Hs. apply lookup_insert_Some in Hj as [[<- <-]|[Hjk Hj]].
    + transitivity (S (nscan (<[k := ri']> R) T SQ k)); [|erewrite nscan_rule by done; lia].
      unfold nscan. rewrite count_scan_cons, decide_True by done. lia.
    + rewrite <- (inv_scan1 HI j rj Hj Hs). rewrite <- (nscan_rule R T SQ j k ri ri' Hk Hd).
      unfold nscan. rewrite count_scan_cons, decide_False by congruence. done.
  - intros t ti Ht. erewrite nreq_rule by done. by eapply inv_wait.
  - destruct (inv_ready HI) as [Hn Hr]. split; [done|]. intros t Ht.
    destruct (Hr t Ht) as (ti & rj & ? & ? & ? & ?). exists ti, rj.
    by rewrite lookup_insert_ne by (intros E; by eapply Hne).
  - intros t ti rj Ht Hj Hw' Hc. rewrite lookup_insert_ne in Hj by (intros E; by eapply Hne).
    by eapply inv_idle.
  - destruct (inv_done HI) as [Hn Hr]. split; [done|]. auto.
  - rewrite (inv_outstanding HI). pose proof (msum_update computing R k ri ri' Hk) as E.
    rewrite (computing_0 ri), (computing_0 ri') in E; [lia|congruence|tauto].
  - by eapply inv_next.
Qed.

(** A request without a task only asks for a rule to be built. *)
Lemma InvC_push_dummy r : I -> is_Some (R !! ireq_inputRuleInfo r) -> ireq_taskInfo r = None ->
  InvC h x d R T (IR ++ [r]) FR SQ RD NO FT ep nt.
Proof.
  intros HI Hr Hn. constructor; try apply HI.
  - intros r' Hr'. assert (r' = r \/ in_flight h R T IR FR r') as [->|Hf].
    { destruct Hr' as [?|[Hr'|?]]; unfold in_flight; eauto.
      apply elem_of_app in Hr' as [?|Hr']; [by auto|]. apply list_elem_of_singleton in Hr'. auto. }
    + split; [done|]. congruence.
    + by apply (inv_req HI).
  - intros t ti Ht. rewrite (inv_wait HI t ti Ht). unfold nreq.
    rewrite count_req_app, count_req_cons, count_req_nil, decide_False by congruence. lia.
Qed.

(** [addTaskInputRequest]. *)
Lemma InvC_push_request t ti r :
  I -> T !! t = Some ti -> task_in InProgressWaiting R T t -> t ∉ RD ->
  is_Some (R !! ireq_inputRuleInfo r) -> ireq_taskInfo r = Some t ->
  (ireq_orderOnly r = true -> ireq_inputID r = kMustFollowInputID) ->
  InvC h x d R (<[t := with_waitCount (S (waitCount ti)) ti]> T) (IR ++ [r]) FR SQ RD NO FT ep nt.
Proof.
  intros HI Ht Hw Hrd Hin Hrt Hoo. set (ti' := with_waitCount (S (waitCount ti)) ti).
  assert (HT : forall u tu, <[t := ti']> T !! u = Some tu -> exists tu0, T !! u = Some tu0
            /\ forRuleInfo tu = forRuleInfo tu0 /\ requestedBy tu = requestedBy tu0
            /\ ti_deferredScanRequests tu = ti_deferredScanRequests tu0
            /\ discoveredDependencies tu = discoveredDependencies tu0
            /\ waitCount tu = ((if decide (u = t) then 1 else 0) + waitCount tu0)%nat).
  { intros u tu Hu. apply lookup_insert_Some in Hu as [[<- <-]|[Hne Hu]].
    - exists ti. rewrite decide_True by done. done.
    - exists tu. rewrite decide_False by congruence. done. }
  assert (HT2 : forall u tu, T !! u = Some tu -> exists tu', <[t := ti']> T !! u = Some tu'
            /\ forRuleInfo tu' = forRuleInfo tu /\ (u <> t -> tu' = tu)).
  { intros u tu Hu. destruct (decide (t = u)) as [<-|].
    - exists ti'. rewrite lookup_insert_eq. simplify_eq. done.
    - exists tu. by rewrite lookup_insert_ne. }
  assert (Htin : forall st u, task_in st R T u -> task_in st R (<[t := ti']> T) u).
  { intros st u (tu & ru & H1 & H2 & H3). destruct (HT2 u tu H1) as (tu' & ? & E & _).
    exists tu', ru. by rewrite E. }
  constructor; try apply HI.
  - intros k ri Hk. eapply rule_ok_tasks; [by eapply inv_rule|].
    intros u tu Hu <-. destruct (HT2 u tu Hu) as (tu' & ? & ? & _). eauto.
  - intros u tu Hu. destruct (HT u tu Hu) as (tu0 & Hu0 & E1 & E2 & E3 & E4 & _).
    rewrite E1, E4. by apply (inv_task HI).
  - intros r' Hr'. assert (r' = r \/ in_flight h R T IR FR r') as [->|Hf].
    { destruct Hr' as [?|[Hr'|[?|[?|(u & tu & Hu & Hr')]]]]; unfold in_flight; eauto 7.
      - apply elem_of_app in Hr' as [?|Hr']; [by auto|]. apply list_elem_of_singleton in Hr'. auto.
      - destruct (HT u tu Hu) as (tu0 & Hu0 & _ & E & _). rewrite E in Hr'. right. do 4 right. eauto. }
    + split; [done|]. intros u Hu. simplify_eq. auto.
    + destruct (inv_req HI r' Hf) as [H1 H2]. split; [done|]. intros u Hu. destruct (H2 u Hu). auto.
  - intros u tu r' Hu Hr'. destruct (HT u tu Hu) as (tu0 & Hu0 & E1 & E2 & _).
    rewrite E1. rewrite E2 in Hr'. by eapply inv_requestedBy.
  - intros q [?|[?|(u & tu & Hu & Hq)]]; apply (inv_scan HI); unfold scan_pending; eauto.
    destruct (HT u tu Hu) as (tu0 & Hu0 & _ & _ & E & _). rewrite E in Hq. eauto 8.
  - intros k ri Hk Hs. rewrite <- (inv_scan1 HI k ri Hk Hs). unfold nscan.
    pose proof (msum_update (fun ti => count_scan k (ti_deferredScanRequests ti)) T t ti ti' Ht) as E.
    simpl in E. lia.
  - intros u tu Hu. destruct (HT u tu Hu) as (tu0 & Hu0 & _ & _ & _ & _ & ->).
    rewrite (inv_wait HI u tu0 Hu0). unfold nreq.
    pose proof (msum_update (fun ti => count_req u (requestedBy ti)) T t ti ti' Ht) as E. simpl in E.
    rewrite count_req_app, count_req_cons, count_req_nil, Hrt.
    destruct (decide (u = t)) as [->|Hne]; [rewrite decide_True by done|rewrite decide_False by congruence]; lia.
  - destruct (inv_ready HI) as [Hn Hr]. split; [done|]. intros u Hu.
    destruct (Hr u Hu) as (tu & ru & H1 & H2 & H3 & H4). exists tu, ru.
    rewrite lookup_insert_ne by (intros ->; done). done.
  - intros u tu ru Hu Hru Hst Hwc. destruct (HT u tu Hu) as (tu0 & Hu0 & E1 & _ & _ & _ & E2).
    rewrite E1 in Hru. rewrite Hwc in E2. case_decide; [lia|]. by eapply (inv_idle HI).
  - destruct (inv_done HI) as [Hn Hr]. split; [done|]. auto.
  - intros u [tu Hu]. destruct (HT u tu Hu) as (tu0 & Hu0 & _). eapply inv_next; eauto.
Qed.
End Updates2.

(** Replacing a task's record by one with the same rule and wait count. *)
Section Updates3.
Context {h : list TaskInputRequest} {x : option TaskID} {d : nat}
  {R : Rules} {T : Tasks} {IR FR : list TaskInputRequest} {SQ : list RuleScanRequest}
  {RD : list TaskID} {NO : nat} {FT : list TaskID} {ep : Z} {nt : N}.

Lemma task_in_task st t ti ti' u :
  T !! t = Some ti -> forRuleInfo ti' = forRuleInfo ti ->
  task_in st R T u -> task_in st R (<[t := ti']> T) u.
Proof.
  intros Ht Hf (tu & ru & H1 & H2 & H3). destruct (decide (t = u)) as [<-|].
  - exists ti', ru. rewrite lookup_insert_eq. simplify_eq. by rewrite Hf.
  - exists tu, ru. by rewrite lookup_insert_ne.
Qed.

(** [h'] is the hand afterwards: requests may move between it and [requestedBy]. *)
Lemma InvC_task h' SQ' t ti ti' :
  InvC h x d R T IR FR SQ RD NO FT ep nt -> T !! t = Some ti ->
  forRuleInfo ti' = forRuleInfo ti -> waitCount ti' = waitCount ti ->
  deps_wf (discoveredDependencies ti') ->
  (forall u, count_req u h' + count_req u (requestedBy ti')
           = count_req u h + count_req u (requestedBy ti))%nat ->
  (forall r, r ∈ h' -> r ∈ h \/ r ∈ requestedBy ti) ->
  (forall r, r ∈ requestedBy ti' -> r ∈ requestedBy ti
     \/ (r ∈ h /\ is_Some (ireq_taskInfo r) /\ ireq_inputRuleInfo r = forRuleInfo ti)) ->
  (forall k, count_scan k SQ' + count_scan k (ti_deferredScanRequests ti')
           = count_scan k SQ + count_scan k (ti_deferredScanRequests ti))%nat ->
  (forall q, q ∈ SQ' -> q ∈ SQ) ->
  (forall q, q ∈ ti_deferredScanRequests ti' -> q ∈ ti_deferredScanRequests ti \/ q ∈ SQ) ->
  InvC h' x d R (<[t := ti']> T) IR FR SQ' RD NO FT ep nt.
Proof.
  intros HI Ht Hf Hw Hd Hc Hh Hrb Hsc Hsq Hdf.
  assert (Htin : forall st u, task_in st R T u -> task_in st R (<[t := ti']> T) u)
    by (intros; by eapply task_in_task).
  constructor; try apply HI.
  - intros k ri Hk. eapply rule_ok_tasks; [by eapply inv_rule|].
    intros u tu Hu <-. destruct (decide (t = u)) as [<-|].
    + exists ti'. rewrite lookup_insert_eq. simplify_eq. done.
    + exists tu. by rewrite lookup_insert_ne.
  - intros u tu Hu. apply lookup_insert_Some in Hu as [[<- <-]|[_ Hu]]; [|by apply (inv_task HI)].
    split; [done|]. rewrite Hf. by apply (inv_task HI).
  - intros r Hr. assert (in_flight h R T IR FR r) as Hfl.
    { destruct Hr as [Hr|[?|[?|[?|(u & tu & Hu & Hr)]]]]; unfold in_flight; eauto 7.
      { destruct (Hh r Hr); [by left|]. do 4 right. eauto. }
      apply lookup_insert_Some in Hu as [[<- <-]|[_ Hu]]; [|eauto 8].
      destruct (Hrb r Hr) as [?|[? _]]; [|by left]. do 4 right. eauto. }
    destruct (inv_req HI r Hfl) as [H1 H2]. split; [done|]. intros u Hu. destruct (H2 u Hu). auto.
  - intros u tu r Hu Hr. apply lookup_insert_Some in Hu as [[<- <-]|[_ Hu]];
      [|by eapply (inv_requestedBy HI)].
    rewrite Hf. destruct (Hrb r Hr) as [?|(_ & ? & ?)]; [|done]. by eapply (inv_requestedBy HI).
  - intros q [?|[?|(u & tu & Hu & Hq)]]; try (apply (inv_scan HI); unfold scan_pending; eauto; fail).
    apply lookup_insert_Some in Hu as [[<- <-]|[_ Hu]];
      [|apply (inv_scan HI); unfold scan_pending; eauto 8].
    destruct (Hdf q Hq) as [?|?]; apply (inv_scan HI); unfold scan_pending; eauto 8.
  - intros k ri Hk Hs. rewrite <- (inv_scan1 HI k ri Hk Hs). unfold nscan.
    pose proof (msum_update (fun ti => count_scan k (ti_deferredScanRequests ti)) T t ti ti' Ht) as E.
    simpl in E. specialize (Hsc k). lia.
  - intros u tu Hu. assert (exists tu0, T !! u = Some tu0 /\ waitCount tu = waitCount tu0) as (tu0 & Hu0 & ->).
    { apply lookup_insert_Some in Hu as [[<- <-]|[_ Hu]]; eauto. }
    rewrite (inv_wait HI u tu0 Hu0). unfold nreq.
    pose proof (msum_update (fun ti => count_req u (requestedBy ti)) T t ti ti' Ht) as E. simpl in E.
    specialize (Hc u). lia.
  - destruct (inv_ready HI) as [Hn Hr]. split; [done|]. intros u Hu.
    destruct (Hr u Hu) as (tu & ru & H1 & H2 & H3 & H4). destruct (decide (t = u)) as [<-|].
    + exists ti', ru. rewrite lookup_insert_eq, Hf, Hw. by simplify_eq.
    + exists tu, ru. by rewrite lookup_insert_ne.
  - intros u tu ru Hu Hru Hst Hwc. apply lookup_insert_Some in Hu as [[<- <-]|[_ Hu]];
      [|by eapply (inv_idle HI)]. rewrite Hf in Hru. rewrite Hw in Hwc. by eapply (inv_idle HI).
  - destruct (inv_done HI) as [Hn Hr]. split; [done|]. auto.
  - intros u [tu Hu]. apply lookup_insert_Some in Hu as [[<- <-]|[_ Hu]]; eapply (inv_next HI); eauto.
Qed.

(** Moving the request in hand onto the finished requests. *)
Lemma InvC_finish_request r :
  InvC [r] x d R T IR FR SQ RD NO FT ep nt ->
  is_Some (ireq_taskInfo r) ->
  (ireq_forcePriorValue r = true \/ ireq_orderOnly r = true
   \/ exists ri, R !! ireq_inputRuleInfo r = Some ri /\ isComplete ep ri = true) ->
  InvC [] x d R T IR (r :: FR) SQ RD NO FT ep nt.
Proof.
  intros HI Ht Hc. constructor; try apply HI.
  - intros r' Hr'. apply (inv_req HI). destruct Hr' as [?|[?|[Hr'|?]]]; unfold in_flight; eauto.
    + set_solver.
    + apply elem_of_cons in Hr' as [->|?]; [left; by left|eauto].
  - intros r' Hr'. apply elem_of_cons in Hr' as [->|?]; [done|]. by apply (inv_finished HI).
  - intros t ti Hti. rewrite (inv_wait HI t ti Hti). unfold nreq.
    rewrite !count_req_cons, !count_req_nil. lia.
Qed.

(** Dropping a request that belongs to no task. *)
Lemma InvC_drop_dummy r :
  InvC [r] x d R T IR FR SQ RD NO FT ep nt -> ireq_taskInfo r = None ->
  InvC [] x d R T IR FR SQ RD NO FT ep nt.
Proof.
  intros HI Hn. constructor; try apply HI.
  - intros r' Hr'. apply (inv_req HI). destruct Hr' as [?|?]; [set_solver|by right].
  - intros t ti Hti. rewrite (inv_wait HI t ti Hti). unfold nreq.
    rewrite !count_req_cons, !count_req_nil, decide_False by congruence. lia.
Qed.

(** Taking a request off a queue. *)
Lemma InvC_pop_input r IR' :
  InvC [] x d R T IR FR SQ RD NO FT ep nt -> IR = r :: IR' ->
  InvC [r] x d R T IR' FR SQ RD NO FT ep nt.
Proof.
  intros HI ->. constructor; try apply HI.
  - intros r' Hr'. apply (inv_req HI). destruct Hr' as [Hr'|[?|?]]; unfold in_flight; eauto.
    + apply list_elem_of_singleton in Hr' as ->. right. left. left.
    + right. left. by right.
  - intros t ti Hti. rewrite (inv_wait HI t ti Hti). unfold nreq.
    rewrite !count_req_cons, !count_req_nil. lia.
Qed.

Lemma InvC_pop_finished r FR' :
  InvC [] x d R T IR FR SQ RD NO FT ep nt -> FR = r :: FR' ->
  InvC [r] x d R T IR FR' SQ RD NO FT ep nt.
Proof.
  intros HI ->. constructor; try apply HI.
  - intros r' Hr'. apply (inv_req HI). destruct Hr' as [Hr'|[?|[?|?]]]; unfold in_flight; eauto.
    + apply list_elem_of_singleton in Hr' as ->. do 2 right. left. left.
    + do 2 right. left. by right.
  - intros r' Hr'. apply (inv_finished HI). by right.
  - intros t ti Hti. rewrite (inv_wait HI t ti Hti). unfold nreq.
    rewrite !count_req_cons, !count_req_nil. lia.
Qed.
End Updates3.

(** Updates of a rule's scan record. *)
Section Updates4.
Context {h : list TaskInputRequest} {x : option TaskID} {d : nat}
  {R : Rules} {T : Tasks} {IR FR : list TaskInputRequest} {SQ : list RuleScanRequest}
  {RD : list TaskID} {NO : nat} {FT : list TaskID} {ep : Z} {nt : N}.

(** [R'] differs from [R] at the scanning rule [k] only, whose record [rec] is
    replaced; requests move between the record, the hand and the queues. *)
Lemma InvC_record h' IR' SQ' k ri ri' rec :
  InvC h x d R T IR FR SQ RD NO FT ep nt ->
  R !! k = Some ri -> state ri = IsScanning -> inProgressInfo ri = PendingScanRecord rec ->
  rule_ok T k ri' -> state ri' <> InProgressWaiting -> state ri' <> InProgressComputing ->
  (forall u, count_req u h' + count_req u IR' + count_req u (paused_of ri')
     = count_req u h + count_req u IR + count_req u (pausedInputRequests rec))%nat ->
  (forall r, r ∈ h' \/ r ∈ IR' \/ r ∈ paused_of ri' ->
     r ∈ h \/ r ∈ IR \/ r ∈ pausedInputRequests rec) ->
  (forall r, r ∈ paused_of ri' -> ireq_inputRuleInfo r = k) ->
  (forall j, j <> k -> count_scan j SQ' + count_scan j (deferred_of ri')
     = count_scan j SQ + count_scan j (deferredScanRequests rec))%nat ->
  (forall q, q ∈ SQ' \/ q ∈ deferred_of ri' -> q ∈ SQ \/ q ∈ deferredScanRequests rec) ->
  (forall q, scan_pending (<[k := ri']> R) T SQ' q -> sreq_ruleInfo q = k -> scan_ok ep R q ->
     scan_ok ep (<[k := ri']> R) q) ->
  (state ri' = IsScanning -> nscan (<[k := ri']> R) T SQ' k = 1%nat) ->
  InvC h' x d (<[k := ri']> R) T IR' FR SQ' RD NO FT ep nt.
Proof.
  intros HI Hk Hst Hrec Hok Hnw Hnc Hcr Hmr Hpk Hcs Hms Hsok Hs1.
  assert (Hp : paused_of ri = pausedInputRequests rec /\ deferred_of ri = deferredScanRequests rec).
  { unfold paused_of, deferred_of. by rewrite Hrec. }
  destruct Hp as [Hp Hd].
  assert (Hne : forall t ti, T !! t = Some ti -> forRuleInfo ti <> k).
  { intros t ti Ht <-. destruct (inv_task HI t ti Ht) as (_ & rj & Hj & Hi). congruence. }
  assert (Hkeep : forall t ti rj, T !! t = Some ti ->
            (<[k := ri']> R !! forRuleInfo ti = Some rj <-> R !! forRuleInfo ti = Some rj)).
  { intros t ti rj Ht. rewrite lookup_insert_ne; [done|]. intros E; by eapply Hne. }
  assert (Htin : forall st t, task_in st R T t -> task_in st (<[k := ri']> R) T t).
  { intros st t (ti & rj & H1 & H2 & H3). exists ti, rj. by rewrite Hkeep. }
  constructor; try apply HI.
  - intros j rj Hj. apply lookup_insert_Some in Hj as [[<- <-]|[_ Hj]]; [done|]. by eapply inv_rule.
  - intros t ti Ht. destruct (inv_task HI t ti Ht) as (? & rj & Hj & ?). split; [done|].
    exists rj. by rewrite Hkeep.
  - intros r Hr. destruct (inv_req HI r) as [H1 H2].
    { destruct Hr as [Hr|[Hr|[?|[(j & rj & Hj & Hr)|?]]]]; unfold in_flight.
      1: destruct (Hmr r (or_introl Hr)) as [?|[?|?]]; eauto 6; do 3 right; left; exists k, ri; by rewrite Hp.
      1: destruct (Hmr r (or_intror (or_introl Hr))) as [?|[?|?]]; eauto 6;
           do 3 right; left; exists k, ri; by rewrite Hp.
      1: eauto.
      2: eauto 6.
      apply lookup_insert_Some in Hj as [[<- <-]|[_ Hj]]; [|eauto 8].
      destruct (Hmr r (or_intror (or_intror Hr))) as [?|[?|?]]; eauto 6.
      do 3 right; left; exists k, ri; by rewrite Hp. }
    split; [by apply is_Some_insert_rule|]. intros t Ht. destruct (H2 t Ht). auto.
  - intros r Hr. destruct (inv_finished HI r Hr) as (? & [?|[?|(rj & Hj & Hc)]]); eauto.
    split; [done|]. do 2 right. exists rj. rewrite lookup_insert_ne; [done|].
    intros ->. simplify_eq. unfold isComplete in Hc. by rewrite Hst in Hc.
  - intros j rj r Hj Hr. apply lookup_insert_Some in Hj as [[<- <-]|[_ Hj]]; [auto|]. by eapply inv_paused.
  - intros q Hq. assert (Hq2 : scan_pending R T SQ q).
    { destruct Hq as [Hq|[(j & rj & Hj & Hq)|?]]; unfold scan_pending.
      - destruct (Hms q (or_introl Hq)); [by left|]. right; left. exists k, ri. by rewrite Hd.
      - apply lookup_insert_Some in Hj as [[<- <-]|[_ Hj]]; [|eauto 6].
        destruct (Hms q (or_intror Hq)); [by left|]. right; left. exists k, ri. by rewrite Hd.
      - eauto. }
    destruct (decide (sreq_ruleInfo q = k)) as [Hqk|Hqk]; [apply Hsok; auto; by apply (inv_scan HI)|].
    destruct (inv_scan HI q Hq2) as (rj & Hj & ? & Hi). exists rj.
    rewrite lookup_insert_ne by done. split; [done|]. split; [done|].
    intros i Hii. by apply is_Some_insert_rule, Hi.
  - intros j rj Hj Hs. apply lookup_insert_Some in Hj as [[<- <-]|[Hjk Hj]]; [auto|].
    rewrite <- (inv_scan1 HI j rj Hj Hs). unfold nscan.
    pose proof (msum_update (fun ri => count_scan j (deferred_of ri)) R k ri ri' Hk) as E.
    simpl in E. rewrite Hd in E. specialize (Hcs j ltac:(congruence)). lia.
  - intros t ti Ht. rewrite (inv_wait HI t ti Ht). unfold nreq.
    pose proof (msum_update (fun ri => count_req t (paused_of ri)) R k ri ri' Hk) as E.
    simpl in E. rewrite Hp in E. specialize (Hcr t). lia.
  - destruct (inv_ready HI) as [Hn Hr]. split; [done|]. intros t Ht.
    destruct (Hr t Ht) as (ti & rj & ? & ? & ? & ?). exists ti, rj. by rewrite Hkeep.
  - intros t ti rj Ht Hj Hw' Hc. rewrite Hkeep in Hj by done. by eapply inv_idle.
  - destruct (inv_done HI) as [Hn Hr]. split; [done|]. auto.
  - rewrite (inv_outstanding HI). pose proof (msum_update computing R k ri ri' Hk) as E.
    rewrite (computing_0 ri), (computing_0 ri') in E; [lia|done|congruence].
Qed.
End Updates4.

Section RecordMoves.
Context {x : option TaskID} {d : nat}
  {R : Rules} {T : Tasks} {IR FR : list TaskInputRequest} {SQ : list RuleScanRequest}
  {RD : list TaskID} {NO : nat} {FT : list TaskID} {ep : Z} {nt : N}
  (k : KeyID) (ri : RuleInfo) (rec : RuleScanRecord).
Hypothesis Hk : R !! k = Some ri.
Hypothesis Hst : state ri = IsScanning.
Hypothesis Hrec : inProgressInfo ri = PendingScanRecord rec.

Lemma scan_ok_same_rule R' q ri' :
  scan_ok ep R q -> sreq_ruleInfo q = k -> R' = <[k := ri']> R -> state ri' = IsScanning ->
  result ri' = result ri -> scan_ok ep R' q.
Proof.
  intros (rj & Hj & Hq & Hi) Hqk -> Hs' Hr'. exists ri'.
  rewrite Hqk, lookup_insert_eq. split; [done|]. split.
  - rewrite Hqk in Hj. simplify_eq. rewrite Hr'. destruct Hq as [[??]|[??]]; [by left|done].
  - intros i Hii. by apply is_Some_insert_rule, Hi.
Qed.

(** An input request is paused on the rule being scanned. *)
Lemma InvC_pause r :
  InvC [r] x d R T IR FR SQ RD NO FT ep nt -> ireq_inputRuleInfo r = k ->
  InvC [] x d (<[k := with_info (PendingScanRecord
     (mkScanRecord (pausedInputRequests rec ++ [r]) (deferredScanRequests rec))) ri]> R)
    T IR FR SQ RD NO FT ep nt.
Proof.
  intros HI Hr. set (ri' := with_info _ ri).
  assert (Hd : deferred_of ri' = deferred_of ri) by (unfold deferred_of; by rewrite Hrec).
  eapply InvC_record; try done; simpl; rewrite ?Hst; try done.
  - destruct (inv_rule HI k ri Hk) as (? & _). split; [done|].
    simpl. rewrite Hst. eauto.
  - intros u. unfold paused_of; simpl. rewrite ?count_req_app, ?count_req_cons, ?count_req_nil. lia.
  - intros r'. unfold paused_of; simpl. set_solver.
  - intros r' Hr'. unfold paused_of in Hr'; simpl in Hr'.
    apply elem_of_app in Hr' as [Hr'|Hr'];
      [eapply (inv_paused HI); [done|unfold paused_of; by rewrite Hrec]|].
    by apply list_elem_of_singleton in Hr' as ->.
  - intros q _ Hqk Hq. by eapply scan_ok_same_rule.
  - intros _. rewrite (nscan_rule R T SQ k k ri ri') by done. by eapply (inv_scan1 HI).
Qed.

(** The scan request in hand is deferred on the rule being scanned. *)
Lemma InvC_defer_scan q SQ' :
  InvC [] x d R T IR FR SQ RD NO FT ep nt -> SQ = q :: SQ' ->
  InvC [] x d (<[k := with_info (PendingScanRecord
     (mkScanRecord (pausedInputRequests rec) (deferredScanRequests rec ++ [q]))) ri]> R)
    T IR FR SQ' RD NO FT ep nt.
Proof.
  intros HI ->. set (ri' := with_info _ ri).
  assert (Hd : forall j, (count_scan j SQ' + count_scan j (deferred_of ri')
                = count_scan j (q :: SQ') + count_scan j (deferredScanRequests rec))%nat).
  { intros j. unfold deferred_of; simpl. rewrite count_scan_app, !count_scan_cons, !count_scan_nil. lia. }
  eapply InvC_record; try done; simpl; rewrite ?Hst; try done.
  - destruct (inv_rule HI k ri Hk) as (? & _). split; [done|].
    simpl. rewrite Hst. eauto.
  - intros r' Hr'. eapply (inv_paused HI); [done|]. unfold paused_of. by rewrite Hrec.
  - unfold deferred_of; simpl. set_solver.
  - intros q' _ Hqk Hq. by eapply scan_ok_same_rule.
  - intros _. rewrite <- (inv_scan1 HI k ri Hk Hst). unfold nscan.
    pose proof (msum_update (fun ri => count_scan k (deferred_of ri)) R k ri ri' Hk) as E.
    simpl in E. specialize (Hd k).
    assert (deferred_of ri = deferredScanRequests rec) as E2 by (unfold deferred_of; by rewrite Hrec).
    rewrite E2 in E. lia.
Qed.

(** The scan of the rule is over: its waiters go back to the queues.  The rule's
    own request is the one in hand. *)
Lemma InvC_finish_scan q SQ' st :
  InvC [] x d R T IR FR SQ RD NO FT ep nt -> SQ = q :: SQ' -> sreq_ruleInfo q = k ->
  st = NeedsToRun \/ st = DoesNotNeedToRun ->
  InvC [] x d (<[k := with_state st (with_info NullInfo ri)]> R) T
    (IR ++ pausedInputRequests rec) FR (rev (deferredScanRequests rec) ++ SQ') RD NO FT ep nt.
Proof.
  intros HI -> Hq Hstk. set (ri' := with_state st _).
  assert (Hdr : deferred_of ri = deferredScanRequests rec) by (unfold deferred_of; by rewrite Hrec).
  assert (Hrev : forall j l, count_scan j (rev l) = count_scan j l) by apply count_scan_rev.
  eapply InvC_record; try done; simpl.
  - destruct (inv_rule HI k ri Hk) as (? & _). split; [done|].
    simpl. destruct Hstk as [-> | ->]; done.
  - destruct Hstk as [-> | ->]; done.
  - destruct Hstk as [-> | ->]; done.
  - intros u. unfold paused_of; simpl. rewrite ?count_req_app, ?count_req_cons, ?count_req_nil. lia.
  - intros r'. unfold paused_of; simpl. set_solver.
  - intros r' Hr'. unfold paused_of in Hr'; simpl in Hr'. set_solver.
  - intros j Hj. unfold deferred_of; simpl.
    rewrite count_scan_app, Hrev, count_scan_cons, count_scan_nil, decide_False by congruence. lia.
  - intros q'. unfold deferred_of; simpl. rewrite elem_of_app, elem_of_cons, elem_of_rev. set_solver.
  - intros q' Hp Hqk _. exfalso.
    assert (0 < nscan (<[k := ri']> R) T (rev (deferredScanRequests rec) ++ SQ') k)%nat
      by (apply nscan_pos; eauto).
    pose proof (inv_scan1 HI k ri Hk Hst) as E1. unfold nscan in *.
    pose proof (msum_update (fun ri => count_scan k (deferred_of ri)) R k ri ri' Hk) as E.
    simpl in E. rewrite Hdr in E. unfold deferred_of at 3 in E. simpl in E.
    rewrite count_scan_app, Hrev in *. rewrite count_scan_cons, decide_True in E1 by done.
    rewrite count_scan_nil in E. lia.
  - intros E. destruct Hstk as [-> | ->]; done.
Qed.
End RecordMoves.

(** Moves of cycle breaking. *)
Section BreakMoves.
Context {x : option TaskID} {d : nat}
  {R : Rules} {T : Tasks} {IR FR : list TaskInputRequest} {SQ : list RuleScanRequest}
  {RD : list TaskID} {NO : nat} {FT : list TaskID} {ep : Z} {nt : N}.

(** A scanning rule is forced to run: its own scan request may stay deferred
    elsewhere, or is erased from the queue. *)
Lemma InvC_force_scan k ri rec SQ' :
  InvC [] x d R T IR FR SQ RD NO FT ep nt -> R !! k = Some ri -> state ri = IsScanning ->
  inProgressInfo ri = PendingScanRecord rec ->
  (forall j, j <> k -> count_scan j SQ' = count_scan j SQ) -> (forall q, q ∈ SQ' -> q ∈ SQ) ->
  InvC [] x d (<[k := with_forced true (with_state NeedsToRun (with_info NullInfo ri))]> R) T
    (IR ++ pausedInputRequests rec) FR (rev (deferredScanRequests rec) ++ SQ') RD NO FT ep nt.
Proof.
  intros HI Hk Hst Hrec Hcnt Hsub. set (ri' := with_forced true _).
  eapply InvC_record; try done; simpl.
  - destruct (inv_rule HI k ri Hk) as (? & _). by split.
  - intros u. unfold paused_of; simpl. rewrite ?count_req_app, ?count_req_cons, ?count_req_nil. lia.
  - intros r'. unfold paused_of; simpl. set_solver.
  - intros r' Hr'. unfold paused_of in Hr'; simpl in Hr'. set_solver.
  - intros j Hj. unfold deferred_of; simpl.
    rewrite count_scan_app, count_scan_rev, count_scan_nil, Hcnt by done. lia.
  - intros q'. unfold deferred_of; simpl. rewrite elem_of_app, elem_of_rev. set_solver.
  - intros q' Hp Hqk (rj & Hj & _ & Hin). exists ri'. rewrite Hqk, lookup_insert_eq.
    split; [done|]. split; [by right|]. intros i Hi. by apply is_Some_insert_rule, Hin.
Qed.

(** A request in hand may be marked to take the prior value. *)
Lemma InvC_force_request r r' :
  InvC [r] x d R T IR FR SQ RD NO FT ep nt -> ireq_taskInfo r' = ireq_taskInfo r ->
  ireq_inputRuleInfo r' = ireq_inputRuleInfo r -> ireq_orderOnly r' = ireq_orderOnly r ->
  ireq_inputID r' = ireq_inputID r -> InvC [r'] x d R T IR FR SQ RD NO FT ep nt.
Proof.
  intros HI E1 E2 E3 E4. constructor; try apply HI.
  - intros r0 [Hr0|Hr0]; [|apply (inv_req HI); by right].
    apply list_elem_of_singleton in Hr0 as ->. unfold req_ok. rewrite E1, E2, E3, E4.
    apply (inv_req HI). left. left.
  - intros t ti Ht. rewrite (inv_wait HI t ti Ht). unfold nreq. by rewrite !count_req_cons, E1.
Qed.
End BreakMoves.

(** The life of a task. *)
Section Updates5.
Context {h : list TaskInputRequest} {x : option TaskID} {d : nat}
  {R : Rules} {T : Tasks} {IR FR : list TaskInputRequest} {SQ : list RuleScanRequest}
  {RD : list TaskID} {NO : nat} {FT : list TaskID} {ep : Z} {nt : N}.

(** [demandRule] creates the task of a rule that needs to run. *)
Lemma InvC_new_task k ri ri' :
  InvC h None d R T IR FR SQ RD NO FT ep nt -> R !! k = Some ri -> state ri = NeedsToRun ->
  state ri' = InProgressWaiting -> inProgressInfo ri' = PendingTaskInfo nt ->
  deps_wf (dependencies (result ri')) -> rule ri' = rule ri -> wasForced ri' = wasForced ri ->
  InvC h (Some nt) d (<[k := ri']> R) (<[nt := mkTaskInfo [] [] k 0 (mkDeps [] [])]> T)
    IR FR SQ RD NO FT ep (N.succ nt).
Proof.
  intros HI Hk Hst Hst' Hi' Hd' Hru Hwf. set (ti := mkTaskInfo _ _ _ _ _).
  assert (Hfresh : T !! nt = None).
  { destruct (T !! nt) eqn:E; [|done]. pose proof (inv_next HI nt ltac:(eauto)). lia. }
  destruct (inv_rule HI k ri Hk) as (Hdk & Hnull). rewrite Hst in Hnull.
  assert (Hp : paused_of ri' = paused_of ri /\ deferred_of ri' = deferred_of ri).
  { unfold paused_of, deferred_of. by rewrite Hi', Hnull. }
  destruct Hp as [Hp Hdf].
  assert (HT : forall t tt, T !! t = Some tt -> <[nt := ti]> T !! t = Some tt).
  { intros t tt Ht. rewrite lookup_insert_ne; [done|]. intros ->. congruence. }
  assert (Hne : forall t tt, T !! t = Some tt -> forRuleInfo tt <> k).
  { intros t tt Ht <-. destruct (inv_task HI t tt Ht) as (_ & rj & Hj & Hi). congruence. }
  assert (Htin : forall st t, task_in st R T t -> task_in st (<[k := ri']> R) (<[nt := ti]> T) t).
  { intros st t (tt & rj & H1 & H2 & H3). exists tt, rj. split; [auto|].
    rewrite lookup_insert_ne; [done|]. intros E; by eapply Hne. }
  constructor.
  - intros j rj Hj. apply lookup_insert_Some in Hj as [[<- <-]|[_ Hj]].
    + split; [done|]. rewrite Hst'. exists nt, ti. by rewrite lookup_insert_eq.
    + eapply rule_ok_tasks; [by eapply inv_rule|]. eauto.
  - intros t tt Ht. apply lookup_insert_Some in Ht as [[<- <-]|[_ Ht]].
    + split; [done|]. exists ri'. simpl. by rewrite lookup_insert_eq.
    + destruct (inv_task HI t tt Ht) as (? & rj & Hj & ?). split; [done|].
      exists rj. rewrite lookup_insert_ne; [done|]. intros E; by eapply Hne.
  - intros r Hr. destruct (inv_req HI r) as [H1 H2].
    { eapply in_flight_rule; [done|done|].
      destruct Hr as [?|[?|[?|[?|(t & tt & Ht & Hr)]]]]; unfold in_flight; eauto 6.
      apply lookup_insert_Some in Ht as [[<- <-]|[_ Ht]]; [simpl in Hr; set_solver|eauto 8]. }
    split; [by apply is_Some_insert_rule|]. intros t Ht. destruct (H2 t Ht). auto.
  - intros r Hr. destruct (inv_finished HI r Hr) as (? & [?|[?|(rj & Hj & Hc)]]); eauto.
    split; [done|]. do 2 right. exists rj. rewrite lookup_insert_ne; [done|].
    intros ->. simplify_eq. unfold isComplete in Hc. by rewrite Hst in Hc.
  - intros t tt r Ht Hr. apply lookup_insert_Some in Ht as [[<- <-]|[_ Ht]];
      [simpl in Hr; set_solver|]. by eapply inv_requestedBy.
  - intros j rj r Hj Hr. apply lookup_insert_Some in Hj as [[<- <-]|[_ Hj]];
      [rewrite Hp in Hr|]; by eapply inv_paused.
  - intros q Hq. destruct (inv_scan HI q) as (rj & Hj & Hs & Hi).
    { eapply scan_pending_rule; [done|done|].
      destruct Hq as [?|[?|(t & tt & Ht & Hq)]]; unfold scan_pending; eauto.
      apply lookup_insert_Some in Ht as [[<- <-]|[_ Ht]]; [simpl in Hq; set_solver|eauto 6]. }
    destruct (decide (k = sreq_ruleInfo q)) as [->|].
    + exists ri'. rewrite lookup_insert_eq. simplify_eq. split; [done|].
      split; [|intros i Hii; by apply is_Some_insert_rule, Hi].
      destruct Hs as [[? _]|(H1 & H2 & H3)]; [congruence|]. right.
      unfold isScanned. rewrite Hst', Hwf. done.
    + exists rj. rewrite lookup_insert_ne by done. split; [done|]. split; [done|].
      intros i Hii. by apply is_Some_insert_rule, Hi.
  - intros j rj Hj Hs. apply lookup_insert_Some in Hj as [[<- <-]|[_ Hj]]; [congruence|].
    rewrite <- (inv_scan1 HI j rj Hj Hs). rewrite (nscan_rule R _ SQ j k ri ri' Hk Hdf).
    unfold nscan. rewrite (msum_insert_new _ T nt ti Hfresh). simpl. rewrite ?count_scan_nil. lia.
  - intros t tt Ht. rewrite (nreq_rule h R _ IR FR t k ri ri' Hk Hp). unfold nreq.
    rewrite (msum_insert_new _ T nt ti Hfresh). simpl. rewrite ?count_req_nil.
    apply lookup_insert_Some in Ht as [[<- <-]|[_ Ht]].
    + simpl. destruct (decide (0 < nreq h R T IR FR nt)%nat) as [Hpos|Hz]; [|unfold nreq in Hz; lia].
      apply nreq_pos in Hpos as (r & Hr & Hrt). destruct (inv_req HI r Hr) as [_ H2].
      destruct (H2 nt Hrt) as [(? & ? & E & _) _]. congruence.
    + rewrite (inv_wait HI t tt Ht). unfold nreq. lia.
  - destruct (inv_ready HI) as [Hn Hr]. split; [done|]. intros t Ht.
    destruct (Hr t Ht) as (tt & rj & ? & ? & ? & ?). exists tt, rj. split; [auto|].
    rewrite lookup_insert_ne; [done|]. intros E; by eapply Hne.
  - intros t tt rj Ht Hj Hw' Hc. apply lookup_insert_Some in Ht as [[<- <-]|[_ Ht]]; [by right|].
    rewrite lookup_insert_ne in Hj by (intros E; by eapply Hne).
    left. destruct (inv_idle HI t tt rj Ht Hj Hw' Hc); [done|congruence].
  - destruct (inv_done HI) as [Hn Hr]. split; [done|]. auto.
  - rewrite (inv_outstanding HI). pose proof (msum_update computing R k ri ri' Hk) as E.
    rewrite (computing_0 ri), (computing_0 ri') in E; [lia|congruence|congruence].
  - intros t [tt Ht]. apply lookup_insert_Some in Ht as [[<- <-]|[_ Ht]]; [lia|].
    pose proof (inv_next HI t ltac:(eauto)). lia.
Qed.

(** The callbacks of a new task are over: it is ready unless it waits. *)
Lemma InvC_end_start t ti :
  InvC h (Some t) d R T IR FR SQ RD NO FT ep nt -> T !! t = Some ti -> t ∉ RD ->
  task_in InProgressWaiting R T t ->
  InvC h None d R T IR FR SQ (if (waitCount ti =? 0)%nat then RD ++ [t] else RD) NO FT ep nt.
Proof.
  intros HI Ht Hrd (ti' & ri & Ht' & Hri & Hst). assert (ti' = ti) as -> by congruence.
  destruct (Nat.eqb_spec (waitCount ti) 0) as [Hz|Hz]; constructor; try apply HI.
  - destruct (inv_ready HI) as [Hn Hr]. split.
    + by apply NoDup_snoc.
    + intros u Hu. apply elem_of_app in Hu as [Hu|Hu]; [auto|].
      apply list_elem_of_singleton in Hu as ->. exists ti, ri. done.
  - intros u tu ru Hu Hru Hw Hc. left. apply elem_of_app.
    destruct (inv_idle HI u tu ru Hu Hru Hw Hc) as [?|[= ->]]; [by left|]. right. by left.
  - intros u tu ru Hu Hru Hw Hc. left.
    destruct (inv_idle HI u tu ru Hu Hru Hw Hc) as [?|[= ->]]; [done|]. simplify_eq.
Qed.

(** [decrementTaskWaitCount] after the value was provided. *)
Lemma InvC_decrement r t ti n :
  InvC [r] None d R T IR FR SQ RD NO FT ep nt -> ireq_taskInfo r = Some t ->
  T !! t = Some ti -> waitCount ti = S n ->
  InvC [] None d R (<[t := with_waitCount n ti]> T) IR FR SQ
    (if (n =? 0)%nat then RD ++ [t] else RD) NO FT ep nt.
Proof.
  intros HI Hr Ht Hw. set (ti' := with_waitCount n ti).
  assert (Hwt : task_in InProgressWaiting R T t).
  { destruct (inv_req HI r) as [_ H2]; [left; by left|]. by destruct (H2 t Hr). }
  assert (Hrd : t ∉ RD).
  { intros Hin. destruct (inv_ready HI) as [_ H2].
    destruct (H2 t Hin) as (tj & rj & Hj & _ & _ & Hz). congruence. }
  assert (HT : forall u tu, <[t := ti']> T !! u = Some tu -> exists tu0, T !! u = Some tu0
            /\ forRuleInfo tu = forRuleInfo tu0 /\ requestedBy tu = requestedBy tu0
            /\ ti_deferredScanRequests tu = ti_deferredScanRequests tu0
            /\ discoveredDependencies tu = discoveredDependencies tu0
            /\ waitCount tu0 = ((if decide (u = t) then 1 else 0) + waitCount tu)%nat).
  { intros u tu Hu. apply lookup_insert_Some in Hu as [[<- <-]|[Hne Hu]].
    - exists ti. rewrite decide_True by done. done.
    - exists tu. rewrite decide_False by congruence. done. }
  assert (Htin : forall st u, task_in st R T u -> task_in st R (<[t := ti']> T) u)
    by (intros; by eapply task_in_task).
  constructor; try apply HI.
  - intros k ri Hk. eapply rule_ok_tasks; [by eapply inv_rule|].
    intros u tu Hu <-. destruct (decide (t = u)) as [<-|].
    + exists ti'. rewrite lookup_insert_eq. simplify_eq. done.
    + exists tu. by rewrite lookup_insert_ne.
  - intros u tu Hu. destruct (HT u tu Hu) as (tu0 & Hu0 & E1 & _ & _ & E4 & _).
    rewrite E1, E4. by apply (inv_task HI).
  - intros r' Hr'. assert (in_flight [r] R T IR FR r') as Hfl.
    { destruct Hr' as [?|[?|[?|[?|(u & tu & Hu & Hr')]]]]; unfold in_flight; eauto 7; [set_solver|].
      destruct (HT u tu Hu) as (tu0 & Hu0 & _ & E & _). rewrite E in Hr'. eauto 8. }
    destruct (inv_req HI r' Hfl) as [H1 H2]. split; [done|]. intros u Hu. destruct (H2 u Hu). auto.
  - intros u tu r' Hu Hr'. destruct (HT u tu Hu) as (tu0 & Hu0 & E1 & E2 & _).
    rewrite E1. rewrite E2 in Hr'. by eapply inv_requestedBy.
  - intros q [?|[?|(u & tu & Hu & Hq)]]; apply (inv_scan HI); unfold scan_pending; eauto.
    destruct (HT u tu Hu) as (tu0 & Hu0 & _ & _ & E & _). rewrite E in Hq. eauto 8.
  - intros k ri Hk Hs. rewrite <- (inv_scan1 HI k ri Hk Hs). unfold nscan.
    pose proof (msum_update (fun ti => count_scan k (ti_deferredScanRequests ti)) T t ti ti' Ht) as E.
    simpl in E. lia.
  - intros u tu Hu. destruct (HT u tu Hu) as (tu0 & Hu0 & _ & _ & _ & _ & E).
    rewrite (inv_wait HI u tu0 Hu0) in E. unfold nreq in *.
    pose proof (msum_update (fun ti => count_req u (requestedBy ti)) T t ti ti' Ht) as E2. simpl in E2.
    rewrite count_req_cons, count_req_nil, Hr in E. rewrite count_req_nil.
    destruct (decide (u = t)) as [->|Hne]; [rewrite decide_True in E by done|
      rewrite decide_False in E by congruence]; lia.
  - destruct (inv_ready HI) as [Hn Hrr].
    assert (Hold : forall u, u ∈ RD -> exists tu ru, <[t := ti']> T !! u = Some tu
              /\ R !! forRuleInfo tu = Some ru /\ state ru = InProgressWaiting /\ waitCount tu = 0%nat).
    { intros u Hu. destruct (Hrr u Hu) as (tu & ru & ? & ? & ? & ?). exists tu, ru.
      rewrite lookup_insert_ne by (intros ->; done). done. }
    destruct (Nat.eqb_spec n 0) as [Hz|Hz]; [|done]. split.
    + by apply NoDup_snoc.
    + intros u Hu. apply elem_of_app in Hu as [Hu|Hu]; [auto|].
      apply list_elem_of_singleton in Hu as ->. destruct Hwt as (tj & rj & Hj & Hrj & Hsj).
      simplify_eq. exists ti', rj. by rewrite lookup_insert_eq.
  - intros u tu ru Hu Hru Hs Hc. destruct (decide (u = t)) as [->|Hne].
    + rewrite lookup_insert_eq in Hu. simplify_eq. simpl in Hc. rewrite Hc. simpl.
      left. apply elem_of_app. right. by left.
    + rewrite lookup_insert_ne in Hu by done.
      destruct (inv_idle HI u tu ru Hu Hru Hs Hc) as [?|?]; [left|done].
      destruct (n =? 0)%nat; [apply elem_of_app; by left|done].
  - destruct (inv_done HI) as [Hn Hrr]. split; [done|]. auto.
  - intros u [tu Hu]. destruct (HT u tu Hu) as (tu0 & Hu0 & _). eapply inv_next; eauto.
Qed.
End Updates5.

Section Updates6.
Context {x : option TaskID} {d : nat}
  {R : Rules} {T : Tasks} {IR FR : list TaskInputRequest} {SQ : list RuleScanRequest}
  {RD : list TaskID} {NO : nat} {FT : list TaskID} {ep : Z} {nt : N}.

Lemma InvC_count_outstanding h :
  InvC h x (S d) R T IR FR SQ RD NO FT ep nt -> InvC h x d R T IR FR SQ RD (S NO) FT ep nt.
Proof. intros HI. constructor; try apply HI. pose proof (inv_outstanding HI). lia. Qed.

(** [setComputing] on the task at the front of the ready queue. *)
Lemma InvC_computing t ti ri ri' RD' :
  InvC [] None d R T IR FR SQ RD NO FT ep nt -> RD = t :: RD' -> T !! t = Some ti ->
  R !! forRuleInfo ti = Some ri -> state ri' = InProgressComputing ->
  inProgressInfo ri' = inProgressInfo ri -> rule ri' = rule ri -> wasForced ri' = wasForced ri ->
  dependencies (result ri') = dependencies (result ri) ->
  InvC [] None (S d) (<[forRuleInfo ti := ri']> R) T IR FR SQ RD' NO FT ep nt.
Proof.
  intros HI -> Ht Hk Hst' Hi' Hru Hwf Hde. set (k := forRuleInfo ti) in *.
  destruct (inv_ready HI) as [Hnd Hrd]. apply list.NoDup_cons in Hnd as [Hnin Hnd].
  destruct (Hrd t ltac:(left)) as (ti2 & ri2 & Ht2 & Hk2 & Hst & Hz).
  assert (ti2 = ti) as -> by congruence. assert (ri2 = ri) as -> by (unfold k in *; congruence).
  destruct (inv_rule HI k ri Hk) as (Hdk & Hinfo). rewrite Hst in Hinfo.
  destruct Hinfo as (t1 & ti1 & Hpi & Ht1 & Hf1).
  assert (t1 = t) as ->.
  { destruct (inv_task HI t ti Ht) as (_ & rj & Hj & Hpj). unfold k in *. congruence. }
  assert (Hp : paused_of ri' = paused_of ri /\ deferred_of ri' = deferred_of ri).
  { unfold paused_of, deferred_of. by rewrite Hi'. }
  destruct Hp as [Hp Hdf].
  assert (Huniq : forall u tu, T !! u = Some tu -> forRuleInfo tu = k -> u = t).
  { intros u tu Hu Hf. destruct (inv_task HI u tu Hu) as (_ & rj & Hj & Hpj). congruence. }
  assert (Hnot : forall r, in_flight [] R T IR FR r -> ireq_taskInfo r <> Some t).
  { intros r Hr. eapply nreq_zero_no_flight; [|done]. by rewrite <- (inv_wait HI t ti Ht). }
  assert (Htin : forall st u, u <> t -> task_in st R T u -> task_in st (<[k := ri']> R) T u).
  { intros st u Hu (tu & rj & H1 & H2 & H3). exists tu, rj. split; [done|].
    rewrite lookup_insert_ne; [done|]. intros E. apply Hu. by eapply Huniq. }
  constructor.
  - intros j rj Hj. apply lookup_insert_Some in Hj as [[<- <-]|[_ Hj]]; [|by eapply inv_rule].
    split; [by rewrite Hde|]. rewrite Hst', Hi'. eauto.
  - intros u tu Hu. destruct (inv_task HI u tu Hu) as (? & rj & Hj & Hpj). split; [done|].
    destruct (decide (k = forRuleInfo tu)) as [E|].
    + exists ri'. rewrite <- E, lookup_insert_eq. split; [done|].
      assert (rj = ri) as -> by congruence. congruence.
    + exists rj. by rewrite lookup_insert_ne.
  - intros r Hr. assert (Hr2 : in_flight [] R T IR FR r) by by eapply in_flight_rule.
    destruct (inv_req HI r Hr2) as [H1 H2]. split; [by apply is_Some_insert_rule|].
    intros u Hu. destruct (H2 u Hu) as [H3 H4]. split; [|done]. apply Htin; [|done].
    intros ->. by eapply Hnot.
  - intros r Hr. destruct (inv_finished HI r Hr) as (? & [?|[?|(rj & Hj & Hc)]]); eauto.
    split; [done|]. do 2 right. exists rj. rewrite lookup_insert_ne; [done|].
    intros E. assert (rj = ri) as -> by congruence. unfold isComplete in Hc. by rewrite Hst in Hc.
  - by eapply inv_requestedBy.
  - intros j rj r Hj Hr. apply lookup_insert_Some in Hj as [[<- <-]|[_ Hj]];
      [rewrite Hp in Hr|]; by eapply inv_paused.
  - intros q Hq. destruct (inv_scan HI q) as (rj & Hj & Hs & Hi); [by eapply scan_pending_rule|].
    destruct (decide (k = sreq_ruleInfo q)) as [E|].
    + exists ri'. rewrite <- E, lookup_insert_eq. split; [done|].
      split; [|intros i Hii; by apply is_Some_insert_rule, Hi].
      assert (rj = ri) as -> by congruence.
      destruct Hs as [[? _]|(H1 & H2 & H3)]; [congruence|]. right.
      unfold isScanned. rewrite Hst', Hwf. done.
    + exists rj. rewrite lookup_insert_ne by done. split; [done|]. split; [done|].
      intros i Hii. by apply is_Some_insert_rule, Hi.
  - intros j rj Hj Hs. apply lookup_insert_Some in Hj as [[<- <-]|[_ Hj]]; [congruence|].
    rewrite <- (inv_scan1 HI j rj Hj Hs). by apply (nscan_rule R T SQ j k ri ri').
  - intros u tu Hu. rewrite (nreq_rule [] R T IR FR u k ri ri' Hk Hp). by eapply inv_wait.
  - split; [done|]. intros u Hu. destruct (Hrd u ltac:(by right)) as (tu & ru & ? & ? & ? & ?).
    exists tu, ru. split; [done|]. rewrite lookup_insert_ne; [done|].
    intros E. assert (u = t) as -> by by eapply Huniq. done.
  - intros u tu ru Hu Hrule Hw Hc. apply lookup_insert_Some in Hrule as [[E <-]|[Hne Hrule]]; [congruence|].
    destruct (inv_idle HI u tu ru Hu Hrule Hw Hc) as [Hin|?]; [|done]. left.
    apply elem_of_cons in Hin as [->|?]; [|done]. assert (tu = ti) as -> by congruence. done.
  - destruct (inv_done HI) as [Hn Hr]. split; [done|]. intros u Hu.
    apply Htin; [|auto]. intros ->. destruct (Hr t Hu) as (tj & rj & Hj & Hrj & Hsj).
    assert (tj = ti) as -> by congruence. unfold k in *. congruence.
  - pose proof (inv_outstanding HI). pose proof (msum_update computing R k ri ri' Hk) as E.
    rewrite (computing_0 ri), (computing_1 ri') in E; [lia|done|congruence].
  - by eapply inv_next.
Qed.

(** [taskIsComplete] queues a computing task. *)
Lemma InvC_complete h t :
  InvC h x d R T IR FR SQ RD NO FT ep nt -> task_in InProgressComputing R T t -> t ∉ FT ->
  InvC h x d R T IR FR SQ RD NO (t :: FT) ep nt.
Proof.
  intros HI Ht Hf. constructor; try apply HI. destruct (inv_done HI) as [Hn Hr].
  split; [by apply list.NoDup_cons|]. intros u Hu. apply elem_of_cons in Hu as [->|Hu]; auto.
Qed.

(** The end of a finished task: its rule completes, its waiters are woken and
    it is deleted. *)
Lemma InvC_finish_task t ti ri ri' FT' NO' :
  InvC [] None d R T IR FR SQ RD NO FT ep nt -> FT = t :: FT' -> NO = S NO' ->
  T !! t = Some ti -> R !! forRuleInfo ti = Some ri ->
  state ri' = Complete -> builtAt (result ri') = ep -> inProgressInfo ri' = NullInfo ->
  rule ri' = rule ri -> wasForced ri' = wasForced ri -> deps_wf (dependencies (result ri')) ->
  InvC [] None d (<[forRuleInfo ti := ri']> R) (delete t T) IR (rev (requestedBy ti) ++ FR)
    (rev (ti_deferredScanRequests ti) ++ SQ) RD NO' FT' ep nt.
Proof.
  intros HI -> -> Ht Hk Hst' Hba Hi' Hru Hwf Hde. set (k := forRuleInfo ti) in *.
  destruct (inv_done HI) as [Hnd Hfd]. apply list.NoDup_cons in Hnd as [Hnin Hnd].
  destruct (Hfd t ltac:(left)) as (ti2 & ri2 & Ht2 & Hk2 & Hst).
  assert (ti2 = ti) as -> by congruence. assert (ri2 = ri) as -> by (unfold k in *; congruence).
  destruct (inv_rule HI k ri Hk) as (Hdk & Hinfo). rewrite Hst in Hinfo.
  destruct Hinfo as (t1 & ti1 & Hpi & Ht1 & Hf1).
  assert (t1 = t) as ->.
  { destruct (inv_task HI t ti Ht) as (_ & rj & Hj & Hpj). unfold k in *. congruence. }
  assert (Hp : paused_of ri' = paused_of ri /\ deferred_of ri' = deferred_of ri).
  { unfold paused_of, deferred_of. by rewrite Hi', Hpi. }
  destruct Hp as [Hp Hdf].
  assert (Huniq : forall u tu, T !! u = Some tu -> forRuleInfo tu = k -> u = t).
  { intros u tu Hu Hf. destruct (inv_task HI u tu Hu) as (_ & rj & Hj & Hpj). congruence. }
  assert (Htin : forall st u, u <> t -> task_in st R T u -> task_in st (<[k := ri']> R) (delete t T) u).
  { intros st u Hu (tu & rj & H1 & H2 & H3). exists tu, rj. rewrite lookup_delete_ne by done.
    split; [done|]. rewrite lookup_insert_ne; [done|]. intros E. apply Hu. by eapply Huniq. }
  assert (Hnot : forall r, in_flight [] R T IR FR r -> ireq_taskInfo r <> Some t).
  { intros r Hr E. destruct (inv_req HI r Hr) as [_ H2].
    destruct (H2 t E) as [(tj & rj & Hj & Hrj & Hsj) _]. assert (tj = ti) as -> by congruence.
    unfold k in *. congruence. }
  assert (Hrevs : forall j l, count_scan j (rev l) = count_scan j l).
  { intros j l. induction l as [|y l IH]; [done|]. simpl.
    rewrite count_scan_app, IH, !count_scan_cons, count_scan_nil. lia. }
  constructor.
  - intros j rj Hj. apply lookup_insert_Some in Hj as [[<- <-]|[Hjk Hj]].
    + split; [done|]. by rewrite Hst'.
    + eapply rule_ok_tasks; [by eapply inv_rule|]. intros u tu Hu Hf. exists tu.
      rewrite lookup_delete_ne; [done|]. intros <-. assert (tu = ti) as -> by congruence. done.
  - intros u tu Hu. apply lookup_delete_Some in Hu as [Hut Hu].
    destruct (inv_task HI u tu Hu) as (? & rj & Hj & Hpj). split; [done|]. exists rj.
    rewrite lookup_insert_ne; [done|]. intros E. apply Hut. symmetry. by eapply Huniq.
  - intros r Hr. assert (Hr2 : in_flight [] R T IR FR r).
    { eapply in_flight_rule; [done|done|].
      destruct Hr as [?|[?|[Hr|[?|(u & tu & Hu & Hr)]]]]; unfold in_flight; eauto 7.
      - apply elem_of_app in Hr as [Hr|?]; [|eauto]. rewrite elem_of_rev in Hr. eauto 8.
      - apply lookup_delete_Some in Hu as [_ Hu]. eauto 8. }
    destruct (inv_req HI r Hr2) as [H1 H2]. split; [by apply is_Some_insert_rule|].
    intros u Hu. destruct (H2 u Hu) as [H3 H4]. split; [|done]. apply Htin; [|done].
    intros ->. by eapply Hnot.
  - intros r Hr. apply elem_of_app in Hr as [Hr|Hr].
    + rewrite elem_of_rev in Hr. destruct (inv_requestedBy HI t ti r Ht Hr) as [H1 H2].
      split; [done|]. do 2 right. exists ri'. rewrite H2. unfold k. rewrite lookup_insert_eq.
      split; [done|]. unfold isComplete. rewrite Hst', Hba, bool_decide_eq_true_2, Z.eqb_refl by done. done.
    + destruct (inv_finished HI r Hr) as (? & [?|[?|(rj & Hj & Hc)]]); eauto.
      split; [done|]. do 2 right. exists rj. rewrite lookup_insert_ne; [done|].
      intros E. assert (rj = ri) as -> by congruence. unfold isComplete in Hc. by rewrite Hst in Hc.
  - intros u tu r Hu Hr. apply lookup_delete_Some in Hu as [_ Hu]. by eapply inv_requestedBy.
  - intros j rj r Hj Hr. apply lookup_insert_Some in Hj as [[<- <-]|[_ Hj]];
      [rewrite Hp in Hr|]; by eapply inv_paused.
  - intros q Hq. destruct (inv_scan HI q) as (rj & Hj & Hs & Hi).
    { eapply scan_pending_rule; [done|done|].
      destruct Hq as [Hq|[?|(u & tu & Hu & Hq)]]; unfold scan_pending; eauto.
      - apply elem_of_app in Hq as [Hq|?]; [|eauto]. rewrite elem_of_rev in Hq. eauto 8.
      - apply lookup_delete_Some in Hu as [_ Hu]. eauto 8. }
    destruct (decide (k = sreq_ruleInfo q)) as [E|].
    + exists ri'. rewrite <- E, lookup_insert_eq. split; [done|].
      split; [|intros i Hii; by apply is_Some_insert_rule, Hi].
      assert (rj = ri) as -> by congruence.
      destruct Hs as [[? _]|(H1 & H2 & H3)]; [congruence|]. right.
      unfold isScanned, isComplete. rewrite Hst', Hwf, Hba, bool_decide_eq_true_2, Z.eqb_refl by done. done.
    + exists rj. rewrite lookup_insert_ne by done. split; [done|]. split; [done|].
      intros i Hii. by apply is_Some_insert_rule, Hi.
  - intros j rj Hj Hs. apply lookup_insert_Some in Hj as [[<- <-]|[_ Hj]]; [congruence|].
    rewrite <- (inv_scan1 HI j rj Hj Hs), (nscan_rule R (delete t T) _ j k ri ri' Hk Hdf).
    unfold nscan. rewrite (msum_delete _ T t ti Ht), count_scan_app, Hrevs. lia.
  - intros u tu Hu. apply lookup_delete_Some in Hu as [_ Hu].
    rewrite (nreq_rule [] R (delete t T) IR _ u k ri ri' Hk Hp), (inv_wait HI u tu Hu). unfold nreq.
    rewrite (msum_delete _ T t ti Ht), count_req_app, count_req_rev. lia.
  - destruct (inv_ready HI) as [Hn Hr]. split; [done|]. intros u Hu.
    destruct (Hr u Hu) as (tu & ru & H1 & H2 & H3 & H4).
    assert (Hut : u <> t).
    { intros ->. assert (tu = ti) as -> by congruence. unfold k in *. congruence. }
    exists tu, ru. rewrite lookup_delete_ne by done. split; [done|].
    rewrite lookup_insert_ne; [done|]. intros E. apply Hut. by eapply Huniq.
  - intros u tu ru Hu Hrule Hw Hc. apply lookup_delete_Some in Hu as [Hut Hu].
    apply lookup_insert_Some in Hrule as [[E <-]|[Hne Hrule]]; [congruence|]. by eapply (inv_idle HI).
  - split; [done|]. intros u Hu. apply Htin; [|apply Hfd; by right]. intros ->. done.
  - pose proof (inv_outstanding HI). pose proof (msum_update computing R k ri ri' Hk) as E.
    rewrite (computing_1 ri), (computing_0 ri') in E; [lia|congruence|done].
  - intros u [tu Hu]. apply lookup_delete_Some in Hu as [_ Hu]. eapply (inv_next HI); eauto.
Qed.
End Updates6.
