(* ===== verification/EngineSafety.v ===== *)
(** * Safety of the build engine

    Every operation of the engine thread keeps the invariant and does not crash,
    for clients that respect the protocol of [TaskInterface]. *)

From Stdlib Require Import ZArith Lia.
From stdpp Require Import base gmap list strings numbers.
From S2P Require Import Prelude DepKeys Engine EngineInv.

(** ** The client's obligations *)

Definition is_request (c : TaskCall) : Prop :=
  match c with
  | CallRequest _ _ | CallRequestSingleUse _ _ | CallMustFollow _ => True
  | _ => False
  end.
Definition is_discovery (c : TaskCall) : Prop :=
  match c with CallDiscoveredDependency _ => True | _ => False end.

(** What [inputsAvailable] may do: report discovered dependencies, then possibly
    complete the task. *)
Definition finishing_calls (l : list TaskCall) : Prop :=
  exists ds, Forall is_discovery ds /\ (l = ds \/ exists v f, l = ds ++ [CallComplete v f]).

(** The documented protocol: stored results are well formed, tasks request inputs before
    [inputsAvailable] and complete at most once after.  That a rule looked up for a key has
    this key is not asked: the rules of input files of Ninja builds have another one. *)
Record client_ok {W} (c : Client (W := W)) : Prop := {
  ok_db : forall d k r w res, db c = Some d -> (db_lookupRuleResult d k r w).1.1 = Some res ->
    deps_wf (dependencies res);
  ok_start : forall t w, Forall is_request (task_start c t w).1;
  ok_prior : forall t v w, Forall is_request (task_providePriorValue c t v w).1;
  ok_provide : forall t i k v w, Forall is_request (task_provideValue c t i k v w).1;
  ok_inputs : forall t w, finishing_calls (task_inputsAvailable c t w).1 }.

Section Safety.
Context {W : Type} (client : Client (W := W)) (Hclient : client_ok client).
Abbreviation State := (State (W := W)).

(** ** Frames *)

(** Everything but the rules, the world and the cancellation flag is kept, and
    rules are only added. *)
Record ext (s s' : State) : Prop := {
  ext_rules : forall k ri, ruleInfos s !! k = Some ri -> ruleInfos s' !! k = Some ri;
  ext_tasks : taskInfos s' = taskInfos s;
  ext_inputs : inputRequests s' = inputRequests s;
  ext_finished : finishedInputRequests s' = finishedInputRequests s;
  ext_scan : ruleInfosToScan s' = ruleInfosToScan s;
  ext_ready : readyTaskInfos s' = readyTaskInfos s;
  ext_out : numOutstandingUnfinishedTasks s' = numOutstandingUnfinishedTasks s;
  ext_done : finishedTaskInfos s' = finishedTaskInfos s;
  ext_epoch : currentEpoch s' = currentEpoch s;
  ext_next : nextTask s' = nextTask s }.

Lemma ext_refl s : ext s s.
Proof. by constructor. Qed.

Lemma ext_trans s1 s2 s3 : ext s1 s2 -> ext s2 s3 -> ext s1 s3.
Proof. intros [] []. constructor; eauto; congruence. Qed.

(** ** Registering rules *)

Lemma getRuleInfoForKey_spec h g x d s k :
  Inv h g x d s ->
  exists s', getRuleInfoForKey client k s = Ok (tt, s') /\ Inv h g x d s'
    /\ is_Some (ruleInfos s' !! k) /\ ext s s'.
Proof.
  intros HI. unfold getRuleInfoForKey, bind, get.
  destruct (ruleInfos s !! k) as [ri|] eqn:Hk.
  { exists s. split; [done|]. split; [done|]. split; [eauto|apply ext_refl]. }
  unfold client_call. destruct (lookupRule client k (world s)) as [r w] eqn:Hl.
  unfold addRule, bind, get; cbn. rewrite Hk. cbn.
  set (ri0 := mkRuleInfo r NullInfo emptyResult Incomplete false).
  assert (Hnew : forall ri, rule ri = r -> state ri = Incomplete -> inProgressInfo ri = NullInfo ->
            deps_wf (dependencies (result ri)) -> forall s', ruleInfos s' = <[k := ri]> (ruleInfos s) ->
            ext (upd_ruleInfos (fun _ => ruleInfos s') s) s' ->
            Inv h g x d s' /\ is_Some (ruleInfos s' !! k) /\ ext s s').
  { intros ri Hri Hst Hi Hd s' Hrs Hex. destruct Hex as [? E1 E2 E3 E4 E5 E6 E7 E8 E9]; cbn in *.
    split; [|split; [rewrite Hrs, lookup_insert_eq; eauto|]].
    - unfold Inv. rewrite E1, E2, E3, E4, E5, E6, E7, E8, E9, Hrs.
      apply InvC_add_rule; [exact HI|done| |done].
      split; [done|]. by rewrite Hst.
    - constructor; auto. intros j rj Hj. rewrite Hrs, lookup_insert_ne; [done|]. intros ->; congruence. }
  destruct (db client) as [db|] eqn:Hdb; cbn.
  2: { eexists. split; [done|]. apply (Hnew ri0); try done. }
  unfold client_call; cbn.
  destruct (db_lookupRuleResult db k r w) as [[[res|] err] w'] eqn:Hres; cbn.
  - unfold rule_at, client_notify, set_cancelled, modify, ret; cbn. rewrite lookup_insert_eq; cbn.
    assert (Hd : deps_wf (dependencies res)).
    { eapply (ok_db _ Hclient); [done|]. by rewrite Hres. }
    case_decide; eexists; (split; [done|]); apply (Hnew (with_result res ri0)); try done;
      cbn; by rewrite insert_insert_eq.
  - unfold client_notify, set_cancelled, modify, ret; cbn.
    case_decide; eexists; (split; [done|]); by apply (Hnew ri0).
Qed.

(** ** Requests *)

(** The effect of the requests task [t] makes in a callback. *)
Record requested (t : TaskID) (s s' : State) : Prop := {
  rq_rules : forall k ri, ruleInfos s !! k = Some ri -> ruleInfos s' !! k = Some ri;
  rq_task : forall ti, taskInfos s !! t = Some ti ->
    exists ti', taskInfos s' !! t = Some ti' /\ forRuleInfo ti' = forRuleInfo ti;
  rq_others : forall u, u <> t -> taskInfos s' !! u = taskInfos s !! u;
  rq_ready : readyTaskInfos s' = readyTaskInfos s;
  rq_epoch : currentEpoch s' = currentEpoch s }.

Lemma requested_refl t s : requested t s s.
Proof. constructor; eauto. Qed.
Lemma requested_trans t s1 s2 s3 : requested t s1 s2 -> requested t s2 s3 -> requested t s1 s3.
Proof.
  intros [A1 A2 A3 A4 A5] [B1 B2 B3 B4 B5]. constructor; auto; try congruence.
  - intros ti Hti. destruct (A2 ti Hti) as (ti' & H1 & H2). destruct (B2 ti' H1) as (ti'' & ? & ?).
    exists ti''. split; [done|congruence].
  - intros u Hu. rewrite B3, A3; auto.
Qed.

Lemma task_in_requested t s s' : requested t s s' ->
  task_in InProgressWaiting (ruleInfos s) (taskInfos s) t ->
  task_in InProgressWaiting (ruleInfos s') (taskInfos s') t.
Proof.
  intros Hrq (ti & ri & Ht & Hr & Hs). destruct (rq_task _ _ _ Hrq ti Ht) as (ti' & Ht' & Hf).
  exists ti', ri. split; [done|]. rewrite Hf. split; [by apply (rq_rules _ _ _ Hrq)|done].
Qed.

Lemma addTaskInputRequest_spec h g x d s t key inputID orderOnly singleUse :
  Inv h g x d s -> task_in InProgressWaiting (ruleInfos s) (taskInfos s) t ->
  t ∉ readyTaskInfos s -> (orderOnly = true -> inputID = kMustFollowInputID) ->
  exists s', addTaskInputRequest client t key inputID orderOnly singleUse s = Ok (tt, s')
    /\ Inv h g x d s' /\ requested t s s'.
Proof.
  intros HI Hw Hrd Hoo. destruct Hw as (ti & ri & Ht & Hri & Hst).
  unfold addTaskInputRequest.
  erewrite bind_ok; [|unfold task_at; by rewrite Ht].
  erewrite bind_ok; [|unfold rule_at; by rewrite Hri].
  rewrite bind_ensure by (unfold isInProgressWaiting; by rewrite bool_decide_eq_true_2).
  destruct (getRuleInfoForKey_spec h g x d s key HI) as (s1 & E1 & HI1 & Hk1 & Hx).
  rewrite (bind_ok _ _ _ _ _ E1). unfold push_input. rewrite bind_modify.
  assert (Ht1 : taskInfos s1 !! t = Some ti) by by rewrite (ext_tasks _ _ Hx).
  erewrite bind_ok; [|unfold task_at; cbn; by rewrite Ht1].
  eexists. split; [done|]. split.
  - eapply InvC_push_request; cbn; try done.
    + exists ti, ri. split; [done|]. split; [by apply (ext_rules _ _ Hx)|done].
    + by rewrite (ext_ready _ _ Hx).
  - constructor; cbn.
    + apply (ext_rules _ _ Hx).
    + intros ti0 H0. eexists. rewrite lookup_insert_eq. split; [done|]. cbn. congruence.
    + intros u Hu. by rewrite lookup_insert_ne, (ext_tasks _ _ Hx).
    + apply (ext_ready _ _ Hx).
    + apply (ext_epoch _ _ Hx).
Qed.

Lemma request_call_spec h g x d s t c :
  Inv h g x d s -> task_in InProgressWaiting (ruleInfos s) (taskInfos s) t ->
  t ∉ readyTaskInfos s -> is_request c ->
  exists s', taskCall client t c s = Ok (tt, s') /\ Inv h g x d s' /\ requested t s s'.
Proof.
  intros HI Hw Hrd Hc.
  assert (Hres : exists s', reserved_input_id client s = Ok (tt, s') /\ Inv h g x d s' /\ requested t s s').
  { eexists. split; [done|]. split; [exact HI|]. constructor; cbn; eauto. }
  destruct c; try done; cbn; unfold taskNeedsInput, taskNeedsSingleUseInput, taskMustFollow;
    try destruct (_ <? _)%Z; auto; by apply addTaskInputRequest_spec.
Qed.

Lemma request_calls_spec h g x d t l : forall s,
  Inv h g x d s -> task_in InProgressWaiting (ruleInfos s) (taskInfos s) t ->
  t ∉ readyTaskInfos s -> Forall is_request l ->
  exists s', mapM_ (taskCall client t) l s = Ok (tt, s') /\ Inv h g x d s' /\ requested t s s'.
Proof.
  induction l as [|c l IH]; intros s HI Hw Hrd Hl; cbn.
  - exists s. split; [done|]. split; [done|apply requested_refl].
  - inversion_clear Hl as [|? ? Hc Hl'].
    destruct (request_call_spec h g x d s t c HI Hw Hrd Hc) as (s1 & E1 & HI1 & Hr1).
    rewrite (bind_ok _ _ _ _ _ E1).
    destruct (IH s1 HI1) as (s2 & E2 & HI2 & Hr2); [by eapply task_in_requested| |exact Hl'|].
    + by rewrite (rq_ready _ _ _ Hr1).
    + exists s2. split; [done|]. split; [done|]. by eapply requested_trans.
Qed.

Lemma request_callback_spec h g x d s t (f : W -> list TaskCall * W) :
  Inv h g x d s -> task_in InProgressWaiting (ruleInfos s) (taskInfos s) t ->
  t ∉ readyTaskInfos s -> (forall w, Forall is_request (f w).1) ->
  exists s', task_callback client t f s = Ok (tt, s') /\ Inv h g x d s' /\ requested t s s'.
Proof.
  intros HI Hw Hrd Hf. unfold task_callback, bind, client_call.
  specialize (Hf (world s)). destruct (f (world s)) as [calls w].
  destruct (request_calls_spec h g x d t calls (upd_world (fun _ => w) s)) as (s' & E & HI' & Hr);
    [exact HI|exact Hw|exact Hrd|exact Hf|].
  exists s'. split; [done|]. split; [done|]. destruct Hr. by constructor.
Qed.

(** ** Scanning one rule *)

(** Only the rule [k] changed; all other components of the invariant but the
    scan queue are kept. *)
Record only_rule (k : KeyID) (s s' : State) : Prop := {
  or_rules : forall j, j <> k -> ruleInfos s' !! j = ruleInfos s !! j;
  or_tasks : taskInfos s' = taskInfos s;
  or_epoch : currentEpoch s' = currentEpoch s }.

Lemma idle_of_unscanned ep T k ri :
  rule_ok T k ri -> isScanned ep ri = false -> isScanning ri = false ->
  (state ri = Incomplete \/ state ri = Complete) /\ isComplete ep ri = false
  /\ inProgressInfo ri = NullInfo.
Proof.
  intros (_ & Hi). unfold isScanned, isScanning, isComplete.
  destruct (state ri); cbn; intros H1 H2; try done; auto.
Qed.

Lemma nscan_unscanned {h x d R T IR FR SQ RD NO FT ep nt} k ri :
  InvC h x d R T IR FR SQ RD NO FT ep nt -> R !! k = Some ri -> isScanned ep ri = false ->
  isScanning ri = false -> nscan R T SQ k = 0%nat.
Proof.
  intros HI Hk H1 H2. destruct (decide (0 < nscan R T SQ k)%nat) as [Hp|]; [|lia].
  apply nscan_pos in Hp as (q & Hq & <-).
  destruct (inv_scan HI q Hq) as (rj & Hj & [[Hs _]|(_ & _ & Hs)] & _).
  - assert (rj = ri) as -> by congruence. unfold isScanning in H2. by rewrite Hs in H2.
  - intros; congruence.
Qed.

(** A rule that was not scanned may take any idle state. *)
Lemma rule_step_idle ep T k ri ri' :
  rule_ok T k ri -> isScanned ep ri = false -> isScanning ri = false ->
  rule ri' = rule ri -> inProgressInfo ri' = NullInfo -> deps_wf (dependencies (result ri')) ->
  match state ri' with
  | Incomplete | NeedsToRun | DoesNotNeedToRun | Complete => True | _ => False end ->
  rule_step ep T k ri ri'.
Proof.
  intros Hok H1 H2 Hru Hi Hd Hst.
  destruct (idle_of_unscanned ep T k ri Hok H1 H2) as (Hst0 & Hc & Hi0).
  constructor; try (unfold paused_of, deferred_of; by rewrite Hi, Hi0).
  - split; [done|]. by destruct (state ri').
  - destruct Hst0 as [-> | ->], (state ri'); by try done.
  - destruct Hst0 as [-> | ->], (state ri'); by try done.
  - intros; congruence.
  - intros E. destruct Hst0; congruence.
  - destruct (state ri'); done.
  - intros; congruence.
Qed.

Lemma deps_nonempty_size (dp : DependencyKeyIDs KeyID) :
  deps_empty dp = false -> (0 < deps_size dp)%nat.
Proof. rewrite deps_empty_size. intros H%Nat.eqb_neq. lia. Qed.

(** [start_scanning] from an unscanned rule, after its record was rewritten. *)
Lemma start_scanning_inv h g x d s k ri ri1 b s1 :
  Inv h g x d s -> ruleInfos s !! k = Some ri ->
  isScanned (currentEpoch s) ri = false -> isScanning ri = false ->
  rule ri1 = rule ri -> deps_wf (dependencies (result ri1)) ->
  deps_empty (dependencies (result ri1)) = false ->
  ruleInfos s1 = <[k := ri1]> (ruleInfos s) -> ext (upd_ruleInfos (fun _ => ruleInfos s1) s) s1 ->
  exists s' ri', start_scanning k b s1 = Ok (tt, s') /\ Inv h g x d s' /\ only_rule k s s'
    /\ ruleInfos s' !! k = Some ri' /\ state ri' = IsScanning.
Proof.
  intros HI Hk Hns Hng Hru Hd He Hrs Hx. destruct Hx as [_ E1 E2 E3 E4 E5 E6 E7 E8 E9]; cbn in *.
  unfold start_scanning. erewrite bind_ok; [|unfold rule_at; by rewrite Hrs, lookup_insert_eq].
  unfold write_rule. rewrite bind_modify.
  pose proof (idle_of_unscanned _ _ k ri (inv_rule HI k ri Hk) Hns Hng) as (Hst & Hc & Hi).
  eexists _, _. split; [done|]. split; [|split; [|split; [cbn; apply lookup_insert_eq|done]]].
  - unfold Inv; cbn. rewrite E1, E2, E3, E4, E5, E6, E7, E8, E9, Hrs, insert_insert_eq.
    eapply InvC_scan_perm; [|apply Permutation_middle].
    eapply InvC_start_scan with (ri := ri); try done; cbn.
    + by destruct Hst as [-> | ->].
    + unfold isInProgress, isInProgressWaiting, isInProgressComputing.
      by destruct Hst as [-> | ->].
    + eapply nscan_unscanned; [exact HI|done..].
    + split; [done|]. cbn. eauto.
    + by apply deps_nonempty_size.
  - constructor; cbn; [|done|done]. intros j Hj. rewrite Hrs, !lookup_insert_ne by done. done.
Qed.

(** The outcome of scanning a rule. *)
Definition scanned_post (k : KeyID) (s : State) (b : bool) (s' : State) : Prop :=
  only_rule k s s' /\ exists ri', ruleInfos s' !! k = Some ri'
    /\ (b = true -> isScanned (currentEpoch s) ri' = true)
    /\ (b = false -> state ri' = IsScanning).

Lemma determined_ok s k ri reason :
  ruleInfos s !! k = Some ri ->
  determined client k reason None s
  = Ok (tt, upd_world (determinedRuleNeedsToRun client (rule ri) reason None) s).
Proof. intros Hk. unfold determined, bind, rule_at, ret, client_notify, modify. by rewrite Hk. Qed.

(** A rule found to need to run; [ri1] is its record with the cleaned
    dependencies. *)
Lemma needs_to_run_spec h g x d s k ri ri1 s1 reason :
  Inv h g x d s -> ruleInfos s !! k = Some ri ->
  isScanned (currentEpoch s) ri = false -> isScanning ri = false ->
  rule ri1 = rule ri -> inProgressInfo ri1 = NullInfo -> deps_wf (dependencies (result ri1)) ->
  ruleInfos s1 = <[k := ri1]> (ruleInfos s) -> ext (upd_ruleInfos (fun _ => ruleInfos s1) s) s1 ->
  (exists s', (set_state k NeedsToRun ;;; determined client k reason None ;;; ret true) s1 = Ok (true, s')
     /\ Inv h g x d s' /\ scanned_post k s true s')
  /\ (exists b s', (set_state k NeedsToRun ;;; determined client k reason None ;;;
        b <~ scheduleChecksBeforeRunning client k; ret (negb b)) s1 = Ok (b, s')
     /\ Inv h g x d s' /\ scanned_post k s b s').
Proof.
  intros HI Hk Hns Hng Hru Hi1 Hd Hrs Hx. set (ri2 := with_state NeedsToRun ri1).
  set (s2 := upd_world (determinedRuleNeedsToRun client (rule ri2) reason None)
               (upd_ruleInfos (fun m => <[k := ri2]> m) s1)).
  pose proof Hx as [_ E1 E2 E3 E4 E5 E6 E7 E8 E9]; cbn in *.
  assert (Hrs2 : ruleInfos s2 = <[k := ri2]> (ruleInfos s)).
  { cbn. by rewrite Hrs, insert_insert_eq. }
  assert (HI2 : Inv h g x d s2).
  { unfold Inv. rewrite Hrs2. cbn. rewrite E1, E2, E3, E4, E5, E6, E7, E8, E9.
    eapply InvC_rule; [exact HI|done|]. eapply rule_step_idle; try done.
    by apply (inv_rule HI). }
  assert (Ho : only_rule k s s2).
  { constructor; [|done|done]. intros j Hj. by rewrite Hrs2, lookup_insert_ne. }
  assert (Hl2 : ruleInfos s2 !! k = Some ri2) by by rewrite Hrs2, lookup_insert_eq.
  assert (Hrun : forall A (f : M State A), (set_state k NeedsToRun ;;; determined client k reason None ;;; f) s1 = f s2).
  { intros A f. erewrite bind_ok; [|unfold set_state, bind, rule_at; by rewrite Hrs, lookup_insert_eq].
    assert (Hl : ruleInfos (upd_ruleInfos (fun m => <[k := ri2]> m) s1) !! k = Some ri2)
      by (cbn; apply lookup_insert_eq).
    by rewrite (bind_ok _ _ _ _ _ (determined_ok _ k ri2 reason Hl)). }
  rewrite !Hrun. split.
  - exists s2. split; [done|]. split; [done|]. split; [done|]. exists ri2. split; [done|]. by split.
  - unfold scheduleChecksBeforeRunning. rewrite bind_assoc.
    erewrite bind_ok; [|unfold rule_at; by rewrite Hl2].
    rewrite bind_assoc, bind_ensure by done.
    destruct (_ || _) eqn:Hor; cbn.
    + exists true, s2. split; [done|]. split; [done|]. split; [done|]. exists ri2. by split.
    + apply orb_false_iff in Hor as [_ He]. rewrite bind_assoc.
      destruct (start_scanning_inv h g x d s k ri ri2 true s2) as (s' & ri' & E & HI' & Ho' & Hl' & Hs');
        try done.
      exists false, s'. rewrite (bind_ok _ _ _ _ _ E). split; [done|]. split; [done|]. split; [done|].
      exists ri'. by split.
Qed.

Lemma scanRule_spec h g x d s k ri :
  Inv h g x d s -> ruleInfos s !! k = Some ri ->
  exists b s', scanRule client k s = Ok (b, s') /\ Inv h g x d s' /\ scanned_post k s b s'
    /\ (isScanning ri = true -> b = false /\ s' = s).
Proof.
  intros HI Hk. unfold scanRule. erewrite bind_ok by done.
  erewrite bind_ok; [|unfold rule_at; by rewrite Hk].
  destruct (isScanned (currentEpoch s) ri) eqn:Hns.
  { exists true, s. split; [done|]. split; [done|]. split.
    - split; [by constructor|]. exists ri. by split.
    - intros Hg. unfold isScanning in Hg. apply bool_decide_eq_true in Hg.
      unfold isScanned in Hns. by rewrite Hg in Hns. }
  destruct (isScanning ri) eqn:Hng.
  { exists false, s. split; [done|]. split; [done|]. split; [|done].
    split; [by constructor|]. exists ri. split; [done|]. split; [done|].
    intros _. by apply bool_decide_eq_true in Hng. }
  pose proof (idle_of_unscanned _ _ k ri (inv_rule HI k ri Hk) Hns Hng) as (Hst & Hc & Hi).
  destruct (cleanSingleUse_ok (dependencies (result ri))) as (dp & Edp & Hdp & _).
  { by destruct (inv_rule HI k ri Hk). }
  erewrite bind_ok; [|unfold lift; by rewrite Edp].
  unfold write_rule, client_notify. rewrite !bind_modify.
  erewrite bind_ok; [|unfold rule_at; cbn; by rewrite lookup_insert_eq]. rewrite bind_modify. cbn.
  set (ri1 := with_forced false _). set (s1 := upd_ruleInfos (fun m => <[k := ri1]> m) _).
  assert (Hrs : ruleInfos s1 = <[k := ri1]> (ruleInfos s)) by (cbn; by rewrite insert_insert_eq).
  assert (Hx : ext (upd_ruleInfos (fun _ => ruleInfos s1) s) s1) by (constructor; cbn; auto).
  clearbody s1.
  assert (Hfin : forall A B C : Prop, (A /\ B /\ C) -> A /\ B /\ C /\ (false = true -> False)) by naive_solver.
  destruct (builtAt (result ri) =? 0)%Z.
  { destruct (needs_to_run_spec h g x d s k ri ri1 s1 NeverBuilt) as [(s' & E & ?) _]; try done.
    exists true, s'. rewrite E. naive_solver. }
  destruct (negb _).
  { destruct (needs_to_run_spec h g x d s k ri ri1 s1 SignatureChanged) as [_ (b & s' & E & ?)]; try done.
    exists b, s'. rewrite E. naive_solver. }
  unfold client_call. unfold bind at 1.
  destruct (isResultValid client (rule ri) (value (result ri)) (world s1)) as [valid w]. cbn.
  set (s2 := upd_world (fun _ => w) s1).
  assert (Hrs2 : ruleInfos s2 = <[k := ri1]> (ruleInfos s)) by done.
  assert (Hx2 : ext (upd_ruleInfos (fun _ => ruleInfos s2) s) s2).
  { destruct Hx. by constructor. }
  clearbody s2. destruct valid; cbn.
  2: { destruct (needs_to_run_spec h g x d s k ri ri1 s2 InvalidValue) as [_ (b & s' & E & ?)]; try done.
       exists b, s'. rewrite E. naive_solver. }
  destruct (deps_empty dp) eqn:He.
  - erewrite bind_ok; [|unfold set_state, bind, rule_at; by rewrite Hrs2, lookup_insert_eq].
    eexists true, _. split; [done|]. pose proof Hx2 as [_ E1 E2 E3 E4 E5 E6 E7 E8 E9]; cbn in *.
    split; [|split; [split|done]].
    + unfold Inv; cbn. rewrite E1, E2, E3, E4, E5, E6, E7, E8, E9, Hrs2, insert_insert_eq.
      eapply InvC_rule; [exact HI|done|]. eapply rule_step_idle; try done. by apply (inv_rule HI).
    + constructor; cbn; [|done|done]. intros j Hj. by rewrite Hrs2, !lookup_insert_ne.
    + eexists. cbn. rewrite lookup_insert_eq. split; [done|]. by split.
  - destruct (start_scanning_inv h g x d s k ri ri1 false s2) as (s' & ri' & E & HI' & Ho' & Hl' & Hs');
      try done.
    exists false, s'. rewrite (bind_ok _ _ _ _ _ E). split; [done|]. split; [done|].
    split; [|done]. split; [done|]. exists ri'. by split.
Qed.

(** ** Demanding a rule *)

(** Rules other than [k] are kept, and rules are only added. *)
Record demanded (k : KeyID) (s s' : State) : Prop := {
  dm_rules : forall j rj, j <> k -> ruleInfos s !! j = Some rj -> ruleInfos s' !! j = Some rj;
  dm_epoch : currentEpoch s' = currentEpoch s }.

Lemma isScanned_idle ep ri :
  isScanned ep ri = true -> isComplete ep ri = false -> isInProgress ri = false ->
  state ri = DoesNotNeedToRun \/ state ri = NeedsToRun.
Proof.
  unfold isScanned, isComplete, isInProgress, isInProgressWaiting, isInProgressComputing.
  destruct (state ri); cbn; try (by intros); auto.
  by destruct (_ =? _)%Z.
Qed.

Lemma rule_step_uptodate ep T k ri ri' :
  rule_ok T k ri -> state ri = DoesNotNeedToRun -> state ri' = Complete ->
  builtAt (result ri') = ep -> dependencies (result ri') = dependencies (result ri) ->
  rule ri' = rule ri -> inProgressInfo ri' = inProgressInfo ri -> wasForced ri' = wasForced ri ->
  rule_step ep T k ri ri'.
Proof.
  intros (Hd & Hi) Hst Hst' Hb Hdp Hr Hin Hf. rewrite Hst in Hi.
  assert (Hc : isScanned ep ri' = true).
  { unfold isScanned, isComplete. rewrite Hst', Hb. cbn. apply Z.eqb_refl. }
  constructor; try (unfold paused_of, deferred_of; by rewrite Hin);
    try (intros; congruence); try (split; congruence).
  - split; [by rewrite Hdp|]. rewrite Hst'. by rewrite Hin.
  - unfold isComplete. rewrite Hst', Hb. intros _. cbn. apply Z.eqb_refl.
  - intros _ Hw _. split; [congruence|]. by rewrite Hf.
Qed.

Lemma setComplete_eq s k ri :
  ruleInfos s !! k = Some ri ->
  setComplete client k s =
    let (now, w) := clock_now client (world s) in
    let r := result ri in
    Ok (tt, upd_ruleInfos (fun m => <[k := with_state Complete
      (with_result (mkResult (value r) (signature r) (computedAt r) (currentEpoch s)
         (dependencies r) (start_time r) now) ri)]> m) (upd_world (fun _ => w) s)).
Proof.
  intros Hk. unfold setComplete. erewrite bind_ok; [|unfold rule_at; by rewrite Hk].
  erewrite bind_ok by done. unfold bind, client_call.
  by destruct (clock_now client (world s)).
Qed.

Lemma new_task_fresh h g x d (s : State) : Inv h g x d s -> taskInfos s !! nextTask s = None.
Proof.
  intros HI. destruct (taskInfos s !! nextTask s) eqn:E; [|done].
  assert (nextTask s < nextTask s)%N by (apply (inv_next HI); eauto). lia.
Qed.

(** The callbacks of a new task [t], from [start] to the ready queue. *)
Lemma start_task_spec h g d s k t ri :
  Inv h g (Some t) d s -> t ∉ readyTaskInfos s -> ruleInfos s !! k = Some ri ->
  state ri = InProgressWaiting ->
  (exists ti, taskInfos s !! t = Some ti /\ forRuleInfo ti = k) ->
  exists s', (task_callback client t (task_start client t) ;;;
    ri <~ rule_at k;
    (if negb (builtAt (result ri) =? 0)%Z
        && (rule_signature (rule ri) =? signature (result ri))%Z
     then task_callback client t (task_providePriorValue client t (value (result ri)))
     else ret tt) ;;;
    ti <~ task_at t;
    (if (waitCount ti =? 0)%nat
     then modify (upd_readyTaskInfos (fun l => l ++ [t])) else ret tt) ;;;
    ret false) s = Ok (false, s') /\ Inv h g None d s'
    /\ (forall j rj, ruleInfos s !! j = Some rj -> ruleInfos s' !! j = Some rj)
    /\ currentEpoch s' = currentEpoch s.
Proof.
  intros HI Hrd Hk Hst (ti & Ht & Hf).
  assert (Hw : task_in InProgressWaiting (ruleInfos s) (taskInfos s) t).
  { exists ti, ri. by rewrite Hf. }
  destruct (request_callback_spec h g (Some t) d s t (task_start client t)) as (s1 & E1 & HI1 & R1);
    [done..|apply (ok_start _ Hclient)|].
  rewrite (bind_ok _ _ _ _ _ E1).
  pose proof (rq_rules _ _ _ R1 _ _ Hk) as Hk1.
  erewrite bind_ok; [|unfold rule_at; by rewrite Hk1].
  pose proof (task_in_requested _ _ _ R1 Hw) as Hw1.
  assert (H2 : exists s2, (if negb (builtAt (result ri) =? 0)%Z
        && (rule_signature (rule ri) =? signature (result ri))%Z
     then task_callback client t (task_providePriorValue client t (value (result ri)))
     else ret tt) s1 = Ok (tt, s2) /\ Inv h g (Some t) d s2 /\ requested t s1 s2).
  { destruct (_ && _).
    - apply request_callback_spec; [done..|by rewrite (rq_ready _ _ _ R1)|].
      intros w. apply (ok_prior _ Hclient).
    - exists s1. split; [done|]. split; [done|]. apply requested_refl. }
  destruct H2 as (s2 & E2 & HI2 & R2). rewrite (bind_ok _ _ _ _ _ E2).
  pose proof (task_in_requested _ _ _ R2 Hw1) as Hw2.
  pose proof (requested_trans _ _ _ _ R1 R2) as R12.
  destruct Hw2 as (ti2 & ri2 & Ht2 & Hr2 & Hst2).
  erewrite bind_ok; [|unfold task_at; by rewrite Ht2].
  exists (if (waitCount ti2 =? 0)%nat then upd_readyTaskInfos (fun l => l ++ [t]) s2 else s2).
  split; [by destruct (waitCount ti2 =? 0)%nat|].
  assert (HI3 : Inv h g None d (upd_readyTaskInfos
     (fun l => if (waitCount ti2 =? 0)%nat then l ++ [t] else l) s2)).
  { eapply InvC_end_start; [exact HI2|done| |by exists ti2, ri2].
    by rewrite (rq_ready _ _ _ R12). }
  split.
  - destruct (waitCount ti2 =? 0)%nat; exact HI3.
  - split.
    + intros j rj Hj. apply (rq_rules _ _ _ R12) in Hj. by destruct (_ =? _)%nat.
    + rewrite <- (rq_epoch _ _ _ R12). by destruct (_ =? _)%nat.
Qed.

Lemma demandRule_spec h g d s k ri :
  Inv h g None d s -> ruleInfos s !! k = Some ri -> isScanned (currentEpoch s) ri = true ->
  exists b s', demandRule client k s = Ok (b, s') /\ Inv h g None d s' /\ demanded k s s'
    /\ exists ri', ruleInfos s' !! k = Some ri'
         /\ (if b then isComplete (currentEpoch s) ri' = true else isInProgress ri' = true).
Proof.
  intros HI Hk Hsc. unfold demandRule. erewrite bind_ok by done.
  erewrite bind_ok; [|unfold rule_at; by rewrite Hk]. rewrite bind_ensure by done.
  destruct (isComplete (currentEpoch s) ri) eqn:Hc.
  { exists true, s. split; [done|]. split; [done|]. split; [by constructor|eauto]. }
  destruct (isInProgress ri) eqn:Hp.
  { exists false, s. split; [done|]. split; [done|]. split; [by constructor|eauto]. }
  destruct (isScanned_idle _ _ Hsc Hc Hp) as [Hst|Hst].
  - rewrite bool_decide_eq_true_2 by done. unfold bind at 1. rewrite (setComplete_eq _ _ _ Hk).
    destruct (clock_now client (world s)) as [now w]. cbn.
    eexists true, _. split; [done|]. split; [|split].
    + unfold Inv; cbn. eapply InvC_rule; [exact HI|done|].
      eapply rule_step_uptodate; cbn; try done. by apply (inv_rule HI).
    + constructor; [|done]. intros j rj Hj Hl. cbn. by rewrite lookup_insert_ne.
    + eexists. cbn. rewrite lookup_insert_eq. split; [done|].
      unfold isComplete; cbn. apply Z.eqb_refl.
  - rewrite bool_decide_eq_false_2 by (by rewrite Hst).
    rewrite bind_ensure by (by apply bool_decide_eq_true_2). erewrite bind_ok by done.
    unfold client_notify, write_task, write_rule. rewrite !bind_modify.
    set (s1 := upd_ruleInfos _ _).
    pose proof (new_task_fresh _ _ _ _ _ HI) as Hfresh.
    edestruct (start_task_spec h g d s1 k (nextTask s)) as (s' & E & HI' & Hm & Hep).
    + unfold Inv; cbn. eapply InvC_new_task; cbn; try done.
    + cbn. intros Hin. destruct (proj2 (inv_ready HI) _ Hin) as (ti & ? & Ht & _). congruence.
    + cbn. apply lookup_insert_eq.
    + done.
    + cbn. eexists. split; [apply lookup_insert_eq|done].
    + exists false, s'. split; [exact E|]. split; [done|]. split.
      * constructor; [|done]. intros j rj Hj Hl. apply Hm. cbn. by rewrite lookup_insert_ne.
      * eexists. split; [apply Hm; cbn; apply lookup_insert_eq|done].
Qed.

(** ** Processing a scan request *)

Lemma push_scans_eq l : forall s : State,
  mapM_ push_scan l s = Ok (tt, upd_ruleInfosToScan (fun r => rev l ++ r) s).
Proof.
  induction l as [|q l IH]; intros s; [by destruct s|].
  change (mapM_ push_scan (q :: l) s) with (mapM_ push_scan l (upd_ruleInfosToScan (cons q) s)).
  rewrite IH. unfold upd_ruleInfosToScan; cbn. by rewrite <- app_assoc.
Qed.

Lemma push_inputs_eq l : forall s : State,
  mapM_ push_input l s = Ok (tt, upd_inputRequests (fun r => r ++ l) s).
Proof.
  induction l as [|q l IH]; intros s.
  - cbn. unfold ret, upd_inputRequests. rewrite app_nil_r. by destruct s.
  - change (mapM_ push_input (q :: l) s)
      with (mapM_ push_input l (upd_inputRequests (fun r => r ++ [q]) s)).
    rewrite IH. unfold upd_inputRequests; cbn. by rewrite <- app_assoc.
Qed.

Lemma pending_record_eq (s : State) k ri rec :
  ruleInfos s !! k = Some ri -> state ri = IsScanning ->
  inProgressInfo ri = PendingScanRecord rec -> getPendingScanRecord k s = Ok (rec, s).
Proof.
  intros Hk Hst Hi. unfold getPendingScanRecord.
  erewrite bind_ok; [|unfold rule_at; by rewrite Hk].
  rewrite bind_ensure by (by apply bool_decide_eq_true_2). by rewrite Hi.
Qed.

Lemma pending_task_eq (s : State) k ri t :
  ruleInfos s !! k = Some ri -> isInProgress ri = true ->
  inProgressInfo ri = PendingTaskInfo t -> getPendingTaskInfo k s = Ok (t, s).
Proof.
  intros Hk Hst Hi. unfold getPendingTaskInfo.
  erewrite bind_ok; [|unfold rule_at; by rewrite Hk].
  rewrite bind_ensure by done. by rewrite Hi.
Qed.

(** A rule in progress has its task. *)
Lemma in_progress_task {h x d R T IR FR SQ RD NO FT ep nt} k ri :
  InvC h x d R T IR FR SQ RD NO FT ep nt -> R !! k = Some ri -> isInProgress ri = true ->
  exists t ti, inProgressInfo ri = PendingTaskInfo t /\ T !! t = Some ti /\ forRuleInfo ti = k.
Proof.
  intros HI Hk Hp. destruct (inv_rule HI k ri Hk) as (_ & Hs).
  unfold isInProgress, isInProgressWaiting, isInProgressComputing in Hp.
  by destruct (state ri).
Qed.

Lemma scanning_record {h x d R T IR FR SQ RD NO FT ep nt} k ri :
  InvC h x d R T IR FR SQ RD NO FT ep nt -> R !! k = Some ri -> state ri = IsScanning ->
  exists rec, inProgressInfo ri = PendingScanRecord rec.
Proof. intros HI Hk Hs. destruct (inv_rule HI k ri Hk) as (_ & Hi). by rewrite Hs in Hi. Qed.

Lemma finishScanRequest_spec q x d (s : State) k ri st :
  Inv [] [q] x d s -> sreq_ruleInfo q = k -> ruleInfos s !! k = Some ri -> state ri = IsScanning ->
  st = NeedsToRun \/ st = DoesNotNeedToRun ->
  exists s' ri', finishScanRequest k st s = Ok (tt, s') /\ Inv [] [] x d s'
    /\ ruleInfos s' = <[k := ri']> (ruleInfos s) /\ ri' = with_state st (with_info NullInfo ri).
Proof.
  intros HI Hq Hk Hs Hst. destruct (scanning_record k ri HI Hk Hs) as (rec & Hrec).
  unfold finishScanRequest. erewrite bind_ok; [|unfold rule_at; by rewrite Hk].
  rewrite bind_ensure by (by apply bool_decide_eq_true_2).
  rewrite (bind_ok _ _ _ _ _ (pending_record_eq s k ri rec Hk Hs Hrec)).
  rewrite (bind_ok _ _ _ _ _ (push_scans_eq _ _)), (bind_ok _ _ _ _ _ (push_inputs_eq _ _)).
  erewrite bind_ok; [|unfold rule_at; cbn; by rewrite Hk].
  eexists _, _. split; [done|]. split; [|split; done].
  unfold Inv; cbn. eapply InvC_finish_scan; done.
Qed.

Lemma defer_on_scan_spec q x d (s : State) input ri :
  Inv [] [q] x d s -> ruleInfos s !! input = Some ri -> state ri = IsScanning ->
  exists s', defer_on_scan input q s = Ok (tt, s') /\ Inv [] [] x d s'.
Proof.
  intros HI Hk Hs. destruct (scanning_record input ri HI Hk Hs) as (rec & Hrec).
  unfold defer_on_scan.
  rewrite (bind_ok _ _ _ _ _ (pending_record_eq s input ri rec Hk Hs Hrec)).
  erewrite bind_ok; [|unfold rule_at; by rewrite Hk].
  eexists. split; [done|]. unfold Inv; cbn. eapply InvC_defer_scan; done.
Qed.

Lemma defer_on_task_spec q x d (s : State) input ri :
  Inv [] [q] x d s -> ruleInfos s !! input = Some ri -> isInProgress ri = true ->
  exists s', defer_on_task input q s = Ok (tt, s') /\ Inv [] [] x d s'.
Proof.
  intros HI Hk Hp. destruct (in_progress_task input ri HI Hk Hp) as (t & ti & Hi & Ht & Hf).
  unfold defer_on_task. rewrite (bind_ok _ _ _ _ _ (pending_task_eq s input ri t Hk Hp Hi)).
  erewrite bind_ok; [|unfold task_at; by rewrite Ht].
  eexists. split; [done|]. unfold Inv; cbn.
  eapply InvC_task; [exact HI|exact Ht|..]; try done.
  - by destruct (inv_task HI t ti Ht).
  - auto.
  - auto.
  - intros k. cbn [ti_deferredScanRequests with_tiDeferred app]. rewrite count_scan_app, !count_scan_cons, count_scan_nil. lia.
  - intros q' Hq'. by right.
  - intros q' [Hq'|Hq']%elem_of_app; [by left|]. apply list_elem_of_singleton in Hq' as ->.
    right. left.
Qed.

(** The request in hand moves to another index of the same rule. *)
Lemma Inv_replace_scan q q' x d (s : State) ri :
  Inv [] [q] x d s -> sreq_ruleInfo q' = sreq_ruleInfo q ->
  ruleInfos s !! sreq_ruleInfo q = Some ri -> state ri = IsScanning ->
  (sreq_inputIndex q' < deps_size (dependencies (result ri)))%nat ->
  (forall i, sreq_inputRuleInfo q' = Some i -> is_Some (ruleInfos s !! i)) ->
  Inv [] [q'] x d s.
Proof.
  intros HI Hq Hk Hst Hidx Hin. destruct HI as [F1 F2 F3 F4 F5 F6 F7 F8 F9 F10 F11 F12 F13 F14]. constructor; try done; cbn [app] in *.
  - intros r Hr. destruct Hr as [[->|Hr]%elem_of_cons|Hr].
    + exists ri. rewrite Hq. split; [done|]. split; [by left|done].
    + apply F7. left. by right.
    + apply F7. by right.
  - intros k rj Hj Hsj. rewrite <- (F8 k rj Hj Hsj). unfold nscan.
    by rewrite !count_scan_cons, Hq.
Qed.

(** What is known when the request in hand is about to visit an input. *)
Record scanning (q : RuleScanRequest) (d : nat) (s : State) (n : nat) (ri : RuleInfo) : Prop := {
  sc_inv : Inv [] [q] None d s;
  sc_rule : ruleInfos s !! sreq_ruleInfo q = Some ri;
  sc_state : state ri = IsScanning;
  sc_size : deps_size (dependencies (result ri)) = n }.

Definition scan_safe (m : M State unit) (d : nat) (s : State) : Prop :=
  exists s', m s = Ok (tt, s') /\ Inv [] [] None d s'.

(** Both ways a scan ends. *)
Lemma finish_safe q d s n ri st :
  scanning q d s n ri -> st = NeedsToRun \/ st = DoesNotNeedToRun ->
  scan_safe (finishScanRequest (sreq_ruleInfo q) st) d s.
Proof.
  intros [] Hst. destruct (finishScanRequest_spec q None d s (sreq_ruleInfo q) ri st)
    as (s' & ri' & E & HI & _); try done. by exists s'.
Qed.

Lemma determined_some_ok (s : State) k ri k' ri' reason :
  ruleInfos s !! k = Some ri -> ruleInfos s !! k' = Some ri' ->
  determined client k reason (Some k') s
  = Ok (tt, upd_world (determinedRuleNeedsToRun client (rule ri) reason (Some (rule ri'))) s).
Proof.
  intros Hk Hk'. unfold determined, bind, rule_at, ret, client_notify, modify. by rewrite Hk, Hk'.
Qed.

(** The continuation [next] of the scan loop, given that one more iteration is
    safe. *)
Lemma scan_next_safe fuel q q' d s n ri :
  scanning q d s n ri -> sreq_ruleInfo q' = sreq_ruleInfo q -> (sreq_inputIndex q' <= n)%nat ->
  sreq_inputRuleInfo q' = None ->
  ((sreq_inputIndex q' < n)%nat -> scanning q' d s n ri -> scan_safe (scan_loop client fuel q') d s) ->
  scan_safe (ri <~ rule_at (sreq_ruleInfo q);
    if (sreq_inputIndex q' =? deps_size (dependencies (result ri)))%nat
    then if sreq_needsToRun q' then finishScanRequest (sreq_ruleInfo q) NeedsToRun
         else finishScanRequest (sreq_ruleInfo q) DoesNotNeedToRun
    else scan_loop client fuel q') d s.
Proof.
  intros Hsc Hq Hle Hnone Hloop. pose proof Hsc as [HI Hk Hst Hsz].
  unfold scan_safe. erewrite bind_ok; [|unfold rule_at; by rewrite Hk]. rewrite Hsz.
  destruct (Nat.eqb_spec (sreq_inputIndex q') n) as [Heq|Hne].
  - destruct (sreq_needsToRun q'); (eapply finish_safe; [done|auto]).
  - apply Hloop; [lia|]. constructor; [|by rewrite Hq|done|done].
    eapply Inv_replace_scan; [done..|lia|]. intros i. by rewrite Hnone.
Qed.

Lemma scanning_frame q d s s' n ri :
  scanning q d s n ri -> Inv [] [q] None d s' ->
  ruleInfos s' !! sreq_ruleInfo q = Some ri -> scanning q d s' n ri.
Proof. intros [] HI Hk. by constructor. Qed.

(** Visiting input [input] of the rule being scanned. *)
Lemma scan_visit_safe fuel q input d s n ri :
  scanning q d s n ri -> (sreq_inputIndex q < n)%nat -> is_Some (ruleInfos s !! input) ->
  (forall q' s', (sreq_inputIndex q' = S (sreq_inputIndex q)) -> (sreq_inputIndex q' < n)%nat ->
     sreq_inputRuleInfo q' = None -> scanning q' d s' n ri ->
     scan_safe (scan_loop client fuel q') d s') ->
  let k := sreq_ruleInfo q in
  let next req' :=
      ri <~ rule_at k;
      if (sreq_inputIndex req' =? deps_size (dependencies (result ri)))%nat
      then if sreq_needsToRun req' then finishScanRequest k NeedsToRun
           else finishScanRequest k DoesNotNeedToRun
      else scan_loop client fuel req' in
  scan_safe (isScanned <~ scanRule client input;
      if negb isScanned then defer_on_scan input q
      else
        isAvailable <~ demandRule client input;
        if negb isAvailable then defer_on_task input q
        else
          ri <~ rule_at k;
          inp <~ rule_at input;
          let advance b := next (mkScanRequest k (S (sreq_inputIndex q)) None false false b) in
          if sreq_orderOnly q || sreq_needsToRun q then advance (sreq_needsToRun q)
          else if (builtAt (result ri) <? computedAt (result inp))%Z
          then if negb (checksDependenciesBeforeRunning client (rule ri))
               then finishScanRequest k NeedsToRun ;;; determined client k InputRebuilt (Some input)
               else determined client k InputRebuilt (Some input) ;;; advance true
          else advance (sreq_needsToRun q)) d s.
Proof.
  intros Hsc Hidx (ri0 & Hin) Hloop k next. pose proof Hsc as [HI Hk Hst Hsz]. fold k in Hk.
  destruct (scanRule_spec [] [q] None d s input ri0 HI Hin) as (b & s1 & E1 & HI1 & Hp1 & Hself).
  unfold scan_safe. rewrite (bind_ok _ _ _ _ _ E1).
  destruct Hp1 as (Ho1 & ri1 & Hl1 & Htrue & Hfalse). destruct b; cbn [negb].
  2: { destruct (defer_on_scan_spec q None d s1 input ri1) as (s' & E & HI'); eauto. }
  assert (Hne : input <> k).
  { intros ->. assert (ri0 = ri) as -> by congruence.
    destruct Hself as [? _]; [by apply bool_decide_eq_true_2|done]. }
  assert (Hk1 : ruleInfos s1 !! k = Some ri) by (rewrite (or_rules _ _ _ Ho1); [done|congruence]).
  destruct (demandRule_spec [] [q] d s1 input ri1 HI1 Hl1) as (b & s2 & E2 & HI2 & Hd & ri2 & Hl2 & Hb).
  { rewrite (or_epoch _ _ _ Ho1). by apply Htrue. }
  rewrite (bind_ok _ _ _ _ _ E2). destruct b; cbn [negb].
  2: { destruct (defer_on_task_spec q None d s2 input ri2) as (s' & E & HI'); eauto. }
  assert (Hk2 : ruleInfos s2 !! k = Some ri) by (apply (dm_rules _ _ _ Hd); [congruence|done]).
  pose proof (scanning_frame q d s s2 n ri Hsc HI2 Hk2) as Hsc2.
  assert (Hadv : forall s3 b, scanning q d s3 n ri ->
    scan_safe (next (mkScanRequest k (S (sreq_inputIndex q)) None false false b)) d s3).
  { intros s3 b Hsc3. eapply scan_next_safe; try done; cbn. intros Hlt Hq'. by apply Hloop. }
  erewrite bind_ok; [|unfold rule_at; by rewrite Hk2].
  erewrite bind_ok; [|unfold rule_at; by rewrite Hl2].
  destruct (_ || _); [by apply Hadv|]. destruct (_ <? _)%Z; [|by apply Hadv].
  destruct (negb _).
  - destruct (finishScanRequest_spec q None d s2 k ri NeedsToRun) as (s3 & ri3 & E3 & HI3 & Hr3 & _);
      [done..|by left|].
    rewrite (bind_ok _ _ _ _ _ E3).
    erewrite determined_some_ok; [|rewrite Hr3; apply lookup_insert_eq|by rewrite Hr3, lookup_insert_ne].
    eexists. split; [done|]. exact HI3.
  - rewrite (bind_ok _ _ _ _ _ (determined_some_ok _ _ _ _ _ _ Hk2 Hl2)). apply Hadv.
    by eapply scanning_frame.
Qed.

Lemma scan_loop_safe fuel : forall q d s n ri,
  scanning q d s n ri -> (sreq_inputIndex q < n)%nat -> (n < fuel + sreq_inputIndex q)%nat ->
  (forall i, sreq_inputRuleInfo q = Some i -> is_Some (ruleInfos s !! i)) ->
  scan_safe (scan_loop client fuel q) d s.
Proof.
  induction fuel as [|fuel IH]; intros q d s n ri Hsc Hidx Hfuel Hin; [lia|].
  assert (Hloop : forall q' s', (sreq_inputIndex q' = S (sreq_inputIndex q)) ->
     (sreq_inputIndex q' < n)%nat -> sreq_inputRuleInfo q' = None -> scanning q' d s' n ri ->
     scan_safe (scan_loop client fuel q') d s').
  { intros q' s' Hi Hlt Hnone Hsc'. eapply IH; [done..|lia|]. intros i. by rewrite Hnone. }
  cbn [scan_loop]. pose proof Hsc as [HI Hk Hst Hsz].
  destruct (sreq_inputRuleInfo q) as [input|] eqn:Hinput.
  { eapply (scan_visit_safe fuel q input); [done..|by apply Hin|exact Hloop]. }
  unfold scan_safe. erewrite bind_ok; [|unfold rule_at; by rewrite Hk].
  destruct (deps_get_lt (dependencies (result ri)) (sreq_inputIndex q)) as (dp & Edp);
    [lia|by destruct (inv_rule HI _ _ Hk)|].
  erewrite bind_ok; [|unfold lift; by rewrite Edp].
  assert (Hskip : exists b s1, (if sreq_needsToRun q
     then b <~ client_call (mustCheckDependencyBeforeRunning client (rule ri) (dep_key dp));
          ret (negb b) else ret false) s = Ok (b, s1) /\ scanning q d s1 n ri).
  { destruct (sreq_needsToRun q); [|by exists false, s]. unfold bind, client_call.
    destruct (mustCheckDependencyBeforeRunning _ _ _ _) as [b w]. eexists _, _. split; [done|].
    by eapply scanning_frame. }
  destruct Hskip as (b & s1 & E1 & Hsc1). rewrite (bind_ok _ _ _ _ _ E1). destruct b.
  - eapply scan_next_safe; try done; cbn. intros Hlt Hq'. by apply Hloop.
  - destruct (getRuleInfoForKey_spec [] [q] None d s1 (dep_key dp) (sc_inv _ _ _ _ _ Hsc1))
      as (s2 & E2 & HI2 & Hin2 & Hx). rewrite (bind_ok _ _ _ _ _ E2).
    pose proof (ext_rules _ _ Hx _ _ (sc_rule _ _ _ _ _ Hsc1)) as Hk2.
    eapply (scan_visit_safe fuel (mkScanRequest _ _ _ _ _ _)); [|done|done|exact Hloop].
    constructor; [|done..]. eapply Inv_replace_scan; try done; cbn; [lia|]. by intros i [= <-].
Qed.

Lemma processRuleScanRequest_safe q d s :
  Inv [] [q] None d s -> scan_safe (processRuleScanRequest client q) d s.
Proof.
  intros HI. destruct (inv_scan HI q) as (ri & Hk & Hcase & Hin); [left; left|].
  unfold scan_safe, processRuleScanRequest. erewrite bind_ok; [|unfold rule_at; by rewrite Hk].
  destruct Hcase as [[Hst Hidx]|(Hst & Hf & _)].
  - assert (isScanning ri = true) as -> by by apply bool_decide_eq_true_2.
    rewrite bind_ensure by done. cbn [negb].
    eapply scan_loop_safe; [constructor; done|done|lia|done].
  - assert (isScanning ri = false) as -> by by apply bool_decide_eq_false_2.
    rewrite Hf, bind_ensure by done. exists s. split; [done|].
    eapply InvC_drop_scan; [exact HI|done..].
Qed.

(** ** Processing an input request *)

(** Recording a dependency of a rule that is waiting for its inputs. *)
Lemma rule_step_dep ep T k ri dp :
  rule_ok T k ri -> state ri = InProgressWaiting -> deps_wf dp ->
  rule_step ep T k ri (with_result (with_dependencies dp (result ri)) ri).
Proof.
  intros (Hd & Hi) Hst Hdp. constructor; try done; cbn; try (intros; congruence).
Qed.

Lemma isComplete_not_waiting ep ri : isComplete ep ri = true -> state ri <> InProgressWaiting.
Proof. unfold isComplete. intros [H _]%andb_true_iff. apply bool_decide_eq_true in H. congruence. Qed.

Lemma isComplete_state ep ri : isComplete ep ri = true -> state ri = Complete.
Proof. unfold isComplete. intros [H _]%andb_true_iff. by apply bool_decide_eq_true in H. Qed.

Lemma processInputRequest_safe req d s :
  Inv [req] [] None d s ->
  exists s', processInputRequest client req s = Ok (tt, s') /\ Inv [] [] None d s'.
Proof.
  intros HI. destruct (inv_req HI req) as ((ri & Hin) & _); [left; left|].
  unfold processInputRequest. set (input := ireq_inputRuleInfo req) in *.
  destruct (scanRule_spec [req] [] None d s input ri HI Hin) as (b & s1 & E1 & HI1 & Hp1 & _).
  rewrite (bind_ok _ _ _ _ _ E1).
  destruct Hp1 as (Ho1 & ri1 & Hl1 & Htrue & Hfalse). destruct b; cbn [negb].
  2: { destruct (scanning_record input ri1 HI1 Hl1) as (rec & Hrec); [auto|].
       rewrite (bind_ok _ _ _ _ _ (pending_record_eq s1 input ri1 rec Hl1 (Hfalse eq_refl) Hrec)).
       erewrite bind_ok; [|unfold rule_at; by rewrite Hl1].
       eexists. split; [done|]. unfold Inv; cbn.
       eapply InvC_pause; [done|by apply Hfalse|done|exact HI1|done]. }
  destruct (demandRule_spec [req] [] d s1 input ri1 HI1 Hl1) as (b & s2 & E2 & HI2 & Hd & ri2 & Hl2 & Hb).
  { rewrite (or_epoch _ _ _ Ho1). by apply Htrue. }
  rewrite (bind_ok _ _ _ _ _ E2). 
  destruct (ireq_taskInfo req) as [t|] eqn:Hreq.
  2: { exists s2. split; [done|]. eapply InvC_drop_dummy; [exact HI2|done]. }
  destruct (inv_req HI2 req) as (_ & Hw); [left; left|].
  destruct (Hw t Hreq) as ((ti & rt & Ht & Hrt & Hst) & _).
  erewrite bind_ok; [|unfold task_at; by rewrite Ht].
  erewrite bind_ok; [|unfold rule_at; by rewrite Hrt].
  unfold write_rule. rewrite bind_modify. set (s3 := upd_ruleInfos _ s2).
  pose proof (inv_rule HI2 _ _ Hrt) as Hok.
  assert (Hrs : rule_step (currentEpoch s2) (taskInfos s2) (forRuleInfo ti) rt
     (with_result (with_dependencies (deps_push_back (dependencies (result rt)) input
        (ireq_orderOnly req) (ireq_singleUse req)) (result rt)) rt)).
  { apply rule_step_dep; [done..|]. apply view_push_back. by destruct Hok. }
  assert (HI3 : Inv [req] [] None d s3).
  { unfold Inv; cbn. eapply InvC_rule; [exact HI2|exact Hrt|done]. }
  destruct b.
  - eexists. split; [done|]. unfold Inv; cbn. eapply InvC_finish_request; [exact HI3|by rewrite Hreq|].
    right. right. fold input. exists ri2.
    rewrite lookup_insert_ne by (intros E; rewrite E in Hrt; simplify_eq;
      by apply isComplete_not_waiting in Hb).
    split; [done|].
    by rewrite <- (dm_epoch _ _ _ Hd) in Hb.
  - assert (Hl3 : exists ri3, ruleInfos s3 !! input = Some ri3 /\ isInProgress ri3 = true).
    { cbn. destruct (decide (forRuleInfo ti = input)) as [Heq|].
      - rewrite Heq, lookup_insert_eq. eexists. split; [done|].
        assert (rt = ri2) as -> by congruence. exact Hb.
      - rewrite lookup_insert_ne by done. eauto. }
    destruct Hl3 as (ri3 & Hl3 & Hp3).
    destruct (in_progress_task input ri3 HI3 Hl3 Hp3) as (t' & ti' & Hi' & Ht' & Hf').
    rewrite (bind_ok _ _ _ _ _ (pending_task_eq s3 input ri3 t' Hl3 Hp3 Hi')).
    erewrite bind_ok; [|unfold task_at; by rewrite Ht'].
    eexists. split; [done|]. unfold Inv; cbn.
    eapply InvC_task; [exact HI3|exact Ht'|..]; try done.
    + by destruct (inv_task HI3 t' ti' Ht').
    + intros u. cbn [requestedBy with_requestedBy]. rewrite count_req_app, count_req_nil. lia.
    + intros r Hr. by apply elem_of_nil in Hr.
    + intros r [Hr|Hr]%elem_of_app; [by left|]. apply list_elem_of_singleton in Hr as ->.
      right. split; [left|]. by rewrite Hreq, Hf'.
    + by left.
Qed.

(** ** Delivering a finished input *)

Lemma decrement_safe r t d (s : State) :
  Inv [r] [] None d s -> ireq_taskInfo r = Some t ->
  exists s', decrementTaskWaitCount t s = Ok (tt, s') /\ Inv [] [] None d s'.
Proof.
  intros HI Hr. destruct (inv_req HI r) as (_ & Hw); [left; left|].
  destruct (Hw t Hr) as ((ti & rt & Ht & Hrt & Hst) & _).
  unfold decrementTaskWaitCount. erewrite bind_ok; [|unfold task_at; by rewrite Ht].
  assert (Hpos : waitCount ti <> 0%nat).
  { rewrite (inv_wait HI t ti Ht). assert (0 < nreq [r] (ruleInfos s) (taskInfos s)
      (inputRequests s) (finishedInputRequests s) t)%nat; [|lia].
    apply nreq_pos. exists r. split; [left; left|done]. }
  destruct (waitCount ti) as [|n] eqn:Hn; [done|]. unfold write_task. rewrite bind_modify.
  pose proof (InvC_decrement r t ti n HI Hr Ht Hn) as HI'.
  destruct (n =? 0)%nat eqn:E0; (eexists; split; [done|]); exact HI'.
Qed.

Lemma processFinishedInput_safe req d s rest :
  Inv [] [] None d s -> finishedInputRequests s = req :: rest ->
  exists s', processFinishedInput client req (upd_finishedInputRequests (fun _ => rest) s) = Ok (tt, s')
    /\ Inv [] [] None d s'.
Proof.
  intros HI Hfr. set (s0 := upd_finishedInputRequests (fun _ => rest) s).
  assert (HI0 : Inv [req] [] None d s0) by (unfold Inv; cbn; by eapply InvC_pop_finished).
  destruct (inv_finished HI req) as ((t & Ht) & Hfin); [rewrite Hfr; left|].
  destruct (inv_req HI0 req) as ((ri & Hin) & Hw); [left; left|].
  destruct (Hw t Ht) as (Hwait & Hoo).
  unfold processFinishedInput. erewrite bind_ok by done.
  erewrite bind_ok; [|unfold rule_at; by rewrite Hin].
  rewrite bind_ensure.
  2: { destruct Hfin as [-> | [-> | (ri' & Hri' & Hc)]]; rewrite ?orb_true_r; [done..|].
       assert (ri' = ri) as -> by (cbn in Hin; congruence). cbn. by rewrite Hc. }
  rewrite Ht. erewrite bind_ok by done.
  pose proof Hwait as (ti & rt & Hti & Hrt & Hst).
  erewrite bind_ok; [|unfold task_at; by rewrite Hti].
  destruct (ireq_orderOnly req).
  - rewrite bind_ensure by (rewrite Hoo; done). by eapply decrement_safe.
  - destruct (request_callback_spec [req] [] None d s0 t (task_provideValue client t
      (ireq_inputID req) (rule_key (rule ri)) (value (result ri)))) as (s1 & E1 & HI1 & _);
      [done..| |intros w; apply (ok_provide _ Hclient)|].
    + intros Hrd. destruct (proj2 (inv_ready HI0) t Hrd) as (ti' & ? & Hti' & _ & _ & H0).
      assert (ti' = ti) as -> by congruence. rewrite (inv_wait HI0 t ti Hti) in H0.
      eapply nreq_zero_no_flight; [exact H0|left; left|done].
    + rewrite (bind_ok _ _ _ _ _ E1). by eapply decrement_safe.
Qed.

(** ** Running a ready task, and what its job may do *)

Lemma taskDiscovered_spec h g x d (s : State) t key :
  Inv h g x d s -> task_in InProgressComputing (ruleInfos s) (taskInfos s) t ->
  exists s', taskDiscoveredDependency client t key s = Ok (tt, s') /\ Inv h g x d s'
    /\ task_in InProgressComputing (ruleInfos s') (taskInfos s') t
    /\ finishedTaskInfos s' = finishedTaskInfos s.
Proof.
  intros HI (ti & ri & Ht & Hr & Hst). unfold taskDiscoveredDependency.
  erewrite bind_ok; [|unfold task_at; by rewrite Ht].
  erewrite bind_ok; [|unfold rule_at; by rewrite Hr].
  assert (isInProgressComputing ri = true) as -> by by apply bool_decide_eq_true_2.
  eexists. split; [done|]. split; [|split; [|done]].
  - unfold Inv; cbn. eapply InvC_task; [exact HI|exact Ht|..]; try done; try by (intros; auto).
    apply view_push_back. by destruct (inv_task HI t ti Ht).
  - cbn. eexists _, ri. split; [apply lookup_insert_eq|]. by split.
Qed.

(** Rewriting the value of a computing rule. *)
Lemma rule_step_value ep T k ri r :
  rule_ok T k ri -> state ri = InProgressComputing -> dependencies r = dependencies (result ri) ->
  rule_step ep T k ri (with_result r ri).
Proof.
  intros (Hd & Hi) Hst Hdp. constructor; try done; cbn; try (intros; congruence).
  - split; [cbn; by rewrite Hdp|]. done.
  - unfold isComplete. by rewrite Hst.
  - intros _ Hf _. split; [congruence|]. split; [done|]. unfold isScanned; cbn. by rewrite Hst.
Qed.

Lemma taskIsComplete_spec h g x d (s : State) t v f :
  Inv h g x d s -> task_in InProgressComputing (ruleInfos s) (taskInfos s) t ->
  t ∉ finishedTaskInfos s ->
  exists s', taskIsComplete client t v f s = Ok (tt, s') /\ Inv h g x d s'.
Proof.
  intros HI Hc Hft. pose proof Hc as (ti & ri & Ht & Hr & Hst). unfold taskIsComplete.
  erewrite bind_ok; [|unfold task_at; by rewrite Ht].
  erewrite bind_ok; [|unfold rule_at; by rewrite Hr].
  assert (Hco : isInProgressComputing ri = true) by by apply bool_decide_eq_true_2.
  rewrite Hco; cbn [negb].
  assert (Hp : isInProgress ri = true) by (unfold isInProgress; by rewrite Hco, orb_true_r).
  destruct (inv_task HI t ti Ht) as (_ & ri0 & Hr0 & Hi). assert (ri0 = ri) as -> by congruence.
  rewrite (bind_ok _ _ _ _ _ (pending_task_eq s _ ri t Hr Hp Hi)).
  rewrite bind_ensure by (by apply bool_decide_eq_true_2). erewrite bind_ok by done.
  eexists. split; [done|]. unfold Inv; cbn.
  apply InvC_complete; [|eapply task_in_rule; [exact Hr|done|exact Hc]|done].
  eapply InvC_rule; [exact HI|exact Hr|]. apply rule_step_value; [by apply (inv_rule HI)|done|].
  by destruct (_ && _).
Qed.

Lemma discoveries_spec h g x d t l : forall s : State,
  Inv h g x d s -> task_in InProgressComputing (ruleInfos s) (taskInfos s) t -> Forall is_discovery l ->
  exists s', mapM_ (taskCall client t) l s = Ok (tt, s') /\ Inv h g x d s'
    /\ task_in InProgressComputing (ruleInfos s') (taskInfos s') t
    /\ finishedTaskInfos s' = finishedTaskInfos s.
Proof.
  induction l as [|c l IH]; intros s HI Hc Hl; cbn [mapM_]; [by exists s|].
  inversion_clear Hl as [|? ? Hd Hl']. destruct c; try done.
  destruct (taskDiscovered_spec h g x d s t key HI Hc) as (s1 & E1 & HI1 & Hc1 & Hf1).
  erewrite bind_ok; [|exact E1].
  destruct (IH s1 HI1 Hc1 Hl') as (s2 & E2 & HI2 & Hc2 & Hf2). exists s2.
  split; [done|]. split; [done|]. split; [done|congruence].
Qed.

Lemma finishing_calls_spec h g x d t l (s : State) :
  Inv h g x d s -> task_in InProgressComputing (ruleInfos s) (taskInfos s) t ->
  t ∉ finishedTaskInfos s -> finishing_calls l ->
  exists s', mapM_ (taskCall client t) l s = Ok (tt, s') /\ Inv h g x d s'.
Proof.
  intros HI Hc Hft (ds & Hds & Hl).
  destruct (discoveries_spec h g x d t ds s HI Hc Hds) as (s1 & E1 & HI1 & Hc1 & Hf1).
  destruct Hl as [-> | (v & f & ->)]; [eauto|].
  destruct (taskIsComplete_spec h g x d s1 t v f) as (s2 & E2 & HI2); [done..|congruence|].
  exists s2. split; [|done]. rewrite mapM__app, (bind_ok _ _ _ _ _ E1). cbn [mapM_].
  by erewrite bind_ok.
Qed.

Lemma processReadyTask_safe t rest d s :
  Inv [] [] None d s -> readyTaskInfos s = t :: rest ->
  exists s', processReadyTask client t (upd_readyTaskInfos (fun _ => rest) s) = Ok (tt, s')
    /\ Inv [] [] None d s'.
Proof.
  intros HI Hrd. destruct (proj2 (inv_ready HI) t) as (ti & ri & Ht & Hr & Hst & _).
  { rewrite Hrd. left. }
  destruct (inv_task HI t ti Ht) as (_ & ri0 & Hr0 & Hi). assert (ri0 = ri) as -> by congruence.
  unfold processReadyTask. erewrite bind_ok; [|unfold task_at; cbn; by rewrite Ht].
  assert (Hp : isInProgress ri = true).
  { unfold isInProgress, isInProgressWaiting. by rewrite bool_decide_eq_true_2. }
  erewrite bind_ok; [|by eapply pending_task_eq].
  rewrite bind_ensure by (by apply bool_decide_eq_true_2).
  unfold setComputing. rewrite bind_assoc. erewrite bind_ok; [|unfold rule_at; cbn; by rewrite Hr].
  rewrite bind_assoc, bind_ensure by (by apply bool_decide_eq_true_2).
  rewrite bind_assoc. unfold bind at 1, client_call; cbn [world].
  destruct (clock_now client _) as [now w]. unfold write_rule. rewrite bind_modify.
  set (s1 := upd_ruleInfos _ _).
  assert (HI1 : Inv [] [] None (S d) s1).
  { unfold Inv; cbn. by eapply InvC_computing. }
  unfold task_callback. rewrite bind_assoc. unfold bind at 1, client_call.
  pose proof (ok_inputs _ Hclient t (world s1)) as Hfin.
  destruct (task_inputsAvailable client t (world s1)) as [calls w'].
  destruct (finishing_calls_spec [] [] None (S d) t calls (upd_world (fun _ => w') s1)) as (s2 & E2 & HI2).
  - exact HI1.
  - cbn. eexists ti, _. split; [done|]. split; [apply lookup_insert_eq|done].
  - cbn. intros Hin. destruct (proj2 (inv_done HI) t Hin) as (ti' & ri' & Ht' & Hr' & Hs').
    simplify_eq. congruence.
  - exact Hfin.
  - rewrite (bind_ok _ _ _ _ _ E2). eexists. split; [done|]. unfold Inv; cbn.
    apply InvC_count_outstanding. exact HI2.
Qed.

(** ** Finishing a task *)

(** What [processFinishedTask] does to the queues, the counter and the tasks
    once the task's result is stored. *)
Definition retire (t : TaskID) (ti : TaskInfo) (n : nat) (s : State) : State :=
  upd_taskInfos (fun m => delete t m) (upd_numOutstandingUnfinishedTasks (fun _ => n)
    (upd_finishedInputRequests (fun l => rev (requestedBy ti) ++ l)
      (upd_ruleInfosToScan (fun l => rev (ti_deferredScanRequests ti) ++ l) s))).

Definition after_retire {A} t ti n (o : outcome (A * State)) : outcome (A * State) :=
  match o with Ok (a, s') => Ok (a, retire t ti n s') | Crash f => Crash f end.

(** Registering a rule commutes with retiring a task. *)
Lemma getRuleInfoForKey_retire t ti n k (s : State) :
  getRuleInfoForKey client k (retire t ti n s) = after_retire t ti n (getRuleInfoForKey client k s).
Proof.
  unfold getRuleInfoForKey, bind, get; cbn. destruct (ruleInfos s !! k) eqn:Hk; [done|].
  unfold client_call; cbn. destruct (lookupRule client k (world s)) as [r w].
  unfold addRule, bind, get; cbn. rewrite Hk.
  unfold write_rule, modify; cbn. destruct (db client) as [db|]; [|done].
  unfold client_call; cbn. destruct (db_lookupRuleResult db k r w) as [[[res|] err] w']; cbn;
    unfold rule_at, client_notify, set_cancelled, modify, ret; cbn;
    rewrite ?lookup_insert_eq; by case_decide.
Qed.

Lemma push_discovered_retire t ti n l : forall s : State,
  mapM_ (push_discovered client) l (retire t ti n s)
  = after_retire t ti n (mapM_ (push_discovered client) l s).
Proof.
  induction l as [|x l IH]; intros s; [done|]. cbn [mapM_]. unfold push_discovered at 1 3.
  rewrite !bind_assoc. unfold bind at 1 3. rewrite getRuleInfoForKey_retire.
  destruct (getRuleInfoForKey client (dep_key x) s) as [[[] s1]|]; cbn [after_retire]; [|done].
  unfold push_input. rewrite !bind_modify. etrans; [|apply IH]. done.
Qed.

Lemma push_discovered_outstanding l : forall s s' : State,
  mapM_ (push_discovered client) l s = Ok (tt, s') ->
  numOutstandingUnfinishedTasks s' = numOutstandingUnfinishedTasks s.
Proof.
  induction l as [|x l IH]; intros s s'; cbn [mapM_]; [by intros [= <-]|].
  unfold push_discovered at 1. rewrite bind_assoc. unfold bind at 1.
  destruct (getRuleInfoForKey client (dep_key x) s) as [[[] s1]|] eqn:E; [|done].
  unfold push_input. rewrite bind_modify. intros ->%IH. cbn. revert E.
  unfold getRuleInfoForKey, addRule, bind, get, client_call, write_rule, rule_at, client_notify,
    set_cancelled, modify, ret.
  repeat (case_match; cbn in *); intros E; simplify_eq; done.
Qed.

Lemma push_discovered_inv h g x d l : forall s : State,
  Inv h g x d s -> exists s', mapM_ (push_discovered client) l s = Ok (tt, s') /\ Inv h g x d s'
    /\ (forall k ri, ruleInfos s !! k = Some ri -> ruleInfos s' !! k = Some ri)
    /\ numOutstandingUnfinishedTasks s' = numOutstandingUnfinishedTasks s.
Proof.
  induction l as [|y l IH]; intros s HI; cbn [mapM_]; [by exists s|].
  destruct (getRuleInfoForKey_spec h g x d s (dep_key y) HI) as (s1 & E1 & HI1 & Hk1 & Hx).
  unfold push_discovered at 1. rewrite bind_assoc, (bind_ok _ _ _ _ _ E1).
  unfold push_input. rewrite bind_modify.
  match goal with |- context [mapM_ _ l ?s1'] => destruct (IH s1') as (s2 & E2 & HI2 & Hm & Hn) end.
  { unfold Inv; cbn. eapply InvC_push_dummy; [exact HI1| |]; done. }
  exists s2. split; [exact E2|]. split; [done|]. split.
  - intros k ri Hk. apply Hm. cbn. by apply (ext_rules _ _ Hx).
  - rewrite Hn. cbn. apply (ext_out _ _ Hx).
Qed.

Lemma outstanding_pos {h x R T IR FR SQ RD NO FT ep nt} t :
  InvC h x 0 R T IR FR SQ RD NO FT ep nt -> task_in InProgressComputing R T t ->
  exists n, NO = S n.
Proof.
  intros HI (ti & ri & Ht & Hr & Hst). pose proof (inv_outstanding HI) as Hno.
  pose proof (msum_le computing _ _ _ Hr) as Hle. rewrite (computing_1 ri Hst) in Hle.
  destruct NO; [lia|eauto].
Qed.

Context (Hstore : forall d k r res w, db client = Some d -> (db_setRuleResult d k r res w).1 = None).

Lemma store_result_ok (s : State) k ri :
  exists w, (match db client with
         | None => ret None
         | Some d => client_call (db_setRuleResult d k (rule ri) (result ri))
         end) s = Ok (None, upd_world (fun _ => w) s).
Proof.
  destruct (db client) as [dbr|] eqn:Hdb.
  - unfold client_call. pose proof (Hstore dbr k (rule ri) (result ri) (world s) eq_refl) as E.
    destruct (db_setRuleResult _ _ _ _ _) as [o w]. cbn in E. subst o. eauto.
  - exists (world s). by destruct s.
Qed.

Lemma processFinishedTask_safe t rest s :
  Inv [] [] None 0 s -> finishedTaskInfos s = t :: rest ->
  exists s', processFinishedTask client t (upd_finishedTaskInfos (fun _ => rest) s) = Ok (true, s')
    /\ Inv [] [] None 0 s'.
Proof.
  intros HI Hft. destruct (proj2 (inv_done HI) t) as (ti & ri & Ht & Hr & Hst); [rewrite Hft; left|].
  destruct (inv_task HI t ti Ht) as (Hdd & ri0 & Hr0 & Hi). assert (ri0 = ri) as -> by congruence.
  destruct (outstanding_pos t HI) as (n & Hn); [by exists ti, ri|].
  assert (Hco : isInProgressComputing ri = true) by by apply bool_decide_eq_true_2.
  assert (Hp : isInProgress ri = true) by (unfold isInProgress; by rewrite Hco, orb_true_r).
  unfold processFinishedTask. erewrite bind_ok; [|unfold task_at; cbn; by rewrite Ht].
  erewrite bind_ok; [|by eapply pending_task_eq].
  rewrite bind_ensure by (by apply bool_decide_eq_true_2).
  erewrite bind_ok; [|unfold rule_at; cbn; by rewrite Hr]. rewrite bind_ensure by done.
  unfold write_rule. rewrite bind_modify. unfold bind at 1.
  erewrite setComplete_eq; [|cbn; apply lookup_insert_eq].
  destruct (clock_now client _) as [now w]. cbv zeta. unfold client_notify. rewrite bind_modify.
  erewrite bind_ok; [|unfold rule_at; cbn; by rewrite lookup_insert_eq]. rewrite bind_modify.
  set (s1 := upd_ruleInfos _ (upd_world _ _)).
  assert (HI1 : Inv [] [] None 0 (retire t ti n s1)).
  { unfold Inv; cbn. rewrite !insert_insert_eq.
    eapply InvC_finish_task; [exact HI|done|done|done|done|..]; try done; cbn.
    apply view_append; [by destruct (inv_rule HI _ _ Hr)|done]. }
  assert (Hl1 : is_Some (ruleInfos s1 !! forRuleInfo ti)) by (cbn; rewrite lookup_insert_eq; eauto).
  assert (Hn1 : numOutstandingUnfinishedTasks s1 = S n) by done.
  clearbody s1.
  destruct (push_discovered_inv _ _ _ _ (view (discoveredDependencies ti)) _ HI1)
    as (s2' & E2 & HI2 & Hm2 & _).
  rewrite push_discovered_retire in E2.
  destruct (mapM_ (push_discovered client) (view (discoveredDependencies ti)) s1)
    as [[[] s2]|] eqn:E1; [|done]. cbn in E2. simplify_eq.
  erewrite bind_ok; [|exact E1].
  destruct Hl1 as (ri1 & Hl1). pose proof (Hm2 _ _ Hl1) as Hl2.
  erewrite bind_ok; [|unfold rule_at; cbn in Hl2; by rewrite Hl2].
  destruct (store_result_ok s2 (forRuleInfo ti) ri1) as (w2 & E3).
  rewrite (bind_ok _ _ _ _ _ E3). rewrite (bind_ok _ _ _ _ _ (push_scans_eq _ _)).
  rewrite bind_modify. unfold decrement_outstanding. rewrite bind_assoc. erewrite bind_ok by done.
  cbn [numOutstandingUnfinishedTasks upd_world upd_ruleInfosToScan upd_finishedInputRequests].
  assert (Hn2 : numOutstandingUnfinishedTasks s2 = S n).
  { rewrite <- Hn1. by eapply push_discovered_outstanding. }
  rewrite Hn2, bind_modify. eexists. split; [done|]. exact HI2.
Qed.

(** ** Cancellation *)

(** No work is left anywhere and no rule is in flight. *)
Record quiescent (s : State) : Prop := {
  q_tasks : taskInfos s = ∅;
  q_inputs : inputRequests s = [];
  q_finished : finishedInputRequests s = [];
  q_scan : ruleInfosToScan s = [];
  q_ready : readyTaskInfos s = [];
  q_out : numOutstandingUnfinishedTasks s = 0%nat;
  q_done : finishedTaskInfos s = [];
  q_rules : forall k ri, ruleInfos s !! k = Some ri ->
    deps_wf (dependencies (result ri)) /\ inProgressInfo ri = NullInfo
    /\ state ri <> IsScanning /\ isInProgress ri = false }.

Lemma quiescent_inv s : quiescent s -> Inv [] [] None 0 s.
Proof.
  intros [Ht Hi Hf Hs Hr Ho Hd Hru]. unfold Inv. rewrite Ht, Hi, Hf, Hs, Hr, Ho, Hd. cbn.
  assert (Hp : forall k ri, ruleInfos s !! k = Some ri -> paused_of ri = [] /\ deferred_of ri = []).
  { intros k ri Hk. destruct (Hru k ri Hk) as (_ & Hn & _).
    unfold paused_of, deferred_of. by rewrite Hn. }
  constructor.
  - intros k ri Hk. destruct (Hru k ri Hk) as (? & ? & ? & Hp').
    split; [done|]. revert Hp'.
    unfold isInProgress, isInProgressWaiting, isInProgressComputing. by destruct (state ri).
  - intros t ti. by rewrite lookup_empty.
  - intros r [Hr'|[Hr'|[Hr'|[(k & ri & Hk & Hr')|(t & ti & H0 & _)]]]];
      try by apply elem_of_nil in Hr'.
    + rewrite (proj1 (Hp k ri Hk)) in Hr'. by apply elem_of_nil in Hr'.
    + by rewrite lookup_empty in H0.
  - intros r Hr'. by apply elem_of_nil in Hr'.
  - intros t ti r. by rewrite lookup_empty.
  - intros k ri r Hk. rewrite (proj1 (Hp k ri Hk)). intros Hr'. by apply elem_of_nil in Hr'.
  - intros q [Hq|[(k & ri & Hk & Hq)|(t & ti & H0 & _)]].
    + by apply elem_of_nil in Hq.
    + rewrite (proj2 (Hp k ri Hk)) in Hq. by apply elem_of_nil in Hq.
    + by rewrite lookup_empty in H0.
  - intros k ri Hk Hst. by destruct (Hru k ri Hk) as (_ & _ & ? & _).
  - intros t ti. by rewrite lookup_empty.
  - split; [constructor|]. intros t Ht'. by apply elem_of_nil in Ht'.
  - intros t ti ri. by rewrite lookup_empty.
  - split; [constructor|]. intros t Ht'. by apply elem_of_nil in Ht'.
  - rewrite msum_zero; [done|]. intros k ri Hk. destruct (Hru k ri Hk) as (_ & _ & _ & Hp').
    apply computing_0. intros E. unfold isInProgress, isInProgressComputing in Hp'.
    rewrite E, orb_comm in Hp'. done.
  - intros t [? Ht']. by rewrite lookup_empty in Ht'.
Qed.

(** The tasks still to be cancelled are well formed: distinct and owning their
    rules. *)
Definition owns (s : State) (e : TaskID * TaskInfo) : Prop :=
  exists ri, ruleInfos s !! forRuleInfo e.2 = Some ri /\ isInProgress ri = true
    /\ inProgressInfo ri = PendingTaskInfo e.1.

Definition unowned (l : list (TaskID * TaskInfo)) (k : KeyID) : Prop :=
  forall e, e ∈ l -> forRuleInfo e.2 <> k.

(** Only the rules of the cancelled tasks change, to [Incomplete]. *)
Definition cancelled_rules (l : list (TaskID * TaskInfo)) (R R' : Rules) : Prop :=
  forall k, (unowned l k /\ R' !! k = R !! k)
    \/ (exists e ri, e ∈ l /\ forRuleInfo e.2 = k /\ R !! k = Some ri /\ R' !! k = Some (setCancelled (with_info NullInfo ri))).

Lemma cancel_tasks_spec l : forall s,
  Forall (owns s) l -> NoDup l.*1 ->
  exists s', mapM_ cancel_task l s = Ok (tt, s')
    /\ s' = upd_ruleInfos (fun _ => ruleInfos s') s
    /\ cancelled_rules l (ruleInfos s) (ruleInfos s').
Proof.
  induction l as [|[t ti] l IH]; intros s Hl Hnd; cbn [mapM_].
  - exists s. split; [done|]. split; [by destruct s|]. intros k. left. split; [|done].
    intros e He. by apply elem_of_nil in He.
  - inversion_clear Hl as [|? ? (ri & Hri & Hp & Hi) Hl']. cbn in Hri, Hi.
    apply list.NoDup_cons in Hnd as [Hnt Hnd]. cbn in Hnt.
    unfold cancel_task at 1. rewrite bind_assoc. cbn [fst snd].
    rewrite (bind_ok _ _ _ _ _ (pending_task_eq s _ ri t Hri Hp Hi)).
    rewrite bind_assoc, bind_ensure by (by apply bool_decide_eq_true_2).
    rewrite bind_assoc. erewrite bind_ok; [|unfold rule_at; by rewrite Hri].
    unfold write_rule. rewrite bind_modify. set (s1 := upd_ruleInfos _ s).
    destruct (IH s1) as (s' & E & Hs' & Hc); [| done |].
    { apply Forall_forall. intros [u tu] Hu. rewrite Forall_forall in Hl'.
      destruct (Hl' _ Hu) as (rj & Hrj & Hpj & Hij). cbn in *. exists rj. cbn.
      rewrite lookup_insert_ne; [done|]. intros Heq. rewrite Heq in Hri. simplify_eq.
      apply Hnt. apply list_elem_of_fmap. assert (u = t) as -> by congruence.
      exists (t, tu). split; [done|by apply list_elem_of_In]. }
    exists s'. split; [exact E|]. split; [by rewrite Hs' at 1|].
    intros k. destruct (Hc k) as [[Hu Hk]|(e & rk & He & Hek & Hrk & Hk)]; cbn in *.
    + destruct (decide (k = forRuleInfo ti)) as [->|Hne].
      * right. rewrite lookup_insert_eq in Hk. exists (t, ti), ri. split; [left|done].
      * rewrite lookup_insert_ne in Hk by done. left. split; [|done].
        intros e [->|He]%elem_of_cons; cbn; auto.
    + destruct (decide (k = forRuleInfo ti)) as [->|Hne].
      * rewrite lookup_insert_eq in Hrk. simplify_eq. right. exists e, ri. split; [by right|done].
      * rewrite lookup_insert_ne in Hrk by done. right. exists e, rk. split; [by right|done].
Qed.

Lemma task_rule_in_progress {h x d R T IR FR SQ RD NO FT ep nt} t ti :
  InvC h x d R T IR FR SQ RD NO FT ep nt -> T !! t = Some ti ->
  exists ri, R !! forRuleInfo ti = Some ri /\ isInProgress ri = true
    /\ inProgressInfo ri = PendingTaskInfo t.
Proof.
  intros HI Ht. destruct (inv_task HI t ti Ht) as (_ & ri & Hri & Hi). exists ri.
  split; [done|]. split; [|done]. destruct (inv_rule HI _ ri Hri) as (_ & Hst).
  unfold isInProgress, isInProgressWaiting, isInProgressComputing.
  destruct (state ri); try done; try congruence. destruct Hst; congruence.
Qed.

(** Cancellation leaves a quiescent engine. *)
Lemma cancel_cleanup_spec d s :
  Inv [] [] None d s -> numOutstandingUnfinishedTasks s = 0%nat ->
  exists s', cancel_cleanup s = Ok (tt, s') /\ quiescent s'
    /\ (forall k ri, ruleInfos s !! k = Some ri -> exists ri', ruleInfos s' !! k = Some ri'
          /\ result ri' = result ri
          /\ (isScanning ri || isInProgress ri = false -> ri' = ri)
          /\ (isScanning ri || isInProgress ri = true -> state ri' = Incomplete)).
Proof.
  intros HI Hno. unfold cancel_cleanup. erewrite bind_ok by done.
  destruct (cancel_tasks_spec (map_to_list (taskInfos s)) s) as (s1 & E1 & Hs1 & Hc).
  { apply Forall_forall. intros [t ti] Ht%list_elem_of_In%elem_of_map_to_list.
    by destruct (task_rule_in_progress t ti HI Ht) as (ri & Hri & Hp & Hi); exists ri. }
  { apply NoDup_fst_map_to_list. }
  rewrite (bind_ok _ _ _ _ _ E1), bind_modify. eexists. split; [done|].
  assert (Hcase : forall k ri, ruleInfos s !! k = Some ri ->
    exists ri', cancel_scan <$> ruleInfos s1 !! k = Some ri' /\ result ri' = result ri
      /\ rule ri' = rule ri
      /\ (isScanning ri || isInProgress ri = false -> ri' = ri)
      /\ (isScanning ri || isInProgress ri = true ->
           state ri' = Incomplete /\ inProgressInfo ri' = NullInfo)).
  { intros k ri Hk. destruct (Hc k) as [[Hu Hk1]|([t ti] & ri1 & He & Hek & Hk1 & Hk2)].
    - rewrite Hk1, Hk. cbn. eexists. split; [done|]. unfold cancel_scan.
      destruct (isScanning ri) eqn:Hsc; cbn; [naive_solver|].
      split; [done|]. split; [done|]. split; [done|]. intros Hp.
      destruct (in_progress_task k ri HI Hk Hp) as (t & ti & Hi & Ht & Hf).
      destruct (Hu (t, ti)); [by apply elem_of_map_to_list|done].
    - assert (ri1 = ri) as -> by congruence. rewrite Hk2. cbn in *.
      eexists. split; [done|]. unfold cancel_scan; cbn. split; [done|]. split; [done|].
      split; [|done]. apply elem_of_map_to_list in He.
      destruct (task_rule_in_progress t ti HI He) as (ri' & Hri' & Hp & _).
      assert (ri' = ri) as -> by congruence. rewrite Hp, orb_true_r. done. }
  split.
  - rewrite Hs1. constructor; cbn; try done. intros k ri'. rewrite lookup_fmap. intros Hk'.
    assert (is_Some (ruleInfos s !! k)) as (ri & Hk).
    { destruct (Hc k) as [[_ Hk1]|(? & ri & _ & _ & ? & _)]; [|eauto]. rewrite Hk1 in Hk'.
      destruct (ruleInfos s !! k); [eauto|done]. }
    destruct (Hcase k ri Hk) as (ri2 & Hk2 & Hres & Hru & Hsame & Hinc).
    assert (ri2 = ri') as -> by congruence.
    destruct (inv_rule HI k ri Hk) as (Hd & Hst).
    split; [by rewrite Hres|].
    destruct (isScanning ri || isInProgress ri) eqn:Hbusy.
    + destruct (Hinc eq_refl) as [Hs Hi]. unfold isInProgress, isInProgressWaiting, isInProgressComputing.
      by rewrite Hs.
    + rewrite (Hsame eq_refl). revert Hbusy Hst.
      unfold isScanning, isInProgress, isInProgressWaiting, isInProgressComputing.
      by destruct (state ri).
  - intros k ri Hk. destruct (Hcase k ri Hk) as (ri' & Hk' & Hres & _ & Hsame & Hinc).
    exists ri'. cbn. rewrite lookup_fmap. split; [done|]. split; [done|]. split; [done|].
    intros Hb. by destruct (Hinc Hb).
Qed.
End Safety.
