(* ===== verification/EngineCycle.v ===== *)
(** * Breaking cycles keeps the invariant

    [breakCycle] forces a scanning rule to run, or supplies the prior value of a
    waiting rule to one of its requesters.  Both keep the invariant of
    EngineInv.v, so the build can go on. *)

From Stdlib Require Import ZArith Lia.
From stdpp Require Import base gmap list strings numbers.
From S2P Require Import Prelude DepKeys Engine EngineInv EngineSafety.

Section RemoveFirst.
Context {A : Type} (p : A -> bool).

Lemma remove_first_perm l x : find p l = Some x -> l ≡ₚ x :: remove_first p l.
Proof.
  induction l as [|y l IH]; cbn; [done|]. destruct (p y); [by intros [= ->]|].
  intros H%IH. rewrite H at 1. apply Permutation_swap.
Qed.

Lemma remove_first_none l : find p l = None -> remove_first p l = l.
Proof.
  induction l as [|y l IH]; cbn; [done|]. destruct (p y); [done|]. intros H%IH. by rewrite H.
Qed.

Lemma elem_of_remove_first l x : x ∈ remove_first p l -> x ∈ l.
Proof.
  induction l as [|y l IH]; cbn; [done|]. destruct (p y); [by right|].
  intros [->|?]%elem_of_cons; [left|right; auto].
Qed.
End RemoveFirst.

#[global] Instance count_req_proper t : Proper ((≡ₚ) ==> (=)) (count_req t).
Proof. intros l l' H. unfold count_req. by rewrite H. Qed.
#[global] Instance count_scan_proper k : Proper ((≡ₚ) ==> (=)) (count_scan k).
Proof. intros l l' H. unfold count_scan. by rewrite H. Qed.

Lemma erase_scan_count k j l : j <> k -> count_scan j (erase_scan_request k l) = count_scan j l.
Proof.
  intros Hj. unfold erase_scan_request. rewrite count_scan_rev. set (p := fun r => _).
  rewrite <- (count_scan_rev j l).
  destruct (find p (rev l)) as [q|] eqn:E; [|by rewrite remove_first_none].
  pose proof (find_some _ _ E) as [_ Hq]. unfold p in Hq. apply bool_decide_eq_true in Hq.
  rewrite (remove_first_perm p (rev l) q E) at 2. rewrite count_scan_cons, decide_False; [done|congruence].
Qed.

Lemma erase_scan_sub k l q : q ∈ erase_scan_request k l -> q ∈ l.
Proof.
  unfold erase_scan_request. rewrite elem_of_rev. intros H%elem_of_remove_first. by rewrite elem_of_rev in H.
Qed.

Section Breaking.
Context {W : Type} (client : Client (W := W)) (Hclient : client_ok client).
Abbreviation State := (State (W := W)).

(** Forcing the scanning rule [k] to run. *)
Definition force_rule (k : KeyID) : M State bool :=
  modify (upd_ruleInfosToScan (erase_scan_request k)) ;;;
  finishScanRequest k NeedsToRun ;;;
  determined client k Forced None ;;;
  ri <~ rule_at k;
  write_rule k (with_forced true ri) ;;;
  ret true.

Lemma force_rule_safe x d s k ri :
  Inv [] [] x d s -> ruleInfos s !! k = Some ri -> state ri = IsScanning ->
  exists s', force_rule k s = Ok (true, s') /\ Inv [] [] x d s'.
Proof.
  intros HI Hk Hst. destruct (scanning_record k ri HI Hk Hst) as (rec & Hrec).
  unfold force_rule. rewrite bind_modify. unfold finishScanRequest. rewrite bind_assoc.
  erewrite bind_ok; [|unfold rule_at; cbn; by rewrite Hk].
  rewrite bind_assoc, bind_ensure by (by apply bool_decide_eq_true_2). rewrite bind_assoc.
  erewrite bind_ok; [|by eapply pending_record_eq].
  rewrite bind_assoc, (bind_ok _ _ _ _ _ (push_scans_eq _ _)).
  rewrite bind_assoc, (bind_ok _ _ _ _ _ (push_inputs_eq _ _)).
  rewrite bind_assoc. erewrite bind_ok; [|unfold rule_at; cbn; by rewrite Hk].
  unfold write_rule. rewrite bind_modify.
  erewrite bind_ok; [|apply determined_ok; cbn; apply lookup_insert_eq].
  erewrite bind_ok; [|unfold rule_at; cbn; by rewrite lookup_insert_eq].
  rewrite bind_modify. eexists. split; [done|]. unfold Inv; cbn. rewrite insert_insert_eq.
  eapply (InvC_force_scan k ri rec); [exact HI|done..| |].
  - intros j Hj. by apply erase_scan_count.
  - intros q. apply erase_scan_sub.
Qed.

(** Supplying the prior value to the requester found in [requestedBy]. *)
Lemma supply_prior_inv d (s : State) t ti p req :
  Inv [] [] None d s -> taskInfos s !! t = Some ti -> find p (requestedBy ti) = Some req ->
  Inv [] [] None d (upd_taskInfos (fun m => <[t := with_requestedBy
      (remove_first p (requestedBy ti)) ti]> m)
    (upd_finishedInputRequests (cons (mkInputRequest (ireq_taskInfo req)
      (ireq_inputID req) (ireq_inputRuleInfo req) (ireq_orderOnly req) true
      (ireq_singleUse req))) s)).
Proof.
  intros HI Ht Hf. pose proof (remove_first_perm _ _ _ Hf) as Hperm.
  assert (Hin : req ∈ requestedBy ti).
  { rewrite Hperm. left. }
  unfold Inv; cbn. apply InvC_finish_request; cbn; [|by destruct (inv_requestedBy HI t ti req Ht Hin)|by left].
  eapply InvC_force_request with (r := req); try done.
  eapply InvC_task; [exact HI|exact Ht|..]; try done.
  - by destruct (inv_task HI t ti Ht).
  - intros u. cbn [with_requestedBy requestedBy].
    rewrite (count_req_proper u _ _ Hperm), !count_req_cons, count_req_nil. lia.
  - intros r Hr. apply list_elem_of_singleton in Hr as ->. by right.
  - intros r Hr. left. eapply elem_of_remove_first. exact Hr.
  - by left.
Qed.

Lemma getRule_inv h g x d (s : State) k s' :
  Inv h g x d s -> getRuleInfoForKey client k s = Ok (tt, s') -> Inv h g x d s'.
Proof.
  intros HI E. destruct (getRuleInfoForKey_spec client Hclient h g x d s k HI) as (s1 & E1 & HI1 & _).
  congruence.
Qed.

Lemma rule_at_inv (s : State) k ri s' :
  rule_at k s = Ok (ri, s') -> s' = s /\ ruleInfos s !! k = Some ri.
Proof. unfold rule_at. destruct (ruleInfos s !! k); naive_solver. Qed.

Lemma task_at_inv (s : State) t ti s' :
  task_at t s = Ok (ti, s') -> s' = s /\ taskInfos s !! t = Some ti.
Proof. unfold task_at. destruct (taskInfos s !! t); naive_solver. Qed.

Lemma pending_task_inv (s : State) k t s' : getPendingTaskInfo k s = Ok (t, s') -> s' = s.
Proof.
  unfold getPendingTaskInfo. intros (ri & s1 & [-> _]%rule_at_inv & E)%bind_inv.
  revert E. unfold bind, ensure, ret, fail. destruct (isInProgress ri); [|done].
  by destruct (inProgressInfo ri); intros; simplify_eq.
Qed.

Lemma client_call_inv {A} (f : W -> A * W) (s s' : State) a :
  client_call f s = Ok (a, s') -> exists w, s' = upd_world (fun _ => w) s.
Proof. unfold client_call. destruct (f (world s)) as [b w]. naive_solver. Qed.

Lemma break_loop_inv cycle rest : forall d s b s',
  Inv [] [] None d s -> break_loop client cycle rest s = Ok (b, s') -> Inv [] [] None d s'.
Proof.
  induction rest as [|k0 rest IH]; intros d s b s' HI; cbn [break_loop]; [by intros [= _ <-]|].
  intros (ri0 & ? & [-> _]%rule_at_inv & E)%bind_inv.
  apply bind_inv in E as ([] & s1 & E1 & E). apply (getRule_inv _ _ _ _ _ _ _ HI) in E1.
  apply bind_inv in E as (ri & ? & [-> Hk]%rule_at_inv & E).
  destruct (isScanning ri) eqn:Hsc.
  { apply bind_inv in E as (yes & s2 & [w ->]%client_call_inv & E).
    destruct yes; cbn [negb] in E; [|by injection E as <- <-].
    destruct (force_rule_safe None d (upd_world (fun _ => w) s1) (rule_key (rule ri0)) ri)
      as (s3 & E3 & HI3); [exact E1|done|by apply bool_decide_eq_true in Hsc|].
    unfold force_rule in E3. rewrite E3 in E. by injection E as <- <-. }
  destruct (_ && _); [|by eapply IH].
  apply bind_inv in E as (t & ? & ->%pending_task_inv & E).
  apply bind_inv in E as (next0 & s2 & Hn & E).
  assert (s2 = s1) as -> by (revert Hn; destruct (head rest); cbn; [by intros [= _ ->]|by intros [=]]).
  apply bind_inv in E as (rin & ? & [-> _]%rule_at_inv & E).
  apply bind_inv in E as ([] & s3 & E3 & E). apply (getRule_inv _ _ _ _ _ _ _ E1) in E3.
  apply bind_inv in E as (ti & ? & [-> Ht]%task_at_inv & E).
  erewrite bind_ok in E by done.
  destruct (find _ (requestedBy ti)) as [req|] eqn:Hf; [|by eapply IH].
  apply bind_inv in E as (yes & s4 & [w ->]%client_call_inv & E).
  destruct yes; cbn [negb] in E; [|by injection E as <- <-].
  injection E as <- <-. exact (supply_prior_inv d _ t ti _ req E3 Ht Hf).
Qed.

Lemma resolveCycle_inv d s key b s' :
  Inv [] [] None d s -> resolveCycle client key s = Ok (b, s') -> Inv [] [] None d s'.
Proof.
  intros HI (cyc & s1 & E1 & E)%bind_inv.
  assert (HI1 : Inv [] [] None d s1).
  { unfold findCycle in E1. erewrite bind_ok in E1 by done. unfold ensure in E1.
    destruct (graph_asserts s); [|done]. rewrite bind_ret_l in E1.
    apply bind_inv in E1 as ([] & s2 & E2 & E1). apply (getRule_inv _ _ _ _ _ _ _ HI) in E2.
    unfold lift in E1. destruct (find_cycle_from _ _); [by injection E1 as <- <-|done]. }
  apply bind_inv in E as ([] & s2 & E2 & E).
  assert (s2 = s1) as -> by (revert E2; unfold ensure; destruct (negb _); [by intros [= ->]|by intros [=]]).
  apply bind_inv in E as (broken & s3 & E3 & E).
  assert (HI3 : Inv [] [] None d s3).
  { unfold breakCycle in E3. apply bind_inv in E3 as (c & s4 & E4 & E3).
    injection E4 as <- <-. by eapply break_loop_inv. }
  destruct broken; [by injection E as <- <-|].
  apply bind_inv in E as (c & s4 & E4 & E). injection E4 as <- <-. by injection E as <- <-.
Qed.
End Breaking.
