(* ===== verification/EngineRun.v ===== *)
(** * Whole builds: the engine thread and the other threads

    [step] (one iteration of an inner loop of [executeTasks]) interleaved with the
    calls other threads may make is a transition system.  [phase_inv] is its
    invariant; it is inductive, no transition crashes outside cycle resolution,
    and it gives the engine's guarantees at the end of a build. *)

From Stdlib Require Import ZArith Lia.
From stdpp Require Import base gmap list strings numbers.
From S2P Require Import Prelude DepKeys Engine EngineInv EngineSafety EngineCycle.

Section Run.
Context {W : Type} (client : Client (W := W)) (Hclient : client_ok client).
Context (Hstore : forall d k r res w, db client = Some d -> (db_setRuleResult d k r res w).1 = None).
Abbreviation State := (State (W := W)).
Abbreviation Config := (Config (W := W)).

(** ** The transition system *)

(** [C] holds the tasks that were completed so far. *)
Definition allowed (C : gset TaskID) (s : State) (e : EnvEvent (W := W)) : Prop :=
  match e with
  | EnvTaskCall t (CallDiscoveredDependency _) | EnvTaskCall t (CallComplete _ _) =>
      task_in InProgressComputing (ruleInfos s) (taskInfos s) t /\ t ∉ C
  | EnvTaskCall _ _ => False
  | EnvCancelBuild | EnvWorld _ => True
  end.

Definition note_completed (C : gset TaskID) (s : State) : gset TaskID :=
  C ∪ list_to_set (finishedTaskInfos s).

Inductive sys_step (key : KeyID) : Config * gset TaskID -> Config * gset TaskID -> Prop :=
| engine_step c c' C :
    step client key c = Ok c' -> sys_step key (c, C) (c', note_completed C (engine c'))
| env_step c C e s' :
    allowed C (engine c) e -> env_event client e (engine c) = Ok (tt, s') ->
    sys_step key (c, C) (mkConfig (phase c) (didWork c) s', note_completed C s').

(** ** The invariant of the transition system *)

(** The queues an inner loop has emptied, when no work was done before it. *)
Definition drained (p : Phase) (s : State) : Prop :=
  match p with
  | HandleInputs => ruleInfosToScan s = []
  | HandleFinishedInputs => ruleInfosToScan s = [] /\ inputRequests s = []
  | HandleReady =>
      ruleInfosToScan s = [] /\ inputRequests s = [] /\ finishedInputRequests s = []
  | HandleFinished | LoopBottom =>
      ruleInfosToScan s = [] /\ inputRequests s = [] /\ finishedInputRequests s = []
      /\ readyTaskInfos s = []
  | _ => True
  end.

(** Tasks that finished while the build was being cancelled. *)
Record abandoned (C : gset TaskID) (D : list TaskID) (s : State) : Prop := {
  ab_nodup : NoDup D;
  ab_task : forall t, t ∈ D -> task_in InProgressComputing (ruleInfos s) (taskInfos s) t;
  ab_done : forall t, t ∈ D -> t ∈ C /\ t ∉ finishedTaskInfos s }.

Definition phase_inv (key : KeyID) (x : Config * gset TaskID) : Prop :=
  let (c, C) := x in
  let s := engine c in
  (forall t, t ∈ finishedTaskInfos s -> t ∈ C) /\
  match phase c with
  | Cancelling => exists D, abandoned C D s /\ Inv [] [] None (length D) s
  | Done true =>
      Inv [] [] None 0 s /\ taskInfos s = ∅ /\ numOutstandingUnfinishedTasks s = 0%nat
      /\ drained LoopBottom s /\ finishedTaskInfos s = []
      /\ exists ri, ruleInfos s !! key = Some ri /\ isComplete (currentEpoch s) ri = true
  | Done false => quiescent s
  | p => Inv [] [] None 0 s /\ (didWork c = false -> drained p s)
  end.

(** ** Counting computing rules *)

Lemma computing_count {h x d R T IR FR SQ RD NO FT ep nt} l :
  InvC h x d R T IR FR SQ RD NO FT ep nt -> NoDup l ->
  (forall t, t ∈ l -> task_in InProgressComputing R T t) -> (length l <= msum computing R)%nat.
Proof.
  intros HI Hnd Hl.
  assert (Hgen : forall R', (forall t, t ∈ l -> exists ti ri, T !! t = Some ti /\
      R' !! forRuleInfo ti = Some ri /\ state ri = InProgressComputing
      /\ inProgressInfo ri = PendingTaskInfo t) -> (length l <= msum computing R')%nat).
  { clear Hl. induction l as [|t l IH]; intros R' Hl; cbn; [lia|].
    apply list.NoDup_cons in Hnd as [Hnt Hnd].
    destruct (Hl t) as (ti & ri & Ht & Hr & Hs & Hi); [left|].
    rewrite (msum_delete computing R' _ _ Hr), (computing_1 ri Hs).
    assert (length l <= msum computing (delete (forRuleInfo ti) R'))%nat; [|lia].
    apply IH; [done|]. intros u Hu. destruct (Hl u) as (tu & ru & Htu & Hru & Hsu & Hiu); [by right|].
    exists tu, ru. rewrite lookup_delete_ne; [done|]. intros Heq. rewrite Heq in Hr. congruence. }
  apply Hgen. intros t Ht. destruct (Hl t Ht) as (ti & ri & Hti & Hri & Hs).
  exists ti, ri. destruct (inv_task HI t ti Hti) as (_ & ri' & Hri' & Hi). naive_solver.
Qed.

Lemma drained_done (s : State) :
  Inv [] [] None 0 s -> numOutstandingUnfinishedTasks s = 0%nat -> finishedTaskInfos s = [].
Proof.
  intros HI Hno. destruct (finishedTaskInfos s) as [|t l] eqn:E; [done|].
  destruct (outstanding_pos t HI) as (n & Hn); [|congruence].
  apply (inv_done HI). rewrite E. left.
Qed.

(** ** Events of other threads *)

Lemma taskDiscovered_frame t key (s s' : State) :
  task_in InProgressComputing (ruleInfos s) (taskInfos s) t ->
  taskDiscoveredDependency client t key s = Ok (tt, s') ->
  ruleInfos s' = ruleInfos s /\ finishedTaskInfos s' = finishedTaskInfos s
  /\ (forall p, drained p s -> drained p s')
  /\ (forall u st, task_in st (ruleInfos s) (taskInfos s) u -> task_in st (ruleInfos s') (taskInfos s') u).
Proof.
  intros (ti & ri & Ht & Hr & Hst). unfold taskDiscoveredDependency.
  erewrite bind_ok; [|unfold task_at; by rewrite Ht].
  erewrite bind_ok; [|unfold rule_at; by rewrite Hr].
  assert (isInProgressComputing ri = true) as -> by by apply bool_decide_eq_true_2.
  intros [= <-]. split; [done|]. split; [done|]. split; [by intros []|].
  intros u st. cbn. by eapply task_in_task.
Qed.

Lemma taskIsComplete_frame t v f (s s' : State) d g :
  Inv [] g None d s -> task_in InProgressComputing (ruleInfos s) (taskInfos s) t ->
  taskIsComplete client t v f s = Ok (tt, s') ->
  finishedTaskInfos s' = t :: finishedTaskInfos s
  /\ (forall p, drained p s -> drained p s')
  /\ (forall u st, task_in st (ruleInfos s) (taskInfos s) u -> task_in st (ruleInfos s') (taskInfos s') u).
Proof.
  intros HI (ti & ri & Ht & Hr & Hst). unfold taskIsComplete.
  erewrite bind_ok; [|unfold task_at; by rewrite Ht].
  erewrite bind_ok; [|unfold rule_at; by rewrite Hr].
  assert (Hco : isInProgressComputing ri = true) by by apply bool_decide_eq_true_2.
  assert (Hp : isInProgress ri = true) by (unfold isInProgress; by rewrite Hco, orb_true_r).
  rewrite Hco; cbn [negb].
  destruct (inv_task HI t ti Ht) as (_ & ri0 & Hr0 & Hi). assert (ri0 = ri) as -> by congruence.
  rewrite (bind_ok _ _ _ _ _ (pending_task_eq s _ ri t Hr Hp Hi)).
  rewrite bind_ensure by (by apply bool_decide_eq_true_2). erewrite bind_ok by done.
  intros [= <-]. split; [done|]. split; [by intros []|].
  intros u st. cbn. eapply task_in_rule; [exact Hr|]. done.
Qed.

Lemma note_completed_sub C (s : State) t : t ∈ C -> t ∈ note_completed C s.
Proof. unfold note_completed. set_solver. Qed.

Lemma note_completed_done C (s : State) t : t ∈ finishedTaskInfos s -> t ∈ note_completed C s.
Proof. unfold note_completed. set_solver. Qed.

Lemma no_task_quiescent (s : State) st t :
  taskInfos s = ∅ -> task_in st (ruleInfos s) (taskInfos s) t -> False.
Proof. intros E (ti & ri & Ht & _). by rewrite E, lookup_empty in Ht. Qed.

(** A task call by another thread keeps the invariant of the phase. *)
Lemma env_call_inv key c C t s' (finished : list TaskID) :
  phase_inv key (c, C) -> task_in InProgressComputing (ruleInfos (engine c)) (taskInfos (engine c)) t ->
  t ∉ C ->
  (forall d, Inv [] [] None d (engine c) -> Inv [] [] None d s') ->
  finishedTaskInfos s' = finished ++ finishedTaskInfos (engine c) ->
  (forall u, u ∈ finished -> u = t) ->
  (forall p, drained p (engine c) -> drained p s') ->
  (forall u st, task_in st (ruleInfos (engine c)) (taskInfos (engine c)) u ->
     task_in st (ruleInfos s') (taskInfos s') u) ->
  phase_inv key (mkConfig (phase c) (didWork c) s', note_completed C s').
Proof.
  intros [HC HP] Ht HtC HI Hf Hfin Hdr Htin. split; [apply note_completed_done|]. cbn [phase engine didWork].
  destruct (phase c) as [| | | | | | | |b] eqn:Hph; try (destruct HP as [HP1 HP2]; split; auto; fail).
  - destruct HP as (D & [H1 H2 H3] & HI0). exists D. split; [|auto]. constructor; auto.
    intros u Hu. destruct (H3 u Hu) as [Hc Hnf]. split; [by apply note_completed_sub|].
    rewrite Hf. intros [Hin%Hfin|?]%elem_of_app; congruence.
  - destruct b.
    + destruct HP as (_ & HT & _). exfalso. by eapply no_task_quiescent.
    + destruct HP. exfalso. by eapply no_task_quiescent.
Qed.

Lemma phase_Inv key c C : phase_inv key (c, C) -> exists d, Inv [] [] None d (engine c).
Proof.
  intros [_ HP]. destruct (phase c) as [| | | | | | | |[]]; try (destruct HP; eauto; fail).
  - destruct HP as (D & _ & ?). eauto.
  - exists 0%nat. by apply quiescent_inv.
Qed.

(** Events that respect the protocol neither crash nor break the invariant. *)
Lemma env_event_safe key c C e :
  phase_inv key (c, C) -> allowed C (engine c) e ->
  exists s', env_event client e (engine c) = Ok (tt, s')
    /\ phase_inv key (mkConfig (phase c) (didWork c) s', note_completed C s').
Proof.
  intros HP Ha. destruct (phase_Inv key c C HP) as (d0 & HI0). set (s := engine c) in *.
  assert (Hsame : forall s', (forall d, Inv [] [] None d s -> Inv [] [] None d s') ->
    finishedTaskInfos s' = finishedTaskInfos s -> taskInfos s' = taskInfos s ->
    ruleInfos s' = ruleInfos s -> (forall p, drained p s -> drained p s') ->
    numOutstandingUnfinishedTasks s' = numOutstandingUnfinishedTasks s ->
    currentEpoch s' = currentEpoch s -> (quiescent s -> quiescent s') ->
    phase_inv key (mkConfig (phase c) (didWork c) s', note_completed C s')).
  { intros s' HI Hf HT HR Hdr Hno Hep Hq. destruct HP as [HC HP]. fold s in HC, HP.
    split; [apply note_completed_done|]. cbn [phase engine didWork].
    destruct (phase c) as [| | | | | | | |[]] eqn:Hph; try (destruct HP as [HP1 HP2]; split; auto; fail).
    - destruct HP as (D & [H1 H2 H3] & HI'). exists D. split; [|auto]. constructor; rewrite ?HR, ?HT; auto.
      intros u Hu. rewrite Hf. destruct (H3 u Hu). split; [by apply note_completed_sub|done].
    - destruct HP as (H1 & H2 & H3 & H4 & H5 & H6). rewrite HT, HR, Hno, Hep, Hf. eauto 8.
    - auto. }
  destruct e as [t cl| |f].
  - destruct cl; try done; destruct Ha as [Ht HtC].
    + destruct (taskDiscovered_spec client [] [] None d0 s t key0 HI0 Ht) as (s' & E & _).
      exists s'. split; [exact E|].
      destruct (taskDiscovered_frame t key0 s s' Ht E) as (HR & Hf & Hdr & Htin).
      apply (env_call_inv key c C t s' []); try done.
      * intros d HI. destruct (taskDiscovered_spec client [] [] None d s t key0 HI Ht)
          as (s2 & E2 & HI2 & _). congruence.
      * intros u Hu. by apply elem_of_nil in Hu.
    + assert (Hnf : t ∉ finishedTaskInfos s) by (destruct HP as [HC _]; auto).
      destruct (taskIsComplete_spec client [] [] None d0 s t v forceChange HI0 Ht Hnf) as (s' & E & _).
      exists s'. split; [exact E|].
      destruct (taskIsComplete_frame t v forceChange s s' d0 [] HI0 Ht E) as (Hf & Hdr & Htin).
      apply (env_call_inv key c C t s' [t]); try done.
      * intros d HI. destruct (taskIsComplete_spec client [] [] None d s t v forceChange HI Ht Hnf)
          as (s2 & E2 & HI2). congruence.
      * intros u Hu. by apply list_elem_of_singleton in Hu.
  - eexists. split; [done|]. apply Hsame; try done. by intros [].
  - eexists. split; [done|]. apply Hsame; try done. by intros [].
Qed.

(** ** Steps of the engine thread *)

Definition looping (p : Phase) : bool :=
  match p with Cancelling | Done _ => false | _ => true end.

Lemma phase_inv_loop key c C : looping (phase c) = true ->
  Inv [] [] None 0 (engine c) -> (didWork c = false -> drained (phase c) (engine c)) ->
  phase_inv key (c, note_completed C (engine c)).
Proof.
  intros Hl HI Hd. split; [apply note_completed_done|]. by destruct (phase c).
Qed.

Lemma phase_inv_loop_inv key c C : looping (phase c) = true -> phase_inv key (c, C) ->
  Inv [] [] None 0 (engine c) /\ (didWork c = false -> drained (phase c) (engine c)).
Proof. intros Hl [_ HP]. by destruct (phase c). Qed.

Lemma cancelling_inv key w C (s : State) : Inv [] [] None 0 s ->
  phase_inv key (mkConfig Cancelling w s, note_completed C s).
Proof.
  intros HI. split; [apply note_completed_done|]. exists []. split; [|done].
  constructor; [constructor| |]; intros t Ht; by apply elem_of_nil in Ht.
Qed.

(** The inner loops. *)
Lemma work_step_safe key p (m : M State unit) (s s' : State) C :
  looping p = true -> m s = Ok (tt, s') -> Inv [] [] None 0 s' ->
  exists c', goto p true m s = Ok c' /\ phase_inv key (c', note_completed C (engine c')).
Proof.
  intros Hl E HI. unfold goto. rewrite E. eexists. split; [done|]. by apply phase_inv_loop.
Qed.

(** The engine is waiting for nothing and tasks remain: a cycle. *)
Definition stuck (c : Config) : Prop :=
  phase c = LoopBottom /\ didWork c = false
  /\ numOutstandingUnfinishedTasks (engine c) = 0%nat /\ taskInfos (engine c) <> ∅.

Lemma step_bottom key c C :
  phase_inv key (c, C) -> phase c = LoopBottom -> ~ stuck c ->
  exists c', step client key c = Ok c' /\ phase_inv key (c', note_completed C (engine c')).
Proof.
  intros HP Hph Hns. destruct (phase_inv_loop_inv key c C) as [HI Hd]; [by rewrite Hph|done|].
  unfold step. rewrite Hph in *. set (s := engine c) in *.
  destruct (didWork c || _) eqn:Hw.
  { eexists. split; [done|]. by apply phase_inv_loop. }
  apply orb_false_iff in Hw as [Hw Hno]. apply negb_false_iff, Nat.eqb_eq in Hno.
  destruct (decide (taskInfos s = ∅)) as [HT|HT]; [|by destruct Hns].
  rewrite bool_decide_eq_true_2 by done. cbn [negb].
  destruct (getRuleInfoForKey_spec client Hclient [] [] None 0 s key HI) as (s1 & E1 & HI1 & (ri & Hk) & Hx).
  rewrite (bind_ok _ _ _ _ _ E1). unfold rule_at. rewrite Hk.
  destruct (isComplete (currentEpoch s1) ri) eqn:Hc.
  - eexists. split; [done|]. split; [apply note_completed_done|]. cbn [phase engine].
    split; [done|]. rewrite (ext_tasks _ _ Hx), (ext_out _ _ Hx).
    split; [done|]. split; [done|]. destruct (Hd Hw) as (? & ? & ? & ?). unfold drained.
    rewrite (ext_scan _ _ Hx), (ext_inputs _ _ Hx), (ext_finished _ _ Hx), (ext_ready _ _ Hx).
    split; [done|]. split; [|by exists ri]. apply drained_done; [done|].
    by rewrite (ext_out _ _ Hx).
  - unfold goto. eexists. split; [done|]. by apply cancelling_inv.
Qed.

Lemma step_cancelling key c C :
  phase_inv key (c, C) -> phase c = Cancelling ->
  exists c', step client key c = Ok c' /\ phase_inv key (c', note_completed C (engine c')).
Proof.
  intros [HC HP] Hph. unfold step. rewrite Hph in *. destruct HP as (D & HD & HI).
  set (s := engine c) in *.
  destruct (Nat.eqb_spec (numOutstandingUnfinishedTasks s) 0) as [Hno|Hno].
  - destruct (cancel_cleanup_spec _ s HI Hno) as (s' & E & Hq & _). unfold goto. rewrite E.
    eexists. split; [done|]. split; [apply note_completed_done|done].
  - destruct (finishedTaskInfos s) as [|t l] eqn:Hft.
    { eexists. split; [done|]. split; [apply note_completed_done|]. rewrite Hph. fold s.
      exists D. split; [|done]. destruct HD as [H1 H2 H3]. constructor; auto.
      intros u Hu. destruct (H3 u Hu). split; [by apply note_completed_sub|done]. }
    rewrite <- Hft in *. destruct HD as [H1 H2 H3]. destruct (inv_done HI) as [Hnd Hin].
    assert (Hall : NoDup (finishedTaskInfos s ++ D)).
    { apply list.NoDup_app. split; [done|]. split; [|done]. intros u Hu Hu'. by destruct (H3 u Hu'). }
    assert (Hcomp : forall u, u ∈ finishedTaskInfos s ++ D ->
              task_in InProgressComputing (ruleInfos s) (taskInfos s) u).
    { intros u [?|?]%elem_of_app; auto. }
    pose proof (computing_count _ HI Hall Hcomp) as Hle. rewrite length_app in Hle.
    pose proof (inv_outstanding HI) as Hout.
    rewrite (proj2 (Nat.leb_le _ _)) by lia. eexists. split; [done|].
    split; [apply note_completed_done|]. cbn [phase engine].
    exists (finishedTaskInfos s ++ D). split.
    + constructor; [done|exact Hcomp|]. intros u Hu. split; [|by intros ?%elem_of_nil].
      unfold note_completed. apply elem_of_union. left.
      apply elem_of_app in Hu as [Hu|Hu]; [by apply HC|by destruct (H3 u Hu)].
    + rewrite length_app. unfold Inv; cbn. destruct HI. constructor; try done.
      * split; [constructor|]. intros u Hu. by apply elem_of_nil in Hu.
      * lia.
Qed.

Theorem step_safe key c C :
  phase_inv key (c, C) -> ~ stuck c ->
  exists c', step client key c = Ok c' /\ phase_inv key (c', note_completed C (engine c')).
Proof.
  intros HP Hns. destruct (looping (phase c)) eqn:Hl.
  2: { destruct (phase c) eqn:Hph; try done; [by apply step_cancelling|].
       unfold step. rewrite Hph. exists c. split; [done|]. destruct HP as [HC HP].
       split; [apply note_completed_done|]. by rewrite Hph in *. }
  destruct (phase_inv_loop_inv key c C Hl HP) as [HI Hd].
  destruct (phase c) eqn:Hph; try done; [..|by apply step_bottom];
    unfold step; rewrite Hph; set (s := engine c) in *.
  - destruct (buildCancelled s); eexists; (split; [done|]); [by apply cancelling_inv|by apply phase_inv_loop].
  - destruct (ruleInfosToScan s) as [|q rest] eqn:Hq.
    { eexists. split; [done|]. by apply phase_inv_loop. }
    destruct (processRuleScanRequest_safe client Hclient q 0 (upd_ruleInfosToScan (fun _ => rest) s))
      as (s' & E & HI'); [unfold Inv; cbn; by rewrite <- Hq|].
    eapply work_step_safe; [done| |exact HI']. by rewrite bind_modify.
  - destruct (inputRequests s) as [|r rest] eqn:Hq.
    { eexists. split; [done|]. apply phase_inv_loop; [done..|]. cbn. intros H. specialize (Hd H). cbn in Hd. naive_solver. }
    destruct (processInputRequest_safe client Hclient r 0 (upd_inputRequests (fun _ => rest) s))
      as (s' & E & HI'); [unfold Inv; cbn; by eapply InvC_pop_input|].
    eapply work_step_safe; [done| |exact HI']. by rewrite bind_modify.
  - destruct (finishedInputRequests s) as [|r rest] eqn:Hq.
    { eexists. split; [done|]. apply phase_inv_loop; [done..|]. cbn. intros H. specialize (Hd H). cbn in Hd. naive_solver. }
    destruct (processFinishedInput_safe client Hclient r 0 s rest HI Hq) as (s' & E & HI').
    eapply work_step_safe; [done| |exact HI']. by rewrite bind_modify.
  - destruct (readyTaskInfos s) as [|t rest] eqn:Hq.
    { eexists. split; [done|]. apply phase_inv_loop; [done..|]. cbn. intros H. specialize (Hd H). cbn in Hd. naive_solver. }
    destruct (processReadyTask_safe client Hclient t rest 0 s HI Hq) as (s' & E & HI').
    eapply work_step_safe; [done| |exact HI']. by rewrite bind_modify.
  - destruct (finishedTaskInfos s) as [|t rest] eqn:Hq.
    { eexists. split; [done|]. by apply phase_inv_loop. }
    destruct (processFinishedTask_safe client Hclient Hstore t rest s HI Hq) as (s' & E & HI').
    rewrite bind_modify, E. eexists. split; [done|]. by apply phase_inv_loop.
Qed.

(** Cycle resolution keeps the invariant when it returns. *)
Lemma step_cycle key c C c' :
  phase_inv key (c, C) -> stuck c -> step client key c = Ok c' ->
  phase_inv key (c', note_completed C (engine c')).
Proof.
  intros HP (Hph & Hw & Hno & HT).
  destruct (phase_inv_loop_inv key c C) as [HI _]; [by rewrite Hph|done|].
  unfold step. rewrite Hph, Hw, Hno, bool_decide_eq_false_2 by done. cbn [orb negb Nat.eqb].
  destruct (resolveCycle client key (engine c)) as [[b s']|] eqn:E; [|done].
  apply (resolveCycle_inv client Hclient) with (d := 0%nat) in E; [|done].
  intros [= <-]. destruct b; [by apply phase_inv_loop|by apply cancelling_inv].
Qed.

Lemma stuck_dec c : stuck c \/ ~ stuck c.
Proof.
  unfold stuck. destruct (phase c); try (right; by intros [? _]).
  destruct (didWork c); [right; by intros (_ & ? & _)|].
  destruct (decide (numOutstandingUnfinishedTasks (engine c) = 0%nat)); [|right; by intros (_ & _ & ? & _)].
  destruct (decide (taskInfos (engine c) = ∅)); [right; by intros (_ & _ & _ & ?)|by left].
Qed.

(** Every transition keeps the invariant. *)
Lemma sys_step_inv key x y : phase_inv key x -> sys_step key x y -> phase_inv key y.
Proof.
  intros HP Hs. destruct Hs as [c c' C E|c C e s' Ha E].
  - destruct (stuck_dec c) as [Hst|Hst]; [by eapply step_cycle|].
    destruct (step_safe key c C HP Hst) as (c2 & E2 & HP2). congruence.
  - destruct (env_event_safe key c C e HP Ha) as (s2 & E2 & HP2). congruence.
Qed.

(** ** Executions *)

Inductive reachable (key : KeyID) (s0 : State) : Config * gset TaskID -> Prop :=
| reach_start s : start_execution client key s0 = Ok (tt, s) ->
    reachable key s0 (mkConfig LoopTop false s, ∅)
| reach_step x y : reachable key s0 x -> sys_step key x y -> reachable key s0 y.

Lemma start_execution_spec key s0 : quiescent s0 ->
  exists s, start_execution client key s0 = Ok (tt, s) /\ Inv [] [] None 0 s
    /\ finishedTaskInfos s = [] /\ currentEpoch s = currentEpoch s0.
Proof.
  intros Hq. unfold start_execution. rewrite bind_modify.
  assert (HI : Inv [] [] None 0 (upd_finishedInputRequests (fun _ => []) s0)).
  { apply quiescent_inv. by destruct Hq. }
  destruct (getRuleInfoForKey_spec client Hclient [] [] None 0 _ key HI) as (s1 & E1 & HI1 & Hk & Hx).
  rewrite (bind_ok _ _ _ _ _ E1). eexists. split; [done|]. split; [|split].
  - unfold Inv; cbn. eapply InvC_push_dummy; [exact HI1|done|done].
  - cbn. rewrite (ext_done _ _ Hx). apply (q_done _ Hq).
  - cbn. apply (ext_epoch _ _ Hx).
Qed.

Lemma reachable_inv key s0 x : quiescent s0 -> reachable key s0 x -> phase_inv key x.
Proof.
  intros Hq Hr. induction Hr as [s E|x y _ IH Hs]; [|by eapply sys_step_inv].
  destruct (start_execution_spec key s0 Hq) as (s' & E' & HI & Hf & _).
  assert (s' = s) as -> by congruence. split; [|by split]. cbn. rewrite Hf. by intros t ?%elem_of_nil.
Qed.

(** The engine thread alone, with a client that completes its tasks inside the
    callbacks. *)
Lemma run_reachable key s0 fuel : forall c C c',
  reachable key s0 (c, C) -> run client fuel (fun _ => []) key c = Ok c' ->
  exists C', reachable key s0 (c', C').
Proof.
  induction fuel as [|fuel IH]; intros c C c' Hr; cbn [run]; [intros [= <-]; eauto|].
  assert (Hcfg : mkConfig (phase c) (didWork c) (engine c) = c) by by destruct c.
  destruct (phase c) eqn:Hph; cbn [mapM_ ret].
  9: { intros [= <-]. eauto. }
  all: rewrite Hcfg; destruct (step client key c) as [c1|] eqn:E; [|done];
    intros Hrun; eapply IH; [|exact Hrun]; eapply reach_step; [exact Hr|by constructor].
Qed.
End Run.
