(* ===== verification/EngineScan.v ===== *)
(** * What the dependency scan establishes

    A rule is skipped in an incremental build only when its stored result is up
    to date.  [ScanInv] records what the scan has checked so far for every rule
    being scanned, and for every rule the scan decided not to run.  It is an
    invariant of the transition system of EngineRun.v, proved as partial
    correctness of every operation: whether the operations return at all is the
    subject of EngineSafety.v. *)

From Stdlib Require Import ZArith Lia.
From stdpp Require Import base gmap list strings numbers.
From S2P Require Import Prelude DepKeys Engine EngineInv EngineSafety EngineCycle EngineRun.

(** ** Checked dependencies *)

(** Dependency [dp] does not make [ri] out of date: it only orders, or it is
    complete in this epoch and its value is no newer than [ri]'s. *)
Definition input_checked (ep : Z) (R : Rules) (ri : RuleInfo) (dp : KeyIDAndFlags KeyID) : Prop :=
  dep_orderOnly dp = true
  \/ exists rd, R !! dep_key dp = Some rd /\ isComplete ep rd = true
       /\ (computedAt (result rd) <= builtAt (result ri))%Z.

(** [ri] was built before by the same rule, and its first [n] dependencies are
    checked. *)
Definition checked (ep : Z) (R : Rules) (ri : RuleInfo) (n : nat) : Prop :=
  builtAt (result ri) <> 0%Z /\ rule_signature (rule ri) = signature (result ri)
  /\ forall j dp, (j < n)%nat -> deps_get (dependencies (result ri)) j = Ok dp ->
       input_checked ep R ri dp.

(** What a scan request knows about its rule. *)
Definition scan_checked (ep : Z) (R : Rules) (ri : RuleInfo) (q : RuleScanRequest) : Prop :=
  sreq_needsToRun q = true
  \/ checked ep R ri (sreq_inputIndex q)
     /\ forall i, sreq_inputRuleInfo q = Some i ->
          exists dp, deps_get (dependencies (result ri)) (sreq_inputIndex q) = Ok dp
            /\ dep_key dp = i /\ dep_orderOnly dp = sreq_orderOnly q.

(** A pending request is about a rule being scanned, or one already scanned. *)
Definition scan_good (ep : Z) (R : Rules) (q : RuleScanRequest) : Prop :=
  exists ri, R !! sreq_ruleInfo q = Some ri
    /\ ((state ri = IsScanning /\ scan_checked ep R ri q) \/ isScanned ep ri = true).

Record ScanC (ep : Z) (R : Rules) (T : Tasks) (SQ : list RuleScanRequest) : Prop := mkScanC {
  sc_skip : forall k ri, R !! k = Some ri -> state ri = DoesNotNeedToRun ->
    checked ep R ri (deps_size (dependencies (result ri)));
  sc_good : forall q, scan_pending R T SQ q -> scan_good ep R q;
  sc_task : forall t ti, T !! t = Some ti -> exists ri, R !! forRuleInfo ti = Some ri
    /\ isScanned ep ri = true /\ state ri <> DoesNotNeedToRun;
  sc_record : forall k ri q, R !! k = Some ri -> q ∈ deferred_of ri -> sreq_inputRuleInfo q = Some k }.
Arguments sc_skip {ep R T SQ} _.
Arguments sc_good {ep R T SQ} _.
Arguments sc_task {ep R T SQ} _.
Arguments sc_record {ep R T SQ} _.

(** [g] holds the scan requests in hand. *)
Definition ScanInv {W} (g : list RuleScanRequest) (s : State (W := W)) : Prop :=
  ScanC (currentEpoch s) (ruleInfos s) (taskInfos s) (g ++ ruleInfosToScan s).

(** ** Replacing a rule's record *)

(** What a new record of a rule must keep. *)
Record keeps (ep : Z) (ri ri' : RuleInfo) : Prop := {
  kp_complete : isComplete ep ri = true ->
    isComplete ep ri' = true /\ computedAt (result ri') = computedAt (result ri);
  kp_scanning : state ri = IsScanning ->
    (state ri' = IsScanning /\ result ri' = result ri /\ rule ri' = rule ri)
    \/ isScanned ep ri' = true;
  kp_scanned : isScanned ep ri = true -> isScanned ep ri' = true;
  kp_run : isScanned ep ri = true -> state ri <> DoesNotNeedToRun -> state ri' <> DoesNotNeedToRun }.

Lemma scanned_not_scanning ep ri : isScanned ep ri = true -> state ri <> IsScanning.
Proof. unfold isScanned. intros H E. rewrite E in H. by cbn in H. Qed.

Lemma complete_scanned ep ri : isComplete ep ri = true -> isScanned ep ri = true.
Proof.
  unfold isScanned. intros H. case_bool_decide as E; [done|].
  unfold isComplete in H. by rewrite bool_decide_eq_false_2 in H.
Qed.

(** Completed rules of [R] are completed, with the same computation time, in [R']. *)
Definition completes (ep : Z) (R R' : Rules) : Prop :=
  forall k ri, R !! k = Some ri -> isComplete ep ri = true ->
    exists ri', R' !! k = Some ri' /\ isComplete ep ri' = true
      /\ computedAt (result ri') = computedAt (result ri).

Lemma checked_mono ep R R' ri n : completes ep R R' -> checked ep R ri n -> checked ep R' ri n.
Proof.
  intros HR (H1 & H2 & H3). split; [done|]. split; [done|]. intros j dp Hj Hd.
  destruct (H3 j dp Hj Hd) as [?|(rd & Hrd & Hc & Hle)]; [by left|]. right.
  destruct (HR _ rd Hrd Hc) as (rd' & ? & ? & E). exists rd'. by rewrite E.
Qed.

Lemma checked_same ep R ri ri' n :
  result ri' = result ri -> rule ri' = rule ri -> checked ep R ri n -> checked ep R ri' n.
Proof. unfold checked, input_checked. by intros -> ->. Qed.

Lemma scan_checked_mono ep R R' ri ri' q :
  completes ep R R' -> result ri' = result ri -> rule ri' = rule ri ->
  scan_checked ep R ri q -> scan_checked ep R' ri' q.
Proof.
  intros HR E1 E2 [?|[H1 H2]]; [by left|]. right. split.
  - eapply checked_same; [exact E1|exact E2|]. by eapply checked_mono.
  - by rewrite E1.
Qed.

Lemma completes_insert ep (R : Rules) k ri ri' :
  R !! k = Some ri -> keeps ep ri ri' -> completes ep R (<[k := ri']> R).
Proof.
  intros Hk Hkp j rj Hj Hc. destruct (decide (k = j)) as [<-|].
  - assert (rj = ri) as -> by congruence. exists ri'. rewrite lookup_insert_eq.
    split; [done|]. by apply (kp_complete _ _ _ Hkp).
  - exists rj. by rewrite lookup_insert_ne.
Qed.

Lemma completes_new ep (R : Rules) k ri : R !! k = None -> completes ep R (<[k := ri]> R).
Proof. intros Hk j rj Hj Hc. exists rj. rewrite lookup_insert_ne; [done|congruence]. Qed.

Section Updates.
Context {ep : Z} {R : Rules} {T : Tasks} {SQ : list RuleScanRequest}.

Lemma ScanC_rule k ri ri' :
  ScanC ep R T SQ -> R !! k = Some ri -> keeps ep ri ri' ->
  (forall q, q ∈ deferred_of ri' ->
     q ∈ deferred_of ri \/ (q ∈ SQ /\ sreq_inputRuleInfo q = Some k)) ->
  (state ri' = DoesNotNeedToRun -> checked ep R ri' (deps_size (dependencies (result ri')))) ->
  ScanC ep (<[k := ri']> R) T SQ.
Proof.
  intros HI Hk Hkp Hdef Hskip. pose proof (completes_insert ep R k ri ri' Hk Hkp) as Hm.
  constructor.
  - intros j rj Hj Hst. eapply checked_mono; [exact Hm|].
    apply lookup_insert_Some in Hj as [[<- <-]|[_ Hj]]; [auto|]. by apply (sc_skip HI j).
  - intros q Hq. destruct (sc_good HI q) as (rj & Hj & Hg).
    { destruct Hq as [Hq|[(j & rj & Hj & Hq)|Hq]]; [by left| |by do 2 right].
      apply lookup_insert_Some in Hj as [[<- <-]|[_ Hj]]; [|right; left; eauto].
      destruct (Hdef q Hq) as [?|[? _]]; [right; left; eauto|by left]. }
    destruct (decide (k = sreq_ruleInfo q)) as [E|Hne].
    + exists ri'. rewrite <- E, lookup_insert_eq. split; [done|].
      assert (rj = ri) as -> by congruence. destruct Hg as [[Hs Hc]|Hs].
      * destruct (kp_scanning _ _ _ Hkp Hs) as [(? & E1 & E2)|?]; [left|by right].
        split; [done|]. by eapply scan_checked_mono.
      * right. by apply (kp_scanned _ _ _ Hkp).
    + exists rj. rewrite lookup_insert_ne by done. split; [done|].
      destruct Hg as [[Hs Hc]|Hs]; [left|by right]. split; [done|]. by eapply scan_checked_mono.
  - intros t ti Ht. destruct (sc_task HI t ti Ht) as (rj & Hj & Hs & Hn).
    destruct (decide (k = forRuleInfo ti)) as [E|Hne].
    + exists ri'. rewrite <- E, lookup_insert_eq. assert (rj = ri) as -> by congruence.
      split; [done|]. split; [by apply (kp_scanned _ _ _ Hkp)|by apply (kp_run _ _ _ Hkp)].
    + exists rj. by rewrite lookup_insert_ne.
  - intros j rj q Hj Hq. apply lookup_insert_Some in Hj as [[<- <-]|[_ Hj]].
    + destruct (Hdef q Hq) as [?|[_ ?]]; [by eapply (sc_record HI)|done].
    + by eapply (sc_record HI).
Qed.

Lemma ScanC_add_rule k ri :
  ScanC ep R T SQ -> R !! k = None -> state ri <> DoesNotNeedToRun -> deferred_of ri = [] ->
  ScanC ep (<[k := ri]> R) T SQ.
Proof.
  intros HI Hk Hst Hd. pose proof (completes_new ep R k ri Hk) as Hm.
  assert (Hne : forall j rj, R !! j = Some rj -> <[k := ri]> R !! j = Some rj).
  { intros j rj Hj. rewrite lookup_insert_ne; [done|congruence]. }
  constructor.
  - intros j rj Hj Hs. eapply checked_mono; [exact Hm|].
    apply lookup_insert_Some in Hj as [[<- <-]|[_ Hj]]; [done|]. by apply (sc_skip HI j).
  - intros q Hq. destruct (sc_good HI q) as (rj & Hj & Hg).
    { destruct Hq as [Hq|[(j & rj & Hj & Hq)|Hq]]; [by left| |by do 2 right].
      right; left. apply lookup_insert_Some in Hj as [[<- <-]|[_ Hj]]; [|eauto].
      rewrite Hd in Hq. by apply elem_of_nil in Hq. }
    exists rj. split; [auto|]. destruct Hg as [[Hs Hc]|Hs]; [left|by right].
    split; [done|]. by eapply scan_checked_mono.
  - intros t ti Ht. destruct (sc_task HI t ti Ht) as (rj & Hj & Hs). exists rj. auto.
  - intros j rj q Hj Hq. apply lookup_insert_Some in Hj as [[<- <-]|[_ Hj]];
      [rewrite Hd in Hq; by apply elem_of_nil in Hq|by eapply (sc_record HI)].
Qed.

(** Scan requests move, and new ones are good. *)
Lemma ScanC_queue SQ' : ScanC ep R T SQ -> (forall q, q ∈ SQ' -> scan_pending R T SQ q \/ scan_good ep R q) ->
  ScanC ep R T SQ'.
Proof.
  intros HI Hq. constructor; try apply HI. intros q [Hin|Hin]; [|apply (sc_good HI); by right].
  destruct (Hq q Hin); [by apply (sc_good HI)|done].
Qed.

(** A task's record is replaced, or a new one added. *)
Lemma ScanC_tasks T' : ScanC ep R T SQ ->
  (forall t ti, T' !! t = Some ti -> exists ri, R !! forRuleInfo ti = Some ri
     /\ isScanned ep ri = true /\ state ri <> DoesNotNeedToRun) ->
  (forall t ti q, T' !! t = Some ti -> q ∈ ti_deferredScanRequests ti -> scan_pending R T SQ q) ->
  ScanC ep R T' SQ.
Proof.
  intros HI H1 H2. constructor; try apply HI; [|done].
  intros q [?|[?|(t & ti & Ht & Hq)]]; apply (sc_good HI); [by left|by right; left|].
  by apply (H2 t ti q Ht Hq).
Qed.
End Updates.

(** ** Every operation keeps the invariant *)
Section Operations.
Context {W : Type} (client : Client (W := W)).
Abbreviation State := (State (W := W)).

Lemma post_rule_at {B} k (f : RuleInfo -> M State B) s Q :
  (forall ri, ruleInfos s !! k = Some ri -> post (f ri) s Q) -> post (bind (rule_at k) f) s Q.
Proof.
  intros H. unfold rule_at, post, bind. destruct (ruleInfos s !! k) as [ri|]; [by apply H|done].
Qed.

Lemma post_task_at {B} t (f : TaskInfo -> M State B) s Q :
  (forall ti, taskInfos s !! t = Some ti -> post (f ti) s Q) -> post (bind (task_at t) f) s Q.
Proof.
  intros H. unfold task_at, post, bind. destruct (taskInfos s !! t) as [ti|]; [by apply H|done].
Qed.

Lemma post_client_call {A B} (c : W -> A * W) (f : A -> M State B) s Q :
  (forall a w, post (f a) (upd_world (fun _ => w) s) Q) -> post (bind (client_call c) f) s Q.
Proof. intros H. unfold client_call, post, bind. destruct (c (world s)). apply H. Qed.

Lemma post_call {A} (c : W -> A * W) (s : State) Q :
  (forall a w, Q a (upd_world (fun _ => w) s)) -> post (client_call c) s Q.
Proof. intros H a s'. unfold client_call. destruct (c (world s)). intros [= <- <-]. apply H. Qed.

Lemma post_lift {A B} (o : outcome A) (f : A -> M State B) s Q :
  (forall a, o = Ok a -> post (f a) s Q) -> post (bind (lift o) f) s Q.
Proof. intros H. unfold lift, post, bind. destruct o; [by apply H|done]. Qed.

Lemma post_pending_task {B} k (f : TaskID -> M State B) s Q :
  (forall t, post (f t) s Q) -> post (bind (getPendingTaskInfo k) f) s Q.
Proof.
  intros H. eapply post_bind with (Q1 := fun _ s' => s' = s); [by intros ? ? ->%pending_task_inv|].
  intros t ? ->. apply H.
Qed.

#[local] Opaque post.

Lemma ScanInv_rule g (s : State) k ri ri' :
  ScanInv g s -> ruleInfos s !! k = Some ri -> keeps (currentEpoch s) ri ri' ->
  (forall q, q ∈ deferred_of ri' -> q ∈ deferred_of ri) ->
  (state ri' = DoesNotNeedToRun ->
     checked (currentEpoch s) (ruleInfos s) ri' (deps_size (dependencies (result ri')))) ->
  ScanInv g (upd_ruleInfos (fun m => <[k := ri']> m) s).
Proof. intros HI Hk Hkp Hd Hc. eapply ScanC_rule; [exact HI|exact Hk|done| |done]. auto. Qed.

(** A rule that is neither skipped nor being scanned keeps its place. *)
Lemma keeps_state ep ri ri' :
  state ri' = state ri -> result ri' = result ri -> rule ri' = rule ri -> keeps ep ri ri'.
Proof.
  intros E1 E2 E3. constructor; unfold isScanned, isComplete; rewrite ?E1, ?E2; auto.
Qed.

Lemma keeps_run ep ri ri' :
  isScanned ep ri' = true -> state ri' <> DoesNotNeedToRun ->
  (isComplete ep ri = true -> isComplete ep ri' = true /\ computedAt (result ri') = computedAt (result ri)) ->
  keeps ep ri ri'.
Proof. intros H1 H2 H3. constructor; auto. Qed.

(** A rule seen for the first time in this epoch. *)
Lemma keeps_unscanned ep ri ri' : isScanned ep ri = false -> state ri <> IsScanning -> keeps ep ri ri'.
Proof.
  intros H1 H2. constructor; try congruence. intros H%complete_scanned. congruence.
Qed.

Lemma ScanInv_task g (s : State) t ti ti' :
  ScanInv g s -> taskInfos s !! t = Some ti -> forRuleInfo ti' = forRuleInfo ti ->
  (forall q, q ∈ ti_deferredScanRequests ti' -> q ∈ ti_deferredScanRequests ti
     \/ q ∈ g ++ ruleInfosToScan s) ->
  ScanInv g (upd_taskInfos (fun m => <[t := ti']> m) s).
Proof.
  intros HI Ht Hf Hd. eapply ScanC_tasks; [exact HI|..]; cbn.
  - intros u tu Hu. apply lookup_insert_Some in Hu as [[<- <-]|[_ Hu]];
      [rewrite Hf|]; by eapply (sc_task HI).
  - intros u tu q Hu Hq. apply lookup_insert_Some in Hu as [[<- <-]|[_ Hu]].
    + destruct (Hd q Hq) as [Hq'|?]; [|by left]. do 2 right. eauto.
    + do 2 right. eauto.
Qed.

Lemma ScanInv_push g (s : State) q :
  ScanInv (q :: g) s -> ScanInv g (upd_ruleInfosToScan (cons q) s).
Proof.
  intros HI. eapply ScanC_queue; [exact HI|]. cbn. intros q' Hq'. left. left. set_solver.
Qed.

Lemma ScanInv_hand g g' (s : State) :
  ScanInv g s -> (forall q, q ∈ g' -> scan_pending (ruleInfos s) (taskInfos s) (g ++ ruleInfosToScan s) q) ->
  ScanInv (g' ++ g) s.
Proof.
  intros HI Hg. eapply ScanC_queue; [exact HI|]. intros q Hq. left.
  rewrite <- app_assoc in Hq. apply elem_of_app in Hq as [?|?]; [auto|by left].
Qed.

Lemma ScanInv_drop g g' (s : State) : ScanInv (g' ++ g) s -> ScanInv g s.
Proof.
  intros HI. eapply ScanC_queue; [exact HI|]. intros q Hq. left. left. rewrite <- app_assoc. set_solver.
Qed.

(** Walk through straight-line code. *)
Ltac pstep :=
  first [ apply post_bind_ensure; intros ? | apply post_rule_at; intros ? ?
        | apply post_task_at; intros ? ? | apply post_client_call; intros ? ?
        | apply post_lift; intros ? ? | apply post_bind_gets | apply post_bind_get
        | apply post_bind_modify | apply post_fail | apply post_ret | apply post_modify ].

Definition keeps_scan (g : list RuleScanRequest) (m : M State unit) : Prop :=
  forall s, ScanInv g s -> post m s (fun _ => ScanInv g).

Lemma addRule_scan g k r s : ScanInv g s -> ruleInfos s !! k = None ->
  post (addRule client k r) s (fun _ => ScanInv g).
Proof.
  intros HI Hk. unfold addRule. pstep. rewrite Hk. pstep.
  assert (H1 : ScanInv g (upd_ruleInfos (fun m => <[k := mkRuleInfo r NullInfo emptyResult Incomplete false]> m) s)).
  { by eapply ScanC_add_rule. }
  destruct (db client) as [b|]; [|by pstep].
  pstep. destruct a as [found err].
  eapply post_bind with (Q1 := fun _ => ScanInv g).
  - destruct found as [res|]; [|by pstep]. pstep. pstep.
    cbn in H. rewrite lookup_insert_eq in H. simplify_eq.
    eapply ScanInv_rule; [exact H1|apply lookup_insert_eq|by apply keeps_unscanned|done|done].
  - intros [] s1 H2. case_decide; [by pstep|]. pstep. by pstep.
Qed.

Lemma getRule_scan g k : keeps_scan g (getRuleInfoForKey client k).
Proof.
  intros s HI. unfold getRuleInfoForKey. pstep. destruct (ruleInfos s !! k) eqn:Hk; [by pstep|].
  pstep. by apply addRule_scan.
Qed.

Lemma addTaskInputRequest_scan g t k i o u : keeps_scan g (addTaskInputRequest client t k i o u).
Proof.
  intros s HI. unfold addTaskInputRequest. do 3 pstep.
  eapply post_bind; [by apply getRule_scan|]. intros [] s1 HS. do 3 pstep.
  eapply ScanInv_task; [exact HS|eassumption|done|auto].
Qed.

Lemma taskCall_scan g t c : keeps_scan g (taskCall client t c).
Proof.
  intros s HI. destruct c; cbn [taskCall];
    unfold taskNeedsInput, taskNeedsSingleUseInput, taskMustFollow, reserved_input_id.
  1,2: case_match; [pstep; by pstep|by apply addTaskInputRequest_scan].
  - by apply addTaskInputRequest_scan.
  - unfold taskDiscoveredDependency. do 2 pstep. case_match; pstep; [|by pstep].
    eapply ScanInv_task; [exact HI|eassumption|done|auto].
  - unfold taskIsComplete. do 2 pstep. destruct (isInProgressComputing ri) eqn:Hc; cbn [negb].
    2:{ pstep. by pstep. }
    apply bool_decide_eq_true in Hc.
    apply post_pending_task. intros t'. do 4 pstep.
    eapply (ScanInv_rule g s); [exact HI|eassumption|..].
    + apply keeps_run; [by unfold isScanned; cbn; rewrite Hc|cbn; congruence|].
      unfold isComplete. by rewrite Hc.
    + done.
    + cbn. congruence.
Qed.

Lemma callback_scan g t f : keeps_scan g (task_callback client t f).
Proof.
  intros s HI. unfold task_callback. pstep. apply post_mapM_; [exact HI|].
  intros c s1 _ H1. by apply taskCall_scan.
Qed.

(** *** Scanning *)

(** Look up the rule that was just written. *)
Ltac look :=
  repeat match goal with
    | H : ruleInfos _ !! _ = Some _ |- _ => progress cbn in H
    | H : <[_ := _]> _ !! _ = Some _ |- _ => rewrite lookup_insert_eq in H; simplify_eq
    end.

Lemma determined_scan g k reason i (s : State) : ScanInv g s ->
  post (determined client k reason i) s (fun _ s' => ScanInv g s' /\ exists w, s' = upd_world w s).
Proof.
  intros HI. unfold determined. pstep.
  eapply post_bind with (Q1 := fun _ s' => s' = s); [destruct i as [k'|]; [pstep|]; by pstep|].
  intros inp ? ->. pstep. split; [exact HI|eauto].
Qed.

(** The rule of [k], not yet scanned, gets its first verdict. *)
Lemma first_verdict g (s : State) k ri rx :
  ScanInv g s -> ruleInfos s !! k = Some ri -> isScanned (currentEpoch s) ri = false ->
  state ri <> IsScanning -> deferred_of rx = [] \/ deferred_of rx = deferred_of ri ->
  (state rx = DoesNotNeedToRun -> checked (currentEpoch s) (ruleInfos s) rx (deps_size (dependencies (result rx)))) ->
  ScanC (currentEpoch s) (<[k := rx]> (ruleInfos s)) (taskInfos s) (g ++ ruleInfosToScan s).
Proof.
  intros HI Hk Hs Hn Hd Hc. eapply ScanC_rule; [exact HI|exact Hk|by apply keeps_unscanned| |done].
  intros q Hq. destruct Hd as [Hd|Hd]; rewrite Hd in Hq; [by apply elem_of_nil in Hq|by left].
Qed.

Lemma first_scan g (s : State) k ri rx q :
  ScanInv g s -> ruleInfos s !! k = Some ri -> isScanned (currentEpoch s) ri = false ->
  state ri <> IsScanning -> deferred_of rx = [] -> state rx = IsScanning ->
  sreq_ruleInfo q = k -> sreq_inputIndex q = 0%nat -> sreq_inputRuleInfo q = None ->
  (sreq_needsToRun q = true \/ builtAt (result rx) <> 0%Z /\ rule_signature (rule rx) = signature (result rx)) ->
  ScanC (currentEpoch s) (<[k := rx]> (ruleInfos s)) (taskInfos s) (g ++ q :: ruleInfosToScan s).
Proof.
  intros HI Hk Hs Hn Hd Hst Hqk Hq0 Hqi Hc.
  assert (H1 : ScanC (currentEpoch s) (<[k := rx]> (ruleInfos s)) (taskInfos s) (g ++ ruleInfosToScan s)).
  { eapply first_verdict; [done|exact Hk|done|done|by left|congruence]. }
  eapply ScanC_queue; [exact H1|]. intros q' Hq'.
  assert (q' = q \/ q' ∈ g ++ ruleInfosToScan s) as [->|?] by set_solver; [|by left; left].
  right. exists rx. rewrite Hqk, lookup_insert_eq. split; [done|]. left. split; [done|].
  destruct Hc as [?|[? ?]]; [by left|]. right. rewrite Hq0, Hqi. split; [|done].
  split; [done|]. split; [done|]. intros; lia.
Qed.

(** [s'] is [s] with the record of rule [k] replaced by [rx]. *)
Record wrote (k : KeyID) (rx : RuleInfo) (s s' : State) : Prop := {
  wr_epoch : currentEpoch s' = currentEpoch s;
  wr_tasks : taskInfos s' = taskInfos s;
  wr_scan : ruleInfosToScan s' = ruleInfosToScan s;
  wr_rules : ruleInfos s' = <[k := rx]> (ruleInfos s) }.

Lemma wrote_again k rx ry s s' :
  wrote k rx s s' -> wrote k ry s (upd_ruleInfos (fun m => <[k := ry]> m) s').
Proof. intros []. constructor; cbn; try done. rewrite wr_rules0. apply insert_insert_eq. Qed.

Lemma wrote_world k rx s s' w : wrote k rx s s' -> wrote k rx s (upd_world w s').
Proof. by intros []. Qed.

Lemma wrote_lookup k rx s s' ri : wrote k rx s s' -> ruleInfos s' !! k = Some ri -> ri = rx.
Proof. intros []. rewrite wr_rules0, lookup_insert_eq. congruence. Qed.

Section Verdicts.
Context (g : list RuleScanRequest) (s : State) (k : KeyID) (r0 : RuleInfo).
Hypothesis HI : ScanInv g s.
Hypothesis Hk : ruleInfos s !! k = Some r0.
Hypothesis Hs : isScanned (currentEpoch s) r0 = false.
Hypothesis Hn : state r0 <> IsScanning.

Lemma wrote_verdict rx s' : wrote k rx s s' -> deferred_of rx = deferred_of r0 ->
  (state rx = DoesNotNeedToRun -> checked (currentEpoch s) (ruleInfos s) rx (deps_size (dependencies (result rx)))) ->
  ScanInv g s'.
Proof.
  intros [E1 E2 E3 E4] Hd Hc. unfold ScanInv. rewrite E1, E2, E3, E4.
  eapply first_verdict; [done|exact Hk|done|done|by right|done].
Qed.

Lemma start_scan rx s' needs : wrote k rx s s' ->
  (needs = true \/ builtAt (result rx) <> 0%Z /\ rule_signature (rule rx) = signature (result rx)) ->
  post (start_scanning k needs) s' (fun _ => ScanInv g).
Proof.
  intros Hw Hc. unfold start_scanning. pstep. apply (wrote_lookup _ _ _ _ _ Hw) in H as ->.
  unfold write_rule, push_scan. apply post_bind_modify, post_modify.
  destruct (wrote_again k rx (with_info (PendingScanRecord emptyScanRecord) (with_state IsScanning rx)) s s' Hw)
    as [E1 E2 E3 E4].
  unfold ScanInv. cbn [currentEpoch ruleInfos taskInfos ruleInfosToScan upd_ruleInfosToScan].
  rewrite E1, E2, E3, E4. eapply first_scan; [exact HI|exact Hk|done..].
Qed.

Lemma needs_verdict rx s' reason : wrote k rx s s' -> deferred_of rx = deferred_of r0 ->
  post (set_state k NeedsToRun ;;; determined client k reason None) s'
    (fun _ s2 => ScanInv g s2 /\ wrote k (with_state NeedsToRun rx) s s2).
Proof.
  intros Hw Hd. unfold set_state. apply post_assoc.
  pstep. apply (wrote_lookup _ _ _ _ _ Hw) in H as ->. pstep.
  pose proof (wrote_again k rx (with_state NeedsToRun rx) s s' Hw) as Hw2.
  eapply post_mono; [apply determined_scan|].
  - eapply wrote_verdict; [exact Hw2|exact Hd|done].
  - intros _ s2 [? [w ->]]. split; [done|]. by apply wrote_world.
Qed.

Lemma checks_verdict rx s' : wrote k rx s s' -> ScanInv g s' ->
  post (b <~ scheduleChecksBeforeRunning client k; ret (negb b)) s' (fun _ => ScanInv g).
Proof.
  intros Hw HI'. eapply post_bind with (Q1 := fun _ => ScanInv g); [|intros; by pstep].
  unfold scheduleChecksBeforeRunning. do 2 pstep. case_match; [by pstep|].
  eapply post_bind; [eapply start_scan; [exact Hw|by left]|]. intros; by pstep.
Qed.
End Verdicts.

Lemma scanRule_scan g k (s : State) : ScanInv g s -> post (scanRule client k) s (fun _ => ScanInv g).
Proof.
  intros HI. unfold scanRule. do 2 pstep. rename ri into r0, H into Hk.
  destruct (isScanned (currentEpoch s) r0) eqn:Hs; [by pstep|].
  destruct (isScanning r0) eqn:Hn; [by pstep|]. apply bool_decide_eq_false in Hn.
  pstep. do 3 pstep. look.
  set (r1 := with_forced false (with_result (with_dependencies a (result r0)) r0)). pstep.
  match goal with |- post _ ?s' _ => set (s1 := s') end.
  assert (Hw : wrote k r1 s s1).
  { constructor; try done. cbn. by rewrite insert_insert_eq. }
  assert (Hd : deferred_of r1 = deferred_of r0) by done.
  assert (Hchecks : forall reason s', wrote k r1 s s' -> post (set_state k NeedsToRun ;;;
      determined client k reason None ;;;
      (b <~ scheduleChecksBeforeRunning client k; ret (negb b))) s' (fun _ => ScanInv g)).
  { intros reason s' Hw'. apply post_unassoc.
    eapply post_bind; [exact (needs_verdict g s k r0 HI Hk Hs Hn r1 s' reason Hw' Hd)|].
    intros [] s2 [H2 Hw2]. exact (checks_verdict g s k r0 HI Hk Hs Hn _ s2 Hw2 H2). }
  destruct (builtAt _ =? 0)%Z eqn:Hb.
  { apply post_unassoc. eapply post_bind; [exact (needs_verdict g s k r0 HI Hk Hs Hn r1 s1 _ Hw Hd)|].
    intros [] s2 [H2 _]. by pstep. }
  destruct (rule_signature _ =? _)%Z eqn:Hsig; cbn [negb]; [|by apply Hchecks].
  apply Z.eqb_neq in Hb. apply Z.eqb_eq in Hsig. pstep. pose proof (wrote_world _ _ _ _ (fun _ => w) Hw) as Hw1.
  destruct a0; cbn [negb]; [|by apply Hchecks].
  destruct (deps_empty _) eqn:He; cbn in He.
  - apply post_assoc. pstep. apply (wrote_lookup _ _ _ _ _ Hw1) in H0 as ->. do 2 pstep.
    eapply (wrote_verdict g s k r0 HI Hk Hs Hn (with_state DoesNotNeedToRun r1)); [by eapply wrote_again|done|].
    intros _. split; [done|]. split; [done|]. intros j dp Hj. cbn in Hj.
    rewrite deps_empty_size in He. apply Nat.eqb_eq in He. lia.
  - eapply post_bind with (Q1 := fun _ => ScanInv g); [|intros; by pstep]. eapply (start_scan g s k r0 HI Hk Hs Hn); [exact Hw1|by right].
Qed.

(** *** Demanding a rule *)

Lemma setComplete_scan g k (s : State) ri : ScanInv g s -> ruleInfos s !! k = Some ri ->
  post (setComplete client k) s (fun _ s' => ScanInv g s' /\ exists rx, ruleInfos s' !! k = Some rx
    /\ isComplete (currentEpoch s') rx = true).
Proof.
  intros HI Hk. unfold setComplete. pstep. assert (ri0 = ri) as -> by congruence. do 3 pstep.
  assert (Hc : forall r, builtAt r = currentEpoch s ->
    isComplete (currentEpoch s) (with_state Complete (with_result r ri)) = true).
  { intros r E. unfold isComplete. cbn. rewrite E, Z.eqb_refl. done. }
  split.
  - eapply ScanInv_rule; [exact HI|exact Hk| |done|done].
    apply keeps_run; [by apply complete_scanned, Hc|done|]. intros _. split; [by apply Hc|done].
  - cbn. rewrite lookup_insert_eq. eexists. split; [done|]. by apply Hc.
Qed.

Lemma demandRule_scan g k (s : State) : ScanInv g s ->
  post (demandRule client k) s (fun b s' => ScanInv g s' /\
    (b = true -> exists rx, ruleInfos s' !! k = Some rx /\ isComplete (currentEpoch s') rx = true)).
Proof.
  intros HI. unfold demandRule. do 3 pstep. rename H into Hk, H0 into Hs.
  destruct (isComplete _ ri) eqn:Hc; [pstep; eauto|].
  destruct (isInProgress ri) eqn:Hp; [by pstep|].
  case_bool_decide as Hst.
  { eapply post_bind; [by eapply setComplete_scan|]. intros [] s1 [H1 H2]. pstep. pstep. auto. }
  pstep. do 5 pstep. apply bool_decide_eq_true in H.
  match goal with |- post _ ?s' _ => set (s1 := s') end.
  assert (H1 : ScanInv g s1).
  { unfold s1. eapply (ScanC_rule k ri); cbn.
    - eapply ScanC_tasks; [exact HI|..].
      + intros u tu Hu. apply lookup_insert_Some in Hu as [[<- <-]|[_ Hu]]; [eauto|by eapply (sc_task HI)].
      + intros u tu q Hu Hq. apply lookup_insert_Some in Hu as [[<- <-]|[_ Hu]]; [by apply elem_of_nil in Hq|].
        do 2 right. eauto.
    - exact Hk.
    - apply keeps_run; [done|done|]. intros E. congruence.
    - intros q Hq. by apply elem_of_nil in Hq.
    - done. }
  eapply post_bind; [by apply callback_scan|]. intros [] s2 H2. pstep.
  eapply post_bind with (Q1 := fun _ => ScanInv g); [case_match; [by apply callback_scan|by pstep]|].
  intros [] s3 H3. pstep.
  eapply post_bind with (Q1 := fun _ => ScanInv g); [case_match; by pstep|]. intros [] s4 HS4. by pstep.
Qed.

(** *** The scan loop *)

Lemma post_record {B} k (f : RuleScanRecord -> M State B) s Q :
  (forall ri r, ruleInfos s !! k = Some ri -> state ri = IsScanning ->
     inProgressInfo ri = PendingScanRecord r -> post (f r) s Q) ->
  post (bind (getPendingScanRecord k) f) s Q.
Proof.
  intros H. unfold getPendingScanRecord. apply post_assoc. pstep. apply post_assoc. pstep.
  apply bool_decide_eq_true in H1. destruct (inProgressInfo ri) eqn:E; try apply post_bind_fail.
  apply post_bind with (Q1 := fun a s' => a = r /\ s' = s); [by pstep|]. intros a s' [-> ->]. by eapply H.
Qed.

Lemma push_scans_scan g l (s : State) : ScanInv (l ++ g) s ->
  post (mapM_ push_scan l) s (fun _ s' => ScanInv g s' /\ ruleInfos s' = ruleInfos s
    /\ currentEpoch s' = currentEpoch s).
Proof.
  revert s. induction l as [|q l IH]; intros s HI; cbn [mapM_]; [by pstep|]. pstep.
  eapply post_mono; [apply IH; by apply ScanInv_push|]. by intros ? ? (? & ? & ?).
Qed.

Lemma push_inputs_scan g l (s : State) : ScanInv g s ->
  post (mapM_ push_input l) s (fun _ s' => ScanInv g s' /\ ruleInfos s' = ruleInfos s
    /\ currentEpoch s' = currentEpoch s).
Proof.
  revert s. induction l as [|q l IH]; intros s HI; cbn [mapM_]; [by pstep|]. pstep.
  eapply post_mono; [by apply IH|]. by intros ? ? (? & ? & ?).
Qed.

Lemma finishScan_scan g k st (s : State) : ScanInv g s ->
  st = NeedsToRun \/ (st = DoesNotNeedToRun /\ forall ri, ruleInfos s !! k = Some ri ->
     state ri = IsScanning ->
     checked (currentEpoch s) (ruleInfos s) ri (deps_size (dependencies (result ri)))) ->
  post (finishScanRequest k st) s (fun _ => ScanInv g).
Proof.
  intros HI Hst. unfold finishScanRequest. do 2 pstep. apply post_record. intros ri' r Hk Hs Hr.
  assert (ri' = ri) as -> by congruence.
  eapply post_bind; [apply push_scans_scan, ScanInv_hand; [exact HI|]|].
  { intros q Hq. right; left. exists k, ri. split; [done|]. unfold deferred_of. by rewrite Hr. }
  intros [] s1 (H1 & E1 & Ee1). eapply post_bind; [by apply push_inputs_scan|].
  intros [] s2 (H2 & E2 & Ee2). do 2 pstep. rewrite E2, E1, Hk in H3. injection H3 as <-.
  eapply ScanInv_rule; [exact H2|by rewrite E2, E1| | |].
  - constructor; cbn.
    + unfold isComplete. by rewrite Hs.
    + intros _. right. by destruct Hst as [->|[-> _]].
    + intros E%scanned_not_scanning. done.
    + intros E%scanned_not_scanning. done.
  - intros q Hq. by apply elem_of_nil in Hq.
  - cbn. intros ->. destruct Hst as [?|[_ Hc]]; [done|]. rewrite Ee2, Ee1, E2, E1.
    eapply (checked_same _ _ ri); [done|done|auto].
Qed.

(** The request in hand joins a scan record, or a task. *)
Lemma defer_scan_scan g k q (s : State) : ScanInv (q :: g) s -> sreq_inputRuleInfo q = Some k ->
  post (defer_on_scan k q) s (fun _ => ScanInv g).
Proof.
  intros HI Hq. unfold defer_on_scan. apply post_record. intros ri r Hk Hs Hr. do 2 pstep.
  assert (ri0 = ri) as -> by congruence. apply (ScanInv_drop g [q]).
  eapply (ScanC_rule k ri); [exact HI|exact Hk|by apply keeps_state| |cbn; congruence].
  intros q' Hq'. cbn in Hq'. unfold deferred_of. rewrite Hr.
  apply elem_of_app in Hq' as [?|Hq']; [by left|]. apply list_elem_of_singleton in Hq' as ->.
  right. split; [left|done].
Qed.

Lemma defer_task_scan g k q (s : State) : ScanInv (q :: g) s ->
  post (defer_on_task k q) s (fun _ => ScanInv g).
Proof.
  intros HI. unfold defer_on_task. apply post_pending_task. intros t. do 2 pstep.
  apply (ScanInv_drop g [q]). eapply ScanInv_task; [exact HI|eassumption|done|].
  cbn. intros q' Hq'. apply elem_of_app in Hq' as [?|Hq']; [by left|].
  apply list_elem_of_singleton in Hq' as ->. right. left.
Qed.

(** What is known of the request in hand. *)
Lemma in_hand g q (s : State) : ScanInv (q :: g) s -> scan_good (currentEpoch s) (ruleInfos s) q.
Proof. intros HI. apply (sc_good HI). left. left. Qed.

Lemma ScanInv_replace g q q' (s : State) :
  ScanInv (q :: g) s -> scan_good (currentEpoch s) (ruleInfos s) q' -> ScanInv (q' :: g) s.
Proof.
  intros HI Hg. eapply ScanC_queue; [exact HI|]. intros p Hp.
  assert (p = q' \/ p ∈ (q :: g) ++ ruleInfosToScan s) as [->|?] by set_solver; [by right|by left; left].
Qed.

(** The next dependency is looked at once the current one is checked. *)
Lemma advance_good (s : State) q q' ri :
  ruleInfos s !! sreq_ruleInfo q = Some ri -> scan_good (currentEpoch s) (ruleInfos s) q ->
  sreq_ruleInfo q' = sreq_ruleInfo q -> sreq_inputIndex q' = S (sreq_inputIndex q) ->
  sreq_inputRuleInfo q' = None ->
  (sreq_needsToRun q' = false -> sreq_needsToRun q = false /\
     forall dp, deps_get (dependencies (result ri)) (sreq_inputIndex q) = Ok dp ->
       scan_checked (currentEpoch s) (ruleInfos s) ri q ->
       input_checked (currentEpoch s) (ruleInfos s) ri dp) ->
  scan_good (currentEpoch s) (ruleInfos s) q'.
Proof.
  intros Hk (ri' & Hk' & Hg) E1 E2 E3 Hn. assert (ri' = ri) as -> by congruence.
  exists ri. rewrite E1. split; [done|]. destruct Hg as [[Hs Hc]|?]; [left|by right]. split; [done|].
  destruct (sreq_needsToRun q') eqn:Hq'; [by left|]. right. rewrite E2, E3. split; [|done].
  destruct (Hn eq_refl) as [Hq Hnext]. destruct Hc as [?|[(Hb & Hsg & Hd) Hi]]; [congruence|].
  split; [done|]. split; [done|]. intros j dp Hj Hdp.
  assert (j < sreq_inputIndex q \/ j = sreq_inputIndex q)%nat as [?| ->] by lia; [by eapply Hd|].
  apply Hnext; [done|]. right. done.
Qed.

Lemma next_scan g fuel (s : State) q :
  (forall s, ScanInv (q :: g) s -> post (scan_loop client fuel q) s (fun _ => ScanInv g)) ->
  ScanInv (q :: g) s ->
  post (ri <~ rule_at (sreq_ruleInfo q);
        if (sreq_inputIndex q =? deps_size (dependencies (result ri)))%nat
        then if sreq_needsToRun q then finishScanRequest (sreq_ruleInfo q) NeedsToRun
             else finishScanRequest (sreq_ruleInfo q) DoesNotNeedToRun
        else scan_loop client fuel q) s (fun _ => ScanInv g).
Proof.
  intros IH HI. pstep. destruct (Nat.eqb_spec (sreq_inputIndex q) (deps_size (dependencies (result ri)))) as [E|_];
    [|by apply IH].
  pose proof (ScanInv_drop g [q] s HI) as HI'.
  destruct (sreq_needsToRun q) eqn:Hq; apply finishScan_scan; auto. right. split; [done|].
  intros ri' Hk Hs. assert (ri' = ri) as -> by congruence.
  destruct (in_hand g q s HI) as (rj & Hj & [[_ Hc]|Hc%scanned_not_scanning]);
    assert (rj = ri) as -> by congruence; [|done].
  destruct Hc as [?|[Hc _]]; [congruence|]. by rewrite <- E.
Qed.

(** One dependency of the rule being scanned is visited. *)
Lemma visit_scan g fuel (s : State) q input :
  (forall q s, ScanInv (q :: g) s -> post (scan_loop client fuel q) s (fun _ => ScanInv g)) ->
  ScanInv (q :: g) s -> sreq_inputRuleInfo q = Some input ->
  let k := sreq_ruleInfo q in
  let next q' :=
    ri <~ rule_at k;
    if (sreq_inputIndex q' =? deps_size (dependencies (result ri)))%nat
    then if sreq_needsToRun q' then finishScanRequest k NeedsToRun
         else finishScanRequest k DoesNotNeedToRun
    else scan_loop client fuel q' in
  post (isScanned <~ scanRule client input;
        if negb isScanned then defer_on_scan input q
        else
          isAvailable <~ demandRule client input;
          if negb isAvailable then defer_on_task input q
          else
            ri <~ rule_at k;
            inp <~ rule_at input;
            let advance b := next (mkScanRequest k (S (sreq_inputIndex q)) None false false b) in
            if sreq_orderOnly q || sreq_needsToRun q then advance (sreq_needsToRun q)
            else if (builtAt (result ri) <? computedAt (result inp))%Z
            then if negb (checksDependenciesBeforeRunning client (rule ri))
                 then finishScanRequest k NeedsToRun ;;; determined client k InputRebuilt (Some input)
                 else determined client k InputRebuilt (Some input) ;;; advance true
            else advance (sreq_needsToRun q)) s (fun _ => ScanInv g).
Proof.
  intros IH HI Hin k next. eapply post_bind; [by apply scanRule_scan|]. intros sc s1 H1. cbn beta in H1.
  destruct sc; cbn [negb]; [|by apply defer_scan_scan].
  eapply post_bind; [by apply demandRule_scan|]. intros av s2 [H2 Hav].
  destruct av; cbn [negb]; [|by apply defer_task_scan]. destruct (Hav eq_refl) as (rx & Hrx & Hcx).
  pstep. rename H into Hk. pstep. assert (ri0 = rx) as -> by congruence.
  assert (Hadv : forall b, (b = false -> sreq_needsToRun q = false /\
     (sreq_orderOnly q = true \/ (computedAt (result rx) <= builtAt (result ri))%Z)) ->
     forall s', ScanInv (q :: g) s' -> currentEpoch s' = currentEpoch s2 -> ruleInfos s' = ruleInfos s2 ->
     post (next (mkScanRequest k (S (sreq_inputIndex q)) None false false b)) s' (fun _ => ScanInv g)).
  { intros b Hb s' HI' Ee Er. apply (next_scan g fuel s' (mkScanRequest k (S (sreq_inputIndex q)) None false false b));
      [apply IH|]. eapply ScanInv_replace; [exact HI'|]. rewrite Ee, Er. apply (advance_good s2 q _ ri Hk (in_hand _ _ _ H2)); try done.
    cbn. intros ->. destruct (Hb eq_refl) as [Hn Ho]. split; [done|].
      intros dp Hdp [?|[_ Hc]]; [congruence|]. destruct (Hc input Hin) as (dp' & Hdp' & Hkey & Hoo).
    assert (dp' = dp) as -> by congruence. destruct Ho as [Ho|Ho]; [left; congruence|].
    right. exists rx. by rewrite Hkey. }
  cbv zeta. destruct (sreq_orderOnly q || sreq_needsToRun q) eqn:Ho.
  { apply Hadv; try done. intros E. split; [done|]. rewrite E, orb_false_r in Ho. by left. }
  apply orb_false_iff in Ho as [Ho Hn].
  destruct (Z.ltb_spec (builtAt (result ri)) (computedAt (result rx))) as [Hlt|Hge].
  - destruct (negb _).
    + eapply post_bind; [apply finishScan_scan; [by apply (ScanInv_drop g [q])|by left]|].
      intros [] s3 H3. eapply post_mono; [by apply determined_scan|]. by intros ? ? [? _].
    + eapply post_bind; [by apply determined_scan|]. intros [] s3 [H3 [w ->]]. by apply Hadv.
  - apply Hadv; try done. intros _. split; [done|]. right. lia.
Qed.

Lemma scan_loop_scan g fuel : forall q s,
  ScanInv (q :: g) s -> post (scan_loop client fuel q) s (fun _ => ScanInv g).
Proof.
  induction fuel as [|fuel IH]; intros q s HI; cbn [scan_loop]; [apply post_fail|].
  destruct (sreq_inputRuleInfo q) as [input|] eqn:Hin; [exact (visit_scan g fuel s q input IH HI Hin)|].
  pstep. pstep. rename H into Hk, H0 into Hdep.
  eapply post_bind with (Q1 := fun b s' => ScanInv (q :: g) s' /\ ruleInfos s' = ruleInfos s
     /\ currentEpoch s' = currentEpoch s /\ (b = true -> sreq_needsToRun q = true)).
  { destruct (sreq_needsToRun q); [pstep|]; by pstep. }
  intros skip s1 (H1 & Er & Ee & Hskip). destruct skip.
  - apply (next_scan g fuel s1 (mkScanRequest (sreq_ruleInfo q) (S (sreq_inputIndex q)) None
      (sreq_orderOnly q) (sreq_singleUse q) (sreq_needsToRun q))); [apply IH|].
    eapply ScanInv_replace; [exact H1|].
    apply (advance_good s1 q _ ri); [by rewrite Er|by eapply in_hand|done..|].
    cbn. rewrite (Hskip eq_refl). done.
  - set (q' := mkScanRequest (sreq_ruleInfo q) (sreq_inputIndex q) (Some (dep_key a))
      (dep_orderOnly a) (dep_singleUse a) (sreq_needsToRun q)).
    assert (H2 : ScanInv (q' :: g) s1).
    { eapply ScanInv_replace; [exact H1|]. destruct (in_hand _ _ _ H1) as (rj & Hj & Hg).
      exists rj. split; [done|]. rewrite Er in Hj. assert (rj = ri) as -> by congruence.
      destruct Hg as [[Hs [Hc|[Hc _]]]|?]; [left|left|by right]; (split; [done|]); [by left|].
      right. split; [done|]. intros i [= <-]. eauto. }
    eapply post_bind; [by apply getRule_scan|]. intros [] s2 H3.
    exact (visit_scan g fuel s2 q' (dep_key a) IH H3 eq_refl).
Qed.

Lemma processRuleScanRequest_scan q (s : State) : ScanInv [q] s ->
  post (processRuleScanRequest client q) s (fun _ => ScanInv []).
Proof.
  intros HI. unfold processRuleScanRequest. do 2 pstep. case_match.
  - pstep. by apply (ScanInv_drop [] [q]).
  - by apply scan_loop_scan.
Qed.

(** *** The engine's queues *)

Lemma processInputRequest_scan r : keeps_scan [] (processInputRequest client r).
Proof.
  intros s HI. unfold processInputRequest. eapply post_bind; [by apply scanRule_scan|].
  intros sc s1 H1. cbn beta in H1. destruct sc; cbn [negb].
  2:{ apply post_record. intros ri rec Hk Hs Hr. do 2 pstep. assert (ri0 = ri) as -> by congruence.
      eapply ScanInv_rule; [exact H1|exact Hk|by apply keeps_state| |cbn; congruence].
      cbn. unfold deferred_of. by rewrite Hr. }
  eapply post_bind; [by apply demandRule_scan|]. intros av s2 [H2 _].
  destruct (ireq_taskInfo r) as [t|]; [|by pstep]. pstep. rename H into Ht. pstep. rename H into Hk. pstep.
  destruct (sc_task H2 t ti Ht) as (rj & Hj & Hsc & Hnd). assert (rj = ri) as -> by congruence.
  assert (H3 : forall dd, ScanInv [] (upd_ruleInfos (fun m => <[forRuleInfo ti :=
            with_result (with_dependencies dd (result ri)) ri]> m) s2)).
  { intros dd. eapply ScanInv_rule; [exact H2|exact Hk| |done|done]. by apply keeps_run. }
  destruct av; [pstep; apply H3|]. apply post_pending_task. intros t'. do 2 pstep.
  eapply ScanInv_task; [apply H3|eassumption|done|auto].
Qed.

Lemma decrement_scan t : keeps_scan [] (decrementTaskWaitCount t).
Proof.
  intros s HI. unfold decrementTaskWaitCount. pstep. destruct (waitCount ti); [apply post_fail|]. pstep.
  assert (H1 : ScanInv [] (upd_taskInfos (fun m => <[t := with_waitCount n ti]> m) s)).
  { eapply ScanInv_task; [exact HI|eassumption|done|auto]. }
  case_match; by pstep.
Qed.

Lemma post_of_option {A B} e (o : option A) (f : A -> M State B) s Q :
  (forall a, o = Some a -> post (f a) s Q) -> post (bind (of_option e o) f) s Q.
Proof.
  intros H. destruct o as [a|]; cbn [of_option]; [|apply post_bind_fail].
  apply post_bind with (Q1 := fun b s' => b = a /\ s' = s); [by pstep|]. intros ? ? [-> ->]. auto.
Qed.

Lemma processFinishedInput_scan r : keeps_scan [] (processFinishedInput client r).
Proof.
  intros s HI. unfold processFinishedInput. do 3 pstep. apply post_of_option. intros t _. pstep.
  eapply post_bind with (Q1 := fun _ => ScanInv []).
  - case_match; [|by apply callback_scan]. unfold ensure. case_match; [by pstep|apply post_fail].
  - intros [] s1 H1'. by apply decrement_scan.
Qed.

Lemma processReadyTask_scan t : keeps_scan [] (processReadyTask client t).
Proof.
  intros s HI. unfold processReadyTask. pstep. apply post_pending_task. intros t'. pstep.
  eapply post_bind with (Q1 := fun _ => ScanInv []).
  { unfold setComputing. do 4 pstep. apply bool_decide_eq_true in H2.
    eapply ScanInv_rule; [exact HI|eassumption| |done|done].
    apply keeps_run; [done|done|]. unfold isComplete. by rewrite H2. }
  intros [] s1 HS1. eapply post_bind; [by apply callback_scan|]. intros [] s2 HS2. by pstep.
Qed.

Lemma push_discovered_scan g dp : keeps_scan g (push_discovered client dp).
Proof.
  intros s HI. unfold push_discovered. eapply post_bind; [by apply getRule_scan|]. intros [] s1 H1. by pstep.
Qed.

Lemma outstanding_scan g : keeps_scan g decrement_outstanding.
Proof. intros s HI. unfold decrement_outstanding. pstep. case_match; [apply post_fail|by pstep]. Qed.

Lemma processFinishedTask_scan t (s : State) : ScanInv [] s ->
  post (processFinishedTask client t) s (fun _ => ScanInv []).
Proof.
  intros HI. unfold processFinishedTask. pstep. rename H into Ht.
  apply post_pending_task. intros t'. pstep. pstep. rename H0 into Hk. pstep.
  apply bool_decide_eq_true in H0. set (g := ti_deferredScanRequests ti).
  assert (Hg : ScanInv (g ++ []) s).
  { apply ScanInv_hand; [exact HI|]. intros q Hq. do 2 right. eauto. }
  rewrite app_nil_r in Hg. pstep.
  assert (H1 : ScanInv g (upd_ruleInfos (fun m => <[forRuleInfo ti := with_info NullInfo ri]> m) s)).
  { eapply ScanInv_rule; [exact Hg|exact Hk|by apply keeps_state| |cbn; congruence].
    intros q Hq. by apply elem_of_nil in Hq. }
  eapply post_bind; [eapply setComplete_scan; [exact H1|apply lookup_insert_eq]|].
  intros [] s1 [H2 (rx & Hrx & Hcx)]. pstep. pstep. assert (ri0 = rx) as -> by (cbn in *; congruence). pstep.
  eapply post_bind with (Q1 := fun _ => ScanInv g).
  { apply post_mapM_; [|intros dp s2 _ HS2; by apply push_discovered_scan].
    eapply ScanInv_rule; [exact H2|exact Hrx| |done|].
    - apply keeps_run; [by apply complete_scanned|by intros E; unfold isComplete in Hcx; cbn in E; rewrite E in Hcx|done].
    - cbn. intros E. unfold isComplete in Hcx. by rewrite E in Hcx. }
  intros [] s2 HS3. pstep.
  eapply post_bind with (Q1 := fun _ => ScanInv g).
  { destruct (db client); [|by pstep]. by apply post_call. }
  intros err s4 HS4. cbn beta in HS4. destruct err as [e|].
  - pstep. eapply post_bind; [by apply (outstanding_scan g)|]. intros [] s5 H5. pstep.
    apply (ScanInv_drop [] g). by rewrite app_nil_r.
  - eapply post_bind; [apply push_scans_scan; by rewrite app_nil_r|]. intros [] s5 (H5 & _). pstep.
    eapply post_bind; [by apply (outstanding_scan [])|]. intros [] s6 H6. pstep. pstep.
    eapply ScanC_tasks; [exact H6|..]; cbn.
    + intros u tu [_ Hu]%lookup_delete_Some. by apply (sc_task H6 u).
    + intros u tu q [_ Hu]%lookup_delete_Some Hq. do 2 right. eauto.
Qed.

(** *** Cycles *)

Lemma ScanInv_sub (s : State) f : (forall q, q ∈ f (ruleInfosToScan s) -> q ∈ ruleInfosToScan s) ->
  ScanInv [] s -> ScanInv [] (upd_ruleInfosToScan f s).
Proof. intros Hf HI. eapply ScanC_queue; [exact HI|]. intros q Hq. left. left. by apply Hf. Qed.

Lemma keeps_forced ep ri b : keeps ep ri (with_forced b ri).
Proof. by apply keeps_state. Qed.

Lemma break_loop_scan cycle rest (s : State) : ScanInv [] s ->
  post (break_loop client cycle rest) s (fun _ => ScanInv []).
Proof.
  revert s. induction rest as [|k0 rest IH]; intros s HI; cbn [break_loop]; [by pstep|]. pstep.
  eapply post_bind; [by apply getRule_scan|]. intros [] s1 HS1. pstep.
  destruct (isScanning ri0) eqn:Hsc.
  { pstep. destruct a; cbn [negb]; [|by pstep]. pstep.
    eapply post_bind; [apply finishScan_scan; [|by left]|].
    { apply (ScanInv_sub (upd_world (fun _ => w) s1)); [intros q; apply erase_scan_sub|exact HS1]. }
    intros [] s2 HS2. eapply post_bind; [by apply determined_scan|]. intros [] s3 [HS3 _]. do 3 pstep.
    eapply ScanInv_rule; [exact HS3|eassumption|by apply keeps_state|done|].
    cbn. intros Hst. eapply (checked_same _ _ ri1); [done|done|].
    match goal with Hk : ruleInfos s3 !! _ = Some ri1 |- _ => exact (sc_skip HS3 _ ri1 Hk Hst) end. }
  destruct (_ && _); [|by apply IH]. apply post_pending_task. intros t. apply post_of_option. intros n0 _.
  pstep. eapply post_bind; [by apply getRule_scan|]. intros [] s2 HS2. do 2 pstep.
  destruct (find _ _); [|by apply IH]. pstep. destruct a; cbn [negb]; [|by pstep]. do 3 pstep.
  match goal with Ht : taskInfos s2 !! t = Some ?ti |- _ =>
    eapply (ScanInv_task _ _ t ti); [exact HS2|exact Ht|done|auto] end.
Qed.

Lemma resolveCycle_scan key (s : State) : ScanInv [] s ->
  post (resolveCycle client key) s (fun _ => ScanInv []).
Proof.
  intros HI. unfold resolveCycle. eapply post_bind with (Q1 := fun _ => ScanInv []).
  { unfold findCycle. do 2 pstep. eapply post_bind; [by apply getRule_scan|]. intros [] s1 H1.
    unfold lift. destruct (find_cycle_from _ _); [by apply (post_ret a s1)|by apply (post_fail f s1)]. }
  intros cyc s1 H1. pstep. eapply post_bind with (Q1 := fun _ => ScanInv []).
  { unfold breakCycle, rules_of. apply post_assoc. do 2 pstep. by apply break_loop_scan. }
  intros broken s2 H2. cbn beta in H2. destruct broken; [by pstep|].
  unfold rules_of. apply post_assoc. do 3 pstep. by pstep.
Qed.

(** *** Cancellation *)

Definition skips_checked (s : State) : Prop :=
  forall k ri, ruleInfos s !! k = Some ri -> state ri = DoesNotNeedToRun ->
    checked (currentEpoch s) (ruleInfos s) ri (deps_size (dependencies (result ri))).

Lemma cancel_skips (s : State) : skips_checked s ->
  post (cancel_cleanup (W := W)) s (fun _ s' => skips_checked s' /\ taskInfos s' = ∅).
Proof.
  intros HI. unfold cancel_cleanup. pstep. eapply post_bind with (Q1 := fun _ => skips_checked).
  { apply post_mapM_; [exact HI|]. intros [t ti] s1 _ HS1. unfold cancel_task.
    unfold getPendingTaskInfo. apply post_assoc. pstep. rename H into Hk. apply post_assoc. pstep.
    destruct (inProgressInfo ri); try apply post_bind_fail.
    apply post_bind with (Q1 := fun a s' => s' = s1); [by pstep|]. intros ? ? ->. do 3 pstep.
    assert (ri0 = ri) as -> by congruence. cbn [fst snd] in *.
    assert (Hm : completes (currentEpoch s1) (ruleInfos s1)
      (<[forRuleInfo ti := setCancelled (with_info NullInfo ri)]> (ruleInfos s1))).
    { intros j rj Hj Hc. exists rj. rewrite lookup_insert_ne; [done|]. intros E.
      assert (rj = ri) as -> by congruence. unfold isComplete in Hc. apply andb_prop in Hc as [Hc _].
      apply bool_decide_eq_true in Hc. unfold isInProgress, isInProgressWaiting, isInProgressComputing in *.
      by rewrite Hc in *. }
    intros j rj Hj Hst. cbn in Hj. apply lookup_insert_Some in Hj as [[<- <-]|[_ Hj]]; [done|].
    eapply checked_mono; [exact Hm|]. by apply (HS1 j). }
  intros [] s1 H1. do 2 pstep. split; [|done].
  assert (Hm : completes (currentEpoch s1) (ruleInfos s1) (cancel_scan <$> ruleInfos s1)).
  { intros j rj Hj Hc. exists rj. rewrite lookup_fmap, Hj. cbn. split; [|done]. f_equal. unfold cancel_scan.
    destruct (isScanning rj) eqn:E; [|done]. apply bool_decide_eq_true in E.
    unfold isComplete in Hc. by rewrite E in Hc. }
  intros j rj Hj Hst. cbn in Hj. rewrite lookup_fmap in Hj.
  destruct (ruleInfos s1 !! j) as [r0|] eqn:Hj0; [|done]. injection Hj as <-.
  unfold cancel_scan in *. destruct (isScanning r0); [done|].
  eapply checked_mono; [exact Hm|]. by apply (H1 j).
Qed.
End Operations.

(** ** The invariant of whole builds *)
Section Reach.
Context {W : Type} (client : Client (W := W)).

(** Every rule is as the previous build left it, or as it was registered. *)
Definition settled (s : State (W := W)) : Prop :=
  forall k ri, ruleInfos s !! k = Some ri -> state ri <> DoesNotNeedToRun.

Definition config_scan (c : Config (W := W)) : Prop :=
  match phase c with
  | Done false => skips_checked (engine c) /\ taskInfos (engine c) = ∅
  | _ => ScanInv [] (engine c)
  end.

Lemma settled_start s : quiescent s -> settled s -> ScanInv [] s.
Proof.
  intros Hq Hs. assert (Hnone : forall k ri, ruleInfos s !! k = Some ri -> deferred_of ri = []).
  { intros k ri Hk. destruct (q_rules _ Hq k ri Hk) as (_ & Hi & _). unfold deferred_of. by rewrite Hi. }
  unfold ScanInv. rewrite (q_scan _ Hq), (q_tasks _ Hq). constructor.
  - intros k ri Hk Hst. by destruct (Hs k ri Hk).
  - intros q [Hin|[(k & ri & Hk & Hin)|(t & ti & Ht & _)]]; [by apply elem_of_nil in Hin| |by rewrite lookup_empty in Ht].
    rewrite (Hnone k ri Hk) in Hin. by apply elem_of_nil in Hin.
  - intros t ti. by rewrite lookup_empty.
  - intros k ri q Hk Hin. rewrite (Hnone k ri Hk) in Hin. by apply elem_of_nil in Hin.
Qed.

Lemma goto_inv p w (m : M (State (W := W)) unit) s c (P : State (W := W) -> Prop) :
  post m s (fun _ => P) -> goto p w m s = Ok c -> phase c = p /\ P (engine c).
Proof.
  intros Hp. unfold goto. destruct (m s) as [[[] s']|] eqn:E; [|done]. intros [= <-].
  split; [done|]. by apply (Hp tt).
Qed.

Lemma goto_scan p w (m : M (State (W := W)) unit) s c :
  p <> Done false -> post m s (fun _ => ScanInv []) -> goto p w m s = Ok c -> config_scan c.
Proof.
  intros Hp Hm E. destruct (goto_inv p w m s c _ Hm E) as [Hph HI]. unfold config_scan. rewrite Hph.
  destruct p as [| | | | | | | |[]]; done.
Qed.

Lemma pop_scan (s : State (W := W)) q rest : ScanInv [] s -> ruleInfosToScan s = q :: rest ->
  ScanInv [q] (upd_ruleInfosToScan (fun _ => rest) s).
Proof. intros HI E. unfold ScanInv in *. cbn. by rewrite E in HI. Qed.

Lemma step_scan key c c' : config_scan c -> step client key c = Ok c' -> config_scan c'.
Proof.
  unfold config_scan at 1, step. destruct (phase c) eqn:Hph; intros HI.
  - case_match; intros [= <-]; exact HI.
  - destruct (ruleInfosToScan (engine c)) as [|q rest] eqn:Hq; [intros [= <-]; exact HI|].
    apply goto_scan; [done|]. apply post_bind_modify.
    by apply processRuleScanRequest_scan, pop_scan.
  - destruct (inputRequests (engine c)); [intros [= <-]; exact HI|].
    apply goto_scan; [done|]. apply post_bind_modify. by apply processInputRequest_scan.
  - destruct (finishedInputRequests (engine c)); [intros [= <-]; exact HI|].
    apply goto_scan; [done|]. apply post_bind_modify. by apply processFinishedInput_scan.
  - destruct (readyTaskInfos (engine c)); [intros [= <-]; exact HI|].
    apply goto_scan; [done|]. apply post_bind_modify. by apply processReadyTask_scan.
  - destruct (finishedTaskInfos (engine c)) as [|t rest] eqn:Hq; [intros [= <-]; exact HI|].
    destruct (bind _ _ _) as [[ok s']|] eqn:E; [|done]. intros [= <-].
    assert (H1 : ScanInv [] s').
    { refine (processFinishedTask_scan client t _ _ ok s' E). exact HI. }
    by destruct ok.
  - case_match; [intros [= <-]; exact HI|]. case_match.
    + destruct (resolveCycle client key (engine c)) as [[b s']|] eqn:E; [|done]. intros [= <-].
      assert (H1 : ScanInv [] s') by exact (resolveCycle_scan client key _ HI b s' E). by destruct b.
    + destruct (bind _ _ _) as [[ri s']|] eqn:E; [|done].
      assert (H1 : ScanInv [] s').
      { apply bind_inv in E as ([] & s1 & E1 & E2). apply rule_at_inv in E2 as [-> _].
        exact (getRule_scan client [] key _ HI tt s1 E1). }
      case_match; [intros [= <-]; exact H1|]. apply goto_scan; [done|]. by apply post_modify.
  - case_match.
    + intros E. destruct (goto_inv _ _ _ _ _ _ (cancel_skips _ (sc_skip HI)) E) as [Hp H1].
      unfold config_scan. by rewrite Hp.
    + destruct (finishedTaskInfos (engine c)); [intros [= <-]; unfold config_scan; by rewrite Hph|].
      case_match; [|done]. intros [= <-]. exact HI.
  - intros [= <-]. unfold config_scan. by rewrite Hph.
Qed.

Lemma env_scan C c e s' : config_scan c -> allowed C (engine c) e ->
  env_event client e (engine c) = Ok (tt, s') -> config_scan (mkConfig (phase c) (didWork c) s').
Proof.
  intros HI Ha E. unfold config_scan in *. cbn [phase engine].
  assert (Hgen : ScanInv [] (engine c) -> ScanInv [] s').
  { intros H1. destruct e; cbn [env_event] in E.
    - exact (taskCall_scan client [] t c0 _ H1 tt s' E).
    - by injection E as <-.
    - by injection E as <-. }
  destruct (phase c) as [| | | | | | | |[]]; try by apply Hgen.
  destruct HI as [HI HT]. destruct e; cbn [env_event] in E.
  - destruct c0; try done; destruct Ha as [(ti & ri & Ht & _) _]; by rewrite HT, lookup_empty in Ht.
  - by injection E as <-.
  - by injection E as <-.
Qed.

Lemma reachable_scan key s0 x : quiescent s0 -> settled s0 -> reachable client key s0 x -> config_scan x.1.
Proof.
  intros Hq Hs Hr. induction Hr as [s E|x y _ IH Hs'].
  - cbn. unfold start_execution in E.
    rewrite bind_modify in E. apply bind_inv in E as ([] & s1 & E1 & E).
    apply getRule_scan with (g := []) in E1; [by injection E as <-|exact (settled_start s0 Hq Hs)].
  - destruct Hs' as [c c' C E|c C e s' Ha E]; cbn in *; [by eapply step_scan|by eapply env_scan].
Qed.

(** C1: an incremental build skips a rule only when its stored result is up to
    date: whenever the engine has decided that a rule does not need to run, the
    rule was built before by a rule with the same signature, and each of its
    recorded dependencies either only orders it or is complete in the current
    epoch with a value computed no later than the rule was built. *)
Theorem skipped_rules_up_to_date key s0 c C k ri :
  quiescent s0 -> settled s0 -> reachable client key s0 (c, C) ->
  ruleInfos (engine c) !! k = Some ri -> state ri = DoesNotNeedToRun ->
  builtAt (result ri) <> 0%Z /\ rule_signature (rule ri) = signature (result ri) /\
  forall j dp, deps_get (dependencies (result ri)) j = Ok dp -> dep_orderOnly dp = false ->
    exists rd, ruleInfos (engine c) !! dep_key dp = Some rd
      /\ isComplete (currentEpoch (engine c)) rd = true
      /\ (computedAt (result rd) <= builtAt (result ri))%Z.
Proof.
  intros Hq Hs Hr Hk Hst. pose proof (reachable_scan key s0 _ Hq Hs Hr) as HI. cbn in HI.
  assert (Hc : skips_checked (engine c)).
  { unfold config_scan in HI. destruct (phase c) as [| | | | | | | |[]]; try exact (sc_skip HI). apply HI. }
  destruct (Hc k ri Hk Hst) as (H1 & H2 & H3). split; [done|]. split; [done|].
  intros j dp Hd Ho. destruct (H3 j dp (deps_get_size _ _ _ Hd) Hd) as [?|?]; [congruence|done].
Qed.
End Reach.
