(* ===== verification/EngineSearch.v ===== *)
(** * The cycle search of [findCycle]

    The depth-first search over predecessors terminates within the bound of
    [search_bound], reports a cycle exactly when one is reachable from the build
    key, and what it reports is a path from that key that ends in a repeated
    node. *)

From Stdlib Require Import ZArith Lia.
From stdpp Require Import base gmap list strings numbers.
From S2P Require Import Prelude DepKeys Engine.

Section Search.
Context (pred : gmap KeyID (list KeyID)).

Abbreviation edges := (graph_edges pred).

(** [n] iterations of the search loop. *)
Fixpoint iter (n : nat) (x : Search) : Search + Search :=
  match n with
  | O => inl x
  | S n' => match search_step pred x with inl x' => iter n' x' | inr y => inr y end
  end.

Lemma iter_add n m x :
  iter (n + m) x = match iter n x with inl x' => iter m x' | inr y => inr y end.
Proof.
  revert x. induction n as [|n IH]; intros x; cbn; [done|].
  destruct (search_step pred x); [apply IH|done].
Qed.

Lemma search_iter_pow n : forall x, search_iter n pred x = iter (2 ^ n) x.
Proof.
  induction n as [|n IH]; intros x; cbn; [by destruct (search_step pred x)|].
  rewrite Nat.add_0_r, iter_add, IH. destruct (iter (2 ^ n) x); [apply IH|done].
Qed.

Lemma iter_exit n m x y : iter n x = inr y -> (n <= m)%nat -> iter m x = inr y.
Proof. intros E Hle. replace m with (n + (m - n))%nat by lia. by rewrite iter_add, E. Qed.

(** ** Specification *)

(** [l], last node first, is a walk from [root] along the edges. *)
Fixpoint walk (root : KeyID) (l : list KeyID) : Prop :=
  match l with
  | [] => False
  | [x] => x = root
  | x :: ((y :: _) as l') => x ∈ edges y /\ walk root l'
  end.

(** A walk that ends in a node it has visited before, and repeats no other. *)
Definition lasso (root : KeyID) (l : list KeyID) : Prop :=
  exists x p, l = x :: p /\ x ∈ p /\ NoDup p /\ walk root l.

(** No continuation of a walk through [P] and on to the node returns to it. *)
Inductive acyclic : list KeyID -> KeyID -> Prop :=
| acyclic_node P x : x ∉ P -> (forall y, y ∈ edges x -> acyclic (x :: P) y) -> acyclic P x.

Lemma acyclic_sub P x : acyclic P x -> forall Q, Q ⊆ P -> acyclic Q x.
Proof.
  induction 1 as [P x Hx Hy IH]; intros Q HQ. constructor; [set_solver|].
  intros y Hyy. apply IH; [done|]. set_solver.
Qed.

(** The declarative reading: every walk from an [acyclic] root is simple. *)
Lemma acyclic_walk root l : acyclic [] root -> walk root l ->
  NoDup l /\ exists x p, l = x :: p /\ acyclic p x.
Proof.
  intros Ha. induction l as [|x l IH]; cbn; [done|]. destruct l as [|y l].
  - intros ->. split; [apply NoDup_singleton|]. eauto.
  - intros [Hxy Hw]. destruct (IH Hw) as (Hnd & y' & p & [= -> ->] & Hy).
    inversion_clear Hy as [? ? Hyp Hall]. specialize (Hall x Hxy).
    split; [|eauto]. constructor; [|done]. by inversion Hall.
Qed.

(** ** Correctness of the exploration *)

Abbreviation items l := (list_to_set l : gset KeyID).

Definition unseen (P : list KeyID) : nat := size (dom pred ∖ items P).

Lemma unseen_enter P x : x ∉ P -> edges x <> [] -> (unseen (x :: P) < unseen P)%nat.
Proof.
  intros Hx He. unfold unseen. apply subset_size. split; [set_solver|]. intros Hsub.
  assert (Hd : x ∈ dom pred).
  { apply elem_of_dom. unfold graph_edges in He. destruct (pred !! x); [eauto|done]. }
  assert (x ∈ dom pred ∖ items (x :: P)) as Hin by (apply Hsub; set_solver). set_solver.
Qed.

Lemma degree_le x : (length (edges x) <= max_degree pred)%nat.
Proof.
  unfold graph_edges, max_degree. destruct (pred !! x) as [l|] eqn:E; cbn; [|lia].
  apply elem_of_map_to_list in E. revert E. generalize (map_to_list pred).
  induction l0 as [|e m IH]; intros He; [by apply elem_of_nil in He|].
  apply elem_of_cons in He as [<-|He]; cbn; [lia|]. specialize (IH He). lia.
Qed.

Fixpoint cost (r : nat) : nat :=
  match r with
  | O => 1
  | S r' => 1 + max_degree pred * (1 + cost r') + 1
  end.

Lemma cost_pos r : (1 <= cost r)%nat.
Proof. destruct r; cbn; lia. Qed.

Lemma cost_bound r : (cost r <= (max_degree pred + 3) ^ (r + 1))%nat.
Proof.
  induction r as [|r IH]; cbn [cost].
  - cbn. lia.
  - replace (S r + 1)%nat with (S (r + 1)) by lia. rewrite Nat.pow_succ_r'.
    set (p := ((max_degree pred + 3) ^ (r + 1))%nat) in *.
    assert (max_degree pred + 3 <= p)%nat.
    { unfold p. rewrite Nat.add_1_r, Nat.pow_succ_r'. 
      assert ((max_degree pred + 3) ^ r <> 0)%nat by (apply Nat.pow_nonzero; lia). nia. }
    nia.
Qed.

Lemma remove_item x P : x ∉ P -> ({[x]} ∪ items P) ∖ {[x]} = items P.
Proof. intros Hx. set_solver. Qed.

(** The outcome of exploring [x] below the path [P], in at most [b] steps. *)
Definition explored (root : KeyID) (b : nat) (P : list KeyID) (rest : list (KeyID * nat))
    (start : Search) (ok : Prop) : Prop :=
  exists n, (n <= b)%nat /\
    ((iter n start = inl (mkSearch rest P (items P)) /\ ok)
     \/ (exists y, iter n start = inr y /\ lasso root (cycleList y))).

(** The children of [x] from index [i] on; [x] is on the path already. *)
Lemma explore_children root r x P rest (Hx : x ∉ P) (Hnd : NoDup P) (Hw : walk root (x :: P))
    (IH : forall y rest', y ∈ edges x ->
      explored root (cost r) (x :: P) rest' (mkSearch ((y, 0%nat) :: rest') (x :: P) (items (x :: P)))
        (acyclic (x :: P) y)) :
  forall m i, (m = length (edges x) - S i)%nat -> 
    explored root (m * (1 + cost r) + 1) P rest
      (mkSearch ((x, S i) :: rest) (x :: P) (items (x :: P)))
      (forall j y, (S i <= j)%nat -> edges x !! j = Some y -> acyclic (x :: P) y).
Proof.
  induction m as [|m IHm]; intros i Hm.
  - exists 1%nat. split; [lia|]. left. cbn. unfold search_step; cbn.
    assert (edges x !! S i = None) as -> by (apply lookup_ge_None; lia). cbn.
    split; [by rewrite (remove_item x P Hx)|]. intros j y Hj Hl.
    apply lookup_lt_Some in Hl. lia.
  - destruct (edges x !! S i) as [y|] eqn:Hy; [|apply lookup_ge_None in Hy; lia].
    destruct (IH y ((x, S (S i)) :: rest)) as (n & Hn & Hres); [by eapply list_elem_of_lookup_2|].
    assert (Hstep : forall k, iter (S k) (mkSearch ((x, S i) :: rest) (x :: P) (items (x :: P)))
      = iter k (mkSearch ((y, 0%nat) :: (x, S (S i)) :: rest) (x :: P) (items (x :: P)))).
    { intros k. cbn. unfold search_step; cbn. by rewrite Hy. }
    destruct Hres as [[E Hay]|(z & E & Hz)].
    + destruct (IHm (S i)) as (n' & Hn' & Hres'); [lia|].
      exists (S n + n')%nat. split; [cbn; lia|]. rewrite iter_add, Hstep, E.
      destruct Hres' as [[E' Hall]|?]; [|by right]. left. split; [done|].
      intros j z Hj Hl. destruct (decide (j = S i)) as [->|]; [congruence|].
      eapply Hall; [|exact Hl]. lia.
    + exists (S n). split; [cbn; lia|]. right. exists z. by rewrite Hstep.
Qed.

Lemma explore root r : forall P x rest,
  NoDup P -> walk root (x :: P) -> (unseen P <= r)%nat ->
  explored root (cost r) P rest (mkSearch ((x, 0%nat) :: rest) P (items P)) (acyclic P x).
Proof.
  induction r as [|r IH]; intros P x rest Hnd Hw Hr.
  all: destruct (decide (x ∈ P)) as [Hin|Hx];
    [exists 1%nat; split; [apply cost_pos|right; eexists; split;
       [cbn; unfold search_step; cbn; rewrite bool_decide_eq_true_2 by set_solver; done
       |by exists x, P]]|].
  all: assert (Hfirst : bool_decide (x ∈ items P) = false) by (apply bool_decide_eq_false_2; set_solver).
  all: destruct (edges x) as [|y0 ys] eqn:He;
    [exists 1%nat; split; [apply cost_pos|left; split;
       [cbn; unfold search_step; cbn; rewrite Hfirst, He; cbn;
        by rewrite (remove_item x P Hx)
       |constructor; [done|rewrite He; by intros y ?%elem_of_nil]]]|].
  all: assert (Hlt : (unseen (x :: P) < unseen P)%nat) by (apply unseen_enter; congruence).
  { lia. }
  assert (Hc : forall y rest', y ∈ edges x ->
      explored root (cost r) (x :: P) rest' (mkSearch ((y, 0%nat) :: rest') (x :: P) (items (x :: P)))
        (acyclic (x :: P) y)).
  { intros y rest' Hy. apply IH; [by constructor|by split|lia]. }
  assert (Hstep : forall k, iter (S k) (mkSearch ((x, 0%nat) :: rest) P (items P))
      = iter k (mkSearch ((y0, 0%nat) :: (x, 1%nat) :: rest) (x :: P) (items (x :: P)))).
  { intros k. cbn. unfold search_step; cbn. by rewrite Hfirst, He. }
  destruct (Hc y0 ((x, 1%nat) :: rest)) as (n & Hn & Hres); [rewrite He; left|].
  pose proof (degree_le x) as Hdeg. rewrite He in Hdeg. cbn in Hdeg.
  destruct Hres as [[E Ha]|(z & E & Hz)].
  - destruct (explore_children root r x P rest Hx Hnd Hw Hc _ 0%nat eq_refl) as (n' & Hn' & Hres').
    rewrite He in Hn'; cbn in Hn'. rewrite Nat.sub_0_r in Hn'.
    exists (S n + n')%nat. split; [cbn [cost]; nia|]. rewrite iter_add, Hstep, E.
    destruct Hres' as [[E' Hall]|?]; [|by right]. left. split; [done|]. constructor; [done|].
    intros y (j & Hj)%list_elem_of_lookup_1. destruct j as [|j]; [rewrite He in Hj; by simplify_eq/=|].
    eapply Hall; [|exact Hj]. lia.
  - exists (S n). split; [cbn [cost]; nia|]. right. exists z. by rewrite Hstep.
Qed.

(** The search ends within [search_bound]: with the empty list when no walk from
    the root repeats a node, and otherwise with such a walk. *)
Lemma find_cycle_from_spec root :
  exists l, find_cycle_from pred root = Ok l /\
    ((l = [] /\ acyclic [] root) \/ lasso root (rev l)).
Proof.
  destruct (explore root (size (dom pred)) [] root []) as (n & Hn & Hres); [constructor|done| |].
  { unfold unseen. apply subseteq_size. set_solver. }
  assert (Hb : (S n <= 2 ^ search_bound pred)%nat).
  { pose proof (cost_bound (size (dom pred))) as Hc. rewrite size_dom in *. unfold search_bound.
    set (D := max_degree pred) in *. set (m := size pred) in *.
    assert (D + 3 <= 2 ^ (2 + D))%nat as H3.
    { clear. induction D; cbn in *; lia. }
    assert ((D + 3) ^ (m + 1) <= 2 ^ ((2 + D) * (m + 1)))%nat as H4.
    { rewrite Nat.pow_mul_r. by apply Nat.pow_le_mono_l. }
    assert (2 ^ ((2 + D) * (m + 1)) < 2 ^ ((2 + D) * (3 + m)))%nat as H5.
    { apply Nat.pow_lt_mono_r; lia. }
    lia. }
  unfold find_cycle_from. rewrite search_iter_pow.
  destruct Hres as [[E Ha]|(y & E & Hl)].
  - assert (Hex : iter (S n) (mkSearch [(root, 0%nat)] [] ∅) = inr (mkSearch [] [] ∅)).
    { replace (S n) with (n + 1)%nat by lia. rewrite iter_add.
      change (∅ : gset KeyID) with (items []) at 1. by rewrite E. }
    rewrite (iter_exit _ _ _ _ Hex Hb). exists []. split; [done|]. by left.
  - change (∅ : gset KeyID) with (items []). rewrite (iter_exit _ _ _ _ E) by lia.
    eexists. split; [done|]. right. by rewrite rev_involutive.
Qed.
End Search.
