(* ===== verification/EngineGraph.v ===== *)
(** * The cycles the engine reports

    [findCycle] gathers who waits for whom from the tasks and the scan records,
    inverts the graph and searches it from the key being built.  Here: the graph it
    builds is exactly the waiting relation, its assertions hold, and the list it
    returns is a cycle of rules waiting for each other, reached from the build
    key, or empty when there is none. *)

From Stdlib Require Import ZArith Lia.
From stdpp Require Import base gmap list strings numbers.
From S2P Require Import Prelude DepKeys Engine EngineInv EngineSafety EngineCycle EngineRun EngineScan EngineSearch.

(** Rule [k] waits for rule [k']: a request of its task, or its scan request, is
    parked on the scan record or the task of [k']. *)
Definition waits_on {W} (s : State (W := W)) (k k' : KeyID) : Prop :=
  exists ri', ruleInfos s !! k' = Some ri' /\
    ((exists r, request_rule s r = Some k /\
        (r ∈ paused_of ri'
         \/ exists t ti, inProgressInfo ri' = PendingTaskInfo t /\ taskInfos s !! t = Some ti
              /\ r ∈ requestedBy ti))
     \/ (exists q, sreq_ruleInfo q = k /\
        (q ∈ deferred_of ri'
         \/ exists t ti, inProgressInfo ri' = PendingTaskInfo t /\ taskInfos s !! t = Some ti
              /\ q ∈ ti_deferredScanRequests ti))).

(** ** Edges of graphs *)

Lemma graph_push_edges k x (g : gmap KeyID (list KeyID)) j y :
  y ∈ graph_edges (graph_push k x g) j <-> y ∈ graph_edges g j \/ (j = k /\ y = x).
Proof.
  unfold graph_push, graph_edges. destruct (decide (k = j)) as [<-|].
  - rewrite lookup_insert_eq. cbn. set_solver.
  - rewrite lookup_insert_ne by done. naive_solver.
Qed.

(** A fold that only adds edges adds those of each of its elements. *)
Lemma fold_edges {A} (f : gmap KeyID (list KeyID) -> A -> gmap KeyID (list KeyID))
    (P : A -> KeyID -> KeyID -> Prop) l :
  (forall g a j y, a ∈ l -> y ∈ graph_edges (f g a) j <-> y ∈ graph_edges g j \/ P a j y) ->
  forall g j y, y ∈ graph_edges (fold_left f l g) j <->
    y ∈ graph_edges g j \/ exists a, a ∈ l /\ P a j y.
Proof.
  induction l as [|a l IH]; intros Hf g j y; cbn.
  - split; [by left|]. intros [?|(a & Ha & _)]; [done|by apply elem_of_nil in Ha].
  - rewrite IH by (intros; apply Hf; by right). rewrite Hf by left.
    split; [intros [[?|?]|(b & ? & ?)]|intros [?|(b & [->|?]%elem_of_cons & ?)]]; set_solver.
Qed.

Lemma predecessor_edges g x y :
  y ∈ graph_edges (predecessor_graph g) x <-> x ∈ graph_edges g y.
Proof.
  unfold predecessor_graph. rewrite (fold_edges _ (fun e j z => z = e.1 /\ j ∈ e.2)).
  - unfold graph_edges at 1. rewrite lookup_empty. cbn. split.
    + intros [?%elem_of_nil|([k l] & Hin%elem_of_map_to_list & -> & Hx)]; [done|].
      unfold graph_edges. cbn in *. by rewrite Hin.
    + unfold graph_edges. destruct (g !! y) as [l|] eqn:E; cbn; [|by intros ?%elem_of_nil].
      intros Hx. right. exists (y, l). rewrite elem_of_map_to_list. done.
  - intros p [k l] j z _. cbn.
    rewrite (fold_edges _ (fun succ j z => j = succ /\ z = k)); [|intros; apply graph_push_edges].
    split; [intros [?|(? & ? & -> & ->)]|intros [?|[-> ?]]]; eauto.
Qed.

Lemma insert_key_elem x l y : y ∈ insert_key x l <-> y = x \/ y ∈ l.
Proof.
  induction l as [|z l IH]; cbn; [set_solver|]. destruct (String.leb x z); set_solver.
Qed.

Lemma sort_keys_elem l y : y ∈ sort_keys l <-> y ∈ l.
Proof. induction l as [|x l IH]; cbn; [done|]. rewrite insert_key_elem. set_solver. Qed.

Lemma sorted_edges (g : gmap KeyID (list KeyID)) x y :
  y ∈ graph_edges (sort_keys <$> g) x <-> y ∈ graph_edges g x.
Proof.
  unfold graph_edges. rewrite lookup_fmap. destruct (g !! x); cbn; [apply sort_keys_elem|done].
Qed.

(** ** The successor graph is the waiting relation *)
Section Graph.
Context {W : Type} (s : State (W := W)).
Hypothesis HI : Inv [] [] None 0 s.
Hypothesis HS : ScanInv [] s.

Lemma insert_new_edges k l (g : gmap KeyID (list KeyID)) j y : g !! k = None ->
  y ∈ graph_edges (insert_new k l g) j <-> y ∈ graph_edges g j \/ (j = k /\ y ∈ l).
Proof.
  intros Hk. unfold insert_new, graph_edges. rewrite Hk. destruct (decide (k = j)) as [<-|].
  - rewrite lookup_insert_eq, Hk. cbn. set_solver.
  - rewrite lookup_insert_ne by done. naive_solver.
Qed.

Lemma tasks_edges L : NoDup (map (fun e : TaskID * TaskInfo => forRuleInfo e.2) L) ->
  forall g, (forall e, e ∈ L -> g !! forRuleInfo e.2 = None) -> forall j y,
  y ∈ graph_edges (fold_left (fun g e => add_task s e g) L g) j <->
  y ∈ graph_edges g j \/ exists e, e ∈ L /\ forRuleInfo e.2 = j /\ y ∈ task_successors s e.2.
Proof.
  induction L as [|e L IH]; intros Hnd g Hg j y; cbn.
  - split; [by left|]. intros [?|(e & He & _)]; [done|by apply elem_of_nil in He].
  - apply list.NoDup_cons in Hnd as [Hn Hnd]. rewrite IH; [|done|].
    + unfold add_task. rewrite insert_new_edges by (apply Hg; left).
      split; [intros [[?|[-> ?]]|(b & ? & ? & ?)]|intros [?|(b & [->|?]%elem_of_cons & <- & ?)]]; try (by auto);
        try (right; eexists; split; [|eauto]; set_solver).
    + intros b Hb. unfold add_task, insert_new. rewrite (Hg e) by left.
      rewrite lookup_insert_ne; [apply Hg; by right|]. intros E. apply Hn.
      apply list_elem_of_In, in_map_iff. exists b. split; [done|]. by apply list_elem_of_In.
Qed.

Lemma record_edges rec g j y :
  y ∈ graph_edges (add_record s rec g) j <-> y ∈ graph_edges g j
  \/ (exists r, r ∈ pausedInputRequests rec /\ ireq_inputRuleInfo r = j /\ request_rule s r = Some y)
  \/ (exists q, q ∈ deferredScanRequests rec /\ sreq_inputRuleInfo q = Some j /\ sreq_ruleInfo q = y).
Proof.
  unfold add_record.
  rewrite (fold_edges _ (fun q j y => sreq_inputRuleInfo q = Some j /\ sreq_ruleInfo q = y)).
  - rewrite (fold_edges _ (fun r j y => ireq_inputRuleInfo r = j /\ request_rule s r = Some y)); [tauto|].
    intros g' r j' y' _. destruct (request_rule s r); [rewrite graph_push_edges|]; naive_solver.
  - intros g' q j' y' _. destruct (sreq_inputRuleInfo q); [rewrite graph_push_edges|]; naive_solver.
Qed.

Lemma task_rules_distinct :
  NoDup (map (fun e : TaskID * TaskInfo => forRuleInfo e.2) (map_to_list (taskInfos s))).
Proof.
  apply NoDup_fmap_2_strong; [|apply NoDup_map_to_list].
  intros [t ti] [u tu] Ht%elem_of_map_to_list Hu%elem_of_map_to_list E. cbn in E.
  destruct (inv_task HI t ti Ht) as (_ & ri & Hri & Hp). destruct (inv_task HI u tu Hu) as (_ & rj & Hrj & Hq).
  rewrite E in Hri. assert (t = u) as -> by congruence. congruence.
Qed.

Lemma successor_edges j y : y ∈ graph_edges (successor_graph s) j <->
  (exists t ti, taskInfos s !! t = Some ti /\ forRuleInfo ti = j /\ y ∈ task_successors s ti)
  \/ (exists k ri rec, ruleInfos s !! k = Some ri /\ scan_record ri = Some rec /\
       ((exists r, r ∈ pausedInputRequests rec /\ ireq_inputRuleInfo r = j /\ request_rule s r = Some y)
        \/ (exists q, q ∈ deferredScanRequests rec /\ sreq_inputRuleInfo q = Some j /\ sreq_ruleInfo q = y))).
Proof.
  unfold successor_graph. rewrite (fold_edges _ (fun rec j y =>
    (exists r, r ∈ pausedInputRequests rec /\ ireq_inputRuleInfo r = j /\ request_rule s r = Some y)
    \/ (exists q, q ∈ deferredScanRequests rec /\ sreq_inputRuleInfo q = Some j /\ sreq_ruleInfo q = y)))
    by (intros; apply record_edges).
  rewrite tasks_edges; [|apply task_rules_distinct|intros; apply lookup_empty].
  split; (intros [H|H]; [left|right]).
  - destruct H as [H|([t ti] & Hin%elem_of_map_to_list & ? & ?)]; [|eauto].
    unfold graph_edges in H. rewrite lookup_empty in H. by apply elem_of_nil in H.
  - destruct H as (rec & ([k ri] & Hin%elem_of_map_to_list & Hr)%list_elem_of_omap & H). eauto 8.
  - destruct H as (t & ti & Ht & ? & ?). right. exists (t, ti). rewrite elem_of_map_to_list. auto.
  - destruct H as (k & ri & rec & Hk & Hr & H). exists rec. split; [|done].
    apply list_elem_of_omap. exists (k, ri). by rewrite elem_of_map_to_list.
Qed.

(** What a rule's record holds, by its state. *)
Lemma record_scanning k ri rec : ruleInfos s !! k = Some ri ->
  inProgressInfo ri = PendingScanRecord rec -> state ri = IsScanning.
Proof.
  intros Hk Hi. destruct (inv_rule HI k ri Hk) as (_ & H). rewrite Hi in H.
  destruct (state ri); try done; by destruct H as (? & ? & ? & _).
Qed.

Lemma task_of_rule k ri t ti : ruleInfos s !! k = Some ri -> inProgressInfo ri = PendingTaskInfo t ->
  taskInfos s !! t = Some ti -> forRuleInfo ti = k.
Proof.
  intros Hk Hi Ht. destruct (inv_rule HI k ri Hk) as (_ & H). rewrite Hi in H.
  destruct (state ri); try done; try (by destruct H as (? & ?)); naive_solver.
Qed.

Lemma waits_edges k j : k ∈ graph_edges (successor_graph s) j <-> waits_on s k j.
Proof.
  rewrite successor_edges. split.
  - intros [(t & ti & Ht & <- & Hin)|(i & ri & rec & Hi & Hr & H)].
    + destruct (inv_task HI t ti Ht) as (_ & ri & Hri & Hp). exists ri. split; [done|].
      apply elem_of_app in Hin as [(r & Hr & E)%list_elem_of_omap|Hq].
      * left. eauto 10.
      * apply list_elem_of_In, in_map_iff in Hq as (q & <- & Hq). apply list_elem_of_In in Hq. right. eauto 10.
    + unfold scan_record in Hr. destruct (isScanning ri); [|done].
      destruct (inProgressInfo ri) as [|rec'| |] eqn:Hp; try done. injection Hr as ->.
      destruct H as [(r & Hin & <- & E)|(q & Hin & Hj & <-)].
      * assert (Hpa : r ∈ paused_of ri) by (unfold paused_of; by rewrite Hp).
        rewrite (inv_paused HI i ri r Hi Hpa). exists ri. split; [done|]. left. eauto.
      * assert (Hde : q ∈ deferred_of ri) by (unfold deferred_of; by rewrite Hp).
        rewrite (sc_record HS i ri q Hi Hde) in Hj. injection Hj as <-. exists ri. split; [done|]. right. eauto.
  - intros (ri & Hj & H).
    assert (Hrec : forall rec, inProgressInfo ri = PendingScanRecord rec -> scan_record ri = Some rec).
    { intros rec Hp. unfold scan_record, isScanning. rewrite (record_scanning j ri rec Hj Hp), Hp. done. }
    destruct H as [(r & E & [Hr|(t & ti & Hp & Ht & Hr)])|(q & <- & [Hq|(t & ti & Hp & Ht & Hq)])].
    + right. pose proof (inv_paused HI j ri r Hj Hr) as Hin. unfold paused_of in Hr.
      destruct (inProgressInfo ri) as [|rec| |] eqn:Hp; try by apply elem_of_nil in Hr. eauto 12.
    + left. exists t, ti. split; [done|]. split; [by eapply task_of_rule|]. apply elem_of_app. left.
      apply list_elem_of_omap. eauto.
    + right. pose proof (sc_record HS j ri q Hj Hq) as Hin. unfold deferred_of in Hq.
      destruct (inProgressInfo ri) as [|rec| |] eqn:Hp; try by apply elem_of_nil in Hq. eauto 12.
    + left. exists t, ti. split; [done|]. split; [by eapply task_of_rule|]. apply elem_of_app. right.
      apply list_elem_of_In, in_map_iff. exists q. split; [done|]. by apply list_elem_of_In.
Qed.

(** ** The assertions of [findCycle] hold *)

Lemma request_has_rule r : in_flight [] (ruleInfos s) (taskInfos s) (inputRequests s) (finishedInputRequests s) r ->
  is_Some (ireq_taskInfo r) -> is_Some (request_rule s r).
Proof.
  intros Hr [t Ht]. destruct (inv_req HI r Hr) as [_ H]. destruct (H t Ht) as [(ti & _ & Hti & _) _].
  unfold request_rule. rewrite Ht. cbn. rewrite Hti. by eexists.
Qed.

Lemma graph_asserts_hold : graph_asserts s = true.
Proof.
  unfold graph_asserts. apply andb_true_intro. split; apply forallb_forall.
  - intros [t ti] Ht%list_elem_of_In%elem_of_map_to_list. apply forallb_forall. intros r Hr%list_elem_of_In.
    apply bool_decide_eq_true_2. cbn in Hr. apply request_has_rule; [do 4 right; eauto|].
    by destruct (inv_requestedBy HI t ti r Ht Hr).
  - intros [k ri] Hk%list_elem_of_In%elem_of_map_to_list. cbn [snd]. destruct (isScanning ri) eqn:Hs; [|done].
    pose proof Hs as Hst. apply bool_decide_eq_true in Hst.
    destruct (inv_rule HI k ri Hk) as (_ & Hi). rewrite Hst in Hi. destruct Hi as [rec Hi].
    unfold scan_record. rewrite Hs, Hi. apply andb_true_intro. split; apply forallb_forall.
    + intros r Hr%list_elem_of_In. destruct (ireq_taskInfo r) eqn:E; [|done]. apply bool_decide_eq_true_2.
      apply request_has_rule; [|by rewrite E]. do 3 right; left. exists k, ri. split; [done|].
      unfold paused_of. by rewrite Hi.
    + intros q Hq%list_elem_of_In.
      assert (Hd : q ∈ deferred_of ri) by (unfold deferred_of; by rewrite Hi).
      rewrite (sc_record HS k ri q Hk Hd). rewrite bool_decide_eq_true_2 by eauto.
      destruct (inv_scan HI q) as (rj & Hj & H & _); [right; left; eauto|]. cbn. rewrite Hj.
      unfold isScanning. destruct H as [[-> _]|(_ & -> & _)]; [done|by rewrite orb_true_r].
Qed.

(** ** The reported cycle *)

Definition search_graph : gmap KeyID (list KeyID) := sort_keys <$> predecessor_graph (successor_graph s).

Lemma search_edges x y : y ∈ graph_edges search_graph x <-> waits_on s x y.
Proof. unfold search_graph. by rewrite sorted_edges, predecessor_edges, waits_edges. Qed.

(** Each rule of the list waits for the next one. *)
Definition waits_path (l : list KeyID) : Prop :=
  forall i a b, l !! i = Some a -> l !! S i = Some b -> waits_on s a b.

Lemma walk_path root l : walk search_graph root l -> waits_path (rev l) /\ head (rev l) = Some root.
Proof.
  induction l as [|x l IH]; [done|]. destruct l as [|y l].
  - cbn. intros ->. split; [|done]. intros i a b Ha Hb. by destruct i.
  - intros [Hxy [Hp Hh]%IH%id]. cbn [rev] in *. split.
    + intros i a b Ha Hb. set (p := rev l ++ [y]) in *.
      destruct (decide (S i < length p)%nat) as [Hlt|Hge].
      * rewrite lookup_app_l in Ha, Hb by lia. by eapply Hp.
      * assert (S i = length p) as E.
        { apply lookup_lt_Some in Hb. rewrite length_app in Hb. cbn in Hb. lia. }
        rewrite lookup_app_r, E, Nat.sub_diag in Hb by lia. cbn in Hb. injection Hb as <-.
        rewrite lookup_app_l in Ha by lia. unfold p in Ha, E. rewrite length_app in E. cbn in E.
        rewrite lookup_app_r in Ha by lia. replace (i - length (rev l))%nat with 0%nat in Ha by lia.
        cbn in Ha. injection Ha as <-. by apply search_edges.
    + destruct (rev l ++ [y]) eqn:E; [by destruct (rev l)|]. exact Hh.
Qed.

Lemma reach_walk root l k k' : walk search_graph root (k :: l) -> rtc (waits_on s) k k' ->
  exists l', walk search_graph root (k' :: l') /\ (k :: l) `suffix_of` (k' :: l').
Proof.
  intros Hw Hr. revert l Hw. induction Hr as [k|k k1 k' H1 _ IH]; intros l Hw; [by exists l|].
  destruct (IH (k :: l)) as (l' & Hw' & Hs); [split; [by apply search_edges|done]|].
  exists l'. split; [done|]. etrans; [|exact Hs]. by exists [k1].
Qed.

Lemma acyclic_no_cycle root k :
  acyclic search_graph [] root -> rtc (waits_on s) root k -> ~ tc (waits_on s) k k.
Proof.
  intros Ha Hr Hc. destruct (reach_walk root [] root k) as (l & Hw & _); [done|done|].
  assert (exists k1, waits_on s k k1 /\ rtc (waits_on s) k1 k) as (k1 & H1 & Hc').
  { inversion Hc as [? ? H1|? k1 ? H1 Hc']; subst; [by exists k|]. exists k1. split; [done|]. by apply tc_rtc. }
  destruct (reach_walk root (k :: l) k1 k) as (l' & Hw' & Hs); [split; [by apply search_edges|done]|done|].
  destruct (acyclic_walk _ _ _ Ha Hw') as [Hnd _]. apply list.NoDup_cons in Hnd as [Hn _]. apply Hn.
  destruct Hs as [p E]. destruct p as [|z p]; cbn in E; injection E; intros -> _; set_solver.
Qed.

(** ** [findCycle] *)
Section FindCycle.
Context (client : Client (W := W)) (Hclient : client_ok client).

Lemma findCycle_spec key : exists l s', findCycle client key s = Ok (l, s') /\
  ((l = [] /\ forall k, rtc (waits_on s) key k -> ~ tc (waits_on s) k k)
   \/ exists p x, l = p ++ [x] /\ head p = Some key /\ waits_path l /\ x ∈ p /\ NoDup p).
Proof.
  unfold findCycle. rewrite (bind_ok _ _ _ _ _ (eq_refl : get s = Ok (s, s))).
  rewrite bind_ensure by apply graph_asserts_hold.
  destruct (getRuleInfoForKey_spec client Hclient [] [] None 0 s key HI) as (s1 & E1 & _).
  rewrite (bind_ok _ _ _ _ _ E1). fold search_graph.
  destruct (find_cycle_from_spec search_graph key) as (l & El & Hl). rewrite El. exists l, s1.
  split; [done|]. destruct Hl as [[-> Ha]|(x & p & Er & Hx & Hnd & Hw)].
  - left. split; [done|]. intros k Hr. by eapply acyclic_no_cycle.
  - right. exists (rev p), x. apply walk_path in Hw as [Hp Hh]. rewrite rev_involutive in Hp, Hh.
    assert (El' : l = rev p ++ [x]) by (rewrite <- (rev_involutive l), Er; done).
    split; [done|]. split; [|split; [done|]].
    + rewrite El' in Hh. destruct (rev p) eqn:E; [|exact Hh].
      assert (p = []) as -> by (rewrite <- (rev_involutive p), E; done). by apply elem_of_nil in Hx.
    + split; [by rewrite elem_of_rev|]. by rewrite <- (Permutation_rev p).
Qed.
End FindCycle.
End Graph.
