(* ===== verification/EngineExamples.v ===== *)
(** * Concrete runs of the build engine

    A small client (rules that add up the values of their inputs) on which the
    engine of Engine.v is run: clean, null and incremental builds, a reported
    cycle, four runs on which the code leaves its defined behaviour, and two in which
    it returns a stale value. *)

From Stdlib Require Import ZArith.
From stdpp Require Import base gmap list strings numbers.
From S2P Require Import Prelude DepKeys Engine EngineInv EngineSafety EngineCycle EngineRun EngineScan.

(** A rule of the example client: its signature, the inputs its task requests in
    [start], the dependencies it discovers while computing, and its own value,
    to which the values of the inputs are added.  [spec_valid] is the answer of
    [isResultValid], and [spec_then] are the inputs it requests when a value of one
    of its [spec_inputs] is provided. *)
Record Spec := mkSpec {
  spec_signature : Z;
  spec_inputs : list KeyID;
  spec_discovered : list KeyID;
  spec_value : Z;
  spec_valid : bool;
  spec_then : list KeyID }.

(** The client's world: the rules, the rule and accumulated value of every task,
    the keys whose tasks ran, the errors reported, and the cycles reported. *)
Record World := mkWorld {
  specs : gmap KeyID Spec;
  tasks : gmap TaskID (KeyID * Z);
  ran : list KeyID;
  errors : list string;
  cycles : list (list KeyID);
  break_cycles : bool;
  db_fails : bool }.

Definition spec_of (w : World) (k : KeyID) : Spec :=
  default (mkSpec 1 [] [] 0 true []) (specs w !! k).

Definition set_tasks (t : gmap TaskID (KeyID * Z)) (w : World) : World :=
  mkWorld (specs w) t (ran w) (errors w) (cycles w) (break_cycles w) (db_fails w).

Definition task_of (w : World) (t : TaskID) : KeyID * Z := default ("?", 0%Z) (tasks w !! t).

Definition example_db : BuildDB (W := World) :=
  mkDB (fun w => ((0%Z, true), w)) (fun _ w => (None, w))
    (fun _ _ w => ((None, EmptyString), w))
    (fun _ _ _ w => (if db_fails w then Some "disk full" else None, w))
    (fun w => (None, w)) (fun w => w).

Definition example_client (with_db : bool) : Client (W := World) :=
  mkClient
    (fun k w => (mkRule k (spec_signature (spec_of w k)), w))
    (fun _ _ _ w => w)
    (fun _ _ _ w => (break_cycles w, w))
    (fun l w => mkWorld (specs w) (tasks w) (ran w) (errors w) (map rule_key l :: cycles w)
                  (break_cycles w) (db_fails w))
    (fun e w => mkWorld (specs w) (tasks w) (ran w) (e :: errors w) (cycles w)
                  (break_cycles w) (db_fails w))
    (fun r t w => set_tasks (<[t := (rule_key r, spec_value (spec_of w (rule_key r)))]> (tasks w)) w)
    (fun r v w => (spec_valid (spec_of w (rule_key r)), w))
    (fun _ _ w => w)
    (fun _ => false)
    (fun _ _ w => (false, w))
    (fun t w => (map (fun k => CallRequest k 0) (spec_inputs (spec_of w (task_of w t).1)), w))
    (fun _ _ w => ([], w))
    (fun t _ i v w =>
       let (k, acc) := task_of w t in
       let sp := spec_of w k in
       ((if bool_decide (i ∈ spec_inputs sp) then map (fun k => CallRequest k 1) (spec_then sp) else []),
        set_tasks (<[t := (k, (acc + default 0%Z (head v))%Z)]> (tasks w)) w))
    (fun t w =>
       let (k, acc) := task_of w t in
       (map CallDiscoveredDependency (spec_discovered (spec_of w k)) ++ [CallComplete [acc] false],
        mkWorld (specs w) (tasks w) (k :: ran w) (errors w) (cycles w) (break_cycles w) (db_fails w)))
    (fun w => (0%Z, w))
    (if with_db then Some example_db else None).

Definition world0 (l : list (KeyID * Spec)) : World :=
  mkWorld (list_to_map l) ∅ [] [] [] false false.

Definition no_events : nat -> list (EnvEvent (W := World)) := fun _ => [].
Definition fuel0 : nat := 400.

(** Change the rules between two builds (the client's files changed). *)
Definition change_specs (l : list (KeyID * Spec)) : M (State (W := World)) unit :=
  modify (upd_world (fun w =>
    mkWorld (list_to_map l) (tasks w) [] (errors w) (cycles w) (break_cycles w) (db_fails w))).

Definition observe (k : KeyID) : M (State (W := World)) (ValueType * list KeyID) :=
  v <~ build (example_client false) fuel0 no_events k;
  s <~ get;
  ret (v, rev (ran (world s))).

Definition leaf (v : Z) : Spec := mkSpec 1 [] [] v true [].
Definition node (l : list KeyID) (v : Z) : Spec := mkSpec 1 l [] v true [].


(** What a run returned, with the errors and cycles reported, or how it crashed. *)
Definition outcome_of {A} (o : outcome (A * State (W := World)))
    : sum (A * list string * list (list KeyID)) fault :=
  match o with
  | Ok (a, s) => inl (a, errors (world s), cycles (world s))
  | Crash f => inr f
  end.

Definition specs3 : list (KeyID * Spec) :=
  [("R", node ["A"; "B"] 1); ("A", node ["B"] 10); ("B", leaf 100)].

(** A clean build runs every task once, inputs first. *)
Example clean_build :
  outcome_of (observe "R" (initial_state (world0 specs3)))
  = inl (([211%Z], ["B"; "A"; "R"]), [], []).
Proof. vm_compute. reflexivity. Qed.

(** A second build with nothing changed runs nothing. *)
Example null_build :
  outcome_of ((observe "R" ;;; change_specs specs3 ;;; observe "R") (initial_state (world0 specs3)))
  = inl (([211%Z], []), [], []).
Proof. vm_compute. reflexivity. Qed.

(** When the leaf changes, everything above it runs again. *)
Example incremental_build :
  outcome_of ((observe "R" ;;;
      change_specs [("R", node ["A"; "B"] 1); ("A", node ["B"] 10); ("B", mkSpec 1 [] [] 101 false [])] ;;;
      observe "R") (initial_state (world0 specs3)))
  = inl (([213%Z], ["B"; "A"; "R"]), [], []).
Proof. vm_compute. reflexivity. Qed.

(** A cycle is reported to the delegate and the build fails. *)
Example cycle_reported :
  outcome_of (observe "R" (initial_state (world0
      [("R", node ["A"] 1); ("A", node ["B"] 10); ("B", node ["A"] 2)])))
  = inl (([], []), [], [["R"; "A"; "B"; "A"]]).
Proof. vm_compute. reflexivity. Qed.

(** ** Runs that leave the defined behaviour *)

(** [breakCycle] reads [*std::next(ruleIt)] for the last rule of the reversed
    cycle list, the build key, when that rule was built before and waits for a
    cycle of rules that never were: past the end of the list. *)
Theorem breakCycle_reads_past_end :
  outcome_of ((observe "R" ;;;
      change_specs [("R", mkSpec 1 ["A"] [] 1 false []); ("A", node ["B"] 10); ("B", node ["A"] 2)] ;;;
      observe "R") (initial_state (world0 [("R", node [] 1)])))
  = inr (OutOfBounds "std::next(ruleIt)").
Proof. vm_compute. reflexivity. Qed.

(** When the database cannot store a result, the rule is complete already but its
    task is still registered, and [cancelRemainingTasks] asserts. *)
Theorem store_failure_asserts :
  outcome_of (build (example_client true) fuel0 no_events "R"
    (initial_state (mkWorld (list_to_map [("R", leaf 1)]) ∅ [] [] [] false true)))
  = inr (AssertFailed "getPendingTaskInfo").
Proof. vm_compute. reflexivity. Qed.

(** Two rules that discovered each other as dependencies. *)
Definition mutual (root_valid : bool) : list (KeyID * Spec) :=
  [("R", mkSpec 1 [] ["A"] 1 root_valid []); ("A", mkSpec 1 [] ["B"] 1 true []);
   ("B", mkSpec 1 [] ["A"] 1 true [])].

(** A build can succeed with rules still scanning, whose scan records are then
    freed: the next build reads one of them. *)
Theorem scan_record_used_after_build :
  outcome_of ((observe "R" ;;; change_specs (mutual false) ;;; observe "R" ;;; observe "R")
    (initial_state (world0 (mutual true))))
  = inr (UseAfterFree "RuleScanRecord").
Proof. vm_compute. reflexivity. Qed.

(** A cycle that is only reachable through a discovered dependency of the
    completed build key is not found, and [resolveCycle] asserts. *)
Theorem resolveCycle_asserts :
  outcome_of (observe "R" (initial_state (world0
      [("R", mkSpec 1 [] ["A"] 1 true []); ("A", node ["B"] 1); ("B", node ["A"] 1)])))
  = inr (AssertFailed "resolveCycle").
Proof. vm_compute. reflexivity. Qed.

(** A cancelled task is meant to run again in a later build, but its rule keeps the
    old result, only with the dependencies recorded so far: if the rest of them
    held the change, the next build takes the rule for up to date.  Here "R"
    requests "X" and then "A"; "A" changes from 10 to 20; the second build is
    cancelled at step [n] after "R" was started again; the third returns the stale
    value 11 without running "R", where an uncancelled one returns 21. *)
Definition dynamic_specs (a : Z) (a_valid : bool) : list (KeyID * Spec) :=
  [("R", mkSpec 1 ["X"] [] 1 true ["A"]); ("X", leaf 0); ("A", mkSpec 1 [] [] a a_valid [])].

Definition cancel_at (n : nat) (i : nat) : list (EnvEvent (W := World)) :=
  if (i =? fuel0 - n)%nat then [EnvCancelBuild] else [].

Definition rebuild_after_cancel (sched : nat -> list EnvEvent) : M (State (W := World)) (ValueType * list KeyID) :=
  observe "R" ;;;
  change_specs (dynamic_specs 20 false) ;;;
  build (example_client false) fuel0 sched "R" ;;;
  resetForBuild ;;;
  change_specs (dynamic_specs 20 true) ;;;
  observe "R".

(** The value a rule holds after a run. *)
Definition value_of {A} (k : KeyID) (o : outcome (A * State (W := World))) : option ValueType :=
  match o with
  | Ok (_, s) => (fun ri => value (result ri)) <$> ruleInfos s !! k
  | Crash _ => None
  end.

Theorem cancelled_task_not_rerun :
  let after_cancel := rebuild_after_cancel (cancel_at 25) (initial_state (world0 (dynamic_specs 10 true))) in
  let uncancelled := rebuild_after_cancel no_events (initial_state (world0 (dynamic_specs 10 true))) in
  outcome_of uncancelled = inl (([21%Z], []), [], [])
  /\ outcome_of after_cancel = inl (([11%Z], []), [], [])
  /\ value_of "A" after_cancel = Some [20%Z].
Proof. vm_compute. auto. Qed.

(** The verdict of a scan nobody waits for survives the build.  "A" and "B" have
    recorded each other as dependencies; in the second build the scan cycle is
    broken by forcing "A", and "B" is found not to need to run, but the request
    that asked for it was the scan of "A" and is ignored: "B" stays in the state
    DoesNotNeedToRun.  In the third build the value of "B" is no longer valid; the
    rule counts as scanned already, and its old value 1 is used instead of 50. *)
Definition verdict_specs (r_input : KeyID) (b : Z) (b_valid : bool) : list (KeyID * Spec) :=
  [("R", mkSpec 1 [r_input] [] 1 false []); ("A", leaf 1); ("B", mkSpec 1 [] [] b b_valid [])].

Definition state_of {A} (k : KeyID) (o : outcome (A * State (W := World))) : option StateKind :=
  match o with Ok (_, s) => state <$> ruleInfos s !! k | Crash _ => None end.

Theorem stale_verdict_survives :
  let s0 := initial_state (mkWorld (list_to_map (mutual true)) ∅ [] [] [] true false) in
  let second := observe "R" ;;; change_specs (verdict_specs "A" 1 true) ;;; observe "R" in
  let third := second ;;; change_specs (verdict_specs "B" 50 false) ;;; observe "R" in
  state_of "B" (second s0) = Some DoesNotNeedToRun
  /\ outcome_of (third s0) = inl (([2%Z], ["R"]), [], []).
Proof. vm_compute. auto. Qed.

(** ** The example client respects the protocol *)

Lemma example_client_ok b : client_ok (example_client b).
Proof.
  constructor; cbn.
  - intros d k r w res Hd. destruct b; [|done]. injection Hd as <-. done.
  - intros t w. induction (spec_inputs _); constructor; done.
  - constructor.
  - intros t i k v w. destruct (task_of w t) as [k' acc]. cbn. case_bool_decide; [|constructor].
    induction (spec_then _); constructor; done.
  - intros t w. destruct (task_of w t) as [k acc].
    exists (map CallDiscoveredDependency (spec_discovered (spec_of w k))). split; [|eauto].
    induction (spec_discovered _); constructor; done.
Qed.

Lemma example_store (d : BuildDB) k r res (w : World) :
  db (example_client false) = Some d -> (db_setRuleResult d k r res w).1 = None.
Proof. done. Qed.

Lemma initial_quiescent (w : World) : quiescent (initial_state w).
Proof. by constructor. Qed.

(** An executable check that a state is quiescent and [settled]. *)
Definition quiet_rule (e : KeyID * RuleInfo) : bool :=
  (length (keys (dependencies (result e.2))) =? length (flags (dependencies (result e.2))))%nat
  && match inProgressInfo e.2 with NullInfo => true | _ => false end
  && match state e.2 with Incomplete | Complete => true | _ => false end.

Definition quiet {W} (s : State (W := W)) : bool :=
  bool_decide (taskInfos s = ∅)
  && match inputRequests s, finishedInputRequests s, ruleInfosToScan s, readyTaskInfos s, finishedTaskInfos s with
     | [], [], [], [], [] => true | _, _, _, _, _ => false end
  && (numOutstandingUnfinishedTasks s =? 0)%nat
  && forallb quiet_rule (map_to_list (ruleInfos s)).

Lemma quiet_state {W} (s : State (W := W)) : quiet s = true -> quiescent s /\ settled s.
Proof.
  unfold quiet. intros [[[HT%bool_decide_eq_true Hq]%andb_prop Hn%Nat.eqb_eq]%andb_prop Hr]%andb_prop.
  assert (Hrule : forall k ri, ruleInfos s !! k = Some ri -> quiet_rule (k, ri) = true).
  { intros k ri Hk. rewrite forallb_forall in Hr. apply Hr, list_elem_of_In. by apply elem_of_map_to_list. }
  destruct (inputRequests s) eqn:?, (finishedInputRequests s) eqn:?, (ruleInfosToScan s) eqn:?,
    (readyTaskInfos s) eqn:?, (finishedTaskInfos s) eqn:?; try done.
  split; [constructor; try done|]; intros k ri Hk; specialize (Hrule k ri Hk); unfold quiet_rule in Hrule; cbn in Hrule;
    apply andb_prop in Hrule as [[H1%Nat.eqb_eq H3]%andb_prop H4].
  - split; [done|]. unfold isInProgress, isInProgressWaiting, isInProgressComputing.
    destruct (inProgressInfo ri); try done. by destruct (state ri).
  - by destruct (state ri).
Qed.
