(* ===== verification/EngineProps.v ===== *)
(** * Guarantees of the build engine

    The theorems clients of the engine rely on, proved from the invariant of
    EngineRun.v, with concrete instances on the client of EngineExamples.v. *)

From Stdlib Require Import ZArith Lia.
From stdpp Require Import base gmap list strings numbers.
From S2P Require Import Prelude DepKeys Engine EngineInv EngineSafety EngineCycle EngineRun EngineScan EngineSearch EngineGraph EngineExamples.

(** ** Cycles in finite graphs *)
Section FiniteCycle.
Context {A : Type} `{Countable A} (R : relation A) (S : gset A).
Hypothesis Hsucc : forall x, x ∈ S -> exists y, y ∈ S /\ R x y.

Lemma path_closes n : forall l x,
  n = size (S ∖ list_to_set (x :: l)) -> x ∈ S ->
  (forall z, z ∈ x :: l -> rtc R z x) -> exists y, tc R y y.
Proof.
  induction n as [n IH] using lt_wf_ind. intros l x Hn Hx Hl.
  destruct (Hsucc x Hx) as (y & Hy & Hxy).
  destruct (decide (y ∈ x :: l)) as [Hin|Hnin].
  - exists y. eapply tc_rtc_l; [by apply Hl|]. by apply tc_once.
  - eapply (IH _) with (x := y) (l := x :: l); [|done|done|].
    + rewrite Hn. apply subset_size. split; [set_solver|]. intros Hsub.
      assert (y ∈ S ∖ list_to_set (y :: x :: l)) as Hc by (apply Hsub; set_solver). set_solver.
    + intros z [->|Hz]%elem_of_cons; [done|]. eapply rtc_r; [by apply Hl|done].
Qed.

Lemma finite_cycle x : x ∈ S -> exists y, tc R y y.
Proof.
  intros Hx. eapply (path_closes _ [] x); [done..|]. intros z Hz.
  by apply list_elem_of_singleton in Hz as ->.
Qed.
End FiniteCycle.

(** ** What a rule waits for *)

Definition busy (ri : RuleInfo) : bool := isScanning ri || isInProgress ri.

Definition busy_rules {W} (s : State (W := W)) : gset KeyID :=
  dom (filter (fun e => busy e.2 = true) (ruleInfos s)).

Lemma elem_of_busy {W} (s : State (W := W)) k :
  k ∈ busy_rules s <-> exists ri, ruleInfos s !! k = Some ri /\ busy ri = true.
Proof.
  unfold busy_rules. rewrite elem_of_dom. split.
  - intros (ri & [? ?]%map_lookup_filter_Some). eauto.
  - intros (ri & ? & ?). exists ri. by apply map_lookup_filter_Some.
Qed.

Section Props.
Context {W : Type} (client : Client (W := W)) (Hclient : client_ok client).
Abbreviation State := (State (W := W)).

(** With no queued work and nothing running, every busy rule waits for another. *)
Lemma stuck_waits (s : State) k :
  Inv [] [] None 0 s -> numOutstandingUnfinishedTasks s = 0%nat -> drained LoopBottom s ->
  k ∈ busy_rules s -> exists k', k' ∈ busy_rules s /\ waits_on s k k'.
Proof.
  intros HI Hno (Hsq & Hir & Hfr & Hrd) (ri & Hk & Hb)%elem_of_busy.
  assert (Hpaused : forall j rj r, ruleInfos s !! j = Some rj -> r ∈ paused_of rj -> j ∈ busy_rules s).
  { intros j rj r Hj Hr. apply elem_of_busy. exists rj. split; [done|]. unfold busy, isScanning.
    destruct (inv_rule HI j rj Hj) as (_ & Hi). unfold paused_of in Hr.
    destruct (inProgressInfo rj); try by apply elem_of_nil in Hr.
    destruct (state rj); try done; by destruct Hi as (? & ? & ? & _). }
  assert (Hdeferred : forall j rj q, ruleInfos s !! j = Some rj -> q ∈ deferred_of rj -> j ∈ busy_rules s).
  { intros j rj r Hj Hr. apply elem_of_busy. exists rj. split; [done|]. unfold busy, isScanning.
    destruct (inv_rule HI j rj Hj) as (_ & Hi). unfold deferred_of in Hr.
    destruct (inProgressInfo rj); try by apply elem_of_nil in Hr.
    destruct (state rj); try done; by destruct Hi as (? & ? & ? & _). }
  assert (Htask : forall t ti, taskInfos s !! t = Some ti -> exists rj,
    ruleInfos s !! forRuleInfo ti = Some rj /\ forRuleInfo ti ∈ busy_rules s
    /\ inProgressInfo rj = PendingTaskInfo t).
  { intros t ti Ht. destruct (task_rule_in_progress t ti HI Ht) as (rj & Hj & Hp & Hi).
    exists rj. split; [done|]. split; [|done]. apply elem_of_busy. exists rj. split; [done|].
    unfold busy. by rewrite Hp, orb_true_r. }
  unfold busy in Hb. destruct (isScanning ri) eqn:Hsc.
  - apply bool_decide_eq_true in Hsc. pose proof (inv_scan1 HI k ri Hk Hsc) as H1.
    destruct (proj1 (nscan_pos (ruleInfos s) (taskInfos s) ([] ++ ruleInfosToScan s) k))
      as (q & Hq & Hqk); [lia|].
    rewrite Hsq in Hq. destruct Hq as [Hq|[(j & rj & Hj & Hq)|(t & ti & Ht & Hq)]].
    + by apply elem_of_nil in Hq.
    + exists j. split; [eauto|]. exists rj. eauto 8.
    + destruct (Htask t ti Ht) as (rj & Hj & Hbj & Hi). exists (forRuleInfo ti). split; [done|].
      exists rj. split; [done|]. right. eauto 10.
  - cbn in Hb. destruct (in_progress_task k ri HI Hk Hb) as (t & ti & Hi & Ht & Hf).
    assert (Hw : state ri = InProgressWaiting).
    { unfold isInProgress, isInProgressWaiting in Hb. apply orb_true_iff in Hb as [Hb|Hb];
        [by apply bool_decide_eq_true in Hb|].
      destruct (outstanding_pos t HI) as (n & Hn); [|congruence].
      exists ti, ri. rewrite Hf. split; [done|]. split; [done|]. by apply bool_decide_eq_true in Hb. }
    assert (Hpos : (0 < nreq [] (ruleInfos s) (taskInfos s) (inputRequests s)
                     (finishedInputRequests s) t)%nat).
    { rewrite <- (inv_wait HI t ti Ht). destruct (waitCount ti) eqn:E; [|lia].
      destruct (inv_idle HI t ti ri Ht) as [Hin|?]; try done; [by rewrite Hf|].
      rewrite Hrd in Hin. by apply elem_of_nil in Hin. }
    apply nreq_pos in Hpos as (r & Hr & Hrt). rewrite Hir, Hfr in Hr.
    assert (Hrr : request_rule s r = Some k) by (unfold request_rule; by rewrite Hrt; cbn; rewrite Ht; cbn; rewrite Hf).
    destruct Hr as [Hr|[Hr|[Hr|[(j & rj & Hj & Hr)|(u & tu & Hu & Hr)]]]]; try by apply elem_of_nil in Hr.
    + exists j. split; [eauto|]. exists rj. eauto 8.
    + destruct (Htask u tu Hu) as (rj & Hj & Hbj & Hij). exists (forRuleInfo tu). split; [done|].
      exists rj. split; [done|]. left. eauto 10.
Qed.

Context (Hstore : forall d k r res w, db client = Some d -> (db_setRuleResult d k r res w).1 = None).

(** ** Guarantees for every interleaving *)

(** C2: for a client that respects the protocol and a database that can store
    results, in every state reachable by any interleaving of the engine thread
    with the calls of other threads, the engine's invariant holds: rules and
    tasks point at each other consistently, every wait count is the number of
    the task's undelivered requests, every scanning rule has exactly one scan
    request, and the outstanding count is the number of computing rules. *)
Theorem engine_invariant key s0 x :
  quiescent s0 -> reachable client key s0 x -> phase_inv key x.
Proof. by apply reachable_inv. Qed.

(** C3: for a client that respects the protocol of the engine, a database that stores
    every result it is given, and a build that starts in a quiescent engine (with no task,
    no queued work and no rule being scanned or computed), no reachable step fails an
    assertion, aborts or touches freed memory: calls of other threads never do, and the
    engine thread only can while it resolves a cycle, with nothing outstanding and tasks
    left.  Both conditions are needed: a store that fails leads to a failed assertion
    ([EngineExamples.store_failure_asserts]), and a build can leave rules scanning, whose
    records the next build uses ([EngineExamples.scan_record_used_after_build]). *)
Theorem engine_never_crashes key s0 c C :
  quiescent s0 -> reachable client key s0 (c, C) ->
  (forall e, allowed C (engine c) e -> exists s', env_event client e (engine c) = Ok (tt, s'))
  /\ (forall f, step client key c = Crash f -> stuck c).
Proof.
  intros Hq Hr. pose proof (reachable_inv client Hclient Hstore key s0 _ Hq Hr) as HP. split.
  - intros e He. destruct (env_event_safe client Hclient Hstore key c C e HP He) as (s' & E & _). eauto.
  - intros f E. destruct (stuck_dec c) as [?|Hns]; [done|].
    destruct (step_safe client Hclient Hstore key c C HP Hns) as (c' & E' & _). congruence.
Qed.

(** C8: a task on the ready queue, the only tasks whose [inputsAvailable] is
    called, has had all of its requests delivered: none of them is queued,
    paused on a scan, waiting for another task, or finished but undelivered. *)
Theorem ready_task_inputs_delivered key s0 c C t r :
  quiescent s0 -> reachable client key s0 (c, C) -> t ∈ readyTaskInfos (engine c) ->
  let s := engine c in
  in_flight [] (ruleInfos s) (taskInfos s) (inputRequests s) (finishedInputRequests s) r ->
  ireq_taskInfo r <> Some t.
Proof.
  intros Hq Hr Ht s Hfl.
  destruct (phase_Inv key c C (reachable_inv client Hclient Hstore key s0 _ Hq Hr)) as (d & HI).
  destruct (proj2 (inv_ready HI) t Ht) as (ti & ri & Hti & _ & _ & H0).
  rewrite (inv_wait HI t ti Hti) in H0. by eapply nreq_zero_no_flight.
Qed.

(** C6: the engine finds itself stuck (nothing queued, nothing running, tasks
    left) only when the rules it is working on wait for each other in a cycle. *)
Theorem stuck_means_cycle key s0 c C :
  quiescent s0 -> reachable client key s0 (c, C) -> stuck c ->
  exists k, tc (waits_on (engine c)) k k.
Proof.
  intros Hq Hr (Hph & Hw & Hno & HT).
  pose proof (reachable_inv client Hclient Hstore key s0 _ Hq Hr) as HP.
  destruct (phase_inv_loop_inv key c C) as [HI Hd]; [by rewrite Hph|done|].
  rewrite Hph in Hd. specialize (Hd Hw).
  apply map_choose in HT as (t & ti & Ht).
  destruct (task_rule_in_progress t ti HI Ht) as (ri & Hri & Hp & _).
  eapply (finite_cycle _ (busy_rules (engine c))).
  - intros k Hk. by apply stuck_waits.
  - apply elem_of_busy. exists ri. split; [done|]. unfold busy. by rewrite Hp, orb_true_r.
Qed.

(** C7: the cycle the engine reports is real and is found whenever there is one.
    In a stuck state, [findCycle] terminates without failing an assertion; it
    returns the empty list exactly when no rule the build key waits for, directly
    or not, is part of a cycle; and otherwise a list that starts with the build
    key, in which each rule waits for the next, that closes on a rule it contains
    and repeats no other. *)
Theorem findCycle_correct key s0 c C :
  quiescent s0 -> settled s0 -> reachable client key s0 (c, C) -> stuck c ->
  exists l s', findCycle client key (engine c) = Ok (l, s') /\
    ((l = [] /\ forall k, rtc (waits_on (engine c)) key k -> ~ tc (waits_on (engine c)) k k)
     \/ exists p x, l = p ++ [x] /\ head p = Some key /\ waits_path (engine c) l /\ x ∈ p /\ NoDup p).
Proof.
  intros Hq Hs Hr (Hph & Hw & Hno & HT).
  pose proof (reachable_inv client Hclient Hstore key s0 _ Hq Hr) as HP.
  destruct (phase_inv_loop_inv key c C) as [HI _]; [by rewrite Hph|done|].
  pose proof (reachable_scan client key s0 _ Hq Hs Hr) as HS. cbn in HS. unfold config_scan in HS.
  rewrite Hph in HS. by apply findCycle_spec.
Qed.

(** C4: when the loop ends in success, the requested rule is complete in the
    current epoch, no task exists and every queue is empty. *)
Theorem success_means_built key s0 c C :
  quiescent s0 -> reachable client key s0 (c, C) -> phase c = Done true ->
  let s := engine c in
  (exists ri, ruleInfos s !! key = Some ri /\ isComplete (currentEpoch s) ri = true)
  /\ taskInfos s = ∅ /\ numOutstandingUnfinishedTasks s = 0%nat
  /\ ruleInfosToScan s = [] /\ inputRequests s = [] /\ finishedInputRequests s = []
  /\ readyTaskInfos s = [] /\ finishedTaskInfos s = [].
Proof.
  intros Hq Hr Hph. pose proof (reachable_inv client Hclient Hstore key s0 _ Hq Hr) as [_ HP].
  rewrite Hph in HP. destruct HP as (_ & HT & Hno & (? & ? & ? & ?) & ? & ?). auto 10.
Qed.

(** C5: when the loop ends in failure (cancelled, or a cycle nobody broke), the
    engine is quiescent: no task, no queued work, and no rule left scanning or in
    progress, so that another build can start. *)
Theorem failure_is_quiescent key s0 c C :
  quiescent s0 -> reachable client key s0 (c, C) -> phase c = Done false -> quiescent (engine c).
Proof.
  intros Hq Hr Hph. pose proof (reachable_inv client Hclient Hstore key s0 _ Hq Hr) as [_ HP].
  by rewrite Hph in HP.
Qed.
End Props.

(** ** Concrete instances *)

Definition c0 : Client (W := World) := example_client false.

(** The state in which [build] calls [executeTasks] for the first time. *)
Definition start_state (l : list (KeyID * Spec)) : State (W := World) :=
  upd_currentEpoch (fun _ => 1%Z) (initial_state (world0 l)).

Lemma start_quiescent l : quiescent (start_state l).
Proof. by constructor. Qed.

Lemma start_settled l : settled (start_state l).
Proof. intros k ri. cbn. by rewrite lookup_empty. Qed.

Definition run_from (l : list (KeyID * Spec)) (n : nat) : outcome (Config (W := World)) :=
  obind (start_execution c0 "R" (start_state l))
    (fun p => run c0 n no_events "R" (mkConfig LoopTop false p.2)).

(** The configuration after [n] steps. *)
Definition after (l : list (KeyID * Spec)) (n : nat) : Config (W := World) :=
  match run_from l n with Ok c => c | Crash _ => mkConfig (Done false) false (start_state []) end.

Lemma after_reachable l n : is_ok (run_from l n) = true ->
  exists C, reachable c0 "R" (start_state l) (after l n, C).
Proof.
  unfold after. destruct (run_from l n) as [c|] eqn:Hrun; [|done]. intros _. revert Hrun.
  unfold run_from. destruct (start_execution c0 "R" (start_state l)) as [[[] s]|] eqn:E; [|done].
  cbn. intros Hrun. eapply run_reachable; [by constructor|exact Hrun].
Qed.

Definition specs_cycle : list (KeyID * Spec) :=
  [("R", node ["A"] 1); ("A", node ["B"] 1); ("B", node ["A"] 1)].

Lemma engine_invariant_witness :
  exists C, phase_inv "R" (after specs3 7, C) /\ size (taskInfos (engine (after specs3 7))) = 3%nat.
Proof.
  destruct (after_reachable specs3 7) as [C HC]; [vm_compute; reflexivity|]. exists C. split.
  - exact (engine_invariant c0 (example_client_ok false) example_store "R" _ _ (start_quiescent _) HC).
  - vm_compute. reflexivity.
Defined.

Lemma engine_never_crashes_witness :
  (exists s', env_event c0 EnvCancelBuild (engine (after specs3 7)) = Ok (tt, s'))
  /\ (forall f, step c0 "R" (after specs3 7) = Crash f -> stuck (after specs3 7)).
Proof.
  destruct (after_reachable specs3 7) as [C HC]; [vm_compute; reflexivity|].
  pose proof (engine_never_crashes c0 (example_client_ok false) example_store "R" _ _ C
    (start_quiescent _) HC) as [H1 H2].
  split; [apply (H1 EnvCancelBuild I) | exact H2].
Defined.

(** After three steps the task of the leaf "R" is ready. *)
Lemma ready_task_inputs_delivered_witness :
  let s := engine (after [("R", leaf 1)] 3) in
  readyTaskInfos s = [0%N] /\
  forall r, in_flight [] (ruleInfos s) (taskInfos s) (inputRequests s) (finishedInputRequests s) r ->
    ireq_taskInfo r <> Some 0%N.
Proof.
  split; [vm_compute; reflexivity|]. intros r.
  destruct (after_reachable [("R", leaf 1)] 3) as [C HC]; [vm_compute; reflexivity|].
  apply (ready_task_inputs_delivered c0 (example_client_ok false) example_store "R" _ _ C 0%N r
    (start_quiescent _) HC).
  replace (readyTaskInfos _) with [0%N] by (vm_compute; reflexivity). left.
Defined.

Lemma stuck_means_cycle_witness :
  exists k, tc (waits_on (engine (after specs_cycle 17))) k k.
Proof.
  destruct (after_reachable specs_cycle 17) as [C HC]; [vm_compute; reflexivity|].
  apply (stuck_means_cycle c0 (example_client_ok false) example_store "R" _ _ C (start_quiescent _) HC).
  split; [vm_compute; reflexivity|]. split; [vm_compute; reflexivity|].
  split; [vm_compute; reflexivity|]. intros H. apply (f_equal size) in H. vm_compute in H. discriminate.
Defined.

Lemma findCycle_correct_witness :
  exists l s', findCycle c0 "R" (engine (after specs_cycle 17)) = Ok (l, s') /\
    exists p x, l = p ++ [x] /\ head p = Some "R" /\ waits_path (engine (after specs_cycle 17)) l /\ x ∈ p.
Proof.
  destruct (after_reachable specs_cycle 17) as [C HC]; [vm_compute; reflexivity|].
  destruct (findCycle_correct c0 (example_client_ok false) example_store "R" _ _ C (start_quiescent _)
    (start_settled _) HC) as (l & s' & E & H).
  { split; [vm_compute; reflexivity|]. split; [vm_compute; reflexivity|].
    split; [vm_compute; reflexivity|]. intros H. apply (f_equal size) in H. vm_compute in H. discriminate. }
  exists l, s'. split; [exact E|]. destruct H as [[-> _]|(p & x & H1 & H2 & H3 & H4 & _)].
  - exfalso. assert (Hne : match findCycle c0 "R" (engine (after specs_cycle 17)) with
                           | Ok (l, _) => negb (Nat.eqb (length l) 0) | Crash _ => false end = true)
      by (vm_compute; reflexivity). rewrite E in Hne. discriminate.
  - exists p, x. auto.
Defined.

(** The engine in its second build of [specs3], nothing changed, after [n] steps. *)
Definition second_start : State (W := World) :=
  match build c0 fuel0 no_events "R" (initial_state (world0 specs3)) with
  | Ok (_, s) => upd_currentEpoch (fun _ => 2%Z) s
  | Crash _ => initial_state (world0 [])
  end.
Definition second_run (n : nat) : outcome (Config (W := World)) :=
  obind (start_execution c0 "R" second_start)
    (fun p => run c0 n no_events "R" (mkConfig LoopTop false p.2)).
Definition second (n : nat) : Config (W := World) :=
  match second_run n with Ok c => c | Crash _ => mkConfig (Done false) false (start_state []) end.

Lemma second_quiet : quiescent second_start /\ settled second_start.
Proof. apply quiet_state. vm_compute. reflexivity. Qed.

Lemma second_reachable n : is_ok (second_run n) = true ->
  exists C, reachable c0 "R" second_start (second n, C).
Proof.
  unfold second. destruct (second_run n) as [c|] eqn:Hrun; [|done]. intros _. revert Hrun.
  unfold second_run. destruct (start_execution c0 "R" second_start) as [[[] s]|] eqn:E; [|done].
  cbn. intros Hrun. eapply run_reachable; [by constructor|exact Hrun].
Qed.

(** In the second build "A", which depends on "B", is found up to date. *)
Lemma skipped_rules_up_to_date_witness :
  exists ri, ruleInfos (engine (second 11)) !! "A" = Some ri /\ state ri = DoesNotNeedToRun
    /\ deps_size (dependencies (result ri)) = 1%nat /\ builtAt (result ri) <> 0%Z.
Proof.
  destruct (second_reachable 11) as [C HC]; [vm_compute; reflexivity|].
  destruct (ruleInfos (engine (second 11)) !! "A") as [ri|] eqn:Hk; [|vm_compute in Hk; discriminate].
  assert (Hst : state ri = DoesNotNeedToRun /\ deps_size (dependencies (result ri)) = 1%nat).
  { revert Hk. vm_compute. intros [= <-]. auto. }
  exists ri. split; [reflexivity|]. split; [apply Hst|]. split; [apply Hst|].
  exact (proj1 (skipped_rules_up_to_date c0 "R" second_start (second 11) C "A" ri
    (proj1 second_quiet) (proj2 second_quiet) HC Hk (proj1 Hst))).
Defined.

Lemma success_means_built_witness :
  let s := engine (after specs3 400) in
  phase (after specs3 400) = Done true /\ exists ri, ruleInfos s !! "R" = Some ri /\ isComplete 1 ri = true.
Proof.
  assert (Hph : phase (after specs3 400) = Done true) by (vm_compute; reflexivity).
  split; [exact Hph|].
  destruct (after_reachable specs3 400) as [C HC]; [vm_compute; reflexivity|].
  destruct (success_means_built c0 (example_client_ok false) example_store "R" _ _ C
    (start_quiescent _) HC Hph) as [(ri & Hri & Hc) _]. exists ri. split; [exact Hri|].
  replace (currentEpoch (engine (after specs3 400))) with 1%Z in Hc by (vm_compute; reflexivity).
  exact Hc.
Defined.

Lemma failure_is_quiescent_witness : quiescent (engine (after specs_cycle 19)).
Proof.
  destruct (after_reachable specs_cycle 19) as [C HC]; [vm_compute; reflexivity|].
  apply (failure_is_quiescent c0 (example_client_ok false) example_store "R" _ _ C (start_quiescent _) HC).
  vm_compute. reflexivity.
Defined.
