(* ===== verification/Coding.v ===== *)
(** * Binary coding

    [BinaryEncoder] and [BinaryDecoder] (lib/Basic BinaryCoding.h) with the coding
    traits of the types llbuild stores in its database: integers, strings, file
    information (FileInfo.h), command signatures (Hashing.h) and string lists
    (StringList.h).  Bytes are integers; a decoder reads by position, and reading
    outside the data is a fault.  Each [Coding] is proved [Lawful]: what its writer
    appends is what its reader consumes, giving back the value. *)

From Stdlib Require Import ZArith Lia.
From stdpp Require Import base list numbers strings.
From S2P Require Import Prelude.

Open Scope Z_scope.

(** ** The streams *)

(** The state of an encoder: [encdata]. *)
Abbreviation Encoder := (M (list Z)).

Record BinaryDecoder := mkDecoder { data : list Z; pos : nat }.
Abbreviation Decoder := (M BinaryDecoder).

Definition u8 (v : Z) : Z := v mod 2 ^ 8.
Definition u16 (v : Z) : Z := v mod 2 ^ 16.
Definition u32 (v : Z) : Z := v mod 2 ^ 32.
Definition u64 (v : Z) : Z := v mod 2 ^ 64.

(** ** Writing *)

Definition write8 (v : Z) : Encoder unit := modify (fun enc => enc ++ [v]).
Definition writeBool (v : bool) : Encoder unit := write8 (Z.b2z v).
Definition write16 (v : Z) : Encoder unit :=
  write8 (u8 (Z.shiftr v 0)) ;;; write8 (u8 (Z.shiftr v 8)).
Definition write32 (v : Z) : Encoder unit :=
  write16 (u16 (Z.shiftr v 0)) ;;; write16 (u16 (Z.shiftr v 16)).
Definition write64 (v : Z) : Encoder unit :=
  write32 (u32 (Z.shiftr v 0)) ;;; write32 (u32 (Z.shiftr v 32)).
Definition writeBytes (bytes : list Z) : Encoder unit := modify (fun enc => enc ++ bytes).
Definition writeString (value : list Z) : Encoder unit :=
  let size := u32 (Z.of_nat (length value)) in
  ensure (size =? Z.of_nat (length value)) (AssertFailed "size == value.size()") ;;;
  write32 size ;;; writeBytes value.

(** ** Reading *)

Definition read8 : Decoder Z := fun d =>
  match data d !! pos d with
  | Some b => Ok (b, mkDecoder (data d) (S (pos d)))
  | None => Crash (OutOfBounds "BinaryDecoder")
  end.
Definition readBool : Decoder bool := b <~ read8; ret (negb (b =? 0)).
Definition read16 : Decoder Z :=
  lo <~ read8; hi <~ read8; ret (Z.lor lo (Z.shiftl hi 8)).
Definition read32 : Decoder Z :=
  lo <~ read16; hi <~ read16; ret (Z.lor lo (Z.shiftl hi 16)).
Definition read64 : Decoder Z :=
  lo <~ read32; hi <~ read32; ret (Z.lor lo (Z.shiftl hi 32)).
Definition readBytes (count : nat) : Decoder (list Z) := fun d =>
  if (pos d + count <=? length (data d))%nat
  then Ok (take count (drop (pos d) (data d)), mkDecoder (data d) (pos d + count))
  else Crash (AssertFailed "pos + count <= data.size()").
Definition readString : Decoder (list Z) := size <~ read32; readBytes (Z.to_nat size).

Definition isEmpty (d : BinaryDecoder) : bool := (pos d =? length (data d))%nat.
Definition finish : Decoder unit := fun d =>
  if isEmpty d then Ok (tt, d) else Crash (AssertFailed "finish").

(** ** What coding means *)

(** [m] appends [bs]. *)
Definition emits (m : Encoder unit) (bs : list Z) : Prop :=
  forall enc, m enc = Ok (tt, enc ++ bs).

(** [m] reads [bs], wherever it stands in the data, and returns [a]. *)
Definition parses {A} (m : Decoder A) (bs : list Z) (a : A) : Prop :=
  forall pre post, m (mkDecoder (pre ++ bs ++ post) (length pre))
    = Ok (a, mkDecoder (pre ++ bs ++ post) (length pre + length bs)).

(** [BinaryCodingTraits<T>]: an encoder and a decoder. *)
Record Coding (A : Type) := mkCoding { encode : A -> Encoder unit; decode : Decoder A }.
Arguments mkCoding {A} _ _.
Arguments encode {A} _ _.
Arguments decode {A} _.

(** The law of a coding, on the values it can represent. *)
Class Lawful {A} (valid : A -> Prop) (c : Coding A) : Prop :=
  lawful : forall a, valid a -> exists bs, emits (encode c a) bs /\ parses (decode c) bs a.

(** ** Sequencing *)

Lemma emits_ret : emits (ret tt) [].
Proof. intros enc. by rewrite app_nil_r. Qed.

Lemma emits_bind m1 m2 b1 b2 : emits m1 b1 -> emits m2 b2 -> emits (m1 ;;; m2) (b1 ++ b2).
Proof. intros H1 H2 enc. unfold bind. by rewrite H1, H2, app_assoc. Qed.

Lemma emits_bytes bs : emits (writeBytes bs) bs.
Proof. done. Qed.

Lemma emits_ensure b e m bs : b = true -> emits m bs -> emits (ensure b e ;;; m) bs.
Proof. by intros ->. Qed.

Lemma parses_ret {A} (a : A) : parses (ret a) [] a.
Proof. intros pre post. cbn. by rewrite Nat.add_0_r. Qed.

Lemma parses_bind {A B} (m : Decoder A) (f : A -> Decoder B) b1 b2 a b :
  parses m b1 a -> parses (f a) b2 b -> parses (bind m f) (b1 ++ b2) b.
Proof.
  intros H1 H2 pre post. unfold bind. rewrite <- app_assoc, (H1 pre (b2 ++ post)).
  specialize (H2 (pre ++ b1) post). rewrite length_app, <- app_assoc in H2. rewrite H2.
  by rewrite length_app, Nat.add_assoc.
Qed.

(** A read whose result is only rewrapped. *)
Lemma parses_map {A B} (m : Decoder A) (f : A -> B) bs a :
  parses m bs a -> parses (x <~ m; ret (f x)) bs (f a).
Proof. intros H. rewrite <- (app_nil_r bs). eapply parses_bind; [exact H|apply parses_ret]. Qed.

Lemma parses_read8 v : parses read8 [v] v.
Proof.
  intros pre post. unfold read8. cbn [data pos]. rewrite lookup_app_r, Nat.sub_diag by done.
  cbn. by rewrite Nat.add_1_r.
Qed.

Lemma parses_bytes bs : parses (readBytes (length bs)) bs bs.
Proof.
  intros pre post. unfold readBytes. cbn [data pos]. rewrite !length_app.
  destruct (Nat.leb_spec (length pre + length bs) (length pre + (length bs + length post))); [|lia].
  by rewrite drop_app_length, take_app_length.
Qed.

(** ** Integers *)

Lemma lor_split v k : 0 <= k -> Z.lor (v mod 2 ^ k) (Z.shiftl (v / 2 ^ k) k) = v.
Proof.
  intros Hk. apply Z.bits_inj'. intros n Hn. rewrite Z.lor_spec, Z.shiftl_spec by done.
  destruct (Z.ltb_spec n k).
  - rewrite Z.mod_pow2_bits_low by lia. rewrite (Z.testbit_neg_r _ (n - k)) by lia. apply orb_false_r.
  - rewrite Z.mod_pow2_bits_high, Z.div_pow2_bits by lia. cbn. f_equal. lia.
Qed.

(** Splitting a value in two halves and joining them again. *)
Lemma halves v k : 0 < k -> 0 <= v < 2 ^ (k + k) ->
  Z.lor (Z.shiftr v 0 mod 2 ^ k) (Z.shiftl (Z.shiftr v k mod 2 ^ k) k) = v.
Proof.
  intros Hk Hv. rewrite Z.shiftr_0_r, Z.shiftr_div_pow2 by lia.
  rewrite (Z.mod_small (v / 2 ^ k)); [apply lor_split; lia|].
  rewrite Z.pow_add_r in Hv by lia. split; [apply Z.div_pos; lia|].
  apply Z.div_lt_upper_bound; lia.
Qed.

Definition range (n : Z) (v : Z) : Prop := 0 <= v < 2 ^ n.

Definition c8 : Coding Z := mkCoding write8 read8.
Definition c16 : Coding Z := mkCoding write16 read16.
Definition c32 : Coding Z := mkCoding write32 read32.
Definition c64 : Coding Z := mkCoding write64 read64.

#[global] Instance c8_lawful : Lawful (range 8) c8.
Proof. intros v _. exists [v]. split; [done|apply parses_read8]. Qed.

(** A coding of twice the width, from one of the halves. *)
Lemma double_lawful k (c c' : Coding Z) : 0 < k -> Lawful (range k) c ->
  (forall v, encode c' v = (encode c (Z.shiftr v 0 mod 2 ^ k) ;;; encode c (Z.shiftr v k mod 2 ^ k))) ->
  decode c' = (lo <~ decode c; hi <~ decode c; ret (Z.lor lo (Z.shiftl hi k))) ->
  Lawful (range (k + k)) c'.
Proof.
  intros Hk Hc He Hd v Hv.
  destruct (Hc (Z.shiftr v 0 mod 2 ^ k)) as (b1 & E1 & D1); [apply Z.mod_pos_bound; lia|].
  destruct (Hc (Z.shiftr v k mod 2 ^ k)) as (b2 & E2 & D2); [apply Z.mod_pos_bound; lia|].
  exists (b1 ++ b2). rewrite He, Hd. split; [by apply emits_bind|].
  eapply parses_bind; [exact D1|].
  pose proof (parses_map (decode c) (fun hi => Z.lor (Z.shiftr v 0 mod 2 ^ k) (Z.shiftl hi k)) b2 _ D2) as H.
  cbn beta in H. by rewrite (halves v k Hk Hv) in H.
Qed.

#[global] Instance c16_lawful : Lawful (range 16) c16.
Proof. by apply (double_lawful 8 c8 c16 eq_refl c8_lawful). Qed.
#[global] Instance c32_lawful : Lawful (range 32) c32.
Proof. by apply (double_lawful 16 c16 c32 eq_refl c16_lawful). Qed.
#[global] Instance c64_lawful : Lawful (range 64) c64.
Proof. by apply (double_lawful 32 c32 c64 eq_refl c32_lawful). Qed.

(** Coded numbers have the size of their type. *)
Lemma write64_length v bs : emits (write64 v) bs -> length bs = 8%nat.
Proof. intros E. specialize (E []). cbn in E. by injection E as <-. Qed.
Lemma write32_length v bs : emits (write32 v) bs -> length bs = 4%nat.
Proof. intros E. specialize (E []). cbn in E. by injection E as <-. Qed.

Lemma emits_64 v : range 64 v -> exists bs, emits (write64 v) bs /\ parses read64 bs v /\ length bs = 8%nat.
Proof. intros Hv. destruct (c64_lawful v Hv) as (bs & E & D). exists bs. split; [exact E|]. split; [exact D|]. by eapply write64_length. Qed.
Lemma emits_32 v : range 32 v -> exists bs, emits (write32 v) bs /\ parses read32 bs v /\ length bs = 4%nat.
Proof. intros Hv. destruct (c32_lawful v Hv) as (bs & E & D). exists bs. split; [exact E|]. split; [exact D|]. by eapply write32_length. Qed.

Lemma emits_unique m bs bs' : emits m bs -> emits m bs' -> bs = bs'.
Proof. intros E E'. specialize (E []). rewrite (E' []) in E. by injection E. Qed.

Definition cBool : Coding bool := mkCoding writeBool readBool.
#[global] Instance cBool_lawful : Lawful (fun _ => True) cBool.
Proof.
  intros b _. exists [Z.b2z b]. split; [done|]. cbn. unfold readBool.
  pose proof (parses_map read8 (fun x => negb (x =? 0)) _ _ (parses_read8 (Z.b2z b))) as H.
  by destruct b.
Qed.

Definition cString : Coding (list Z) := mkCoding writeString readString.
#[global] Instance cString_lawful : Lawful (fun v => range 32 (Z.of_nat (length v))) cString.
Proof.
  intros v Hv. destruct (c32_lawful _ Hv) as (bs & He & Hd). exists (bs ++ v). cbn [encode decode cString].
  assert (E : u32 (Z.of_nat (length v)) = Z.of_nat (length v)) by (apply Z.mod_small; exact Hv).
  split.
  - unfold writeString. rewrite E. apply emits_ensure; [apply Z.eqb_refl|]. by apply emits_bind.
  - unfold readString. eapply parses_bind; [exact Hd|]. cbn beta. rewrite Nat2Z.id. apply parses_bytes.
Qed.

(** ** File information *)

Record FileTimestamp := mkTimestamp { seconds : Z; nanoseconds : Z }.
(** [bytes] has 32 elements. *)
Record FileChecksum := mkChecksum { bytes : list Z }.
Record FileInfo := mkFileInfo {
  device : Z; inode : Z; mode : Z; size : Z; modTime : FileTimestamp; checksum : FileChecksum }.

Definition zeroChecksum : FileChecksum := mkChecksum (replicate 32 0).
Definition zeroFileInfo : FileInfo := mkFileInfo 0 0 0 0 (mkTimestamp 0 0) zeroChecksum.

Definition FileTimestamp_eqb (a b : FileTimestamp) : bool :=
  (seconds a =? seconds b) && (nanoseconds a =? nanoseconds b).
Definition FileTimestamp_ltb (a b : FileTimestamp) : bool :=
  (seconds a <? seconds b) || ((seconds a =? seconds b) && (nanoseconds a <? nanoseconds b)).
Definition FileTimestamp_leb (a b : FileTimestamp) : bool :=
  (seconds a <? seconds b) || ((seconds a =? seconds b) && (nanoseconds a <=? nanoseconds b)).
Definition FileChecksum_eqb (a b : FileChecksum) : bool := bool_decide (bytes a = bytes b).

Definition isMissing (f : FileInfo) : bool :=
  (device f =? 0) && (inode f =? 0) && (mode f =? 0) && (size f =? 0)
  && (seconds (modTime f) =? 0) && (nanoseconds (modTime f) =? 0).

(** Note that the mode is not compared. *)
Definition FileInfo_eqb (a b : FileInfo) : bool :=
  (device a =? device b) && (inode a =? inode b) && (size a =? size b)
  && FileTimestamp_eqb (modTime a) (modTime b) && FileChecksum_eqb (checksum a) (checksum b).

Definition S_IFDIR : Z := 0x4000.
Definition isDirectory (f : FileInfo) : bool := negb (Z.land (mode f) S_IFDIR =? 0).

(** What [stat] reports, when it succeeds. *)
Record StatStruct := mkStat {
  st_dev : Z; st_ino : Z; st_mode : Z; st_size : Z; tv_sec : Z; tv_nsec : Z }.

Definition getInfoForPath (st : option StatStruct) : FileInfo :=
  match st with
  | None => zeroFileInfo
  | Some buf =>
      let result := mkFileInfo (u64 (st_dev buf)) (u64 (st_ino buf)) (u64 (st_mode buf))
        (u64 (st_size buf)) (mkTimestamp (u64 (tv_sec buf)) (u64 (tv_nsec buf))) zeroChecksum in
      if isMissing result
      then mkFileInfo (device result) (inode result) (mode result) (size result)
             (mkTimestamp (seconds (modTime result)) 1) (checksum result)
      else result
  end.

(** Coding of file information. *)
Definition writeTimestamp (t : FileTimestamp) : Encoder unit :=
  write64 (seconds t) ;;; write64 (nanoseconds t).
Definition readTimestamp : Decoder FileTimestamp :=
  s <~ read64; n <~ read64; ret (mkTimestamp s n).

(** The loop over the bytes of a checksum. *)
Fixpoint readN (n : nat) : Decoder (list Z) :=
  match n with
  | O => ret []
  | S n' => b <~ read8; l <~ readN n'; ret (b :: l)
  end.
Definition writeChecksum (c : FileChecksum) : Encoder unit := mapM_ write8 (bytes c).
Definition readChecksum : Decoder FileChecksum := l <~ readN 32; ret (mkChecksum l).

Definition writeFileInfo (f : FileInfo) : Encoder unit :=
  write64 (device f) ;;; write64 (inode f) ;;; write64 (mode f) ;;; write64 (size f) ;;;
  writeTimestamp (modTime f) ;;; writeChecksum (checksum f).
Definition readFileInfo : Decoder FileInfo :=
  d <~ read64; i <~ read64; m <~ read64; s <~ read64; t <~ readTimestamp; c <~ readChecksum;
  ret (mkFileInfo d i m s t c).

Definition cFileInfo : Coding FileInfo := mkCoding writeFileInfo readFileInfo.

Definition valid_info (f : FileInfo) : Prop :=
  range 64 (device f) /\ range 64 (inode f) /\ range 64 (mode f) /\ range 64 (size f)
  /\ range 64 (seconds (modTime f)) /\ range 64 (nanoseconds (modTime f))
  /\ length (bytes (checksum f)) = 32%nat.

Lemma emits_write8s l : emits (mapM_ write8 l) l.
Proof.
  induction l as [|b l IH]; [apply emits_ret|]. exact (emits_bind (write8 b) _ [b] l (fun _ => eq_refl) IH).
Qed.

Lemma parses_readN l : parses (readN (length l)) l l.
Proof.
  induction l as [|b l IH]; [apply parses_ret|]. cbn [readN length].
  apply (parses_bind read8 _ [b] l b); [apply parses_read8|].
  by apply (parses_map (readN (length l)) (cons b)).
Qed.

#[global] Instance cFileInfo_lawful : Lawful valid_info cFileInfo.
Proof.
  intros f (H1 & H2 & H3 & H4 & H5 & H6 & H7).
  destruct (c64_lawful _ H1) as (b1 & E1 & D1), (c64_lawful _ H2) as (b2 & E2 & D2),
    (c64_lawful _ H3) as (b3 & E3 & D3), (c64_lawful _ H4) as (b4 & E4 & D4),
    (c64_lawful _ H5) as (b5 & E5 & D5), (c64_lawful _ H6) as (b6 & E6 & D6).
  exists (b1 ++ b2 ++ b3 ++ b4 ++ (b5 ++ b6) ++ bytes (checksum f)). split.
  - repeat first [ done | apply emits_bind | apply emits_write8s ].
  - cbn [decode cFileInfo]. unfold readFileInfo.
    eapply parses_bind; [exact D1|]. eapply parses_bind; [exact D2|].
    eapply parses_bind; [exact D3|]. eapply parses_bind; [exact D4|].
    eapply parses_bind.
    { unfold readTimestamp. eapply parses_bind; [exact D5|].
      exact (parses_map _ (fun n => mkTimestamp (seconds (modTime f)) n) _ _ D6). }
    pose proof (parses_readN (bytes (checksum f))) as Dc. rewrite H7 in Dc.
    apply (parses_map _ mkChecksum) in Dc. fold readChecksum in Dc.
    destruct f as [d i m s [ts tn] [cs]].
    exact (parses_map _ (fun c => mkFileInfo d i m s (mkTimestamp ts tn) c) _ _ Dc).
Qed.

(** ** String lists *)

(** [contents] is the allocated array, which the packing constructor makes one
    byte longer than [slSize]. *)
Record StringList := mkStringList { contents : list Z; slSize : nat }.

Definition emptyStringList : StringList := mkStringList [] 0.

Fixpoint pack (values : list (list Z)) : outcome (list Z) :=
  match values with
  | [] => Ok []
  | v :: rest =>
      if bool_decide (0 ∈ v) then Crash (AssertFailed "value.find(NUL) == npos")
      else obind (pack rest) (fun p => Ok (v ++ [0] ++ p))
  end.

(** [StringList(ArrayRef)]. *)
Definition newStringList (values : list (list Z)) : outcome StringList :=
  obind (pack values) (fun p => Ok (mkStringList (p ++ [0]) (length p))).

(** [StringRef(&contents[i])]: the bytes up to the next NUL; running off the
    array is out of bounds. *)
Fixpoint c_string (l : list Z) : outcome (list Z) :=
  match l with
  | [] => Crash (OutOfBounds "StringList")
  | b :: l' => if b =? 0 then Ok [] else obind (c_string l') (fun s => Ok (b :: s))
  end.

Fixpoint values_loop (fuel : nat) (l : StringList) (i : nat) : outcome (list (list Z)) :=
  match fuel with
  | O => Crash OutOfFuel
  | S fuel' =>
      if (i <? slSize l)%nat then
        obind (c_string (drop i (contents l))) (fun v =>
          if (i + length v <=? slSize l)%nat
          then obind (values_loop fuel' l (i + length v + 1)) (fun vs => Ok (v :: vs))
          else Crash (AssertFailed "i + value.size() <= size"))
      else Ok []
  end.
Definition getValues (l : StringList) : outcome (list (list Z)) := values_loop (S (slSize l)) l 0.

Definition writeStringList (l : StringList) : Encoder unit :=
  write64 (Z.of_nat (slSize l)) ;;; writeBytes (take (slSize l) (contents l)).
Definition readStringList : Decoder StringList :=
  n <~ read64; c <~ readBytes (Z.to_nat n); ret (mkStringList c (Z.to_nat n)).

(** The decoded list, which has no byte to spare. *)
Definition trim (l : StringList) : StringList := mkStringList (take (slSize l) (contents l)) (slSize l).

Lemma stringList_coding l : (slSize l <= length (contents l))%nat -> range 64 (Z.of_nat (slSize l)) ->
  exists bs, emits (writeStringList l) bs /\ parses readStringList bs (trim l).
Proof.
  intros Hl Hr. destruct (c64_lawful _ Hr) as (bs & He & Hd).
  exists (bs ++ take (slSize l) (contents l)). split; [by apply emits_bind|].
  unfold readStringList. eapply parses_bind; [exact Hd|]. cbn beta. rewrite Nat2Z.id.
  pose proof (parses_bytes (take (slSize l) (contents l))) as Hb.
  rewrite length_take_le in Hb by done.
  exact (parses_map _ (fun c => mkStringList c (slSize l)) _ _ Hb).
Qed.

Definition no_nul (v : list Z) : Prop := 0 ∉ v.

Definition packed (values : list (list Z)) : list Z := concat (map (fun v => v ++ [0]) values).

Lemma pack_ok values : Forall no_nul values -> pack values = Ok (packed values).
Proof.
  induction 1 as [|v l Hv _ IH]; [done|]. cbn [pack]. rewrite bool_decide_eq_false_2 by done.
  rewrite IH. unfold packed. cbn. by rewrite <- app_assoc.
Qed.

Lemma c_string_app v rest : no_nul v -> c_string (v ++ 0 :: rest) = Ok v.
Proof.
  induction v as [|b v IH]; intros Hv; [done|]. cbn [c_string app].
  destruct (Z.eqb_spec b 0) as [->|_]; [by destruct Hv; left|].
  rewrite IH; [done|]. intros H. apply Hv. by right.
Qed.

Lemma values_loop_packed values tail : Forall no_nul values -> forall done fuel,
  (length (packed values) < fuel)%nat ->
  values_loop fuel (mkStringList (done ++ packed values ++ tail) (length done + length (packed values)))
    (length done) = Ok values.
Proof.
  induction 1 as [|v l Hv _ IH]; intros pre fuel Hf; (destruct fuel as [|fuel]; [lia|]); cbn [values_loop slSize contents].
  - destruct (Nat.ltb_spec (length pre) (length pre + length (packed []))) as [Hlt|_]; [cbn in Hlt; lia|done].
  - change (packed (v :: l)) with ((v ++ [0]) ++ packed l) in *. rewrite !length_app in *. cbn [length] in *.
    destruct (Nat.ltb_spec (length pre) (length pre + (length v + 1 + length (packed l)))); [|lia].
    rewrite drop_app_length, <- !app_assoc. cbn [app]. rewrite c_string_app by done. cbn [obind].
    destruct (Nat.leb_spec (length pre + length v) (length pre + (length v + 1 + length (packed l)))); [|lia].
    specialize (IH (pre ++ v ++ [0]) fuel). rewrite !length_app in IH. cbn [length] in IH.
    rewrite <- !app_assoc in IH. cbn [app] in IH.
    replace (length pre + (length v + 1 + length (packed l)))%nat
      with (length pre + (length v + 1) + length (packed l))%nat by lia.
    replace (length pre + length v + 1)%nat with (length pre + (length v + 1))%nat by lia.
    rewrite IH by lia. done.
Qed.

Lemma getValues_packed values tail : Forall no_nul values ->
  getValues (mkStringList (packed values ++ tail) (length (packed values))) = Ok values.
Proof. intros H. refine (values_loop_packed values tail H [] (S (length (packed values))) _). lia. Qed.

(** ** Guarantees *)

(** A list of NUL-free strings, packed, written and read back anywhere in a
    stream, is the same list, and the reader stops exactly behind it. *)
Theorem string_list_roundtrip values pre post :
  Forall no_nul values -> range 64 (Z.of_nat (length (packed values))) ->
  exists l bs l', newStringList values = Ok l /\ writeStringList l [] = Ok (tt, bs)
    /\ readStringList (mkDecoder (pre ++ bs ++ post) (length pre))
       = Ok (l', mkDecoder (pre ++ bs ++ post) (length pre + length bs))
    /\ getValues l' = Ok values.
Proof.
  intros Hv Hr. set (l := mkStringList (packed values ++ [0]) (length (packed values))).
  destruct (stringList_coding l) as (bs & He & Hd); [cbn; rewrite length_app; lia|exact Hr|].
  exists l, bs, (trim l). split; [unfold newStringList; by rewrite pack_ok|]. split; [apply He|].
  split; [apply Hd|]. unfold trim, l. cbn [slSize contents]. rewrite take_app_length.
  rewrite <- (app_nil_r (packed values)) at 1. by apply getValues_packed.
Qed.

Lemma string_list_roundtrip_witness :
  exists l bs l', newStringList [[97; 98]; []; [99]] = Ok l /\ writeStringList l [] = Ok (tt, bs)
    /\ readStringList (mkDecoder ([7] ++ bs ++ [8]) 1)
       = Ok (l', mkDecoder ([7] ++ bs ++ [8]) (1 + length bs)) /\ getValues l' = Ok [[97; 98]; []; [99]].
Proof.
  apply (string_list_roundtrip [[97; 98]; []; [99]] [7] [8]); [|split; vm_compute; congruence].
  repeat constructor; intros H; apply (bool_decide_eq_true_2 _) in H; vm_compute in H; discriminate.
Defined.

(** File information written to a stream is read back unchanged. *)
Theorem file_info_roundtrip f pre post : valid_info f ->
  exists bs, writeFileInfo f [] = Ok (tt, bs)
    /\ readFileInfo (mkDecoder (pre ++ bs ++ post) (length pre))
       = Ok (f, mkDecoder (pre ++ bs ++ post) (length pre + length bs)).
Proof. intros H. destruct (cFileInfo_lawful f H) as (bs & He & Hd). exists bs. split; [apply He|apply Hd]. Qed.

Lemma file_info_roundtrip_witness :
  let f := mkFileInfo 1 2 0x81A4 300 (mkTimestamp 1700000000 5) (mkChecksum (replicate 32 171)) in
  exists bs, writeFileInfo f [] = Ok (tt, bs)
    /\ readFileInfo (mkDecoder ([] ++ bs ++ []) 0) = Ok (f, mkDecoder ([] ++ bs ++ []) (0 + length bs)).
Proof.
  intros f. apply (file_info_roundtrip f [] []).
  repeat split; vm_compute; congruence.
Defined.

(** File information describes a missing file exactly when [stat] failed: no
    existing file, whatever it reports, is mistaken for a missing one. *)
Theorem missing_iff_stat_failed st : isMissing (getInfoForPath st) = true <-> st = None.
Proof.
  split; [|by intros ->]. destruct st as [buf|]; [|done]. cbn [getInfoForPath].
  match goal with |- context [if isMissing ?r then _ else _] => destruct (isMissing r) eqn:E end;
    intros H; [|congruence]. unfold isMissing in H.
  apply andb_prop in H as [_ H]. done.
Qed.

(** A socket passes for a directory: its file type shares a bit with [S_IFDIR]. *)
Theorem socket_is_directory :
  isDirectory (getInfoForPath (Some (mkStat 1 2 0xC1ED 0 1700000000 0))) = true.
Proof. reflexivity. Qed.

(** Reading a string list that does not end in a NUL runs off the array. *)
Theorem unterminated_string_list :
  obind (readStringList (mkDecoder [2; 0; 0; 0; 0; 0; 0; 0; 97; 98] 0)) (fun p => getValues p.1)
  = Crash (OutOfBounds "StringList").
Proof. reflexivity. Qed.

(** ** File checksums

    [FileChecksum::getChecksumForPath] with the MD5 hasher of the platforms other
    than Apple's.  LLVM's MD5 is a parameter: its state, [update] and [final]. *)
Section Checksum.
Context {H : Type} (initial : H) (update : H -> list Z -> H) (final : H -> list Z).

(** [output] is a member the constructor does not initialise: its bytes are what
    the memory held. *)
Record FileChecksumHasherMD5 := mkHasher { hasher : H; output : list Z }.

Definition hasher_update (h : FileChecksumHasherMD5) (buffer : list Z) : FileChecksumHasherMD5 :=
  mkHasher (update (hasher h) buffer) (output h).
(** The digest goes to a local variable that hides the member [output]. *)
Definition finalize (h : FileChecksumHasherMD5) : FileChecksumHasherMD5 :=
  let local := final (hasher h) in mkHasher (hasher h) (output h).
(** [copy] into the 32 zero bytes of the checksum. *)
Definition copy (h : FileChecksumHasherMD5) (buffer : list Z) : list Z :=
  output h ++ drop (length (output h)) buffer.

(** [readAndDigest]; the file, when it can be opened, is read in chunks. *)
Definition readAndDigest (file : option (list (list Z))) (h : FileChecksumHasherMD5)
    : FileChecksumHasherMD5 * bool :=
  match file with
  | None => (h, false)
  | Some chunks => (finalize (fold_left hasher_update chunks h), true)
  end.

Definition getChecksumForPath (st : option StatStruct) (file : option (list (list Z)))
    (memory : list Z) : FileChecksum :=
  let fileInfo := getInfoForPath st in
  if isMissing fileInfo then zeroChecksum
  else if isDirectory fileInfo then mkChecksum (1 :: replicate 31 0)
  else
    let (h, ok) := readAndDigest file (mkHasher initial memory) in
    if ok : bool then mkChecksum (copy h (bytes zeroChecksum)) else zeroChecksum.

Lemma digest_output file h : output (readAndDigest file h).1 = output h.
Proof.
  destruct file as [chunks|]; [|done]. cbn. revert h. by induction chunks as [|c l IH]; intros h; cbn; [|rewrite IH].
Qed.

(** The checksum of a regular file does not depend on its contents. *)
Theorem checksum_ignores_contents st file1 file2 memory :
  isDirectory (getInfoForPath st) = false ->
  getChecksumForPath st (Some file1) memory = getChecksumForPath st (Some file2) memory.
Proof.
  intros Hd. unfold getChecksumForPath. rewrite Hd. destruct (isMissing _); [done|]. cbn. unfold copy.
  pose proof (digest_output (Some file1) (mkHasher initial memory)) as E1. cbn in E1.
  pose proof (digest_output (Some file2) (mkHasher initial memory)) as E2. cbn in E2. by rewrite E1, E2.
Qed.
End Checksum.
