(* ===== verification/BuildValue.v ===== *)
(** * Build values

    The values the build system stores for its keys (lib/BuildSystem BuildValue.h):
    the constructors, the accessors with their assertions, and the conversion to
    and from the byte vectors of the build engine. *)

From Stdlib Require Import ZArith Lia.
From stdpp Require Import base list numbers strings.
From S2P Require Import Prelude Coding.

Open Scope Z_scope.

Module Value.

(** [BuildValue::Kind]; a decoded kind may be none of the enumerators. *)
Inductive Kind :=
| Invalid | VirtualInput | ExistingInput | MissingInput | DirectoryContents
| DirectoryTreeSignature | DirectoryTreeStructureSignature | StaleFileRemoval
| MissingOutput | FailedInput | SuccessfulCommand | FailedCommand
| PropagatedFailureCommand | CancelledCommand | SkippedCommand | Target
| FilteredDirectoryContents | SuccessfulCommandWithOutputSignature
| OtherKind (n : Z).

#[global] Instance Kind_eq_dec : EqDecision Kind.
Proof. solve_decision. Defined.

Definition enumerators : list Kind :=
  [Invalid; VirtualInput; ExistingInput; MissingInput; DirectoryContents; DirectoryTreeSignature;
   DirectoryTreeStructureSignature; StaleFileRemoval; MissingOutput; FailedInput; SuccessfulCommand;
   FailedCommand; PropagatedFailureCommand; CancelledCommand; SkippedCommand; Target;
   FilteredDirectoryContents; SuccessfulCommandWithOutputSignature].

(** The enumerators' values. *)
Definition Kind_code (k : Kind) : Z :=
  match k with
  | Invalid => 0 | VirtualInput => 1 | ExistingInput => 2 | MissingInput => 3
  | DirectoryContents => 4 | DirectoryTreeSignature => 5 | DirectoryTreeStructureSignature => 6
  | StaleFileRemoval => 7 | MissingOutput => 8 | FailedInput => 9 | SuccessfulCommand => 10
  | FailedCommand => 11 | PropagatedFailureCommand => 12 | CancelledCommand => 13
  | SkippedCommand => 14 | Target => 15 | FilteredDirectoryContents => 16
  | SuccessfulCommandWithOutputSignature => 17 | OtherKind n => n
  end.
Definition Kind_of_code (n : Z) : Kind :=
  default (OtherKind n) (find (fun k => Kind_code k =? n) enumerators).

(** The union [valueData]. *)
Inductive ValueData :=
| asOutputInfo (f : FileInfo)
| asOutputInfos (l : list FileInfo).

Record BuildValue := mkValue {
  kind : Kind;
  numOutputInfos : Z;
  signature : Z;
  valueData : ValueData;
  stringValues : StringList }.

Definition defaultValue (k : Kind) (sig : Z) : BuildValue :=
  mkValue k 0 sig (asOutputInfo zeroFileInfo) emptyStringList.

(** ** Predicates *)

Definition isSuccessfulCommand (k : Kind) : bool :=
  bool_decide (k = SuccessfulCommand) || bool_decide (k = SuccessfulCommandWithOutputSignature).
Definition kindHasSignature (k : Kind) : bool :=
  bool_decide (k = DirectoryTreeSignature) || bool_decide (k = DirectoryTreeStructureSignature)
  || bool_decide (k = SuccessfulCommandWithOutputSignature).
Definition kindHasStringList (k : Kind) : bool :=
  bool_decide (k = DirectoryContents) || bool_decide (k = FilteredDirectoryContents)
  || bool_decide (k = StaleFileRemoval).
Definition kindHasOutputInfo (k : Kind) : bool :=
  bool_decide (k = ExistingInput) || isSuccessfulCommand k || bool_decide (k = DirectoryContents).

Definition check (b : bool) (what : string) : outcome unit := if b then Ok tt else Crash (AssertFailed what).

(** ** Constructors *)

(** [BuildValue(kind, outputInfos, signature)]. *)
Definition newWithOutputs (k : Kind) (infos : list FileInfo) (sig : Z) : outcome BuildValue :=
  let num := u32 (Z.of_nat (length infos)) in
  obind (check (1 <=? num) "numOutputInfos >= 1") (fun _ =>
    if num =? 1
    then match head infos with
         | Some f => Ok (mkValue k num sig (asOutputInfo f) emptyStringList)
         | None => Crash (OutOfBounds "outputInfos")
         end
    else Ok (mkValue k num sig (asOutputInfos (take (Z.to_nat num) infos)) emptyStringList)).

(** [BuildValue(kind, directoryInfo, values)]. *)
Definition newWithDirectory (k : Kind) (f : FileInfo) (values : list (list Z)) : outcome BuildValue :=
  obind (newWithOutputs k [f] 0) (fun v =>
  obind (check (kindHasStringList k) "kindHasStringList") (fun _ =>
  obind (newStringList values) (fun l =>
    Ok (mkValue (kind v) (numOutputInfos v) (signature v) (valueData v) l)))).

(** [BuildValue(kind, values)]. *)
Definition newWithStrings (k : Kind) (values : list (list Z)) : outcome BuildValue :=
  obind (newStringList values) (fun l =>
  obind (check (kindHasStringList k) "kindHasStringList") (fun _ =>
    Ok (mkValue k 0 0 (asOutputInfo zeroFileInfo) l))).

Definition makeInvalid := defaultValue Invalid 0.
Definition makeVirtualInput := defaultValue VirtualInput 0.
Definition makeExistingInput (f : FileInfo) : outcome BuildValue :=
  obind (check (negb (isMissing f)) "!outputInfo.isMissing()") (fun _ => newWithOutputs ExistingInput [f] 0).
Definition makeMissingInput := defaultValue MissingInput 0.
Definition makeDirectoryContents := newWithDirectory DirectoryContents.
Definition makeDirectoryTreeSignature := defaultValue DirectoryTreeSignature.
Definition makeDirectoryTreeStructureSignature := defaultValue DirectoryTreeStructureSignature.
Definition makeMissingOutput := defaultValue MissingOutput 0.
Definition makeFailedInput := defaultValue FailedInput 0.
Definition makeSuccessfulCommand (infos : list FileInfo) := newWithOutputs SuccessfulCommand infos 0.
Definition makeFailedCommand := defaultValue FailedCommand 0.
Definition makePropagatedFailureCommand := defaultValue PropagatedFailureCommand 0.
Definition makeCancelledCommand := defaultValue CancelledCommand 0.
Definition makeSkippedCommand := defaultValue SkippedCommand 0.
Definition makeTarget := defaultValue Target 0.
Definition makeStaleFileRemoval := newWithStrings StaleFileRemoval.
Definition makeFilteredDirectoryContents := newWithStrings FilteredDirectoryContents.
Definition makeSuccessfulCommandWithOutputSignature (infos : list FileInfo) (sig : Z) :=
  newWithOutputs SuccessfulCommandWithOutputSignature infos sig.

(** ** Accessors *)

Definition hasMultipleOutputs (v : BuildValue) : bool := 1 <? numOutputInfos v.

Definition getNumOutputs (v : BuildValue) : outcome Z :=
  obind (check (kindHasOutputInfo (kind v)) "invalid call for value kind") (fun _ => Ok (numOutputInfos v)).

(** Reading the member of the union that was not written is a fault. *)
Definition getNthOutputInfo (v : BuildValue) (n : nat) : outcome FileInfo :=
  obind (check (kindHasOutputInfo (kind v)) "invalid call for value kind") (fun _ =>
  obind (getNumOutputs v) (fun num =>
  obind (check (Z.of_nat n <? num) "n < getNumOutputs()") (fun _ =>
    if hasMultipleOutputs v
    then match valueData v with
         | asOutputInfos l =>
             match l !! n with Some f => Ok f | None => Crash (OutOfBounds "asOutputInfos") end
         | asOutputInfo _ => Crash (UseAfterFree "asOutputInfos")
         end
    else obind (check (n =? 0)%nat "n == 0") (fun _ =>
         match valueData v with
         | asOutputInfo f => Ok f
         | asOutputInfos _ => Crash (UseAfterFree "asOutputInfo")
         end)))).

Definition getStringListValues (v : BuildValue) : outcome (list (list Z)) :=
  obind (check (kindHasStringList (kind v)) "kindHasStringList") (fun _ => getValues (stringValues v)).
Definition getDirectoryContents (v : BuildValue) : outcome (list (list Z)) :=
  obind (check (bool_decide (kind v = DirectoryContents) || bool_decide (kind v = FilteredDirectoryContents))
    "invalid call for value kind") (fun _ => getStringListValues v).
Definition getStaleFileList (v : BuildValue) : outcome (list (list Z)) :=
  obind (check (bool_decide (kind v = StaleFileRemoval)) "invalid call for value kind")
    (fun _ => getStringListValues v).
Definition getDirectoryTreeSignature (v : BuildValue) : outcome Z :=
  obind (check (bool_decide (kind v = DirectoryTreeSignature)) "invalid call for value kind")
    (fun _ => Ok (signature v)).
Definition getDirectoryTreeStructureSignature (v : BuildValue) : outcome Z :=
  obind (check (bool_decide (kind v = DirectoryTreeStructureSignature)) "invalid call for value kind")
    (fun _ => Ok (signature v)).
Definition getOutputSignature (v : BuildValue) : outcome Z :=
  obind (check (bool_decide (kind v = SuccessfulCommandWithOutputSignature)) "invalid call for value kind")
    (fun _ => Ok (signature v)).

(** ** Conversion to and from the engine's values *)

Definition elift {S A} (o : outcome A) : M S A :=
  fun s => match o with Ok a => Ok (a, s) | Crash f => Crash f end.

Definition writeKind (k : Kind) : Encoder unit :=
  let tmp := u8 (Kind_code k) in
  ensure (bool_decide (k = Kind_of_code tmp)) (AssertFailed "value == Kind(tmp)") ;;; write8 tmp.
Definition readKind : Decoder Kind := tmp <~ read8; ret (Kind_of_code tmp).

Definition writeOutputs (v : BuildValue) : Encoder unit :=
  mapM_ (fun i => f <~ elift (getNthOutputInfo v i); writeFileInfo f)
    (seq 0 (Z.to_nat (numOutputInfos v))).

Definition writeValue (v : BuildValue) : Encoder unit :=
  writeKind (kind v) ;;;
  (if kindHasSignature (kind v) then write64 (signature v) else ret tt) ;;;
  (if kindHasOutputInfo (kind v) then write32 (numOutputInfos v) ;;; writeOutputs v else ret tt) ;;;
  (if kindHasStringList (kind v) then writeStringList (stringValues v) else ret tt).
Definition toData (v : BuildValue) : outcome (list Z) :=
  obind (writeValue v []) (fun p => Ok p.2).

(** The loop that reads the output infos in place. *)
Fixpoint readOutputs (n : nat) : Decoder (list FileInfo) :=
  match n with
  | O => ret []
  | S n' => f <~ readFileInfo; l <~ readOutputs n'; ret (f :: l)
  end.

Definition place (l : list FileInfo) : ValueData :=
  match l with
  | [] => asOutputInfo zeroFileInfo
  | [f] => asOutputInfo f
  | _ => asOutputInfos l
  end.

Definition readValue : Decoder BuildValue :=
  d <~ get;
  if isEmpty d then ret (defaultValue Invalid 0)
  else
    k <~ readKind;
    sig <~ (if kindHasSignature k then read64 else ret 0);
    outs <~ (if kindHasOutputInfo k
             then num <~ read32; l <~ readOutputs (Z.to_nat num); ret (num, place l)
             else ret (0, asOutputInfo zeroFileInfo));
    strs <~ (if kindHasStringList k then readStringList else ret emptyStringList);
    finish ;;;
    ret (mkValue k outs.1 sig outs.2 strs).
Definition fromData (d : list Z) : outcome BuildValue :=
  obind (readValue (mkDecoder d 0)) (fun p => Ok p.1).

(** ** Specification: what a value says *)

Inductive Desc :=
| DInvalid | DVirtualInput | DExistingInput (f : FileInfo) | DMissingInput
| DDirectoryContents (f : FileInfo) (names : list (list Z))
| DDirectoryTreeSignature (sig : Z) | DDirectoryTreeStructureSignature (sig : Z)
| DStaleFileRemoval (names : list (list Z))
| DMissingOutput | DFailedInput | DSuccessfulCommand (infos : list FileInfo)
| DFailedCommand | DPropagatedFailureCommand | DCancelledCommand | DSkippedCommand | DTarget
| DFilteredDirectoryContents (names : list (list Z))
| DSuccessfulCommandWithOutputSignature (infos : list FileInfo) (sig : Z).

Definition make (d : Desc) : outcome BuildValue :=
  match d with
  | DInvalid => Ok makeInvalid | DVirtualInput => Ok makeVirtualInput
  | DExistingInput f => makeExistingInput f | DMissingInput => Ok makeMissingInput
  | DDirectoryContents f names => makeDirectoryContents f names
  | DDirectoryTreeSignature sig => Ok (makeDirectoryTreeSignature sig)
  | DDirectoryTreeStructureSignature sig => Ok (makeDirectoryTreeStructureSignature sig)
  | DStaleFileRemoval names => makeStaleFileRemoval names
  | DMissingOutput => Ok makeMissingOutput | DFailedInput => Ok makeFailedInput
  | DSuccessfulCommand infos => makeSuccessfulCommand infos
  | DFailedCommand => Ok makeFailedCommand
  | DPropagatedFailureCommand => Ok makePropagatedFailureCommand
  | DCancelledCommand => Ok makeCancelledCommand | DSkippedCommand => Ok makeSkippedCommand
  | DTarget => Ok makeTarget
  | DFilteredDirectoryContents names => makeFilteredDirectoryContents names
  | DSuccessfulCommandWithOutputSignature infos sig => makeSuccessfulCommandWithOutputSignature infos sig
  end.

(** All the output infos of a value, through its accessors. *)
Fixpoint outputs_from (v : BuildValue) (i n : nat) : outcome (list FileInfo) :=
  match n with
  | O => Ok []
  | S n' => obind (getNthOutputInfo v i) (fun f => obind (outputs_from v (S i) n') (fun l => Ok (f :: l)))
  end.
Definition outputs (v : BuildValue) : outcome (list FileInfo) :=
  obind (getNumOutputs v) (fun n => outputs_from v 0 (Z.to_nat n)).

(** What the accessors of a value report. *)
Definition describe (v : BuildValue) : outcome Desc :=
  match kind v with
  | Invalid => Ok DInvalid | VirtualInput => Ok DVirtualInput
  | ExistingInput => obind (getNthOutputInfo v 0) (fun f => Ok (DExistingInput f))
  | MissingInput => Ok DMissingInput
  | DirectoryContents =>
      obind (getNthOutputInfo v 0) (fun f =>
      obind (getDirectoryContents v) (fun l => Ok (DDirectoryContents f l)))
  | DirectoryTreeSignature => obind (getDirectoryTreeSignature v) (fun s => Ok (DDirectoryTreeSignature s))
  | DirectoryTreeStructureSignature =>
      obind (getDirectoryTreeStructureSignature v) (fun s => Ok (DDirectoryTreeStructureSignature s))
  | StaleFileRemoval => obind (getStaleFileList v) (fun l => Ok (DStaleFileRemoval l))
  | MissingOutput => Ok DMissingOutput | FailedInput => Ok DFailedInput
  | SuccessfulCommand => obind (outputs v) (fun l => Ok (DSuccessfulCommand l))
  | FailedCommand => Ok DFailedCommand
  | PropagatedFailureCommand => Ok DPropagatedFailureCommand
  | CancelledCommand => Ok DCancelledCommand | SkippedCommand => Ok DSkippedCommand
  | Target => Ok DTarget
  | FilteredDirectoryContents => obind (getDirectoryContents v) (fun l => Ok (DFilteredDirectoryContents l))
  | SuccessfulCommandWithOutputSignature =>
      obind (outputs v) (fun l => obind (getOutputSignature v) (fun s =>
        Ok (DSuccessfulCommandWithOutputSignature l s)))
  | OtherKind _ => Crash (AssertFailed "unknown kind")
  end.

Definition valid_names (names : list (list Z)) : Prop :=
  Forall no_nul names /\ range 64 (Z.of_nat (length (packed names))).
Definition valid_infos (l : list FileInfo) : Prop :=
  Forall valid_info l /\ (1 <= Z.of_nat (length l) < 2 ^ 32).
Definition valid_desc (d : Desc) : Prop :=
  match d with
  | DExistingInput f => valid_info f /\ isMissing f = false
  | DDirectoryContents f names => valid_info f /\ valid_names names
  | DDirectoryTreeSignature sig | DDirectoryTreeStructureSignature sig => range 64 sig
  | DStaleFileRemoval names | DFilteredDirectoryContents names => valid_names names
  | DSuccessfulCommand infos => valid_infos infos
  | DSuccessfulCommandWithOutputSignature infos sig => valid_infos infos /\ range 64 sig
  | _ => True
  end.

(** ** The proof *)

(** The canonical form of a value: kind, signature, outputs and packed strings. *)
Definition value_of (k : Kind) (sig : Z) (outs : list FileInfo) (l : StringList) : BuildValue :=
  mkValue k (Z.of_nat (length outs)) sig (place outs) l.

Definition valid_parts (k : Kind) (sig : Z) (outs : list FileInfo) (l : StringList) : Prop :=
  k ∈ enumerators
  /\ (if kindHasSignature k then range 64 sig else sig = 0)
  /\ (if kindHasOutputInfo k then Forall valid_info outs /\ range 32 (Z.of_nat (length outs)) else outs = [])
  /\ (if kindHasStringList k then (slSize l <= length (contents l))%nat /\ range 64 (Z.of_nat (slSize l))
      else l = emptyStringList).

Lemma kind_code_roundtrip k : k ∈ enumerators ->
  u8 (Kind_code k) = Kind_code k /\ Kind_of_code (Kind_code k) = k.
Proof. intros H. repeat (apply elem_of_cons in H as [->|H]; [done|]). by apply elem_of_nil in H. Qed.

Lemma nth_output k sig outs l i f : kindHasOutputInfo k = true -> outs !! i = Some f ->
  getNthOutputInfo (value_of k sig outs l) i = Ok f.
Proof.
  intros Hk Hi. unfold getNthOutputInfo, getNumOutputs, hasMultipleOutputs. cbn [kind value_of numOutputInfos valueData].
  rewrite Hk. cbn [check obind]. pose proof (lookup_lt_Some _ _ _ Hi) as Hlt.
  destruct (Z.ltb_spec (Z.of_nat i) (Z.of_nat (length outs))); [|lia]. cbn [check obind].
  destruct outs as [|f0 [|f1 outs]]; [done| |].
  - destruct i as [|i]; [|by destruct i]. by injection Hi as ->.
  - destruct (Z.ltb_spec 1 (Z.of_nat (length (f0 :: f1 :: outs)))); [|cbn [length] in *; lia].
    cbn [place]. by rewrite Hi.
Qed.

Lemma outputs_emit k sig outs l : kindHasOutputInfo k = true -> Forall valid_info outs ->
  exists bs, emits (writeOutputs (value_of k sig outs l)) bs /\ parses (readOutputs (length outs)) bs outs.
Proof.
  intros Hk Hv. unfold writeOutputs. cbn [numOutputInfos value_of]. rewrite Nat2Z.id.
  assert (Hgen : forall rest pre, outs = pre ++ rest -> exists bs,
    emits (mapM_ (fun i => f <~ elift (getNthOutputInfo (value_of k sig outs l) i); writeFileInfo f)
             (seq (length pre) (length rest))) bs
    /\ parses (readOutputs (length rest)) bs rest).
  { induction rest as [|f rest IH]; intros pre E; cbn [length seq mapM_ readOutputs].
    - exists []. split; [apply emits_ret|apply parses_ret].
    - destruct (IH (pre ++ [f])) as (bs & He & Hd); [by rewrite <- app_assoc|].
      rewrite length_app, Nat.add_1_r in He.
      assert (Hf : valid_info f). { rewrite E in Hv. apply Forall_app in Hv as [_ Hv]. by inversion Hv. }
      destruct (cFileInfo_lawful f Hf) as (b & Eb & Db). exists (b ++ bs). split.
      + apply emits_bind; [|done]. intros enc. unfold bind, elift.
        rewrite (nth_output k sig outs l (length pre) f Hk); [apply Eb|].
        rewrite E, lookup_app_r, Nat.sub_diag by done. done.
      + eapply parses_bind; [exact Db|]. by apply (parses_map (readOutputs (length rest)) (cons f)). }
  by apply (Hgen outs []).
Qed.

(** Reading on, with what was read so far in front. *)
Lemma parses_step {A B} (m : Decoder A) (f : A -> Decoder B) bs a pre post :
  parses m bs a ->
  bind m f (mkDecoder (pre ++ bs ++ post) (length pre))
  = f a (mkDecoder ((pre ++ bs) ++ post) (length (pre ++ bs))).
Proof. intros H. unfold bind. rewrite (H pre post), length_app, app_assoc. done. Qed.

Lemma parts_roundtrip k sig outs l : valid_parts k sig outs l ->
  exists bs, toData (value_of k sig outs l) = Ok bs
    /\ fromData bs = Ok (value_of k sig outs (if kindHasStringList k then trim l else emptyStringList)).
Proof.
  intros (Hk & Hs & Ho & Hl). destruct (kind_code_roundtrip k Hk) as [E8 Eof].
  assert (H1 : emits (writeKind k) [Kind_code k] /\ parses readKind [Kind_code k] k).
  { split.
    - unfold writeKind. rewrite E8. apply emits_ensure; [|done]. apply bool_decide_eq_true_2. by rewrite Eof.
    - rewrite <- Eof at 2. apply (parses_map read8 Kind_of_code), parses_read8. }
  assert (exists b, emits (if kindHasSignature k then write64 sig else ret tt) b
    /\ parses (if kindHasSignature k then read64 else ret 0) b sig) as (b2 & E2 & D2).
  { destruct (kindHasSignature k); [exact (c64_lawful sig Hs)|]. subst. exists [].
    split; [apply emits_ret|apply parses_ret]. }
  assert (exists b, emits (if kindHasOutputInfo k
       then write32 (Z.of_nat (length outs)) ;;; writeOutputs (value_of k sig outs l) else ret tt) b
    /\ parses (if kindHasOutputInfo k
         then num <~ read32; x <~ readOutputs (Z.to_nat num); ret (num, place x)
         else ret (0, asOutputInfo zeroFileInfo)) b (Z.of_nat (length outs), place outs)) as (b3 & E3 & D3).
  { destruct (kindHasOutputInfo k) eqn:Hko; [|subst; exists []; split; [apply emits_ret|apply parses_ret]].
    destruct Ho as [Hv Hr]. destruct (c32_lawful _ Hr) as (b & Eb & Db).
    destruct (outputs_emit k sig outs l Hko Hv) as (b' & Eb' & Db'). exists (b ++ b').
    split; [by apply emits_bind|]. eapply parses_bind; [exact Db|]. cbn beta. rewrite Nat2Z.id.
    by apply (parses_map _ (fun x => (Z.of_nat (length outs), place x))). }
  assert (exists b, emits (if kindHasStringList k then writeStringList l else ret tt) b
    /\ parses (if kindHasStringList k then readStringList else ret emptyStringList) b
         (if kindHasStringList k then trim l else emptyStringList)) as (b4 & E4 & D4).
  { destruct (kindHasStringList k); [destruct Hl; by apply stringList_coding|]. exists [].
    split; [apply emits_ret|apply parses_ret]. }
  destruct H1 as [E1 D1]. exists ([Kind_code k] ++ b2 ++ b3 ++ b4). split.
  - unfold toData. change (writeValue (value_of k sig outs l) []) with
      ((writeKind k ;;; (if kindHasSignature k then write64 sig else ret tt) ;;;
        (if kindHasOutputInfo k then write32 (Z.of_nat (length outs)) ;;; writeOutputs (value_of k sig outs l)
         else ret tt) ;;; (if kindHasStringList k then writeStringList l else ret tt)) []).
    rewrite (emits_bind _ _ _ _ E1 (emits_bind _ _ _ _ E2 (emits_bind _ _ _ _ E3 E4))). done.
  - unfold fromData, readValue.
    rewrite (bind_ok _ _ _ _ _ (eq_refl : get (mkDecoder ([Kind_code k] ++ b2 ++ b3 ++ b4) 0) = Ok _)).
    cbn [isEmpty pos data app length Nat.eqb].
    rewrite (parses_step readKind _ [Kind_code k] k [] (b2 ++ b3 ++ b4) D1). cbn beta.
    rewrite (parses_step _ _ b2 sig _ (b3 ++ b4) D2). cbn beta.
    rewrite (parses_step _ _ b3 _ _ b4 D3). cbn beta.
    rewrite <- (app_nil_r b4). rewrite (parses_step _ _ b4 _ _ [] D4). cbn beta.
    unfold bind, finish, isEmpty. cbn [pos data]. rewrite app_nil_r, Nat.eqb_refl. done.
Qed.

(** Every description is built as a canonical value. *)
Lemma new_outputs_length k infos sig : 1 <= Z.of_nat (length infos) < 2 ^ 32 ->
  newWithOutputs k infos sig = Ok (value_of k sig infos emptyStringList).
Proof.
  intros Hn. unfold newWithOutputs, u32. rewrite Z.mod_small by lia.
  destruct (Z.leb_spec 1 (Z.of_nat (length infos))); [|lia]. cbn [check obind].
  destruct infos as [|f [|f' infos]]; [cbn in Hn; lia|done|].
  destruct (Z.eqb_spec (Z.of_nat (length (f :: f' :: infos))) 1); [cbn [length] in *; lia|].
  rewrite Nat2Z.id, firstn_all. done.
Qed.

Lemma new_outputs_value k infos sig : valid_infos infos ->
  newWithOutputs k infos sig = Ok (value_of k sig infos emptyStringList).
Proof. intros [_ Hn]. by apply new_outputs_length. Qed.

Lemma new_list_ok names : valid_names names ->
  newStringList names = Ok (mkStringList (packed names ++ [0]) (length (packed names))).
Proof. intros [H _]. unfold newStringList. by rewrite pack_ok. Qed.

Lemma new_strings_value k names : kindHasStringList k = true -> valid_names names ->
  newWithStrings k names = Ok (value_of k 0 [] (mkStringList (packed names ++ [0]) (length (packed names)))).
Proof. intros Hk H. unfold newWithStrings. rewrite (new_list_ok names H). cbn [obind]. by rewrite Hk. Qed.

Lemma strings_valid names : valid_names names ->
  let l := mkStringList (packed names ++ [0]) (length (packed names)) in
  ((slSize l <= length (contents l))%nat /\ range 64 (Z.of_nat (slSize l))) /\ getValues (trim l) = Ok names.
Proof.
  intros [Hn Hr] l. split; [split; [cbn; rewrite length_app; lia|exact Hr]|].
  unfold trim, l. cbn [slSize contents]. rewrite take_app_length.
  rewrite <- (app_nil_r (packed names)) at 1. by apply getValues_packed.
Qed.

Lemma outputs_value k sig outs l : kindHasOutputInfo k = true -> outputs (value_of k sig outs l) = Ok outs.
Proof.
  intros Hk. unfold outputs, getNumOutputs. cbn [kind value_of numOutputInfos]. rewrite Hk. cbn [check obind].
  rewrite Nat2Z.id.
  assert (Hgen : forall rest pre, outs = pre ++ rest ->
    outputs_from (value_of k sig outs l) (length pre) (length rest) = Ok rest).
  { induction rest as [|f rest IH]; intros pre E; cbn [outputs_from length]; [done|].
    rewrite (nth_output k sig outs l (length pre) f Hk).
    - cbn [obind]. specialize (IH (pre ++ [f])). rewrite length_app, Nat.add_1_r in IH.
      rewrite IH by (by rewrite <- app_assoc). done.
    - rewrite E, lookup_app_r, Nat.sub_diag by done. done. }
  by apply (Hgen outs []).
Qed.

(** The canonical form of a description. *)
Definition parts (d : Desc) : Kind * Z * list FileInfo * list (list Z) :=
  match d with
  | DInvalid => (Invalid, 0, [], []) | DVirtualInput => (VirtualInput, 0, [], [])
  | DExistingInput f => (ExistingInput, 0, [f], []) | DMissingInput => (MissingInput, 0, [], [])
  | DDirectoryContents f names => (DirectoryContents, 0, [f], names)
  | DDirectoryTreeSignature sig => (DirectoryTreeSignature, sig, [], [])
  | DDirectoryTreeStructureSignature sig => (DirectoryTreeStructureSignature, sig, [], [])
  | DStaleFileRemoval names => (StaleFileRemoval, 0, [], names)
  | DMissingOutput => (MissingOutput, 0, [], []) | DFailedInput => (FailedInput, 0, [], [])
  | DSuccessfulCommand infos => (SuccessfulCommand, 0, infos, [])
  | DFailedCommand => (FailedCommand, 0, [], [])
  | DPropagatedFailureCommand => (PropagatedFailureCommand, 0, [], [])
  | DCancelledCommand => (CancelledCommand, 0, [], []) | DSkippedCommand => (SkippedCommand, 0, [], [])
  | DTarget => (Target, 0, [], [])
  | DFilteredDirectoryContents names => (FilteredDirectoryContents, 0, [], names)
  | DSuccessfulCommandWithOutputSignature infos sig => (SuccessfulCommandWithOutputSignature, sig, infos, [])
  end.

Definition strings_of (k : Kind) (names : list (list Z)) : StringList :=
  if kindHasStringList k then mkStringList (packed names ++ [0]) (length (packed names)) else emptyStringList.

Definition canonical (d : Desc) (l : StringList) : BuildValue :=
  let '(k, sig, outs, _) := parts d in value_of k sig outs l.

Lemma one_info f : valid_info f -> valid_infos [f].
Proof. intros H. split; [by constructor|cbn; lia]. Qed.

Lemma make_canonical d : valid_desc d ->
  let '(k, _, _, names) := parts d in make d = Ok (canonical d (strings_of k names)).
Proof.
  destruct d; cbn [parts make valid_desc]; intros H; try done.
  - destruct H as [H1 H2]. unfold makeExistingInput. rewrite H2. cbn [negb check obind].
    apply new_outputs_value, one_info, H1.
  - destruct H as [H1 H2]. unfold makeDirectoryContents, newWithDirectory.
    rewrite new_outputs_value by (by apply one_info). cbn [obind]. rewrite (new_list_ok names H2). done.
  - by apply new_strings_value.
  - by apply new_outputs_value.
  - by apply new_strings_value.
  - destruct H as [H _]. by apply new_outputs_value.
Qed.

Lemma parts_valid d : valid_desc d ->
  let '(k, sig, outs, names) := parts d in valid_parts k sig outs (strings_of k names).
Proof.
  assert (He : forall k, k ∈ enumerators \/ exists n, k = OtherKind n).
  { intros k. destruct k; try (left; apply (bool_decide_unpack _); vm_compute; exact I). by right; eexists. }
  assert (Hinfos : forall l, valid_infos l -> Forall valid_info l /\ range 32 (Z.of_nat (length l))).
  { intros l [? ?]. split; [done|]. unfold range. lia. }
  destruct d; cbn [parts valid_desc]; intros H; repeat split; cbn;
    try (match goal with |- ?k ∈ _ => destruct (He k) as [?|[? ?]]; done end); try done;
    try (apply Hinfos, one_info; tauto); try (apply Hinfos; tauto);
    try (apply strings_valid; tauto); unfold range in H; lia.
Qed.

Lemma nth_first k f l : kindHasOutputInfo k = true -> getNthOutputInfo (value_of k 0 [f] l) 0 = Ok f.
Proof. intros H. by apply nth_output. Qed.

Lemma kind_value_of k sig outs l : kind (value_of k sig outs l) = k.
Proof. done. Qed.

Lemma describe_canonical d : valid_desc d ->
  let '(k, _, _, names) := parts d in
  describe (canonical d (if kindHasStringList k then trim (strings_of k names) else emptyStringList)) = Ok d.
Proof.
  destruct d; cbn [parts valid_desc]; intros H; try done; unfold canonical; cbn [parts]; unfold describe;
    rewrite kind_value_of.
  - rewrite nth_first by done. cbn [obind].
    destruct H as [_ H]. exact (f_equal (fun o => obind o (fun l => Ok (DDirectoryContents f l)))
      (proj2 (strings_valid names H))).
  - exact (f_equal (fun o => obind o (fun l => Ok (DStaleFileRemoval l))) (proj2 (strings_valid names H))).
  - by rewrite outputs_value.
  - exact (f_equal (fun o => obind o (fun l => Ok (DFilteredDirectoryContents l)))
      (proj2 (strings_valid names H))).
  - by rewrite outputs_value.
Qed.

(** The value the bytes of a description are read back as. *)
Definition decoded (d : Desc) : BuildValue :=
  let '(k, _, _, names) := parts d in canonical d (if kindHasStringList k then trim (strings_of k names) else emptyStringList).

Lemma made d : valid_desc d ->
  exists v bs, make d = Ok v /\ toData v = Ok bs /\ fromData bs = Ok (decoded d).
Proof.
  intros H. pose proof (make_canonical d H) as Hm. pose proof (parts_valid d H) as Hp. unfold decoded, canonical in *.
  destruct (parts d) as [[[k sig] outs] names].
  destruct (parts_roundtrip k sig outs _ Hp) as (bs & E1 & E2). eauto.
Qed.

(** C40: a value stored in the database and loaded again says the same: whatever
    valid description a value was made from, serialising it and deserialising the
    bytes succeeds, and the accessors of the result report that description. *)
Theorem value_roundtrip d : valid_desc d ->
  exists v bs v', make d = Ok v /\ toData v = Ok bs /\ fromData bs = Ok v' /\ describe v' = Ok d.
Proof.
  intros H. destruct (made d H) as (v & bs & E1 & E2 & E3). exists v, bs, (decoded d). do 3 (split; [done|]).
  pose proof (describe_canonical d H) as Hd. unfold decoded. by destruct (parts d) as [[[k sig] outs] names].
Qed.

Lemma value_roundtrip_witness :
  let f := mkFileInfo 1 2 0x81A4 300 (mkTimestamp 1700000000 5) (mkChecksum (replicate 32 171)) in
  let d := DSuccessfulCommandWithOutputSignature [f; f] 77 in
  exists v bs v', make d = Ok v /\ toData v = Ok bs /\ fromData bs = Ok v' /\ describe v' = Ok d.
Proof.
  intros f d. apply (value_roundtrip d). split; [split|split; vm_compute; congruence].
  - repeat constructor; vm_compute; congruence.
  - vm_compute. split; congruence.
Defined.

(** The empty byte vector, the failure result of [build], is the invalid value. *)
Example empty_is_invalid : obind (fromData []) describe = Ok DInvalid.
Proof. reflexivity. Qed.
End Value.
