(* ===== verification/BuildKey.v ===== *)
(** * Build keys

    The keys the build system gives to the build engine (lib/BuildSystem
    BuildKey.h, BuildKey.cpp): a kind code followed by a name, or by the size of
    the name, the name and encoded data.  The size is copied with [memcpy] from a
    [uint32_t]; the model has the byte order of the little-endian hosts llbuild
    runs on. *)

From Stdlib Require Import ZArith Lia.
From stdpp Require Import base list numbers strings.
From S2P Require Import Prelude Coding.

Open Scope Z_scope.

Module Key.

Inductive Kind :=
| Command | CustomTask | DirectoryContents | FilteredDirectoryContents
| DirectoryTreeSignature | DirectoryTreeStructureSignature | Node | Stat | Target | Unknown.

#[global] Instance Kind_eq_dec : EqDecision Kind.
Proof. solve_decision. Defined.

(** The characters 'C', 'X', 'D', 'd', 'S', 's', 'N', 'I', 'T' and ' '. *)
Definition identifierForKind (k : Kind) : Z :=
  match k with
  | Command => 67 | CustomTask => 88 | DirectoryContents => 68 | FilteredDirectoryContents => 100
  | DirectoryTreeSignature => 83 | DirectoryTreeStructureSignature => 115
  | Node => 78 | Stat => 73 | Target => 84 | Unknown => 32
  end.
Definition kindForIdentifier (c : Z) : Kind :=
  if c =? 67 then Command else if c =? 68 then DirectoryContents
  else if c =? 100 then FilteredDirectoryContents else if c =? 78 then Node
  else if c =? 73 then Stat else if c =? 83 then DirectoryTreeSignature
  else if c =? 115 then DirectoryTreeStructureSignature else if c =? 84 then Target
  else if c =? 88 then CustomTask else Unknown.

(** The key's bytes. *)
Abbreviation Key := (list Z).

Definition kindOfKeyData (key : Key) : Kind :=
  match key with [] => Unknown | c :: _ => kindForIdentifier c end.
Definition getKind := kindOfKeyData.

(** ** Construction *)

Definition newKey (code : Z) (str : list Z) : Key := code :: str.

(** The four bytes of a [uint32_t] in memory. *)
Definition le32 (v : Z) : list Z :=
  [v mod 2 ^ 8; Z.shiftr v 8 mod 2 ^ 8; Z.shiftr v 16 mod 2 ^ 8; Z.shiftr v 24 mod 2 ^ 8].
Definition of_le32 (b0 b1 b2 b3 : Z) : Z :=
  Z.lor b0 (Z.lor (Z.shiftl b1 8) (Z.lor (Z.shiftl b2 16) (Z.shiftl b3 24))).

(** [BuildKey(kindCode, name, data)], given what encoding [data] writes. *)
Definition newKeyWithData (code : Z) (name : list Z) (write : Encoder unit) : outcome Key :=
  let nameSize := u32 (Z.of_nat (length name)) in
  obind (write []) (fun p =>
    let dataSize := u32 (Z.of_nat (length p.2)) in
    let key := code :: le32 nameSize ++ take (Z.to_nat nameSize) name ++ take (Z.to_nat dataSize) p.2 in
    if (Z.of_nat (length key) =? 1 + 4 + nameSize + dataSize) then Ok key
    else Crash (AssertFailed "encodedKey.size() == pos")).

Definition makeCommand (name : list Z) : Key := newKey (identifierForKind Command) name.
Definition makeCustomTask (name taskData : list Z) : outcome Key :=
  newKeyWithData (identifierForKind CustomTask) name (writeBytes taskData).
Definition makeDirectoryContents (path : list Z) : Key := newKey (identifierForKind DirectoryContents) path.
Definition makeFilteredDirectoryContents (path : list Z) (filters : StringList) : outcome Key :=
  newKeyWithData (identifierForKind FilteredDirectoryContents) path (writeStringList filters).
Definition makeDirectoryTreeSignature (path : list Z) (filters : StringList) : outcome Key :=
  newKeyWithData (identifierForKind DirectoryTreeSignature) path (writeStringList filters).
Definition makeDirectoryTreeStructureSignature (path : list Z) (filters : StringList) : outcome Key :=
  newKeyWithData (identifierForKind DirectoryTreeStructureSignature) path (writeStringList filters).
Definition makeNode (path : list Z) : Key := newKey (identifierForKind Node) path.
Definition makeStat (path : list Z) : Key := newKey (identifierForKind Stat) path.
Definition makeTarget (name : list Z) : Key := newKey (identifierForKind Target) name.

(** ** Accessors *)

Definition expect {A} (b : bool) (o : outcome A) : outcome A :=
  if b then o else Crash (AssertFailed "invalid call for key kind").
Definition is_kind (k : Kind) (key : Key) : bool := bool_decide (getKind key = k).

(** [StringRef(key.data()+1, key.size()-1)]. *)
Definition plainName (key : Key) : outcome (list Z) :=
  match key with [] => Crash (OutOfBounds "key") | _ :: s => Ok s end.

(** The size field, and the bytes behind it. *)
Definition nameSize (key : Key) : outcome (Z * list Z) :=
  match key with
  | _ :: b0 :: b1 :: b2 :: b3 :: rest => Ok (of_le32 b0 b1 b2 b3, rest)
  | _ => Crash (OutOfBounds "key")
  end.
Definition sizedName (key : Key) : outcome (list Z) :=
  obind (nameSize key) (fun p =>
    if p.1 <=? Z.of_nat (length p.2) then Ok (take (Z.to_nat p.1) p.2) else Crash (OutOfBounds "key")).
Definition sizedData (key : Key) : outcome (list Z) :=
  obind (nameSize key) (fun p =>
    if p.1 <=? Z.of_nat (length p.2)
    then let dataSize := u32 (Z.of_nat (length key) - 1 - 4 - p.1) in
         Ok (take (Z.to_nat dataSize) (drop (Z.to_nat p.1) p.2))
    else Crash (OutOfBounds "key")).

Definition getCommandName (key : Key) := expect (is_kind Command key) (plainName key).
Definition getCustomTaskName (key : Key) := expect (is_kind CustomTask key) (sizedName key).
Definition getCustomTaskData (key : Key) := expect (is_kind CustomTask key) (sizedData key).
Definition getDirectoryPath (key : Key) := expect (is_kind DirectoryContents key) (plainName key).
Definition getDirectoryTreeSignaturePath (key : Key) :=
  expect (is_kind DirectoryTreeSignature key) (sizedName key).
Definition getFilteredDirectoryPath (key : Key) :=
  expect (is_kind FilteredDirectoryContents key || is_kind DirectoryTreeStructureSignature key)
    (sizedName key).
Definition getContentExclusionPatterns (key : Key) :=
  expect (is_kind DirectoryTreeSignature key || is_kind DirectoryTreeStructureSignature key
          || is_kind FilteredDirectoryContents key) (sizedData key).
Definition getContentExclusionPatternsAsStringList (key : Key) : outcome StringList :=
  obind (getContentExclusionPatterns key) (fun d =>
  obind (readStringList (mkDecoder d 0)) (fun p => Ok p.1)).
Definition getNodeName (key : Key) := expect (is_kind Node key) (plainName key).
Definition getStatName (key : Key) := expect (is_kind Stat key) (plainName key).
Definition getTargetName (key : Key) := expect (is_kind Target key) (plainName key).

Definition fromData (key : Key) : outcome Key :=
  if bool_decide (getKind key = Unknown) then Crash (AssertFailed "invalid key") else Ok key.

(** What [dump] prints: the kind, a name, and the size of the data. *)
Definition dump (key : Key) : outcome (Kind * option (list Z) * option nat) :=
  let named o := obind o (fun n => Ok (getKind key, Some n, None)) in
  match getKind key with
  | Command => named (getCommandName key)
  | CustomTask =>
      obind (getCustomTaskName key) (fun n =>
      obind (getCustomTaskData key) (fun d => Ok (CustomTask, Some n, Some (length d))))
  | DirectoryContents | DirectoryTreeSignature => named (getDirectoryPath key)
  | DirectoryTreeStructureSignature | FilteredDirectoryContents => named (getFilteredDirectoryPath key)
  | Node => named (getNodeName key)
  | Stat => named (getStatName key)
  | Target => named (getTargetName key)
  | Unknown => Ok (Unknown, None, None)
  end.

(** ** Specification: what a key stands for *)

Inductive Desc :=
| KCommand (name : list Z) | KCustomTask (name taskData : list Z) | KDirectoryContents (path : list Z)
| KFilteredDirectoryContents (path : list Z) (filters : list (list Z))
| KDirectoryTreeSignature (path : list Z) (filters : list (list Z))
| KDirectoryTreeStructureSignature (path : list Z) (filters : list (list Z))
| KNode (path : list Z) | KStat (path : list Z) | KTarget (name : list Z).

Definition make (d : Desc) : outcome Key :=
  let filtered mk path filters := obind (newStringList filters) (fun l => mk path l) in
  match d with
  | KCommand name => Ok (makeCommand name)
  | KCustomTask name taskData => makeCustomTask name taskData
  | KDirectoryContents path => Ok (makeDirectoryContents path)
  | KFilteredDirectoryContents path filters => filtered makeFilteredDirectoryContents path filters
  | KDirectoryTreeSignature path filters => filtered makeDirectoryTreeSignature path filters
  | KDirectoryTreeStructureSignature path filters =>
      filtered makeDirectoryTreeStructureSignature path filters
  | KNode path => Ok (makeNode path)
  | KStat path => Ok (makeStat path)
  | KTarget name => Ok (makeTarget name)
  end.

Definition describe (key : Key) : outcome Desc :=
  let filtered path mk :=
    obind path (fun p => obind (getContentExclusionPatternsAsStringList key) (fun l =>
      obind (getValues l) (fun v => Ok (mk p v)))) in
  match getKind key with
  | Command => obind (getCommandName key) (fun n => Ok (KCommand n))
  | CustomTask =>
      obind (getCustomTaskName key) (fun n => obind (getCustomTaskData key) (fun d => Ok (KCustomTask n d)))
  | DirectoryContents => obind (getDirectoryPath key) (fun n => Ok (KDirectoryContents n))
  | FilteredDirectoryContents => filtered (getFilteredDirectoryPath key) KFilteredDirectoryContents
  | DirectoryTreeSignature => filtered (getDirectoryTreeSignaturePath key) KDirectoryTreeSignature
  | DirectoryTreeStructureSignature =>
      filtered (getFilteredDirectoryPath key) KDirectoryTreeStructureSignature
  | Node => obind (getNodeName key) (fun n => Ok (KNode n))
  | Stat => obind (getStatName key) (fun n => Ok (KStat n))
  | Target => obind (getTargetName key) (fun n => Ok (KTarget n))
  | Unknown => Crash (AssertFailed "invalid key")
  end.

(** Names and data fit the 32-bit sizes of the format; filters have no NUL. *)
Definition valid_filters (path : list Z) (filters : list (list Z)) : Prop :=
  range 32 (Z.of_nat (length path)) /\ Forall no_nul filters
  /\ Z.of_nat (length (packed filters)) < 2 ^ 32 - 8.
Definition valid_desc (d : Desc) : Prop :=
  match d with
  | KCustomTask name taskData =>
      range 32 (Z.of_nat (length name)) /\ range 32 (Z.of_nat (length taskData))
  | KFilteredDirectoryContents path filters | KDirectoryTreeSignature path filters
  | KDirectoryTreeStructureSignature path filters => valid_filters path filters
  | _ => True
  end.

(** ** Proofs *)

Lemma le32_roundtrip v : range 32 v ->
  exists b0 b1 b2 b3, le32 v = [b0; b1; b2; b3] /\ of_le32 b0 b1 b2 b3 = v.
Proof.
  intros Hv. do 4 eexists. split; [reflexivity|]. unfold of_le32.
  rewrite !Z.shiftr_div_pow2 by lia.
  assert (E3 : (v / 2 ^ 24) mod 2 ^ 8 = v / 2 ^ 8 / 2 ^ 8 / 2 ^ 8).
  { rewrite !Z.div_div by lia. change (2 ^ 8 * 2 ^ 8 * 2 ^ 8) with (2 ^ 24). apply Z.mod_small.
    split; [apply Z.div_pos; unfold range in Hv; lia|]. apply Z.div_lt_upper_bound; [lia|]. exact (proj2 Hv). }
  assert (E2 : v / 2 ^ 16 = v / 2 ^ 8 / 2 ^ 8) by (rewrite Z.div_div by lia; done).
  rewrite E3, E2. rewrite <- (lor_split v 8) at 5 by lia. f_equal.
  rewrite <- (lor_split (v / 2 ^ 8) 8) at 4 by lia. rewrite Z.shiftl_lor, Z.shiftl_shiftl by lia. f_equal.
  change (8 + 8) with 16. rewrite <- (lor_split (v / 2 ^ 8 / 2 ^ 8) 8) at 3 by lia.
  rewrite Z.shiftl_lor, Z.shiftl_shiftl by lia. done.
Qed.

(** A key with data is laid out as written, and its parts are found again. *)
Lemma sized_key code name write bs :
  range 32 (Z.of_nat (length name)) -> range 32 (Z.of_nat (length bs)) -> write [] = Ok (tt, bs) ->
  exists key, newKeyWithData code name write = Ok key /\ head key = Some code
    /\ sizedName key = Ok name /\ sizedData key = Ok bs.
Proof.
  intros Hn Hb Hw. destruct (le32_roundtrip _ Hn) as (b0 & b1 & b2 & b3 & El & Eo).
  assert (En : u32 (Z.of_nat (length name)) = Z.of_nat (length name)) by (apply Z.mod_small; exact Hn).
  assert (Eb : u32 (Z.of_nat (length bs)) = Z.of_nat (length bs)) by (apply Z.mod_small; exact Hb).
  exists (code :: [b0; b1; b2; b3] ++ name ++ bs). unfold newKeyWithData. rewrite Hw. cbn [obind snd].
  rewrite En, Eb, El, !Nat2Z.id, !firstn_all. split; [|split; [done|]].
  - destruct (Z.eqb_spec (Z.of_nat (length (code :: [b0; b1; b2; b3] ++ name ++ bs)))
      (1 + 4 + Z.of_nat (length name) + Z.of_nat (length bs))); [done|]. cbn [length app] in *.
    rewrite length_app in *. lia.
  - unfold sizedName, sizedData. cbn [nameSize app obind fst snd]. rewrite Eo.
    destruct (Z.leb_spec (Z.of_nat (length name)) (Z.of_nat (length (name ++ bs)))) as [_|H];
      [|rewrite length_app in H; lia].
    rewrite Nat2Z.id, take_app_length, drop_app_length. split; [done|]. f_equal. cbn [length].
    rewrite length_app. replace (_ - 1 - 4 - _) with (Z.of_nat (length bs)) by lia.
    rewrite Eb, Nat2Z.id. apply firstn_all.
Qed.

Lemma filters_bytes path filters : valid_filters path filters ->
  exists l bs, newStringList filters = Ok l /\ writeStringList l [] = Ok (tt, bs)
    /\ range 32 (Z.of_nat (length bs))
    /\ exists l', readStringList (mkDecoder bs 0) = Ok (l', mkDecoder bs (length bs))
       /\ getValues l' = Ok filters.
Proof.
  intros (_ & Hn & Hs). set (l := mkStringList (packed filters ++ [0]) (length (packed filters))).
  destruct (stringList_coding l) as (bs & He & Hd); [cbn; rewrite length_app; lia|cbn; unfold range; lia|].
  exists l, bs. split; [unfold newStringList; by rewrite pack_ok|]. split; [apply He|]. split.
  - specialize (He []). cbn in He. unfold bind, modify in He. cbn in He. injection He as <-.
    cbn [length app]. rewrite take_app_length. unfold range. lia.
  - exists (trim l). specialize (Hd [] []). rewrite app_nil_r in Hd. split; [exact Hd|].
    unfold trim, l. cbn [slSize contents]. rewrite take_app_length.
    rewrite <- (app_nil_r (packed filters)) at 1. by apply getValues_packed.
Qed.

Lemma kind_of_code key k : head key = Some (identifierForKind k) -> k <> Unknown -> getKind key = k.
Proof. destruct key as [|c key]; [done|]. intros [= ->] Hk. by destruct k. Qed.

(** The three kinds of keys that carry filters. *)
Lemma filtered_key k path filters : valid_filters path filters -> k <> Unknown ->
  exists l key bs l', newStringList filters = Ok l
    /\ newKeyWithData (identifierForKind k) path (writeStringList l) = Ok key /\ getKind key = k
    /\ sizedName key = Ok path /\ sizedData key = Ok bs
    /\ readStringList (mkDecoder bs 0) = Ok (l', mkDecoder bs (length bs)) /\ getValues l' = Ok filters.
Proof.
  intros Hv Hk. destruct (filters_bytes path filters Hv) as (l & bs & E1 & E2 & Hr & l' & E3 & E4).
  destruct (sized_key (identifierForKind k) path _ bs (proj1 Hv) Hr E2) as (key & K1 & K2 & K3 & K4).
  exists l, key, bs, l'. repeat (split; [done|]). split; [by apply kind_of_code|]. done.
Qed.

(** Evaluate the accessors of a key whose kind and parts are known. *)
Ltac describe_filtered mk path bs E3 E4 E5 E6 E7 :=
  unfold fromData, describe, getFilteredDirectoryPath, getDirectoryTreeSignaturePath,
    getContentExclusionPatternsAsStringList, getContentExclusionPatterns, is_kind;
  rewrite E3, E4, E5; split; [done|];
  transitivity (obind (obind (readStringList (mkDecoder bs 0)) (fun p => Ok p.1))
    (fun l => obind (getValues l) (fun v => Ok (mk path v)))); [reflexivity|];
  rewrite E6; cbn [obind fst]; rewrite E7; done.

Lemma make_describe d : valid_desc d ->
  exists key, make d = Ok key /\ fromData key = Ok key /\ describe key = Ok d.
Proof.
  destruct d; cbn [valid_desc make]; intros H; try (eexists; split; [reflexivity|]; done).
  - destruct H as [Hn Hd].
    destruct (sized_key (identifierForKind CustomTask) name (writeBytes taskData) taskData Hn Hd eq_refl)
      as (key & K1 & K2 & K3 & K4).
    exists key. split; [done|]. unfold fromData, describe, getCustomTaskName, getCustomTaskData, is_kind.
    rewrite (kind_of_code key CustomTask K2), K3, K4 by done. done.
  - destruct (filtered_key FilteredDirectoryContents path filters H ltac:(done))
      as (l & key & bs & l' & E1 & E2 & E3 & E4 & E5 & E6 & E7). exists key. rewrite E1. split; [exact E2|].
    describe_filtered KFilteredDirectoryContents path bs E3 E4 E5 E6 E7.
  - destruct (filtered_key DirectoryTreeSignature path filters H ltac:(done))
      as (l & key & bs & l' & E1 & E2 & E3 & E4 & E5 & E6 & E7). exists key. rewrite E1. split; [exact E2|].
    describe_filtered KDirectoryTreeSignature path bs E3 E4 E5 E6 E7.
  - destruct (filtered_key DirectoryTreeStructureSignature path filters H ltac:(done))
      as (l & key & bs & l' & E1 & E2 & E3 & E4 & E5 & E6 & E7). exists key. rewrite E1. split; [exact E2|].
    describe_filtered KDirectoryTreeStructureSignature path bs E3 E4 E5 E6 E7.
Qed.

(** A build key carries what it was made from: the key made for a valid
    description is accepted by [fromData], and its kind and accessors report
    exactly that description. *)
Theorem key_roundtrip d : valid_desc d ->
  exists key, make d = Ok key /\ fromData key = Ok key /\ describe key = Ok d.
Proof. apply make_describe. Qed.

Lemma key_roundtrip_witness :
  let d := KFilteredDirectoryContents [47; 97] [[42; 46; 111]; []] in
  exists key, make d = Ok key /\ fromData key = Ok key /\ describe key = Ok d.
Proof.
  intros d. apply (key_roundtrip d). split; [split; vm_compute; congruence|]. split; [|reflexivity].
  repeat constructor; intros H; apply (bool_decide_eq_true_2 _) in H; vm_compute in H; discriminate.
Defined.

(** Keys do not collide: two valid descriptions with the same key bytes are
    the same, so that a command, a node, a target or a directory signature never
    share an entry of the engine. *)
Theorem keys_do_not_collide d1 d2 key :
  valid_desc d1 -> valid_desc d2 -> make d1 = Ok key -> make d2 = Ok key -> d1 = d2.
Proof.
  intros H1 H2 E1 E2. destruct (make_describe d1 H1) as (k1 & M1 & _ & D1).
  destruct (make_describe d2 H2) as (k2 & M2 & _ & D2). congruence.
Qed.

Lemma keys_do_not_collide_witness :
  KCustomTask [97] [98] = KCustomTask [97] [98].
Proof.
  apply (keys_do_not_collide (KCustomTask [97] [98]) (KCustomTask [97] [98]) [88; 1; 0; 0; 0; 97; 98]);
    try reflexivity; split; split; vm_compute; congruence.
Defined.

(** [dump] asks for the path of a directory tree signature with the accessor of
    directory contents, whose assertion fails. *)
Theorem dump_tree_signature_asserts :
  obind (make (KDirectoryTreeSignature [47] [])) dump
  = Crash (AssertFailed "invalid call for key kind").
Proof. reflexivity. Qed.
End Key.
