(* ===== verification/Chars.v ===== *)
(** * Characters and buffers

    The parsers walk a character buffer with a pointer.  A pointer into the buffer
    is modelled by the suffix of the buffer it points at, [end] by the empty list,
    and [cur - begin] by a difference of lengths.  Reading at [end] is a [Crash]. *)

From Stdlib Require Import Ascii String Lia.
From stdpp Require Import base list strings numbers.
From S2P Require Import Prelude.

Abbreviation chars := (list ascii).

Definition NUL : ascii := "000"%char.
Definition TAB : ascii := "009"%char.
Definition LF : ascii := "010"%char.
Definition CR : ascii := "013"%char.
Definition BACKSLASH : ascii := "092"%char.

Definition chars_of (s : string) : chars := String.list_ascii_of_string s.

(** [StringRef(start, cur - start)] for two pointers into the same buffer. *)
Definition span (start cur : chars) : chars := take (length start - length cur) start.

Lemma span_app w r : span (w ++ r) r = w.
Proof. unfold span. rewrite length_app, Nat.add_sub. apply take_app_length. Qed.

(** [cur] points into the buffer [start] points into, at or after it. *)
Definition into (start cur : chars) : Prop := exists w, start = w ++ cur.

Lemma into_refl l : into l l.
Proof. by exists []. Qed.
Lemma into_trans l1 l2 l3 : into l1 l2 -> into l2 l3 -> into l1 l3.
Proof. intros [w1 ->] [w2 ->]. exists (w1 ++ w2). by rewrite app_assoc. Qed.
Lemma into_cons l c r : into l (c :: r) -> into l r.
Proof. intros [w ->]. exists (w ++ [c]). by rewrite <- app_assoc. Qed.
Lemma into_length l r : into l r -> (length r <= length l)%nat.
Proof. intros [w ->]. rewrite length_app. lia. Qed.
Lemma into_span l r : into l r -> l = span l r ++ r.
Proof. intros [w ->]. by rewrite span_app. Qed.

#[export] Hint Resolve into_refl : llb.

Lemma ascii_eqb_neq c d : c <> d -> (c =? d)%char = false.
Proof. by intros H%Ascii.eqb_neq. Qed.
