(* ===== verification/ShellUtility.v ===== *)
(** * Quoting command lines

    lib/Basic/ShellUtility.cpp: quoting of an argument for a POSIX shell and for
    the Windows command line.  The specifications are the readers on the other
    side: how a POSIX shell splits a simple command into words, and how a Windows
    program splits its command line into arguments. *)

From Stdlib Require Import ZArith Lia Ascii.
From stdpp Require Import base list strings numbers sets.
From S2P Require Import Prelude Chars.

Local Open Scope char_scope.

(** ** POSIX shells *)

Module Posix.

Definition QUOTE : ascii := "'".
Definition SPACE : ascii := " ".

Definition whitelist : list ascii :=
  chars_of "abcdefghijklmnopqrstuvwxyzABCDEFGHIJKLMNOPQRSTUVWXYZ1234567890-_/:@#%+=.,".

Definition allowed (c : ascii) : bool := bool_decide (c ∈ whitelist).

(** [find_first_not_of(whitelist)], and [find_first_of] a quote from [pos] on. *)
Fixpoint find_index (p : ascii -> bool) (l : list ascii) : option nat :=
  match l with
  | [] => None
  | c :: l' => if p c then Some 0%nat else S <$> find_index p l'
  end.
Definition find_from (p : ascii -> bool) (pos : nat) (l : list ascii) : option nat :=
  (fun i => pos + i)%nat <$> find_index p (drop pos l).

(** The loop that escapes the single quotes. *)
Fixpoint escape_quotes (l : list ascii) : list ascii :=
  match l with
  | [] => []
  | c :: l' => (if Ascii.eqb c QUOTE then [QUOTE; BACKSLASH; QUOTE; QUOTE] else [c]) ++ escape_quotes l'
  end.

(** What [appendShellEscapedString] writes to the stream. *)
Definition appendShellEscapedString (os string : list ascii) : list ascii :=
  match find_index (fun c => negb (allowed c)) string with
  | None => os ++ string
  | Some pos =>
      match find_from (Ascii.eqb QUOTE) pos string with
      | None => os ++ [QUOTE] ++ string ++ [QUOTE]
      | Some q => os ++ [QUOTE] ++ take q string ++ escape_quotes (drop q string) ++ [QUOTE]
      end
  end.
Definition shellEscaped (string : list ascii) : list ascii := appendShellEscapedString [] string.

(** *** Specification: how a shell reads a simple command *)

(** Characters that are not taken literally outside quotes, besides the quote,
    the backslash and the comment sign. *)
Definition special : list ascii := LF :: chars_of "|&;<>()$`*?[]~{}!^" ++ ["034"].
Definition is_special (c : ascii) : bool := bool_decide (c ∈ special).
Definition is_blank (c : ascii) : bool := Ascii.eqb c SPACE || Ascii.eqb c TAB.

(** The state of the reader, with the word read so far, last character first. *)
Inductive LexState :=
| Between
| Word (w : list ascii)
| Quoted (w : list ascii)
| Escaped (w : list ascii).

(** The words of a command; [None] when the command is not made of plain words. *)
Fixpoint sh_words (st : LexState) (l : list ascii) : option (list (list ascii)) :=
  match l with
  | [] => match st with Between => Some [] | Word w => Some [rev w] | _ => None end
  | c :: l' =>
      match st with
      | Between =>
          if is_blank c then sh_words Between l'
          else if Ascii.eqb c QUOTE then sh_words (Quoted []) l'
          else if Ascii.eqb c BACKSLASH then sh_words (Escaped []) l'
          else if Ascii.eqb c "#" then Some []
          else if is_special c then None
          else sh_words (Word [c]) l'
      | Word w =>
          if is_blank c then cons (rev w) <$> sh_words Between l'
          else if Ascii.eqb c QUOTE then sh_words (Quoted w) l'
          else if Ascii.eqb c BACKSLASH then sh_words (Escaped w) l'
          else if is_special c then None
          else sh_words (Word (c :: w)) l'
      | Quoted w =>
          if Ascii.eqb c QUOTE then sh_words (Word w) l' else sh_words (Quoted (c :: w)) l'
      | Escaped w => sh_words (Word (c :: w)) l'
      end
  end.

(** A command line: the arguments, quoted and joined by spaces. *)
Fixpoint join (args : list (list ascii)) : list ascii :=
  match args with
  | [] => []
  | [a] => shellEscaped a
  | a :: rest => shellEscaped a ++ SPACE :: join rest
  end.

(** An argument the quoting gets through: not empty, and not starting with the
    comment sign unless something in it is quoted anyway. *)
Definition quotable (a : list ascii) : Prop :=
  a <> [] /\ (head a = Some "#" -> exists c, c ∈ a /\ allowed c = false).

(** *** Proofs *)

Lemma allowed_literal c : allowed c = true ->
  is_blank c = false /\ Ascii.eqb c QUOTE = false /\ Ascii.eqb c BACKSLASH = false /\ is_special c = false.
Proof. destruct c as [[] [] [] [] [] [] [] []]; intros H; vm_compute in H; done. Qed.

Lemma find_index_None p l : find_index p l = None -> Forall (fun c => p c = false) l.
Proof.
  induction l as [|c l IH]; cbn; [constructor|]. destruct (p c) eqn:E; [done|].
  destruct (find_index p l); [done|]. constructor; auto.
Qed.

Lemma find_index_before p l i : find_index p l = Some i -> Forall (fun c => p c = false) (take i l) /\
  exists c, c ∈ l /\ p c = true.
Proof.
  revert i. induction l as [|c l IH]; intros i; cbn; [done|]. destruct (p c) eqn:E.
  - intros [= <-]. split; [constructor|]. exists c. split; [left|done].
  - destruct (find_index p l) as [j|]; [|done]. intros [= <-]. destruct (IH j eq_refl) as (H1 & d & Hd & Hp).
    split; [by constructor|]. exists d. split; [by right|done].
Qed.

Lemma words_literal s w rest : Forall (fun c => allowed c = true) s ->
  sh_words (Word w) (s ++ rest) = sh_words (Word (rev s ++ w)) rest.
Proof.
  intros Hs. revert w. induction Hs as [|c s Hc _ IH]; intros w; [done|]. cbn [app sh_words].
  destruct (allowed_literal c Hc) as (-> & -> & -> & ->). rewrite IH. cbn [rev]. by rewrite <- app_assoc.
Qed.

Lemma words_quoted s w rest :
  sh_words (Quoted w) (escape_quotes s ++ QUOTE :: rest) = sh_words (Word (rev s ++ w)) rest.
Proof.
  revert w. induction s as [|c s IH]; intros w; [done|]. cbn [escape_quotes]. rewrite <- app_assoc.
  destruct (Ascii.eqb_spec c QUOTE) as [->|Hc].
  - cbn [app sh_words]. change (sh_words (Quoted (QUOTE :: w)) (escape_quotes s ++ QUOTE :: rest)
      = sh_words (Word (rev (QUOTE :: s) ++ w)) rest). rewrite IH. cbn [rev]. by rewrite <- app_assoc.
  - cbn [app sh_words]. destruct (Ascii.eqb_spec c QUOTE); [done|]. rewrite IH. cbn [rev]. by rewrite <- app_assoc.
Qed.

Lemma escape_quotes_none s : Forall (fun c => Ascii.eqb QUOTE c = false) s -> escape_quotes s = s.
Proof.
  induction 1 as [|c s Hc _ IH]; [done|]. cbn [escape_quotes]. rewrite Ascii.eqb_sym, Hc, IH. done.
Qed.

(** The quoted form, in one of two shapes. *)
Lemma escaped_shape a :
  (shellEscaped a = a /\ Forall (fun c => allowed c = true) a)
  \/ shellEscaped a = QUOTE :: escape_quotes a ++ [QUOTE] /\ exists c, c ∈ a /\ allowed c = false.
Proof.
  unfold shellEscaped, appendShellEscapedString. destruct (find_index _ a) as [pos|] eqn:E.
  - right. destruct (find_index_before _ _ _ E) as (Hb & c & Hc & Hn). split; [|exists c; split; [done|by destruct (allowed c)]].
    assert (Hpre : Forall (fun c => Ascii.eqb QUOTE c = false) (take pos a)).
    { eapply Forall_impl; [exact Hb|]. intros d Hd. apply negb_false_iff in Hd.
      destruct (allowed_literal d Hd) as (_ & H & _). by rewrite Ascii.eqb_sym. }
    unfold find_from. destruct (find_index (Ascii.eqb QUOTE) (drop pos a)) as [i|] eqn:Eq; cbn.
    + destruct (find_index_before _ _ _ Eq) as [Hq _]. f_equal. rewrite app_assoc. f_equal.
      rewrite <- (take_drop (pos + i) a) at 3. 
      assert (Happ : forall u v, escape_quotes (u ++ v) = escape_quotes u ++ escape_quotes v).
      { induction u as [|d u IHu]; intros v; [done|]. cbn [escape_quotes app]. by rewrite IHu, app_assoc. }
      rewrite Happ. f_equal. symmetry. apply escape_quotes_none.
      rewrite <- (take_drop pos a), take_app. apply Forall_app. split.
      * eapply Forall_take. exact Hpre.
      * rewrite length_take. destruct (Nat.le_ge_cases (length a) pos).
        { rewrite drop_ge by lia. rewrite take_nil. constructor. }
        replace (pos + i - pos `min` length a)%nat with i by lia. exact Hq.
    + f_equal. f_equal. symmetry. apply escape_quotes_none.
      rewrite <- (take_drop pos a). apply Forall_app. split; [exact Hpre|]. by apply find_index_None.
  - left. split; [done|]. apply find_index_None in E. eapply Forall_impl; [exact E|].
    intros c Hc. by apply negb_false_iff in Hc.
Qed.

(** A quoted argument is read as one word, itself. *)
Lemma word_of_escaped a rest : quotable a ->
  exists w, sh_words Between (shellEscaped a ++ rest) = sh_words (Word w) rest /\ rev w = a.
Proof.
  intros [Hne Hh]. exists (rev a). split; [|apply rev_involutive].
  destruct (escaped_shape a) as [[-> Ha]|[-> _]].
  - destruct a as [|c a]; [done|]. inversion Ha as [|? ? Hc Hs]; subst. cbn [app sh_words].
    destruct (allowed_literal c Hc) as (-> & -> & -> & ->).
    destruct (Ascii.eqb_spec c "#") as [->|_].
    + destruct (Hh eq_refl) as (d & Hd & Hn). rewrite Forall_forall in Ha.
      rewrite (Ha d) in Hn; done.
    + rewrite words_literal by done. done.
  - cbn [app sh_words]. change (is_blank QUOTE) with false. cbn [Ascii.eqb]. rewrite <- app_assoc. cbn [app].
    change (Ascii.eqb QUOTE QUOTE) with true. cbn iota. rewrite words_quoted, app_nil_r. done.
Qed.

(** A POSIX shell reads a command line of quoted arguments as exactly those
    arguments, whatever characters they contain. *)
Theorem shell_words_roundtrip args : Forall quotable args -> sh_words Between (join args) = Some args.
Proof.
  induction 1 as [|a args Ha Hargs IH]; [done|]. destruct args as [|b args].
  - cbn [join]. rewrite <- (app_nil_r (shellEscaped a)). destruct (word_of_escaped a [] Ha) as (w & -> & E).
    cbn. by rewrite E.
  - change (join (a :: b :: args)) with (shellEscaped a ++ SPACE :: join (b :: args)).
    destruct (word_of_escaped a (SPACE :: join (b :: args)) Ha) as (w & E1 & E2).
    rewrite E1. cbn [sh_words]. change (is_blank SPACE) with true. cbn iota. rewrite IH, E2. done.
Qed.

Lemma shell_words_roundtrip_witness :
  sh_words Between (join [chars_of "echo"; chars_of "it's $HOME"; chars_of "# a"])
  = Some [chars_of "echo"; chars_of "it's $HOME"; chars_of "# a"].
Proof.
  apply (shell_words_roundtrip [chars_of "echo"; chars_of "it's $HOME"; chars_of "# a"]).
  repeat constructor; try discriminate; try (intros H; discriminate H).
  intros _. exists " ". split; [apply list_elem_of_In; right; left; reflexivity|reflexivity].
Defined.

(** An empty argument disappears, and one that starts with the comment sign hides
    the rest of the line. *)
Theorem empty_argument_lost :
  sh_words Between (join [chars_of "a"; []; chars_of "b"]) = Some [chars_of "a"; chars_of "b"].
Proof. reflexivity. Qed.
Theorem comment_sign_not_quoted :
  sh_words Between (join [chars_of "rm"; chars_of "#x"; chars_of "b"]) = Some [chars_of "rm"].
Proof. reflexivity. Qed.

End Posix.

(** ** The Windows command line *)

Module Windows.

Definition DQUOTE : ascii := "034".
Definition SPACE : ascii := " ".

(** The characters of [needsQuote]: blank, tab, newline, vertical tab, quote. *)
Definition needsQuote : list ascii := [SPACE; TAB; LF; "011"; DQUOTE].

(** The loop over the argument; [numBackslashes] were skipped just before. *)
Fixpoint escape_loop (numBackslashes : nat) (l : list ascii) : list ascii :=
  match l with
  | [] => replicate (numBackslashes * 2) BACKSLASH
  | c :: l' =>
      if Ascii.eqb c BACKSLASH then escape_loop (S numBackslashes) l'
      else if Ascii.eqb c DQUOTE
      then replicate (numBackslashes * 2 + 1) BACKSLASH ++ c :: escape_loop 0 l'
      else replicate numBackslashes BACKSLASH ++ c :: escape_loop 0 l'
  end.

Definition formatWindowsCommandArg (string : list ascii) : list ascii :=
  if forallb (fun c => negb (bool_decide (c ∈ needsQuote))) string then string
  else [DQUOTE] ++ escape_loop 0 string ++ [DQUOTE].

Definition formatWindowsCommandString (args : list (list ascii)) : list ascii :=
  let commandLine := concat (map (fun arg => formatWindowsCommandArg arg ++ [SPACE]) args) in
  take (length commandLine - 1) commandLine.

(** *** Specification: how a program splits its command line *)

Definition is_blank (c : ascii) : bool := Ascii.eqb c SPACE || Ascii.eqb c TAB.

(** [inq] is set between quotes; [w] is the argument read so far, last character
    first, if one has started; [nb] backslashes were just read.  An even number of
    backslashes before a quote stands for half of them and the quote toggles
    [inq]; an odd number for half of them and a quote. *)
Fixpoint win_args (inq : bool) (w : option (list ascii)) (nb : nat) (l : list ascii) : list (list ascii) :=
  let bs n := replicate n BACKSLASH in
  match l with
  | [] => match w with None => [] | Some w => [rev (bs nb ++ w)] end
  | c :: l' =>
      if Ascii.eqb c BACKSLASH then win_args inq (Some (default [] w)) (S nb) l'
      else if Ascii.eqb c DQUOTE then
        if Nat.even nb then win_args (negb inq) (Some (bs (nb / 2) ++ default [] w)) 0 l'
        else win_args inq (Some (DQUOTE :: bs (nb / 2) ++ default [] w)) 0 l'
      else if is_blank c && negb inq then
        match w with
        | None => win_args false None 0 l'
        | Some w => rev (bs nb ++ w) :: win_args false None 0 l'
        end
      else win_args inq (Some (c :: bs nb ++ default [] w)) 0 l'
  end.

(** *** Proofs *)

Lemma win_backslashes inq w nb n rest :
  win_args inq (Some w) nb (replicate n BACKSLASH ++ rest) = win_args inq (Some w) (n + nb) rest.
Proof.
  revert nb. induction n as [|n IH]; intros nb; [done|]. cbn [replicate app win_args]. change (Ascii.eqb BACKSLASH BACKSLASH) with true.
  cbn iota. rewrite IH. f_equal. lia.
Qed.

Lemma replicate_rev n (c : ascii) : rev (replicate n c) = replicate n c.
Proof.
  induction n as [|n IH]; [done|]. cbn [replicate rev]. rewrite IH. clear.
  induction n as [|n IH]; [done|]. cbn [replicate app]. by rewrite IH.
Qed.

Lemma replicate_snoc n (c : ascii) l : replicate n c ++ c :: l = replicate (S n) c ++ l.
Proof. induction n as [|n IH]; [done|]. cbn [replicate app] in *. by rewrite IH. Qed.

(** Inside quotes the loop's output is read back, up to the closing quote. *)
Lemma win_quoted s : forall n w rest,
  win_args true (Some w) 0 (escape_loop n s ++ DQUOTE :: rest)
  = win_args false (Some (rev s ++ replicate n BACKSLASH ++ w)) 0 rest.
Proof.
  induction s as [|c s IH]; intros n w rest; cbn [escape_loop].
  - rewrite win_backslashes. cbn [win_args]. change (Ascii.eqb DQUOTE BACKSLASH) with false.
    change (Ascii.eqb DQUOTE DQUOTE) with true. cbn iota. rewrite Nat.add_0_r, Nat.mul_comm, Nat.even_mul. cbn [Nat.even orb].
    rewrite Nat.mul_comm, Nat.div_mul by done. done.
  - destruct (Ascii.eqb_spec c BACKSLASH) as [->|Hb].
    + rewrite IH. cbn [rev]. rewrite <- app_assoc. done.
    + destruct (Ascii.eqb_spec c DQUOTE) as [->|Hq]; rewrite <- app_assoc, win_backslashes; cbn [app win_args].
      * change (Ascii.eqb DQUOTE BACKSLASH) with false. change (Ascii.eqb DQUOTE DQUOTE) with true. cbn iota.
        rewrite Nat.add_0_r. replace (Nat.even (n * 2 + 1)) with false
          by (symmetry; rewrite Nat.even_add, Nat.mul_comm, Nat.even_mul; done).
        replace ((n * 2 + 1) / 2)%nat with n by (rewrite Nat.div_add_l by done; cbn; lia).
        rewrite IH. cbn [default replicate app rev]. by rewrite <- app_assoc.
      * destruct (Ascii.eqb_spec c BACKSLASH); [done|]. destruct (Ascii.eqb_spec c DQUOTE); [done|].
        rewrite andb_false_r. rewrite IH, Nat.add_0_r. cbn [default replicate app rev]. by rewrite <- app_assoc.
Qed.

(** Outside quotes an argument without special characters is read literally. *)
Lemma win_literal s : forallb (fun c => negb (bool_decide (c ∈ needsQuote))) s = true ->
  forall nb w rest, (forall c, head rest = Some c -> c = SPACE) ->
  exists w', win_args false (Some w) nb (s ++ rest) = win_args false (Some w') 0 rest
    /\ rev w' = rev w ++ replicate nb BACKSLASH ++ s.
Proof.
  induction s as [|c s IH]; intros Hs nb w rest Hr.
  - exists (replicate nb BACKSLASH ++ w). split.
    + destruct rest as [|c rest]; [done|]. rewrite (Hr c eq_refl). done.
    + by rewrite rev_app_distr, replicate_rev, app_nil_r.
  - cbn [forallb] in Hs. apply andb_prop in Hs as [Hc Hs]. apply negb_true_iff, bool_decide_eq_false in Hc.
    cbn [app win_args]. destruct (Ascii.eqb_spec c BACKSLASH) as [->|Hb].
    + destruct (IH Hs (S nb) w rest Hr) as (w' & E & Hw). exists w'. split; [exact E|].
      rewrite Hw. by rewrite <- replicate_snoc.
    + destruct (Ascii.eqb_spec c DQUOTE) as [->|_]; [destruct Hc; set_solver|].
      assert (is_blank c = false) as ->.
      { unfold is_blank. destruct (Ascii.eqb_spec c SPACE) as [->|_]; [destruct Hc; set_solver|].
        destruct (Ascii.eqb_spec c TAB) as [->|_]; [destruct Hc; set_solver|done]. }
      cbn [andb default]. destruct (IH Hs 0%nat (c :: replicate nb BACKSLASH ++ w) rest Hr) as (w' & E & Hw).
      exists w'. split; [exact E|]. rewrite Hw. cbn [rev replicate app].
      by rewrite rev_app_distr, replicate_rev, <- !app_assoc.
Qed.

Lemma win_arg a rest : a <> [] -> (forall c, head rest = Some c -> c = SPACE) ->
  exists w, win_args false None 0 (formatWindowsCommandArg a ++ rest) = win_args false (Some w) 0 rest
    /\ rev w = a.
Proof.
  intros Ha Hr. unfold formatWindowsCommandArg. destruct (forallb _ a) eqn:Hq.
  - destruct (win_literal a Hq 0 [] rest Hr) as (w & E & Hw). exists w. split; [|exact Hw]. rewrite <- E.
    destruct a as [|c a]; [done|]. cbn [app win_args]. destruct (Ascii.eqb c BACKSLASH); [done|].
    destruct (Ascii.eqb c DQUOTE); [done|].
    cbn [forallb] in Hq. apply andb_prop in Hq as [Hc _]. apply negb_true_iff, bool_decide_eq_false in Hc.
    destruct (is_blank c) eqn:Hb; [|done]. destruct Hc. unfold is_blank in Hb.
    apply orb_prop in Hb as [Hx%Ascii.eqb_eq|Hx%Ascii.eqb_eq]; subst c; set_solver.
  - exists (rev a). split; [|apply rev_involutive]. cbn [app win_args].
    change (Ascii.eqb DQUOTE BACKSLASH) with false. change (Ascii.eqb DQUOTE DQUOTE) with true. cbn iota.
    cbn [Nat.even negb Nat.div replicate app default]. rewrite <- app_assoc. cbn [app].
    change (0 / 2)%nat with 0%nat. cbn [replicate app]. rewrite win_quoted. cbn [replicate app]. by rewrite app_nil_r.
Qed.

(** The line without its last separator. *)
Lemma win_last args a : Forall (fun a => a <> []) args -> a <> [] ->
  win_args false None 0 (concat (map (fun arg => formatWindowsCommandArg arg ++ [SPACE]) args)
    ++ formatWindowsCommandArg a) = args ++ [a].
Proof.
  intros Hargs Ha. induction Hargs as [|b args Hb _ IH]; cbn [map concat app].
  - rewrite <- (app_nil_r (formatWindowsCommandArg a)).
    destruct (win_arg a [] Ha) as (w & E & Hw); [done|]. rewrite E. cbn. by rewrite Hw.
  - rewrite <- !app_assoc.
    destruct (win_arg b ([SPACE] ++ concat (map (fun arg => formatWindowsCommandArg arg ++ [SPACE]) args)
      ++ formatWindowsCommandArg a) Hb) as (w & E & Hw); [by intros c [= <-]|].
    rewrite E. cbn [app win_args]. change (Ascii.eqb SPACE BACKSLASH) with false.
    change (Ascii.eqb SPACE DQUOTE) with false. change (is_blank SPACE && negb false) with true. cbn iota.
    cbn [replicate app]. by rewrite IH, Hw.
Qed.

(** a Windows program splits the command line made from a list of arguments
    into exactly those arguments, with their backslashes and quotes. *)
Theorem windows_args_roundtrip args : Forall (fun a => a <> []) args ->
  win_args false None 0 (formatWindowsCommandString args) = args.
Proof.
  intros H. unfold formatWindowsCommandString. destruct args as [|a args _] using rev_ind; [done|].
  apply Forall_app in H as [Hargs Ha]. inversion Ha as [|? ? Hne _]; subst.
  rewrite map_app, concat_app. cbn [map concat]. rewrite app_nil_r, app_assoc, length_app.
  cbn [length]. rewrite Nat.add_sub, take_app_length. by apply win_last.
Qed.

Lemma windows_args_roundtrip_witness :
  win_args false None 0 (formatWindowsCommandString [chars_of "cl"; [BACKSLASH; DQUOTE; SPACE; BACKSLASH]])
  = [chars_of "cl"; [BACKSLASH; DQUOTE; SPACE; BACKSLASH]].
Proof.
  apply (windows_args_roundtrip [chars_of "cl"; [BACKSLASH; DQUOTE; SPACE; BACKSLASH]]).
  repeat constructor; discriminate.
Defined.

End Windows.
