(* ===== verification/MakefileDeps.v ===== *)
(** * The Makefile dependency parser (MakefileDepsParser.cpp)

    [parse] is the whole of [MakefileDepsParser::parse]; the calls to the
    [ParseActions] delegate are its result, in order.  Character comparisons are
    those of a non-Windows build. *)

From Stdlib Require Import Ascii Lia.
From stdpp Require Import base list strings numbers.
From S2P Require Import Prelude Chars.

(** The calls on [ParseActions]; [RuleStart] and [RuleDependency] carry the raw
    and the unescaped word. *)
Inductive Action :=
| RuleStart (name unescaped : chars)
| RuleDependency (dependency unescaped : chars)
| RuleEnd
| ParseError (message : string) (position : nat).

Definition isWordChar (c : ascii) : bool :=
  negb ((c =? NUL) || (c =? TAB) || (c =? CR) || (c =? LF) || (c =? " ") || (c =? "$") || (c =? ":"))%char.

(** [comment] is set between a number sign and the end of its line. *)
Fixpoint skipWhitespaceAndComments (comment : bool) (cur : chars) : chars :=
  match cur with
  | [] => []
  | c :: cur' =>
      if comment && negb (c =? LF)%char then skipWhitespaceAndComments true cur'
      else if (c =? "#")%char then skipWhitespaceAndComments true cur'
      else if ((c =? " ") || (c =? TAB) || (c =? LF) || (c =? CR))%char
      then skipWhitespaceAndComments false cur'
      else cur
  end.

Fixpoint skipNonNewlineWhitespace (cur : chars) : chars :=
  match cur with
  | [] => []
  | c :: cur' =>
      if ((c =? " ") || (c =? TAB) || (c =? CR))%char then skipNonNewlineWhitespace cur'
      else if (c =? BACKSLASH)%char then
        match cur' with
        | d :: cur'' =>
            if (d =? LF)%char then skipNonNewlineWhitespace cur''
            else
              match cur'' with
              | e :: cur3 =>
                  if ((d =? CR) && (e =? LF))%char then skipNonNewlineWhitespace cur3 else cur
              | [] => cur
              end
        | [] => cur
        end
      else cur
  end.

Fixpoint skipToEndOfLine (cur : chars) : chars :=
  match cur with
  | [] => []
  | c :: cur' => if (c =? LF)%char then cur' else skipToEndOfLine cur'
  end.

(** What an escaped character contributes to the word. *)
Definition unescape (c : ascii) : chars :=
  if ((c =? " ") || (c =? "#") || (c =? BACKSLASH))%char then [c] else [BACKSLASH; c].

(** [word] is [unescapedWord], to which the characters are appended.  After a
    backslash the code reads the next character without looking for [end]. *)
Fixpoint lexWord (cur word : chars) : outcome (chars * chars) :=
  match cur with
  | [] => Ok ([], word)
  | c :: cur' =>
      if (c =? BACKSLASH)%char then
        match cur' with
        | [] => Crash (OutOfBounds "lexWord")
        | d :: cur'' => if (d =? LF)%char then Ok (cur, word) else lexWord cur'' (word ++ unescape d)
        end
      else
        let plain := if isWordChar c then lexWord cur' (word ++ [c]) else Ok (cur, word) in
        if (c =? "$")%char then
          match cur' with
          | d :: cur'' => if (d =? "$")%char then lexWord cur'' (word ++ [c]) else plain
          | [] => plain
          end
        else plain
  end.

(** The loop that pushes colons onto a prerequisite and goes on lexing. *)
Fixpoint lexColons (fuel : nat) (cur word : chars) : outcome (chars * chars) :=
  match fuel with
  | O => Crash OutOfFuel
  | S fuel' =>
      match cur with
      | c :: cur' =>
          if (c =? ":")%char
          then obind (lexWord cur' (word ++ [c])) (fun p => lexColons fuel' p.1 p.2)
          else Ok (cur, word)
      | [] => Ok (cur, word)
      end
  end.

(** The offset [cur - data.data()]. *)
Definition offset (data cur : chars) : nat := length data - length cur.

(** [cur == wordStart] for pointers into one buffer. *)
Definition same (cur start : chars) : bool := (length cur =? length start)%nat.

(** The loop over the prerequisites of a rule: the actions and the final [cur]. *)
Fixpoint parseDependencies (fuel : nat) (data cur : chars) : outcome (list Action * chars) :=
  match fuel with
  | O => Crash OutOfFuel
  | S fuel' =>
      match cur with
      | [] => Ok ([], cur)
      | _ =>
          let cur := skipNonNewlineWhitespace cur in
          match cur with
          | [] => Ok ([], cur)
          | c :: _ =>
              if (c =? LF)%char then Ok ([], cur)
              else
                obind (lexWord cur []) (fun p =>
                let (cur1, word) := p in
                if same cur1 cur then
                  obind (parseDependencies fuel' data (skipToEndOfLine cur1)) (fun q =>
                  Ok (ParseError "unexpected character in prerequisites" (offset data cur1) :: q.1, q.2))
                else
                  obind (lexColons (S (length cur1)) cur1 word) (fun p2 =>
                  let (cur2, word2) := p2 in
                  obind (parseDependencies fuel' data cur2) (fun q =>
                  Ok (RuleDependency (span cur cur2) word2 :: q.1, q.2))))
          end
      end
  end.

Fixpoint parseRules (fuel : nat) (ignoreSubsequentOutputs : bool) (data cur : chars)
    : outcome (list Action) :=
  match fuel with
  | O => Crash OutOfFuel
  | S fuel' =>
      match cur with
      | [] => Ok []
      | _ =>
          let cur := skipWhitespaceAndComments false cur in
          match cur with
          | [] => Ok []
          | _ =>
              obind (lexWord cur []) (fun p =>
              let (cur1, word) := p in
              if same cur1 cur then
                obind (parseRules fuel' ignoreSubsequentOutputs data (skipToEndOfLine cur1)) (fun l =>
                Ok (ParseError "unexpected character in file" (offset data cur1) :: l))
              else
                let start := RuleStart (span cur cur1) word in
                let cur2 := skipNonNewlineWhitespace cur1 in
                let missing :=
                  obind (parseRules fuel' ignoreSubsequentOutputs data (skipToEndOfLine cur2)) (fun l =>
                  Ok (start :: ParseError "missing ':' following rule" (offset data cur2) :: RuleEnd :: l)) in
                match cur2 with
                | c :: cur3 =>
                    if (c =? ":")%char then
                      obind (parseDependencies (S (length cur3)) data cur3) (fun q =>
                      if ignoreSubsequentOutputs then Ok (start :: q.1 ++ [RuleEnd])
                      else obind (parseRules fuel' ignoreSubsequentOutputs data q.2) (fun l =>
                           Ok (start :: q.1 ++ RuleEnd :: l)))
                    else missing
                | [] => missing
                end)
          end
      end
  end.

Definition parse (ignoreSubsequentOutputs : bool) (data : chars) : outcome (list Action) :=
  parseRules (S (length data)) ignoreSubsequentOutputs data data.

(** ** Every pointer stays inside the buffer *)

Lemma skipWhitespace_into b cur : into cur (skipWhitespaceAndComments b cur).
Proof.
  revert b. induction cur as [|c cur IH]; intros b; cbn; [apply into_refl|].
  assert (Hc : forall b', into (c :: cur) (skipWhitespaceAndComments b' cur)).
  { intros b'. eapply into_trans; [|apply IH]. by exists [c]. }
  destruct (b && _); [apply Hc|]. destruct (_ =? "#")%char; [apply Hc|].
  destruct (_ || _); [apply Hc|apply into_refl].
Qed.

Lemma skipNonNewline_into : forall cur, into cur (skipNonNewlineWhitespace cur).
Proof.
  fix IH 1. intros [|c cur]; cbn; [apply into_refl|].
  destruct (_ || _); [eapply into_trans; [|apply IH]; by exists [c]|].
  destruct (c =? BACKSLASH)%char; [|apply into_refl].
  destruct cur as [|d cur]; [apply into_refl|].
  destruct (d =? LF)%char; [eapply into_trans; [|apply IH]; by exists [c; d]|].
  destruct cur as [|e cur]; [apply into_refl|].
  destruct (_ && _); [|apply into_refl]. eapply into_trans; [|apply IH]. by exists [c; d; e].
Qed.

Lemma skipToEndOfLine_into cur : into cur (skipToEndOfLine cur).
Proof.
  induction cur as [|c cur IH]; cbn; [apply into_refl|].
  destruct (c =? LF)%char; [by exists [c]|]. eapply into_trans; [|apply IH]. by exists [c].
Qed.

Lemma skipToEndOfLine_shorter cur : cur <> [] -> (length (skipToEndOfLine cur) < length cur)%nat.
Proof.
  destruct cur as [|c cur]; [done|]. intros _. cbn. destruct (c =? LF)%char; [lia|].
  pose proof (into_length _ _ (skipToEndOfLine_into cur)). lia.
Qed.

(** The buffer does not end in a backslash. *)
Definition terminated (l : chars) : Prop := list.last l <> Some BACKSLASH.

Lemma terminated_into l r : into l r -> terminated l -> terminated r.
Proof.
  intros [w ->]. unfold terminated. rewrite last_app. by destruct (list.last r).
Qed.

Lemma lexWord_total : forall n cur word, (length cur <= n)%nat -> terminated cur ->
  exists cur' w, lexWord cur word = Ok (cur', w) /\ into cur cur'.
Proof.
  induction n as [|n IH]; intros [|c cur] word Hn Ht; cbn in Hn; try lia;
    try (exists [], word; split; [done|apply into_refl]).
  assert (Hskip : forall w, into (c :: cur) w -> (length w <= n)%nat -> forall word',
      exists cur' w', lexWord w word' = Ok (cur', w') /\ into (c :: cur) cur').
  { intros w Hw Hl word'. destruct (IH w word' Hl (terminated_into _ _ Hw Ht)) as (cur' & w' & E & Hi).
    exists cur', w'. split; [done|]. by eapply into_trans. }
  assert (H1 : into (c :: cur) cur) by by exists [c].
  cbn [lexWord]. destruct (Ascii.eqb_spec c BACKSLASH) as [->|Hc].
  - destruct cur as [|d cur].
    + by destruct Ht.
    + destruct (d =? LF)%char; [eexists _, _; split; [done|apply into_refl]|].
      apply Hskip; [by exists [BACKSLASH; d]|cbn in Hn; lia].
  - assert (Hplain : exists cur' w, (if isWordChar c then lexWord cur (word ++ [c])
        else Ok (c :: cur, word)) = Ok (cur', w) /\ into (c :: cur) cur').
    { destruct (isWordChar c); [apply Hskip; [done|lia]|].
      eexists _, _. split; [done|apply into_refl]. }
    destruct (c =? "$")%char; [|done]. destruct cur as [|d cur]; [done|].
    destruct (d =? "$")%char; [|done]. apply Hskip; [by exists [c; d]|cbn in Hn; lia].
Qed.

Lemma lexColons_total fuel : forall cur word, (length cur < fuel)%nat -> terminated cur ->
  exists cur' w, lexColons fuel cur word = Ok (cur', w) /\ into cur cur'.
Proof.
  induction fuel as [|fuel IH]; intros cur word Hf Ht; [lia|]. cbn [lexColons].
  destruct cur as [|c cur]; [eexists _, _; split; [done|apply into_refl]|].
  destruct (c =? ":")%char; [|eexists _, _; split; [done|apply into_refl]].
  assert (Hi : into (c :: cur) cur) by by exists [c].
  destruct (lexWord_total (length cur) cur (word ++ [c])) as (cur' & w & -> & Hi'); [lia|by eapply terminated_into|].
  cbn. destruct (IH cur' w) as (cur2 & w2 & -> & Hi2).
  - apply into_length in Hi'. cbn in Hf. lia.
  - eapply terminated_into; [|exact Ht]. by eapply into_trans.
  - eexists _, _. split; [done|]. eapply into_trans; [|exact Hi2]. by eapply into_trans.
Qed.

Lemma same_shorter cur start : into start cur -> same cur start = false -> (length cur < length start)%nat.
Proof. unfold same. intros H%into_length E%Nat.eqb_neq. lia. Qed.
Lemma same_nonempty cur start : same cur start = true -> start <> [] -> cur <> [].
Proof. unfold same. intros E%Nat.eqb_eq Hs ->. by destruct start. Qed.

Lemma parseDependencies_total fuel data : forall cur, (length cur < fuel)%nat -> terminated cur ->
  exists l cur', parseDependencies fuel data cur = Ok (l, cur') /\ into cur cur'.
Proof.
  induction fuel as [|fuel IH]; intros cur Hf Ht; [lia|]. cbn [parseDependencies].
  destruct cur as [|c0 cur0]; [eexists _, _; split; [done|apply into_refl]|].
  set (cur := c0 :: cur0) in *. pose proof (skipNonNewline_into cur) as Hi.
  destruct (skipNonNewlineWhitespace cur) as [|c cur1] eqn:Hs; [eexists _, _; split; [done|done]|].
  destruct (c =? LF)%char; [eexists _, _; split; [done|done]|].
  destruct (lexWord_total (length (c :: cur1)) (c :: cur1) []) as (cur' & w & -> & Hi');
    [lia|by eapply terminated_into|]. cbn [obind].
  assert (Hi2 : into cur cur') by by eapply into_trans.
  destruct (same cur' (c :: cur1)) eqn:Hsame.
  - destruct (IH (skipToEndOfLine cur')) as (l & cur2 & -> & Hi3).
    + pose proof (skipToEndOfLine_shorter cur' (same_nonempty _ _ Hsame ltac:(done))).
      apply into_length in Hi2. lia.
    + eapply terminated_into; [|exact Ht]. eapply into_trans; [exact Hi2|]. apply skipToEndOfLine_into.
    + eexists _, _. split; [done|]. cbn. eapply into_trans; [exact Hi2|].
      eapply into_trans; [apply skipToEndOfLine_into|done].
  - apply same_shorter in Hsame; [|done].
    destruct (lexColons_total (S (length cur')) cur' w) as (cur2 & w2 & -> & Hi3); [lia|by eapply terminated_into|].
    cbn [obind]. assert (Hi4 : into cur cur2) by by eapply into_trans.
    destruct (IH cur2) as (l & cur3 & -> & Hi5).
    + apply into_length in Hi3. apply into_length in Hi. lia.
    + by eapply terminated_into.
    + eexists _, _. split; [done|]. by eapply into_trans.
Qed.

Lemma parseRules_total fuel b data : forall cur, (length cur < fuel)%nat -> terminated cur ->
  exists l, parseRules fuel b data cur = Ok l.
Proof.
  induction fuel as [|fuel IH]; intros cur Hf Ht; [lia|]. cbn [parseRules].
  destruct cur as [|c0 cur0]; [eauto|]. set (cur := c0 :: cur0) in *.
  pose proof (skipWhitespace_into false cur) as Hi.
  destruct (skipWhitespaceAndComments false cur) as [|c cur1] eqn:Hs; [eauto|].
  destruct (lexWord_total (length (c :: cur1)) (c :: cur1) []) as (cur' & w & -> & Hi');
    [lia|by eapply terminated_into|]. cbn [obind].
  assert (Hi2 : into cur cur') by by eapply into_trans.
  assert (Hrest : forall r, into cur r -> (length r < length cur)%nat ->
            exists l, parseRules fuel b data r = Ok l).
  { intros r Hr Hl. apply IH; [lia|by eapply terminated_into]. }
  destruct (same cur' (c :: cur1)) eqn:Hsame.
  - destruct (Hrest (skipToEndOfLine cur')) as (l & ->); [|..|eauto].
    + eapply into_trans; [exact Hi2|]. apply skipToEndOfLine_into.
    + pose proof (skipToEndOfLine_shorter cur' (same_nonempty _ _ Hsame ltac:(done))).
      apply into_length in Hi2. lia.
  - apply same_shorter in Hsame; [|done].
    pose proof (skipNonNewline_into cur') as Hi3.
    assert (Hi4 : into cur (skipNonNewlineWhitespace cur')) by by eapply into_trans.
    assert (Hlen : (length (skipNonNewlineWhitespace cur') < length cur)%nat).
    { apply into_length in Hi3. apply into_length in Hi. lia. }
    assert (Hmiss : exists l, parseRules fuel b data (skipToEndOfLine (skipNonNewlineWhitespace cur')) = Ok l).
    { apply Hrest; [eapply into_trans; [exact Hi4|apply skipToEndOfLine_into]|].
      pose proof (into_length _ _ (skipToEndOfLine_into (skipNonNewlineWhitespace cur'))). lia. }
    destruct Hmiss as (lm & ->). cbn [obind].
    destruct (skipNonNewlineWhitespace cur') as [|e cur2]; [eauto|].
    destruct (e =? ":")%char; [|eauto].
    assert (Hi5 : into cur cur2) by (by eapply into_cons).
    destruct (parseDependencies_total (S (length cur2)) data cur2) as (l & cur3 & -> & Hi6);
      [lia|by eapply terminated_into|]. cbn [obind fst snd]. destruct b; [eauto|].
    destruct (Hrest cur3) as (l2 & ->); [by eapply into_trans| |eauto].
    apply into_length in Hi6. unfold cur in *. cbn [length] in *. lia.
Qed.

(** ** Printing and parsing back *)

(** Escape a word the way the lexer unescapes it. *)
Definition escape_char (c : ascii) : chars :=
  if ((c =? " ") || (c =? "#") || (c =? BACKSLASH))%char then [BACKSLASH; c]
  else if (c =? "$")%char then ["$"; "$"]%char else [c].
Fixpoint escape (w : chars) : chars :=
  match w with [] => [] | c :: w' => escape_char c ++ escape w' end.

(** Characters a prerequisite may contain; a target may not contain a colon. *)
Definition dep_char (c : ascii) : bool :=
  negb ((c =? NUL) || (c =? TAB) || (c =? CR) || (c =? LF))%char.
Definition target_char (c : ascii) : bool := dep_char c && negb (c =? ":")%char.

(** A rule: its target and prerequisites, and the text for it. *)
Record DepRule := mkDepRule { target : chars; prerequisites : list chars }.

Fixpoint print_deps (l : list chars) : chars :=
  match l with [] => [LF] | d :: l' => " "%char :: escape d ++ print_deps l' end.
Definition print_rule (r : DepRule) : chars := escape (target r) ++ ":"%char :: print_deps (prerequisites r).
Fixpoint print_rules (l : list DepRule) : chars :=
  match l with [] => [] | r :: l' => print_rule r ++ print_rules l' end.

Definition rule_actions (r : DepRule) : list Action :=
  RuleStart (escape (target r)) (target r)
    :: map (fun d => RuleDependency (escape d) d) (prerequisites r) ++ [RuleEnd].

Definition printable_target (w : chars) : bool :=
  match w with [] => false | _ => forallb target_char w end.
Definition printable_dep (w : chars) : bool :=
  match w with [] => false | c :: _ => negb (c =? ":")%char && forallb dep_char w end.
Definition printable (r : DepRule) : bool :=
  printable_target (target r) && forallb printable_dep (prerequisites r).

(** What may follow a word. *)
Definition stops (rest : chars) : bool :=
  match rest with
  | [] => true
  | c :: _ => negb (isWordChar c) && negb (c =? "$")%char && negb (c =? BACKSLASH)%char
  end.

Lemma lexWord_stops rest word : stops rest = true -> lexWord rest word = Ok (rest, word).
Proof.
  destruct rest as [|c rest]; [done|]. unfold stops. rewrite !andb_true_iff, !negb_true_iff.
  intros [[H1 H2] H3]. cbn [lexWord]. by rewrite H3, H2, H1.
Qed.

Lemma target_char_word c : target_char c = true -> c <> " "%char -> c <> "$"%char -> isWordChar c = true.
Proof.
  unfold target_char, dep_char, isWordChar. rewrite andb_true_iff, !negb_true_iff, !orb_false_iff.
  intros ((((H1 & H2) & H3) & H4) & H5) H6 H7. rewrite H1, H2, H3, H4, H5.
  by rewrite (ascii_eqb_neq _ _ H6), (ascii_eqb_neq _ _ H7).
Qed.

Lemma lexWord_escape w : forall word rest, forallb target_char w = true -> stops rest = true ->
  lexWord (escape w ++ rest) word = Ok (rest, word ++ w).
Proof.
  induction w as [|c w IH]; intros word rest Hw Hr; cbn [escape app].
  { rewrite app_nil_r. by apply lexWord_stops. }
  cbn in Hw. apply andb_true_iff in Hw as [Hc Hw].
  assert (Hnext : forall x, lexWord (escape w ++ rest) (word ++ [x]) = Ok (rest, word ++ x :: w)).
  { intros x. rewrite IH by done. by rewrite <- app_assoc. }
  unfold escape_char. destruct (_ || _) eqn:Hsp.
  { assert (Hl : (c =? LF)%char = false).
    { destruct (Ascii.eqb_spec c LF) as [->|]; [by vm_compute in Hsp|done]. }
    cbn. rewrite Hl. unfold unescape. rewrite Hsp. apply Hnext. }
  apply orb_false_iff in Hsp as [Hsp Hbs]. apply orb_false_iff in Hsp as [Hsp _].
  destruct (Ascii.eqb_spec c "$") as [->|Hd]; [cbn; apply Hnext|].
  cbn [app lexWord]. rewrite Hbs, (ascii_eqb_neq _ _ Hd).
  rewrite target_char_word; [apply Hnext|done| |done]. intros ->. by vm_compute in Hsp.
Qed.

(** A prerequisite is a run of colon-free pieces. *)
Lemma split_colon w : forallb dep_char w = true ->
  forallb target_char w = true
  \/ exists s r, w = s ++ ":"%char :: r /\ forallb target_char s = true /\ forallb dep_char r = true.
Proof.
  induction w as [|c w IH]; cbn; [by left|]. intros [Hc Hw]%andb_true_iff.
  destruct (Ascii.eqb_spec c ":") as [->|Hn]; [right; by exists [], w|].
  assert (Ht : target_char c = true) by (unfold target_char; by rewrite Hc, (ascii_eqb_neq _ _ Hn)).
  rewrite Ht. destruct (IH Hw) as [?|(s & r & -> & Hs & Hr)]; [by left|]. right.
  exists (c :: s), r. cbn. by rewrite Ht.
Qed.

Lemma escape_app w1 w2 : escape (w1 ++ w2) = escape w1 ++ escape w2.
Proof. induction w1 as [|c w1 IH]; cbn; [done|]. by rewrite IH, app_assoc. Qed.

(** Lexing a whole prerequisite, colons included. *)
Lemma lexDep_escape n : forall w word rest fuel, (length w <= n)%nat -> (n < fuel)%nat ->
  forallb dep_char w = true -> stops rest = true -> match rest with c :: _ => (c =? ":")%char = false | [] => True end ->
  exists cur1 word1, lexWord (escape w ++ rest) word = Ok (cur1, word1) /\
    lexColons fuel cur1 word1 = Ok (rest, word ++ w).
Proof.
  induction n as [|n IH]; intros w word rest fuel Hn Hf Hw Hr Hcol; (destruct fuel as [|fuel]; [lia|]).
  all: destruct (split_colon w Hw) as [Ht|(s & r & -> & Hs & Hrr)].
  1, 3: rewrite lexWord_escape by done; eexists _, _; split; [done|]; cbn [lexColons];
    destruct rest as [|c rest]; [done|by rewrite Hcol].
  { rewrite length_app in Hn. cbn in Hn. lia. }
  rewrite escape_app, <- app_assoc. change (escape (":"%char :: r)) with (":"%char :: escape r).
  cbn [app]. rewrite lexWord_escape by done. eexists _, _. split; [done|].
  rewrite length_app in Hn. cbn in Hn.
  destruct (IH r ((word ++ s) ++ [":"%char]) rest fuel) as (cur1 & word1 & E1 & E2); [lia|lia|done..|].
  cbn [lexColons Ascii.eqb]. change ((":" =? ":")%char) with true. cbn match. rewrite E1. cbn [obind fst snd].
  rewrite E2. by rewrite <- !app_assoc.
Qed.

Lemma escape_head w : w <> [] -> forallb dep_char w = true ->
  exists c l, escape w = c :: l /\ (c =? " ")%char = false /\ (c =? TAB)%char = false
    /\ (c =? CR)%char = false /\ (c =? LF)%char = false /\ (c =? "#")%char = false
    /\ ((c =? BACKSLASH)%char = true -> exists d l', l = d :: l' /\ (d =? LF)%char = false /\ (d =? CR)%char = false).
Proof.
  destruct w as [|c w]; [done|]. intros _. cbn [forallb escape]. intros [Hc _]%andb_true_iff.
  unfold dep_char in Hc. rewrite negb_true_iff, !orb_false_iff in Hc. destruct Hc as [[[_ H2] H3] H4].
  unfold escape_char. destruct (_ || _) eqn:Hsp; cbn [app].
  { eexists _, _. split; [done|]. do 5 (split; [done|]). intros _. eexists _, _. split; [done|].
    split; done. }
  apply orb_false_iff in Hsp as [Hsp Hbs]. apply orb_false_iff in Hsp as [Hsp Hh].
  destruct (c =? "$")%char; cbn [app]; eexists _, _; (split; [done|]); do 5 (split; [done|]); by try (intros Hx; rewrite Hbs in Hx).
Qed.

Lemma skipNonNewline_escape w rest : w <> [] -> forallb dep_char w = true ->
  skipNonNewlineWhitespace (escape w ++ rest) = escape w ++ rest.
Proof.
  intros Hw Hd. destruct (escape_head w Hw Hd) as (c & l & -> & H1 & H2 & H3 & H4 & _ & Hb).
  cbn [app skipNonNewlineWhitespace]. rewrite H1, H2, H3. cbn [orb].
  destruct (c =? BACKSLASH)%char; [|done]. destruct (Hb eq_refl) as (d & l' & -> & Hd1 & Hd2).
  cbn [app]. rewrite Hd1, Hd2. cbn [andb]. by destruct (l' ++ rest).
Qed.

Lemma skipWhitespace_escape w rest : w <> [] -> forallb dep_char w = true ->
  skipWhitespaceAndComments false (escape w ++ rest) = escape w ++ rest.
Proof.
  intros Hw Hd. destruct (escape_head w Hw Hd) as (c & l & -> & H1 & H2 & H3 & H4 & H5 & _).
  cbn [app skipWhitespaceAndComments andb]. by rewrite H1, H2, H3, H4, H5.
Qed.

Lemma escape_length w : (length w <= length (escape w))%nat.
Proof.
  induction w as [|c w IH]; cbn; [lia|]. rewrite length_app. unfold escape_char.
  destruct (_ || _); [cbn; lia|]. destruct (_ =? _)%char; cbn; lia.
Qed.

Lemma print_deps_stops l : exists c r, print_deps l = c :: r /\ stops (c :: r) = true /\ (c =? ":")%char = false.
Proof. destruct l; cbn; eauto. Qed.

Lemma same_app w rest : w <> [] -> same rest (w ++ rest) = false.
Proof.
  intros Hw. unfold same. rewrite length_app. apply Nat.eqb_neq.
  destruct w; [done|]. cbn. lia.
Qed.

Lemma target_dep_chars w : forallb target_char w = true -> forallb dep_char w = true.
Proof.
  induction w as [|c w IH]; cbn; [done|]. unfold target_char at 1.
  intros [[-> _]%andb_true_iff Hw]%andb_true_iff. by apply IH.
Qed.

Lemma lexColons_colon fuel cur word :
  lexColons (S fuel) (":"%char :: cur) word
  = obind (lexWord cur (word ++ [":"%char])) (fun p => lexColons fuel p.1 p.2).
Proof. done. Qed.

Lemma escape_nonempty w : w <> [] -> escape w <> [].
Proof. intros Hw E. pose proof (escape_length w) as H. rewrite E in H. destruct w; [done|cbn in H; lia]. Qed.

Lemma parse_deps_print data l : forall fuel r,
  forallb printable_dep l = true -> (length (print_deps l ++ r) < fuel)%nat ->
  parseDependencies fuel data (print_deps l ++ r)
  = Ok (map (fun d => RuleDependency (escape d) d) l, LF :: r).
Proof.
  induction l as [|d l IH]; intros fuel r Hl Hf; (destruct fuel as [|fuel]; [lia|]); [done|].
  cbn in Hl. apply andb_true_iff in Hl as [Hd Hl].
  assert (Hne : d <> []) by by intros ->.
  assert (Hc : forallb dep_char d = true) by (destruct d; [done|]; by apply andb_true_iff in Hd as [_ ?]).
  cbn [print_deps app]. cbn [parseDependencies]. cbn [skipNonNewlineWhitespace].
  change ((" " =? " ")%char) with true. cbn [orb]. rewrite <- app_assoc.
  rewrite skipNonNewline_escape by done.
  destruct (print_deps_stops l) as (c & l' & Hp & Hst & Hcol).
  assert (Hst' : stops (print_deps l ++ r) = true) by (rewrite Hp; exact Hst).
  assert (Hcol' : match print_deps l ++ r with c :: _ => (c =? ":")%char = false | [] => True end)
    by (rewrite Hp; exact Hcol).
  destruct (lexDep_escape (length d) d [] (print_deps l ++ r) (S (length d))) as (cur1 & w1 & E1 & _);
    [lia|lia|done..|].
  assert (Hshort : same cur1 (escape d ++ print_deps l ++ r) = false /\
     exists cur2 w2, lexColons (S (length cur1)) cur1 w1 = Ok (cur2, w2) /\ cur2 = print_deps l ++ r /\ w2 = d).
  { destruct (split_colon d Hc) as [Ht|(s & rr & -> & Hs & Hrr)].
    - rewrite lexWord_escape in E1 by done. injection E1 as <- <-. split.
      + by apply same_app, escape_nonempty.
      + eexists _, _. split; [|done]. cbn [lexColons]. rewrite Hp. cbn [app]. by rewrite Hcol.
    - rewrite escape_app, <- app_assoc in E1. rewrite lexWord_escape in E1 by done. injection E1 as <- <-.
      assert (Hs0 : s <> []) by (destruct s; [|done]; by apply andb_true_iff in Hd as [? _]).
      split.
      + rewrite escape_app, <- app_assoc. by apply same_app, escape_nonempty.
      + change (escape (":"%char :: rr)) with (":"%char :: escape rr). cbn [app length].
        destruct (lexDep_escape (length rr) rr (s ++ [":"%char]) (print_deps l ++ r)
          (S (length (escape rr ++ print_deps l ++ r)))) as (cur3 & w3 & E3 & E4).
        * lia.
        * rewrite length_app. pose proof (escape_length rr). lia.
        * done.
        * done.
        * done.
        * eexists _, _. split; [|done]. rewrite lexColons_colon.
          cbn [app] in *. rewrite E3. cbn [obind fst snd]. rewrite E4. by rewrite <- app_assoc. }
  destruct Hshort as (Hsame & cur2 & w2 & E2 & -> & ->).
  destruct (escape_head d Hne Hc) as (ch & t & He & _ & _ & _ & Hlf & _).
  rewrite He in *. cbn [app] in *. rewrite Hlf, E1. cbn [obind]. rewrite Hsame, E2. cbn [obind].
  rewrite IH; [|done|].
  - cbn [obind fst snd]. change (ch :: t ++ print_deps l ++ r) with ((ch :: t) ++ print_deps l ++ r).
    rewrite span_app. cbn [map]. by rewrite He.
  - cbn [print_deps app length] in Hf. rewrite !length_app in Hf. rewrite length_app. lia.
Qed.

(** The rules that are read: the first one only, if subsequent outputs are ignored. *)
Definition rules_read (ignoreSubsequentOutputs : bool) (l : list DepRule) : list DepRule :=
  if ignoreSubsequentOutputs then take 1 l else l.

Lemma parse_rules_print b data l : forall fuel pre,
  forallb printable l = true -> pre = [] \/ pre = [LF] ->
  (length (pre ++ print_rules l) < fuel)%nat ->
  parseRules fuel b data (pre ++ print_rules l) = Ok (concat (map rule_actions (rules_read b l))).
Proof.
  induction l as [|rl l IH]; intros fuel pre Hl Hpre Hf; (destruct fuel as [|fuel]; [lia|]).
  { by destruct Hpre as [-> | ->], b. }
  cbn in Hl. apply andb_true_iff in Hl as [Hr Hl]. unfold printable in Hr.
  apply andb_true_iff in Hr as [Ht Hd].
  assert (Hne : target rl <> []) by (intros E; by rewrite E in Ht).
  assert (Htc : forallb target_char (target rl) = true) by by destruct (target rl).
  assert (Hdc : forallb dep_char (target rl) = true).
  { by apply target_dep_chars. }
  assert (Hskip : skipWhitespaceAndComments false (pre ++ print_rules (rl :: l))
     = escape (target rl) ++ ":"%char :: print_deps (prerequisites rl) ++ print_rules l).
  { cbn [print_rules]. unfold print_rule. rewrite <- !app_assoc. cbn [app].
    destruct Hpre as [-> | ->]; [by apply skipWhitespace_escape|].
    cbn [app skipWhitespaceAndComments andb]. by apply skipWhitespace_escape. }
  assert (Hnil : exists c0 r0, pre ++ print_rules (rl :: l) = c0 :: r0).
  { destruct (pre ++ print_rules (rl :: l)) eqn:E; [|eauto]. cbn in Hskip.
    by destruct (escape (target rl)). }
  destruct Hnil as (c0 & r0 & Hcons). cbn [parseRules]. rewrite Hcons in *. rewrite Hskip.
  rewrite lexWord_escape by done. cbn [obind].
  destruct (escape_head _ Hne Hdc) as (ch & t & He & _).
  rewrite same_app by (by rewrite He). rewrite span_app.
  assert (Hcolon : skipNonNewlineWhitespace
      (":"%char :: print_deps (prerequisites rl) ++ print_rules l)
      = ":"%char :: print_deps (prerequisites rl) ++ print_rules l) by done.
  rewrite Hcolon, He. cbn [app]. change ((":" =? ":")%char) with true. cbn match.
  rewrite parse_deps_print; [|done|lia]. cbn [obind fst snd].
  destruct b.
  { cbn [rules_read take map concat]. rewrite app_nil_r. unfold rule_actions. by rewrite He. }
  change (LF :: print_rules l) with ([LF] ++ print_rules l). rewrite IH; [|done|by right|].
  - cbn [rules_read obind map concat]. unfold rule_actions. cbn [app]. by rewrite He, <- app_assoc.
  - rewrite <- Hcons in Hf. cbn [print_rules] in Hf. unfold print_rule in Hf.
    rewrite !length_app in Hf. cbn [length] in Hf.
    destruct (print_deps_stops (prerequisites rl)) as (c & r & Hp & _). rewrite Hp in Hf.
    cbn [length] in Hf. cbn [app length]. lia.
Qed.

Lemma parse_printed b l :
  forallb printable l = true -> parse b (print_rules l) = Ok (concat (map rule_actions (rules_read b l))).
Proof.
  intros Hl. unfold parse. apply (parse_rules_print b (print_rules l) l _ []); [done|by left|]. cbn. lia.
Qed.

(** ** Properties *)

(** C29: parsing any buffer that does not end in a backslash terminates without
    reading outside the buffer, with or without [ignoreSubsequentOutputs]. *)
Theorem parse_in_bounds b data :
  list.last data <> Some BACKSLASH -> exists actions, parse b data = Ok actions.
Proof. intros Ht. by apply parseRules_total; [lia|]. Qed.

Lemma parse_in_bounds_witness : exists actions, parse false (chars_of "a: b\ c") = Ok actions.
Proof. apply (parse_in_bounds false (chars_of "a: b\ c")). vm_compute. discriminate. Defined.

(** C28: parsing a printed list of rules gives back exactly its rules, in order,
    with every target and prerequisite unescaped: words may contain spaces, number
    signs, dollar signs and backslashes, and prerequisites also colons.  With
    [ignoreSubsequentOutputs] it gives back the first rule. *)
Theorem parse_print_roundtrip b l :
  forallb printable l = true -> parse b (print_rules l) = Ok (concat (map rule_actions (rules_read b l))).
Proof. apply parse_printed. Qed.

Lemma parse_print_roundtrip_witness :
  let l := [mkDepRule (chars_of "out put.o") [chars_of "a#b:c"; chars_of "$x\y"];
            mkDepRule (chars_of "z") []] in
  forallb printable l = true /\ parse false (print_rules l) = Ok (concat (map rule_actions l)).
Proof. intros l. assert (H : forallb printable l = true) by (vm_compute; reflexivity).
  split; [exact H|]. apply (parse_print_roundtrip false l H).
Defined.

(** A backslash at the end of the buffer makes the lexer read past it. *)
Theorem trailing_backslash_read :
  parse false (chars_of "a: b\") = Crash (OutOfBounds "lexWord").
Proof. reflexivity. Qed.

(** After an unexpected character in a list of prerequisites, the rule of the
    next line is taken for more prerequisites. *)
Theorem error_swallows_next_rule :
  parse false (chars_of "a: $" ++ LF :: chars_of "c: d")
  = Ok [RuleStart (chars_of "a") (chars_of "a");
        ParseError "unexpected character in prerequisites" 3;
        RuleDependency (chars_of "c:") (chars_of "c:");
        RuleDependency (chars_of "d") (chars_of "d"); RuleEnd].
Proof. reflexivity. Qed.
