(* ===== verification/DependencyInfo.v ===== *)
(** * The dependency-info parser (DependencyInfoParser.cpp)

    The binary format of ld64: a sequence of records, each an opcode byte and a
    NUL-terminated operand, the version record first.  The calls on the
    [ParseActions] delegate are the result of [parse], in order. *)

From Stdlib Require Import Ascii Lia.
From stdpp Require Import base sets list strings numbers.
From S2P Require Import Prelude Chars.

(** [enum class Opcode]. *)
Definition OpVersion : ascii := "000"%char.
Definition OpInput : ascii := "016"%char.
Definition OpMissing : ascii := "017"%char.
Definition OpOutput : ascii := "064"%char.

Inductive Action :=
| ActVersion (v : chars)
| ActInput (path : chars)
| ActMissing (path : chars)
| ActOutput (path : chars)
| ActError (message : string) (position : nat).

(** The scan for the operand's terminator: the operand and what follows it.  The
    code reads [*cur] before it compares [cur] with [end]. *)
Fixpoint scanOperand (first : bool) (cur : chars) : outcome (chars * chars) :=
  match cur with
  | [] => Crash (if first then OutOfBounds "DependencyInfoParser" else AssertFailed "cur < end")
  | c :: cur' =>
      if (c =? NUL)%char then Ok ([], cur')
      else obind (scanOperand false cur') (fun p => Ok (c :: p.1, p.2))
  end.

(** What a record reports; [start] is the opcode's offset. *)
Definition record_action (start : nat) (opcode : ascii) (operand : chars) : Action :=
  if (opcode =? OpVersion)%char then
    (if (start =? 0)%nat then ActVersion operand else ActError "invalid duplicate version" start)
  else if (opcode =? OpInput)%char then ActInput operand
  else if (opcode =? OpMissing)%char then ActMissing operand
  else if (opcode =? OpOutput)%char then ActOutput operand
  else ActError "unknown opcode in file" start.

Fixpoint parseRecords (fuel : nat) (data cur : chars) : outcome (list Action) :=
  match fuel with
  | O => Crash OutOfFuel
  | S fuel' =>
      match cur with
      | [] => Ok []
      | opcode :: cur1 =>
          let start := (length data - length cur)%nat in
          obind (scanOperand true cur1) (fun p =>
          let (operand, cur2) := p in
          match operand with
          | [] => Ok [ActError "empty operand" start]
          | _ => obind (parseRecords fuel' data cur2) (fun l =>
                 Ok (record_action start opcode operand :: l))
          end)
      end
  end.

(** [data.endswith(StringRef("\0", 1))]. *)
Definition endsWithNull (data : chars) : bool := bool_decide (list.last data = Some NUL).

Definition parse (data : chars) : outcome (list Action) :=
  if negb (endsWithNull data) then Ok [ActError "missing null terminator" (length data)]
  else
    match data with
    | [] => Crash (OutOfBounds "data[0]")
    | c :: _ =>
        if negb (c =? OpVersion)%char then Ok [ActError "missing version record" 0]
        else parseRecords (S (length data)) data data
    end.

(** ** The operand scan *)

Lemma scanOperand_spec w rest : forall first, NUL ∉ w ->
  scanOperand first (w ++ NUL :: rest) = Ok (w, rest).
Proof.
  induction w as [|c w IH]; intros first Hw; cbn; [done|].
  rewrite ascii_eqb_neq by set_solver. rewrite IH by set_solver. done.
Qed.

Lemma last_null_split l : list.last l = Some NUL -> exists w rest, l = w ++ NUL :: rest /\ (NUL ∉ w)
  /\ (rest = [] \/ list.last rest = Some NUL).
Proof.
  induction l as [|c l IH]; [done|]. intros Hl.
  destruct (decide (c = NUL)) as [->|Hc].
  - exists [], l. split; [done|]. split; [set_solver|]. destruct l; [by left|by right].
  - destruct l as [|d l]; [cbn in Hl; congruence|]. destruct IH as (w & rest & E & Hw & Hr); [done|].
    exists (c :: w), rest. rewrite E. split; [done|]. split; [set_solver|done].
Qed.

(** ** Well-formed files *)

Record Entry := mkEntry { opcode : ascii; operand : chars }.

Definition encode (l : list Entry) : chars := concat (map (fun e => opcode e :: operand e ++ [NUL]) l).

Definition entry_ok (e : Entry) : Prop := operand e <> [] /\ NUL ∉ operand e.

Definition known (c : ascii) : Prop := c = OpInput \/ c = OpMissing \/ c = OpOutput.

Definition entry_action (e : Entry) : Action :=
  if (opcode e =? OpVersion)%char then ActVersion (operand e)
  else if (opcode e =? OpInput)%char then ActInput (operand e)
  else if (opcode e =? OpMissing)%char then ActMissing (operand e)
  else ActOutput (operand e).

Lemma encode_cons e l : encode (e :: l) = opcode e :: operand e ++ NUL :: encode l.
Proof. unfold encode. cbn. by rewrite <- app_assoc. Qed.

Lemma record_action_known start e : known (opcode e) ->
  record_action start (opcode e) (operand e) = entry_action e.
Proof. unfold record_action, entry_action. by intros [-> | [-> | ->]]. Qed.

Lemma parseRecords_encode data l : forall fuel,
  Forall (fun e => entry_ok e /\ known (opcode e)) l -> (length l < fuel)%nat ->
  parseRecords fuel data (encode l) = Ok (map entry_action l).
Proof.
  induction l as [|e l IH]; intros fuel Hl Hf; (destruct fuel as [|fuel]; [lia|]); [done|].
  inversion_clear Hl as [|? ? [[Hne Hnul] Hk] Hl']. rewrite encode_cons. cbn [parseRecords].
  rewrite scanOperand_spec by done. cbn [obind]. cbn in Hf. rewrite IH by (done || lia).
  destruct (operand e) as [|c o] eqn:Ho; [done|]. cbn [obind map]. do 2 f_equal.
  rewrite <- Ho. by apply record_action_known.
Qed.

Lemma encode_last e l : Forall entry_ok l -> list.last (encode (e :: l)) = Some NUL.
Proof.
  revert e. induction l as [|e' l IH]; intros e Hl; rewrite encode_cons.
  - change (opcode e :: operand e ++ NUL :: encode []) with ((opcode e :: operand e) ++ [NUL]). apply last_snoc.
  - inversion_clear Hl. change (opcode e :: operand e ++ NUL :: encode (e' :: l))
      with ((opcode e :: operand e) ++ NUL :: encode (e' :: l)).
    rewrite last_app. specialize (IH e' ltac:(done)). rewrite encode_cons in *.
    cbn [list.last]. by rewrite IH.
Qed.

Lemma encode_length l : (length l <= length (encode l))%nat.
Proof.
  induction l as [|e l IH]; cbn; [lia|]. change (concat (map _ l)) with (encode l).
  rewrite length_app. lia.
Qed.

Lemma parse_encoded v l :
  v <> [] -> NUL ∉ v -> Forall (fun e => entry_ok e /\ known (opcode e)) l ->
  parse (encode (mkEntry OpVersion v :: l)) = Ok (ActVersion v :: map entry_action l).
Proof.
  intros Hv Hn Hl. unfold parse, endsWithNull. rewrite bool_decide_eq_true_2.
  2: { apply encode_last. eapply Forall_impl; [|exact Hl]. by intros e [? _]. }
  cbn [negb]. rewrite encode_cons. cbn [opcode operand]. change ((OpVersion =? OpVersion)%char) with true.
  cbn [negb]. cbn [parseRecords]. rewrite scanOperand_spec by done. cbn [obind].
  rewrite (parseRecords_encode _ l); [|done|].
  - destruct v as [|c v]; [done|]. cbn [obind]. do 2 f_equal. unfold record_action.
    change ((OpVersion =? OpVersion)%char) with true. cbn match. by rewrite Nat.sub_diag.
  - cbn [length]. rewrite length_app. pose proof (encode_length l). cbn. lia.
Qed.

(** ** Properties *)

(** a file that starts with its version record, followed by input, missing and
    output records with non-empty operands, is reported record by record, in order. *)
Theorem parse_encode_roundtrip v l :
  v <> [] -> NUL ∉ v -> Forall (fun e => entry_ok e /\ known (opcode e)) l ->
  parse (encode (mkEntry OpVersion v :: l)) = Ok (ActVersion v :: map entry_action l).
Proof. apply parse_encoded. Qed.

Lemma parse_encode_roundtrip_witness :
  parse (encode [mkEntry OpVersion (chars_of "ld"); mkEntry OpInput (chars_of "/a b"); mkEntry OpOutput (chars_of "o")])
  = Ok [ActVersion (chars_of "ld"); ActInput (chars_of "/a b"); ActOutput (chars_of "o")].
Proof.
  apply (parse_encode_roundtrip (chars_of "ld")
    [mkEntry OpInput (chars_of "/a b"); mkEntry OpOutput (chars_of "o")]).
  - discriminate.
  - vm_compute. set_solver.
  - assert (Hall : forall e, In e [mkEntry OpInput (chars_of "/a b"); mkEntry OpOutput (chars_of "o")] ->
      entry_ok e /\ known (opcode e)).
    { unfold known. intros e [<-|[<-|[]]]; (split; [split; [discriminate|vm_compute; set_solver]|auto]). }
    apply Forall_forall. exact Hall.
Defined.

Lemma parseRecords_asserts data fuel : forall cur, (length cur < fuel)%nat ->
  cur = [] \/ list.last cur = Some NUL ->
  (exists l, parseRecords fuel data cur = Ok l)
  \/ parseRecords fuel data cur = Crash (OutOfBounds "DependencyInfoParser").
Proof.
  induction fuel as [|fuel IH]; intros cur Hf Hl; [lia|]. cbn [parseRecords].
  destruct cur as [|o cur]; [left; eauto|]. destruct Hl as [|Hl]; [done|].
  destruct cur as [|c cur]; [by right|].
  destruct (last_null_split (c :: cur)) as (w & rest & E & Hw & Hr); [done|]. rewrite E in *.
  rewrite scanOperand_spec by done. cbn [obind]. destruct w as [|c' w]; [left; eauto|].
  cbn [length] in Hf. rewrite length_app in Hf. cbn in Hf.
  destruct (IH rest) as [(l & ->)| ->]; [lia|done|left; cbn; eauto|by right].
Qed.

(** The parser's own assertions never fail and it terminates, on any input: it
    reports actions, or reads past the end after a final opcode (see below). *)
Theorem parse_asserts_hold data :
  (exists l, parse data = Ok l) \/ parse data = Crash (OutOfBounds "DependencyInfoParser").
Proof.
  unfold parse, endsWithNull. destruct (decide (list.last data = Some NUL)) as [Hl|Hl].
  - rewrite bool_decide_eq_true_2 by done. cbn [negb]. destruct data as [|c data]; [done|].
    destruct (negb _); [left; eauto|]. apply parseRecords_asserts; [lia|by right].
  - rewrite bool_decide_eq_false_2 by done. left. eauto.
Qed.

(** A NUL opcode as the last byte passes the terminator check, and the scan for its
    operand reads past the end of the buffer. *)
Theorem trailing_opcode_read :
  parse (encode [mkEntry OpVersion (chars_of "ld")] ++ [OpVersion])
  = Crash (OutOfBounds "DependencyInfoParser").
Proof. reflexivity. Qed.
