(* ===== verification/NinjaLexer.v ===== *)
(** * The Ninja lexer (lib/Ninja/Lexer.cpp)

    The lexer's position is the rest of its buffer.  [peekNextChar] returns [-1]
    at the end of the buffer and the (signed) character otherwise, so the byte
    0xFF is read as [-1] too; both are [None] here.  Loops take as fuel the length
    of what is left, of which every iteration consumes a part. *)

From Stdlib Require Import ZArith Ascii Lia.
From stdpp Require Import base list strings numbers.
From S2P Require Import Prelude Chars.

(** [Token::Kind]. *)
Inductive Kind :=
| Colon | Comment | EndOfFile | Equals | Indentation | Identifier
| KWBuild | KWDefault | KWInclude | KWPool | KWRule | KWSubninja
| Newline | Pipe | PipePipe | String_ | Unknown.

#[global] Instance Kind_eq_dec : EqDecision Kind.
Proof. solve_decision. Defined.

(** [struct Token]; [start] and [length] give the token's text. *)
Record Token := mkToken { tokenKind : Kind; text : chars; line : Z; column : Z }.

(** [LexingMode]. *)
Inductive LexingMode := ModeNone | IdentifierSpecific | PathString | VariableString.

#[global] Instance LexingMode_eq_dec : EqDecision LexingMode.
Proof. solve_decision. Defined.

(** The fields of [Lexer]; [bufferPos] is the rest of the buffer. *)
Record Lexer := mkLexer { bufferPos : chars; lineNumber : Z; columnNumber : Z; mode : LexingMode }.

Definition newLexer (buffer : chars) : Lexer := mkLexer buffer 1 0 ModeNone.
Definition setMode (m : LexingMode) (l : Lexer) : Lexer :=
  mkLexer (bufferPos l) (lineNumber l) (columnNumber l) m.

Definition xFF : ascii := "255"%char.

(** [unsigned] increment. *)
Definition incr32 (n : Z) : Z := ((n + 1) mod 2 ^ 32)%Z.

Definition peekNextChar (l : Lexer) : option ascii :=
  match bufferPos l with
  | [] => None
  | c :: _ => if (c =? xFF)%char then None else Some c
  end.

(** The newline character that completes [c] to a DOS or Mac newline. *)
Definition otherNewline (c : ascii) : ascii := if (c =? LF)%char then CR else LF.

Definition isNewline (c : ascii) : bool := ((c =? LF) || (c =? CR))%char.

Definition getNextChar (l : Lexer) : option ascii * Lexer :=
  match bufferPos l with
  | [] => (None, l)
  | c :: r =>
      if isNewline c then
        let r' := match r with
                  | d :: r2 => if (d =? otherNewline c)%char then r2 else r
                  | [] => r
                  end in
        (Some LF, mkLexer r' (incr32 (lineNumber l)) 0 (mode l))
      else
        ((if (c =? xFF)%char then None else Some c),
         mkLexer r (lineNumber l) (incr32 (columnNumber l)) (mode l))
  end.

Definition next (l : Lexer) : Lexer := (getNextChar l).2.

Definition is_char (c : option ascii) (d : ascii) : bool :=
  match c with Some c => (c =? d)%char | None => false end.

(** C's [isspace] in the "C" locale. *)
Definition isspace (c : option ascii) : bool :=
  match c with
  | Some c => ((c =? " ") || (c =? TAB) || (c =? LF) || (c =? "011") || (c =? "012") || (c =? CR))%char
  | None => false
  end.
Definition isNonNewlineSpace (c : option ascii) : bool :=
  isspace c && negb (is_char c LF) && negb (is_char c CR).

Definition in_range (lo hi c : ascii) : bool := Ascii.leb lo c && Ascii.leb c hi.
Definition isSimpleIdentifierChar (c : ascii) : bool :=
  in_range "a" "z" c || in_range "A" "Z" c || in_range "0" "9" c || (c =? "_")%char || (c =? "-")%char.
Definition isIdentifierChar (c : ascii) : bool := isSimpleIdentifierChar c || (c =? ".")%char.
(** On [peekNextChar()]: [-1] is no identifier character. *)
Definition isIdentifierPeek (c : option ascii) : bool :=
  match c with Some c => isIdentifierChar c | None => false end.

(** [while (p(peekNextChar())) getNextChar();] *)
Fixpoint skipWhile (fuel : nat) (p : option ascii -> bool) (l : Lexer) : Lexer :=
  match fuel with
  | O => l
  | S fuel' => if p (peekNextChar l) then skipWhile fuel' p (next l) else l
  end.
Definition skipAll (p : option ascii -> bool) (l : Lexer) : Lexer :=
  skipWhile (length (bufferPos l)) p l.

(** A token from [start] to the current position. *)
Definition setTokenKind (start : Lexer) (k : Kind) (l : Lexer) : Token * Lexer :=
  (mkToken k (span (bufferPos start) (bufferPos l)) (lineNumber start) (columnNumber start), l).

Definition skipToEndOfLine (l : Lexer) : Lexer :=
  skipAll (fun c => match c with Some c => negb (isNewline c) | None => false end) l.

(** [memcmp(word, start, n) == 0]. *)
Definition memcmp (word : string) (n : nat) (s : chars) : bool :=
  bool_decide (take n (chars_of word) = take n s).

(** The kind of an identifier, by its length and spelling. *)
Definition identifierKind (s : chars) : Kind :=
  match length s with
  | 4 => if memcmp "rule" 4 s then KWRule else if memcmp "pool" 4 s then KWPool else Identifier
  | 5 => if memcmp "build" 5 s then KWBuild else Identifier
  | 7 => if memcmp "default" 7 s then KWDefault
         else if memcmp "include" 7 s then KWInclude else Identifier
  | 8 => if memcmp "subninja" 7 s then KWSubninja else Identifier
  | _ => Identifier
  end.

Definition setIdentifierTokenKind (start l : Lexer) : Token * Lexer :=
  setTokenKind start (identifierKind (span (bufferPos start) (bufferPos l))) l.

Definition lexIdentifier (start l : Lexer) : Token * Lexer :=
  let l := skipAll isIdentifierPeek l in
  if bool_decide (mode l = IdentifierSpecific) then setTokenKind start Identifier l
  else setIdentifierTokenKind start l.

Fixpoint pathLoop (fuel : nat) (l : Lexer) : Lexer :=
  match fuel with
  | O => l
  | S fuel' =>
      let c := peekNextChar l in
      if is_char c "$" then
        let (c2, l2) := getNextChar (next l) in
        pathLoop fuel' (if is_char c2 LF then skipAll isNonNewlineSpace l2 else l2)
      else
        match c with
        | None => l
        | Some d =>
            if isspace c || (d =? ":")%char || (d =? "|")%char then l else pathLoop fuel' (next l)
        end
  end.
Definition lexPathString (start l : Lexer) : Token * Lexer :=
  setTokenKind start String_ (pathLoop (length (bufferPos l)) l).

Fixpoint variableLoop (fuel : nat) (l : Lexer) : Lexer :=
  match fuel with
  | O => l
  | S fuel' =>
      let c := peekNextChar l in
      if is_char c "$" then variableLoop fuel' (next (next l))
      else
        match c with
        | None => l
        | Some d => if isNewline d then l else variableLoop fuel' (next l)
        end
  end.
Definition lexVariableString (start l : Lexer) : Token * Lexer :=
  setTokenKind start String_ (variableLoop (length (bufferPos l)) l).

(** Is the ["$"] at the current position followed by a newline?  [bufferPos + 2 !=
    end] does not exclude [bufferPos + 1 == end], where [bufferPos[1]] is read past
    the end. *)
Definition newlineEscape (l : Lexer) : outcome bool :=
  match bufferPos l with
  | _ :: d :: r =>
      Ok ((d =? LF)%char || match r with e :: _ => (d =? CR)%char && (e =? LF)%char | [] => false end)
  | _ => Crash (OutOfBounds "Lexer::lex")
  end.

(** The loop over leading whitespace and newline escapes. *)
Fixpoint leadingLoop (fuel : nat) (l : Lexer) : outcome Lexer :=
  match fuel with
  | O => Ok l
  | S fuel' =>
      let c := peekNextChar l in
      if is_char c "$" && negb (columnNumber l =? 0)%Z then
        obind (newlineEscape l) (fun b =>
        if b : bool then leadingLoop fuel' (next (next l)) else Ok l)
      else if isNonNewlineSpace c then leadingLoop fuel' (next l)
      else Ok l
  end.

(** The token set outside of strings: [c] is the consumed character. *)
Definition lexRegular (start : Lexer) (c : ascii) (l : Lexer) : Token * Lexer :=
  if (c =? ":")%char then setTokenKind start Colon l
  else if (c =? "=")%char then setTokenKind start Equals l
  else if (c =? "#")%char then setTokenKind start Comment (skipToEndOfLine l)
  else if (c =? "|")%char then
    (if is_char (peekNextChar l) "|" then setTokenKind start PipePipe (next l)
     else setTokenKind start Pipe l)
  else if isIdentifierChar c then lexIdentifier start l
  else setTokenKind start Unknown l.

Definition lex (l : Lexer) : outcome (Token * Lexer) :=
  if isNonNewlineSpace (peekNextChar l) && (columnNumber l =? 0)%Z
  then Ok (setTokenKind l Indentation (skipAll isNonNewlineSpace (next l)))
  else
    obind (leadingLoop (length (bufferPos l)) l) (fun l =>
    Ok (match peekNextChar l with
        | None => setTokenKind l EndOfFile l
        | Some c =>
            if isNewline c then setTokenKind l Newline (next l)
            else if bool_decide (mode l = VariableString) then lexVariableString l l
            else if bool_decide (mode l = PathString) && negb (c =? ":")%char && negb (c =? "|")%char
            then lexPathString l l
            else lexRegular l c (next l)
        end)).

(** ** Every operation moves forward inside the buffer *)

(** [l'] is at or after [l], in the same mode. *)
Definition ahead (l l' : Lexer) : Prop := into (bufferPos l) (bufferPos l') /\ mode l' = mode l.

Lemma ahead_refl l : ahead l l.
Proof. split; [apply into_refl|done]. Qed.
Lemma ahead_trans l1 l2 l3 : ahead l1 l2 -> ahead l2 l3 -> ahead l1 l3.
Proof. intros [? ?] [? ?]. split; [by eapply into_trans|congruence]. Qed.
Lemma ahead_length l l' : ahead l l' -> (length (bufferPos l') <= length (bufferPos l))%nat.
Proof. intros [H _]. by apply into_length. Qed.

Lemma next_ahead l : ahead l (next l).
Proof.
  unfold next, getNextChar. destruct (bufferPos l) as [|c r] eqn:E; [apply ahead_refl|].
  destruct (isNewline c); split; cbn; rewrite ?E; try done; [|by exists [c]].
  destruct r as [|d r]; [by exists [c]|]. destruct (d =? _)%char; [by exists [c; d]|by exists [c]].
Qed.

Lemma next_shorter l c : peekNextChar l = Some c -> (length (bufferPos (next l)) < length (bufferPos l))%nat.
Proof.
  unfold peekNextChar, next, getNextChar. destruct (bufferPos l) as [|d r]; [done|]. intros _.
  destruct (isNewline d); cbn; [|lia]. destruct r as [|e r]; [cbn; lia|].
  destruct (e =? _)%char; cbn; lia.
Qed.

Lemma skipWhile_ahead p fuel : forall l, ahead l (skipWhile fuel p l).
Proof.
  induction fuel as [|fuel IH]; intros l; cbn; [apply ahead_refl|].
  destruct (p (peekNextChar l)); [|apply ahead_refl].
  eapply ahead_trans; [apply next_ahead|apply IH].
Qed.
Lemma skipAll_ahead p l : ahead l (skipAll p l).
Proof. apply skipWhile_ahead. Qed.

(** The fuel is enough: the loop condition is false at the end. *)
Lemma skipWhile_stops p fuel : p None = false -> forall l, (length (bufferPos l) <= fuel)%nat ->
  p (peekNextChar (skipWhile fuel p l)) = false.
Proof.
  intros Hp. induction fuel as [|fuel IH]; intros l Hl; cbn.
  - unfold peekNextChar. by destruct (bufferPos l); [|cbn in Hl; lia].
  - destruct (p (peekNextChar l)) eqn:E; [|done]. apply IH.
    destruct (peekNextChar l) as [c|] eqn:Hc; [|congruence]. pose proof (next_shorter l c Hc). lia.
Qed.

Lemma pathLoop_ahead fuel : forall l, ahead l (pathLoop fuel l).
Proof.
  induction fuel as [|fuel IH]; intros l; cbn; [apply ahead_refl|].
  destruct (is_char _ _).
  - assert (E : getNextChar (next l) = ((getNextChar (next l)).1, next (next l)))
      by (unfold next at 3; by destruct (getNextChar (next l))).
    rewrite E. eapply ahead_trans; [apply next_ahead|]. eapply ahead_trans; [apply next_ahead|].
    destruct (is_char _ _); [|apply IH]. eapply ahead_trans; [apply skipAll_ahead|apply IH].
  - destruct (peekNextChar l); [|apply ahead_refl]. destruct (_ || _); [apply ahead_refl|].
    eapply ahead_trans; [apply next_ahead|apply IH].
Qed.

Lemma variableLoop_ahead fuel : forall l, ahead l (variableLoop fuel l).
Proof.
  induction fuel as [|fuel IH]; intros l; cbn; [apply ahead_refl|].
  destruct (is_char _ _).
  - do 2 (eapply ahead_trans; [apply next_ahead|]). apply IH.
  - destruct (peekNextChar l); [|apply ahead_refl]. destruct (isNewline _); [apply ahead_refl|].
    eapply ahead_trans; [apply next_ahead|apply IH].
Qed.

(** The buffer does not end in a dollar sign. *)
Definition closed (l : chars) : Prop := list.last l <> Some "$"%char.

Lemma closed_into l r : into l r -> closed l -> closed r.
Proof. intros [w ->]. unfold closed. rewrite last_app. by destruct (list.last r). Qed.

(** What separates tokens: spaces and escaped newlines. *)
Inductive blank : chars -> Prop :=
| blank_nil : blank []
| blank_space c w : isNonNewlineSpace (Some c) = true -> blank w -> blank (c :: w)
| blank_lf w : blank w -> blank ("$"%char :: LF :: w)
| blank_lfcr w : blank w -> blank ("$"%char :: LF :: CR :: w)
| blank_crlf w : blank w -> blank ("$"%char :: CR :: LF :: w).

Lemma is_char_true l d : is_char (peekNextChar l) d = true -> exists r, bufferPos l = d :: r.
Proof.
  unfold is_char, peekNextChar. destruct (bufferPos l) as [|c r]; [done|].
  destruct (c =? xFF)%char; [done|]. intros H%Ascii.eqb_eq. subst. eauto.
Qed.

Lemma space_peek l : isNonNewlineSpace (peekNextChar l) = true ->
  exists c r, bufferPos l = c :: r /\ isNonNewlineSpace (Some c) = true /\ peekNextChar l = Some c.
Proof.
  intros Hs. unfold peekNextChar in *. destruct (bufferPos l) as [|c r]; [done|].
  destruct (c =? xFF)%char; [done|]. eauto.
Qed.

Lemma space_next l c r : bufferPos l = c :: r -> isNonNewlineSpace (Some c) = true -> bufferPos (next l) = r.
Proof.
  intros E Hs. unfold next, getNextChar. rewrite E.
  unfold isNonNewlineSpace in Hs. rewrite !andb_true_iff, !negb_true_iff in Hs.
  destruct Hs as [[_ H1] H2]. cbn in H1, H2. unfold isNewline. by rewrite H1, H2.
Qed.

Lemma leadingLoop_spec fuel : forall l, closed (bufferPos l) ->
  exists l' w, leadingLoop fuel l = Ok l' /\ mode l' = mode l /\ bufferPos l = w ++ bufferPos l' /\ blank w.
Proof.
  induction fuel as [|fuel IH]; intros l Hc.
  { exists l, []. repeat split. constructor. }
  cbn [leadingLoop]. destruct (is_char (peekNextChar l) "$" && _) eqn:Hd.
  - apply andb_true_iff in Hd as [Hd _]. destruct (is_char_true l "$" Hd) as (r & Hr).
    unfold newlineEscape. rewrite Hr in *. destruct r as [|d r]; [by destruct Hc|]. cbn [obind].
    destruct (_ || _) eqn:Hnl; [|exists l, []; rewrite Hr; repeat split; constructor].
    assert (Hn1 : bufferPos (next l) = d :: r) by (unfold next, getNextChar; by rewrite Hr).
    assert (Hn2 : exists v, "$"%char :: d :: r = v ++ bufferPos (next (next l))
              /\ forall w, blank w -> blank (v ++ w)).
    { unfold next at 1. unfold getNextChar. rewrite Hn1. apply orb_true_iff in Hnl as [Hlf|Hcr].
      - apply Ascii.eqb_eq in Hlf as ->. cbn. destruct r as [|e r].
        + exists ["$"%char; LF]. split; [done|]. intros w. apply blank_lf.
        + destruct (e =? CR)%char eqn:He.
          * apply Ascii.eqb_eq in He as ->. exists ["$"%char; LF; CR]. split; [done|]. intros w. apply blank_lfcr.
          * exists ["$"%char; LF]. split; [done|]. intros w. apply blank_lf.
      - destruct r as [|e r]; [done|]. apply andb_true_iff in Hcr as [Hd1 He1].
        apply Ascii.eqb_eq in Hd1 as ->. apply Ascii.eqb_eq in He1 as ->. cbn.
        exists ["$"%char; CR; LF]. split; [done|]. intros w. apply blank_crlf. }
    destruct Hn2 as (v & Hv & Hbl). destruct (IH (next (next l))) as (l' & w & E & Hm & Hb & Hw).
    { eapply closed_into; [|exact Hc]. by exists v. }
    exists l', (v ++ w). split; [done|]. split; [|split].
    + rewrite Hm. destruct (next_ahead (next l)) as [_ ->]. by destruct (next_ahead l) as [_ ->].
    + rewrite Hv, Hb. by rewrite app_assoc.
    + by apply Hbl.
  - destruct (isNonNewlineSpace (peekNextChar l)) eqn:Hs; [|exists l, []; repeat split; constructor].
    destruct (space_peek l Hs) as (c & r & Hr & Hsc & _). pose proof (space_next l c r Hr Hsc) as Hn.
    destruct (IH (next l)) as (l' & w & E & Hm & Hb & Hw).
    { eapply closed_into; [|exact Hc]. rewrite Hn, Hr. by exists [c]. }
    exists l', (c :: w). split; [done|]. split; [|split].
    + rewrite Hm. by destruct (next_ahead l) as [_ ->].
    + rewrite Hr. cbn. by rewrite <- Hb, Hn.
    + by constructor.
Qed.

(** One token: what it consumes, and that it consumes something. *)
Record lexed (l : Lexer) (t : Token) (l' : Lexer) : Prop := {
  lx_ahead : ahead l l';
  lx_text : exists w, blank w /\ bufferPos l = w ++ text t ++ bufferPos l';
  lx_eof : tokenKind t = EndOfFile -> peekNextChar l' = None;
  lx_progress : tokenKind t <> EndOfFile -> (length (bufferPos l') < length (bufferPos l))%nat }.

Lemma token_lexed l0 l k l' w : mode l = mode l0 -> bufferPos l0 = w ++ bufferPos l -> blank w ->
  ahead l l' -> (length (bufferPos l') < length (bufferPos l))%nat -> k <> EndOfFile ->
  lexed l0 (setTokenKind l k l').1 (setTokenKind l k l').2.
Proof.
  intros Hm Hw Hb Ha Hl Hk. constructor; cbn.
  - eapply ahead_trans; [|exact Ha]. split; [by exists w|done].
  - exists w. split; [done|]. rewrite Hw. f_equal. apply into_span, Ha.
  - done.
  - intros _. rewrite Hw, length_app. lia.
Qed.

Lemma lexRegular_lexed l0 l c w : mode l = mode l0 -> bufferPos l0 = w ++ bufferPos l -> blank w ->
  peekNextChar l = Some c -> lexed l0 (lexRegular l c (next l)).1 (lexRegular l c (next l)).2.
Proof.
  intros Hm Hw Hb Hc. pose proof (next_shorter l c Hc) as Hs. pose proof (next_ahead l) as Hn.
  assert (Htok : forall k l', ahead (next l) l' -> k <> EndOfFile ->
            lexed l0 (setTokenKind l k l').1 (setTokenKind l k l').2).
  { intros k l' Ha Hk. apply (token_lexed l0 l k l' w); [done..| | |done].
    - by eapply ahead_trans.
    - apply ahead_length in Ha. lia. }
  unfold lexRegular, lexIdentifier, setIdentifierTokenKind.
  repeat match goal with |- context [if ?b then _ else _] => destruct b end;
    apply Htok; try done; try apply ahead_refl; try apply skipAll_ahead; try apply next_ahead.
  unfold identifierKind. repeat (case_match; try done).
Qed.

Lemma pathLoop_progress l c : peekNextChar l = Some c -> isspace (Some c) = false ->
  c <> ":"%char -> c <> "|"%char ->
  (length (bufferPos (pathLoop (length (bufferPos l)) l)) < length (bufferPos l))%nat.
Proof.
  intros Hc Hs H1 H2. pose proof (next_shorter l c Hc) as Hn.
  destruct (length (bufferPos l)) as [|n] eqn:El; [lia|]. cbn [pathLoop]. rewrite Hc.
  destruct (is_char _ _).
  - assert (E : getNextChar (next l) = ((getNextChar (next l)).1, next (next l)))
      by (unfold next at 3; by destruct (getNextChar (next l))). rewrite E.
    pose proof (ahead_length _ _ (next_ahead (next l))).
    assert (Hp : forall l2, ahead (next (next l)) l2 -> (length (bufferPos (pathLoop n l2)) < S n)%nat).
    { intros l2 Ha. apply ahead_length in Ha. pose proof (ahead_length _ _ (pathLoop_ahead n l2)). lia. }
    destruct (is_char _ _); apply Hp; [apply skipAll_ahead|apply ahead_refl].
  - rewrite Hs, (ascii_eqb_neq _ _ H1), (ascii_eqb_neq _ _ H2). cbn [orb].
    pose proof (ahead_length _ _ (pathLoop_ahead n (next l))). lia.
Qed.

Lemma variableLoop_progress l c : peekNextChar l = Some c -> isNewline c = false ->
  (length (bufferPos (variableLoop (length (bufferPos l)) l)) < length (bufferPos l))%nat.
Proof.
  intros Hc Hs. pose proof (next_shorter l c Hc) as Hn.
  destruct (length (bufferPos l)) as [|n] eqn:El; [lia|]. cbn [variableLoop]. rewrite Hc.
  pose proof (ahead_length _ _ (next_ahead (next l))).
  destruct (is_char _ _); [pose proof (ahead_length _ _ (variableLoop_ahead n (next (next l)))); lia|].
  rewrite Hs. pose proof (ahead_length _ _ (variableLoop_ahead n (next l))). lia.
Qed.

Lemma leadingLoop_stops fuel : forall l l', (length (bufferPos l) <= fuel)%nat ->
  leadingLoop fuel l = Ok l' -> isNonNewlineSpace (peekNextChar l') = false.
Proof.
  induction fuel as [|fuel IH]; intros l l' Hl; cbn [leadingLoop].
  { intros [= <-]. unfold peekNextChar. by destruct (bufferPos l); [|cbn in Hl; lia]. }
  destruct (is_char (peekNextChar l) "$" && _) eqn:Hd.
  - apply andb_true_iff in Hd as [Hd _]. unfold newlineEscape.
    destruct (is_char_true l "$" Hd) as (r & Hr). rewrite Hr. destruct r as [|d r]; [done|]. cbn [obind].
    destruct (_ || _).
    + apply IH. pose proof (ahead_length _ _ (next_ahead (next l))).
      destruct (peekNextChar l) as [c|] eqn:Hc; [|done]. pose proof (next_shorter l c Hc). lia.
    + intros [= <-]. destruct (peekNextChar l) as [c|]; [|done]. cbn in Hd. apply Ascii.eqb_eq in Hd as ->. done.
  - destruct (isNonNewlineSpace (peekNextChar l)) eqn:Hs; [|by intros [= <-]].
    destruct (space_peek l Hs) as (c & r & Hr & Hsc & Hp). apply IH.
    pose proof (next_shorter l c Hp). lia.
Qed.

Lemma isspace_split c : isNonNewlineSpace (Some c) = false -> isNewline c = false -> isspace (Some c) = false.
Proof.
  unfold isNonNewlineSpace, isNewline. cbn [is_char]. intros H1 [H2 H3]%orb_false_iff.
  rewrite H2, H3 in H1. cbn [negb] in H1. by rewrite !andb_true_r in H1.
Qed.

Lemma lex_spec l : closed (bufferPos l) -> exists t l', lex l = Ok (t, l') /\ lexed l t l'.
Proof.
  intros Hc. unfold lex. destruct (isNonNewlineSpace (peekNextChar l) && _) eqn:Hi.
  - apply andb_true_iff in Hi as [Hi _]. destruct (space_peek l Hi) as (c & r & Hr & Hsc & Hp).
    eexists _, _. split; [done|]. apply (token_lexed l l _ _ []); try done; [constructor| |].
    + eapply ahead_trans; [apply next_ahead|apply skipAll_ahead].
    + pose proof (next_shorter l c Hp). pose proof (ahead_length _ _ (skipAll_ahead isNonNewlineSpace (next l))). lia.
  - clear Hi. destruct (leadingLoop_spec (length (bufferPos l)) l Hc) as (l1 & w & E & Hm & Hb & Hw).
    pose proof (leadingLoop_stops _ _ _ (le_n _) E) as Hns. rewrite E. cbn [obind].
    destruct (peekNextChar l1) as [c|] eqn:Hp.
    2: { eexists _, _. split; [done|]. constructor; cbn.
         - split; [by exists w|done].
         - exists w. split; [done|]. rewrite Hb. f_equal. unfold span. by rewrite Nat.sub_diag.
         - done.
         - done. }
    pose proof (next_shorter l1 c Hp) as Hn.
    destruct (isNewline c) eqn:Hnl.
    { eexists _, _. split; [done|]. apply (token_lexed l l1 _ _ w); try done. apply next_ahead. }
    destruct (bool_decide _).
    { eexists _, _. split; [done|]. apply (token_lexed l l1 _ _ w); try done;
        [apply variableLoop_ahead|by eapply variableLoop_progress]. }
    destruct (_ && _) eqn:Hpath.
    { apply andb_true_iff in Hpath as [Hpath H2]. apply andb_true_iff in Hpath as [_ H1].
      eexists _, _. split; [done|]. apply (token_lexed l l1 _ _ w); try done; [apply pathLoop_ahead|].
      eapply pathLoop_progress; [done|by apply isspace_split|by intros ->|by intros ->]. }
    pose proof (lexRegular_lexed l l1 c w Hm Hb Hw Hp) as Hlx.
    destruct (lexRegular l1 c (next l1)) as [t l']. eauto.
Qed.

Lemma lex_at_end l : peekNextChar l = None -> exists t, lex l = Ok (t, l) /\ tokenKind t = EndOfFile.
Proof.
  intros Hp. unfold lex. rewrite Hp. cbn [isNonNewlineSpace isspace is_char andb].
  assert (E : leadingLoop (length (bufferPos l)) l = Ok l).
  { destruct (length (bufferPos l)); [done|]. cbn [leadingLoop]. by rewrite Hp. }
  rewrite E. cbn [obind]. rewrite Hp. eexists. split; done.
Qed.

(** ** Properties *)

(** C30: on a buffer that does not end in a dollar sign, lexing a token in any mode
    stays inside the buffer; the buffer is exactly blanks (spaces and escaped
    newlines), the token's text and what is left; every token but the end of file
    is non-empty progress, and the end of file leaves nothing to read. *)
Theorem lex_tiles_buffer l :
  closed (bufferPos l) ->
  exists t l' w, lex l = Ok (t, l') /\ blank w /\ bufferPos l = w ++ text t ++ bufferPos l'
    /\ mode l' = mode l
    /\ (if bool_decide (tokenKind t = EndOfFile) then peekNextChar l' = None
        else (length (bufferPos l') < length (bufferPos l))%nat).
Proof.
  intros Hc. destruct (lex_spec l Hc) as (t & l' & E & [[_ Hm] (w & Hw & Hb) He Hp]).
  exists t, l', w. do 4 (split; [done|]). case_bool_decide; auto.
Qed.

Lemma lex_tiles_buffer_witness :
  exists t l' w, lex (newLexer (chars_of "build a: b")) = Ok (t, l') /\ blank w
    /\ chars_of "build a: b" = w ++ text t ++ bufferPos l'.
Proof.
  destruct (lex_tiles_buffer (newLexer (chars_of "build a: b"))) as (t & l' & w & E & Hw & Hb & _).
  - vm_compute. discriminate.
  - exists t, l', w. split; [exact E|]. split; [exact Hw|exact Hb].
Defined.

(** The keyword test compares seven of the eight characters of "subninja". *)
Theorem subninja_prefix_keyword :
  identifierKind (chars_of "subninjX") = KWSubninja.
Proof. reflexivity. Qed.

(** A dollar sign at the end of the buffer makes [lex] read past it. *)
Theorem trailing_dollar_read :
  lex (mkLexer (chars_of "$") 1 5 PathString) = Crash (OutOfBounds "Lexer::lex").
Proof. reflexivity. Qed.

(** The byte 0xFF ends the file: what follows it is never lexed. *)
Theorem byte_FF_is_end_of_file :
  exists t, lex (newLexer (xFF :: chars_of "build a: b")) = Ok (t, newLexer (xFF :: chars_of "build a: b"))
    /\ tokenKind t = EndOfFile.
Proof. apply lex_at_end. reflexivity. Qed.
