(* ===== verification/NinjaParser.v ===== *)
(** * The Ninja parser (lib/Ninja/Parser.cpp)

    [ParserImpl] as actions on its lexer and current token.  The calls on the
    [ParseActions] delegate are recorded, last first, in [events]; the opaque
    declaration results the parser hands back to its delegate are implied by the
    nesting of the events. *)

From Stdlib Require Import ZArith Ascii Lia.
From stdpp Require Import base list strings numbers.
From S2P Require Import Prelude Chars NinjaLexer.

Inductive Event :=
| BeginManifest (name : string)
| EndManifest
| BindingDecl (name value : Token)
| DefaultDecl (names : list Token)
| IncludeDecl (isInclude : bool) (path : Token)
| BeginBuildDecl (name : Token) (outputs inputs : list Token)
    (numExplicitInputs numImplicitInputs numExplicitOutputs : nat)
| BuildBindingDecl (name value : Token)
| EndBuildDecl (start : Token)
| BeginPoolDecl (name : Token)
| PoolBindingDecl (name value : Token)
| EndPoolDecl (start : Token)
| BeginRuleDecl (name : Token)
| RuleBindingDecl (name value : Token)
| EndRuleDecl (start : Token)
| ErrorAt (message : string) (at_ : Token).

(** The fields of [ParserImpl], and the delegate calls made so far. *)
Record PState := mkPState { lexer : Lexer; tok : Token; events : list Event }.

Abbreviation P := (M PState).

Definition act (e : Event) : P unit := modify (fun s => mkPState (lexer s) (tok s) (e :: events s)).
Definition error (message : string) : P unit := s <~ get; act (ErrorAt message (tok s)).
Definition lexerSetMode (m : LexingMode) : P unit :=
  modify (fun s => mkPState (setMode m (lexer s)) (tok s) (events s)).

(** [lexer.lex(tok)]. *)
Definition lexTok : P unit := fun s =>
  match lex (lexer s) with
  | Ok (t, l) => Ok (tt, mkPState l t (events s))
  | Crash f => Crash f
  end.

Definition is_kind (k : Kind) (s : PState) : bool := bool_decide (tokenKind (tok s) = k).

(** What the loops below can iterate over. *)
Definition left (s : PState) : nat := S (S (length (bufferPos (lexer s)))).

Fixpoint skipComments (fuel : nat) : P unit :=
  match fuel with
  | O => fail OutOfFuel
  | S fuel' => lexTok ;;; s <~ get; if is_kind Comment s then skipComments fuel' else ret tt
  end.
Definition getNextNonCommentToken : P unit := s <~ get; skipComments (left s).
Definition consumeToken : P unit := getNextNonCommentToken.

Definition consumeExpectedToken (k : Kind) : P Token :=
  s <~ get;
  ensure (is_kind k s) (AssertFailed "Unexpected token!") ;;;
  getNextNonCommentToken ;;;
  ret (tok s).

Definition consumeIfToken (k : Kind) : P bool :=
  s <~ get;
  if is_kind k s then getNextNonCommentToken ;;; ret true else ret false.

Fixpoint skipLoop (fuel : nat) : P unit :=
  match fuel with
  | O => fail OutOfFuel
  | S fuel' =>
      s <~ get;
      if is_kind Newline s || is_kind EndOfFile s then ret tt else lexTok ;;; skipLoop fuel'
  end.
Definition skipPastEOL : P unit := s <~ get; skipLoop (left s) ;;; consumeToken.

(** [while (tok.tokenKind == String) push_back(consumeExpectedToken(String))]. *)
Fixpoint stringLoop (fuel : nat) : P (list Token) :=
  match fuel with
  | O => fail OutOfFuel
  | S fuel' =>
      s <~ get;
      if is_kind String_ s
      then t <~ consumeExpectedToken String_; l <~ stringLoop fuel'; ret (t :: l)
      else ret []
  end.
Definition consumeStrings : P (list Token) := s <~ get; stringLoop (left s).

Definition parseBindingInternal : P (option (Token * Token)) :=
  s <~ get;
  if negb (is_kind Identifier s) then
    error "expected variable name" ;;; lexerSetMode ModeNone ;;; skipPastEOL ;;; ret None
  else
    name <~ consumeExpectedToken Identifier;
    s <~ get;
    if negb (is_kind Equals s) then
      error "expected '=' token" ;;; lexerSetMode ModeNone ;;; skipPastEOL ;;; ret None
    else
      lexerSetMode VariableString ;;;
      consumeExpectedToken Equals ;;;
      lexerSetMode ModeNone ;;;
      s <~ get;
      if is_kind Newline s then
        t <~ consumeExpectedToken Newline;
        ret (Some (name, mkToken String_ [] (line t) (column t)))
      else if negb (is_kind String_ s) then
        error "expected variable value" ;;; skipPastEOL ;;; ret None
      else
        value <~ consumeExpectedToken String_;
        ok <~ consumeIfToken Newline;
        if negb ok then error "expected newline token" ;;; skipPastEOL ;;; ret None
        else ret (Some (name, value)).

Definition parseBindingDecl : P unit :=
  r <~ parseBindingInternal;
  match r with Some (name, value) => act (BindingDecl name value) | None => ret tt end.

Definition parseDefaultDecl : P unit :=
  lexerSetMode PathString ;;;
  consumeExpectedToken KWDefault ;;;
  names <~ consumeStrings;
  lexerSetMode ModeNone ;;;
  match names with
  | [] => error "expected target path string" ;;; skipPastEOL
  | _ =>
      ok <~ consumeIfToken Newline;
      if negb ok then error "expected newline token" ;;; skipPastEOL
      else act (DefaultDecl names)
  end.

Definition parseIncludeDecl : P unit :=
  lexerSetMode PathString ;;;
  s <~ get;
  let isInclude := is_kind KWInclude s in
  consumeExpectedToken (if isInclude then KWInclude else KWSubninja) ;;;
  lexerSetMode ModeNone ;;;
  s <~ get;
  if negb (is_kind String_ s) then error "expected path string" ;;; skipPastEOL
  else
    path <~ consumeExpectedToken String_;
    ok <~ consumeIfToken Newline;
    if negb ok then error "expected newline token" ;;; skipPastEOL
    else act (IncludeDecl isInclude path).

Definition parseBuildSpecifier : P bool :=
  lexerSetMode PathString ;;;
  consumeExpectedToken KWBuild ;;;
  s <~ get;
  if negb (is_kind String_ s) then
    error "expected output path string" ;;; lexerSetMode ModeNone ;;; ret false
  else
    explicitOutputs <~ consumeStrings;
    p <~ consumeIfToken Pipe;
    implicitOutputs <~ (if p : bool then consumeStrings else ret []);
    s <~ get;
    if negb (is_kind Colon s) then
      error "expected ':' token" ;;; lexerSetMode ModeNone ;;; ret false
    else
      lexerSetMode IdentifierSpecific ;;;
      consumeExpectedToken Colon ;;;
      lexerSetMode PathString ;;;
      s <~ get;
      if negb (is_kind Identifier s) then
        error "expected rule name identifier" ;;; lexerSetMode ModeNone ;;; ret false
      else
        name <~ consumeExpectedToken Identifier;
        explicit <~ consumeStrings;
        p <~ consumeIfToken Pipe;
        implicit <~ (if p : bool then consumeStrings else ret []);
        p <~ consumeIfToken PipePipe;
        orderOnly <~ (if p : bool then consumeStrings else ret []);
        lexerSetMode ModeNone ;;;
        ok <~ consumeIfToken Newline;
        if negb ok then error "expected newline token" ;;; ret false
        else
          act (BeginBuildDecl name (explicitOutputs ++ implicitOutputs)
                 (explicit ++ implicit ++ orderOnly)
                 (length explicit) (length implicit) (length explicitOutputs)) ;;;
          ret true.

(** [parsePoolSpecifier] and [parseRuleSpecifier]. *)
Definition parseNamedSpecifier (kw : Kind) (what : string) (begin : Token -> Event) : P bool :=
  lexerSetMode IdentifierSpecific ;;;
  consumeExpectedToken kw ;;;
  lexerSetMode ModeNone ;;;
  s <~ get;
  if negb (is_kind Identifier s) then error what ;;; ret false
  else
    name <~ consumeExpectedToken Identifier;
    ok <~ consumeIfToken Newline;
    if negb ok then error "expected newline token" ;;; ret false
    else act (begin name) ;;; ret true.
Definition parsePoolSpecifier : P bool :=
  parseNamedSpecifier KWPool "expected pool name identifier" BeginPoolDecl.
Definition parseRuleSpecifier : P bool :=
  parseNamedSpecifier KWRule "expected rule name identifier" BeginRuleDecl.

Definition bindingEvent (k : Kind) (name value : Token) : Event :=
  match k with
  | KWBuild => BuildBindingDecl name value
  | KWPool => PoolBindingDecl name value
  | _ => RuleBindingDecl name value
  end.
Definition endEvent (k : Kind) (start : Token) : Event :=
  match k with KWBuild => EndBuildDecl start | KWPool => EndPoolDecl start | _ => EndRuleDecl start end.

(** [do skipPastEOL(); while (tok.tokenKind == Indentation);] *)
Fixpoint skipIndented (fuel : nat) : P unit :=
  match fuel with
  | O => fail OutOfFuel
  | S fuel' => skipPastEOL ;;; s <~ get; if is_kind Indentation s then skipIndented fuel' else ret tt
  end.

(** The loop over the indented bindings. *)
Fixpoint bindingLoop (fuel : nat) (k : Kind) : P unit :=
  match fuel with
  | O => fail OutOfFuel
  | S fuel' =>
      s <~ get;
      if negb (is_kind Indentation s) then ret tt
      else
        lexerSetMode IdentifierSpecific ;;;
        consumeExpectedToken Indentation ;;;
        s <~ get;
        if is_kind Newline s then
          lexerSetMode ModeNone ;;; consumeExpectedToken Newline ;;; bindingLoop fuel' k
        else
          r <~ parseBindingInternal;
          (match r with Some (name, value) => act (bindingEvent k name value) | None => ret tt end) ;;;
          bindingLoop fuel' k
  end.

Definition parseParameterizedDecl : P unit :=
  s <~ get;
  let startTok := tok s in
  let k := tokenKind startTok in
  success <~ match k with
             | KWBuild => parseBuildSpecifier
             | KWPool => parsePoolSpecifier
             | KWRule => parseRuleSpecifier
             | _ => fail (AssertFailed "kind == KWRule")
             end;
  s <~ get;
  if negb success then skipIndented (left s)
  else bindingLoop (left s) k ;;; act (endEvent k startTok).

Definition parseDecl : P unit :=
  s <~ get;
  match tokenKind (tok s) with
  | Newline => consumeToken
  | KWBuild | KWRule | KWPool => parseParameterizedDecl
  | KWDefault => parseDefaultDecl
  | KWInclude | KWSubninja => parseIncludeDecl
  | Identifier => parseBindingDecl
  | _ => error "unexpected token" ;;; skipPastEOL
  end.

Fixpoint declLoop (fuel : nat) : P unit :=
  match fuel with
  | O => fail OutOfFuel
  | S fuel' =>
      s <~ get;
      if is_kind EndOfFile s then ret tt
      else
        ensure (bool_decide (mode (lexer s) = ModeNone)) (AssertFailed "lexer mode") ;;;
        parseDecl ;;; declLoop fuel'
  end.

(** [Parser::parse]: the delegate calls in order. *)
Definition parse (data : chars) : outcome (list Event) :=
  let s0 := mkPState (newLexer data) (mkToken Unknown [] 0 0) [] in
  match (getNextNonCommentToken ;;; act (BeginManifest "<main>") ;;;
         s <~ get; declLoop (left s) ;;; act EndManifest) s0 with
  | Ok (_, s) => Ok (rev (events s))
  | Crash f => Crash f
  end.

(** ** Termination and assertions

    The measure [mu] counts the characters left and the current token, unless it is
    the end of file; every consumed token decreases it. *)

Definition eof (s : PState) : bool := is_kind EndOfFile s.
Definition mu (s : PState) : nat := (length (bufferPos (lexer s)) + if eof s then 0 else 1)%nat.

Record pinv (s : PState) : Prop := {
  pi_closed : closed (bufferPos (lexer s));
  pi_eof : eof s = true -> peekNextChar (lexer s) = None }.

(** The state after consuming: the invariant holds, the mode is kept, and the
    measure decreases unless the input was exhausted. *)
Record adv (s s' : PState) : Prop := {
  adv_inv : pinv s';
  adv_mode : mode (lexer s') = mode (lexer s);
  adv_mu : (mu s' <= mu s)%nat;
  adv_strict : eof s = false -> (mu s' < mu s)%nat;
  adv_eof : eof s = true -> eof s' = true }.

Lemma adv_trans s1 s2 s3 : adv s1 s2 -> adv s2 s3 -> adv s1 s3.
Proof.
  intros [A1 A2 A3 A4 A5] [B1 B2 B3 B4 B5]. constructor; [done|congruence|lia| |auto].
  intros H. specialize (A4 H). lia.
Qed.

Lemma lexTok_adv s : pinv s -> runs lexTok s (fun _ s' => adv s s').
Proof.
  intros [Hc He]. unfold lexTok. destruct (eof s) eqn:Heof.
  - destruct (lex_at_end (lexer s) (He eq_refl)) as (t & E & Hk). eexists _, _. rewrite E. split; [done|].
    assert (Heof' : eof (mkPState (lexer s) t (events s)) = true) by by apply bool_decide_eq_true_2.
    constructor; cbn; [constructor; auto|done| |congruence|done]. unfold mu. by rewrite Heof, Heof'.
  - destruct (lex_spec (lexer s) Hc) as (t & l' & E & [[Hi Hm] _ Hend Hp]).
    eexists _, _. rewrite E. split; [done|].
    assert (Hmu : (mu (mkPState l' t (events s)) < mu s)%nat).
    { unfold mu at 2. rewrite Heof. unfold mu, eof, is_kind. cbn. pose proof (into_length _ _ Hi).
      case_bool_decide as Hk; [lia|]. specialize (Hp Hk). lia. }
    constructor; [|done|lia|done|congruence]. constructor; cbn.
    + by eapply closed_into.
    + intros Hk%bool_decide_eq_true. auto.
Qed.

Lemma mu_left s : (mu s < left s)%nat.
Proof. unfold mu, left. destruct (eof s); cbn; lia. Qed.

Lemma eof_kind k s : is_kind k s = true -> k <> EndOfFile -> eof s = false.
Proof.
  unfold eof, is_kind. intros H%bool_decide_eq_true Hk. apply bool_decide_eq_false_2. congruence.
Qed.

Lemma skipComments_adv fuel : forall s, pinv s -> (mu s < fuel)%nat ->
  runs (skipComments fuel) s (fun _ s' => adv s s').
Proof.
  induction fuel as [|fuel IH]; intros s Hi Hf; [lia|]. cbn [skipComments].
  eapply runs_bind; [by apply lexTok_adv|]. intros [] s1 H1. apply runs_get.
  destruct (is_kind Comment s1) eqn:Hk; [|by apply runs_ret].
  pose proof (eof_kind _ _ Hk ltac:(done)) as He1.
  assert (Hlt : (mu s1 < fuel)%nat).
  { destruct (eof s) eqn:He; [|pose proof (adv_strict _ _ H1 He); lia].
    by rewrite (adv_eof _ _ H1 He) in He1. }
  eapply runs_mono; [apply IH; [apply H1|done]|]. intros [] s2 H2. by eapply adv_trans.
Qed.

Lemma getNext_adv s : pinv s -> runs getNextNonCommentToken s (fun _ s' => adv s s').
Proof. intros Hi. apply runs_get, skipComments_adv; [done|apply mu_left]. Qed.

Lemma consumeExpected_adv k s : pinv s -> is_kind k s = true ->
  runs (consumeExpectedToken k) s (fun t s' => t = tok s /\ adv s s').
Proof.
  intros Hi Hk. apply runs_get, runs_ensure; [done|].
  eapply runs_bind; [by apply getNext_adv|]. intros [] s1 H1. by apply runs_ret.
Qed.

(** Operations that may leave the input where it is. *)
Record adv0 (s s' : PState) : Prop := {
  adv0_inv : pinv s';
  adv0_mode : mode (lexer s') = mode (lexer s);
  adv0_mu : (mu s' <= mu s)%nat }.

Lemma adv0_refl s : pinv s -> adv0 s s.
Proof. by constructor. Qed.
Lemma adv_adv0 s s' : adv s s' -> adv0 s s'.
Proof. intros []. by constructor. Qed.
Lemma adv0_trans s1 s2 s3 : adv0 s1 s2 -> adv0 s2 s3 -> adv0 s1 s3.
Proof. intros [A1 A2 A3] [B1 B2 B3]. constructor; [done|congruence|lia]. Qed.

Lemma consumeIf_adv k s : pinv s -> runs (consumeIfToken k) s (fun _ s' => adv0 s s').
Proof.
  intros Hi. apply runs_get. destruct (is_kind k s); [|by apply runs_ret, adv0_refl].
  eapply runs_bind; [by apply getNext_adv|]. intros [] s1 H1. by apply runs_ret, adv_adv0.
Qed.

Lemma skipLoop_adv fuel : forall s, pinv s -> (mu s < fuel)%nat ->
  runs (skipLoop fuel) s (fun _ s' => adv0 s s' /\ (s' = s \/ (eof s = false /\ mu s' < mu s)%nat)).
Proof.
  induction fuel as [|fuel IH]; intros s Hi Hf; [lia|]. cbn [skipLoop]. apply runs_get.
  destruct (_ || _) eqn:Hk; [apply runs_ret; split; [by apply adv0_refl|by left]|].
  apply orb_false_iff in Hk as [_ He].
  eapply runs_bind; [by apply lexTok_adv|]. intros [] s1 H1. pose proof (adv_strict _ _ H1 He) as Hlt.
  eapply runs_mono; [apply IH; [apply H1|lia]|]. intros [] s2 [H2 _]. split.
  - eapply adv0_trans; [by apply adv_adv0|done].
  - right. split; [done|]. pose proof (adv0_mu _ _ H2). lia.
Qed.

Lemma skipPastEOL_adv s : pinv s ->
  runs skipPastEOL s (fun _ s' => adv0 s s' /\
    (if eof s then eof s' = true else (mu s' < mu s)%nat)).
Proof.
  intros Hi. apply runs_get. eapply runs_bind; [apply skipLoop_adv; [done|apply mu_left]|].
  intros [] s1 [H1 Hs]. eapply runs_mono; [apply getNext_adv, H1|]. intros [] s2 H2. split.
  - eapply adv0_trans; [done|by apply adv_adv0].
  - pose proof (adv_mu _ _ H2). destruct Hs as [-> |[-> ?]]; [|lia].
    destruct (eof s) eqn:He; [by apply (adv_eof _ _ H2)|by apply (adv_strict _ _ H2)].
Qed.

Lemma stringLoop_adv fuel : forall s, pinv s -> (mu s < fuel)%nat ->
  runs (stringLoop fuel) s (fun _ s' => adv0 s s').
Proof.
  induction fuel as [|fuel IH]; intros s Hi Hf; [lia|]. cbn [stringLoop]. apply runs_get.
  destruct (is_kind String_ s) eqn:Hk; [|by apply runs_ret, adv0_refl].
  eapply runs_bind; [by apply consumeExpected_adv|]. intros t s1 [_ H1].
  pose proof (adv_strict _ _ H1 (eof_kind _ _ Hk ltac:(done))) as Hlt.
  eapply runs_bind; [apply IH; [apply H1|lia]|]. intros l s2 H2. apply runs_ret.
  eapply adv0_trans; [by apply adv_adv0|done].
Qed.

Lemma consumeStrings_adv s : pinv s -> runs consumeStrings s (fun _ s' => adv0 s s').
Proof. intros Hi. apply runs_get, stringLoop_adv; [done|apply mu_left]. Qed.

(** Delegate calls and mode changes do not move the lexer. *)
Record still (s s' : PState) : Prop := {
  st_pos : bufferPos (lexer s') = bufferPos (lexer s);
  st_tok : tok s' = tok s }.

Lemma still_mu s s' : still s s' -> mu s' = mu s.
Proof. intros [H1 H2]. unfold mu, eof, is_kind. by rewrite H1, H2. Qed.
Lemma still_kind k s s' : still s s' -> is_kind k s' = is_kind k s.
Proof. intros [H1 H2]. unfold is_kind. by rewrite H2. Qed.
Lemma still_inv s s' : still s s' -> pinv s -> pinv s'.
Proof.
  intros [H1 H2] [A1 A2]. constructor; [by rewrite H1|].
  unfold eof, is_kind, peekNextChar in *. by rewrite H1, H2.
Qed.

Lemma act_still e s : runs (act e) s (fun _ s' => still s s' /\ mode (lexer s') = mode (lexer s)).
Proof. by apply runs_modify. Qed.
Lemma error_still m s : runs (error m) s (fun _ s' => still s s' /\ mode (lexer s') = mode (lexer s)).
Proof. apply runs_get, act_still. Qed.
Lemma setMode_still m s : runs (lexerSetMode m) s (fun _ s' => still s s' /\ mode (lexer s') = m).
Proof. by apply runs_modify. Qed.

(** What a parsing function leaves: the lexer out of any special mode, and input
    consumed unless there was none. *)
Record fin (s s' : PState) : Prop := {
  fin_inv : pinv s';
  fin_mode : mode (lexer s') = ModeNone;
  fin_mu : (mu s' <= mu s)%nat;
  fin_strict : eof s = false -> (mu s' < mu s)%nat }.

(** [s1] was reached from [s] by consuming something. *)
Definition after (s s1 : PState) : Prop := pinv s1 /\ (mu s1 < mu s)%nat.

Lemma after_adv0 s s1 s2 : after s s1 -> adv0 s1 s2 -> after s s2.
Proof. intros [A1 A2] [B1 B2 B3]. split; [done|lia]. Qed.
Lemma after_still s s1 s2 : after s s1 -> still s1 s2 -> after s s2.
Proof. intros [A1 A2] H. split; [by eapply still_inv|]. by rewrite (still_mu _ _ H). Qed.
Lemma after_fin s s1 : after s s1 -> mode (lexer s1) = ModeNone -> fin s s1.
Proof. intros [A1 A2] Hm. constructor; try done. lia. Qed.
Lemma after_adv s s1 s2 : after s s1 -> adv s1 s2 -> after s s2.
Proof. intros H1 H2. eapply after_adv0; [done|by apply adv_adv0]. Qed.
Lemma adv_after s s1 k : is_kind k s = true -> k <> EndOfFile -> adv s s1 -> after s s1.
Proof. intros Hk Hn [A1 A2 A3 A4 A5]. split; [done|]. apply A4. by eapply eof_kind. Qed.

Lemma skip_fin s s1 : after s s1 -> mode (lexer s1) = ModeNone ->
  runs skipPastEOL s1 (fun _ s' => fin s s').
Proof.
  intros [A1 A2] Hm. eapply runs_mono; [by apply skipPastEOL_adv|]. intros [] s2 [[B1 B2 B3] _].
  apply after_fin; [split; [done|lia]|congruence].
Qed.

(** [error(...); skipPastEOL();] with the lexer out of its modes. *)
Lemma error_skip_fin m s s1 : after s s1 -> mode (lexer s1) = ModeNone ->
  runs (error m ;;; skipPastEOL) s1 (fun _ s' => fin s s').
Proof.
  intros Ha Hm. eapply runs_bind; [apply error_still|]. intros [] s2 [H2 Hm2].
  apply skip_fin; [by eapply after_still|congruence].
Qed.

(** The error exits of [parseBindingInternal]. *)
Lemma binding_error m s : pinv s ->
  runs (error m ;;; lexerSetMode ModeNone ;;; skipPastEOL ;;; ret (@None (Token * Token))) s
    (fun _ s' => fin s s').
Proof.
  intros Hi. eapply runs_bind; [apply error_still|]. intros [] s1 [H1 _].
  eapply runs_bind; [apply setMode_still|]. intros [] s2 [H2 Hm2].
  pose proof (still_mu _ _ H1) as M1. pose proof (still_mu _ _ H2) as M2.
  assert (E : eof s2 = eof s) by (unfold eof; by rewrite (still_kind _ _ _ H2), (still_kind _ _ _ H1)).
  eapply runs_bind; [apply skipPastEOL_adv; eapply still_inv; [exact H2|by eapply still_inv]|].
  intros [] s3 [[B1 B2 B3] B4]. apply runs_ret. constructor; [done|congruence|lia|].
  intros He. rewrite E, He in B4. lia.
Qed.

Lemma fin_weaken s s1 s2 : (mu s1 < mu s)%nat -> fin s1 s2 -> fin s s2.
Proof. intros H [A1 A2 A3 A4]. constructor; try done; lia. Qed.

Lemma parseBindingInternal_fin s : pinv s -> runs parseBindingInternal s (fun _ s' => fin s s').
Proof.
  intros Hi. apply runs_get. destruct (is_kind Identifier s) eqn:Hid; cbn [negb]; [|by apply binding_error].
  eapply runs_bind; [by apply consumeExpected_adv|]. intros name s1 [_ H1].
  pose proof (adv_after _ _ _ Hid ltac:(done) H1) as A1. apply runs_get.
  destruct (is_kind Equals s1) eqn:Heq; cbn [negb].
  2: { eapply runs_mono; [apply binding_error, A1|]. intros a s2 H2. eapply fin_weaken; [apply A1|done]. }
  eapply runs_bind; [apply setMode_still|]. intros [] s2 [H2 Hm2].
  pose proof (after_still _ _ _ A1 H2) as A2.
  eapply runs_bind; [apply consumeExpected_adv; [apply A2|by rewrite (still_kind _ _ _ H2)]|].
  intros _t s3 [_ H3]. pose proof (after_adv _ _ _ A2 H3) as A3.
  eapply runs_bind; [apply setMode_still|]. intros [] s4 [H4 Hm4].
  pose proof (after_still _ _ _ A3 H4) as A4. apply runs_get.
  destruct (is_kind Newline s4) eqn:Hnl.
  { eapply runs_bind; [apply consumeExpected_adv; [apply A4|done]|]. intros t s5 [_ H5]. apply runs_ret.
    apply after_fin; [by eapply after_adv|]. by rewrite (adv_mode _ _ H5). }
  destruct (is_kind String_ s4) eqn:Hst; cbn [negb].
  2: { eapply runs_bind; [apply error_still|]. intros [] s5 [H5 Hm5].
       eapply runs_bind; [apply (skip_fin s s5); [by eapply after_still|congruence]|].
       intros [] s6 H6. by apply runs_ret. }
  eapply runs_bind; [apply consumeExpected_adv; [apply A4|done]|]. intros v s5 [_ H5].
  pose proof (after_adv _ _ _ A4 H5) as A5.
  eapply runs_bind; [apply consumeIf_adv, A5|]. intros ok s6 H6.
  pose proof (after_adv0 _ _ _ A5 H6) as A6.
  assert (Hm6 : mode (lexer s6) = ModeNone) by (rewrite (adv0_mode _ _ H6), (adv_mode _ _ H5); done).
  destruct ok; cbn [negb]; [apply runs_ret; by apply after_fin|].
  eapply runs_bind; [apply error_still|]. intros [] s7 [H7 Hm7].
  eapply runs_bind; [apply (skip_fin s s7); [by eapply after_still|congruence]|].
  intros [] s8 H8. by apply runs_ret.
Qed.

Lemma act_fin e s s1 : fin s s1 -> runs (act e) s1 (fun _ s' => fin s s').
Proof.
  intros [A1 A2 A3 A4]. eapply runs_mono; [apply act_still|]. intros [] s2 [H2 Hm2].
  pose proof (still_mu _ _ H2) as Hmu.
  constructor; [by eapply still_inv|congruence|lia|]. intros He. specialize (A4 He). lia.
Qed.

Lemma parseBindingDecl_fin s : pinv s -> runs parseBindingDecl s (fun _ s' => fin s s').
Proof.
  intros Hi. eapply runs_bind; [by apply parseBindingInternal_fin|]. intros [[n v]|] s1 H1.
  - by apply act_fin.
  - by apply runs_ret.
Qed.

(** Consuming the keyword that starts a declaration, in a mode of its own. *)
Lemma keyword_after k m s (Hi : pinv s) (Hk : is_kind k s = true) (Hn : k <> EndOfFile) :
  runs (lexerSetMode m ;;; consumeExpectedToken k) s
    (fun _ s' => after s s' /\ mode (lexer s') = m).
Proof.
  eapply runs_bind; [apply setMode_still|]. intros [] s1 [H1 Hm1].
  eapply runs_mono; [apply consumeExpected_adv; [by eapply still_inv|by rewrite (still_kind _ _ _ H1)]|].
  intros t s2 [_ H2]. split; [|by rewrite (adv_mode _ _ H2)].
  pose proof (adv_after s1 s2 k ltac:(by rewrite (still_kind _ _ _ H1)) Hn H2) as [A B].
  split; [done|]. by rewrite (still_mu _ _ H1) in B.
Qed.

Lemma keyword_bind {A} k m s (f : Token -> P A) Q (Hi : pinv s) (Hk : is_kind k s = true) (Hn : k <> EndOfFile) :
  (forall t s', after s s' -> mode (lexer s') = m -> runs (f t) s' Q) ->
  runs (lexerSetMode m ;;; t <~ consumeExpectedToken k; f t) s Q.
Proof.
  intros Hf. destruct (keyword_after k m s Hi Hk Hn) as (t & s' & E & Ha & Hm).
  destruct (Hf t s' Ha Hm) as (a & s2 & E2 & HQ). exists a, s2. split; [|done].
  rewrite <- E2. apply bind_inv in E as ([] & s1 & E1 & E). rewrite (bind_ok _ _ _ _ _ E1).
  by rewrite (bind_ok _ _ _ _ _ E).
Qed.

(** A mode change after input was consumed. *)
Lemma setMode_bind {A} m s s1 (f : unit -> P A) Q : after s s1 ->
  (forall s2, after s s2 -> mode (lexer s2) = m -> still s1 s2 -> runs (f tt) s2 Q) ->
  runs (bind (lexerSetMode m) f) s1 Q.
Proof.
  intros Ha Hf. eapply runs_bind; [apply setMode_still|]. intros [] s2 [H2 Hm2].
  apply Hf; [by eapply after_still|done|done].
Qed.

Lemma strings_bind {A} s s1 (f : list Token -> P A) Q : after s s1 ->
  (forall l s2, after s s2 -> mode (lexer s2) = mode (lexer s1) -> runs (f l) s2 Q) ->
  runs (bind consumeStrings f) s1 Q.
Proof.
  intros Ha Hf. eapply runs_bind; [apply consumeStrings_adv, Ha|]. intros l s2 H2.
  apply Hf; [by eapply after_adv0|apply H2].
Qed.

Lemma consumeIf_bind {A} k s s1 (f : bool -> P A) Q : after s s1 ->
  (forall b s2, after s s2 -> mode (lexer s2) = mode (lexer s1) -> runs (f b) s2 Q) ->
  runs (bind (consumeIfToken k) f) s1 Q.
Proof.
  intros Ha Hf. eapply runs_bind; [apply consumeIf_adv, Ha|]. intros l s2 H2.
  apply Hf; [by eapply after_adv0|apply H2].
Qed.

Lemma consume_bind {A} k s s1 (f : Token -> P A) Q : after s s1 -> is_kind k s1 = true ->
  (forall t s2, after s s2 -> mode (lexer s2) = mode (lexer s1) -> runs (f t) s2 Q) ->
  runs (bind (consumeExpectedToken k) f) s1 Q.
Proof.
  intros Ha Hk Hf. eapply runs_bind; [apply consumeExpected_adv; [apply Ha|done]|]. intros t s2 [_ H2].
  apply Hf; [by eapply after_adv|apply H2].
Qed.

(** The failure exits of the specifiers. *)
Lemma spec_error m s s1 : after s s1 -> mode (lexer s1) = ModeNone ->
  runs (error m ;;; ret false) s1 (fun _ s' => fin s s').
Proof.
  intros Ha Hm. eapply runs_bind; [apply error_still|]. intros [] s2 [H2 Hm2]. apply runs_ret.
  apply after_fin; [by eapply after_still|congruence].
Qed.
Lemma spec_error_mode m s s1 : after s s1 ->
  runs (error m ;;; lexerSetMode ModeNone ;;; ret false) s1 (fun _ s' => fin s s').
Proof.
  intros Ha. eapply runs_bind; [apply error_still|]. intros [] s2 [H2 _].
  eapply (setMode_bind _ s); [by eapply after_still|]. intros s3 A3 Hm3 _. apply runs_ret.
  by apply after_fin.
Qed.

Lemma optional_strings {A} (p : bool) s s1 (f : list Token -> P A) Q : after s s1 ->
  (forall l s2, after s s2 -> mode (lexer s2) = mode (lexer s1) -> runs (f l) s2 Q) ->
  runs (bind (if p then consumeStrings else ret []) f) s1 Q.
Proof.
  intros Ha Hf. destruct p; [by apply (strings_bind s)|]. exact (Hf [] s1 Ha eq_refl).
Qed.

Lemma parseDefaultDecl_fin s : pinv s -> is_kind KWDefault s = true ->
  runs parseDefaultDecl s (fun _ s' => fin s s').
Proof.
  intros Hi Hk. apply keyword_bind; [done..|]. intros t s1 A1 _.
  apply (strings_bind s); [done|]. intros l s2 A2 _.
  apply (setMode_bind _ s); [done|]. intros s3 A3 Hm3 _.
  destruct l; [by apply error_skip_fin|]. apply (consumeIf_bind _ s); [done|]. intros b s4 A4 Hm4.
  destruct b; cbn [negb]; [|apply error_skip_fin; [done|congruence]].
  apply act_fin, after_fin; [done|congruence].
Qed.

Lemma parseIncludeDecl_fin s : pinv s -> is_kind KWInclude s || is_kind KWSubninja s = true ->
  runs parseIncludeDecl s (fun _ s' => fin s s').
Proof.
  intros Hi Hk. unfold parseIncludeDecl.
  eapply runs_bind; [apply setMode_still|]. intros [] s1 [H1 Hm1]. apply runs_get.
  rewrite (still_kind _ _ _ H1).
  assert (Hk1 : is_kind (if is_kind KWInclude s then KWInclude else KWSubninja) s1 = true).
  { rewrite (still_kind _ _ _ H1). destruct (is_kind KWInclude s) eqn:E; [by rewrite E|exact Hk]. }
  set (k := if is_kind KWInclude s then KWInclude else KWSubninja) in *.
  assert (Hkn : k <> EndOfFile) by (unfold k; by destruct (is_kind KWInclude s)).
  eapply runs_bind; [apply consumeExpected_adv; [by eapply still_inv|done]|]. intros t s2 [_ H2].
  assert (A2 : after s s2).
  { destruct (adv_after _ _ _ Hk1 Hkn H2) as [A B]. split; [done|]. by rewrite (still_mu _ _ H1) in B. }
  apply (setMode_bind _ s); [done|]. intros s3 A3 Hm3 _. apply runs_get.
  destruct (is_kind String_ s3) eqn:Hst; cbn [negb]; [|by apply error_skip_fin].
  apply (consume_bind _ s); [done..|]. intros p s4 A4 Hm4.
  apply (consumeIf_bind _ s); [done|]. intros b s5 A5 Hm5.
  destruct b; cbn [negb]; [|apply error_skip_fin; [done|congruence]].
  apply act_fin, after_fin; [done|congruence].
Qed.

Lemma parseNamed_fin kw what ev s : pinv s -> is_kind kw s = true -> kw <> EndOfFile ->
  runs (parseNamedSpecifier kw what ev) s (fun _ s' => fin s s').
Proof.
  intros Hi Hk Hn. apply keyword_bind; [done..|]. intros t s1 A1 _.
  apply (setMode_bind _ s); [done|]. intros s2 A2 Hm2 _. apply runs_get.
  destruct (is_kind Identifier s2) eqn:Hid; cbn [negb]; [|by apply spec_error].
  apply (consume_bind _ s); [done..|]. intros name s3 A3 Hm3.
  apply (consumeIf_bind _ s); [done|]. intros b s4 A4 Hm4.
  destruct b; cbn [negb]; [|apply spec_error; [done|congruence]].
  eapply runs_bind; [apply act_fin, after_fin; [done|congruence]|]. intros [] s5 H5. by apply runs_ret.
Qed.

Lemma parseBuildSpecifier_fin s : pinv s -> is_kind KWBuild s = true ->
  runs parseBuildSpecifier s (fun _ s' => fin s s').
Proof.
  intros Hi Hk. apply keyword_bind; [done..|]. intros t s1 A1 _. apply runs_get.
  destruct (is_kind String_ s1) eqn:Hst; cbn [negb]; [|by apply spec_error_mode].
  apply (strings_bind s); [done|]. intros outs s2 A2 _.
  apply (consumeIf_bind _ s); [done|]. intros b s3 A3 _.
  apply (optional_strings _ s); [done|]. intros imps s4 A4 _. apply runs_get.
  destruct (is_kind Colon s4) eqn:Hc; cbn [negb]; [|by apply spec_error_mode].
  apply (setMode_bind _ s); [done|]. intros s5 A5 _ S5.
  apply (consume_bind _ s); [done|by rewrite (still_kind _ _ _ S5)|]. intros t2 s6 A6 _.
  apply (setMode_bind _ s); [done|]. intros s7 A7 _ _. apply runs_get.
  destruct (is_kind Identifier s7) eqn:Hid; cbn [negb]; [|by apply spec_error_mode].
  apply (consume_bind _ s); [done..|]. intros name s8 A8 _.
  apply (strings_bind s); [done|]. intros ins s9 A9 _.
  apply (consumeIf_bind _ s); [done|]. intros b2 s10 A10 _.
  apply (optional_strings _ s); [done|]. intros impi s11 A11 _.
  apply (consumeIf_bind _ s); [done|]. intros b3 s12 A12 _.
  apply (optional_strings _ s); [done|]. intros oo s13 A13 _.
  apply (setMode_bind _ s); [done|]. intros s14 A14 Hm14 _.
  apply (consumeIf_bind _ s); [done|]. intros ok s15 A15 Hm15.
  destruct ok; cbn [negb]; [|apply spec_error; [done|congruence]].
  eapply runs_bind; [apply act_fin, after_fin; [done|congruence]|]. intros [] s16 H16. by apply runs_ret.
Qed.

Lemma skipIndented_adv fuel : forall s, pinv s -> (mu s < fuel)%nat ->
  runs (skipIndented fuel) s (fun _ s' => adv0 s s').
Proof.
  induction fuel as [|fuel IH]; intros s Hi Hf; [lia|]. cbn [skipIndented].
  eapply runs_bind; [by apply skipPastEOL_adv|]. intros [] s1 [H1 Hs]. apply runs_get.
  destruct (is_kind Indentation s1) eqn:Hk; [|by apply runs_ret].
  destruct (eof s) eqn:He.
  - by rewrite (eof_kind _ _ Hk ltac:(done)) in Hs.
  - eapply runs_mono; [apply IH; [apply H1|lia]|]. intros [] s2 H2. by eapply adv0_trans.
Qed.

Lemma bindingLoop_adv k fuel : forall s, pinv s -> mode (lexer s) = ModeNone -> (mu s < fuel)%nat ->
  runs (bindingLoop fuel k) s (fun _ s' => adv0 s s').
Proof.
  induction fuel as [|fuel IH]; intros s Hi Hm Hf; [lia|]. cbn [bindingLoop]. apply runs_get.
  destruct (is_kind Indentation s) eqn:Hk; cbn [negb]; [|by apply runs_ret, adv0_refl].
  apply keyword_bind; [done..|]. intros t s1 A1 _. apply runs_get.
  assert (Hrest : forall s2, after s s2 -> mode (lexer s2) = ModeNone ->
            runs (bindingLoop fuel k) s2 (fun _ s' => adv0 s s')).
  { intros s2 [B1 B2] Hm2. eapply runs_mono; [apply IH; [done..|lia]|]. intros [] s3 [C1 C2 C3].
    constructor; [done|congruence|lia]. }
  destruct (is_kind Newline s1) eqn:Hnl.
  - apply (setMode_bind _ s); [done|]. intros s2 A2 Hm2 S2.
    apply (consume_bind _ s); [done|by rewrite (still_kind _ _ _ S2)|]. intros t2 s3 A3 Hm3.
    apply Hrest; [done|congruence].
  - eapply runs_bind; [apply parseBindingInternal_fin, A1|]. intros r s2 H2.
    assert (A2 : after s s2).
    { split; [apply H2|]. destruct A1. pose proof (fin_mu _ _ H2). lia. }
    eapply runs_bind with (Q1 := fun _ s' => after s s' /\ mode (lexer s') = ModeNone).
    + destruct r as [[n v]|]; [|apply runs_ret; split; [done|apply H2]].
      eapply runs_mono; [apply act_still|]. intros [] s3 [S3 Hm3]. split; [by eapply after_still|].
      rewrite Hm3. apply H2.
    + intros [] s3 [A3 Hm3]. by apply Hrest.
Qed.

Lemma parseParameterized_fin s : pinv s ->
  is_kind KWBuild s || is_kind KWRule s || is_kind KWPool s = true ->
  runs parseParameterizedDecl s (fun _ s' => fin s s').
Proof.
  intros Hi Hk. unfold parseParameterizedDecl. apply runs_get.
  eapply runs_bind with (Q1 := fun _ s' => fin s s' /\ eof s = false).
  { unfold is_kind in *. assert (Hk2 : tokenKind (tok s) = KWBuild \/ tokenKind (tok s) = KWPool \/ tokenKind (tok s) = KWRule).
    { apply orb_true_iff in Hk as [Hk|Hk]; [apply orb_true_iff in Hk as [Hk|Hk]|];
        apply bool_decide_eq_true in Hk; auto. }
    assert (He : eof s = false) by (apply bool_decide_eq_false_2; destruct Hk2 as [-> |[-> | ->]]; done).
    eapply runs_mono with (Q := fun _ s' => fin s s'); [|intros b s' H; by split].
    destruct Hk2 as [E|[E|E]]; rewrite E.
    - apply parseBuildSpecifier_fin; [done|]. by apply bool_decide_eq_true_2.
    - apply parseNamed_fin; [done| |done]. by apply bool_decide_eq_true_2.
    - apply parseNamed_fin; [done| |done]. by apply bool_decide_eq_true_2. }
  intros b s1 [H1 He]. apply runs_get. pose proof (fin_strict _ _ H1 He) as Hlt.
  assert (Hfin : forall s2, adv0 s1 s2 -> fin s s2).
  { intros s2 [B1 B2 B3]. constructor; [done|rewrite B2; apply H1|lia|lia]. }
  destruct b; cbn [negb].
  - eapply runs_bind; [apply bindingLoop_adv; [apply H1|apply H1|apply mu_left]|]. intros [] s2 H2.
    by apply act_fin, Hfin.
  - eapply runs_mono; [apply skipIndented_adv; [apply H1|apply mu_left]|]. intros [] s2 H2. by apply Hfin.
Qed.

Lemma parseDecl_fin s : pinv s -> eof s = false -> mode (lexer s) = ModeNone ->
  runs parseDecl s (fun _ s' => fin s s').
Proof.
  intros Hi He Hm. unfold parseDecl. apply runs_get.
  assert (Hk : forall k, tokenKind (tok s) = k -> is_kind k s = true) by (intros k E; by apply bool_decide_eq_true_2).
  assert (Herr : runs (error "unexpected token" ;;; skipPastEOL) s (fun _ s' => fin s s')).
  { eapply runs_bind; [apply error_still|]. intros [] s1 [H1 Hm1].
    eapply runs_mono; [apply skipPastEOL_adv; by eapply still_inv|]. intros [] s2 [[B1 B2 B3] B4].
    assert (E : eof s1 = false) by (unfold eof; by rewrite (still_kind _ _ _ H1)).
    pose proof (still_mu _ _ H1). rewrite E in B4. constructor; [done|congruence|lia|lia]. }
  destruct (tokenKind (tok s)) eqn:E; try exact Herr.
  - by apply parseBindingDecl_fin.
  - apply parseParameterized_fin; [done|]. by rewrite (Hk KWBuild).
  - apply parseDefaultDecl_fin; [done|]. by apply Hk.
  - apply parseIncludeDecl_fin; [done|]. by rewrite (Hk KWInclude).
  - apply parseParameterized_fin; [done|]. by rewrite (Hk KWPool), orb_true_r.
  - apply parseParameterized_fin; [done|]. by rewrite (Hk KWRule), orb_true_r.
  - apply parseIncludeDecl_fin; [done|]. by rewrite (Hk KWSubninja), orb_true_r.
  - eapply runs_mono; [by apply getNext_adv|]. intros [] s1 [A1 A2 A3 A4 A5].
    constructor; [done|congruence|done|done].
Qed.

Lemma declLoop_total fuel : forall s, pinv s -> mode (lexer s) = ModeNone -> (mu s < fuel)%nat ->
  runs (declLoop fuel) s (fun _ _ => True).
Proof.
  induction fuel as [|fuel IH]; intros s Hi Hm Hf; [lia|]. cbn [declLoop]. apply runs_get.
  destruct (is_kind EndOfFile s) eqn:He; [by apply runs_ret|].
  apply runs_ensure; [by apply bool_decide_eq_true_2|].
  eapply runs_bind; [by apply parseDecl_fin|]. intros [] s1 [A1 A2 A3 A4].
  apply IH; [done..|]. specialize (A4 He). lia.
Qed.

Lemma parse_returns data : closed data -> exists evs, parse data = Ok evs.
Proof.
  intros Hc. unfold parse. set (s0 := mkPState _ _ _).
  assert (Hr : runs (getNextNonCommentToken ;;; act (BeginManifest "<main>") ;;;
         s <~ get; declLoop (left s) ;;; act EndManifest) s0 (fun _ _ => True)).
  { eapply runs_bind; [apply getNext_adv; by constructor|]. intros [] s1 [A1 A2 _ _ _].
    eapply runs_bind; [apply act_still|]. intros [] s2 [H2 Hm2]. apply runs_get.
    eapply runs_bind; [apply declLoop_total; [by eapply still_inv|by rewrite Hm2, A2|apply mu_left]|].
    intros [] s3 _. by apply runs_modify. }
  destruct Hr as (a & s' & -> & _). eauto.
Qed.

(** ** Properties *)

(** C31: parsing any manifest whose last character is not a dollar sign terminates;
    no read leaves the buffer and no assertion fails: every expected token is
    there, and the lexer is out of its modes before every declaration. *)
Theorem parse_total data : closed data -> exists evs, parse data = Ok evs.
Proof. apply parse_returns. Qed.

Lemma parse_total_witness : exists evs, parse (chars_of "build a: cc b" ++ [LF]) = Ok evs.
Proof. apply (parse_total (chars_of "build a: cc b" ++ [LF])). vm_compute. discriminate. Defined.
