(* ===== verification/NinjaEvents.v ===== *)
(** * The protocol between the Ninja parser and its delegate

    lib/Ninja/Parser.cpp hands a delegate result from the call that begins a
    declaration to the calls for its bindings and its end.  This file states the
    protocol as an automaton over the calls and proves that the parser follows it,
    so that a delegate can be verified against the automaton alone. *)

From Stdlib Require Import ZArith Ascii Lia.
From stdpp Require Import base list strings numbers.
From S2P Require Import Prelude Chars NinjaLexer NinjaParser.

(** ** The protocol *)

Inductive Phase := Start | Outside | InBuild | InPool | InRule | Done.
#[global] Instance Phase_eq_dec : EqDecision Phase.
Proof. solve_decision. Defined.

Definition is_string (t : Token) : bool := bool_decide (tokenKind t = String_).

(** The phase after a call; [None] where the protocol does not allow the call. *)
Definition call (ph : Phase) (e : Event) : option Phase :=
  match ph, e with
  | Done, _ => None
  | _, ErrorAt _ _ => Some ph
  | Start, BeginManifest _ => Some Outside
  | Outside, EndManifest => Some Done
  | Outside, BindingDecl _ value => if is_string value then Some Outside else None
  | Outside, DefaultDecl names => if forallb is_string names then Some Outside else None
  | Outside, IncludeDecl _ path => if is_string path then Some Outside else None
  | Outside, BeginBuildDecl _ outs ins ne ni no =>
      if forallb is_string outs && forallb is_string ins && (0 <? length outs)%nat
         && (0 <? no)%nat && (no <=? length outs)%nat && (ne + ni <=? length ins)%nat
      then Some InBuild else None
  | InBuild, BuildBindingDecl _ value => if is_string value then Some InBuild else None
  | InBuild, EndBuildDecl _ => Some Outside
  | Outside, BeginPoolDecl _ => Some InPool
  | InPool, PoolBindingDecl _ value => if is_string value then Some InPool else None
  | InPool, EndPoolDecl _ => Some Outside
  | Outside, BeginRuleDecl _ => Some InRule
  | InRule, RuleBindingDecl _ value => if is_string value then Some InRule else None
  | InRule, EndRuleDecl _ => Some Outside
  | _, _ => None
  end.

(** A sequence of calls, first call first. *)
Fixpoint calls (ph : Phase) (es : list Event) : option Phase :=
  match es with
  | [] => Some ph
  | e :: es' => match call ph e with Some ph' => calls ph' es' | None => None end
  end.

Lemma calls_app ph es1 es2 : calls ph (es1 ++ es2) = (calls ph es1 ≫= fun ph' => calls ph' es2).
Proof. revert ph. induction es1 as [|e es IH]; intros ph; [done|]. cbn. destruct (call ph e); [apply IH|done]. Qed.

(** The phase the parser has brought its delegate to. *)
Definition phase (s : PState) : option Phase := calls Start (rev (events s)).

Definition in_phase (ph : Phase) (s : PState) : Prop := phase s = Some ph.

(** ** What each parsing function calls *)

(** [m] makes no call but reports of errors, as long as the manifest is open. *)
Definition quiet {A} (m : P A) (R : A -> Prop) : Prop :=
  forall s, phase s <> Some Done -> post m s (fun a s' => phase s' = phase s /\ R a).

Lemma quiet_bind {A B} (m : P A) (f : A -> P B) R Q :
  quiet m R -> (forall a, R a -> quiet (f a) Q) -> quiet (bind m f) Q.
Proof.
  intros Hm Hf s Hs. eapply post_bind; [by apply Hm|]. intros a s1 [E HR].
  eapply post_mono; [apply (Hf a HR); congruence|]. intros b s2 [E2 HQ]. split; [congruence|done].
Qed.
Lemma quiet_ret {A} (a : A) (R : A -> Prop) : R a -> quiet (ret a) R.
Proof. intros H s _. by apply post_ret. Qed.
Lemma quiet_fail {A} e (R : A -> Prop) : quiet (fail e) R.
Proof. intros s _. apply post_fail. Qed.
Lemma quiet_get {B} (f : PState -> P B) R : (forall s, quiet (f s) R) -> quiet (bind get f) R.
Proof. intros H s Hs. by apply post_bind_get, H. Qed.
Lemma quiet_mono {A} (m : P A) (R Q : A -> Prop) : quiet m R -> (forall a, R a -> Q a) -> quiet m Q.
Proof. intros H HQ s Hs. eapply post_mono; [by apply H|]. intros a s' [E HR]. auto. Qed.

Lemma quiet_lexTok : quiet lexTok (fun _ => True).
Proof. intros s _ a s' E. unfold lexTok in E. destruct (lex (lexer s)) as [[t l]|]; [|done]. by injection E as <- <-. Qed.

Lemma quiet_setMode m : quiet (lexerSetMode m) (fun _ => True).
Proof. intros s _. by apply post_modify. Qed.

Lemma phase_act e s : phase (mkPState (lexer s) (tok s) (e :: events s)) = (phase s ≫= fun ph => call ph e).
Proof.
  unfold phase. cbn [events rev]. rewrite calls_app. destruct (calls Start (rev (events s))); [|done].
  cbn. by destruct (call _ e).
Qed.

Lemma quiet_error m : quiet (error m) (fun _ => True).
Proof.
  intros s Hs. apply post_bind_get, post_modify. split; [|done]. rewrite phase_act.
  by destruct (phase s) as [[]|].
Qed.

Lemma quiet_skipComments fuel : quiet (skipComments fuel) (fun _ => True).
Proof.
  induction fuel as [|fuel IH]; [apply quiet_fail|]. cbn [skipComments].
  eapply quiet_bind; [apply quiet_lexTok|]. intros [] _. apply quiet_get. intros s.
  destruct (is_kind Comment s); [done|by apply quiet_ret].
Qed.
Lemma quiet_getNext : quiet getNextNonCommentToken (fun _ => True).
Proof. apply quiet_get. intros s. apply quiet_skipComments. Qed.

Lemma quiet_consumeExpected k : quiet (consumeExpectedToken k) (fun t => tokenKind t = k).
Proof.
  apply quiet_get. intros s1 s Hs. apply post_bind_ensure. intros Hk.
  eapply post_bind; [by apply quiet_getNext|]. intros [] s2 [E _]. apply post_ret. split; [done|].
  by apply bool_decide_eq_true in Hk.
Qed.

Lemma quiet_consumeIf k : quiet (consumeIfToken k) (fun _ => True).
Proof.
  apply quiet_get. intros s. destruct (is_kind k s); [|by apply quiet_ret].
  eapply quiet_bind; [apply quiet_getNext|]. intros. by apply quiet_ret.
Qed.

Lemma quiet_skipLoop fuel : quiet (skipLoop fuel) (fun _ => True).
Proof.
  induction fuel as [|fuel IH]; [apply quiet_fail|]. cbn [skipLoop]. apply quiet_get. intros s.
  destruct (_ || _); [by apply quiet_ret|]. eapply quiet_bind; [apply quiet_lexTok|]. done.
Qed.
Lemma quiet_skipPastEOL : quiet skipPastEOL (fun _ => True).
Proof. apply quiet_get. intros s. eapply quiet_bind; [apply quiet_skipLoop|]. intros. apply quiet_getNext. Qed.

Lemma quiet_stringLoop fuel : quiet (stringLoop fuel) (fun l => forallb is_string l = true).
Proof.
  induction fuel as [|fuel IH]; [apply quiet_fail|]. cbn [stringLoop]. apply quiet_get. intros s.
  destruct (is_kind String_ s); [|by apply quiet_ret].
  eapply quiet_bind; [apply quiet_consumeExpected|]. intros t Ht.
  eapply quiet_bind; [exact IH|]. intros l Hl. apply quiet_ret. cbn. unfold is_string at 1.
  by rewrite bool_decide_eq_true_2, Hl.
Qed.
Lemma quiet_consumeStrings : quiet consumeStrings (fun l => forallb is_string l = true).
Proof. apply quiet_get. intros s. apply quiet_stringLoop. Qed.

Create HintDb quiet discriminated.
#[export] Hint Resolve quiet_setMode quiet_error quiet_getNext quiet_consumeExpected quiet_consumeIf
  quiet_skipPastEOL quiet_consumeStrings : quiet.

(** Walk through code that only consumes tokens and reports errors. *)
Ltac quiet_step :=
  match goal with
  | |- quiet (bind get _) _ => apply quiet_get; intros ?
  | |- quiet (bind _ _) _ => eapply quiet_bind; [solve [eauto with quiet]|intros ? ?]
  | |- quiet (ret _) _ => apply quiet_ret
  | |- quiet (if ?b then _ else _) _ => destruct b
  | |- quiet _ _ => solve [eauto with quiet]
  end.

Definition value_ok (r : option (Token * Token)) : Prop :=
  match r with Some (_, v) => is_string v = true | None => True end.

Lemma quiet_binding : quiet parseBindingInternal value_ok.
Proof.
  unfold parseBindingInternal. repeat quiet_step; cbn; try done; by apply bool_decide_eq_true_2.
Qed.
#[export] Hint Resolve quiet_binding : quiet.

(** [m] may be called in phase [ph] and leaves the phase [q]. *)
Definition moves {A} (m : P A) (ph : Phase) (Q : A -> Phase) : Prop :=
  forall s, ph <> Done -> in_phase ph s -> post m s (fun a s' => in_phase (Q a) s').

Lemma moves_quiet_bind {A B} (m : P A) (f : A -> P B) R ph Q :
  quiet m R -> (forall a, R a -> moves (f a) ph Q) -> moves (bind m f) ph Q.
Proof.
  intros Hm Hf s Hd Hs. eapply post_bind; [apply Hm; unfold in_phase in Hs; congruence|].
  intros a s1 [E HR]. apply (Hf a HR); [done|]. unfold in_phase in *. congruence.
Qed.
Lemma moves_bind {A B} (m : P A) (f : A -> P B) ph Q1 Q :
  moves m ph Q1 -> (forall a, Q1 a <> Done) -> (forall a, moves (f a) (Q1 a) Q) -> moves (bind m f) ph Q.
Proof. intros Hm Hn Hf s Hd Hs. eapply post_bind; [by apply Hm|]. intros a s1 H1. by apply Hf. Qed.
Lemma moves_get {B} (f : PState -> P B) ph Q : (forall s, moves (f s) ph Q) -> moves (bind get f) ph Q.
Proof. intros H s Hd Hs. by apply post_bind_get, H. Qed.
Lemma moves_ret {A} (a : A) ph Q : Q a = ph -> moves (ret a) ph Q.
Proof. intros <- s _ Hs. by apply post_ret. Qed.
Lemma moves_fail {A} e ph (Q : A -> Phase) : moves (fail e) ph Q.
Proof. intros s _ _. apply post_fail. Qed.
Lemma moves_quiet {A} (m : P A) R ph : quiet m R -> moves m ph (fun _ => ph).
Proof.
  intros Hm s Hd Hs. unfold in_phase in *. eapply post_mono; [apply Hm; congruence|]. intros a s' [E _]. congruence.
Qed.
Lemma moves_act e ph ph' : call ph e = Some ph' -> moves (act e) ph (fun _ => ph').
Proof. intros E s _ Hs. apply post_modify. unfold in_phase in *. by rewrite phase_act, Hs. Qed.

Ltac moves_step :=
  match goal with
  | |- moves (bind get _) _ _ => apply moves_get; intros ?
  | |- moves (bind (act _) _) _ _ => eapply moves_bind; [apply moves_act| |intros ?]
  | |- moves (act _) _ _ => apply moves_act
  | |- moves (bind _ _) _ _ => eapply moves_quiet_bind; [solve [eauto with quiet]|intros ? ?]
  | |- moves (ret _) _ _ => apply moves_ret
  | |- moves (if ?b then _ else _) _ _ => destruct b eqn:?
  | |- moves _ _ _ => solve [eapply moves_quiet; eauto with quiet]
  end.

(** Strings read where a string was seen. *)
Lemma moves_strings {B} (f : list Token -> P B) (m : P B) ph Q :
  moves m ph Q ->
  (forall l, forallb is_string l = true -> (0 < length l)%nat -> moves (f l) ph Q) ->
  moves (s <~ get; if negb (is_kind String_ s) then m else l <~ consumeStrings; f l) ph Q.
Proof.
  intros Hm Hf s Hd Hs. assert (Hp : phase s <> Some Done) by (unfold in_phase in Hs; congruence).
  apply post_bind_get. destruct (is_kind String_ s) eqn:Hk; cbn [negb]; [|by apply Hm].
  eapply post_bind with (Q1 := fun l s' => phase s' = phase s /\ forallb is_string l = true /\ (0 < length l)%nat).
  - apply post_bind_get. unfold left. generalize (S (length (bufferPos (lexer s)))) as n. intros n. cbn [stringLoop]. apply post_bind_get. rewrite Hk.
    eapply post_bind; [by apply quiet_consumeExpected|]. intros t s1 [E1 Ht].
    eapply post_bind; [apply quiet_stringLoop; congruence|]. intros l s2 [E2 Hl]. apply post_ret.
    split; [congruence|]. cbn. split; [|lia]. unfold is_string at 1. by rewrite bool_decide_eq_true_2, Hl.
  - intros l s1 (E & Hl & H0). apply Hf; [done..|]. unfold in_phase in *. congruence.
Qed.

Lemma quiet_optional (p : bool) : quiet (if p then consumeStrings else ret []) (fun l => forallb is_string l = true).
Proof. destruct p; [apply quiet_consumeStrings|by apply quiet_ret]. Qed.
#[export] Hint Resolve quiet_optional : quiet.

Definition opened (ph : Phase) (b : bool) : Phase := if b then ph else Outside.

Lemma error_mode_moves m (Q : bool -> Phase) ph : Q false = ph ->
  moves (error m ;;; lexerSetMode ModeNone ;;; ret false) ph Q.
Proof. intros E. by repeat moves_step. Qed.

Lemma parseBuildSpecifier_moves : moves parseBuildSpecifier Outside (opened InBuild).
Proof.
  unfold parseBuildSpecifier. do 2 moves_step. apply moves_strings; [by apply error_mode_moves|]. intros outs Ho Hl.
  moves_step. eapply moves_quiet_bind; [apply quiet_optional|]. intros imps Hi. moves_step.
  destruct (negb _); [by apply error_mode_moves|]. do 4 moves_step.
  destruct (negb _); [by apply error_mode_moves|]. do 3 moves_step.
  eapply moves_quiet_bind; [apply quiet_optional|]. intros impi Hii. moves_step.
  eapply moves_quiet_bind; [apply quiet_optional|]. intros oo Hoo. do 2 moves_step.
  moves_step; [by repeat moves_step|]. 
  eapply (moves_bind _ _ _ (fun _ => InBuild)); [apply moves_act|done|intros []; by apply moves_ret].
  cbn beta in *. cbn [call]. rewrite !forallb_app, !length_app.
  repeat match goal with H : forallb _ _ = true |- _ => rewrite H; clear H end. cbn [andb].
  rewrite !(proj2 (Nat.ltb_lt _ _)), !(proj2 (Nat.leb_le _ _)) by lia. done.
Qed.

Lemma parseNamed_moves kw what ev ph : ph <> Done -> (forall t, call Outside (ev t) = Some ph) ->
  moves (parseNamedSpecifier kw what ev) Outside (opened ph).
Proof. intros Hd E. unfold parseNamedSpecifier. repeat moves_step; done. Qed.

Definition phase_of (k : Kind) : Phase := match k with KWBuild => InBuild | KWPool => InPool | _ => InRule end.

Lemma quiet_skipIndented fuel : quiet (skipIndented fuel) (fun _ => True).
Proof.
  induction fuel as [|fuel IH]; [apply quiet_fail|]. cbn [skipIndented]. repeat quiet_step; done.
Qed.

Lemma bindingLoop_moves k fuel : moves (bindingLoop fuel k) (phase_of k) (fun _ => phase_of k).
Proof.
  induction fuel as [|fuel IH]; [apply moves_fail|]. cbn [bindingLoop]. moves_step. moves_step; [by moves_step|].
  do 3 moves_step. moves_step; [do 2 moves_step; exact IH|].
  eapply moves_quiet_bind; [apply quiet_binding|]. intros [[n v]|] Hv; cbn in Hv.
  - eapply (moves_bind _ _ _ (fun _ => phase_of k)); [|by destruct k|intros []; exact IH].
    apply moves_act. by destruct k; cbn; rewrite Hv.
  - eapply (moves_bind _ _ _ (fun _ => phase_of k)); [by apply moves_ret|by destruct k|intros []; exact IH].
Qed.

Lemma parseParameterized_moves : moves parseParameterizedDecl Outside (fun _ => Outside).
Proof.
  unfold parseParameterizedDecl. moves_step. set (k := tokenKind (tok s)).
  eapply moves_bind with (Q1 := opened (phase_of k)).
  - destruct k; try apply moves_fail; [apply parseBuildSpecifier_moves|by apply parseNamed_moves..].
  - intros []; [by destruct k|done].
  - intros b. moves_step. destruct b; cbn [negb opened].
    + eapply moves_bind; [apply bindingLoop_moves|by destruct k|]. intros []. apply moves_act. by destruct k.
    + eapply moves_quiet, quiet_skipIndented.
Qed.

Lemma parseDecl_moves : moves parseDecl Outside (fun _ => Outside).
Proof.
  unfold parseDecl. moves_step.
  assert (Herr : moves (error "unexpected token" ;;; skipPastEOL) Outside (fun _ => Outside)) by by repeat moves_step.
  destruct (tokenKind (tok s)); try exact Herr; try apply parseParameterized_moves.
  - unfold parseBindingDecl. eapply moves_quiet_bind; [apply quiet_binding|]. intros [[n v]|] Hv; cbn in Hv.
    + apply moves_act. cbn. by rewrite Hv.
    + by apply moves_ret.
  - unfold parseDefaultDecl. do 4 moves_step. destruct a1 as [|t l] eqn:E; repeat moves_step.
    cbn [call]. by rewrite <- E in *; match goal with H : forallb _ _ = true |- _ => rewrite H end.
  - unfold parseIncludeDecl. repeat moves_step. cbn. unfold is_string. by rewrite bool_decide_eq_true_2.
  - unfold parseIncludeDecl. repeat moves_step. cbn. unfold is_string. by rewrite bool_decide_eq_true_2.
  - eapply moves_quiet. apply quiet_getNext.
Qed.

Lemma declLoop_moves fuel : moves (declLoop fuel) Outside (fun _ => Outside).
Proof.
  induction fuel as [|fuel IH]; [apply moves_fail|]. cbn [declLoop]. moves_step. moves_step; [by moves_step|].
  intros s1 Hd Hs. apply post_bind_ensure. intros _. revert s1 Hd Hs.
  change (moves (parseDecl ;;; declLoop fuel) Outside (fun _ => Outside)).
  eapply moves_bind; [apply parseDecl_moves|done|]. intros []. exact IH.
Qed.

Lemma parse_protocol data evs : parse data = Ok evs -> calls Start evs = Some Done.
Proof.
  unfold parse. set (s0 := mkPState _ _ _).
  assert (H : moves (getNextNonCommentToken ;;; act (BeginManifest "<main>") ;;;
         s <~ get; declLoop (left s) ;;; act EndManifest) Start (fun _ => Done)).
  { do 2 moves_step; [done..|]. moves_step. eapply moves_bind; [apply declLoop_moves|done|]. intros []. by apply moves_act. }
  revert H. generalize (getNextNonCommentToken ;;; act (BeginManifest "<main>") ;;;
         s <~ get; declLoop (left s) ;;; act EndManifest). intros m H.
  destruct (m s0) as [[[] s]|] eqn:E; [|done]. intros [= <-]. exact (H s0 ltac:(done) eq_refl _ _ E).
Qed.

(** ** Properties *)

(** The parser follows the protocol: a manifest is begun and ended once, every
    build, pool and rule declaration that was begun is ended before anything else
    is declared, bindings arrive inside their declaration, values and paths are
    string tokens, and the counts of explicit and implicit paths fit the paths
    of a build declaration, which has at least one explicit output. *)
Theorem parse_follows_protocol data evs : parse data = Ok evs -> calls Start evs = Some Done.
Proof. apply parse_protocol. Qed.

Lemma parse_follows_protocol_witness :
  exists evs, parse (chars_of "build a | x: cc b || c" ++ [LF] ++ chars_of "  k = v" ++ [LF]) = Ok evs
    /\ calls Start evs = Some Done.
Proof.
  eexists. split; [vm_compute; reflexivity|].
  apply (parse_follows_protocol (chars_of "build a | x: cc b || c" ++ [LF] ++ chars_of "  k = v" ++ [LF])).
  vm_compute. reflexivity.
Defined.
