(* ===== verification/NinjaPath.v ===== *)
(** * Canonical paths of Ninja nodes

    [Manifest::normalize_path] of lib/Ninja/Manifest.cpp, which rewrites a path in
    place with a reading and a writing position, and the functions of
    lib/llvm/Support/Path.cpp it calls, in their POSIX style.  The specification
    [canonical] splits the path into components and resolves [.] and [..]. *)

From Stdlib Require Import Ascii Lia.
From stdpp Require Import base list strings numbers.
From S2P Require Import Prelude Chars.

Local Open Scope char_scope.

Definition SLASH : ascii := "/".
Definition DOT : ascii := ".".
Definition is_separator (c : ascii) : bool := Ascii.eqb c SLASH.

(** ** Path queries (POSIX style) *)

(** The characters up to the first separator, and the rest. *)
Fixpoint until_separator (l : chars) : chars :=
  match l with
  | [] => []
  | c :: l' => if is_separator c then [] else c :: until_separator l'
  end.

Definition find_first_component (path : chars) : chars :=
  match path with
  | [] => []
  | c :: rest =>
      match rest with
      | d :: e :: r =>
          if is_separator c && Ascii.eqb c d && negb (is_separator e)
          then c :: d :: until_separator (e :: r)
          else if is_separator c then [c] else until_separator path
      | _ => if is_separator c then [c] else until_separator path
      end
  end.

Definition has_net (b : chars) : bool :=
  match b with
  | c :: d :: _ :: _ => is_separator c && Ascii.eqb d c
  | _ => false
  end.
Definition starts_with_separator (p : chars) : bool :=
  match p with c :: _ => is_separator c | [] => false end.

Definition root_name (path : chars) : chars :=
  let b := find_first_component path in if has_net b then b else [].

(** The component after [//net] is the separator that ended it. *)
Definition root_directory (path : chars) : chars :=
  let b := find_first_component path in
  if has_net b then take 1 (drop (length b) path)
  else if starts_with_separator b then b else [].

Definition root_path (path : chars) : chars :=
  let b := find_first_component path in
  if has_net b then b ++ take 1 (drop (length b) path)
  else if starts_with_separator b then b else [].
Definition relative_path (path : chars) : chars := drop (length (root_path path)) path.

Definition has_root_directory (p : chars) : bool := bool_decide (root_directory p <> []).
Definition has_root_name (p : chars) : bool := bool_decide (root_name p <> []).
Definition is_absolute (p : chars) : bool := has_root_directory p.

Fixpoint skip_separators (l : chars) : chars :=
  match l with
  | [] => []
  | c :: l' => if is_separator c then skip_separators l' else l
  end.

(** One component of the loop of [append]. *)
Definition append (path component : chars) : chars :=
  match list.last path with
  | Some c =>
      if is_separator c then path ++ skip_separators component
      else if starts_with_separator component || has_root_name component then path ++ component
      else path ++ SLASH :: component
  | None => component
  end.

Definition make_absolute (current_directory path : chars) : chars :=
  if has_root_directory path then path
  else append (append (append (append [] (root_name path)) (root_directory current_directory))
                 (relative_path current_directory)) (relative_path path).

(** ** The normalization loop

    [buf] is the path after its root name, [src] and [dst] are the offsets of
    [src_it] and [dst_it] from [begin], and [length buf] that of [end]. *)

Definition rd (buf : chars) (i : nat) : outcome ascii :=
  match buf !! i with Some c => Ok c | None => Crash (OutOfBounds "path") end.
Definition wr (buf : chars) (i : nat) (c : ascii) : outcome chars :=
  if (i <? length buf)%nat then Ok (<[i := c]> buf) else Crash (OutOfBounds "path").

(** The loop that moves the destination back to just after a slash, or to [begin]. *)
Fixpoint to_previous (buf : chars) (dst : nat) : outcome nat :=
  match dst with
  | O => Ok O
  | S d => obind (rd buf dst) (fun c => if is_separator c then Ok (S dst) else to_previous buf d)
  end.

(** Move the destination to the previous directory. *)
Definition drop_directory (buf : chars) (dst : nat) : outcome (chars * nat) :=
  if (dst <=? 1)%nat then Ok (buf, dst)
  else obind (to_previous buf (dst - 2)) (fun d =>
    if (d =? 0)%nat then obind (wr buf d SLASH) (fun buf' => Ok (buf', 1%nat)) else Ok (buf, d)).

(** Store a slash unless the destination already ends in one. *)
Definition put_slash (buf : chars) (dst : nat) : outcome (chars * nat) :=
  if (dst =? 0)%nat then obind (wr buf dst SLASH) (fun b => Ok (b, S dst))
  else obind (rd buf (dst - 1)) (fun c =>
    if is_separator c then Ok (buf, dst) else obind (wr buf dst SLASH) (fun b => Ok (b, S dst))).

Fixpoint normalize_loop (fuel : nat) (buf : chars) (src dst : nat) : outcome (chars * nat) :=
  match fuel with
  | O => Crash OutOfFuel
  | S fuel' =>
      let size := length buf in
      if (size <=? src)%nat then Ok (buf, dst) else
      obind (rd buf src) (fun c =>
      if negb (is_separator c)
      then obind (wr buf dst c) (fun b => normalize_loop fuel' b (S src) (S dst))
      else
      obind (put_slash buf dst) (fun '(buf, dst) =>
      if (size <=? src + 1)%nat then Ok (buf, dst) else
      obind (rd buf (src + 1)) (fun c1 =>
      if negb (Ascii.eqb c1 DOT) then normalize_loop fuel' buf (S src) dst
      else if (size <=? src + 2)%nat then normalize_loop fuel' buf (src + 2) dst
      else
      obind (rd buf (src + 2)) (fun c2 =>
      if negb (Ascii.eqb c2 DOT) then
        if is_separator c2 then normalize_loop fuel' buf (src + 2) dst
        else obind (wr buf dst c1) (fun b => normalize_loop fuel' b (src + 2) (S dst))
      else
      obind (if (src + 3 <? size)%nat then rd buf (src + 3) else Ok SLASH) (fun c3 =>
      if negb (is_separator c3) then normalize_loop fuel' buf (S src) dst
      else
      obind (drop_directory buf dst) (fun '(buf, dst) =>
      if (src + 3 <? size)%nat then normalize_loop fuel' buf (src + 3) dst
      else Ok (buf, dst)))))))
  end.

(** The normalized path; [None] where the code returns [false]. *)
Definition normalize_path (workingDirectory path : chars) : outcome (option chars) :=
  let tmp := make_absolute workingDirectory path in
  if bool_decide (tmp = []) || negb (is_absolute tmp) then Ok None
  else
    let name := root_name tmp in
    let buf := drop (length name) tmp in
    obind (normalize_loop (S (length buf)) buf 0 0) (fun '(buf, dst) =>
      Ok (Some (name ++ take dst buf))).

(** ** Specification *)

(** The components of a path, in order. *)
Fixpoint components_from (c : chars) (l : chars) : list chars :=
  match l with
  | [] => [c]
  | x :: l' => if is_separator x then c :: components_from [] l' else components_from (c ++ [x]) l'
  end.
(** Of a path that starts with a separator. *)
Definition components (path : chars) : list chars :=
  match path with [] => [] | _ :: l => components_from [] l end.

(** Follow one component: the directories entered so far, innermost first, and
    whether the path ends in a separator. *)
Definition follow (d : list chars * bool) (c : chars) : list chars * bool :=
  if bool_decide (c = []) || bool_decide (c = [DOT]) then (d.1, true)
  else if bool_decide (c = [DOT; DOT]) then (tail d.1, true)
  else (c :: d.1, false).
Definition resolve (cs : list chars) : list chars * bool := fold_left follow cs ([], false).

Definition render (d : list chars * bool) : chars :=
  concat (map (cons SLASH) (rev d.1)) ++ (if d.2 then [SLASH] else []).
Definition canonical (path : chars) : chars := render (resolve (components path)).

(** ** The loop without its buffer

    [out] is what the loop has written, last character first. *)

Definition slashed (out : chars) : chars := if starts_with_separator out then out else SLASH :: out.

Fixpoint until_slash (l : chars) : chars :=
  match l with
  | [] => []
  | c :: l' => if is_separator c then l else until_slash l'
  end.
Definition parent (out : chars) : chars :=
  if (length out <=? 1)%nat then out
  else let r := until_slash (tail out) in if (length r <=? 1)%nat then [SLASH] else r.

Fixpoint norm (fuel : nat) (out rest : chars) : chars :=
  match fuel with
  | O => out
  | S fuel' =>
      match rest with
      | [] => out
      | c :: r =>
          if negb (is_separator c) then norm fuel' (c :: out) r
          else match r with
          | [] => slashed out
          | c1 :: r1 =>
              if negb (Ascii.eqb c1 DOT) then norm fuel' (slashed out) r
              else match r1 with
              | [] => slashed out
              | c2 :: r2 =>
                  if negb (Ascii.eqb c2 DOT) then
                    if is_separator c2 then norm fuel' (slashed out) r1
                    else norm fuel' (c1 :: slashed out) r1
                  else match r2 with
                  | [] => parent (slashed out)
                  | c3 :: _ =>
                      if negb (is_separator c3) then norm fuel' (slashed out) r
                      else norm fuel' (parent (slashed out)) r2
                  end
              end
          end
      end
  end.

Lemma rd_ok buf i c r : drop i buf = c :: r -> rd buf i = Ok c.
Proof. intros E. unfold rd. by rewrite <- (Nat.add_0_r i), <- lookup_drop, E. Qed.

Lemma drop_next (buf : chars) i c r : drop i buf = c :: r -> drop (S i) buf = r.
Proof. intros E. rewrite <- Nat.add_1_r, <- drop_drop, E. done. Qed.

Lemma drop_length_cons (buf : chars) i c r : drop i buf = c :: r -> (i + S (length r) = length buf)%nat.
Proof. intros E. apply (f_equal length) in E. rewrite length_drop in E. cbn in E. lia. Qed.

(** Writing at [dst] extends what was written and leaves what is still to be read. *)
Lemma wr_ok buf dst src c : (dst <= src)%nat -> (src < length buf)%nat ->
  exists buf', wr buf dst c = Ok buf' /\ length buf' = length buf
    /\ take (S dst) buf' = take dst buf ++ [c] /\ drop (S src) buf' = drop (S src) buf.
Proof.
  intros H1 H2. unfold wr. rewrite (proj2 (Nat.ltb_lt _ _)) by lia. eexists. split; [done|].
  rewrite length_insert. split; [done|]. split.
  - rewrite (take_S_r _ _ c) by (apply list_lookup_insert_eq; lia). by rewrite take_insert_ge by lia.
  - apply drop_insert_lt. lia.
Qed.

Definition at_ (buf : chars) (src dst : nat) (out rest : chars) : Prop :=
  (dst <= src)%nat /\ take dst buf = rev out /\ drop src buf = rest.

Lemma out_length (buf : chars) dst out : (dst <= length buf)%nat -> take dst buf = rev out -> length out = dst.
Proof. intros H E. apply (f_equal length) in E. rewrite length_take, length_rev in E. lia. Qed.

Lemma last_written (buf : chars) dst out : (0 < dst)%nat -> (dst <= length buf)%nat -> take dst buf = rev out ->
  exists c o, out = c :: o /\ rd buf (dst - 1) = Ok c /\ take (dst - 1) buf = rev o.
Proof.
  intros H0 H E. pose proof (out_length _ _ _ H E) as Hl. destruct out as [|c o]; [cbn in Hl; lia|].
  exists c, o. split; [done|]. cbn [rev length] in *.
  assert (Ht : take (dst - 1) buf = rev o).
  { replace (take (dst - 1) buf) with (take (dst - 1) (take dst buf)) by (rewrite take_take; f_equal; lia).
    rewrite E. rewrite take_app_le by (rewrite length_rev; lia). apply take_ge. rewrite length_rev. lia. }
  split; [|done]. unfold rd. assert (Hc : take dst buf !! (dst - 1)%nat = Some c).
  { rewrite E, lookup_app_r by (rewrite length_rev; lia). rewrite length_rev.
    by replace (dst - 1 - length o)%nat with 0%nat by lia. }
  rewrite lookup_take_lt in Hc by lia. by rewrite Hc.
Qed.

Lemma put_slash_ok buf src dst out r : at_ buf src dst out (SLASH :: r) ->
  exists buf' dst', put_slash buf dst = Ok (buf', dst') /\ length buf' = length buf
    /\ at_ buf' (S src) dst' (slashed out) r.
Proof.
  intros (H1 & H2 & H3). pose proof (drop_length_cons _ _ _ _ H3) as Hl. pose proof (drop_next _ _ _ _ H3) as Hn.
  assert (Hw : exists buf' : chars, wr buf dst SLASH = Ok buf' /\ length buf' = length buf
      /\ at_ buf' (S src) (S dst) (SLASH :: out) r).
  { destruct (wr_ok buf dst src SLASH H1) as (b & E & Hb & Ht & Hd); [lia|]. exists b. split; [done|].
    split; [done|]. split; [lia|]. cbn [rev]. by rewrite Ht, H2, Hd. }
  destruct Hw as (b & E & Hb & Ha). unfold put_slash, slashed. destruct (Nat.eqb_spec dst 0) as [->|Hd].
  - destruct out; [|apply (f_equal length) in H2; by rewrite length_rev in H2]. cbn [starts_with_separator].
    rewrite E. cbn [obind]. by exists b, 1%nat.
  - destruct (last_written buf dst out) as (c & o & -> & Hc & _); [lia|lia|done|]. rewrite Hc. cbn [obind starts_with_separator].
    destruct (is_separator c); [exists buf, dst; split; [done|]; split; [done|]; split; [lia|done]|].
    rewrite E. cbn [obind]. by exists b, (S dst).
Qed.

Lemma until_slash_app l : exists w, l = w ++ until_slash l.
Proof.
  induction l as [|c l [w IH]]; [by exists []|]. cbn [until_slash]. destruct (is_separator c); [by exists []|].
  exists (c :: w). cbn [app]. by rewrite <- IH.
Qed.

Lemma to_previous_ok buf d : (d < length buf)%nat ->
  to_previous buf d = Ok (let r := length (until_slash (rev (take (S d) buf))) in if (r <=? 1)%nat then 0%nat else r).
Proof.
  induction d as [|d IH]; intros Hd.
  - destruct buf as [|c buf]; [cbn in Hd; lia|]. cbn [to_previous]. rewrite firstn_cons, take_0. cbn [rev app until_slash].
    by destruct (is_separator c).
  - cbn [to_previous]. unfold rd at 1. destruct (lookup_lt_is_Some_2 buf (S d) Hd) as [c Hc].
    rewrite Hc. cbn [obind]. rewrite (take_S_r _ _ _ Hc), rev_app_distr. cbn [rev app until_slash].
    destruct (is_separator c); [|by rewrite IH by lia].
    cbn zeta. cbn [length]. rewrite length_rev, length_take. rewrite (proj2 (Nat.leb_gt _ _)) by lia. f_equal. lia.
Qed.

Lemma drop_directory_ok buf src dst out rest : (src <= length buf)%nat -> at_ buf src dst out rest ->
  exists buf' dst', drop_directory buf dst = Ok (buf', dst') /\ length buf' = length buf
    /\ at_ buf' src dst' (parent out) rest.
Proof.
  intros Hl (H1 & H2 & H3). pose proof (out_length buf dst out ltac:(lia) H2) as Hlen. unfold drop_directory, parent. rewrite Hlen.
  destruct (dst <=? 1)%nat eqn:E1; [by exists buf, dst|]. apply Nat.leb_gt in E1.
  destruct (last_written buf dst out) as (c & o & -> & _ & Ho); [lia|lia|done|]. cbn [tail].
  rewrite to_previous_ok by lia. replace (S (dst - 2)) with (dst - 1)%nat by lia. rewrite Ho, rev_involutive.
  cbn [obind] in *. cbn zeta. destruct (length (until_slash o) <=? 1)%nat eqn:E2.
  - cbn [Nat.eqb]. destruct (wr_ok buf 0 (src - 1) SLASH) as (b & E & Hb & Ht & Hd); [lia|lia|].
    rewrite E. exists b, 1%nat. split; [done|]. split; [done|]. split; [lia|]. split; [by rewrite Ht|].
    replace (S (src - 1)) with src in Hd by lia. by rewrite Hd.
  - apply Nat.leb_gt in E2. destruct (until_slash_app o) as [w Hw].
    destruct (Nat.eqb_spec (length (until_slash o)) 0); [lia|]. exists buf, (length (until_slash o)).
    assert (Hlo : length o = (length w + length (until_slash o))%nat) by (rewrite <- length_app; congruence).
    cbn in Hlen. split; [done|]. split; [done|]. split; [lia|]. split; [|done].
    replace (take (length (until_slash o)) buf) with (take (length (until_slash o)) (take (dst - 1) buf))
      by (rewrite take_take; f_equal; lia).
    rewrite Ho. replace (rev o) with (rev (until_slash o) ++ rev w) by (rewrite <- rev_app_distr; congruence).
    rewrite take_app_le by (rewrite length_rev; lia).
    rewrite take_ge; [done|]. rewrite length_rev. lia.
Qed.

(** The loop terminates, stays inside the buffer and computes [norm]. *)
Lemma loop_norm fuel : forall buf src dst out rest,
  (src <= length buf)%nat -> (length rest < fuel)%nat -> at_ buf src dst out rest ->
  exists buf' dst', normalize_loop fuel buf src dst = Ok (buf', dst') /\ take dst' buf' = rev (norm fuel out rest).
Proof.
  induction fuel as [|fuel IH]; intros buf src dst out rest Hs Hf Ha; [lia|].
  cbn [normalize_loop norm]. pose proof Ha as (H1 & H2 & H3).
  destruct rest as [|c r].
  { rewrite (proj2 (Nat.leb_le _ _)); [by exists buf, dst|]. apply (f_equal length) in H3.
    rewrite length_drop in H3. cbn in H3. lia. }
  pose proof (drop_length_cons _ _ _ _ H3) as Hl. cbn [length] in Hf. rewrite (proj2 (Nat.leb_gt _ _)) by lia.
  rewrite (rd_ok _ _ _ _ H3). cbn [obind].
  destruct (is_separator c) eqn:Hc; cbn [negb].
  2: {
       destruct (wr_ok buf dst src c H1) as (b & E & Hb & Ht & Hd); [lia|]. rewrite E. cbn [obind].
       apply IH; [lia|lia|]. split; [lia|]. cbn [rev]. rewrite Ht, H2, Hd. split; [done|].
       by eapply drop_next. }
  apply Ascii.eqb_eq in Hc as ->.
  destruct (put_slash_ok _ _ _ _ _ Ha) as (b & d & E & Hb & Ha'). rewrite E. cbn [obind]. clear E H1 H2 H3 Ha.
  replace (src + 1)%nat with (S src) by lia. rewrite <- Hb in Hl |- *.
  pose proof Ha' as (H1 & H2 & H3). destruct r as [|c1 r1].
  { rewrite (proj2 (Nat.leb_le _ _)) by (cbn in Hl; lia). exists b, d. done. }
  cbn [length] in Hl, Hf. rewrite (proj2 (Nat.leb_gt _ _)) by lia. rewrite (rd_ok _ _ _ _ H3). cbn [obind].
  destruct (Ascii.eqb_spec c1 DOT) as [->|Hc1]; cbn [negb]; [|apply IH; [lia|cbn; lia|done]].
  assert (Hn : drop (src + 2) b = r1) by (replace (src + 2)%nat with (S (S src)) by lia; by eapply drop_next).
  destruct r1 as [|c2 r2].
  { rewrite (proj2 (Nat.leb_le _ _)) by (cbn in Hl; lia).
    destruct (IH b (src + 2)%nat d (slashed out) []) as (b' & d' & E & HQ);
      [lia|cbn; lia|split; [lia|done]|]. exists b', d'. split; [done|].
    rewrite HQ. by destruct fuel. }
  cbn [length] in Hl, Hf. rewrite (proj2 (Nat.leb_gt _ _)) by lia. rewrite (rd_ok _ _ _ _ Hn). cbn [obind].
  destruct (Ascii.eqb_spec c2 DOT) as [->|Hc2]; cbn [negb].
  2: { destruct (is_separator c2); [apply IH; [lia|cbn; lia|split; [lia|done]]|].
       destruct (wr_ok b d (S src) DOT H1) as (b' & E & Hb' & Ht & Hd); [lia|]. rewrite E. cbn [obind].
       apply IH; [lia|cbn; lia|]. split; [lia|]. cbn [rev]. rewrite Ht, H2. split; [done|].
       replace (src + 2)%nat with (S (S src)) by lia. rewrite Hd. by replace (S (S src)) with (src + 2)%nat by lia. }
  assert (Hn3 : drop (src + 3) b = r2) by (replace (src + 3)%nat with (S (src + 2)) by lia; by eapply drop_next).
  destruct r2 as [|c3 r3]; cbn [length] in Hl, Hf.
  - rewrite (proj2 (Nat.ltb_ge _ _)) by lia. cbn [obind]. change (is_separator SLASH) with true. cbn [negb].
    destruct (drop_directory_ok b (S src) d _ _ ltac:(lia) Ha') as (b' & d' & E & Hb' & Ha3).
    rewrite E. cbn [obind]. exists b', d'. split; [done|]. apply Ha3.
  - rewrite (proj2 (Nat.ltb_lt _ _)) by lia. rewrite (rd_ok _ _ _ _ Hn3). cbn [obind].
    destruct (is_separator c3) eqn:Hc3; cbn [negb]; [|apply IH; [lia|cbn; lia|done]].
    destruct (drop_directory_ok b (src + 3) d (slashed out) (c3 :: r3)) as (b' & d' & E & Hb' & Ha3);
      [lia|split; [lia|done]|]. rewrite E. cbn [obind]. apply IH; [lia|cbn; lia|done].
Qed.

(** ** The loop follows the components *)

Definition plain (c : chars) : Prop := Forall (fun x => is_separator x = false) c.
(** A path made of components. *)
Definition unsplit (cs : list chars) : chars := concat (map (cons SLASH) cs).
Definition directories (ds : list chars) : Prop := Forall (fun c => c <> [] /\ plain c) ds.

Lemma norm_copy c : plain c -> forall fuel out t, (length (c ++ t) < fuel)%nat ->
  exists fuel', (length t < fuel')%nat /\ norm fuel out (c ++ t) = norm fuel' (rev c ++ out) t.
Proof.
  induction 1 as [|x c Hx _ IH]; intros fuel out t Hf; [by exists fuel|].
  destruct fuel as [|fuel]; [cbn in Hf; lia|]. cbn [app norm]. rewrite Hx. cbn [negb].
  destruct (IH fuel (x :: out) t) as (f & Hf' & E); [cbn in Hf; lia|]. exists f. split; [done|].
  rewrite E. cbn [rev]. by rewrite <- app_assoc.
Qed.

Lemma render_true ds : rev (render (ds, true)) = SLASH :: rev (render (ds, false)).
Proof. unfold render. cbn [fst snd]. rewrite app_nil_r, rev_app_distr. done. Qed.

Lemma render_cons c ds : rev (render (c :: ds, false)) = rev c ++ rev (render (ds, true)).
Proof.
  rewrite render_true. unfold render. cbn [fst snd rev]. rewrite map_app, concat_app, !app_nil_r.
  cbn [map concat]. rewrite app_nil_r, rev_app_distr. cbn [rev]. by rewrite <- app_assoc.
Qed.

Lemma slashed_render d : directories d.1 -> slashed (rev (render d)) = rev (render (d.1, true)).
Proof.
  destruct d as [ds b]. cbn [fst]. intros Hd. rewrite render_true. unfold slashed. destruct b; [by rewrite render_true|].
  destruct Hd as [|c ds [Hne Hc] _]; [done|]. rewrite render_cons.
  destruct c as [|x c _] using rev_ind; [done|]. rewrite rev_app_distr. cbn [rev app starts_with_separator].
  apply Forall_app in Hc as [_ Hx]. inversion Hx as [|? ? Hs]; subst. by rewrite Hs.
Qed.

Lemma until_slash_plain w r : plain w -> until_slash (w ++ SLASH :: r) = SLASH :: r.
Proof. induction 1 as [|x w Hx _ IH]; [done|]. cbn [app until_slash]. by rewrite Hx. Qed.

Lemma parent_render ds : directories ds -> parent (rev (render (ds, true))) = rev (render (tail ds, true)).
Proof.
  intros Hd. rewrite !render_true. destruct Hd as [|c ds [Hne Hc] _]; [done|]. cbn [tail].
  rewrite render_cons, render_true. unfold parent. cbn [length tail].
  rewrite until_slash_plain by by apply Forall_rev. rewrite (proj2 (Nat.leb_gt _ _)) by (rewrite length_app; cbn; lia).
  cbn zeta. cbn [length]. by destruct (rev (render (ds, false))).
Qed.

(** The possible components, as the loop distinguishes them. *)
Inductive form : chars -> Prop :=
| FEmpty : form []
| FDot : form [DOT]
| FDotDot : form [DOT; DOT]
| FName x c : x <> DOT -> form (x :: c)
| FHidden y c : y <> DOT -> form (DOT :: y :: c)
| FDotsName z c : form (DOT :: DOT :: z :: c).

Lemma form_of c : form c.
Proof.
  destruct c as [|x c]; [constructor|]. destruct (decide (x = DOT)) as [->|]; [|by constructor].
  destruct c as [|y c]; [constructor|]. destruct (decide (y = DOT)) as [->|]; [|by constructor].
  destruct c; [constructor|apply FDotsName].
Qed.

Lemma follow_directories d c : directories d.1 -> plain c -> directories (follow d c).1.
Proof.
  intros Hd Hc. unfold follow. repeat case_bool_decide; cbn; try done.
  - destruct Hd; [constructor|done].
  - constructor; done.
Qed.

Lemma norm_step fuel d c t : directories d.1 -> plain c -> (t = [] \/ exists r, t = SLASH :: r) ->
  (length (SLASH :: c ++ t) < fuel)%nat ->
  exists fuel', (length t < fuel')%nat /\
    norm fuel (rev (render d)) (SLASH :: c ++ t) = norm fuel' (rev (render (follow d c))) t.
Proof.
  intros Hd Hc Ht Hf. destruct fuel as [|fuel]; [lia|]. cbn [norm]. change (is_separator SLASH) with true. cbn [negb].
  rewrite slashed_render by done.
  assert (Hcopy : forall out w, plain w -> (length (w ++ t) < fuel)%nat -> c <> [] -> c <> [DOT] -> c <> [DOT; DOT] ->
    rev w ++ out = rev c ++ rev (render (d.1, true)) ->
    exists fuel', (length t < fuel')%nat /\ norm fuel out (w ++ t) = norm fuel' (rev (render (follow d c))) t).
  { intros out w Hw Hl H1 H2 H3 E. destruct (norm_copy w Hw fuel out t Hl) as (f & Hf' & En). exists f.
    split; [done|]. rewrite En, E. unfold follow. rewrite !bool_decide_eq_false_2 by done. cbn [orb].
    by rewrite render_cons. }
  cbn [length] in Hf. rewrite length_app in Hf.
  destruct (form_of c); cbn [app length] in *.
  - destruct Ht as [->|[r ->]]; [exists 1%nat; split; [cbn; lia|done]|]. exists fuel. split; [lia|done].
  - rewrite Ascii.eqb_refl. cbn [negb]. destruct Ht as [->|[r ->]]; [exists 1%nat; split; [cbn; lia|done]|].
    exists fuel. split; [lia|done].
  - rewrite Ascii.eqb_refl. cbn [negb]. rewrite parent_render by done.
    destruct Ht as [->|[r ->]]; [exists 1%nat; split; [cbn; lia|done]|]. exists fuel. split; [lia|done].
  - rewrite (ascii_eqb_neq x DOT) by done. cbn [negb]. apply (Hcopy _ (x :: c)); try done; [cbn [app length]; rewrite length_app; lia|congruence..].
  - rewrite Ascii.eqb_refl. cbn [negb]. rewrite (ascii_eqb_neq y DOT) by done. cbn [negb].
    inversion Hc as [|? ? _ Hc']; subst. inversion Hc' as [|? ? Hy _]; subst. rewrite Hy.
    apply (Hcopy _ (y :: c)); try done; [cbn [app length]; rewrite length_app; lia|congruence|].
    cbn [rev]. by rewrite <- !app_assoc.
  - rewrite Ascii.eqb_refl. cbn [negb].
    inversion Hc as [|? ? _ Hc']; subst. inversion Hc' as [|? ? _ Hc'']; subst. inversion Hc'' as [|? ? Hz _]; subst.
    rewrite Hz. cbn [negb]. apply (Hcopy _ (DOT :: DOT :: z :: c)); try done. cbn [app length]. rewrite length_app. lia.
Qed.

Lemma unsplit_shape cs : unsplit cs = [] \/ exists r, unsplit cs = SLASH :: r.
Proof. destruct cs as [|c cs]; [by left|right]. by eexists. Qed.

Lemma norm_unsplit cs : Forall plain cs -> forall fuel d, directories d.1 -> (length (unsplit cs) < fuel)%nat ->
  norm fuel (rev (render d)) (unsplit cs) = rev (render (fold_left follow cs d)).
Proof.
  induction 1 as [|c cs Hc _ IH]; intros fuel d Hd Hf; [by destruct fuel|].
  change (unsplit (c :: cs)) with (SLASH :: c ++ unsplit cs) in *.
  destruct (norm_step fuel d c (unsplit cs) Hd Hc (unsplit_shape cs) Hf) as (f & Hf' & ->).
  cbn [fold_left]. apply IH; [by apply follow_directories|done].
Qed.

Lemma components_from_spec l : forall c, plain c ->
  Forall plain (components_from c l) /\ SLASH :: c ++ l = unsplit (components_from c l).
Proof.
  induction l as [|x l IH]; intros c Hc; cbn [components_from].
  - split; [by repeat constructor|]. by cbn.
  - destruct (is_separator x) eqn:Hx.
    + destruct (IH [] ltac:(constructor)) as [H1 H2]. split; [by constructor|].
      apply Ascii.eqb_eq in Hx as ->. change (unsplit (c :: ?cs)) with (SLASH :: c ++ unsplit cs). cbn [app] in H2.
      by rewrite H2.
    + destruct (IH (c ++ [x])) as [H1 H2]; [apply Forall_app; by repeat constructor|]. split; [done|].
      by rewrite <- H2, <- app_assoc.
Qed.

Lemma components_spec r : Forall plain (components (SLASH :: r)) /\ SLASH :: r = unsplit (components (SLASH :: r)).
Proof. apply (components_from_spec r []). constructor. Qed.

(** The whole loop, from the start of a path that begins with a separator. *)
Lemma normalize_canonical r : exists buf dst,
  normalize_loop (S (length (SLASH :: r))) (SLASH :: r) 0 0 = Ok (buf, dst) /\ take dst buf = canonical (SLASH :: r).
Proof.
  destruct (loop_norm (S (length (SLASH :: r))) (SLASH :: r) 0 0 [] (SLASH :: r)) as (b & d & E & Ht);
    [lia|lia|done|]. exists b, d. split; [done|]. rewrite Ht. destruct (components_spec r) as [Hp Hu].
  rewrite Hu at 2. change (@nil ascii) with (rev (render ([], false))).
  rewrite norm_unsplit; [|done|constructor|rewrite <- Hu; lia]. rewrite rev_involutive. done.
Qed.

(** ** Absolute paths *)

(** A network root such as [//net]. *)
Definition net (n : chars) : Prop := exists x w, n = SLASH :: SLASH :: x :: w /\ is_separator x = false /\ plain w.

(** An absolute path: a root name, a separator and the rest. *)
Inductive absolute : chars -> chars -> chars -> Prop :=
| AbsRoot r : (forall x r', r = SLASH :: x :: r' -> is_separator x = true) -> absolute (SLASH :: r) [] r
| AbsNet n r : net n -> absolute (n ++ SLASH :: r) n r.

Lemma until_separator_app l : exists t, l = until_separator l ++ t /\ plain (until_separator l)
  /\ (t = [] \/ exists r, t = SLASH :: r).
Proof.
  induction l as [|c l (t & E & Hp & Ht)]; cbn [until_separator].
  - exists []. split; [done|]. split; [constructor|by left].
  - destruct (is_separator c) eqn:Hc.
    + exists (c :: l). split; [done|]. split; [constructor|]. right. apply Ascii.eqb_eq in Hc as ->. by exists l.
    + exists t. split; [by rewrite E at 1|]. split; [by constructor|done].
Qed.

Lemma until_separator_plain w r : plain w -> until_separator (w ++ SLASH :: r) = w.
Proof. induction 1 as [|x w Hx _ IH]; [done|]. cbn [app until_separator]. by rewrite Hx, IH. Qed.

Lemma separator_inv c : is_separator c = true -> c = SLASH.
Proof. by intros H%Ascii.eqb_eq. Qed.

(** The shapes of the first component. *)
Lemma first_component_cases p :
  (exists n t, p = n ++ t /\ net n /\ find_first_component p = n /\ (t = [] \/ exists r, t = SLASH :: r))
  \/ (exists r, p = SLASH :: r /\ find_first_component p = [SLASH]
      /\ forall x r', r = SLASH :: x :: r' -> is_separator x = true)
  \/ (starts_with_separator p = false /\ starts_with_separator (find_first_component p) = false
      /\ has_net (find_first_component p) = false).
Proof.
  destruct p as [|c p]; [by right; right|]. destruct (is_separator c) eqn:Hc.
  - apply separator_inv in Hc as ->. destruct p as [|d [|e r]].
    + right. left. by exists [].
    + right. left. exists [d]. split; [done|]. split; [done|]. intros x r' [=].
    + destruct (Ascii.eqb_spec SLASH d) as [<-|Hd].
      * destruct (is_separator e) eqn:He.
        -- right. left. exists (SLASH :: e :: r). split; [done|]. cbn [find_first_component]. rewrite He. split; [done|].
           intros x r' [= <- _]. done.
        -- left. destruct (until_separator_app (e :: r)) as (t & E & Hp & Ht).
           assert (Eu : until_separator (e :: r) = e :: until_separator r) by (cbn [until_separator]; by rewrite He).
           rewrite Eu in E, Hp. exists (SLASH :: SLASH :: e :: until_separator r), t.
           split; [cbn [app] in *; congruence|]. split; [|split; [|done]].
           ++ exists e, (until_separator r). split; [done|]. split; [done|]. by inversion Hp.
           ++ cbn [find_first_component]. rewrite He. cbn [andb negb]. by rewrite Eu.
      * right. left. exists (d :: e :: r). split; [done|]. split.
        -- cbn [find_first_component]. rewrite (ascii_eqb_neq SLASH d) by done. rewrite andb_false_r. done.
        -- intros x r' [= -> _]. done.
  - right. right. split; [done|].
    assert (E : find_first_component (c :: p) = until_separator (c :: p)).
    { cbn [find_first_component]. destruct p as [|d [|e r]]; by rewrite Hc. }
    rewrite E. cbn [until_separator]. rewrite Hc. cbn [starts_with_separator]. split; [done|].
    unfold has_net. destruct (until_separator p) as [|? [|? ?]]; try done. by rewrite Hc.
Qed.

Lemma net_has_net n : net n -> has_net n = true.
Proof. intros (x & w & -> & _). done. Qed.

Lemma absolute_spec p n r : absolute p n r -> is_absolute p = true /\ root_name p = n.
Proof.
  intros Ha. unfold is_absolute, has_root_directory, root_directory, root_name.
  destruct Ha as [r Hr|n r (x & w & -> & Hx & Hw)].
  - assert (find_first_component (SLASH :: r) = [SLASH]) as ->; [|done].
    destruct r as [|d [|e r]]; [done..|]. cbn [find_first_component]. change (is_separator SLASH) with true. cbn [andb].
    destruct (Ascii.eqb_spec SLASH d) as [<-|]; [|done]. by rewrite (Hr e r eq_refl).
  - assert (find_first_component ((SLASH :: SLASH :: x :: w) ++ SLASH :: r) = SLASH :: SLASH :: x :: w) as ->.
    { cbn [app find_first_component]. rewrite Hx. cbn [andb negb]. change (is_separator SLASH && Ascii.eqb SLASH SLASH) with true.
      cbn [andb]. change (x :: w ++ SLASH :: r) with ((x :: w) ++ SLASH :: r).
      rewrite until_separator_plain; [done|by constructor]. }
    change (has_net (SLASH :: SLASH :: x :: w)) with true. cbn iota. rewrite drop_app_length. done.
Qed.

Lemma is_absolute_inv p : is_absolute p = true -> exists r, absolute p (root_name p) r.
Proof.
  unfold is_absolute, has_root_directory, root_directory, root_name. intros H%bool_decide_eq_true.
  destruct (first_component_cases p) as [(n & t & -> & Hn & Ef & Ht)|[(r & -> & Ef & Hr)|(Hs & Hf & Hb)]].
  - rewrite Ef in *. rewrite (net_has_net n Hn) in *. rewrite drop_app_length in H.
    destruct Ht as [->|[r ->]]; [done|]. exists r. by constructor.
  - rewrite Ef. exists r. by constructor.
  - by rewrite Hb, Hf in H.
Qed.

Lemma make_absolute_id wd p : is_absolute p = true -> make_absolute wd p = p.
Proof. unfold is_absolute, make_absolute. by intros ->. Qed.

Lemma append_extends p c : exists x, append p c = p ++ x.
Proof.
  unfold append. destruct (list.last p) as [y|] eqn:E.
  - destruct (is_separator y); [by eexists|]. destruct (_ || _); by eexists.
  - apply last_None in E as ->. by eexists.
Qed.

Lemma skip_separators_start l : starts_with_separator (skip_separators l) = false.
Proof. induction l as [|c l IH]; [done|]. cbn. destruct (is_separator c) eqn:E; [done|]. by cbn. Qed.

Lemma append_root c : exists x, append [SLASH] c = SLASH :: x /\ starts_with_separator x = false.
Proof. exists (skip_separators c). split; [done|apply skip_separators_start]. Qed.

Lemma root_start x : starts_with_separator x = false -> absolute (SLASH :: x) [] x.
Proof. intros H. constructor. intros y r ->. done. Qed.

(** A relative path is placed in an absolute directory. *)
Lemma make_absolute_absolute wd p : is_absolute wd = true ->
  exists r, absolute (make_absolute wd p) (root_name (make_absolute wd p)) r.
Proof.
  intros Hwd. unfold make_absolute. destruct (has_root_directory p) eqn:Hp; [by apply is_absolute_inv|].
  assert (Hd : root_directory wd = [SLASH]).
  { destruct (is_absolute_inv _ Hwd) as [r Ha]. unfold is_absolute, has_root_directory in Hwd.
    apply bool_decide_eq_true in Hwd. unfold root_directory in *.
    destruct (first_component_cases wd) as [(n & t & -> & Hn & Ef & Ht)|[(r' & -> & Ef & Hr)|(Hs & Hf & Hb)]].
    - rewrite Ef in *. rewrite (net_has_net n Hn), drop_app_length in *. by destruct Ht as [->|[? ->]].
    - by rewrite Ef.
    - by rewrite Hb, Hf in Hwd. }
  rewrite Hd. enough (Habs : exists n r, absolute (append (append (append (append [] (root_name p)) [SLASH])
    (relative_path wd)) (relative_path p)) n r).
  { destruct Habs as (n & r & Ha). destruct (absolute_spec _ _ _ Ha) as [_ Hn]. rewrite Hn. by exists r. }
  unfold has_root_directory, root_directory in Hp. unfold root_name.
  destruct (first_component_cases p) as [(n & t & -> & Hn & Ef & Ht)|[(r & -> & Ef & Hr)|(Hs & Hf & Hb)]].
  - rewrite Ef in *. rewrite (net_has_net n Hn) in *. change (append [] n) with n.
    assert (Ha : append n [SLASH] = n ++ [SLASH]).
    { destruct Hn as (x & w & -> & Hx & Hw). unfold append.
      assert (Hl : exists y, list.last (SLASH :: SLASH :: x :: w) = Some y /\ is_separator y = false).
      { destruct w as [|y w _] using rev_ind; [by exists x|]. exists y.
        change (SLASH :: SLASH :: x :: w ++ [y]) with ((SLASH :: SLASH :: x :: w) ++ [y]). rewrite last_snoc.
        apply Forall_app in Hw as [_ Hy]. by inversion Hy. }
      destruct Hl as (y & -> & ->). done. }
    rewrite Ha. destruct (append_extends (n ++ [SLASH]) (relative_path wd)) as [a Ea]. rewrite Ea.
    destruct (append_extends ((n ++ [SLASH]) ++ a) (relative_path (n ++ t))) as [b Eb]. rewrite Eb.
    exists n, (a ++ b). rewrite <- !app_assoc. by constructor.
  - by rewrite Ef in Hp.
  - rewrite Hb. change (append (append [] []) [SLASH]) with [SLASH].
    destruct (append_root (relative_path wd)) as (x & Ex & Hx). rewrite Ex. exists [].
    destruct x as [|y x].
    + destruct (append_root (relative_path p)) as (z & Ez & Hz). rewrite Ez. exists z. by apply root_start.
    + destruct (append_extends (SLASH :: y :: x) (relative_path p)) as [b Eb]. rewrite Eb. exists (y :: x ++ b).
      by apply root_start.
Qed.

Lemma absolute_app p n r : absolute p n r -> p = n ++ SLASH :: r.
Proof. by destruct 1. Qed.

Lemma normalize_absolute wd p q n r : make_absolute wd p = q -> absolute q n r ->
  normalize_path wd p = Ok (Some (n ++ canonical (SLASH :: r))).
Proof.
  intros Eq Ha. destruct (absolute_spec _ _ _ Ha) as [Hq Hn]. pose proof (absolute_app _ _ _ Ha) as ->.
  unfold normalize_path. rewrite Eq, Hq, Hn. rewrite bool_decide_eq_false_2 by by destruct n. cbn [orb negb].
  rewrite drop_app_length. destruct (normalize_canonical r) as (b & d & -> & Ht). cbn [obind]. by rewrite Ht.
Qed.

(** ** Canonical paths *)

(** The name of a directory entry: not empty, not [.] or [..], without separator. *)
Definition name (c : chars) : Prop := plain c /\ c <> [] /\ c <> [DOT] /\ c <> [DOT; DOT].

Lemma follow_names d c : Forall name d.1 -> plain c -> Forall name (follow d c).1.
Proof.
  intros Hd Hc. unfold follow. repeat case_bool_decide; cbn; try done.
  - destruct Hd; [constructor|done].
  - constructor; [by repeat split|done].
Qed.

Lemma fold_names cs : Forall plain cs -> forall d, Forall name d.1 -> Forall name (fold_left follow cs d).1.
Proof. induction 1 as [|c cs Hc _ IH]; intros d Hd; [done|]. cbn. by apply IH, follow_names. Qed.

Lemma fold_slash cs : cs <> [] -> forall d, (fold_left follow cs d).1 = [] -> (fold_left follow cs d).2 = true.
Proof.
  destruct cs as [|c cs _] using rev_ind; [done|]. intros _ d. rewrite fold_left_app. cbn [fold_left].
  unfold follow at 1 3. repeat case_bool_decide; done.
Qed.

Lemma follow_name d c : name c -> follow d c = (c :: d.1, false).
Proof. intros (_ & H1 & H2 & H3). unfold follow. by rewrite !bool_decide_eq_false_2. Qed.

Lemma fold_rev_names ds : Forall name ds -> fold_left follow (rev ds) ([], false) = (ds, false).
Proof.
  induction 1 as [|c ds Hc _ IH]; [done|]. cbn [rev]. rewrite fold_left_app, IH. cbn [fold_left]. by rewrite follow_name.
Qed.

Lemma components_plain c t : plain c -> (t = [] \/ exists r, t = SLASH :: r) -> forall acc,
  components_from acc (c ++ t) = (acc ++ c) :: match t with [] => [] | _ :: r => components_from [] r end.
Proof.
  intros Hc Ht. induction Hc as [|x c Hx _ IH]; intros acc; cbn [app components_from].
  - destruct Ht as [->|[r ->]]; cbn [components_from]; by rewrite app_nil_r.
  - rewrite Hx, IH. by rewrite <- app_assoc.
Qed.

Lemma components_unsplit cs : Forall plain cs -> components (unsplit cs) = cs.
Proof.
  induction 1 as [|c cs Hc _ IH]; [done|]. change (unsplit (c :: cs)) with (SLASH :: c ++ unsplit cs). cbn [components].
  rewrite components_plain by (done || apply unsplit_shape). f_equal. by destruct (unsplit cs).
Qed.

Lemma render_unsplit d : render d = unsplit (rev d.1 ++ if d.2 then [[]] else []).
Proof. unfold render, unsplit. rewrite map_app, concat_app. by destruct d.2. Qed.

Lemma resolve_render d : Forall name d.1 -> resolve (components (render d)) = d.
Proof.
  intros Hd. rewrite render_unsplit, components_unsplit.
  - unfold resolve. rewrite fold_left_app, fold_rev_names by done. destruct d as [ds []]; [|done]. done.
  - apply Forall_app. split; [apply Forall_rev; eapply Forall_impl; [|exact Hd]; by intros c []|].
    destruct d.2; repeat constructor.
Qed.

Lemma canonical_names r : Forall name (resolve (components (SLASH :: r))).1.
Proof. apply fold_names; [apply components_spec|constructor]. Qed.

Lemma canonical_idempotent r : canonical (canonical (SLASH :: r)) = canonical (SLASH :: r).
Proof. unfold canonical at 1 2. by rewrite resolve_render by apply canonical_names. Qed.

Lemma components_from_nonempty l : forall c, components_from c l <> [].
Proof. induction l as [|x l IH]; intros c; cbn; [done|]. by destruct (is_separator x). Qed.

Lemma canonical_start r : exists x, canonical (SLASH :: r) = SLASH :: x /\ starts_with_separator x = false.
Proof.
  pose proof (canonical_names r) as Hn. unfold canonical in *. rewrite render_unsplit.
  set (d := resolve (components (SLASH :: r))) in *.
  assert (Hs : d.1 = [] -> d.2 = true).
  { apply fold_slash, components_from_nonempty. }
  destruct (rev d.1) as [|c cs] eqn:E.
  - rewrite Hs; [by exists []|]. apply (f_equal (@rev chars)) in E. by rewrite rev_involutive in E.
  - exists (c ++ unsplit (cs ++ if d.2 then [[]] else [])). split; [done|].
    assert (Hc : name c).
    { apply Forall_rev in Hn. rewrite E in Hn. by inversion Hn. }
    destruct Hc as (Hp & Hne & _). destruct c as [|y c]; [done|]. inversion Hp; subst. done.
Qed.

Lemma canonical_absolute n r q : absolute q n r ->
  exists x, canonical (SLASH :: r) = SLASH :: x /\ absolute (n ++ canonical (SLASH :: r)) n x.
Proof.
  intros Ha. destruct (canonical_start r) as (x & Ex & Hx). exists x. split; [done|]. rewrite Ex.
  destruct Ha; [by apply root_start|by constructor].
Qed.

Lemma renormalize q n r wd' : absolute q n r ->
  normalize_path wd' (n ++ canonical (SLASH :: r)) = Ok (Some (n ++ canonical (SLASH :: r))).
Proof.
  intros Ha. destruct (canonical_absolute _ _ _ Ha) as (x & Ex & Hc). destruct (absolute_spec _ _ _ Hc) as [Habs _].
  erewrite normalize_absolute; [|by apply make_absolute_id|exact Hc]. by rewrite <- Ex, canonical_idempotent.
Qed.

(** What the loader needs of normalization. *)
Lemma normalize_some wd p : is_absolute wd = true ->
  exists q, normalize_path wd p = Ok (Some q) /\ forall wd', normalize_path wd' q = Ok (Some q).
Proof.
  intros Hwd. destruct (make_absolute_absolute wd p Hwd) as [r Ha]. eexists.
  split; [by eapply normalize_absolute|]. intros wd'. by eapply renormalize.
Qed.

(** ** Properties *)

(** C33: the in-place normalization of a path in an absolute working directory
    terminates, never reads or writes outside its buffer, and stores the root name
    followed by the path whose components have been followed one by one. *)
Theorem normalize_path_correct wd p : is_absolute wd = true ->
  exists r, make_absolute wd p = root_name (make_absolute wd p) ++ SLASH :: r
    /\ normalize_path wd p = Ok (Some (root_name (make_absolute wd p) ++ canonical (SLASH :: r))).
Proof.
  intros Hwd. destruct (make_absolute_absolute wd p Hwd) as [r Ha]. exists r.
  split; [by apply absolute_app|by eapply normalize_absolute].
Qed.

Lemma normalize_path_correct_witness :
  normalize_path (chars_of "/w/d") (chars_of "a/./b//../../c/.x") = Ok (Some (chars_of "/w/d/c/.x")).
Proof.
  destruct (normalize_path_correct (chars_of "/w/d") (chars_of "a/./b//../../c/.x") eq_refl) as (r & E & ->).
  vm_compute in E. injection E as <-. reflexivity.
Defined.

(** A normalized path is a root name and a list of proper names (none is empty,
    [.] or [..]), and normalizing it again, from any directory, changes nothing. *)
Theorem normalize_path_idempotent wd p q : is_absolute wd = true -> normalize_path wd p = Ok (Some q) ->
  (exists ds slash, q = root_name q ++ render (ds, slash) /\ Forall name ds)
  /\ forall wd', normalize_path wd' q = Ok (Some q).
Proof.
  intros Hwd E. destruct (make_absolute_absolute wd p Hwd) as [r Ha].
  rewrite (normalize_absolute _ _ _ _ _ eq_refl Ha) in E. injection E as <-.
  destruct (canonical_absolute _ _ _ Ha) as (x & Ex & Hc). destruct (absolute_spec _ _ _ Hc) as [Habs Hn]. split.
  - destruct (resolve (components (SLASH :: r))) as [ds b] eqn:Er. exists ds, b. rewrite Hn. split.
    + unfold canonical. by rewrite Er.
    + pose proof (canonical_names r) as H. by rewrite Er in H.
  - intros wd'. by eapply renormalize.
Qed.

Lemma normalize_path_idempotent_witness :
  normalize_path (chars_of "/e") (chars_of "/w/d/c/.x") = Ok (Some (chars_of "/w/d/c/.x")).
Proof.
  apply (normalize_path_idempotent (chars_of "/w/d") (chars_of "a/./b//../../c/.x")); reflexivity.
Defined.
