(* ===== verification/NinjaManifest.v ===== *)
(** * Ninja manifests

    The data of lib/Ninja/include/llbuild/Ninja/Manifest.h and the operations of
    lib/Ninja/Manifest.cpp.  Nodes, rules, pools and commands are allocated once and
    never freed; a pointer to one is its index in the list of everything allocated.
    Scopes are the C++ stack objects of nested files, so a [Scope&] is an index in
    the stack of live scopes. *)

From Stdlib Require Import ZArith Ascii Lia.
From stdpp Require Import base gmap list strings numbers.
From S2P Require Import Prelude Chars NinjaLexer NinjaPath.

(** ** Data *)

Record Scope := mkScope {
  sparent : option nat;
  entries : gmap chars chars;
  rules : gmap chars nat }.

Record Node := mkNode { canonicalPath : chars; screenPath : chars }.

(** The path as written, unless it is how the node is shown anyway. *)
Record NodeInCommand := mkNodeIn { node : nat; asWritten : chars }.

Record Pool := mkPool { poolName : chars; depth : Z }.

Inductive DepsStyleKind := DepsNone | DepsGCC | DepsMSVC.

(** [outputs] are pointers that may be null. *)
Record Command := mkCommand {
  rule : nat;
  outputs : list (option nat);
  inputs : list NodeInCommand;
  numExplicitInputs : nat;
  numImplicitInputs : nat;
  numExplicitOutputs : nat;
  cparameters : gmap chars chars;
  executionPool : option nat;
  commandString : chars;
  description : chars;
  depsFile : chars;
  rspFile : chars;
  rspFileContent : chars;
  depsStyle : DepsStyleKind;
  isGenerator : bool;
  shouldRestat : bool }.

Record Rule := mkRule { ruleName : chars; rparameters : gmap chars chars }.

Definition isValidParameterName (name : chars) : bool :=
  existsb (fun s => bool_decide (name = chars_of s))
    ["command"; "description"; "deps"; "depfile"; "generator"; "pool"; "restat"; "rspfile"; "rspfile_content"].

Record Manifest := mkManifest {
  scopes : list Scope;                 (* the root scope first *)
  nodes : list Node;
  nodeTable : gmap chars nat;
  ruleStore : list Rule;
  poolStore : list Pool;
  poolTable : gmap chars nat;
  commands : list Command;
  defaultTargets : list nat }.

(** The pointers [phonyRule] and [consolePool]. *)
Definition phonyRule : nat := 0.
Definition consolePool : nat := 0.

Definition newManifest : Manifest :=
  mkManifest [mkScope None ∅ {[chars_of "phony" := phonyRule]}] [] ∅
    [mkRule (chars_of "phony") ∅] [mkPool (chars_of "console") 1]
    {[chars_of "console" := consolePool]} [] [].

(** The constructor of [Command], with its assertions. *)
Definition newCommand (r : nat) (outs : list (option nat)) (ins : list NodeInCommand) (ne ni no : nat) : outcome Command :=
  if (length outs =? 0)%nat then Crash (AssertFailed "outputs.size() > 0")
  else if negb (ne + ni <=? length ins)%nat then Crash (AssertFailed "numExplicitInputs + numImplicitInputs <= inputs.size()")
  else if negb (no <=? length outs)%nat then Crash (AssertFailed "numExplicitOutputs <= outputs.size()")
  else Ok (mkCommand r outs ins ne ni no ∅ None [] [] [] [] [] DepsNone false false).

(** ** Scopes *)

Definition insertBinding (name value : chars) (s : Scope) : Scope :=
  mkScope (sparent s) (<[name := value]> (entries s)) (rules s).

(** [lookupBinding] follows the parents; a parent is below its child on the stack,
    so the index bounds the length of the chain. *)
Fixpoint lookup_from (fuel : nat) (ss : list Scope) (id : nat) (name : chars) : outcome chars :=
  match fuel with
  | O => Crash OutOfFuel
  | S fuel' =>
      match ss !! id with
      | None => Crash (UseAfterFree "Scope")
      | Some s =>
          match entries s !! name with
          | Some v => Ok v
          | None => match sparent s with Some p => lookup_from fuel' ss p name | None => Ok [] end
          end
      end
  end.
Definition lookupBinding (ss : list Scope) (id : nat) (name : chars) : outcome chars :=
  lookup_from (S id) ss id name.

(** ** Nodes *)

Definition nodeScreenPath (m : Manifest) (i : nat) : outcome chars :=
  match nodes m !! i with Some n => Ok (screenPath n) | None => Crash (UseAfterFree "Node") end.

(** The constructor and [getScreenPath] of [NodeInCommand]. *)
Definition newNodeInCommand (m : Manifest) (n : option nat) (written : chars) : outcome NodeInCommand :=
  match n with
  | None => Crash (UseAfterFree "null Node")
  | Some i => obind (nodeScreenPath m i) (fun p =>
      Ok (mkNodeIn i (if bool_decide (p <> written) then written else [])))
  end.
Definition inputScreenPath (m : Manifest) (n : NodeInCommand) : outcome chars :=
  match asWritten n with [] => nodeScreenPath m (node n) | _ => Ok (asWritten n) end.

Definition findNode (wd path0 : chars) (m : Manifest) : outcome (option nat) :=
  obind (normalize_path wd path0) (fun p =>
    match p with None => Ok None | Some path => Ok (nodeTable m !! path) end).

Definition findOrCreateNode (wd path0 : chars) (m : Manifest) : outcome (option nat * Manifest) :=
  obind (normalize_path wd path0) (fun p =>
    match p with
    | None => Ok (None, m)
    | Some path =>
        match nodeTable m !! path with
        | Some i => Ok (Some i, m)
        | None =>
            let i := length (nodes m) in
            Ok (Some i, mkManifest (scopes m) (nodes m ++ [mkNode path path0]) (<[path := i]> (nodeTable m))
                  (ruleStore m) (poolStore m) (poolTable m) (commands m) (defaultTargets m))
        end
    end).

(** ** String templates

    [evalString] of lib/Ninja/ManifestLoader.cpp, over any state: [lookup] yields
    what the lookup callback writes, [err] is the error callback. *)

Definition DOLLAR : ascii := "$"%char.

Fixpoint take_while (p : ascii -> bool) (l : chars) : chars :=
  match l with [] => [] | c :: l' => if p c then c :: take_while p l' else [] end.
Fixpoint drop_while (p : ascii -> bool) (l : chars) : chars :=
  match l with [] => [] | c :: l' => if p c then drop_while p l' else l end.

Section Eval.
Context {S : Type} (lookup : chars -> M S chars) (err : string -> M S unit).

Fixpoint evalLoop (fuel : nat) (pos result : chars) : M S chars :=
  match fuel with
  | O => fail OutOfFuel
  | Datatypes.S fuel' =>
      match pos with
      | [] => ret result
      | _ =>
          let literal c := negb (Ascii.eqb c DOLLAR) in
          let result := result ++ take_while literal pos in
          match drop_while literal pos with
          | [] => ret result
          | [_] => err "invalid '$'-escape at end of string" ;;; ret result
          | _ :: c :: rest =>
              if Ascii.eqb c LF then evalLoop fuel' (drop_while (fun c => isspace (Some c)) rest) result
              else if Ascii.eqb c " " || Ascii.eqb c ":" || Ascii.eqb c DOLLAR then
                evalLoop fuel' rest (result ++ [c])
              else if Ascii.eqb c "{" then
                let inside c := negb (Ascii.eqb c "}") in
                let name := take_while inside rest in
                match drop_while inside rest with
                | [] => err "invalid variable reference in string (missing trailing '}')" ;;; evalLoop fuel' [] result
                | _ :: rest' =>
                    if forallb isIdentifierChar name
                    then v <~ lookup name; evalLoop fuel' rest' (result ++ v)
                    else err "invalid variable name in reference" ;;; evalLoop fuel' rest' result
                end
              else if isSimpleIdentifierChar c then
                v <~ lookup (c :: take_while isSimpleIdentifierChar rest);
                evalLoop fuel' (drop_while isSimpleIdentifierChar rest) (result ++ v)
              else
                err "invalid '$'-escape (literal '$' should be written as '$$')" ;;; ret result
          end
      end
  end%char.

Definition evalString (string : chars) : M S chars := evalLoop (Datatypes.S (length string)) string [].
End Eval.

(** The variables a template asks for, in order. *)
Definition refs (string : chars) : list chars :=
  match evalString (fun n => modify (fun l => l ++ [n]) ;;; ret []) (fun _ => ret tt) string [] with
  | Ok (_, l) => l
  | Crash _ => []
  end.
