(* ===== verification/NinjaLoader.v ===== *)
(** * The Ninja manifest loader (lib/Ninja/ManifestLoader.cpp)

    [ManifestLoaderImpl] as actions on its manifest and include stack.  The parser
    of a file makes the same calls whatever its delegate does, so a file is loaded
    by acting on the calls [NinjaParser.parse] yields for it, and a file an
    [include] or [subninja] names is loaded in the middle of them, as the nested
    [getCurrentParser()->parse()] does.  [readFile] stands for the client's
    [ManifestLoaderActions::readFile]: the identifier and contents of the buffer
    for a path. *)

From Stdlib Require Import ZArith Ascii Lia.
From stdpp Require Import base gmap list strings numbers.
From S2P Require Import Prelude Chars ShellUtility NinjaLexer NinjaParser NinjaPath NinjaManifest.

(** [manifest], the file name and scope of each [IncludeEntry] (innermost first),
    the errors reported to the client (last first), and the result of the last
    [actOnBegin...Decl], which the parser holds. *)
Record Loader := mkLoader {
  manifest : Manifest;
  includeStack : list (chars * nat);
  errors : list (chars * chars * Token);
  decl : nat }.

Abbreviation L := (M Loader).

Definition lift {A} (o : outcome A) : L A := fun s => match o with Ok a => Ok (a, s) | Crash e => Crash e end.
Definition onManifest (f : Manifest -> Manifest) : L unit :=
  modify (fun s => mkLoader (f (manifest s)) (includeStack s) (errors s) (decl s)).
Definition setStack (st : list (chars * nat)) : L unit :=
  modify (fun s => mkLoader (manifest s) st (errors s) (decl s)).
Definition setDecl (d : nat) : L unit := modify (fun s => mkLoader (manifest s) (includeStack s) (errors s) d).

Definition setScopes (ss : list Scope) (m : Manifest) : Manifest :=
  mkManifest ss (nodes m) (nodeTable m) (ruleStore m) (poolStore m) (poolTable m) (commands m) (defaultTargets m).
Definition setRules (rs : list Rule) (m : Manifest) : Manifest :=
  mkManifest (scopes m) (nodes m) (nodeTable m) rs (poolStore m) (poolTable m) (commands m) (defaultTargets m).
Definition setPools (ps : list Pool) (pt : gmap chars nat) (m : Manifest) : Manifest :=
  mkManifest (scopes m) (nodes m) (nodeTable m) (ruleStore m) ps pt (commands m) (defaultTargets m).
Definition setCommands (cs : list Command) (m : Manifest) : Manifest :=
  mkManifest (scopes m) (nodes m) (nodeTable m) (ruleStore m) (poolStore m) (poolTable m) cs (defaultTargets m).
Definition setDefaults (ds : list nat) (m : Manifest) : Manifest :=
  mkManifest (scopes m) (nodes m) (nodeTable m) (ruleStore m) (poolStore m) (poolTable m) (commands m) ds.

(** [getCurrentFilename] and [getCurrentScope], with their assertion. *)
Definition getCurrentFilename : L chars :=
  s <~ get; match includeStack s with (f, _) :: _ => ret f | [] => fail (AssertFailed "!includeStack.empty()") end.
Definition getCurrentScope : L nat :=
  s <~ get; match includeStack s with (_, i) :: _ => ret i | [] => fail (AssertFailed "!includeStack.empty()") end.
Definition scopeAt (i : nat) : L Scope :=
  s <~ get; of_option (UseAfterFree "Scope") (scopes (manifest s) !! i).
Definition updateScope (i : nat) (f : Scope -> Scope) : L unit :=
  sc <~ scopeAt i; onManifest (fun m => setScopes (<[i := f sc]> (scopes m)) m).

Definition reportError (message : chars) (at_ : Token) : L unit :=
  f <~ getCurrentFilename;
  modify (fun s => mkLoader (manifest s) (includeStack s) ((f, message, at_) :: errors s) (decl s)).
Definition errorAt (message : string) (at_ : Token) : L unit := reportError (chars_of message) at_.

(** [evalString(const Token&, const Scope&, ...)]. *)
Definition evalToken (value : Token) (scope : nat) : L chars :=
  ensure (bool_decide (tokenKind value = String_)) (AssertFailed "invalid token kind") ;;;
  evalString (fun name => s <~ get; lift (lookupBinding (scopes (manifest s)) scope name))
    (fun msg => errorAt msg value) (text value).
Definition evalHere (value : Token) : L chars := i <~ getCurrentScope; evalToken value i.

(** ** Commands *)

Definition commandAt (i : nat) : L Command :=
  s <~ get; of_option (UseAfterFree "Command") (commands (manifest s) !! i).
Definition updateCommand (i : nat) (f : Command -> Command) : L unit :=
  c <~ commandAt i; onManifest (fun m => setCommands (<[i := f c]> (commands m)) m).
Definition ruleAt (i : nat) : L Rule :=
  s <~ get; of_option (UseAfterFree "Rule") (ruleStore (manifest s) !! i).
Definition poolAt (i : nat) : L Pool :=
  s <~ get; of_option (UseAfterFree "Pool") (poolStore (manifest s) !! i).

(** The setters of [Command]. *)
Definition setParameter (n v : chars) (c : Command) : Command :=
  mkCommand (rule c) (outputs c) (inputs c) (numExplicitInputs c) (numImplicitInputs c) (numExplicitOutputs c)
    (<[n := v]> (cparameters c)) (executionPool c) (commandString c) (description c) (depsFile c) (rspFile c)
    (rspFileContent c) (depsStyle c) (isGenerator c) (shouldRestat c).
Definition setExecutionPool (p : nat) (c : Command) : Command :=
  mkCommand (rule c) (outputs c) (inputs c) (numExplicitInputs c) (numImplicitInputs c) (numExplicitOutputs c)
    (cparameters c) (Some p) (commandString c) (description c) (depsFile c) (rspFile c)
    (rspFileContent c) (depsStyle c) (isGenerator c) (shouldRestat c).
Definition setCommandString (v : chars) (c : Command) : Command :=
  mkCommand (rule c) (outputs c) (inputs c) (numExplicitInputs c) (numImplicitInputs c) (numExplicitOutputs c)
    (cparameters c) (executionPool c) v (description c) (depsFile c) (rspFile c)
    (rspFileContent c) (depsStyle c) (isGenerator c) (shouldRestat c).
Definition setDescription (v : chars) (c : Command) : Command :=
  mkCommand (rule c) (outputs c) (inputs c) (numExplicitInputs c) (numImplicitInputs c) (numExplicitOutputs c)
    (cparameters c) (executionPool c) (commandString c) v (depsFile c) (rspFile c)
    (rspFileContent c) (depsStyle c) (isGenerator c) (shouldRestat c).
Definition setDepsFile (v : chars) (c : Command) : Command :=
  mkCommand (rule c) (outputs c) (inputs c) (numExplicitInputs c) (numImplicitInputs c) (numExplicitOutputs c)
    (cparameters c) (executionPool c) (commandString c) (description c) v (rspFile c)
    (rspFileContent c) (depsStyle c) (isGenerator c) (shouldRestat c).
Definition setRspFile (v : chars) (c : Command) : Command :=
  mkCommand (rule c) (outputs c) (inputs c) (numExplicitInputs c) (numImplicitInputs c) (numExplicitOutputs c)
    (cparameters c) (executionPool c) (commandString c) (description c) (depsFile c) v
    (rspFileContent c) (depsStyle c) (isGenerator c) (shouldRestat c).
Definition setRspFileContent (v : chars) (c : Command) : Command :=
  mkCommand (rule c) (outputs c) (inputs c) (numExplicitInputs c) (numImplicitInputs c) (numExplicitOutputs c)
    (cparameters c) (executionPool c) (commandString c) (description c) (depsFile c) (rspFile c)
    v (depsStyle c) (isGenerator c) (shouldRestat c).
Definition setDepsStyle (v : DepsStyleKind) (c : Command) : Command :=
  mkCommand (rule c) (outputs c) (inputs c) (numExplicitInputs c) (numImplicitInputs c) (numExplicitOutputs c)
    (cparameters c) (executionPool c) (commandString c) (description c) (depsFile c) (rspFile c)
    (rspFileContent c) v (isGenerator c) (shouldRestat c).
Definition setGeneratorFlag (v : bool) (c : Command) : Command :=
  mkCommand (rule c) (outputs c) (inputs c) (numExplicitInputs c) (numImplicitInputs c) (numExplicitOutputs c)
    (cparameters c) (executionPool c) (commandString c) (description c) (depsFile c) (rspFile c)
    (rspFileContent c) (depsStyle c) v (shouldRestat c).
Definition setRestatFlag (v : bool) (c : Command) : Command :=
  mkCommand (rule c) (outputs c) (inputs c) (numExplicitInputs c) (numImplicitInputs c) (numExplicitOutputs c)
    (cparameters c) (executionPool c) (commandString c) (description c) (depsFile c) (rspFile c)
    (rspFileContent c) (depsStyle c) (isGenerator c) v.

(** *** Parameters of a command *)

(** The paths [$in] and [$out] stand for. *)
Fixpoint screenPaths (m : Manifest) (l : list NodeInCommand) : outcome (list chars) :=
  match l with
  | [] => Ok []
  | n :: l' => obind (inputScreenPath m n) (fun p => obind (screenPaths m l') (fun ps => Ok (p :: ps)))
  end.
Fixpoint outputPaths (m : Manifest) (l : list (option nat)) : outcome (list chars) :=
  match l with
  | [] => Ok []
  | None :: _ => Crash (UseAfterFree "null Node")
  | Some i :: l' => obind (nodeScreenPath m i) (fun p => obind (outputPaths m l') (fun ps => Ok (p :: ps)))
  end.
(** [decl->getInputs()[i]] for [i] below [getNumExplicitInputs()]. *)
Definition explicitInputs (c : Command) : outcome (list NodeInCommand) :=
  if (numExplicitInputs c <=? length (inputs c))%nat then Ok (take (numExplicitInputs c) (inputs c))
  else Crash (OutOfBounds "getInputs()").
Definition getExplicitOutputs (c : Command) : outcome (list (option nat)) :=
  if (numExplicitOutputs c <=? length (outputs c))%nat then Ok (take (numExplicitOutputs c) (outputs c))
  else Crash (AssertFailed "Dropping more elements than exist").

Fixpoint join (sep : ascii) (ps : list chars) : chars :=
  match ps with
  | [] => []
  | [p] => p
  | p :: ps' => p ++ sep :: join sep ps'
  end.

(** [LookupContext]: the command, the token errors are reported at, and whether
    paths are quoted for the shell. *)
Record LookupContext := mkContext { cdecl : nat; startTok : Token; shellEscapeInAndOut : bool }.

Definition quotePath (ctx : LookupContext) (p : chars) : chars :=
  if shellEscapeInAndOut ctx then Posix.shellEscaped p else p.

(** [lookupBuildParameterImpl]; [fuel] bounds the depth of the C++ stack, since
    the parameters of a rule may refer to each other. *)
Fixpoint lookupBuildParameter (fuel : nat) (ctx : LookupContext) (name : chars) : L chars :=
  match fuel with
  | O => fail OutOfFuel
  | S fuel' =>
      c <~ commandAt (cdecl ctx);
      s <~ get;
      if bool_decide (name = chars_of "in") || bool_decide (name = chars_of "in_newline") then
        ins <~ lift (explicitInputs c);
        ps <~ lift (screenPaths (manifest s) ins);
        ret (join (if bool_decide (name = chars_of "in") then " "%char else LF) (map (quotePath ctx) ps))
      else if bool_decide (name = chars_of "out") then
        outs <~ lift (getExplicitOutputs c);
        ps <~ lift (outputPaths (manifest s) outs);
        ret (join " "%char (map (quotePath ctx) ps))
      else match cparameters c !! name with
      | Some v => ret v
      | None =>
          r <~ ruleAt (rule c);
          match rparameters r !! name with
          | Some template =>
              evalString (lookupBuildParameter fuel' ctx)
                (fun msg => reportError (chars_of msg ++ chars_of " during evaluation of '" ++ name ++ chars_of "'") (startTok ctx))
                template
          | None => i <~ getCurrentScope; lift (lookupBinding (scopes (manifest s)) i name)
          end
      end
  end.

(** [StringRef::getAsInteger(10, long&)]: [None] where it reports an error. *)
Fixpoint digits (acc : Z) (l : chars) : option Z :=
  match l with
  | [] => Some acc
  | c :: l' => if in_range "0"%char "9"%char c
               then digits (10 * acc + Z.of_nat (nat_of_ascii c - 48))%Z l' else None
  end.
Definition getAsInteger (l : chars) : option Z :=
  match l with
  | [] => None
  | c :: l' =>
      if Ascii.eqb c "-"%char then
        match l' with
        | [] => None
        | _ => match digits 0 l' with Some v => if (v <=? 2 ^ 63)%Z then Some (- v)%Z else None | None => None end
        end
      else match digits 0 l with Some v => if (v <? 2 ^ 63)%Z then Some v else None | None => None end
  end.

Section Loader.
Context (readFile : chars -> option (chars * chars)) (workingDirectory : chars) (stack : nat).

(** ** Parse actions *)

Definition actOnBindingDecl (nameTok valueTok : Token) : L unit :=
  value <~ evalHere valueTok;
  i <~ getCurrentScope;
  updateScope i (insertBinding (text nameTok) value).

Definition actOnDefaultDecl (nameToks : list Token) : L unit :=
  mapM_ (fun nameTok =>
    s <~ get;
    n <~ lift (findNode workingDirectory (text nameTok) (manifest s));
    match n with
    | None => errorAt "unknown target name" nameTok
    | Some i => onManifest (fun m => setDefaults (defaultTargets m ++ [i]) m)
    end) nameToks.

(** [manifest->findOrCreateNode]. *)
Definition nodeFor (path : chars) : L (option nat) := fun s =>
  match findOrCreateNode workingDirectory path (manifest s) with
  | Ok (n, m) => Ok (n, mkLoader m (includeStack s) (errors s) (decl s))
  | Crash e => Crash e
  end.

Definition evalPath (what : string) (token : Token) : L chars :=
  path <~ evalHere token;
  (match path with [] => errorAt what token | _ => ret tt end) ;;;
  ret path.

(** The loop over the output tokens, from index [i] on. *)
Fixpoint outputLoop (i numExplicitOutputTokens numExplicitOutputs : nat) (tokens : list Token)
    (outs : list (option nat)) : L (list (option nat) * nat) :=
  match tokens with
  | [] => ret (outs, numExplicitOutputs)
  | token :: tokens' =>
      let isExplicit := (i <? numExplicitOutputTokens)%nat in
      path <~ evalPath "empty output path" token;
      n <~ nodeFor path;
      if bool_decide (n ∈ outs)
      then outputLoop (S i) numExplicitOutputTokens
             (if isExplicit then numExplicitOutputs - 1 else numExplicitOutputs) tokens' outs
      else outputLoop (S i) numExplicitOutputTokens numExplicitOutputs tokens' (outs ++ [n])
  end.

Fixpoint inputLoop (tokens : list Token) : L (list NodeInCommand) :=
  match tokens with
  | [] => ret []
  | token :: tokens' =>
      path <~ evalPath "empty input path" token;
      n <~ nodeFor path;
      s <~ get;
      i <~ lift (newNodeInCommand (manifest s) n path);
      l <~ inputLoop tokens';
      ret (i :: l)
  end.

Definition actOnBeginBuildDecl (nameTok : Token) (outputTokens inputTokens : list Token)
    (ne ni numExplicitOutputTokens : nat) : L nat :=
  i <~ getCurrentScope;
  sc <~ scopeAt i;
  r <~ match rules sc !! text nameTok with
       | None => errorAt "unknown rule" nameTok ;;; ret phonyRule
       | Some r => ret r
       end;
  outs <~ outputLoop 0 numExplicitOutputTokens numExplicitOutputTokens outputTokens [];
  ins <~ inputLoop inputTokens;
  c <~ lift (newCommand r outs.1 ins ne ni outs.2);
  s <~ get;
  onManifest (fun m => setCommands (commands m ++ [c]) m) ;;;
  ret (length (commands (manifest s))).

Definition actOnBuildBindingDecl (d : nat) (nameTok valueTok : Token) : L unit :=
  value <~ evalHere valueTok;
  updateCommand d (setParameter (text nameTok) value).

Definition lookupNamedBuildParameter (d : nat) (tok : Token) (name : string) : L chars :=
  lookupBuildParameter stack (mkContext d tok (String.eqb name "command")) (chars_of name).

Definition actOnEndBuildDecl (d : nat) (tok : Token) : L unit :=
  command <~ lookupNamedBuildParameter d tok "command";
  updateCommand d (setCommandString command) ;;;
  descr <~ lookupNamedBuildParameter d tok "description";
  updateCommand d (setDescription descr) ;;;
  deps <~ lookupNamedBuildParameter d tok "deps";
  depfile <~ lookupNamedBuildParameter d tok "depfile";
  style <~ (if bool_decide (deps = []) then
              ret (if bool_decide (depfile = []) then DepsNone else DepsGCC)
            else if bool_decide (deps = chars_of "gcc") then ret DepsGCC
            else if bool_decide (deps = chars_of "msvc") then ret DepsMSVC
            else reportError (chars_of "invalid 'deps' style '" ++ deps ++ chars_of "'") tok ;;; ret DepsNone);
  updateCommand d (setDepsStyle style) ;;;
  (if negb (bool_decide (depfile = [])) then
     match style with
     | DepsGCC => updateCommand d (setDepsFile depfile)
     | _ => errorAt "invalid 'depfile' attribute with selected 'deps' style" tok
     end
   else
     match style with
     | DepsGCC => errorAt "missing 'depfile' attribute with selected 'deps' style" tok
     | _ => ret tt
     end) ;;;
  poolName <~ lookupNamedBuildParameter d tok "pool";
  (if bool_decide (poolName = []) then ret tt
   else
     s <~ get;
     match poolTable (manifest s) !! poolName with
     | None => reportError (chars_of "unknown pool '" ++ poolName ++ chars_of "'") tok
     | Some p => updateCommand d (setExecutionPool p)
     end) ;;;
  generator <~ lookupNamedBuildParameter d tok "generator";
  updateCommand d (setGeneratorFlag (negb (bool_decide (generator = [])))) ;;;
  restat <~ lookupNamedBuildParameter d tok "restat";
  updateCommand d (setRestatFlag (negb (bool_decide (restat = [])))) ;;;
  rspfile <~ lookupNamedBuildParameter d tok "rspfile";
  if bool_decide (rspfile = []) then ret tt
  else
    p <~ lift (normalize_path workingDirectory rspfile);
    match p with
    | None => ret tt
    | Some path =>
        updateCommand d (setRspFile path) ;;;
        content <~ lookupNamedBuildParameter d tok "rspfile_content";
        updateCommand d (setRspFileContent content)
    end.

Definition actOnBeginPoolDecl (nameTok : Token) : L nat :=
  s <~ get;
  let m := manifest s in
  (if bool_decide (is_Some (poolTable m !! text nameTok)) then errorAt "duplicate pool" nameTok else ret tt) ;;;
  let p := length (poolStore m) in
  onManifest (fun m => setPools (poolStore m ++ [mkPool (text nameTok) 0]) (<[text nameTok := p]> (poolTable m)) m) ;;;
  ret p.

Definition actOnPoolBindingDecl (d : nat) (nameTok valueTok : Token) : L unit :=
  value <~ evalHere valueTok;
  if bool_decide (text nameTok = chars_of "depth") then
    match getAsInteger value with
    | Some n => if (n <=? 0)%Z then errorAt "invalid depth" valueTok
                else p <~ poolAt d;
                     onManifest (fun m => setPools (<[d := mkPool (poolName p) (n mod 2 ^ 32)%Z]> (poolStore m)) (poolTable m) m)
    | None => errorAt "invalid depth" valueTok
    end
  else errorAt "unexpected variable" nameTok.

Definition actOnEndPoolDecl (d : nat) (tok : Token) : L unit :=
  p <~ poolAt d;
  if (depth p =? 0)%Z then errorAt "missing 'depth' variable assignment" tok else ret tt.

Definition actOnBeginRuleDecl (nameTok : Token) : L nat :=
  i <~ getCurrentScope;
  sc <~ scopeAt i;
  (if bool_decide (is_Some (rules sc !! text nameTok)) then errorAt "duplicate rule" nameTok else ret tt) ;;;
  s <~ get;
  let r := length (ruleStore (manifest s)) in
  onManifest (fun m => setRules (ruleStore m ++ [mkRule (text nameTok) ∅]) m) ;;;
  updateScope i (fun sc => mkScope (sparent sc) (entries sc) (<[text nameTok := r]> (rules sc))) ;;;
  ret r.

Definition actOnRuleBindingDecl (d : nat) (nameTok valueTok : Token) : L unit :=
  if isValidParameterName (text nameTok) then
    r <~ ruleAt d;
    onManifest (fun m => setRules
      (<[d := mkRule (ruleName r) (<[text nameTok := text valueTok]> (rparameters r))]> (ruleStore m)) m)
  else errorAt "unexpected variable" nameTok.

Definition actOnEndRuleDecl (d : nat) (tok : Token) : L unit :=
  r <~ ruleAt d;
  if bool_decide (is_Some (rparameters r !! chars_of "command")) then ret tt
  else errorAt "missing 'command' variable assignment" tok.

(** ** Files *)

(** The contents of the file that was entered, if it could be read. *)
Definition enterFile (filename : chars) (scope : nat) : L (option chars) :=
  match readFile (make_absolute workingDirectory filename) with
  | None => ret None
  | Some (identifier, contents) =>
      s <~ get; setStack ((identifier, scope) :: includeStack s) ;;; ret (Some contents)
  end.

Definition exitCurrentFile : L unit := s <~ get; setStack (tail (includeStack s)).

Definition actOnIncludeDecl (run : chars -> L unit) (isInclude : bool) (pathTok : Token) : L unit :=
  path <~ evalHere pathTok;
  i <~ getCurrentScope;
  if isInclude then
    f <~ enterFile path i;
    match f with Some contents => run contents | None => ret tt end
  else
    s <~ get;
    let sub := length (scopes (manifest s)) in
    onManifest (fun m => setScopes (scopes m ++ [mkScope (Some i) ∅ ∅]) m) ;;;
    f <~ enterFile path sub;
    (match f with Some contents => run contents | None => ret tt end) ;;;
    onManifest (fun m => setScopes (take (length (scopes m) - 1) (scopes m)) m).

(** One call of the parser; [run] parses a nested file. *)
Definition handle (run : chars -> L unit) (e : Event) : L unit :=
  match e with
  | BeginManifest _ => ret tt
  | EndManifest => exitCurrentFile
  | BindingDecl n v => actOnBindingDecl n v
  | DefaultDecl ns => actOnDefaultDecl ns
  | IncludeDecl b p => actOnIncludeDecl run b p
  | BeginBuildDecl n outs ins ne ni no => d <~ actOnBeginBuildDecl n outs ins ne ni no; setDecl d
  | BuildBindingDecl n v => s <~ get; actOnBuildBindingDecl (decl s) n v
  | EndBuildDecl t => s <~ get; actOnEndBuildDecl (decl s) t
  | BeginPoolDecl n => d <~ actOnBeginPoolDecl n; setDecl d
  | PoolBindingDecl n v => s <~ get; actOnPoolBindingDecl (decl s) n v
  | EndPoolDecl t => s <~ get; actOnEndPoolDecl (decl s) t
  | BeginRuleDecl n => d <~ actOnBeginRuleDecl n; setDecl d
  | RuleBindingDecl n v => s <~ get; actOnRuleBindingDecl (decl s) n v
  | EndRuleDecl t => s <~ get; actOnEndRuleDecl (decl s) t
  | ErrorAt msg t => errorAt msg t
  end.

(** [getCurrentParser()->parse()] for a file with these contents; [fuel] bounds the
    nesting of files. *)
Fixpoint runFile (fuel : nat) (contents : chars) : L unit :=
  match fuel with
  | O => fail OutOfFuel
  | S fuel' =>
      evs <~ lift (NinjaParser.parse contents);
      mapM_ (handle (runFile fuel')) evs
  end.

(** The manifest ([None] when the main file cannot be read) and the errors. *)
Definition load (mainFilename : chars) : outcome (option Manifest * list (chars * chars * Token)) :=
  let s0 := mkLoader newManifest [] [] 0 in
  match (f <~ enterFile mainFilename 0;
         match f with
         | None => ret false
         | Some contents =>
             s <~ get;
             ensure (length (includeStack s) =? 1)%nat (AssertFailed "includeStack.size() == 1") ;;;
             runFile stack contents ;;;
             s <~ get;
             ensure (length (includeStack s) =? 0)%nat (AssertFailed "includeStack.size() == 0") ;;;
             ret true
         end) s0 with
  | Ok (b, s) => Ok ((if b : bool then Some (manifest s) else None), rev (errors s))
  | Crash e => Crash e
  end.

End Loader.
