(* ===== verification/NinjaLoaderInv.v ===== *)
(** * The invariant of the Ninja manifest loader

    What holds of a manifest between the parser's calls, and that every action
    keeps it.  The lemmas are stated for a loader that may be cut short ([cut])
    when files or rule parameters nest without end; the ranks [irank] and [prank]
    bound the nesting where they do not. *)

From Stdlib Require Import ZArith Ascii Lia.
From stdpp Require Import base gmap list strings numbers.
From S2P Require Import Prelude Chars ShellUtility NinjaLexer NinjaParser NinjaEvents NinjaPath NinjaManifest NinjaLoader.

(** ** Well-formed manifests *)

(** A path that normalization leaves as it is. *)
Definition normal (p : chars) : Prop := forall wd, normalize_path wd p = Ok (Some p).

(** Each node is in the table under its canonical path, and nothing else is. *)
Record nodes_ok (m : Manifest) : Prop := {
  no_table p i : nodeTable m !! p = Some i -> exists n, nodes m !! i = Some n /\ canonicalPath n = p;
  no_node i n : nodes m !! i = Some n -> nodeTable m !! canonicalPath n = Some i;
  no_normal i n : nodes m !! i = Some n -> normal (canonicalPath n) }.

Definition node_in (m : Manifest) (n : option nat) : Prop := exists i, n = Some i /\ (i < length (nodes m))%nat.

Record command_ok (m : Manifest) (c : Command) : Prop := {
  co_rule : (rule c < length (ruleStore m))%nat;
  co_outputs : Forall (node_in m) (outputs c);
  co_distinct : NoDup (outputs c);
  co_inputs : Forall (fun n => (node n < length (nodes m))%nat) (inputs c);
  co_numIn : (numExplicitInputs c + numImplicitInputs c <= length (inputs c))%nat;
  co_numOut : (0 < numExplicitOutputs c <= length (outputs c))%nat;
  co_pool p : executionPool c = Some p -> (p < length (poolStore m))%nat }.

Record scope_ok (m : Manifest) (i : nat) (sc : Scope) : Prop := {
  so_parent p : sparent sc = Some p -> (p < i)%nat;
  so_rules n r : rules sc !! n = Some r -> (r < length (ruleStore m))%nat }.

(** A new node is entered under its canonical path. *)
Lemma nodes_ok_new m q p : nodes_ok m -> normal q -> nodeTable m !! q = None ->
  nodes_ok (mkManifest (scopes m) (nodes m ++ [mkNode q p]) (<[q := length (nodes m)]> (nodeTable m))
    (ruleStore m) (poolStore m) (poolTable m) (commands m) (defaultTargets m)).
Proof.
  intros [N1 N2 N3] Hq Hn. constructor; cbn.
  - intros p' i Hi. destruct (decide (q = p')) as [<-|Hne].
    + rewrite lookup_insert_eq in Hi. injection Hi as <-. exists (mkNode q p). split; [|done].
      by rewrite lookup_app_r, Nat.sub_diag by lia.
    + rewrite lookup_insert_ne in Hi by done. destruct (N1 _ _ Hi) as (n & E & Ep). exists n. split; [|done].
      by apply lookup_app_l_Some.
  - intros i n Hi. apply lookup_app_Some in Hi as [Hi|[Hl Hi]].
    + rewrite lookup_insert_ne; [by apply N2|]. intros ->. rewrite (N2 _ _ Hi) in Hn. done.
    + destruct (i - length (nodes m))%nat as [|k] eqn:Ek; [|done]. injection Hi as <-. cbn.
      rewrite lookup_insert_eq. f_equal. lia.
  - intros i n Hi. apply lookup_app_Some in Hi as [Hi|[Hl Hi]]; [by eapply N3|].
      destruct (i - length (nodes m))%nat as [|k]; [|done]. by injection Hi as <-.
Qed.

Section Inv.
Context (cut : Prop) (prank : chars -> nat).

(** The template of a rule parameter refers to parameters of lower rank only. *)
Definition ranked (n template : chars) : Prop :=
  cut \/ (forall x, x ∈ refs template -> isValidParameterName x = true -> (prank x < prank n)%nat).

Definition rule_ok (r : Rule) : Prop := forall n v, rparameters r !! n = Some v ->
  isValidParameterName n = true /\ ranked n v.

Record manifest_ok (m : Manifest) : Prop := {
  mo_nodes : nodes_ok m;
  mo_commands : Forall (command_ok m) (commands m);
  mo_scopes i sc : scopes m !! i = Some sc -> scope_ok m i sc;
  mo_rules : Forall rule_ok (ruleStore m);
  mo_phony : (0 < length (ruleStore m))%nat;
  mo_pools n p : poolTable m !! n = Some p -> (p < length (poolStore m))%nat;
  mo_defaults : Forall (fun i => (i < length (nodes m))%nat) (defaultTargets m) }.

(** Every scope on the include stack is alive. *)
Record loader_ok (s : Loader) : Prop := {
  lo_manifest : manifest_ok (manifest s);
  lo_stack : Forall (fun e => (e.2 < length (scopes (manifest s)))%nat) (includeStack s) }.

(** ** What an action leaves alone *)

(** Nothing is freed, and only the scope [cur] changes. *)
Record frame (cur : nat) (m m' : Manifest) : Prop := {
  fr_scopes : length (scopes m') = length (scopes m);
  fr_other i : i <> cur -> scopes m' !! i = scopes m !! i;
  fr_rules : (length (ruleStore m) <= length (ruleStore m'))%nat;
  fr_pools : (length (poolStore m) <= length (poolStore m'))%nat;
  fr_nodes : (length (nodes m) <= length (nodes m'))%nat;
  fr_commands : (length (commands m) <= length (commands m'))%nat }.

Lemma frame_refl cur m : frame cur m m.
Proof. by constructor. Qed.
Lemma frame_trans cur m1 m2 m3 : frame cur m1 m2 -> frame cur m2 m3 -> frame cur m1 m3.
Proof.
  intros [A1 A2 A3 A4 A5 A6] [B1 B2 B3 B4 B5 B6]. constructor; [lia| |lia..]. intros i Hi. by rewrite B2, A2.
Qed.

(** The file being loaded, and the scope its declarations go to. *)
Definition current (cur : nat) (s : Loader) : Prop := exists f rest, includeStack s = (f, cur) :: rest.

(** A step inside a file. *)
Record within (cur : nat) (s s' : Loader) : Prop := {
  wi_ok : loader_ok s';
  wi_frame : frame cur (manifest s) (manifest s');
  wi_stack : includeStack s' = includeStack s;
  wi_decl : decl s' = decl s }.

Lemma within_refl cur s : loader_ok s -> within cur s s.
Proof. intros H. constructor; [done|apply frame_refl|done|done]. Qed.
Lemma within_trans cur s1 s2 s3 : within cur s1 s2 -> within cur s2 s3 -> within cur s1 s3.
Proof.
  intros [A1 A2 A3 A4] [B1 B2 B3 B4]. constructor; [done|by eapply frame_trans|congruence|congruence].
Qed.
Lemma within_current cur s s' : within cur s s' -> current cur s -> current cur s'.
Proof. intros H (f & r & E). exists f, r. by rewrite (wi_stack _ _ _ H). Qed.

(** [m] keeps the invariant, in the file whose scope is [cur]. *)
Definition fine {A} (cur : nat) (m : L A) (s : Loader) (R : A -> Loader -> Prop) : Prop :=
  safe cut m s (fun a s' => within cur s s' /\ R a s').

Lemma fine_bind {A B} cur (m : L A) (f : A -> L B) s R Q :
  fine cur m s R -> (forall a s', within cur s s' -> R a s' -> fine cur (f a) s' Q) -> fine cur (bind m f) s Q.
Proof.
  intros Hm Hf. eapply safe_bind; [exact Hm|]. intros a s1 [H1 HR]. eapply safe_mono; [by apply Hf|].
  intros b s2 [H2 HQ]. split; [by eapply within_trans|done].
Qed.
Lemma fine_ret {A} cur (a : A) s (R : A -> Loader -> Prop) : loader_ok s -> R a s -> fine cur (ret a) s R.
Proof. intros. apply safe_ret. split; [by apply within_refl|done]. Qed.
Lemma fine_get {B} cur (f : Loader -> L B) s R : fine cur (f s) s R -> fine cur (bind get f) s R.
Proof. done. Qed.
Lemma fine_mono {A} cur (m : L A) s (R Q : A -> Loader -> Prop) :
  fine cur m s R -> (forall a s', R a s' -> Q a s') -> fine cur m s Q.
Proof. intros H HQ. eapply safe_mono; [exact H|]. intros a s' [H1 H2]. auto. Qed.
Lemma fine_lift {A} cur (o : outcome A) a s (R : A -> Loader -> Prop) : loader_ok s -> o = Ok a -> R a s ->
  fine cur (lift o) s R.
Proof. intros H -> HR. unfold fine, safe, lift. split; [by apply within_refl|done]. Qed.
Lemma fine_some {A} cur e (o : option A) a s (R : A -> Loader -> Prop) : loader_ok s -> o = Some a -> R a s ->
  fine cur (of_option e o) s R.
Proof. intros H -> HR. by apply fine_ret. Qed.

(** [m] is fine and nothing is claimed of its result. *)
Abbreviation ok cur m s := (fine cur m s (fun _ _ => True)).

(** Reporting an error changes nothing but the list of errors. *)
Lemma fine_reportError cur msg t s : loader_ok s -> current cur s ->
  fine cur (reportError msg t) s (fun _ s' => manifest s' = manifest s).
Proof.
  intros [H1 H2] (f & r & E). unfold reportError, getCurrentFilename. eapply fine_bind with (R := fun _ s' => s' = s).
  - apply fine_get. rewrite E. by apply fine_ret.
  - intros a s' _ ->. apply safe_modify. split; [|done].
    constructor; [by constructor|apply frame_refl|done|done].
Qed.
Lemma ok_reportError cur msg t s : loader_ok s -> current cur s -> ok cur (reportError msg t) s.
Proof. intros. eapply fine_mono; [by apply fine_reportError|done]. Qed.
Lemma ok_errorAt cur msg t s : loader_ok s -> current cur s -> ok cur (errorAt msg t) s.
Proof. apply ok_reportError. Qed.

Lemma fine_currentScope cur s : loader_ok s -> current cur s ->
  fine cur getCurrentScope s (fun i s' => i = cur /\ s' = s).
Proof. intros H (f & r & E). apply fine_get. rewrite E. by apply fine_ret. Qed.

Lemma current_alive cur s : loader_ok s -> current cur s -> (cur < length (scopes (manifest s)))%nat.
Proof. intros [_ H] (f & r & E). rewrite E in H. by inversion H. Qed.

Lemma fine_scopeAt cur s : loader_ok s -> current cur s ->
  fine cur (scopeAt cur) s (fun sc s' => s' = s /\ scopes (manifest s) !! cur = Some sc).
Proof.
  intros H Hc. apply fine_get. destruct (lookup_lt_is_Some_2 _ _ (current_alive _ _ H Hc)) as [sc E].
  by eapply fine_some.
Qed.

(** ** Manifest updates *)

Record grows (m m' : Manifest) : Prop := {
  gr_rules : (length (ruleStore m) <= length (ruleStore m'))%nat;
  gr_pools : (length (poolStore m) <= length (poolStore m'))%nat;
  gr_nodes : (length (nodes m) <= length (nodes m'))%nat }.

Lemma command_ok_grows m m' c : grows m m' -> command_ok m c -> command_ok m' c.
Proof.
  intros [G1 G2 G3] [A1 A2 A3 A4 A5 A6 A7]. constructor; try done; [lia| | |].
  - eapply Forall_impl; [|exact A2]. intros n (i & -> & Hi). exists i. split; [done|lia].
  - eapply Forall_impl; [|exact A4]. cbn. lia.
  - intros p Hp. specialize (A7 p Hp). lia.
Qed.
Lemma scope_ok_grows m m' i sc : grows m m' -> scope_ok m i sc -> scope_ok m' i sc.
Proof. intros [G1 _ _] [A1 A2]. constructor; [done|]. intros n r Hr. specialize (A2 n r Hr). lia. Qed.

Lemma fine_onManifest cur f s : loader_ok s -> manifest_ok (f (manifest s)) -> frame cur (manifest s) (f (manifest s)) ->
  fine cur (onManifest f) s (fun _ s' => manifest s' = f (manifest s)).
Proof.
  intros [H1 H2] Hf Hfr. apply safe_modify. split; [|done]. constructor; [|done|done|done]. constructor; [done|].
  cbn. by rewrite (fr_scopes _ _ _ Hfr).
Qed.

Lemma manifest_scope m i sc : manifest_ok m -> scope_ok m i sc -> manifest_ok (setScopes (<[i := sc]> (scopes m)) m).
Proof.
  intros [A1 A2 A3 A4 A5 A6 A7] Hs. constructor; try done; [by destruct A1; constructor| |].
  - eapply Forall_impl; [|exact A2]. intros c. by apply command_ok_grows.
  - cbn. intros j sc' Hj. destruct (decide (i = j)) as [<-|Hne].
    + destruct (decide (i < length (scopes m))%nat).
      * rewrite list_lookup_insert_eq in Hj by done. injection Hj as <-. by apply (scope_ok_grows m).
      * rewrite list_insert_ge in Hj by lia. by apply (scope_ok_grows m); [|apply A3].
    + rewrite list_lookup_insert_ne in Hj by done. by apply (scope_ok_grows m); [|apply A3].
Qed.
Lemma frame_scope cur m sc : frame cur m (setScopes (<[cur := sc]> (scopes m)) m).
Proof. constructor; cbn; try done; [by rewrite length_insert|]. intros i Hi. by rewrite list_lookup_insert_ne. Qed.

Lemma manifest_rules m rs : manifest_ok m -> (length (ruleStore m) <= length rs)%nat -> Forall rule_ok rs ->
  manifest_ok (setRules rs m).
Proof.
  intros [A1 A2 A3 A4 A5 A6 A7] Hl Hr.
  assert (G : grows m (setRules rs m)) by by constructor.
  constructor; try done; [by destruct A1; constructor| | |cbn; lia].
  - eapply Forall_impl; [|exact A2]. intros c. by apply command_ok_grows.
  - intros i sc Hi. eapply scope_ok_grows; [exact G|by apply A3].
Qed.
Lemma frame_rules cur m rs : (length (ruleStore m) <= length rs)%nat -> frame cur m (setRules rs m).
Proof. by constructor. Qed.

Lemma manifest_pools m ps pt : manifest_ok m -> (length (poolStore m) <= length ps)%nat ->
  (forall n p, pt !! n = Some p -> (p < length ps)%nat) -> manifest_ok (setPools ps pt m).
Proof.
  intros [A1 A2 A3 A4 A5 A6 A7] Hl Hp.
  assert (G : grows m (setPools ps pt m)) by by constructor.
  constructor; try done; [by destruct A1; constructor| |].
  - eapply Forall_impl; [|exact A2]. intros c. by apply command_ok_grows.
  - intros i sc Hi. eapply scope_ok_grows; [exact G|by apply A3].
Qed.
Lemma frame_pools cur m ps pt : (length (poolStore m) <= length ps)%nat -> frame cur m (setPools ps pt m).
Proof. by constructor. Qed.

Lemma manifest_commands m cs : manifest_ok m -> Forall (command_ok m) cs -> manifest_ok (setCommands cs m).
Proof.
  intros [A1 A2 A3 A4 A5 A6 A7] Hc. constructor; try done; [by destruct A1; constructor| |].
  - eapply Forall_impl; [|exact Hc]. intros c. by apply command_ok_grows.
  - intros i sc Hi. by apply (scope_ok_grows m); [|apply A3].
Qed.
Lemma frame_commands cur m cs : (length (commands m) <= length cs)%nat -> frame cur m (setCommands cs m).
Proof. by constructor. Qed.

Lemma manifest_defaults m ds : manifest_ok m -> Forall (fun i => (i < length (nodes m))%nat) ds ->
  manifest_ok (setDefaults ds m).
Proof.
  intros [A1 A2 A3 A4 A5 A6 A7] Hd. constructor; try done; [by destruct A1; constructor| |].
  - eapply Forall_impl; [|exact A2]. intros c. by apply command_ok_grows.
  - intros i sc Hi. by apply (scope_ok_grows m); [|apply A3].
Qed.

(** ** Templates *)

(** A lookup is asked only for the variables [refs] lists. *)
Lemma evalLoop_refs {T} (I : T -> Prop) fuel : forall pos r0 l, (length pos < fuel)%nat ->
  exists r names,
    evalLoop (fun n => modify (fun l => l ++ [n]) ;;; ret []) (fun _ => ret tt) fuel pos r0 l = Ok (r, l ++ names)
    /\ forall (lookup : chars -> M T chars) err result s, I s ->
       (forall n s, n ∈ names -> I s -> safe cut (lookup n) s (fun _ => I)) ->
       (forall msg s, I s -> safe cut (err msg) s (fun _ => I)) ->
       safe cut (evalLoop lookup err fuel pos result) s (fun _ => I).
Proof.
  induction fuel as [|fuel IH]; intros pos r0 l Hf; [lia|]. cbn [evalLoop].
  destruct pos as [|x pos]; [exists r0, []; rewrite app_nil_r; split; [done|]; by intros; apply safe_ret|].
  set (lit := fun c => negb (Ascii.eqb c DOLLAR)).
  assert (Hlen : forall p m, (length (drop_while p m) <= length m)%nat).
  { intros p. induction m as [|y m IHm]; [done|]. cbn. destruct (p y); cbn; lia. }
  assert (Hd : (length (drop_while lit (x :: pos)) < S fuel)%nat) by (specialize (Hlen lit (x :: pos)); lia).
  destruct (drop_while lit (x :: pos)) as [|y [|c rest]].
  - exists (r0 ++ take_while lit (x :: pos)), []. rewrite app_nil_r. split; [done|]. by intros; apply safe_ret.
  - exists (r0 ++ take_while lit (x :: pos)), []. rewrite app_nil_r. split; [done|].
    intros lookup err result s Hs _ He. eapply safe_bind; [by apply He|]. intros. by apply safe_ret.
  - cbn [length] in Hd. set (r1 := r0 ++ take_while lit (x :: pos)). 
    destruct (Ascii.eqb c LF).
    { destruct (IH (drop_while (fun c => isspace (Some c)) rest) r1 l) as (r & ns & E & HI);
        [specialize (Hlen (fun c => isspace (Some c)) rest); lia|]. exists r, ns. split; [done|]. intros. by apply HI. }
    destruct (Ascii.eqb c " " || Ascii.eqb c ":" || Ascii.eqb c DOLLAR)%char.
    { destruct (IH rest (r1 ++ [c]) l) as (r & ns & E & HI); [lia|]. exists r, ns. split; [done|]. intros. by apply HI. }
    destruct (Ascii.eqb c "{"%char).
    { set (ins := fun c => negb (Ascii.eqb c "}"%char)). pose proof (Hlen ins rest) as Hl2.
      destruct (drop_while ins rest) as [|z rest'].
      - destruct (IH [] r1 l) as (r & ns & E & HI); [cbn; lia|]. exists r, ns. split; [done|].
        intros lookup err result s Hs Hlk He. eapply safe_bind; [by apply He|]. intros a s' Hs'. by apply HI.
      - cbn [length] in Hl2. destruct (forallb isIdentifierChar (take_while ins rest)).
        + destruct (IH rest' (r1 ++ []) (l ++ [take_while ins rest])) as (r & ns & E & HI); [lia|].
          exists r, (take_while ins rest :: ns). split; [cbn; rewrite E, <- app_assoc; done|].
          intros lookup err result s Hs Hlk He. eapply safe_bind; [apply Hlk; [left|done]|].
          intros a s' Hs'. apply HI; [done| |done]. intros n s2 Hn. apply Hlk. by right.
        + destruct (IH rest' r1 l) as (r & ns & E & HI); [lia|]. exists r, ns. split; [done|].
          intros lookup err result s Hs Hlk He. eapply safe_bind; [by apply He|]. intros a s' Hs'. by apply HI. }
    destruct (isSimpleIdentifierChar c).
    + set (nm := c :: take_while isSimpleIdentifierChar rest).
      destruct (IH (drop_while isSimpleIdentifierChar rest) (r1 ++ []) (l ++ [nm])) as (r & ns & E & HI);
        [specialize (Hlen isSimpleIdentifierChar rest); lia|].
      exists r, (nm :: ns). split; [cbn; rewrite E, <- app_assoc; done|].
      intros lookup err result s Hs Hlk He. eapply safe_bind; [apply Hlk; [left|done]|].
      intros a s' Hs'. apply HI; [done| |done]. intros n s2 Hn. apply Hlk. by right.
    + exists r1, []. rewrite app_nil_r. split; [done|].
      intros lookup err result s Hs _ He. eapply safe_bind; [by apply He|]. intros. by apply safe_ret.
Qed.

Lemma evalString_safe {S} (I : S -> Prop) (lookup : chars -> M S chars) err str s : I s ->
  (forall n s, n ∈ refs str -> I s -> safe cut (lookup n) s (fun _ => I)) ->
  (forall msg s, I s -> safe cut (err msg) s (fun _ => I)) ->
  safe cut (evalString lookup err str) s (fun _ => I).
Proof.
  destruct (evalLoop_refs I (Datatypes.S (length str)) str [] [] ltac:(lia)) as (r & ns & E & HI).
  intros Hs Hl He. apply HI; [done| |done]. unfold refs, evalString in Hl. rewrite E in Hl. done.
Qed.

Lemma evalString_ok cur lookup err str s : loader_ok s ->
  (forall n s', n ∈ refs str -> within cur s s' -> ok cur (lookup n) s') ->
  (forall msg s', within cur s s' -> ok cur (err msg) s') ->
  ok cur (evalString lookup err str) s.
Proof.
  intros Hs Hl He. eapply safe_mono; [apply (evalString_safe (within cur s)); [by apply within_refl| |]|by intros; split].
  - intros n s' Hn Hw. eapply safe_mono; [by apply Hl|]. intros a s2 [H2 _]. by eapply within_trans.
  - intros msg s' Hw. eapply safe_mono; [by apply He|]. intros a s2 [H2 _]. by eapply within_trans.
Qed.

Lemma ok_lift {A} cur (o : outcome A) a s : loader_ok s -> o = Ok a -> ok cur (lift o) s.
Proof. intros H E. by eapply fine_lift. Qed.

(** ** Lookups *)

Lemma lookup_from_ok m name fuel : forall i, manifest_ok m -> (i < fuel)%nat -> (i < length (scopes m))%nat ->
  exists v, lookup_from fuel (scopes m) i name = Ok v.
Proof.
  induction fuel as [|fuel IH]; intros i Hm Hf Hi; [lia|]. cbn [lookup_from].
  destruct (lookup_lt_is_Some_2 _ _ Hi) as [sc E]. rewrite E. destruct (entries sc !! name); [eauto|].
  destruct (sparent sc) as [p|] eqn:Ep; [|eauto]. pose proof (so_parent _ _ _ (mo_scopes _ Hm i sc E) p Ep).
  apply IH; [done|lia|lia].
Qed.

Lemma ok_lookupBinding cur name s s0 : loader_ok s -> current cur s -> scopes (manifest s0) = scopes (manifest s) ->
  fine cur (lift (lookupBinding (scopes (manifest s0)) cur name)) s (fun _ s' => s' = s).
Proof.
  intros H Hc ->. destruct (lookup_from_ok (manifest s) name (S cur) cur) as [v E];
    [apply H|lia|by apply current_alive|]. by eapply fine_lift.
Qed.

Lemma fine_evalHere cur t s : loader_ok s -> current cur s -> is_string t = true ->
  fine cur (evalHere t) s (fun _ s' => manifest s' = manifest s).
Proof.
  intros H Hc Ht. unfold evalHere. eapply fine_bind; [by apply fine_currentScope|]. intros i s' _ [-> ->].
  unfold evalToken. apply safe_ensure; [exact Ht|].
  apply (evalString_safe (fun s' => within cur s s' /\ manifest s' = manifest s)); [split; [by apply within_refl|done]| |].
  - intros n s' _ [Hw E]. apply safe_get.
    eapply safe_mono; [apply (ok_lookupBinding cur n s' s'); [apply Hw|by eapply within_current|done]|].
    by intros v s2 [_ ->].
  - intros msg s' [Hw E]. eapply safe_mono; [apply fine_reportError; [apply Hw|by eapply within_current]|].
    intros [] s2 [W2 E2]. split; [by eapply within_trans|congruence].
Qed.

Lemma ok_evalHere cur t s : loader_ok s -> current cur s -> is_string t = true -> ok cur (evalHere t) s.
Proof. intros. eapply fine_mono; [by apply fine_evalHere|done]. Qed.

Lemma screenPaths_ok m l : Forall (fun n => (node n < length (nodes m))%nat) l -> exists ps, screenPaths m l = Ok ps.
Proof.
  induction 1 as [|n l Hn _ [ps IH]]; [by exists []|]. cbn [screenPaths].
  assert (Hp : exists p, inputScreenPath m n = Ok p).
  { unfold inputScreenPath, nodeScreenPath. destruct (asWritten n); [|eauto].
    destruct (lookup_lt_is_Some_2 _ _ Hn) as [nd ->]. eauto. }
  destruct Hp as [p ->]. cbn [obind]. rewrite IH. cbn. eauto.
Qed.
Lemma outputPaths_ok m l : Forall (node_in m) l -> exists ps, outputPaths m l = Ok ps.
Proof.
  induction 1 as [|n l (i & -> & Hi) _ [ps IH]]; [by exists []|]. cbn [outputPaths].
  unfold nodeScreenPath. destruct (lookup_lt_is_Some_2 _ _ Hi) as [nd ->]. cbn [obind]. rewrite IH. cbn. eauto.
Qed.

Lemma fine_commandAt cur d s : loader_ok s -> (d < length (commands (manifest s)))%nat ->
  fine cur (commandAt d) s (fun c s' => s' = s /\ commands (manifest s) !! d = Some c /\ command_ok (manifest s) c).
Proof.
  intros H Hd. apply fine_get. destruct (lookup_lt_is_Some_2 _ _ Hd) as [c E]. eapply fine_some; [done|exact E|].
  split; [done|]. split; [done|]. pose proof (mo_commands _ (lo_manifest _ H)) as Hc.
  by eapply Forall_lookup_1.
Qed.
Lemma fine_ruleAt cur d s : loader_ok s -> (d < length (ruleStore (manifest s)))%nat ->
  fine cur (ruleAt d) s (fun r s' => s' = s /\ ruleStore (manifest s) !! d = Some r /\ rule_ok r).
Proof.
  intros H Hd. apply fine_get. destruct (lookup_lt_is_Some_2 _ _ Hd) as [c E]. eapply fine_some; [done|exact E|].
  split; [done|]. split; [done|]. pose proof (mo_rules _ (lo_manifest _ H)) as Hc. by eapply Forall_lookup_1.
Qed.
Lemma fine_poolAt cur d s : loader_ok s -> (d < length (poolStore (manifest s)))%nat ->
  fine cur (poolAt d) s (fun p s' => s' = s).
Proof. intros H Hd. apply fine_get. destruct (lookup_lt_is_Some_2 _ _ Hd) as [c E]. by eapply fine_some. Qed.

(** The stack depth a parameter needs. *)
Definition need (name : chars) : nat := if isValidParameterName name then S (prank name) else 0%nat.

Lemma ok_lookupParameter cur ctx fuel : forall name s, loader_ok s -> current cur s ->
  (cdecl ctx < length (commands (manifest s)))%nat -> cut \/ (need name < fuel)%nat ->
  ok cur (lookupBuildParameter fuel ctx name) s.
Proof.
  induction fuel as [|fuel IH]; intros name s H Hc Hd Hf.
  { apply safe_fuel. destruct Hf; [done|lia]. }
  cbn [lookupBuildParameter]. eapply fine_bind; [by apply fine_commandAt|]. intros c s1 _ (-> & Ec & Hcmd).
  apply fine_get. destruct (_ || _).
  { eapply fine_bind with (R := fun l s' => s' = s /\ l = take (numExplicitInputs c) (inputs c)).
    { unfold explicitInputs. pose proof (co_numIn _ _ Hcmd). rewrite (proj2 (Nat.leb_le _ _)) by lia. by eapply fine_lift. }
    intros l s1 _ [-> ->]. destruct (screenPaths_ok (manifest s) (take (numExplicitInputs c) (inputs c))) as [ps E].
    { apply Forall_take, Hcmd. }
    eapply fine_bind; [by eapply ok_lift|]. intros ps' s2 Hw _. apply fine_ret; [apply Hw|done]. }
  destruct (bool_decide _).
  { eapply fine_bind with (R := fun l s' => s' = s /\ l = take (numExplicitOutputs c) (outputs c)).
    { unfold getExplicitOutputs. pose proof (co_numOut _ _ Hcmd). rewrite (proj2 (Nat.leb_le _ _)) by lia. by eapply fine_lift. }
    intros l s1 _ [-> ->]. destruct (outputPaths_ok (manifest s) (take (numExplicitOutputs c) (outputs c))) as [ps E].
    { apply Forall_take, Hcmd. }
    eapply fine_bind; [by eapply ok_lift|]. intros ps' s2 Hw _. apply fine_ret; [apply Hw|done]. }
  destruct (cparameters c !! name); [by apply fine_ret|].
  eapply fine_bind; [apply fine_ruleAt; [done|apply Hcmd]|]. intros r s1 _ (-> & Er & Hr).
  destruct (rparameters r !! name) as [v|] eqn:Ev.
  - destruct (Hr name v Ev) as [Hvalid Hrank]. apply evalString_ok; [done| |].
    + intros n s' Hn Hw. apply IH; [apply Hw|by eapply within_current| |].
      * pose proof (fr_commands _ _ _ (wi_frame _ _ _ Hw)). lia.
      * destruct Hrank as [|Hrank]; [by left|]. destruct Hf as [|Hf]; [by left|right].
        unfold need in *. rewrite Hvalid in Hf. destruct (isValidParameterName n) eqn:En; [|lia].
        specialize (Hrank n Hn En). lia.
    + intros msg s' Hw. apply ok_reportError; [apply Hw|by eapply within_current].
  - eapply fine_bind; [by apply fine_currentScope|]. intros i s1 _ [-> ->]. eapply fine_mono; [by apply ok_lookupBinding|done].
Qed.

(** ** Actions *)

Context (wd : chars) (Hwd : is_absolute wd = true) (stack : nat) (Hstack : cut \/ (forall n, (need n < stack)%nat)).

Lemma ok_updateScope cur f s : loader_ok s -> current cur s ->
  (forall sc, scopes (manifest s) !! cur = Some sc -> scope_ok (manifest s) cur (f sc)) -> ok cur (updateScope cur f) s.
Proof.
  intros H Hc Hf. unfold updateScope. eapply fine_bind; [by apply fine_scopeAt|]. intros sc s1 _ [-> E].
  eapply fine_mono; [apply fine_onManifest; [done| |]|done].
  - apply manifest_scope; [apply H|by apply Hf].
  - apply frame_scope.
Qed.

Lemma ok_bindingDecl cur n v s : loader_ok s -> current cur s -> is_string v = true -> ok cur (actOnBindingDecl n v) s.
Proof.
  intros H Hc Hv. eapply fine_bind; [by apply ok_evalHere|]. intros value s1 W1 _.
  pose proof (within_current _ _ _ W1 Hc) as Hc1.
  eapply fine_bind; [apply fine_currentScope; [apply W1|done]|]. intros i s2 _ [-> ->].
  apply ok_updateScope; [apply W1|done|]. intros sc E.
  destruct (mo_scopes _ (lo_manifest _ (wi_ok _ _ _ W1)) _ _ E). by constructor.
Qed.

Lemma ok_mapM {A} cur (f : A -> L unit) (l : list A) s : loader_ok s ->
  (forall x s', x ∈ l -> within cur s s' -> ok cur (f x) s') -> ok cur (mapM_ f l) s.
Proof.
  intros H Hf. enough (Hg : forall s', within cur s s' -> ok cur (mapM_ f l) s') by by apply Hg, within_refl.
  induction l as [|x l IH]; intros s' Hw; [apply fine_ret; [apply Hw|done]|]. cbn [mapM_].
  eapply fine_bind; [apply Hf; [left|done]|]. intros [] s2 H2 _. apply IH; [|by eapply within_trans].
  intros y s3 Hy. apply Hf. by right.
Qed.

Lemma ok_defaultDecl cur ns s : loader_ok s -> current cur s -> ok cur (actOnDefaultDecl wd ns) s.
Proof.
  intros H Hc. apply ok_mapM; [done|]. intros t s1 _ W1. apply fine_get.
  pose proof (wi_ok _ _ _ W1) as H1. pose proof (within_current _ _ _ W1 Hc) as Hc1.
  destruct (normalize_some wd (text t) Hwd) as (q & Eq & _).
  eapply fine_bind with (R := fun n s' => s' = s1 /\ n = nodeTable (manifest s1) !! q).
  { unfold findNode. rewrite Eq. by eapply fine_lift. }
  intros n s2 _ [-> ->]. destruct (nodeTable (manifest s1) !! q) as [i|] eqn:En; [|by apply ok_errorAt].
  destruct (no_table _ (mo_nodes _ (lo_manifest _ H1)) _ _ En) as (nd & End & _).
  eapply fine_mono; [apply fine_onManifest; [done| |]|done]; [|by constructor].
  apply manifest_defaults; [apply H1|]. apply Forall_app. split; [apply (mo_defaults _ (lo_manifest _ H1))|].
  repeat constructor. by eapply lookup_lt_Some.
Qed.

Lemma manifest_node m q p : manifest_ok m -> normal q -> nodeTable m !! q = None ->
  manifest_ok (mkManifest (scopes m) (nodes m ++ [mkNode q p]) (<[q := length (nodes m)]> (nodeTable m))
    (ruleStore m) (poolStore m) (poolTable m) (commands m) (defaultTargets m)).
Proof.
  intros [A1 A2 A3 A4 A5 A6 A7] Hq Hn. set (m' := mkManifest _ _ _ _ _ _ _ _).
  assert (G : grows m m') by (constructor; cbn; rewrite ?length_app; lia).
  constructor; try done.
  - by apply nodes_ok_new.
  - eapply Forall_impl; [|exact A2]. intros c. by apply command_ok_grows.
  - intros i sc Hi. apply (scope_ok_grows m); [done|by apply A3].
  - cbn. eapply Forall_impl; [|exact A7]. cbn. intros i Hi. rewrite length_app. lia.
Qed.

Lemma fine_nodeFor cur path s : loader_ok s -> fine cur (nodeFor wd path) s (fun n s' => node_in (manifest s') n).
Proof.
  intros H. unfold fine, safe, nodeFor, findOrCreateNode. destruct (normalize_some wd path Hwd) as (q & -> & Hq).
  cbn [obind]. destruct (nodeTable (manifest s) !! q) as [i|] eqn:E.
  - split; [|].
    + destruct s. by apply within_refl.
    + destruct (no_table _ (mo_nodes _ (lo_manifest _ H)) _ _ E) as (n & En & _). exists i. split; [done|].
      cbn. by eapply lookup_lt_Some.
  - split.
    + constructor; cbn; try done.
      * constructor; cbn; [apply manifest_node; [apply H|done|done]|apply H].
      * constructor; cbn; try done. rewrite length_app. lia.
    + eexists. split; [done|]. cbn. rewrite length_app. cbn. lia.
Qed.

Lemma ok_evalPath cur what t s : loader_ok s -> current cur s -> is_string t = true -> ok cur (evalPath what t) s.
Proof.
  intros H Hc Ht. eapply fine_bind; [by apply ok_evalHere|]. intros p s1 W1 _. pose proof (within_current _ _ _ W1 Hc) as Hc1.
  eapply fine_bind with (R := fun _ _ => True); [|intros _ s2 W2 _; apply fine_ret; [apply W2|done]].
  destruct p; [apply ok_errorAt; [apply W1|done]|apply fine_ret; [apply W1|done]].
Qed.

Lemma node_in_grows m m' n : (length (nodes m) <= length (nodes m'))%nat -> node_in m n -> node_in m' n.
Proof. intros Hl (i & -> & Hi). exists i. split; [done|lia]. Qed.

(** The nodes in [ns], added to [outs] unless they are there. *)
Definition adds (outs : list (option nat)) (ns : list (option nat)) : list (option nat) :=
  fold_left (fun outs n => if bool_decide (n ∈ outs) then outs else outs ++ [n]) ns outs.

Lemma adds_prefix ns : forall outs, exists l, adds outs ns = outs ++ l.
Proof.
  induction ns as [|n ns IH]; intros outs; [exists []; by rewrite app_nil_r|].
  change (adds outs (n :: ns)) with (adds (if bool_decide (n ∈ outs) then outs else outs ++ [n]) ns).
  case_bool_decide; [apply IH|]. destruct (IH (outs ++ [n])) as [l El]. exists (n :: l). by rewrite El, <- app_assoc.
Qed.

(** The loop collects the distinct nodes of the tokens, and counts those that an
    explicit token names. *)
Lemma fine_outputLoop cur k tokens : forall i no outs s, loader_ok s -> current cur s ->
  forallb is_string tokens = true -> Forall (node_in (manifest s)) outs -> NoDup outs ->
  fine cur (outputLoop wd i k no tokens outs) s (fun r s' => exists ns,
    length ns = length tokens /\ r.1 = adds outs ns /\ Forall (node_in (manifest s')) r.1 /\ NoDup r.1
    /\ ((no + i = k + length outs)%nat -> (i <= k <= i + length tokens)%nat -> (length outs <= i)%nat ->
        take r.2 r.1 = adds outs (take (k - i) ns) /\ (r.2 <= length r.1)%nat)
    /\ ((k < i)%nat -> r.2 = no)).
Proof.
  induction tokens as [|t tokens IH]; intros i no outs s H Hc Ht Ho Hn; cbn [outputLoop].
  { apply fine_ret; [done|]. exists []. cbn. split; [done|]. split; [done|]. split; [done|]. split; [done|]. split; [|done].
    intros E Hi Hl. assert (Eno : no = length outs) by lia. rewrite Eno, take_nil. split; [by rewrite take_ge|done]. }
  cbn [forallb] in Ht. apply andb_prop in Ht as [Ht Hts].
  eapply fine_bind; [by apply ok_evalPath|]. intros p s1 W1 _. pose proof (within_current _ _ _ W1 Hc) as Hc1.
  eapply fine_bind; [apply fine_nodeFor, W1|]. intros n s2 W2 Hni. pose proof (within_current _ _ _ W2 Hc1) as Hc2.
  assert (Ho2 : Forall (node_in (manifest s2)) outs).
  { eapply Forall_impl; [|exact Ho]. intros x. apply node_in_grows.
    apply (fr_nodes cur), (wi_frame _ s s2). by eapply within_trans. }
  case_bool_decide as Hin.
  - eapply fine_mono; [apply (IH (S i) _ outs s2); [apply W2|done..]|]. cbn beta.
    intros r s3 (ns & Hl & E1 & H1 & H2 & H3 & H4). exists (n :: ns). cbn [length]. split; [by rewrite Hl|].
    split; [unfold adds; cbn [fold_left]; by rewrite bool_decide_eq_true_2|]. split; [done|]. split; [done|]. split.
    + intros E Hi Hlo. destruct (Nat.ltb_spec i k) as [Hik|Hik].
      * destruct H3 as [H3 H3']; [lia|lia|lia|]. split; [|done]. rewrite H3.
        replace (k - i)%nat with (S (k - S i)) by lia. unfold adds. cbn [take fold_left]. by rewrite bool_decide_eq_true_2.
      * assert (k = i) by lia. subst k. rewrite Nat.sub_diag, take_0. cbn [adds fold_left].
        rewrite (H4 ltac:(lia)). rewrite E1. destruct (adds_prefix ns outs) as [l ->].
        rewrite length_app. split; [|lia]. rewrite take_app_le by lia. apply take_ge. lia.
    + intros Hk. rewrite H4 by lia. by rewrite (proj2 (Nat.ltb_ge _ _)) by lia.
  - assert (Hn2 : NoDup (outs ++ [n])) by by apply NoDup_snoc.
    eapply fine_mono; [apply (IH (S i) _ (outs ++ [n]) s2); [apply W2|done|done| |done]|].
    { apply Forall_app. split; [done|]. by repeat constructor. }
    cbn beta. intros r s3 (ns & Hl & E1 & H1 & H2 & H3 & H4). exists (n :: ns). cbn [length]. split; [by rewrite Hl|].
    split; [unfold adds; cbn [fold_left]; by rewrite bool_decide_eq_false_2|]. split; [done|]. split; [done|]. split.
    + intros E Hi Hlo. destruct (Nat.ltb_spec i k) as [Hik|Hik].
      * destruct H3 as [H3 H3']; [rewrite length_app; cbn; lia|lia|rewrite length_app; cbn; lia|]. split; [|done]. rewrite H3.
        replace (k - i)%nat with (S (k - S i)) by lia. unfold adds. cbn [take fold_left]. by rewrite bool_decide_eq_false_2.
      * assert (k = i) by lia. subst k. rewrite Nat.sub_diag, take_0. cbn [adds fold_left].
        rewrite (H4 ltac:(lia)), E1. destruct (adds_prefix ns (outs ++ [n])) as [l El]. rewrite El.
        rewrite !length_app. split; [|lia]. rewrite <- app_assoc, take_app_le by lia. apply take_ge. lia.
    + intros Hk. by rewrite H4 by lia.
Qed.

Lemma fine_inputLoop cur tokens : forall s, loader_ok s -> current cur s -> forallb is_string tokens = true ->
  fine cur (inputLoop wd tokens) s (fun l s' =>
    Forall (fun n => (node n < length (nodes (manifest s')))%nat) l /\ length l = length tokens).
Proof.
  induction tokens as [|t tokens IH]; intros s H Hc Ht; cbn [inputLoop]; [by apply fine_ret|].
  cbn [forallb] in Ht. apply andb_prop in Ht as [Ht Hts].
  eapply fine_bind; [by apply ok_evalPath|]. intros p s1 W1 _. pose proof (within_current _ _ _ W1 Hc) as Hc1.
  eapply fine_bind; [apply fine_nodeFor, W1|]. intros n s2 W2 (i & -> & Hi). pose proof (within_current _ _ _ W2 Hc1) as Hc2.
  apply fine_get. eapply fine_bind with (R := fun n s' => s' = s2 /\ node n = i).
  { destruct (lookup_lt_is_Some_2 _ _ Hi) as [nd End]. eapply fine_lift; [apply W2| |].
    - unfold newNodeInCommand, nodeScreenPath. rewrite End. cbn [obind]. reflexivity.
    - done. }
  intros nc s3 _ [-> En]. eapply fine_bind; [apply IH; [apply W2|done|done]|]. intros l s4 W4 [Hl Hlen].
  apply fine_ret; [apply W4|]. cbn. split; [|by rewrite Hlen]. constructor; [|done].
  pose proof (fr_nodes _ _ _ (wi_frame _ _ _ W4)). lia.
Qed.

(** What [actOnBeginBuildDecl] returns: a command whose outputs are the distinct
    nodes of the tokens, those of explicit tokens first. *)
Definition begun (k : nat) (tokens : list Token) (d : nat) (s : Loader) : Prop :=
  exists c ns, commands (manifest s) !! d = Some c /\ length ns = length tokens
    /\ outputs c = adds [] ns /\ take (numExplicitOutputs c) (outputs c) = adds [] (take k ns).

Lemma adds_empty ns : adds [] ns = [] -> ns = [].
Proof.
  destruct ns as [|n ns]; [done|]. change (adds [] (n :: ns)) with (adds [n] ns).
  destruct (adds_prefix ns [n]) as [l ->]. done.
Qed.

Lemma fine_beginBuild cur n outs ins ne ni k s : loader_ok s -> current cur s ->
  call Outside (BeginBuildDecl n outs ins ne ni k) = Some InBuild ->
  fine cur (actOnBeginBuildDecl wd n outs ins ne ni k) s (fun d s' =>
    (d < length (commands (manifest s')))%nat /\ begun k outs d s').
Proof.
  intros H Hc Hcall. cbn [call] in Hcall. destruct (_ && _) eqn:E in Hcall; [|done].
  repeat (apply andb_prop in E as [E ?Hb]).
  repeat match goal with Hb : (_ <=? _)%nat = true |- _ => apply Nat.leb_le in Hb
                       | Hb : (_ <? _)%nat = true |- _ => apply Nat.ltb_lt in Hb end.
  unfold actOnBeginBuildDecl. eapply fine_bind; [by apply fine_currentScope|]. intros i s1 _ [-> ->].
  eapply fine_bind; [by apply fine_scopeAt|]. intros sc s1 _ [-> Esc].
  eapply fine_bind with (R := fun r s' => (r < length (ruleStore (manifest s')))%nat).
  { destruct (rules sc !! text n) as [r|] eqn:Er.
    - apply fine_ret; [done|]. by apply (so_rules _ _ _ (mo_scopes _ (lo_manifest _ H) _ _ Esc) _ _ Er).
    - eapply fine_bind; [by apply ok_errorAt|]. intros [] s2 W2 _. apply fine_ret; [apply W2|].
      apply (mo_phony _ (lo_manifest _ (wi_ok _ _ _ W2))). }
  intros r s1 W1 Hr. pose proof (within_current _ _ _ W1 Hc) as Hc1.
  eapply fine_bind; [apply (fine_outputLoop cur k outs 0 k [] s1); [apply W1|done|done|constructor|constructor]|].
  intros [os no] s2 W2 (ns & Hl & Eo & Hon & Hnd & Hk & _). cbn [fst snd] in *.
  pose proof (within_current _ _ _ W2 Hc1) as Hc2. destruct Hk as [Htake Hno]; [cbn; lia|lia|cbn; lia|].
  rewrite Nat.sub_0_r in Htake.
  eapply fine_bind; [apply fine_inputLoop; [apply W2|done|done]|]. intros inps s3 W3 [Hin Hil].
  assert (Hos : (0 < length os)%nat).
  { destruct os; [|cbn; lia]. symmetry in Eo. apply adds_empty in Eo as ->. cbn in *. lia. }
  assert (Hno0 : (0 < no)%nat).
  { destruct no; [|lia]. rewrite take_0 in Htake. symmetry in Htake. apply adds_empty in Htake.
    apply (f_equal length) in Htake. rewrite length_take in Htake. cbn in Htake. lia. }
  set (c := mkCommand r os inps ne ni no ∅ None [] [] [] [] [] DepsNone false false).
  eapply fine_bind with (R := fun c' s' => c' = c /\ s' = s3).
  { eapply fine_lift; [apply W3| |done]. unfold newCommand. destruct (Nat.eqb_spec (length os) 0); [lia|].
    rewrite !(proj2 (Nat.leb_le _ _)) by lia. done. }
  intros c' s4 _ [-> ->]. apply fine_get. pose proof (wi_ok _ _ _ W3) as H3.
  eapply fine_bind; [apply fine_onManifest; [done| |]|].
  - apply manifest_commands; [apply H3|]. apply Forall_app. split; [apply (mo_commands _ (lo_manifest _ H3))|].
    constructor; [|constructor]. pose proof (wi_frame _ _ _ W2) as F2. pose proof (wi_frame _ _ _ W3) as F3.
    pose proof (fr_rules _ _ _ F2). pose proof (fr_rules _ _ _ F3).
    constructor; cbn; try done; try lia.
    eapply Forall_impl; [|exact Hon]. intros x. apply node_in_grows, F3.
  - apply frame_commands. rewrite length_app. lia.
  - intros [] s4 W4 E4. apply fine_ret; [apply W4|]. rewrite E4. cbn. rewrite length_app. split; [cbn; lia|].
    exists c, ns. rewrite E4. cbn. split; [by rewrite lookup_app_r, Nat.sub_diag by lia|done].
Qed.

Lemma ok_updateCommand cur d f s : loader_ok s -> (d < length (commands (manifest s)))%nat ->
  (forall c, command_ok (manifest s) c -> command_ok (manifest s) (f c)) -> ok cur (updateCommand d f) s.
Proof.
  intros H Hd Hf. eapply fine_bind; [by apply fine_commandAt|]. intros c s1 _ (-> & Ec & Hcmd).
  eapply fine_mono; [apply fine_onManifest; [done| |]|done].
  - apply manifest_commands; [apply H|]. apply Forall_insert; [apply (mo_commands _ (lo_manifest _ H))|by apply Hf].
  - apply frame_commands. by rewrite length_insert.
Qed.

Lemma ok_buildBinding cur d n v s : loader_ok s -> current cur s -> (d < length (commands (manifest s)))%nat ->
  is_string v = true -> ok cur (actOnBuildBindingDecl d n v) s.
Proof.
  intros H Hc Hd Hv. eapply fine_bind; [by apply ok_evalHere|]. intros value s1 W1 _.
  apply ok_updateCommand; [apply W1| |].
  - pose proof (fr_commands _ _ _ (wi_frame _ _ _ W1)). lia.
  - intros c []. by constructor.
Qed.

(** A command under construction. *)
Definition live (cur d : nat) (s : Loader) : Prop :=
  loader_ok s /\ current cur s /\ (d < length (commands (manifest s)))%nat.

Lemma live_bind {A B} cur d (m : L A) (f : A -> L B) s : live cur d s -> ok cur m s ->
  (forall a s', live cur d s' -> ok cur (f a) s') -> ok cur (bind m f) s.
Proof.
  intros (H & Hc & Hd) Hm Hf. eapply fine_bind; [exact Hm|]. intros a s' W _. apply Hf.
  split; [apply W|]. split; [by eapply within_current|]. pose proof (fr_commands _ _ _ (wi_frame _ _ _ W)). lia.
Qed.
Lemma live_ret {A} cur d (a : A) s : live cur d s -> ok cur (ret a) s.
Proof. intros (H & _). by apply fine_ret. Qed.
Lemma live_error cur d msg t s : live cur d s -> ok cur (reportError msg t) s.
Proof. intros (H & Hc & _). by apply ok_reportError. Qed.
Lemma live_update cur d f s : live cur d s ->
  (forall c, command_ok (manifest s) c -> command_ok (manifest s) (f c)) -> ok cur (updateCommand d f) s.
Proof. intros (H & _ & Hd). by apply ok_updateCommand. Qed.
Lemma live_parameter cur d t name s : live cur d s -> ok cur (lookupNamedBuildParameter stack d t name) s.
Proof.
  intros (H & Hc & Hd). apply ok_lookupParameter; [done..|]. destruct Hstack; [by left|by right].
Qed.

Ltac live_step :=
  match goal with
  | |- fine _ (bind (lookupNamedBuildParameter _ ?d _ _) _) _ _ =>
      eapply (live_bind _ d); [eassumption|by apply (live_parameter _ d)|intros ? ? ?]
  | |- fine _ (bind (updateCommand ?d _) _) _ _ =>
      eapply (live_bind _ d); [eassumption|apply live_update; [done|intros ? []; by constructor]|intros [] ? ?]
  | |- fine _ (updateCommand ?d _) _ _ => apply live_update; [done|intros ? []; by constructor]
  | |- fine _ (bind get _) _ _ => apply fine_get
  | |- fine _ (ret _) _ _ => by eapply live_ret
  | |- fine _ (reportError _ _) _ _ => by eapply live_error
  | |- fine _ (errorAt _ _) _ _ => by eapply live_error
  end.

Lemma ok_endBuild cur d t s : live cur d s -> ok cur (actOnEndBuildDecl wd stack d t) s.
Proof.
  intros Hl. unfold actOnEndBuildDecl. do 6 live_step.
  eapply (live_bind _ d); [eassumption| |intros style s5 H5].
  { destruct (bool_decide _); [live_step|]. destruct (bool_decide _); [live_step|]. destruct (bool_decide _); [live_step|].
    eapply (live_bind _ d); [eassumption|by eapply live_error|intros [] ? ?]. live_step. }
  live_step. eapply (live_bind _ d); [eassumption| |intros [] s7 H7].
  { destruct (negb _), style; live_step. }
  live_step. eapply (live_bind _ d); [eassumption| |intros [] s9 H9].
  { destruct (bool_decide _); [live_step|]. live_step.
    match goal with |- context [poolTable (manifest ?x) !! ?p] => rename x into s8; destruct (poolTable (manifest s8) !! p) as [q|] eqn:Ep end;
      [|live_step].
    apply live_update; [done|]. intros c []. constructor; try done. cbn. intros p [= <-].
    match goal with H : live _ _ s8 |- _ => destruct H as (Hok & _) end. by apply (mo_pools _ (lo_manifest _ Hok) _ _ Ep). }
  do 5 live_step. destruct (bool_decide _); [live_step|].
  match goal with |- context [normalize_path wd ?p] => destruct (normalize_some wd p Hwd) as (q & Eq & _) end.
  match goal with |- fine _ _ ?x _ => rename x into s10 end.
  eapply fine_bind with (R := fun p s' => p = Some q /\ s' = s10).
  { eapply fine_lift; [|exact Eq|done]. match goal with H : live _ _ s10 |- _ => apply H end. }
  intros p s11 _ [-> ->]. do 3 live_step.
Qed.

(** ** Pools and rules *)

Lemma fine_beginPool cur n s : loader_ok s -> current cur s ->
  fine cur (actOnBeginPoolDecl n) s (fun d s' => (d < length (poolStore (manifest s')))%nat).
Proof.
  intros H Hc. unfold actOnBeginPoolDecl. apply fine_get. cbn zeta.
  eapply fine_bind with (R := fun _ s' => manifest s' = manifest s).
  { destruct (bool_decide _); [by apply fine_reportError|by apply fine_ret]. }
  intros [] s1 W1 E1. pose proof (wi_ok _ _ _ W1) as H1.
  eapply fine_bind; [apply fine_onManifest; [done| |]|].
  - apply manifest_pools; [apply H1|rewrite length_app; lia|]. intros k p. rewrite length_app. cbn.
    destruct (decide (text n = k)) as [<-|Hne].
    + rewrite lookup_insert_eq. intros [= <-]. rewrite E1. lia.
    + rewrite lookup_insert_ne by done. intros Hp. pose proof (mo_pools _ (lo_manifest _ H1) _ _ Hp). lia.
  - apply frame_pools. rewrite length_app. lia.
  - intros [] s2 W2 E2. apply fine_ret; [apply W2|]. rewrite E2. cbn. rewrite length_app. cbn. rewrite E1. lia.
Qed.

Lemma ok_poolBinding cur d n v s : loader_ok s -> current cur s -> (d < length (poolStore (manifest s)))%nat ->
  is_string v = true -> ok cur (actOnPoolBindingDecl d n v) s.
Proof.
  intros H Hc Hd Hv. unfold actOnPoolBindingDecl. eapply fine_bind; [by apply ok_evalHere|]. intros value s1 W1 _.
  pose proof (wi_ok _ _ _ W1) as H1. pose proof (within_current _ _ _ W1 Hc) as Hc1.
  pose proof (fr_pools _ _ _ (wi_frame _ _ _ W1)) as Hp1.
  destruct (bool_decide _); [|by apply ok_errorAt]. destruct (getAsInteger value); [|by apply ok_errorAt].
  destruct (_ <=? _)%Z; [by apply ok_errorAt|]. eapply fine_bind; [apply fine_poolAt; [done|lia]|]. intros p s2 _ ->.
  eapply fine_mono; [apply fine_onManifest; [done| |]|done].
  - apply manifest_pools; [apply H1|by rewrite length_insert|]. intros k q Hq. rewrite length_insert.
    by apply (mo_pools _ (lo_manifest _ H1) _ _ Hq).
  - apply frame_pools. by rewrite length_insert.
Qed.

Lemma ok_endPool cur d t s : loader_ok s -> current cur s -> (d < length (poolStore (manifest s)))%nat ->
  ok cur (actOnEndPoolDecl d t) s.
Proof.
  intros H Hc Hd. eapply fine_bind; [by apply fine_poolAt|]. intros p s1 _ ->.
  destruct (_ =? _)%Z; [by apply ok_errorAt|by apply fine_ret].
Qed.

Lemma fine_beginRule cur n s : loader_ok s -> current cur s ->
  fine cur (actOnBeginRuleDecl n) s (fun d s' => (d < length (ruleStore (manifest s')))%nat).
Proof.
  intros H Hc. unfold actOnBeginRuleDecl. eapply fine_bind; [by apply fine_currentScope|]. intros i s1 _ [-> ->].
  eapply fine_bind; [by apply fine_scopeAt|]. intros sc s1 _ [-> Esc].
  eapply fine_bind with (R := fun _ _ => True).
  { destruct (bool_decide _); [by apply ok_errorAt|by apply fine_ret]. }
  intros [] s1 W1 _. pose proof (wi_ok _ _ _ W1) as H1. pose proof (within_current _ _ _ W1 Hc) as Hc1. apply fine_get. cbn zeta.
  eapply fine_bind; [apply fine_onManifest; [done| |]|].
  - apply manifest_rules; [apply H1|rewrite length_app; lia|]. apply Forall_app. split; [apply (mo_rules _ (lo_manifest _ H1))|].
    constructor; [|constructor]. intros k v. cbn. by rewrite lookup_empty.
  - apply frame_rules. rewrite length_app. lia.
  - intros [] s2 W2 E2. pose proof (within_current _ _ _ W2 Hc1) as Hc2.
    assert (Hlen : length (ruleStore (manifest s2)) = S (length (ruleStore (manifest s1)))) by (rewrite E2; cbn; rewrite length_app; cbn; lia).
    eapply fine_bind; [apply ok_updateScope; [apply W2|done|]|].
    + intros sc2 Esc2. destruct (mo_scopes _ (lo_manifest _ (wi_ok _ _ _ W2)) _ _ Esc2) as [B1 B2]. constructor; [done|].
      cbn. intros k r. destruct (decide (text n = k)) as [<-|Hne].
      * rewrite lookup_insert_eq. intros [= <-]. lia.
      * rewrite lookup_insert_ne by done. apply B2.
    + intros [] s3 W3 _. apply fine_ret; [apply W3|]. pose proof (fr_rules _ _ _ (wi_frame _ _ _ W3)). lia.
Qed.

Lemma ok_ruleBinding cur d n v s : loader_ok s -> current cur s -> (d < length (ruleStore (manifest s)))%nat ->
  (isValidParameterName (text n) = true -> ranked (text n) (text v)) -> ok cur (actOnRuleBindingDecl d n v) s.
Proof.
  intros H Hc Hd Hr. unfold actOnRuleBindingDecl. destruct (isValidParameterName (text n)) eqn:Hn; [|by apply ok_errorAt].
  eapply fine_bind; [by apply fine_ruleAt|]. intros r s1 _ (-> & Er & Hok).
  eapply fine_mono; [apply fine_onManifest; [done| |]|done].
  - apply manifest_rules; [apply H|by rewrite length_insert|]. apply Forall_insert; [apply (mo_rules _ (lo_manifest _ H))|].
    intros k w. cbn. destruct (decide (text n = k)) as [<-|Hne].
    + rewrite lookup_insert_eq. intros [= <-]. auto.
    + rewrite lookup_insert_ne by done. apply Hok.
  - apply frame_rules. by rewrite length_insert.
Qed.

Lemma ok_endRule cur d t s : loader_ok s -> current cur s -> (d < length (ruleStore (manifest s)))%nat ->
  ok cur (actOnEndRuleDecl d t) s.
Proof.
  intros H Hc Hd. eapply fine_bind; [by apply fine_ruleAt|]. intros p s1 _ (-> & _).
  destruct (bool_decide _); [by apply fine_ret|by apply ok_errorAt].
Qed.

(** ** Files *)

Context (readFile : chars -> option (chars * chars)) (irank : chars -> nat).

(** A file that parses, whose rule parameters are ranked, and whose includes name
    files of lower rank literally (unless the loader may be cut short). *)
Definition file_ok (p contents : chars) : Prop := exists evs, NinjaParser.parse contents = Ok evs
  /\ calls Start evs = Some Done
  /\ (forall n v, RuleBindingDecl n v ∈ evs -> isValidParameterName (text n) = true -> ranked (text n) (text v))
  /\ (cut \/ (forall b t, IncludeDecl b t ∈ evs ->
        (DOLLAR ∉ text t) /\ (irank (make_absolute wd (text t)) < irank p)%nat)).

Hypothesis Hfiles : forall p id contents, readFile p = Some (id, contents) -> file_ok p contents.

(** A step of the parser of the current file. *)
Record inside (cur : nat) (s s' : Loader) : Prop := {
  in_ok : loader_ok s';
  in_frame : frame cur (manifest s) (manifest s');
  in_stack : includeStack s' = includeStack s }.

(** The current file has been loaded and left. *)
Record left_file (cur : nat) (s s' : Loader) : Prop := {
  lf_ok : loader_ok s';
  lf_frame : frame cur (manifest s) (manifest s');
  lf_stack : includeStack s' = tail (includeStack s) }.

Definition at_phase (ph : Phase) (cur : nat) (s : Loader) : Prop :=
  loader_ok s /\ current cur s /\
  match ph with
  | InBuild => (decl s < length (commands (manifest s)))%nat
  | InPool => (decl s < length (poolStore (manifest s)))%nat
  | InRule => (decl s < length (ruleStore (manifest s)))%nat
  | _ => True
  end.

Lemma take_while_all p l : forallb p l = true -> take_while p l = l /\ drop_while p l = [].
Proof. induction l as [|c l IH]; [done|]. cbn. destruct (p c); [|done]. intros H. destruct (IH H) as [-> ->]. done. Qed.

Lemma evalString_literal {S} (lookup : chars -> M S chars) err str s : DOLLAR ∉ str ->
  evalString lookup err str s = Ok (str, s).
Proof.
  intros H. unfold evalString. cbn [evalLoop]. destruct str as [|c str]; [done|].
  assert (Hl : forallb (fun c => negb (Ascii.eqb c DOLLAR)) (c :: str) = true).
  { apply forallb_forall. intros x Hx. apply negb_true_iff, ascii_eqb_neq. intros ->. by apply H, list_elem_of_In. }
  destruct (take_while_all _ _ Hl) as [-> ->]. done.
Qed.

Lemma fine_evalPathToken cur t s : loader_ok s -> current cur s -> is_string t = true ->
  fine cur (evalHere t) s (fun p s' => manifest s' = manifest s /\ (DOLLAR ∉ text t -> p = text t)).
Proof.
  intros H Hc Ht. destruct (decide (DOLLAR ∈ text t)) as [Hin|Hn]; [eapply fine_mono; [by apply fine_evalHere|done]|].
  eapply fine_bind; [by apply fine_currentScope|]. intros i s1 _ [-> ->].
  apply safe_ensure; [exact Ht|]. unfold safe. rewrite evalString_literal by done.
  split; [by apply within_refl|done].
Qed.

Lemma inside_within cur s s' : within cur s s' -> inside cur s s'.
Proof. intros []. by constructor. Qed.

Section Nested.
Context (fuel : nat) (run : chars -> L unit).
Hypothesis Hrun : forall cur p id contents s, readFile p = Some (id, contents) -> cut \/ (irank p < fuel)%nat ->
  loader_ok s -> current cur s -> safe cut (run contents) s (fun _ => left_file cur s).

(** Loading the file [path] in the scope [cur]. *)
Lemma nested_ok cur path s : loader_ok s -> (cur < length (scopes (manifest s)))%nat ->
  cut \/ (irank (make_absolute wd path) < fuel)%nat ->
  safe cut (f <~ enterFile readFile wd path cur; match f with Some contents => run contents | None => ret tt end) s
    (fun _ => inside cur s).
Proof.
  intros H Hc Hr. unfold enterFile. destruct (readFile (make_absolute wd path)) as [[id contents]|] eqn:E.
  - eapply safe_bind with (Q1 := fun f s' => f = Some contents /\
      s' = mkLoader (manifest s) ((id, cur) :: includeStack s) (errors s) (decl s)); [done|].
    intros f s1 [-> ->]. eapply safe_mono; [eapply Hrun; [exact E|done| |by eexists _, _]|].
    + destruct H. constructor; [done|]. cbn. by constructor.
    + intros [] s2 []. by constructor.
  - apply safe_ret. apply inside_within. by apply within_refl.
Qed.

Lemma inside_trans cur s1 s2 s3 : inside cur s1 s2 -> inside cur s2 s3 -> inside cur s1 s3.
Proof. intros [A1 A2 A3] [B1 B2 B3]. constructor; [done|by eapply frame_trans|congruence]. Qed.

(** A scope is pushed for a subninja file, and popped after it. *)
Lemma push_scope_ok cur s : loader_ok s -> (cur < length (scopes (manifest s)))%nat ->
  loader_ok (mkLoader (setScopes (scopes (manifest s) ++ [mkScope (Some cur) ∅ ∅]) (manifest s))
    (includeStack s) (errors s) (decl s)).
Proof.
  intros [[A1 A2 A3 A4 A5 A6 A7] H2] Hc. constructor.
  - constructor; try done; [by destruct A1; constructor| |].
    + eapply Forall_impl; [|exact A2]. intros c. by apply command_ok_grows.
    + cbn. intros i sc Hi. apply lookup_app_Some in Hi as [Hi|[Hl Hi]]; [apply (scope_ok_grows (manifest s)); [done|by apply A3]|].
      destruct (i - length (scopes (manifest s)))%nat eqn:Ei; [|done]. injection Hi as <-. constructor; cbn.
      * intros p [= <-]. lia.
      * intros n r. by rewrite lookup_empty.
  - cbn. eapply Forall_impl; [|exact H2]. cbn. intros [] ?. rewrite length_app. cbn in *. lia.
Qed.

Lemma pop_scope_ok cur s s1 s2 : loader_ok s -> includeStack s1 = includeStack s ->
  scopes (manifest s1) = scopes (manifest s) ++ [mkScope (Some cur) ∅ ∅] ->
  setScopes (scopes (manifest s)) (manifest s1) = manifest s ->
  inside (length (scopes (manifest s))) s1 s2 ->
  inside cur s (mkLoader (setScopes (take (length (scopes (manifest s2)) - 1) (scopes (manifest s2))) (manifest s2))
    (includeStack s2) (errors s2) (decl s2))
  /\ take (length (scopes (manifest s2)) - 1) (scopes (manifest s2)) = scopes (manifest s).
Proof.
  intros Hs E1 Es Em [[[A1 A2 A3 A4 A5 A6 A7] H2] [F1 F2 F3 F4 F5 F6] Hst].
  assert (Hlen : (length (scopes (manifest s2)) - 1 = length (scopes (manifest s)))%nat)
    by (rewrite F1, Es, length_app; cbn; lia).
  rewrite Hlen.
  assert (Hsame : take (length (scopes (manifest s))) (scopes (manifest s2)) = scopes (manifest s)).
  { apply list_eq. intros i. destruct (decide (i < length (scopes (manifest s)))%nat) as [Hi|Hi].
    - rewrite lookup_take_lt by done. rewrite F2 by lia. rewrite Es. by rewrite lookup_app_l.
    - rewrite !lookup_ge_None_2; [done|lia|]. rewrite length_take. lia. }
  rewrite Hsame.
  pose proof (f_equal ruleStore Em) as R1. pose proof (f_equal poolStore Em) as R2.
  pose proof (f_equal nodes Em) as R3. pose proof (f_equal commands Em) as R4. cbn in R1, R2, R3, R4.
  split; [|done]. constructor; cbn; [|constructor; cbn; rewrite <- ?R1, <- ?R2, <- ?R3, <- ?R4; done|congruence].
  constructor; cbn.
  - constructor; try done; [by destruct A1; constructor| |].
    + eapply Forall_impl; [|exact A2]. intros c. by apply command_ok_grows.
    + cbn. intros i sc Hi. apply (scope_ok_grows (manifest s2)); [done|]. apply A3.
      rewrite F2; [by rewrite Es, lookup_app_l by (by eapply lookup_lt_Some)|]. apply lookup_lt_Some in Hi. lia.
  - rewrite Hst, E1. apply Hs.
Qed.

Lemma ok_include cur b t s : loader_ok s -> current cur s -> is_string t = true ->
  cut \/ ((DOLLAR ∉ text t) /\ (irank (make_absolute wd (text t)) < fuel)%nat) ->
  safe cut (actOnIncludeDecl readFile wd run b t) s (fun _ s' => inside cur s s' /\
    (b = false -> scopes (manifest s') = scopes (manifest s))).
Proof.
  intros H Hc Ht Hr. unfold actOnIncludeDecl. eapply safe_bind; [by apply fine_evalPathToken|].
  intros path s1 [W1 [Em Hp]]. pose proof (within_current _ _ _ W1 Hc) as Hc1. pose proof (wi_ok _ _ _ W1) as H1.
  assert (Hr1 : cut \/ (irank (make_absolute wd path) < fuel)%nat).
  { destruct Hr as [|[Hd Hr]]; [by left|right]. by rewrite (Hp Hd). }
  pose proof (current_alive _ _ H1 Hc1) as Hal.
  eapply safe_bind; [by apply fine_currentScope|]. intros i s2 [_ [-> ->]].
  apply (safe_mono _ _ _ (fun _ s' => inside cur s1 s' /\ (b = false -> scopes (manifest s') = scopes (manifest s1)))).
  2: { rewrite Em. intros [] s3 [Hi Hsc]. split; [|done]. eapply inside_trans; [by apply inside_within|done]. }
  destruct b; [eapply safe_mono; [by apply nested_ok|by intros]|].
  apply safe_get. cbn zeta. set (n := length (scopes (manifest s1))).
  set (s2 := mkLoader (setScopes (scopes (manifest s1) ++ [mkScope (Some cur) ∅ ∅]) (manifest s1))
    (includeStack s1) (errors s1) (decl s1)).
  eapply safe_bind with (Q1 := fun _ s' => s' = s2); [done|]. intros [] ? ->.
  assert (Hn : safe cut (f <~ enterFile readFile wd path n; match f with Some contents => run contents | None => ret tt end) s2
    (fun _ => inside n s2)).
  { apply nested_ok; [by apply push_scope_ok| |done]. cbn. rewrite length_app. cbn. lia. }
  unfold safe in *. unfold bind in *. destruct (enterFile readFile wd path n s2) as [[f s3]|e]; [|done].
  destruct (match f with Some contents => run contents | None => ret tt end s3) as [[[] s4]|e]; [|done].
  cbn. destruct (pop_scope_ok cur s1 s2 s4) as [Hi Hsc]; [done..|by destruct (manifest s1)|done|]. split; [exact Hi|done].
Qed.

Lemma inside_phase ph cur s s' : within cur s s' -> at_phase ph cur s -> at_phase ph cur s'.
Proof.
  intros W (H & Hc & Hd). split; [apply W|]. split; [by eapply within_current|].
  pose proof (wi_frame _ _ _ W) as [_ _ F3 F4 _ F6]. rewrite (wi_decl _ _ _ W). destruct ph; try done; lia.
Qed.

Lemma begin_ok cur (m : L nat) ph s (size : Manifest -> nat) :
  (forall s, loader_ok s -> current cur s -> (decl s < size (manifest s))%nat -> at_phase ph cur s) ->
  current cur s -> fine cur m s (fun d s' => (d < size (manifest s'))%nat) ->
  safe cut (d <~ m; setDecl d) s (fun _ s' => inside cur s s' /\ at_phase ph cur s').
Proof.
  intros Hph Hc Hm. eapply safe_bind; [exact Hm|]. intros d s1 [W1 Hd]. apply safe_modify.
  pose proof W1 as [[B1 B2] B3 B4 B5]. split; [by constructor|]. apply Hph; [by constructor| |done].
  destruct Hc as (f & r & E). exists f, r. cbn. by rewrite B4.
Qed.

Lemma within_safe cur ph (m : L unit) s : at_phase ph cur s -> ok cur m s ->
  safe cut m s (fun _ s' => inside cur s s' /\ at_phase ph cur s').
Proof.
  intros Hp Hm. eapply safe_mono; [exact Hm|]. intros a s' [W _]. split; [by apply inside_within|].
  by eapply inside_phase.
Qed.

Lemma string_guard (b : bool) (ph ph' : Phase) : (if b then Some ph else None) = Some ph' -> b = true /\ ph' = ph.
Proof. destruct b; [|done]. by intros [= <-]. Qed.

(** Every call the protocol allows keeps the invariant. *)
Lemma handle_ok ph ph' cur e s : at_phase ph cur s -> call ph e = Some ph' -> e <> EndManifest ->
  (forall n v, e = RuleBindingDecl n v -> isValidParameterName (text n) = true -> ranked (text n) (text v)) ->
  (forall b t, e = IncludeDecl b t -> cut \/ ((DOLLAR ∉ text t) /\ (irank (make_absolute wd (text t)) < fuel)%nat)) ->
  safe cut (handle readFile wd stack run e) s (fun _ s' => inside cur s s' /\ at_phase ph' cur s').
Proof.
  intros Hp Hcall He Hrb Hinc. pose proof Hp as (H & Hc & Hd).
  assert (Herr : forall msg t, e = ErrorAt msg t -> safe cut (handle readFile wd stack run e) s
    (fun _ s' => inside cur s s' /\ at_phase ph' cur s')).
  { intros msg t ->. assert (ph' = ph) as -> by (destruct ph; cbn in Hcall; congruence).
    apply within_safe; [done|]. by apply ok_errorAt. }
  destruct e; try congruence; try (by eapply Herr); clear Herr; destruct ph; cbn [call] in Hcall; try done; try congruence;
    cbn [handle];
    try (apply string_guard in Hcall as [Hs ->]); try (injection Hcall as <-).
  - apply safe_ret. split; [by apply inside_within, within_refl|done].
  - apply within_safe; [done|]. by apply ok_bindingDecl.
  - apply within_safe; [done|]. by apply ok_defaultDecl.
  - eapply safe_mono; [apply (ok_include cur); [done..|by eapply Hinc]|]. intros [] s' [Hi _]. split; [done|].
    split; [apply Hi|]. split; [|done]. destruct Hc as (f & r & E). exists f, r. by rewrite (in_stack _ _ _ Hi).
  - apply (begin_ok cur _ InBuild _ (fun m => length (commands m))); [done|done|].
    eapply fine_mono; [apply fine_beginBuild; [done|done|]|by intros d s' []]. cbn [call]. by rewrite Hs.
  - apply within_safe; [done|]. apply fine_get. by apply ok_buildBinding.
  - eapply safe_mono; [apply (within_safe cur InBuild); [done|]|].
    + apply fine_get. by apply ok_endBuild.
    + intros [] s' [Hi (A & B & _)]. split; [done|]. split; [done|]. by split.
  - apply (begin_ok cur _ InPool _ (fun m => length (poolStore m))); [done|done|]. by apply fine_beginPool.
  - apply within_safe; [done|]. apply fine_get. by apply ok_poolBinding.
  - eapply safe_mono; [apply (within_safe cur InPool); [done|]|].
    + apply fine_get. by apply ok_endPool.
    + intros [] s' [Hi (A & B & _)]. split; [done|]. split; [done|]. by split.
  - apply (begin_ok cur _ InRule _ (fun m => length (ruleStore m))); [done|done|]. by apply fine_beginRule.
  - apply within_safe; [done|]. apply fine_get. apply ok_ruleBinding; [done..|]. by eapply Hrb.
  - eapply safe_mono; [apply (within_safe cur InRule); [done|]|].
    + apply fine_get. by apply ok_endRule.
    + intros [] s' [Hi (A & B & _)]. split; [done|]. split; [done|]. by split.
Qed.

Lemma exit_ok cur s : loader_ok s -> current cur s -> safe cut exitCurrentFile s (fun _ => left_file cur s).
Proof.
  intros [H1 H2] (f & r & E). apply safe_get, safe_modify. constructor; cbn; [|apply frame_refl|done].
  constructor; [done|]. cbn. rewrite E in *. cbn. by inversion H2.
Qed.

Lemma inside_left cur s1 s2 s3 : inside cur s1 s2 -> left_file cur s2 s3 -> left_file cur s1 s3.
Proof. intros [A1 A2 A3] [B1 B2 B3]. constructor; [done|by eapply frame_trans|by rewrite B3, A3]. Qed.

(** The calls of a whole file. *)
Lemma events_ok cur evs : forall ph s, at_phase ph cur s -> ph <> Done -> calls ph evs = Some Done ->
  (forall n v, RuleBindingDecl n v ∈ evs -> isValidParameterName (text n) = true -> ranked (text n) (text v)) ->
  (forall b t, IncludeDecl b t ∈ evs -> cut \/ ((DOLLAR ∉ text t) /\ (irank (make_absolute wd (text t)) < fuel)%nat)) ->
  safe cut (mapM_ (handle readFile wd stack run) evs) s (fun _ => left_file cur s).
Proof.
  induction evs as [|e evs IH]; intros ph s Hp Hph Hcalls Hrb Hinc; [cbn in Hcalls; congruence|].
  cbn [calls] in Hcalls. destruct (call ph e) as [ph'|] eqn:Ecall; [|done]. cbn [mapM_].
  destruct (decide (ph' = Done)) as [->|Hne].
  - assert (e = EndManifest) as ->.
    { destruct ph, e; cbn [call] in Ecall; try done; by apply string_guard in Ecall as []. }
    destruct evs as [|e2 evs]; [|by destruct e2]. destruct Hp as (H & Hc & _).
    eapply safe_bind; [apply (exit_ok cur); done|]. intros [] s' Hl. by apply safe_ret.
  - eapply safe_bind; [apply (handle_ok ph ph' cur); [done|done| | |]|].
    + intros ->. destruct ph; cbn in Ecall; congruence.
    + intros n v ->. apply Hrb. left.
    + intros b t ->. eapply Hinc. left.
    + intros [] s' [Hi Hp']. eapply safe_mono; [apply (IH ph'); [done..| |]|].
      * intros n v Hn. apply Hrb. by right.
      * intros b t Hn. eapply Hinc. by right.
      * intros [] s2 Hl. by eapply inside_left.
Qed.
End Nested.

(** Loading a file keeps the invariant and leaves the include stack as it was. *)
Lemma runFile_ok fuel : forall cur p id contents s, readFile p = Some (id, contents) ->
  cut \/ (irank p < fuel)%nat -> loader_ok s -> current cur s ->
  safe cut (runFile readFile wd stack fuel contents) s (fun _ => left_file cur s).
Proof.
  induction fuel as [|fuel IH]; intros cur p id contents s Hr Hf H Hc.
  { apply safe_fuel. destruct Hf; [done|lia]. }
  cbn [runFile]. destruct (Hfiles _ _ _ Hr) as (evs & Ep & Hcalls & Hrb & Hinc).
  eapply safe_bind with (Q1 := fun l s' => l = evs /\ s' = s); [by unfold safe, lift; rewrite Ep|].
  intros l s' [-> ->]. eapply (events_ok fuel _ IH cur evs Start); [done|done|done|done|].
  intros b t Hin. destruct Hinc as [|Hinc]; [by left|]. destruct Hf as [|Hf]; [by left|right].
  destruct (Hinc b t Hin). split; [done|lia].
Qed.
End Inv.
