(* ===== verification/NinjaLoaderProps.v ===== *)
(** * Properties of the Ninja manifest loader

    Loading terminates with a well-formed manifest when files and rule parameters
    do not nest without end, and otherwise can only exhaust the stack; what a
    build declaration records; that a subninja file cannot change its includer;
    the identity of nodes; and how templates are expanded. *)

From Stdlib Require Import ZArith Ascii Lia.
From stdpp Require Import base gmap list strings numbers.
From S2P Require Import Prelude Chars ShellUtility NinjaLexer NinjaParser NinjaEvents NinjaPath NinjaManifest NinjaLoader NinjaLoaderInv.

(** ** Loading *)

Definition initial : Loader := mkLoader newManifest [] [] 0.

Lemma new_ok cut prank : loader_ok cut prank initial.
Proof.
  constructor; [|constructor]. constructor.
  - constructor; intros; try done. all: by rewrite lookup_empty in *.
  - constructor.
  - intros [|i] sc; [|done]. intros [= <-]. constructor; [done|]. intros n r Hr. unfold rules in Hr.
    apply lookup_singleton_Some in Hr as [_ <-]. cbn. unfold phonyRule. lia.
  - constructor; [|constructor]. intros n v Hv. unfold rparameters in Hv. by rewrite lookup_empty in Hv.
  - cbn. lia.
  - intros n p Hp. change (poolTable (manifest initial)) with ({[chars_of "console" := consolePool]} : gmap chars nat) in Hp.
    apply lookup_singleton_Some in Hp as [_ <-]. cbn. unfold consolePool. lia.
  - constructor.
Qed.

(** Loading the main file, with the bounds of the invariant lemmas. *)
Lemma load_spec cut prank irank readFile wd stack main : is_absolute wd = true ->
  cut \/ (forall n, (need prank n < stack)%nat) ->
  (forall p id c, readFile p = Some (id, c) -> file_ok cut prank wd irank p c) ->
  cut \/ (irank (make_absolute wd main) < stack)%nat ->
  match load readFile wd stack main with
  | Ok (r, _) => (r = None <-> readFile (make_absolute wd main) = None)
      /\ forall m, r = Some m -> manifest_ok cut prank m /\ length (scopes m) = 1%nat
  | Crash e => e = OutOfFuel /\ cut
  end.
Proof.
  intros Hwd Hst Hf Hr. unfold load, enterFile. destruct (readFile (make_absolute wd main)) as [[id c]|] eqn:E; [|cbn; by split].
  set (s1 := mkLoader newManifest [(id, 0%nat)] [] 0).
  assert (H1 : loader_ok cut prank s1).
  { destruct (new_ok cut prank). constructor; [done|]. repeat constructor. }
  pose proof (runFile_ok cut prank wd Hwd stack Hst readFile irank Hf stack 0 _ id c s1 E Hr H1) as Hrun.
  assert (Hc : current 0 s1) by by eexists _, _. specialize (Hrun Hc). cbn [obind bind get setStack modify ret ensure].
  unfold bind, get, setStack, modify, ret, ensure. cbn. unfold safe in Hrun.
  change (mkLoader newManifest [(id, 0%nat)] [] 0) with s1.
  destruct (runFile readFile wd stack stack c s1) as [[[] s2]|e]; [|exact Hrun].
  destruct Hrun as [L1 L2 L3]. rewrite L3. cbn. split; [done|]. intros m [= <-]. split; [apply L1|].
  apply (fr_scopes _ _ _ L2).
Qed.

(** The declarations of the files that can be read. *)
Definition declares (readFile : chars -> option (chars * chars)) (p : chars) (e : Event) : Prop :=
  exists id c evs, readFile p = Some (id, c) /\ NinjaParser.parse c = Ok evs /\ e ∈ evs.

(** No file ends in a dollar sign, where the lexer reads past the buffer
    ([NinjaLexer.trailing_dollar_read]). *)
Definition files_closed_at_end (readFile : chars -> option (chars * chars)) : Prop :=
  forall p id c, readFile p = Some (id, c) -> closed c.

(** The paths of included files are written without variables and escapes. *)
Definition literal_includes (readFile : chars -> option (chars * chars)) : Prop :=
  forall p b t, declares readFile p (IncludeDecl b t) -> DOLLAR ∉ text t.

(** A parameter of a rule refers to parameters of lower rank only, and a file includes
    files of lower rank only. *)
Definition acyclic_parameters (readFile : chars -> option (chars * chars)) (prank : chars -> nat) : Prop :=
  forall p n v x, declares readFile p (RuleBindingDecl n v) -> x ∈ refs (text v) -> isValidParameterName x = true ->
    (prank x < prank (text n))%nat.
Definition acyclic_includes (readFile : chars -> option (chars * chars)) (wd : chars) (irank : chars -> nat) : Prop :=
  forall p b t, declares readFile p (IncludeDecl b t) -> (irank (make_absolute wd (text t)) < irank p)%nat.

(** C32: Loading a manifest.  Suppose that no file ends in a dollar sign, that the paths of
    included files are literal, that neither files nor rule parameters refer to themselves
    through others, and that the stack is deeper than they nest.  Then loading from an
    absolute directory terminates without a failed assertion or a dangling pointer; it
    yields no manifest exactly when the main file cannot be read, and otherwise a
    well-formed one: one node per canonical path, commands with distinct existing outputs,
    inputs, rules and pools, and all subninja scopes gone. *)
Theorem load_total readFile wd prank irank stack main :
  is_absolute wd = true -> files_closed_at_end readFile -> literal_includes readFile ->
  acyclic_parameters readFile prank -> acyclic_includes readFile wd irank ->
  (forall n, (S (prank n) < stack)%nat) -> (irank (make_absolute wd main) < stack)%nat ->
  exists r errs, load readFile wd stack main = Ok (r, errs)
    /\ (r = None <-> readFile (make_absolute wd main) = None)
    /\ forall m, r = Some m -> manifest_ok False prank m /\ length (scopes m) = 1%nat.
Proof.
  intros Hwd Hcl Hlit Hpar Hinc Hp Hi.
  pose proof (load_spec False prank irank readFile wd stack main Hwd) as H.
  destruct (load readFile wd stack main) as [[r errs]|e]; [exists r, errs; split; [done|]; apply H|destruct H as [_ []]].
  all: try by right.
  all: try (right; intros n; unfold need; specialize (Hp n); destruct (isValidParameterName n); lia).
  all: intros p id c Hr; destruct (parse_returns c (Hcl _ _ _ Hr)) as [evs Ep];
    assert (Hd : forall ev, ev ∈ evs -> declares readFile p ev) by (intros ev He; by exists id, c, evs);
    exists evs; split; [done|]; split; [by eapply parse_protocol|]; split; [|right; intros b t Hin; split; eauto].
  all: intros n v Hin _; right; intros x Hx Hv; by eapply Hpar; eauto.
Qed.

(** whatever the files contain (as long as none ends in a dollar sign), loading
    from an absolute directory never fails an assertion or uses a dangling pointer:
    it returns a well-formed manifest, or exhausts the stack on files or rule
    parameters that nest without end. *)
Theorem load_safe readFile wd stack main :
  is_absolute wd = true -> (forall p id c, readFile p = Some (id, c) -> closed c) ->
  match load readFile wd stack main with
  | Ok (r, _) => (r = None <-> readFile (make_absolute wd main) = None)
      /\ forall m, r = Some m -> manifest_ok True (fun _ => 0%nat) m /\ length (scopes m) = 1%nat
  | Crash e => e = OutOfFuel
  end.
Proof.
  intros Hwd Hcl.
  pose proof (load_spec True (fun _ => 0%nat) (fun _ => 0%nat) readFile wd stack main Hwd) as H.
  destruct (load readFile wd stack main) as [[r errs]|e]; [apply H|apply H].
  all: try by left.
  all: intros p id c Hr; destruct (parse_returns c (Hcl _ _ _ Hr)) as [evs Ep];
    exists evs; split; [done|]; split; [by eapply parse_protocol|]; split; [|by left].
  all: intros n v _ _; by left.
Qed.

(** ** Declarations *)

(** A build declaration the parser may hand over records a command whose
    outputs are the distinct nodes its output tokens name, in order of first
    appearance, and whose explicit outputs are those its explicit tokens name. *)
Theorem build_outputs_distinct wd cut prank cur name outs ins ne ni k s :
  is_absolute wd = true -> loader_ok cut prank s -> current cur s ->
  call Outside (BeginBuildDecl name outs ins ne ni k) = Some InBuild ->
  match actOnBeginBuildDecl wd name outs ins ne ni k s with
  | Ok (d, s') => begun k outs d s' /\ loader_ok cut prank s'
  | Crash e => e = OutOfFuel /\ cut
  end.
Proof.
  intros Hwd H Hc Hcall. pose proof (fine_beginBuild cut prank wd Hwd cur name outs ins ne ni k s H Hc Hcall) as Hb.
  unfold fine, safe in Hb. destruct (actOnBeginBuildDecl wd name outs ins ne ni k s) as [[d s']|e]; [|exact Hb].
  destruct Hb as [Hw [_ Hb]]. split; [done|apply Hw].
Qed.

(** Loading a subninja file leaves every scope of the file that names it (its
    bindings and its rules) and the include stack as they were, whatever the file
    and the files it includes declare. *)
Theorem subninja_isolated readFile wd stack fuel cur t s :
  is_absolute wd = true -> (forall p id c, readFile p = Some (id, c) -> closed c) ->
  loader_ok True (fun _ => 0%nat) s -> current cur s -> is_string t = true ->
  match actOnIncludeDecl readFile wd (runFile readFile wd stack fuel) false t s with
  | Ok (_, s') => scopes (manifest s') = scopes (manifest s) /\ includeStack s' = includeStack s
  | Crash e => e = OutOfFuel
  end.
Proof.
  intros Hwd Hcl H Hc Ht.
  assert (Hf : forall p id c, readFile p = Some (id, c) -> file_ok True (fun _ => 0%nat) wd (fun _ => 0%nat) p c).
  { intros p id c Hr. destruct (parse_returns c (Hcl _ _ _ Hr)) as [evs Ep]. exists evs. split; [done|].
    split; [by eapply parse_protocol|]. split; [|by left]. intros n v _ _. by left. }
  pose proof (ok_include True (fun _ => 0%nat) wd readFile (fun _ => 0%nat) fuel (runFile readFile wd stack fuel)) as Hi.
  specialize (Hi (runFile_ok True _ wd Hwd stack (or_introl I) readFile _ Hf fuel) cur false t s H Hc Ht (or_introl I)).
  unfold safe in Hi. destruct (actOnIncludeDecl _ _ _ _ _ s) as [[[] s']|e]; [|apply Hi].
  destruct Hi as [Hi Hs]. split; [by apply Hs|apply Hi].
Qed.

(** ** Nodes *)

(** Asking for the node of a path always yields one, and from then on a path
    leads to that node exactly when it has the same normal form. *)
Theorem node_identity wd p m : is_absolute wd = true -> nodes_ok m ->
  exists i m', findOrCreateNode wd p m = Ok (Some i, m') /\ nodes_ok m'
    /\ forall p2, findNode wd p2 m' = Ok (Some i) <-> normalize_path wd p2 = normalize_path wd p.
Proof.
  intros Hwd Hm. destruct (normalize_some wd p Hwd) as (q & Eq & Hq). unfold findOrCreateNode. rewrite Eq. cbn [obind].
  assert (Hid : forall i m', nodes_ok m' -> nodeTable m' !! q = Some i ->
    forall p2, findNode wd p2 m' = Ok (Some i) <-> normalize_path wd p2 = Ok (Some q)).
  { intros i m' [N1 N2 N3] Hi p2. destruct (normalize_some wd p2 Hwd) as (q2 & E2 & _). unfold findNode. rewrite E2. cbn [obind].
    split; [|intros [= ->]; by rewrite Hi]. intros [= H2].
    destruct (N1 _ _ Hi) as (n & En & <-). destruct (N1 _ _ H2) as (n2 & En2 & <-). congruence. }
  destruct (nodeTable m !! q) as [i|] eqn:E; [by exists i, m; eauto|].
  eexists _, _. split; [reflexivity|]. split; [by apply nodes_ok_new|].
  apply Hid; [by apply nodes_ok_new|]. cbn. by rewrite lookup_insert_eq.
Qed.

Lemma node_identity_witness :
  exists i m', findOrCreateNode (chars_of "/w") (chars_of "a/../b.o") newManifest = Ok (Some i, m')
    /\ findNode (chars_of "/w") (chars_of "./b.o") m' = Ok (Some i).
Proof.
  destruct (node_identity (chars_of "/w") (chars_of "a/../b.o") newManifest) as (i & m' & E & _ & H).
  - reflexivity.
  - apply (mo_nodes True (fun _ => 0%nat)). apply (lo_manifest _ _ _ (new_ok True (fun _ => 0%nat))).
  - exists i, m'. split; [exact E|]. apply H. reflexivity.
Defined.

(** ** Templates *)

(** A template: characters, written with an escape where they need one, and
    references to variables. *)
Inductive Piece := Lit (c : ascii) | Var (name : chars).

Definition escaped (c : ascii) : bool := Ascii.eqb c " " || Ascii.eqb c ":" || Ascii.eqb c DOLLAR.
Definition print_piece (p : Piece) : chars :=
  match p with
  | Lit c => if escaped c then [DOLLAR; c] else [c]
  | Var name => DOLLAR :: "{"%char :: name ++ ["}"%char]
  end.
Definition print (ps : list Piece) : chars := concat (map print_piece ps).
Definition expand (v : chars -> chars) (p : Piece) : chars :=
  match p with Lit c => [c] | Var name => v name end.
Definition valid_piece (p : Piece) : Prop :=
  match p with Lit _ => True | Var name => forallb isIdentifierChar name = true end.

Lemma identifier_inside c : isIdentifierChar c = true -> negb (Ascii.eqb c "}") = true.
Proof. destruct (Ascii.eqb_spec c "}") as [->|]; done. Qed.

Lemma take_while_stop p w c r : forallb p w = true -> p c = false ->
  take_while p (w ++ c :: r) = w /\ drop_while p (w ++ c :: r) = c :: r.
Proof.
  induction w as [|x w IH]; cbn; intros Hw Hc; [by rewrite Hc|]. apply andb_prop in Hw as [-> Hw].
  destruct (IH Hw Hc) as [-> ->]. done.
Qed.

Section Templates.
Context {S : Type} (v : chars -> chars) (err : string -> M S unit) (s : S).
Let look (n : chars) : M S chars := ret (v n).

(** A literal character is copied; it never needs a turn of the loop of its own. *)
Lemma eval_plain c fuel pos result : escaped c = false ->
  evalLoop look err (Datatypes.S fuel) (c :: pos) result s = evalLoop look err (Datatypes.S fuel) pos (result ++ [c]) s.
Proof.
  intros Hc. assert (Hl : negb (Ascii.eqb c DOLLAR) = true).
  { unfold escaped in Hc. by destruct (Ascii.eqb c DOLLAR); [rewrite orb_true_r in Hc|]. }
  cbn [evalLoop]. destruct pos as [|d pos].
  - cbn [take_while drop_while]. rewrite Hl. cbn [take_while drop_while]. done.
  - change (take_while ?p (c :: d :: pos)) with (if p c then c :: take_while p (d :: pos) else []).
    change (drop_while ?p (c :: d :: pos)) with (if p c then drop_while p (d :: pos) else c :: d :: pos).
    cbv beta. rewrite Hl. by rewrite <- !app_assoc.
Qed.

Lemma eval_print ps : Forall valid_piece ps -> forall fuel result, (length (print ps) < fuel)%nat ->
  evalLoop look err fuel (print ps) result s = Ok (result ++ concat (map (expand v) ps), s).
Proof.
  induction 1 as [|p ps Hp _ IH]; intros fuel result Hf.
  { destruct fuel; [cbn in Hf; lia|]. cbn. by rewrite app_nil_r. }
  change (print (p :: ps)) with (print_piece p ++ print ps) in *. rewrite length_app in Hf.
  assert (Hp0 : (0 < length (print_piece p))%nat) by (destruct p as [c|n]; cbn; [destruct (escaped c); cbn|]; lia).
  destruct fuel as [|fuel]; [lia|]. assert (Hlen : (length (print ps) < fuel)%nat) by lia. clear Hp0.
  destruct p as [c|name]; cbn [print_piece map concat expand].
  - destruct (escaped c) eqn:Ec.
    + cbn [app evalLoop take_while drop_while]. change (negb (Ascii.eqb DOLLAR DOLLAR)) with false. cbn iota.
      rewrite app_nil_r. assert (Hlf : Ascii.eqb c LF = false).
      { destruct (Ascii.eqb_spec c LF) as [->|]; [done|done]. }
      rewrite Hlf. unfold escaped in Ec. rewrite Ec. rewrite IH by done.
      by rewrite <- app_assoc.
    + cbn [app]. rewrite eval_plain by done. rewrite IH by lia.
      by rewrite <- app_assoc.
  - cbn [app evalLoop take_while drop_while]. change (negb (Ascii.eqb DOLLAR DOLLAR)) with false. cbn iota.
    rewrite app_nil_r, <- app_assoc. cbn [app].
    change (Ascii.eqb "{" LF) with false. change (Ascii.eqb "{" " " || Ascii.eqb "{" ":" || Ascii.eqb "{" DOLLAR)%char with false.
    change (Ascii.eqb "{" "{") with true. cbn iota. cbn in Hp.
    destruct (take_while_stop (fun c => negb (Ascii.eqb c "}")) name "}"%char (print ps)) as [-> ->]; [|done|].
    { apply forallb_forall. intros x Hx. apply identifier_inside. by apply (proj1 (forallb_forall _ _) Hp). }
    rewrite Hp. unfold look at 1. rewrite bind_ret_l. rewrite IH by done.
    by rewrite <- app_assoc.
Qed.
End Templates.

(** A template written from literal text (with blanks, colons and dollar signs
    escaped) and braced variables expands to that text with every variable replaced
    by its value, without an error. *)
Theorem template_expands {S} (v : chars -> chars) (err : string -> M S unit) ps s : Forall valid_piece ps ->
  evalString (fun n => ret (v n)) err (print ps) s = Ok (concat (map (expand v) ps), s).
Proof. intros H. unfold evalString. rewrite eval_print; [done|done|lia]. Qed.

Lemma template_expands_witness :
  evalString (S := unit) (fun n => ret n) (fun _ => fail OutOfFuel) (print [Lit "a"; Lit " "; Var (chars_of "x.y"); Lit "$"]) tt
  = Ok (chars_of "a x.y$", tt).
Proof.
  apply (template_expands (fun n => n) (fun _ => fail OutOfFuel) [Lit "a"; Lit " "; Var (chars_of "x.y"); Lit "$"] tt).
  repeat constructor.
Defined.

(** ** Example manifests *)

Definition lines (ls : list string) : chars := concat (map (fun l => chars_of l ++ [LF]) ls).

Definition main_file : chars := lines
  ["cflags = -O2"; "rule cc"; "  command = cc $cflags $in -o $out"; "build a.o ./a.o: cc b.c my$ c.c | h.h";
   "subninja sub.ninja"; "default a.o"].
Definition sub_file : chars := lines ["cflags = -g"; "rule cc"; "  command = cc"; "build z: phony a.o"].

Definition files (p : chars) : option (chars * chars) :=
  if bool_decide (p = chars_of "/w/build.ninja") then Some (p, main_file)
  else if bool_decide (p = chars_of "/w/sub.ninja") then Some (p, sub_file)
  else None.
Definition files_rank (p : chars) : nat := if bool_decide (p = chars_of "/w/build.ninja") then 1 else 0.


Lemma files_cases p id c : files p = Some (id, c) ->
  (p = chars_of "/w/build.ninja" /\ c = main_file) \/ (p = chars_of "/w/sub.ninja" /\ c = sub_file).
Proof.
  unfold files. case_bool_decide; [intros [= <- <-]; by left|]. case_bool_decide; [|done]. intros [= <- <-]. by right.
Qed.

Lemma files_closed p id c : files p = Some (id, c) -> closed c.
Proof. intros [[_ ->]|[_ ->]]%files_cases; vm_compute; discriminate. Qed.

(** A decidable form of the condition on the calls for a file. *)
Definition events_acyclic (wd p : chars) (irank : chars -> nat) (evs : list Event) : bool :=
  forallb (fun e => match e with
    | RuleBindingDecl _ v => forallb (fun x => negb (isValidParameterName x)) (refs (text v))
    | IncludeDecl _ t => negb (bool_decide (DOLLAR ∈ text t)) && (irank (make_absolute wd (text t)) <? irank p)%nat
    | _ => true
    end) evs.

Lemma events_acyclic_spec wd p irank prank evs : events_acyclic wd p irank evs = true ->
  (forall n v x, RuleBindingDecl n v ∈ evs -> x ∈ refs (text v) -> isValidParameterName x = true ->
     (prank x < prank (text n))%nat)
  /\ (forall b t, IncludeDecl b t ∈ evs -> (DOLLAR ∉ text t) /\ (irank (make_absolute wd (text t)) < irank p)%nat).
Proof.
  intros H. unfold events_acyclic in H. rewrite forallb_forall in H. split.
  - intros n v x Hin Hx Hv. apply list_elem_of_In in Hin. specialize (H _ Hin). cbv beta iota in H.
    rewrite forallb_forall in H. apply list_elem_of_In in Hx. specialize (H _ Hx). cbv beta in H. by rewrite Hv in H.
  - intros b t Hin. apply list_elem_of_In in Hin. specialize (H _ Hin). cbv beta iota in H. apply andb_prop in H as [H1 H2].
    apply negb_true_iff, bool_decide_eq_false in H1. by apply Nat.ltb_lt in H2.
Qed.

Lemma files_acyclic : literal_includes files /\ acyclic_parameters files (fun _ => 0%nat)
  /\ acyclic_includes files (chars_of "/w") files_rank.
Proof.
  assert (H : forall p id c evs, files p = Some (id, c) -> NinjaParser.parse c = Ok evs ->
    events_acyclic (chars_of "/w") p files_rank evs = true).
  { intros p id c evs Hr Ep.
    apply files_cases in Hr as [[-> ->]|[-> ->]]; vm_compute in Ep; injection Ep as <-; vm_compute; reflexivity. }
  split; [|split].
  - intros p b t (id & c & evs & Hr & Ep & Hin).
    apply (events_acyclic_spec _ _ _ (fun _ => 0%nat) _ (H _ _ _ _ Hr Ep)) in Hin as [? _]; assumption.
  - intros p n v x (id & c & evs & Hr & Ep & Hin).
    exact (proj1 (events_acyclic_spec _ _ _ (fun _ => 0%nat) _ (H _ _ _ _ Hr Ep)) n v x Hin).
  - intros p b t (id & c & evs & Hr & Ep & Hin).
    apply (events_acyclic_spec _ _ _ (fun _ => 0%nat) _ (H _ _ _ _ Hr Ep)) in Hin as [_ ?]; assumption.
Qed.

Lemma load_total_witness :
  exists m errs, load files (chars_of "/w") 3 (chars_of "build.ninja") = Ok (Some m, errs) /\ manifest_ok False (fun _ => 0%nat) m.
Proof.
  destruct (load_total files (chars_of "/w") (fun _ => 0%nat) files_rank 3 (chars_of "build.ninja"))
    as (r & errs & E & Hr & Hm).
  - reflexivity.
  - intros p id c. apply files_closed.
  - apply files_acyclic.
  - apply files_acyclic.
  - apply files_acyclic.
  - intros n. lia.
  - vm_compute. lia.
  - destruct r as [m|]; [exists m, errs; split; [exact E|apply (Hm m); reflexivity]|].
    exfalso. destruct Hr as [Hr _]. specialize (Hr eq_refl). vm_compute in Hr. discriminate Hr.
Defined.

Lemma load_safe_witness :
  match load files (chars_of "/w") 3 (chars_of "build.ninja") with
  | Ok (r, _) => (r = None <-> files (make_absolute (chars_of "/w") (chars_of "build.ninja")) = None)
      /\ forall m, r = Some m -> manifest_ok True (fun _ => 0%nat) m /\ length (scopes m) = 1%nat
  | Crash e => e = OutOfFuel
  end.
Proof.
  apply (load_safe files (chars_of "/w") 3 (chars_of "build.ninja")); [reflexivity|]. exact files_closed.
Defined.

(** The loader inside the main file. *)
Definition started : Loader := mkLoader newManifest [(chars_of "/w/build.ninja", 0%nat)] [] 0.
Lemma started_ok cut prank : loader_ok cut prank started.
Proof. destruct (new_ok cut prank) as [H _]. constructor; [exact H|]. repeat constructor. Qed.
Lemma started_current : current 0 started.
Proof. by eexists _, _. Qed.

Definition tok_ (s : string) : Token := mkToken String_ (chars_of s) 1 0.

Lemma build_outputs_distinct_witness :
  exists d s', actOnBeginBuildDecl (chars_of "/w") (tok_ "phony") [tok_ "a"; tok_ "./a"; tok_ "b"] [tok_ "c"] 1 0 2 started = Ok (d, s')
    /\ begun 2 [tok_ "a"; tok_ "./a"; tok_ "b"] d s'.
Proof.
  pose proof (build_outputs_distinct (chars_of "/w") False (fun _ => 0%nat) 0 (tok_ "phony") [tok_ "a"; tok_ "./a"; tok_ "b"]
    [tok_ "c"] 1 0 2 started eq_refl (started_ok _ _) started_current eq_refl) as H.
  destruct (actOnBeginBuildDecl _ _ _ _ _ _ _ started) as [[d s']|e]; [|destruct H as [_ []]].
  exists d, s'. split; [reflexivity|apply H].
Defined.

Lemma subninja_isolated_witness :
  match actOnIncludeDecl files (chars_of "/w") (runFile files (chars_of "/w") 3 3) false (tok_ "sub.ninja") started with
  | Ok (_, s') => scopes (manifest s') = scopes (manifest started) /\ includeStack s' = includeStack started
  | Crash e => e = OutOfFuel
  end.
Proof.
  apply (subninja_isolated files (chars_of "/w") 3 3 0 (tok_ "sub.ninja") started);
    [reflexivity|exact files_closed|apply started_ok|apply started_current|reflexivity].
Defined.

(** ** Findings *)

(** The messages of a run. *)
Definition messages (o : outcome (option Manifest * list (chars * chars * Token))) : option (list string) :=
  match o with Ok (Some _, errs) => Some (map (fun e => String.string_of_list_ascii e.1.2) errs) | _ => None end.

Definition one_file (ls : list string) (p : chars) : option (chars * chars) :=
  if bool_decide (p = chars_of "/w/build.ninja") then Some (p, lines ls) else None.

(** The built-in rule [phony] is unknown in a subninja file: rules are looked up in
    the innermost scope only. *)
Theorem phony_unknown_in_subninja :
  messages (load files (chars_of "/w") 3 (chars_of "build.ninja")) = Some ["unknown rule"].
Proof. vm_compute. reflexivity. Qed.

(** The paths of [default] are taken as written: a variable in them is not expanded. *)
Theorem default_not_expanded :
  messages (load (one_file ["t = a"; "build a: phony"; "default $t"]) (chars_of "/w") 3 (chars_of "build.ninja"))
  = Some ["unknown target name"].
Proof. vm_compute. reflexivity. Qed.

(** A pool depth is truncated to 32 bits after it was checked. *)
Theorem pool_depth_truncated :
  messages (load (one_file ["pool p"; "  depth = 4294967296"]) (chars_of "/w") 3 (chars_of "build.ninja"))
  = Some ["missing 'depth' variable assignment"].
Proof. vm_compute. reflexivity. Qed.

(** A rule parameter that refers to itself exhausts the stack, however large it is. *)
Definition recursive_command : Command :=
  mkCommand 1 [Some 0%nat] [] 0 0 1 ∅ None [] [] [] [] [] DepsNone false false.
Definition recursive_state : Loader :=
  mkLoader (mkManifest (scopes newManifest) [mkNode (chars_of "/w/a") (chars_of "a")] {[chars_of "/w/a" := 0%nat]}
    (ruleStore newManifest ++ [mkRule (chars_of "r") {[chars_of "command" := chars_of "$command"]}])
    (poolStore newManifest) (poolTable newManifest) [recursive_command] [])
    [(chars_of "/w/build.ninja", 0%nat)] [] 0.
Lemma self_reference {S} (f : chars -> M S chars) err s e : f (chars_of "command") s = Crash e ->
  evalString f err (chars_of "$command") s = Crash e.
Proof.
  intros E. assert (H : exists k, evalString f err (chars_of "$command") s = bind (f (chars_of "command")) k s)
    by (eexists; reflexivity).
  destruct H as [k ->]. unfold bind. by rewrite E.
Qed.

Theorem recursive_parameter_overflows fuel t b :
  lookupBuildParameter fuel (mkContext 0 t b) (chars_of "command") recursive_state = Crash OutOfFuel.
Proof.
  induction fuel as [|fuel IH]; [done|]. cbn [lookupBuildParameter cdecl].
  rewrite (bind_ok (commandAt 0) _ recursive_state recursive_command recursive_state eq_refl).
  rewrite (bind_ok get _ recursive_state recursive_state recursive_state eq_refl).
  rewrite !bool_decide_eq_false_2 by (vm_compute; discriminate). cbn [orb].
  assert (cparameters recursive_command !! chars_of "command" = None) as -> by (vm_compute; reflexivity).
  rewrite (bind_ok (ruleAt 1) _ recursive_state (mkRule (chars_of "r") {[chars_of "command" := chars_of "$command"]})
    recursive_state eq_refl).
  assert (rparameters (mkRule (chars_of "r") {[chars_of "command" := chars_of "$command"]}) !! chars_of "command"
    = Some (chars_of "$command")) as -> by (vm_compute; reflexivity).
  by apply self_reference.
Qed.
