(* ===== verification/Process.v ===== *)
(** * Processes: environments and process groups

    The parts of lib/Basic that surround a spawned process: [POSIXEnvironment]
    (POSIXEnvironment.h) collects assignments of which the first for a key wins, and
    [ProcessGroup] (Subprocess.h, Subprocess.cpp) tracks the live processes so that
    they can be signalled.  [write_hex] is LLVM's number formatting behind
    [Twine::utohexstr], which writes task IDs. *)

From Stdlib Require Import Ascii String Lia ZArith.
From stdpp Require Import base gmap list strings numbers pretty.
From S2P Require Import Prelude Chars.

(** ** Results and attributes *)
Inductive ProcessStatus := Unknown | Succeeded | Failed | Cancelled | Skipped.
#[export] Instance ProcessStatus_eq_dec : EqDecision ProcessStatus.
Proof. solve_decision. Defined.

Abbreviation pid_t := Z.

Record ProcessResult := mkProcessResult {
  status : ProcessStatus; exitCode : Z; rpid : pid_t; utime : Z; stime : Z; maxrss : Z }.

Definition newProcessResult (st : ProcessStatus) : ProcessResult := mkProcessResult st (-1) (-1) 0 0 0.
Definition makeFailed (code : Z) : ProcessResult := mkProcessResult Failed code (-1) 0 0 0.
Definition makeCancelled : ProcessResult := mkProcessResult Cancelled (-1) (-1) 0 0 0.

Record ProcessAttributes := mkAttributes {
  canSafelyInterrupt : bool; connectToConsole : bool; workingDir : chars;
  inheritEnvironment : bool; controlEnabled : bool }.

(** ** Environments *)
Record POSIXEnvironment := mkEnv {
  envStorage : list chars; keys : gset chars; isFrozen : bool }.

Definition newEnvironment : POSIXEnvironment := mkEnv [] ∅ false.

Definition EQUALS : ascii := "="%char.

(** The key is compared as a whole; the stored assignment is terminated. *)
Definition setIfMissing (key value : chars) (e : POSIXEnvironment) : outcome POSIXEnvironment :=
  if isFrozen e then Crash (AssertFailed "!isFrozen")
  else if decide (key ∈ keys e) then Ok e
  else Ok (mkEnv (envStorage e ++ [key ++ EQUALS :: value ++ [NUL]]) ({[key]} ∪ keys e) false).

Definition setAll (kvs : list (chars * chars)) (e : POSIXEnvironment) : outcome POSIXEnvironment :=
  foldl (fun o kv => obind o (setIfMissing (fst kv) (snd kv))) (Ok e) kvs.

(** A C string: the characters before the first nul. *)
Fixpoint c_str (s : chars) : chars :=
  match s with
  | [] => []
  | c :: s' => if (c =? NUL)%char then [] else c :: c_str s'
  end.

(** The pointers handed to the child are the stored strings read as C strings. *)
Definition getEnvp (e : POSIXEnvironment) : list chars * POSIXEnvironment :=
  (map c_str (envStorage e), mkEnv (envStorage e) (keys e) true).

(** [StringRef::split(c)]: at the first [c]; everything and nothing without one. *)
Fixpoint split_at (c : ascii) (s : chars) : chars * chars :=
  match s with
  | [] => ([], [])
  | d :: s' => if (d =? c)%char then ([], s') else let '(a, b) := split_at c s' in (d :: a, b)
  end.

(** Reference: the pairs whose key does not occur earlier, in order. *)
Fixpoint first_wins (seen : gset chars) (kvs : list (chars * chars)) : list (chars * chars) :=
  match kvs with
  | [] => []
  | (k, v) :: rest =>
      if decide (k ∈ seen) then first_wins seen rest
      else (k, v) :: first_wins ({[k]} ∪ seen) rest
  end.

Definition assignment (kv : chars * chars) : chars := fst kv ++ EQUALS :: snd kv ++ [NUL].

Lemma setAll_cons k v kvs e e' :
  setIfMissing k v e = Ok e' -> setAll ((k, v) :: kvs) e = setAll kvs e'.
Proof. unfold setAll. simpl. by intros ->. Qed.

Lemma setAll_first_wins kvs : forall e, isFrozen e = false ->
  exists ks, setAll kvs e = Ok (mkEnv (envStorage e ++ map assignment (first_wins (keys e) kvs)) ks false)
    /\ forall k, k ∈ ks <-> k ∈ keys e \/ k ∈ map fst kvs.
Proof.
  induction kvs as [|[k v] kvs IH]; intros [st ks fr] Hf; simpl in Hf; subst fr.
  { exists ks. unfold setAll. simpl. rewrite app_nil_r. split; [done|]. set_solver. }
  destruct (decide (k ∈ ks)) as [Hk|Hk].
  - destruct (IH (mkEnv st ks false) eq_refl) as (ks' & E & Hks). exists ks'. split.
    + rewrite (setAll_cons _ _ _ _ (mkEnv st ks false)), E by (unfold setIfMissing; simpl; by rewrite decide_True).
      simpl. by rewrite (decide_True _ _ Hk).
    + intros k'. rewrite Hks. set_solver.
  - destruct (IH (mkEnv (st ++ [assignment (k, v)]) ({[k]} ∪ ks) false) eq_refl) as (ks' & E & Hks).
    exists ks'. split.
    + rewrite (setAll_cons _ _ _ _ (mkEnv (st ++ [assignment (k, v)]) ({[k]} ∪ ks) false)), E
        by (unfold setIfMissing; simpl; by rewrite decide_False).
      simpl. rewrite (decide_False _ _ Hk). simpl. by rewrite <- app_assoc.
    + intros k'. rewrite Hks. set_solver.
Qed.

(** The value a key has in a list of pairs is that of its first pair. *)
Fixpoint assoc (k : chars) (kvs : list (chars * chars)) : option chars :=
  match kvs with
  | [] => None
  | (k', v) :: rest => if decide (k = k') then Some v else assoc k rest
  end.

Lemma first_wins_assoc kvs k : forall seen, k ∉ seen -> assoc k (first_wins seen kvs) = assoc k kvs.
Proof.
  induction kvs as [|[k' v] kvs IH]; intros seen Hk; [done|]. simpl.
  destruct (decide (k' ∈ seen)) as [H|H]; simpl; case_decide; [set_solver|by apply IH|done|].
  apply IH. set_solver.
Qed.

Lemma first_wins_keys kvs : forall seen,
  NoDup (map fst (first_wins seen kvs)) /\ forall k, k ∈ seen -> k ∉ map fst (first_wins seen kvs).
Proof.
  induction kvs as [|[k' v] kvs IH]; intros seen; simpl.
  { split; [constructor|]. intros k _. apply not_elem_of_nil. }
  case_decide as H; [apply IH|]. simpl. destruct (IH ({[k']} ∪ seen)) as [IHn IHs]. split.
  - constructor; [apply IHs; set_solver|done].
  - intros k Hk. rewrite not_elem_of_cons. split; [set_solver|]. apply IHs. set_solver.
Qed.

(** ** Process groups *)
Inductive Signal := SIGINT | SIGKILL.
#[export] Instance Signal_eq_dec : EqDecision Signal.
Proof. solve_decision. Defined.

(** The map's values are [ProcessInfo::canSafelyInterrupt]. *)
Record ProcessGroup := mkGroup { processes : gmap pid_t bool; closed : bool }.

Definition newGroup : ProcessGroup := mkGroup ∅ false.
Definition close_group (g : ProcessGroup) : ProcessGroup := mkGroup (processes g) true.
Definition isClosed (g : ProcessGroup) : bool := closed g.

(** [emplace] keeps the entry of a key that is present. *)
Definition add_process (p : pid_t) (info : bool) (g : ProcessGroup) : ProcessGroup :=
  match processes g !! p with
  | Some _ => g
  | None => mkGroup (<[p := info]> (processes g)) (closed g)
  end.
Definition remove_process (p : pid_t) (g : ProcessGroup) : ProcessGroup :=
  mkGroup (delete p (processes g)) (closed g).

(** The process groups [kill(-pid, signal)] is called for. *)
Definition signalled (sig : Signal) (info : bool) : bool :=
  match sig with SIGINT => info | SIGKILL => true end.
Definition signalAll (sig : Signal) (g : ProcessGroup) : list (pid_t * Signal) :=
  omap (fun '(p, info) => if signalled sig info : bool then Some (p, sig) else None)
       (map_to_list (processes g)).

Lemma elem_of_signalAll sig g p s :
  (p, s) ∈ signalAll sig g <-> s = sig /\ exists info, processes g !! p = Some info /\ signalled sig info = true.
Proof.
  unfold signalAll. rewrite list_elem_of_omap. split.
  - intros ((p' & info) & Hin & E). apply elem_of_map_to_list in Hin.
    destruct (signalled sig info) eqn:Es; simplify_eq. eauto.
  - intros (-> & info & Hin & Es). exists (p, info). by rewrite elem_of_map_to_list, Es.
Qed.

(** ** Hexadecimal numbers *)
Definition hexdigit (x : Z) : ascii :=
  ascii_of_N (Z.to_N (if (x <? 10)%Z then 48 + x else 97 + (x - 10))).

(** Digits are written from the end of the buffer; 16 of them hold 64 bits. *)
Fixpoint hex_loop (fuel : nat) (n : Z) (acc : chars) : chars :=
  match fuel with
  | O => acc
  | S fuel' => if (n =? 0)%Z then acc else hex_loop fuel' (n / 16)%Z (hexdigit (n mod 16) :: acc)
  end.
Definition utohexstr (n : Z) : chars :=
  match hex_loop 16 n [] with [] => ["0"%char] | ds => ds end.

Lemma hex_loop_length fuel : forall n acc, (length (hex_loop fuel n acc) <= fuel + length acc)%nat.
Proof.
  induction fuel as [|fuel IH]; intros n acc; simpl; [lia|].
  destruct (n =? 0)%Z; [lia|]. rewrite IH. simpl. lia.
Qed.

Lemma utohexstr_length n : (length (utohexstr n) <= 16)%nat.
Proof.
  unfold utohexstr. pose proof (hex_loop_length 16 n []) as H.
  destruct (hex_loop 16 n []) eqn:E; simpl in *; lia.
Qed.

Lemma hexdigit_not_newline x : (0 <= x < 16)%Z -> hexdigit x <> LF.
Proof.
  intros H. assert (x = 0 \/ x = 1 \/ x = 2 \/ x = 3 \/ x = 4 \/ x = 5 \/ x = 6 \/ x = 7 \/ x = 8 \/ x = 9
    \/ x = 10 \/ x = 11 \/ x = 12 \/ x = 13 \/ x = 14 \/ x = 15)%Z as Hx by lia.
  repeat (destruct Hx as [->|Hx]; [by vm_compute|]). subst x. by vm_compute.
Qed.

Lemma hex_loop_no_newline fuel : forall n acc, LF ∉ acc -> LF ∉ hex_loop fuel n acc.
Proof.
  induction fuel as [|fuel IH]; intros n acc Ha; simpl; [done|].
  destruct (n =? 0)%Z; [done|]. apply IH. rewrite not_elem_of_cons. split; [|done].
  intros H. eapply hexdigit_not_newline; [|symmetry; exact H]. apply Z.mod_pos_bound. lia.
Qed.

Lemma utohexstr_no_newline n : LF ∉ utohexstr n.
Proof.
  unfold utohexstr. pose proof (hex_loop_no_newline 16 n [] ltac:(apply not_elem_of_nil)) as H.
  destruct (hex_loop 16 n []); [|done]. rewrite list_elem_of_singleton. by intros [=].
Qed.
