(* ===== verification/ControlProtocol.v ===== *)
(** * The control protocol of spawned processes

    [ControlProtocolState] of lib/Basic/Subprocess.cpp: a process that wants its
    execution lane released writes the protocol version and its task ID, each
    ended by a newline, to a control descriptor.  The bytes arrive in pieces of any
    size.  The main result is that the pieces do not matter: the release is seen
    exactly when the bytes written start with the two expected lines. *)

From Stdlib Require Import Ascii String Lia ZArith.
From stdpp Require Import base list strings numbers.
From S2P Require Import Prelude Chars Process.

Record ControlProtocolState := mkControl {
  controlID : chars; negotiated : bool; partialMsg : chars; releaseSeen : bool }.

Definition maxLength : nat := 16.
Definition newControl (id : chars) : ControlProtocolState := mkControl id false [] false.
Definition PROTOCOL : chars := chars_of "llbuild.1".

(** [StringRef::find], with [None] for [npos]. *)
Fixpoint find (c : ascii) (s : chars) : option nat :=
  match s with
  | [] => None
  | d :: s' => if (d =? c)%char then Some 0%nat else S <$> find c s'
  end.

(** The result, the error text (which the code also sets on success) and the state. *)
Fixpoint read_loop (fuel : nat) (buf : chars) (st : ControlProtocolState)
  : outcome (Z * option chars * ControlProtocolState) :=
  match fuel with
  | O => Crash OutOfFuel
  | S fuel' =>
      if decide (buf = []) then Ok (0%Z, None, st)
      else match find LF buf with
      | None =>
          if decide (maxLength < length (partialMsg st) + length buf)%nat then
            Ok ((-1)%Z, Some (chars_of "excessive message length"),
                mkControl (controlID st) (negotiated st) [] (releaseSeen st))
          else Ok (0%Z, None, mkControl (controlID st) (negotiated st) (partialMsg st ++ buf) (releaseSeen st))
      | Some nl =>
          let msg := partialMsg st ++ take nl buf in
          if negotiated st then
            Ok (1%Z, Some (chars_of "bad ID"),
                mkControl (controlID st) true []
                  (if decide (msg = controlID st) then true else releaseSeen st))
          else if decide (msg = PROTOCOL) then
            read_loop fuel' (drop (S nl) buf) (mkControl (controlID st) true [] (releaseSeen st))
          else Ok ((-1)%Z, Some (chars_of "unsupported protocol: " ++ msg),
                   mkControl (controlID st) false [] (releaseSeen st))
      end
  end.
Definition read (buf : chars) (st : ControlProtocolState) := read_loop (S (length buf)) buf st.

Definition shouldRelease (st : ControlProtocolState) : bool := releaseSeen st.

(** Pieces are read until one returns something else than 0. *)
Fixpoint feed (pieces : list chars) (st : ControlProtocolState) : outcome ControlProtocolState :=
  match pieces with
  | [] => Ok st
  | p :: rest =>
      obind (read p st) (fun '(r, _, st') => if (r =? 0)%Z then feed rest st' else Ok st')
  end.

(** ** What the process has to write *)
Definition request (id : chars) : chars := PROTOCOL ++ LF :: id ++ [LF].

(** The bytes still to come complete the request. *)
Definition pending (st : ControlProtocolState) : chars :=
  if negotiated st then controlID st ++ [LF] else request (controlID st).
Definition will (st : ControlProtocolState) (stream : chars) : Prop :=
  exists rest, partialMsg st ++ stream = pending st ++ rest.

(** The state between two reads, before a release was seen. *)
Record reading (st : ControlProtocolState) : Prop := {
  rd_partial : LF ∉ partialMsg st;
  rd_unseen : releaseSeen st = false;
  rd_id : LF ∉ controlID st;
  rd_short : (length (controlID st) <= maxLength)%nat }.

(** The first line of the pending bytes. *)
Definition expected (st : ControlProtocolState) : chars :=
  if negotiated st then controlID st else PROTOCOL.
Definition pending_after (st : ControlProtocolState) : chars :=
  if negotiated st then [] else controlID st ++ [LF].

Lemma pending_split st : pending st = expected st ++ LF :: pending_after st.
Proof.
  unfold pending, expected, pending_after, request. by destruct (negotiated st).
Qed.

Lemma expected_ok st : reading st -> (LF ∉ expected st) /\ (length (expected st) <= maxLength)%nat.
Proof.
  intros [_ _ Hi Hs]. unfold expected. destruct (negotiated st); [done|].
  split; [|vm_compute; lia]. rewrite list_elem_of_In. vm_compute. intuition discriminate.
Qed.

Lemma find_None c s : find c s = None -> c ∉ s.
Proof.
  induction s as [|d s IH]; simpl; [intros; apply not_elem_of_nil|].
  destruct (d =? c)%char eqn:E; [done|]. destruct (find c s); [done|]. intros _.
  apply not_elem_of_cons. split; [|by apply IH]. intros ->. by rewrite Ascii.eqb_refl in E.
Qed.

Lemma find_Some c s n : find c s = Some n -> s = take n s ++ c :: drop (S n) s /\ c ∉ take n s.
Proof.
  revert n. induction s as [|d s IH]; simpl; [done|]. intros n.
  destruct (d =? c)%char eqn:E.
  - intros [= <-]. apply Ascii.eqb_eq in E as ->. split; [done|]. apply not_elem_of_nil.
  - destruct (find c s) as [m|]; [|done]. intros [= <-]. destruct (IH m eq_refl) as [Es Hn]. simpl. split.
    + by rewrite <- Es.
    + apply not_elem_of_cons. split; [|done]. intros ->. by rewrite Ascii.eqb_refl in E.
Qed.

(** Two texts that agree and have no newline before their first one have the same
    first line. *)
Lemma first_line_inj (a b r1 r2 : chars) :
  LF ∉ a -> LF ∉ b -> a ++ LF :: r1 = b ++ LF :: r2 -> a = b /\ r1 = r2.
Proof.
  revert b. induction a as [|x a IH]; intros [|y b] Ha Hb E; simplify_eq/=; [done| | |].
  - by apply not_elem_of_cons in Hb as [? _].
  - by apply not_elem_of_cons in Ha as [? _].
  - apply not_elem_of_cons in Ha as [_ Ha]. apply not_elem_of_cons in Hb as [_ Hb].
    destruct (IH b Ha Hb ltac:(done)) as [-> ->]. done.
Qed.

Lemma not_elem_app (x : ascii) a b : x ∉ a -> x ∉ b -> x ∉ a ++ b.
Proof. rewrite elem_of_app. tauto. Qed.

(** Reading one line: the pending bytes start with this line or not. *)
Lemma will_line st line rest : reading st -> LF ∉ line ->
  will st (line ++ LF :: rest) <->
  partialMsg st ++ line = expected st /\ exists r, rest = pending_after st ++ r.
Proof.
  intros R Hl. destruct (expected_ok st R) as [He _].
  unfold will. rewrite pending_split. split.
  - intros [r E]. rewrite app_assoc, <- (app_assoc (expected st)) in E. simpl in E.
    apply first_line_inj in E as [E1 E2]; [eauto| |done].
    apply not_elem_app; [apply (rd_partial st R)|done].
  - intros [E [r ->]]. exists r. rewrite app_assoc, E, <- app_assoc. done.
Qed.

(** More bytes of an unfinished line that is too long cannot complete the request. *)
Lemma will_too_long st buf stream : reading st -> LF ∉ buf ->
  (maxLength < length (partialMsg st) + length buf)%nat -> ~ will st (buf ++ stream).
Proof.
  intros R Hb Hlen [rest E]. destruct (expected_ok st R) as [He Hs].
  rewrite pending_split, (app_assoc _ buf), <- (app_assoc (expected st)) in E.
  assert (Hp : LF ∈ partialMsg st ++ buf).
  { apply list_elem_of_lookup_2 with (length (expected st)).
    apply (f_equal (fun l => l !! length (expected st))) in E.
    rewrite lookup_app_l in E by (rewrite length_app; lia).
    rewrite E, lookup_app_r by lia. by rewrite Nat.sub_diag. }
  apply elem_of_app in Hp as [Hp|Hp]; [by apply (rd_partial st R)|done].
Qed.

(** What one call of [read] establishes about the rest of the stream. *)
Definition read_post (st : ControlProtocolState) (buf : chars)
    (r : Z * option chars * ControlProtocolState) : Prop :=
  let '(code, _, st') := r in
  (code = 0%Z /\ reading st' /\ controlID st' = controlID st
     /\ forall stream, will st (buf ++ stream) <-> will st' stream)
  \/ (code <> 0%Z /\ forall stream, will st (buf ++ stream) <-> releaseSeen st' = true).

Lemma read_loop_post fuel : forall buf st, (length buf < fuel)%nat -> reading st ->
  exists r, read_loop fuel buf st = Ok r /\ read_post st buf r.
Proof.
  induction fuel as [|fuel IH]; intros buf st Hf R; [lia|]. cbn [read_loop].
  destruct (decide (buf = [])) as [->|Hne]; [eexists; split; [done|]; left; done|].
  pose proof R as [Hp Hu Hi Hs].
  destruct (find LF buf) as [nl|] eqn:Efind.
  2:{ apply find_None in Efind. case_decide as Hlen.
      - eexists. split; [done|]. right. split; [done|]. intros stream. simpl. rewrite Hu.
        split; [|done]. intros H. exfalso. by eapply will_too_long.
      - eexists. split; [done|]. left. split; [done|]. repeat split; simpl; try done.
        + by apply not_elem_app.
        + intros [r E]. exists r. simpl. rewrite <- app_assoc. exact E.
        + intros [r E]. exists r. simpl in E. rewrite <- app_assoc in E. exact E. }
  apply find_Some in Efind as [Eb Hnl].
  set (rest := drop (S nl) buf) in *. set (line := take nl buf) in *.
  assert (Hwill : forall stream, will st (buf ++ stream) <->
    partialMsg st ++ line = expected st /\ exists r, rest ++ stream = pending_after st ++ r).
  { intros stream. rewrite Eb, <- app_assoc. simpl. by apply will_line. }
  unfold expected, pending_after in Hwill. destruct (negotiated st) eqn:En.
  - eexists. split; [done|]. right. split; [done|]. intros stream. rewrite Hwill. simpl. rewrite Hu.
    case_decide as Hm; (split; [try by intros []|try done]). intros _. split; [done|]. by exists (rest ++ stream).
  - case_decide as Hm.
    + set (st1 := mkControl (controlID st) true [] (releaseSeen st)).
      assert (R1 : reading st1) by (split; [apply not_elem_of_nil|done..]).
      destruct (IH rest st1) as (r & Er & Hpost); [subst rest; rewrite length_drop; destruct buf; simpl in *; [done|lia]|done|].
      exists r. split; [done|].
      assert (Hw : forall stream, will st (buf ++ stream) <-> will st1 (rest ++ stream)).
      { intros stream. rewrite Hwill. unfold will, pending. simpl. split; [|by intros [r' E]; eauto].
        intros [_ [r' E]]. by exists r'. }
      destruct r as [[code err] st']. destruct Hpost as [(? & ? & ? & Hst)|[? Hst]]; [left|right];
        split_and?; try done; intros stream; rewrite Hw; apply Hst.
    + eexists. split; [done|]. right. split; [done|]. intros stream. rewrite Hwill. simpl. rewrite Hu.
      split; [by intros []|done].
Qed.

(** Reading returns in every state, also when it is called again after an error. *)
Lemma read_loop_returns fuel : forall buf st, (length buf < fuel)%nat -> exists r, read_loop fuel buf st = Ok r.
Proof.
  induction fuel as [|fuel IH]; intros buf st Hf; [lia|]. cbn [read_loop].
  destruct (decide (buf = [])); [eauto|].
  destruct (find LF buf) as [nl|]; [|case_decide; eauto].
  destruct (negotiated st); [eauto|]. case_decide; [|eauto].
  apply IH. rewrite length_drop. destruct buf; simpl in *; [done|lia].
Qed.

Lemma feed_post pieces : forall st, reading st ->
  exists st', feed pieces st = Ok st' /\ (releaseSeen st' = true <-> will st (concat pieces)).
Proof.
  induction pieces as [|p rest IH]; intros st R.
  - exists st. split; [done|]. rewrite (rd_unseen st R). split; [done|]. intros [r E].
    simpl in E. rewrite app_nil_r, pending_split, <- app_assoc in E.
    exfalso. apply (rd_partial st R). rewrite E. apply elem_of_app. right. left.
  - simpl. unfold read.
    destruct (read_loop_post (S (length p)) p st ltac:(lia) R) as ([[code err] st1] & E & Hpost). rewrite E. simpl.
    destruct Hpost as [(-> & R1 & Hid & Hw)|[Hc Hw]].
    + destruct (IH st1 R1) as (st' & E' & H'). exists st'. split; [done|]. by rewrite H', Hw.
    + exists st1. rewrite (proj2 (Z.eqb_neq code 0) Hc). split; [done|]. by rewrite Hw.
Qed.

(** However the bytes a process writes to its control descriptor are cut into
    pieces, reading them never fails and the release of the lane is seen exactly
    when they start with the protocol version and the hexadecimal task ID the process
    was given, each on a line of its own. *)
Theorem release_seen_iff_requested task pieces :
  exists st, feed pieces (newControl (utohexstr task)) = Ok st
    /\ (shouldRelease st = true <-> exists rest, concat pieces = request (utohexstr task) ++ rest).
Proof.
  apply (feed_post pieces (newControl (utohexstr task))). split; simpl.
  - apply not_elem_of_nil.
  - done.
  - apply utohexstr_no_newline.
  - apply utohexstr_length.
Qed.

(** The length limit is a matter of how the bytes arrive: a line that is too long is
    reported as such only when a piece ends inside it. *)
Example long_line_depends_on_pieces :
  let line := chars_of "a line of more than sixteen characters" in
  (fun r => fst (fst r)) <$> (match read (line ++ [LF]) (newControl []) with Ok r => Some r | _ => None end) = Some (-1)%Z
  /\ (fun r => snd (fst r)) <$> (match read (line ++ [LF]) (newControl []) with Ok r => Some r | _ => None end)
       <> (fun r => snd (fst r)) <$> (match read line (newControl []) with Ok r => Some r | _ => None end).
Proof. split; [reflexivity|]. vm_compute. discriminate. Qed.
