(* ===== verification/Subprocess.v ===== *)
(** * Spawning processes

    [spawnProcess] of lib/Basic/Subprocess.cpp with the helpers it is made of, for
    POSIX systems with [posix_spawn] and [posix_spawn_file_actions_addchdir_np].  The
    operating system is a parameter: [System] holds its answers, those of repeated
    calls as lists consumed in order.  A list that runs out means that the call never
    returns, which the model reports as [OutOfFuel].  The calls made on the process
    delegate, on the completion function and on the release function are logged in
    order, and so is the system call that creates the process.

    Not modelled: the Windows code, the [fork] based replacement for systems without
    [addchdir_np], signal masks and process groups of the child. *)

From Stdlib Require Import Ascii String Lia ZArith.
From stdpp Require Import base gmap list strings numbers pretty.
From S2P Require Import Prelude Chars NinjaPath Process ControlProtocol.

Inductive FileAction :=
| Dup2 (from to : Z)
| OpenNull (fd : Z)
| CloseFd (fd : Z)
| Chdir (dir : chars).

Inductive ReadAnswer := ReadError (errno : Z) | ReadBytes (bytes : chars).
(** Whether [revents] has one of the three flags, and what [read] then returns. *)
Record Ready := mkReady { ready : bool; answer : ReadAnswer }.
Inductive PollAnswer := PollFailed (errno : Z) | Polled (output control : Ready).
(** A failing [wait4] leaves its status variable as it was. *)
Inductive WaitAnswer :=
| WaitFailed (errno : Z) (garbage : Z)
| Waited (wstatus : Z) (utime_sec utime_usec stime_sec stime_usec rss : Z).
Inductive SpawnAnswer := SpawnFailed (errno : Z) (left_pid : pid_t) | SpawnedPid (pid : pid_t).

Record System := mkSystem {
  addchdir : chars -> Z;
  findProgramByName : chars -> option chars;
  strerror : Z -> chars;
  posix_spawn : list FileAction -> list chars -> list chars -> SpawnAnswer;
  polls : list PollAnswer;
  reads : list ReadAnswer;
  waits : list WaitAnswer }.

Definition EAGAIN : Z := 11.
Definition EINTR : Z := 4.

Inductive Call :=
| processStarted (pid : pid_t)
| processHadError (message : chars)
| processHadOutput (data : chars)
| processFinished (result : ProcessResult)
| completionFn (result : ProcessResult)
| spawned (actions : list FileAction) (args env : list chars)
| released.

(** [newPipes] are the answers of [pipe]: an error number or the two ends. *)
Record World := mkWorld {
  calls : list Call; group : ProcessGroup; openFds : gset Z; cloexec : gset Z;
  newPipes : list (Z + Z * Z) }.

Definition upd_calls (f : list Call -> list Call) (w : World) : World :=
  mkWorld (f (calls w)) (group w) (openFds w) (cloexec w) (newPipes w).
Definition upd_group (f : ProcessGroup -> ProcessGroup) (w : World) : World :=
  mkWorld (calls w) (f (group w)) (openFds w) (cloexec w) (newPipes w).
Definition upd_openFds (f : gset Z -> gset Z) (w : World) : World :=
  mkWorld (calls w) (group w) (f (openFds w)) (cloexec w) (newPipes w).
Definition upd_cloexec (f : gset Z -> gset Z) (w : World) : World :=
  mkWorld (calls w) (group w) (openFds w) (f (cloexec w)) (newPipes w).
Definition upd_newPipes (f : list (Z + Z * Z) -> list (Z + Z * Z)) (w : World) : World :=
  mkWorld (calls w) (group w) (openFds w) (cloexec w) (f (newPipes w)).

Definition tell (c : Call) : M World unit := modify (upd_calls (fun l => l ++ [c])).

(** ** Managed descriptors (with the bookkeeping of debug builds) *)
Record ManagedDescriptor := mkFd { descriptor : Z; closedProperly : bool }.

Definition noDescriptor : ManagedDescriptor := mkFd (-1) true.
Definition isValid (d : ManagedDescriptor) : bool := (0 <=? descriptor d)%Z.

Definition close (d : ManagedDescriptor) : M World ManagedDescriptor :=
  if isValid d then modify (upd_openFds (fun s => s ∖ {[descriptor d]})) ;;; ret noDescriptor
  else ret d.

Definition reset (fd : Z) (d : ManagedDescriptor) : M World ManagedDescriptor :=
  close d ;;; ret (mkFd fd false).

(** The test is inverted: for a descriptor that is open nothing happens. *)
Definition childMayInherit (yes : bool) (d : ManagedDescriptor) : M World ManagedDescriptor :=
  if isValid d then ret d
  else modify (upd_cloexec (fun s => if yes then {[descriptor d]} ∪ s else s ∖ {[descriptor d]})) ;;; ret d.

(** The move constructor: the new descriptor and what is left of the old one. *)
Definition move (d : ManagedDescriptor) : ManagedDescriptor * ManagedDescriptor :=
  (mkFd (descriptor d) (if isValid d then false else closedProperly d), mkFd (-1) true).

Definition destroy (d : ManagedDescriptor) : M World unit :=
  ensure (negb (isValid d) && closedProperly d) (AssertFailed "!isValid() && _closedProperly").

(** ** Communication pipes *)
Inductive CommunicationPipesCreationError := ERROR_NONE | OUTPUT_PIPE_FAILED | CONTROL_PIPE_FAILED.

Record Pipes := mkPipes {
  outputParent : ManagedDescriptor; outputChild : ManagedDescriptor;
  controlParent : ManagedDescriptor; controlChild : ManagedDescriptor }.

Definition pipe : M World (Z + Z * Z) :=
  w <~ get;
  match newPipes w with
  | [] => fail OutOfFuel
  | inl e :: rest => modify (upd_newPipes (fun _ => rest)) ;;; ret (inl e)
  | inr (a, b) :: rest =>
      modify (upd_newPipes (fun _ => rest)) ;;;
      modify (upd_openFds (fun s => {[a]} ∪ ({[b]} ∪ s))) ;;; ret (inr (a, b))
  end.

(** The parent end is reset and marked, the child end is reset. *)
Definition take_ends (a b : Z) (parent child : ManagedDescriptor) : M World (ManagedDescriptor * ManagedDescriptor) :=
  parent' <~ reset a parent;
  parent'' <~ childMayInherit false parent';
  child' <~ reset b child;
  ret (parent'', child').

Definition createControlPipe (attr : ProcessAttributes) (actions : list FileAction)
    (op oc cp cc : ManagedDescriptor)
  : M World (CommunicationPipesCreationError * Z * list FileAction * Pipes) :=
  if controlEnabled attr then
    p <~ pipe;
    match p with
    | inl e =>
        op' <~ close op; oc' <~ close oc;
        ret (CONTROL_PIPE_FAILED, e, actions, mkPipes op' oc' cp cc)
    | inr (a, b) =>
        ends <~ take_ends a b cp cc;
        let '(cp', cc') := ends in
        ret (ERROR_NONE, 0%Z, actions ++ [Dup2 (descriptor cc') (descriptor cc')], mkPipes op oc cp' cc')
    end
  else ret (ERROR_NONE, 0%Z, actions, mkPipes op oc cp cc).

Definition createCommunicationPipes (attr : ProcessAttributes) (actions : list FileAction)
    (op oc cp cc : ManagedDescriptor)
  : M World (CommunicationPipesCreationError * Z * list FileAction * Pipes) :=
  if connectToConsole attr then
    createControlPipe attr (actions ++ [Dup2 0 0; Dup2 1 1; Dup2 2 2]) op oc cp cc
  else
    p <~ pipe;
    match p with
    | inl e => ret (OUTPUT_PIPE_FAILED, e, actions ++ [OpenNull 0], mkPipes op oc cp cc)
    | inr (a, b) =>
        ends <~ take_ends a b op oc;
        let '(op', oc') := ends in
        let fd := descriptor oc' in
        createControlPipe attr (actions ++ [OpenNull 0; Dup2 fd 1; Dup2 fd 2; CloseFd fd]) op' oc' cp cc
    end.

(** ** After the process was spawned *)
Definition paren (what : chars) (e : chars) : chars := what ++ chars_of " (" ++ e ++ chars_of ")".

Section Running.
Context (sys : System).

Fixpoint captureLoop (answers : list ReadAnswer) : M World unit :=
  match answers with
  | [] => fail OutOfFuel
  | ReadError e :: _ =>
      tell (processHadError (paren (chars_of "unable to read process output") (strerror sys e)))
  | ReadBytes [] :: _ => ret tt
  | ReadBytes bytes :: rest => tell (processHadOutput bytes) ;;; captureLoop rest
  end.
Definition captureExecutedProcessOutput (outputPipe : ManagedDescriptor) : M World ManagedDescriptor :=
  captureLoop (reads sys) ;;; close outputPipe.

(** [wait4] is repeated while it is interrupted. *)
Fixpoint waitLoop (answers : list WaitAnswer) : M World WaitAnswer :=
  match answers with
  | [] => fail OutOfFuel
  | WaitFailed e g :: rest => if (e =? EINTR)%Z then waitLoop rest else ret (WaitFailed e g)
  | a :: _ => ret a
  end.

Definition WTERMSIG (st : Z) : Z := Z.land st 127.
Definition WIFSIGNALED (st : Z) : bool := let t := WTERMSIG st in (0 <? t)%Z && (t <? 127)%Z.

Definition processStatus (st : Z) : ProcessStatus :=
  if WIFSIGNALED st && ((WTERMSIG st =? 2)%Z || (WTERMSIG st =? 9)%Z) then Cancelled
  else if (st =? 0)%Z then Succeeded else Failed.

Definition u64 (z : Z) : Z := z mod 2 ^ 64.
Definition micros (sec usec : Z) : Z := u64 (u64 sec * 1000000 + u64 usec).

Definition waitResult (pid : pid_t) (a : WaitAnswer) : ProcessResult :=
  match a with
  | WaitFailed _ g => makeFailed g
  | Waited st us uu ss su rss => mkProcessResult (processStatus st) st pid (micros us uu) (micros ss su) (u64 rss)
  end.

Definition cleanUpExecutedProcess (pid : pid_t) (releaseFd : ManagedDescriptor) : M World ManagedDescriptor :=
  a <~ waitLoop (waits sys);
  fd <~ close releaseFd;
  modify (upd_group (remove_process pid)) ;;;
  let result := waitResult pid a in
  match a with
  | WaitFailed e _ => tell (processHadError (paren (chars_of "unable to wait for process") (strerror sys e)))
  | _ => ret tt
  end ;;;
  tell (processFinished result) ;;; tell (completionFn result) ;;;
  ret fd.

(** Which of the two descriptors is still polled for input. *)
Inductive LoopEnd := Drained | Broken | Release.

Definition readOutput (fd : ManagedDescriptor) (r : Ready) (events : bool) : M World (bool * bool) :=
  if isValid fd && ready r then
    match answer r with
    | ReadError e =>
        tell (processHadError (paren (chars_of "unable to read process output") (strerror sys e))) ;;;
        ret (false, false)
    | ReadBytes [] => ret (false, false)
    | ReadBytes bytes => tell (processHadOutput bytes) ;;; ret (events, events)
    end
  else ret (events, events).

Definition controlRead (bytes : chars) (st : ControlProtocolState) : M World (bool * ControlProtocolState) :=
  match ControlProtocol.read bytes st with
  | Crash e => fail e
  | Ok (r, err, st') =>
      (if (r <? 0)%Z
       then tell (processHadError (chars_of "control protocol error" ++ default [] err)) else ret tt) ;;;
      ret ((r =? 0)%Z, st')
  end.

(** The new [events], whether they count for [activeEvents], the protocol state. *)
Definition readControl (fd : ManagedDescriptor) (r : Ready) (events : bool) (st : ControlProtocolState)
  : M World (bool * bool * ControlProtocolState) :=
  if isValid fd && ready r then
    match answer r with
    | ReadError e =>
        tell (processHadError (paren (chars_of "unable to read process output") (strerror sys e))) ;;;
        ret (false, false, st)
    | ReadBytes [] => ret (false, false, st)
    | ReadBytes bytes =>
        c <~ controlRead bytes st;
        let '(more, st') := c in
        if more : bool then ret (events, events, st') else ret (false, false, st')
    end
  else ret (events, events, st).

Fixpoint pollLoop (answers : list PollAnswer) (op cp : ManagedDescriptor) (e0 e1 : bool)
    (st : ControlProtocolState) : M World LoopEnd :=
  match answers with
  | [] => fail OutOfFuel
  | PollFailed e :: rest =>
      if (e =? EAGAIN)%Z || (e =? EINTR)%Z then pollLoop rest op cp e0 e1 st
      else tell (processHadError (paren (chars_of "failed to poll") (strerror sys e))) ;;; ret Broken
  | Polled r0 r1 :: rest =>
      o <~ readOutput op r0 e0;
      c <~ readControl cp r1 e1 st;
      let '(e0', a0) := o in
      let '(e1', a1, st') := c in
      if shouldRelease st' then ret Release
      else if (a0 : bool) || (a1 : bool) then pollLoop rest op cp e0' e1' st' else ret Drained
  end.

(** The function handed to the release function. *)
Definition processWait (pid : pid_t) (outputFd controlFd : ManagedDescriptor) : M World unit :=
  outputFd' <~ (if isValid outputFd then captureExecutedProcessOutput outputFd else ret outputFd);
  controlFd' <~ cleanUpExecutedProcess pid controlFd;
  destroy outputFd' ;;; destroy controlFd'.

(** Collect output and control messages until both are at their end or the process
    asks for its lane to be released; the release function may run [processWait] on
    this thread or on another one, but runs it. *)
Definition superviseProcess (attr : ProcessAttributes) (taskID : chars) (pid : pid_t) (op cp : ManagedDescriptor) : M World unit :=
  let e0 := negb (connectToConsole attr) in
  let e1 := controlEnabled attr in
  end_ <~ (if e0 || e1 then pollLoop (polls sys) op cp e0 e1 (newControl taskID) else ret Drained);
  match end_ with
  | Broken => destroy cp ;;; destroy op
  | Release =>
      let '(outputFd, op') := move op in
      let '(controlFd, cp') := move cp in
      tell released ;;; processWait pid outputFd controlFd ;;;
      destroy cp' ;;; destroy op'
  | Drained =>
      op' <~ close op;
      cp' <~ cleanUpExecutedProcess pid cp;
      destroy cp' ;;; destroy op'
  end.
End Running.

(** ** Spawning *)
Section Spawn.
Context (sys : System).

(** The failures before a process exists. *)
Definition failEarly (message : chars) : M World unit :=
  tell (processStarted (-1)) ;;; tell (processHadError message) ;;;
  tell (processFinished (makeFailed (-1))) ;;; tell (completionFn (makeFailed (-1))).

Definition set_env (key value : chars) (env : POSIXEnvironment) : M World POSIXEnvironment :=
  match setIfMissing key value env with Ok e => ret e | Crash f => fail f end.

(** The locked region: [None] when the function returned from inside it, else the
    process ID ([-1] for none), whether the group was closed, and the parent ends. *)
Definition spawnLocked (attr : ProcessAttributes) (actions : list FileAction) (args : list chars)
    (env : POSIXEnvironment) : M World (option (pid_t * bool * ManagedDescriptor * ManagedDescriptor)) :=
  w <~ get;
  if isClosed (group w) then ret (Some ((-1)%Z, true, noDescriptor, noDescriptor))
  else
    r <~ createCommunicationPipes attr actions noDescriptor noDescriptor noDescriptor noDescriptor;
    let '(err, errno, actions', ps) := r in
    match err with
    | ERROR_NONE =>
        env' <~ (if isValid (controlChild ps)
                 then set_env (chars_of "LLBUILD_CONTROL_FD") (chars_of (pretty (descriptor (controlChild ps)))) env
                 else ret env);
        let envp := fst (getEnvp env') in
        tell (spawned actions' args envp) ;;;
        pid <~ (match posix_spawn sys actions' args envp with
                | SpawnFailed e left_pid =>
                    tell (processStarted left_pid) ;;;
                    tell (processHadError (paren (chars_of "unable to spawn process '" ++ hd [] args ++ chars_of "'")
                                             (strerror sys e))) ;;;
                    tell (processFinished (makeFailed (-1))) ;;; ret (-1)%Z
                | SpawnedPid p =>
                    tell (processStarted p) ;;;
                    modify (upd_group (add_process p (canSafelyInterrupt attr))) ;;; ret p
                end);
        cc <~ close (controlChild ps);
        oc <~ close (outputChild ps);
        destroy cc ;;; destroy oc ;;;
        ret (Some (pid, false, outputParent ps, controlParent ps))
    | _ =>
        let what := match err with OUTPUT_PIPE_FAILED => chars_of "output pipe" | _ => chars_of "control pipe" end in
        failEarly (paren (chars_of "unable to open " ++ what) (strerror sys errno)) ;;;
        destroy (controlChild ps) ;;; destroy (outputChild ps) ;;;
        destroy (controlParent ps) ;;; destroy (outputParent ps) ;;;
        ret None
    end.

Definition resolveProgram (args : list chars) : list chars :=
  match args with
  | [] => []
  | prog :: rest =>
      if is_absolute prog then args
      else match findProgramByName sys prog with Some p => p :: rest | None => args end
  end.

Definition spawnProcess (handle : Z) (commandLine : list chars) (environment : POSIXEnvironment)
    (attr0 : ProcessAttributes) : M World unit :=
  let attr := if connectToConsole attr0
              then mkAttributes (canSafelyInterrupt attr0) true (workingDir attr0) (inheritEnvironment attr0) false
              else attr0 in
  match commandLine with
  | [] => failEarly (chars_of "no arguments for command")
  | _ :: _ =>
      let dir := workingDir attr in
      if bool_decide (dir <> []) && negb (addchdir sys dir =? 0)%Z
      then failEarly (chars_of "failed to set the working directory")
      else
        let actions := if decide (dir = []) then [] else [Chdir dir] in
        let taskID := utohexstr handle in
        env <~ set_env (chars_of "LLBUILD_TASK_ID") taskID environment;
        r <~ spawnLocked attr actions (resolveProgram commandLine) env;
        match r with
        | None => ret tt
        | Some (pid, wasCancelled, op, cp) =>
            if (pid =? -1)%Z then
              op' <~ close op; cp' <~ close cp;
              tell (completionFn (if wasCancelled : bool then makeCancelled else makeFailed (-1))) ;;;
              destroy cp' ;;; destroy op'
            else superviseProcess sys attr taskID pid op cp
        end
  end.
End Spawn.
