(* ===== verification/SubprocessProps.v ===== *)
(** * What spawning a process promises

    The delegate's contract (Subprocess.h: every [processStarted] call is paired with
    exactly one [processFinished] call), the completion of every request, and the
    balance of descriptors and of the process group.  The hypotheses on the system
    are that [pipe] returns new descriptors, that a spawned process has a process ID
    not in use, that the process closes its ends of the pipes and exits, and that
    [poll] does not fail (what happens then is shown in [poll_failure_loses_process]). *)

From Stdlib Require Import Ascii String Lia ZArith.
From stdpp Require Import base gmap list strings numbers pretty.
From S2P Require Import Prelude Chars NinjaPath Process ControlProtocol Subprocess.

(** ** Specification *)

(** Calls between start and end of a process. *)
Definition chatter (c : Call) : bool :=
  match c with processHadError _ | processHadOutput _ => true | _ => false end.

(** The calls of one request: at most one release, one completion; a process that
    was started is finished once, after all its output, with the result that
    completes the request. *)
Inductive session (l : list Call) : Prop :=
| session_cancelled : l = [completionFn makeCancelled] -> session l
| session_ran pre p mid1 rel mid2 r :
    l = pre ++ processStarted p :: mid1 ++ rel ++ mid2 ++ [processFinished r; completionFn r] ->
    (pre = [] \/ exists a args env, pre = [spawned a args env]) ->
    (rel = [] \/ rel = [released]) ->
    Forall (fun c => chatter c = true) (mid1 ++ mid2) -> session l.

(** ** The operating system's side *)
Definition ends (a : ReadAnswer) : bool :=
  match a with ReadError _ | ReadBytes [] => true | ReadBytes _ => false end.
Definition ends_ready (r : Ready) : bool := ready r && ends (answer r).
Definition output_ends (a : PollAnswer) : bool := match a with Polled r _ => ends_ready r | _ => false end.
Definition control_ends (a : PollAnswer) : bool := match a with Polled _ r => ends_ready r | _ => false end.
Definition transient (a : PollAnswer) : bool :=
  match a with PollFailed e => (e =? EAGAIN)%Z || (e =? EINTR)%Z | _ => true end.
Definition exits (a : WaitAnswer) : bool :=
  match a with WaitFailed e _ => negb (e =? EINTR)%Z | _ => true end.

Fixpoint pipes_ok (open : gset Z) (l : list (Z + Z * Z)) : bool :=
  match l with
  | [] => true
  | inl _ :: rest => pipes_ok open rest
  | inr (a, b) :: rest =>
      (0 <=? a)%Z && (0 <=? b)%Z && bool_decide (a <> b) && bool_decide (a ∉ open) && bool_decide (b ∉ open)
      && pipes_ok ({[a]} ∪ ({[b]} ∪ open)) rest
  end.

(** The process ends its output and its control messages and exits. *)
Record System_ok (sys : System) (w : World) : Prop := {
  so_output : existsb output_ends (polls sys) = true;
  so_control : existsb control_ends (polls sys) = true;
  so_polls : forallb transient (polls sys) = true;
  so_reads : existsb ends (reads sys) = true;
  so_waits : existsb exits (waits sys) = true;
  so_pid : forall a args env p, posix_spawn sys a args env = SpawnedPid p -> p <> (-1)%Z /\ processes (group w) !! p = None;
  so_pipes : pipes_ok (openFds w) (newPipes w) = true;
  so_two : (2 <= length (newPipes w))%nat }.

(** ** Pieces that only talk to the delegate *)
Definition says (l : list Call) (w : World) : World := upd_calls (fun l0 => l0 ++ l) w.

Lemma says_nil w : says [] w = w.
Proof. destruct w. unfold says, upd_calls. simpl. by rewrite app_nil_r. Qed.
Lemma says_says l1 l2 w : says l2 (says l1 w) = says (l1 ++ l2) w.
Proof. unfold says, upd_calls. simpl. by rewrite app_assoc. Qed.

(** [m] returns after telling the delegate of errors and output only. *)
Definition chats {A} (m : M World A) (w : World) (Q : A -> Prop) : Prop :=
  runs m w (fun a w' => Q a /\ exists l, Forall (fun c => chatter c = true) l /\ w' = says l w).

Lemma chats_ret {A} (a : A) w (Q : A -> Prop) : Q a -> chats (ret a) w Q.
Proof. intros H. apply runs_ret. split; [done|]. exists []. by rewrite says_nil. Qed.

Lemma chats_tell c w (Q : unit -> Prop) : chatter c = true -> Q tt -> chats (tell c) w Q.
Proof. intros Hc H. apply runs_modify. split; [done|]. exists [c]. split; [by repeat constructor|done]. Qed.

Lemma chats_bind {A B} (m : M World A) (f : A -> M World B) w Q1 Q :
  chats m w Q1 -> (forall a w', Q1 a -> chats (f a) w' Q) -> chats (bind m f) w Q.
Proof.
  intros Hm Hf. eapply runs_bind; [exact Hm|]. intros a w1 [H1 (l1 & F1 & ->)].
  eapply runs_mono; [exact (Hf a _ H1)|]. intros b w2 [H2 (l2 & F2 & ->)]. split; [done|].
  exists (l1 ++ l2). rewrite says_says. split; [|done]. by apply Forall_app.
Qed.

#[export] Hint Resolve chats_ret chats_tell : llb.

Section Pieces.
Context (sys : System).

Lemma captureLoop_chats answers w : existsb ends answers = true -> chats (captureLoop sys answers) w (fun _ => True).
Proof.
  revert w. induction answers as [|[e|[|c bytes]] rest IH]; intros w He; simpl in *; [done| | |].
  - by apply chats_tell.
  - by apply chats_ret.
  - eapply chats_bind; [by apply chats_tell with (Q := fun _ => True)|]. intros [] w' _. by apply IH.
Qed.

Lemma waitLoop_chats answers w : existsb exits answers = true ->
  chats (waitLoop answers) w (fun _ => True).
Proof.
  induction answers as [|[e g|] rest IH]; intros He; simpl in *; [done| |by apply chats_ret].
  destruct (e =? EINTR)%Z; simpl in He; [by apply IH|by apply chats_ret].
Qed.

Lemma readOutput_chats fd r e w : isValid fd = true \/ e = false ->
  chats (readOutput sys fd r e) w (fun '(e', a) => a = e' /\ (e' = true -> e = true) /\ (ends_ready r = true -> e' = false)).
Proof.
  intros Hv. unfold readOutput, ends_ready. destruct (isValid fd) eqn:Ev; simpl.
  2:{ destruct Hv as [?| ->]; [done|]. apply chats_ret. destruct (ready r); naive_solver. }
  destruct (ready r); simpl; [|apply chats_ret; naive_solver].
  destruct (answer r) as [err|[|c bytes]].
  - eapply chats_bind; [by apply chats_tell with (Q := fun _ => True)|]. intros [] w' _. by apply chats_ret.
  - by apply chats_ret.
  - eapply chats_bind; [by apply chats_tell with (Q := fun _ => True)|]. intros [] w' _. apply chats_ret. naive_solver.
Qed.

Lemma controlRead_chats bytes st w : chats (controlRead bytes st) w (fun _ => True).
Proof.
  unfold controlRead, ControlProtocol.read.
  destruct (read_loop_returns (S (length bytes)) bytes st) as [[[r err] st'] ->]; [lia|].
  eapply chats_bind with (Q1 := fun _ => True); [destruct (r <? 0)%Z; auto with llb|].
  intros [] w' _. by apply chats_ret.
Qed.

Lemma readControl_chats fd r e st w : isValid fd = true \/ e = false ->
  chats (readControl sys fd r e st) w (fun '(e', a, _) => a = e' /\ (e' = true -> e = true) /\ (ends_ready r = true -> e' = false)).
Proof.
  intros Hv. unfold readControl, ends_ready. destruct (isValid fd) eqn:Ev; simpl.
  2:{ destruct Hv as [?| ->]; [done|]. apply chats_ret. destruct (ready r); naive_solver. }
  destruct (ready r); simpl; [|apply chats_ret; naive_solver].
  destruct (answer r) as [err|[|c bytes]].
  - eapply chats_bind; [by apply chats_tell with (Q := fun _ => True)|]. intros [] w' _. by apply chats_ret.
  - by apply chats_ret.
  - eapply chats_bind; [apply controlRead_chats|]. intros [[] st'] w' _; apply chats_ret; naive_solver.
Qed.

(** Polling ends, and not because [poll] failed. *)
Lemma pollLoop_chats answers op cp e0 e1 st w :
  isValid op = true \/ e0 = false -> isValid cp = true \/ e1 = false ->
  (e0 = true -> existsb output_ends answers = true) -> (e1 = true -> existsb control_ends answers = true) ->
  e0 || e1 = true -> forallb transient answers = true ->
  chats (pollLoop sys answers op cp e0 e1 st) w (fun r => r <> Broken).
Proof.
  revert e0 e1 st w. induction answers as [|a rest IH]; intros e0 e1 st w V0 V1 H0 H1 Ha Ht.
  { destruct e0; [by specialize (H0 eq_refl)|]. destruct e1; [by specialize (H1 eq_refl)|done]. }
  simpl in Ht. apply andb_true_iff in Ht as [Ht Hts]. destruct a as [e|r0 r1]; simpl in *.
  { rewrite Ht. by apply IH. }
  eapply chats_bind; [by apply readOutput_chats|]. intros [e0' a0] w1 (-> & M0 & E0).
  eapply chats_bind; [by apply readControl_chats|]. intros [[e1' a1] st'] w2 (-> & M1 & E1).
  destruct (shouldRelease st'); [by apply chats_ret|].
  destruct (e0' || e1') eqn:Eact; [|by apply chats_ret].
  apply IH; try done.
  - destruct V0 as [?| ->]; [by left|right]. destruct e0'; [by specialize (M0 eq_refl)|done].
  - destruct V1 as [?| ->]; [by left|right]. destruct e1'; [by specialize (M1 eq_refl)|done].
  - intros ->. specialize (H0 (M0 eq_refl)). apply orb_true_iff in H0 as [H0|H0]; [by specialize (E0 H0)|done].
  - intros ->. specialize (H1 (M1 eq_refl)). apply orb_true_iff in H1 as [H1|H1]; [by specialize (E1 H1)|done].
Qed.
End Pieces.

(** ** Descriptors *)
Definition fds (d : ManagedDescriptor) : gset Z := if isValid d then {[descriptor d]} else ∅.

(** A descriptor object that holds nothing, or something it must close. *)
Definition owned (d : ManagedDescriptor) : Prop := d = noDescriptor \/ isValid d = true /\ closedProperly d = false.

(** The parts of the world a piece leaves behind. *)
Definition after (w w' : World) (l : list Call) (g : ProcessGroup) (s : gset Z) : Prop :=
  calls w' = calls w ++ l /\ group w' = g /\ openFds w' = s.

Lemma after_says w l : after w (says l w) l (group w) (openFds w).
Proof. done. Qed.

Lemma after_trans w1 w2 w3 l1 l2 g s g' s' :
  after w1 w2 l1 g s -> after w2 w3 l2 g' s' -> after w1 w3 (l1 ++ l2) g' s'.
Proof. intros (E1 & _ & _) (E2 & ? & ?). split; [|done]. by rewrite E2, E1, app_assoc. Qed.

Lemma runs_close d w (Q : ManagedDescriptor -> World -> Prop) : owned d ->
  (forall w', after w w' [] (group w) (openFds w ∖ fds d) -> Q noDescriptor w') -> runs (close d) w Q.
Proof.
  intros [-> |[Hv _]] HQ; unfold close, fds in *.
  - apply runs_ret, HQ. split; [by rewrite app_nil_r|]. split; [done|]. simpl. set_solver.
  - rewrite Hv in *. eexists _, _. split; [reflexivity|]. apply HQ. split; [by rewrite app_nil_r|done].
Qed.

Lemma runs_destroy w (Q : unit -> World -> Prop) : Q tt w -> runs (destroy noDescriptor) w Q.
Proof. intros H. by exists tt, w. Qed.

Lemma runs_tell c w (Q : unit -> World -> Prop) : Q tt (says [c] w) -> runs (tell c) w Q.
Proof. apply runs_modify. Qed.

Lemma runs_tell_bind {B} c (f : unit -> M World B) w Q : runs (f tt) (says [c] w) Q -> runs (bind (tell c) f) w Q.
Proof. done. Qed.

Lemma runs_destroy_bind {B} (f : unit -> M World B) w Q : runs (f tt) w Q -> runs (bind (destroy noDescriptor) f) w Q.
Proof. done. Qed.

Lemma runs_chats {A} (m : M World A) w P (Q : A -> World -> Prop) : chats m w P ->
  (forall a l, P a -> Forall (fun c => chatter c = true) l -> Q a (says l w)) -> runs m w Q.
Proof. intros H HQ. eapply runs_mono; [exact H|]. intros a w' [Ha (l & F & ->)]. by apply HQ. Qed.

Lemma move_owned d : owned d -> owned (fst (move d)) /\ snd (move d) = noDescriptor /\ fds (fst (move d)) = fds d.
Proof.
  intros [-> |[Hv Hc]]; [by split; [left|]|]. split; [right|done]. unfold move. simpl. by rewrite Hv.
Qed.

Section Supervision.
Context (sys : System).

Lemma cleanUp_runs pid fd w (Q : ManagedDescriptor -> World -> Prop) :
  existsb exits (waits sys) = true -> owned fd ->
  (forall w' l r, Forall (fun c => chatter c = true) l ->
     after w w' (l ++ [processFinished r; completionFn r]) (remove_process pid (group w)) (openFds w ∖ fds fd) ->
     Q noDescriptor w') ->
  runs (cleanUpExecutedProcess sys pid fd) w Q.
Proof.
  intros Hw Hfd HQ. unfold cleanUpExecutedProcess.
  eapply runs_bind; [exact (waitLoop_chats (waits sys) w Hw)|]. intros a w1 [_ (l1 & F1 & ->)].
  eapply runs_bind.
  { apply runs_close with (Q := fun d w' => d = noDescriptor /\
      after (says l1 w) w' [] (group w) (openFds w ∖ fds fd)); done. }
  intros d w2 [-> A2].
  eapply runs_bind; [apply runs_modify with (Q := fun _ w' => w' = upd_group (remove_process pid) w2); done|].
  intros [] w3 ->.
  eapply runs_bind with (Q1 := fun _ w' => exists l, Forall (fun c => chatter c = true) l /\ w' = says l _).
  { destruct a; [apply runs_tell; exists [processHadError (paren (chars_of "unable to wait for process") (strerror sys errno))];
                 by split; [repeat constructor|]|].
    apply runs_ret. exists []. by rewrite says_nil. }
  intros [] w4 (l2 & F2 & ->).
  do 2 apply runs_tell_bind.
  apply runs_ret. apply (HQ _ (l1 ++ l2) (waitResult pid a)); [by apply Forall_app|].
  destruct A2 as (E2 & G2 & O2). split; [|split]; simpl.
  - rewrite E2. simpl. by rewrite app_nil_r, <- !app_assoc.
  - by rewrite G2.
  - exact O2.
Qed.

Lemma processWait_runs pid ofd cfd w (Q : unit -> World -> Prop) :
  existsb exits (waits sys) = true -> existsb ends (reads sys) = true -> owned ofd -> owned cfd ->
  (forall w' l r, Forall (fun c => chatter c = true) l ->
     after w w' (l ++ [processFinished r; completionFn r]) (remove_process pid (group w)) (openFds w ∖ (fds ofd ∪ fds cfd)) ->
     Q tt w') ->
  runs (processWait sys pid ofd cfd) w Q.
Proof.
  intros Hw Hr Ho Hc HQ. unfold processWait.
  eapply runs_bind with (Q1 := fun d w' => d = noDescriptor /\ exists l, Forall (fun c => chatter c = true) l /\
    after w w' l (group w) (openFds w ∖ fds ofd)).
  { destruct (isValid ofd) eqn:Ev.
    - unfold captureExecutedProcessOutput.
      eapply runs_bind; [exact (captureLoop_chats sys (reads sys) w Hr)|]. intros [] w1 [_ (l & F & ->)].
      apply runs_close; [done|]. intros w' A. split; [done|]. exists l. split; [done|].
      destruct A as (E & G & O). split; [|done]. rewrite E. simpl. by rewrite app_nil_r.
    - apply runs_ret. destruct Ho as [-> |[? _]]; [|congruence]. split; [done|]. exists []. split; [done|].
      split; [by rewrite app_nil_r|]. split; [done|]. unfold fds. simpl. set_solver. }
  intros d w1 [-> (l1 & F1 & A1)].
  eapply runs_bind.
  { apply cleanUp_runs with (Q := fun d w' => d = noDescriptor /\ exists l r, Forall (fun c => chatter c = true) l /\
      after w1 w' (l ++ [processFinished r; completionFn r]) (remove_process pid (group w1)) (openFds w1 ∖ fds cfd)); eauto. }
  intros d w2 [-> (l2 & r & F2 & A2)].
  apply runs_destroy_bind, runs_destroy.
  apply (HQ w2 (l1 ++ l2) r); [by apply Forall_app|].
  pose proof (after_trans _ _ _ _ _ _ _ _ _ A1 A2) as (E & G & O).
  destruct A1 as (_ & G1 & O1). split; [by rewrite E, <- !app_assoc|]. split; [by rewrite G, G1|].
  rewrite O, O1. set_solver.
Qed.

(** The calls made from the start of the process on. *)
Definition session_tail (l : list Call) : Prop :=
  exists mid1 rel mid2 r, l = mid1 ++ rel ++ mid2 ++ [processFinished r; completionFn r]
    /\ (rel = [] \/ rel = [released]) /\ Forall (fun c => chatter c = true) (mid1 ++ mid2).

Lemma supervise_runs attr taskID pid op cp w :
  existsb exits (waits sys) = true -> existsb ends (reads sys) = true ->
  existsb output_ends (polls sys) = true -> existsb control_ends (polls sys) = true ->
  forallb transient (polls sys) = true ->
  owned op -> owned cp ->
  (connectToConsole attr = false -> isValid op = true) -> (controlEnabled attr = true -> isValid cp = true) ->
  runs (superviseProcess sys attr taskID pid op cp) w (fun _ w' => exists l, session_tail l /\
    after w w' l (remove_process pid (group w)) (openFds w ∖ (fds op ∪ fds cp))).
Proof.
  intros Hw Hr Ho Hc Ht Oop Ocp Vop Vcp. unfold superviseProcess.
  eapply runs_bind with (Q1 := fun r w' => r <> Broken /\ exists l, Forall (fun c => chatter c = true) l /\ w' = says l w).
  { destruct (negb (connectToConsole attr) || controlEnabled attr) eqn:Eact.
    - apply pollLoop_chats; try done.
      + destruct (connectToConsole attr); [by right|left; by apply Vop].
      + destruct (controlEnabled attr); [left; by apply Vcp|by right].
    - apply runs_ret. split; [done|]. exists []. by rewrite says_nil. }
  intros r w1 [Hr1 (l1 & F1 & ->)]. destruct r; [|done|].
  - eapply runs_bind.
    { apply runs_close with (Q := fun d w' => d = noDescriptor /\ after (says l1 w) w' [] (group w) (openFds w ∖ fds op)); done. }
    intros d w2 [-> (E2 & G2 & O2)].
    eapply runs_bind.
    { apply cleanUp_runs with (Q := fun d w' => d = noDescriptor /\ exists l r, Forall (fun c => chatter c = true) l /\
        after w2 w' (l ++ [processFinished r; completionFn r]) (remove_process pid (group w2)) (openFds w2 ∖ fds cp)); eauto. }
    intros d w3 [-> (l3 & r & F3 & E3 & G3 & O3)].
    apply runs_destroy_bind, runs_destroy.
    exists (l1 ++ l3 ++ [processFinished r; completionFn r]). split.
    + exists l1, [], l3, r. split; [done|]. split; [by left|]. by apply Forall_app.
    + split; [|split]; [|by rewrite G3, G2|rewrite O3, O2; set_solver].
      rewrite E3, E2. simpl. by rewrite app_nil_r, <- !app_assoc.
  - destruct (move_owned op Oop) as (O1 & S1 & D1). destruct (move_owned cp Ocp) as (O2 & S2 & D2).
    destruct (move op) as [ofd op'], (move cp) as [cfd cp']. simpl in *. subst op' cp'.
    apply runs_tell_bind.
    eapply runs_bind.
    { apply processWait_runs with (Q := fun _ w' => exists l r, Forall (fun c => chatter c = true) l /\
        after (says [released] (says l1 w)) w' (l ++ [processFinished r; completionFn r])
          (remove_process pid (group w)) (openFds w ∖ (fds ofd ∪ fds cfd))); eauto. }
    intros [] w3 (l3 & r & F3 & E3 & G3 & O3).
    apply runs_destroy_bind, runs_destroy.
    exists (l1 ++ [released] ++ l3 ++ [processFinished r; completionFn r]). split.
    + exists l1, [released], l3, r. split; [done|]. split; [by right|]. by apply Forall_app.
    + split; [|split]; [|done|by rewrite O3, D1, D2].
      rewrite E3. simpl. by rewrite <- !app_assoc.
Qed.
End Supervision.

(** ** Pipes *)
Lemma runs_pipe w (Q : Z + Z * Z -> World -> Prop) :
  pipes_ok (openFds w) (newPipes w) = true -> newPipes w <> [] ->
  (forall e w', after w w' [] (group w) (openFds w) -> pipes_ok (openFds w') (newPipes w') = true ->
     newPipes w' = tail (newPipes w) -> Q (inl e) w') ->
  (forall a b w', (0 <= a)%Z -> (0 <= b)%Z -> a ∉ openFds w -> b ∉ openFds w ->
     after w w' [] (group w) ({[a]} ∪ ({[b]} ∪ openFds w)) -> pipes_ok (openFds w') (newPipes w') = true ->
     newPipes w' = tail (newPipes w) -> Q (inr (a, b)) w') ->
  runs pipe w Q.
Proof.
  intros Hok Hne He Hab. unfold pipe. apply runs_get.
  destruct (newPipes w) as [|[e|[a b]] rest] eqn:Ep; [done| |]; simpl in Hok.
  - eexists _, _. split; [reflexivity|]. apply He; [|done|done]. split; [by rewrite app_nil_r|done].
  - repeat match goal with H : _ && _ = true |- _ => apply andb_true_iff in H as [? ?] end.
    rewrite !bool_decide_eq_true in *.
    eexists _, _. split; [reflexivity|]. apply Hab; try lia; try done. split; [by rewrite app_nil_r|done].
Qed.

Lemma take_ends_new a b w : (0 <= a)%Z ->
  take_ends a b noDescriptor noDescriptor w = Ok ((mkFd a false, mkFd b false), w).
Proof.
  intros Ha. unfold take_ends, childMayInherit, reset, close, bind, ret, isValid. simpl.
  by rewrite (proj2 (Z.leb_le 0 a) Ha).
Qed.

Lemma owned_new a : (0 <= a)%Z -> owned (mkFd a false) /\ isValid (mkFd a false) = true /\ fds (mkFd a false) = {[a]}.
Proof. intros H. unfold owned, fds, isValid. simpl. rewrite (proj2 (Z.leb_le 0 a) H). naive_solver. Qed.

Definition pipe_fds (ps : Pipes) : gset Z :=
  fds (outputParent ps) ∪ fds (outputChild ps) ∪ fds (controlParent ps) ∪ fds (controlChild ps).

Record pipes_made (attr : ProcessAttributes) (w w' : World) (ps : Pipes) : Prop := {
  pm_op : owned (outputParent ps); pm_oc : owned (outputChild ps);
  pm_cp : owned (controlParent ps); pm_cc : owned (controlChild ps);
  pm_out : connectToConsole attr = false -> isValid (outputParent ps) = true;
  pm_ctl : controlEnabled attr = true -> isValid (controlParent ps) = true;
  pm_new : pipe_fds ps ## openFds w;
  pm_open : after w w' [] (group w) (openFds w ∪ pipe_fds ps) }.

Definition no_pipes : Pipes := mkPipes noDescriptor noDescriptor noDescriptor noDescriptor.

(** All pipes or none. *)
Definition pipes_post (attr : ProcessAttributes) (w : World)
    (r : CommunicationPipesCreationError * Z * list FileAction * Pipes) (w' : World) : Prop :=
  let '(err, _, _, ps) := r in
  match err with
  | ERROR_NONE => pipes_made attr w w' ps
  | _ => ps = no_pipes /\ after w w' [] (group w) (openFds w)
  end.

Lemma fds_none : fds noDescriptor = ∅.
Proof. done. Qed.

Ltac solve_after := split; [by rewrite ?app_nil_r|split; [done|rewrite ?fds_none; set_solver]].

Lemma createControlPipe_runs attr acts op oc w0 w :
  pipes_ok (openFds w) (newPipes w) = true -> newPipes w <> [] ->
  owned op -> owned oc -> (connectToConsole attr = false -> isValid op = true) ->
  fds op ∪ fds oc ## openFds w0 ->
  after w0 w [] (group w0) (openFds w0 ∪ (fds op ∪ fds oc)) ->
  runs (createControlPipe attr acts op oc noDescriptor noDescriptor) w (pipes_post attr w0).
Proof.
  intros Hok Hne Oop Ooc Vop Hd A. destruct A as (E & G & O).
  unfold createControlPipe. destruct (controlEnabled attr) eqn:Ec.
  2:{ apply runs_ret. split; simpl; try done; try (by left); try (by rewrite Ec);
        unfold pipe_fds; simpl; rewrite ?fds_none; [set_solver|].
      split; [by rewrite E, !app_nil_r|]. split; [done|]. rewrite O. set_solver. }
  eapply runs_bind.
  { apply runs_pipe with (Q := fun r w' =>
      (exists e, r = inl e /\ after w0 w' [] (group w0) (openFds w)) \/
      (exists a b, r = inr (a, b) /\ (0 <= a)%Z /\ (0 <= b)%Z /\ (a ∉ openFds w) /\ (b ∉ openFds w) /\
         after w0 w' [] (group w0) ({[a]} ∪ ({[b]} ∪ openFds w)))); [done..| |].
    - intros e w' (E' & G' & O') _ _. left. exists e. split; [done|]. split; [by rewrite E', E, !app_nil_r|].
      split; [by rewrite G'|done].
    - intros a b w' Ha Hb Na Nb (E' & G' & O') _ _. right. exists a, b. do 5 (split; [done|]).
      split; [by rewrite E', E, !app_nil_r|]. split; [by rewrite G'|done]. }
  intros r w1 [(e & -> & E1 & G1 & O1)|(a & b & -> & Ha & Hb & Na & Nb & E1 & G1 & O1)].
  - eapply runs_bind; [apply runs_close with (Q := fun d w' => d = noDescriptor /\
      after w1 w' [] (group w1) (openFds w1 ∖ fds op)); done|]. intros d w2 [-> (E2 & G2 & O2)].
    eapply runs_bind; [apply runs_close with (Q := fun d w' => d = noDescriptor /\
      after w2 w' [] (group w2) (openFds w2 ∖ fds oc)); done|]. intros d w3 [-> (E3 & G3 & O3)].
    apply runs_ret. split; [done|]. split; [by rewrite E3, E2, E1, !app_nil_r|].
    split; [by rewrite G3, G2, G1|]. rewrite O3, O2, O1, O. set_solver.
  - eapply runs_step; [by apply take_ends_new|]. simpl. apply runs_ret.
    destruct (owned_new a Ha) as (Oa & Va & Fa). destruct (owned_new b Hb) as (Ob & Vb & Fb).
    split; simpl; try done; unfold pipe_fds; simpl; rewrite ?Fa, ?Fb.
    + set_solver.
    + split; [done|]. split; [done|]. rewrite O1, O. set_solver.
Qed.

Lemma createCommunicationPipes_runs attr acts w :
  pipes_ok (openFds w) (newPipes w) = true -> (2 <= length (newPipes w))%nat ->
  runs (createCommunicationPipes attr acts noDescriptor noDescriptor noDescriptor noDescriptor) w (pipes_post attr w).
Proof.
  intros Hok Hlen. unfold createCommunicationPipes.
  assert (Hne : newPipes w <> []) by (intros E; rewrite E in Hlen; simpl in Hlen; lia).
  destruct (connectToConsole attr) eqn:Ec.
  { apply createControlPipe_runs; try done; [by left|by left|set_solver|]. solve_after. }
  eapply runs_bind.
  { apply runs_pipe with (Q := fun r w' =>
      (exists e, r = inl e /\ after w w' [] (group w) (openFds w)) \/
      (exists a b, r = inr (a, b) /\ (0 <= a)%Z /\ (0 <= b)%Z /\ (a ∉ openFds w) /\ (b ∉ openFds w) /\
         pipes_ok (openFds w') (newPipes w') = true /\ newPipes w' <> [] /\
         after w w' [] (group w) ({[a]} ∪ ({[b]} ∪ openFds w)))); [done..| |].
    - intros e w' A _ _. left. eauto.
    - intros a b w' Ha Hb Na Nb A Hok' Et. right. exists a, b. do 6 (split; [done|]). split; [|done].
      rewrite Et. destruct (newPipes w) as [|? [|? ?]]; simpl in *; [done|lia|done]. }
  intros r w1 [(e & -> & A)|(a & b & -> & Ha & Hb & Na & Nb & Hok1 & Hne1 & E1 & G1 & O1)]; [by apply runs_ret|].
  eapply runs_step; [by apply take_ends_new|].
  destruct (owned_new a Ha) as (Oa & Va & Fa). destruct (owned_new b Hb) as (Ob & Vb & Fb).
  apply createControlPipe_runs; try done; rewrite ?Fa, ?Fb; [set_solver|].
  split; [done|]. split; [done|]. rewrite O1. set_solver.
Qed.

(** ** Spawning *)
Lemma set_env_ok k v e w : isFrozen e = false -> exists e', set_env k v e w = Ok (e', w) /\ isFrozen e' = false.
Proof.
  intros Hf. unfold set_env, setIfMissing. rewrite Hf. case_decide; eexists; by split.
Qed.

(** The parent ends after the locked region: closing them restores the open set. *)
Record parents (attr : ProcessAttributes) (w w' : World) (op cp : ManagedDescriptor) : Prop := {
  pa_op : owned op; pa_cp : owned cp;
  pa_out : connectToConsole attr = false -> isValid op = true;
  pa_ctl : controlEnabled attr = true -> isValid cp = true;
  pa_open : openFds w' ∖ (fds op ∪ fds cp) = openFds w }.

Definition early (l : list Call) : Prop :=
  exists msg, l = [processStarted (-1); processHadError msg; processFinished (makeFailed (-1)); completionFn (makeFailed (-1))].

Inductive locked_post (attr : ProcessAttributes) (w : World)
  : option (pid_t * bool * ManagedDescriptor * ManagedDescriptor) -> World -> Prop :=
| locked_closed : closed (group w) = true -> locked_post attr w (Some ((-1)%Z, true, noDescriptor, noDescriptor)) w
| locked_no_pipes w' l : closed (group w) = false -> early l -> after w w' l (group w) (openFds w) -> locked_post attr w None w'
| locked_failed w' op cp a args env p msg :
    closed (group w) = false -> calls w' = calls w ++ [spawned a args env; processStarted p; processHadError msg; processFinished (makeFailed (-1))] ->
    group w' = group w -> parents attr w w' op cp -> locked_post attr w (Some ((-1)%Z, false, op, cp)) w'
| locked_spawned w' op cp a args env p :
    closed (group w) = false -> p <> (-1)%Z -> processes (group w) !! p = None ->
    calls w' = calls w ++ [spawned a args env; processStarted p] ->
    group w' = add_process p (canSafelyInterrupt attr) (group w) ->
    parents attr w w' op cp -> locked_post attr w (Some (p, false, op, cp)) w'.

Lemma failEarly_runs msg w (Q : unit -> World -> Prop) :
  (forall w' l, early l -> after w w' l (group w) (openFds w) -> Q tt w') -> runs (failEarly msg) w Q.
Proof.
  intros HQ. unfold failEarly. do 3 apply runs_tell_bind. apply runs_tell.
  eapply HQ; [by exists msg|]. split; [|done]. simpl. by rewrite <- !app_assoc.
Qed.

Lemma close_children attr w0 w ps : pipes_made attr w0 w ps ->
  forall w1 (f : M World (option (pid_t * bool * ManagedDescriptor * ManagedDescriptor))) Q,
  openFds w1 = openFds w ->
  (forall w2, calls w2 = calls w1 -> group w2 = group w1 -> parents attr w0 w2 (outputParent ps) (controlParent ps) -> runs f w2 Q) ->
  runs (cc <~ close (controlChild ps); oc <~ close (outputChild ps); destroy cc ;;; destroy oc ;;; f) w1 Q.
Proof.
  intros [Oop Ooc Ocp Occ Vo Vc Hd (_ & _ & HO)] w1 f Q E1 Hf.
  eapply runs_bind; [apply runs_close with (Q := fun d w' => d = noDescriptor /\
    after w1 w' [] (group w1) (openFds w1 ∖ fds (controlChild ps))); done|]. intros d w2 [-> (E2 & G2 & O2)].
  eapply runs_bind; [apply runs_close with (Q := fun d w' => d = noDescriptor /\
    after w2 w' [] (group w2) (openFds w2 ∖ fds (outputChild ps))); done|]. intros d w3 [-> (E3 & G3 & O3)].
  do 2 apply runs_destroy_bind. apply Hf; [by rewrite E3, E2, !app_nil_r|by rewrite G3, G2|].
  split; try done. rewrite O3, O2, E1, HO. unfold pipe_fds in *. set_solver.
Qed.

Section SpawnProps.
Context (sys : System).

Lemma spawnLocked_runs attr acts args env w : System_ok sys w -> isFrozen env = false ->
  runs (spawnLocked sys attr acts args env) w (locked_post attr w).
Proof.
  intros OK Hf. unfold spawnLocked. apply runs_get. unfold isClosed.
  destruct (closed (group w)) eqn:Ecl; [by apply runs_ret; constructor|].
  eapply runs_bind; [apply createCommunicationPipes_runs; [apply (so_pipes sys w OK)|apply (so_two sys w OK)]|].
  intros [[[err errno] acts'] ps] w1 Hpost. unfold pipes_post in Hpost.
  assert (Herr : err <> ERROR_NONE -> forall what,
    runs (failEarly what ;;; destroy (controlChild ps) ;;; destroy (outputChild ps) ;;;
          destroy (controlParent ps) ;;; destroy (outputParent ps) ;;; ret None) w1 (locked_post attr w)).
  { intros Hne what. assert (ps = no_pipes /\ after w w1 [] (group w) (openFds w)) as [-> A] by (by destruct err).
    eapply runs_bind; [apply failEarly_runs with (Q := fun _ w' => exists l, early l /\ after w1 w' l (group w1) (openFds w1)); eauto|].
    intros [] w2 (l & El & A2). do 4 apply runs_destroy_bind. apply runs_ret.
    destruct A as (E & G & O), A2 as (E2 & G2 & O2). apply (locked_no_pipes _ _ _ l); [done|done|].
    split; [by rewrite E2, E, app_nil_r|]. by rewrite G2, O2. }
  destruct err; [|by apply Herr..]. clear Herr. destruct (pm_open _ _ _ _ Hpost) as (E1 & G1 & O1).
  eapply runs_bind with (Q1 := fun e w' => isFrozen e = false /\ w' = w1).
  { destruct (isValid (controlChild ps)); [|by apply runs_ret].
    destruct (set_env_ok (chars_of "LLBUILD_CONTROL_FD") (chars_of (pretty (descriptor (controlChild ps)))) env w1 Hf)
      as (e' & E' & F'). by exists e', w1. }
  intros env' w2 [_ ->]. apply runs_tell_bind.
  destruct (posix_spawn sys acts' args (fst (getEnvp env'))) as [e left_pid|p] eqn:Esp.
  - eapply runs_step; [reflexivity|]. eapply close_children; [exact Hpost|done|].
    intros w3 E3 G3 HP. apply runs_ret. eapply locked_failed; [done| |by rewrite G3|done].
    rewrite E3. simpl. by rewrite E1, app_nil_r, <- !app_assoc.
  - destruct (so_pid sys w OK _ _ _ _ Esp) as [Hp Hn].
    eapply runs_step; [reflexivity|]. eapply close_children; [exact Hpost|done|].
    intros w3 E3 G3 HP. apply runs_ret. eapply locked_spawned; [done..| |by rewrite G3; simpl; rewrite G1|done].
    rewrite E3. simpl. by rewrite E1, app_nil_r, <- !app_assoc.
Qed.

Lemma remove_add p info g : processes g !! p = None -> remove_process p (add_process p info g) = g.
Proof.
  intros H. unfold remove_process, add_process. rewrite H. simpl. rewrite delete_insert_id by done. by destruct g.
Qed.

Lemma early_session l : early l -> session l.
Proof.
  intros [msg ->]. apply (session_ran _ [] (-1)%Z [processHadError msg] [] [] (makeFailed (-1))); auto.
  by repeat constructor.
Qed.

Lemma early_spawns_nothing l a args env : early l -> ~ spawned a args env ∈ l.
Proof. intros [msg ->]. rewrite !elem_of_cons, elem_of_nil. naive_solver. Qed.

(** What one request leaves behind. *)
Definition request_post (w w' : World) : Prop :=
  exists l, calls w' = calls w ++ l /\ session l
    /\ openFds w' = openFds w /\ group w' = group w
    /\ (closed (group w) = true -> forall a args env, ~ spawned a args env ∈ l).

Lemma early_request w w' l : early l -> after w w' l (group w) (openFds w) -> request_post w w'.
Proof.
  intros El (E & G & O). exists l. split; [done|]. split; [by apply early_session|]. do 2 (split; [done|]).
  intros _ a args env. by apply early_spawns_nothing.
Qed.

Lemma spawned_request attr w w1 p op cp taskID a args env :
  System_ok sys w -> closed (group w) = false -> p <> (-1)%Z -> processes (group w) !! p = None ->
  calls w1 = calls w ++ [spawned a args env; processStarted p] ->
  group w1 = add_process p (canSafelyInterrupt attr) (group w) -> parents attr w w1 op cp ->
  runs (superviseProcess sys attr taskID p op cp) w1 (fun _ => request_post w).
Proof.
  intros OK Ecl Hp Hn E1 G1 [Oop Ocp Vo Vc HO].
  eapply runs_mono; [apply supervise_runs; try done; apply OK|].
  intros [] w2 (l & (mid1 & rel & mid2 & r & -> & Hrel & F) & E2 & G2 & O2).
  exists ([spawned a args env; processStarted p] ++ mid1 ++ rel ++ mid2 ++ [processFinished r; completionFn r]).
  split; [by rewrite E2, E1, <- !app_assoc|]. split.
  { apply (session_ran _ [spawned a args env] p mid1 rel mid2 r); [done|right; eauto|done|done]. }
  split; [by rewrite O2, HO|]. split; [by rewrite G2, G1, remove_add|]. rewrite Ecl. done.
Qed.

Lemma failed_request attr w w1 op cp a args env p msg :
  closed (group w) = false ->
  calls w1 = calls w ++ [spawned a args env; processStarted p; processHadError msg; processFinished (makeFailed (-1))] ->
  group w1 = group w -> parents attr w w1 op cp ->
  runs (op' <~ close op; cp' <~ close cp; tell (completionFn (makeFailed (-1))) ;;; destroy cp' ;;; destroy op') w1
    (fun _ => request_post w).
Proof.
  intros Ecl E1 G1 [Oop Ocp Vo Vc HO].
  eapply runs_bind; [apply runs_close with (Q := fun d w' => d = noDescriptor /\
    after w1 w' [] (group w1) (openFds w1 ∖ fds op)); done|]. intros d w2 [-> (E2 & G2 & O2)].
  eapply runs_bind; [apply runs_close with (Q := fun d w' => d = noDescriptor /\
    after w2 w' [] (group w2) (openFds w2 ∖ fds cp)); done|]. intros d w3 [-> (E3 & G3 & O3)].
  apply runs_tell_bind, runs_destroy_bind, runs_destroy.
  exists [spawned a args env; processStarted p; processHadError msg; processFinished (makeFailed (-1)); completionFn (makeFailed (-1))].
  split; [simpl; by rewrite E3, E2, E1, !app_nil_r, <- !app_assoc|]. split.
  { apply (session_ran _ [spawned a args env] p [processHadError msg] [] [] (makeFailed (-1)));
      [done|right; eauto|by left|by repeat constructor]. }
  split; [simpl; rewrite O3, O2, <- HO; set_solver|]. split; [simpl; by rewrite G3, G2|]. by rewrite Ecl.
Qed.

(** C39: Spawning a process always returns (when the process closes its pipes and exits
    and [poll] does not fail): the request is completed exactly once; a process that
    is reported as started is reported as finished exactly once, after all of its
    output and with the result of the completion; every descriptor that was opened is
    closed, no descriptor object is destroyed while it holds one, and the process
    group is as before.  In a group that was closed nothing is spawned. *)
Theorem spawnProcess_session handle cl env attr w :
  System_ok sys w -> isFrozen env = false ->
  exists w', spawnProcess sys handle cl env attr w = Ok (tt, w') /\ request_post w w'.
Proof.
  intros OK Hf. cut (runs (spawnProcess sys handle cl env attr) w (fun _ => request_post w)).
  { intros ([] & w' & E & H). eauto. }
  unfold spawnProcess. set (attr' := if connectToConsole attr then _ else _).
  destruct cl as [|prog args]; [apply failEarly_runs; intros; by eapply early_request|].
  destruct (bool_decide _ && _); [apply failEarly_runs; intros; by eapply early_request|].
  destruct (set_env_ok (chars_of "LLBUILD_TASK_ID") (utohexstr handle) env w Hf) as (e' & E' & F').
  eapply runs_step; [exact E'|]. eapply runs_bind; [by apply spawnLocked_runs|].
  intros r w1 [Ecl|w2 l Ecl El A|w2 op cp a as_ en p msg Ecl E1 G1 HP|w2 op cp a as_ en p Ecl Hp Hn E1 G1 HP].
  - eexists tt, _. split; [reflexivity|]. exists [completionFn makeCancelled].
    split; [done|]. split; [by left|]. do 2 (split; [done|]). intros _ a as_ en. rewrite list_elem_of_singleton. done.
  - apply runs_ret. by eapply early_request.
  - by eapply failed_request.
  - rewrite (proj2 (Z.eqb_neq p (-1)) Hp). by eapply spawned_request.
Qed.
End SpawnProps.

(** ** Concrete processes *)
Definition eof : Ready := mkReady true (ReadBytes []).
Definition quiet : Ready := mkReady false (ReadBytes []).
Definition says_text (s : string) : Ready := mkReady true (ReadBytes (chars_of s)).

Definition demo_system : System :=
  mkSystem (fun _ => 0%Z) (fun _ => None) (fun _ => chars_of "error")
    (fun _ _ _ => SpawnedPid 77)
    [PollFailed EINTR; Polled (says_text "hello") quiet; Polled eof eof]
    [ReadBytes []] [WaitFailed EINTR 0; Waited 0 0 5 0 6 7].
Definition demo_world : World := mkWorld [] newGroup {[0%Z; 1%Z; 2%Z]} ∅ [inr (3, 4); inr (5, 6)]%Z.
Definition demo_attributes : ProcessAttributes := mkAttributes true false [] true true.

Lemma demo_system_ok : System_ok demo_system demo_world.
Proof.
  split; try reflexivity; try (simpl; lia). intros a args env p [= <-]. by split.
Qed.

Lemma spawnProcess_session_witness :
  exists w', spawnProcess demo_system 18 [chars_of "/bin/true"] newEnvironment demo_attributes demo_world = Ok (tt, w')
    /\ request_post demo_world w'.
Proof. apply spawnProcess_session; [exact demo_system_ok|reflexivity]. Defined.

Definition calls_of (o : outcome (unit * World)) : option (list Call) :=
  match o with Ok (_, w) => Some (calls w) | _ => None end.

Definition demo_env : list chars := [chars_of "LLBUILD_TASK_ID=12"; chars_of "LLBUILD_CONTROL_FD=6"].

Example demo_calls :
  calls_of (spawnProcess demo_system 18 [chars_of "/bin/true"] newEnvironment demo_attributes demo_world)
  = Some [spawned [OpenNull 0; Dup2 4 1; Dup2 4 2; CloseFd 4; Dup2 6 6] [chars_of "/bin/true"] demo_env;
          processStarted 77; processHadOutput (chars_of "hello");
          processFinished (mkProcessResult Succeeded 0 77 5 6 7);
          completionFn (mkProcessResult Succeeded 0 77 5 6 7)].
Proof. vm_compute. reflexivity. Qed.

(** A process that asks for the release of its lane under the ID it was given. *)
Definition releasing_system : System :=
  mkSystem (fun _ => 0%Z) (fun _ => None) (fun _ => chars_of "error") (fun _ _ _ => SpawnedPid 77)
    [Polled quiet (mkReady true (ReadBytes (request (utohexstr 18)))); Polled eof eof]
    [ReadBytes (chars_of "late"); ReadBytes []] [Waited 9 0 0 0 0 0].

Example demo_release :
  calls_of (spawnProcess releasing_system 18 [chars_of "/bin/true"] newEnvironment demo_attributes demo_world)
  = Some [spawned [OpenNull 0; Dup2 4 1; Dup2 4 2; CloseFd 4; Dup2 6 6] [chars_of "/bin/true"] demo_env;
          processStarted 77; released; processHadOutput (chars_of "late");
          processFinished (mkProcessResult Cancelled 9 77 0 0 0);
          completionFn (mkProcessResult Cancelled 9 77 0 0 0)].
Proof. vm_compute. reflexivity. Qed.

(** ** Behaviour outside the hypotheses *)

(** When [poll] fails for good the function returns without completing the request
    and without waiting for the process; the descriptors are still open, which the
    destructor's assertion reports. *)
Example poll_failure_loses_process :
  let sys := mkSystem (fun _ => 0%Z) (fun _ => None) (fun _ => chars_of "error") (fun _ _ _ => SpawnedPid 77)
               [PollFailed 12] [ReadBytes []] [Waited 0 0 0 0 0 0] in
  spawnProcess sys 18 [chars_of "/bin/true"] newEnvironment demo_attributes demo_world
  = Crash (AssertFailed "!isValid() && _closedProperly").
Proof. vm_compute. reflexivity. Qed.

(** Marking an open descriptor as not inheritable does nothing. *)
Example childMayInherit_does_nothing :
  childMayInherit false (mkFd 3 false) demo_world = Ok (mkFd 3 false, demo_world)
  /\ childMayInherit true (mkFd 3 false) demo_world = Ok (mkFd 3 false, demo_world).
Proof. split; reflexivity. Qed.

(** The task ID and the control descriptor of the new process are set only if the
    environment has none: under an outer llbuild the process is given the outer ones,
    and the release it then asks for is not recognised. *)
Example inherited_task_id_wins :
  match setAll [(chars_of "LLBUILD_TASK_ID", chars_of "ff"); (chars_of "LLBUILD_CONTROL_FD", chars_of "9")] newEnvironment with
  | Ok env =>
      match calls_of (spawnProcess demo_system 18 [chars_of "/bin/true"] env demo_attributes demo_world) with
      | Some (spawned _ _ envp :: _) => envp = [chars_of "LLBUILD_TASK_ID=ff"; chars_of "LLBUILD_CONTROL_FD=9"]
      | _ => False
      end
  | Crash _ => False
  end.
Proof. vm_compute. reflexivity. Qed.
