(* ===== verification/ExecutionQueue.v ===== *)
(** * The lane based execution queue

    lib/Basic/LaneBasedExecutionQueue.cpp as a transition system.  A lane thread's
    position in [executeLane] is its [LanePC]; the regions it executes under
    [readyJobsMutex] are single steps.  Other threads are the background threads that
    wait for released processes, threads that call [addJob] and [cancelAllJobs], the
    destructor and the thread that kills processes after a timeout.  [step] executes
    one step of one thread; what the code leaves open (the lane [notify_one] wakes,
    the element of a set of equal maximal elements a priority queue returns, the
    operating system's process IDs) is chosen by the label.

    A job is given by the calls its work function makes on the queue, in order. *)

From Stdlib Require Import Ascii String Lia ZArith.
From stdpp Require Import base gmap list strings numbers pretty.
From S2P Require Import Prelude Chars Process.

(** ** Jobs *)
Inductive QueueJobPriority := Normal | High.
#[export] Instance QueueJobPriority_eq_dec : EqDecision QueueJobPriority.
Proof. solve_decision. Defined.

Record ProcessRequest := mkRequest {
  commandLine : list chars; requestEnvironment : list (chars * chars); attributes : ProcessAttributes }.

(** The ordinal name of the descriptor, [None] for a null descriptor. *)
Inductive QueueJob := mkJob (desc : option string) (work : list JobAction)
with JobAction :=
| AddJob (job : QueueJob) (priority : QueueJobPriority)
| ExecuteProcess (request : ProcessRequest)
| CancelAllJobs.

Definition getDescriptor (j : QueueJob) : option string := match j with mkJob d _ => d end.
Definition jobWork (j : QueueJob) : list JobAction := match j with mkJob _ w => w end.

(** [StringRef::operator<] on the ordinal names. *)
Definition QueueJobLess (x y : QueueJob) : outcome bool :=
  match getDescriptor x, getDescriptor y with
  | Some a, Some b => Ok (String.ltb a b)
  | _, _ => Crash (UseAfterFree "null descriptor")
  end.

(** ** Schedulers *)
Inductive SchedulerAlgorithm := NamePriority | FIFO.

(** [std::priority_queue]: the multiset of its elements.  Elements with a descriptor
    can be compared; comparing one without dereferences a null pointer. *)
Definition comparable (js : list QueueJob) : bool :=
  forallb (fun j => match getDescriptor j with Some _ => true | None => false end) js.

Definition addToScheduler (alg : SchedulerAlgorithm) (j : QueueJob) (jobs : list QueueJob) : outcome (list QueueJob) :=
  match alg with
  | FIFO => Ok (jobs ++ [j])
  | NamePriority =>
      if decide (jobs = []) then Ok [j]
      else if comparable (j :: jobs) then Ok (jobs ++ [j])
      else Crash (UseAfterFree "null descriptor")
  end.

Definition not_less (x y : QueueJob) : bool := match QueueJobLess x y with Ok b => negb b | Crash _ => false end.

(** The element at position [k] and the others; [None] when the scheduler does not
    return this element next. *)
Definition getNextJob (alg : SchedulerAlgorithm) (k : nat) (jobs : list QueueJob) : option (QueueJob * list QueueJob) :=
  match jobs !! k with
  | None => None
  | Some j =>
      let rest := take k jobs ++ drop (S k) jobs in
      match alg with
      | FIFO => if decide (k = 0%nat) then Some (j, rest) else None
      | NamePriority => if forallb (not_less j) rest then Some (j, rest) else None
      end
  end.

(** ** State *)
Record JobContext := mkContext { jobID : Z; laneNumber : Z; job : QueueJob }.

Inductive LanePC :=
| AtLock                                                   (* about to take the lock *)
| Waiting                                                  (* in readyJobsCondition.wait *)
| Got (j : QueueJob)                                       (* a job was taken, the lock released *)
| Running (c : JobContext) (todo : list JobAction)         (* inside job.execute *)
| Spawning (c : JobContext) (r : ProcessRequest) (todo : list JobAction)
| InProcess (c : JobContext) (pid : pid_t) (mayRelease : bool) (todo : list JobAction)
| Rejected (c : JobContext) (pid : pid_t) (todo : list JobAction)
| Interrupting (c : JobContext) (todo : list JobAction)    (* in cancelAllJobs, before signalAll *)
| StartingKiller (c : JobContext) (todo : list JobAction)  (* in cancelAllJobs, after signalAll *)
| Exited.

Record Lane := mkLane { jobCount : Z; pc : LanePC }.

(** A detached thread that waits for a process, or has waited for it. *)
Inductive Background := BWaiting (c : JobContext) (pid : pid_t) | BDone.

(** A thread outside the queue inside [cancelAllJobs]. *)
Inductive Canceller := CInterrupting | CStartingKiller.
Inductive Killer := KNone | KStarted | KWaiting | KWoken | KFinished.
Inductive Phase := Alive | Joining | Finishing | Draining | Destroyed.

Inductive Event :=
| EAdded (j : QueueJob) (p : QueueJobPriority)
| ETaken (j : QueueJob) (p : QueueJobPriority)
| EStarted (j : QueueJob)                                  (* queueJobStarted *)
| EFinished (j : QueueJob)                                 (* queueJobFinished *)
| ESpawned (id : Z) (pid : pid_t) (env : list chars)
| ECompleted (id : Z) (st : ProcessStatus)                 (* the completion function *)
| ESignal (p : pid_t) (sig : Signal).

Record Config := mkConfig {
  algorithm : SchedulerAlgorithm; buildID : Z; backgroundTaskMax : Z; baseEnvironment : list chars }.

Record Queue := mkQueue {
  config : Config;
  lanes : list Lane;
  readyJobs : list QueueJob;
  readyPriorityJobs : list QueueJob;
  cancelled : bool;
  shutdown : bool;
  spawnedProcesses : ProcessGroup;
  backgroundTaskCount : Z;
  background : list Background;
  cancellers : list Canceller;
  killer : Killer;
  queueComplete : bool;
  phase : Phase;
  trace : list Event }.

Definition upd_lanes (f : list Lane -> list Lane) (q : Queue) : Queue :=
  mkQueue (config q) (f (lanes q)) (readyJobs q) (readyPriorityJobs q) (cancelled q) (shutdown
    q) (spawnedProcesses q) (backgroundTaskCount q) (background q) (cancellers q) (killer q)
    (queueComplete q) (phase q) (trace q).
Definition upd_readyJobs (f : list QueueJob -> list QueueJob) (q : Queue) : Queue :=
  mkQueue (config q) (lanes q) (f (readyJobs q)) (readyPriorityJobs q) (cancelled q) (shutdown
    q) (spawnedProcesses q) (backgroundTaskCount q) (background q) (cancellers q) (killer q)
    (queueComplete q) (phase q) (trace q).
Definition upd_readyPriorityJobs (f : list QueueJob -> list QueueJob) (q : Queue) : Queue :=
  mkQueue (config q) (lanes q) (readyJobs q) (f (readyPriorityJobs q)) (cancelled q) (shutdown
    q) (spawnedProcesses q) (backgroundTaskCount q) (background q) (cancellers q) (killer q)
    (queueComplete q) (phase q) (trace q).
Definition upd_cancelled (f : bool -> bool) (q : Queue) : Queue :=
  mkQueue (config q) (lanes q) (readyJobs q) (readyPriorityJobs q) (f (cancelled q)) (shutdown
    q) (spawnedProcesses q) (backgroundTaskCount q) (background q) (cancellers q) (killer q)
    (queueComplete q) (phase q) (trace q).
Definition upd_shutdown (f : bool -> bool) (q : Queue) : Queue :=
  mkQueue (config q) (lanes q) (readyJobs q) (readyPriorityJobs q) (cancelled q) (f (shutdown
    q)) (spawnedProcesses q) (backgroundTaskCount q) (background q) (cancellers q) (killer q)
    (queueComplete q) (phase q) (trace q).
Definition upd_spawnedProcesses (f : ProcessGroup -> ProcessGroup) (q : Queue) : Queue :=
  mkQueue (config q) (lanes q) (readyJobs q) (readyPriorityJobs q) (cancelled q) (shutdown q) (f
    (spawnedProcesses q)) (backgroundTaskCount q) (background q) (cancellers q) (killer q)
    (queueComplete q) (phase q) (trace q).
Definition upd_backgroundTaskCount (f : Z -> Z) (q : Queue) : Queue :=
  mkQueue (config q) (lanes q) (readyJobs q) (readyPriorityJobs q) (cancelled q) (shutdown q)
    (spawnedProcesses q) (f (backgroundTaskCount q)) (background q) (cancellers q) (killer q)
    (queueComplete q) (phase q) (trace q).
Definition upd_background (f : list Background -> list Background) (q : Queue) : Queue :=
  mkQueue (config q) (lanes q) (readyJobs q) (readyPriorityJobs q) (cancelled q) (shutdown q)
    (spawnedProcesses q) (backgroundTaskCount q) (f (background q)) (cancellers q) (killer q)
    (queueComplete q) (phase q) (trace q).
Definition upd_cancellers (f : list Canceller -> list Canceller) (q : Queue) : Queue :=
  mkQueue (config q) (lanes q) (readyJobs q) (readyPriorityJobs q) (cancelled q) (shutdown q)
    (spawnedProcesses q) (backgroundTaskCount q) (background q) (f (cancellers q)) (killer q)
    (queueComplete q) (phase q) (trace q).
Definition upd_killer (f : Killer -> Killer) (q : Queue) : Queue :=
  mkQueue (config q) (lanes q) (readyJobs q) (readyPriorityJobs q) (cancelled q) (shutdown q)
    (spawnedProcesses q) (backgroundTaskCount q) (background q) (cancellers q) (f (killer q))
    (queueComplete q) (phase q) (trace q).
Definition upd_queueComplete (f : bool -> bool) (q : Queue) : Queue :=
  mkQueue (config q) (lanes q) (readyJobs q) (readyPriorityJobs q) (cancelled q) (shutdown q)
    (spawnedProcesses q) (backgroundTaskCount q) (background q) (cancellers q) (killer q) (f
    (queueComplete q)) (phase q) (trace q).
Definition upd_phase (f : Phase -> Phase) (q : Queue) : Queue :=
  mkQueue (config q) (lanes q) (readyJobs q) (readyPriorityJobs q) (cancelled q) (shutdown q)
    (spawnedProcesses q) (backgroundTaskCount q) (background q) (cancellers q) (killer q)
    (queueComplete q) (f (phase q)) (trace q).
Definition upd_trace (f : list Event -> list Event) (q : Queue) : Queue :=
  mkQueue (config q) (lanes q) (readyJobs q) (readyPriorityJobs q) (cancelled q) (shutdown q)
    (spawnedProcesses q) (backgroundTaskCount q) (background q) (cancellers q) (killer q)
    (queueComplete q) (phase q) (f (trace q)).

Definition u32 (z : Z) : Z := z mod 2 ^ 32.
Definition u64 (z : Z) : Z := z mod 2 ^ 64.

Definition log (e : Event) : Queue -> Queue := upd_trace (fun l => l ++ [e]).
Definition set_pc (i : nat) (p : LanePC) : Queue -> Queue :=
  upd_lanes (alter (fun l => mkLane (jobCount l) p) i).

(** ** Waking lanes *)
Definition is_waiting (l : Lane) : bool := match pc l with Waiting => true | _ => false end.

(** [notify_one] wakes one waiting lane, if there is one. *)
Definition notify_one (k : option nat) (q : Queue) : option Queue :=
  match k with
  | Some i =>
      match lanes q !! i with
      | Some l => if is_waiting l then Some (set_pc i AtLock q) else None
      | None => None
      end
  | None => if existsb is_waiting (lanes q) then None else Some q
  end.

Definition wake (l : Lane) : Lane := if is_waiting l then mkLane (jobCount l) AtLock else l.
Definition notify_all : Queue -> Queue := upd_lanes (map wake).

(** ** Operations *)
Definition addJob (j : QueueJob) (p : QueueJobPriority) (k : option nat) (q : Queue) : option (outcome Queue) :=
  match p with
  | High =>
      Ok <$> notify_one k (log (EAdded j High) (upd_readyPriorityJobs (fun js => js ++ [j]) q))
  | Normal =>
      match addToScheduler (algorithm (config q)) j (readyJobs q) with
      | Ok js => Ok <$> notify_one k (log (EAdded j Normal) (upd_readyJobs (fun _ => js) q))
      | Crash e => Some (Crash e)
      end
  end.

(** The locked region of [cancelAllJobs]; [false] for the early return. *)
Definition cancelEnter (q : Queue) : bool * Queue :=
  if cancelled q then (false, q)
  else (true, notify_all (upd_spawnedProcesses close_group (upd_cancelled (fun _ => true) q))).

Definition signalProcesses (sig : Signal) (q : Queue) : Queue :=
  upd_trace (fun l => l ++ map (fun '(p, s) => ESignal p s) (signalAll sig (spawnedProcesses q))) q.

Definition startKiller : Queue -> Queue := upd_killer (fun _ => KStarted).

(** The identifiers of lanes and jobs. *)
Definition laneID (buildID lane : Z) : Z :=
  u64 (Z.shiftl (Z.land buildID 65535) 32 + Z.shiftl (Z.land lane 65535) 16).
Definition newJobID (buildID lane count : Z) : Z := u64 (laneID buildID lane + count).

(** [Twine(n).str()] for an unsigned number. *)
Definition decimal (n : Z) : chars := chars_of (pretty n).

(** The environment of a process, before its own identifiers are added. *)
Definition environmentEntries (cfg : Config) (lane : Z) (r : ProcessRequest) : list (chars * chars) :=
  [(chars_of "LLBUILD_BUILD_ID", decimal (buildID cfg)); (chars_of "LLBUILD_LANE_ID", decimal lane)]
  ++ requestEnvironment r
  ++ (if inheritEnvironment (attributes r) then map (split_at EQUALS) (baseEnvironment cfg) else []).

Definition processEnvironment (cfg : Config) (lane : Z) (r : ProcessRequest) : outcome POSIXEnvironment :=
  setAll (environmentEntries cfg lane r) newEnvironment.

(** ** One step of a lane *)
Inductive Move :=
| MGo (k : nat)                        (* any step that needs no choice, or takes job [k] *)
| MWake                                (* a spurious wakeup *)
| MAdd (woken : option nat)
| MSpawn (r : option pid_t)            (* [None]: the process could not be spawned *)
| MExit (st : ProcessStatus)           (* the process ended *)
| MRelease.                            (* the process asked for the lane to be released *)

Definition empty_ready (q : Queue) : bool :=
  bool_decide (readyJobs q = []) && bool_decide (readyPriorityJobs q = []).

(** The locked region at the top of the loop. *)
Definition laneTop (i k : nat) (q : Queue) : option Queue :=
  if empty_ready q then Some (set_pc i (if shutdown q then Exited else Waiting) q)
  else if bool_decide (readyPriorityJobs q = []) then
    '(j, rest) ← getNextJob (algorithm (config q)) k (readyJobs q);
    Some (log (ETaken j Normal) (upd_readyJobs (fun _ => rest) (set_pc i (Got j) q)))
  else
    '(j, rest) ← getNextJob FIFO k (readyPriorityJobs q);
    Some (log (ETaken j High) (upd_readyPriorityJobs (fun _ => rest) (set_pc i (Got j) q))).

(** After the lock was released: count the job and tell the delegate. *)
Definition laneBegin (i : nat) (l : Lane) (j : QueueJob) (q : Queue) : Queue :=
  match getDescriptor j with
  | None => set_pc i Exited q
  | Some _ =>
      let count := u32 (jobCount l + 1) in
      let c := mkContext (newJobID (buildID (config q)) (Z.of_nat i) count) (Z.of_nat i) j in
      log (EStarted j) (upd_lanes (alter (fun _ => mkLane count (Running c (jobWork j))) i) q)
  end.

(** Calls made by the job. *)
Definition laneRun (i : nat) (c : JobContext) (todo : list JobAction) (m : Move) (q : Queue) : option (outcome Queue) :=
  match todo, m with
  | [], MGo _ => Some (Ok (log (EFinished (job c)) (set_pc i AtLock q)))
  | AddJob j p :: rest, MAdd k => addJob j p k (set_pc i (Running c rest) q)
  | ExecuteProcess r :: rest, MGo _ =>
      Some (Ok (if cancelled q then log (ECompleted (jobID c) Cancelled) (set_pc i (Running c rest) q)
                else set_pc i (Spawning c r rest) q))
  | CancelAllJobs :: rest, MGo _ =>
      let '(entered, q') := cancelEnter q in
      Some (Ok (set_pc i (if entered : bool then Interrupting c rest else Running c rest) q'))
  | _, _ => None
  end.

(** [spawnProcess] under the lock of the process group. *)
Definition laneSpawn (i : nat) (c : JobContext) (r : ProcessRequest) (rest : list JobAction) (res : option pid_t) (q : Queue) : outcome Queue :=
  if isClosed (spawnedProcesses q) then Ok (log (ECompleted (jobID c) Cancelled) (set_pc i (Running c rest) q))
  else match res with
  | None => Ok (log (ECompleted (jobID c) Failed) (set_pc i (Running c rest) q))
  | Some p =>
      obind (processEnvironment (config q) (laneNumber c) r) (fun env =>
      Ok (log (ESpawned (jobID c) p (fst (getEnvp env)))
           (upd_spawnedProcesses (add_process p (canSafelyInterrupt (attributes r)))
             (set_pc i (InProcess c p true rest) q))))
  end.

(** The release function: [fetch_add] and its test. *)
Definition laneRelease (i : nat) (c : JobContext) (p : pid_t) (rest : list JobAction) (q : Queue) : Queue :=
  let previousTaskCount := backgroundTaskCount q in
  let q' := upd_backgroundTaskCount (fun n => u32 (n + 1)) q in
  if (previousTaskCount <? backgroundTaskMax (config q))%Z
  then upd_background (fun bs => bs ++ [BWaiting c p]) (set_pc i (Running c rest) q')
  else set_pc i (Rejected c p rest) q'.

Definition laneStep (i : nat) (m : Move) (q : Queue) : option (outcome Queue) :=
  l ← lanes q !! i;
  match pc l, m with
  | AtLock, MGo k => Ok <$> laneTop i k q
  | Waiting, MWake => Some (Ok (set_pc i AtLock q))
  | Got j, MGo _ => Some (Ok (laneBegin i l j q))
  | Running c todo, _ => laneRun i c todo m q
  | Spawning c r rest, MSpawn res => Some (laneSpawn i c r rest res q)
  | InProcess c p _ rest, MExit st =>
      Some (Ok (log (ECompleted (jobID c) st)
                 (upd_spawnedProcesses (remove_process p) (set_pc i (Running c rest) q))))
  | InProcess c p true rest, MRelease => Some (Ok (laneRelease i c p rest q))
  | Rejected c p rest, MGo _ =>
      Some (Ok (set_pc i (InProcess c p false rest) (upd_backgroundTaskCount (fun n => u32 (n - 1)) q)))
  | Interrupting c rest, MGo _ => Some (Ok (set_pc i (StartingKiller c rest) (signalProcesses SIGINT q)))
  | StartingKiller c rest, MGo _ => Some (Ok (set_pc i (Running c rest) (startKiller q)))
  | _, _ => None
  end.

(** ** Other threads *)
Inductive Label :=
| LaneL (i : nat) (m : Move)
| ClientAdd (j : QueueJob) (p : QueueJobPriority) (woken : option nat)
| ClientCancel
| CancellerL (i : nat)
| BackgroundL (i : nat) (st : ProcessStatus)
| KillerL
| DestructorL.

Definition remove_at {A} (i : nat) (l : list A) : list A := take i l ++ drop (S i) l.

(** After its process ended a background thread takes it out of the group, calls the
    completion function and then decrements the counter of the queue. *)
Definition backgroundStep (i : nat) (st : ProcessStatus) (q : Queue) : option (outcome Queue) :=
  b ← background q !! i;
  match b with
  | BWaiting c p =>
      Some (Ok (log (ECompleted (jobID c) st)
                 (upd_spawnedProcesses (remove_process p) (upd_background (<[i := BDone]>) q))))
  | BDone =>
      Some (match phase q with
            | Destroyed => Crash (UseAfterFree "backgroundTaskCount")
            | _ => Ok (upd_backgroundTaskCount (fun n => u32 (n - 1)) (upd_background (remove_at i) q))
            end)
  end.

Definition cancellerStep (i : nat) (q : Queue) : option Queue :=
  c ← cancellers q !! i;
  Some match c with
  | CInterrupting => upd_cancellers (<[i := CStartingKiller]>) (signalProcesses SIGINT q)
  | CStartingKiller => upd_cancellers (remove_at i) (startKiller q)
  end.

(** [killAfterTimeout]: it does not test [queueComplete] again after the wait. *)
Definition killerStep (q : Queue) : option Queue :=
  match killer q with
  | KStarted => Some (upd_killer (fun _ => if queueComplete q then KFinished else KWaiting) q)
  | KWaiting => Some (upd_killer (fun _ => KWoken) q)
  | KWoken => Some (upd_killer (fun _ => KFinished) (signalProcesses SIGKILL q))
  | _ => None
  end.

Definition has_exited (l : Lane) : bool := match pc l with Exited => true | _ => false end.
Definition all_exited (q : Queue) : bool := forallb has_exited (lanes q).

(** The destructor: shut down, join the lanes, stop the killer, wait for the group. *)
Definition destructorStep (q : Queue) : option Queue :=
  match phase q with
  | Alive =>
      if decide (cancellers q = []) then
        Some (notify_all (upd_shutdown (fun _ => true) (upd_phase (fun _ => Joining) q)))
      else None
  | Joining =>
      if all_exited q then
        Some (upd_phase (fun _ => Finishing)
                (match killer q with KNone => q | _ => upd_queueComplete (fun _ => true) q end))
      else None
  | Finishing =>
      match killer q with
      | KNone | KFinished => Some (upd_phase (fun _ => Draining) q)
      | _ => None
      end
  | Draining =>
      if decide (processes (spawnedProcesses q) = ∅) then Some (upd_phase (fun _ => Destroyed) q) else None
  | Destroyed => None
  end.

Definition is_alive (q : Queue) : bool := match phase q with Alive => true | _ => false end.

(** Clients use the queue before they destroy it. *)
Definition step (l : Label) (q : Queue) : option (outcome Queue) :=
  match l with
  | LaneL i m => laneStep i m q
  | ClientAdd j p k => if is_alive q then addJob j p k q else None
  | ClientCancel =>
      if is_alive q then
        let '(entered, q') := cancelEnter q in
        Some (Ok (if entered : bool then upd_cancellers (fun cs => cs ++ [CInterrupting]) q' else q'))
      else None
  | CancellerL i => Ok <$> cancellerStep i q
  | BackgroundL i st => backgroundStep i st q
  | KillerL => Ok <$> killerStep q
  | DestructorL => Ok <$> destructorStep q
  end.

(** ** Creating a queue *)
Definition reservedFileCount : Z := 3 + 2 + 1 + 2 + 2.
Definition INT_MAX : Z := 2147483647.

(** [limit] is the open file limit, [override] the parsed environment variable. *)
Definition estimateTaskLimits (limit : Z) (override : option Z) (numLanes : Z) : Z * Z :=
  if (limit <? reservedFileCount)%Z then (1, 0)%Z
  else
    let allowedFilesForTasks := u32 (Z.min limit INT_MAX - reservedFileCount) in
    let maxConcurrentTasks := (allowedFilesForTasks / 2)%Z in
    if (maxConcurrentTasks <? numLanes)%Z then (Z.max 1 maxConcurrentTasks, 0)%Z
    else
      let extraTasksMax := u32 (maxConcurrentTasks - numLanes) in
      let wanted := match override with Some n => n | None => Z.min 1024 (u32 (numLanes * 64)) end in
      (numLanes, Z.min wanted extraTasksMax).

Definition newLane : Lane := mkLane 0 AtLock.

Definition newQueue (alg : SchedulerAlgorithm) (buildID : Z) (env : list chars) (limits : Z * Z) : Queue :=
  mkQueue (mkConfig alg buildID (snd limits) env) (replicate (Z.to_nat (fst limits)) newLane)
    [] [] false false newGroup 0 [] [] KNone false Alive [].

(** Clients add jobs that have a descriptor, also those a job adds. *)
Fixpoint described (j : QueueJob) : bool :=
  match j with
  | mkJob None _ => false
  | mkJob (Some _) w => forallb (fun a => match a with AddJob j' _ => described j' | _ => true end) w
  end.
Definition action_ok (a : JobAction) : bool := match a with AddJob j _ => described j | _ => true end.
Definition label_ok (l : Label) : bool := match l with ClientAdd j _ _ => described j | _ => true end.

(** A run of the system. *)
Inductive reachable (q0 : Queue) : Queue -> Prop :=
| reach_start : reachable q0 q0
| reach_step q l q' : reachable q0 q -> label_ok l = true -> step l q = Some (Ok q') -> reachable q0 q'.

Fixpoint run (ls : list Label) (q : Queue) : option (outcome Queue) :=
  match ls with
  | [] => Some (Ok q)
  | l :: rest =>
      match step l q with
      | Some (Ok q') => run rest q'
      | r => r
      end
  end.
