(* ===== verification/ExecutionQueueInv.v ===== *)
(** * Invariants of the execution queue

    Jobs: what one step does to the jobs of the queue is one of five [job_effect]s,
    from which it follows that every job is in exactly one place.  Lanes: no wakeup is
    lost.  Background tasks: the shared counter counts them. *)

From Stdlib Require Import Ascii String Lia ZArith.
From stdpp Require Import base gmap list strings numbers pretty.
From S2P Require Import Prelude Chars Process ExecutionQueue.

(** ** Summaries over the lanes

    Most facts do not distinguish a lane that sleeps from one about to take the lock:
    [f] below is a function with [f Waiting = f AtLock], which notifying preserves. *)
Definition gather {A} (f : LanePC -> list A) (ls : list Lane) : list A := mjoin (map (fun l => f (pc l)) ls).
Definition total (f : LanePC -> nat) (ls : list Lane) : nat := sum_list_with (fun l => f (pc l)) ls.

Lemma lanes_middle (ls : list Lane) i l : ls !! i = Some l ->
  exists l1 l2, ls = l1 ++ l :: l2 /\ forall g, alter g i ls = l1 ++ g l :: l2.
Proof.
  intros H. exists (take i ls), (drop (S i) ls).
  pose proof (lookup_lt_Some _ _ _ H) as Hlt.
  assert (E : ls = take i ls ++ l :: drop (S i) ls) by (symmetry; by apply take_drop_middle).
  split; [done|]. intros g.
  rewrite E at 1. rewrite alter_app_r_alt by (rewrite length_take; lia).
  rewrite length_take, Nat.min_l, Nat.sub_diag by lia. done.
Qed.

Lemma total_set f g (ls : list Lane) i l : ls !! i = Some l ->
  (total f (alter g i ls) + f (pc l) = total f ls + f (pc (g l)))%nat.
Proof.
  intros H. destruct (lanes_middle _ _ _ H) as (l1 & l2 & -> & Ha). rewrite Ha.
  unfold total. rewrite !sum_list_with_app. simpl. lia.
Qed.

Lemma gather_set {A} (f : LanePC -> list A) g (ls : list Lane) i l : ls !! i = Some l ->
  f (pc l) ++ gather f (alter g i ls) ≡ₚ f (pc (g l)) ++ gather f ls.
Proof.
  intros H. destruct (lanes_middle _ _ _ H) as (l1 & l2 & -> & Ha). rewrite Ha.
  unfold gather. rewrite !map_app. simpl. rewrite !join_app. simpl.
  set (x := mjoin (map _ l1)). set (y := mjoin (map _ l2)).
  rewrite (Permutation_app_swap_app x), (Permutation_app_swap_app x).
  by rewrite (Permutation_app_swap_app (f (pc l))).
Qed.

Lemma gather_wake {A} (f : LanePC -> list A) ls : f Waiting = f AtLock -> gather f (map wake ls) = gather f ls.
Proof.
  intros E. unfold gather. rewrite map_map. f_equal. apply map_ext. intros [n p].
  unfold wake, is_waiting. by destruct p.
Qed.

Lemma total_wake f ls : f Waiting = f AtLock -> total f (map wake ls) = total f ls.
Proof.
  intros E. unfold total. induction ls as [|[n p] ls IH]; [done|]. simpl. rewrite IH.
  destruct p; simpl; by rewrite ?E.
Qed.

Lemma notify_one_spec k q q' : notify_one k q = Some q' ->
  (q' = q /\ existsb is_waiting (lanes q) = false) \/
  (exists i n, k = Some i /\ lanes q !! i = Some (mkLane n Waiting) /\ q' = set_pc i AtLock q).
Proof.
  unfold notify_one. destruct k as [i|].
  - destruct (lanes q !! i) as [[n p]|] eqn:E; [|done]. unfold is_waiting. destruct p; simpl; intros; simplify_eq. eauto 6.
  - destruct (existsb is_waiting (lanes q)); [done|]. intros [= <-]. by left.
Qed.

(** ** Where the jobs are *)
Definition context_of (p : LanePC) : option JobContext :=
  match p with
  | Running c _ | Spawning c _ _ | InProcess c _ _ _ | Rejected c _ _ | Interrupting c _ | StartingKiller c _ => Some c
  | AtLock | Waiting | Got _ | Exited => None
  end.
Definition todo_of (p : LanePC) : list JobAction :=
  match p with
  | Running _ t | Spawning _ _ t | InProcess _ _ _ t | Rejected _ _ t | Interrupting _ t | StartingKiller _ t => t
  | AtLock | Waiting | Got _ | Exited => []
  end.
(** The job a lane executes, and the job it has taken. *)
Definition busy (p : LanePC) : list QueueJob := match context_of p with Some c => [job c] | None => [] end.
Definition held (p : LanePC) : list QueueJob := match p with Got j => [j] | _ => busy p end.
(** The jobs a list of calls adds. *)
Definition adds (todo : list JobAction) : list QueueJob :=
  omap (fun a => match a with AddJob j _ => Some j | _ => None end) todo.
Definition mentions (p : LanePC) : list QueueJob := held p ++ adds (todo_of p).

Definition same_priority (p1 p2 : QueueJobPriority) : bool :=
  match p1, p2 with Normal, Normal | High, High => true | _, _ => false end.
Definition added (p : QueueJobPriority) (t : list Event) : list QueueJob :=
  omap (fun e => match e with EAdded j p' => if same_priority p' p then Some j else None | _ => None end) t.
Definition taken (p : QueueJobPriority) (t : list Event) : list QueueJob :=
  omap (fun e => match e with ETaken j p' => if same_priority p' p then Some j else None | _ => None end) t.
Definition started (t : list Event) : list QueueJob :=
  omap (fun e => match e with EStarted j => Some j | _ => None end) t.
Definition finished (t : list Event) : list QueueJob :=
  omap (fun e => match e with EFinished j => Some j | _ => None end) t.
Definition quiet (e : Event) : bool :=
  match e with ESpawned _ _ _ | ECompleted _ _ | ESignal _ _ => true | _ => false end.

(** All jobs around, also those still to be added by running jobs. *)
Definition jobs_described (q : Queue) : Prop :=
  Forall (fun j => described j = true) (readyPriorityJobs q ++ readyJobs q ++ gather mentions (lanes q)).

Lemma described_work j : described j = true ->
  (exists d, getDescriptor j = Some d) /\ Forall (fun j' => described j' = true) (adds (jobWork j)).
Proof.
  destruct j as [[d|] w]; [|done]. intros H. split; [by exists d|]. cbn [jobWork].
  change (forallb action_ok w = true) in H. induction w as [|a w IH]; [constructor|].
  cbn in H. apply andb_true_iff in H as [Ha Hw]. destruct a; [constructor; [done|]|..]; by apply IH.
Qed.

Lemma addToScheduler_snoc alg j js js' : addToScheduler alg j js = Ok js' -> js' = js ++ [j].
Proof. destruct alg; simpl; [|congruence]. case_decide; [by subst; intros [= <-]|]. destruct (_ && _); congruence. Qed.

Lemma getNextJob_perm alg k js j rest : getNextJob alg k js = Some (j, rest) -> js ≡ₚ j :: rest.
Proof.
  unfold getNextJob. destruct (js !! k) as [j'|] eqn:E; [|done]. intros H.
  assert (j' = j /\ rest = take k js ++ drop (S k) js) as [-> ->].
  { destruct alg; [destruct (forallb _ _)|case_decide]; by simplify_eq. }
  rewrite <- (take_drop_middle _ _ _ E) at 1. by rewrite <- Permutation_middle.
Qed.

Lemma getNextJob_FIFO k js j rest : getNextJob FIFO k js = Some (j, rest) -> js = j :: rest.
Proof.
  unfold getNextJob. destruct (js !! k) as [j'|] eqn:E; [|done]. case_decide; [|done]. subst k. intros [= <- <-].
  by destruct js; simplify_eq/=.
Qed.

(** What one step does to the jobs. *)
Section Effects.
Context (q q' : Queue).
Definition same_ready : Prop := readyPriorityJobs q' = readyPriorityJobs q /\ readyJobs q' = readyJobs q.
Definition same_lanes : Prop :=
  gather held (lanes q') ≡ₚ gather held (lanes q) /\ gather busy (lanes q') ≡ₚ gather busy (lanes q).

Inductive job_effect : Prop :=
| JE_none evs : forallb quiet evs = true -> trace q' = trace q ++ evs -> same_ready -> same_lanes -> job_effect
| JE_add_high j : trace q' = trace q ++ [EAdded j High] -> same_lanes ->
    readyPriorityJobs q' = readyPriorityJobs q ++ [j] -> readyJobs q' = readyJobs q -> job_effect
| JE_add_normal j : trace q' = trace q ++ [EAdded j Normal] -> same_lanes ->
    readyPriorityJobs q' = readyPriorityJobs q -> readyJobs q' = readyJobs q ++ [j] -> job_effect
| JE_take_high j : trace q' = trace q ++ [ETaken j High] ->
    readyPriorityJobs q = j :: readyPriorityJobs q' -> readyJobs q' = readyJobs q ->
    gather held (lanes q') ≡ₚ j :: gather held (lanes q) -> gather busy (lanes q') ≡ₚ gather busy (lanes q) -> job_effect
| JE_take_normal j k : trace q' = trace q ++ [ETaken j Normal] ->
    readyPriorityJobs q = [] -> readyPriorityJobs q' = [] ->
    getNextJob (algorithm (config q)) k (readyJobs q) = Some (j, readyJobs q') ->
    gather held (lanes q') ≡ₚ j :: gather held (lanes q) -> gather busy (lanes q') ≡ₚ gather busy (lanes q) -> job_effect
| JE_begin j : trace q' = trace q ++ [EStarted j] -> same_ready ->
    gather held (lanes q') ≡ₚ gather held (lanes q) -> gather busy (lanes q') ≡ₚ j :: gather busy (lanes q) -> job_effect
| JE_finish j : trace q' = trace q ++ [EFinished j] -> same_ready ->
    gather held (lanes q) ≡ₚ j :: gather held (lanes q') -> gather busy (lanes q) ≡ₚ j :: gather busy (lanes q') -> job_effect.
End Effects.

Lemma gather_set_same {A} (f : LanePC -> list A) g ls i l : ls !! i = Some l ->
  f (pc (g l)) = f (pc l) -> gather f (alter g i ls) ≡ₚ gather f ls.
Proof. intros H E. pose proof (gather_set f g ls i l H) as P. rewrite E in P. by apply Permutation_app_inv_l in P. Qed.

Lemma notify_one_gather {A} (f : LanePC -> list A) k q q' : f Waiting = f AtLock -> notify_one k q = Some q' ->
  gather f (lanes q') ≡ₚ gather f (lanes q)
  /\ readyPriorityJobs q' = readyPriorityJobs q /\ readyJobs q' = readyJobs q /\ trace q' = trace q.
Proof.
  intros Ef H. apply notify_one_spec in H as [[-> _]|(i & n & _ & Hi & ->)]; [done|]. split; [|done].
  by eapply gather_set_same; [exact Hi|].
Qed.

Lemma addJob_effect j p k q q' : addJob j p k q = Some (Ok q') -> job_effect q q'.
Proof.
  intros H. unfold addJob in H. destruct p.
  - destruct (addToScheduler _ _ _) as [js|] eqn:E; [|done]. apply addToScheduler_snoc in E.
    destruct (notify_one _ _) as [q1|] eqn:En; simplify_eq/=.
    destruct (notify_one_gather held _ _ _ eq_refl En) as (Hh & Hp & Hr & Ht).
    destruct (notify_one_gather busy _ _ _ eq_refl En) as (Hb & _).
    by apply (JE_add_normal _ _ j).
  - destruct (notify_one _ _) as [q1|] eqn:En; simplify_eq/=.
    destruct (notify_one_gather held _ _ _ eq_refl En) as (Hh & Hp & Hr & Ht).
    destruct (notify_one_gather busy _ _ _ eq_refl En) as (Hb & _).
    by apply (JE_add_high _ _ j).
Qed.

Lemma same_lanes_set q i l p : lanes q !! i = Some l -> held p = held (pc l) -> busy p = busy (pc l) ->
  same_lanes q (set_pc i p q).
Proof. intros H Eh Eb. split; by eapply gather_set_same. Qed.

Lemma same_lanes_trans q1 q2 q3 : same_lanes q1 q2 -> same_lanes q2 q3 -> same_lanes q1 q3.
Proof. intros [H1 B1] [H2 B2]. split; by etrans. Qed.

Lemma same_lanes_notify_all q : same_lanes q (notify_all q).
Proof. split; simpl; by rewrite gather_wake. Qed.

(** Effects start the same from states that agree on the jobs. *)
Lemma job_effect_pre q1 q2 q3 : same_ready q1 q2 -> same_lanes q1 q2 -> trace q2 = trace q1 -> config q2 = config q1 ->
  job_effect q2 q3 -> job_effect q1 q3.
Proof.
  intros [Rp Rr] [Lh Lb] Et Ec [evs He Ht [Hp Hr] [Hh Hb]|j Ht [Hh Hb] Hp Hr|j Ht [Hh Hb] Hp Hr|j Ht Hp Hr Hh Hb
    |j k Ht Hp Hp' Hn Hh Hb|j Ht [Hp Hr] Hh Hb|j Ht [Hp Hr] Hh Hb]; rewrite Et in Ht.
  - eapply JE_none; [done|done|split; congruence|split; by etrans].
  - apply (JE_add_high _ _ j); [done|split; by etrans|congruence..].
  - apply (JE_add_normal _ _ j); [done|split; by etrans|congruence..].
  - apply (JE_take_high _ _ j); [done|congruence..|by rewrite Hh, Lh|by etrans].
  - apply (JE_take_normal _ _ j k); [done|congruence|congruence| |by rewrite Hh, Lh|by etrans]. by rewrite <- Rr, <- Ec.
  - apply (JE_begin _ _ j); [done|split; congruence|by etrans|by rewrite Hb, Lb].
  - apply (JE_finish _ _ j); [done|split; congruence|by rewrite <- Lh|by rewrite <- Lb].
Qed.

Lemma cancelEnter_spec q b q' : cancelEnter q = (b, q') ->
  same_lanes q q' /\ same_ready q q' /\ trace q' = trace q /\ config q' = config q.
Proof.
  unfold cancelEnter. destruct (cancelled q); intros [= <- <-]; [done|].
  split; [apply (same_lanes_notify_all (upd_spawnedProcesses close_group (upd_cancelled (fun _ => true) q)))|done].
Qed.

Lemma lookup_wake ls i l : ls !! i = Some l -> map wake ls !! i = Some (wake l).
Proof. intros H. change ((wake <$> ls) !! i = Some (wake l)). by rewrite list_lookup_fmap, H. Qed.

Lemma cancelEnter_lane q b q' i l : cancelEnter q = (b, q') -> lanes q !! i = Some l -> is_waiting l = false ->
  lanes q' !! i = Some l.
Proof.
  unfold cancelEnter. intros H Hi Hw. destruct (cancelled q); simplify_eq/=; [done|].
  rewrite (lookup_wake _ _ _ Hi). unfold wake. by rewrite Hw.
Qed.

(** A step that only moves the lane between positions with the same job. *)
Lemma JE_set q i l p evs q' : lanes q !! i = Some l -> held p = held (pc l) -> busy p = busy (pc l) ->
  forallb quiet evs = true -> trace q' = trace q ++ evs -> lanes q' = lanes (set_pc i p q) ->
  readyJobs q' = readyJobs q -> readyPriorityJobs q' = readyPriorityJobs q -> job_effect q q'.
Proof.
  intros Hi Eh Eb He Ht Hl Hr Hp. destruct (same_lanes_set q i l p Hi Eh Eb) as [Sh Sb].
  eapply JE_none; [done|done|done|]. split; by rewrite Hl.
Qed.

Lemma laneTop_effect i k q q' l : lanes q !! i = Some l -> pc l = AtLock -> laneTop i k q = Some q' -> job_effect q q'.
Proof.
  intros Hi Hpc H. unfold laneTop in H. destruct (empty_ready q).
  { injection H as <-. apply (JE_set q i l (if shutdown q then Exited else Waiting) []); try done;
      [by rewrite Hpc; destruct (shutdown q)..|by rewrite app_nil_r]. }
  assert (Hgot : forall j, gather held (lanes (set_pc i (Got j) q)) ≡ₚ j :: gather held (lanes q)
                 /\ gather busy (lanes (set_pc i (Got j) q)) ≡ₚ gather busy (lanes q)).
  { intros j. split.
    - pose proof (gather_set held (fun l => mkLane (jobCount l) (Got j)) _ _ _ Hi) as P. rewrite Hpc in P. exact P.
    - eapply gather_set_same; [exact Hi|]. by rewrite Hpc. }
  destruct (bool_decide (readyPriorityJobs q = [])) eqn:Ep.
  - apply bool_decide_eq_true in Ep.
    destruct (getNextJob _ k (readyJobs q)) as [[j rest]|] eqn:En; simplify_eq/=.
    destruct (Hgot j) as [Gh Gb]. by apply (JE_take_normal _ _ j k).
  - destruct (getNextJob FIFO k (readyPriorityJobs q)) as [[j rest]|] eqn:En; simplify_eq/=.
    destruct (Hgot j) as [Gh Gb]. apply getNextJob_FIFO in En. by apply (JE_take_high _ _ j).
Qed.

Lemma laneBegin_effect i q l j d : lanes q !! i = Some l -> pc l = Got j -> getDescriptor j = Some d ->
  job_effect q (laneBegin i l j q).
Proof.
  intros Hi Hpc Hd. unfold laneBegin. rewrite Hd. apply (JE_begin _ _ j); [done|done|..]; simpl.
  - eapply gather_set_same; [exact Hi|]. by rewrite Hpc.
  - set (g := fun _ : Lane => mkLane _ _). pose proof (gather_set busy g _ _ _ Hi) as P. rewrite Hpc in P. exact P.
Qed.

Lemma laneRun_effect i q l c todo m q' : lanes q !! i = Some l -> pc l = Running c todo ->
  laneRun i c todo m q = Some (Ok q') -> job_effect q q'.
Proof.
  intros Hi Hpc H. unfold laneRun in H. destruct todo as [|[j p|r|] rest], m; try done.
  - injection H as <-. apply (JE_finish _ _ (job c)); [done|done|..]; simpl.
    + pose proof (gather_set held (fun l => mkLane (jobCount l) AtLock) _ _ _ Hi) as P. rewrite Hpc in P. by symmetry.
    + pose proof (gather_set busy (fun l => mkLane (jobCount l) AtLock) _ _ _ Hi) as P. rewrite Hpc in P. by symmetry.
  - eapply job_effect_pre; [..|exact (addJob_effect _ _ _ _ _ H)]; try done.
    apply same_lanes_set with l; by rewrite ?Hpc.
  - destruct (cancelled q); injection H as <-.
    + apply (JE_set q i l (Running c rest) [ECompleted (jobID c) Cancelled]); by rewrite ?Hpc.
    + apply (JE_set q i l (Spawning c r rest) []); rewrite ?Hpc, ?app_nil_r; done.
  - destruct (cancelEnter q) as [b q1] eqn:Ec. injection H as <-.
    destruct (cancelEnter_spec _ _ _ Ec) as (Sl & Sr & Et & Eg).
    pose proof (cancelEnter_lane _ _ _ _ _ Ec Hi ltac:(unfold is_waiting; by rewrite Hpc)) as Hi1.
    eapply job_effect_pre; [exact Sr|exact Sl|exact Et|exact Eg|].
    apply (JE_set q1 i l (if b then Interrupting c rest else Running c rest) []); rewrite ?app_nil_r; try done;
      rewrite Hpc; by destruct b.
Qed.

(** Move lane [i], whose position is given by [Hpc], to [pos], logging some events. *)
Ltac by_set Hpc pos :=
  eapply JE_set with (p := pos); [eassumption|by rewrite Hpc|by rewrite Hpc| |reflexivity|done|done|done]; reflexivity.

Lemma laneSpawn_effect i q l c r rest res q' : lanes q !! i = Some l -> pc l = Spawning c r rest ->
  laneSpawn i c r rest res q = Ok q' -> job_effect q q'.
Proof.
  intros Hi Hpc H. unfold laneSpawn in H. destruct (isClosed _).
  { injection H as <-. by_set Hpc (Running c rest). }
  destruct res as [p|].
  - destruct (processEnvironment _ _ _) as [env|]; simpl in H; [|done]. injection H as <-.
    by_set Hpc (InProcess c p true rest).
  - injection H as <-. by_set Hpc (Running c rest).
Qed.

Lemma signals_quiet l : forallb quiet (map (fun '(p, s) => ESignal p s) l) = true.
Proof. induction l as [|[p s] l IH]; [done|exact IH]. Qed.

Lemma laneStep_effect i m q q' : jobs_described q -> laneStep i m q = Some (Ok q') -> job_effect q q'.
Proof.
  intros D H. unfold laneStep in H. destruct (lanes q !! i) as [l|] eqn:Hi; [|done]. cbn in H.
  destruct (pc l) as [| |j|c todo|c r rest|c p rel rest|c p rest|c rest|c rest|] eqn:Hpc.
  - destruct m; try done. destruct (laneTop i k q) as [q1|] eqn:E; simplify_eq/=. by eapply laneTop_effect.
  - destruct m; try done. injection H as <-. apply (JE_set q i l AtLock []); rewrite ?Hpc, ?app_nil_r; done.
  - destruct m; try done. injection H as <-.
    assert (described j = true) as Hj.
    { unfold jobs_described in D. rewrite !Forall_app in D. destruct D as (_ & _ & D). rewrite Forall_forall in D.
      apply D. apply list_elem_of_join. exists (mentions (pc l)). split; [rewrite Hpc; left|].
      apply list_elem_of_In, in_map_iff. exists l. split; [done|]. by apply list_elem_of_In, list_elem_of_lookup_2 with i. }
    destruct (described_work _ Hj) as [[d Hd] _]. by eapply laneBegin_effect.
  - by eapply laneRun_effect.
  - destruct m; try done. injection H as H. by eapply laneSpawn_effect.
  - destruct m; try done; destruct rel; try done; injection H as <-;
      try by_set Hpc (Running c rest).
    unfold laneRelease. destruct (_ <? _)%Z.
    + apply (JE_set q i l (Running c rest) []); rewrite ?Hpc, ?app_nil_r; done.
    + apply (JE_set q i l (Rejected c p rest) []); rewrite ?Hpc, ?app_nil_r; done.
  - destruct m; try done. injection H as <-. apply (JE_set q i l (InProcess c p false rest) []); rewrite ?Hpc, ?app_nil_r; done.
  - destruct m; try done. injection H as <-.
    eapply (JE_set q i l (StartingKiller c rest)); [exact Hi|by rewrite Hpc|by rewrite Hpc|apply signals_quiet|done..].
  - destruct m; try done. injection H as <-. apply (JE_set q i l (Running c rest) []); rewrite ?Hpc, ?app_nil_r; done.
  - by destruct m.
Qed.

Lemma cancellerStep_effect i q q' : cancellerStep i q = Some q' -> job_effect q q'.
Proof.
  unfold cancellerStep. destruct (cancellers q !! i) as [[]|]; intros; simplify_eq/=.
  - eapply JE_none; [apply signals_quiet|done..].
  - apply (JE_none _ _ []); [done|simpl; by rewrite app_nil_r|done..].
Qed.

Lemma backgroundStep_effect i st q q' : backgroundStep i st q = Some (Ok q') -> job_effect q q'.
Proof.
  unfold backgroundStep. destruct (background q !! i) as [[c p|]|]; simpl; [| |done].
  - intros [= <-]. by apply (JE_none _ _ [ECompleted (jobID c) st]).
  - destruct (phase q); intros; simplify_eq; (apply (JE_none _ _ []); [done|simpl; by rewrite app_nil_r|done..]).
Qed.

Lemma killerStep_effect q q' : killerStep q = Some q' -> job_effect q q'.
Proof.
  unfold killerStep. destruct (killer q); intros; simplify_eq/=;
    try (apply (JE_none _ _ []); [done|simpl; by rewrite app_nil_r|done..]).
  eapply JE_none; [apply signals_quiet|done..].
Qed.

Lemma destructorStep_effect q q' : destructorStep q = Some q' -> job_effect q q'.
Proof.
  unfold destructorStep. intros H.
  assert (Hq : q' = upd_phase (fun _ => phase q') q
    \/ q' = upd_phase (fun _ => Finishing) (upd_queueComplete (fun _ => true) q)
    \/ q' = notify_all (upd_shutdown (fun _ => true) (upd_phase (fun _ => Joining) q))).
  { repeat split_match; simplify_eq/=; auto. }
  apply (JE_none _ _ []); [done|destruct Hq as [-> |[-> | ->]]; simpl; by rewrite app_nil_r|destruct Hq as [-> |[-> | ->]]; done|].
  destruct Hq as [-> |[-> | ->]]; [done|done|].
  exact (same_lanes_notify_all (upd_shutdown (fun _ => true) (upd_phase (fun _ => Joining) q))).
Qed.

Lemma step_effect l q q' : jobs_described q -> step l q = Some (Ok q') -> job_effect q q'.
Proof.
  intros D H. destruct l; simpl in H.
  - by eapply laneStep_effect.
  - destruct (is_alive q); [|done]. by eapply addJob_effect.
  - destruct (is_alive q); [|done]. destruct (cancelEnter q) as [b q1] eqn:Ec. injection H as <-.
    destruct (cancelEnter_spec _ _ _ Ec) as (Sl & Sr & Et & _).
    destruct b; (apply (JE_none _ _ []); [done|simpl; by rewrite app_nil_r|done|done]).
  - destruct (cancellerStep i q) eqn:E; simplify_eq/=. by eapply cancellerStep_effect.
  - by eapply backgroundStep_effect.
  - destruct (killerStep q) eqn:E; simplify_eq/=. by eapply killerStep_effect.
  - destruct (destructorStep q) eqn:E; simplify_eq/=. by eapply destructorStep_effect.
Qed.

(** ** Jobs keep their descriptors *)
Section Described.
Let P := fun j => described j = true.

Lemma Forall_gather_set g ls i l : ls !! i = Some l ->
  Forall P (mentions (pc (g l))) -> Forall P (gather mentions ls) -> Forall P (gather mentions (alter g i ls)).
Proof.
  intros Hi Hm Hg. pose proof (gather_set mentions g ls i l Hi) as E.
  assert (HF : Forall P (mentions (pc l) ++ gather mentions (alter g i ls))) by (rewrite E; by apply Forall_app).
  by apply Forall_app in HF as [_ HF].
Qed.

Lemma Forall_gather_at ls i l : ls !! i = Some l -> Forall P (gather mentions ls) -> Forall P (mentions (pc l)).
Proof.
  intros Hi Hg. destruct (lanes_middle _ _ _ Hi) as (l1 & l2 & -> & _).
  unfold gather in Hg. rewrite map_app, join_app in Hg. simpl in Hg. rewrite !Forall_app in Hg. tauto.
Qed.

Definition ready_described (q : Queue) : Prop := Forall P (readyPriorityJobs q) /\ Forall P (readyJobs q).

Lemma jobs_described_split q : jobs_described q <-> ready_described q /\ Forall P (gather mentions (lanes q)).
Proof. unfold jobs_described, ready_described. rewrite !Forall_app. tauto. Qed.

Lemma described_set q q' i l p : jobs_described q -> lanes q !! i = Some l -> Forall P (mentions p) ->
  lanes q' = lanes (set_pc i p q) -> ready_described q' -> jobs_described q'.
Proof.
  rewrite !jobs_described_split. intros [_ Hg] Hi Hm Hl Hr. split; [done|]. rewrite Hl. by eapply Forall_gather_set.
Qed.

Lemma addJob_described j p k q q' : jobs_described q -> P j -> addJob j p k q = Some (Ok q') -> jobs_described q'.
Proof.
  rewrite !jobs_described_split. intros [[Hp Hr] Hg] Hj H. unfold addJob in H. destruct p.
  - destruct (addToScheduler _ _ _) as [js|] eqn:E; [|done]. apply addToScheduler_snoc in E as ->.
    destruct (notify_one _ _) as [q1|] eqn:En; simplify_eq/=.
    destruct (notify_one_gather mentions _ _ _ eq_refl En) as (Hm & Hp' & Hr' & _).
    unfold ready_described. rewrite Hp', Hr', Hm. simpl. split; [|done]. split; [done|]. apply Forall_app. auto.
  - destruct (notify_one _ _) as [q1|] eqn:En; simplify_eq/=.
    destruct (notify_one_gather mentions _ _ _ eq_refl En) as (Hm & Hp' & Hr' & _).
    unfold ready_described. rewrite Hp', Hr', Hm. simpl. split; [|done]. split; [|done]. apply Forall_app. auto.
Qed.

Lemma cancelEnter_described q b q' : cancelEnter q = (b, q') -> jobs_described q -> jobs_described q'.
Proof.
  unfold cancelEnter. destruct (cancelled q); intros [= <- <-]; [done|]. rewrite !jobs_described_split. intros [Hr Hg].
  split; [done|]. simpl. by rewrite gather_wake.
Qed.

Lemma getNextJob_described alg k js j rest : Forall P js -> getNextJob alg k js = Some (j, rest) -> P j /\ Forall P rest.
Proof. intros H E%getNextJob_perm. rewrite E in H. by apply Forall_cons in H. Qed.

Lemma laneTop_described i k q q' l : jobs_described q -> lanes q !! i = Some l -> pc l = AtLock ->
  laneTop i k q = Some q' -> jobs_described q'.
Proof.
  intros D Hi Hpc H. pose proof D as [[Hp Hr] _]%jobs_described_split. unfold laneTop in H. destruct (empty_ready q).
  { injection H as <-. eapply described_set; [exact D|exact Hi| |reflexivity|done]. by destruct (shutdown q). }
  destruct (bool_decide _).
  - destruct (getNextJob _ k (readyJobs q)) as [[j rest]|] eqn:En; simplify_eq/=.
    destruct (getNextJob_described _ _ _ _ _ Hr En) as [Hj Hrest].
    eapply described_set; [exact D|exact Hi| |reflexivity|done]. by repeat constructor.
  - destruct (getNextJob FIFO k _) as [[j rest]|] eqn:En; simplify_eq/=.
    destruct (getNextJob_described _ _ _ _ _ Hp En) as [Hj Hrest].
    eapply described_set; [exact D|exact Hi| |reflexivity|done]. by repeat constructor.
Qed.

Lemma laneRun_described i q l c todo m q' : jobs_described q -> lanes q !! i = Some l -> pc l = Running c todo ->
  laneRun i c todo m q = Some (Ok q') -> jobs_described q'.
Proof.
  intros D Hi Hpc H. pose proof D as [Hr Hg]%jobs_described_split.
  pose proof (Forall_gather_at _ _ _ Hi Hg) as Hm. rewrite Hpc in Hm. unfold mentions in Hm. simpl in Hm.
  unfold laneRun in H. destruct todo as [|[j p|r|] rest], m; try done; simpl in Hm; inversion Hm as [|? ? Hc Ht]; subst.
  - injection H as <-. by eapply described_set; [exact D|exact Hi| |reflexivity|done].
  - inversion Ht; subst. eapply addJob_described; [|eassumption|exact H].
    eapply described_set; [exact D|exact Hi| |reflexivity|done]. by constructor.
  - destruct (cancelled q); injection H as <-; (eapply described_set; [exact D|exact Hi| |reflexivity|done]); by constructor.
  - destruct (cancelEnter q) as [b q1] eqn:Ec. injection H as <-.
    pose proof (cancelEnter_described _ _ _ Ec D) as D1.
    pose proof (cancelEnter_lane _ _ _ _ _ Ec Hi ltac:(unfold is_waiting; by rewrite Hpc)) as Hi1.
    eapply described_set; [exact D1|exact Hi1| |reflexivity|by apply jobs_described_split in D1 as []].
    destruct b; by constructor.
Qed.

Lemma laneStep_described i m q q' : jobs_described q -> laneStep i m q = Some (Ok q') -> jobs_described q'.
Proof.
  intros D H. pose proof D as [Hr Hg]%jobs_described_split. unfold laneStep in H.
  destruct (lanes q !! i) as [l|] eqn:Hi; [|done]. cbn in H.
  pose proof (Forall_gather_at _ _ _ Hi Hg) as Hm.
  destruct (pc l) as [| |j|c todo|c r rest|c p rel rest|c p rest|c rest|c rest|] eqn:Hpc; try (by destruct m);
    unfold mentions in Hm; simpl in Hm.
  - destruct m; try done. destruct (laneTop i k q) as [q1|] eqn:E; simplify_eq/=. by eapply laneTop_described.
  - destruct m; try done. injection H as <-. by eapply described_set; [exact D|exact Hi| |reflexivity|done].
  - destruct m; try done. injection H as <-. inversion Hm as [|? ? Hj _]; subst.
    destruct (described_work _ Hj) as [[d Hd] Hw]. unfold laneBegin. rewrite Hd.
    rewrite jobs_described_split. split; [done|]. simpl. eapply Forall_gather_set; [exact Hi| |exact Hg]. by constructor.
  - by eapply laneRun_described.
  - destruct m as [| | |res| |]; try done. injection H as H. unfold laneSpawn in H.
    destruct (isClosed _); [|destruct res; [destruct (processEnvironment _ _ _); [|done]|]]; simplify_eq/=;
      (eapply described_set; [exact D|exact Hi| |reflexivity|done]; exact Hm).
  - destruct m; try done; destruct rel; try done; injection H as <-; unfold laneRelease;
      try (destruct (_ <? _)%Z); (eapply described_set; [exact D|exact Hi| |reflexivity|done]; exact Hm).
  - destruct m; try done. injection H as <-. eapply described_set; [exact D|exact Hi| |reflexivity|done]; exact Hm.
  - destruct m; try done. injection H as <-. eapply described_set; [exact D|exact Hi| |reflexivity|done]; exact Hm.
  - destruct m; try done. injection H as <-. eapply described_set; [exact D|exact Hi| |reflexivity|done]; exact Hm.
Qed.

Lemma step_described l q q' : label_ok l = true -> jobs_described q -> step l q = Some (Ok q') -> jobs_described q'.
Proof.
  intros Hl D H. destruct l; simpl in H.
  - by eapply laneStep_described.
  - destruct (is_alive q); [|done]. by eapply addJob_described.
  - destruct (is_alive q); [|done]. destruct (cancelEnter q) as [b q1] eqn:Ec. injection H as <-.
    pose proof (cancelEnter_described _ _ _ Ec D) as D1. by destruct b.
  - unfold cancellerStep in H. by destruct (cancellers q !! i) as [[]|]; simplify_eq/=.
  - unfold backgroundStep in H. destruct (background q !! i) as [[]|]; simplify_eq/=; [done|]. by destruct (phase q); simplify_eq/=.
  - unfold killerStep in H. by destruct (killer q); simplify_eq/=.
  - unfold destructorStep in H.
    assert (Hq : jobs_described (notify_all (upd_shutdown (fun _ => true) (upd_phase (fun _ => Joining) q)))).
    { rewrite jobs_described_split in D |- *. destruct D as [Hr Hg]. split; [done|]. simpl. by rewrite gather_wake. }
    repeat split_match; simplify_eq/=; done.
Qed.
End Described.
