(* ===== verification/ExecutionQueueLanes.v ===== *)
(** * Lanes, background tasks and cancellation of the execution queue

    The remaining parts of the invariant: no wakeup is lost and lanes leave only when
    the queue is shut down and empty ([lanes_ok]); the shared counter of background
    tasks counts them ([background_ok]); after a cancellation no process is added
    and those that may be interrupted are ([cancel_ok]). *)

From Stdlib Require Import Ascii String Lia ZArith.
From stdpp Require Import base gmap list strings numbers pretty.
From S2P Require Import Prelude Chars Process ExecutionQueue ExecutionQueueInv.

(** ** Counting lanes *)
Definition at_lock (p : LanePC) : nat := match p with AtLock => 1 | _ => 0 end.
Definition sleeping (p : LanePC) : nat := match p with Waiting => 1 | _ => 0 end.
Definition left_ (p : LanePC) : nat := match p with Exited => 1 | _ => 0 end.
Definition rejecting (p : LanePC) : nat := match p with Rejected _ _ _ => 1 | _ => 0 end.
Definition interrupting (p : LanePC) : nat := match p with Interrupting _ _ => 1 | _ => 0 end.

Definition ready_count (q : Queue) : nat := length (readyPriorityJobs q) + length (readyJobs q).

Lemma total_le f ls : (forall p, f p <= 1)%nat -> (total f ls <= length ls)%nat.
Proof.
  intros Hf. unfold total. induction ls as [|l ls IH]; simpl; [lia|]. specialize (Hf (pc l)). lia.
Qed.

Lemma total_lt f ls i l : (forall p, f p <= 1)%nat -> ls !! i = Some l -> f (pc l) = 0%nat -> (total f ls < length ls)%nat.
Proof.
  intros Hf Hi H0. destruct (lanes_middle _ _ _ Hi) as (l1 & l2 & -> & _).
  pose proof (total_le f l1 Hf). pose proof (total_le f l2 Hf).
  unfold total in *. rewrite sum_list_with_app, length_app. simpl. lia.
Qed.

Lemma total_pos f ls i l : ls !! i = Some l -> (f (pc l) <= total f ls)%nat.
Proof.
  intros Hi. destruct (lanes_middle _ _ _ Hi) as (l1 & l2 & -> & _).
  unfold total. rewrite sum_list_with_app. simpl. lia.
Qed.

Lemma sleeping_wake ls : total sleeping (map wake ls) = 0%nat /\ total at_lock (map wake ls) = (total at_lock ls + total sleeping ls)%nat
  /\ total left_ (map wake ls) = total left_ ls.
Proof.
  unfold total. induction ls as [|[n p] ls (H1 & H2 & H3)]; [done|]. simpl.
  rewrite H1, H2, H3. destruct p; simpl; lia.
Qed.

Lemma no_sleeper ls : existsb is_waiting ls = false -> total sleeping ls = 0%nat.
Proof.
  unfold total. induction ls as [|[n p] ls IH]; [done|]. simpl. intros [Hp Hls]%orb_false_iff. rewrite (IH Hls).
  by destruct p.
Qed.

Lemma all_exited_count q : all_exited q = true <-> total left_ (lanes q) = length (lanes q).
Proof.
  unfold all_exited, total. induction (lanes q) as [|[n p] ls IH]; [done|]. simpl.
  pose proof (total_le left_ ls ltac:(by destruct p0; simpl; lia)) as Hle. unfold total in Hle.
  rewrite andb_true_iff, IH. unfold has_exited. destruct p; simpl; naive_solver lia.
Qed.

(** The equations of [total_set] for the three counts. *)
Ltac count_lanes Hi g :=
  pose proof (total_set at_lock g _ _ _ Hi); pose proof (total_set sleeping g _ _ _ Hi);
  pose proof (total_set left_ g _ _ _ Hi).

Lemma length_alter_lanes g i (ls : list Lane) : length (alter g i ls) = length ls.
Proof. apply length_alter. Qed.

(** ** Wakeups *)
Record lanes_ok (q : Queue) : Prop := {
  lo_wakeup : (0 < total sleeping (lanes q) -> ready_count q <= total at_lock (lanes q))%nat;
  lo_shutdown : shutdown q = true -> total sleeping (lanes q) = 0%nat;
  lo_alive : is_alive q = negb (shutdown q);
  lo_exited : (0 < total left_ (lanes q))%nat -> shutdown q = true;
  lo_drained : (0 < length (lanes q))%nat -> total left_ (lanes q) = length (lanes q) -> ready_count q = 0%nat }.

Definition inside (p : LanePC) : bool :=
  match p with AtLock | Waiting | Exited => false | _ => true end.

Lemma inside_counts p : inside p = true -> at_lock p = 0%nat /\ sleeping p = 0%nat /\ left_ p = 0%nat.
Proof. by destruct p. Qed.

(** A step of lane [i] between positions inside the loop body. *)
Lemma lanes_ok_inside q q' i l p : lanes_ok q -> lanes q !! i = Some l -> inside (pc l) = true -> inside p = true ->
  lanes q' = lanes (set_pc i p q) -> shutdown q' = shutdown q -> phase q' = phase q -> ready_count q' = ready_count q ->
  lanes_ok q'.
Proof.
  intros [Hw Hs Ha He Hd] Hi I1 I2 Hl Es Ep Er. apply inside_counts in I1 as (A1 & B1 & C1), I2 as (A2 & B2 & C2).
  count_lanes Hi (fun l => mkLane (jobCount l) p). simpl in *. unfold is_alive in *.
  split; unfold is_alive; rewrite ?Hl, ?Es, ?Ep, ?Er, ?length_alter_lanes; simpl; rewrite ?length_alter_lanes; try done; intros.
  - assert (ready_count q <= total at_lock (lanes q))%nat by (apply Hw; lia). lia.
  - specialize (Hs ltac:(done)). lia.
  - apply He. lia.
  - apply Hd; lia.
Qed.

Lemma notify_one_lanes k q q' : notify_one k q = Some q' ->
  (total sleeping (lanes q') = 0 /\ total sleeping (lanes q) = 0 /\ total at_lock (lanes q') = total at_lock (lanes q)
   \/ total sleeping (lanes q) = S (total sleeping (lanes q')) /\ total at_lock (lanes q') = S (total at_lock (lanes q)))%nat
  /\ total left_ (lanes q') = total left_ (lanes q) /\ length (lanes q') = length (lanes q)
  /\ shutdown q' = shutdown q /\ phase q' = phase q /\ ready_count q' = ready_count q.
Proof.
  intros [[-> H]|(i & n & _ & Hi & ->)]%notify_one_spec.
  - apply no_sleeper in H. split; [left; lia|done].
  - count_lanes Hi (fun l => mkLane (jobCount l) AtLock). simpl in *.
    split; [right; lia|]. rewrite length_alter_lanes. repeat split; try done. lia.
Qed.

(** Adding is allowed while the queue is alive or from a lane that has not left. *)
Lemma addJob_lanes_ok j p k q q' : lanes_ok q -> (shutdown q = false \/ total left_ (lanes q) < length (lanes q))%nat ->
  addJob j p k q = Some (Ok q') -> lanes_ok q'.
Proof.
  intros [Hw Hs Ha He Hd] Hadd H.
  assert (exists q1, notify_one k q1 = Some q' /\ lanes q1 = lanes q /\ shutdown q1 = shutdown q /\ phase q1 = phase q
     /\ ready_count q1 = S (ready_count q)) as (q1 & En & El & Es & Ep & Er).
  { unfold addJob in H. destruct p.
    - destruct (addToScheduler _ _ _) as [js|] eqn:E; [|done]. apply addToScheduler_snoc in E as ->.
      destruct (notify_one _ _) eqn:En; simplify_eq/=. eexists. split; [exact En|]. repeat split; try done.
      unfold ready_count. simpl. rewrite length_app. simpl. lia.
    - destruct (notify_one _ _) eqn:En; simplify_eq/=. eexists. split; [exact En|]. repeat split; try done.
      unfold ready_count. simpl. rewrite length_app. simpl. lia. }
  destruct (notify_one_lanes _ _ _ En) as (Hn & N3 & N4 & N5 & N6 & N7). rewrite El, Es, Ep, Er in *. unfold is_alive in *.
  split; unfold is_alive; rewrite ?N3, ?N4, ?N5, ?N6, ?N7; try done; intros.
  - destruct Hn as [?|[? ?]]; [lia|]. assert (ready_count q <= total at_lock (lanes q))%nat by (apply Hw; lia). lia.
  - specialize (Hs ltac:(done)). lia.
  - exfalso. destruct Hadd as [Hadd|Hadd]; [|lia]. rewrite He in Hadd; [done|lia].
Qed.

Lemma notify_all_lanes_ok q q' : lanes_ok q -> lanes q' = map wake (lanes q) -> ready_count q' = ready_count q ->
  (shutdown q = true -> shutdown q' = true) -> is_alive q' = negb (shutdown q') -> lanes_ok q'.
Proof.
  intros [Hw Hs Ha He Hd] El Er Es Ea. destruct (sleeping_wake (lanes q)) as (W1 & W2 & W3).
  split; unfold is_alive; rewrite ?El, ?Er, ?W1, ?W2, ?W3, ?length_map; try done; intros; try lia.
  by apply Es, He.
Qed.

Lemma cancelEnter_lanes_ok q b q' : lanes_ok q -> cancelEnter q = (b, q') -> lanes_ok q'.
Proof.
  intros OK. unfold cancelEnter. destruct (cancelled q); intros [= <- <-]; [done|].
  eapply notify_all_lanes_ok; [exact OK|done..|apply (lo_alive q OK)].
Qed.

Lemma laneTop_lanes_ok i k q q' l : lanes_ok q -> lanes q !! i = Some l -> pc l = AtLock -> laneTop i k q = Some q' -> lanes_ok q'.
Proof.
  intros [Hw Hs Ha He Hd] Hi Hpc H. unfold laneTop in H. destruct (empty_ready q) eqn:Em.
  - assert (Hr : ready_count q = 0%nat).
    { unfold empty_ready in Em. apply andb_true_iff in Em as [E1 E2]. rewrite bool_decide_eq_true in E1, E2.
      unfold ready_count. by rewrite E1, E2. }
    injection H as <-.
    count_lanes Hi (fun l => mkLane (jobCount l) (if shutdown q then Exited else Waiting)). rewrite Hpc in *. simpl in *.
    destruct (shutdown q) eqn:Es; split; simpl; unfold ready_count in *; simpl; rewrite ?length_alter_lanes, ?Es; simpl in *; try done; intros; lia.
  - assert (Hlt : (total left_ (lanes q) < length (lanes q))%nat).
    { eapply total_lt; [by intros []; simpl; lia|exact Hi|by rewrite Hpc]. }
    assert (exists j, lanes q' = lanes (set_pc i (Got j) q) /\ shutdown q' = shutdown q /\ phase q' = phase q
      /\ S (ready_count q') = ready_count q) as (j & El & Es & Ep & Er).
    { destruct (bool_decide _) eqn:Eb.
      - apply bool_decide_eq_true in Eb. destruct (getNextJob _ _ _) as [[j rest]|] eqn:En; simplify_eq/=.
        apply getNextJob_perm, Permutation_length in En. exists j. repeat split. unfold ready_count. simpl in *. lia.
      - destruct (getNextJob _ _ _) as [[j rest]|] eqn:En; simplify_eq/=.
        apply getNextJob_perm, Permutation_length in En. exists j. repeat split. unfold ready_count. simpl in *. lia. }
    count_lanes Hi (fun l => mkLane (jobCount l) (Got j)). rewrite Hpc in *. simpl in *. unfold is_alive in *.
    split; unfold is_alive; rewrite ?El, ?Es, ?Ep; simpl; rewrite ?length_alter_lanes; try done; intros.
    + assert (ready_count q <= total at_lock (lanes q))%nat by (apply Hw; lia). lia.
    + specialize (Hs ltac:(done)). lia.
    + apply He. lia.
    + lia.
Qed.

Lemma finish_lanes_ok i q q' l : lanes_ok q -> lanes q !! i = Some l -> inside (pc l) = true \/ pc l = Waiting ->
  lanes q' = lanes (set_pc i AtLock q) -> shutdown q' = shutdown q -> phase q' = phase q -> ready_count q' = ready_count q ->
  lanes_ok q'.
Proof.
  intros [Hw Hs Ha He Hd] Hi Hpc El Es Ep Er.
  assert (Hc : at_lock (pc l) = 0%nat /\ (sleeping (pc l) <= 1)%nat /\ left_ (pc l) = 0%nat).
  { destruct Hpc as [H| ->]; [apply inside_counts in H; lia|simpl; lia]. }
  count_lanes Hi (fun l => mkLane (jobCount l) AtLock). simpl in *. unfold is_alive in *.
  split; unfold is_alive; rewrite ?El, ?Es, ?Ep, ?Er; simpl; rewrite ?length_alter_lanes; try done; intros.
  - assert (ready_count q <= total at_lock (lanes q))%nat by (apply Hw; lia). lia.
  - specialize (Hs ltac:(done)). lia.
  - apply He. lia.
  - apply Hd; lia.
Qed.

Lemma set_inside_lanes_ok q i l p : lanes_ok q -> lanes q !! i = Some l -> inside (pc l) = true -> inside p = true ->
  lanes_ok (set_pc i p q).
Proof. intros. by eapply lanes_ok_inside. Qed.

(** Fields the invariant does not look at. *)
Lemma lanes_ok_frame q q' : lanes_ok q -> lanes q' = lanes q -> readyJobs q' = readyJobs q ->
  readyPriorityJobs q' = readyPriorityJobs q -> shutdown q' = shutdown q -> phase q' = phase q -> lanes_ok q'.
Proof.
  intros [Hw Hs Ha He Hd] El Er Ep Es Eph. unfold is_alive, ready_count in *.
  split; unfold is_alive, ready_count; by rewrite ?El, ?Er, ?Ep, ?Es, ?Eph.
Qed.

(** Move the lane to [pos], changing nothing else the invariant looks at. *)
Ltac by_frame Hin pos := eapply lanes_ok_frame; [apply (Hin pos); reflexivity|reflexivity..].

Lemma laneStep_lanes_ok i m q q' : jobs_described q -> lanes_ok q -> laneStep i m q = Some (Ok q') -> lanes_ok q'.
Proof.
  intros D OK H. unfold laneStep in H. destruct (lanes q !! i) as [l|] eqn:Hi; [|done]. cbn in H.
  assert (Hin : forall p, inside (pc l) = true -> inside p = true -> lanes_ok (set_pc i p q)).
  { intros p H1 H2. by eapply set_inside_lanes_ok. }
  destruct (pc l) as [| |j|c todo|c r rest|c p rel rest|c p rest|c rest|c rest|] eqn:Hpc.
  - destruct m; try done. destruct (laneTop i k q) as [q1|] eqn:E; simplify_eq/=. by eapply laneTop_lanes_ok.
  - destruct m; try done. injection H as <-. eapply finish_lanes_ok; [exact OK|exact Hi|by right|done..].
  - destruct m; try done. injection H as <-.
    pose proof (proj1 (jobs_described_split q) D) as [_ Hg].
    pose proof (Forall_gather_at _ _ _ Hi Hg) as Hm. rewrite Hpc in Hm. inversion Hm as [|? ? Hj _]; subst.
    destruct (described_work _ Hj) as [[d Hd] _]. unfold laneBegin. rewrite Hd.
    set (g := fun _ : Lane => mkLane _ _). count_lanes Hi g. subst g. rewrite Hpc in *. simpl in *.
    destruct OK as [Hw Hs Ha He Hdr].
    split; unfold is_alive, ready_count in *; simpl; rewrite ?length_alter_lanes; try done; intros;
      first [lia|specialize (Hs ltac:(done)); lia|apply He; lia].
  - unfold laneRun in H. destruct todo as [|[j p|r|] rest], m; try done.
    + injection H as <-. eapply finish_lanes_ok; [exact OK|exact Hi|left; by rewrite Hpc|done..].
    + eapply addJob_lanes_ok; [exact (Hin (Running c rest) eq_refl eq_refl)| |exact H]. right. simpl.
      rewrite length_alter_lanes. count_lanes Hi (fun l => mkLane (jobCount l) (Running c rest)). rewrite Hpc in *. simpl in *.
      pose proof (total_lt left_ (lanes q) i l ltac:(by intros []; simpl; lia) Hi ltac:(by rewrite Hpc)). lia.
    + destruct (cancelled q); injection H as <-; [by_frame Hin (Running c rest)|].
      by apply Hin.
    + destruct (cancelEnter q) as [b q1] eqn:Ec. injection H as <-.
      pose proof (cancelEnter_lane _ _ _ _ _ Ec Hi ltac:(unfold is_waiting; by rewrite Hpc)) as Hi1.
      eapply set_inside_lanes_ok; [by eapply cancelEnter_lanes_ok|exact Hi1|by rewrite Hpc|by destruct b].
  - destruct m as [| | |res| |]; try done. injection H as H. unfold laneSpawn in H.
    destruct (isClosed _); [|destruct res as [p|]; [destruct (processEnvironment _ _ _); [|done]|]]; simplify_eq/=;
      [by_frame Hin (Running c rest)|by_frame Hin (InProcess c p true rest)|by_frame Hin (Running c rest)].
  - destruct m; try done; destruct rel; try done; injection H as <-; unfold laneRelease; try (destruct (_ <? _)%Z);
      first [by_frame Hin (Running c rest)|by_frame Hin (Rejected c p rest)].
  - destruct m; try done. injection H as <-. by_frame Hin (InProcess c p false rest).
  - destruct m; try done. injection H as <-. by_frame Hin (StartingKiller c rest).
  - destruct m; try done. injection H as <-. by_frame Hin (Running c rest).
  - by destruct m.
Qed.

Lemma step_lanes_ok l q q' : jobs_described q -> lanes_ok q -> step l q = Some (Ok q') -> lanes_ok q'.
Proof.
  intros D OK H. destruct l; simpl in H.
  - by eapply laneStep_lanes_ok.
  - destruct (is_alive q) eqn:Ea; [|done]. eapply addJob_lanes_ok; [exact OK| |exact H]. left.
    rewrite (lo_alive q OK) in Ea. by destruct (shutdown q).
  - destruct (is_alive q); [|done]. destruct (cancelEnter q) as [b q1] eqn:Ec. injection H as <-.
    pose proof (cancelEnter_lanes_ok _ _ _ OK Ec) as OK1. destruct b; [|done]. by eapply lanes_ok_frame.
  - unfold cancellerStep in H. destruct (cancellers q !! i) as [[]|]; simplify_eq/=; by eapply lanes_ok_frame.
  - unfold backgroundStep in H. destruct (background q !! i) as [[]|]; simplify_eq/=; [by eapply lanes_ok_frame|].
    destruct (phase q) eqn:Ep; simplify_eq/=; by eapply lanes_ok_frame.
  - unfold killerStep in H. destruct (killer q); simplify_eq/=; by eapply lanes_ok_frame.
  - unfold destructorStep in H. pose proof (lo_alive q OK) as Ha. unfold is_alive in Ha.
    destruct (phase q) eqn:Ep.
    + case_decide; simplify_eq/=. by eapply notify_all_lanes_ok.
    + destruct (all_exited q); simplify_eq/=. destruct OK as [? ? ? ? ?].
      destruct (killer q); split; unfold is_alive; simpl; try done; by rewrite <- Ha.
    + destruct (killer q); simplify_eq/=; destruct OK as [? ? ? ? ?]; (split; unfold is_alive; simpl; try done; by rewrite <- Ha).
    + case_decide; simplify_eq/=. destruct OK as [? ? ? ? ?]. split; unfold is_alive; simpl; try done; by rewrite <- Ha.
    + done.
Qed.

(** ** Background tasks *)
Definition background_room (q : Queue) : Prop :=
  (0 <= backgroundTaskMax (config q))%Z /\ (Z.of_nat (length (lanes q)) + backgroundTaskMax (config q) < 2 ^ 32)%Z.

Record background_ok (q : Queue) : Prop := {
  bo_room : background_room q;
  bo_count : backgroundTaskCount q = Z.of_nat (length (background q) + total rejecting (lanes q));
  bo_max : (Z.of_nat (length (background q)) <= backgroundTaskMax (config q))%Z }.

Lemma u32_small z : (0 <= z < 2 ^ 32)%Z -> u32 z = z.
Proof. apply Z.mod_small. Qed.

Lemma rejecting_le ls : (total rejecting ls <= length ls)%nat.
Proof. apply total_le. by intros []; simpl; lia. Qed.

(** Steps that do not touch the counter, the threads or the lanes in between. *)
Lemma background_ok_frame q q' : background_ok q -> config q' = config q -> length (lanes q') = length (lanes q) ->
  total rejecting (lanes q') = total rejecting (lanes q) -> backgroundTaskCount q' = backgroundTaskCount q ->
  length (background q') = length (background q) -> background_ok q'.
Proof.
  intros [[R1 R2] Hc Hm] Ec El Er Eb Et. split; [split|..]; by rewrite ?Ec, ?El, ?Er, ?Eb, ?Et.
Qed.

Lemma rejecting_set q i l p : lanes q !! i = Some l ->
  (total rejecting (lanes (set_pc i p q)) + rejecting (pc l) = total rejecting (lanes q) + rejecting p)%nat
  /\ length (lanes (set_pc i p q)) = length (lanes q).
Proof. intros Hi. split; [exact (total_set rejecting (fun l => mkLane (jobCount l) p) _ _ _ Hi)|apply length_alter_lanes]. Qed.

Lemma background_ok_set q q' i l p : background_ok q -> lanes q !! i = Some l -> rejecting p = rejecting (pc l) ->
  lanes q' = lanes (set_pc i p q) -> config q' = config q -> backgroundTaskCount q' = backgroundTaskCount q ->
  length (background q') = length (background q) -> background_ok q'.
Proof.
  intros OK Hi Er El Ec Eb Et. destruct (rejecting_set q i l p Hi) as [H1 H2].
  eapply background_ok_frame; [exact OK|done|by rewrite El|rewrite El; lia|done|done].
Qed.

Lemma notify_one_background k q q' : notify_one k q = Some q' -> background_ok q -> background_ok q'.
Proof.
  intros [[-> _]|(i & n & _ & Hi & ->)]%notify_one_spec OK; [done|]. by eapply background_ok_set with (p := AtLock).
Qed.

Lemma addJob_background j p k q q' : background_ok q -> addJob j p k q = Some (Ok q') -> background_ok q'.
Proof.
  intros OK H. unfold addJob in H. destruct p.
  - destruct (addToScheduler _ _ _); [|done]. destruct (notify_one _ _) eqn:En; simplify_eq/=.
    eapply notify_one_background; [exact En|]. by eapply background_ok_frame.
  - destruct (notify_one _ _) eqn:En; simplify_eq/=.
    eapply notify_one_background; [exact En|]. by eapply background_ok_frame.
Qed.

Lemma notify_all_background q q' : background_ok q -> lanes q' = map wake (lanes q) -> config q' = config q ->
  backgroundTaskCount q' = backgroundTaskCount q -> background q' = background q -> background_ok q'.
Proof.
  intros OK El Ec Eb Et. eapply background_ok_frame; [exact OK|done|by rewrite El, length_map| |done|by rewrite Et].
  rewrite El. by apply total_wake.
Qed.

Lemma cancelEnter_background q b q' : background_ok q -> cancelEnter q = (b, q') -> background_ok q'.
Proof.
  intros OK. unfold cancelEnter. destruct (cancelled q); intros [= <- <-]; [done|]. by eapply notify_all_background.
Qed.

Lemma release_background q i l c p rest : background_ok q -> lanes q !! i = Some l -> pc l = InProcess c p true rest ->
  background_ok (laneRelease i c p rest q).
Proof.
  intros [[R1 R2] Hc Hm] Hi Hpc. unfold laneRelease. pose proof (rejecting_le (lanes q)) as Hle.
  assert (Hu : u32 (backgroundTaskCount q + 1) = (backgroundTaskCount q + 1)%Z).
  { apply u32_small. rewrite Hc. destruct (decide (total rejecting (lanes q) = length (lanes q))) as [E|]; [|lia].
    exfalso. pose proof (total_lt rejecting (lanes q) i l ltac:(by intros []; simpl; lia) Hi ltac:(by rewrite Hpc)). lia. }
  destruct (_ <? _)%Z eqn:E.
  - apply Z.ltb_lt in E. destruct (rejecting_set q i l (Running c rest) Hi) as [H1 H2]. rewrite Hpc in H1. simpl in H1, H2.
    split; [split|..]; simpl; rewrite ?length_app, ?H2, ?Hu; simpl; [done|done|lia|lia].
  - apply Z.ltb_ge in E. destruct (rejecting_set q i l (Rejected c p rest) Hi) as [H1 H2]. rewrite Hpc in H1. simpl in H1, H2.
    split; [split|..]; simpl; rewrite ?H2, ?Hu; [done|done|lia|done].
Qed.

Lemma laneStep_background i m q q' : background_ok q -> laneStep i m q = Some (Ok q') -> background_ok q'.
Proof.
  intros OK H. unfold laneStep in H. destruct (lanes q !! i) as [l|] eqn:Hi; [|done]. cbn in H.
  destruct (pc l) as [| |j|c todo|c r rest|c p rel rest|c p rest|c rest|c rest|] eqn:Hpc; try (by destruct m).
  - destruct m; try done. destruct (laneTop i k q) as [q1|] eqn:E; simplify_eq/=. unfold laneTop in E.
    destruct (empty_ready q); [simplify_eq/=; eapply background_ok_set with (p := if shutdown q then Exited else Waiting); try done; rewrite Hpc; by destruct (shutdown q)|].
    destruct (bool_decide _); destruct (getNextJob _ _ _) as [[j rest]|]; simplify_eq/=;
      (eapply background_ok_set with (p := Got j); try done; by rewrite Hpc).
  - destruct m; try done. injection H as <-. eapply background_ok_set with (p := AtLock); try done. by rewrite Hpc.
  - destruct m; try done. injection H as <-. unfold laneBegin. destruct (getDescriptor j).
    + set (g := fun _ : Lane => mkLane _ _). pose proof (total_set rejecting g _ _ _ Hi) as Hr. subst g. rewrite Hpc in Hr. simpl in Hr.
      eapply background_ok_frame; [exact OK|done|apply length_alter_lanes|simpl; lia|done|done].
    + eapply background_ok_set with (p := Exited); try done. by rewrite Hpc.
  - unfold laneRun in H. destruct todo as [|[j p|r|] rest], m; try done.
    + injection H as <-. eapply background_ok_set with (p := AtLock); try done. by rewrite Hpc.
    + eapply addJob_background; [|exact H]. eapply background_ok_set with (p := Running c rest); try done. by rewrite Hpc.
    + destruct (cancelled q); injection H as <-; [eapply background_ok_set with (p := Running c rest)|eapply background_ok_set with (p := Spawning c r rest)]; try done; by rewrite Hpc.
    + destruct (cancelEnter q) as [b q1] eqn:Ec. injection H as <-.
      pose proof (cancelEnter_lane _ _ _ _ _ Ec Hi ltac:(unfold is_waiting; by rewrite Hpc)) as Hi1.
      eapply background_ok_set with (p := if b then Interrupting c rest else Running c rest); [by eapply cancelEnter_background|exact Hi1|rewrite Hpc; by destruct b|done..].
  - destruct m as [| | |res| |]; try done. injection H as H. unfold laneSpawn in H.
    destruct (isClosed _); [|destruct res as [p|]; [destruct (processEnvironment _ _ _); [|done]|]]; simplify_eq/=;
      [eapply background_ok_set with (p := Running c rest)|eapply background_ok_set with (p := InProcess c p true rest)|eapply background_ok_set with (p := Running c rest)];
      try done; by rewrite Hpc.
  - destruct m; try done; destruct rel; try done; injection H as <-; try (by eapply release_background);
      (eapply background_ok_set with (p := Running c rest); try done; by rewrite Hpc).
  - destruct m; try done. injection H as <-. destruct OK as [[R1 R2] Hc Hm].
    destruct (rejecting_set q i l (InProcess c p false rest) Hi) as [H1 H2]. rewrite Hpc in H1. simpl in H1, H2.
    pose proof (rejecting_le (lanes q)).
    split; [split|..]; simpl; rewrite ?H2; [done|done| |done]. rewrite u32_small; lia.
  - destruct m; try done. injection H as <-. eapply background_ok_set with (p := StartingKiller c rest); try done. by rewrite Hpc.
  - destruct m; try done. injection H as <-. eapply background_ok_set with (p := Running c rest); try done. by rewrite Hpc.
Qed.

Lemma step_background l q q' : background_ok q -> step l q = Some (Ok q') -> background_ok q'.
Proof.
  intros OK H. destruct l; simpl in H.
  - by eapply laneStep_background.
  - destruct (is_alive q); [|done]. by eapply addJob_background.
  - destruct (is_alive q); [|done]. destruct (cancelEnter q) as [b q1] eqn:Ec. injection H as <-.
    pose proof (cancelEnter_background _ _ _ OK Ec) as OK1. destruct b; [|done]. by eapply background_ok_frame.
  - unfold cancellerStep in H. destruct (cancellers q !! i) as [[]|]; simplify_eq/=; by eapply background_ok_frame.
  - unfold backgroundStep in H. destruct (background q !! i) as [[c p|]|] eqn:Eb; simplify_eq/=.
    + eapply background_ok_frame; try done. simpl. apply length_insert.
    + assert (Hq : q' = upd_backgroundTaskCount (fun n => u32 (n - 1)) (upd_background (remove_at i) q)) by (by destruct (phase q); simplify_eq/=).
      clear H. subst q'. destruct OK as [[R1 R2] Hc Hm]. pose proof (lookup_lt_Some _ _ _ Eb).
      pose proof (rejecting_le (lanes q)). unfold remove_at.
      split; [split|..]; simpl; try done; rewrite length_app, length_take, length_drop; [rewrite u32_small; lia|lia].
  - unfold killerStep in H. destruct (killer q); simplify_eq/=; by eapply background_ok_frame.
  - unfold destructorStep in H. repeat split_match; simplify_eq/=; try (by eapply background_ok_frame); by eapply notify_all_background.
Qed.
