(* ===== verification/ExecutionQueueProps.v ===== *)
(** * What the execution queue promises

    Every job that is added is executed exactly once, priority jobs in the order of
    their addition; no wakeup is lost; background tasks stay below their limit; a
    queue that is destroyed drains; cancelling interrupts the processes and no new
    ones are started. *)

From Stdlib Require Import Ascii String Lia ZArith.
From stdpp Require Import base gmap list strings numbers pretty.
From S2P Require Import Prelude Chars Process ExecutionQueue ExecutionQueueInv ExecutionQueueLanes.

(** ** Jobs *)
Record jobs_ok (q : Queue) : Prop := {
  jo_high : added High (trace q) = taken High (trace q) ++ readyPriorityJobs q;
  jo_normal : added Normal (trace q) ≡ₚ taken Normal (trace q) ++ readyJobs q;
  jo_fifo : algorithm (config q) = FIFO -> added Normal (trace q) = taken Normal (trace q) ++ readyJobs q;
  jo_taken : taken High (trace q) ++ taken Normal (trace q) ≡ₚ gather held (lanes q) ++ finished (trace q);
  jo_started : started (trace q) ≡ₚ gather busy (lanes q) ++ finished (trace q) }.

Lemma quiet_nothing evs : forallb quiet evs = true ->
  (forall p, added p evs = []) /\ (forall p, taken p evs = []) /\ started evs = [] /\ finished evs = [].
Proof.
  induction evs as [|e evs IH]; [done|]. simpl. intros [He H]%andb_true_iff. destruct (IH H) as (I1 & I2 & I3 & I4).
  destruct e; try done; simpl; repeat split; done.
Qed.

Lemma added_app p t1 t2 : added p (t1 ++ t2) = added p t1 ++ added p t2.
Proof. apply omap_app. Qed.
Lemma taken_app p t1 t2 : taken p (t1 ++ t2) = taken p t1 ++ taken p t2.
Proof. apply omap_app. Qed.
Lemma started_app t1 t2 : started (t1 ++ t2) = started t1 ++ started t2.
Proof. apply omap_app. Qed.
Lemma finished_app t1 t2 : finished (t1 ++ t2) = finished t1 ++ finished t2.
Proof. apply omap_app. Qed.

Lemma job_effect_ok q q' : config q' = config q -> job_effect q q' -> jobs_ok q -> jobs_ok q'.
Proof.
  intros Ec E [Hh Hn Hf Ht Hs].
  destruct E as [evs He Et [Ep Er] [Lh Lb]|j Et [Lh Lb] Ep Er|j Et [Lh Lb] Ep Er|j Et Ep Er Lh Lb|j k Et Ep Ep' En Lh Lb
    |j Et [Ep Er] Lh Lb|j Et [Ep Er] Lh Lb];
  [destruct (quiet_nothing evs He) as (Q1 & Q2 & Q3 & Q4)|..];
  (split; rewrite ?Ec, Et, ?added_app, ?taken_app, ?started_app, ?finished_app, ?Q1, ?Q2, ?Q3, ?Q4, ?Lh, ?Lb, ?Ep, ?Er, ?Ep';
   simpl; rewrite ?app_nil_r; try done).
  - by rewrite Hh, app_assoc.
  - by rewrite Hn, app_assoc.
  - intros Ef. by rewrite (Hf Ef), app_assoc.
  - by rewrite Hh, Ep, <- app_assoc.
  - rewrite <- app_assoc. simpl. by rewrite <- Permutation_middle, Ht.
  - by rewrite Hh, Ep, app_nil_r.
  - rewrite Hn, <- app_assoc. simpl. by rewrite (getNextJob_perm _ _ _ _ _ En).
  - intros Ef. rewrite (Hf Ef), <- app_assoc. rewrite Ef in En. by rewrite (getNextJob_FIFO _ _ _ _ En).
  - by rewrite app_assoc, Ht, Permutation_app_comm.
  - by rewrite Hs, Permutation_app_comm.
  - rewrite Ht, Lh. by rewrite app_assoc, (Permutation_app_comm _ [j]).
  - rewrite Hs, Lb. by rewrite app_assoc, (Permutation_app_comm _ [j]).
Qed.

(** ** What never changes *)
Lemma addJob_config j p k q q' : addJob j p k q = Some (Ok q') -> config q' = config q.
Proof.
  unfold addJob, notify_one. intros H.
  destruct p; [destruct (addToScheduler _ _ _); [|done]|]; destruct k as [i|]; simpl in H;
    repeat split_match; simplify_eq/=; done.
Qed.

Lemma cancelEnter_config q b q' : cancelEnter q = (b, q') -> config q' = config q.
Proof. unfold cancelEnter. by destruct (cancelled q); intros [= <- <-]. Qed.

Lemma laneStep_config i m q q' : laneStep i m q = Some (Ok q') -> config q' = config q.
Proof.
  unfold laneStep. destruct (lanes q !! i) as [l|]; [|done]. cbn. intros H.
  destruct (pc l) as [| |j|c todo|c r rest|c p rel rest|c p rest|c rest|c rest|]; try (by destruct m; simplify_eq/=).
  - destruct m; try done. unfold laneTop in H. destruct (empty_ready q); simplify_eq/=; [done|].
    destruct (bool_decide _); destruct (getNextJob _ _ _) as [[? ?]|]; by simplify_eq/=.
  - destruct m; try done. injection H as <-. unfold laneBegin. by destruct (getDescriptor j).
  - unfold laneRun in H. destruct todo as [|[j p|r|] rest], m; simplify_eq/=; [done|exact (addJob_config _ _ _ _ _ H)| |].
    + by destruct (cancelled q).
    + destruct (cancelEnter q) as [b q1] eqn:Ec; simplify_eq/=. exact (cancelEnter_config _ _ _ Ec).
  - destruct m as [| | |res| |]; try done. injection H as H. unfold laneSpawn in H.
    destruct (isClosed _); [|destruct res; [destruct (processEnvironment _ _ _); [|done]|]]; by simplify_eq/=.
  - destruct m, rel; simplify_eq/=; try done. unfold laneRelease. by destruct (_ <? _)%Z.
Qed.

Lemma step_config l q q' : step l q = Some (Ok q') -> config q' = config q.
Proof.
  intros H. destruct l; simpl in H.
  - by eapply laneStep_config.
  - destruct (is_alive q); [|done]. by eapply addJob_config.
  - destruct (is_alive q); [|done]. destruct (cancelEnter q) as [[] q1] eqn:Ec; simplify_eq/=; exact (cancelEnter_config _ _ _ Ec).
  - unfold cancellerStep in H. by destruct (cancellers q !! i) as [[]|]; simplify_eq/=.
  - unfold backgroundStep in H. destruct (background q !! i) as [[]|]; simplify_eq/=; [done|]. by destruct (phase q); simplify_eq/=.
  - unfold killerStep in H. by destruct (killer q); simplify_eq/=.
  - unfold destructorStep in H. repeat split_match; by simplify_eq/=.
Qed.

(** ** Cancellation *)
Definition cinterrupting (c : Canceller) : nat := match c with CInterrupting => 1 | CStartingKiller => 0 end.
(** Threads that have cancelled the queue and not yet sent the signals. *)
Definition to_signal (q : Queue) : nat := total interrupting (lanes q) + sum_list_with cinterrupting (cancellers q).

Definition interrupted (q : Queue) : Prop :=
  forall p, processes (spawnedProcesses q) !! p = Some true -> ESignal p SIGINT ∈ trace q.

Record cancel_ok (q : Queue) : Prop := {
  co_closed : closed (spawnedProcesses q) = cancelled q;
  co_signal : cancelled q = true -> (0 < to_signal q)%nat \/ interrupted q }.

(** A step that spawns nothing after cancellation and sends no signal. *)
Lemma cancel_ok_frame q q' evs : cancel_ok q -> trace q' = trace q ++ evs ->
  closed (spawnedProcesses q') = closed (spawnedProcesses q) -> cancelled q' = cancelled q ->
  (closed (spawnedProcesses q) = true -> processes (spawnedProcesses q') ⊆ processes (spawnedProcesses q)) ->
  (to_signal q <= to_signal q')%nat -> cancel_ok q'.
Proof.
  intros [Hc Hs] Et Ecl Eca Hp Hn. split; [congruence|]. rewrite Eca. intros Hca.
  destruct (Hs Hca) as [?|Hi]; [left; lia|right]. intros p Hpp. rewrite Et. apply elem_of_app. left. apply Hi.
  eapply lookup_weaken; [exact Hpp|]. apply Hp. congruence.
Qed.

Lemma to_signal_set q i l p : lanes q !! i = Some l ->
  (to_signal (set_pc i p q) + interrupting (pc l) = to_signal q + interrupting p)%nat.
Proof.
  intros Hi. unfold to_signal. pose proof (total_set interrupting (fun l => mkLane (jobCount l) p) _ _ _ Hi) as H. simpl in *. lia.
Qed.

Lemma cancel_ok_set q q' i l p evs : cancel_ok q -> lanes q !! i = Some l -> interrupting (pc l) = 0%nat ->
  lanes q' = lanes (set_pc i p q) -> cancellers q' = cancellers q -> trace q' = trace q ++ evs ->
  closed (spawnedProcesses q') = closed (spawnedProcesses q) -> cancelled q' = cancelled q ->
  (closed (spawnedProcesses q) = true -> processes (spawnedProcesses q') ⊆ processes (spawnedProcesses q)) ->
  cancel_ok q'.
Proof.
  intros OK Hi H0 El Ec Et Ecl Eca Hp. eapply cancel_ok_frame; [exact OK|exact Et|done..|].
  pose proof (to_signal_set q i l p Hi). unfold to_signal in *. rewrite El, Ec. simpl in *. lia.
Qed.

Lemma signals_sent q g : interrupted (upd_lanes g (signalProcesses SIGINT q)).
Proof.
  intros p Hp. simpl. apply elem_of_app. right. apply list_elem_of_fmap. exists (p, SIGINT). split; [done|].
  apply elem_of_signalAll. split; [done|]. by exists true.
Qed.

Lemma notify_one_cancel k q q' : notify_one k q = Some q' -> cancel_ok q -> cancel_ok q'.
Proof.
  intros [[-> _]|(i & n & _ & Hi & ->)]%notify_one_spec OK; [done|].
  eapply cancel_ok_set with (p := AtLock) (evs := []); try done. simpl. by rewrite app_nil_r.
Qed.

Lemma addJob_cancel j p k q q' : cancel_ok q -> addJob j p k q = Some (Ok q') -> cancel_ok q'.
Proof.
  intros OK H. unfold addJob in H. destruct p.
  - destruct (addToScheduler _ _ _); [|done]. destruct (notify_one _ _) eqn:En; simplify_eq/=.
    eapply notify_one_cancel; [exact En|]. by eapply cancel_ok_frame.
  - destruct (notify_one _ _) eqn:En; simplify_eq/=.
    eapply notify_one_cancel; [exact En|]. by eapply cancel_ok_frame.
Qed.

Lemma to_signal_wake q q' : lanes q' = map wake (lanes q) -> cancellers q' = cancellers q -> to_signal q' = to_signal q.
Proof. intros El Ec. unfold to_signal. rewrite El, Ec. by rewrite total_wake. Qed.

(** After the locked region a thread is about to send the signals. *)
Lemma cancel_entered q q1 q2 : cancel_ok q -> cancelEnter q = (true, q1) ->
  closed (spawnedProcesses q2) = closed (spawnedProcesses q1) -> cancelled q2 = cancelled q1 -> (0 < to_signal q2)%nat -> cancel_ok q2.
Proof.
  intros OK. unfold cancelEnter. destruct (cancelled q); intros [= <-] Ecl Eca Hn. split; [by rewrite Ecl, Eca|by left].
Qed.

Lemma laneStep_cancel i m q q' : cancel_ok q -> laneStep i m q = Some (Ok q') -> cancel_ok q'.
Proof.
  intros OK H. unfold laneStep in H. destruct (lanes q !! i) as [l|] eqn:Hi; [|done]. cbn in H.
  assert (Hset : forall p, interrupting (pc l) = 0%nat -> forall q' evs,
    lanes q' = lanes (set_pc i p q) -> cancellers q' = cancellers q -> trace q' = trace q ++ evs ->
    closed (spawnedProcesses q') = closed (spawnedProcesses q) -> cancelled q' = cancelled q ->
    (closed (spawnedProcesses q) = true -> processes (spawnedProcesses q') ⊆ processes (spawnedProcesses q)) ->
    cancel_ok q') by (intros; by eapply cancel_ok_set).
  destruct (pc l) as [| |j|c todo|c r rest|c p rel rest|c p rest|c rest|c rest|] eqn:Hpc; try (by destruct m).
  - destruct m; try done. destruct (laneTop i k q) as [q1|] eqn:E; simplify_eq/=. unfold laneTop in E.
    destruct (empty_ready q); [simplify_eq/=; eapply (Hset _ eq_refl) with (evs := []); simpl; rewrite ?app_nil_r; done|].
    destruct (bool_decide _); destruct (getNextJob _ _ _) as [[j rest]|]; simplify_eq/=; by eapply (Hset (Got j)).
  - destruct m; try done. injection H as <-. eapply (Hset AtLock) with (evs := []); simpl; rewrite ?app_nil_r; done.
  - destruct m; try done. injection H as <-. unfold laneBegin. destruct (getDescriptor j).
    + set (g := fun _ : Lane => mkLane _ _). pose proof (total_set interrupting g _ _ _ Hi) as Hr. subst g. rewrite Hpc in Hr. simpl in Hr.
      eapply cancel_ok_frame; [exact OK|reflexivity|done..|]. unfold to_signal. simpl. lia.
    + eapply (Hset Exited) with (evs := []); simpl; rewrite ?app_nil_r; done.
  - unfold laneRun in H. destruct todo as [|[j p|r|] rest], m; try done.
    + injection H as <-. by eapply (Hset AtLock).
    + eapply addJob_cancel; [|exact H]. eapply (Hset (Running c rest)) with (evs := []); simpl; rewrite ?app_nil_r; done.
    + destruct (cancelled q) eqn:Eca; injection H as <-; [eapply (Hset (Running c rest)); simpl; try done; by rewrite Eca|].
      eapply (Hset (Spawning c r rest)) with (evs := []); simpl; rewrite ?app_nil_r, ?Eca; done.
    + destruct (cancelEnter q) as [b q1] eqn:Ec. injection H as <-.
      pose proof (cancelEnter_lane _ _ _ _ _ Ec Hi ltac:(unfold is_waiting; by rewrite Hpc)) as Hi1. destruct b.
      * eapply cancel_entered; [exact OK|exact Ec|done|done|].
        pose proof (to_signal_set q1 i l (Interrupting c rest) Hi1). rewrite Hpc in *. simpl in *. lia.
      * unfold cancelEnter in Ec. destruct (cancelled q) eqn:Eca; simplify_eq.
        eapply (Hset (Running c rest)) with (evs := []); simpl; rewrite ?app_nil_r, ?Eca; done.
  - destruct m as [| | |res| |]; try done. injection H as H. unfold laneSpawn, isClosed in H.
    destruct (closed _) eqn:Ecl; [simplify_eq/=; by eapply (Hset (Running c rest)); simpl; rewrite ?Ecl|].
    destruct res as [p|]; [destruct (processEnvironment _ _ _); [|done]|]; simplify_eq/=.
    + eapply (Hset (InProcess c p true rest)); simpl; try done; rewrite ?Ecl; try done.
      unfold add_process. by destruct (processes _ !! p).
    + by eapply (Hset (Running c rest)); simpl; rewrite ?Ecl.
  - destruct m; try done; destruct rel; try done; injection H as <-;
      try (eapply (Hset (Running c rest)); simpl; try done; intros _; apply delete_subseteq).
    unfold laneRelease. destruct (_ <? _)%Z;
      [eapply (Hset (Running c rest)) with (evs := [])|eapply (Hset (Rejected c p rest)) with (evs := [])]; simpl; rewrite ?app_nil_r; done.
  - destruct m; try done. injection H as <-. eapply (Hset (InProcess c p false rest)) with (evs := []); simpl; rewrite ?app_nil_r; done.
  - destruct m; try done. injection H as <-. destruct OK as [Hc Hs]. split; [done|]. right. apply signals_sent.
  - destruct m; try done. injection H as <-. eapply (Hset (Running c rest)) with (evs := []); simpl; rewrite ?app_nil_r; done.
Qed.

Lemma step_cancel l q q' : cancel_ok q -> step l q = Some (Ok q') -> cancel_ok q'.
Proof.
  intros OK H. destruct l; simpl in H.
  - by eapply laneStep_cancel.
  - destruct (is_alive q); [|done]. by eapply addJob_cancel.
  - destruct (is_alive q); [|done]. destruct (cancelEnter q) as [b q1] eqn:Ec. injection H as <-. destruct b.
    + eapply cancel_entered; [exact OK|exact Ec|done|done|]. unfold to_signal. simpl. rewrite sum_list_with_app. simpl. lia.
    + unfold cancelEnter in Ec. by destruct (cancelled q); simplify_eq.
  - unfold cancellerStep in H. destruct (cancellers q !! i) as [[]|] eqn:Ei; simplify_eq/=.
    + destruct OK as [Hc Hs]. split; [done|]. right. apply (signals_sent q (fun l => l)).
    + eapply cancel_ok_frame with (evs := []); [exact OK|simpl; by rewrite app_nil_r|done..|]. unfold to_signal, remove_at. simpl.
      rewrite sum_list_with_app. pose proof (take_drop_middle _ _ _ Ei) as E. rewrite <- E at 1. rewrite sum_list_with_app. simpl. lia.
  - unfold backgroundStep in H. destruct (background q !! i) as [[c p|]|]; simplify_eq/=.
    + eapply cancel_ok_frame; [exact OK|reflexivity|done|done| |done]. intros _. apply delete_subseteq.
    + destruct (phase q); simplify_eq/=; (eapply cancel_ok_frame with (evs := []); [exact OK|simpl; by rewrite app_nil_r|done..]).
  - unfold killerStep in H. destruct (killer q); simplify_eq/=;
      try (eapply cancel_ok_frame with (evs := []); [exact OK|simpl; by rewrite app_nil_r|done..]).
    eapply cancel_ok_frame; [exact OK|reflexivity|done..].
  - unfold destructorStep in H. repeat split_match; simplify_eq/=;
      (eapply cancel_ok_frame with (evs := []); [exact OK|simpl; by rewrite app_nil_r|done..|]); try done.
    apply Nat.eq_le_incl. symmetry. by apply to_signal_wake.
Qed.

(** ** The invariant *)
Record queue_ok (q : Queue) : Prop := {
  qo_described : jobs_described q;
  qo_jobs : jobs_ok q;
  qo_lanes : lanes_ok q;
  qo_background : background_ok q;
  qo_cancel : cancel_ok q }.

Lemma step_ok l q q' : label_ok l = true -> queue_ok q -> step l q = Some (Ok q') -> queue_ok q'.
Proof.
  intros Hl [D J L B C] H. split.
  - by eapply step_described.
  - eapply job_effect_ok; [by eapply step_config|by eapply step_effect|done].
  - by eapply step_lanes_ok.
  - by eapply step_background.
  - by eapply step_cancel.
Qed.

(** The limits of a queue: those of the open files, of the lanes asked for, and of 32 bits. *)
Lemma limits_ok limit override n fg bg : (0 <= limit)%Z -> (0 <= n)%Z -> (forall o, override = Some o -> (0 <= o)%Z) ->
  estimateTaskLimits limit override n = (fg, bg) ->
  (0 <= fg /\ 0 <= bg /\ fg + bg < 2 ^ 32 /\ fg <= Z.max 1 n
   /\ (reservedFileCount + 2 <= limit -> 2 * (fg + bg) + reservedFileCount <= limit))%Z.
Proof.
  intros Hl Hn Ho. unfold estimateTaskLimits. assert (reservedFileCount = 10)%Z as -> by reflexivity.
  assert (INT_MAX = 2147483647)%Z as -> by reflexivity.
  destruct (limit <? 10)%Z eqn:E; [intros [= <- <-]; lia|]. apply Z.ltb_ge in E.
  rewrite (u32_small (_ - 10)) by lia.
  pose proof (Z.div_mod (Z.min limit 2147483647 - 10) 2 ltac:(lia)) as Hdiv.
  pose proof (Z.mod_pos_bound (Z.min limit 2147483647 - 10) 2 ltac:(lia)) as Hmod.
  set (mx := ((Z.min limit 2147483647 - 10) / 2)%Z) in *.
  destruct (mx <? n)%Z eqn:E2; [intros [= <- <-]; lia|]. apply Z.ltb_ge in E2.
  rewrite (u32_small (mx - n)) by lia. intros [= <- <-].
  assert (0 <= match override with Some o => o | None => Z.min 1024 (u32 (n * 64)) end)%Z.
  { destruct override as [o|]; [by apply Ho|]. pose proof (Z.mod_pos_bound (n * 64) (2 ^ 32) ltac:(lia)). unfold u32. lia. }
  lia.
Qed.

Lemma gather_new {A} (f : LanePC -> list A) n : f AtLock = [] -> gather f (replicate n newLane) = [].
Proof. intros Hf. unfold gather. induction n as [|n IH]; [done|]. simpl. by rewrite Hf, IH. Qed.
Lemma total_new f n : f AtLock = 0%nat -> total f (replicate n newLane) = 0%nat.
Proof. intros Hf. unfold total. induction n as [|n IH]; [done|]. simpl. by rewrite Hf, IH. Qed.

(** Arguments with which a queue is created. *)
Record Creation := mkCreation {
  cr_alg : SchedulerAlgorithm; cr_buildID : Z; cr_env : list chars;
  cr_limit : Z; cr_override : option Z; cr_lanes : Z }.
Definition create (c : Creation) : Queue :=
  newQueue (cr_alg c) (cr_buildID c) (cr_env c) (estimateTaskLimits (cr_limit c) (cr_override c) (cr_lanes c)).
Definition creation_ok (c : Creation) : Prop :=
  (0 <= cr_limit c)%Z /\ (0 <= cr_lanes c)%Z /\ forall o, cr_override c = Some o -> (0 <= o)%Z.

Lemma create_ok c : creation_ok c -> queue_ok (create c).
Proof.
  intros (Hl & Hn & Ho). unfold create. destruct (estimateTaskLimits _ _ _) as [fg bg] eqn:E.
  destruct (limits_ok _ _ _ _ _ Hl Hn Ho E) as (H1 & H2 & H3 & _).
  split.
  - unfold jobs_described. simpl. by rewrite gather_new.
  - split; simpl; try done; by rewrite gather_new.
  - split; unfold ready_count; simpl; rewrite ?total_new by done; try done; lia.
  - split; [split|..]; simpl; rewrite ?length_replicate, ?total_new by done; lia.
  - by split.
Qed.

Lemma reachable_ok c q : creation_ok c -> reachable (create c) q -> queue_ok q.
Proof. intros Hc R. induction R as [|q l q' R IH Hl Hs]; [by apply create_ok|by eapply step_ok]. Qed.

(** A lane executes a job, or has taken one. *)
Definition working (l : Lane) : bool := inside (pc l).

Lemma nobody_sleeps q : lanes_ok q -> total at_lock (lanes q) = 0%nat -> (0 < ready_count q)%nat -> shutdown q = false ->
  forall i l, lanes q !! i = Some l -> working l = true.
Proof.
  intros [Hw Hs Ha He Hd] H0 Hr Hsd i l Hi. unfold working.
  pose proof (total_pos at_lock _ _ _ Hi). pose proof (total_pos sleeping _ _ _ Hi). pose proof (total_pos left_ _ _ _ Hi).
  assert (total sleeping (lanes q) = 0)%nat by (destruct (total sleeping (lanes q)); [done|]; exfalso; lia).
  assert (total left_ (lanes q) = 0)%nat.
  { destruct (total left_ (lanes q)); [done|]. rewrite He in Hsd by lia. done. }
  destruct (pc l); simpl in *; lia || done.
Qed.

Lemma everything_somewhere q : jobs_ok q -> added High (trace q) ++ added Normal (trace q)
  ≡ₚ (readyPriorityJobs q ++ readyJobs q) ++ gather held (lanes q) ++ finished (trace q).
Proof. intros [Jh Jn Jf Jt Js]. rewrite Jh, Jn, <- Jt. solve_Permutation. Qed.

Lemma all_finished q : queue_ok q -> (0 < length (lanes q))%nat -> all_exited q = true ->
  finished (trace q) ≡ₚ added High (trace q) ++ added Normal (trace q).
Proof.
  intros [D J L B C] Hlen Hex. rewrite (everything_somewhere q J). apply all_exited_count in Hex as Hn.
  pose proof (lo_drained q L Hlen Hn) as Hr. unfold ready_count in Hr.
  assert (readyPriorityJobs q = [] /\ readyJobs q = []) as [-> ->].
  { split; apply length_zero_iff_nil; lia. }
  enough (gather held (lanes q) = []) as -> by done.
  clear -Hex. unfold all_exited in Hex. unfold gather.
  induction (lanes q) as [|[n p] ls IH]; [done|]. simpl in Hex. apply andb_true_iff in Hex as [Hp Hls].
  simpl. rewrite (IH Hls). by destruct p.
Qed.

(** C34: In every reachable state of an execution queue: priority jobs are taken in the
    order in which they were added (ordinary jobs too under the FIFO algorithm), every
    added job waits, is held by one lane or has finished, and is in one of these places
    only; the delegate was told of the start of exactly the jobs that are being
    executed or have finished.  When jobs wait in a live queue, a lane is about to take
    one or all lanes work: no wakeup is lost.  At most [backgroundTaskMax] processes
    run in the background.  When all lanes have left, every added job has finished. *)
Theorem queue_invariant c q : creation_ok c -> reachable (create c) q ->
  added High (trace q) = taken High (trace q) ++ readyPriorityJobs q
  /\ (algorithm (config q) = FIFO -> added Normal (trace q) = taken Normal (trace q) ++ readyJobs q)
  /\ added High (trace q) ++ added Normal (trace q)
       ≡ₚ (readyPriorityJobs q ++ readyJobs q) ++ gather held (lanes q) ++ finished (trace q)
  /\ started (trace q) ≡ₚ gather busy (lanes q) ++ finished (trace q)
  /\ ((0 < ready_count q)%nat -> shutdown q = false ->
        (0 < total at_lock (lanes q))%nat \/ forall i l, lanes q !! i = Some l -> working l = true)
  /\ (Z.of_nat (length (background q)) <= backgroundTaskMax (config q))%Z
  /\ ((0 < length (lanes q))%nat -> all_exited q = true ->
        finished (trace q) ≡ₚ added High (trace q) ++ added Normal (trace q)).
Proof.
  intros Hc R. pose proof (reachable_ok c q Hc R) as OK. pose proof OK as [D J L B C]. pose proof J as [Jh Jn Jf Jt Js].
  split; [done|]. split; [done|]. split; [by apply everything_somewhere|]. split; [done|].
  split; [|split; [apply (bo_max q B)|by apply all_finished]].
  intros Hr Hs. destruct (total at_lock (lanes q)) eqn:E; [right|left; lia]. by apply nobody_sleeps.
Qed.

(** ** Concrete runs *)
Lemma labels_reachable q0 ls : forall q q', reachable q0 q -> forallb label_ok ls = true ->
  run ls q = Some (Ok q') -> reachable q0 q'.
Proof.
  induction ls as [|l ls IH]; intros q q' R Hok H; simpl in *; [by simplify_eq|].
  apply andb_true_iff in Hok as [Hl Hls]. destruct (step l q) as [[q1|]|] eqn:E; try done.
  eapply IH; [|exact Hls|exact H]. by eapply reach_step.
Qed.

Definition demo_request (safe : bool) : ProcessRequest :=
  mkRequest [chars_of "/bin/true"] [] (mkAttributes safe false [] true true).
Definition plain_job (name : string) : QueueJob := mkJob (Some name) [].
Definition process_job (name : string) : QueueJob := mkJob (Some name) [ExecuteProcess (demo_request true)].

Definition demo_creation : Creation := mkCreation FIFO 7 [chars_of "PATH=/bin"] 100 None 2.
Lemma demo_creation_ok : creation_ok demo_creation.
Proof. split; [done|]. split; [done|]. intros o [=]. Qed.

(** Two jobs are added, the second with priority; a lane sleeps, is woken and takes it. *)
Definition demo_labels : list Label :=
  [LaneL 1 (MGo 0); ClientAdd (process_job "a") Normal (Some 1); ClientAdd (plain_job "b") High None;
   LaneL 1 (MGo 0); LaneL 1 (MGo 0); LaneL 0 (MGo 0); LaneL 0 (MGo 0); LaneL 0 (MGo 0); LaneL 0 (MSpawn (Some 50%Z));
   LaneL 1 (MGo 0); LaneL 0 MRelease].
Definition demo_queue : Queue :=
  match run demo_labels (create demo_creation) with Some (Ok q) => q | _ => create demo_creation end.

Lemma demo_reachable : reachable (create demo_creation) demo_queue.
Proof. eapply (labels_reachable _ demo_labels); [constructor|reflexivity|vm_compute; reflexivity]. Qed.

Lemma queue_invariant_witness :
  taken High (trace demo_queue) = [plain_job "b"]
  /\ added High (trace demo_queue) = taken High (trace demo_queue) ++ readyPriorityJobs demo_queue.
Proof.
  split; [vm_compute; reflexivity|].
  destruct (queue_invariant demo_creation demo_queue demo_creation_ok demo_reachable) as [H _]. exact H.
Defined.

(** ** Cancelling *)
Lemma laneStep_no_spawn i m q q' : closed (spawnedProcesses q) = true -> cancelled q = true -> laneStep i m q = Some (Ok q') ->
  processes (spawnedProcesses q') ⊆ processes (spawnedProcesses q) /\ cancelled q' = true.
Proof.
  intros Hcl Hca H. unfold laneStep in H. destruct (lanes q !! i) as [l|]; [|done]. cbn in H.
  destruct (pc l) as [| |j|c todo|c r rest|c p rel rest|c p rest|c rest|c rest|]; try (by destruct m; simplify_eq/=).
  - destruct m; try done. unfold laneTop in H. destruct (empty_ready q); simplify_eq/=; [done|].
    destruct (bool_decide _); destruct (getNextJob _ _ _) as [[? ?]|]; by simplify_eq/=.
  - destruct m; try done. injection H as <-. unfold laneBegin. by destruct (getDescriptor j).
  - unfold laneRun in H. destruct todo as [|[j p|r|] rest], m; simplify_eq/=; [done| | |].
    + unfold addJob, notify_one in H. repeat (split_match; simplify_eq/=); done.
    + by rewrite Hca.
    + unfold cancelEnter in H. rewrite Hca in H. by simplify_eq/=.
  - destruct m as [| | |res| |]; try done. injection H as H. unfold laneSpawn, isClosed in H. rewrite Hcl in H. by simplify_eq/=.
  - destruct m, rel; simplify_eq/=; try (split; [apply delete_subseteq|done]). unfold laneRelease. by destruct (_ <? _)%Z.
Qed.

Lemma step_no_spawn l q q' : closed (spawnedProcesses q) = true -> cancelled q = true -> step l q = Some (Ok q') ->
  processes (spawnedProcesses q') ⊆ processes (spawnedProcesses q) /\ cancelled q' = true.
Proof.
  intros Hcl Hca H. destruct l; simpl in H.
  - by eapply laneStep_no_spawn.
  - destruct (is_alive q); [|done]. unfold addJob, notify_one in H. repeat (split_match; simplify_eq/=); done.
  - destruct (is_alive q); [|done]. unfold cancelEnter in H. rewrite Hca in H. by simplify_eq/=.
  - unfold cancellerStep in H. by destruct (cancellers q !! i) as [[]|]; simplify_eq/=.
  - unfold backgroundStep in H. destruct (background q !! i) as [[]|]; simplify_eq/=; [split; [apply delete_subseteq|done]|].
    by destruct (phase q); simplify_eq/=.
  - unfold killerStep in H. by destruct (killer q); simplify_eq/=.
  - unfold destructorStep in H. repeat split_match; by simplify_eq/=.
Qed.

(** C36: Once the queue is cancelled it stays so, no step of any thread adds a process
    to the group, and as soon as the cancelling thread has left the signalling region
    every remaining process that may be interrupted was sent SIGINT. *)
Theorem cancel_interrupts c q : creation_ok c -> reachable (create c) q -> cancelled q = true ->
  (forall l q', step l q = Some (Ok q') ->
     processes (spawnedProcesses q') ⊆ processes (spawnedProcesses q) /\ cancelled q' = true)
  /\ (to_signal q = 0%nat -> forall p, processes (spawnedProcesses q) !! p = Some true -> ESignal p SIGINT ∈ trace q).
Proof.
  intros Hc R Hca. destruct (qo_cancel q (reachable_ok c q Hc R)) as [Hcl Hs]. split.
  - intros l q'. apply step_no_spawn; congruence.
  - intros H0. destruct (Hs Hca) as [?|H]; [lia|exact H].
Qed.

Definition cancel_queue : Queue :=
  match run [ClientCancel; CancellerL 0] demo_queue with Some (Ok q) => q | _ => demo_queue end.

Lemma cancel_reachable : reachable (create demo_creation) cancel_queue.
Proof. eapply (labels_reachable _ [ClientCancel; CancellerL 0]); [exact demo_reachable|reflexivity|vm_compute; reflexivity]. Qed.

Lemma cancel_interrupts_witness : ESignal 50 SIGINT ∈ trace cancel_queue.
Proof.
  apply (proj2 (cancel_interrupts demo_creation cancel_queue demo_creation_ok cancel_reachable ltac:(vm_compute; reflexivity)));
    vm_compute; reflexivity.
Defined.

(** ** Findings *)

(** The destructor does not wait for background threads: one that has taken its
    process out of the group still decrements a counter of the destroyed queue. *)
Example background_outlives_queue :
  run [BackgroundL 0 Succeeded; DestructorL; LaneL 1 (MGo 0); LaneL 0 (MGo 0); LaneL 0 (MGo 0);
       DestructorL; DestructorL; DestructorL; BackgroundL 0 Succeeded] demo_queue
  = Some (Crash (UseAfterFree "backgroundTaskCount")).
Proof. vm_compute. reflexivity. Qed.

(** Job identifiers: only 16 bits of the build ID are kept, and the count of a lane
    runs into the bits of the lane number. *)
Example lane_id_drops_build_bits : laneID (2 ^ 16) 0 = laneID 0 0.
Proof. reflexivity. Qed.
Example job_ids_collide : newJobID 7 0 65537 = newJobID 7 1 1.
Proof. reflexivity. Qed.
