(* ===== verification/ExecutionQueueLive.v ===== *)
(** * The execution queue drains

    After the destructor has shut the queue down every lane that has not left can take
    a step, each of its steps uses up work, and no other thread makes new work.  Under
    weak fairness (a lane that can take a step for ever takes one, in particular the
    processes it waits for end) all lanes leave and every job has been executed. *)

From Stdlib Require Import Ascii String OrderedTypeEx Lia ZArith.
From stdpp Require Import base gmap list strings numbers pretty.
From S2P Require Import Prelude Chars Process ExecutionQueue ExecutionQueueInv ExecutionQueueLanes ExecutionQueueProps.

(** ** The work that is left *)
Fixpoint job_size (j : QueueJob) : nat :=
  match j with
  | mkJob _ w =>
      3 + sum_list_with (fun a => match a with AddJob j' _ => 1 + job_size j' | ExecuteProcess _ => 6 | CancelAllJobs => 3 end) w
  end.
Definition action_size (a : JobAction) : nat :=
  match a with AddJob j _ => 1 + job_size j | ExecuteProcess _ => 6 | CancelAllJobs => 3 end.
Definition work_size (todo : list JobAction) : nat := sum_list_with action_size todo.

Definition weight (p : LanePC) : nat :=
  match p with
  | AtLock | Waiting => 1
  | Got j => job_size j
  | Running _ t => 2 + work_size t
  | Spawning _ _ t => 7 + work_size t
  | InProcess _ _ true t => 6 + work_size t
  | Rejected _ _ t => 5 + work_size t
  | InProcess _ _ false t => 4 + work_size t
  | Interrupting _ t => 4 + work_size t
  | StartingKiller _ t => 3 + work_size t
  | Exited => 0
  end.

Definition jobs_size (js : list QueueJob) : nat := sum_list_with job_size js.
Definition remaining (q : Queue) : nat :=
  jobs_size (readyPriorityJobs q) + jobs_size (readyJobs q) + total weight (lanes q).

Lemma job_size_work j : job_size j = (3 + work_size (jobWork j))%nat.
Proof. by destruct j. Qed.

Lemma jobs_size_app js1 js2 : jobs_size (js1 ++ js2) = (jobs_size js1 + jobs_size js2)%nat.
Proof. apply sum_list_with_app. Qed.

Lemma jobs_size_next alg k js j rest : getNextJob alg k js = Some (j, rest) -> jobs_size js = (job_size j + jobs_size rest)%nat.
Proof.
  intros E%getNextJob_perm. unfold jobs_size.
  assert (Hp : forall l1 l2 : list QueueJob, l1 ≡ₚ l2 -> sum_list_with job_size l1 = sum_list_with job_size l2).
  { intros l1 l2 P. induction P; simpl in *; lia. }
  by rewrite (Hp _ _ E).
Qed.

Lemma weight_set q i l p : lanes q !! i = Some l ->
  (total weight (lanes (set_pc i p q)) + weight (pc l) = total weight (lanes q) + weight p)%nat.
Proof. intros Hi. exact (total_set weight (fun l => mkLane (jobCount l) p) _ _ _ Hi). Qed.

Lemma notify_one_remaining k q q' : notify_one k q = Some q' -> remaining q' = remaining q.
Proof.
  intros [[-> _]|(i & n & _ & Hi & ->)]%notify_one_spec; [done|].
  pose proof (weight_set q i _ AtLock Hi) as H. unfold remaining. simpl in *. lia.
Qed.

Lemma addJob_remaining j p k q q' : addJob j p k q = Some (Ok q') -> remaining q' = (remaining q + job_size j)%nat.
Proof.
  unfold addJob. destruct p.
  - destruct (addToScheduler _ _ _) as [js|] eqn:E; [|done]. apply addToScheduler_snoc in E as ->.
    destruct (notify_one _ _) eqn:En; intros; simplify_eq/=. rewrite (notify_one_remaining _ _ _ En).
    unfold remaining. simpl. rewrite jobs_size_app. unfold jobs_size. simpl. lia.
  - destruct (notify_one _ _) eqn:En; intros; simplify_eq/=. rewrite (notify_one_remaining _ _ _ En).
    unfold remaining. simpl. rewrite jobs_size_app. unfold jobs_size. simpl. lia.
Qed.

Lemma cancelEnter_remaining q b q' : cancelEnter q = (b, q') -> remaining q' = remaining q.
Proof.
  unfold cancelEnter. destruct (cancelled q); intros [= <- <-]; [done|]. unfold remaining. simpl. by rewrite total_wake.
Qed.

Lemma no_sleeping_lane q i l : lanes_ok q -> shutdown q = true -> lanes q !! i = Some l -> pc l <> Waiting.
Proof.
  intros L Hs Hi Hp. pose proof (total_pos sleeping _ _ _ Hi) as H. rewrite Hp in H. simpl in H.
  rewrite (lo_shutdown q L Hs) in H. lia.
Qed.

(** Every step of a lane of a queue that is shut down uses up work. *)
Lemma laneStep_remaining i m q q' : jobs_described q -> lanes_ok q -> shutdown q = true -> laneStep i m q = Some (Ok q') ->
  (remaining q' < remaining q)%nat.
Proof.
  intros D L Hs H. unfold laneStep in H. destruct (lanes q !! i) as [l|] eqn:Hi; [|done]. cbn in H.
  pose proof (no_sleeping_lane q i l L Hs Hi) as Hns.
  assert (Hset : forall p q', readyJobs q' = readyJobs q -> readyPriorityJobs q' = readyPriorityJobs q ->
     lanes q' = lanes (set_pc i p q) -> (weight p < weight (pc l))%nat -> (remaining q' < remaining q)%nat).
  { intros p q1 Er Ep El Hw. pose proof (weight_set q i l p Hi). unfold remaining. rewrite Er, Ep, El. lia. }
  destruct (pc l) as [| |j|c todo|c r rest|c p rel rest|c p rest|c rest|c rest|] eqn:Hpc; try (by destruct m).
  - destruct m; try done. unfold laneTop in H. destruct (empty_ready q); simplify_eq/=.
    { rewrite Hs. eapply (Hset Exited); try done. simpl. lia. }
    destruct (bool_decide _); destruct (getNextJob _ _ _) as [[j rest]|] eqn:En; simplify_eq/=;
      apply jobs_size_next in En; pose proof (weight_set q i l (Got j) Hi) as Hw; rewrite Hpc in Hw;
      unfold remaining; simpl in *; lia.
  - destruct m; try done. injection H as <-. pose proof (proj1 (jobs_described_split q) D) as [_ Hg].
    pose proof (Forall_gather_at _ _ _ Hi Hg) as Hm. rewrite Hpc in Hm. inversion Hm as [|? ? Hj _]; subst.
    destruct (described_work _ Hj) as [[d Hd] _]. unfold laneBegin. rewrite Hd.
    set (g := fun _ : Lane => mkLane _ _). pose proof (total_set weight g _ _ _ Hi) as Hw. subst g. rewrite Hpc in Hw.
    unfold remaining. simpl in *. rewrite job_size_work in Hw. lia.
  - unfold laneRun in H. destruct todo as [|[j p|r|] rest], m; simplify_eq/=.
    + eapply (Hset AtLock); try done. simpl. lia.
    + apply addJob_remaining in H. rewrite H. pose proof (weight_set q i l (Running c rest) Hi) as Hw. rewrite Hpc in Hw.
      unfold remaining. simpl in *. lia.
    + destruct (cancelled q); [eapply (Hset (Running c rest))|eapply (Hset (Spawning c r rest))]; try done; simpl; lia.
    + destruct (cancelEnter q) as [b q1] eqn:Ec. injection H as <-.
      pose proof (cancelEnter_lane _ _ _ _ _ Ec Hi ltac:(unfold is_waiting; by rewrite Hpc)) as Hi1.
      rewrite <- (cancelEnter_remaining _ _ _ Ec).
      pose proof (weight_set q1 i l (if b then Interrupting c rest else Running c rest) Hi1) as Hw. rewrite Hpc in Hw.
      unfold remaining. destruct b; simpl in *; lia.
  - destruct m as [| | |res| |]; try done. injection H as H. unfold laneSpawn in H.
    destruct (isClosed _); [|destruct res as [p|]; [destruct (processEnvironment _ _ _); [|done]|]]; simplify_eq/=;
      [eapply (Hset (Running c rest))|eapply (Hset (InProcess c p true rest))|eapply (Hset (Running c rest))]; try done; simpl; lia.
  - destruct m, rel; simplify_eq/=; try (eapply (Hset (Running c rest)); try done; simpl; lia).
    unfold laneRelease. destruct (_ <? _)%Z; [eapply (Hset (Running c rest))|eapply (Hset (Rejected c p rest))]; try done; simpl; lia.
  - destruct m; try done. injection H as <-. eapply (Hset (InProcess c p false rest)); try done; simpl; lia.
  - destruct m; try done. injection H as <-. eapply (Hset (StartingKiller c rest)); try done; simpl; lia.
  - destruct m; try done. injection H as <-. eapply (Hset (Running c rest)); try done; simpl; lia.
Qed.

(** No other thread makes work for a queue that is shut down, or moves its lanes. *)
Lemma other_step l q q' : lanes_ok q -> shutdown q = true -> (forall i m, l <> LaneL i m) -> step l q = Some (Ok q') ->
  lanes q' = lanes q /\ readyJobs q' = readyJobs q /\ readyPriorityJobs q' = readyPriorityJobs q /\ shutdown q' = true.
Proof.
  intros L Hs Hl H. assert (Ha : is_alive q = false) by (rewrite (lo_alive q L), Hs; done).
  destruct l; simpl in H; rewrite ?Ha in H; try done.
  - by destruct (Hl i m).
  - unfold cancellerStep in H. by destruct (cancellers q !! i) as [[]|]; simplify_eq/=.
  - unfold backgroundStep in H. destruct (background q !! i) as [[]|]; simplify_eq/=; [done|]. by destruct (phase q); simplify_eq/=.
  - unfold killerStep in H. by destruct (killer q); simplify_eq/=.
  - unfold destructorStep, is_alive in *. destruct (phase q); try done.
    + destruct (all_exited q); simplify_eq/=. by destruct (killer q).
    + by destruct (killer q); simplify_eq/=.
    + by case_decide; simplify_eq/=.
Qed.

(** ** Lanes do not move each other *)
Lemma awake_lookup ls k l : total sleeping ls = 0%nat -> ls !! k = Some l -> is_waiting l = false.
Proof.
  intros H0 Hk. pose proof (total_pos sleeping _ _ _ Hk) as H. unfold is_waiting. destruct (pc l); simpl in H; [done|lia|done..].
Qed.

Lemma awake_notify k q q' : total sleeping (lanes q) = 0%nat -> notify_one k q = Some q' -> q' = q.
Proof.
  intros H0 [[-> _]|(i & n & _ & Hi & _)]%notify_one_spec; [done|].
  apply (awake_lookup _ _ _ H0) in Hi. done.
Qed.

Lemma awake_wake ls : total sleeping ls = 0%nat -> map wake ls = ls.
Proof.
  unfold total. induction ls as [|[n p] ls IH]; [done|]. simpl. intros H. rewrite IH by lia.
  destruct p; simpl in *; [done|lia|done..].
Qed.

Lemma awake_cancelEnter q b q' : total sleeping (lanes q) = 0%nat -> cancelEnter q = (b, q') ->
  lanes q' = lanes q /\ shutdown q' = shutdown q.
Proof.
  intros H0. unfold cancelEnter. destruct (cancelled q); intros [= <- <-]; [done|]. split; [|done]. simpl. by apply awake_wake.
Qed.

Lemma awake_addJob j p k q q' : total sleeping (lanes q) = 0%nat -> addJob j p k q = Some (Ok q') ->
  lanes q' = lanes q /\ shutdown q' = shutdown q.
Proof.
  intros H0 H. unfold addJob in H. destruct p; [destruct (addToScheduler _ _ _); [|done]|];
    (destruct (notify_one _ _) eqn:En; simplify_eq/=; apply awake_notify in En; [by subst|done]).
Qed.

(** A step of lane [i] changes that lane only. *)
Lemma laneStep_alters i m q q' : lanes_ok q -> shutdown q = true -> laneStep i m q = Some (Ok q') ->
  exists g, lanes q' = alter g i (lanes q).
Proof.
  intros L Hs H. pose proof (lo_shutdown q L Hs) as H0.
  unfold laneStep in H. destruct (lanes q !! i) as [l|] eqn:Hi; [|done]. cbn in H.
  destruct (pc l) as [| |j|c todo|c r rest|c p rel rest|c p rest|c rest|c rest|] eqn:Hpc;
    try (destruct m; simplify_eq/=; by eexists).
  - destruct m; try done. unfold laneTop in H. destruct (empty_ready q); simplify_eq/=; [by eexists|].
    destruct (bool_decide _); destruct (getNextJob _ _ _) as [[j rest]|]; simplify_eq/=; by eexists.
  - destruct m; try done. injection H as <-. unfold laneBegin. destruct (getDescriptor j); by eexists.
  - unfold laneRun in H. destruct todo as [|[j p|r|] rest], m; simplify_eq/=; try (by eexists).
    + apply awake_addJob in H as [-> _]; [by eexists|].
      pose proof (total_set sleeping (fun l => mkLane (jobCount l) (Running c rest)) _ _ _ Hi) as Ht.
      rewrite Hpc in Ht. simpl in *. lia.
    + destruct (cancelled q); by eexists.
    + destruct (cancelEnter q) as [b q1] eqn:Ec. injection H as <-. destruct (awake_cancelEnter _ _ _ H0 Ec) as [El _].
      simpl. rewrite El. by eexists.
  - destruct m as [| | |res| |]; try done. injection H as H. unfold laneSpawn in H.
    destruct (isClosed _); [|destruct res as [p|]; [destruct (processEnvironment _ _ _); [|done]|]]; simplify_eq/=; by eexists.
  - destruct m, rel; simplify_eq/=; try (by eexists). unfold laneRelease. destruct (_ <? _)%Z; by eexists.
Qed.

Lemma laneStep_shutdown i m q q' : lanes_ok q -> shutdown q = true -> laneStep i m q = Some (Ok q') -> shutdown q' = true.
Proof.
  intros L Hs H. pose proof (lo_shutdown q L Hs) as H0.
  unfold laneStep in H. destruct (lanes q !! i) as [l|] eqn:Hi; [|done]. cbn in H.
  destruct (pc l) as [| |j|c todo|c r rest|c p rel rest|c p rest|c rest|c rest|] eqn:Hpc; try (by destruct m; simplify_eq/=).
  - destruct m; try done. unfold laneTop in H. destruct (empty_ready q); simplify_eq/=; [done|].
    destruct (bool_decide _); destruct (getNextJob _ _ _) as [[j rest]|]; by simplify_eq/=.
  - destruct m; try done. injection H as <-. unfold laneBegin. by destruct (getDescriptor j).
  - unfold laneRun in H. destruct todo as [|[j p|r|] rest], m; simplify_eq/=; try done.
    + apply awake_addJob in H as [_ ->]; [done|].
      pose proof (total_set sleeping (fun l => mkLane (jobCount l) (Running c rest)) _ _ _ Hi) as Ht.
      rewrite Hpc in Ht. simpl in *. lia.
    + by destruct (cancelled q).
    + destruct (cancelEnter q) as [b q1] eqn:Ec. injection H as <-. destruct (awake_cancelEnter _ _ _ H0 Ec) as [_ El]. by simpl; rewrite El.
  - destruct m as [| | |res| |]; try done. injection H as H. unfold laneSpawn in H.
    destruct (isClosed _); [|destruct res as [p|]; [destruct (processEnvironment _ _ _); [|done]|]]; by simplify_eq/=.
  - destruct m, rel; simplify_eq/=; try done. unfold laneRelease. by destruct (_ <? _)%Z.
Qed.

(** ** Lanes that have not left can move *)
Lemma ltb_trans a b c : String.ltb a b = true -> String.ltb b c = true -> String.ltb a c = true.
Proof.
  unfold String.ltb. intros H1 H2.
  destruct (String.compare a b) eqn:E1; try done. destruct (String.compare b c) eqn:E2; try done.
  assert (String.compare a c = Lt) as ->; [|done].
  apply String_as_OT.cmp_lt. eapply String_as_OT.lt_trans; apply String_as_OT.cmp_lt; eassumption.
Qed.
Lemma ltb_irrefl a : String.ltb a a = false.
Proof. unfold String.ltb. destruct (String.compare a a) eqn:E; try done. pose proof (String.compare_antisym a a) as H. by rewrite E in H. Qed.

(** A finite set of jobs has one that is not below another. *)
Lemma max_job js : js <> [] -> Forall (fun j => described j = true) js -> exists m, m ∈ js /\ Forall (fun j => not_less m j = true) js.
Proof.
  induction js as [|j js IH]; [done|]. intros _ [Hj Hjs]%Forall_cons.
  destruct (described_work _ Hj) as [[dj Ej] _].
  assert (Hself : not_less j j = true) by (unfold not_less, QueueJobLess; rewrite Ej, ltb_irrefl; done).
  destruct js as [|j2 js]; [exists j; split; [left|by repeat constructor]|].
  destruct (IH ltac:(done) Hjs) as (m & Hm & Hmax).
  assert (Hdm : described m = true) by (rewrite Forall_forall in Hjs; by apply Hjs).
  destruct (described_work _ Hdm) as [[dm Em] _].
  destruct (not_less m j) eqn:Emj.
  - exists m. split; [by right|]. by constructor.
  - exists j. split; [left|]. constructor; [done|]. rewrite Forall_forall in Hmax, Hjs |- *. intros x Hx.
    destruct (described_work _ (Hjs x Hx)) as [[dx Ex] _]. specialize (Hmax x Hx).
    unfold not_less, QueueJobLess in *. rewrite ?Ej, ?Em, ?Ex in *. simpl in *.
    destruct (String.ltb dj dx) eqn:E; [|done]. apply negb_false_iff in Emj. by rewrite (ltb_trans dm dj dx) in Hmax.
Qed.

Lemma forallb_of_Forall {A} (f : A -> bool) l : Forall (fun x => f x = true) l -> forallb f l = true.
Proof. induction 1 as [|x l Hx _ IH]; [done|]. simpl. by rewrite Hx, IH. Qed.

Lemma getNextJob_enabled alg js : js <> [] -> Forall (fun j => described j = true) js ->
  exists k j rest, getNextJob alg k js = Some (j, rest).
Proof.
  intros Hne HF. destruct alg.
  - destruct (max_job js Hne HF) as (m & [k Hk]%list_elem_of_lookup & Hmax).
    exists k, m, (take k js ++ drop (S k) js). unfold getNextJob. rewrite Hk.
    assert (forallb (not_less m) (take k js ++ drop (S k) js) = true) as ->; [|done].
    apply forallb_of_Forall, Forall_app. rewrite <- (take_drop_middle _ _ _ Hk) in Hmax.
    by apply Forall_app in Hmax as [H1 [_ H2]%Forall_cons].
  - destruct js as [|j rest]; [done|]. by exists 0%nat, j, rest.
Qed.

Lemma addToScheduler_enabled alg j js : described j = true -> Forall (fun j => described j = true) js ->
  exists js', addToScheduler alg j js = Ok js'.
Proof.
  intros Hj Hjs. unfold addToScheduler. destruct alg; [|eauto]. case_decide; [eauto|].
  assert (comparable (j :: js) = true) as Hc.
  { apply forallb_of_Forall. apply (Forall_impl (fun j => described j = true)); [by apply Forall_cons|]. intros x Hx. simpl in Hx.
    destruct (described_work _ Hx) as [[d ->] _]. done. }
  rewrite Hc. eauto.
Qed.

Lemma addJob_enabled j p q : total sleeping (lanes q) = 0%nat -> described j = true -> ready_described q ->
  exists q', addJob j p None q = Some (Ok q').
Proof.
  intros H0 Hj [Hp Hr]. assert (Hw : existsb is_waiting (lanes q) = false).
  { apply not_true_is_false. intros (l & Hl & Hx)%existsb_exists. apply list_elem_of_In, list_elem_of_lookup in Hl as [k Hk].
    by rewrite (awake_lookup _ _ _ H0 Hk) in Hx. }
  unfold addJob. destruct p.
  - destruct (addToScheduler_enabled (algorithm (config q)) j (readyJobs q) Hj Hr) as [js ->]. unfold notify_one. simpl. rewrite Hw. simpl. eauto.
  - unfold notify_one. simpl. rewrite Hw. simpl. eauto.
Qed.

Lemma lane_enabled q i l : queue_ok q -> shutdown q = true -> lanes q !! i = Some l -> has_exited l = false ->
  exists m q', laneStep i m q = Some (Ok q').
Proof.
  intros [D J L B C] Hs Hi Hx. pose proof (lo_shutdown q L Hs) as H0.
  pose proof (proj1 (jobs_described_split q) D) as [[Hp Hr] Hg].
  pose proof (Forall_gather_at _ _ _ Hi Hg) as Hm.
  unfold laneStep. rewrite Hi. cbn. unfold has_exited in Hx.
  destruct (pc l) as [| |j|c todo|c r rest|c p rel rest|c p rest|c rest|c rest|] eqn:Hpc; try done.
  - destruct (empty_ready q) eqn:Em; [exists (MGo 0); unfold laneTop; rewrite Em; simpl; eauto|].
    unfold laneTop. rewrite Em. destruct (bool_decide (readyPriorityJobs q = [])) eqn:Eb.
    + unfold empty_ready in Em. rewrite Eb, andb_true_r in Em. apply bool_decide_eq_false in Em.
      destruct (getNextJob_enabled (algorithm (config q)) (readyJobs q) Em Hr) as (k & j & rest & E).
      exists (MGo k). simpl. rewrite E. simpl. eauto.
    + apply bool_decide_eq_false in Eb. destruct (getNextJob_enabled FIFO _ Eb Hp) as (k & j & rest & E).
      exists (MGo k). simpl. rewrite E. simpl. eauto.
  - exists MWake. eauto.
  - exists (MGo 0). eauto.
  - unfold mentions in Hm. simpl in Hm. inversion Hm as [|? ? Hc Ht]; subst. unfold laneRun.
    destruct todo as [|[j p|r|] rest]; [exists (MGo 0); eauto| |exists (MGo 0); eauto|].
    + simpl in Ht. inversion Ht; subst. destruct (addJob_enabled j p (set_pc i (Running c rest) q)) as [q' E]; [|done|done|by exists (MAdd None), q'].
      pose proof (total_set sleeping (fun l => mkLane (jobCount l) (Running c rest)) _ _ _ Hi) as Hw. rewrite Hpc in Hw. simpl in *. lia.
    + exists (MGo 0). destruct (cancelEnter q) as [b q1]. eauto.
  - exists (MSpawn None). unfold laneSpawn. destruct (isClosed _); eauto.
  - exists (MExit Succeeded). destruct rel; eauto.
  - exists (MGo 0). eauto.
  - exists (MGo 0). eauto.
  - exists (MGo 0). eauto.
Qed.

(** ** Fair executions *)
Definition execution (e : nat -> Queue) (ls : nat -> option Label) : Prop :=
  forall t, match ls t with
            | Some l => label_ok l = true /\ step l (e t) = Some (Ok (e (S t)))
            | None => e (S t) = e t
            end.

(** Weak fairness: again and again a lane takes a step or cannot take one. *)
Definition lanes_fair (e : nat -> Queue) (ls : nat -> option Label) : Prop :=
  forall i t, exists t', (t <= t')%nat /\
    ((exists m, ls t' = Some (LaneL i m)) \/ ~ exists m q', laneStep i m (e t') = Some (Ok q')).

Section Fair.
Context (e : nat -> Queue) (ls : nat -> option Label) (c : Creation).
Hypothesis Hc : creation_ok c.
Hypothesis He0 : reachable (create c) (e 0).
Hypothesis Hex : execution e ls.

Lemma execution_ok t : queue_ok (e t).
Proof.
  enough (reachable (create c) (e t)) as R by (by eapply reachable_ok).
  induction t as [|t IH]; [done|]. specialize (Hex t). destruct (ls t) as [l|].
  - destruct Hex as [Hl Hs]. by eapply reach_step.
  - by rewrite Hex.
Qed.

Lemma execution_step t : shutdown (e t) = true ->
  shutdown (e (S t)) = true /\ (remaining (e (S t)) <= remaining (e t))%nat
  /\ length (lanes (e (S t))) = length (lanes (e t))
  /\ match ls t with
     | Some (LaneL i _) =>
         (remaining (e (S t)) < remaining (e t))%nat /\ forall k, k <> i -> lanes (e (S t)) !! k = lanes (e t) !! k
     | _ => lanes (e (S t)) = lanes (e t)
     end.
Proof.
  intros Hs. destruct (execution_ok t) as [D J L B C]. pose proof (Hex t) as H. destruct (ls t) as [l|].
  2:{ rewrite H. split; [done|]. split; [lia|]. done. }
  destruct H as [Hl H].
  destruct l as [i m|j p k| |i|i st| |].
  1:{ simpl in H. split; [by eapply laneStep_shutdown|]. pose proof (laneStep_remaining _ _ _ _ D L Hs H).
      destruct (laneStep_alters _ _ _ _ L Hs H) as [g ->]. rewrite length_alter_lanes.
      split; [lia|]. split; [done|]. split; [done|]. intros k Hk. by apply list_lookup_alter_ne. }
  all: pose proof (fun Hne => other_step _ _ _ L Hs Hne H) as O;
    destruct (O ltac:(intros ? ? [=])) as (El & Er & Ep & Es); split; [done|]; rewrite El; split; [|done];
    unfold remaining; rewrite El, Er, Ep; lia.
Qed.

Lemma execution_shutdown t t' : (t <= t')%nat -> shutdown (e t) = true ->
  shutdown (e t') = true /\ (remaining (e t') <= remaining (e t))%nat /\ length (lanes (e t')) = length (lanes (e t)).
Proof.
  intros Hle Hs. induction Hle as [|t' Hle IH]; [done|]. destruct IH as (Hs' & Hr & Hn).
  destruct (execution_step t' Hs') as (Hs2 & Hr2 & Hn2 & _). split; [done|lia].
Qed.

Lemma not_all_exited q : all_exited q = false -> exists i l, lanes q !! i = Some l /\ has_exited l = false.
Proof.
  unfold all_exited. induction (lanes q) as [|l rest IH]; [done|]. simpl. destruct (has_exited l) eqn:E.
  - intros H. destruct (IH H) as (i & l' & Hi & Hl). by exists (S i), l'.
  - intros _. by exists 0%nat, l.
Qed.

(** A lane that has not left and takes no step stays where it is. *)
Lemma lane_stays t i l : shutdown (e t) = true -> lanes (e t) !! i = Some l ->
  forall t', (t <= t')%nat -> (forall u m, (t <= u < t')%nat -> ls u <> Some (LaneL i m)) -> lanes (e t') !! i = Some l.
Proof.
  intros Hs Hi t' Hle. induction Hle as [|t' Hle IH]; intros Hno; [done|].
  assert (Hi' : lanes (e t') !! i = Some l) by (apply IH; intros u m Hu; apply Hno; lia).
  destruct (execution_shutdown t t' Hle Hs) as [Hs' _]. destruct (execution_step t' Hs') as (_ & _ & _ & H).
  destruct (ls t') as [[k m|j p k| |k|k st| |]|] eqn:El; try (by rewrite H).
  destruct (decide (k = i)) as [->|Hk]; [by destruct (Hno t' m); [lia|]|].
  destruct H as [_ H]. rewrite H by done. done.
Qed.

Hypothesis Hfair : lanes_fair e ls.

Definition is_lane (i : nat) (o : option Label) : bool :=
  match o with Some (LaneL k _) => bool_decide (k = i) | _ => false end.

Lemma is_lane_spec i o : is_lane i o = true -> exists m, o = Some (LaneL i m).
Proof. destruct o as [[]|]; try done. simpl. rewrite bool_decide_eq_true. intros ->. eauto. Qed.

Lemma lane_moves t i l : shutdown (e t) = true -> lanes (e t) !! i = Some l -> has_exited l = false ->
  exists t' m, (t <= t')%nat /\ ls t' = Some (LaneL i m).
Proof.
  intros Hs Hi Hx. destruct (Hfair i t) as (t' & Ht' & [[m Hm]|Hdis]); [eauto|].
  destruct (existsb (fun u => is_lane i (ls u)) (seq t (t' - t))) eqn:Ex.
  { apply existsb_exists in Ex as (u & Hu%in_seq & [m Hm]%is_lane_spec). exists u, m. split; [lia|done]. }
  exfalso. apply Hdis. destruct (execution_shutdown t t' Ht' Hs) as [Hs' _].
  eapply lane_enabled; [apply execution_ok|done| |exact Hx].
  eapply lane_stays; [exact Hs|exact Hi|done|]. intros u m Hu E.
  apply not_true_iff_false in Ex. apply Ex, existsb_exists. exists u. split; [apply in_seq; lia|]. rewrite E. by apply bool_decide_eq_true.
Qed.

Lemma drains n : forall t, (remaining (e t) <= n)%nat -> shutdown (e t) = true ->
  exists t', (t <= t')%nat /\ all_exited (e t') = true.
Proof.
  induction n as [|n IH]; intros t Hn Hs; (destruct (all_exited (e t)) eqn:Ea; [by exists t|]);
    destruct (not_all_exited _ Ea) as (i & l & Hi & Hx); destruct (lane_moves t i l Hs Hi Hx) as (t' & m & Ht' & Hm);
    destruct (execution_shutdown t t' Ht' Hs) as (Hs' & Hr & _); destruct (execution_step t' Hs') as (Hs2 & _ & _ & H);
    rewrite Hm in H; destruct H as [Hlt _]; [lia|].
  destruct (IH (S t')) as (t2 & Ht2 & Hx2); [lia|done|]. exists t2. split; [lia|done].
Qed.
End Fair.

(** C35: Once the destructor has shut the queue down, every lane that has not left can
    take a step in every later state, and under weak fairness all lanes leave: then every
    job that was ever added, also by jobs that ran during the shutdown, has been
    executed exactly once. *)
Theorem queue_drains e ls c : creation_ok c -> reachable (create c) (e 0%nat) -> execution e ls -> lanes_fair e ls ->
  forall t, shutdown (e t) = true -> (0 < length (lanes (e t)))%nat ->
  (forall i l, lanes (e t) !! i = Some l -> has_exited l = false -> exists m q', laneStep i m (e t) = Some (Ok q'))
  /\ exists t', (t <= t')%nat /\ all_exited (e t') = true
       /\ finished (trace (e t')) ≡ₚ added High (trace (e t')) ++ added Normal (trace (e t')).
Proof.
  intros Hc He0 Hex Hf t Hs Hlen. split.
  { intros i l Hi Hx. eapply lane_enabled; [by eapply execution_ok|done|exact Hi|exact Hx]. }
  destruct (drains e ls c Hc He0 Hex Hf (remaining (e t)) t ltac:(lia) Hs) as (t' & Ht' & Ha).
  exists t'. split; [done|]. split; [done|].
  apply all_finished; [by eapply execution_ok| |done].
  destruct (execution_shutdown e ls c Hc He0 Hex t t' Ht' Hs) as (_ & _ & ->). done.
Qed.

(** ** A concrete fair execution: a finite run, then nothing *)
Definition play (labels : list Label) (q : Queue) (t : nat) : Queue :=
  match run (take t labels) q with Some (Ok q') => q' | _ => q end.

Lemma run_app ls1 ls2 q q1 : run ls1 q = Some (Ok q1) -> run (ls1 ++ ls2) q = run ls2 q1.
Proof.
  revert q. induction ls1 as [|l ls1 IH]; intros q; simpl; [by intros [= <-]|].
  destruct (step l q) as [[q'|]|]; [apply IH|done|done].
Qed.

Lemma run_prefix ls q q' t : run ls q = Some (Ok q') -> exists qt, run (take t ls) q = Some (Ok qt).
Proof.
  revert q t. induction ls as [|l ls IH]; intros q t H; [rewrite take_nil; eauto|].
  destruct t as [|t]; [simpl; eauto|]. simpl in *. destruct (step l q) as [[q1|]|]; [eauto|done|done].
Qed.

Lemma play_execution labels q q' : forallb label_ok labels = true -> run labels q = Some (Ok q') ->
  execution (play labels q) (fun t => labels !! t).
Proof.
  intros Hok Hrun t. unfold play. destruct (labels !! t) as [l|] eqn:E.
  - split.
    + eapply forallb_forall; [exact Hok|]. by apply list_elem_of_In, list_elem_of_lookup_2 with t.
    + destruct (run_prefix _ _ _ t Hrun) as [qt Et]. destruct (run_prefix _ _ _ (S t) Hrun) as [qt' Et'].
      rewrite Et, Et'. rewrite (take_S_r _ _ _ E), (run_app _ _ _ _ Et) in Et'. simpl in Et'.
      destruct (step l qt) as [[q1|]|]; by simplify_eq.
  - apply lookup_ge_None_1 in E. rewrite !take_ge by lia. done.
Qed.

Lemma exited_stuck q i m : all_exited q = true -> laneStep i m q = None.
Proof.
  intros Ha. unfold laneStep. destruct (lanes q !! i) as [l|] eqn:E; [|done]. cbn.
  unfold all_exited in Ha. rewrite forallb_forall in Ha.
  specialize (Ha l ltac:(by apply list_elem_of_In, list_elem_of_lookup_2 with i)).
  unfold has_exited in Ha. by destruct (pc l), m.
Qed.

Lemma play_fair labels q q' : run labels q = Some (Ok q') -> all_exited q' = true ->
  lanes_fair (play labels q) (fun t => labels !! t).
Proof.
  intros Hrun Ha i t. exists (t + length labels)%nat. split; [lia|]. right. intros (m & q1 & H).
  unfold play in H. rewrite take_ge, Hrun in H by lia. by rewrite exited_stuck in H.
Qed.

Definition shutdown_labels : list Label := [DestructorL; LaneL 1 (MGo 0); LaneL 0 (MGo 0); LaneL 0 (MGo 0)].
Definition drained_queue : Queue :=
  match run shutdown_labels demo_queue with Some (Ok q) => q | _ => demo_queue end.

Lemma queue_drains_witness :
  exists t, all_exited (play shutdown_labels demo_queue t) = true
    /\ finished (trace (play shutdown_labels demo_queue t)) ≡ₚ [plain_job "b"; process_job "a"].
Proof.
  destruct (queue_drains (play shutdown_labels demo_queue) (fun t => shutdown_labels !! t) demo_creation
    demo_creation_ok demo_reachable
    ltac:(eapply (play_execution _ _ drained_queue); vm_compute; reflexivity)
    ltac:(eapply (play_fair _ _ drained_queue); vm_compute; reflexivity)
    4%nat ltac:(vm_compute; reflexivity) ltac:(vm_compute; lia)) as [_ (t & Ht & Ha & Hf)].
  exists t. split; [exact Ha|]. rewrite Hf. unfold play. rewrite take_ge by (simpl; lia). vm_compute. reflexivity.
Defined.
