(* ===== verification/BuildNode.v ===== *)
(** * Nodes of the build system and command signatures

    [BuildNode] and [StatNode] (lib/BuildSystem BuildNode.h, BuildNode.cpp) with the
    members of their base class [Node], and [CommandSignature]
    (lib/Basic/include/llbuild/Basic/Hashing.h).  The hash functions of LLVM and the
    file system are parameters.  An attribute that is rejected is an error message;
    in every such case the code leaves the node as it was. *)

From Stdlib Require Import Ascii String Lia ZArith.
From stdpp Require Import base list strings numbers.
From S2P Require Import Prelude Chars Coding.

(** The bytes of a string, as the encoders have them. *)
Definition byte_of (c : ascii) : Z := Z.of_N (N_of_ascii c).
Definition bytes_of (s : chars) : list Z := map byte_of s.

(** ** Signatures *)
Record Hashes := mkHashes {
  hash_value : chars -> Z;
  hash_combine_string : Z -> chars -> Z;
  hash_combine_bool : Z -> bool -> Z }.

Section Signatures.
Context (H : Hashes).

Definition nullSignature : Z := 0.
Definition newSignature (s : chars) : Z := hash_value H s.
Definition isNull (sig : Z) : bool := (sig =? 0)%Z.
Definition combine (s : chars) (sig : Z) : Z := hash_combine_string H sig s.
Definition combineBool (b : bool) (sig : Z) : Z := hash_combine_bool H sig b.
(** [combine] has no overload for integers: an integer argument becomes a [bool]. *)
Definition combineInt (n : Z) (sig : Z) : Z := combineBool (negb (n =? 0)%Z) sig.
Definition combineAll (l : list chars) (sig : Z) : Z := foldl (fun sg s => combine s sg) sig l.
End Signatures.

(** ** Nodes *)
Inductive NodeType := Plain | Directory | DirectoryStructure | Virtual.
#[export] Instance NodeType_eq_dec : EqDecision NodeType.
Proof. solve_decision. Defined.
Definition NodeType_code (t : NodeType) : Z :=
  match t with Plain => 0 | Directory => 1 | DirectoryStructure => 2 | Virtual => 3 end.

(** A [StringRef] to memory that is alive, or was freed. *)
Inductive PathRef := Live (s : chars) | Dangling.

Record BuildNode := mkBuildNode {
  nodeName : chars;
  producers : list chars;
  type : NodeType;
  commandTimestamp : bool;
  mutated : bool;
  exclusionPatterns : StringList;
  mustScanAfterPaths : list PathRef }.

Definition newNode (name : chars) (t : NodeType) : BuildNode :=
  mkBuildNode name [] t false false emptyStringList [].
Definition makePlain (name : chars) := newNode name Plain.
Definition makeDirectory (name : chars) := newNode name Directory.
Definition makeVirtual (name : chars) := newNode name Virtual.

Definition isVirtual (n : BuildNode) : bool := bool_decide (type n = Virtual).
Definition isDirectoryNode (n : BuildNode) : bool := bool_decide (type n = Directory).
Definition isDirectoryStructure (n : BuildNode) : bool := bool_decide (type n = DirectoryStructure).
Definition isCommandTimestamp (n : BuildNode) : bool := commandTimestamp n.
Definition isMutated (n : BuildNode) : bool := mutated n.

Definition set_type (t : NodeType) (n : BuildNode) : BuildNode :=
  mkBuildNode (nodeName n) (producers n) t (commandTimestamp n) (mutated n) (exclusionPatterns n) (mustScanAfterPaths n).
Definition set_timestamp (b : bool) (n : BuildNode) : BuildNode :=
  mkBuildNode (nodeName n) (producers n) (type n) b (mutated n) (exclusionPatterns n) (mustScanAfterPaths n).
Definition set_mutated (b : bool) (n : BuildNode) : BuildNode :=
  mkBuildNode (nodeName n) (producers n) (type n) (commandTimestamp n) b (exclusionPatterns n) (mustScanAfterPaths n).
Definition set_patterns (l : StringList) (n : BuildNode) : BuildNode :=
  mkBuildNode (nodeName n) (producers n) (type n) (commandTimestamp n) (mutated n) l (mustScanAfterPaths n).
Definition set_scan_after (l : list PathRef) (n : BuildNode) : BuildNode :=
  mkBuildNode (nodeName n) (producers n) (type n) (commandTimestamp n) (mutated n) (exclusionPatterns n) l.

(** ** Attributes *)
Definition is_text (s : chars) (t : string) : bool := bool_decide (s = chars_of t).
Definition quote (s : chars) : chars := chars_of "'" ++ s ++ chars_of "'".
Definition invalidValue (value name : chars) : chars :=
  chars_of "invalid value: " ++ quote value ++ chars_of " for attribute " ++ quote name.
Definition unexpectedAttribute (name : chars) : chars := chars_of "unexpected attribute: " ++ quote name.

(** [Some] truth value of the two accepted texts. *)
Definition parse_bool (value : chars) : option bool :=
  if is_text value "true" then Some true else if is_text value "false" then Some false else None.

Definition flag (name value : chars) (f : bool -> BuildNode) : chars + BuildNode :=
  match parse_bool value with Some b => inr (f b) | None => inl (invalidValue value name) end.

(** The constructor of [StringList] from one string. *)
Definition oneStringList (value : chars) : outcome StringList :=
  if decide (NUL ∈ value) then Crash (AssertFailed "value.find('\0') == npos")
  else Ok (mkStringList (bytes_of value ++ [0%Z]) (S (length value))).

Definition configureType (name value : chars) (n : BuildNode) : chars + BuildNode :=
  if is_text value "plain" then inr (set_type Plain n)
  else if is_text value "directory" then inr (set_type Plain n)
  else if is_text value "directory-structure" then inr (set_type DirectoryStructure n)
  else if is_text value "virtual" then inr (set_type Virtual n)
  else inl (invalidValue value name).

Definition reset_type (t : NodeType) (n : BuildNode) : BuildNode :=
  if decide (type n = t) then set_type Plain n else n.

Definition configureAttribute (name value : chars) (n : BuildNode) : outcome (chars + BuildNode) :=
  if is_text name "type" then Ok (configureType name value n)
  else if is_text name "is-directory" then
    Ok (flag name value (fun b => if b then set_type Directory n else reset_type Directory n))
  else if is_text name "is-directory-structure" then
    Ok (flag name value (fun b => if b then set_type DirectoryStructure n else reset_type DirectoryStructure n))
  else if is_text name "is-virtual" then
    Ok (flag name value (fun b => if b then set_type Virtual n else set_timestamp false (reset_type Virtual n)))
  else if is_text name "is-command-timestamp" then
    Ok (flag name value (fun b => if b then set_type Virtual (set_timestamp true n) else set_timestamp false n))
  else if is_text name "is-mutated" then Ok (flag name value (fun b => set_mutated b n))
  else if is_text name "content-exclusion-patterns" then
    obind (oneStringList value) (fun l => Ok (inr (set_patterns l n)))
  else Ok (inl (unexpectedAttribute name)).

(** The paths stored for [must-scan-after-paths] refer to a list that is destroyed at
    the end of the statement. *)
Definition configureListAttribute (name : chars) (values : list chars) (n : BuildNode) : outcome (chars + BuildNode) :=
  if is_text name "content-exclusion-patterns" then
    obind (newStringList (map bytes_of values)) (fun l => Ok (inr (set_patterns l n)))
  else if is_text name "must-scan-after-paths" then
    obind (newStringList (map bytes_of values)) (fun l =>
    obind (getValues l) (fun vs => Ok (inr (set_scan_after (map (fun _ => Dangling) vs) n))))
  else Ok (inl (unexpectedAttribute name)).

Definition configurePairsAttribute (name : chars) (n : BuildNode) : chars + BuildNode := inl (unexpectedAttribute name).

(** ** File information *)
Section FileSystem.
Context (fs link : chars -> FileInfo).

Definition ends_with_slash (path : chars) : bool := bool_decide (list.last path = Some "/"%char).

Definition statPath (name : chars) : chars :=
  if ends_with_slash name && negb (is_text name "/") then take (length name - 1) name else name.

Definition getFileInfo (n : BuildNode) : outcome FileInfo :=
  if isVirtual n then Crash (AssertFailed "!isVirtual()") else Ok (fs (statPath (nodeName n))).
Definition getLinkInfo (n : BuildNode) : outcome FileInfo :=
  if isVirtual n then Crash (AssertFailed "!isVirtual()") else Ok (link (nodeName n)).

Definition stat_getFileInfo (name : chars) : FileInfo := fs name.
Definition stat_getLinkInfo (name : chars) : FileInfo := link name.
End FileSystem.

Definition nodeSignature (H : Hashes) (n : BuildNode) : Z :=
  combineAll H (producers n) (combineInt H (NodeType_code (type n)) nullSignature).

(** ** Properties *)

(** A node is a command timestamp only if it is virtual, however it is configured. *)
Definition timestamp_virtual (n : BuildNode) : Prop := commandTimestamp n = true -> type n = Virtual.

(** The attributes that keep this: all but those that set another type. *)
Lemma configure_timestamp name value n n' : timestamp_virtual n ->
  is_text name "type" = false -> is_text name "is-directory" = false -> is_text name "is-directory-structure" = false ->
  configureAttribute name value n = Ok (inr n') -> timestamp_virtual n'.
Proof.
  intros Ht N1 N2 N3 E. unfold configureAttribute, flag, reset_type in E. rewrite N1, N2, N3 in E.
  unfold timestamp_virtual in *.
  repeat (case_decide || destruct (is_text _ _) || destruct (parse_bool _) as [[]|] || destruct (oneStringList _));
    simplify_eq/=; try done; by intros [=].
Qed.

(** Setting the type afterwards breaks it: the header says such nodes are always virtual. *)
Example timestamp_not_virtual :
  match configureAttribute (chars_of "is-command-timestamp") (chars_of "true") (makePlain (chars_of "n")) with
  | Ok (inr n) =>
      match configureAttribute (chars_of "type") (chars_of "plain") n with
      | Ok (inr n') => isCommandTimestamp n' = true /\ isVirtual n' = false
      | _ => False
      end
  | _ => False
  end.
Proof. vm_compute. split; reflexivity. Qed.

(** The type name for directories makes a plain node. *)
Example directory_type_is_plain :
  configureAttribute (chars_of "type") (chars_of "directory") (makeDirectory (chars_of "d"))
  = Ok (inr (makePlain (chars_of "d"))).
Proof. vm_compute. reflexivity. Qed.

(** The stored paths point to freed memory. *)
Example must_scan_after_paths_dangle :
  match configureListAttribute (chars_of "must-scan-after-paths") [chars_of "a.txt"] (makeDirectory (chars_of "d/")) with
  | Ok (inr n) => mustScanAfterPaths n = [Dangling]
  | _ => False
  end.
Proof. vm_compute. reflexivity. Qed.

(** Node signatures do not tell directories, directory structures and virtual nodes apart. *)
Example node_type_hashed_as_bool H name :
  nodeSignature H (makeDirectory name) = nodeSignature H (makeVirtual name).
Proof. reflexivity. Qed.
