(* ===== verification/ExternalCommand.v ===== *)
(** * External commands

    [ExternalCommand] of lib/BuildSystem/ExternalCommand.cpp: a command of the build
    system that reads input files, runs a process and records the file information of
    its outputs.  Nodes are pointers: the model refers to them by number and [node]
    gives the object.  The file system is the function [fs]; the process is run by a
    subclass, so [execute] ends in [Launch] and [complete] is the completion function
    the subclass calls.  Calls on the build system's delegate are logged. *)

From Stdlib Require Import Ascii String Lia ZArith.
From stdpp Require Import base list strings numbers.
From S2P Require Import Prelude Chars NinjaPath Coding BuildValue BuildKey Process BuildNode.

Local Open Scope nat_scope.

Abbreviation BuildValue := Value.BuildValue.

(** ** [llvm::sys::path::parent_path], POSIX style *)
Definition sep_at (s : chars) (i : nat) : bool := match s !! i with Some c => is_separator c | None => false end.

(** The last separator before position [n]. *)
Fixpoint find_last_sep (s : chars) (n : nat) : option nat :=
  match n with O => None | S m => if sep_at s m then Some m else find_last_sep s m end.
(** The first separator at or after position [length s - n]. *)
Fixpoint find_first_sep (s : chars) (i : nat) (rest : chars) : option nat :=
  match rest with [] => None | c :: rest' => if is_separator c then Some i else find_first_sep s (S i) rest' end.

Definition filename_pos (s : chars) : nat :=
  match s with
  | [] => 0
  | _ =>
      if sep_at s (length s - 1) then length s - 1
      else match find_last_sep s (length s) with
           | None => 0
           | Some p => if (p =? 1)%nat && sep_at s 0 then 0 else S p
           end
  end.

Definition root_dir_start (s : chars) : option nat :=
  if (3 <? length s)%nat && sep_at s 0 && bool_decide (s !! 0 = s !! 1) && negb (sep_at s 2)
  then find_first_sep s 2 (drop 2 s)
  else if sep_at s 0 then Some 0 else None.

Fixpoint back_over_seps (s : chars) (root : option nat) (end_pos : nat) : nat :=
  match end_pos with
  | O => O
  | S e =>
      if (match root with None => true | Some r => (r <? end_pos)%nat end) && sep_at s e
      then back_over_seps s root e else end_pos
  end.

Definition parent_path (s : chars) : chars :=
  let end0 := filename_pos s in
  let filename_was_sep := match s with [] => false | _ => sep_at s end0 end in
  let root := root_dir_start s in
  let e := back_over_seps s root end0 in
  take (if bool_decide (root = Some e) && negb filename_was_sep then S e else e) s.

Example parent_paths :
  map (fun s => parent_path (chars_of s)) ["/a/b"; "a/b/"; "a"; "/a"; "//net/x"; "a//b"]
  = map chars_of ["/a"; "a/b"; ""; "/"; "//net/"; "a"].
Proof. reflexivity. Qed.

(** ** State *)
Record ExternalCommand := mkExternal {
  cmdName : chars;
  description : chars;
  inputs : list nat;
  outputs : list nat;
  allowMissingInputs : bool;
  allowModifiedOutputs : bool;
  alwaysOutOfDate : bool;
  checkDirectoryDependenciesBeforeRunning : bool;
  repairViaOwnershipAnalysis : bool;
  skipValue : option BuildValue;
  missingInputKeys : list Key.Key;
  canUpdateIfNewer : bool;
  hasPriorResult : bool }.

Definition upd_description (f : chars -> chars) (c : ExternalCommand) : ExternalCommand :=
  mkExternal (cmdName c) (f (description c)) (inputs c) (outputs c) (allowMissingInputs c)
    (allowModifiedOutputs c) (alwaysOutOfDate c) (checkDirectoryDependenciesBeforeRunning c)
    (repairViaOwnershipAnalysis c) (skipValue c) (missingInputKeys c) (canUpdateIfNewer c)
    (hasPriorResult c).
Definition upd_inputs (f : list nat -> list nat) (c : ExternalCommand) : ExternalCommand :=
  mkExternal (cmdName c) (description c) (f (inputs c)) (outputs c) (allowMissingInputs c)
    (allowModifiedOutputs c) (alwaysOutOfDate c) (checkDirectoryDependenciesBeforeRunning c)
    (repairViaOwnershipAnalysis c) (skipValue c) (missingInputKeys c) (canUpdateIfNewer c)
    (hasPriorResult c).
Definition upd_outputs (f : list nat -> list nat) (c : ExternalCommand) : ExternalCommand :=
  mkExternal (cmdName c) (description c) (inputs c) (f (outputs c)) (allowMissingInputs c)
    (allowModifiedOutputs c) (alwaysOutOfDate c) (checkDirectoryDependenciesBeforeRunning c)
    (repairViaOwnershipAnalysis c) (skipValue c) (missingInputKeys c) (canUpdateIfNewer c)
    (hasPriorResult c).
Definition upd_allowMissingInputs (f : bool -> bool) (c : ExternalCommand) : ExternalCommand :=
  mkExternal (cmdName c) (description c) (inputs c) (outputs c) (f (allowMissingInputs c))
    (allowModifiedOutputs c) (alwaysOutOfDate c) (checkDirectoryDependenciesBeforeRunning c)
    (repairViaOwnershipAnalysis c) (skipValue c) (missingInputKeys c) (canUpdateIfNewer c)
    (hasPriorResult c).
Definition upd_allowModifiedOutputs (f : bool -> bool) (c : ExternalCommand) : ExternalCommand :=
  mkExternal (cmdName c) (description c) (inputs c) (outputs c) (allowMissingInputs c) (f
    (allowModifiedOutputs c)) (alwaysOutOfDate c) (checkDirectoryDependenciesBeforeRunning c)
    (repairViaOwnershipAnalysis c) (skipValue c) (missingInputKeys c) (canUpdateIfNewer c)
    (hasPriorResult c).
Definition upd_alwaysOutOfDate (f : bool -> bool) (c : ExternalCommand) : ExternalCommand :=
  mkExternal (cmdName c) (description c) (inputs c) (outputs c) (allowMissingInputs c)
    (allowModifiedOutputs c) (f (alwaysOutOfDate c)) (checkDirectoryDependenciesBeforeRunning c)
    (repairViaOwnershipAnalysis c) (skipValue c) (missingInputKeys c) (canUpdateIfNewer c)
    (hasPriorResult c).
Definition upd_checkDirectoryDependenciesBeforeRunning (f : bool -> bool) (c : ExternalCommand) : ExternalCommand :=
  mkExternal (cmdName c) (description c) (inputs c) (outputs c) (allowMissingInputs c)
    (allowModifiedOutputs c) (alwaysOutOfDate c) (f (checkDirectoryDependenciesBeforeRunning c))
    (repairViaOwnershipAnalysis c) (skipValue c) (missingInputKeys c) (canUpdateIfNewer c)
    (hasPriorResult c).
Definition upd_repairViaOwnershipAnalysis (f : bool -> bool) (c : ExternalCommand) : ExternalCommand :=
  mkExternal (cmdName c) (description c) (inputs c) (outputs c) (allowMissingInputs c)
    (allowModifiedOutputs c) (alwaysOutOfDate c) (checkDirectoryDependenciesBeforeRunning c) (f
    (repairViaOwnershipAnalysis c)) (skipValue c) (missingInputKeys c) (canUpdateIfNewer c)
    (hasPriorResult c).
Definition upd_skipValue (f : option BuildValue -> option BuildValue) (c : ExternalCommand) : ExternalCommand :=
  mkExternal (cmdName c) (description c) (inputs c) (outputs c) (allowMissingInputs c)
    (allowModifiedOutputs c) (alwaysOutOfDate c) (checkDirectoryDependenciesBeforeRunning c)
    (repairViaOwnershipAnalysis c) (f (skipValue c)) (missingInputKeys c) (canUpdateIfNewer c)
    (hasPriorResult c).
Definition upd_missingInputKeys (f : list Key.Key -> list Key.Key) (c : ExternalCommand) : ExternalCommand :=
  mkExternal (cmdName c) (description c) (inputs c) (outputs c) (allowMissingInputs c)
    (allowModifiedOutputs c) (alwaysOutOfDate c) (checkDirectoryDependenciesBeforeRunning c)
    (repairViaOwnershipAnalysis c) (skipValue c) (f (missingInputKeys c)) (canUpdateIfNewer c)
    (hasPriorResult c).
Definition upd_canUpdateIfNewer (f : bool -> bool) (c : ExternalCommand) : ExternalCommand :=
  mkExternal (cmdName c) (description c) (inputs c) (outputs c) (allowMissingInputs c)
    (allowModifiedOutputs c) (alwaysOutOfDate c) (checkDirectoryDependenciesBeforeRunning c)
    (repairViaOwnershipAnalysis c) (skipValue c) (missingInputKeys c) (f (canUpdateIfNewer c))
    (hasPriorResult c).
Definition upd_hasPriorResult (f : bool -> bool) (c : ExternalCommand) : ExternalCommand :=
  mkExternal (cmdName c) (description c) (inputs c) (outputs c) (allowMissingInputs c)
    (allowModifiedOutputs c) (alwaysOutOfDate c) (checkDirectoryDependenciesBeforeRunning c)
    (repairViaOwnershipAnalysis c) (skipValue c) (missingInputKeys c) (canUpdateIfNewer c) (f
    (hasPriorResult c)).

Definition newExternalCommand (name : chars) : ExternalCommand :=
  mkExternal name [] [] [] false false false false false None [] true false.

(** ** Configuration *)
Definition configureDescription (value : chars) : ExternalCommand -> ExternalCommand := upd_description (fun _ => value).
Definition configureInputs (value : list nat) : ExternalCommand -> ExternalCommand := upd_inputs (fun l => l ++ value).
Definition configureOutputs (value : list nat) : ExternalCommand -> ExternalCommand := upd_outputs (fun l => l ++ value).

Definition boolAttribute (name value : chars) (f : bool -> ExternalCommand) : chars + ExternalCommand :=
  match parse_bool value with Some b => inr (f b) | None => inl (invalidValue value name) end.

Definition configureAttribute (name value : chars) (c : ExternalCommand) : chars + ExternalCommand :=
  if is_text name "allow-missing-inputs" then boolAttribute name value (fun b => upd_allowMissingInputs (fun _ => b) c)
  else if is_text name "allow-modified-outputs" then boolAttribute name value (fun b => upd_allowModifiedOutputs (fun _ => b) c)
  else if is_text name "always-out-of-date" then boolAttribute name value (fun b => upd_alwaysOutOfDate (fun _ => b) c)
  else if is_text name "check-directory-dependencies-before-running" then
    boolAttribute name value (fun b => upd_checkDirectoryDependenciesBeforeRunning (fun _ => b) c)
  else if is_text name "repair-via-ownership-analysis" then
    match parse_bool value with
    | Some b => inr (upd_repairViaOwnershipAnalysis (fun _ => b) c)
    | None => inl (chars_of "invalid value for attribute: " ++ quote name)
    end
  else inl (unexpectedAttribute name).
Definition configureOtherAttribute (name : chars) : chars + ExternalCommand := inl (unexpectedAttribute name).

Definition checksDependenciesBeforeRunning (c : ExternalCommand) : bool := checkDirectoryDependenciesBeforeRunning c.
Definition mustCheckDependencyBeforeRunning (key : Key.Key) (c : ExternalCommand) : bool :=
  checkDirectoryDependenciesBeforeRunning c && bool_decide (Key.kindOfKeyData key = Key.DirectoryTreeSignature).

(** ** Predicates of values *)
Definition isKind (k : Value.Kind) (v : BuildValue) : bool := bool_decide (Value.kind v = k).
Definition isSuccessful (v : BuildValue) : bool := Value.isSuccessfulCommand (Value.kind v).

(** ** Operations *)
Inductive DelegateCall :=
| commandCannotBuildOutputDueToMissingInputs (output : option nat) (keys : list Key.Key)
| hadCommandFailure
| commandStarted
| commandFinished (st : ProcessStatus).

Inductive Execution :=
| Immediate (calls : list DelegateCall) (v : BuildValue)
| Launch (calls : list DelegateCall) (directories : list chars).

Section Commands.
Context (node : nat -> BuildNode).

Definition getSignature (H : Hashes) (c : ExternalCommand) : Z :=
  combineBool H (alwaysOutOfDate c)
    (combineBool H (allowModifiedOutputs c)
      (combineBool H (allowMissingInputs c)
        (combineAll H (map (fun n => nodeName (node n)) (outputs c))
          (combineAll H (map (fun n => nodeName (node n)) (inputs c)) (newSignature H (cmdName c)))))).

(** [std::find]. *)
Fixpoint index_of (n : nat) (l : list nat) : option nat :=
  match l with [] => None | m :: l' => if (m =? n)%nat then Some 0%nat else S <$> index_of n l' end.

Definition getResultForOutput (n : nat) (v : BuildValue) (c : ExternalCommand) : outcome BuildValue :=
  if isKind Value.FailedCommand v || isKind Value.PropagatedFailureCommand v || isKind Value.CancelledCommand v
  then Ok Value.makeFailedInput
  else if isKind Value.SkippedCommand v then Ok Value.makeSkippedCommand
  else if negb (isSuccessful v) then Crash (AssertFailed "value.isSuccessfulCommand()")
  else if isVirtual (node n) && negb (isCommandTimestamp (node n)) then Ok Value.makeVirtualInput
  else match index_of n (outputs c) with
  | None => Crash (AssertFailed "it != outputs.end()")
  | Some idx =>
      obind (Value.getNumOutputs v) (fun num =>
      if negb (Z.of_nat idx <? num)%Z then Crash (AssertFailed "idx < value.getNumOutputs()")
      else
        obind (Value.getNthOutputInfo v idx) (fun info =>
        if isMissing info then Ok Value.makeMissingOutput else Value.makeExistingInput info))
  end.

(** The loop over the outputs, from index [i]. *)
Fixpoint outputsValid (fs : chars -> FileInfo) (v : BuildValue) (i : nat) (outs : list nat) : outcome bool :=
  match outs with
  | [] => Ok true
  | n :: rest =>
      if isVirtual (node n) then outputsValid fs v (S i) rest
      else
        obind (BuildNode.getFileInfo fs (node n)) (fun info =>
        obind (Value.getNthOutputInfo v i) (fun old =>
        if isMutated (node n) then
          if Bool.eqb (isMissing old) (isMissing info) then outputsValid fs v (S i) rest else Ok false
        else if FileInfo_eqb old info then outputsValid fs v (S i) rest else Ok false))
  end.

Definition isResultValid (fs : chars -> FileInfo) (v : BuildValue) (c : ExternalCommand) : outcome bool :=
  if alwaysOutOfDate c then Ok false
  else if negb (isSuccessful v) then Ok false
  else outputsValid fs v 0 (outputs c).

(** The requests made by [start], with their input IDs. *)
Definition inputKey (n : nat) : Key.Key := Key.makeNode (bytes_of (nodeName (node n))).
Definition start (c : ExternalCommand) : list (Key.Key * nat) * ExternalCommand :=
  (imap (fun id n => (inputKey n, id)) (inputs c), upd_missingInputKeys (fun _ => []) (upd_skipValue (fun _ => None) c)).

Definition providePriorValue (v : BuildValue) (c : ExternalCommand) : ExternalCommand :=
  if isSuccessful v then upd_hasPriorResult (fun _ => true) c else c.

Definition isNodeValue (v : BuildValue) : bool :=
  isKind Value.ExistingInput v || isKind Value.MissingInput v || isKind Value.MissingOutput v || isKind Value.FailedInput v
  || isKind Value.VirtualInput v || isKind Value.SkippedCommand v || isKind Value.DirectoryTreeSignature v
  || isKind Value.DirectoryTreeStructureSignature v || isKind Value.StaleFileRemoval v.

Definition getSkipValueForInput (v : BuildValue) (c : ExternalCommand) : outcome (option BuildValue) :=
  if isKind Value.DirectoryTreeSignature v || isKind Value.DirectoryTreeStructureSignature v || isKind Value.ExistingInput v
     || isKind Value.VirtualInput v || isKind Value.StaleFileRemoval v then Ok None
  else if isKind Value.MissingOutput v then Ok None
  else if isKind Value.MissingInput v then
    Ok (if allowMissingInputs c then None else Some Value.makePropagatedFailureCommand)
  else if isKind Value.FailedInput v then Ok (Some Value.makePropagatedFailureCommand)
  else if isKind Value.SkippedCommand v then Ok None
  else Crash (AssertFailed "unexpected input").

Definition provideValue (inputID : nat) (key : Key.Key) (v : BuildValue) (c : ExternalCommand) : outcome ExternalCommand :=
  if isSuccessful v || isKind Value.FailedCommand v || isKind Value.PropagatedFailureCommand v || isKind Value.CancelledCommand v
  then Ok c
  else if Value.hasMultipleOutputs v then Crash (AssertFailed "!value.hasMultipleOutputs()")
  else if negb (isNodeValue v) then Crash (AssertFailed "direct input is a node value")
  else
    obind (getSkipValueForInput v c) (fun skip =>
    match skip with
    | Some s =>
        let c' := upd_skipValue (fun _ => Some s) c in
        if isKind Value.MissingInput v then
          match inputs c !! inputID with
          | Some n => Ok (upd_missingInputKeys (fun l => l ++ [inputKey n]) c')
          | None => obind (Key.fromData key) (fun k => Ok (upd_missingInputKeys (fun l => l ++ [k]) c'))
          end
        else Ok c'
    | None => Ok (if isKind Value.MissingOutput v then upd_canUpdateIfNewer (fun _ => false) c else c)
    end).

(** The outputs of [result] from index [i] on exist. *)
Fixpoint outputsExist (result : BuildValue) (i count : nat) : outcome bool :=
  match count with
  | O => Ok true
  | S count' =>
      obind (Value.getNthOutputInfo result i) (fun info =>
      if isMissing info then Ok false else outputsExist result (S i) count')
  end.
Definition canUpdateIfNewerWithResult (result : BuildValue) (c : ExternalCommand) : outcome bool :=
  if negb (allowModifiedOutputs c) then Ok false
  else obind (Value.getNumOutputs result) (fun num => outputsExist result 0 (Z.to_nat num)).

Definition timestampInfo (epoch : Z) : FileInfo :=
  mkFileInfo 0 0 0 epoch (mkTimestamp 0 0) zeroChecksum.

Definition outputInfo (fs : chars -> FileInfo) (epoch : Z) (n : nat) : outcome FileInfo :=
  if isCommandTimestamp (node n) then Ok (timestampInfo epoch)
  else if isVirtual (node n) then Ok zeroFileInfo
  else BuildNode.getFileInfo fs (node n).

Fixpoint outputInfos (fs : chars -> FileInfo) (epoch : Z) (outs : list nat) : outcome (list FileInfo) :=
  match outs with
  | [] => Ok []
  | n :: rest => obind (outputInfo fs epoch n) (fun i => obind (outputInfos fs epoch rest) (fun l => Ok (i :: l)))
  end.

Definition computeCommandResult (fs : chars -> FileInfo) (epoch : Z) (c : ExternalCommand) : outcome BuildValue :=
  obind (outputInfos fs epoch (outputs c)) (fun infos =>
  Value.makeSuccessfulCommand (match outputs c with [] => infos ++ [timestampInfo epoch] | _ => infos end)).

(** The directories created for the outputs. *)
Definition outputDirectory (n : nat) : option chars :=
  if isVirtual (node n) then None
  else
    let parent := parent_path (nodeName (node n)) in
    let parent := if ends_with_slash (nodeName (node n)) then parent_path parent else parent in
    if decide (parent = []) then None else Some parent.

Definition execute (fs : chars -> FileInfo) (epoch : Z) (c : ExternalCommand) : outcome Execution :=
  match skipValue c with
  | Some v =>
      Ok (Immediate (match missingInputKeys c with
                     | [] => []
                     | keys => [commandCannotBuildOutputDueToMissingInputs (head (outputs c)) keys; hadCommandFailure]
                     end) v)
  | None =>
      if decide (missingInputKeys c = []) then
        let launch := Launch [commandStarted] (omap outputDirectory (outputs c)) in
        if canUpdateIfNewer c && hasPriorResult c then
          obind (computeCommandResult fs epoch c) (fun result =>
          obind (canUpdateIfNewerWithResult result c) (fun ok =>
          Ok (if ok : bool then Immediate [] result else launch)))
        else Ok launch
      else Crash (AssertFailed "missingInputKeys.empty()")
  end.

(** The completion function: [fs] and [epoch] are those at completion. *)
Definition complete (fs : chars -> FileInfo) (epoch : Z) (st : ProcessStatus) (c : ExternalCommand) : outcome (list DelegateCall * BuildValue) :=
  let calls := [commandFinished st] in
  match st with
  | Failed => Ok (calls, Value.makeFailedCommand)
  | Cancelled => Ok (calls, Value.makeCancelledCommand)
  | Succeeded => obind (computeCommandResult fs epoch c) (fun v => Ok (calls, v))
  | Skipped | Unknown => Crash (AbortCalled "unknown result")
  end.
End Commands.
