(* ===== verification/ExternalCommandProps.v ===== *)
(** * Properties of external commands

    What a finished command stores and when a later build accepts it, and what a command
    does with the values of its inputs. *)

From Stdlib Require Import Ascii String Lia ZArith.
From stdpp Require Import base list strings numbers.
From S2P Require Import Prelude Chars NinjaPath Coding BuildValue BuildKey Process BuildNode ExternalCommand.

Local Open Scope nat_scope.

(** Evaluates the tests of a value's kind, once the kind is known. *)
Ltac eval_kind t :=
  let r := eval vm_compute in t in
  match r with true => idtac | false => idtac end; change t with r in *.
Ltac eval_kinds :=
  repeat match goal with
  | |- context [isKind ?k ?v] => eval_kind (isKind k v)
  | |- context [isSuccessful ?v] => eval_kind (isSuccessful v)
  | |- context [Value.isSuccessfulCommand ?k] => eval_kind (Value.isSuccessfulCommand k)
  | |- context [bool_decide (?a = ?b)] => eval_kind (bool_decide (a = b))
  end.

Section Results.
Context (node : nat -> BuildNode).

(** ** The stored result *)

(** The file information of output [n] at the end of the command. *)
Definition recorded (fs : chars -> FileInfo) (epoch : Z) (n : nat) : FileInfo :=
  if isCommandTimestamp (node n) then timestampInfo epoch
  else if isVirtual (node n) then zeroFileInfo
  else fs (statPath (nodeName (node n))).

(** The information stored for the whole command. *)
Definition recordedAll (fs : chars -> FileInfo) (epoch : Z) (c : ExternalCommand) : list FileInfo :=
  match outputs c with [] => [timestampInfo epoch] | outs => map (recorded fs epoch) outs end.

(** Output [n] did not change between the end of the command and the file system [fs']. *)
Definition unchanged (fs fs' : chars -> FileInfo) (epoch : Z) (n : nat) : bool :=
  isVirtual (node n)
  || (let old := recorded fs epoch n in
      let new := fs' (statPath (nodeName (node n))) in
      if isMutated (node n) then Bool.eqb (isMissing old) (isMissing new) else FileInfo_eqb old new).

(** The value a consumer of output [n] gets. *)
Definition outputValue (fs : chars -> FileInfo) (epoch : Z) (n : nat) : BuildValue :=
  if isVirtual (node n) && negb (isCommandTimestamp (node n)) then Value.makeVirtualInput
  else if isMissing (recorded fs epoch n) then Value.makeMissingOutput
  else Value.value_of Value.ExistingInput 0 [recorded fs epoch n] emptyStringList.

Lemma outputInfos_recorded fs epoch outs : outputInfos node fs epoch outs = Ok (map (recorded fs epoch) outs).
Proof.
  induction outs as [|n outs IH]; [done|]. cbn [outputInfos map]. rewrite IH.
  unfold outputInfo, recorded, BuildNode.getFileInfo. destruct (isCommandTimestamp _); [done|]. by destruct (isVirtual _).
Qed.

Lemma recordedAll_length fs epoch c : length (recordedAll fs epoch c) = max 1 (length (outputs c)).
Proof. unfold recordedAll. destruct (outputs c); [done|]. rewrite length_map. cbn. lia. Qed.

Lemma recordedAll_lookup fs epoch c i n : outputs c !! i = Some n ->
  recordedAll fs epoch c !! i = Some (recorded fs epoch n).
Proof.
  intros H. unfold recordedAll. destruct (outputs c) as [|n0 outs] eqn:E; [done|].
  by rewrite list_lookup_fmap, H.
Qed.

Definition result_of (fs : chars -> FileInfo) (epoch : Z) (c : ExternalCommand) : BuildValue :=
  Value.value_of Value.SuccessfulCommand 0 (recordedAll fs epoch c) emptyStringList.

Definition few_outputs (c : ExternalCommand) : Prop := (Z.of_nat (length (outputs c)) < 2 ^ 32)%Z.

Lemma computeCommandResult_ok fs epoch c : few_outputs c ->
  computeCommandResult node fs epoch c = Ok (result_of fs epoch c).
Proof.
  intros H. unfold few_outputs in H. unfold computeCommandResult. rewrite outputInfos_recorded. cbn [obind].
  replace (match outputs c with [] => _ | _ => _ end) with (recordedAll fs epoch c)
    by (unfold recordedAll; by destruct (outputs c)).
  apply Value.new_outputs_length. rewrite recordedAll_length. lia.
Qed.

Lemma result_lookup fs epoch c i f : recordedAll fs epoch c !! i = Some f ->
  Value.getNthOutputInfo (result_of fs epoch c) i = Ok f.
Proof. by apply Value.nth_output. Qed.
Lemma result_nth fs epoch c i n : outputs c !! i = Some n ->
  Value.getNthOutputInfo (result_of fs epoch c) i = Ok (recorded fs epoch n).
Proof. intros H. by apply result_lookup, recordedAll_lookup. Qed.

Lemma outputsValid_unchanged fs fs' epoch c rest i : drop i (outputs c) = rest ->
  outputsValid node fs' (result_of fs epoch c) i rest = Ok (forallb (unchanged fs fs' epoch) rest).
Proof.
  revert i. induction rest as [|n rest IH]; intros i Hd; [done|].
  destruct (drop_cons_lookup _ _ _ _ Hd) as [Hi Hr].
  cbn [outputsValid forallb]. unfold unchanged at 1, BuildNode.getFileInfo.
  destruct (isVirtual (node n)); [by apply IH|]. cbn [obind orb].
  rewrite (result_nth _ _ _ _ _ Hi). cbn [obind].
  destruct (isMutated _); [destruct (Bool.eqb _ _)|destruct (FileInfo_eqb _ _)]; (done || by apply IH).
Qed.

Lemma index_of_lookup n l : n ∈ l -> exists i, index_of n l = Some i /\ l !! i = Some n.
Proof.
  induction l as [|m l IH]; intros H; [by apply elem_of_nil in H|]. cbn [index_of].
  destruct (Nat.eqb_spec m n) as [->|Hne]; [by exists 0|].
  apply elem_of_cons in H as [->|H]; [done|]. destruct (IH H) as (i & -> & Hi). by exists (S i).
Qed.

Lemma getResultForOutput_recorded fs epoch c n : n ∈ outputs c ->
  getResultForOutput node n (result_of fs epoch c) c = Ok (outputValue fs epoch n).
Proof.
  intros Hn. destruct (index_of_lookup _ _ Hn) as (i & Ei & Hi).
  unfold getResultForOutput, outputValue. eval_kinds. cbn [orb negb].
  destruct (isVirtual (node n) && _); [done|]. rewrite Ei.
  change (Value.getNumOutputs (result_of fs epoch c)) with (Ok (Z.of_nat (length (recordedAll fs epoch c)))). cbn [obind].
  pose proof (lookup_lt_Some _ _ _ (recordedAll_lookup fs epoch c _ _ Hi)) as Hlt.
  destruct (Z.ltb_spec (Z.of_nat i) (Z.of_nat (length (recordedAll fs epoch c)))); [|lia]. cbn [negb].
  rewrite (result_nth _ _ _ _ _ Hi). cbn [obind]. destruct (isMissing _) eqn:Em; [done|].
  unfold Value.makeExistingInput. by rewrite Em.
Qed.

Lemma timestampInfo_valid epoch : range 64 epoch -> valid_info (timestampInfo epoch).
Proof. intros H. unfold valid_info, range in *. cbn. repeat split; lia || done. Qed.

Lemma recorded_valid fs epoch n : (forall p, valid_info (fs p)) -> range 64 epoch -> valid_info (recorded fs epoch n).
Proof.
  intros Hf He. unfold recorded. destruct (isCommandTimestamp _); [by apply timestampInfo_valid|].
  destruct (isVirtual _); [by apply (timestampInfo_valid 0)|apply Hf].
Qed.

Lemma recordedAll_valid fs epoch c : (forall p, valid_info (fs p)) -> range 64 epoch ->
  Forall valid_info (recordedAll fs epoch c).
Proof.
  intros Hf He. unfold recordedAll. destruct (outputs c) as [|n outs].
  - repeat constructor; by apply timestampInfo_valid.
  - apply Forall_fmap, Forall_forall. intros m _. by apply recorded_valid.
Qed.

Lemma result_roundtrip fs epoch c : few_outputs c -> (forall p, valid_info (fs p)) -> range 64 epoch ->
  exists bs, Value.toData (result_of fs epoch c) = Ok bs /\ Value.fromData bs = Ok (result_of fs epoch c).
Proof.
  intros Hc Hf He. apply Value.parts_roundtrip. split; [by apply (bool_decide_unpack _); vm_compute|].
  split; [done|]. split; [|done]. unfold few_outputs in Hc. cbn. split; [by apply recordedAll_valid|].
  unfold range. rewrite recordedAll_length. lia.
Qed.

(** C10: What a successful command stores, and what later builds make of it.  A command with
    fewer than 2^32 outputs that finishes at file system [fs] and epoch [epoch] completes
    with a value that survives the byte encoding of the database.  A later build, at file
    system [fs'], decodes it and accepts it exactly when the command is not marked as always
    out of date and every output that is not virtual is unchanged: the same file
    information, or for outputs the build mutates, the same existence.  The flag that
    allows modified outputs plays no part in this test ([modified_output_invalidates]); it
    only decides what the rerun does.  The consumer of an
    output gets the file information recorded for it, a missing output where there was no
    file, or a virtual input.  No assertion fails on the way. *)
Theorem stored_result_valid_iff fs fs' epoch c :
  few_outputs c -> (forall p, valid_info (fs p)) -> range 64 epoch ->
  exists v bs, complete node fs epoch Succeeded c = Ok ([commandFinished Succeeded], v)
    /\ Value.toData v = Ok bs
    /\ exists v', Value.fromData bs = Ok v'
      /\ isResultValid node fs' v' c = Ok (negb (alwaysOutOfDate c) && forallb (unchanged fs fs' epoch) (outputs c))
      /\ (forall n, n ∈ outputs c -> getResultForOutput node n v' c = Ok (outputValue fs epoch n)).
Proof.
  intros Hc Hf He. destruct (result_roundtrip fs epoch c Hc Hf He) as (bs & Et & Ef).
  exists (result_of fs epoch c), bs. cbn [complete]. rewrite computeCommandResult_ok by done.
  do 2 (split; [done|]). exists (result_of fs epoch c). split; [done|]. split.
  - unfold isResultValid. eval_kinds. destruct (alwaysOutOfDate c); [done|]. cbn [negb andb].
    by apply outputsValid_unchanged.
  - intros n Hn. by apply getResultForOutput_recorded.
Qed.
End Results.

(** An output that was written again is noticed, one that was only touched by a later
    command that mutates it is not. *)
Lemma stored_result_valid_iff_witness :
  let node := fun n => match n with 0 => makePlain (chars_of "a.o") | _ => set_mutated true (makePlain (chars_of "b.o")) end in
  let c := upd_outputs (fun _ => [0; 1]) (newExternalCommand (chars_of "cc")) in
  let f := fun t => mkFileInfo 1 2 3 4 (mkTimestamp t 0) zeroChecksum in
  let fs := fun _ : chars => f 7%Z in
  let fs' := fun p => if is_text p "a.o" then f 7%Z else f 8%Z in
  exists v bs, complete node fs 3 Succeeded c = Ok ([commandFinished Succeeded], v)
    /\ Value.toData v = Ok bs
    /\ exists v', Value.fromData bs = Ok v'
      /\ isResultValid node fs' v' c = Ok (negb (alwaysOutOfDate c) && forallb (unchanged node fs fs' 3) (outputs c))
      /\ (forall n, n ∈ outputs c -> getResultForOutput node n v' c = Ok (outputValue node fs 3 n)).
Proof.
  intros node c f fs fs'. apply (stored_result_valid_iff node fs fs' 3 c).
  - reflexivity.
  - intros p. unfold valid_info, range. cbn. repeat split; lia || done.
  - unfold range. lia.
Defined.

(** ** The run of a command *)
Section Runs.
Context (node : nat -> BuildNode).

(** The engine's calls on a command: [start], the prior value if there is one, then the
    value of every input, in any order. *)
Fixpoint provideAll (vals : list (nat * Key.Key * BuildValue)) (c : ExternalCommand) : outcome ExternalCommand :=
  match vals with
  | [] => Ok c
  | (id, key, v) :: vals' => obind (provideValue node id key v c) (provideAll vals')
  end.
Definition run (prior : option BuildValue) (vals : list (nat * Key.Key * BuildValue)) (c : ExternalCommand) : outcome ExternalCommand :=
  let c := (start node c).2 in
  provideAll vals (match prior with Some v => providePriorValue v c | None => c end).

(** The values an input can have: those of nodes, and those of commands. *)
Definition input_value (v : BuildValue) : bool :=
  (isNodeValue v && negb (Value.hasMultipleOutputs v))
  || isSuccessful v || isKind Value.FailedCommand v || isKind Value.PropagatedFailureCommand v || isKind Value.CancelledCommand v.

(** The input was neither built nor found. *)
Definition missing (c : ExternalCommand) (v : BuildValue) : bool := isKind Value.MissingInput v && negb (allowMissingInputs c).
Definition blocks (c : ExternalCommand) (v : BuildValue) : bool := isKind Value.FailedInput v || missing c v.

(** The keys of the missing inputs. *)
Definition missingKeys (c : ExternalCommand) (vals : list (nat * Key.Key * BuildValue)) : list Key.Key :=
  flat_map (fun '(id, _, v) => if missing c v then match inputs c !! id with Some n => [inputKey node n] | None => [] end else []) vals.

(** What one value does to the command. *)
Definition absorb (id : nat) (v : BuildValue) (c : ExternalCommand) : ExternalCommand :=
  upd_skipValue (fun s => if blocks c v then Some Value.makePropagatedFailureCommand else s)
    (upd_missingInputKeys (fun l => l ++ (if missing c v then match inputs c !! id with Some n => [inputKey node n] | None => [] end else []))
      (upd_canUpdateIfNewer (fun b => b && negb (isKind Value.MissingOutput v)) c)).

Lemma provideValue_absorb id key v c : input_value v = true -> id < length (inputs c) ->
  provideValue node id key v c = Ok (absorb id v c).
Proof.
  intros Hv Hid. apply lookup_lt_is_Some in Hid as [n Hn].
  unfold input_value, isNodeValue, isKind, isSuccessful in Hv.
  unfold provideValue, absorb, blocks, missing, getSkipValueForInput, isNodeValue, isKind, isSuccessful.
  destruct c as [nm d ins outs ami amo aood chk rep skip mk can prior]. cbn in Hn.
  destruct (Value.kind v) eqn:Ek; revert Hv; eval_kinds; cbn; rewrite ?orb_false_r, ?negb_true_iff; intros Hv;
    try discriminate; rewrite ?Hv, ?Hn; cbn; try destruct ami; eval_kinds;
    unfold upd_skipValue, upd_missingInputKeys, upd_canUpdateIfNewer; cbn;
    rewrite ?Hn, ?app_nil_r, ?andb_true_r, ?andb_false_r; done.
Qed.

(** The state after all values were provided. *)
Definition absorbed (vals : list (nat * Key.Key * BuildValue)) (c : ExternalCommand) : ExternalCommand :=
  upd_skipValue (fun s => if existsb (fun '(_, _, v) => blocks c v) vals then Some Value.makePropagatedFailureCommand else s)
    (upd_missingInputKeys (fun l => l ++ missingKeys c vals)
      (upd_canUpdateIfNewer (fun b => b && negb (existsb (fun '(_, _, v) => isKind Value.MissingOutput v) vals)) c)).

Definition inputs_ok (c : ExternalCommand) (vals : list (nat * Key.Key * BuildValue)) : Prop :=
  Forall (fun '(id, _, v) => id < length (inputs c) /\ input_value v = true) vals.

Lemma provideAll_absorbed vals c : inputs_ok c vals -> provideAll vals c = Ok (absorbed vals c).
Proof.
  revert c. induction vals as [|[[id key] v] vals IH]; intros c H.
  - destruct c. unfold absorbed, upd_skipValue, upd_missingInputKeys, upd_canUpdateIfNewer. cbn. by rewrite app_nil_r, andb_true_r.
  - apply Forall_cons_1 in H as [[Hid Hv] Hr]. cbn [provideAll]. rewrite provideValue_absorb by done. cbn [obind].
    rewrite IH by (destruct c; exact Hr). f_equal. destruct c.
    unfold absorbed, absorb, missingKeys, blocks, missing, upd_skipValue, upd_missingInputKeys, upd_canUpdateIfNewer. cbn.
    rewrite <- !app_assoc, negb_orb, andb_assoc. cbn.
    by destruct (_ || _), (existsb _ vals).
Qed.

Lemma outputsExist_count fs epoch c rest i : drop i (recordedAll node fs epoch c) = rest ->
  outputsExist (result_of node fs epoch c) i (length rest) = Ok (forallb (fun f => negb (isMissing f)) rest).
Proof.
  revert i. induction rest as [|f rest IH]; intros i Hd; [done|]. cbn [length outputsExist forallb].
  destruct (drop_cons_lookup _ _ _ _ Hd) as [Hi Hr]. rewrite (result_lookup _ _ _ _ _ _ Hi).
  cbn [obind]. destruct (isMissing f); [done|]. by apply IH.
Qed.

(** The command is finished without running it. *)
Definition reusable (fs : chars -> FileInfo) (epoch : Z) (c : ExternalCommand) : bool :=
  canUpdateIfNewer c && hasPriorResult c && allowModifiedOutputs c
  && forallb (fun f => negb (isMissing f)) (recordedAll node fs epoch c).

Lemma execute_reusable fs epoch c : few_outputs c -> skipValue c = None -> missingInputKeys c = [] ->
  execute node fs epoch c
  = Ok (if reusable fs epoch c then Immediate [] (result_of node fs epoch c)
        else Launch [commandStarted] (omap (outputDirectory node) (outputs c))).
Proof.
  intros Hf Hs Hm. unfold execute, reusable. rewrite Hs. rewrite decide_True by done.
  destruct (canUpdateIfNewer c && hasPriorResult c); [|done]. rewrite computeCommandResult_ok by done. cbn [obind andb].
  unfold canUpdateIfNewerWithResult. destruct (allowModifiedOutputs c); [|done]. cbn [negb].
  change (Value.getNumOutputs (result_of node fs epoch c)) with (Ok (Z.of_nat (length (recordedAll node fs epoch c)))).
  cbn [obind]. rewrite Nat2Z.id, (outputsExist_count fs epoch c (recordedAll node fs epoch c) 0) by done. done.
Qed.

(** A missing input blocks the command. *)
Lemma unblocked_missing c vals : existsb (fun '(_, _, v) => blocks c v) vals = false -> missingKeys c vals = [].
Proof.
  induction vals as [|[[id key] v] vals IH]; [done|]. cbn. rewrite orb_false_iff. intros [Hb Hr].
  unfold blocks in Hb. apply orb_false_iff in Hb as [_ ->]. by apply IH.
Qed.

(** C11: A run of a command on any values of its inputs, delivered in any order.  The values
    are those of nodes or of commands, for inputs the command has, and it has fewer than
    2^32 outputs.  No assertion fails.  If some input failed, or is missing and missing inputs are not
    allowed, the command is not run: it completes as a propagated failure, and if inputs
    were missing, exactly their keys are reported, in order of arrival, for the first
    output.  Otherwise the command is started, after the directories of its outputs are
    created; only with modified outputs allowed, after an earlier success, with every input
    produced and every output recorded as present, is the recorded state of the outputs the
    result instead.  A virtual output is recorded as missing unless it is a command
    timestamp, so a command with one is always started ([virtual_output_always_runs]). *)
Theorem command_run fs epoch prior vals c :
  few_outputs c -> inputs_ok c vals ->
  exists c', run prior vals c = Ok c'
    /\ execute node fs epoch c' = Ok (
      if existsb (fun '(_, _, v) => blocks c v) vals
      then Immediate
             (match missingKeys c vals with
              | [] => []
              | keys => [commandCannotBuildOutputDueToMissingInputs (head (outputs c)) keys; hadCommandFailure]
              end) Value.makePropagatedFailureCommand
      else if canUpdateIfNewer c && negb (existsb (fun '(_, _, v) => isKind Value.MissingOutput v) vals)
              && (hasPriorResult c || from_option isSuccessful false prior) && allowModifiedOutputs c
              && forallb (fun f => negb (isMissing f)) (recordedAll node fs epoch c)
      then Immediate [] (result_of node fs epoch c)
      else Launch [commandStarted] (omap (outputDirectory node) (outputs c))).
Proof.
  intros Hf Hi. unfold run. set (c1 := match prior with Some _ => _ | None => _ end).
  assert (E1 : c1 = upd_hasPriorResult (fun b => b || from_option isSuccessful false prior) (start node c).2).
  { unfold c1, providePriorValue. destruct c, prior as [v|]; cbn; [destruct (isSuccessful v)|];
      unfold upd_hasPriorResult; cbn; rewrite ?orb_true_r, ?orb_false_r; done. }
  exists (absorbed vals c1). split; [apply provideAll_absorbed; rewrite E1; by destruct c|].
  rewrite E1. clear c1 E1. set (c1 := upd_hasPriorResult _ _).
  assert (Es : skipValue (absorbed vals c1)
             = if existsb (fun '(_, _, v) => blocks c v) vals then Some Value.makePropagatedFailureCommand else None)
    by (by destruct c).
  assert (Em : missingInputKeys (absorbed vals c1) = missingKeys c vals) by (by destruct c).
  destruct (existsb (fun '(_, _, v) => blocks c v) vals) eqn:Eb.
  - unfold execute. rewrite Es, Em. by destruct c.
  - rewrite execute_reusable; [|by destruct c|done|by rewrite Em; apply unblocked_missing].
    destruct c. unfold reusable, absorbed. cbn. by rewrite <- !andb_assoc.
Qed.
End Runs.

(** One input failed and one is missing. *)
Lemma command_run_witness :
  let node := fun n => makePlain (chars_of (if (n =? 0)%nat then "a.c" else if (n =? 1)%nat then "b.c" else "out/x.o")) in
  let c := upd_inputs (fun _ => [0; 1]) (upd_outputs (fun _ => [2]) (newExternalCommand (chars_of "cc"))) in
  let key := inputKey node in
  exists c', run node None [(1, key 1, Value.makeFailedInput); (0, key 0, Value.makeMissingInput)] c = Ok c'
    /\ execute node (fun _ => zeroFileInfo) 1 c'
       = Ok (Immediate [commandCannotBuildOutputDueToMissingInputs (Some 2) [key 0]; hadCommandFailure]
               Value.makePropagatedFailureCommand).
Proof.
  intros node c key.
  apply (command_run node (fun _ => zeroFileInfo) 1 None [(1, key 1, Value.makeFailedInput); (0, key 0, Value.makeMissingInput)] c).
  - reflexivity.
  - repeat constructor.
Defined.

(** ** What a command remembers between builds

    A command that may modify its outputs ran successfully once.  Its output is removed and
    it is run again, but fails and leaves a file behind.  In the next build of the same
    process its prior value is the failure, but the command still counts as having a prior
    result: the file the failed run left is recorded as a success without running the
    command.  In a new process the same build runs it. *)
Example failed_run_reused :
  let node := fun n => makePlain (chars_of (if (n =? 0)%nat then "in" else "out")) in
  let c0 := upd_allowModifiedOutputs (fun _ => true)
              (upd_inputs (fun _ => [0]) (upd_outputs (fun _ => [1]) (newExternalCommand (chars_of "cmd")))) in
  let f := mkFileInfo 1 2 3 4 (mkTimestamp 5 6) zeroChecksum in
  let input := Value.value_of Value.ExistingInput 0 [f] emptyStringList in
  let good := result_of node (fun _ => f) 1 c0 in
  let build prior c := run node (Some prior) [(0, inputKey node 0, input)] c in
  match build good c0 with
  | Ok c1 =>
      match build Value.makeFailedCommand c1, build Value.makeFailedCommand c0 with
      | Ok c2, Ok c2' =>
          execute node (fun _ => zeroFileInfo) 2 c1 = Ok (Launch [commandStarted] [])
          /\ complete node (fun _ => f) 2 Failed c1 = Ok ([commandFinished Failed], Value.makeFailedCommand)
          /\ execute node (fun _ => f) 3 c2 = Ok (Immediate [] (result_of node (fun _ => f) 3 c0))
          /\ execute node (fun _ => f) 3 c2' = Ok (Launch [commandStarted] [])
      | _, _ => False
      end
  | _ => False
  end.
Proof. vm_compute. repeat split; reflexivity. Qed.

(** A command that may modify its outputs and has a virtual output always runs: the empty
    information recorded for the virtual node counts as a missing file. *)
Example virtual_output_always_runs :
  let node := fun n => if (n =? 0)%nat then makeVirtual (chars_of "<all>") else makePlain (chars_of "out") in
  let c := upd_hasPriorResult (fun _ => true) (upd_allowModifiedOutputs (fun _ => true)
              (upd_outputs (fun _ => [0; 1]) (newExternalCommand (chars_of "cmd")))) in
  let f := mkFileInfo 1 2 3 4 (mkTimestamp 5 6) zeroChecksum in
  execute node (fun _ => f) 3 c = Ok (Launch [commandStarted] []).
Proof. vm_compute. reflexivity. Qed.

(** A command that may modify its outputs is not valid any more once its output changed: the
    flag is not consulted.  The rerun then takes the changed output for the result, which is
    not the one stored, so that what depends on it sees a change. *)
Example modified_output_invalidates :
  let node := fun _ => makePlain (chars_of "out") in
  let c := upd_hasPriorResult (fun _ => true) (upd_allowModifiedOutputs (fun _ => true)
              (upd_outputs (fun _ => [0]) (newExternalCommand (chars_of "cmd")))) in
  let f := fun t => mkFileInfo 1 2 3 4 (mkTimestamp t 6) zeroChecksum in
  let stored := result_of node (fun _ => f 5%Z) 1 c in
  let changed := result_of node (fun _ => f 7%Z) 2 c in
  isResultValid node (fun _ => f 7%Z) stored c = Ok false
  /\ execute node (fun _ => f 7%Z) 2 c = Ok (Immediate [] changed)
  /\ getResultForOutput node 0 stored c <> getResultForOutput node 0 changed c.
Proof. vm_compute. repeat split; try reflexivity. discriminate. Qed.
