(* ===== verification/ShellCommand.v ===== *)
(** * Shell commands

    [ShellCommand] (lib/BuildSystem ShellCommand.h, ShellCommand.cpp): the external command
    that runs a process with an argument list and an environment and reads the
    dependencies the process reports.  [external] is the base class subobject.  Calls on the
    build system's delegate and on the task interface are logged in order.  [cwd] is the
    current directory, [getFileContents] the file system. *)

From Stdlib Require Import Ascii String Lia ZArith.
From stdpp Require Import base list strings numbers pretty.
From S2P Require Import Prelude Chars ShellUtility MakefileDeps DependencyInfo NinjaPath Coding BuildValue BuildKey Process BuildNode ExternalCommand.

Local Open Scope nat_scope.

Module Shell.

Inductive DepsStyle := Unused | Makefile | DependencyInfo | MakefileIgnoringSubsequentOutputs.
#[export] Instance DepsStyle_eq_dec : EqDecision DepsStyle.
Proof. solve_decision. Defined.
Definition DepsStyle_code (s : DepsStyle) : Z :=
  match s with Unused => 0 | Makefile => 1 | DependencyInfo => 2 | MakefileIgnoringSubsequentOutputs => 3 end.

Abbreviation Bindings := (list (chars * chars)).

Record ShellCommand := mkShell {
  external : ExternalCommand;
  args : list chars;
  signatureData : chars;
  signatureIgnoredArgs : list Z;
  additionalSignatureData : chars;
  envOverrides : Bindings;
  envBase : option Bindings;
  depsPaths : list chars;
  depsStyle : DepsStyle;
  inheritEnv : bool;
  canSafelyInterrupt : bool;
  workingDirectory : chars;
  controlEnabled : bool;
  cachedSignature : Z }.

Definition newShellCommand (name : chars) (control : bool) : ShellCommand :=
  mkShell (newExternalCommand name) [] [] [] [] [] None [] Unused true true [] control nullSignature.

Definition set_external (x : ExternalCommand) (s : ShellCommand) : ShellCommand :=
  mkShell x (args s) (signatureData s) (signatureIgnoredArgs s) (additionalSignatureData s) (envOverrides s) (envBase s)
    (depsPaths s) (depsStyle s) (inheritEnv s) (canSafelyInterrupt s) (workingDirectory s) (controlEnabled s) (cachedSignature s).
Definition set_args (x : list chars) (s : ShellCommand) : ShellCommand :=
  mkShell (external s) x (signatureData s) (signatureIgnoredArgs s) (additionalSignatureData s) (envOverrides s) (envBase s)
    (depsPaths s) (depsStyle s) (inheritEnv s) (canSafelyInterrupt s) (workingDirectory s) (controlEnabled s) (cachedSignature s).
Definition set_signatureData (x : chars) (s : ShellCommand) : ShellCommand :=
  mkShell (external s) (args s) x (signatureIgnoredArgs s) (additionalSignatureData s) (envOverrides s) (envBase s)
    (depsPaths s) (depsStyle s) (inheritEnv s) (canSafelyInterrupt s) (workingDirectory s) (controlEnabled s) (cachedSignature s).
Definition set_ignored (x : list Z) (s : ShellCommand) : ShellCommand :=
  mkShell (external s) (args s) (signatureData s) x (additionalSignatureData s) (envOverrides s) (envBase s)
    (depsPaths s) (depsStyle s) (inheritEnv s) (canSafelyInterrupt s) (workingDirectory s) (controlEnabled s) (cachedSignature s).
Definition set_additional (x : chars) (s : ShellCommand) : ShellCommand :=
  mkShell (external s) (args s) (signatureData s) (signatureIgnoredArgs s) x (envOverrides s) (envBase s)
    (depsPaths s) (depsStyle s) (inheritEnv s) (canSafelyInterrupt s) (workingDirectory s) (controlEnabled s) (cachedSignature s).
Definition set_overrides (x : Bindings) (s : ShellCommand) : ShellCommand :=
  mkShell (external s) (args s) (signatureData s) (signatureIgnoredArgs s) (additionalSignatureData s) x (envBase s)
    (depsPaths s) (depsStyle s) (inheritEnv s) (canSafelyInterrupt s) (workingDirectory s) (controlEnabled s) (cachedSignature s).
Definition set_base (x : option Bindings) (s : ShellCommand) : ShellCommand :=
  mkShell (external s) (args s) (signatureData s) (signatureIgnoredArgs s) (additionalSignatureData s) (envOverrides s) x
    (depsPaths s) (depsStyle s) (inheritEnv s) (canSafelyInterrupt s) (workingDirectory s) (controlEnabled s) (cachedSignature s).
Definition set_depsPaths (x : list chars) (s : ShellCommand) : ShellCommand :=
  mkShell (external s) (args s) (signatureData s) (signatureIgnoredArgs s) (additionalSignatureData s) (envOverrides s) (envBase s)
    x (depsStyle s) (inheritEnv s) (canSafelyInterrupt s) (workingDirectory s) (controlEnabled s) (cachedSignature s).
Definition set_depsStyle (x : DepsStyle) (s : ShellCommand) : ShellCommand :=
  mkShell (external s) (args s) (signatureData s) (signatureIgnoredArgs s) (additionalSignatureData s) (envOverrides s) (envBase s)
    (depsPaths s) x (inheritEnv s) (canSafelyInterrupt s) (workingDirectory s) (controlEnabled s) (cachedSignature s).
Definition set_inheritEnv (x : bool) (s : ShellCommand) : ShellCommand :=
  mkShell (external s) (args s) (signatureData s) (signatureIgnoredArgs s) (additionalSignatureData s) (envOverrides s) (envBase s)
    (depsPaths s) (depsStyle s) x (canSafelyInterrupt s) (workingDirectory s) (controlEnabled s) (cachedSignature s).
Definition set_interrupt (x : bool) (s : ShellCommand) : ShellCommand :=
  mkShell (external s) (args s) (signatureData s) (signatureIgnoredArgs s) (additionalSignatureData s) (envOverrides s) (envBase s)
    (depsPaths s) (depsStyle s) (inheritEnv s) x (workingDirectory s) (controlEnabled s) (cachedSignature s).
Definition set_workingDirectory (x : chars) (s : ShellCommand) : ShellCommand :=
  mkShell (external s) (args s) (signatureData s) (signatureIgnoredArgs s) (additionalSignatureData s) (envOverrides s) (envBase s)
    (depsPaths s) (depsStyle s) (inheritEnv s) (canSafelyInterrupt s) x (controlEnabled s) (cachedSignature s).
Definition set_control (x : bool) (s : ShellCommand) : ShellCommand :=
  mkShell (external s) (args s) (signatureData s) (signatureIgnoredArgs s) (additionalSignatureData s) (envOverrides s) (envBase s)
    (depsPaths s) (depsStyle s) (inheritEnv s) (canSafelyInterrupt s) (workingDirectory s) x (cachedSignature s).
Definition set_cached (x : Z) (s : ShellCommand) : ShellCommand :=
  mkShell (external s) (args s) (signatureData s) (signatureIgnoredArgs s) (additionalSignatureData s) (envOverrides s) (envBase s)
    (depsPaths s) (depsStyle s) (inheritEnv s) (canSafelyInterrupt s) (workingDirectory s) (controlEnabled s) x.

(** ** The environment *)
Definition findOverride (key : chars) (l : Bindings) : option (chars * chars) := find (fun e => bool_decide (e.1 = key)) l.

Definition getEffectiveEnv (s : ShellCommand) : Bindings :=
  match envBase s with
  | None => envOverrides s
  | Some bindings =>
      map (fun b => (b.1, match findOverride b.1 (envOverrides s) with None => b.2 | Some o => o.2 end)) bindings
      ++ filter (fun e => findOverride e.1 bindings = None) (envOverrides s)
  end.

(** ** The signature *)

(** The walk over the arguments, from index [i], and the sorted list of ignored indices. *)
Fixpoint combineArgs (H : Hashes) (i : Z) (ignored : list Z) (l : list chars) (code : Z) : Z :=
  match l with
  | [] => code
  | a :: l' =>
      match ignored with
      | n :: ignored' =>
          if (n =? i)%Z then combineArgs H (i + 1)%Z ignored' l' code
          else combineArgs H (i + 1)%Z ignored l' (combine H a code)
      | [] => combineArgs H (i + 1)%Z ignored l' (combine H a code)
      end
  end.

Fixpoint combineBindings (H : Hashes) (l : Bindings) (code : Z) : Z :=
  match l with [] => code | (k, v) :: l' => combineBindings H l' (combine H v (combine H k code)) end.

Definition computeSignature (H : Hashes) (node : nat -> BuildNode) (s : ShellCommand) : Z :=
  let code := ExternalCommand.getSignature node H (external s) in
  match signatureData s with
  | _ :: _ => combine H (signatureData s) code
  | [] =>
      let code := combineArgs H 0 (signatureIgnoredArgs s) (args s) code in
      let code := combineBindings H (getEffectiveEnv s) code in
      let code := combineAll H (depsPaths s) code in
      let code := combineInt H (DepsStyle_code (depsStyle s)) code in
      let code := combineInt H (Z.b2z (inheritEnv s)) code in
      let code := combineInt H (Z.b2z (canSafelyInterrupt s)) code in
      match additionalSignatureData s with [] => code | _ :: _ => combine H (additionalSignatureData s) code end
  end.

Definition getSignature (H : Hashes) (node : nat -> BuildNode) (s : ShellCommand) : Z * ShellCommand :=
  if negb (isNull (cachedSignature s)) then (cachedSignature s, s)
  else
    let code := computeSignature H node s in
    let sig := if isNull code then 1%Z else code in
    (sig, set_cached sig s).

(** ** Configuration *)

(** [StringRef::getAsInteger(10, uint32_t&)]; the accumulator is 64 bits wide. *)
Definition digit (c : ascii) : option Z :=
  let n := byte_of c in
  if (48 <=? n)%Z && (n <=? 57)%Z then Some (n - 48)%Z else None.
Fixpoint consumeUnsigned (result : Z) (l : chars) : option (Z * chars) :=
  match l with
  | [] => Some (result, [])
  | c :: l' =>
      match digit c with
      | None => Some (result, l)
      | Some d =>
          let r := ((result * 10 + d) mod 2 ^ 64)%Z in
          if (r / 10 <? result)%Z then None else consumeUnsigned r l'
      end
  end.
Definition getAsUInt32 (l : chars) : option Z :=
  match l with
  | [] => None
  | _ =>
      match consumeUnsigned 0 l with
      | Some (r, []) => if (r mod 2 ^ 32 =? r)%Z then Some r else None
      | _ => None
      end
  end.

(** The error reported, if any, and the new state. *)
Definition Configured : Type := option chars * ShellCommand.

Definition flag (name value : chars) (s : ShellCommand) (f : bool -> ShellCommand) : Configured :=
  match parse_bool value with Some b => (None, f b) | None => (Some (invalidValue value name), s) end.

Definition configureAttribute (cwd name value : chars) (s : ShellCommand) : Configured :=
  if is_text name "args" then (None, set_args [chars_of "/bin/sh"; chars_of "-c"; value] s)
  else if is_text name "signature" then (None, set_signatureData value s)
  else if is_text name "additional-signature-data" then (None, set_additional value s)
  else if is_text name "deps" then (None, set_depsPaths [value] s)
  else if is_text name "deps-style" then
    if is_text value "makefile" then (None, set_depsStyle Makefile s)
    else if is_text value "dependency-info" then (None, set_depsStyle DependencyInfo s)
    else if is_text value "makefile-ignoring-subsequent-outputs" then (None, set_depsStyle MakefileIgnoringSubsequentOutputs s)
    else (Some (chars_of "unknown 'deps-style': " ++ quote value), s)
  else if is_text name "can-safely-interrupt" then flag name value s (fun b => set_interrupt b s)
  else if is_text name "inherit-env" then flag name value s (fun b => set_inheritEnv b s)
  else if is_text name "working-directory" then (None, set_workingDirectory (make_absolute cwd value) s)
  else if is_text name "control-enabled" then flag name value s (fun b => set_control b s)
  else match ExternalCommand.configureAttribute name value (external s) with
       | inl e => (Some e, s)
       | inr x => (None, set_external x s)
       end.

(** The loop over the values of [signature-ignored-args]; [l] is the list so far. *)
Fixpoint ignoredLoop (name : chars) (l : list Z) (values : list chars) : option chars * list Z :=
  match values with
  | [] => (None, l)
  | value :: values' =>
      match getAsUInt32 value with
      | None => (Some (invalidValue value name), l)
      | Some index =>
          match list.last l with
          | Some back =>
              if (index <=? back)%Z
              then (Some (chars_of "out of order value: " ++ quote value ++ chars_of " for attribute " ++ quote name), l)
              else ignoredLoop name (l ++ [index]) values'
          | None => ignoredLoop name (l ++ [index]) values'
          end
      end
  end.

Definition configureListAttribute (name : chars) (values : list chars) (s : ShellCommand) : Configured :=
  if is_text name "args" then
    match values with
    | [] => (Some (chars_of "invalid arguments for command " ++ quote (cmdName (external s))), s)
    | _ => (None, set_args values s)
    end
  else if is_text name "deps" then (None, set_depsPaths values s)
  else if is_text name "signature-ignored-args" then
    let '(e, l) := ignoredLoop name [] values in (e, set_ignored l s)
  else (Some (unexpectedAttribute name), s).

Definition configurePairsAttribute (name : chars) (values : Bindings) (s : ShellCommand) : Configured :=
  if is_text name "env" then (None, set_overrides values s) else (Some (unexpectedAttribute name), s).

Definition configureEnvironmentBase (base : Bindings) (s : ShellCommand) : ShellCommand := set_base (Some base) s.

(** ** Discovered dependencies *)
Inductive DiscoveredKind := DInput | DMissing | DOutput.
Inductive Call :=
| discoveredDependency (key : Key.Key)
| commandFoundDiscoveredDependency (path : chars) (kind : DiscoveredKind)
| commandHadError (message : chars)
| spawn (argv : list chars) (env : Bindings) (attr : ProcessAttributes)
| completion (result : ProcessResult).

Section Dependencies.
Context (cwd : chars) (getFileContents : chars -> option chars).

(** The path as seen from the working directory. *)
Definition absolutePath (s : ShellCommand) (path : chars) : chars :=
  if is_absolute path then path else make_absolute cwd (append (workingDirectory s) path).

Definition nodeKey (path : chars) : Key.Key := Key.makeNode (bytes_of path).
Definition found (path : chars) (k : DiscoveredKind) : list Call := [commandFoundDiscoveredDependency path k].
Definition foundInput (path : chars) : list Call := discoveredDependency (nodeKey path) :: found path DInput.

Definition onMakefileAction (s : ShellCommand) (depsPath : chars) (a : MakefileDeps.Action) : list Call * nat :=
  match a with
  | ParseError message position =>
      ([commandHadError (chars_of "error reading dependency file '" ++ depsPath ++ chars_of "': " ++ chars_of message
          ++ chars_of " at position " ++ chars_of (pretty position))], 1)
  | RuleDependency _ word => (foundInput (absolutePath s word), 0)
  | RuleStart _ _ | RuleEnd => ([], 0)
  end.

Definition onInfoAction (depsPath : chars) (a : DependencyInfo.Action) : list Call * nat :=
  match a with
  | ActError message _ =>
      ([commandHadError (chars_of "error reading dependency file '" ++ depsPath ++ chars_of "': " ++ chars_of message)], 1)
  | ActVersion _ => ([], 0)
  | ActMissing path => (found path DMissing, 0)
  | ActOutput path => (found path DOutput, 0)
  | ActInput path => (foundInput path, 0)
  end.

(** The calls made for a list of actions, and whether there was no error. *)
Definition report {A} (on : A -> list Call * nat) (actions : list A) : list Call * bool :=
  (concat (map (fun a => (on a).1) actions), (foldr (fun a n => (on a).2 + n) 0 actions =? 0)).

Definition processMakefileDiscoveredDependencies (s : ShellCommand) (depsPath input : chars) (ignoreSubsequentOutputs : bool)
  : outcome (list Call * bool) :=
  obind (MakefileDeps.parse ignoreSubsequentOutputs input) (fun l => Ok (report (onMakefileAction s depsPath) l)).
Definition processDependencyInfoDiscoveredDependencies (depsPath input : chars) : outcome (list Call * bool) :=
  obind (DependencyInfo.parse input) (fun l => Ok (report (onInfoAction depsPath) l)).

Definition processDepsFile (s : ShellCommand) (depsPath input : chars) : outcome (list Call * bool) :=
  match depsStyle s with
  | Unused => Crash (AssertFailed "unreachable")
  | Makefile => processMakefileDiscoveredDependencies s depsPath input false
  | DependencyInfo => processDependencyInfoDiscoveredDependencies depsPath input
  | MakefileIgnoringSubsequentOutputs => processMakefileDiscoveredDependencies s depsPath input true
  end.

Fixpoint processDepsPaths (s : ShellCommand) (paths : list chars) : outcome (list Call * bool) :=
  match paths with
  | [] => Ok ([], true)
  | depsPath :: paths' =>
      match getFileContents (absolutePath s depsPath) with
      | None => Ok ([commandHadError (chars_of "unable to open dependencies file (" ++ depsPath ++ chars_of ")")], false)
      | Some input =>
          obind (processDepsFile s depsPath input) (fun r =>
          if r.2 : bool then obind (processDepsPaths s paths') (fun r' => Ok (r.1 ++ r'.1, r'.2)) else Ok r)
      end
  end.

Definition processDiscoveredDependencies (s : ShellCommand) : outcome (list Call * bool) :=
  if decide (depsStyle s = Unused)
  then Ok ([commandHadError (chars_of "missing required 'deps-style' specifier")], false)
  else processDepsPaths s (depsPaths s).

(** ** Execution *)
Definition executeExternalCommand (s : ShellCommand) : Call :=
  spawn (args s) (getEffectiveEnv s)
    (mkAttributes (canSafelyInterrupt s) false (workingDirectory s) (inheritEnv s) (controlEnabled s)).

(** The completion function of the process; the dependencies are read by a job of their
    own, whose calls follow. *)
Definition commandCompletion (s : ShellCommand) (result : ProcessResult) : outcome (list Call) :=
  if negb (bool_decide (status result = Succeeded)) then Ok [completion result]
  else match depsPaths s with
  | [] => Ok [completion result]
  | _ =>
      obind (processDiscoveredDependencies s) (fun r =>
      Ok (r.1 ++ [completion (if r.2 : bool then result else newProcessResult Failed)]))
  end.
End Dependencies.

(** ** Descriptions *)
Fixpoint verboseDescription (first : bool) (l : list chars) : chars :=
  match l with
  | [] => []
  | a :: l' => (if first then [] else chars_of " ") ++ Posix.shellEscaped a ++ verboseDescription false l'
  end.
Definition getVerboseDescription (s : ShellCommand) : chars := verboseDescription true (args s).
Definition getShortDescription (s : ShellCommand) : chars := description (external s).
End Shell.
