(* ===== verification/ShellCommandProps.v ===== *)
(** * Properties of shell commands

    The signature and the environment of a command, and the dependencies it discovers. *)

From Stdlib Require Import Ascii String Lia ZArith Sorted.
From stdpp Require Import base list sets strings numbers pretty.
From S2P Require Import Prelude Chars ShellUtility MakefileDeps DependencyInfo NinjaPath Coding BuildValue BuildKey Process BuildNode ExternalCommand ShellCommand.
Import Shell.

Local Open Scope nat_scope.

(** ** Ignored arguments *)

(** The arguments, counted from [i], whose index is not in [ignored]. *)
Fixpoint kept (i : Z) (ignored : list Z) (l : list chars) : list chars :=
  match l with
  | [] => []
  | a :: l' => if decide (i ∈ ignored) then kept (i + 1) ignored l' else a :: kept (i + 1) ignored l'
  end.

Definition ascending (l : list Z) : Prop := StronglySorted Z.lt l.

Lemma kept_drop i ignored l n : (n < i)%Z -> kept i (n :: ignored) l = kept i ignored l.
Proof.
  revert i. induction l as [|a l IH]; intros i Hn; [done|]. cbn [kept]. rewrite !IH by lia.
  destruct (decide (i ∈ ignored)) as [H|H]; [rewrite decide_True by set_solver; done|].
  rewrite decide_False; [done|]. rewrite elem_of_cons. intros [->|?]; [lia|done].
Qed.

Lemma combineArgs_kept H i ignored l code : ascending ignored -> Forall (Z.le i) ignored ->
  combineArgs H i ignored l code = combineAll H (kept i ignored l) code.
Proof.
  revert i ignored code. induction l as [|a l IH]; intros i ignored code Hs Hi; [done|].
  cbn [combineArgs kept]. destruct ignored as [|n ignored].
  - rewrite IH by done. by rewrite decide_False by apply not_elem_of_nil.
  - apply StronglySorted_inv in Hs as [Hs Hn]. apply Forall_cons_1 in Hi as [Hi0 Hi].
    destruct (Z.eqb_spec n i) as [->|Hne].
    + rewrite decide_True by set_solver. rewrite kept_drop by lia. apply IH; [done|].
      eapply Forall_impl; [exact Hn|]. cbn. lia.
    + rewrite IH; [|by constructor|constructor; [lia|]].
      2: { eapply Forall_impl; [exact Hn|]. cbn. lia. }
      rewrite decide_False; [done|]. rewrite elem_of_cons. intros [->|Hin]; [done|].
      rewrite Forall_forall in Hn. specialize (Hn i). assert (n < i)%Z by (by apply Hn). lia.
Qed.

(** The configured indices are ascending. *)
Lemma consumeUnsigned_nonneg l : forall r r' rest, (0 <= r)%Z -> consumeUnsigned r l = Some (r', rest) -> (0 <= r')%Z.
Proof.
  induction l as [|c l IH]; intros r r' rest Hr E; cbn in E; [by simplify_eq|].
  destruct (digit c); [|by simplify_eq]. destruct (_ <? _)%Z; [done|]. eapply IH; [|exact E].
  apply Z.mod_pos_bound. lia.
Qed.
Lemma getAsUInt32_nonneg l n : getAsUInt32 l = Some n -> (0 <= n)%Z.
Proof.
  unfold getAsUInt32. destruct l; [done|]. destruct (consumeUnsigned _ _) as [[r [|]]|] eqn:E; try done.
  destruct (_ =? _)%Z; intros [= <-]. by eapply consumeUnsigned_nonneg in E.
Qed.

Lemma ascending_snoc l n : ascending l -> (forall m, list.last l = Some m -> (m < n)%Z) -> ascending (l ++ [n]).
Proof.
  induction l as [|m l IH]; intros Hs Hn; [repeat constructor|]. apply StronglySorted_inv in Hs as [Hs Hm].
  cbn [app]. constructor.
  - apply IH; [done|]. intros k Hk. apply Hn. destruct l; [done|exact Hk].
  - apply Forall_app. split; [done|]. constructor; [|constructor].
    destruct l as [|k l]; [by apply Hn|]. 
    destruct (list.last (k :: l)) as [z|] eqn:E; [|by apply last_None in E].
    rewrite Forall_forall in Hm. specialize (Hm z (last_Some_elem_of _ _ E)).
    specialize (Hn z E). lia.
Qed.

Lemma ignoredLoop_ascending name values : forall l l', ascending l -> Forall (Z.le 0) l ->
  ignoredLoop name l values = (None, l') -> ascending l' /\ Forall (Z.le 0) l'.
Proof.
  induction values as [|v values IH]; intros l l' Hs Hp E; cbn in E; [by simplify_eq|].
  destruct (getAsUInt32 v) as [n|] eqn:En; [|done]. apply getAsUInt32_nonneg in En.
  destruct (list.last l) as [b|] eqn:El.
  - destruct (Z.leb_spec n b); [done|]. eapply IH; [| |exact E].
    + apply ascending_snoc; [done|]. intros m Em. simplify_eq. lia.
    + apply Forall_app. split; [done|by repeat constructor].
  - eapply IH; [| |exact E].
    + apply ascending_snoc; [done|]. intros m Em. congruence.
    + apply Forall_app. split; [done|by repeat constructor].
Qed.

(** ** The environment *)
Lemma findOverride_Some k l p : findOverride k l = Some p -> p.1 = k /\ p ∈ l.
Proof.
  intros H. apply find_some in H as [Hin Hk]. apply bool_decide_eq_true in Hk. split; [done|]. by apply list_elem_of_In.
Qed.
Lemma findOverride_None k l p : findOverride k l = None -> p ∈ l -> p.1 <> k.
Proof.
  intros H Hin Hk. apply list_elem_of_In in Hin. apply (find_none _ _ H) in Hin.
  by apply bool_decide_eq_false in Hin.
Qed.

Lemma keys_unique (l : Bindings) k v v' : NoDup (map fst l) -> (k, v) ∈ l -> (k, v') ∈ l -> v = v'.
Proof.
  induction l as [|[k0 v0] l IH]; intros Hn H1 H2; [by apply elem_of_nil in H1|]. cbn in Hn.
  apply NoDup_cons in Hn as [Hk Hn].
  assert (Hfst : forall u, (k0, u) ∈ l -> False) by (intros u Hu; by apply Hk, (list_elem_of_fmap_2' _ _ _ _ Hu)).
  apply elem_of_cons in H1 as [E1|H1], H2 as [E2|H2]; simplify_eq/=; [done|by edestruct Hfst|by edestruct Hfst|by apply IH].
Qed.

Lemma assoc_find k l : assoc k l = snd <$> findOverride k l.
Proof.
  induction l as [|[k0 v0] l IH]; [done|]. cbn. unfold findOverride in *. cbn.
  destruct (decide (k = k0)) as [->|Hne]; [by rewrite bool_decide_eq_true_2|].
  rewrite bool_decide_eq_false_2 by done. done.
Qed.
Lemma assoc_app k l1 l2 : assoc k (l1 ++ l2) = match assoc k l1 with Some v => Some v | None => assoc k l2 end.
Proof. induction l1 as [|[k0 v0] l1 IH]; [done|]. cbn. by case_decide. Qed.
Lemma assoc_map k (f : chars * chars -> chars) l :
  assoc k (map (fun b => (b.1, f b)) l) = (fun v => f (k, v)) <$> assoc k l.
Proof. induction l as [|[k0 v0] l IH]; [done|]. cbn. case_decide; [by subst|done]. Qed.
Lemma assoc_filter k b l : findOverride k b = None -> assoc k (filter (fun e => findOverride e.1 b = None) l) = assoc k l.
Proof.
  intros Hb. induction l as [|[k0 v0] l IH]; [done|]. rewrite filter_cons. cbn.
  destruct (decide (k = k0)) as [->|Hne].
  - rewrite decide_True by done. cbn. by rewrite decide_True.
  - case_decide; [|done]. cbn. by rewrite decide_False.
Qed.

(** A key has the overriding value if there is one, and the value of the base otherwise. *)
Lemma effective_lookup s k : assoc k (getEffectiveEnv s)
  = match assoc k (envOverrides s) with Some v => Some v | None => assoc k (default [] (envBase s)) end.
Proof.
  unfold getEffectiveEnv. destruct (envBase s) as [b|]; cbn; [|by destruct (assoc k _)].
  rewrite assoc_app, assoc_map. rewrite (assoc_find k b). destruct (findOverride k b) as [[k1 v1]|] eqn:Eb; cbn.
  - rewrite assoc_find. by destruct (findOverride k (envOverrides s)) as [[]|].
  - rewrite (assoc_filter k b) by done. by destruct (assoc k _).
Qed.

Lemma filter_all {A} (P : A -> Prop) `{!forall x, Decision (P x)} (l : list A) : (forall x, x ∈ l -> P x) -> filter P l = l.
Proof.
  induction l as [|x l IH]; intros Hl; [done|]. rewrite filter_cons_True by (apply Hl; left).
  f_equal. apply IH. intros y Hy. apply Hl. by right.
Qed.
Lemma filter_none {A} (P : A -> Prop) `{!forall x, Decision (P x)} (l : list A) : (forall x, x ∈ l -> ~ P x) -> filter P l = [].
Proof.
  induction l as [|x l IH]; intros Hl; [done|]. rewrite filter_cons_False by (apply Hl; left).
  apply IH. intros y Hy. apply Hl. by right.
Qed.

(** [e] split over the base [b]: its first entries have the keys of the base, and the
    command keeps the entries the base does not have. *)
Definition splits_over (b e : Bindings) : Prop :=
  NoDup (map fst e) /\ exists e1 e2, e = e1 ++ e2 /\ map fst e1 = map fst b.
Definition remaining (b e : Bindings) : Bindings := filter (fun kv => kv ∉ b) e.

Lemma map_values (F : chars -> option (chars * chars)) b : forall e1 : Bindings, map fst e1 = map fst b ->
  (forall k ve vb, (k, ve) ∈ e1 -> (k, vb) ∈ b -> match F k with None => vb | Some o => o.2 end = ve) ->
  map (fun p => (p.1, match F p.1 with None => p.2 | Some o => o.2 end)) b = e1.
Proof.
  induction b as [|[k v] b IH]; intros [|[k1 v1] e1] Hk HF; try done. cbn in Hk. injection Hk as -> Hk.
  cbn. rewrite (HF k v1 v) by (left). f_equal. apply IH; [done|]. intros k2 ve vb H1 H2. apply HF; by right.
Qed.

Lemma effective_split s b e : splits_over b e ->
  getEffectiveEnv (configureEnvironmentBase b (set_overrides (remaining b e) s)) = e.
Proof.
  intros (Hn & e1 & e2 & He & Hk). unfold getEffectiveEnv, configureEnvironmentBase, set_base, set_overrides.
  cbn [envBase envOverrides].
  assert (Hb : NoDup (map fst b)). { rewrite <- Hk. rewrite He, map_app in Hn. by apply NoDup_app in Hn as [? _]. }
  assert (Hdis : forall p, p ∈ e2 -> findOverride p.1 b = None).
  { intros p Hp. destruct (findOverride p.1 b) as [q|] eqn:E; [|done]. apply findOverride_Some in E as [Eq Hq].
    rewrite He, map_app in Hn. apply NoDup_app in Hn as (_ & Hd & _). destruct (Hd p.1).
    - rewrite Hk, <- Eq. by apply (list_elem_of_fmap_2 fst).
    - by apply (list_elem_of_fmap_2 fst). }
  rewrite He at 2. f_equal.
  - apply (map_values (fun k => findOverride k (remaining b e)) b e1 Hk). intros k ve vb H1 H2.
    assert (H1e : (k, ve) ∈ e) by (rewrite He; set_solver).
    destruct (findOverride k _) as [[k' v']|] eqn:E.
    + apply findOverride_Some in E as [Ek Hin]. cbn in Ek. subst k'.
      apply list_elem_of_filter in Hin as [_ Hin]. exact (keys_unique e k v' ve Hn Hin H1e).
    + destruct (decide ((k, ve) ∈ b)) as [Hi|Hi]; [exact (keys_unique b k vb ve Hb H2 Hi)|].
      by destruct (findOverride_None _ _ (k, ve) E); [apply list_elem_of_filter|].
  - unfold remaining. rewrite list_filter_filter_l; [|intros x Hx Hb'; by apply (findOverride_None _ _ _ Hx Hb')].
    rewrite He, filter_app, (filter_all _ e2) by done. rewrite filter_none; [done|].
    intros p Hp Hnone. apply (list_elem_of_fmap_2 fst) in Hp. change (fst <$> e1) with (map fst e1) in Hp. rewrite Hk in Hp.
    apply list_elem_of_fmap in Hp as (q & Eq & Hq). by apply (findOverride_None _ _ _ Hnone Hq).
Qed.

(** ** The signature *)

(** Two argument lists differ only at ignored positions. *)
Definition same_kept (ignored : list Z) (l l' : list chars) : Prop :=
  length l = length l' /\ forall i, ~ (Z.of_nat i ∈ ignored) -> l !! i = l' !! i.

Lemma kept_same ignored l : forall l' i, length l = length l' ->
  (forall j, ~ ((i + Z.of_nat j)%Z ∈ ignored) -> l !! j = l' !! j) -> kept i ignored l = kept i ignored l'.
Proof.
  induction l as [|a l IH]; intros [|a' l'] i Hl Hj; try done. cbn [kept].
  assert (Hrec : kept (i + 1) ignored l = kept (i + 1) ignored l').
  { apply IH; [by injection Hl|]. intros j Hn. apply (Hj (S j)). by replace (i + Z.of_nat (S j))%Z with (i + 1 + Z.of_nat j)%Z by lia. }
  case_decide as Hi; [done|]. specialize (Hj 0). cbn in Hj. rewrite Z.add_0_r in Hj.
  specialize (Hj Hi). injection Hj as ->. by rewrite Hrec.
Qed.

(** C14: Neither sharing an environment nor changing ignored arguments reruns a command.
    Take a command that declares its environment [e] inline, with the indices of
    [signature-ignored-args] accepted by the configuration.  Let [b] be a shared base whose
    variables are the first variables of [e], in the same order and with any values, where
    no variable of [e] is repeated, and let the overrides be the bindings of [e] that [b]
    does not have.  If the environment is split so, and arguments are changed at ignored
    positions only, the effective environment is [e] again, in the same order, and the
    signature is the same (a base with other variables reorders the environment:
    [split_reorders]); in general each variable has the overriding value, or that of
    the base.  The single walk over arguments and sorted indices combines exactly the
    arguments whose index is not listed. *)
Theorem signature_stable H node name values s0 s b e args' :
  configureListAttribute name values s0 = (None, s) -> is_text name "signature-ignored-args" = true ->
  envBase s = None -> envOverrides s = e -> splits_over b e ->
  same_kept (signatureIgnoredArgs s) (args s) args' ->
  let s' := set_args args' (configureEnvironmentBase b (set_overrides (remaining b e) s)) in
  getEffectiveEnv s' = getEffectiveEnv s
  /\ (getSignature H node s').1 = (getSignature H node s).1
  /\ (forall code, combineArgs H 0 (signatureIgnoredArgs s) (args s) code
       = combineAll H (kept 0 (signatureIgnoredArgs s) (args s)) code)
  /\ (forall k, assoc k (getEffectiveEnv s')
       = match assoc k (remaining b e) with Some v => Some v | None => assoc k b end).
Proof.
  intros Hc Hname Hb He Hs [Hlen Hkept] s'.
  assert (Hasc : ascending (signatureIgnoredArgs s) /\ Forall (Z.le 0) (signatureIgnoredArgs s)).
  { unfold configureListAttribute in Hc. apply bool_decide_eq_true in Hname. rewrite Hname in Hc. cbn in Hc.
    destruct (ignoredLoop _ [] values) as [err l] eqn:El. injection Hc as -> <-.
    by eapply ignoredLoop_ascending in El; [|constructor..]. }
  destruct Hasc as [Ha Hp].
  assert (Henv : getEffectiveEnv s' = e) by (by apply (effective_split (set_args args' s))).
  assert (Henv0 : getEffectiveEnv s = e) by (unfold getEffectiveEnv; by rewrite Hb).
  split; [by rewrite Henv0|]. split.
  - unfold getSignature. change (cachedSignature s') with (cachedSignature s). destruct (negb _); [done|].
    assert (Hsig : computeSignature H node s' = computeSignature H node s); [|by rewrite Hsig].
    unfold computeSignature. rewrite Henv, Henv0. change (signatureIgnoredArgs s') with (signatureIgnoredArgs s).
    rewrite !combineArgs_kept by done. change (args s') with args'.
    rewrite (kept_same (signatureIgnoredArgs s) (args s) args' 0); [|done|exact Hkept]. done.
  - split; [by intros code; apply combineArgs_kept|]. intros k. by rewrite effective_lookup.
Qed.

Lemma signature_stable_witness :
  let H := mkHashes (fun s => Z.of_nat (length s)) (fun sig s => sig * 31 + Z.of_nat (length s))%Z (fun sig b => sig * 2 + Z.b2z b)%Z in
  let e := [(chars_of "A", chars_of "1"); (chars_of "B", chars_of "2"); (chars_of "C", chars_of "3")] in
  let b := [(chars_of "A", chars_of "0"); (chars_of "B", chars_of "2")] in
  let s0 := set_args [chars_of "cc"; chars_of "-index"] (set_overrides e (newShellCommand (chars_of "c") true)) in
  let s := set_ignored [1%Z] s0 in
  let s' := set_args [chars_of "cc"; chars_of "-other"]
              (configureEnvironmentBase b (set_overrides [(chars_of "A", chars_of "1"); (chars_of "C", chars_of "3")] s)) in
  let node := fun _ => makePlain [] in
  getEffectiveEnv s' = getEffectiveEnv s
  /\ (getSignature H node s').1 = (getSignature H node s).1
  /\ (forall code, combineArgs H 0 (signatureIgnoredArgs s) (args s) code
       = combineAll H (kept 0 (signatureIgnoredArgs s) (args s)) code)
  /\ (forall k, assoc k (getEffectiveEnv s')
       = match assoc k [(chars_of "A", chars_of "1"); (chars_of "C", chars_of "3")] with Some v => Some v | None => assoc k b end).
Proof.
  intros H e b s0 s s' node.
  apply (signature_stable H node (chars_of "signature-ignored-args") [chars_of "1"] s0 s b e
           [chars_of "cc"; chars_of "-other"]).
  - vm_compute. reflexivity.
  - vm_compute. reflexivity.
  - reflexivity.
  - reflexivity.
  - split; [apply (bool_decide_unpack _); vm_compute; exact I|].
    exists (take 2 e), (drop 2 e). split; reflexivity.
  - split; [reflexivity|]. intros [|[|i]] Hi; [reflexivity|destruct Hi; left|reflexivity].
Defined.

(** A base whose variables are not the first ones puts them first, and the signature, which
    depends on the order, is another. *)
Example split_reorders :
  let H := mkHashes (fun s => fold_left (fun z c => z * 31 + Z.of_nat (Ascii.nat_of_ascii c))%Z s 0%Z)
             (fun sig s => sig * 31 + fold_left (fun z c => z * 31 + Z.of_nat (Ascii.nat_of_ascii c)) s 0)%Z (fun sig b => sig * 2 + Z.b2z b)%Z in
  let A := (chars_of "A", chars_of "1") in
  let B := (chars_of "B", chars_of "2") in
  let s := set_overrides [A; B] (newShellCommand (chars_of "c") true) in
  let s' := configureEnvironmentBase [B] (set_overrides (remaining [B] [A; B]) s) in
  let node := fun _ => makePlain [] in
  getEffectiveEnv s = [A; B] /\ getEffectiveEnv s' = [B; A]
  /\ (getSignature H node s').1 <> (getSignature H node s).1.
Proof. vm_compute. repeat split; try reflexivity. discriminate. Qed.

(** ** Discovered dependencies *)
Definition is_error (c : Call) : bool := match c with commandHadError _ => true | _ => false end.
(** Neither a process nor a completion. *)
Definition is_report (c : Call) : bool := match c with spawn _ _ _ | completion _ => false | _ => true end.

(** Every error is reported to the delegate. *)
Definition faithful {A} (on : A -> list Call * nat) : Prop :=
  forall a, ((on a).2 =? 0) = negb (existsb is_error (on a).1) /\ forallb is_report (on a).1 = true.

Lemma report_errors {A} (on : A -> list Call * nat) l : faithful on ->
  (report on l).2 = negb (existsb is_error (report on l).1) /\ forallb is_report (report on l).1 = true.
Proof.
  intros Hf. unfold report. cbn [fst snd]. induction l as [|a l [IH1 IH2]]; [done|]. cbn [map concat foldr].
  destruct (Hf a) as [E R]. rewrite existsb_app, negb_orb, forallb_app, <- E, <- IH1, R, IH2. split; [|done].
  destruct (Nat.eqb_spec (on a).2 0) as [->|]; [done|]. cbn [andb]. apply Nat.eqb_neq. lia.
Qed.

Section Discovered.
Context (cwd : chars) (getFileContents : chars -> option chars).

Lemma makefile_faithful s p : faithful (onMakefileAction cwd s p).
Proof. by intros []. Qed.
Lemma info_faithful p : faithful (onInfoAction p).
Proof. by intros []. Qed.

(** The parsers stay inside the file. *)
Definition in_bounds (st : DepsStyle) (input : chars) : Prop :=
  match st with
  | DependencyInfo => is_ok (DependencyInfo.parse input) = true
  | _ => list.last input <> Some BACKSLASH
  end.

Definition reports (r : list Call * bool) : Prop := r.2 = negb (existsb is_error r.1) /\ forallb is_report r.1 = true.

Lemma makefile_reports s p input b : list.last input <> Some BACKSLASH ->
  exists r, processMakefileDiscoveredDependencies cwd s p input b = Ok r /\ reports r.
Proof.
  intros H. unfold processMakefileDiscoveredDependencies, MakefileDeps.parse.
  destruct (parseRules_total (S (length input)) b input input) as [l ->]; [lia|done|].
  eexists. split; [done|]. apply report_errors, makefile_faithful.
Qed.

Lemma processDepsFile_reports s p input : depsStyle s <> Unused -> in_bounds (depsStyle s) input ->
  exists r, processDepsFile cwd s p input = Ok r /\ reports r.
Proof.
  unfold processDepsFile, in_bounds. intros Hu Hb. destruct (depsStyle s); [done|by apply makefile_reports| |by apply makefile_reports].
  unfold processDependencyInfoDiscoveredDependencies. destruct (DependencyInfo.parse input) as [l|]; [|done].
  eexists. split; [done|]. apply report_errors, info_faithful.
Qed.

Lemma processDepsPaths_reports s paths : depsStyle s <> Unused ->
  (forall p input, p ∈ paths -> getFileContents (absolutePath cwd s p) = Some input -> in_bounds (depsStyle s) input) ->
  exists r, processDepsPaths cwd getFileContents s paths = Ok r /\ reports r.
Proof.
  intros Hu. induction paths as [|p paths IH]; intros Hb; [by exists ([], true)|]. cbn [processDepsPaths].
  destruct (getFileContents _) as [input|] eqn:E; [|eexists; split; [done|by split]].
  destruct (processDepsFile_reports s p input Hu) as ([calls ok] & -> & He & Hr); [eapply Hb, E; left|]. cbn [obind fst snd] in *.
  destruct ok; [|by eexists]. destruct IH as ([calls' ok'] & -> & He' & Hr'); [intros q i Hq; apply Hb; by right|].
  eexists. split; [done|]. cbn [fst snd] in *. unfold reports. cbn [fst snd].
  rewrite existsb_app, negb_orb, forallb_app, <- He, <- He', Hr, Hr'. done.
Qed.

(** C13: How a shell command completes.  Suppose that its dependency files do not end where a
    parser reads on: a list of records not in an opcode, one of rules not in a backslash
    ([DependencyInfo.trailing_opcode_read], [MakefileDeps.trailing_backslash_read]).
    Whatever they contain otherwise, the completion function is called exactly once, after all reports.  A command that did not succeed
    completes with its result and reads no dependency file.  One that succeeded completes
    with its result unless some error was reported to the delegate (no style given, a file
    that cannot be opened, a syntax error); then it completes as failed. *)
Theorem dependency_errors s result :
  (forall p input, p ∈ depsPaths s -> getFileContents (absolutePath cwd s p) = Some input -> in_bounds (depsStyle s) input) ->
  exists calls, commandCompletion cwd getFileContents s result
    = Ok (calls ++ [completion (if existsb is_error calls then newProcessResult Failed else result)])
    /\ forallb is_report calls = true
    /\ (status result <> Succeeded -> calls = [])
    /\ (status result = Succeeded -> depsStyle s = Unused -> depsPaths s <> [] -> existsb is_error calls = true)
    /\ (status result = Succeeded -> forall p rest, depsPaths s = p :: rest ->
          getFileContents (absolutePath cwd s p) = None -> existsb is_error calls = true).
Proof.
  intros Hb. unfold commandCompletion. destruct (decide (status result = Succeeded)) as [Hs|Hs].
  2: { rewrite bool_decide_eq_false_2 by done. exists []. split_and!; intros; (done || congruence). }
  rewrite bool_decide_eq_true_2 by done. cbn [negb]. destruct (depsPaths s) as [|p0 ps] eqn:Ep; [exists []; split_and!; intros; (done || congruence)|].
  rewrite <- Ep in Hb. unfold processDiscoveredDependencies. case_decide as Hu.
  { exists [commandHadError (chars_of "missing required 'deps-style' specifier")]. by split_and!. }
  destruct (processDepsPaths_reports s (depsPaths s) Hu Hb) as ([calls ok] & E & He & Hr). rewrite E. cbn [obind fst snd] in *.
  exists calls. rewrite He. split; [by destruct (existsb _ _)|]. split; [done|]. split; [done|]. split; [done|].
  intros _ p rest [= <- <-] Hnone. rewrite Ep in E. cbn [processDepsPaths] in E. rewrite Hnone in E. by injection E as <- _.
Qed.
End Discovered.

(** ** Exactly the reported dependencies *)

(** The contents of a dependency file: rules, or a version and records. *)
Record DepsFile := mkDepsFile { rules : list DepRule; version : chars; entries : list Entry }.

Definition text (st : DepsStyle) (f : DepsFile) : chars :=
  match st with
  | DependencyInfo => DependencyInfo.encode (mkEntry OpVersion (version f) :: entries f)
  | _ => print_rules (rules f)
  end.
Definition wellformed (st : DepsStyle) (f : DepsFile) : Prop :=
  match st with
  | DependencyInfo =>
      version f <> [] /\ (NUL ∉ version f) /\ Forall (fun e => entry_ok e /\ known (opcode e)) (entries f)
  | _ => forallb printable (rules f) = true
  end.

Section Exact.
Context (cwd : chars) (getFileContents : chars -> option chars).

Definition entry_calls (e : Entry) : list Call :=
  if Ascii.eqb (opcode e) OpInput then foundInput (operand e)
  else if Ascii.eqb (opcode e) OpMissing then found (operand e) DMissing
  else found (operand e) DOutput.

(** The dependencies in the file, as the command reports them. *)
Definition file_calls (s : ShellCommand) (f : DepsFile) : list Call :=
  match depsStyle s with
  | DependencyInfo => concat (map entry_calls (entries f))
  | st => concat (map (fun d => foundInput (absolutePath cwd s d))
            (concat (map prerequisites (rules_read (bool_decide (st = MakefileIgnoringSubsequentOutputs)) (rules f)))))
  end.

Lemma report_app {A} (on : A -> list Call * nat) l1 l2 :
  report on (l1 ++ l2) = ((report on l1).1 ++ (report on l2).1, (report on l1).2 && (report on l2).2).
Proof.
  unfold report. cbn [fst snd]. rewrite map_app, concat_app. f_equal.
  induction l1 as [|a l1 IH]; [done|]. cbn [app foldr].
  destruct (Nat.eqb_spec (on a).2 0) as [->|Hn]; [exact IH|].
  rewrite !(proj2 (Nat.eqb_neq _ _)) by lia. done.
Qed.

Lemma report_deps s p l :
  report (onMakefileAction cwd s p) (map (fun d => RuleDependency (escape d) d) l)
  = (concat (map (fun d => foundInput (absolutePath cwd s d)) l), true).
Proof. induction l as [|d l IH]; [done|]. unfold report in *. cbn. by injection IH as -> ->. Qed.

Lemma report_rules s p l :
  report (onMakefileAction cwd s p) (concat (map rule_actions l))
  = (concat (map (fun d => foundInput (absolutePath cwd s d)) (concat (map prerequisites l))), true).
Proof.
  induction l as [|r l IH]; [done|]. cbn [map concat]. rewrite report_app, IH, map_app, concat_app. cbn [fst snd].
  assert (E : report (onMakefileAction cwd s p) (rule_actions r)
    = (concat (map (fun d => foundInput (absolutePath cwd s d)) (prerequisites r)), true)); [|by rewrite E].
  unfold rule_actions. change (?a :: ?b ++ ?c) with ([a] ++ b ++ c). rewrite !report_app, report_deps. cbn. by rewrite app_nil_r.
Qed.

Lemma report_entries p l : Forall (fun e => entry_ok e /\ known (opcode e)) l ->
  report (onInfoAction p) (map entry_action l) = (concat (map entry_calls l), true).
Proof.
  induction l as [|e l IH]; intros H; [done|]. apply Forall_cons_1 in H as [[_ Hk] H]. specialize (IH H).
  change (map entry_action (e :: l)) with ([entry_action e] ++ map entry_action l). rewrite report_app, IH.
  cbn [map concat fst snd]. unfold entry_action, entry_calls. by destruct Hk as [-> | [-> | ->]].
Qed.

Lemma processDepsFile_exact s p f : depsStyle s <> Unused -> wellformed (depsStyle s) f ->
  processDepsFile cwd s p (text (depsStyle s) f) = Ok (file_calls s f, true).
Proof.
  intros Hu Hw. unfold processDepsFile, file_calls, wellformed in *.
  destruct (depsStyle s); [done| | |];
    unfold processMakefileDiscoveredDependencies, processDependencyInfoDiscoveredDependencies; cbn [text].
  - rewrite parse_printed by done. cbn [obind]. by rewrite report_rules.
  - destruct Hw as (Hv & Hn & He). rewrite parse_encoded by done. cbn [obind].
    change (ActVersion ?v :: ?l) with ([ActVersion v] ++ l). by rewrite report_app, report_entries.
  - rewrite parse_printed by done. cbn [obind]. by rewrite report_rules.
Qed.

Lemma processDepsPaths_exact s file paths : depsStyle s <> Unused ->
  (forall p, p ∈ paths -> getFileContents (absolutePath cwd s p) = Some (text (depsStyle s) (file p)) /\ wellformed (depsStyle s) (file p)) ->
  processDepsPaths cwd getFileContents s paths = Ok (concat (map (fun p => file_calls s (file p)) paths), true).
Proof.
  intros Hu. induction paths as [|p paths IH]; intros H; [done|]. cbn [processDepsPaths map concat].
  destruct (H p) as [-> Hw]; [left|]. rewrite processDepsFile_exact by done. cbn [obind fst snd].
  rewrite IH; [done|]. intros q Hq. apply H. by right.
Qed.

(** C12: The dependencies a shell command discovers are exactly those its process wrote.
    When each dependency file holds well-formed rules (or, in the linker's format, a version
    and records), the command registers, in order, one node per prerequisite of the rules --
    of the first rule only, if subsequent outputs are ignored -- under its absolute path as
    seen from the working directory, or one node per input record; missing files and outputs
    of the linker's format are reported without a dependency.  It then completes with the
    result of the process. *)
Theorem discovered_exactly s file result :
  depsStyle s <> Unused -> status result = Succeeded ->
  (forall p, p ∈ depsPaths s -> getFileContents (absolutePath cwd s p) = Some (text (depsStyle s) (file p)) /\ wellformed (depsStyle s) (file p)) ->
  commandCompletion cwd getFileContents s result
  = Ok (concat (map (fun p => file_calls s (file p)) (depsPaths s)) ++ [completion result]).
Proof.
  intros Hu Hs Hf. unfold commandCompletion, processDiscoveredDependencies. rewrite bool_decide_eq_true_2 by done. cbn [negb].
  destruct (depsPaths s) eqn:Ep; [done|]. rewrite decide_False by done. rewrite <- Ep in *.
  by rewrite (processDepsPaths_exact s file) by done.
Qed.
End Exact.

(** A dependency with a space and an absolute one, after a rule that is ignored. *)
Definition example_deps : DepsFile :=
  mkDepsFile [mkDepRule (chars_of "out.o") [chars_of "my file.h"; chars_of "/usr/include/x.h"];
              mkDepRule (chars_of "my file.h") [chars_of "z"]] [] [].
Definition example_shell : ShellCommand :=
  set_workingDirectory (chars_of "/work") (set_depsStyle MakefileIgnoringSubsequentOutputs
    (set_depsPaths [chars_of "out.d"] (newShellCommand (chars_of "c") true))).
Definition example_files (p : chars) : option chars :=
  if is_text p "/work/out.d" then Some (text MakefileIgnoringSubsequentOutputs example_deps) else None.

Lemma discovered_exactly_witness :
  commandCompletion (chars_of "/") example_files example_shell (newProcessResult Succeeded)
  = Ok (foundInput (chars_of "/work/my file.h") ++ foundInput (chars_of "/usr/include/x.h") ++ [completion (newProcessResult Succeeded)]).
Proof.
  apply (discovered_exactly (chars_of "/") example_files example_shell (fun _ => example_deps) (newProcessResult Succeeded)).
  - discriminate.
  - reflexivity.
  - intros p Hp. apply list_elem_of_singleton in Hp. subst p. vm_compute. split; reflexivity.
Defined.

Lemma dependency_errors_witness :
  exists calls, commandCompletion (chars_of "/") (fun _ => Some (chars_of "out.o $: x")) example_shell (newProcessResult Succeeded)
    = Ok (calls ++ [completion (if existsb is_error calls then newProcessResult Failed else newProcessResult Succeeded)])
    /\ forallb is_report calls = true.
Proof.
  destruct (dependency_errors (chars_of "/") (fun _ => Some (chars_of "out.o $: x")) example_shell (newProcessResult Succeeded)) as (calls & E & R & _).
  - intros p input _ [= <-]. vm_compute. discriminate.
  - exists calls. split; [exact E|exact R].
Defined.

(** ** What the signature leaves out *)

(** The dependency style is combined as a truth value: changing the format in which the
    dependencies are read does not rerun the command.  Neither does changing the working
    directory. *)
Example deps_style_not_signed H node s :
  computeSignature H node (set_depsStyle DependencyInfo s) = computeSignature H node (set_depsStyle Makefile s).
Proof. reflexivity. Qed.
Example working_directory_not_signed H node s d :
  computeSignature H node (set_workingDirectory d s) = computeSignature H node s.
Proof. reflexivity. Qed.

(** The sections of the signature are not separated: moving a variable's name and value
    from the environment to the end of the arguments gives the same signature. *)
Example arguments_and_environment_collide H node a k v :
  let s := set_args [a] (set_overrides [(k, v)] (newShellCommand [] true)) in
  let s' := set_args [a; k; v] (newShellCommand [] true) in
  computeSignature H node s = computeSignature H node s'.
Proof. reflexivity. Qed.

(** A signature is computed once: configuring the command afterwards does not change it. *)
Example signature_is_cached H node s a : cachedSignature s = 0%Z ->
  (getSignature H node (set_args a (getSignature H node s).2)).1 = (getSignature H node s).1.
Proof.
  intros Hc. unfold getSignature at 2 3. rewrite Hc. cbn [isNull Z.eqb negb].
  unfold getSignature. cbn. destruct (isNull (computeSignature H node s)) eqn:E; cbn; [done|]. by rewrite E.
Qed.
