(* ===== verification/BuildTasks.v ===== *)
(** * The tasks of the build system

    The [Task] classes of lib/BuildSystem/BuildSystem.cpp: what each requests when it is
    started, what it does with the values it gets, and the value it completes with.  A task
    object is a value of [Task]; a member function takes the task, and returns the calls it
    makes on its [TaskInterface] and on the delegate, in order, with the new task.  Nodes are
    pointers: the model refers to them by number.  The commands the tasks run are objects of
    any type with the operations [CommandOps], kept in a store the tasks share.  [Sys] is what the tasks see of the file system and of the delegate. *)

From Stdlib Require Import Ascii String Lia ZArith.
From stdpp Require Import base gmap list sorting strings numbers.
From S2P Require Import Prelude Chars NinjaPath Coding BuildValue BuildKey Process BuildNode ExternalCommand.

Local Open Scope nat_scope.

(** ** Bytes and characters *)
Definition char_of (z : Z) : ascii := ascii_of_N (Z.to_N z).
Definition chars_of_bytes (l : list Z) : chars := map char_of l.

(** [operator<=] of [std::string]: the bytes are compared as unsigned numbers. *)
Fixpoint chars_leb (a b : chars) : bool :=
  match a, b with
  | [], _ => true
  | _ :: _, [] => false
  | x :: a', y :: b' =>
      if (byte_of x <? byte_of y)%Z then true else if (byte_of y <? byte_of x)%Z then false else chars_leb a' b'
  end.
Definition chars_le (a b : chars) : Prop := chars_leb a b = true.
#[global] Instance chars_le_dec : RelDecision chars_le.
Proof. intros a b. apply bool_eq_dec. Defined.

(** ** The system *)

(** What a directory iterator reports: the file name, whether it is a symbolic link and
    where [real_path] resolves it to. *)
Record DirEntry := mkEntry { filename : chars; isSymlink : bool; realPath : option chars }.

Record Sys := mkSys {
  getFileInfo : chars -> FileInfo;
  listDirectory : chars -> list DirEntry;
  filenameMatch : list Z -> chars -> bool;
  chooseCommandFromMultipleProducers : nat -> option chars;
  isCancelled : bool }.

(** LLVM's hash functions, as far as the tasks use them. *)
Record TreeHashes := mkTreeHashes {
  hash_path : chars -> Z;
  combine_bytes : Z -> list Z -> Z;
  combine_name : Z -> list Z -> Z;
  combine_number : Z -> Z -> Z }.

(** ** Calls *)

(** A command of the build description, by its name, or the n-th custom command. *)
Abbreviation CommandRef := (chars + nat)%type.

Inductive Note :=
| commandPreparing (c : CommandRef)
| cannotBuildTarget (name : chars) (missing : list chars)
| cannotBuildNodeDueToMultipleProducers (n : nat)
| commandFailureNote
| commandNote (c : CommandRef) (call : DelegateCall).

Inductive Call :=
| request (key : Key.Key) (inputID : Z)
| mustFollow (key : Key.Key)
| completeTask (v : list Z) (forceChange : bool)
| spawnCommand (c : CommandRef)
| notify (n : Note).

(** ** Commands *)
Record CommandOps (C : Type) := mkCommandOps {
  signatureOf : C -> outcome Z;
  startCommand : C -> outcome (list Call * C);
  priorValueForCommand : BuildValue -> C -> outcome C;
  valueForCommand : Z -> Key.Key -> BuildValue -> C -> outcome (list Call * C);
  resultForOutput : C -> nat -> BuildValue -> outcome BuildValue;
  isCommandResultValid : (chars -> FileInfo) -> BuildValue -> C -> outcome bool;
  checksBeforeRunning : C -> bool;
  mustCheckBeforeRunning : Key.Key -> C -> bool }.
Arguments signatureOf {C}.
Arguments startCommand {C}.
Arguments priorValueForCommand {C}.
Arguments valueForCommand {C}.
Arguments resultForOutput {C}.
Arguments isCommandResultValid {C}.
Arguments checksBeforeRunning {C}.
Arguments mustCheckBeforeRunning {C}.

(** ** Tasks *)
Record Target := mkTarget { targetName : chars; targetNodes : list nat }.

(** [SubpathInfo] of the two tree signature tasks. *)
Record SubpathInfo := mkSubpath { subpathName : list Z; subpathValue : list Z; subpathSignature : option (list Z) }.

Record Tree := mkTree { treePath : chars; treeFilters : StringList; treeValue : list Z; childResults : list SubpathInfo }.

Inductive Task :=
| TargetTask (target : Target) (missingInputNodes : list nat)
| FileInputNodeTask (n : nat)
| StatTask (name : chars)
| DirectoryInputNodeTask (n : nat) (directorySignature : list Z) (totalBlockingDeps finishedBlockingDeps : nat)
| DirectoryStructureInputNodeTask (n : nat) (directorySignature : list Z)
| VirtualInputNodeTask
| ProducedNodeTask (n : nat) (nodeResult : BuildValue) (producingCommand : option chars) (isInvalid : bool)
| ProducedDirectoryNodeTask (n : nat) (nodeResult : BuildValue) (directorySignature : list Z)
    (producingCommand : option chars) (isInvalid returnDirectorySignature : bool)
| DirectoryContentsTask (path : chars) (directoryValue : BuildValue)
| FilteredDirectoryContentsTask (path : chars) (filters : StringList) (directoryValue : BuildValue)
| DirectoryTreeSignatureTask (t : Tree)
| DirectoryTreeStructureSignatureTask (t : Tree)
| CommandTask (c : CommandRef)
| MissingCommandTask.

Definition completeWith (v : BuildValue) : outcome (list Call) :=
  obind (Value.toData v) (fun bs => Ok [completeTask bs false]).

Definition nodeKey (path : chars) : Key.Key := Key.makeNode (bytes_of path).

Definition getOutputInfo (v : BuildValue) : outcome FileInfo :=
  obind (Value.check (Value.kindHasOutputInfo (Value.kind v)) "invalid call for value kind") (fun _ =>
  obind (Value.check (negb (Value.hasMultipleOutputs v)) "invalid call on result with multiple outputs") (fun _ =>
  match Value.valueData v with
  | Value.asOutputInfo f => Ok f
  | Value.asOutputInfos _ => Crash (UseAfterFree "asOutputInfo")
  end)).

(** ** Listing directories *)
Definition isPrefix (p s : chars) : bool := bool_decide (p = take (length p) s).

(** The entry is a symbolic link to a parent directory, as the code tests it. *)
Definition linksUp (path : chars) (e : DirEntry) : bool :=
  isSymlink e && match realPath e with Some r => isPrefix r path | None => false end.

Definition getContents (sys : Sys) (path : chars) : list chars :=
  merge_sort chars_le (map filename (filter (fun e => linksUp path e = false) (listDirectory sys path))).

Definition excluded (sys : Sys) (patterns : list (list Z)) (name : chars) : bool :=
  existsb (fun p => filenameMatch sys p name) patterns.
Definition getFilteredContents (sys : Sys) (path : chars) (filters : StringList) : outcome (list chars) :=
  obind (getValues filters) (fun patterns =>
  Ok (merge_sort chars_le (filter (fun f => excluded sys patterns f = false) (map filename (listDirectory sys path))))).

(** ** Signatures of directory trees *)
Definition childPath (path : chars) (name : list Z) : chars := append path (chars_of_bytes name).
Definition filtersEmpty (l : StringList) : bool := (slSize l =? 0)%nat.

Definition contentsKey (t : Tree) : outcome Key.Key :=
  if filtersEmpty (treeFilters t) then Ok (Key.makeDirectoryContents (bytes_of (treePath t)))
  else Key.makeFilteredDirectoryContents (bytes_of (treePath t)) (treeFilters t).

Definition startTree (t : Tree) : outcome (list Call) := obind (contentsKey t) (fun k => Ok [request k 0]).

(** The requests for the children, from index [i]. *)
Fixpoint requestChildren (path : chars) (i : nat) (names : list (list Z)) : list Call :=
  match names with
  | [] => []
  | f :: names' => request (nodeKey (childPath path f)) (Z.of_nat (1 + i)) :: requestChildren path (S i) names'
  end.

(** The contents of the directory: its children are asked for. *)
Definition treeContents (t : Tree) (v : list Z) (value : BuildValue) : outcome (list Call * Tree) :=
  if isKind Value.FilteredDirectoryContents value || isKind Value.DirectoryContents value then
    obind (Value.getDirectoryContents value) (fun names =>
    Ok (requestChildren (treePath t) 0 names,
        mkTree (treePath t) (treeFilters t) v (childResults t ++ map (fun f => mkSubpath f [] None) names)))
  else Crash (AssertFailed "value.isFilteredDirectoryContents() || value.isDirectoryContents()").

Definition set_child (i : nat) (f : SubpathInfo -> SubpathInfo) (t : Tree) : Tree :=
  mkTree (treePath t) (treeFilters t) (treeValue t) (alter f i (childResults t)).

(** A value that is not that of the directory itself: of a child, or the signature of a
    child.  [signatureKey] is the kind of signature the task computes. *)
Definition treeChild (signatureKey : list Z -> StringList -> outcome Key.Key) (inputID : Z) (v : list Z) (t : Tree)
  : outcome (list Call * Tree) :=
  let n := length (childResults t) in
  if (1 <=? inputID)%Z && (inputID <? 1 + Z.of_nat n)%Z then
    let index := Z.to_nat (inputID - 1) in
    match childResults t !! index with
    | None => Crash (OutOfBounds "childResults")
    | Some child =>
        let t' := set_child index (fun c => mkSubpath (subpathName c) v (subpathSignature c)) t in
        obind (Value.fromData v) (fun value =>
        if isKind Value.ExistingInput value then
          obind (getOutputInfo value) (fun info =>
          if isDirectory info then
            obind (signatureKey (bytes_of (childPath (treePath t) (subpathName child))) (treeFilters t)) (fun k =>
            Ok ([request k (1 + Z.of_nat n + Z.of_nat index)], t'))
          else Ok ([], t'))
        else Ok ([], t'))
    end
  else
    let index := Z.to_nat ((inputID - 1 - Z.of_nat n) mod 2 ^ 64) in
    match childResults t !! index with
    | None => Crash (AssertFailed "index < childResults.size()")
    | Some _ => Ok ([], set_child index (fun c => mkSubpath (subpathName c) (subpathValue c) (Some v)) t)
    end.

Definition provideTree (inputID : Z) (v : list Z) (t : Tree) : outcome (list Call * Tree) :=
  if (inputID =? 0)%Z then
    let t' := mkTree (treePath t) (treeFilters t) v (childResults t) in
    obind (Value.fromData v) (fun value =>
    if (filtersEmpty (treeFilters t) && negb (isKind Value.DirectoryContents value))
       || (negb (filtersEmpty (treeFilters t)) && negb (isKind Value.FilteredDirectoryContents value))
    then Ok ([], t')
    else treeContents t v value)
  else treeChild Key.makeDirectoryTreeSignature inputID v t.

Definition provideTreeStructure (inputID : Z) (v : list Z) (t : Tree) : outcome (list Call * Tree) :=
  if (inputID =? 0)%Z then
    let t' := mkTree (treePath t) (treeFilters t) v (childResults t) in
    obind (Value.fromData v) (fun value =>
    if isKind Value.MissingInput value || isKind Value.SkippedCommand value then Ok ([], t') else treeContents t v value)
  else treeChild Key.makeDirectoryTreeStructureSignature inputID v t.

Definition NIL_NUMBER : Z := 0xC183979C3E98722E.

Section Trees.
Context (H : TreeHashes).

Definition combineSignature (sig : option (list Z)) (code : Z) : Z :=
  match sig with Some data => combine_bytes H code data | None => combine_number H code NIL_NUMBER end.

Definition treeSignature (t : Tree) : Z :=
  foldl (fun code c => combineSignature (subpathSignature c) (combine_bytes H code (subpathValue c)))
    (combine_bytes H (hash_path H (treePath t)) (treeValue t)) (childResults t).

Definition combineMode (k : Value.Kind) (v : list Z) (code : Z) : outcome Z :=
  obind (Value.fromData v) (fun value =>
  if isKind k value then obind (getOutputInfo value) (fun info => Ok (combine_number H code (mode info)))
  else Ok (combine_bytes H code v)).

Fixpoint combineStructure (l : list SubpathInfo) (code : Z) : outcome Z :=
  match l with
  | [] => Ok code
  | c :: l' =>
      obind (combineMode Value.ExistingInput (subpathValue c) (combine_name H code (subpathName c))) (fun code' =>
      combineStructure l' (combineSignature (subpathSignature c) code'))
  end.
Definition treeStructureSignature (t : Tree) : outcome Z :=
  obind (combineMode Value.DirectoryContents (treeValue t) (hash_path H (treePath t))) (combineStructure (childResults t)).
End Trees.

(** ** The member functions *)
Section Tasks.
Context {C : Type} (ops : CommandOps C) (H : TreeHashes) (sys : Sys) (node : nat -> BuildNode).

Abbreviation Store := (gmap CommandRef C).
Definition Step : Type := outcome (list Call * Task * Store).

Definition command_at (st : Store) (c : CommandRef) : outcome C :=
  match st !! c with Some x => Ok x | None => Crash (UseAfterFree "Command") end.

(** A node's path without its trailing slash. *)
Definition directoryPath (n : nat) : chars := statPath (nodeName (node n)).

Definition treeSignatureRequest (n : nat) : outcome (list Call) :=
  obind (Key.makeDirectoryTreeSignature (bytes_of (directoryPath n)) (exclusionPatterns (node n))) (fun k => Ok [request k 0]).

Fixpoint requestPaths (i : nat) (l : list PathRef) : outcome (list Call) :=
  match l with
  | [] => Ok []
  | Dangling :: _ => Crash (UseAfterFree "mustScanAfterPaths")
  | Live p :: l' => obind (requestPaths (S i) l') (fun cs => Ok (request (nodeKey p) (Z.of_nat (S i)) :: cs))
  end.

Definition producerOf (n : nat) : option chars :=
  match producers (node n) with
  | [c] => Some c
  | _ => chooseCommandFromMultipleProducers sys n
  end.

(** *** [start] *)
Definition TargetTask_start (target : Target) : list Call :=
  imap (fun id n => request (nodeKey (nodeName (node n))) (Z.of_nat id)) (targetNodes target).

Definition FileInputNodeTask_start (n : nat) : outcome (list Call) :=
  if decide (producers (node n) = []) then Ok [] else Crash (AssertFailed "node.getProducers().empty()").

Definition StatTask_start (name : chars) : list Call := [mustFollow (nodeKey name)].

Definition DirectoryInputNodeTask_start (n : nat) (sig : list Z) (finished : nat) : outcome (list Call * Task) :=
  let paths := mustScanAfterPaths (node n) in
  obind (requestPaths 0 paths) (fun calls =>
  obind (if decide (paths = []) then treeSignatureRequest n else Ok []) (fun calls' =>
  Ok (calls ++ calls', DirectoryInputNodeTask n sig (length paths) finished))).

Definition DirectoryStructureInputNodeTask_start (n : nat) : outcome (list Call) :=
  obind (Key.makeDirectoryTreeStructureSignature (bytes_of (directoryPath n)) (exclusionPatterns (node n))) (fun k =>
  Ok [request k 0]).

(** The calls, the producer and whether the node is invalid. *)
Definition ProducedNodeTask_start (n : nat) (inv : bool) : list Call * option chars * bool :=
  match producerOf n with
  | Some c => ([request (Key.makeCommand (bytes_of c)) 0], Some c, inv)
  | None => ([notify (cannotBuildNodeDueToMultipleProducers n)], None, true)
  end.
Definition ProducedDirectoryNodeTask_start (n : nat) (inv : bool) : list Call * option chars * bool :=
  match producerOf n with
  | Some c => ([request (Key.makeCommand (bytes_of c)) 0], Some c, inv)
  | None => ([notify (cannotBuildNodeDueToMultipleProducers n)], None, true)
  end.

Definition DirectoryContentsTask_start (path : chars) : list Call := [request (nodeKey path) 0].
Definition FilteredDirectoryContentsTask_start (path : chars) : list Call :=
  [request (nodeKey path) 0; request (Key.makeStat (bytes_of path)) 1].

Definition CommandTask_start (c : CommandRef) (st : Store) : outcome (list Call * Store) :=
  obind (command_at st c) (fun x =>
  obind (startCommand ops x) (fun r => Ok (notify (commandPreparing c) :: r.1, <[c := r.2]> st))).

Definition start (t : Task) (st : Store) : Step :=
  match t with
  | TargetTask target _ => Ok (TargetTask_start target, t, st)
  | FileInputNodeTask n => obind (FileInputNodeTask_start n) (fun calls => Ok (calls, t, st))
  | StatTask name => Ok (StatTask_start name, t, st)
  | DirectoryInputNodeTask n sig _ fin => obind (DirectoryInputNodeTask_start n sig fin) (fun r => Ok (r, st))
  | DirectoryStructureInputNodeTask n _ => obind (DirectoryStructureInputNodeTask_start n) (fun calls => Ok (calls, t, st))
  | ProducedNodeTask n r _ inv =>
      let '(calls, producer, inv') := ProducedNodeTask_start n inv in Ok (calls, ProducedNodeTask n r producer inv', st)
  | ProducedDirectoryNodeTask n r sig _ inv rs =>
      let '(calls, producer, inv') := ProducedDirectoryNodeTask_start n inv in
      Ok (calls, ProducedDirectoryNodeTask n r sig producer inv' rs, st)
  | DirectoryContentsTask path _ => Ok (DirectoryContentsTask_start path, t, st)
  | FilteredDirectoryContentsTask path _ _ => Ok (FilteredDirectoryContentsTask_start path, t, st)
  | DirectoryTreeSignatureTask tree | DirectoryTreeStructureSignatureTask tree =>
      obind (startTree tree) (fun calls => Ok (calls, t, st))
  | CommandTask c => obind (CommandTask_start c st) (fun r => Ok (r.1, t, r.2))
  | VirtualInputNodeTask | MissingCommandTask => Ok ([], t, st)
  end.

(** *** [providePriorValue] and [provideValue] *)
Definition CommandTask_providePriorValue (v : list Z) (c : CommandRef) (st : Store) : outcome Store :=
  obind (Value.fromData v) (fun value =>
  obind (command_at st c) (fun x =>
  obind (priorValueForCommand ops value x) (fun x' => Ok (<[c := x']> st)))).

Definition providePriorValue (v : list Z) (t : Task) (st : Store) : Step :=
  match t with
  | CommandTask c => obind (CommandTask_providePriorValue v c st) (fun st' => Ok ([], t, st'))
  | _ => Ok ([], t, st)
  end.

Definition TargetTask_provideValue (inputID : Z) (v : list Z) (target : Target) (missing : list nat) : outcome (list nat) :=
  obind (Value.fromData v) (fun value =>
  if isKind Value.MissingInput value then
    match targetNodes target !! Z.to_nat inputID with
    | Some n => Ok (if decide (n ∈ missing) then missing else missing ++ [n])
    | None => Crash (OutOfBounds "target.getNodes()")
    end
  else Ok missing).

Definition DirectoryInputNodeTask_provideValue (inputID : Z) (v : list Z) (n : nat) (sig : list Z) (total finished : nat)
  : outcome (list Call * Task) :=
  if (inputID =? 0)%Z then Ok ([], DirectoryInputNodeTask n v total finished)
  else
    obind (Value.fromData v) (fun _ =>
    obind (if (S finished =? total)%nat then treeSignatureRequest n else Ok []) (fun calls =>
    Ok (calls, DirectoryInputNodeTask n sig total (S finished)))).

(** [nodeResult = producingCommand->getResultForOutput(&node, value)]. *)
Definition producedValue (st : Store) (producer : option chars) (n : nat) (v : list Z) : outcome BuildValue :=
  obind (Value.fromData v) (fun value =>
  match producer with
  | None => Crash (AssertFailed "producingCommand")
  | Some c => obind (command_at st (inl c)) (fun x => resultForOutput ops x n value)
  end).

Definition ProducedDirectoryNodeTask_provideValue (inputID : Z) (v : list Z) (st : Store) (n : nat) (r : BuildValue) (sig : list Z)
    (producer : option chars) (inv rs : bool) : outcome (list Call * Task) :=
  if (inputID =? 0)%Z then
    obind (producedValue st producer n v) (fun r' =>
    if isKind Value.ExistingInput r' then
      obind (Key.makeDirectoryTreeSignature (bytes_of (directoryPath n)) emptyStringList) (fun k =>
      Ok ([request k 1], ProducedDirectoryNodeTask n r' sig producer inv true))
    else Ok ([], ProducedDirectoryNodeTask n r' sig producer inv rs))
  else if (inputID =? 1)%Z then Ok ([], ProducedDirectoryNodeTask n r v producer inv rs)
  else Ok ([], ProducedDirectoryNodeTask n r sig producer inv rs).

Definition DirectoryContentsTask_provideValue (inputID : Z) (v : list Z) (d : BuildValue) : outcome BuildValue :=
  if (inputID =? 0)%Z then Value.fromData v else Ok d.
Definition FilteredDirectoryContentsTask_provideValue (inputID : Z) (v : list Z) (d : BuildValue) : outcome BuildValue :=
  if (inputID =? 1)%Z then Value.fromData v else Ok d.

Definition CommandTask_provideValue (inputID : Z) (key : Key.Key) (v : list Z) (c : CommandRef) (st : Store)
  : outcome (list Call * Store) :=
  obind (Value.fromData v) (fun value =>
  obind (command_at st c) (fun x =>
  obind (valueForCommand ops inputID key value x) (fun r => Ok (r.1, <[c := r.2]> st)))).

Definition provideValue (inputID : Z) (key : Key.Key) (v : list Z) (t : Task) (st : Store) : Step :=
  match t with
  | TargetTask target missing =>
      obind (TargetTask_provideValue inputID v target missing) (fun missing' => Ok ([], TargetTask target missing', st))
  | DirectoryInputNodeTask n sig total fin =>
      obind (DirectoryInputNodeTask_provideValue inputID v n sig total fin) (fun r => Ok (r, st))
  | DirectoryStructureInputNodeTask n _ => Ok ([], DirectoryStructureInputNodeTask n v, st)
  | ProducedNodeTask n _ producer inv =>
      obind (producedValue st producer n v) (fun r => Ok ([], ProducedNodeTask n r producer inv, st))
  | ProducedDirectoryNodeTask n r sig producer inv rs =>
      obind (ProducedDirectoryNodeTask_provideValue inputID v st n r sig producer inv rs) (fun r => Ok (r, st))
  | DirectoryContentsTask path d =>
      obind (DirectoryContentsTask_provideValue inputID v d) (fun d' => Ok ([], DirectoryContentsTask path d', st))
  | FilteredDirectoryContentsTask path filters d =>
      obind (FilteredDirectoryContentsTask_provideValue inputID v d) (fun d' =>
      Ok ([], FilteredDirectoryContentsTask path filters d', st))
  | DirectoryTreeSignatureTask tree =>
      obind (provideTree inputID v tree) (fun r => Ok (r.1, DirectoryTreeSignatureTask r.2, st))
  | DirectoryTreeStructureSignatureTask tree =>
      obind (provideTreeStructure inputID v tree) (fun r => Ok (r.1, DirectoryTreeStructureSignatureTask r.2, st))
  | CommandTask c => obind (CommandTask_provideValue inputID key v c st) (fun r => Ok (r.1, t, r.2))
  | FileInputNodeTask _ | StatTask _ | VirtualInputNodeTask | MissingCommandTask => Ok ([], t, st)
  end.

(** *** [inputsAvailable] *)
Definition inputValue (info : FileInfo) : outcome (list Call) :=
  if isMissing info then completeWith Value.makeMissingInput
  else obind (Value.makeExistingInput info) completeWith.

Definition finishProduced (r : BuildValue) (inv : bool) : outcome (list Call) :=
  if inv then obind (completeWith Value.makeFailedInput) (fun cs => Ok (notify commandFailureNote :: cs))
  else if isKind Value.Invalid r then Crash (AssertFailed "!nodeResult.isInvalid()")
  else completeWith r.

Definition finishContents (path : chars) (d : BuildValue) : outcome (list Call) :=
  if isKind Value.MissingInput d then completeWith Value.makeMissingInput
  else if isKind Value.MissingOutput d then completeWith Value.makeMissingInput
  else if isKind Value.FailedInput d then completeWith Value.makeFailedInput
  else if isKind Value.SkippedCommand d then completeWith Value.makeSkippedCommand
  else
    obind (getOutputInfo d) (fun info =>
    obind (Value.makeDirectoryContents info (map bytes_of (getContents sys path))) completeWith).

Definition finishFilteredContents (path : chars) (filters : StringList) (d : BuildValue) : outcome (list Call) :=
  if isKind Value.MissingInput d then completeWith Value.makeMissingInput
  else if negb (isKind Value.ExistingInput d) then completeWith Value.makeFailedInput
  else
    obind (getOutputInfo d) (fun info =>
    if negb (isDirectory info) then obind (Value.makeExistingInput info) completeWith
    else
      obind (getFilteredContents sys path filters) (fun names =>
      obind (Value.makeFilteredDirectoryContents (map bytes_of names)) completeWith)).

Definition TargetTask_inputsAvailable (target : Target) (missing : list nat) : outcome (list Call) :=
  if isCancelled sys then completeWith Value.makeSkippedCommand
  else
    obind (completeWith Value.makeTarget) (fun cs =>
    Ok (match missing with
        | [] => cs
        | _ => notify (cannotBuildTarget (targetName target) (map (fun n => nodeName (node n)) missing))
                 :: notify commandFailureNote :: cs
        end)).
Definition FileInputNodeTask_inputsAvailable (n : nat) : outcome (list Call) :=
  obind (BuildNode.getFileInfo (getFileInfo sys) (node n)) inputValue.
Definition StatTask_inputsAvailable (name : chars) : outcome (list Call) := inputValue (stat_getFileInfo (getFileInfo sys) name).
Definition ProducedDirectoryNodeTask_inputsAvailable (r : BuildValue) (sig : list Z) (inv rs : bool) : outcome (list Call) :=
  if rs then Ok [completeTask sig false] else finishProduced r inv.
Definition MissingCommandTask_inputsAvailable : outcome (list Call) :=
  obind (Value.toData Value.makeInvalid) (fun bs => Ok [completeTask bs true]).

Definition inputsAvailable (t : Task) : outcome (list Call) :=
  match t with
  | TargetTask target missing => TargetTask_inputsAvailable target missing
  | FileInputNodeTask n => FileInputNodeTask_inputsAvailable n
  | StatTask name => StatTask_inputsAvailable name
  | DirectoryInputNodeTask _ sig _ _ | DirectoryStructureInputNodeTask _ sig => Ok [completeTask sig false]
  | VirtualInputNodeTask => completeWith Value.makeVirtualInput
  | ProducedNodeTask _ r _ inv => finishProduced r inv
  | ProducedDirectoryNodeTask _ r sig _ inv rs => ProducedDirectoryNodeTask_inputsAvailable r sig inv rs
  | DirectoryContentsTask path d => finishContents path d
  | FilteredDirectoryContentsTask path filters d => finishFilteredContents path filters d
  | DirectoryTreeSignatureTask tree => completeWith (Value.makeDirectoryTreeSignature (treeSignature H tree))
  | DirectoryTreeStructureSignatureTask tree =>
      obind (treeStructureSignature H tree) (fun code => completeWith (Value.makeDirectoryTreeStructureSignature code))
  | CommandTask c => Ok [spawnCommand c]
  | MissingCommandTask => MissingCommandTask_inputsAvailable
  end.

(** The job of a command task, up to the command's execution: it completes at once if the
    build is cancelled or the delegate does not let the command start.  (A detached command
    runs the same job on the engine's thread.) *)
Definition commandJob (shouldStart : bool) (c : CommandRef) : outcome (list Call * bool) :=
  if isCancelled sys then obind (completeWith Value.makeCancelledCommand) (fun cs => Ok (cs, false))
  else if shouldStart then Ok ([], true)
  else obind (completeWith Value.makeSkippedCommand) (fun cs => Ok (notify (commandNote c (commandFinished Skipped)) :: cs, false)).
(** The result function given to the command. *)
Definition commandResult (result : BuildValue) : outcome (list Call) :=
  obind (completeWith result) (fun cs => Ok ((if isKind Value.FailedCommand result then [notify commandFailureNote] else []) ++ cs)).

(** ** Validity of stored results *)
Definition fileInputValid (n : nat) (value : BuildValue) : outcome bool :=
  obind (BuildNode.getFileInfo (getFileInfo sys) (node n)) (fun info =>
  if isMissing info then Ok (isKind Value.MissingInput value)
  else if isKind Value.ExistingInput value then obind (getOutputInfo value) (fun old => Ok (FileInfo_eqb old info))
  else Ok false).
Definition virtualInputValid (value : BuildValue) : bool := isKind Value.VirtualInput value.
Definition producedNodeValid (value : BuildValue) : bool :=
  negb (isKind Value.FailedInput value) && negb (isKind Value.MissingInput value).
Definition contentsValid (path : chars) (value : BuildValue) : outcome bool :=
  let info := getFileInfo sys path in
  if isMissing info then Ok (isKind Value.MissingInput value)
  else if negb (isKind Value.DirectoryContents value) then Ok false
  else
    obind (getOutputInfo value) (fun old =>
    if negb (Bool.eqb (isDirectory info) (isDirectory old)) then Ok false
    else if negb (isDirectory info) then Ok (FileInfo_eqb old info)
    else
      obind (Value.getDirectoryContents value) (fun prev => Ok (bool_decide (map bytes_of (getContents sys path) = prev)))).
End Tasks.
