(* ===== verification/BuildTasksProps.v ===== *)
(** * Properties of the build system's tasks

    When a later build accepts the results of the tasks that look at the file system, and
    what the tasks that compute the signature of a directory tree ask for and compute. *)

From Stdlib Require Import Ascii String Lia ZArith.
From stdpp Require Import base gmap list sorting strings numbers.
From S2P Require Import Prelude Chars NinjaPath Coding BuildValue BuildKey Process BuildNode ExternalCommand ExternalCommandProps BuildTasks.

Local Open Scope nat_scope.

(** ** The order of file names *)
Lemma byte_of_inj c d : byte_of c = byte_of d -> c = d.
Proof. unfold byte_of. intros H. apply N2Z.inj in H. rewrite <- (ascii_N_embedding c), <- (ascii_N_embedding d). by f_equal. Qed.
Lemma bytes_of_inj s t : bytes_of s = bytes_of t -> s = t.
Proof.
  revert t. induction s as [|c s IH]; intros [|d t] H; try done. cbn in H. injection H as Hc Hs.
  f_equal; [by apply byte_of_inj|by apply IH].
Qed.
#[global] Instance bytes_of_Inj : Inj (=) (=) bytes_of.
Proof. intros s t. apply bytes_of_inj. Qed.

Lemma chars_of_bytes_of s : chars_of_bytes (bytes_of s) = s.
Proof.
  induction s as [|c s IH]; [done|]. cbn. f_equal; [|exact IH]. unfold char_of, byte_of.
  rewrite N2Z.id. apply ascii_N_embedding.
Qed.

#[global] Instance chars_le_total : Total chars_le.
Proof.
  intros a. unfold chars_le. induction a as [|x a IH]; intros [|y b]; cbn; [by left|by left|by right|].
  destruct (Z.ltb_spec (byte_of x) (byte_of y)); [by left|]. destruct (Z.ltb_spec (byte_of y) (byte_of x)); [by right|]. apply IH.
Qed.
#[global] Instance chars_le_trans : Transitive chars_le.
Proof.
  unfold chars_le. intros a. induction a as [|x a IH]; intros [|y b] [|z c]; cbn; try done.
  repeat (match goal with |- context [(?p <? ?q)%Z] => destruct (Z.ltb_spec p q) end; try lia; try done).
  apply IH.
Qed.
#[global] Instance chars_le_antisymm : AntiSymm (=) chars_le.
Proof.
  unfold chars_le. intros a. induction a as [|x a IH]; intros [|y b]; cbn; try done.
  destruct (Z.ltb_spec (byte_of x) (byte_of y)), (Z.ltb_spec (byte_of y) (byte_of x)); try lia; try done.
  intros H1 H2. f_equal; [apply byte_of_inj; lia|by apply IH].
Qed.

Lemma sort_sorted l : Sorted chars_le (merge_sort chars_le l).
Proof. apply Sorted_merge_sort, _. Qed.
Lemma sort_perm l : merge_sort chars_le l ≡ₚ l.
Proof. apply merge_sort_Permutation. Qed.
(** Sorting forgets the order of the list, and nothing else. *)
Lemma sort_eq l l' : merge_sort chars_le l = merge_sort chars_le l' <-> l ≡ₚ l'.
Proof.
  split; intros E.
  - by rewrite <- (sort_perm l), <- (sort_perm l'), E.
  - apply (StronglySorted_unique chars_le); [apply (StronglySorted_merge_sort chars_le)..|].
    etransitivity; [apply sort_perm|]. etransitivity; [exact E|]. symmetry. apply sort_perm.
Qed.

(** ** What a directory lists *)
Definition listed (sys : Sys) (path : chars) : list chars :=
  map filename (filter (fun e => linksUp path e = false) (listDirectory sys path)).

(** File names are nul-free, as in any directory, and there are not too many. *)
Definition names_ok (l : list chars) : Prop :=
  Value.valid_names (map bytes_of l).

Lemma no_nul_perm l l' : l ≡ₚ l' -> Forall no_nul (map bytes_of l) -> Forall no_nul (map bytes_of l').
Proof. intros E. by rewrite (Permutation_map bytes_of E). Qed.

Lemma packed_perm (l l' : list (list Z)) : l ≡ₚ l' -> length (packed l) = length (packed l').
Proof. unfold packed. induction 1; cbn; rewrite ?length_app; cbn; lia. Qed.

Lemma names_ok_sort l : names_ok l -> names_ok (merge_sort chars_le l).
Proof.
  intros [Hn Hr]. split.
  - eapply no_nul_perm; [symmetry; apply sort_perm|done].
  - by rewrite (packed_perm _ (map bytes_of l)) by apply Permutation_map, sort_perm.
Qed.

(** ** Results of tasks that look at the file system *)

Lemma completes d : Value.valid_desc d ->
  exists bs, obind (Value.make d) completeWith = Ok [completeTask bs false] /\ Value.fromData bs = Ok (Value.decoded d).
Proof.
  intros H. destruct (Value.made d H) as (v & bs & E1 & E2 & E3). exists bs. rewrite E1. cbn [obind].
  unfold completeWith. by rewrite E2.
Qed.

(** The description of an input file. *)
Definition input_desc (info : FileInfo) : Value.Desc :=
  if isMissing info then Value.DMissingInput else Value.DExistingInput info.

Lemma input_desc_valid info : valid_info info -> Value.valid_desc (input_desc info).
Proof. intros H. unfold input_desc. destruct (isMissing info) eqn:E; [done|by split]. Qed.
Lemma inputValue_desc info : inputValue info = obind (Value.make (input_desc info)) completeWith.
Proof. unfold inputValue, input_desc. by destruct (isMissing info). Qed.

Section Results.
Context (sys sys' : Sys) (node : nat -> BuildNode).

Definition file_unchanged (old new : FileInfo) : bool :=
  if isMissing new then isMissing old else negb (isMissing old) && FileInfo_eqb old new.

Lemma fileInputValid_decoded n info : isVirtual (node n) = false ->
  fileInputValid sys' node n (Value.decoded (input_desc info))
  = Ok (file_unchanged info (getFileInfo sys' (statPath (nodeName (node n))))).
Proof.
  intros Hv. unfold fileInputValid, BuildNode.getFileInfo, file_unchanged. rewrite Hv. cbn [obind].
  set (new := getFileInfo sys' _). unfold input_desc. destruct (isMissing new), (isMissing info); done.
Qed.

(** The contents of a directory with information [old] are unchanged. *)
Definition contents_unchanged (path : chars) (old : FileInfo) : Prop :=
  let new := getFileInfo sys' path in
  isMissing new = false /\ isDirectory new = isDirectory old
  /\ if isDirectory new then listed sys path ≡ₚ listed sys' path else FileInfo_eqb old new = true.

Definition contents_desc (path : chars) (info : FileInfo) : Value.Desc :=
  Value.DDirectoryContents info (map bytes_of (getContents sys path)).

Lemma contents_desc_valid path info : valid_info info -> names_ok (listed sys path) ->
  Value.valid_desc (contents_desc path info).
Proof. intros Hi Hn. split; [done|]. by apply names_ok_sort. Qed.

Lemma contentsValid_decoded path info : names_ok (listed sys path) ->
  exists b, contentsValid sys' path (Value.decoded (contents_desc path info)) = Ok b
    /\ (b = true <-> contents_unchanged path info).
Proof.
  intros Hn. unfold contentsValid, contents_unchanged. set (new := getFileInfo sys' path).
  destruct (isMissing new) eqn:Em; [exists false; split; [done|]; split; [done|by intros [? _]]|].
  change (getOutputInfo (Value.decoded (contents_desc path info))) with (Ok info). eval_kinds. cbn [negb obind].
  destruct (Bool.eqb_spec (isDirectory new) (isDirectory info)) as [Ed|Ed]; cbn [negb].
  2: { exists false. split; [done|]. split; [done|by intros (_ & ? & _)]. }
  destruct (isDirectory new) eqn:En; cbn [negb].
  - assert (E : Value.getDirectoryContents (Value.decoded (contents_desc path info)) = Ok (map bytes_of (getContents sys path))).
    { apply (proj2 (Value.strings_valid _ (names_ok_sort _ Hn))). }
    rewrite E. cbn [obind]. eexists. split; [done|]. rewrite bool_decide_eq_true. split.
    + intros Eq. split; [done|]. split; [done|]. apply (inj (map bytes_of)) in Eq. symmetry. by apply sort_eq.
    + intros (_ & _ & Eq). f_equal. symmetry. by apply sort_eq.
  - eexists. split; [done|]. naive_solver.
Qed.
End Results.

(** C15: When a later build accepts what the tasks read from the file system.  The task of an
    input file stores its information, or that it is missing; a later build accepts the
    stored value exactly when the file is still missing, or still there with the same
    information.  The task of a directory's contents stores the names it lists; a later build
    accepts them exactly when the directory is still there and lists the same names, in
    whatever order the file system reports them (for a path that is not a directory, when
    its information is the same).  No assertion fails on the way. *)
Theorem read_results_valid_iff H sys sys' node :
  (forall p, valid_info (getFileInfo sys p)) -> (forall p, names_ok (listed sys p)) ->
  (forall n, isVirtual (node n) = false ->
    let p := statPath (nodeName (node n)) in
    exists bs v, inputsAvailable H sys node (FileInputNodeTask n) = Ok [completeTask bs false]
      /\ Value.fromData bs = Ok v
      /\ fileInputValid sys' node n v = Ok (file_unchanged (getFileInfo sys p) (getFileInfo sys' p)))
  /\ (forall path info, valid_info info ->
    exists bs v b, inputsAvailable H sys node (DirectoryContentsTask path (Value.decoded (Value.DExistingInput info)))
        = Ok [completeTask bs false]
      /\ Value.fromData bs = Ok v /\ contentsValid sys' path v = Ok b
      /\ (b = true <-> contents_unchanged sys sys' path info))
  /\ (forall path,
    exists bs v, inputsAvailable H sys node (DirectoryContentsTask path (Value.decoded Value.DMissingInput))
        = Ok [completeTask bs false]
      /\ Value.fromData bs = Ok v /\ contentsValid sys' path v = Ok (isMissing (getFileInfo sys' path))).
Proof.
  intros Hf Hn. split; [|split].
  - intros n Hv p. destruct (completes (input_desc (getFileInfo sys p))) as (bs & E & D); [by apply input_desc_valid|].
    exists bs, (Value.decoded (input_desc (getFileInfo sys p))). split; [|split; [done|]].
    + cbn [inputsAvailable]. unfold FileInputNodeTask_inputsAvailable, BuildNode.getFileInfo. rewrite Hv. cbn [obind]. by rewrite inputValue_desc.
    + by apply fileInputValid_decoded.
  - intros path info Hi. destruct (completes (contents_desc sys path info)) as (bs & E & D); [by apply contents_desc_valid|].
    destruct (contentsValid_decoded sys sys' path info (Hn path)) as (b & Eb & Hb).
    exists bs, (Value.decoded (contents_desc sys path info)), b. done.
  - intros path. destruct (completes Value.DMissingInput I) as (bs & E & D). exists bs, (Value.decoded Value.DMissingInput).
    split; [exact E|]. split; [done|]. unfold contentsValid. by destruct (isMissing (getFileInfo sys' path)).
Qed.

Lemma read_results_valid_iff_witness :
  let info := mkFileInfo 1 2 0x4000 4 (mkTimestamp 5 0) zeroChecksum in
  let entry s := mkEntry (chars_of s) false None in
  let sys l := mkSys (fun _ => info) (fun _ => l) (fun _ _ => false) (fun _ => None) false in
  let H := mkTreeHashes (fun _ => 0%Z) (fun c _ => c) (fun c _ => c) (fun c _ => c) in
  exists bs v b, inputsAvailable H (sys [entry "b"; entry "a"]) (fun _ => makePlain [])
      (DirectoryContentsTask (chars_of "d") (Value.decoded (Value.DExistingInput info))) = Ok [completeTask bs false]
    /\ Value.fromData bs = Ok v /\ contentsValid (sys [entry "a"; entry "b"]) (chars_of "d") v = Ok b
    /\ (b = true <-> contents_unchanged (sys [entry "b"; entry "a"]) (sys [entry "a"; entry "b"]) (chars_of "d") info).
Proof.
  intros info entry sys H.
  assert (Hi : valid_info info) by (unfold valid_info, range; cbn; repeat split; lia || done).
  apply (read_results_valid_iff H (sys [entry "b"; entry "a"]) (sys [entry "a"; entry "b"]) (fun _ => makePlain [])).
  - intros p. exact Hi.
  - intros p. split; [|vm_compute; split; congruence].
    repeat constructor; unfold no_nul; apply (bool_decide_unpack _); vm_compute; exact I.
  - exact Hi.
Defined.

(** A symbolic link is left out of a directory's contents when the directory's path starts
    with the text of the path it resolves to, which need not be a parent: here [/a/lib]
    is not above [/a/library]. *)
Example sibling_link_not_listed :
  let sys := mkSys (fun _ => zeroFileInfo) (fun _ => [mkEntry (chars_of "link") true (Some (chars_of "/a/lib"))])
               (fun _ _ => false) (fun _ => None) false in
  getContents sys (chars_of "/a/library") = [].
Proof. reflexivity. Qed.
