(* ===== verification/BuildTrees.v ===== *)
(** * Signatures of directory trees

    The two tasks that compute a signature over a directory tree ask for the contents of the
    directory, then for the node of each child, and for each child that is a directory for
    its own signature.  The engine delivers the values in any order.  Here: whatever the
    order, every delivery is accepted, the deliveries come to an end, and the signature is
    the same function of the values. *)

From Stdlib Require Import Ascii String Lia ZArith.
From stdpp Require Import base gmap list relations strings numbers.
From S2P Require Import Prelude Chars NinjaPath Coding BuildValue BuildKey Process BuildNode ExternalCommand ExternalCommandProps BuildTasks BuildTasksProps.

Local Open Scope nat_scope.

(** ** Lists *)
Lemma alter_insert_lookup {A} (f : A -> A) (l : list A) i x : l !! i = Some x -> alter f i l = <[i := f x]> l.
Proof.
  revert i. induction l as [|y l IH]; intros [|i] H; try done; cbn in *; [by simplify_eq|]. f_equal. by apply IH.
Qed.

(** Changing one element changes one summand. *)
Lemma concat_imap_update {A B} (f : nat -> A -> list B) (l : list A) i x : l !! i = Some x ->
  exists rest, concat (imap f l) ≡ₚ f i x ++ rest /\ forall y, concat (imap f (<[i := y]> l)) ≡ₚ f i y ++ rest.
Proof.
  revert f i. induction l as [|z l IH]; intros f [|i] H; [done..| |]; cbn in H.
  - injection H as ->. exists (concat (imap (f ∘ S) l)). by split.
  - destruct (IH (f ∘ S) i H) as (rest & E1 & E2). exists (f 0 z ++ rest). split.
    + cbn. rewrite E1. cbn. by rewrite !app_assoc, (Permutation_app_comm (f 0 z)).
    + intros y. cbn. rewrite E2. cbn. by rewrite !app_assoc, (Permutation_app_comm (f 0 z)).
Qed.

Lemma elem_of_concat_imap {A B} (f : nat -> A -> list B) (l : list A) b : b ∈ concat (imap f l) ->
  exists i x, l !! i = Some x /\ b ∈ f i x.
Proof.
  revert f. induction l as [|z l IH]; intros f H; [by apply elem_of_nil in H|]. cbn in H.
  apply elem_of_app in H as [H|H]; [by exists 0, z|]. destruct (IH _ H) as (i & x & E & Hb). by exists (S i), x.
Qed.

(** ** Deliveries *)
Section Deliveries.
Context (provide : Z -> list Z -> Tree -> outcome (list Call * Tree)) (val : Key.Key -> list Z).

Definition requests (calls : list Call) : list (Key.Key * Z) :=
  omap (fun c => match c with request k i => Some (k, i) | _ => None end) calls.

(** A task and its requests that were not answered yet. *)
Definition Waiting : Type := Tree * list (Key.Key * Z).

(** The engine delivers the value of any request it has not answered. *)
Inductive deliver : Waiting -> Waiting -> Prop :=
| deliver_one t before k i after calls t' :
    provide i (val k) t = Ok (calls, t') ->
    deliver (t, before ++ (k, i) :: after) (t', before ++ after ++ requests calls).
End Deliveries.

Section Trees.
Context (sk : list Z -> StringList -> outcome Key.Key).
Context (provide : Z -> list Z -> Tree -> outcome (list Call * Tree)) (val : Key.Key -> list Z).
Context (path : chars) (filters : StringList) (dv : list Z) (names : list (list Z)).

Definition childKey (f : list Z) : Key.Key := nodeKey (childPath path f).
Definition childSignatureKey (f : list Z) : Key.Key :=
  match sk (bytes_of (childPath path f)) filters with Ok k => k | Crash _ => [] end.

Definition child_info (f : list Z) : outcome (option FileInfo) :=
  obind (Value.fromData (val (childKey f))) (fun v =>
  if isKind Value.ExistingInput v then obind (getOutputInfo v) (fun info => Ok (Some info)) else Ok None).
Definition child_is_directory (f : list Z) : bool :=
  match child_info f with Ok (Some info) => isDirectory info | _ => false end.

Hypothesis Hcontents : provide 0 dv (mkTree path filters [] [])
  = Ok (requestChildren path 0 names, mkTree path filters dv (map (fun f => mkSubpath f [] None) names)).
Hypothesis Hprovide : forall i v t, (0 < i)%Z -> provide i v t = treeChild sk i v t.
Hypothesis Hkeys : forall f, f ∈ names -> is_ok (sk (bytes_of (childPath path f)) filters) = true.
Hypothesis Hvals : forall f, f ∈ names -> is_ok (child_info f) = true.
Hypothesis Hsize : (Z.of_nat (length names) < 2 ^ 62)%Z.

(** How far a child is. *)
Inductive Phase := NoValue | NoSignature | Complete.
Abbreviation Children := (list (list Z * Phase)).

Definition subpath (c : list Z * Phase) : SubpathInfo :=
  mkSubpath c.1 (match c.2 with NoValue => [] | _ => val (childKey c.1) end)
    (match c.2 with Complete => if child_is_directory c.1 then Some (val (childSignatureKey c.1)) else None | _ => None end).

Definition outstanding (i : nat) (c : list Z * Phase) : list (Key.Key * Z) :=
  match c.2 with
  | NoValue => [(childKey c.1, Z.of_nat (1 + i))]
  | NoSignature => [(childSignatureKey c.1, Z.of_nat (1 + length names + i))]
  | Complete => []
  end.

Definition consistent (c : list Z * Phase) : Prop := c.2 = NoSignature -> child_is_directory c.1 = true.

Definition tree_of (cs : Children) : Tree := mkTree path filters dv (map subpath cs).

Definition tree_inv (cs : Children) (w : Waiting) : Prop :=
  map fst cs = names /\ Forall consistent cs /\ w.1 = tree_of cs /\ w.2 ≡ₚ concat (imap outstanding cs).

Lemma cs_length (cs : Children) : map fst cs = names -> length cs = length names.
Proof. intros <-. by rewrite length_map. Qed.

Lemma cs_name (cs : Children) i c : map fst cs = names -> cs !! i = Some c -> c.1 ∈ names.
Proof. intros <- H. apply list_elem_of_fmap. exists c. split; [done|]. by eapply list_elem_of_lookup_2. Qed.

(** The next phase of a child when a value arrives. *)
Definition after_value (f : list Z) : Phase := if child_is_directory f then NoSignature else Complete.

Lemma lookup_child cs i c : cs !! i = Some c -> childResults (tree_of cs) !! i = Some (subpath c).
Proof. intros H. cbn. by rewrite list_lookup_fmap, H. Qed.

Lemma set_child_tree cs i c c' g : cs !! i = Some c -> g (subpath c) = subpath c' ->
  set_child i g (tree_of cs) = tree_of (<[i := c']> cs).
Proof.
  intros H E. unfold set_child, tree_of. cbn [treePath treeFilters treeValue childResults]. f_equal.
  rewrite (alter_insert_lookup g _ i (subpath c)) by (by rewrite list_lookup_fmap, H).
  by rewrite E, (list_fmap_insert subpath).
Qed.

Lemma provide_value (cs : Children) i f : map fst cs = names -> cs !! i = Some (f, NoValue) ->
  treeChild sk (Z.of_nat (1 + i)) (val (childKey f)) (tree_of cs)
  = Ok (if child_is_directory f then [request (childSignatureKey f) (Z.of_nat (1 + length names + i))] else [],
        tree_of (<[i := (f, after_value f)]> cs)).
Proof.
  intros Hn Hi. pose proof (cs_length _ Hn) as Hl. pose proof (lookup_lt_Some _ _ _ Hi) as Hlt.
  pose proof (cs_name _ _ _ Hn Hi) as Hf. cbn in Hf. pose proof (Hkeys _ Hf) as Hk. pose proof (Hvals _ Hf) as Hv.
  unfold treeChild. replace (length (childResults (tree_of cs))) with (length cs) by (cbn; by rewrite length_map).
  destruct (Z.leb_spec 1 (Z.of_nat (1 + i))); [|lia]. destruct (Z.ltb_spec (Z.of_nat (1 + i)) (1 + Z.of_nat (length cs))); [|lia].
  cbn [andb]. replace (Z.to_nat (Z.of_nat (1 + i) - 1)) with i by lia. rewrite (lookup_child _ _ _ Hi).
  assert (Hset : forall ph, subpath (f, ph) = mkSubpath f (val (childKey f)) None ->
    set_child i (fun c => mkSubpath (subpathName c) (val (childKey f)) (subpathSignature c)) (tree_of cs) = tree_of (<[i := (f, ph)]> cs)).
  { intros ph E. by apply (set_child_tree _ _ (f, NoValue)). }
  unfold after_value, child_is_directory, child_info in *. destruct (Value.fromData _) as [v|] eqn:Ev; [|done]. cbn [obind] in *.
  destruct (isKind Value.ExistingInput v) eqn:Ek.
  - destruct (getOutputInfo v) as [info|] eqn:Ei; [|done]. cbn [obind] in *. destruct (isDirectory info) eqn:Ed.
    + unfold childSignatureKey. destruct (sk _ filters) as [k|] eqn:Es; [|done].
      change (sk _ (treeFilters (tree_of cs))) with (sk (bytes_of (childPath path f)) filters). rewrite Es. cbn [obind].
      rewrite (Hset NoSignature) by done. rewrite Hl. do 4 f_equal. lia.
    + rewrite (Hset Complete); [done|]. unfold subpath. cbn [fst snd].
      unfold child_is_directory, child_info. rewrite Ev. cbn [obind]. rewrite Ek, Ei. cbn [obind]. by rewrite Ed.
  - rewrite (Hset Complete); [done|]. unfold subpath. cbn [fst snd].
    unfold child_is_directory, child_info. rewrite Ev. cbn [obind]. by rewrite Ek.
Qed.

Lemma provide_signature (cs : Children) i f : map fst cs = names -> cs !! i = Some (f, NoSignature) -> child_is_directory f = true ->
  treeChild sk (Z.of_nat (1 + length names + i)) (val (childSignatureKey f)) (tree_of cs)
  = Ok ([], tree_of (<[i := (f, Complete)]> cs)).
Proof.
  intros Hn Hi Hd. pose proof (cs_length _ Hn) as Hl. pose proof (lookup_lt_Some _ _ _ Hi) as Hlt.
  unfold treeChild. replace (length (childResults (tree_of cs))) with (length cs) by (cbn; by rewrite length_map).
  destruct (Z.ltb_spec (Z.of_nat (1 + length names + i)) (1 + Z.of_nat (length cs))); [lia|]. rewrite andb_false_r.
  replace (Z.of_nat (1 + length names + i) - 1 - Z.of_nat (length cs))%Z with (Z.of_nat i) by lia.
  rewrite Z.mod_small by lia. rewrite Nat2Z.id, (lookup_child _ _ _ Hi). do 2 f_equal.
  apply (set_child_tree _ _ (f, NoSignature)); [done|]. unfold subpath. cbn. by rewrite Hd.
Qed.

(** The deliveries a child still takes, at most. *)
Definition steps_left (ph : Phase) : nat := match ph with NoValue => 2 | NoSignature => 1 | Complete => 0 end.
Definition weight (cs : Children) : nat := length (concat (imap (fun _ c => replicate (steps_left c.2) tt) cs)).

Lemma weight_update (cs : Children) i c c' : cs !! i = Some c -> steps_left c'.2 < steps_left c.2 ->
  weight (<[i := c']> cs) < weight cs.
Proof.
  intros Hi Hlt. destruct (concat_imap_update (fun _ c => replicate (steps_left c.2) tt) cs i c Hi) as (rest & E1 & E2).
  unfold weight. rewrite (Permutation_length E1), (Permutation_length (E2 c')), !length_app, !length_replicate. lia.
Qed.

Lemma names_update (cs : Children) i f ph ph' : map fst cs = names -> cs !! i = Some (f, ph) ->
  map fst (<[i := (f, ph')]> cs) = names.
Proof.
  intros Hn Hi. change (map fst) with (fmap (M := list) (@fst (list Z) Phase)). rewrite list_fmap_insert. cbn.
  rewrite list_insert_id; [exact Hn|]. by rewrite list_lookup_fmap, Hi.
Qed.

(** One delivery moves one child to its next phase. *)
Lemma move_child (cs : Children) t before k i after j f ph ph' calls :
  tree_inv cs (t, before ++ (k, i) :: after) -> cs !! j = Some (f, ph) -> outstanding j (f, ph) = [(k, i)] ->
  requests calls = outstanding j (f, ph') -> consistent (f, ph') -> steps_left ph' < steps_left ph ->
  provide i (val k) t = Ok (calls, tree_of (<[j := (f, ph')]> cs)) ->
  exists cs', provide i (val k) t = Ok (calls, tree_of cs')
    /\ tree_inv cs' (tree_of cs', before ++ after ++ requests calls) /\ weight cs' < weight cs.
Proof.
  intros (Hn & Hc & _ & Hp) Hj Ho Hr Hok Hlt E. exists (<[j := (f, ph')]> cs). split; [done|]. split.
  - split; [by eapply names_update|]. split; [by apply Forall_insert|]. split; [done|]. cbn [snd] in *.
    destruct (concat_imap_update outstanding cs j _ Hj) as (rest & E1 & E2). rewrite E2, <- Hr.
    rewrite E1, Ho, <- Permutation_middle in Hp. apply Permutation_cons_inv in Hp.
    by rewrite app_assoc, Hp, Permutation_app_comm.
  - by eapply weight_update.
Qed.

Lemma answer (cs : Children) t before k i after : tree_inv cs (t, before ++ (k, i) :: after) ->
  exists calls cs', provide i (val k) t = Ok (calls, tree_of cs')
    /\ tree_inv cs' (tree_of cs', before ++ after ++ requests calls) /\ weight cs' < weight cs.
Proof.
  intros HI. pose proof HI as (Hn & Hc & Et & Hp). cbn [fst snd] in Et, Hp. subst t.
  assert (Hin : (k, i) ∈ concat (imap outstanding cs)) by (rewrite <- Hp; set_solver).
  apply elem_of_concat_imap in Hin as (j & [f ph] & Hj & Hb).
  assert (Hcj : consistent (f, ph)) by (by eapply (Forall_lookup_1 consistent)).
  destruct ph; cbn [outstanding fst snd] in Hb; [| |by apply elem_of_nil in Hb];
    apply list_elem_of_singleton in Hb; simplify_eq.
  - exists (if child_is_directory f then [request (childSignatureKey f) (Z.of_nat (1 + length names + j))] else []).
    apply (move_child cs _ _ _ _ _ j f NoValue (after_value f)); [done|done|done| | | |].
    + unfold after_value. by destruct (child_is_directory f).
    + unfold consistent, after_value. cbn. by destruct (child_is_directory f).
    + unfold after_value. cbn. by destruct (child_is_directory f); cbn; lia.
    + rewrite Hprovide by lia. by apply provide_value.
  - exists []. apply (move_child cs _ _ _ _ _ j f NoSignature Complete); [done|done|done|done|done|cbn; lia|].
    rewrite Hprovide by lia. apply provide_signature; [done|done|by apply Hcj].
Qed.

(** The tree when everything was delivered. *)
Definition finished_tree : Tree := tree_of (map (fun f => (f, Complete)) names).

Lemma all_delivered cs t : tree_inv cs (t, []) -> t = finished_tree.
Proof.
  intros (Hn & Hc & Et & Hp). cbn [fst snd] in *. subst t. unfold finished_tree. f_equal.
  apply Permutation_nil in Hp. rewrite <- Hn. clear Hn Hc.
  assert (Hall : Forall (fun c => c.2 = Complete) cs).
  { apply Forall_lookup. intros i [f ph] Hi.
    destruct (concat_imap_update outstanding cs i _ Hi) as (rest & E1 & _). rewrite Hp in E1.
    apply Permutation_nil in E1. by destruct ph. }
  clear Hp. induction Hall as [|[f ph] cs' E _ IH]; [done|]. cbn in *. by rewrite E, <- IH.
Qed.

Lemma initial_children i l : requests (requestChildren path i l)
  = concat (imap (fun j c => [(childKey (c : list Z * Phase).1, Z.of_nat (1 + (i + j)))]) (map (fun f => (f, NoValue)) l)).
Proof.
  revert i. induction l as [|f l IH]; intros i; [done|]. cbn [requestChildren map imap requests omap]. cbn. f_equal; [do 2 f_equal; lia|].
  unfold requests in IH. rewrite IH. f_equal. apply imap_ext. intros j c _. cbn. do 3 f_equal. lia.
Qed.

Lemma initial_inv : tree_inv (map (fun f => (f, NoValue)) names)
  (mkTree path filters dv (map (fun f => mkSubpath f [] None) names), requests (requestChildren path 0 names)).
Proof.
  split; [|split; [|split]].
  - rewrite map_map. cbn. apply map_id.
  - apply Forall_fmap, Forall_forall. by intros f _.
  - unfold tree_of. cbn. by rewrite map_map.
  - cbn [snd]. rewrite initial_children. apply reflexive_eq. f_equal. apply imap_ext. intros j c Hc.
    apply list_lookup_fmap_Some in Hc as (f & -> & _). done.
Qed.

Lemma initial_weight l : weight (map (fun f => (f, NoValue)) l) = 2 * length l.
Proof.
  unfold weight. rewrite (imap_const (fun c : list Z * Phase => replicate (steps_left c.2) tt)).
  induction l as [|f l IH]; [done|]. cbn in *. lia.
Qed.

(** From the first request on: deliveries never fail, there are at most [1 + 2 n] of them,
    and when nothing is outstanding the tree is complete. *)
Lemma tree_deliveries k0 m w : val k0 = dv ->
  nsteps (deliver provide val) m (mkTree path filters [] [], [(k0, 0%Z)]) w ->
  m <= 1 + 2 * length names
  /\ (forall before k i after, w.2 = before ++ (k, i) :: after -> is_ok (provide i (val k) w.1) = true)
  /\ (w.2 = [] -> w.1 = finished_tree).
Proof.
  intros Hk0 Hm.
  assert (Hlater : forall m cs w1, tree_inv cs w1 -> nsteps (deliver provide val) m w1 w ->
    exists cs', tree_inv cs' w /\ m + weight cs' <= weight cs).
  { clear Hk0 Hm m. intros m. induction m as [|m IH]; intros cs w1 HI Hs; inversion Hs as [|? ? w2 ? Hd Hr]; subst; [exists cs; split; [done|lia]|].
    destruct Hd as [t before k i after calls t' E]. destruct (answer _ _ _ _ _ _ HI) as (calls' & cs' & E' & HI' & Hw).
    rewrite E' in E. injection E as <- <-. destruct (IH _ _ HI' Hr) as (cs'' & HI'' & Hw'). exists cs''. split; [done|]. lia. }
  inversion Hm as [|m' ? w1 ? H1 H2]; subst.
  - split; [lia|]. split; [|done]. intros [|b before] k i after E; cbn in E; simplify_eq; [|by destruct before].
    cbn [fst]. by rewrite Hk0, Hcontents.
  - inversion H1 as [t before k i after calls t' E Eq]. destruct before as [|b before]; [|by destruct before]. simplify_eq/=.
    rewrite Hk0, Hcontents in E. simplify_eq.
    destruct (Hlater _ _ _ initial_inv H2) as (cs' & HI & Hw). rewrite initial_weight in Hw. split; [lia|]. split.
    + intros before k i after Ew. destruct w as [t p]. cbn in Ew. subst p.
      destruct (answer _ _ _ _ _ _ HI) as (calls' & cs'' & E' & _). cbn [fst]. by rewrite E'.
    + intros Ew. destruct w as [t p]. cbn in Ew. subst p. by apply (all_delivered cs').
Qed.
End Trees.

(** ** The signature of a tree *)

(** The children named by the value of a directory's contents. *)
Definition tree_children (filters : StringList) (v : list Z) : outcome (list (list Z)) :=
  obind (Value.fromData v) (fun value =>
  if (filtersEmpty filters && isKind Value.DirectoryContents value)
     || (negb (filtersEmpty filters) && isKind Value.FilteredDirectoryContents value)
  then Value.getDirectoryContents value else Ok []).
(** The structure task accepts fewer values. *)
Definition structure_children (v : list Z) : outcome (list (list Z)) :=
  obind (Value.fromData v) (fun value =>
  if isKind Value.FilteredDirectoryContents value || isKind Value.DirectoryContents value then Value.getDirectoryContents value
  else if isKind Value.MissingInput value || isKind Value.SkippedCommand value then Ok []
  else Crash (AssertFailed "value.isFilteredDirectoryContents() || value.isDirectoryContents()")).

Lemma provideTree_contents path filters v names : tree_children filters v = Ok names ->
  provideTree 0 v (mkTree path filters [] [])
  = Ok (requestChildren path 0 names, mkTree path filters v (map (fun f => mkSubpath f [] None) names)).
Proof.
  unfold tree_children, provideTree, treeContents. cbn [Z.eqb]. destruct (Value.fromData v) as [value|]; [|done].
  cbn [obind treeFilters treePath childResults app].
  destruct (filtersEmpty filters), (isKind Value.DirectoryContents value), (isKind Value.FilteredDirectoryContents value);
    cbn; intros E; try (injection E as <-; done); by rewrite E.
Qed.

Lemma provideTreeStructure_contents path filters v names : structure_children v = Ok names ->
  provideTreeStructure 0 v (mkTree path filters [] [])
  = Ok (requestChildren path 0 names, mkTree path filters v (map (fun f => mkSubpath f [] None) names)).
Proof.
  unfold structure_children, provideTreeStructure, treeContents. cbn [Z.eqb]. destruct (Value.fromData v) as [value|]; [|done].
  cbn [obind treeFilters treePath childResults app]. unfold isKind.
  destruct (Value.kind value); eval_kinds; cbn; intros E; try done; try (injection E as <-; done); by rewrite E.
Qed.

Section Signature.
Context (H : TreeHashes) (sys : Sys) (node : nat -> BuildNode) (val : Key.Key -> list Z) (path : chars) (filters : StringList).

Abbreviation dir := (child_is_directory val path).
Abbreviation sigKey := (childSignatureKey Key.makeDirectoryTreeSignature path filters).

(** The signature, as a function of the values of the keys. *)
Definition tree_code (k0 : Key.Key) (names : list (list Z)) : Z :=
  foldl (fun code f =>
      let code' := combine_bytes H code (val (childKey path f)) in
      if dir f then combine_bytes H code' (val (sigKey f)) else combine_number H code' NIL_NUMBER)
    (combine_bytes H (hash_path H path) (val k0)) names.

Lemma treeSignature_finished k0 names :
  treeSignature H (finished_tree Key.makeDirectoryTreeSignature val path filters (val k0) names) = tree_code k0 names.
Proof.
  unfold treeSignature, tree_code, finished_tree, tree_of. cbn [treePath treeValue childResults].
  generalize (combine_bytes H (hash_path H path) (val k0)) as code. induction names as [|f names IH]; intros code; [done|].
  cbn. rewrite <- IH. f_equal. unfold subpath. cbn. by destruct (dir f).
Qed.

(** Hash codes are 64 bits wide. *)
Definition hashes_ok : Prop :=
  (forall p, range 64 (hash_path H p)) /\ (forall c l, range 64 (combine_bytes H c l)) /\ (forall c n, range 64 (combine_number H c n)).

Lemma tree_code_range k0 names : hashes_ok -> range 64 (tree_code k0 names).
Proof.
  intros (H1 & H2 & H3). unfold tree_code. assert (Hi : range 64 (combine_bytes H (hash_path H path) (val k0))) by apply H2.
  revert Hi. generalize (combine_bytes H (hash_path H path) (val k0)). induction names as [|f names IH]; intros c Hc; [done|].
  cbn. apply IH. destruct (dir f); [apply H2|apply H3].
Qed.

(** C16: The signature of a directory tree does not depend on the order in which the engine
    delivers values.  The task first asks for the contents of the directory.  If the values
    of the keys are [val], then however the engine picks the next request to answer, each
    value is accepted without a failed assertion, there are at most [1 + 2 n] deliveries for
    [n] children, and once no request is left the task completes with one and the same
    signature, computed from the path, the contents and, in order of the children, the
    value of each child's node and, for a directory, the signature of its tree. *)
Theorem tree_signature_any_order k0 names :
  contentsKey (mkTree path filters [] []) = Ok k0 -> tree_children filters (val k0) = Ok names ->
  (forall f, f ∈ names -> is_ok (Key.makeDirectoryTreeSignature (bytes_of (childPath path f)) filters) = true) ->
  (forall f, f ∈ names -> is_ok (child_info val path f) = true) ->
  (Z.of_nat (length names) < 2 ^ 62)%Z -> hashes_ok ->
  startTree (mkTree path filters [] []) = Ok [request k0 0]
  /\ forall m w, nsteps (deliver provideTree val) m (mkTree path filters [] [], [(k0, 0%Z)]) w ->
    m <= 1 + 2 * length names
    /\ (forall before k i after, w.2 = before ++ (k, i) :: after -> is_ok (provideTree i (val k) w.1) = true)
    /\ (w.2 = [] -> exists bs, inputsAvailable H sys node (DirectoryTreeSignatureTask w.1) = Ok [completeTask bs false]
          /\ Value.fromData bs = Ok (Value.decoded (Value.DDirectoryTreeSignature (tree_code k0 names)))).
Proof.
  intros Hk0 Hc Hkeys Hvals Hsize Hh. split; [unfold startTree; by rewrite Hk0|]. intros m w Hm.
  destruct (tree_deliveries Key.makeDirectoryTreeSignature provideTree val path filters (val k0) names) with (k0 := k0) (m := m) (w := w)
    as (H1 & H2 & H3); [by apply provideTree_contents| |done|done|done|done|done|].
  { intros i v t Hi. unfold provideTree. by destruct (Z.eqb_spec i 0); [lia|]. }
  split; [done|]. split; [done|]. intros Hw. rewrite (H3 Hw). cbn [inputsAvailable]. rewrite treeSignature_finished.
  apply (completes (Value.DDirectoryTreeSignature (tree_code k0 names))). by apply tree_code_range.
Qed.
End Signature.

(** ** A concrete directory *)
Definition example_info (mode : Z) : FileInfo := mkFileInfo 1 2 mode 4 (mkTimestamp 5 0) zeroChecksum.
Definition example_bytes (o : outcome BuildValue) : list Z :=
  match obind o Value.toData with Ok bs => bs | Crash _ => [] end.
(** The directory [/d] has a file [a] and a directory [b]; every other key is a signature. *)
Definition example_val (k : Key.Key) : list Z :=
  if decide (k = Key.makeDirectoryContents (bytes_of (chars_of "/d")))
  then example_bytes (Value.makeDirectoryContents (example_info 0x4000) [bytes_of (chars_of "a"); bytes_of (chars_of "b")])
  else if decide (k = nodeKey (chars_of "/d/a")) then example_bytes (Value.makeExistingInput (example_info 0x8000))
  else if decide (k = nodeKey (chars_of "/d/b")) then example_bytes (Value.makeExistingInput (example_info 0x4000))
  else example_bytes (Ok (Value.makeDirectoryTreeSignature 17)).
Definition example_hashes : TreeHashes :=
  mkTreeHashes (fun p => Z.of_nat (length p) mod 2 ^ 64)%Z (fun c l => (31 * c + foldr Z.add 0 l) mod 2 ^ 64)%Z
    (fun c l => (31 * c + foldr Z.add 0 l) mod 2 ^ 64)%Z (fun c n => (31 * c + n) mod 2 ^ 64)%Z.
Definition example_sys : Sys := mkSys (fun _ => zeroFileInfo) (fun _ => []) (fun _ _ => false) (fun _ => None) false.

Lemma tree_signature_any_order_witness :
  let path := chars_of "/d" in
  let k0 := Key.makeDirectoryContents (bytes_of path) in
  let names := [bytes_of (chars_of "a"); bytes_of (chars_of "b")] in
  startTree (mkTree path emptyStringList [] []) = Ok [request k0 0]
  /\ forall m w, nsteps (deliver provideTree example_val) m (mkTree path emptyStringList [] [], [(k0, 0%Z)]) w ->
    m <= 1 + 2 * length names
    /\ (forall before k i after, w.2 = before ++ (k, i) :: after -> is_ok (provideTree i (example_val k) w.1) = true)
    /\ (w.2 = [] -> exists bs, inputsAvailable example_hashes example_sys (fun _ => makePlain []) (DirectoryTreeSignatureTask w.1)
            = Ok [completeTask bs false]
          /\ Value.fromData bs = Ok (Value.decoded (Value.DDirectoryTreeSignature
               (tree_code example_hashes example_val path emptyStringList k0 names)))).
Proof.
  intros path k0 names.
  apply (tree_signature_any_order example_hashes example_sys (fun _ => makePlain []) example_val path emptyStringList k0 names).
  - reflexivity.
  - vm_compute. reflexivity.
  - intros f Hf. unfold names in Hf. rewrite !elem_of_cons, elem_of_nil in Hf. destruct Hf as [->|[->|[]]]; vm_compute; reflexivity.
  - intros f Hf. unfold names in Hf. rewrite !elem_of_cons, elem_of_nil in Hf. destruct Hf as [->|[->|[]]]; vm_compute; reflexivity.
  - vm_compute. reflexivity.
  - assert (Hm : forall z, range 64 (z mod 2 ^ 64)) by (intros z; apply Z.mod_pos_bound; reflexivity).
    split; [|split]; intros; apply Hm.
Defined.

(** The structure task asserts that the directory's contents were listed unless they are
    missing or skipped; the contents of a directory whose producer failed are a failed
    input, and the filtered contents of a path that is a plain file are an existing input.
    The signature task accepts both. *)
Example structure_of_failed_directory_asserts :
  let failed := example_bytes (Ok Value.makeFailedInput) in
  let t := mkTree (chars_of "/d") emptyStringList [] [] in
  provideTreeStructure 0 failed t
    = Crash (AssertFailed "value.isFilteredDirectoryContents() || value.isDirectoryContents()")
  /\ provideTree 0 failed t = Ok ([], mkTree (chars_of "/d") emptyStringList failed [])
  /\ inputsAvailable example_hashes example_sys (fun _ => makePlain [])
       (DirectoryContentsTask (chars_of "/d") Value.makeFailedInput) = Ok [completeTask failed false].
Proof. vm_compute. repeat split; reflexivity. Qed.

(** The structure task in general: as long as the contents are accepted, its deliveries
    never fail and come to an end as well. *)
Lemma structure_deliveries val path filters k0 names m w :
  structure_children (val k0) = Ok names ->
  (forall f, f ∈ names -> is_ok (Key.makeDirectoryTreeStructureSignature (bytes_of (childPath path f)) filters) = true) ->
  (forall f, f ∈ names -> is_ok (child_info val path f) = true) -> (Z.of_nat (length names) < 2 ^ 62)%Z ->
  nsteps (deliver provideTreeStructure val) m (mkTree path filters [] [], [(k0, 0%Z)]) w ->
  m <= 1 + 2 * length names
  /\ (forall before k i after, w.2 = before ++ (k, i) :: after -> is_ok (provideTreeStructure i (val k) w.1) = true)
  /\ (w.2 = [] -> w.1 = finished_tree Key.makeDirectoryTreeStructureSignature val path filters (val k0) names).
Proof.
  intros Hc Hkeys Hvals Hsize Hm.
  apply (tree_deliveries Key.makeDirectoryTreeStructureSignature provideTreeStructure val path filters (val k0) names) with (k0 := k0);
    [by apply provideTreeStructure_contents| |done..].
  intros i v t Hi. unfold provideTreeStructure. by destruct (Z.eqb_spec i 0); [lia|].
Qed.
