(* ===== verification/BuildRules.v ===== *)
(** * The rules of the build system

    [BuildSystemEngineDelegate] of lib/BuildSystem/BuildSystem.cpp: the rule for a key, with
    the task it creates and the validity of its stored values, and the nodes that are
    created on the fly.  The closures of a [BuildSystemRule] are determined by what they
    capture, its [RuleAction].  Nodes are numbered in order of their creation, those of the
    description first. *)

From Stdlib Require Import Ascii String Lia ZArith.
From stdpp Require Import base gmap list strings numbers.
From S2P Require Import Prelude Chars NinjaPath Coding BuildValue BuildKey Process BuildNode ExternalCommand BuildTasks.

Local Open Scope nat_scope.

Inductive RuleAction :=
| MissingCommandRule
| CommandRule (c : CommandRef)
| ContentsRule (path : chars)
| FilteredContentsRule (path : chars) (patterns : list Z)
| TreeRule (path : chars) (filters : list Z)
| TreeStructureRule (path : chars) (filters : list Z)
| VirtualNodeRule (n : nat)
| DirectoryNodeRule (n : nat)
| DirectoryStructureNodeRule (n : nat)
| FileNodeRule (n : nat)
| ProducedDirectoryRule (n : nat)
| ProducedNodeRule (n : nat)
| StatRule (name : chars)
| TargetRule (target : Target).

Section Rules.
Context {C : Type} (ops : CommandOps C) (H : TreeHashes) (hashes : Hashes).

(** The build description and what the delegate creates. *)
Record Description := mkDescription {
  describedNodes : gmap chars nat;
  targets : gmap chars Target;
  createCustomCommand : Key.Key -> option C }.

Record Delegate := mkDelegate {
  nodes : list BuildNode;
  dynamicNodes : gmap chars nat;
  dynamicStatNodes : gset chars;
  commands : gmap CommandRef C;
  customTasks : nat }.

Definition node_of (d : Delegate) (n : nat) : BuildNode := default (makePlain []) (nodes d !! n).

Definition createNode (name : chars) : BuildNode :=
  if ends_with_slash name then makeDirectory name
  else if bool_decide (head name = Some "<"%char) && bool_decide (list.last name = Some ">"%char) then makeVirtual name
  else makePlain name.

Definition lookupNode (desc : Description) (name : chars) (d : Delegate) : nat * Delegate :=
  match describedNodes desc !! name with
  | Some n => (n, d)
  | None =>
      match dynamicNodes d !! name with
      | Some n => (n, d)
      | None =>
          let n := length (nodes d) in
          (n, mkDelegate (nodes d ++ [createNode name]) (<[name := n]> (dynamicNodes d)) (dynamicStatNodes d)
                (commands d) (customTasks d))
      end
  end.

Definition nodeAction (n : nat) (b : BuildNode) : RuleAction :=
  match producers b with
  | [] =>
      if isVirtual b then VirtualNodeRule n
      else if isDirectoryNode b then DirectoryNodeRule n
      else if isDirectoryStructure b then DirectoryStructureNodeRule n
      else FileNodeRule n
  | _ => if isDirectoryNode b then ProducedDirectoryRule n else ProducedNodeRule n
  end.

Definition plain (o : outcome RuleAction) (d : Delegate) : outcome (RuleAction * Z * Delegate) :=
  obind o (fun a => Ok (a, nullSignature, d)).

(** The rule's action and signature. *)
Definition lookupRule (desc : Description) (keyData : Key.Key) (d : Delegate) : outcome (RuleAction * Z * Delegate) :=
  obind (Key.fromData keyData) (fun key =>
  match Key.getKind key with
  | Key.Unknown => Crash (AssertFailed "invalid key type")
  | Key.Command =>
      obind (Key.getCommandName key) (fun name =>
      let c := inl (chars_of_bytes name) in
      match commands d !! c with
      | None => Ok (MissingCommandRule, nullSignature, d)
      | Some x => obind (signatureOf ops x) (fun sig => Ok (CommandRule c, sig, d))
      end)
  | Key.CustomTask =>
      match createCustomCommand desc key with
      | None => Ok (MissingCommandRule, nullSignature, d)
      | Some x =>
          let c := inr (customTasks d) in
          obind (signatureOf ops x) (fun sig =>
          Ok (CommandRule c, sig,
              mkDelegate (nodes d) (dynamicNodes d) (dynamicStatNodes d) (<[c := x]> (commands d)) (S (customTasks d))))
      end
  | Key.DirectoryContents => plain (obind (Key.getDirectoryPath key) (fun p => Ok (ContentsRule (chars_of_bytes p)))) d
  | Key.FilteredDirectoryContents =>
      plain (obind (Key.getFilteredDirectoryPath key) (fun p =>
             obind (Key.getContentExclusionPatterns key) (fun l => Ok (FilteredContentsRule (chars_of_bytes p) l)))) d
  | Key.DirectoryTreeSignature =>
      plain (obind (Key.getDirectoryTreeSignaturePath key) (fun p =>
             obind (Key.getContentExclusionPatterns key) (fun l => Ok (TreeRule (chars_of_bytes p) l)))) d
  | Key.DirectoryTreeStructureSignature =>
      plain (obind (Key.getFilteredDirectoryPath key) (fun p =>
             obind (Key.getContentExclusionPatterns key) (fun l => Ok (TreeStructureRule (chars_of_bytes p) l)))) d
  | Key.Node =>
      obind (Key.getNodeName key) (fun name =>
      let '(n, d') := lookupNode desc (chars_of_bytes name) d in
      Ok (nodeAction n (node_of d' n), nodeSignature hashes (node_of d' n), d'))
  | Key.Stat =>
      obind (Key.getStatName key) (fun name =>
      let name := chars_of_bytes name in
      Ok (StatRule name, nullSignature,
          mkDelegate (nodes d) (dynamicNodes d) ({[name]} ∪ dynamicStatNodes d) (commands d) (customTasks d)))
  | Key.Target =>
      obind (Key.getTargetName key) (fun name =>
      match targets desc !! chars_of_bytes name with
      | None => Crash (AssertFailed "FIXME: invalid target")
      | Some t => Ok (TargetRule t, nullSignature, d)
      end)
  end).

(** [StringList(decoder)] over the bytes kept in the key. *)
Definition decodeFilters (bytes : list Z) : outcome StringList :=
  obind (readStringList (mkDecoder bytes 0)) (fun p => Ok p.1).

(** The constructors of the tasks of nodes that are files assert that the node is not virtual. *)
Definition fileTask (b : BuildNode) (t : Task) : outcome Task :=
  if isVirtual b then Crash (AssertFailed "!node.isVirtual()") else Ok t.

Definition createTask (d : Delegate) (a : RuleAction) : outcome Task :=
  match a with
  | MissingCommandRule => Ok MissingCommandTask
  | CommandRule c => Ok (CommandTask c)
  | ContentsRule path => Ok (DirectoryContentsTask path Value.makeInvalid)
  | FilteredContentsRule path patterns =>
      obind (decodeFilters patterns) (fun l => Ok (FilteredDirectoryContentsTask path l Value.makeInvalid))
  | TreeRule path filters => obind (decodeFilters filters) (fun l => Ok (DirectoryTreeSignatureTask (mkTree path l [] [])))
  | TreeStructureRule path filters =>
      obind (decodeFilters filters) (fun l => Ok (DirectoryTreeStructureSignatureTask (mkTree path l [] [])))
  | VirtualNodeRule n => Ok VirtualInputNodeTask
  | DirectoryNodeRule n => fileTask (node_of d n) (DirectoryInputNodeTask n [] 0 0)
  | DirectoryStructureNodeRule n => fileTask (node_of d n) (DirectoryStructureInputNodeTask n [])
  | FileNodeRule n => fileTask (node_of d n) (FileInputNodeTask n)
  | ProducedDirectoryRule n => Ok (ProducedDirectoryNodeTask n Value.makeInvalid [] None false false)
  | ProducedNodeRule n => Ok (ProducedNodeTask n Value.makeInvalid None false)
  | StatRule name => Ok (StatTask name)
  | TargetRule t => Ok (TargetTask t [])
  end.

Definition isResultValid (sys : Sys) (d : Delegate) (a : RuleAction) (v : list Z) : outcome bool :=
  match a with
  | MissingCommandRule => Ok false
  | CommandRule c =>
      obind (Value.fromData v) (fun value =>
      obind (command_at (commands d) c) (fun x => isCommandResultValid ops (getFileInfo sys) value x))
  | ContentsRule path => obind (Value.fromData v) (fun value => contentsValid sys path value)
  | FilteredContentsRule _ _ | TreeRule _ _ | TreeStructureRule _ _ | DirectoryNodeRule _ | DirectoryStructureNodeRule _ => Ok true
  | VirtualNodeRule _ => obind (Value.fromData v) (fun value => Ok (virtualInputValid value))
  | FileNodeRule n => obind (Value.fromData v) (fun value => fileInputValid sys (node_of d) n value)
  | ProducedDirectoryRule _ | ProducedNodeRule _ => obind (Value.fromData v) (fun value => Ok (producedNodeValid value))
  | StatRule _ | TargetRule _ => obind (Value.fromData v) (fun _ => Ok false)
  end.
End Rules.
