(* ===== verification/BuildRulesProps.v ===== *)
(** * Properties of the build system's rules

    Every well-formed key has a rule whose task is made for that key, and looking up rules
    creates each node once. *)

From Stdlib Require Import Ascii String Lia ZArith.
From stdpp Require Import base gmap list strings numbers.
From S2P Require Import Prelude Chars NinjaPath Coding BuildValue BuildKey Process BuildNode ExternalCommand BuildTasks BuildTasksProps BuildRules.

Local Open Scope nat_scope.

(** ** The accessors of a described key *)
Definition filtered_parts (key : Key.Key) (path : outcome (list Z)) (p : list Z) (filters : list (list Z)) : Prop :=
  path = Ok p /\ exists bs l, Key.getContentExclusionPatterns key = Ok bs /\ decodeFilters bs = Ok l /\ getValues l = Ok filters.

Definition described (key : Key.Key) (d : Key.Desc) : Prop :=
  match d with
  | Key.KCommand n => Key.getKind key = Key.Command /\ Key.getCommandName key = Ok n
  | Key.KCustomTask _ _ => Key.getKind key = Key.CustomTask
  | Key.KDirectoryContents p => Key.getKind key = Key.DirectoryContents /\ Key.getDirectoryPath key = Ok p
  | Key.KFilteredDirectoryContents p fs =>
      Key.getKind key = Key.FilteredDirectoryContents /\ filtered_parts key (Key.getFilteredDirectoryPath key) p fs
  | Key.KDirectoryTreeSignature p fs =>
      Key.getKind key = Key.DirectoryTreeSignature /\ filtered_parts key (Key.getDirectoryTreeSignaturePath key) p fs
  | Key.KDirectoryTreeStructureSignature p fs =>
      Key.getKind key = Key.DirectoryTreeStructureSignature /\ filtered_parts key (Key.getFilteredDirectoryPath key) p fs
  | Key.KNode p => Key.getKind key = Key.Node /\ Key.getNodeName key = Ok p
  | Key.KStat p => Key.getKind key = Key.Stat /\ Key.getStatName key = Ok p
  | Key.KTarget n => Key.getKind key = Key.Target /\ Key.getTargetName key = Ok n
  end.

Lemma filtered_inv key path (mk : list Z -> list (list Z) -> Key.Desc) d :
  obind path (fun p => obind (Key.getContentExclusionPatternsAsStringList key) (fun l => obind (getValues l) (fun v => Ok (mk p v)))) = Ok d ->
  exists p fs, d = mk p fs /\ filtered_parts key path p fs.
Proof.
  unfold Key.getContentExclusionPatternsAsStringList, filtered_parts. destruct path as [p|]; [|done]. cbn [obind].
  destruct (Key.getContentExclusionPatterns key) as [bs|] eqn:Eb; [|done]. cbn [obind].
  destruct (readStringList _) as [[l r]|] eqn:El; [|done]. cbn [obind fst].
  destruct (getValues l) as [fs|] eqn:Ev; [|done]. intros [= <-]. exists p, fs. split; [done|]. split; [done|].
  exists bs, l. unfold decodeFilters. by rewrite El.
Qed.

Lemma describe_described key d : Key.describe key = Ok d -> described key d.
Proof.
  unfold Key.describe. destruct (Key.getKind key) eqn:Ek; intros E; try done;
    try (apply filtered_inv in E as (p & fs & -> & Hp); by split);
    match type of E with obind ?o _ = _ => destruct o as [n|] eqn:En; [|done] end; cbn [obind] in E;
    try (injection E as <-; by split).
  destruct (Key.getCustomTaskData key); [|done]. injection E as <-. done.
Qed.

(** ** The invariant of the delegate *)
Section Rules.
Context {C : Type} (ops : CommandOps C) (hashes : Hashes) (desc : Description (C := C)).

Record delegate_ok (d : Delegate (C := C)) : Prop := {
  ok_described : forall name n, describedNodes desc !! name = Some n -> exists b, nodes d !! n = Some b /\ nodeName b = name;
  ok_dynamic : forall name n, dynamicNodes d !! name = Some n -> exists b, nodes d !! n = Some b /\ nodeName b = name;
  ok_targets : forall name t, targets desc !! name = Some t -> targetName t = name;
  ok_signatures : forall c x, commands d !! c = Some x -> exists sig, signatureOf ops x = Ok sig;
  ok_customTasks : forall i x, commands d !! (inr i : CommandRef) = Some x -> i < customTasks d;
  ok_custom : forall key x, createCustomCommand desc key = Some x -> exists sig, signatureOf ops x = Ok sig }.

Lemma createNode_name name : nodeName (createNode name) = name.
Proof. unfold createNode. destruct (ends_with_slash name); [done|]. by destruct (_ && _). Qed.

Lemma lookupNode_ok name d n d' : delegate_ok d -> lookupNode desc name d = (n, d') ->
  delegate_ok d' /\ (exists b, nodes d' !! n = Some b /\ nodeName b = name) /\ nodes d `prefix_of` nodes d'
  /\ lookupNode desc name d' = (n, d') /\ commands d' = commands d /\ dynamicStatNodes d' = dynamicStatNodes d.
Proof.
  intros [H1 H2 H3 H4 H5 H6] E. unfold lookupNode in *. destruct (describedNodes desc !! name) as [m|] eqn:Ed.
  { injection E as <- <-. split; [done|]. split; [by apply H1|]. done. }
  destruct (dynamicNodes d !! name) as [m|] eqn:Ey; injection E as <- <-.
  { rewrite Ey. split; [done|]. split; [by apply H2|]. done. }
  cbn. rewrite lookup_insert_eq. split; [|split; [|split; [by apply prefix_app_r|done]]].
  - split; cbn; [|intros name' n'|done..].
    + intros name' n' Hn. destruct (H1 _ _ Hn) as (b & Hb & En). exists b. split; [|done]. by apply lookup_app_l_Some.
    + destruct (decide (name' = name)) as [->|Hne].
      * rewrite lookup_insert_eq. intros [= <-]. exists (createNode name). by rewrite list_lookup_middle, createNode_name.
      * rewrite lookup_insert_ne by done. intros Hn. destruct (H2 _ _ Hn) as (b & Hb & En). exists b.
        split; [|done]. by apply lookup_app_l_Some.
  - exists (createNode name). by rewrite list_lookup_middle, createNode_name.
Qed.

(** ** The key a task is made for *)
Definition task_desc (d : Delegate (C := C)) (t : Task) : option Key.Desc :=
  let node n := Some (Key.KNode (bytes_of (nodeName (node_of d n)))) in
  let filtered mk p l := match getValues l with Ok fs => Some (mk (bytes_of p) fs) | Crash _ => None end in
  match t with
  | TargetTask target _ => Some (Key.KTarget (bytes_of (targetName target)))
  | FileInputNodeTask n | DirectoryInputNodeTask n _ _ _ | DirectoryStructureInputNodeTask n _
  | ProducedNodeTask n _ _ _ | ProducedDirectoryNodeTask n _ _ _ _ _ => node n
  | StatTask name => Some (Key.KStat (bytes_of name))
  | DirectoryContentsTask path _ => Some (Key.KDirectoryContents (bytes_of path))
  | FilteredDirectoryContentsTask path l _ => filtered Key.KFilteredDirectoryContents path l
  | DirectoryTreeSignatureTask t => filtered Key.KDirectoryTreeSignature (treePath t) (treeFilters t)
  | DirectoryTreeStructureSignatureTask t => filtered Key.KDirectoryTreeStructureSignature (treePath t) (treeFilters t)
  | CommandTask (inl c) => Some (Key.KCommand (bytes_of c))
  | CommandTask (inr _) | VirtualInputNodeTask | MissingCommandTask => None
  end.

Definition is_byte (z : Z) : Prop := (0 <= z < 256)%Z.
Definition desc_name (d : Key.Desc) : list Z :=
  match d with
  | Key.KCommand n | Key.KCustomTask n _ | Key.KDirectoryContents n | Key.KFilteredDirectoryContents n _
  | Key.KDirectoryTreeSignature n _ | Key.KDirectoryTreeStructureSignature n _ | Key.KNode n | Key.KStat n | Key.KTarget n => n
  end.

Lemma bytes_of_chars l : Forall is_byte l -> bytes_of (chars_of_bytes l) = l.
Proof.
  induction 1 as [|z l [H1 H2] _ IH]; [done|]. cbn. f_equal; [|exact IH]. unfold byte_of, char_of.
  rewrite N_ascii_embedding by lia. lia.
Qed.

(** The task of a node's rule: its own assertions hold, and it is made for the node. *)
Lemma node_task d n b : nodes d !! n = Some b ->
  exists t, createTask d (nodeAction n (node_of d n)) = Ok t
    /\ (forall sys st m, t = FileInputNodeTask m -> start ops sys (node_of d) t st = Ok ([], t, st))
    /\ forall kd, task_desc d t = Some kd -> kd = Key.KNode (bytes_of (nodeName b)).
Proof.
  intros Hn. assert (Eb : node_of d n = b) by (unfold node_of; by rewrite Hn). rewrite Eb. unfold nodeAction.
  assert (Hd : forall kd, Some (Key.KNode (bytes_of (nodeName (node_of d n)))) = Some kd -> kd = Key.KNode (bytes_of (nodeName b)))
    by (rewrite Eb; by intros kd [= <-]).
  destruct (producers b) as [|p ps] eqn:Ep.
  - destruct (isVirtual b) eqn:Ev; [eexists; split; [done|]; by split|].
    destruct (isDirectoryNode b); [|destruct (isDirectoryStructure b)]; cbn [createTask]; unfold fileTask; rewrite Eb, Ev;
      eexists; (split; [done|]); (split; [|exact Hd]); intros sys st m Em; try done.
    injection Em as <-. cbn [start]. unfold FileInputNodeTask_start. by rewrite Eb, decide_True.
  - destruct (isDirectoryNode b); eexists; (split; [done|]); (split; [by intros|exact Hd]).
Qed.

(** The rule a key has, in terms of what the key describes: the action, the signature, and
    the nodes and commands that are there afterwards. *)
Definition filtersOf (bs : list Z) (fs : list (list Z)) : Prop := exists l, decodeFilters bs = Ok l /\ getValues l = Ok fs.
Definition rule_spec (kd : Key.Desc) (key : Key.Key) (d : Delegate (C := C)) (a : RuleAction) (sig : Z) (d' : Delegate (C := C)) : Prop :=
  match kd with
  | Key.KCommand n => d' = d /\
      match commands d !! inl (chars_of_bytes n) with
      | Some x => a = CommandRule (inl (chars_of_bytes n)) /\ signatureOf ops x = Ok sig
      | None => a = MissingCommandRule /\ sig = nullSignature
      end
  | Key.KCustomTask _ _ =>
      match createCustomCommand desc key with
      | Some x => a = CommandRule (inr (customTasks d)) /\ signatureOf ops x = Ok sig
          /\ commands d' = <[inr (customTasks d) := x]> (commands d) /\ customTasks d' = S (customTasks d) /\ nodes d' = nodes d
      | None => a = MissingCommandRule /\ sig = nullSignature /\ d' = d
      end
  | Key.KDirectoryContents p => a = ContentsRule (chars_of_bytes p) /\ sig = nullSignature /\ d' = d
  | Key.KFilteredDirectoryContents p fs => (exists bs, a = FilteredContentsRule (chars_of_bytes p) bs /\ filtersOf bs fs) /\ sig = nullSignature /\ d' = d
  | Key.KDirectoryTreeSignature p fs => (exists bs, a = TreeRule (chars_of_bytes p) bs /\ filtersOf bs fs) /\ sig = nullSignature /\ d' = d
  | Key.KDirectoryTreeStructureSignature p fs => (exists bs, a = TreeStructureRule (chars_of_bytes p) bs /\ filtersOf bs fs) /\ sig = nullSignature /\ d' = d
  | Key.KNode p => exists n b, nodes d' !! n = Some b /\ nodeName b = chars_of_bytes p /\ a = nodeAction n b /\ sig = nodeSignature hashes b
      /\ (d' = d \/ n = length (nodes d) /\ nodes d' = nodes d ++ [createNode (chars_of_bytes p)]
                    /\ describedNodes desc !! chars_of_bytes p = None /\ dynamicNodes d !! chars_of_bytes p = None)
  | Key.KStat p => a = StatRule (chars_of_bytes p) /\ sig = nullSignature /\ nodes d' = nodes d
  | Key.KTarget n => (exists t, targets desc !! chars_of_bytes n = Some t /\ a = TargetRule t) /\ sig = nullSignature /\ d' = d
  end.

(** Looking the key up again: the same rule and nothing new; but a tool that makes custom
    commands makes a second one, equal to the first. *)
Definition again (kd : Key.Desc) (key : Key.Key) (a : RuleAction) (sig : Z) (d' : Delegate (C := C)) : Prop :=
  match kd, createCustomCommand desc key with
  | Key.KCustomTask _ _, Some x => exists d'', lookupRule ops hashes desc key d' = Ok (CommandRule (inr (customTasks d')), sig, d'')
      /\ commands d'' !! (inr (customTasks d') : CommandRef) = Some x /\ a <> CommandRule (inr (customTasks d'))
  | _, _ => lookupRule ops hashes desc key d' = Ok (a, sig, d')
  end.

(** What is promised of the rule found for a key. *)
Definition rule_ok (kd : Key.Desc) (key : Key.Key) (d : Delegate (C := C)) (r : RuleAction * Z * Delegate (C := C)) : Prop :=
  let '(a, sig, d') := r in
  delegate_ok d' /\ nodes d `prefix_of` nodes d' /\ commands d ⊆ commands d' /\ rule_spec kd key d a sig d' /\ again kd key a sig d'
  /\ exists t, createTask d' a = Ok t
    /\ (forall sys st n, t = FileInputNodeTask n -> start ops sys (node_of d') t st = Ok ([], t, st))
    /\ (forall kd', task_desc d' t = Some kd' -> kd' = kd).

(** A rule that needs no node. *)
Lemma simple_rule kd key d a sig t : delegate_ok d ->
  rule_spec kd key d a sig d ->
  lookupRule ops hashes desc key d = Ok (a, sig, d) -> createTask d a = Ok t -> (forall n, t <> FileInputNodeTask n) ->
  (forall kd', task_desc d t = Some kd' -> kd' = kd) -> rule_ok kd key d (a, sig, d).
Proof.
  intros Hd Hsp Hl Ht Hn Hk. split; [done|]. split; [done|]. split; [done|]. split; [done|]. split; [|exists t; split; [done|]].
  - unfold again. destruct kd; try done. unfold rule_spec in Hsp. destruct (createCustomCommand desc key); [|done].
    destruct Hsp as (_ & _ & _ & Hs & _). lia.
  - split; [|done]. intros sys st n E. by destruct (Hn n).
Qed.

Lemma fromData_kind key : Key.getKind key <> Key.Unknown -> Key.fromData key = Ok key.
Proof. intros H. unfold Key.fromData. by rewrite bool_decide_eq_false_2. Qed.

Lemma node_rule key d p : delegate_ok d -> Forall is_byte p -> described key (Key.KNode p) ->
  exists r, lookupRule ops hashes desc key d = Ok r /\ rule_ok (Key.KNode p) key d r.
Proof.
  intros Hd Hb [Ek En]. unfold lookupRule. rewrite fromData_kind by (by rewrite Ek). cbn [obind]. rewrite Ek, En. cbn [obind].
  destruct (lookupNode desc (chars_of_bytes p) d) as [n d'] eqn:El.
  destruct (lookupNode_ok _ _ _ _ Hd El) as (Hd' & (b & Hn & Hname) & Hpre & Hagain & Hcm & _).
  destruct (node_task d' n b Hn) as (t & Ht & Hs & Hk).
  eexists. split; [done|]. split; [done|]. split; [done|]. split; [by rewrite Hcm|]. split; [|split].
  - exists n, b. split; [done|]. split; [done|]. unfold node_of. rewrite Hn. split; [done|]. split; [done|]. unfold lookupNode in El.
    destruct (describedNodes desc !! _) eqn:E1; [left; by injection El as _ <-|]. destruct (dynamicNodes d !! _) eqn:E2; [left; by injection El as _ <-|].
    right. injection El as <- <-. done.
  - unfold again. unfold lookupRule. rewrite fromData_kind by (by rewrite Ek). cbn [obind]. rewrite Ek, En. cbn [obind]. by rewrite Hagain.
  - exists t. split; [done|]. split; [done|]. intros kd' E. rewrite (Hk kd' E), Hname. by rewrite bytes_of_chars.
Qed.

Lemma stat_rule key d p : delegate_ok d -> Forall is_byte p -> described key (Key.KStat p) ->
  exists r, lookupRule ops hashes desc key d = Ok r /\ rule_ok (Key.KStat p) key d r.
Proof.
  intros Hd Hb [Ek En].
  assert (El : forall d, lookupRule ops hashes desc key d = Ok (StatRule (chars_of_bytes p), nullSignature,
    mkDelegate (nodes d) (dynamicNodes d) ({[chars_of_bytes p]} ∪ dynamicStatNodes d) (commands d) (customTasks d))).
  { intros d0. unfold lookupRule. rewrite fromData_kind by (by rewrite Ek). cbn [obind]. by rewrite Ek, En. }
  eexists. split; [apply El|]. destruct Hd. split; [by split|]. split; [done|]. split; [done|]. split; [done|]. split.
  - unfold again. rewrite El. cbn. do 3 f_equal. set_solver.
  - eexists. split; [done|]. split; [done|]. cbn. intros kd' [= <-]. by rewrite bytes_of_chars.
Qed.

Lemma filtered_rule key d p fs path (mk : list Z -> list (list Z) -> Key.Desc) (rule : chars -> list Z -> RuleAction) (task : chars -> StringList -> Task) :
  delegate_ok d -> Forall is_byte p -> filtered_parts key path p fs ->
  lookupRule ops hashes desc key d
    = plain (obind path (fun p => obind (Key.getContentExclusionPatterns key) (fun l => Ok (rule (chars_of_bytes p) l)))) d ->
  (forall q bs, createTask d (rule q bs) = obind (decodeFilters bs) (fun l => Ok (task q l))) ->
  (forall q l n, task q l <> FileInputNodeTask n) -> (forall bs, filtersOf bs fs -> rule_spec (mk p fs) key d (rule (chars_of_bytes p) bs) nullSignature d) ->
  (forall q l, task_desc d (task q l) = match getValues l with Ok f => Some (mk (bytes_of q) f) | Crash _ => None end) ->
  exists r, lookupRule ops hashes desc key d = Ok r /\ rule_ok (mk p fs) key d r.
Proof.
  intros Hd Hb (Ep & bs & l & Eb & El & Ev) Hl Hc Hn Hsp Ht. rewrite Ep, Eb in Hl. cbn in Hl.
  eexists. split; [exact Hl|]. eapply simple_rule; [done|apply Hsp; by exists l|done|by rewrite Hc, El|apply Hn|].
  intros kd' E. rewrite Ht, Ev in E. injection E as <-. by rewrite bytes_of_chars.
Qed.

(** A custom task gets a command of its own. *)
Lemma custom_delegate_ok d x sig : delegate_ok d -> signatureOf ops x = Ok sig ->
  delegate_ok (mkDelegate (nodes d) (dynamicNodes d) (dynamicStatNodes d) (<[inr (customTasks d) := x]> (commands d)) (S (customTasks d))).
Proof.
  intros [H1 H2 H3 H4 H5 H6] Es. split; cbn; try done.
  - intros c y [[<- <-]|[_ Hc]]%lookup_insert_Some; [by exists sig|by apply (H4 c)].
  - intros i y [[[= <-] _]|[_ Hc]]%lookup_insert_Some; [lia|]. specialize (H5 i y Hc). lia.
Qed.
Lemma custom_rule key d name data : delegate_ok d -> described key (Key.KCustomTask name data) -> Key.fromData key = Ok key ->
  exists r, lookupRule ops hashes desc key d = Ok r /\ rule_ok (Key.KCustomTask name data) key d r.
Proof.
  intros Hd Ek Ef. cbn in Ek. destruct (createCustomCommand desc key) as [x|] eqn:Ec.
  - destruct (ok_custom _ Hd _ _ Ec) as [sig Es].
    assert (El : forall d, lookupRule ops hashes desc key d = Ok (CommandRule (inr (customTasks d)), sig,
              mkDelegate (nodes d) (dynamicNodes d) (dynamicStatNodes d) (<[inr (customTasks d) := x]> (commands d)) (S (customTasks d)))).
    { intros d0. unfold lookupRule. rewrite Ef. cbn [obind]. by rewrite Ek, Ec, Es. }
    eexists. split; [apply El|]. split; [by apply (custom_delegate_ok d x sig)|]. split; [done|]. split; [|split; [|split]].
    + apply insert_subseteq. destruct (commands d !! _) eqn:E; [|done]. pose proof (ok_customTasks _ Hd _ _ E). lia.
    + cbn. by rewrite Ec.
    + unfold again. rewrite Ec. eexists. split; [apply El|]. cbn. split; [apply lookup_insert_eq|]. intros [= E]. lia.
    + eexists. by split.
  - assert (El : lookupRule ops hashes desc key d = Ok (MissingCommandRule, nullSignature, d)).
    { unfold lookupRule. rewrite Ef. cbn [obind]. by rewrite Ek, Ec. }
    eexists. split; [exact El|]. eapply simple_rule; [done|cbn; by rewrite Ec|done|done|done|done].
Qed.

(** C27: The rule every key has.  Let the nodes and commands of the delegate be consistent, as
    loading a description makes them, with commands whose signatures can be computed.  For
    each well-formed key, a target's name being known, the lookup fails no assertion and gives
    the rule that [rule_spec] says: the command of this name, or an error task if there is
    none; a new command of the tool that makes it, for a custom task; the contents, tree or
    file information of the path with the filters of the key; the node of this name, made if
    there was none, with the rule for its type and producers; the target.  The nodes and
    commands that were there keep their identity.  Looking the key up again gives the same
    rule and makes nothing, except that for a custom task another equal command is made.
    Creating the task of the rule fails no assertion of its constructor, in particular only
    file nodes without producers get a file input task. *)
Theorem rules_total kd d : delegate_ok d -> Key.valid_desc kd -> Forall is_byte (desc_name kd) ->
  (match kd with Key.KTarget n => is_Some (targets desc !! chars_of_bytes n) | _ => True end) ->
  exists key r, Key.make kd = Ok key /\ lookupRule ops hashes desc key d = Ok r /\ rule_ok kd key d r.
Proof.
  intros Hd Hv Hb Ht. destruct (Key.make_describe kd Hv) as (key & Em & Ef & Ed). exists key.
  enough (exists r, lookupRule ops hashes desc key d = Ok r /\ rule_ok kd key d r) as (r & ? & ?) by eauto.
  apply describe_described in Ed. destruct kd; cbn [desc_name] in Hb; [| | | | | |by apply node_rule|by apply stat_rule|].
  - destruct Ed as [Ek En]. destruct (commands d !! inl (chars_of_bytes name)) as [x|] eqn:Ex.
    + destruct (ok_signatures _ Hd _ _ Ex) as [sig Es].
      assert (El : lookupRule ops hashes desc key d = Ok (CommandRule (inl (chars_of_bytes name)), sig, d)).
      { unfold lookupRule. rewrite Ef. cbn [obind]. rewrite Ek, En. cbn [obind]. rewrite Ex. by rewrite Es. }
      eexists. split; [exact El|]. eapply simple_rule; [done|cbn; by rewrite Ex|done|done|done|]. cbn. intros kd' [= <-]. by rewrite bytes_of_chars.
    + assert (El : lookupRule ops hashes desc key d = Ok (MissingCommandRule, nullSignature, d)).
      { unfold lookupRule. rewrite Ef. cbn [obind]. rewrite Ek, En. cbn [obind]. by rewrite Ex. }
      eexists. split; [exact El|]. eapply simple_rule; [done|cbn; by rewrite Ex|done|done|done|done].
  - by apply custom_rule.
  - destruct Ed as [Ek En]. eexists. assert (El : lookupRule ops hashes desc key d = Ok (ContentsRule (chars_of_bytes path), nullSignature, d)).
    { unfold lookupRule. rewrite Ef. cbn [obind]. by rewrite Ek, En. }
    split; [exact El|]. eapply simple_rule; [done|done|done|done|done|]. cbn. intros kd' [= <-]. by rewrite bytes_of_chars.
  - destruct Ed as [Ek Hp]. eapply (filtered_rule key d path filters _ _ FilteredContentsRule
      (fun q l => FilteredDirectoryContentsTask q l Value.makeInvalid)); [done|done|exact Hp| |done|done|intros bs Hbs; cbn; eauto|done].
    unfold lookupRule. rewrite Ef. cbn [obind]. by rewrite Ek.
  - destruct Ed as [Ek Hp]. eapply (filtered_rule key d path filters _ _ TreeRule
      (fun q l => DirectoryTreeSignatureTask (mkTree q l [] []))); [done|done|exact Hp| |done|done|intros bs Hbs; cbn; eauto|done].
    unfold lookupRule. rewrite Ef. cbn [obind]. by rewrite Ek.
  - destruct Ed as [Ek Hp]. eapply (filtered_rule key d path filters _ _ TreeStructureRule
      (fun q l => DirectoryTreeStructureSignatureTask (mkTree q l [] []))); [done|done|exact Hp| |done|done|intros bs Hbs; cbn; eauto|done].
    unfold lookupRule. rewrite Ef. cbn [obind]. by rewrite Ek.
  - destruct Ed as [Ek En]. destruct Ht as [t Ht]. eexists.
    assert (El : lookupRule ops hashes desc key d = Ok (TargetRule t, nullSignature, d)).
    { unfold lookupRule. rewrite Ef. cbn [obind]. rewrite Ek, En. cbn [obind]. by rewrite Ht. }
    split; [exact El|]. eapply simple_rule; [done|cbn; eauto|done|done|done|]. cbn. intros kd' [= <-].
    by rewrite (ok_targets _ Hd _ _ Ht), bytes_of_chars.
Qed.
End Rules.

(** ** A concrete lookup: an unknown path gets a node when it is first asked for *)
Definition no_commands : CommandOps unit :=
  mkCommandOps unit (fun _ => Ok 0%Z) (fun x => Ok ([], x)) (fun _ x => Ok x) (fun _ _ _ x => Ok ([], x))
    (fun _ _ v => Ok v) (fun _ _ _ => Ok true) (fun _ => false) (fun _ _ => false).
Definition zero_hashes : Hashes := mkHashes (fun _ => 0%Z) (fun _ _ => 0%Z) (fun _ _ => 0%Z).
Definition empty_description : Description (C := unit) := mkDescription ∅ ∅ (fun _ => None).
Definition empty_delegate : Delegate (C := unit) := mkDelegate [] ∅ ∅ ∅ 0.

Lemma empty_delegate_ok : delegate_ok no_commands empty_description empty_delegate.
Proof. split; intros ? ? H; discriminate. Qed.

Lemma rules_total_witness :
  let kd := Key.KNode (bytes_of (chars_of "dir/")) in
  exists key r, Key.make kd = Ok key /\ lookupRule no_commands zero_hashes empty_description key empty_delegate = Ok r
    /\ rule_ok no_commands zero_hashes empty_description kd key empty_delegate r.
Proof.
  intros kd. apply (rules_total no_commands zero_hashes empty_description kd empty_delegate empty_delegate_ok).
  - exact I.
  - repeat constructor; vm_compute; congruence.
  - exact I.
Defined.
