(* ===== verification/BuildTools.v ===== *)
(** * The built-in tools of the build system

    The commands of lib/BuildSystem/BuildSystem.cpp other than the shell command and the
    Swift compiler: one Module per class.  [ExternalCommand]'s subclasses keep the base class
    subobject in [external].  The file system is the interface [FileSystem] over a state
    [W]; calls on the build system's delegate and on the task are logged as [Effect]s, in
    order.  A command that runs a process ends its first part with [Spawn]; its completion
    function is the second part. *)

From Stdlib Require Import Ascii String Lia ZArith.
From stdpp Require Import base gmap list sorting strings numbers pretty.
From S2P Require Import Prelude Chars ShellUtility MakefileDeps NinjaPath Coding BuildValue BuildKey Process BuildNode ExternalCommand ShellCommand BuildTasks.

Local Open Scope nat_scope.

(** ** Configuration *)

(** The errors reported, the value returned, the new state. *)
Definition Configured (C : Type) : Type := list chars * bool * C.
Definition accepted {C} (c : C) : Configured C := ([], true, c).
Definition rejected {C} (e : chars) (c : C) : Configured C := ([e], false, c).
Definition unexpected {C} (name : chars) (c : C) : Configured C := rejected (unexpectedAttribute name) c.

(** The attributes of the base class. *)
Definition baseAttribute {C} (name value : chars) (x : ExternalCommand) (set : ExternalCommand -> C) (c : C) : Configured C :=
  match ExternalCommand.configureAttribute name value x with inl e => rejected e c | inr x' => accepted (set x') end.

(** [StringRef::split] at blanks, empty pieces dropped. *)
Fixpoint split_pieces (cur l : chars) : list chars :=
  match l with
  | [] => [cur]
  | c :: l' => if (c =? " ")%char then cur :: split_pieces [] l' else split_pieces (cur ++ [c]) l'
  end.
Definition splitWords (l : chars) : list chars := filter (fun w => w <> []) (split_pieces [] l).

(** ** The file system *)
Record FileSystem (W : Type) := mkFileSystem {
  fileInfoOf : W -> chars -> FileInfo;
  linkInfoOf : W -> chars -> FileInfo;
  fileContents : W -> chars -> option chars;
  createDirectories : chars -> W -> bool * W;
  createSymlink : chars -> chars -> W -> bool * W;
  removePath : chars -> W -> (bool * Z) * W;
  unlinkPath : chars -> W -> bool * W;
  writeFile : chars -> chars -> W -> bool * W }.
Arguments mkFileSystem {W}.
Arguments fileInfoOf {W}.
Arguments linkInfoOf {W}.
Arguments fileContents {W}.
Arguments createDirectories {W}.
Arguments createSymlink {W}.
Arguments removePath {W}.
Arguments unlinkPath {W}.
Arguments writeFile {W}.

(** ** Effects *)
Inductive Effect :=
| delegateCall (c : DelegateCall)
| hadError (message : chars)
| hadWarning (message : chars)
| hadNote (message : chars)
| systemError (message : chars)
| discovered (key : Key.Key)
| foundDiscovered (path : chars) (kind : Shell.DiscoveredKind).

(** The first part of a command's execution. *)
Inductive Started :=
| Finished (st : ProcessResult)
| Spawn (argv : list chars) (env : list (chars * chars)) (attr : ProcessAttributes).

(** [{true}], the attributes of a process that can be interrupted. *)
Definition interruptible : ProcessAttributes := mkAttributes true false [] true true.

(** The words with blanks between them. *)
Definition describe (args : list chars) : chars :=
  concat (imap (fun i a => (if i =? 0 then [] else chars_of " ") ++ a) args).

Definition DQUOTE : ascii := "034"%char.
(** A word in double quotes if it contains a blank. *)
Definition quoteBlank (w : chars) : chars :=
  if decide (" "%char ∈ w) then DQUOTE :: w ++ [DQUOTE] else w.

(** ** Phony commands *)
Module Phony.
Section Phony.
Context (node : nat -> BuildNode).
Definition shouldShowStatus (x : ExternalCommand) : bool := false.
Definition getShortDescription (x : ExternalCommand) : chars := cmdName x.
Definition getVerboseDescription (x : ExternalCommand) : chars := cmdName x.
Definition executeExternalCommand (x : ExternalCommand) : Started := Finished (newProcessResult Succeeded).
Definition getResultForOutput (n : nat) (v : BuildValue) (x : ExternalCommand) : outcome BuildValue :=
  if isVirtual (node n) && negb (isCommandTimestamp (node n)) then Ok Value.makeVirtualInput
  else ExternalCommand.getResultForOutput node n v x.
End Phony.
End Phony.

(** ** The clang compiler *)
Module Clang.
Record Clang := mkClang { external : ExternalCommand; args : list chars; depsPath : chars }.
Definition new (name : chars) : Clang := mkClang (newExternalCommand name) [] [].
Definition set_external (x : ExternalCommand) (c : Clang) : Clang := mkClang x (args c) (depsPath c).
Definition set_args (l : list chars) (c : Clang) : Clang := mkClang (external c) l (depsPath c).
Definition set_depsPath (p : chars) (c : Clang) : Clang := mkClang (external c) (args c) p.

Definition getSignature (node : nat -> BuildNode) (H : Hashes) (c : Clang) : Z :=
  combineAll H (args c) (ExternalCommand.getSignature node H (external c)).

Definition configureAttribute (name value : chars) (c : Clang) : Configured Clang :=
  if is_text name "args" then accepted (set_args [chars_of "/bin/sh"; chars_of "-c"; value] c)
  else if is_text name "deps" then accepted (set_depsPath value c)
  else baseAttribute name value (external c) (fun x => set_external x c) c.
Definition configureListAttribute (name : chars) (values : list chars) (c : Clang) : Configured Clang :=
  if is_text name "args" then accepted (set_args values c) else unexpected name c.
Definition configurePairsAttribute (name : chars) (values : list (chars * chars)) (c : Clang) : Configured Clang :=
  unexpected name c.

(** The effects of a parser action and the errors it counts. *)
Definition onAction (c : Clang) (a : MakefileDeps.Action) : list Effect * nat :=
  match a with
  | ParseError message _ =>
      ([hadError (chars_of "error reading dependency file '" ++ depsPath c ++ chars_of "': " ++ chars_of message)], 1)
  | RuleDependency _ word => ([discovered (nodeKey word); foundDiscovered word Shell.DInput], 0)
  | RuleStart _ _ | RuleEnd => ([], 0)
  end.
Definition processDiscoveredDependencies (contents : chars -> option chars) (c : Clang) : outcome (list Effect * bool) :=
  match contents (depsPath c) with
  | None => Ok ([hadError (chars_of "unable to open dependencies file (" ++ depsPath c ++ chars_of ")")], false)
  | Some input =>
      obind (MakefileDeps.parse false input) (fun l =>
      Ok (concat (map (fun a => (onAction c a).1) l), foldr (fun a n => (onAction c a).2 + n) 0 l =? 0))
  end.

Definition executeExternalCommand (c : Clang) : Started := Spawn (args c) [] interruptible.
(** The completion function of the process. *)
Definition afterProcess (contents : chars -> option chars) (result : ProcessResult) (c : Clang)
  : outcome (list Effect * ProcessResult) :=
  if negb (bool_decide (status result = Succeeded)) then Ok ([], result)
  else match depsPath c with
  | [] => Ok ([], result)
  | _ =>
      obind (processDiscoveredDependencies contents c) (fun r =>
      Ok (r.1, if r.2 : bool then result else newProcessResult Failed))
  end.

Definition getShortDescription (c : Clang) : chars := description (external c).
Definition getVerboseDescription (c : Clang) : chars := Shell.verboseDescription true (args c).
End Clang.

(** ** Asking a Swift compiler for its version *)
Module SwiftGetVersion.
Record SwiftGetVersion := mkVersion { executable : chars }.
Definition new (key : Key.Key) : outcome SwiftGetVersion :=
  obind (Key.getCustomTaskData key) (fun d => Ok (mkVersion (chars_of_bytes d))).
Definition name : chars := chars_of "swift-get-version".
Definition shouldShowStatus (c : SwiftGetVersion) : bool := false.
Definition getShortDescription (c : SwiftGetVersion) : chars := chars_of "Checking Swift Compiler Version".
Definition getVerboseDescription (c : SwiftGetVersion) : chars := DQUOTE :: executable c ++ DQUOTE :: chars_of " --version".
(** [Command::getSignature]. *)
Definition getSignature (H : Hashes) (c : SwiftGetVersion) : Z := combine H name nullSignature.
Definition configureAttribute (attribute : chars) (c : SwiftGetVersion) : Configured SwiftGetVersion := unexpected attribute c.
Definition getResultForOutput (n : nat) (v : BuildValue) (c : SwiftGetVersion) : outcome BuildValue :=
  Crash (AbortCalled "unexpected").
Definition isResultValid (v : BuildValue) (c : SwiftGetVersion) : bool := false.
Definition commandLine (c : SwiftGetVersion) : chars :=
  Posix.shellEscaped (executable c) ++ chars_of " --version 2>/dev/null".
(** [popen] gives what the command writes; nothing if it cannot be started. *)
Definition execute (popen : chars -> option chars) (H : Hashes) (c : SwiftGetVersion) : outcome BuildValue :=
  Value.makeSuccessfulCommandWithOutputSignature [zeroFileInfo]
    (newSignature H (match popen (commandLine c) with Some output => output | None => [] end)).
End SwiftGetVersion.

(** ** Making a directory *)
Module Mkdir.
Section Mkdir.
Context (node : nat -> BuildNode).

Definition firstOutput (x : ExternalCommand) : outcome nat :=
  match outputs x with n :: _ => Ok n | [] => Crash (OutOfBounds "getOutputs()[0]") end.

Definition getShortDescription (x : ExternalCommand) : chars := description x.
Definition getVerboseDescription (x : ExternalCommand) : outcome chars :=
  obind (firstOutput x) (fun n => Ok (chars_of "mkdir -p " ++ quoteBlank (nodeName (node n)))).

Definition isResultValid (fs : chars -> FileInfo) (v : BuildValue) (x : ExternalCommand) : outcome bool :=
  if negb (isSuccessful v) then Ok false
  else
    obind (firstOutput x) (fun n =>
    obind (BuildNode.getFileInfo fs (node n)) (fun info => Ok (negb (isMissing info) && isDirectory info))).

Definition executeExternalCommand {W} (fs : FileSystem W) (x : ExternalCommand) (w : W)
  : outcome (list Effect * Started * W) :=
  obind (firstOutput x) (fun n =>
  let path := nodeName (node n) in
  let (ok, w') := createDirectories fs path w in
  Ok (if ok : bool then ([], Finished (newProcessResult Succeeded), w')
      else ([hadError (chars_of "unable to create directory " ++ quote path)], Finished (newProcessResult Failed), w'))).
End Mkdir.
End Mkdir.

(** ** Making a symbolic link *)
Module Symlink.
Record Symlink := mkSymlink {
  name : chars; linkOutputPath : chars; description : chars; linkContents : chars;
  inputs : list nat; outputs : list nat; repairViaOwnershipAnalysis : bool }.
Definition new (n : chars) (repair : bool) : Symlink := mkSymlink n [] [] [] [] [] repair.

Section Symlink.
Context (node : nat -> BuildNode).

(** [outputs[0]] is read before the code checks that there is one. *)
Definition firstOutput (c : Symlink) : outcome chars :=
  match outputs c with n :: _ => Ok (nodeName (node n)) | [] => Crash (OutOfBounds "outputs[0]") end.
Definition getActualOutputPath (c : Symlink) : outcome chars :=
  match linkOutputPath c with [] => firstOutput c | p => Ok p end.

Definition getSignature (H : Hashes) (c : Symlink) : outcome Z :=
  obind (firstOutput c) (fun p =>
  Ok (combineAll H (map (fun n => nodeName (node n)) (inputs c)) (combine H (linkContents c) (newSignature H p)))).

Definition configureDescription (value : chars) (c : Symlink) : Symlink :=
  mkSymlink (name c) (linkOutputPath c) value (linkContents c) (inputs c) (outputs c) (repairViaOwnershipAnalysis c).
Definition configureInputs (value : list nat) (c : Symlink) : Symlink :=
  mkSymlink (name c) (linkOutputPath c) (description c) (linkContents c) (inputs c ++ value) (outputs c)
    (repairViaOwnershipAnalysis c).
(** Errors are reported, and the outputs left as they are. *)
Definition configureOutputs (value : list nat) (c : Symlink) : list chars * Symlink :=
  match value with
  | [n] => ([], mkSymlink (name c) (linkOutputPath c) (description c) (linkContents c) (inputs c) (outputs c ++ [n])
                 (repairViaOwnershipAnalysis c))
  | [] => ([chars_of "missing declared output"], c)
  | _ :: n :: _ => ([chars_of "unexpected explicit output: " ++ quote (nodeName (node n))], c)
  end.
Definition configureAttribute (attribute value : chars) (c : Symlink) : Configured Symlink :=
  if is_text attribute "contents" then
    accepted (mkSymlink (name c) (linkOutputPath c) (description c) value (inputs c) (outputs c) (repairViaOwnershipAnalysis c))
  else if is_text attribute "link-output-path" then
    accepted (mkSymlink (name c) value (description c) (linkContents c) (inputs c) (outputs c) (repairViaOwnershipAnalysis c))
  else if is_text attribute "repair-via-ownership-analysis" then
    match parse_bool value with
    | Some b => accepted (mkSymlink (name c) (linkOutputPath c) (description c) (linkContents c) (inputs c) (outputs c) b)
    | None => rejected (chars_of "invalid value for attribute: " ++ quote attribute) c
    end
  else unexpected attribute c.

Definition getShortDescription (c : Symlink) : chars := description c.
Definition getVerboseDescription (c : Symlink) : outcome chars :=
  obind (getActualOutputPath c) (fun p =>
  Ok (chars_of "ln -sfh "
      ++ (if decide (outputs c = [] \/ p <> []) then quoteBlank p else chars_of "<<<missing output>>>")
      ++ chars_of " " ++ quoteBlank (linkContents c))).

Definition getResultForOutput (v : BuildValue) (c : Symlink) : outcome BuildValue :=
  if isKind Value.FailedCommand v || isKind Value.PropagatedFailureCommand v || isKind Value.CancelledCommand v
  then Ok Value.makeFailedInput
  else if isKind Value.SkippedCommand v then Ok Value.makeSkippedCommand
  else if negb (isSuccessful v) then Crash (AssertFailed "value.isSuccessfulCommand()")
  else
    obind (getOutputInfo v) (fun info =>
    if isMissing info then Ok Value.makeMissingOutput else Value.makeExistingInput info).

Definition misconfigured (c : Symlink) (path : chars) : bool :=
  bool_decide (outputs c = []) || bool_decide (path = []).

Definition isResultValid (link : chars -> FileInfo) (v : BuildValue) (c : Symlink) : outcome bool :=
  obind (getActualOutputPath c) (fun path =>
  if misconfigured c path then Ok false
  else if negb (isSuccessful v) then Ok false
  else
    obind (Value.getNumOutputs v) (fun n =>
    if negb (n =? 1)%Z then Ok false
    else
      let info := link path in
      if isMissing info then Ok false else obind (getOutputInfo v) (fun old => Ok (FileInfo_eqb info old)))).

(** The inputs are only waited for. *)
Definition start (c : Symlink) : list Key.Key := map (fun n => Key.makeNode (bytes_of (nodeName (node n)))) (inputs c).
Definition provideValue (c : Symlink) : outcome Symlink := Crash (AssertFailed "unexpected API call").

(** The link is made again if it cannot be made the first time. *)
Definition makeLink {W} (fs : FileSystem W) (contents path : chars) (w : W) : bool * W :=
  let (ok, w1) := createSymlink fs contents path w in
  if ok : bool then (true, w1) else createSymlink fs contents path (removePath fs path w1).2.

Definition execute {W} (fs : FileSystem W) (c : Symlink) (w : W) : outcome (list Effect * BuildValue * W) :=
  obind (getActualOutputPath c) (fun path =>
  if misconfigured c path then Ok ([], Value.makeFailedCommand, w)
  else
    let parent := parent_path path in
    let w1 := if decide (parent = []) then w else (createDirectories fs parent w).2 in
    let (ok, w2) := makeLink fs (linkContents c) path w1 in
    if ok : bool then
      obind (Value.makeSuccessfulCommand [linkInfoOf fs w2 path]) (fun v =>
      Ok ([delegateCall commandStarted; delegateCall (commandFinished Succeeded)], v, w2))
    else
      Ok ([delegateCall commandStarted; hadError (chars_of "unable to create symlink at " ++ quote path);
           delegateCall (commandFinished Failed)], Value.makeFailedCommand, w2)).
End Symlink.
End Symlink.

(** ** Archives *)
Module Archive.
Record Archive := mkArchive { external : ExternalCommand; archiveName : chars; archiveInputs : list chars }.
Definition new (name : chars) : Archive := mkArchive (newExternalCommand name) [] [].
Definition set_external (x : ExternalCommand) (c : Archive) : Archive := mkArchive x (archiveName c) (archiveInputs c).

Section Archive.
Context (node : nat -> BuildNode).

(** The names of the nodes that are files. *)
Definition fileNames (l : list nat) : list chars :=
  map (fun n => nodeName (node n)) (filter (fun n => isVirtual (node n) = false) l).

(** All inputs configured so far are added. *)
Definition configureInputs (value : list nat) (c : Archive) : list chars * Archive :=
  let x := ExternalCommand.configureInputs value (external c) in
  let l := archiveInputs c ++ fileNames (inputs x) in
  (if decide (l = []) then [chars_of "missing expected input"] else [], mkArchive x (archiveName c) l).

(** The first file is the archive; the others are errors. *)
Fixpoint chooseName (name : chars) (l : list chars) : list chars * chars :=
  match l with
  | [] => ([], name)
  | o :: l' =>
      match name with
      | [] => chooseName o l'
      | _ => let (es, name') := chooseName name l' in ((chars_of "unexpected explicit output: " ++ o) :: es, name')
      end
  end.
Definition configureOutputs (value : list nat) (c : Archive) : list chars * Archive :=
  let x := ExternalCommand.configureOutputs value (external c) in
  let (es, name) := chooseName (archiveName c) (fileNames (outputs x)) in
  (es ++ (if decide (name = []) then [chars_of "missing expected output"] else []), mkArchive x name (archiveInputs c)).

(** [AR] in the environment. *)
Definition getArgs (ar : option chars) (c : Archive) : list chars :=
  default (chars_of "ar") ar :: chars_of "cr" :: archiveName c :: archiveInputs c.

Definition executeExternalCommand {W} (fs : FileSystem W) (ar : option chars) (c : Archive) (w : W) : Started * W :=
  let (ok, w') := unlinkPath fs (archiveName c) w in
  (if ok : bool then Spawn (getArgs ar c) [] interruptible else Finished (newProcessResult Failed), w').

Definition getShortDescription (c : Archive) : chars :=
  match description (external c) with [] => chars_of "Archiving " ++ archiveName c | d => d end.
Definition getVerboseDescription (ar : option chars) (c : Archive) : chars := describe (getArgs ar c).
End Archive.
End Archive.

(** ** Shared libraries *)
Module SharedLibrary.
Record SharedLibrary := mkLibrary {
  external : ExternalCommand; executable : chars; sharedLibName : chars; compilerStyle : chars;
  sharedLibInputs : list chars; otherArgs : list chars }.
Definition new (name : chars) : SharedLibrary := mkLibrary (newExternalCommand name) [] [] [] [] [].
Definition set_external (x : ExternalCommand) (c : SharedLibrary) : SharedLibrary :=
  mkLibrary x (executable c) (sharedLibName c) (compilerStyle c) (sharedLibInputs c) (otherArgs c).
Definition set_otherArgs (l : list chars) (c : SharedLibrary) : SharedLibrary :=
  mkLibrary (external c) (executable c) (sharedLibName c) (compilerStyle c) (sharedLibInputs c) l.

Section SharedLibrary.
Context (node : nat -> BuildNode).

Definition configureInputs (value : list nat) (c : SharedLibrary) : list chars * SharedLibrary :=
  let x := ExternalCommand.configureInputs value (external c) in
  let l := sharedLibInputs c ++ Archive.fileNames node (inputs x) in
  (if decide (l = []) then [chars_of "SharedLibraryTool requires inputs to be specified"] else [],
   mkLibrary x (executable c) (sharedLibName c) (compilerStyle c) l (otherArgs c)).
Definition configureOutputs (value : list nat) (c : SharedLibrary) : list chars * SharedLibrary :=
  let x := ExternalCommand.configureOutputs value (external c) in
  let (es, name) := Archive.chooseName (sharedLibName c) (Archive.fileNames node (outputs x)) in
  (es ++ (if decide (name = []) then [chars_of "SharedLibraryTool requires the resulting shared library name to be specified"] else []),
   mkLibrary x (executable c) name (compilerStyle c) (sharedLibInputs c) (otherArgs c)).

(** An unknown style is an error, but stored; other attributes are ignored. *)
Definition configureAttribute (name value : chars) (c : SharedLibrary) : Configured SharedLibrary :=
  if is_text name "executable" then
    accepted (mkLibrary (external c) value (sharedLibName c) (compilerStyle c) (sharedLibInputs c) (otherArgs c))
  else if is_text name "other-args" then accepted (set_otherArgs (splitWords value) c)
  else if is_text name "compiler-style" then
    (if is_text value "cl" || is_text value "clang" || is_text value "swiftc" then []
     else [chars_of "Unsupported : compiler-style'" ++ value
           ++ chars_of "' for shared libraries'.  Supported styles are cl, clang, and swiftc"], true,
     mkLibrary (external c) (executable c) (sharedLibName c) value (sharedLibInputs c) (otherArgs c))
  else accepted c.
Definition configureListAttribute (name : chars) (values : list chars) (c : SharedLibrary) : Configured SharedLibrary :=
  if is_text name "other-args" then accepted (set_otherArgs values c) else unexpected name c.

Definition getArgs (c : SharedLibrary) : list chars :=
  if is_text (compilerStyle c) "swiftc" then
    executable c :: chars_of "-emit-library" :: sharedLibInputs c ++ chars_of "-o" :: sharedLibName c :: otherArgs c
  else if is_text (compilerStyle c) "clang" then
    executable c :: sharedLibInputs c ++ chars_of "-o" :: sharedLibName c :: otherArgs c ++ [chars_of "-shared"]
  else if is_text (compilerStyle c) "cl" then
    executable c :: sharedLibInputs c
      ++ [chars_of "/o"; sharedLibName c; chars_of "/LD"; chars_of "/MD"; chars_of "/link"; chars_of "MSVCRT.lib"]
  else [].

Definition getSignature (H : Hashes) (c : SharedLibrary) : Z := ExternalCommand.getSignature node H (external c).
Definition executeExternalCommand (c : SharedLibrary) : Started := Spawn (getArgs c) [] interruptible.
Definition getShortDescription (c : SharedLibrary) : chars :=
  match description (external c) with [] => chars_of "Creating Shared library: " ++ sharedLibName c | d => d end.
Definition getVerboseDescription (c : SharedLibrary) : chars := describe (getArgs c).
End SharedLibrary.
End SharedLibrary.

(** ** Paths below a root *)

(** [std::mismatch]: what is left of the two ranges. *)
Fixpoint mismatch (a b : chars) : chars * chars :=
  match a, b with
  | x :: a', y :: b' => if (x =? y)%char then mismatch a' b' else (a, b)
  | _, _ => (a, b)
  end.
(** The range is used up, or starts with a separator. *)
Definition atEnd (l : chars) : bool := match l with [] => true | c :: _ => is_separator c end.

Definition pathIsPrefixedByPath (path prefixPath : chars) : bool :=
  if length path <? length prefixPath then
    bool_decide (take (length prefixPath - 1) prefixPath = path)
    && match list.last prefixPath with Some c => is_separator c | None => false end
  else
    let (first, second) := mismatch prefixPath path in
    atEnd first && atEnd second.

(** ** Removing stale files *)
Module StaleFileRemoval.
Record StaleFileRemoval := mkStale {
  name : chars; description : chars; expectedOutputs : list chars; filesToDelete : list chars; roots : list chars;
  computedFilesToDelete : bool; priorValue : BuildValue; hasPriorResult : bool }.
Definition new (n : chars) : StaleFileRemoval := mkStale n [] [] [] [] false Value.makeInvalid false.

Definition configureDescription (value : chars) (c : StaleFileRemoval) : StaleFileRemoval :=
  mkStale (name c) value (expectedOutputs c) (filesToDelete c) (roots c) (computedFilesToDelete c) (priorValue c) (hasPriorResult c).
Definition set_expectedOutputs (l : list chars) (c : StaleFileRemoval) : StaleFileRemoval :=
  mkStale (name c) (description c) l (filesToDelete c) (roots c) (computedFilesToDelete c) (priorValue c) (hasPriorResult c).
Definition set_roots (l : list chars) (c : StaleFileRemoval) : StaleFileRemoval :=
  mkStale (name c) (description c) (expectedOutputs c) (filesToDelete c) l (computedFilesToDelete c) (priorValue c) (hasPriorResult c).
Definition set_filesToDelete (l : list chars) (c : StaleFileRemoval) : StaleFileRemoval :=
  mkStale (name c) (description c) (expectedOutputs c) l (roots c) true (priorValue c) (hasPriorResult c).
Definition set_priorValue (v : BuildValue) (c : StaleFileRemoval) : StaleFileRemoval :=
  mkStale (name c) (description c) (expectedOutputs c) (filesToDelete c) (roots c) (computedFilesToDelete c) v true.

Definition configureAttribute (attribute : chars) (c : StaleFileRemoval) : Configured StaleFileRemoval := unexpected attribute c.
Definition configureListAttribute (attribute : chars) (values : list chars) (c : StaleFileRemoval) : Configured StaleFileRemoval :=
  if is_text attribute "expectedOutputs" then accepted (set_expectedOutputs (expectedOutputs c ++ values) c)
  else if is_text attribute "roots" then accepted (set_roots (roots c ++ values) c)
  else unexpected attribute c.

Definition getResultForOutput (v : BuildValue) (c : StaleFileRemoval) : outcome BuildValue :=
  if isKind Value.FailedCommand v || isKind Value.PropagatedFailureCommand v || isKind Value.CancelledCommand v
  then Ok Value.makeFailedInput
  else if isKind Value.SkippedCommand v then Ok Value.makeSkippedCommand
  else obind (Value.toData v) Value.fromData.
Definition isResultValid (v : BuildValue) (c : StaleFileRemoval) : bool := false.
Definition providePriorValue (v : BuildValue) (c : StaleFileRemoval) : outcome StaleFileRemoval :=
  obind (obind (Value.toData v) Value.fromData) (fun v' => Ok (set_priorValue v' c)).
Definition provideValue (c : StaleFileRemoval) : outcome StaleFileRemoval := Crash (AssertFailed "unexpected API call").

(** [std::set<std::string>] of a list, in its order. *)
Definition to_set (l : list chars) : list chars := merge_sort chars_le (remove_dups l).
Definition set_difference (a b : list chars) : list chars := filter (fun x => x ∉ b) a.

Definition computeFilesToDelete (c : StaleFileRemoval) : outcome StaleFileRemoval :=
  if computedFilesToDelete c then Ok c
  else
    obind (Value.getStaleFileList (priorValue c)) (fun prior =>
    Ok (set_filesToDelete
          (filesToDelete c ++ set_difference (to_set (map chars_of_bytes prior)) (to_set (expectedOutputs c))) c)).

(** The file lies under one of the roots, if there are any. *)
Definition underRoots (roots : list chars) (file : chars) : bool :=
  match roots with [] => true | _ => existsb (pathIsPrefixedByPath file) roots end.
(** [fileToDelete[0]]: the terminator of an empty string is not a separator. *)
Definition relative (file : chars) : bool := match file with [] => true | c :: _ => negb (is_separator c) end.

Definition ENOENT : Z := 2.

Section Removal.
Context {W : Type} (fs : FileSystem W) (strerror : Z -> chars).

Definition removeFile (roots : list chars) (file : chars) (w : W) : list Effect * W :=
  if negb (bool_decide (roots = [])) && relative file then
    ([hadWarning (chars_of "Stale file " ++ quote file
        ++ chars_of " has a relative path. This is invalid in combination with the root path attribute." ++ [LF])], w)
  else if negb (underRoots roots file) then
    ([hadWarning (chars_of "Stale file " ++ quote file ++ chars_of " is located outside of the allowed root paths." ++ [LF])], w)
  else
    let '(ok, errno, w') := removePath fs file w in
    (if ok : bool then [hadNote (chars_of "Removed stale file " ++ quote file ++ [LF])]
     else if (errno =? ENOENT)%Z then []
     else [hadWarning (chars_of "cannot remove stale file " ++ quote file ++ chars_of ": " ++ strerror errno ++ [LF])], w').

Fixpoint removeFiles (roots files : list chars) (w : W) : list Effect * W :=
  match files with
  | [] => ([], w)
  | f :: files' =>
      let (es, w1) := removeFile roots f w in let (es', w2) := removeFiles roots files' w1 in (es ++ es', w2)
  end.

Definition expectedValue (c : StaleFileRemoval) : outcome BuildValue :=
  Value.makeStaleFileRemoval (map bytes_of (expectedOutputs c)).

Definition execute (c : StaleFileRemoval) (w : W) : outcome (list Effect * BuildValue * StaleFileRemoval * W) :=
  if negb (hasPriorResult c) || negb (isKind Value.StaleFileRemoval (priorValue c)) then
    obind (expectedValue c) (fun v => Ok ([delegateCall commandStarted; delegateCall (commandFinished Succeeded)], v, c, w))
  else
    obind (computeFilesToDelete c) (fun c' =>
    let (es, w') := removeFiles (roots c') (filesToDelete c') w in
    obind (expectedValue c') (fun v =>
    Ok (delegateCall commandStarted :: es ++ [delegateCall (commandFinished Succeeded)], v, c', w'))).
End Removal.

(** ** Descriptions *)
Definition getShortDescription (c : StaleFileRemoval) : chars :=
  match description c with [] => chars_of "Stale file removal" | d => d end.
(** A comma follows every element that differs from the last one. *)
Definition commaList (l : list chars) : chars :=
  concat (map (fun x => x ++ (if decide (Some x = list.last l) then [] else chars_of ", ")) l).
Definition getVerboseDescription (c : StaleFileRemoval) : outcome (chars * StaleFileRemoval) :=
  obind (computeFilesToDelete c) (fun c' =>
  Ok (getShortDescription c' ++ chars_of ", stale files: [" ++ commaList (filesToDelete c')
      ++ chars_of "], roots: [" ++ commaList (roots c') ++ chars_of "]", c')).
End StaleFileRemoval.
