(* ===== verification/BuildToolsProps.v ===== *)
(** * Properties of the built-in tools

    Which stale files are removed, when a symbolic link is made again, and runs of the
    tools that show where the code departs from what it means to do. *)

From Stdlib Require Import Ascii String Lia ZArith.
From stdpp Require Import base gmap list sorting strings numbers.
From S2P Require Import Prelude Chars NinjaPath Coding BuildValue BuildKey Process BuildNode ExternalCommand ExternalCommandProps ShellCommand BuildTasks BuildTasksProps BuildTools.

Local Open Scope nat_scope.

(** ** Paths below a root *)

(** The path is the root, below the root, or the root without its final separator. *)
Definition below (root path : chars) : Prop :=
  path = root \/ (exists rest, path = root ++ SLASH :: rest) \/ root = path ++ [SLASH].

Lemma separator_slash c : is_separator c = true <-> c = SLASH.
Proof. unfold is_separator. destruct (Ascii.eqb_spec c SLASH); naive_solver. Qed.

Lemma mismatch_spec a : forall b, length a <= length b ->
  exists p, a = p ++ (mismatch a b).1 /\ b = p ++ (mismatch a b).2
    /\ ((mismatch a b).1 = [] \/ exists x y a' b', mismatch a b = (x :: a', y :: b') /\ x <> y).
Proof.
  induction a as [|x a IH]; intros [|y b] Hl; cbn in Hl.
  - exists []. by repeat split; left.
  - exists []. by repeat split; left.
  - lia.
  - cbn. destruct (Ascii.eqb_spec x y) as [->|Hne].
    + destruct (IH b) as (p & E1 & E2 & E3); [lia|]. exists (y :: p). cbn. rewrite <- E1, <- E2. done.
    + exists []. split; [done|]. split; [done|]. right. by exists x, y, a, b.
Qed.

Lemma atEnd_spec l : atEnd l = true <-> l = [] \/ exists rest, l = SLASH :: rest.
Proof.
  destruct l as [|c l]; cbn; [naive_solver|]. rewrite separator_slash. split; [intros ->; eauto|].
  intros [?|[rest E]]; [done|by injection E].
Qed.

Lemma prefixed_below path root : pathIsPrefixedByPath path root = true <-> below root path.
Proof.
  unfold pathIsPrefixedByPath, below. destruct (Nat.ltb_spec (length path) (length root)) as [Hlt|Hge].
  - rewrite andb_true_iff, bool_decide_eq_true. split.
    + intros [Ht Hs]. right; right. destruct (list.last root) as [c|] eqn:El; [|done]. apply separator_slash in Hs as ->.
      apply last_Some in El as [l' ->]. rewrite length_app, Nat.add_sub in Ht. by rewrite take_app_length in Ht; subst.
    + intros [->|[[rest ->]| ->]]; [lia|rewrite length_app in Hlt; lia|].
      by rewrite length_app, Nat.add_sub, take_app_length, last_snoc.
  - destruct (mismatch_spec root path Hge) as (p & E1 & E2 & E3). destruct (mismatch root path) as [a b]; cbn in *.
    rewrite andb_true_iff, !atEnd_spec. split.
    + intros [Ha Hb]. destruct E3 as [->|(x & y & a' & b' & Eab & Hne)]; [|injection Eab as -> ->].
      * rewrite app_nil_r in E1. subst p. destruct Hb as [->|[rest ->]]; [left; by rewrite app_nil_r in E2|right; left; by exists rest].
      * destruct Ha as [?|[r1 F1]]; [done|]. destruct Hb as [?|[r2 F2]]; [done|]. injection F1; injection F2; intros; congruence.
    + assert (Hab : forall s, path = root ++ s -> a = [] /\ b = s).
      { intros s Es. destruct E3 as [->|(x & y & a' & b' & Eab & Hne)]; [|injection Eab as -> ->].
        - rewrite app_nil_r in E1. subst root. rewrite Es in E2. by apply app_inv_head in E2.
        - exfalso. rewrite Es, E1, <- app_assoc in E2. apply app_inv_head in E2. by injection E2. }
      intros [->|[[rest ->]| ->]].
      * destruct (Hab []) as [-> ->]; [by rewrite app_nil_r|]. split; by left.
      * destruct (Hab (SLASH :: rest)) as [-> ->]; [done|]. split; [by left|right; eauto].
      * rewrite length_app in Hge. cbn in Hge. lia.
Qed.

(** A root that ends in a separator, and the root directory itself, have nothing below
    them but paths with a doubled separator. *)
Example slash_root_has_nothing_below :
  pathIsPrefixedByPath (chars_of "/foo/bar") (chars_of "/foo/") = false
  /\ pathIsPrefixedByPath (chars_of "/foo") (chars_of "/") = false
  /\ pathIsPrefixedByPath (chars_of "/foo/bar") (chars_of "/foo") = true.
Proof. repeat split; reflexivity. Qed.

(** ** Removing stale files *)
Section Stale.
Context {W : Type} (fs : FileSystem W) (strerror : Z -> chars).
Import StaleFileRemoval.

(** A file may be removed if there are no roots, or it is absolute and below one of them. *)
Definition removable (roots : list chars) (f : chars) : Prop :=
  roots = [] \/ (starts_with_separator f = true /\ exists r, r ∈ roots /\ below r f).
Lemma removable_iff roots f :
  removable roots f <-> bool_decide (roots = []) || (starts_with_separator f && existsb (pathIsPrefixedByPath f) roots) = true.
Proof.
  unfold removable. rewrite orb_true_iff, andb_true_iff, bool_decide_eq_true, existsb_exists.
  setoid_rewrite list_elem_of_In. by setoid_rewrite <- prefixed_below.
Qed.
#[local] Instance removable_dec roots f : Decision (removable roots f).
Proof.
  destruct (bool_decide (roots = []) || (starts_with_separator f && existsb (pathIsPrefixedByPath f) roots)) eqn:E;
    [left|right]; rewrite removable_iff; congruence.
Defined.

Lemma removeFile_spec roots f w :
  (removeFile fs strerror roots f w).2 = if decide (removable roots f) then (removePath fs f w).2 else w.
Proof.
  assert (Hr : relative f = negb (starts_with_separator f)) by by destruct f.
  unfold removeFile. rewrite Hr. destruct (decide (removable roots f)) as [[->|[Ha (r & Hin & Hb)]]|Hn].
  - cbn. by destruct (removePath fs f w) as [[ok e] w'].
  - rewrite Ha, andb_false_r. assert (Hu : underRoots roots f = true).
    { destruct roots as [|r0 l]; [done|]. apply existsb_exists. exists r. by rewrite prefixed_below, <- list_elem_of_In. }
    rewrite Hu. cbn. by destruct (removePath fs f w) as [[ok e] w'].
  - destruct (decide (roots = [])) as [->|He]; [by destruct Hn; left|]. rewrite bool_decide_eq_false_2 by done. cbn [negb andb].
    destruct (starts_with_separator f) eqn:Es; [|done]. cbn [negb]. destruct (underRoots roots f) eqn:Eu; [|done].
    destruct Hn. right. split; [done|]. destruct roots as [|r0 l]; [done|].
    apply existsb_exists in Eu as (r & Hin & Hp). exists r. by rewrite list_elem_of_In, <- prefixed_below.
Qed.

Lemma removeFiles_spec roots files : forall w,
  (removeFiles fs strerror roots files w).2 = foldl (fun w f => (removePath fs f w).2) w (filter (removable roots) files).
Proof.
  induction files as [|f files IH]; intros w; [done|]. cbn [removeFiles]. pose proof (removeFile_spec roots f w) as E.
  destruct (removeFile fs strerror roots f w) as [es w1]; cbn in E. specialize (IH w1).
  destruct (removeFiles fs strerror roots files w1) as [es' w2]. rewrite filter_cons. simpl in IH. simpl. subst.
  by destruct (decide (removable roots f)).
Qed.

Lemma elem_of_to_set x l : x ∈ to_set l <-> x ∈ l.
Proof. unfold to_set. by rewrite sort_perm, elem_of_remove_dups. Qed.
Lemma NoDup_to_set l : NoDup (to_set l).
Proof. unfold to_set. rewrite sort_perm. apply NoDup_remove_dups. Qed.

Lemma filter_sorted (P : chars -> Prop) `{!forall x, Decision (P x)} l : StronglySorted chars_le l -> StronglySorted chars_le (filter P l).
Proof.
  induction 1 as [|x l Hs IH Hx]; [constructor|]. rewrite filter_cons. case_decide; [|done]. constructor; [done|].
  apply Forall_forall. intros y Hy%list_elem_of_In%list_elem_of_filter. rewrite Forall_forall in Hx. by apply Hx, list_elem_of_In, Hy.
Qed.

Lemma stale_list_decoded names : Value.valid_names names ->
  Value.getStaleFileList (Value.decoded (Value.DStaleFileRemoval names)) = Ok names.
Proof. intros Hn. apply (proj2 (Value.strings_valid _ Hn)). Qed.

(** Stale file removal removes exactly the stale files.  With the prior value that lists
    [prior], the command calls [remove] once on each file that is listed there, is not an
    expected output any more, and is allowed by the roots (any file without roots; an
    absolute path that is a root or below one, otherwise), in the order of the paths, and on
    nothing else; in particular an expected output is never removed.  It reports its start
    and its end, and the value it stores lists the expected outputs to the next build. *)
Theorem stale_files_removed c w prior :
  hasPriorResult c = true -> computedFilesToDelete c = false -> filesToDelete c = [] ->
  priorValue c = Value.decoded (Value.DStaleFileRemoval (map bytes_of prior)) ->
  names_ok prior -> names_ok (expectedOutputs c) ->
  exists es v c' bs del, execute fs strerror c w
      = Ok (delegateCall commandStarted :: es ++ [delegateCall (commandFinished Succeeded)], v, c',
            foldl (fun w f => (removePath fs f w).2) w del)
    /\ (forall f, f ∈ del <-> f ∈ prior /\ (f ∉ expectedOutputs c) /\ removable (roots c) f)
    /\ NoDup del /\ StronglySorted chars_le del
    /\ Value.toData v = Ok bs
    /\ obind (Value.fromData bs) Value.getStaleFileList = Ok (map bytes_of (expectedOutputs c)).
Proof.
  intros Hp Hc Hf Hv Hn He. unfold execute. rewrite Hp, Hv. eval_kinds. cbn [negb orb].
  unfold computeFilesToDelete. rewrite Hc, Hv, stale_list_decoded, Hf by done. cbn [obind app roots filesToDelete set_filesToDelete].
  rewrite map_map. erewrite (map_ext _ id); [|intros f; apply chars_of_bytes_of]. rewrite map_id.
  set (files := set_difference _ _). pose proof (removeFiles_spec (roots c) files w) as E.
  destruct (removeFiles fs strerror (roots c) files w) as [es w']; cbn in E. cbn [obind].
  unfold expectedValue. cbn [expectedOutputs set_filesToDelete].
  destruct (Value.made (Value.DStaleFileRemoval (map bytes_of (expectedOutputs c))) He) as (v & bs & E1 & E2 & E3).
  cbn [Value.make] in E1. rewrite E1. cbn [obind]. subst w'. eexists es, v, _, bs, _. split; [done|]. split; [|split; [|split; [|split; [done|]]]].
  - intros f. unfold files, set_difference. rewrite !list_elem_of_filter, !elem_of_to_set. tauto.
  - apply list.NoDup_filter, list.NoDup_filter, NoDup_to_set.
  - apply filter_sorted, filter_sorted, (StronglySorted_merge_sort chars_le).
  - rewrite E3. by apply stale_list_decoded.
Qed.
End Stale.

(** A file system that only records the paths it is asked to remove. *)
Definition recording : FileSystem (list chars) :=
  mkFileSystem (fun _ _ => zeroFileInfo) (fun _ _ => zeroFileInfo) (fun _ _ => None) (fun _ w => (true, w)) (fun _ _ w => (true, w))
    (fun p w => ((true, 0%Z), w ++ [p])) (fun _ w => (true, w)) (fun _ _ w => (true, w)).
Definition texts (l : list string) : list chars := map chars_of l.
Definition stale_example (rs expected prior : list string) : StaleFileRemoval.StaleFileRemoval :=
  StaleFileRemoval.mkStale (chars_of "C") [] (texts expected) [] (texts rs) false
    (Value.decoded (Value.DStaleFileRemoval (map bytes_of (texts prior)))) true.

Lemma names_ok_bool l : forallb (fun c => bool_decide (NUL ∉ c)) l = true -> (Z.of_nat (length (packed (map bytes_of l))) < 2 ^ 64)%Z ->
  names_ok l.
Proof.
  intros H Hs. split; [|split; [lia|exact Hs]]. apply Forall_map, Forall_forall. intros c Hc.
  rewrite forallb_forall in H. apply H, bool_decide_eq_true in Hc. unfold no_nul, compose. intros Hin. apply Hc.
  unfold bytes_of in Hin. apply list_elem_of_fmap in Hin as (x & E & Hx). assert (x = NUL) as ->; [|done].
  by apply byte_of_inj; rewrite <- E.
Qed.

Lemma stale_files_removed_witness :
  let c := stale_example ["/b"] ["/b/new"] ["/b/new"; "/b/old"; "/a"; "b/old"] in
  exists es v c' bs del, StaleFileRemoval.execute recording (fun _ => []) c []
      = Ok (delegateCall commandStarted :: es ++ [delegateCall (commandFinished Succeeded)], v, c',
            foldl (fun w f => (removePath recording f w).2) [] del)
    /\ (forall f, f ∈ del <-> f ∈ texts ["/b/new"; "/b/old"; "/a"; "b/old"] /\ (f ∉ texts ["/b/new"]) /\ removable (texts ["/b"]) f)
    /\ NoDup del /\ StronglySorted chars_le del
    /\ Value.toData v = Ok bs
    /\ obind (Value.fromData bs) Value.getStaleFileList = Ok (map bytes_of (texts ["/b/new"])).
Proof.
  intros c.
  apply (stale_files_removed recording (fun _ => []) c [] (texts ["/b/new"; "/b/old"; "/a"; "b/old"])); try reflexivity;
    apply names_ok_bool; vm_compute; reflexivity.
Defined.

(** The paths removed by the command in [n] builds with one build system: its own state is
    kept, and the prior value is the value of the build before. *)
Fixpoint stale_builds (n : nat) (c : StaleFileRemoval.StaleFileRemoval) : outcome (list (list chars)) :=
  match n with
  | O => Ok []
  | S n' =>
      obind (StaleFileRemoval.execute recording (fun _ => []) c []) (fun r =>
      let '(_, v, c', removed) := r in
      obind (StaleFileRemoval.providePriorValue v c') (fun c'' =>
      obind (stale_builds n' c'') (fun l => Ok (removed :: l))))
  end.

(** The list of files to delete is computed once: a second build of the same build system
    removes the stale files of the first one again, whoever made them since. *)
Example stale_files_removed_again :
  stale_builds 2 (stale_example [] ["new"] ["new"; "old"]) = Ok [texts ["old"]; texts ["old"]].
Proof. vm_compute. reflexivity. Qed.

(** The description lists the stale files, and asserts when there is no prior value. *)
Example stale_description_asserts :
  StaleFileRemoval.getVerboseDescription (StaleFileRemoval.new (chars_of "C"))
  = Crash (AssertFailed "invalid call for value kind").
Proof. reflexivity. Qed.

(** ** Symbolic links *)
Section Symlinks.
Context {W : Type} (fs : FileSystem W) (node : nat -> BuildNode).
Import Symlink.

(** The path of the link. *)
Definition link_path (c : Symlink) (n : nat) : chars := match linkOutputPath c with [] => nodeName (node n) | p => p end.

(** A link is made again exactly when it changed.  A configured link command makes the
    link with its contents after its parent directory, removing what is at the path and
    trying once more if the link cannot be made.  If that fails it completes as failed;
    otherwise it stores the information of the link itself, and a later build accepts the
    stored value exactly when a link is there with the same information.  Its consumers get
    that information, or that the output is missing. *)
Theorem symlink_result c n w : outputs c = [n] -> link_path c n <> [] ->
  (forall w p, valid_info (linkInfoOf fs w p)) ->
  let path := link_path c n in
  let w1 := if decide (parent_path path = []) then w else (createDirectories fs (parent_path path) w).2 in
  let w2 := (makeLink fs (linkContents c) path w1).2 in
  if (makeLink fs (linkContents c) path w1).1
  then
    exists v bs v', execute node fs c w = Ok ([delegateCall commandStarted; delegateCall (commandFinished Succeeded)], v, w2)
      /\ Value.toData v = Ok bs /\ Value.fromData bs = Ok v'
      /\ (forall link, isResultValid node link v' c
            = Ok (negb (isMissing (link path)) && FileInfo_eqb (link path) (linkInfoOf fs w2 path)))
      /\ getResultForOutput v' c
          = (if isMissing (linkInfoOf fs w2 path) then Ok Value.makeMissingOutput else Value.makeExistingInput (linkInfoOf fs w2 path))
  else exists message, execute node fs c w
      = Ok ([delegateCall commandStarted; hadError message; delegateCall (commandFinished Failed)], Value.makeFailedCommand, w2).
Proof.
  intros Ho Hp Hi path w1 w2. assert (Ea : getActualOutputPath node c = Ok path).
  { unfold getActualOutputPath, firstOutput, path, link_path. rewrite Ho. by destruct (linkOutputPath c). }
  assert (Em : misconfigured c path = false) by (unfold misconfigured; by rewrite Ho, !bool_decide_eq_false_2).
  unfold execute. rewrite Ea. cbn [obind]. rewrite Em. fold w1. unfold w2.
  destruct (makeLink fs (linkContents c) path w1) as [ok w3]. cbn [fst snd].
  destruct ok; [|by eexists]. set (info := linkInfoOf fs w3 path).
  destruct (Value.made (Value.DSuccessfulCommand [info])) as (v & bs & E1 & E2 & E3); [by apply Value.one_info, Hi|].
  cbn [Value.make] in E1. rewrite E1. cbn [obind]. exists v, bs, (Value.decoded (Value.DSuccessfulCommand [info])).
  split; [done|]. split; [done|]. split; [done|]. split.
  - intros link. unfold isResultValid. rewrite Ea. cbn [obind]. rewrite Em. eval_kinds. by destruct (isMissing (link path)).
  - unfold getResultForOutput. eval_kinds. done.
Qed.
End Symlinks.

Lemma symlink_result_witness :
  let info := mkFileInfo 1 2 0xA000 4 (mkTimestamp 5 0) zeroChecksum in
  let fs := mkFileSystem (fun _ _ => info) (fun (_ : unit) _ => info) (fun _ _ => None) (fun _ w => (true, w)) (fun _ _ w => (true, w))
    (fun p w => ((true, 0%Z), w)) (fun _ w => (true, w)) (fun _ _ w => (true, w)) in
  let c := Symlink.mkSymlink (chars_of "L") [] [] (chars_of "target") [] [0] false in
  exists v bs v', Symlink.execute (fun _ => makePlain (chars_of "dir/link")) fs c tt
      = Ok ([delegateCall commandStarted; delegateCall (commandFinished Succeeded)], v, tt)
    /\ Value.toData v = Ok bs /\ Value.fromData bs = Ok v'
    /\ (forall link, Symlink.isResultValid (fun _ => makePlain (chars_of "dir/link")) link v' c
          = Ok (negb (isMissing (link (chars_of "dir/link"))) && FileInfo_eqb (link (chars_of "dir/link")) info))
    /\ Symlink.getResultForOutput v' c = (if isMissing info then Ok Value.makeMissingOutput else Value.makeExistingInput info).
Proof.
  intros info fs c. apply (symlink_result fs (fun _ => makePlain (chars_of "dir/link")) c 0 tt).
  - reflexivity.
  - vm_compute. discriminate.
  - intros w p. unfold valid_info, range; cbn; repeat split; lia || done.
Defined.

(** The functions of a link command look at its first output before checking that there
    is one. *)
Example symlink_without_outputs node link v :
  let c := Symlink.new (chars_of "L") false in
  Symlink.isResultValid node link v c = Crash (OutOfBounds "outputs[0]")
  /\ (forall H, Symlink.getSignature node H c = Crash (OutOfBounds "outputs[0]")).
Proof. split; reflexivity. Qed.

(** A directory command has no such check at all. *)
Example mkdir_without_outputs node fs :
  Mkdir.isResultValid node fs (Value.decoded (Value.DSuccessfulCommand [zeroFileInfo])) (newExternalCommand (chars_of "M"))
  = Crash (OutOfBounds "getOutputs()[0]").
Proof. reflexivity. Qed.

(** ** Signatures of shared libraries *)

(** Neither the compiler nor its arguments are part of the signature of a shared library
    command: changing them does not make it run again. *)
Example library_signature_ignores_command_line node H :
  let c exe args := SharedLibrary.mkLibrary (newExternalCommand (chars_of "L")) (chars_of exe) (chars_of "l.so") (chars_of "clang")
                      [chars_of "a.o"] (texts args) in
  SharedLibrary.getSignature node H (c "cc" ["-O0"]) = SharedLibrary.getSignature node H (c "clang" ["-O2"])
  /\ SharedLibrary.getArgs (c "cc" ["-O0"]) <> SharedLibrary.getArgs (c "clang" ["-O2"]).
Proof. split; [reflexivity|vm_compute; discriminate]. Qed.

(** Without a known style there is no command line, and the style [cl] drops the other
    arguments; attributes of the base class are accepted and ignored. *)
Example library_attributes_ignored :
  SharedLibrary.getArgs (SharedLibrary.new (chars_of "L")) = []
  /\ SharedLibrary.configureAttribute (chars_of "allow-missing-inputs") (chars_of "true") (SharedLibrary.new (chars_of "L"))
     = accepted (SharedLibrary.new (chars_of "L")).
Proof. split; reflexivity. Qed.
