(* ===== verification/SwiftCompiler.v ===== *)
(** * The Swift compiler command

    [SwiftCompilerShellCommand] of lib/BuildSystem/BuildSystem.cpp: the command line, the
    output file map it writes as JSON for the compiler, and the dependencies it reads from
    the files the compiler leaves.  [escapeForJSON] is that of
    lib/Basic/include/llbuild/Basic/JSON.h; [stem] and [filename] are LLVM's path queries
    (lib/llvm/Support/Path.cpp), POSIX style. *)

From Stdlib Require Import Ascii String Lia ZArith.
From stdpp Require Import base gmap list strings numbers pretty.
From S2P Require Import Prelude Chars ShellUtility MakefileDeps NinjaPath Coding BuildValue BuildKey Process BuildNode ExternalCommand ShellCommand BuildTasks BuildTools.

Local Open Scope nat_scope.

(** ** JSON *)
Definition hexChar (n : Z) : ascii := char_of (if (n <? 10)%Z then 48 + n else 87 + n).
(** Four hexadecimal digits. *)
Definition hex4 (n : Z) : chars :=
  [hexChar (n / 4096); hexChar (n / 256 mod 16); hexChar (n / 16 mod 16); hexChar (n mod 16)].

Definition escapeChar (c : ascii) : chars :=
  let n := byte_of c in
  if (n =? 92)%Z then [BACKSLASH; BACKSLASH]
  else if (n =? 34)%Z then [BACKSLASH; DQUOTE]
  else if (n =? 8)%Z then [BACKSLASH; "b"%char]
  else if (n =? 10)%Z then [BACKSLASH; "n"%char]
  else if (n =? 12)%Z then [BACKSLASH; "f"%char]
  else if (n =? 13)%Z then [BACKSLASH; "r"%char]
  else if (n =? 9)%Z then [BACKSLASH; "t"%char]
  else if (n <=? 31)%Z then BACKSLASH :: "u"%char :: hex4 n
  else [c].
Definition escapeForJSON (l : chars) : chars := concat (map escapeChar l).

(** ** Path queries *)

(** The last component, a dot for a path that ends with a separator. *)
Definition filename (path : chars) : chars :=
  let root := root_dir_start path in
  let skip := fix skip (n : nat) := match n with
    | O => O
    | S m => if negb (bool_decide (root = Some m)) && sep_at path m then skip m else n end in
  let end_pos := skip (length path) in
  if ends_with_slash path && match root with None => true | Some r => S r <? end_pos end
  then [DOT]
  else drop (filename_pos (take end_pos path)) (take end_pos path).

(** Everything before the last dot. *)
Fixpoint last_dot (i : nat) (l : chars) (pos : option nat) : option nat :=
  match l with [] => pos | c :: l' => last_dot (S i) l' (if (c =? DOT)%char then Some i else pos) end.
Definition stem (path : chars) : chars :=
  let fname := filename path in
  match last_dot 0 fname None with
  | None => fname
  | Some pos => if bool_decide (fname = [DOT]) || bool_decide (fname = [DOT; DOT]) then fname else take pos fname
  end.

(** [StringRef::getAsInteger(10, int&)]. *)
Definition getAsInt (l : chars) : option Z :=
  let unsigned l := match l with [] => None | _ =>
    match Shell.consumeUnsigned 0 l with Some (r, []) => Some r | _ => None end end in
  let signed := match l with
    | "-"%char :: l' =>
        match unsigned l' with Some r => if (r <=? 2 ^ 63)%Z then Some (- r)%Z else None | None => None end
    | _ => match unsigned l with Some r => if (r <? 2 ^ 63)%Z then Some r else None | None => None end
    end in
  match signed with Some r => if (- 2 ^ 31 <=? r)%Z && (r <? 2 ^ 31)%Z then Some r else None | None => None end.

Module Swift.
(** ** State *)
Record Swift := mkSwift {
  external : ExternalCommand;
  executable : chars;
  moduleName : chars;
  moduleAliases : list chars;
  moduleOutputPath : chars;
  sourcesList : list chars;
  objectsList : list chars;
  importPaths : list chars;
  tempsPath : chars;
  otherArgs : list chars;
  isLibrary : bool;
  enableWholeModuleOptimization : bool;
  numThreads : chars }.

Definition new (name : chars) : Swift :=
  mkSwift (newExternalCommand name) (chars_of "swiftc") [] [] [] [] [] [] [] [] false false (chars_of "0").

Definition set_external (x : ExternalCommand) (c : Swift) : Swift :=
  mkSwift x (executable c) (moduleName c) (moduleAliases c) (moduleOutputPath c) (sourcesList c) (objectsList c)
    (importPaths c) (tempsPath c) (otherArgs c) (isLibrary c) (enableWholeModuleOptimization c) (numThreads c).
Definition set_executable (x : chars) (c : Swift) : Swift :=
  mkSwift (external c) x (moduleName c) (moduleAliases c) (moduleOutputPath c) (sourcesList c) (objectsList c)
    (importPaths c) (tempsPath c) (otherArgs c) (isLibrary c) (enableWholeModuleOptimization c) (numThreads c).
Definition set_moduleName (x : chars) (c : Swift) : Swift :=
  mkSwift (external c) (executable c) x (moduleAliases c) (moduleOutputPath c) (sourcesList c) (objectsList c)
    (importPaths c) (tempsPath c) (otherArgs c) (isLibrary c) (enableWholeModuleOptimization c) (numThreads c).
Definition set_moduleAliases (x : list chars) (c : Swift) : Swift :=
  mkSwift (external c) (executable c) (moduleName c) x (moduleOutputPath c) (sourcesList c) (objectsList c)
    (importPaths c) (tempsPath c) (otherArgs c) (isLibrary c) (enableWholeModuleOptimization c) (numThreads c).
Definition set_moduleOutputPath (x : chars) (c : Swift) : Swift :=
  mkSwift (external c) (executable c) (moduleName c) (moduleAliases c) x (sourcesList c) (objectsList c)
    (importPaths c) (tempsPath c) (otherArgs c) (isLibrary c) (enableWholeModuleOptimization c) (numThreads c).
Definition set_sourcesList (x : list chars) (c : Swift) : Swift :=
  mkSwift (external c) (executable c) (moduleName c) (moduleAliases c) (moduleOutputPath c) x (objectsList c)
    (importPaths c) (tempsPath c) (otherArgs c) (isLibrary c) (enableWholeModuleOptimization c) (numThreads c).
Definition set_objectsList (x : list chars) (c : Swift) : Swift :=
  mkSwift (external c) (executable c) (moduleName c) (moduleAliases c) (moduleOutputPath c) (sourcesList c) x
    (importPaths c) (tempsPath c) (otherArgs c) (isLibrary c) (enableWholeModuleOptimization c) (numThreads c).
Definition set_importPaths (x : list chars) (c : Swift) : Swift :=
  mkSwift (external c) (executable c) (moduleName c) (moduleAliases c) (moduleOutputPath c) (sourcesList c) (objectsList c)
    x (tempsPath c) (otherArgs c) (isLibrary c) (enableWholeModuleOptimization c) (numThreads c).
Definition set_tempsPath (x : chars) (c : Swift) : Swift :=
  mkSwift (external c) (executable c) (moduleName c) (moduleAliases c) (moduleOutputPath c) (sourcesList c) (objectsList c)
    (importPaths c) x (otherArgs c) (isLibrary c) (enableWholeModuleOptimization c) (numThreads c).
Definition set_otherArgs (x : list chars) (c : Swift) : Swift :=
  mkSwift (external c) (executable c) (moduleName c) (moduleAliases c) (moduleOutputPath c) (sourcesList c) (objectsList c)
    (importPaths c) (tempsPath c) x (isLibrary c) (enableWholeModuleOptimization c) (numThreads c).
Definition set_isLibrary (x : bool) (c : Swift) : Swift :=
  mkSwift (external c) (executable c) (moduleName c) (moduleAliases c) (moduleOutputPath c) (sourcesList c) (objectsList c)
    (importPaths c) (tempsPath c) (otherArgs c) x (enableWholeModuleOptimization c) (numThreads c).
Definition set_wmo (x : bool) (c : Swift) : Swift :=
  mkSwift (external c) (executable c) (moduleName c) (moduleAliases c) (moduleOutputPath c) (sourcesList c) (objectsList c)
    (importPaths c) (tempsPath c) (otherArgs c) (isLibrary c) x (numThreads c).
Definition set_numThreads (x : chars) (c : Swift) : Swift :=
  mkSwift (external c) (executable c) (moduleName c) (moduleAliases c) (moduleOutputPath c) (sourcesList c) (objectsList c)
    (importPaths c) (tempsPath c) (otherArgs c) (isLibrary c) (enableWholeModuleOptimization c) x.

(** ** The signature *)
Definition getSignature (node : nat -> BuildNode) (H : Hashes) (c : Swift) : Z :=
  let code := ExternalCommand.getSignature node H (external c) in
  let code := combine H (moduleName c) (combine H (executable c) code) in
  let code := combine H (moduleOutputPath c) (combineAll H (moduleAliases c) code) in
  let code := combineAll H (importPaths c) (combineAll H (objectsList c) (combineAll H (sourcesList c) code)) in
  combineBool H (isLibrary c) (combineAll H (otherArgs c) (combine H (tempsPath c) code)).

(** ** Configuration *)
Definition configureBool (name value : chars) (set : bool -> Swift) (c : Swift) : Configured Swift :=
  match parse_bool value with Some b => accepted (set b) | None => rejected (invalidValue value name) c end.

Definition configureAttribute (name value : chars) (c : Swift) : Configured Swift :=
  if is_text name "executable" then accepted (set_executable value c)
  else if is_text name "module-name" then accepted (set_moduleName value c)
  else if is_text name "module-output-path" then accepted (set_moduleOutputPath value c)
  else if is_text name "sources" then accepted (set_sourcesList (splitWords value) c)
  else if is_text name "objects" then accepted (set_objectsList (splitWords value) c)
  else if is_text name "import-paths" then accepted (set_importPaths (splitWords value) c)
  else if is_text name "temps-path" then accepted (set_tempsPath value c)
  else if is_text name "is-library" then configureBool name value (fun b => set_isLibrary b c) c
  else if is_text name "enable-whole-module-optimization" then configureBool name value (fun b => set_wmo b c) c
  else if is_text name "num-threads" then
    match getAsInt value with
    | None => rejected (quote name ++ chars_of " should be an int.") c
    | Some n =>
        if (n <? 0)%Z then rejected (quote name ++ chars_of " should be greater than or equal to zero.") c
        else accepted (set_numThreads value c)
    end
  else if is_text name "other-args" then accepted (set_otherArgs (splitWords value) c)
  else baseAttribute name value (external c) (fun x => set_external x c) c.
Definition configureListAttribute (name : chars) (values : list chars) (c : Swift) : Configured Swift :=
  if is_text name "sources" then accepted (set_sourcesList values c)
  else if is_text name "objects" then accepted (set_objectsList values c)
  else if is_text name "import-paths" then accepted (set_importPaths values c)
  else if is_text name "other-args" then accepted (set_otherArgs values c)
  else if is_text name "module-aliases" then accepted (set_moduleAliases values c)
  else unexpected name c.

(** ** The command line *)
Definition getOutputFileMapPath (c : Swift) : chars := append (append [] (tempsPath c)) (chars_of "output-file-map.json").

Definition prefixed (flag : string) (l : list chars) : list chars := concat (map (fun x => [chars_of flag; x]) l).

Definition constructCommandLineArgs (outputFileMapPath : chars) (c : Swift) : list chars :=
  [executable c; chars_of "-module-name"; moduleName c] ++ prefixed "-module-alias" (moduleAliases c)
  ++ [chars_of "-emit-dependencies"]
  ++ match moduleOutputPath c with
     | [] => []
     | p => [chars_of "-emit-module"; chars_of "-emit-module-path"; p]
     end
  ++ [chars_of "-output-file-map"; outputFileMapPath]
  ++ (if isLibrary c then [chars_of "-parse-as-library"] else [])
  ++ (if enableWholeModuleOptimization c
      then [chars_of "-whole-module-optimization"; chars_of "-num-threads"; numThreads c]
      else [chars_of "-incremental"])
  ++ [chars_of "-c"] ++ sourcesList c ++ prefixed "-I" (importPaths c) ++ otherArgs c.

Definition getShortDescription (c : Swift) : chars :=
  chars_of "Compiling Swift Module " ++ quote (moduleName c) ++ chars_of " ("
  ++ chars_of (pretty (length (sourcesList c))) ++ chars_of " sources)".
Definition getVerboseDescription (c : Swift) : chars :=
  describe (map quoteBlank (constructCommandLineArgs (getOutputFileMapPath c) c)).

(** ** The output file map *)

(** An entry: a source file, or the module for the empty name, and its files by kind. *)
Definition Entry : Type := chars * list (chars * chars).

Definition inTemps (c : Swift) (name : chars) : chars := append (append [] (tempsPath c)) name.

Definition moduleEntry (c : Swift) : Entry :=
  ([], (if enableWholeModuleOptimization c
        then [(chars_of "dependencies", inTemps c (moduleName c ++ chars_of ".d"));
              (chars_of "object", inTemps c (moduleName c ++ chars_of ".o"))]
        else [])
       ++ [(chars_of "swift-dependencies", inTemps c (chars_of "master.swiftdeps"))]).

Definition besideObject (source object : chars) (suffix : string) : chars :=
  append (append [] (parent_path object)) (stem source ++ chars_of suffix).

Definition sourceEntry (c : Swift) (source object : chars) : Entry :=
  (source, (if enableWholeModuleOptimization c then []
            else [(chars_of "dependencies", besideObject source object ".d")])
           ++ [(chars_of "object", object);
               (chars_of "swiftmodule", besideObject source object "~partial.swiftmodule");
               (chars_of "swift-dependencies", besideObject source object ".swiftdeps")]).

(** The text of a string, a member and an object; members are separated by commas. *)
Definition jsonString (s : chars) : chars := DQUOTE :: escapeForJSON s ++ [DQUOTE].
Definition jsonMember (m : chars * chars) : chars := chars_of "    " ++ jsonString m.1 ++ chars_of ": " ++ jsonString m.2.
Fixpoint separated (l : list chars) : chars :=
  match l with
  | [] => []
  | [x] => x ++ [LF]
  | x :: l' => x ++ "," %char :: LF :: separated l'
  end.
Definition jsonEntry (e : Entry) : chars :=
  chars_of "  " ++ jsonString e.1 ++ chars_of ": {" ++ [LF] ++ separated (map jsonMember e.2) ++ chars_of "  }".

Definition sourceEntries (c : Swift) : list Entry := zip_with (sourceEntry c) (sourcesList c) (objectsList c).

Definition outputFileMap (c : Swift) : chars :=
  ["{"%char; LF] ++ jsonEntry (moduleEntry c) ++ ["," %char; LF] ++ separated (map jsonEntry (sourceEntries c)) ++ ["}"%char; LF].

(** The dependency files the compiler is told to write. *)
Definition depsFiles (c : Swift) : list chars :=
  if enableWholeModuleOptimization c then [inTemps c (moduleName c ++ chars_of ".d")]
  else zip_with (fun s o => besideObject s o ".d") (sourcesList c) (objectsList c).

Definition writeOutputFileMap {W} (fs : FileSystem W) (path : chars) (c : Swift) (w : W)
  : outcome (list Effect * option (list chars) * W) :=
  if negb (length (sourcesList c) =? length (objectsList c)) then Crash (AssertFailed "sourcesList.size() == objectsList.size()")
  else
    let (ok, w') := writeFile fs path (outputFileMap c) w in
    Ok (if ok : bool then ([], Some (depsFiles c), w')
        else ([hadError (chars_of "unable to create output file map: " ++ quote path)], None, w')).

(** ** Dependencies *)

(** The constructor of [DepsActions] leaves its member [command] uninitialized. *)
Inductive CommandPointer := ThisCommand | Uninitialized.

(** The state of the parse actions is the number of the rule. *)
Definition onAction (depsPath : chars) (rule : nat) (a : MakefileDeps.Action) : list (CommandPointer * Effect) * nat * nat :=
  match a with
  | ParseError message _ =>
      ([(Uninitialized, hadError (chars_of "error reading dependency file '" ++ depsPath ++ chars_of "': " ++ chars_of message))],
       1, rule)
  | RuleDependency _ word =>
      (if rule =? 0 then [(ThisCommand, discovered (nodeKey word)); (Uninitialized, foundDiscovered word Shell.DInput)] else [], 0, rule)
  | RuleStart _ _ => ([], 0, rule)
  | RuleEnd => ([], 0, S rule)
  end.
Fixpoint onActions (depsPath : chars) (rule : nat) (l : list MakefileDeps.Action) : list (CommandPointer * Effect) * nat :=
  match l with
  | [] => ([], 0)
  | a :: l' =>
      let '(es, n, rule') := onAction depsPath rule a in
      let '(es', n') := onActions depsPath rule' l' in (es ++ es', n + n')
  end.
Definition processDiscoveredDependencies (contents : chars -> option chars) (depsPath : chars)
  : outcome (list (CommandPointer * Effect) * bool) :=
  match contents depsPath with
  | None => Ok ([(ThisCommand, hadError (chars_of "unable to open dependencies file (" ++ depsPath ++ chars_of ")"))], false)
  | Some input =>
      obind (MakefileDeps.parse false input) (fun l =>
      let (es, errors) := onActions depsPath 0 l in Ok (es, errors =? 0))
  end.
Fixpoint processDepsFiles (contents : chars -> option chars) (files : list chars)
  : outcome (list (CommandPointer * Effect) * bool) :=
  match files with
  | [] => Ok ([], true)
  | f :: files' =>
      obind (processDiscoveredDependencies contents f) (fun r =>
      if r.2 : bool then obind (processDepsFiles contents files') (fun r' => Ok (r.1 ++ r'.1, r'.2)) else Ok r)
  end.

(** ** Inputs *)
Definition versionInputID : Z := 2 ^ 64 - 1 - 255 - 1.
Definition versionKey (c : Swift) : outcome Key.Key :=
  Key.makeCustomTask (bytes_of (chars_of "swift-get-version")) (bytes_of (executable c)).

Section Inputs.
Context (node : nat -> BuildNode).
Definition start (c : Swift) : outcome (list (Key.Key * Z) * Swift) :=
  let '(requests, x) := ExternalCommand.start node (external c) in
  obind (versionKey c) (fun k =>
  Ok (map (fun r => (r.1, Z.of_nat r.2)) requests ++ [(k, versionInputID)], set_external x c)).
Definition provideValue (inputID : Z) (key : Key.Key) (v : BuildValue) (c : Swift) : outcome Swift :=
  if (inputID =? versionInputID)%Z then Ok c
  else obind (ExternalCommand.provideValue node (Z.to_nat inputID) key v (external c)) (fun x => Ok (set_external x c)).
End Inputs.

(** ** Execution *)
Definition missingParameter (c : Swift) : option string :=
  if decide (sourcesList c = []) then Some "no configured 'sources'"
  else if decide (objectsList c = []) then Some "no configured 'objects'"
  else if decide (moduleName c = []) then Some "no configured 'module-name'"
  else if decide (tempsPath c = []) then Some "no configured 'temps-path'"
  else if decide (length (sourcesList c) <> length (objectsList c)) then Some "'sources' and 'objects' are not the same size"
  else None.

(** The process to run, with the dependency files to read afterwards. *)
Definition executeExternalCommand {W} (fs : FileSystem W) (c : Swift) (w : W)
  : outcome (list Effect * Started * list chars * W) :=
  let failed := Finished (newProcessResult Failed) in
  match missingParameter c with
  | Some message => Ok ([systemError (chars_of message)], failed, [], w)
  | None =>
      let w1 := (createDirectories fs (tempsPath c) w).2 in
      let path := getOutputFileMapPath c in
      obind (writeOutputFileMap fs path c w1) (fun r =>
      let '(es, files, w2) := r in
      match files with
      | None => Ok (es, failed, [], w2)
      | Some l => Ok (es, Spawn (constructCommandLineArgs path c) [] interruptible, l, w2)
      end)
  end.
Definition afterProcess (contents : chars -> option chars) (st : ProcessStatus) (files : list chars)
  : outcome (list (CommandPointer * Effect) * ProcessResult) :=
  if negb (bool_decide (st = Succeeded)) then Ok ([], newProcessResult st)
  else obind (processDepsFiles contents files) (fun r => Ok (r.1, newProcessResult (if r.2 : bool then st else Failed))).
End Swift.
