(* ===== verification/SwiftProps.v ===== *)
(** * Properties of the Swift compiler command

    The output file map is JSON that says which files belong to which source, and the
    dependencies registered are those of the first rule of each dependency file. *)

From Stdlib Require Import Ascii String Lia ZArith.
From stdpp Require Import base gmap list strings numbers.
From S2P Require Import Prelude Chars NinjaPath Coding BuildValue BuildKey MakefileDeps Process BuildNode ExternalCommand ShellCommand BuildTasks BuildTools SwiftCompiler.

Local Open Scope nat_scope.

(** ** A reader of JSON strings and objects, from the grammar of RFC 8259 *)
Definition is_blank (c : ascii) : bool := (c =? " ")%char || (c =? LF)%char || (c =? TAB)%char || (c =? CR)%char.
Fixpoint skip_blanks (l : chars) : chars := match l with c :: l' => if is_blank c then skip_blanks l' else l | [] => [] end.

Definition hexValue (c : ascii) : option Z :=
  let n := byte_of c in
  if (48 <=? n)%Z && (n <=? 57)%Z then Some (n - 48)%Z
  else if (97 <=? n)%Z && (n <=? 102)%Z then Some (n - 87)%Z
  else if (65 <=? n)%Z && (n <=? 70)%Z then Some (n - 55)%Z else None.
(** The character with the code point; those beyond ASCII take several bytes and are not
    needed here. *)
Definition codePoint (a b c d : ascii) : option ascii :=
  match hexValue a, hexValue b, hexValue c, hexValue d with
  | Some a, Some b, Some c, Some d =>
      let n := (a * 4096 + b * 256 + c * 16 + d)%Z in if (n <? 128)%Z then Some (char_of n) else None
  | _, _, _, _ => None
  end.
Definition simpleEscape (c : ascii) : option ascii :=
  if (c =? DQUOTE)%char then Some DQUOTE else
  match c with
  | "\"%char => Some BACKSLASH | "/"%char => Some "/"%char
  | "b"%char => Some (char_of 8) | "f"%char => Some (char_of 12) | "n"%char => Some LF
  | "r"%char => Some CR | "t"%char => Some TAB | _ => None
  end.

(** After the opening quote: the text, and what follows the closing one. *)
Fixpoint parse_string (l : chars) : option (chars * chars) :=
  match l with
  | [] => None
  | c :: l' =>
      if (c =? DQUOTE)%char then Some ([], l')
      else if (c =? BACKSLASH)%char then
        match l' with
        | [] => None
        | e :: l1 =>
            if (e =? "u")%char then
              match l1 with
              | a :: b :: c :: d :: l2 =>
                  match codePoint a b c d, parse_string l2 with Some x, Some (s, r) => Some (x :: s, r) | _, _ => None end
              | _ => None
              end
            else match simpleEscape e, parse_string l1 with Some x, Some (s, r) => Some (x :: s, r) | _, _ => None end
        end
      else if (byte_of c <? 32)%Z then None
      else match parse_string l' with Some (s, r) => Some (c :: s, r) | None => None end
  end.

Inductive Json := JString (s : chars) | JObject (members : list (chars * Json)).

Fixpoint parse_value (fuel : nat) (l : chars) : option (Json * chars) :=
  match fuel with
  | O => None
  | S fuel' =>
      match skip_blanks l with
      | c :: r =>
          if (c =? DQUOTE)%char then match parse_string r with Some (s, r') => Some (JString s, r') | None => None end
          else if (c =? "{")%char then
            match skip_blanks r with
            | d :: r' =>
                if (d =? "}")%char then Some (JObject [], r')
                else match parse_members fuel' r with Some (ms, r'') => Some (JObject ms, r'') | None => None end
            | [] => None
            end
          else None
      | [] => None
      end
  end
with parse_members (fuel : nat) (l : chars) : option (list (chars * Json) * chars) :=
  match fuel with
  | O => None
  | S fuel' =>
      match skip_blanks l with
      | q :: r =>
          if (q =? DQUOTE)%char then
            match parse_string r with
            | Some (k, r1) =>
                match skip_blanks r1 with
                | colon :: r2 =>
                    if (colon =? ":")%char then
                      match parse_value fuel' r2 with
                      | Some (v, r3) =>
                          match skip_blanks r3 with
                          | e :: r4 =>
                              if (e =? ",")%char then
                                match parse_members fuel' r4 with Some (ms, r5) => Some ((k, v) :: ms, r5) | None => None end
                              else if (e =? "}")%char then Some ([(k, v)], r4) else None
                          | [] => None
                          end
                      | None => None
                      end
                    else None
                | [] => None
                end
            | None => None
            end
          else None
      | [] => None
      end
  end.

(** A whole text is one value with blanks around it. *)
Definition parse_json (l : chars) : option Json :=
  match parse_value (S (length l)) l with
  | Some (v, r) => match skip_blanks r with [] => Some v | _ => None end
  | None => None
  end.

(** ** Strings *)
Lemma parse_escaped_char c l :
  parse_string (escapeChar c ++ l) = match parse_string l with Some (s, r) => Some (c :: s, r) | None => None end.
Proof. destruct c as [[] [] [] [] [] [] [] []]; reflexivity. Qed.

Lemma parse_escaped s l : parse_string (escapeForJSON s ++ DQUOTE :: l) = Some (s, l).
Proof.
  induction s as [|c s IH]; [done|]. unfold escapeForJSON. cbn [map concat]. rewrite <- app_assoc, parse_escaped_char.
  fold (escapeForJSON s). by rewrite IH.
Qed.

(** ** Members *)
Definition members_json (l : list (chars * chars)) : list (chars * Json) := map (fun m => (m.1, JString m.2)) l.
Definition entry_json (e : Swift.Entry) : chars * Json := (e.1, JObject (members_json e.2)).

Import Swift.

Lemma separated_cons x y l : separated (x :: y :: l) = x ++ ","%char :: LF :: separated (y :: l).
Proof. done. Qed.

(** One member, followed by a comma or the end of the object. *)
Lemma parse_member fuel k v t (text rest : chars) (more : option (list (chars * Json) * chars)) :
  parse_value fuel text = Some (v, rest) ->
  match skip_blanks rest with
  | ","%char :: r => more = match parse_members fuel r with Some (ms, r') => Some ((k, v) :: ms, r') | None => None end
  | "}"%char :: r => more = Some ([(k, v)], r)
  | _ => False
  end ->
  (t = chars_of "    " \/ t = chars_of "  " \/ t = LF :: chars_of "    " \/ t = LF :: chars_of "  ") ->
  parse_members (S fuel) (t ++ jsonString k ++ ":"%char :: text) = more.
Proof.
  intros Hv Hm Ht. assert (Hs : forall l, skip_blanks (t ++ DQUOTE :: l) = DQUOTE :: l).
  { intros l. by destruct Ht as [->|[->|[->| ->]]]. }
  cbn [parse_members]. unfold jsonString. cbn [app]. rewrite Hs. rewrite Ascii.eqb_refl. rewrite <- app_assoc. cbn [app].
  rewrite parse_escaped. replace (skip_blanks (":"%char :: text)) with (":"%char :: text) by done. cbn [Ascii.eqb Bool.eqb].
  rewrite Hv. destruct (skip_blanks rest) as [|e r]; [done|].
  destruct e as [[] [] [] [] [] [] [] []]; try done; by rewrite Hm.
Qed.

Lemma parse_one_string fuel s r : parse_value (S fuel) (" "%char :: jsonString s ++ r) = Some (JString s, r).
Proof.
  unfold jsonString. cbn [app]. rewrite <- app_assoc. cbn [app parse_value].
  replace (skip_blanks (" "%char :: _)) with (DQUOTE :: escapeForJSON s ++ DQUOTE :: r) by done.
  cbn [Ascii.eqb Bool.eqb DQUOTE]. by rewrite parse_escaped.
Qed.

(** A list of members, each shown as an indentation, a key and a value. *)
Lemma parse_separated {A} (show key body : A -> chars) (val : A -> Json) (indent : chars) (N : nat) :
  indent = chars_of "    " \/ indent = chars_of "  " ->
  (forall a, show a = indent ++ jsonString (key a) ++ ":"%char :: body a) ->
  forall l, l <> [] ->
  (forall a fuel rest, a ∈ l -> N <= fuel -> parse_value fuel (body a ++ rest) = Some (val a, rest)) ->
  forall fuel pre tail rest, skip_blanks tail = "}"%char :: rest -> N + length l <= fuel -> pre = [] \/ pre = [LF] ->
  parse_members fuel (pre ++ separated (map show l) ++ tail) = Some (map (fun a => (key a, val a)) l, rest).
Proof.
  intros Hi Hshow l. induction l as [|a l IH]; [done|]. intros _ Hbody fuel pre tail rest Ht Hf Hpre.
  cbn [length] in Hf. destruct fuel as [|fuel]; [lia|].
  assert (Hind : pre ++ indent = chars_of "    " \/ pre ++ indent = chars_of "  "
                 \/ pre ++ indent = LF :: chars_of "    " \/ pre ++ indent = LF :: chars_of "  ").
  { destruct Hpre as [->| ->], Hi as [->| ->]; auto. }
  assert (Hsep : exists r, pre ++ separated (map show (a :: l)) ++ tail
                   = (pre ++ indent) ++ jsonString (key a) ++ ":"%char :: body a ++ r
                 /\ r = match l with [] => LF :: tail | _ => ","%char :: LF :: separated (map show l) ++ tail end).
  { eexists. split; [|done]. destruct l as [|b l]; cbn [map separated]; rewrite Hshow;
      by repeat (rewrite <- app_assoc || cbn [app]). }
  destruct Hsep as (r & -> & ->). eapply parse_member; [apply Hbody; [left|lia]| |exact Hind].
  destruct l as [|b l].
  - replace (skip_blanks (LF :: tail)) with (skip_blanks tail) by done. by rewrite Ht.
  - replace (skip_blanks _) with (","%char :: LF :: separated (map show (b :: l)) ++ tail) by done.
    assert (E : parse_members fuel ([LF] ++ separated (map show (b :: l)) ++ tail) = Some (map (fun a => (key a, val a)) (b :: l), rest)).
    { apply IH; [done| |done|cbn [length] in *; lia|by right]. intros a' f r Ha. apply Hbody. by right. }
    cbn [app] in E. by rewrite E.
Qed.

(** ** Entries *)
Definition entry_body (e : Entry) : chars := chars_of " {" ++ LF :: separated (map jsonMember e.2) ++ chars_of "  }".

Lemma separated_members_start m l tail : exists r, separated (map jsonMember (m :: l)) ++ tail = chars_of "    " ++ DQUOTE :: r.
Proof. destruct l; unfold jsonMember, jsonString; cbn; eauto. Qed.

Lemma parse_entry_body e fuel rest : e.2 <> [] -> length e.2 + 2 <= fuel ->
  parse_value fuel (entry_body e ++ rest) = Some (JObject (members_json e.2), rest).
Proof.
  intros He Hf. destruct fuel as [|fuel]; [lia|].
  assert (Hm : parse_members fuel (LF :: separated (map jsonMember e.2) ++ chars_of "  }" ++ rest) = Some (members_json e.2, rest)).
  { apply (parse_separated jsonMember fst (fun m => " "%char :: jsonString m.2) (fun m => JString m.2) (chars_of "    ") 1)
      with (pre := [LF]); try by auto.
    - intros a [|f] r _ H; [lia|]. apply parse_one_string.
    - lia. }
  unfold entry_body. rewrite <- app_assoc. cbn [app]. rewrite <- app_assoc.
  destruct e.2 as [|m l] eqn:El; [done|]. destruct (separated_members_start m l (chars_of "  }" ++ rest)) as [r Hr].
  rewrite Hr in *. cbn [parse_value chars_of String.list_ascii_of_string app].
  replace (skip_blanks (" "%char :: _)) with ("{"%char :: LF :: chars_of "    " ++ DQUOTE :: r) by done.
  replace (skip_blanks (LF :: chars_of "    " ++ DQUOTE :: r)) with (DQUOTE :: r) by done.
  cbn [Ascii.eqb Bool.eqb DQUOTE]. by rewrite Hm.
Qed.

(** ** The map *)
Definition map_entries (c : Swift) : list Entry := moduleEntry c :: sourceEntries c.

Lemma entry_fields c e : e ∈ map_entries c -> e.2 <> [] /\ length e.2 <= 4.
Proof.
  unfold map_entries, sourceEntries. rewrite elem_of_cons. intros [->|He].
  - unfold moduleEntry. destruct (enableWholeModuleOptimization c); cbn; split; done || lia.
  - apply elem_of_lookup_zip_with in He as (i & s & o & -> & _). unfold sourceEntry.
    destruct (enableWholeModuleOptimization c); cbn; split; done || lia.
Qed.

Lemma length_separated l : Forall (fun x => 8 <= length x) l -> 8 * length l <= length (separated l).
Proof.
  induction 1 as [|x l Hx Hl IH]; [cbn; lia|]. destruct l as [|y l]; cbn [separated length] in *; rewrite length_app; cbn [length] in *; lia.
Qed.

Lemma outputFileMap_members c : sourcesList c <> [] -> length (sourcesList c) = length (objectsList c) ->
  outputFileMap c = "{"%char :: LF :: separated (map jsonEntry (map_entries c)) ++ ["}"%char; LF].
Proof.
  intros Hs Hl. unfold outputFileMap, map_entries, sourceEntries.
  destruct (sourcesList c) as [|s ss], (objectsList c) as [|o os]; try done. cbn [zip_with map].
  rewrite separated_cons. repeat (rewrite <- app_assoc || cbn [app]). done.
Qed.

(** The output file map is JSON that reads back as the map it describes.  When there
    are sources, and as many objects, a reader of JSON takes the text the command writes
    apart into one entry for the module, under the empty name, and one for each source
    file, in order, with the paths of its files, whatever characters the names and paths
    contain. *)
Theorem output_file_map_reads_back c : sourcesList c <> [] -> length (sourcesList c) = length (objectsList c) ->
  parse_json (outputFileMap c) = Some (JObject (map entry_json (moduleEntry c :: sourceEntries c))).
Proof.
  intros Hs Hl. rewrite outputFileMap_members by done. fold (map_entries c). unfold parse_json.
  set (text := separated (map jsonEntry (map_entries c))).
  assert (Hlen : 8 * length (map_entries c) <= length text).
  { unfold text. rewrite <- (length_map jsonEntry). apply length_separated, Forall_map, Forall_forall. intros e _.
    unfold compose, jsonEntry, jsonString. rewrite !length_app. cbn. rewrite !length_app. cbn. lia. }
  assert (Hm : parse_members (S (length text + 3)) (LF :: text ++ ["}"%char; LF]) = Some (map entry_json (map_entries c), [LF])).
  { apply (parse_separated jsonEntry fst entry_body (fun e => JObject (members_json e.2))
      (chars_of "  ") 6) with (pre := [LF]); [by right| |done| |done| |by right].
    - intros e. unfold jsonEntry, entry_body. repeat (rewrite <- app_assoc || cbn [app chars_of String.list_ascii_of_string]). done.
    - intros e fuel rest He Hf. destruct (entry_fields c e He). apply parse_entry_body; [done|lia].
    - unfold map_entries in *. cbn [length] in *. lia. }
  replace (S (length ("{"%char :: LF :: text ++ ["}"%char; LF]))) with (S (S (length text + 3))) by (cbn [length]; rewrite length_app; cbn; lia).
  assert (Hstart : exists r, text ++ ["}"%char; LF] = chars_of "  " ++ DQUOTE :: r).
  { unfold text, map_entries. cbn [map]. destruct (sourceEntries c); unfold jsonEntry, jsonString; cbn; eauto. }
  destruct Hstart as [r Hr]. rewrite Hr in *.
  cbn [parse_value]. replace (skip_blanks ("{"%char :: _)) with ("{"%char :: LF :: chars_of "  " ++ DQUOTE :: r) by done.
  replace (skip_blanks (LF :: _)) with (DQUOTE :: r) by done. cbn [Ascii.eqb Bool.eqb DQUOTE]. by rewrite Hm.
Qed.

Definition swift_example (wmo : bool) : Swift :=
  mkSwift (newExternalCommand (chars_of "S")) (chars_of "swiftc") (chars_of "M") [] [] (map chars_of ["src/a.swift"; "b\.swift"])
    (map chars_of ["out/a.o"; "out/b.o"]) [] (chars_of "tmp") [] false wmo (chars_of "0").

Lemma output_file_map_reads_back_witness :
  parse_json (outputFileMap (swift_example false))
  = Some (JObject (map entry_json [
      ([], [(chars_of "swift-dependencies", chars_of "tmp/master.swiftdeps")]);
      (chars_of "src/a.swift", [(chars_of "dependencies", chars_of "out/a.d"); (chars_of "object", chars_of "out/a.o");
         (chars_of "swiftmodule", chars_of "out/a~partial.swiftmodule"); (chars_of "swift-dependencies", chars_of "out/a.swiftdeps")]);
      (chars_of "b\.swift", [(chars_of "dependencies", chars_of "out/b\.d"); (chars_of "object", chars_of "out/b.o");
         (chars_of "swiftmodule", chars_of "out/b\~partial.swiftmodule"); (chars_of "swift-dependencies", chars_of "out/b\.swiftdeps")])])).
Proof. apply (output_file_map_reads_back (swift_example false)); [discriminate|reflexivity]. Defined.

(** ** Dependencies *)

(** The words of the first rule. *)
Fixpoint first_rule (l : list MakefileDeps.Action) : list chars :=
  match l with
  | [] | RuleEnd :: _ => []
  | RuleDependency _ w :: l' => w :: first_rule l'
  | _ :: l' => first_rule l'
  end.
Definition discovered_keys (l : list (CommandPointer * Effect)) : list Key.Key :=
  omap (fun e => match e.2 with discovered k => Some k | _ => None end) l.
Definition parse_errors (l : list MakefileDeps.Action) : nat :=
  length (filter (fun a => match a with ParseError _ _ => true | _ => false end = true) l).

Lemma onActions_after path l : forall n, discovered_keys (onActions path (S n) l).1 = [] /\ (onActions path (S n) l).2 = parse_errors l.
Proof.
  induction l as [|a l IH]; intros n; [done|]. cbn [onActions]. unfold parse_errors in *.
  destruct a; cbn [onAction]; [specialize (IH n)|specialize (IH n)|specialize (IH (S n))|specialize (IH n)];
    destruct (onActions path _ l) as [es k]; destruct IH as [E1 E2]; cbn in *; rewrite E2; by split.
Qed.

(** Exactly the dependencies of the first rule are registered, and an error is reported
    exactly when the parser finds one. *)
Lemma first_rule_registered path l :
  discovered_keys (onActions path 0 l).1 = map nodeKey (first_rule l) /\ (onActions path 0 l).2 = parse_errors l.
Proof.
  induction l as [|a l IH]; [done|]. destruct a; cbn [onActions onAction first_rule].
  - destruct (onActions path 0 l) as [es k]; destruct IH as [E1 E2]; by split.
  - cbn [Nat.eqb]. destruct (onActions path 0 l) as [es k]; destruct IH as [E1 E2]. cbn in *. rewrite E1, E2. by split.
  - pose proof (onActions_after path l 0) as H. destruct (onActions path 1 l) as [es k]; destruct H as [E1 E2]. by split.
  - destruct (onActions path 0 l) as [es k]; destruct IH as [E1 E2]. cbn in *. rewrite E2. by split.
Qed.

(** The reports to the delegate name a command through an uninitialized pointer. *)
Example reports_name_no_command :
  (onActions (chars_of "a.d") 0 [RuleStart (chars_of "o") (chars_of "o"); RuleDependency (chars_of "h") (chars_of "h")]).1
  = [(ThisCommand, discovered (nodeKey (chars_of "h"))); (Uninitialized, foundDiscovered (chars_of "h") Shell.DInput)].
Proof. reflexivity. Qed.

(** Whole module optimization and the number of threads change the command line and the
    output file map, but not the signature. *)
Example swift_signature_ignores_wmo node H :
  getSignature node H (swift_example true) = getSignature node H (swift_example false)
  /\ constructCommandLineArgs (chars_of "map") (swift_example true) <> constructCommandLineArgs (chars_of "map") (swift_example false)
  /\ outputFileMap (swift_example true) <> outputFileMap (swift_example false).
Proof. split; [reflexivity|]. split; intros E; vm_compute in E; discriminate E. Qed.
