(* ===== verification/BuildCommands.v ===== *)
(** * Commands and tools

    The virtual functions of [Command] and [Tool] (lib/BuildSystem Command.h, Tool.h): a
    command is one of the classes of BuildTools.v, SwiftCompiler.v and ShellCommand.v, and
    each function dispatches on the class.  The tools and [BuildSystemFileDelegate::lookupTool]
    are those of lib/BuildSystem/BuildSystem.cpp; the client's own tools are not modelled. *)

From Stdlib Require Import Ascii String Lia ZArith.
From stdpp Require Import base gmap list strings numbers.
From S2P Require Import Prelude Chars NinjaPath Coding BuildValue BuildKey Process BuildNode ExternalCommand ShellCommand BuildTasks BuildTools SwiftCompiler.

Local Open Scope nat_scope.

Inductive Command :=
| ShellC (c : Shell.ShellCommand)
| PhonyC (c : ExternalCommand)
| ClangC (c : Clang.Clang)
| MkdirC (c : ExternalCommand)
| SymlinkC (c : Symlink.Symlink)
| ArchiveC (c : Archive.Archive)
| SharedLibraryC (c : SharedLibrary.SharedLibrary)
| StaleC (c : StaleFileRemoval.StaleFileRemoval)
| SwiftC (c : Swift.Swift)
| SwiftVersionC (c : SwiftGetVersion.SwiftGetVersion).

(** The subobject of the base class [ExternalCommand]. *)
Definition externalOf (c : Command) : option ExternalCommand :=
  match c with
  | ShellC c => Some (Shell.external c)
  | PhonyC x | MkdirC x => Some x
  | ClangC c => Some (Clang.external c)
  | ArchiveC c => Some (Archive.external c)
  | SharedLibraryC c => Some (SharedLibrary.external c)
  | SwiftC c => Some (Swift.external c)
  | SymlinkC _ | StaleC _ | SwiftVersionC _ => None
  end.
Definition set_externalOf (x : ExternalCommand) (c : Command) : Command :=
  match c with
  | ShellC c => ShellC (Shell.set_external x c)
  | PhonyC _ => PhonyC x
  | MkdirC _ => MkdirC x
  | ClangC c => ClangC (Clang.set_external x c)
  | ArchiveC c => ArchiveC (Archive.set_external x c)
  | SharedLibraryC c => SharedLibraryC (SharedLibrary.set_external x c)
  | SwiftC c => SwiftC (Swift.set_external x c)
  | SymlinkC _ | StaleC _ | SwiftVersionC _ => c
  end.

Definition getName (c : Command) : chars :=
  match c with
  | SymlinkC c => Symlink.name c
  | StaleC c => StaleFileRemoval.name c
  | SwiftVersionC c => SwiftGetVersion.name
  | _ => match externalOf c with Some x => cmdName x | None => [] end
  end.
Definition getOutputs (c : Command) : list nat :=
  match c with SymlinkC c => Symlink.outputs c | _ => match externalOf c with Some x => outputs x | None => [] end end.

Definition getInputs (c : Command) : list nat :=
  match c with SymlinkC c => Symlink.inputs c | _ => match externalOf c with Some x => inputs x | None => [] end end.
Definition isExternalCommand (c : Command) : bool := match externalOf c with Some _ => true | None => false end.
Definition isRepaired (c : Command) : bool :=
  match c with
  | SymlinkC c => Symlink.repairViaOwnershipAnalysis c
  | _ => match externalOf c with Some x => repairViaOwnershipAnalysis x | None => false end
  end.
(** The command's half of [addOutput]; the caller records the command with the node. *)
Definition addOutput (n : nat) (c : Command) : Command :=
  match c with
  | SymlinkC s =>
      SymlinkC (Symlink.mkSymlink (Symlink.name s) (Symlink.linkOutputPath s) (Symlink.description s) (Symlink.linkContents s)
                  (Symlink.inputs s) (Symlink.outputs s ++ [n]) (Symlink.repairViaOwnershipAnalysis s))
  | _ => match externalOf c with Some x => set_externalOf (upd_outputs (fun l => l ++ [n]) x) c | None => c end
  end.

Definition map_configured {C D} (f : C -> D) (r : Configured C) : Configured D := let '(es, ok, c) := r in (es, ok, f c).
Definition of_error {C} (r : option chars * C) : Configured C :=
  match r.1 with None => accepted r.2 | Some e => rejected e r.2 end.
Definition of_outcome {C} (r : chars + C) (c : C) : Configured C :=
  match r with inl e => rejected e c | inr c' => accepted c' end.

Section Commands.
Context (H : Hashes) (cwd : chars) (node : nat -> BuildNode).

(** ** Configuration *)
Definition configureDescription (value : chars) (c : Command) : Command :=
  match c with
  | SymlinkC c => SymlinkC (Symlink.configureDescription value c)
  | StaleC c => StaleC (StaleFileRemoval.configureDescription value c)
  | SwiftVersionC _ => c
  | _ => match externalOf c with Some x => set_externalOf (ExternalCommand.configureDescription value x) c | None => c end
  end.

(** The errors reported, and the command. *)
Definition configureInputs (value : list nat) (c : Command) : list chars * Command :=
  match c with
  | SymlinkC c => ([], SymlinkC (Symlink.configureInputs value c))
  | ArchiveC c => prod_map id ArchiveC (Archive.configureInputs node value c)
  | SharedLibraryC c => prod_map id SharedLibraryC (SharedLibrary.configureInputs node value c)
  | StaleC _ | SwiftVersionC _ => ([], c)
  | _ => ([], match externalOf c with Some x => set_externalOf (ExternalCommand.configureInputs value x) c | None => c end)
  end.
Definition configureOutputs (value : list nat) (c : Command) : list chars * Command :=
  match c with
  | SymlinkC c => prod_map id SymlinkC (Symlink.configureOutputs node value c)
  | ArchiveC c => prod_map id ArchiveC (Archive.configureOutputs node value c)
  | SharedLibraryC c => prod_map id SharedLibraryC (SharedLibrary.configureOutputs node value c)
  | StaleC _ | SwiftVersionC _ => ([], c)
  | _ => ([], match externalOf c with Some x => set_externalOf (ExternalCommand.configureOutputs value x) c | None => c end)
  end.

Definition configureScalar (name value : chars) (c : Command) : Configured Command :=
  match c with
  | ShellC s => map_configured ShellC (of_error (Shell.configureAttribute cwd name value s))
  | PhonyC x => map_configured PhonyC (of_outcome (ExternalCommand.configureAttribute name value x) x)
  | MkdirC x => map_configured MkdirC (of_outcome (ExternalCommand.configureAttribute name value x) x)
  | ClangC s => map_configured ClangC (Clang.configureAttribute name value s)
  | SymlinkC s => map_configured SymlinkC (Symlink.configureAttribute name value s)
  | ArchiveC s =>
      map_configured ArchiveC (baseAttribute name value (Archive.external s) (fun x => Archive.set_external x s) s)
  | SharedLibraryC s => map_configured SharedLibraryC (SharedLibrary.configureAttribute name value s)
  | StaleC s => map_configured StaleC (StaleFileRemoval.configureAttribute name s)
  | SwiftC s => map_configured SwiftC (Swift.configureAttribute name value s)
  | SwiftVersionC _ => unexpected name c
  end.
Definition configureList (name : chars) (values : list chars) (c : Command) : Configured Command :=
  match c with
  | ShellC s => map_configured ShellC (of_error (Shell.configureListAttribute name values s))
  | ClangC s => map_configured ClangC (Clang.configureListAttribute name values s)
  | SharedLibraryC s => map_configured SharedLibraryC (SharedLibrary.configureListAttribute name values s)
  | StaleC s => map_configured StaleC (StaleFileRemoval.configureListAttribute name values s)
  | SwiftC s => map_configured SwiftC (Swift.configureListAttribute name values s)
  | PhonyC _ | MkdirC _ | SymlinkC _ | ArchiveC _ | SwiftVersionC _ => unexpected name c
  end.
Definition configurePairs (name : chars) (values : list (chars * chars)) (c : Command) : Configured Command :=
  match c with
  | ShellC s => map_configured ShellC (of_error (Shell.configurePairsAttribute name values s))
  | _ => unexpected name c
  end.
Definition configureEnvironmentBase (base : list (chars * chars)) (c : Command) : bool * Command :=
  match c with ShellC s => (true, ShellC (Shell.configureEnvironmentBase base s)) | _ => (false, c) end.

(** ** The functions of a command *)
Definition getSignature (c : Command) : outcome Z :=
  match c with
  | ShellC s => Ok (Shell.getSignature H node s).1
  | PhonyC x | MkdirC x => Ok (ExternalCommand.getSignature node H x)
  | ClangC s => Ok (Clang.getSignature node H s)
  | SymlinkC s => Symlink.getSignature node H s
  | ArchiveC s => Ok (ExternalCommand.getSignature node H (Archive.external s))
  | SharedLibraryC s => Ok (SharedLibrary.getSignature node H s)
  | StaleC s => Ok (combine H (StaleFileRemoval.name s) nullSignature)
  | SwiftC s => Ok (Swift.getSignature node H s)
  | SwiftVersionC s => Ok (SwiftGetVersion.getSignature H s)
  end.

Definition getResultForOutput (c : Command) (n : nat) (v : BuildValue) : outcome BuildValue :=
  match c with
  | PhonyC x => Phony.getResultForOutput node n v x
  | SymlinkC s => Symlink.getResultForOutput v s
  | StaleC s => StaleFileRemoval.getResultForOutput v s
  | SwiftVersionC s => SwiftGetVersion.getResultForOutput n v s
  | _ => match externalOf c with Some x => ExternalCommand.getResultForOutput node n v x | None => Crash (AssertFailed "Command") end
  end.

Definition isResultValid (link fs : chars -> FileInfo) (v : BuildValue) (c : Command) : outcome bool :=
  match c with
  | MkdirC x => Mkdir.isResultValid node fs v x
  | SymlinkC s => Symlink.isResultValid node link v s
  | StaleC s => Ok (StaleFileRemoval.isResultValid v s)
  | SwiftVersionC s => Ok (SwiftGetVersion.isResultValid v s)
  | _ => match externalOf c with Some x => ExternalCommand.isResultValid node fs v x | None => Ok false end
  end.

Definition checksDependencies (c : Command) : bool :=
  match externalOf c with Some x => checksDependenciesBeforeRunning x | None => false end.
Definition mustCheckDependency (key : Key.Key) (c : Command) : bool :=
  match externalOf c with Some x => mustCheckDependencyBeforeRunning key x | None => false end.

Definition requests (l : list (Key.Key * nat)) : list Call := map (fun r => request r.1 (Z.of_nat r.2)) l.

Definition startCommand (c : Command) : outcome (list Call * Command) :=
  match c with
  | SymlinkC s => Ok (map mustFollow (Symlink.start node s), c)
  | StaleC _ | SwiftVersionC _ => Ok ([], c)
  | SwiftC s => obind (Swift.start node s) (fun r => Ok (map (fun q => request q.1 q.2) r.1, SwiftC r.2))
  | _ =>
      match externalOf c with
      | Some x => let (l, x') := ExternalCommand.start node x in Ok (requests l, set_externalOf x' c)
      | None => Ok ([], c)
      end
  end.

Definition providePriorValue (v : BuildValue) (c : Command) : outcome Command :=
  match c with
  | StaleC s => obind (StaleFileRemoval.providePriorValue v s) (fun s' => Ok (StaleC s'))
  | SymlinkC _ | SwiftVersionC _ => Ok c
  | _ => Ok (match externalOf c with Some x => set_externalOf (ExternalCommand.providePriorValue v x) c | None => c end)
  end.

Definition provideValue (inputID : Z) (key : Key.Key) (v : BuildValue) (c : Command) : outcome (list Call * Command) :=
  match c with
  | SymlinkC s => obind (Symlink.provideValue s) (fun s' => Ok ([], SymlinkC s'))
  | StaleC s => obind (StaleFileRemoval.provideValue s) (fun s' => Ok ([], StaleC s'))
  | SwiftVersionC _ => Ok ([], c)
  | SwiftC s => obind (Swift.provideValue node inputID key v s) (fun s' => Ok ([], SwiftC s'))
  | _ =>
      match externalOf c with
      | Some x => obind (ExternalCommand.provideValue node (Z.to_nat inputID) key v x) (fun x' => Ok ([], set_externalOf x' c))
      | None => Ok ([], c)
      end
  end.

Definition commandOps (link : chars -> FileInfo) : CommandOps Command :=
  mkCommandOps Command getSignature startCommand providePriorValue provideValue getResultForOutput
    (isResultValid link) checksDependencies mustCheckDependency.

(** ** Execution *)
Section Execution.
Context {W : Type} (fs : FileSystem W) (strerror : Z -> chars) (popen : chars -> option chars) (ar : option chars).

Inductive Run :=
| Complete (v : BuildValue)
| Running (argv : list chars) (env : list (chars * chars)) (attr : ProcessAttributes) (depsFiles : list chars).

(** [executeExternalCommand]. *)
Definition executeExternalCommand (c : Command) (w : W) : outcome (list Effect * Started * list chars * W) :=
  match c with
  | ShellC s =>
      match Shell.executeExternalCommand s with
      | Shell.spawn argv env attr => Ok ([], Spawn argv env attr, [], w)
      | _ => Crash (AssertFailed "Shell")
      end
  | PhonyC x => Ok ([], Phony.executeExternalCommand x, [], w)
  | ClangC s => Ok ([], Clang.executeExternalCommand s, [], w)
  | MkdirC x => obind (Mkdir.executeExternalCommand node fs x w) (fun r => Ok (r.1, [], r.2))
  | ArchiveC s => let (st, w') := Archive.executeExternalCommand fs ar s w in Ok ([], st, [], w')
  | SharedLibraryC s => Ok ([], SharedLibrary.executeExternalCommand s, [], w)
  | SwiftC s => Swift.executeExternalCommand fs s w
  | SymlinkC _ | StaleC _ | SwiftVersionC _ => Crash (AssertFailed "Command")
  end.

Definition createAll (l : list chars) (w : W) : W := foldl (fun w d => (createDirectories fs d w).2) w l.

(** [ExternalCommand::execute], up to the end of the process if one is started. *)
Definition executeExternal (epoch : Z) (c : Command) (x : ExternalCommand) (w : W) : outcome (list Effect * Run * W) :=
  obind (ExternalCommand.execute node (fileInfoOf fs w) epoch x) (fun e =>
  match e with
  | Immediate calls v => Ok (map delegateCall calls, Complete v, w)
  | Launch calls directories =>
      obind (executeExternalCommand c (createAll directories w)) (fun r =>
      let '(es, st, files, w') := r in
      match st with
      | Spawn argv env attr => Ok (map delegateCall calls ++ es, Running argv env attr files, w')
      | Finished result =>
          obind (ExternalCommand.complete node (fileInfoOf fs w') epoch (status result) x) (fun r' =>
          Ok (map delegateCall calls ++ es ++ map delegateCall r'.1, Complete r'.2, w'))
      end)
  end).

Definition execute (epoch : Z) (c : Command) (w : W) : outcome (list Effect * Run * Command * W) :=
  match c with
  | SymlinkC s =>
      obind (Symlink.execute node fs s w) (fun r => let '(es, v, w') := r in Ok (es, Complete v, c, w'))
  | StaleC s =>
      obind (StaleFileRemoval.execute fs strerror s w) (fun r => let '(es, v, s', w') := r in Ok (es, Complete v, StaleC s', w'))
  | SwiftVersionC s => obind (SwiftGetVersion.execute popen H s) (fun v => Ok ([], Complete v, c, w))
  | _ =>
      match externalOf c with
      | Some x => obind (executeExternal epoch c x w) (fun r => let '(es, run, w') := r in Ok (es, run, c, w'))
      | None => Crash (AssertFailed "Command")
      end
  end.

(** What a shell command's completion does, and the result it ends with. *)
Fixpoint shellEffects (l : list Shell.Call) : list Effect * option ProcessResult :=
  match l with
  | [] => ([], None)
  | Shell.completion r :: _ => ([], Some r)
  | call :: l' =>
      let e := match call with
        | Shell.discoveredDependency k => [discovered k]
        | Shell.commandFoundDiscoveredDependency p kind => [foundDiscovered p kind]
        | Shell.commandHadError m => [hadError m]
        | Shell.spawn _ _ _ | Shell.completion _ => []
        end in
      let (es, r) := shellEffects l' in (e ++ es, r)
  end.

(** The completion function of the process, up to that of [ExternalCommand]. *)
Definition afterProcess (result : ProcessResult) (depsFiles : list chars) (c : Command) (w : W)
  : outcome (list Effect * ProcessResult) :=
  match c with
  | ShellC s =>
      obind (Shell.commandCompletion cwd (fileContents fs w) s result) (fun l =>
      match shellEffects l with (es, Some r) => Ok (es, r) | (_, None) => Crash (AssertFailed "completionFn") end)
  | ClangC s => Clang.afterProcess (fileContents fs w) result s
  | SwiftC s =>
      obind (Swift.afterProcess (fileContents fs w) (status result) depsFiles) (fun r => Ok (map snd r.1, r.2))
  | _ => Ok ([], result)
  end.

Definition finish (epoch : Z) (result : ProcessResult) (depsFiles : list chars) (c : Command) (w : W)
  : outcome (list Effect * BuildValue) :=
  match externalOf c with
  | Some x =>
      obind (afterProcess result depsFiles c w) (fun r =>
      obind (ExternalCommand.complete node (fileInfoOf fs w) epoch (status r.2) x) (fun r' =>
      Ok (r.1 ++ map delegateCall r'.1, r'.2)))
  | None => Crash (AssertFailed "Command")
  end.
End Execution.
End Commands.

(** ** Tools *)
Inductive Tool :=
| ShellTool (controlEnabled : bool)
| PhonyTool | ClangTool | MkdirTool
| SymlinkTool (repairViaOwnershipAnalysis : bool)
| ArchiveTool | SharedLibraryTool | StaleFileRemovalTool | SwiftCompilerTool.

Definition lookupTool (name : chars) : option Tool :=
  if is_text name "shell" then Some (ShellTool true)
  else if is_text name "phony" then Some PhonyTool
  else if is_text name "clang" then Some ClangTool
  else if is_text name "mkdir" then Some MkdirTool
  else if is_text name "symlink" then Some (SymlinkTool false)
  else if is_text name "archive" then Some ArchiveTool
  else if is_text name "shared-library" then Some SharedLibraryTool
  else if is_text name "stale-file-removal" then Some StaleFileRemovalTool
  else if is_text name "swift-compiler" then Some SwiftCompilerTool
  else None.

Definition configureTool (name value : chars) (t : Tool) : Configured Tool :=
  match t with
  | ShellTool _ =>
      if is_text name "control-enabled" then
        match parse_bool value with Some b => accepted (ShellTool b) | None => rejected (invalidValue value name) t end
      else unexpected name t
  | SymlinkTool _ =>
      if is_text name "repair-via-ownership-analysis" then
        match parse_bool value with
        | Some b => accepted (SymlinkTool b)
        | None => rejected (chars_of "invalid value for attribute: " ++ quote name) t
        end
      else unexpected name t
  | _ => unexpected name t
  end.
(** Lists and pairs are never accepted. *)
Definition configureToolOther (name : chars) (t : Tool) : Configured Tool := unexpected name t.

Definition createCommand (name : chars) (t : Tool) : Command :=
  match t with
  | ShellTool control => ShellC (Shell.newShellCommand name control)
  | PhonyTool => PhonyC (newExternalCommand name)
  | ClangTool => ClangC (Clang.new name)
  | MkdirTool => MkdirC (newExternalCommand name)
  | SymlinkTool repair => SymlinkC (Symlink.new name repair)
  | ArchiveTool => ArchiveC (Archive.new name)
  | SharedLibraryTool => SharedLibraryC (SharedLibrary.new name)
  | StaleFileRemovalTool => StaleC (StaleFileRemoval.new name)
  | SwiftCompilerTool => SwiftC (Swift.new name)
  end.

Definition createCustomCommand (key : Key.Key) (t : Tool) : outcome (option Command) :=
  match t with
  | SwiftCompilerTool =>
      obind (Key.getCustomTaskName key) (fun name =>
      if is_text (chars_of_bytes name) "swift-get-version"
      then obind (SwiftGetVersion.new key) (fun c => Ok (Some (SwiftVersionC c)))
      else Ok None)
  | _ => Ok None
  end.
