(* ===== verification/BuildClient.v ===== *)
(** * The build system as a client of the build engine

    The build engine calls its client through the interfaces [Task], [Rule] and
    [BuildEngineDelegate]; Engine.v has them as the record [Client].  Here they are
    implemented by the rules and tasks of the build system, so that what is proved of the
    engine for any client that respects its protocol holds of builds of the build system.

    The engine's keys are strings, those of the build system bytes.  A failed assertion in a
    callback ends the program.  The engine's interface has no such outcome: the client notes it
    in [faults], and [system_step] and [buildSystemKey] end with it as soon as the engine
    returns, so that nothing is said of what would come after.  The job of a command runs on the execution queue: it is recorded in [jobs], and
    its completion is one of the calls of other threads that the engine's transition system
    allows at any time. *)

From Stdlib Require Import Ascii String Lia ZArith.
From stdpp Require Import base gmap list strings numbers.
From S2P Require Import Prelude DepKeys Engine EngineInv EngineSafety EngineCycle EngineRun Chars NinjaPath Coding BuildValue BuildKey Process BuildNode ExternalCommand ShellCommand BuildTools SwiftCompiler BuildCommands BuildTasks BuildRules.

Local Open Scope nat_scope.

Definition key_bytes (k : KeyID) : Key.Key := bytes_of (String.list_ascii_of_string k).
Definition string_of_key (k : Key.Key) : KeyID := String.string_of_list_ascii (chars_of_bytes k).

Definition task_call (c : Call) : option TaskCall :=
  match c with
  | request k i => Some (CallRequest (string_of_key k) i)
  | mustFollow k => Some (CallMustFollow (string_of_key k))
  | completeTask v f => Some (CallComplete v f)
  | spawnCommand _ | notify _ => None
  end.
Definition task_calls (l : list Call) : list TaskCall := omap task_call l.
Definition notes_of (l : list Call) : list Note := omap (fun c => match c with notify n => Some n | _ => None end) l.
Definition jobs_of (t : TaskID) (l : list Call) : list (TaskID * CommandRef) :=
  omap (fun c => match c with spawnCommand x => Some (t, x) | _ => None end) l.

Section Client.
Context {C : Type} (ops : CommandOps C) (H : TreeHashes) (hashes : Hashes) (desc : Description (C := C)).

Record World := mkWorld {
  delegate : Delegate (C := C);
  actions : gmap KeyID RuleAction;
  tasks : gmap TaskID Task;
  system : Sys;
  notes : list Note;
  jobs : list (TaskID * CommandRef);
  faults : list fault;
  errors : list string;
  clock : Z;
  buildWasAborted : bool }.

Definition set_delegate (d : Delegate (C := C)) (w : World) : World :=
  mkWorld d (actions w) (tasks w) (system w) (notes w) (jobs w) (faults w) (errors w) (clock w) (buildWasAborted w).
Definition set_action (k : KeyID) (a : RuleAction) (w : World) : World :=
  mkWorld (delegate w) (<[k := a]> (actions w)) (tasks w) (system w) (notes w) (jobs w) (faults w) (errors w) (clock w) (buildWasAborted w).
Definition set_task (t : TaskID) (x : Task) (w : World) : World :=
  mkWorld (delegate w) (actions w) (<[t := x]> (tasks w)) (system w) (notes w) (jobs w) (faults w) (errors w) (clock w) (buildWasAborted w).
Definition add_fault (f : fault) (w : World) : World :=
  mkWorld (delegate w) (actions w) (tasks w) (system w) (notes w) (jobs w) (f :: faults w) (errors w) (clock w) (buildWasAborted w).
Definition add_error (e : string) (w : World) : World :=
  mkWorld (delegate w) (actions w) (tasks w) (system w) (notes w) (jobs w) (faults w) (e :: errors w) (clock w) (buildWasAborted w).
Definition set_aborted (b : bool) (w : World) : World :=
  mkWorld (delegate w) (actions w) (tasks w) (system w) (notes w) (jobs w) (faults w) (errors w) (clock w) b.
Definition tick (w : World) : World :=
  mkWorld (delegate w) (actions w) (tasks w) (system w) (notes w) (jobs w) (faults w) (errors w) (clock w + 1)%Z (buildWasAborted w).
Definition log_calls (t : TaskID) (l : list Call) (w : World) : World :=
  mkWorld (delegate w) (actions w) (tasks w) (system w) (notes w ++ notes_of l) (jobs w ++ jobs_of t l) (faults w)
    (errors w) (clock w) (buildWasAborted w).
Definition set_commands (st : gmap CommandRef C) (w : World) : World :=
  let d := delegate w in
  set_delegate (mkDelegate (nodes d) (dynamicNodes d) (dynamicStatNodes d) st (customTasks d)) w.

(** The first assertion of a callback that failed. *)
Definition fault_of (w : World) : option fault := list.last (faults w).
Definition abortOnFault {A} (world_of : A -> World) (o : outcome A) : outcome A :=
  obind o (fun a => match fault_of (world_of a) with Some e => Crash e | None => Ok a end).

Definition world_node (w : World) : nat -> BuildNode := node_of (delegate w).

(** A callback on the task object [t]. *)
Definition on_task (t : TaskID) (f : Task -> Step (C := C)) (w : World) : list TaskCall * World :=
  match tasks w !! t with
  | None => ([], add_fault (UseAfterFree "Task") w)
  | Some x =>
      match f x with
      | Ok (calls, x', st) => (task_calls calls, log_calls t calls (set_task t x' (set_commands st w)))
      | Crash e => ([], add_fault e w)
      end
  end.

(** [BuildSystemEngineDelegate::lookupRule]. *)
Definition client_lookupRule (k : KeyID) (w : World) : Rule * World :=
  match lookupRule ops hashes desc (key_bytes k) (delegate w) with
  | Ok (a, sig, d) => (mkRule k sig, set_action k a (set_delegate d w))
  | Crash e => (mkRule k 0%Z, add_fault e w)
  end.
(** [BuildSystemRule::createTask]. *)
Definition client_createTask (r : Rule) (t : TaskID) (w : World) : World :=
  match actions w !! rule_key r with
  | None => add_fault (UseAfterFree "Rule") w
  | Some a => match createTask (delegate w) a with Ok x => set_task t x w | Crash e => add_fault e w end
  end.
(** [BuildSystemRule::isResultValid]. *)
Definition client_isResultValid (r : Rule) (v : ValueType) (w : World) : bool * World :=
  match actions w !! rule_key r with
  | None => (false, add_fault (UseAfterFree "Rule") w)
  | Some a => match isResultValid ops (system w) (delegate w) a v with Ok b => (b, w) | Crash e => (false, add_fault e w) end
  end.

Definition client_start (t : TaskID) (w : World) : list TaskCall * World :=
  on_task t (fun x => start ops (system w) (world_node w) x (commands (delegate w))) w.
Definition client_providePriorValue (t : TaskID) (v : ValueType) (w : World) : list TaskCall * World :=
  on_task t (fun x => providePriorValue ops v x (commands (delegate w))) w.
Definition client_provideValue (t : TaskID) (i : Z) (k : KeyID) (v : ValueType) (w : World) : list TaskCall * World :=
  on_task t (fun x => provideValue ops (world_node w) i (key_bytes k) v x (commands (delegate w))) w.
Definition client_inputsAvailable (t : TaskID) (w : World) : list TaskCall * World :=
  on_task t (fun x => obind (inputsAvailable H (system w) (world_node w) x) (fun calls => Ok (calls, x, commands (delegate w)))) w.

(** [CommandRule::checksDependenciesBeforeRunning] has no access to the world in the
    engine's interface: commands are configured before the build. *)
Definition command_of_key (d : Delegate (C := C)) (k : KeyID) : option C :=
  match Key.getKind (key_bytes k) with
  | Key.Command => commands d !! inl (chars_of_bytes (tail (key_bytes k)))
  | _ => None
  end.
Definition client_checksBefore (d : Delegate (C := C)) (r : Rule) : bool :=
  match command_of_key d (rule_key r) with Some x => checksBeforeRunning ops x | None => false end.
Definition client_mustCheck (r : Rule) (k : KeyID) (w : World) : bool * World :=
  (match command_of_key (delegate w) (rule_key r) with Some x => mustCheckBeforeRunning ops (key_bytes k) x | None => false end, w).

(** The client, for a description whose delegate is [d] at the start of the build.
    [shouldResolve] is the answer of the frontend's delegate. *)
Definition buildSystemClient (d : Delegate (C := C)) (shouldResolve : bool) (database : option (BuildDB (W := World))) : Client (W := World) :=
  mkClient client_lookupRule (fun _ _ _ w => w) (fun _ _ _ w => (shouldResolve, w))
    (fun cycle w => set_aborted true w) (fun e w => add_error e w) client_createTask client_isResultValid
    (fun _ _ w => w) (client_checksBefore d) client_mustCheck client_start client_providePriorValue client_provideValue
    client_inputsAvailable (fun w => (clock w, tick w)) database.

(** ** Building a key *)
Section Build.
Context (client : Client (W := World)).

(** [BuildSystemImpl::build(BuildKey)]: [limitRaised] tells whether the limit of open files
    could be raised.  The empty value of a failed build is read as an invalid value. *)
Definition buildSystemKey (limitRaised : bool) (fuel : nat) (sched : nat -> list (EnvEvent (W := World))) (key : Key.Key)
  : M (State (W := World)) (option BuildValue) :=
  if negb limitRaised then client_notify (add_error "failed to raise open file limit") ;;; ret None
  else
    client_notify (set_aborted false) ;;;
    v <~ (fun s => abortOnFault (fun r => world r.2) (build client fuel sched (string_of_key key) s));
    aborted <~ gets (fun s => buildWasAborted (world s));
    if aborted : bool then ret None
    else match Value.fromData v with Ok x => ret (Some x) | Crash e => fail e end.

(** [BuildSystemImpl::build(StringRef)], once a description is loaded. *)
Definition buildSystemTarget (defaultTarget : chars) (limitRaised : bool) (fuel : nat) (sched : nat -> list (EnvEvent (W := World)))
    (target : chars) : M (State (W := World)) bool :=
  let target := match target with [] => defaultTarget | _ => target end in
  match targets desc !! target with
  | None => client_notify (add_error "No target in build description") ;;; ret false
  | Some _ =>
      r <~ buildSystemKey limitRaised fuel sched (Key.makeTarget (bytes_of target));
      ret (match r with Some _ => true | None => false end)
  end.
End Build.

(** ** Steps *)
Section Steps.
Context (client : Client (W := World)).

(** A step of the engine thread in which no assertion of a callback fails. *)
Definition system_step (key : KeyID) (c : Config (W := World)) : outcome (Config (W := World)) :=
  abortOnFault (fun c => world (engine c)) (step client key c).
(** What the engine thread and the jobs of the execution queue can reach while the program runs. *)
Inductive system_reachable (key : KeyID) (s0 : State (W := World)) : Config (W := World) * gset TaskID -> Prop :=
| system_start s : abortOnFault (fun r => world r.2) (start_execution client key s0) = Ok (tt, s) -> system_reachable key s0 (mkConfig LoopTop false s, ∅)
| system_engine c X c' : system_reachable key s0 (c, X) -> system_step key c = Ok c' -> system_reachable key s0 (c', note_completed X (engine c'))
| system_event c X e s' : system_reachable key s0 (c, X) -> allowed X (engine c) e ->
    abortOnFault (fun r => world r.2) (env_event client e (engine c)) = Ok (tt, s') ->
    system_reachable key s0 (mkConfig (phase c) (didWork c) s', note_completed X s').

Lemma abort_inv {A} (f : A -> World) o a : abortOnFault f o = Ok a -> o = Ok a /\ faults (f a) = [].
Proof.
  unfold abortOnFault, fault_of. destruct o as [b|]; [|done]. cbn. destruct (faults (f b)) as [|x l] eqn:E; [by intros [= ->]|].
  rewrite last_cons. by destruct (list.last l).
Qed.
Lemma abort_crash {A} (f : A -> World) o e : abortOnFault f o = Crash e -> o = Crash e \/ exists a, o = Ok a /\ fault_of (f a) = Some e.
Proof. unfold abortOnFault. destruct o as [b|]; cbn; [|by left]. destruct (fault_of (f b)) eqn:E; [|done]. intros [= ->]. right. eauto. Qed.
Lemma abort_ok {A} (f : A -> World) a : faults (f a) = [] -> abortOnFault f (Ok a) = Ok a.
Proof. unfold abortOnFault, fault_of. cbn. by intros ->. Qed.

Lemma system_reachable_sound key s0 x : system_reachable key s0 x -> reachable client key s0 x /\ faults (world (engine x.1)) = [].
Proof.
  induction 1 as [s E|c X c' _ [IH _] E|c X e s' _ [IH _] Ha E]; apply abort_inv in E as [E Hf]; (split; [|exact Hf]).
  - by apply reach_start.
  - eapply reach_step; [exact IH|by apply engine_step].
  - eapply reach_step; [exact IH|by eapply env_step].
Qed.
End Steps.

(** ** The protocol of tasks *)

(** A call that is allowed before [inputsAvailable]. *)
Definition early (c : Call) : Prop := match c with completeTask _ _ | spawnCommand _ => False | _ => True end.
(** Commands only request inputs while they get ready. *)
Record ops_ok : Prop := {
  ops_start : forall x calls x', startCommand ops x = Ok (calls, x') -> Forall early calls;
  ops_value : forall i k v x calls x', valueForCommand ops i k v x = Ok (calls, x') -> Forall early calls }.

Lemma early_calls l : Forall early l -> Forall is_request (task_calls l).
Proof. induction 1 as [|c l Hc _ IH]; [constructor|]. destruct c; cbn; try done; by constructor. Qed.

Lemma requestPaths_early l : forall i calls, requestPaths i l = Ok calls -> Forall early calls.
Proof.
  induction l as [|p l IH]; intros i calls E; cbn in E; ok_inv; [constructor|].
  constructor; [done|by eapply IH].
Qed.
Lemma requestChildren_early path l : forall i, Forall early (requestChildren path i l).
Proof. induction l; intros i; cbn; [constructor|by constructor]. Qed.
Lemma treeSignatureRequest_early node n calls : treeSignatureRequest node n = Ok calls -> Forall early calls.
Proof. unfold treeSignatureRequest. intros E. ok_inv. by repeat constructor. Qed.
Lemma startTree_early t calls : startTree t = Ok calls -> Forall early calls.
Proof. unfold startTree. intros E. ok_inv. by repeat constructor. Qed.
Lemma treeContents_early t v value r : treeContents t v value = Ok r -> Forall early r.1.
Proof. unfold treeContents. intros E. ok_inv. apply requestChildren_early. Qed.
Lemma treeChild_early mk i v t r : treeChild mk i v t = Ok r -> Forall early r.1.
Proof. unfold treeChild. intros E. ok_inv; by repeat constructor. Qed.
Lemma provideTree_early i v t r : provideTree i v t = Ok r -> Forall early r.1.
Proof. unfold provideTree. intros E. ok_inv; eauto using treeChild_early, treeContents_early. Qed.
Lemma provideTreeStructure_early i v t r : provideTreeStructure i v t = Ok r -> Forall early r.1.
Proof. unfold provideTreeStructure. intros E. ok_inv; eauto using treeChild_early, treeContents_early. Qed.

Hint Resolve requestPaths_early treeSignatureRequest_early startTree_early provideTree_early provideTreeStructure_early : core.
Hint Constructors Forall : core.

Lemma imap_early {A} (f : nat -> A -> Key.Key * Z) l : Forall early (imap (fun i a => request (f i a).1 (f i a).2) l).
Proof. apply Forall_lookup. intros i c. rewrite list_lookup_imap. by destruct (l !! i); intros [= <-]. Qed.

Section Callbacks.
Context (Hops : ops_ok) (sys : Sys) (node : nat -> BuildNode).

Lemma start_early t st r : start ops sys node t st = Ok r -> Forall early r.1.1.
Proof.
  intros E. destruct t; cbn in E; ok_inv; auto.
  - apply (imap_early (fun id n => (nodeKey (nodeName (node n)), Z.of_nat id))).
  - unfold FileInputNodeTask_start in *. ok_inv; constructor.
  - repeat constructor.
  - unfold DirectoryInputNodeTask_start in *. ok_inv; apply Forall_app; eauto.
  - unfold DirectoryStructureInputNodeTask_start in *. ok_inv. repeat constructor.
  - unfold ProducedNodeTask_start in *. destruct (producerOf sys node n); ok_inv; by simplify_eq; repeat constructor.
  - unfold ProducedDirectoryNodeTask_start in *. destruct (producerOf sys node n); ok_inv; by simplify_eq; repeat constructor.
  - repeat constructor.
  - repeat constructor.
  - by eapply startTree_early.
  - by eapply startTree_early.
  - unfold CommandTask_start in *. ok_inv. constructor; [done|].
    match goal with H : startCommand _ _ = Ok ?p |- _ => destruct p; by eapply (ops_start Hops) end.
Qed.

Lemma providePriorValue_early v t st r : providePriorValue ops v t st = Ok r -> Forall early r.1.1.
Proof. intros E. destruct t; cbn in E; ok_inv; auto. Qed.

Lemma provideValue_early i k v t st r : provideValue ops node i k v t st = Ok r -> Forall early r.1.1.
Proof.
  intros E. destruct t; cbn in E; ok_inv; eauto.
  - unfold DirectoryInputNodeTask_provideValue in *. ok_inv; eauto.
  - unfold ProducedDirectoryNodeTask_provideValue in *. ok_inv; by repeat constructor.
  - unfold CommandTask_provideValue in *. ok_inv.
    match goal with H : valueForCommand _ _ _ _ _ = Ok ?p |- _ => destruct p; by eapply (ops_value Hops) end.
Qed.

(** What [inputsAvailable] does: notifications, then the completion or the job. *)
Definition quiet (c : Call) : Prop := match c with notify _ => True | _ => False end.
Definition closing (l : list Call) : Prop :=
  exists ns c, l = ns ++ [c] /\ Forall quiet ns /\ match c with completeTask _ _ | spawnCommand _ => True | _ => False end.

Lemma closing_one c : match c with completeTask _ _ | spawnCommand _ => True | _ => False end -> closing [c].
Proof. intros Hc. by exists [], c. Qed.
Lemma closing_cons n l : closing l -> closing (notify n :: l).
Proof. intros (ns & c & -> & Hn & Hc). exists (notify n :: ns), c. split; [done|]. split; [by constructor|done]. Qed.
Lemma completeWith_closing v l : completeWith v = Ok l -> closing l.
Proof. unfold completeWith. intros E. ok_inv. by apply closing_one. Qed.
Hint Resolve closing_one closing_cons completeWith_closing : core.

Lemma inputsAvailable_closing t l : inputsAvailable H sys node t = Ok l -> closing l.
Proof.
  assert (Hinput : forall info l, inputValue info = Ok l -> closing l) by (unfold inputValue; intros; ok_inv; eauto).
  assert (Hproduced : forall r inv l, finishProduced r inv = Ok l -> closing l) by (unfold finishProduced; intros; ok_inv; eauto).
  intros E. destruct t; cbn in E; eauto.
  - unfold TargetTask_inputsAvailable in E. ok_inv; [eauto|]. destruct missingInputNodes; eauto 6.
  - unfold FileInputNodeTask_inputsAvailable in E. ok_inv; eauto.
  - ok_inv. by apply closing_one.
  - ok_inv. by apply closing_one.
  - unfold ProducedDirectoryNodeTask_inputsAvailable in E. ok_inv; eauto.
  - unfold finishContents in E. ok_inv; eauto.
  - unfold finishFilteredContents in E. ok_inv; eauto.
  - ok_inv. eauto.
  - ok_inv. by apply closing_one.
  - unfold MissingCommandTask_inputsAvailable in E. ok_inv. by apply closing_one.
Qed.

Lemma closing_finishing l : closing l -> finishing_calls (task_calls l).
Proof.
  intros (ns & c & -> & Hn & Hc).
  assert (Hns : task_calls ns = []) by (induction Hn as [|[] ns Hq _ IH]; done).
  unfold task_calls. rewrite omap_app. fold (task_calls ns). rewrite Hns. exists []. split; [constructor|].
  destruct c; try done; cbn; eauto.
Qed.
End Callbacks.

(** ** The build system respects the protocol *)
Section Protocol.
Context (d : Delegate (C := C)) (shouldResolve : bool) (database : option (BuildDB (W := World))).

(** The results a database gives back are well formed. *)
Definition database_ok : Prop := forall b k r w res, database = Some b -> (db_lookupRuleResult b k r w).1.1 = Some res ->
  deps_wf (dependencies res).
(** The database can store results. *)
Definition database_stores : Prop := forall b k r res w, database = Some b -> (db_setRuleResult b k r res w).1 = None.

Lemma on_task_early t f w : (forall x r, f x = Ok r -> Forall early r.1.1) -> Forall is_request (on_task t f w).1.
Proof.
  intros Hf. unfold on_task. destruct (tasks w !! t) as [x|]; [|constructor]. specialize (Hf x).
  destruct (f x) as [[[calls x'] st]|]; [|constructor]. by apply early_calls, (Hf _ eq_refl).
Qed.

Lemma system_client_ok : ops_ok -> database_ok -> client_ok (buildSystemClient d shouldResolve database).
Proof.
  intros Hops Hdb. split.
  - intros b k r w res E. by eapply Hdb.
  - intros t w. apply on_task_early. intros x r. by apply start_early.
  - intros t v w. apply on_task_early. intros x r. by apply providePriorValue_early.
  - intros t i k v w. apply on_task_early. intros x r. by apply provideValue_early.
  - intros t w. cbn. unfold client_inputsAvailable, on_task.
    destruct (tasks w !! t) as [x|]; [|exists []; split; [constructor|by left]].
    destruct (inputsAvailable H (system w) (world_node w) x) as [calls|] eqn:E; cbn; [|exists []; split; [constructor|by left]].
    by eapply closing_finishing, inputsAvailable_closing.
Qed.

(** Calls of other threads run no callback of a task or rule. *)
Lemma call_faults t call X s s' : allowed X s (EnvTaskCall t call) ->
  taskCall (buildSystemClient d shouldResolve database) t call s = Ok (tt, s') -> faults (world s') = faults (world s).
Proof.
  intros Ha E. destruct call; try done; cbn [taskCall] in E; apply bind_inv in E as (ti & s1 & [-> _]%task_at_inv & E); apply bind_inv in E as (ri & s1 & [-> _]%rule_at_inv & E).
  - destruct (isInProgressComputing ri); [by injection E as <-|]. apply bind_inv in E as ([] & s1 & E1 & E). injection E1 as <-. by injection E as <-.
  - destruct (isInProgressComputing ri); cbn [negb] in E.
    + apply bind_inv in E as (t' & s1 & ->%pending_task_inv & E). unfold bind, ensure, fail in E. destruct (bool_decide _); [|done]. by injection E as <-.
    + apply bind_inv in E as ([] & s1 & E1 & E). injection E1 as <-. by injection E as <-.
Qed.

End Protocol.
End Client.

(** ** The built-in commands only ask for inputs while they get ready *)
Lemma requests_early l : Forall early (requests l).
Proof. unfold requests. apply Forall_map, Forall_forall. done. Qed.

Lemma commandOps_ok H node link : ops_ok (commandOps H node link).
Proof.
  split.
  - intros x calls x' E. cbn in E.
    destruct x; cbn in E; ok_inv; simplify_eq; try apply requests_early; try constructor.
    + apply Forall_map, Forall_forall. done.
    + apply Forall_map, Forall_forall. done.
  - intros i k v x calls x' E. cbn in E. destruct x; cbn in E; ok_inv; simplify_eq; constructor.
Qed.

(** ** A build *)

(** One shell command makes "out" from "in"; the target "all" has the node "out". *)
Definition example_hashes : Hashes :=
  mkHashes (fun s => foldl (fun a c => (a * 31 + byte_of c) mod 2 ^ 61)%Z 7%Z s)
    (fun a s => foldl (fun a c => (a * 31 + byte_of c) mod 2 ^ 61)%Z a s) (fun a b => ((a * 31 + Z.b2z b) mod 2 ^ 61)%Z).
Definition example_tree : TreeHashes := mkTreeHashes (fun _ => 0%Z) (fun c _ => c) (fun c _ => c) (fun c _ => c).
Definition example_nodes : list BuildNode :=
  [makePlain (chars_of "in"); mkBuildNode (chars_of "out") [chars_of "C"] Plain false false emptyStringList []].
Definition example_node (n : nat) : BuildNode := default (makePlain []) (example_nodes !! n).
Definition example_ops : CommandOps Command := commandOps example_hashes example_node (fun _ => zeroFileInfo).
Definition example_description : Description (C := Command) :=
  mkDescription (list_to_map [(chars_of "in", 0%nat); (chars_of "out", 1%nat)])
    (list_to_map [(chars_of "all", mkTarget (chars_of "all") [1%nat])]) (fun _ => None).
Definition example_command : Command :=
  ShellC (Shell.set_external (ExternalCommand.configureOutputs [1%nat] (ExternalCommand.configureInputs [0%nat] (newExternalCommand (chars_of "C"))))
            (Shell.newShellCommand (chars_of "C") true)).
Definition example_delegate : Delegate (C := Command) := mkDelegate example_nodes ∅ ∅ {[inl (chars_of "C") := example_command]} 0.
(** The file information of a path: the same for all that exist. *)
Definition example_file : FileInfo := mkFileInfo 1 2 0x8000 4 (mkTimestamp 5 0) zeroChecksum.
Definition example_sys (present : bool) : Sys :=
  mkSys (fun p => if bool_decide (p = chars_of "in") && negb present then zeroFileInfo else example_file)
    (fun _ => []) (fun _ _ => false) (fun _ => None) false.
Definition example_world (present : bool) : World (C := Command) :=
  mkWorld example_delegate ∅ ∅ (example_sys present) [] [] [] [] 0 false.
Definition example_client : Client (W := World) :=
  buildSystemClient example_ops example_tree example_hashes example_description example_delegate false None.
Definition all_key : KeyID := string_of_key (Key.makeTarget (bytes_of (chars_of "all"))).

Definition example_start (present : bool) : State (W := World) := upd_currentEpoch (fun _ => 1%Z) (initial_state (example_world present)).
Definition run_example (present : bool) (n : nat) : outcome (Config (W := World)) :=
  obind (start_execution example_client all_key (example_start present)) (fun p =>
  run example_client n (fun _ => []) all_key (mkConfig LoopTop false p.2)).

(** The job of the command: executed, its process succeeding, on the files of the system. *)
Definition example_fs (sys : Sys) : FileSystem unit :=
  mkFileSystem (fun _ => getFileInfo sys) (fun _ => getFileInfo sys) (fun _ _ => None) (fun _ w => (true, w)) (fun _ _ w => (true, w))
    (fun _ w => ((true, 0%Z), w)) (fun _ w => (true, w)) (fun _ _ w => (true, w)).
Definition example_job (w : World (C := Command)) : outcome (list Call) :=
  match commands (delegate w) !! (inl (chars_of "C") : CommandRef) with
  | None => Ok []
  | Some x =>
      let fs := example_fs (system w) in
      obind (execute example_hashes example_node fs (fun _ => []) (fun _ => None) None 1 x tt) (fun r =>
      let '(_, ran, x', _) := r in
      obind (match ran with
             | Complete v => Ok v
             | Running _ _ _ files =>
                 obind (finish [] example_node fs 1 (newProcessResult Succeeded) files x' tt) (fun r' => Ok r'.2)
             end) commandResult)
  end.
(** The events of the job, at the moment when [i] steps are left. *)
Definition job_at (i : nat) (calls : list TaskCall) (left : nat) : list (EnvEvent (W := World (C := Command))) :=
  if decide (left = i) then map (EnvTaskCall 2%N) calls else [].
Definition build_example (present : bool) : outcome (Config (W := World (C := Command))) :=
  obind (run_example present 60) (fun c =>
  obind (example_job (world (engine c))) (fun calls =>
  run example_client 60 (job_at 50 (task_calls calls)) all_key c)).
Definition stored (k : Key.Key) (s : State (W := World (C := Command))) : outcome BuildValue :=
  match ruleInfos s !! string_of_key k with Some ri => Value.fromData (value (result ri)) | None => Crash (AssertFailed "rule") end.
Definition node_value (path : string) (c : Config (W := World (C := Command))) : outcome BuildValue :=
  stored (Key.makeNode (bytes_of (chars_of path))) (engine c).
Definition summary (c : Config (W := World (C := Command))) : Phase * list fault * list (TaskID * CommandRef) :=
  (phase c, faults (world (engine c)), jobs (world (engine c))).

(** The build ends, no assertion of a task failed, the command ran once, and the target and
    both nodes have their values. *)
Example build_succeeds :
  match build_example true with
  | Ok c => summary c = (Done true, [], [(2%N, inl (chars_of "C"))])
      /\ node_value "in" c = Ok (Value.decoded (Value.DExistingInput example_file))
      /\ node_value "out" c = Ok (Value.decoded (Value.DExistingInput example_file))
      /\ stored (Key.makeTarget (bytes_of (chars_of "all"))) (engine c) = Ok Value.makeTarget
  | Crash _ => False
  end.
Proof. vm_compute. repeat split; reflexivity. Qed.

(** Without its input the command is skipped and its failure reaches the node. *)
Example build_without_input :
  match build_example false with
  | Ok c => summary c = (Done true, [], [(2%N, inl (chars_of "C"))])
      /\ node_value "in" c = Ok Value.makeMissingInput /\ node_value "out" c = Ok Value.makeFailedInput
  | Crash _ => False
  end.
Proof. vm_compute. repeat split; reflexivity. Qed.

(** Thirty steps into the build. *)
Fixpoint system_run (n : nat) (c : Config (W := World (C := Command))) : outcome (Config (W := World (C := Command))) :=
  match n with O => Ok c | S n => obind (system_step example_client all_key c) (system_run n) end.
Definition example_initial (present : bool) : outcome (Config (W := World (C := Command))) :=
  obind (abortOnFault (fun r => world r.2) (start_execution example_client all_key (example_start present))) (fun p => Ok (mkConfig LoopTop false p.2)).
Lemma system_run_reachable s0 n : forall c X c', system_reachable example_client all_key s0 (c, X) -> system_run n c = Ok c' ->
  exists X', system_reachable example_client all_key s0 (c', X').
Proof.
  induction n as [|n IH]; intros c X c' Hr E; [injection E as <-; eauto|].
  change (obind (system_step example_client all_key c) (system_run n) = Ok c') in E. destruct (system_step example_client all_key c) as [c1|] eqn:E1; [|discriminate E]. cbn [obind] in E. eapply IH; [|exact E]. by eapply system_engine.
Qed.
Lemma run_example_reachable n c : obind (example_initial true) (system_run n) = Ok c ->
  exists X, system_reachable example_client all_key (example_start true) (c, X).
Proof.
  unfold example_initial. destruct (abortOnFault _ _) as [[[] s]|] eqn:E; [|done].
  cbn [obind snd]. intros Hrun. eapply system_run_reachable; [|exact Hrun]. by apply system_start.
Qed.
Lemma example_quiescent : quiescent (example_start true).
Proof. by constructor. Qed.
Lemma example_runs : is_ok (obind (example_initial true) (system_run 30)) = true.
Proof. vm_compute. reflexivity. Qed.

