(* ===== verification/BuildDescription.v ===== *)
(** * The build description and how it is built

    [BuildDescriptionBuilder] with the [OwnershipAnalysis] it runs at the end
    (lib/BuildSystem/BuildDescriptionBuilder.cpp) and [BuildDescription]
    (BuildDescription.h, BuildDescription.cpp).  Nodes are indices into the list of all
    nodes, commands and tools are named by their keys in the maps that own them.  The
    builder's calls on its delegate are logged; the delegate is the one of the build system,
    [BuildSystemFileDelegate], for a client with no tools of its own.

    The order in which the code visits a hash table, or a map whose keys are pointers, and
    what [std::sort] does with equal keys, are parameters ([Orders]). *)

From Stdlib Require Import Ascii String Lia ZArith.
From stdpp Require Import base gmap list sorting strings numbers.
From S2P Require Import Prelude Chars NinjaPath Coding BuildValue BuildKey Process BuildNode ExternalCommand ShellCommand BuildTasks BuildTools SwiftCompiler BuildCommands BuildRules.

Local Open Scope nat_scope.

Inductive FileSystemMode := Full | DeviceAgnostic | ChecksumOnly.
#[export] Instance FileSystemMode_eq_dec : EqDecision FileSystemMode.
Proof. solve_decision. Defined.

(** [BuildFileToken]; the token of no location is [None]. *)
Record Token := mkToken { tokenStart : Z; tokenLength : Z }.
#[export] Instance Token_eq_dec : EqDecision Token.
Proof. solve_decision. Defined.

(** Calls on the delegate. *)
Inductive Event :=
| reportError (filename : chars) (at_ : option Token) (message : chars)
| setFileContentsBeingParsed (buffer : chars)
| cannotLoadDueToMultipleProducers (output : nat) (commands : list chars)
| configureFileSystem (mode : FileSystemMode)
| loadedTarget (name : chars)
| loadedDefaultTarget (name : chars)
| loadedCommand (name : chars).

(** ** The description *)
Record BuildDescription := mkBuildDescription {
  environmentBases : gmap chars (list (chars * chars));
  allNodes : list BuildNode;
  nodeNames : gmap chars nat;
  targets : gmap chars Target;
  commands : gmap chars Command;
  tools : gmap chars Tool;
  defaultTarget : chars }.

Definition emptyDescription : BuildDescription := mkBuildDescription ∅ [] ∅ ∅ ∅ ∅ [].

Definition set_commands (m : gmap chars Command) (d : BuildDescription) : BuildDescription :=
  mkBuildDescription (environmentBases d) (allNodes d) (nodeNames d) (targets d) m (tools d) (defaultTarget d).
Definition set_nodes (l : list BuildNode) (d : BuildDescription) : BuildDescription :=
  mkBuildDescription (environmentBases d) l (nodeNames d) (targets d) (commands d) (tools d) (defaultTarget d).
Definition set_bases (m : gmap chars (list (chars * chars))) (d : BuildDescription) : BuildDescription :=
  mkBuildDescription m (allNodes d) (nodeNames d) (targets d) (commands d) (tools d) (defaultTarget d).
Definition set_defaultTarget (name : chars) (d : BuildDescription) : BuildDescription :=
  mkBuildDescription (environmentBases d) (allNodes d) (nodeNames d) (targets d) (commands d) (tools d) name.

Definition addNode (n : BuildNode) (d : BuildDescription) : BuildDescription :=
  mkBuildDescription (environmentBases d) (allNodes d ++ [n]) (<[nodeName n := length (allNodes d)]> (nodeNames d))
    (targets d) (commands d) (tools d) (defaultTarget d).
Definition addTarget (t : Target) (d : BuildDescription) : BuildDescription :=
  mkBuildDescription (environmentBases d) (allNodes d) (nodeNames d) (<[targetName t := t]> (targets d))
    (commands d) (tools d) (defaultTarget d).
Definition addCommand (c : Command) (d : BuildDescription) : BuildDescription :=
  set_commands (<[getName c := c]> (commands d)) d.
Definition addTool (name : chars) (t : Tool) (d : BuildDescription) : BuildDescription :=
  mkBuildDescription (environmentBases d) (allNodes d) (nodeNames d) (targets d) (commands d)
    (<[name := t]> (tools d)) (defaultTarget d).

Definition nodeAt (d : BuildDescription) (n : nat) : BuildNode := default (makePlain []) (allNodes d !! n).
Definition nameOf (d : BuildDescription) (n : nat) : chars := nodeName (nodeAt d n).
Definition updNode (n : nat) (f : BuildNode -> BuildNode) (d : BuildDescription) : BuildDescription :=
  set_nodes (alter f n (allNodes d)) d.

(** [getProducers().push_back(command)]. *)
Definition addProducer (name : chars) (n : BuildNode) : BuildNode :=
  mkBuildNode (nodeName n) (producers n ++ [name]) (type n) (commandTimestamp n) (mutated n) (exclusionPatterns n) (mustScanAfterPaths n).
Definition addScanAfter (p : chars) (n : BuildNode) : BuildNode :=
  set_scan_after (mustScanAfterPaths n ++ [Live p]) n.

(** ** Ownership analysis *)
Module OwnershipAnalysis.
(** A node and the command it is an output or input of. *)
Definition Use : Type := nat * chars.

Record Orders := mkOrders {
  commandOrder : gmap chars Command -> list (chars * Command);
  pathOrder : gmap nat chars -> list Use;
  sortByLength : (nat -> nat) -> list Use -> list Use }.

Record OwnershipAnalysis := mkAnalysis {
  includedPaths : gmap nat chars;
  excludedPaths : gmap nat chars;
  outputNodesAndCommands : list Use;
  directoryInputNodesAndCommands : list Use }.

Section Analysis.
Context (O : Orders).

Definition outputUses (d : BuildDescription) : list Use :=
  concat (map (fun c => map (fun n => (n, c.1)) (filter (fun n => isVirtual (nodeAt d n) = false) (getOutputs c.2)))
    (commandOrder O (commands d))).
Definition directoryUses (d : BuildDescription) : list Use :=
  concat (map (fun c => map (fun n => (n, c.1)) (filter (fun n => isDirectoryNode (nodeAt d n) = true) (getInputs c.2)))
    (commandOrder O (commands d))).

Definition new (d : BuildDescription) : OwnershipAnalysis :=
  mkAnalysis ∅ ∅ (sortByLength O (fun n => length (nameOf d n)) (outputUses d)) (directoryUses d).

(** The path is below the directory, as the code tests it. *)
Definition isBelow (dir path : chars) : bool :=
  if ends_with_slash dir then isPrefix dir path else isPrefix (dir ++ chars_of "/") path.

Definition includedOwnerOf (d : BuildDescription) (path : chars) (a : OwnershipAnalysis) : option chars :=
  snd <$> List.find (fun u => isBelow (nameOf d u.1) path) (pathOrder O (includedPaths a)).
Definition excludedOwnerOf (d : BuildDescription) (path : chars) (a : OwnershipAnalysis) : option chars :=
  snd <$> List.find (fun u => bool_decide (path = nameOf d u.1)) (pathOrder O (excludedPaths a)).

Definition setOwner (n : nat) (c : chars) (a : OwnershipAnalysis) : OwnershipAnalysis :=
  mkAnalysis (<[n := c]> (includedPaths a)) (excludedPaths a) (outputNodesAndCommands a) (directoryInputNodesAndCommands a).
Definition setExcludedOwner (n : nat) (c : chars) (a : OwnershipAnalysis) : OwnershipAnalysis :=
  mkAnalysis (includedPaths a) (<[n := c]> (excludedPaths a)) (outputNodesAndCommands a) (directoryInputNodesAndCommands a).

Definition isIncludedUnownedNode (d : BuildDescription) (n : nat) (a : OwnershipAnalysis) : bool :=
  bool_decide (includedOwnerOf d (nameOf d n) a = None) && bool_decide (excludedOwnerOf d (nameOf d n) a = None).

(** The flag of a command that is in the map, as all commands of the analysis are. *)
Definition repaired (d : BuildDescription) (c : chars) : bool :=
  match commands d !! c with Some x => isRepaired x | None => false end.
Definition takesPart (d : BuildDescription) (c : chars) : bool :=
  match commands d !! c with Some x => isExternalCommand x && isRepaired x | None => false end.

(** The analysis, or the conflict reported. *)
Fixpoint establish (d : BuildDescription) (l : list Use) (a : OwnershipAnalysis) : OwnershipAnalysis + nat * list chars :=
  match l with
  | [] => inl a
  | (n, c) :: l' =>
      if takesPart d c then
        match includedOwnerOf d (nameOf d n) a with
        | None => establish d l' (setOwner n c a)
        | Some owner => if decide (owner = c) then establish d l' a else inr (n, [c; owner])
        end
      else establish d l' (setExcludedOwner n c a)
  end.
Definition establishOwnerships (d : BuildDescription) (a : OwnershipAnalysis) : OwnershipAnalysis + nat * list chars :=
  establish d (outputNodesAndCommands a) a.

(** One directory that is an input: it becomes an output of the command that owns it. *)
Definition amend (a : OwnershipAnalysis) (d : BuildDescription) (u : Use) : BuildDescription :=
  match includedOwnerOf d (nameOf d u.1) a with
  | None => d
  | Some owner =>
      match commands d !! owner with
      | None => d
      | Some x =>
          if decide (u.1 ∈ getOutputs x) then d
          else if isRepaired x then updNode u.1 (addProducer owner) (set_commands (<[owner := addOutput u.1 x]> (commands d)) d)
          else d
      end
  end.
Definition amendOutputOfOwnersWithConsumedSubpaths (a : OwnershipAnalysis) (d : BuildDescription) : BuildDescription :=
  foldl (amend a) d (directoryInputNodesAndCommands a).

Definition unownedDirectories (d : BuildDescription) (a : OwnershipAnalysis) : list Use :=
  filter (fun u => isIncludedUnownedNode d u.1 a && repaired d u.2 = true) (directoryInputNodesAndCommands a).
(** One output: the first unowned directory above it is scanned after it. *)
Definition defer (unowned : list Use) (d : BuildDescription) (u : Use) : BuildDescription :=
  match List.find (fun dir => isPrefix (nameOf d dir.1) (nameOf d u.1) && repaired d u.2) unowned with
  | None => d
  | Some dir => updNode dir.1 (addScanAfter (nameOf d u.1)) d
  end.
Definition deferScanningUnownedInputsUntilSubpathsAvailable (a : OwnershipAnalysis) (d : BuildDescription) : BuildDescription :=
  foldl (defer (unownedDirectories d a)) d (outputNodesAndCommands a).

(** The description after the analysis, or the conflict. *)
Definition run (d : BuildDescription) : BuildDescription + nat * list chars :=
  match establishOwnerships d (new d) with
  | inr e => inr e
  | inl a => inl (deferScanningUnownedInputsUntilSubpathsAvailable a (amendOutputOfOwnersWithConsumedSubpaths a d))
  end.
End Analysis.

Definition noLonger (f : nat -> nat) (u v : Use) : Prop := f u.1 <= f v.1.
#[export] Instance noLonger_dec f : RelDecision (noLonger f).
Proof. intros u v. unfold noLonger. apply _. Defined.
(** What is known of the orders. *)
Record orders_ok (O : Orders) : Prop := mkOrdersOk {
  ok_commandOrder : forall m, commandOrder O m ≡ₚ map_to_list m;
  ok_pathOrder : forall m, pathOrder O m ≡ₚ map_to_list m;
  ok_sort : forall f l, sortByLength O f l ≡ₚ l /\ StronglySorted (noLonger f) (sortByLength O f l) }.

Definition listOrders : Orders := mkOrders map_to_list map_to_list (fun f => merge_sort (noLonger f)).
End OwnershipAnalysis.
Import OwnershipAnalysis (Orders).

(** ** The builder *)
Record Builder := mkBuilder {
  graph : BuildDescription;
  originName : chars;
  performOwnershipAnalysis : bool;
  fileSystemMode : FileSystemMode;
  events : list Event }.

Definition newBuilder (origin : chars) : Builder := mkBuilder emptyDescription origin false Full [].
Definition set_graph (d : BuildDescription) (b : Builder) : Builder :=
  mkBuilder d (originName b) (performOwnershipAnalysis b) (fileSystemMode b) (events b).
Definition setPerformOwnershipAnalysis (v : bool) (b : Builder) : Builder :=
  mkBuilder (graph b) (originName b) v (fileSystemMode b) (events b).
Definition setFileSystemMode (m : FileSystemMode) (b : Builder) : Builder :=
  mkBuilder (graph b) (originName b) (performOwnershipAnalysis b) m (events b).
Definition log_event (e : Event) (b : Builder) : Builder :=
  mkBuilder (graph b) (originName b) (performOwnershipAnalysis b) (fileSystemMode b) (events b ++ [e]).

(** [ConfigureContext]: where errors are reported. *)
Record Context := mkContext { filename : chars; at_ : option Token }.

(** The values of an attribute: the three overloads of [configureAttribute]. *)
Inductive Attribute := OneValue (v : chars) | Values (l : list chars) | Bindings (l : list (chars * chars)).

Section Builder.
Context (cwd : chars).
Abbreviation B := (M Builder).

Definition lift {A} (o : outcome A) : B A := fun s => match o with Ok a => Ok (a, s) | Crash e => Crash e end.
Definition update (f : BuildDescription -> BuildDescription) : B unit := modify (fun b => set_graph (f (graph b)) b).
Definition emit (e : Event) : B unit := modify (log_event e).
Definition ctx_error (ctx : Context) (message : chars) : B unit := emit (reportError (filename ctx) (at_ ctx) message).
Definition nodes_of (b : Builder) : nat -> BuildNode := nodeAt (graph b).

(** Report the errors of a configuration action. *)
Definition configured {C} (ctx : Context) (r : Configured C) : B (bool * C) :=
  mapM_ (ctx_error ctx) r.1.1 ;;; ret (r.1.2, r.2).

(** [getContext]. *)
Definition noContext (b : Builder) : Context := mkContext (originName b) None.

Definition getOrCreateNode (name : chars) (isImplicit : bool) : B nat :=
  d <~ gets graph;
  match nodeNames d !! name with
  | Some n => ret n
  | None =>
      update (fun d => mkBuildDescription (environmentBases d) (allNodes d ++ [createNode name])
        (<[name := length (allNodes d)]> (nodeNames d)) (targets d) (commands d) (tools d) (defaultTarget d)) ;;;
      ret (length (allNodes d))
  end.

Definition getOrCreateTool (name : chars) : B (option Tool) :=
  d <~ gets graph;
  match tools d !! name with
  | Some t => ret (Some t)
  | None =>
      match lookupTool name with
      | None => ret None
      | Some t => update (addTool name t) ;;; ret (Some t)
      end
  end.
Definition setTool (name : chars) (t : Tool) : B unit := update (addTool name t).

(** [Node::configureAttribute] on a node of the description. *)
Definition configureNode (ctx : Context) (n : nat) (name : chars) (v : Attribute) : B bool :=
  b <~ get;
  r <~ lift (match v with
             | OneValue x => BuildNode.configureAttribute name x (nodes_of b n)
             | Values l => BuildNode.configureListAttribute name l (nodes_of b n)
             | Bindings _ => Ok (BuildNode.configurePairsAttribute name (nodes_of b n))
             end);
  match r with
  | inl e => ctx_error ctx e ;;; ret false
  | inr x => update (updNode n (fun _ => x)) ;;; ret true
  end.
Definition configureNodeAttribute (nodeName name : chars) (v : Attribute) : B bool :=
  n <~ getOrCreateNode nodeName false;
  ctx <~ gets noContext;
  configureNode ctx n name v.

(** [Tool::configureAttribute]. *)
Definition configureToolAttribute (ctx : Context) (name : chars) (v : Attribute) (t : Tool) : B (bool * Tool) :=
  configured ctx (match v with OneValue x => configureTool name x t | _ => configureToolOther name t end).

(** *** Targets *)
Definition hasTarget (name : chars) (b : Builder) : bool := bool_decide (is_Some (targets (graph b) !! name)).
Fixpoint getOrCreateNodes (names : list chars) : B (list nat) :=
  match names with
  | [] => ret []
  | x :: l => n <~ getOrCreateNode x true; ns <~ getOrCreateNodes l; ret (n :: ns)
  end.
Definition addTargetNamed (name : chars) (nodeNames : list chars) : B unit :=
  ns <~ getOrCreateNodes nodeNames;
  emit (loadedTarget name) ;;;
  update (fun d => mkBuildDescription (environmentBases d) (allNodes d) (BuildDescription.nodeNames d)
    (<[name := mkTarget name ns]> (targets d)) (commands d) (tools d) (defaultTarget d)).
Definition setDefaultTarget (name : chars) : B bool :=
  b <~ get;
  if hasTarget name b then update (set_defaultTarget name) ;;; emit (loadedDefaultTarget name) ;;; ret true
  else ret false.

(** *** Environment bases *)
Definition hasEnvironmentBase (name : chars) (b : Builder) : bool := bool_decide (is_Some (environmentBases (graph b) !! name)).
Definition lookupEnvironmentBase (name : chars) (b : Builder) : option (list (chars * chars)) := environmentBases (graph b) !! name.
Definition addEnvironmentBase (name : chars) (bindings : list (chars * chars)) : B bool :=
  b <~ get;
  if hasEnvironmentBase name b then ret false
  else update (fun d => set_bases (<[name := bindings]> (environmentBases d)) d) ;;; ret true.

(** *** Commands *)
Definition hasCommand (name : chars) (b : Builder) : bool := bool_decide (is_Some (commands (graph b) !! name)).
Definition createCommandNamed (name toolName : chars) : B (option Command) :=
  t <~ getOrCreateTool toolName;
  ret (match t with Some t => Some (createCommand name t) | None => None end).

Definition configureCommandInputs (ctx : Context) (l : list nat) (c : Command) : B Command :=
  b <~ get;
  let r := BuildCommands.configureInputs (nodes_of b) l c in
  mapM_ (ctx_error ctx) r.1 ;;; ret r.2.
(** The command is recorded with its outputs; until it is added it has the name it was
    created with. *)
Definition configureCommandOutputs (ctx : Context) (l : list nat) (c : Command) : B Command :=
  mapM_ (fun n => update (updNode n (addProducer (getName c)))) l ;;;
  b <~ get;
  let r := BuildCommands.configureOutputs (nodes_of b) l c in
  mapM_ (ctx_error ctx) r.1 ;;; ret r.2.
Definition configureCommandInputNames (ctx : Context) (names : list chars) (c : Command) : B Command :=
  l <~ getOrCreateNodes names; configureCommandInputs ctx l c.
Definition configureCommandOutputNames (ctx : Context) (names : list chars) (c : Command) : B Command :=
  l <~ getOrCreateNodes names; configureCommandOutputs ctx l c.
Definition configureCommandDescription (value : chars) (c : Command) : Command := BuildCommands.configureDescription value c.
Definition configureCommandAttribute (ctx : Context) (name : chars) (v : Attribute) (c : Command) : B (bool * Command) :=
  configured ctx (match v with
                  | OneValue x => configureScalar cwd name x c
                  | Values l => configureList name l c
                  | Bindings l => configurePairs name l c
                  end).
Definition configureCommandEnvironmentBase (ctx : Context) (baseName : chars) (c : Command) : B (bool * Command) :=
  b <~ get;
  match lookupEnvironmentBase baseName b with
  | None => ctx_error ctx (chars_of "unknown environment base " ++ quote baseName) ;;; ret (false, c)
  | Some base =>
      let (ok, c') := configureEnvironmentBase base c in
      if ok then ret (true, c')
      else ctx_error ctx (chars_of "'env-base' is not supported by this command") ;;; ret (false, c')
  end.
Definition addCommandNamed (name : chars) (c : Command) : B unit :=
  emit (loadedCommand name) ;;; update (fun d => set_commands (<[name := c]> (commands d)) d).

(** *** The end *)
Definition finalize (O : Orders) : B (option BuildDescription) :=
  b <~ get;
  match (if performOwnershipAnalysis b then OwnershipAnalysis.run O (graph b) else inl (graph b)) with
  | inr (n, cs) => emit (cannotLoadDueToMultipleProducers n cs) ;;; ret None
  | inl d => update (fun _ => emptyDescription) ;;; ret (Some d)
  end.
End Builder.
