(* ===== verification/OwnershipProps.v ===== *)
(** * Properties of the ownership analysis

    When two commands write below one another's outputs the analysis reports it; otherwise a
    path has at most one owner, whatever the order in which hash tables and maps of pointers
    are visited, and the analysis adds exactly the outputs and the paths it should. *)

From Stdlib Require Import Ascii String Lia ZArith.
From stdpp Require Import base gmap list sorting strings numbers.
From S2P Require Import Prelude Chars NinjaPath Coding BuildValue BuildKey Process BuildNode ExternalCommand ShellCommand BuildTasks BuildTools SwiftCompiler BuildCommands BuildRules BuildDescription.

Local Open Scope nat_scope.
Import OwnershipAnalysis.

(** ** Paths below a directory *)
Definition slashed (dir : chars) : chars := if ends_with_slash dir then dir else dir ++ ["/"%char].

Lemma isPrefix_spec p s : isPrefix p s = true <-> p `prefix_of` s.
Proof.
  unfold isPrefix. rewrite bool_decide_eq_true. split.
  - intros ->. apply prefix_take.
  - intros [r ->]. by rewrite take_app_length.
Qed.
Lemma isBelow_spec dir p : isBelow dir p = true <-> slashed dir `prefix_of` p.
Proof. unfold isBelow, slashed. destruct (ends_with_slash dir); apply isPrefix_spec. Qed.

Lemma slashed_prefix d : d `prefix_of` slashed d.
Proof. unfold slashed. destruct (ends_with_slash d); [done|]. by apply prefix_app_r. Qed.
Lemma slashed_length d : length d <= length (slashed d).
Proof. apply prefix_length, slashed_prefix. Qed.
Lemma ends_with_snoc l : ends_with_slash (l ++ ["/"%char]) = true.
Proof. unfold ends_with_slash. by rewrite last_snoc, bool_decide_eq_true_2. Qed.

Lemma isBelow_trans a b c : isBelow a b = true -> isBelow b c = true -> isBelow a c = true.
Proof. rewrite !isBelow_spec. intros H1 H2. etrans; [exact H1|]. etrans; [apply slashed_prefix|exact H2]. Qed.

(** Two directories above one path: one is above the other, or they are the same. *)
Lemma isBelow_chain a b p : isBelow a p = true -> isBelow b p = true -> a = b \/ isBelow a b = true \/ isBelow b a = true.
Proof.
  rewrite !isBelow_spec. intros Ha Hb.
  assert (W : forall a b, slashed a `prefix_of` slashed b -> a = b \/ slashed a `prefix_of` b \/ slashed b `prefix_of` a).
  { clear. intros a b H. unfold slashed at 2 in H. destruct (ends_with_slash b) eqn:E; [by right; left|].
    destruct H as [r H]. destruct r as [|x r _] using rev_ind; [|rewrite app_assoc in H; apply app_inj_tail in H as [H _]; right; left; by exists r].
    rewrite app_nil_r in H. unfold slashed in *. destruct (ends_with_slash a) eqn:Ea.
    - right; right. rewrite E, H. done.
    - apply app_inj_tail in H as [H _]. by left. }
  destruct (prefix_weak_total _ _ _ Ha Hb) as [H|H]; [destruct (W _ _ H) as [|[|]]; auto|destruct (W _ _ H) as [|[|]]; auto].
Qed.

(** A directory is not below a path that is no longer, unless it is that path. *)
Lemma isBelow_longer a p : isBelow a p = true -> length p <= length a -> p = a.
Proof.
  rewrite isBelow_spec. intros H Hl. pose proof (slashed_length a). pose proof (prefix_length _ _ H).
  unfold slashed in *. destruct (ends_with_slash a); [|rewrite length_app in *; cbn in *; lia].
  destruct H as [r ->]. rewrite length_app in Hl. destruct r; [by rewrite app_nil_r|cbn in Hl; lia].
Qed.

(** ** Establishing owners *)
Section Establish.
Context (O : Orders) (HO : orders_ok O) (d : BuildDescription) (uses : list Use).

(** What the description has: names belong to one node, and among the commands that take
    part a node is an output of one. *)
Definition names_distinct : Prop := forall u v, u ∈ uses -> v ∈ uses -> nameOf d u.1 = nameOf d v.1 -> u.1 = v.1.
Definition single_producers : Prop := forall n c c', (n, c) ∈ uses -> (n, c') ∈ uses ->
  takesPart d c = true -> takesPart d c' = true -> c = c'.
(** Two commands that take part, one writing below an output of the other. *)
Definition conflicting (n : nat) (c : chars) (n' : nat) (c' : chars) : Prop :=
  (n, c) ∈ uses /\ (n', c') ∈ uses /\ takesPart d c = true /\ takesPart d c' = true
  /\ isBelow (nameOf d n) (nameOf d n') = true /\ c <> c'.
(** The command has an output that the path is below. *)
Definition owns (c p : chars) : Prop :=
  exists n, (n, c) ∈ uses /\ takesPart d c = true /\ isBelow (nameOf d n) p = true.

Context (Hnames : names_distinct) (Hsingle : single_producers).

Lemma includedOwnerOf_some p a c : includedOwnerOf O d p a = Some c ->
  exists n, includedPaths a !! n = Some c /\ isBelow (nameOf d n) p = true.
Proof.
  unfold includedOwnerOf. rewrite fmap_Some. intros ([n c'] & Hf & ->). apply find_some in Hf as [Hin Hb].
  exists n. split; [|done]. apply list_elem_of_In in Hin. rewrite (ok_pathOrder _ HO) in Hin. by apply elem_of_map_to_list in Hin.
Qed.
Lemma includedOwnerOf_none p a : includedOwnerOf O d p a = None ->
  forall n c, includedPaths a !! n = Some c -> isBelow (nameOf d n) p = false.
Proof.
  unfold includedOwnerOf. rewrite fmap_None. intros Hf n c Hn. apply (find_none _ _ Hf (n, c)), list_elem_of_In.
  rewrite (ok_pathOrder _ HO). by apply elem_of_map_to_list.
Qed.

(** The paths recorded when the uses [P] have been visited. *)
Record covers (P : list Use) (a : OwnershipAnalysis) : Prop := mkCovers {
  cov_use : forall n c, includedPaths a !! n = Some c -> (n, c) ∈ P /\ takesPart d c = true;
  cov_all : forall n c, (n, c) ∈ P -> takesPart d c = true ->
    exists m, includedPaths a !! m = Some c /\ (m = n \/ isBelow (nameOf d m) (nameOf d n) = true);
  cov_apart : forall m c m' c', includedPaths a !! m = Some c -> includedPaths a !! m' = Some c' ->
    isBelow (nameOf d m) (nameOf d m') = true -> m = m';
  cov_excluded : forall n c, excludedPaths a !! n = Some c -> (n, c) ∈ P /\ takesPart d c = false;
  cov_excludes : forall n c, (n, c) ∈ P -> takesPart d c = false -> is_Some (excludedPaths a !! n) }.

Lemma covers_unique P a p m c m' c' : (forall u, u ∈ P -> u ∈ uses) -> covers P a ->
  includedPaths a !! m = Some c -> includedPaths a !! m' = Some c' ->
  isBelow (nameOf d m) p = true -> isBelow (nameOf d m') p = true -> m = m' /\ c = c'.
Proof.
  intros HP [Hu Ha Hap _ _] H1 H2 B1 B2. assert (m = m') as <-; [|split; [done|congruence]].
  destruct (isBelow_chain _ _ _ B1 B2) as [E|[E|E]]; [|by eapply Hap|symmetry; by eapply Hap].
  apply (Hnames (m, c) (m', c')); [apply HP; by apply Hu|apply HP; by apply Hu|exact E].
Qed.

(** With [P] covered, the owner found is the one that has an output above the path. *)
Lemma covers_owner P a p c : (forall u, u ∈ P -> u ∈ uses) -> covers P a ->
  includedOwnerOf O d p a = Some c <-> exists n, (n, c) ∈ P /\ takesPart d c = true /\ isBelow (nameOf d n) p = true.
Proof.
  intros HP Hc. split.
  - intros H. apply includedOwnerOf_some in H as (n & Hn & Hb). exists n. by destruct (cov_use _ _ Hc _ _ Hn).
  - intros (n & Hn & Ht & Hb). destruct (cov_all _ _ Hc _ _ Hn Ht) as (m & Hm & Hmn).
    assert (Bm : isBelow (nameOf d m) p = true) by (destruct Hmn as [->|?]; [done|by eapply isBelow_trans]).
    destruct (includedOwnerOf O d p a) as [o|] eqn:E.
    + apply includedOwnerOf_some in E as (k & Hk & Bk). by destruct (covers_unique P a p k o m c HP Hc Hk Hm Bk Bm) as [_ ->].
    + by rewrite (includedOwnerOf_none _ _ E _ _ Hm) in Bm.
Qed.

Lemma covers_mono P P' a : covers P a -> (forall u, u ∈ P -> u ∈ P') ->
  (forall n c, (n, c) ∈ P' -> (n, c) ∈ P \/ (takesPart d c = true /\ exists m, includedPaths a !! m = Some c /\ isBelow (nameOf d m) (nameOf d n) = true)) ->
  covers P' a.
Proof.
  intros [H1 H2 H3 H4 H5] HP HP'. split; [|intros n c Hn Ht|done| |intros n c Hn Ht].
  - intros n c Hn. destruct (H1 n c Hn). auto.
  - destruct (HP' n c Hn) as [Ho|(_ & m & Hm & Hb)]; [by apply H2|exists m; auto].
  - intros n c Hn. destruct (H4 n c Hn). auto.
  - destruct (HP' n c Hn) as [Ho|(Ht' & _)]; [by apply (H5 n c)|congruence].
Qed.

Lemma in_snoc (P : list Use) n c u : u ∈ P ++ [(n, c)] -> u ∈ P \/ u = (n, c).
Proof. rewrite elem_of_app, list_elem_of_singleton. tauto. Qed.

Lemma covers_add P a n c : (forall u, u ∈ P ++ [(n, c)] -> u ∈ uses) -> covers P a ->
  (forall u, u ∈ P -> length (nameOf d u.1) <= length (nameOf d n)) ->
  takesPart d c = true -> includedOwnerOf O d (nameOf d n) a = None -> covers (P ++ [(n, c)]) (setOwner n c a).
Proof.
  intros HP [H1 H2 H3 H4 H5] Hl Ht En.
  assert (Hsame : forall c', includedPaths a !! n = Some c' -> c' = c).
  { intros c' Hc'. destruct (H1 _ _ Hc') as [Hin Ht']. apply (Hsingle n); [apply HP|apply HP|done|done]; set_solver. }
  assert (Hnew : forall m c', <[n := c]> (includedPaths a) !! m = Some c' -> (m = n /\ c' = c) \/ (m <> n /\ includedPaths a !! m = Some c')).
  { intros m c'. destruct (decide (m = n)) as [->|Hne]; [rewrite lookup_insert_eq; intros [= <-]; by left|].
    rewrite lookup_insert_ne by done. by right. }
  split; cbn.
  - intros m c' [[-> ->]|[_ Hm]]%Hnew; [split; [set_solver|done]|]. destruct (H1 _ _ Hm). split; [set_solver|done].
  - intros m c' [Hm|[= -> ->]]%in_snoc Ht'; [|exists n; rewrite lookup_insert_eq; auto].
    destruct (H2 _ _ Hm Ht') as (k & Hk & Hb). exists k. split; [|done]. destruct (decide (k = n)) as [->|Hne].
    + by rewrite lookup_insert_eq, (Hsame _ Hk).
    + by rewrite lookup_insert_ne.
  - intros m cm m' cm' [[-> ->]|[Hne Hm]]%Hnew [[-> ->]|[Hne' Hm']]%Hnew Hb; [done| | |by eapply H3].
    + destruct (H1 _ _ Hm') as [Hin _]. symmetry. apply (Hnames (m', cm') (n, c)); [apply HP; set_solver|apply HP; set_solver|].
      apply isBelow_longer; [exact Hb|by apply (Hl (m', cm'))].
    + by rewrite (includedOwnerOf_none _ _ En _ _ Hm) in Hb.
  - intros m c' Hm. destruct (H4 _ _ Hm). split; [set_solver|done].
  - intros m c' [Hm|[= -> ->]]%in_snoc Ht'; [by eapply H5|congruence].
Qed.

Lemma covers_exclude P a n c : covers P a -> takesPart d c = false -> covers (P ++ [(n, c)]) (setExcludedOwner n c a).
Proof.
  intros [H1 H2 H3 H4 H5] Ht. split; cbn; [| |done| |].
  - intros m c' Hm. destruct (H1 _ _ Hm). split; [set_solver|done].
  - intros m c' [Hm|[= -> ->]]%in_snoc Ht'; [by apply H2|congruence].
  - intros m c'. destruct (decide (m = n)) as [->|Hne]; [rewrite lookup_insert_eq; intros [= <-]; split; [set_solver|done]|].
    rewrite lookup_insert_ne by done. intros Hm. destruct (H4 _ _ Hm). split; [set_solver|done].
  - intros m c' Hm Ht'. destruct (decide (m = n)) as [->|Hne]; [by rewrite lookup_insert_eq|]. rewrite lookup_insert_ne by done.
    apply in_snoc in Hm as [Hm|[= -> ->]]; [by eapply H5|done].
Qed.

(** What the loop over the outputs ends with. *)
Definition established (P : list Use) (a : OwnershipAnalysis) (r : OwnershipAnalysis + nat * list chars) : Prop :=
  match r with
  | inl a' => covers P a' /\ outputNodesAndCommands a' = outputNodesAndCommands a
      /\ directoryInputNodesAndCommands a' = directoryInputNodesAndCommands a
  | inr (n', cs) => exists n c c', cs = [c'; c] /\ conflicting n c n' c'
  end.

Lemma establish_covers l : forall P a, covers P a -> (forall u, u ∈ P ++ l -> u ∈ uses) ->
  (forall u, u ∈ P -> Forall (noLonger (fun n => length (nameOf d n)) u) l) ->
  StronglySorted (noLonger (fun n => length (nameOf d n))) l ->
  established (P ++ l) a (establish O d l a).
Proof.
  induction l as [|[n c] l IH]; intros P a Hc HP Hl Hs; cbn; [rewrite app_nil_r; done|].
  assert (HP' : forall u, u ∈ P ++ [(n, c)] -> u ∈ uses) by set_solver.
  apply StronglySorted_inv in Hs as [Hs Hn].
  assert (Hl' : forall u, u ∈ P ++ [(n, c)] -> Forall (noLonger (fun n => length (nameOf d n)) u) l).
  { intros u [Hu| ->]%in_snoc; [|done]. by eapply Forall_inv_tail, Hl. }
  assert (step : forall a', covers (P ++ [(n, c)]) a' -> outputNodesAndCommands a' = outputNodesAndCommands a ->
    directoryInputNodesAndCommands a' = directoryInputNodesAndCommands a -> established (P ++ (n, c) :: l) a (establish O d l a')).
  { intros a' Ha' E1 E2. specialize (IH (P ++ [(n, c)]) a' Ha'). rewrite <- app_assoc in IH.
    specialize (IH HP Hl' Hs). unfold established in *. rewrite E1, E2 in IH. exact IH. }
  destruct (takesPart d c) eqn:Et; [|apply step; [by apply covers_exclude|done..]].
  destruct (includedOwnerOf O d (nameOf d n) a) as [owner|] eqn:Eo.
  - apply includedOwnerOf_some in Eo as (m & Hm & Hb). destruct (cov_use _ _ Hc _ _ Hm) as [Hin Ht].
    destruct (decide (owner = c)) as [->|Hne].
    + apply step; [|done..]. eapply covers_mono; [exact Hc|set_solver|]. intros k ck [Hk|[= -> ->]]%in_snoc; [by left|right; eauto].
    + exists m, owner, c. split; [done|]. split; [apply HP; set_solver|]. split; [apply HP'; set_solver|done].
  - apply step; [|done..]. apply covers_add; try done. intros u Hu. pose proof (Forall_inv (Hl u Hu)) as H. exact H.
Qed.

(** Nothing conflicts once everything is covered. *)
Lemma covers_no_conflict a : covers uses a -> forall n c n' c', ~ conflicting n c n' c'.
Proof.
  intros Hc n c n' c' (H1 & H2 & T1 & T2 & Hb & Hne). apply Hne.
  assert (O1 : includedOwnerOf O d (nameOf d n') a = Some c) by (apply (covers_owner uses); [done|done|]; eauto).
  destruct (cov_all _ _ Hc _ _ H2 T2) as (m & Hm & [->|Hbm]).
  - apply includedOwnerOf_some in O1 as (k & Hk & Bk). pose proof (cov_apart _ _ Hc _ _ _ _ Hk Hm Bk). subst. congruence.
  - assert (O2 : includedOwnerOf O d (nameOf d n') a = Some c') by (apply (covers_owner uses); [done|done|]; exists m; by destruct (cov_use _ _ Hc _ _ Hm)).
    congruence.
Qed.
End Establish.

(** ** Adding outputs and scan dependencies *)
Lemma isBelow_name d d' n p : nameOf d' n = nameOf d n -> isBelow (nameOf d' n) p = isBelow (nameOf d n) p.
Proof. by intros ->. Qed.

Lemma find_ext' {A} (f g : A -> bool) l : (forall x, f x = g x) -> List.find f l = List.find g l.
Proof. intros H. induction l as [|x l IH]; [done|]. cbn. by rewrite H, IH. Qed.

(** The two descriptions agree on what the analysis looks at. *)
Record same_static (d d' : BuildDescription) : Prop := mkStatic {
  st_name : forall n, nameOf d' n = nameOf d n;
  st_command : forall k, match commands d !! k, commands d' !! k with
    | Some x, Some x' => getName x' = getName x /\ getInputs x' = getInputs x
        /\ isExternalCommand x' = isExternalCommand x /\ isRepaired x' = isRepaired x
    | None, None => True
    | _, _ => False
    end;
  st_nodeNames : nodeNames d' = nodeNames d;
  st_targets : targets d' = targets d;
  st_tools : tools d' = tools d;
  st_bases : environmentBases d' = environmentBases d;
  st_default : defaultTarget d' = defaultTarget d }.

Lemma same_static_refl d : same_static d d.
Proof. split; try done. intros k. by destruct (commands d !! k). Qed.
Lemma same_static_trans d1 d2 d3 : same_static d1 d2 -> same_static d2 d3 -> same_static d1 d3.
Proof.
  intros [A1 A2 A3 A4 A5 A6 A7] [B1 B2 B3 B4 B5 B6 B7]. split; try congruence.
  intros k. specialize (A2 k). specialize (B2 k). destruct (commands d1 !! k), (commands d2 !! k), (commands d3 !! k); try done.
  destruct A2 as (? & ? & ? & ?), B2 as (? & ? & ? & ?). repeat split; congruence.
Qed.
Lemma same_includedOwnerOf O d d' p a : same_static d d' -> includedOwnerOf O d' p a = includedOwnerOf O d p a.
Proof. intros H. unfold includedOwnerOf. f_equal. apply find_ext'. intros u. apply isBelow_name, H. Qed.
Lemma same_excludedOwnerOf O d d' p a : same_static d d' -> excludedOwnerOf O d' p a = excludedOwnerOf O d p a.
Proof. intros H. unfold excludedOwnerOf. f_equal. apply find_ext'. intros u. by rewrite (st_name _ _ H). Qed.
Lemma same_repaired d d' k : same_static d d' -> repaired d' k = repaired d k.
Proof.
  intros H. unfold repaired. pose proof (st_command _ _ H k) as Hk. destruct (commands d !! k), (commands d' !! k); [|done..].
  by destruct Hk as (_ & _ & _ & ->).
Qed.

Lemma updNode_lookup n f d m : allNodes (updNode n f d) !! m = (if decide (m = n) then f <$> allNodes d !! m else allNodes d !! m).
Proof.
  unfold updNode, set_nodes. cbn. destruct (decide (m = n)) as [->|Hne]; [by rewrite list_lookup_alter_eq|].
  by rewrite list_lookup_alter_ne.
Qed.
Lemma updNode_name n f d m : (forall b, nodeName (f b) = nodeName b) -> nameOf (updNode n f d) m = nameOf d m.
Proof.
  intros Hf. unfold nameOf, nodeAt. rewrite updNode_lookup. destruct (decide (m = n)) as [->|]; [|done].
  destruct (allNodes d !! n); [apply Hf|done].
Qed.
Lemma updNode_static n f d : (forall b, nodeName (f b) = nodeName b) -> same_static d (updNode n f d).
Proof. intros Hf. split; try done; [intros m; by apply updNode_name|]. intros k. cbn. by destruct (commands d !! k). Qed.

Lemma addOutput_external n x : isExternalCommand x = true ->
  getOutputs (addOutput n x) = getOutputs x ++ [n] /\ getInputs (addOutput n x) = getInputs x
  /\ isExternalCommand (addOutput n x) = true /\ isRepaired (addOutput n x) = isRepaired x /\ getName (addOutput n x) = getName x.
Proof. by destruct x. Qed.

Definition add_producers (l : list chars) (b : BuildNode) : BuildNode :=
  mkBuildNode (nodeName b) (producers b ++ l) (type b) (commandTimestamp b) (mutated b) (exclusionPatterns b) (mustScanAfterPaths b).
Lemma add_no_producers b : add_producers [] b = b.
Proof. destruct b. unfold add_producers. cbn. by rewrite app_nil_r. Qed.
Definition add_scans (l : list PathRef) (b : BuildNode) : BuildNode := set_scan_after (mustScanAfterPaths b ++ l) b.
Lemma add_no_scans b : add_scans [] b = b.
Proof. destruct b. unfold add_scans, set_scan_after. cbn. by rewrite app_nil_r. Qed.

Section Effects.
Context (O : Orders) (d : BuildDescription) (a : OwnershipAnalysis).
Context (Howner : forall p c, includedOwnerOf O d p a = Some c -> takesPart d c = true).

Definition ownerOf (n : nat) : option chars := includedOwnerOf O d (nameOf d n) a.
Definition outputsOf (k : chars) : list nat := match commands d !! k with Some x => getOutputs x | None => [] end.
(** The command that gets the directory as a new output. *)
Definition newProducer (n : nat) : list chars :=
  match ownerOf n with Some k => if decide (n ∈ outputsOf k) then [] else [k] | None => [] end.

(** The description when the directory inputs [P] have been visited. *)
Record amended (P : list Use) (d' : BuildDescription) : Prop := mkAmended {
  am_static : same_static d d';
  am_node : forall n, allNodes d' !! n = add_producers (if decide (n ∈ P.*1) then newProducer n else []) <$> allNodes d !! n;
  am_outputs : forall k x', commands d' !! k = Some x' ->
    forall n, n ∈ getOutputs x' <-> n ∈ outputsOf k \/ (n ∈ P.*1 /\ ownerOf n = Some k) }.

Lemma in_fst_snoc (P : list Use) u n : n ∈ (P ++ [u]).*1 <-> n ∈ P.*1 \/ n = u.1.
Proof. rewrite fmap_app, elem_of_app. cbn. by rewrite list_elem_of_singleton. Qed.

Lemma amended_nil : amended [] d.
Proof.
  split; [apply same_static_refl| |].
  - intros n. rewrite decide_False by set_solver. by destruct (allNodes d !! n); cbn; [rewrite add_no_producers|].
  - intros k x' Hk n. unfold outputsOf. rewrite Hk. set_solver.
Qed.

Lemma amended_skip P u d' : amended P d' ->
  (u.1 ∈ P.*1 \/ newProducer u.1 = []) -> (forall k, ownerOf u.1 = Some k -> u.1 ∈ P.*1 \/ u.1 ∈ outputsOf k) -> amended (P ++ [u]) d'.
Proof.
  intros [H1 H2 H3] Hn Hk. split; [done| |].
  - intros n. rewrite H2. f_equal. f_equal. pose proof (in_fst_snoc P u n) as Hin.
    destruct (decide (n = u.1)) as [->|Hne]; [|repeat case_decide; tauto].
    destruct Hn as [Hn|Hn]; [repeat case_decide; tauto|by rewrite Hn; repeat case_decide].
  - intros k x' Hx n. rewrite (H3 k x' Hx), in_fst_snoc. split; [tauto|].
    intros [?|[[?| ->] ?]]; [tauto|tauto|]. destruct (Hk k ltac:(done)); tauto.
Qed.

Lemma amend_step P u d' : amended P d' -> amended (P ++ [u]) (amend O a d' u).
Proof.
  intros Ha. pose proof Ha as [H1 H2 H3]. unfold amend. rewrite (st_name _ _ H1), (same_includedOwnerOf _ _ _ _ _ H1).
  fold (ownerOf u.1). destruct (ownerOf u.1) as [k|] eqn:Eo; [|apply amended_skip; [done|right; unfold newProducer; by rewrite Eo|congruence]].
  pose proof (Howner _ _ Eo) as Ht. unfold takesPart in Ht. pose proof (st_command _ _ H1 k) as Hk.
  destruct (commands d !! k) as [x|] eqn:Ex; [|done]. destruct (commands d' !! k) as [x'|] eqn:Ex'; [|done].
  destruct Hk as (Kn & Ki & Ke & Kr). apply andb_true_iff in Ht as [Te Tr]. pose proof (H3 k x' Ex' u.1) as Hout.
  destruct (decide (u.1 ∈ getOutputs x')) as [Hin|Hin].
  { apply amended_skip; [done| |intros k' Hk'; assert (k' = k) as -> by congruence; tauto]. unfold newProducer. rewrite Eo. case_decide; tauto. }
  assert (Hn1 : u.1 ∉ outputsOf k) by tauto. assert (Hn2 : u.1 ∉ P.*1) by tauto. rewrite Kr, Tr.
  destruct (addOutput_external u.1 x') as (A1 & A2 & A3 & A4 & A5); [congruence|]. split.
  - eapply same_static_trans; [|by apply updNode_static]. eapply same_static_trans; [exact H1|].
    split; try done. intros k'. cbn. destruct (decide (k' = k)) as [->|Hne].
    + rewrite Ex', lookup_insert_eq. repeat split; congruence.
    + rewrite lookup_insert_ne by done. by destruct (commands d' !! k').
  - intros n. rewrite updNode_lookup. cbn. rewrite H2. pose proof (in_fst_snoc P u n) as Hi.
    destruct (decide (n = u.1)) as [->|Hne].
    + destruct (decide (u.1 ∈ P.*1)); [done|]. destruct (decide (u.1 ∈ (P ++ [u]).*1)); [|tauto].
      unfold newProducer. rewrite Eo, decide_False by done.
      destruct (allNodes d !! u.1) as [b|]; [|done]. cbn. by rewrite add_no_producers.
    + f_equal. f_equal. repeat case_decide; tauto.
  - intros k' y. cbn. destruct (decide (k' = k)) as [->|Hne].
    + rewrite lookup_insert_eq. intros [= <-] n. rewrite A1, elem_of_app, list_elem_of_singleton, in_fst_snoc, (H3 k x' Ex').
      split; [intros [?| ->]; [tauto|auto]|]. intros [?|[[?| ->] ?]]; tauto.
    + rewrite lookup_insert_ne by done. intros Hy n. rewrite (H3 k' y Hy), in_fst_snoc. split; [tauto|]. intros [?|[[?| ->] ?]]; [tauto|tauto|congruence].
Qed.

Lemma amend_all l : forall P d', amended P d' -> amended (P ++ l) (foldl (amend O a) d' l).
Proof.
  induction l as [|u l IH]; intros P d' H; cbn; [by rewrite app_nil_r|].
  replace (P ++ u :: l) with ((P ++ [u]) ++ l) by (by rewrite <- app_assoc). by apply IH, amend_step.
Qed.
End Effects.

Section Defer.
Context (d : BuildDescription) (unowned : list Use).

(** The directory that is scanned after the output. *)
Definition scannedAfter (u : Use) : option nat :=
  fst <$> List.find (fun dir => isPrefix (nameOf d dir.1) (nameOf d u.1) && repaired d u.2) unowned.
Definition scansOf (n : nat) (P : list Use) : list PathRef :=
  omap (fun u => if decide (scannedAfter u = Some n) then Some (Live (nameOf d u.1)) else None) P.

Record deferred (P : list Use) (d' : BuildDescription) : Prop := mkDeferred {
  df_static : same_static d d';
  df_node : forall n, allNodes d' !! n = add_scans (scansOf n P) <$> allNodes d !! n;
  df_commands : commands d' = commands d }.

Lemma deferred_nil : deferred [] d.
Proof. split; [apply same_static_refl| |done]. intros n. by destruct (allNodes d !! n); cbn; [rewrite add_no_scans|]. Qed.

Lemma defer_step P u d' : deferred P d' -> deferred (P ++ [u]) (defer unowned d' u).
Proof.
  intros [H1 H2 H3]. unfold defer. rewrite (st_name _ _ H1), (same_repaired _ _ _ H1).
  rewrite (find_ext' (fun dir => isPrefix (nameOf d' dir.1) (nameOf d u.1) && repaired d u.2)
    (fun dir => isPrefix (nameOf d dir.1) (nameOf d u.1) && repaired d u.2)) by (intros dir; by rewrite (st_name d d' H1 dir.1)).
  assert (Hs : forall n, scansOf n (P ++ [u]) = scansOf n P ++ (if decide (scannedAfter u = Some n) then [Live (nameOf d u.1)] else [])).
  { intros n. unfold scansOf. rewrite omap_app. f_equal. cbn. by case_decide. }
  unfold scannedAfter in Hs. destruct (List.find (fun dir => isPrefix (nameOf d dir.1) (nameOf d u.1) && repaired d u.2) unowned) as [dir|]; cbn in Hs.
  - split; [eapply same_static_trans; [exact H1|by apply updNode_static]| |done].
    intros n. rewrite updNode_lookup, H2, Hs. destruct (decide (n = dir.1)) as [->|Hne].
    + rewrite decide_True by done. destruct (allNodes d !! dir.1) as [b|]; [|done]. cbn. unfold addScanAfter, add_scans, set_scan_after. cbn. by rewrite app_assoc.
    + rewrite decide_False by congruence. by rewrite app_nil_r.
  - split; [done| |done]. intros n. by rewrite H2, Hs, decide_False, app_nil_r.
Qed.

Lemma defer_all l : forall P d', deferred P d' -> deferred (P ++ l) (foldl (defer unowned) d' l).
Proof.
  induction l as [|u l IH]; intros P d' H; cbn; [by rewrite app_nil_r|].
  replace (P ++ u :: l) with ((P ++ [u]) ++ l) by (by rewrite <- app_assoc). by apply IH, defer_step.
Qed.
End Defer.

(** ** The analysis as a whole *)
Definition isOutput (d : BuildDescription) (n : nat) (c : chars) : Prop :=
  exists x, commands d !! c = Some x /\ n ∈ getOutputs x /\ isVirtual (nodeAt d n) = false.
Definition isDirectoryInput (d : BuildDescription) (n : nat) (c : chars) : Prop :=
  exists x, commands d !! c = Some x /\ n ∈ getInputs x /\ isDirectoryNode (nodeAt d n) = true.

Definition outputs_named_once (d : BuildDescription) : Prop :=
  forall n c m c', isOutput d n c -> isOutput d m c' -> nameOf d n = nameOf d m -> n = m.
Definition one_producer (d : BuildDescription) : Prop :=
  forall n c c', isOutput d n c -> isOutput d n c' -> takesPart d c = true -> takesPart d c' = true -> c = c'.

(** Both commands take part, and one writes below an output of the other. *)
Definition conflict (d : BuildDescription) (n : nat) (c : chars) (n' : nat) (c' : chars) : Prop :=
  isOutput d n c /\ isOutput d n' c' /\ takesPart d c = true /\ takesPart d c' = true
  /\ isBelow (nameOf d n) (nameOf d n') = true /\ c <> c'.
(** The command takes part and has an output that the path is below. *)
Definition owner (d : BuildDescription) (c p : chars) : Prop :=
  exists n, isOutput d n c /\ takesPart d c = true /\ isBelow (nameOf d n) p = true.
(** A directory that a repaired command reads and nobody owns. *)
Definition unowned_input (d : BuildDescription) (n : nat) : Prop :=
  (exists c, isDirectoryInput d n c /\ repaired d c = true)
  /\ (forall c, ~ owner d c (nameOf d n))
  /\ (forall m c, isOutput d m c -> takesPart d c = false -> nameOf d m <> nameOf d n).

Section Run.
Context (O : Orders) (HO : orders_ok O) (d : BuildDescription).
Abbreviation U := (outputUses O d).

Lemma elem_of_uses (f : Command -> list nat) (P : nat -> Prop) `{!forall n, Decision (P n)} n c :
  (n, c) ∈ concat (map (fun x => map (fun n => (n, x.1)) (filter P (f x.2))) (commandOrder O (commands d)))
  <-> exists x, commands d !! c = Some x /\ n ∈ f x /\ P n.
Proof.
  rewrite list_elem_of_In, in_concat. split.
  - intros (l & Hl & Hin). apply in_map_iff in Hl as ([k x] & <- & Hx). apply in_map_iff in Hin as (m & [= -> ->] & Hm).
    apply list_elem_of_In in Hx, Hm. rewrite (ok_commandOrder _ HO), elem_of_map_to_list in Hx.
    apply list_elem_of_filter in Hm as [Hp Hm]. by exists x.
  - intros (x & Hx & Hn & Hp). eexists. split.
    + apply in_map_iff. exists (c, x). split; [done|]. apply list_elem_of_In. by rewrite (ok_commandOrder _ HO), elem_of_map_to_list.
    + apply in_map_iff. exists n. split; [done|]. apply list_elem_of_In, list_elem_of_filter. by split.
Qed.
Lemma output_use n c : (n, c) ∈ U <-> isOutput d n c.
Proof. apply elem_of_uses. Qed.
Lemma directory_use n c : (n, c) ∈ directoryUses O d <-> isDirectoryInput d n c.
Proof. apply elem_of_uses. Qed.

Lemma conflict_use n c n' c' : conflicting d U n c n' c' <-> conflict d n c n' c'.
Proof. unfold conflicting, conflict. by rewrite !output_use. Qed.
Lemma owner_use c p : owns d U c p <-> owner d c p.
Proof. unfold owns, owner. by setoid_rewrite output_use. Qed.

Context (Hnames : outputs_named_once d) (Hone : one_producer d).

Lemma uses_distinct : names_distinct d U.
Proof. intros [n c] [m c'] Hn Hm. apply output_use in Hn, Hm. by apply (Hnames n c m c'). Qed.
Lemma uses_single : single_producers d U.
Proof. intros n c c' Hn Hn'. apply output_use in Hn, Hn'. by apply (Hone n c c'). Qed.

Lemma sorted_uses u : u ∈ outputNodesAndCommands (new O d) <-> u ∈ U.
Proof. cbn. by rewrite (proj1 (ok_sort _ HO _ _)). Qed.

Lemma new_covers : established d U (outputNodesAndCommands (new O d)) (new O d) (establishOwnerships O d (new O d)).
Proof.
  apply (establish_covers O HO d U uses_distinct uses_single _ [] (new O d)).
  - split; cbn; try (intros *; rewrite lookup_empty; done); intros *; by rewrite elem_of_nil.
  - intros u. apply sorted_uses.
  - intros u. by rewrite elem_of_nil.
  - cbn. apply (ok_sort _ HO).
Qed.

Lemma owner_found a : covers d U a -> forall p c, includedOwnerOf O d p a = Some c <-> owner d c p.
Proof. intros Hc p c. rewrite (covers_owner O HO d U uses_distinct U a p c (fun _ H => H) Hc). by rewrite <- owner_use. Qed.

Lemma covers_uses a : covers d (outputNodesAndCommands (new O d)) a -> covers d U a.
Proof.
  intros H. eapply covers_mono; [exact H|apply sorted_uses|]. intros n c Hn. left. by apply sorted_uses.
Qed.

(** The unowned directories are the right ones, also after the outputs were added. *)
Lemma unowned_spec d' a n : covers d U a -> directoryInputNodesAndCommands a = directoryUses O d -> same_static d d' ->
  (exists c, (n, c) ∈ unownedDirectories O d' a) <-> unowned_input d n.
Proof.
  intros Hc Hd Hs. unfold unownedDirectories, unowned_input. rewrite Hd.
  assert (Hu : isIncludedUnownedNode O d' n a = true <->
    (forall c, ~ owner d c (nameOf d n)) /\ (forall m c, isOutput d m c -> takesPart d c = false -> nameOf d m <> nameOf d n)).
  { unfold isIncludedUnownedNode. rewrite andb_true_iff, !bool_decide_eq_true, (st_name _ _ Hs),
      (same_includedOwnerOf _ _ _ _ _ Hs), (same_excludedOwnerOf _ _ _ _ _ Hs). apply ZifyClasses.and_morph.
    - split; [intros E c Ho|intros H; destruct (includedOwnerOf O d (nameOf d n) a) eqn:E; [|done]].
      + apply (owner_found _ Hc) in Ho. congruence.
      + apply (owner_found _ Hc) in E. by destruct (H _ E).
    - unfold excludedOwnerOf. rewrite fmap_None. split.
      + intros E m c Hm Ht En. apply output_use in Hm. destruct (cov_excludes _ _ _ Hc _ _ Hm Ht) as [c' Hc'].
        pose proof (find_none _ _ E (m, c')) as F. cbn in F. rewrite bool_decide_eq_true_2 in F by done. discriminate F.
        apply list_elem_of_In. rewrite (ok_pathOrder _ HO). by apply elem_of_map_to_list.
      + intros H. destruct (List.find _ _) as [[m c]|] eqn:E; [|done]. apply find_some in E as [Hin Hb]. exfalso.
        apply bool_decide_eq_true in Hb. apply list_elem_of_In in Hin. rewrite (ok_pathOrder _ HO), elem_of_map_to_list in Hin.
        destruct (cov_excluded _ _ _ Hc _ _ Hin) as [Hm Ht]. apply (H m c); [by apply output_use|done|done]. }
  split.
  - intros [c Hin]. apply list_elem_of_filter in Hin as [Hb Hin]. apply andb_true_iff in Hb as [Hb Hr]. cbn in Hb, Hr.
    apply Hu in Hb. rewrite (same_repaired _ _ _ Hs) in Hr. split; [exists c; split; [by apply directory_use|done]|done].
  - intros [(c & Hi & Hr) H]. exists c. apply list_elem_of_filter. split; [|by apply directory_use].
    apply andb_true_iff. cbn. by rewrite (same_repaired _ _ _ Hs), (proj2 Hu H).
Qed.
End Run.

(** What the analysis makes of a description without conflicts. *)
Record resolved (d d' : BuildDescription) : Prop := mkResolved {
  rs_static : same_static d d';
  rs_outputs : forall k x x', commands d !! k = Some x -> commands d' !! k = Some x' ->
    forall n, n ∈ getOutputs x' <-> n ∈ getOutputs x \/ ((exists c, isDirectoryInput d n c) /\ owner d k (nameOf d n));
  rs_node : forall n b, allNodes d !! n = Some b -> exists b', allNodes d' !! n = Some b'
    /\ nodeName b' = nodeName b /\ type b' = type b /\ commandTimestamp b' = commandTimestamp b /\ mutated b' = mutated b
    /\ exclusionPatterns b' = exclusionPatterns b
    /\ (forall k, k ∈ producers b' <-> k ∈ producers b
          \/ ((exists c, isDirectoryInput d n c) /\ owner d k (nameOf d n) /\ n ∉ outputsOf d k))
    /\ (forall q, q ∈ mustScanAfterPaths b' -> q ∈ mustScanAfterPaths b
          \/ exists m c, isOutput d m c /\ repaired d c = true /\ q = Live (nameOf d m)
               /\ unowned_input d n /\ isPrefix (nameOf d n) (nameOf d m) = true);
  rs_scan : forall m c, isOutput d m c -> repaired d c = true ->
    (exists n, unowned_input d n /\ isPrefix (nameOf d n) (nameOf d m) = true) ->
    exists n, unowned_input d n /\ isPrefix (nameOf d n) (nameOf d m) = true
      /\ forall b', allNodes d' !! n = Some b' -> Live (nameOf d m) ∈ mustScanAfterPaths b' }.

Section Resolve.
Context (O : Orders) (HO : orders_ok O) (d : BuildDescription).
Context (Hnames : outputs_named_once d) (Hone : one_producer d).

Lemma newProducer_spec a n k : covers d (outputUses O d) a -> (exists c, isDirectoryInput d n c) ->
  k ∈ newProducer O d a n <-> owner d k (nameOf d n) /\ n ∉ outputsOf d k.
Proof.
  intros Hc Hn. unfold newProducer, ownerOf. rewrite <- (owner_found O HO d Hnames a Hc). destruct (includedOwnerOf O d (nameOf d n) a) as [o|].
  - case_decide; [rewrite elem_of_nil|rewrite list_elem_of_singleton]; split; [done|by intros [[= <-] ?]|by intros ->|by intros [[= <-] _]].
  - rewrite elem_of_nil. split; [done|by intros [? _]].
Qed.

Lemma in_dirs n : n ∈ (directoryUses O d).*1 <-> exists c, isDirectoryInput d n c.
Proof.
  rewrite list_elem_of_fmap. split.
  - intros ([m c] & -> & H). exists c. by apply directory_use in H.
  - intros [c H]. exists (n, c). split; [done|by apply directory_use].
Qed.

Lemma effects_resolved a : covers d (outputUses O d) a -> directoryInputNodesAndCommands a = directoryUses O d ->
  (forall u, u ∈ outputNodesAndCommands a <-> u ∈ outputUses O d) ->
  resolved d (deferScanningUnownedInputsUntilSubpathsAvailable O a (amendOutputOfOwnersWithConsumedSubpaths O a d)).
Proof.
  intros Hc Hd Hu. unfold amendOutputOfOwnersWithConsumedSubpaths. rewrite Hd.
  assert (Ht : forall p c, includedOwnerOf O d p a = Some c -> takesPart d c = true).
  { intros p c H. apply (owner_found O HO d Hnames a Hc) in H as (n & _ & H & _). exact H. }
  pose proof (amend_all O d a Ht (directoryUses O d) [] d (amended_nil O d a Ht)) as [A1 A2 A3]. cbn [app] in A2, A3.
  set (d1 := foldl (amend O a) d (directoryUses O d)) in *. unfold deferScanningUnownedInputsUntilSubpathsAvailable.
  set (un := unownedDirectories O d1 a).
  pose proof (defer_all d1 un (outputNodesAndCommands a) [] d1 (deferred_nil d1 un)) as [D1 D2 D3]. cbn [app] in D2.
  set (d2 := foldl (defer un) d1 (outputNodesAndCommands a)) in *.
  assert (Hun : forall n, (exists c, (n, c) ∈ un) <-> unowned_input d n) by (intros n; by apply unowned_spec).
  assert (Hscan : forall u n, scannedAfter d1 un u = Some n ->
            unowned_input d n /\ isPrefix (nameOf d n) (nameOf d u.1) = true /\ repaired d u.2 = true).
  { intros u n E. unfold scannedAfter in E. apply fmap_Some in E as ([m c] & E & ->). apply find_some in E as [Hin Hb].
    apply andb_true_iff in Hb as [Hb Hr]. cbn in *. rewrite !(st_name _ _ A1) in Hb. rewrite (same_repaired _ _ _ A1) in Hr.
    split; [|done]. apply Hun. exists c. by apply list_elem_of_In. }
  split.
  - by eapply same_static_trans.
  - intros k x x' Hx Hx' n. rewrite D3 in Hx'. rewrite (A3 k x' Hx'), in_dirs. unfold outputsOf, ownerOf. rewrite Hx.
    by rewrite (owner_found O HO d Hnames a Hc).
  - intros n b Hb. rewrite D2, A2, Hb. cbn. eexists. split; [done|]. cbn. do 5 (split; [done|]). split.
    + intros k. rewrite elem_of_app. apply ZifyClasses.or_morph; [done|]. pose proof (in_dirs n) as Hi. case_decide as Hin.
      * rewrite newProducer_spec by tauto. tauto.
      * rewrite elem_of_nil. tauto.
    + intros q. rewrite elem_of_app. intros [?|Hq]; [by left|]. right. apply list_elem_of_omap in Hq as ([m c] & Hin & Hq).
      case_decide as E; [|done]. injection Hq as <-. apply Hscan in E as (Hn & Hp & Hr). exists m, c. rewrite (st_name _ _ A1).
      split; [by apply (output_use O HO), Hu|]. done.
  - intros m c Hm Hr (n & Hn & Hp). apply Hun in Hn as [k Hk]. destruct (scannedAfter d1 un (m, c)) as [n'|] eqn:E.
    + destruct (Hscan _ _ E) as (Hn' & Hp' & _). exists n'. split; [done|]. split; [done|]. intros b' Hb'.
      rewrite D2 in Hb'. destruct (allNodes d1 !! n') as [b1|]; [|done]. injection Hb' as <-. cbn. apply elem_of_app. right.
      apply list_elem_of_omap. exists (m, c). split; [by apply Hu, (output_use O HO)|]. rewrite decide_True by done. by rewrite (st_name _ _ A1).
    + exfalso. unfold scannedAfter in E. apply fmap_None in E. pose proof (find_none _ _ E (n, k)) as F. cbn in F.
      rewrite !(st_name _ _ A1), (same_repaired _ _ _ A1), Hp, Hr in F. discriminate F. by apply list_elem_of_In.
Qed.

(** C22: The ownership analysis resolves who writes where, whatever the order in which hash
    tables and maps of pointers are visited, for a description in which no two nodes that
    are outputs have the same name and no node is an output of two commands that take part.
    (Two commands that write the same file are not what it looks for, and are not reported
    here: [same_output_not_reported].)  If two of the commands that take part write one
    below an output of the other it reports such a pair and nothing is loaded.  Otherwise
    every directory that is an input becomes an output of the command whose output it is
    below, and of no other; the paths a directory is scanned after are outputs below it, and
    the directory is read by a repaired command, owned by nobody and produced by nobody; and
    every output of a repaired command that is below such a directory is waited for by one.
    Nothing else changes. *)
Theorem ownership_resolved :
  match run O d with
  | inr (n', cs) => exists n c c', cs = [c'; c] /\ conflict d n c n' c'
  | inl d' => (forall n c n' c', ~ conflict d n c n' c') /\ resolved d d'
  end.
Proof.
  pose proof (new_covers O HO d Hnames Hone) as H. unfold run. destruct (establishOwnerships O d (new O d)) as [a|[n' cs]].
  - destruct H as (Hc & E1 & E2). apply covers_uses in Hc; [|done]. split.
    + intros n c n' c' F. apply (conflict_use O HO) in F. revert F. eapply covers_no_conflict; [exact HO| |exact Hc].
      by apply uses_distinct.
    + apply effects_resolved; [done|done|]. intros u. rewrite E1. by apply sorted_uses.
  - destruct H as (n & c & c' & -> & F). exists n, c, c'. split; [done|]. by apply (conflict_use O HO).
Qed.
End Resolve.

(** ** Concrete descriptions *)
#[export] Instance noLonger_total f : Total (noLonger f).
Proof. intros u v. unfold noLonger. lia. Qed.
#[export] Instance noLonger_trans f : Transitive (noLonger f).
Proof. intros u v w. unfold noLonger. lia. Qed.
Lemma listOrders_ok : orders_ok listOrders.
Proof.
  split; [done|done|]. intros f l. cbn. split; [apply merge_sort_Permutation|apply (StronglySorted_merge_sort (noLonger f))].
Qed.

(** The hypotheses, tested. *)
Definition outputs_check (d : BuildDescription) : bool :=
  let l := outputUses listOrders d in
  forallb (fun u => forallb (fun v =>
    implb (bool_decide (nameOf d u.1 = nameOf d v.1)) (u.1 =? v.1)
    && implb ((u.1 =? v.1) && takesPart d u.2 && takesPart d v.2) (bool_decide (u.2 = v.2))) l) l.
Lemma outputs_check_ok d : outputs_check d = true -> outputs_named_once d /\ one_producer d.
Proof.
  intros H. assert (W : forall n c m c', isOutput d n c -> isOutput d m c' ->
    (nameOf d n = nameOf d m -> n = m) /\ (n = m -> takesPart d c = true -> takesPart d c' = true -> c = c')).
  { intros n c m c' H1 H2. apply (output_use listOrders listOrders_ok), list_elem_of_In in H1, H2.
    unfold outputs_check in H. rewrite forallb_forall in H. specialize (H _ H1). rewrite forallb_forall in H. specialize (H _ H2).
    cbn in H. apply andb_true_iff in H as [Ha Hb]. split.
    - intros E. rewrite bool_decide_eq_true_2 in Ha by done. by apply Nat.eqb_eq.
    - intros -> T1 T2. rewrite Nat.eqb_refl, T1, T2 in Hb. by apply bool_decide_eq_true in Hb. }
  split; [intros n c m c' H1 H2; by apply (W n c m c')|intros n c c' H1 H2; by apply (W n c n c')].
Qed.

Definition repaired_command (name : string) (ins outs : list nat) : chars * Command :=
  (chars_of name, ShellC (Shell.set_external (upd_repairViaOwnershipAnalysis (fun _ => true)
     (ExternalCommand.configureOutputs outs (ExternalCommand.configureInputs ins (newExternalCommand (chars_of name)))))
     (Shell.newShellCommand (chars_of name) true))).
Definition describe_nodes (names : list string) (l : list (chars * Command)) : BuildDescription :=
  mkBuildDescription ∅ (map (fun n => createNode (chars_of n)) names)
    (list_to_map (imap (fun i n => (chars_of n, i)) names)) ∅ (list_to_map l) ∅ [].

(** One command makes a directory, another reads a directory below it and one nobody makes,
    in which a third writes. *)
Definition owned_example : BuildDescription :=
  describe_nodes ["owned/"; "owned/y/"; "free/"; "free/a"; "out"]
    [repaired_command "B" [] [0]; repaired_command "C" [1; 2] [4]; repaired_command "A" [] [3]].
Definition views (r : BuildDescription + nat * list chars) : option (list nat * list (list chars * list PathRef)) :=
  match r with
  | inl d => Some (match commands d !! chars_of "B" with Some x => getOutputs x | None => [] end,
                   map (fun b => (producers b, mustScanAfterPaths b)) (allNodes d))
  | inr _ => None
  end.

Lemma ownership_resolved_witness :
  views (run listOrders owned_example)
    = Some ([0; 1], [([], []); ([chars_of "B"], []); ([], [Live (chars_of "free/a")]); ([], []); ([], [])])
  /\ match run listOrders owned_example with
     | inr (n', cs) => exists n c c', cs = [c'; c] /\ conflict owned_example n c n' c'
     | inl d' => (forall n c n' c', ~ conflict owned_example n c n' c') /\ resolved owned_example d'
     end.
Proof.
  split; [vm_compute; reflexivity|]. apply (ownership_resolved listOrders listOrders_ok owned_example).
  - apply outputs_check_ok. vm_compute. reflexivity.
  - apply outputs_check_ok. vm_compute. reflexivity.
Defined.

(** Two commands write one below the other. *)
Example conflict_reported :
  run listOrders (describe_nodes ["d/"; "d/a"] [repaired_command "B" [] [0]; repaired_command "A" [] [1]])
  = inr (1, [chars_of "A"; chars_of "B"]).
Proof. vm_compute. reflexivity. Qed.

(** Two commands write the same file: nothing is reported; of the same directory, it is. *)
Example same_output_not_reported :
  views (run listOrders (describe_nodes ["out"] [repaired_command "B" [] [0]; repaired_command "A" [] [0]]))
    = Some ([0], [([], [])])
  /\ exists names, run listOrders (describe_nodes ["out/"] [repaired_command "B" [] [0]; repaired_command "A" [] [0]]) = inr (0, names).
Proof. split; [|eexists]; vm_compute; reflexivity. Qed.

(** Of two directories that are read and contain the output, only one waits for it. *)
Example outer_directory_does_not_wait :
  views (run listOrders (describe_nodes ["d/"; "d/e/"; "d/e/a"; "x"; "y"]
    [repaired_command "A" [] [2]; repaired_command "C" [0] [3]; repaired_command "D" [1] [4]]))
  = Some ([], [([], []); ([], [Live (chars_of "d/e/a")]); ([], []); ([], []); ([], [])]).
Proof. vm_compute. reflexivity. Qed.

(** A directory written without a slash waits for the files of its siblings. *)
Example sibling_waited_for :
  let d := describe_nodes ["lib"; "library/a"; "x"] [repaired_command "A" [] [1]; repaired_command "C" [0] [2]] in
  views (run listOrders (updNode 0 (set_type Directory) d))
  = Some ([], [([], [Live (chars_of "library/a")]); ([], []); ([], [])]).
Proof. vm_compute. reflexivity. Qed.
