(* ===== verification/DescriptionProps.v ===== *)
(** * Properties of the builder

    What configuring a command leaves alone, and the invariant of the description under
    construction ([graph_ok]): nodes are found by their names, commands and targets refer to
    nodes there are, and commands and the nodes they produce refer to one another. *)

From Stdlib Require Import Ascii String Lia ZArith.
From stdpp Require Import base gmap list strings numbers.
From S2P Require Import Prelude Chars NinjaPath Coding BuildValue BuildKey Process BuildNode ExternalCommand ShellCommand BuildTasks BuildTools SwiftCompiler BuildCommands BuildRules BuildRulesProps BuildDescription OwnershipProps.

Local Open Scope nat_scope.

(** ** Configuring a command *)

(** The name and the nodes of a command. *)
Definition same_nodes (c c' : Command) : Prop :=
  getName c' = getName c /\ getInputs c' = getInputs c /\ getOutputs c' = getOutputs c.
Definition same_base (x x' : ExternalCommand) : Prop :=
  cmdName x' = cmdName x /\ inputs x' = inputs x /\ outputs x' = outputs x.

(** An attribute is rejected with an error, and changes no nodes. *)
Definition attribute_ok {C} (same : C -> C -> Prop) (c : C) (r : Configured C) : Prop :=
  same c r.2 /\ (r.1.2 = false -> r.1.1 <> []).

Lemma same_base_refl x : same_base x x.
Proof. done. Qed.
Lemma external_attribute name value x :
  match ExternalCommand.configureAttribute name value x with inl _ => True | inr x' => same_base x x' end.
Proof.
  unfold ExternalCommand.configureAttribute, boolAttribute.
  destruct (parse_bool value) as [b|]; repeat (destruct (is_text _ _)); done.
Qed.

Lemma accepted_ok {C} (same : C -> C -> Prop) c c' : same c c' -> attribute_ok same c (accepted c').
Proof. by split. Qed.
Lemma rejected_ok {C} (same : C -> C -> Prop) c c' e : same c c' -> attribute_ok same c (rejected e c').
Proof. by split. Qed.
Lemma unexpected_ok {C} (same : C -> C -> Prop) c name : same c c -> attribute_ok same c (unexpected name c).
Proof. apply rejected_ok. Qed.
Lemma base_ok {C} (same : C -> C -> Prop) name value x set c : same c c -> (forall x', same_base x x' -> same c (set x')) ->
  attribute_ok same c (baseAttribute name value x set c).
Proof.
  intros Hr Hs. unfold baseAttribute. pose proof (external_attribute name value x) as H.
  destruct (ExternalCommand.configureAttribute name value x); [by apply rejected_ok|by apply accepted_ok, Hs].
Qed.
Lemma mapped_ok {C D} (f : C -> D) (same : C -> C -> Prop) (same' : D -> D -> Prop) c r :
  (forall c', same c c' -> same' (f c) (f c')) -> attribute_ok same c r -> attribute_ok same' (f c) (map_configured f r).
Proof. destruct r as [[es ok] c']. cbn. intros H [H1 H2]. split; [by apply H|done]. Qed.
Lemma of_error_ok {C} (same : C -> C -> Prop) c (r : option chars * C) : same c r.2 -> attribute_ok same c (of_error r).
Proof. intros H. unfold of_error. by destruct r.1. Qed.

Definition same_via {C} (x : C -> ExternalCommand) (c c' : C) : Prop := same_base (x c) (x c').
Create HintDb attr.
#[local] Hint Resolve accepted_ok rejected_ok unexpected_ok : attr.

(** Solve a goal by cases on the attribute's name and value. *)
Ltac attr_cases :=
  repeat match goal with
    | |- context [if is_text ?a ?b then _ else _] => destruct (is_text a b)
    | |- context [match ?x with _ => _ end] =>
        lazymatch x with context [match _ with _ => _ end] => fail | _ => destruct x end
    end; try (by eauto with attr).

Lemma shell_attribute cwd name value s : attribute_ok (same_via Shell.external) s (of_error (Shell.configureAttribute cwd name value s)).
Proof.
  apply of_error_ok. unfold Shell.configureAttribute, Shell.flag. pose proof (external_attribute name value (Shell.external s)) as H.
  destruct (ExternalCommand.configureAttribute name value (Shell.external s)) as [e|x]; attr_cases.
Qed.
Lemma shell_list name values s : attribute_ok (same_via Shell.external) s (of_error (Shell.configureListAttribute name values s)).
Proof. apply of_error_ok. unfold Shell.configureListAttribute. attr_cases. Qed.
Lemma shell_pairs name values s : attribute_ok (same_via Shell.external) s (of_error (Shell.configurePairsAttribute name values s)).
Proof. apply of_error_ok. unfold Shell.configurePairsAttribute. attr_cases. Qed.
Lemma clang_attribute name value s : attribute_ok (same_via Clang.external) s (Clang.configureAttribute name value s).
Proof. unfold Clang.configureAttribute. attr_cases. by apply base_ok. Qed.
Lemma library_attribute name value s : attribute_ok (same_via SharedLibrary.external) s (SharedLibrary.configureAttribute name value s).
Proof. unfold SharedLibrary.configureAttribute. attr_cases; by split. Qed.
Lemma swift_attribute name value s : attribute_ok (same_via Swift.external) s (Swift.configureAttribute name value s).
Proof. unfold Swift.configureAttribute, Swift.configureBool. attr_cases; try (by apply base_ok). Qed.
Definition same_symlink (s s' : Symlink.Symlink) : Prop :=
  Symlink.name s' = Symlink.name s /\ Symlink.inputs s' = Symlink.inputs s /\ Symlink.outputs s' = Symlink.outputs s.
Lemma symlink_attribute name value s : attribute_ok same_symlink s (Symlink.configureAttribute name value s).
Proof. unfold Symlink.configureAttribute. attr_cases; by split. Qed.
Definition same_stale (s s' : StaleFileRemoval.StaleFileRemoval) : Prop := StaleFileRemoval.name s' = StaleFileRemoval.name s.
Lemma stale_list name values s : attribute_ok same_stale s (StaleFileRemoval.configureListAttribute name values s).
Proof. unfold StaleFileRemoval.configureListAttribute. attr_cases; by split. Qed.

Lemma scalar_ok cwd name value c : attribute_ok same_nodes c (configureScalar cwd name value c).
Proof.
  destruct c as [s|x|s|x|s|s|s|s|s|s]; cbn.
  - by apply (mapped_ok ShellC (same_via Shell.external)), shell_attribute.
  - pose proof (external_attribute name value x) as H. unfold of_outcome. by destruct (ExternalCommand.configureAttribute name value x).
  - by apply (mapped_ok ClangC (same_via Clang.external)), clang_attribute.
  - pose proof (external_attribute name value x) as H. unfold of_outcome. by destruct (ExternalCommand.configureAttribute name value x).
  - by apply (mapped_ok SymlinkC same_symlink), symlink_attribute.
  - by apply (mapped_ok ArchiveC (same_via Archive.external)), base_ok.
  - by apply (mapped_ok SharedLibraryC (same_via SharedLibrary.external)), library_attribute.
  - done.
  - by apply (mapped_ok SwiftC (same_via Swift.external)), swift_attribute.
  - done.
Qed.
Lemma list_ok name values c : attribute_ok same_nodes c (configureList name values c).
Proof.
  destruct c as [s|x|s|x|s|s|s|s|s|s]; cbn; try done.
  - by apply (mapped_ok ShellC (same_via Shell.external)), shell_list.
  - apply (mapped_ok ClangC (same_via Clang.external)); [done|]. unfold Clang.configureListAttribute. attr_cases; by split.
  - apply (mapped_ok SharedLibraryC (same_via SharedLibrary.external)); [done|]. unfold SharedLibrary.configureListAttribute. attr_cases; by split.
  - by apply (mapped_ok StaleC same_stale), stale_list.
  - apply (mapped_ok SwiftC (same_via Swift.external)); [done|]. unfold Swift.configureListAttribute. attr_cases; by split.
Qed.
Lemma pairs_ok name values c : attribute_ok same_nodes c (configurePairs name values c).
Proof. destruct c; cbn; try done. by apply (mapped_ok ShellC (same_via Shell.external)), shell_pairs. Qed.
Lemma base_env_ok base c : same_nodes c (configureEnvironmentBase base c).2.
Proof. by destruct c. Qed.
Lemma description_ok value c : same_nodes c (BuildCommands.configureDescription value c).
Proof. by destruct c. Qed.

(** Inputs and outputs become those configured, if any. *)
Lemma inputs_ok node l c : let r := BuildCommands.configureInputs node l c in
  getName r.2 = getName c /\ getOutputs r.2 = getOutputs c /\ (forall n, n ∈ getInputs r.2 -> n ∈ getInputs c \/ n ∈ l).
Proof.
  destruct c; cbn; (split; [done|]); (split; [done|]); intros n; try (by rewrite elem_of_app || by left || by rewrite elem_of_nil).
Qed.
Lemma outputs_ok node l c : let r := BuildCommands.configureOutputs node l c in
  getName r.2 = getName c /\ getInputs r.2 = getInputs c /\ (forall n, n ∈ getOutputs r.2 -> n ∈ getOutputs c \/ n ∈ l).
Proof.
  destruct c as [s|x|s|x|s|s|s|s|s|s]; cbn;
    try (split; [done|]; split; [done|]; intros n; by (rewrite elem_of_app || left || rewrite elem_of_nil)).
  - destruct l as [|m [|k l]]; cbn; (split; [done|]); (split; [done|]); intros n; [by left|by rewrite elem_of_app|by left].
  - unfold Archive.configureOutputs. destruct (Archive.chooseName _ _). cbn. split; [done|]. split; [done|]. intros n. by rewrite elem_of_app.
  - unfold SharedLibrary.configureOutputs. destruct (Archive.chooseName _ _). cbn. split; [done|]. split; [done|]. intros n. by rewrite elem_of_app.
Qed.

(** ** The description under construction *)
Definition node_there (d : BuildDescription) (n : nat) : Prop := is_Some (allNodes d !! n).

(** The command is recorded with its outputs. *)
Definition produces (d : BuildDescription) (name : chars) (n : nat) : Prop :=
  exists b, allNodes d !! n = Some b /\ name ∈ producers b.

Record command_ok (d : BuildDescription) (name : chars) (c : Command) : Prop := mkCommandOk {
  co_name : getName c = name;
  co_inputs : forall n, n ∈ getInputs c -> node_there d n;
  co_outputs : forall n, n ∈ getOutputs c -> produces d name n }.

(** [pending]: the command being configured, which is not in the map yet. *)
Record graph_ok_but (pending : option chars) (d : BuildDescription) : Prop := mkGraphOk {
  go_named : forall name n, nodeNames d !! name = Some n -> exists b, allNodes d !! n = Some b /\ nodeName b = name;
  go_all : forall n b, allNodes d !! n = Some b -> nodeNames d !! nodeName b = Some n;
  go_targets : forall name t, targets d !! name = Some t -> targetName t = name /\ forall n, n ∈ targetNodes t -> node_there d n;
  go_commands : forall name c, commands d !! name = Some c -> command_ok d name c;
  go_producers : forall n b k, allNodes d !! n = Some b -> k ∈ producers b -> is_Some (commands d !! k) \/ pending = Some k;
  go_default : defaultTarget d = [] \/ is_Some (targets d !! defaultTarget d) }.
Definition graph_ok : BuildDescription -> Prop := graph_ok_but None.

(** The description has grown. *)
Record grown (d d' : BuildDescription) : Prop := mkGrown {
  gr_node : forall n b, allNodes d !! n = Some b -> exists b', allNodes d' !! n = Some b' /\ nodeName b' = nodeName b
    /\ forall k, k ∈ producers b -> k ∈ producers b';
  gr_names : nodeNames d ⊆ nodeNames d';
  gr_commands : commands d ⊆ commands d' }.

Lemma grown_refl d : grown d d.
Proof. split; [|done|done]. intros n b H. exists b. done. Qed.
Lemma grown_trans d1 d2 d3 : grown d1 d2 -> grown d2 d3 -> grown d1 d3.
Proof.
  intros [A1 A2 A3] [B1 B2 B3]. split; [|by etrans|by etrans]. intros n b H.
  destruct (A1 n b H) as (b1 & H1 & N1 & P1). destruct (B1 n b1 H1) as (b2 & H2 & N2 & P2).
  exists b2. split; [done|]. split; [congruence|auto].
Qed.
Lemma grown_there d d' n : grown d d' -> node_there d n -> node_there d' n.
Proof. intros H [b Hb]. destruct (gr_node _ _ H n b Hb) as (b' & E & _). by exists b'. Qed.
Lemma grown_produces d d' name n : grown d d' -> produces d name n -> produces d' name n.
Proof. intros H (b & Hb & Hp). destruct (gr_node _ _ H n b Hb) as (b' & E & _ & Hk). exists b'. auto. Qed.
Lemma grown_command d d' name c : grown d d' -> command_ok d name c -> command_ok d' name c.
Proof.
  intros H [H1 H2 H3]. split; [done| |]; intros n Hn; [eapply grown_there; eauto|eapply grown_produces; eauto].
Qed.
Lemma command_same d name c c' : same_nodes c c' -> command_ok d name c -> command_ok d name c'.
Proof. intros (E1 & E2 & E3) [H1 H2 H3]. split; [congruence|by rewrite E2|by rewrite E3]. Qed.

Lemma command_nodes d d' name c : allNodes d' = allNodes d -> command_ok d name c -> command_ok d' name c.
Proof.
  intros E [H1 H2 H3]. split; [done|intros n Hn|intros n Hn].
  - unfold node_there. rewrite E. by apply H2.
  - unfold produces. rewrite E. by apply H3.
Qed.

(** ** The changes the builder makes *)
Definition with_node (name : chars) (d : BuildDescription) : BuildDescription :=
  mkBuildDescription (environmentBases d) (allNodes d ++ [createNode name]) (<[name := length (allNodes d)]> (nodeNames d))
    (targets d) (commands d) (tools d) (defaultTarget d).

Lemma with_node_grown name d : nodeNames d !! name = None -> grown d (with_node name d).
Proof.
  intros Hn. split; cbn; [|by apply insert_subseteq|done]. intros n b H. exists b. split; [by apply lookup_app_l_Some|done].
Qed.

Lemma graph_ok_with pending name d : graph_ok_but pending d -> nodeNames d !! name = None -> graph_ok_but pending (with_node name d).
Proof.
  intros [H1 H2 H3 H4 H5 H6] Hn. pose proof (with_node_grown name d Hn) as Hg. split; cbn.
  - intros name' n. destruct (decide (name' = name)) as [->|Hne].
    + rewrite lookup_insert_eq. intros [= <-]. exists (createNode name). by rewrite list_lookup_middle, createNode_name.
    + rewrite lookup_insert_ne by done. intros H. destruct (H1 _ _ H) as (b & Hb & E). exists b. split; [by apply lookup_app_l_Some|done].
  - intros n b. rewrite lookup_app_Some. intros [Hb|[Hl Hb]].
    + pose proof (H2 _ _ Hb) as Hname. rewrite lookup_insert_ne; [done|]. congruence.
    + apply list_lookup_singleton_Some in Hb as [Hk <-]. rewrite createNode_name, lookup_insert_eq. f_equal. lia.
  - intros k t Ht. destruct (H3 _ _ Ht) as [E Hr]. split; [done|]. intros n Hin. by eapply grown_there, Hr.
  - intros k c Hc. eapply grown_command; [exact Hg|by apply H4].
  - intros n b k. rewrite lookup_app_Some. intros [Hb|[Hl Hb]] Hk; [by eapply H5|].
    apply list_lookup_singleton_Some in Hb as [_ <-]. exfalso. revert Hk. unfold createNode. destruct (ends_with_slash name); [by rewrite elem_of_nil|].
    destruct (_ && _); by rewrite elem_of_nil.
  - done.
Qed.

(** A change of one node that keeps its name and loses no producer. *)
Lemma updNode_grown n f d : (forall b, nodeName (f b) = nodeName b /\ forall k, k ∈ producers b -> k ∈ producers (f b)) ->
  grown d (updNode n f d).
Proof.
  intros Hf. split; [|done|done]. intros m b Hb. rewrite updNode_lookup, Hb. destruct (decide (m = n)) as [->|].
  - exists (f b). split; [done|]. apply Hf.
  - by exists b.
Qed.
Lemma graph_ok_upd pending n f d : graph_ok_but pending d ->
  (forall b, nodeName (f b) = nodeName b /\ forall k, k ∈ producers b -> k ∈ producers (f b)) ->
  (forall b k, allNodes d !! n = Some b -> k ∈ producers (f b) -> k ∈ producers b \/ is_Some (commands d !! k) \/ pending = Some k) ->
  graph_ok_but pending (updNode n f d).
Proof.
  intros [H1 H2 H3 H4 H5 H6] Hf Hp. pose proof (updNode_grown n f d Hf) as Hg.
  assert (Hl : forall m b', allNodes (updNode n f d) !! m = Some b' ->
    exists b, allNodes d !! m = Some b /\ nodeName b' = nodeName b /\ (b' = b \/ (m = n /\ b' = f b))).
  { intros m b'. rewrite updNode_lookup. destruct (decide (m = n)) as [->|]; [|intros; exists b'; auto].
    intros Hb. apply fmap_Some in Hb as (b & Hb & ->). exists b. split; [done|]. split; [apply Hf|auto]. }
  split.
  - intros name m Hm. destruct (H1 _ _ Hm) as (b & Hb & E). destruct (gr_node _ _ Hg m b Hb) as (b' & Hb' & E' & _). exists b'. split; [done|congruence].
  - intros m b' Hb. apply Hl in Hb as (b & Hb & -> & _). by apply H2.
  - intros k t Ht. destruct (H3 _ _ Ht) as [E Hr]. split; [done|]. intros m Hm. by eapply grown_there, Hr.
  - intros k c Hc. eapply grown_command; [exact Hg|by apply H4].
  - intros m b' k Hb Hk. apply Hl in Hb as (b & Hb & _ & [->|[-> ->]]); [by eapply H5|].
    destruct (Hp b k Hb Hk) as [Hk'|Hk']; [by eapply H5|done].
  - done.
Qed.

(** The pending command is added. *)
Lemma graph_ok_command name c d : graph_ok_but (Some name) d -> commands d !! name = None -> command_ok d name c ->
  graph_ok (set_commands (<[name := c]> (commands d)) d).
Proof.
  intros [H1 H2 H3 H4 H5 H6] Hn Hc. split; cbn; try done.
  - intros k x. destruct (decide (k = name)) as [->|Hne].
    + rewrite lookup_insert_eq. intros [= <-]. by apply (command_nodes d).
    + rewrite lookup_insert_ne by done. intros Hx. apply (command_nodes d); [done|by apply H4].
  - intros n b k Hb Hk. left. destruct (decide (k = name)) as [->|Hne]; [by rewrite lookup_insert_eq|].
    rewrite lookup_insert_ne by done. destruct (H5 _ _ _ Hb Hk) as [|[= ->]]; [done|done].
Qed.
Lemma graph_ok_pending pending d : graph_ok d -> graph_ok_but pending d.
Proof. intros [H1 H2 H3 H4 H5 H6]. split; try done. intros n b k Hb Hk. by destruct (H5 _ _ _ Hb Hk); [left|]. Qed.

Lemma graph_ok_target pending name ns d : graph_ok_but pending d -> (forall n, n ∈ ns -> node_there d n) ->
  graph_ok_but pending (mkBuildDescription (environmentBases d) (allNodes d) (nodeNames d)
    (<[name := mkTarget name ns]> (targets d)) (commands d) (tools d) (defaultTarget d)).
Proof.
  intros [H1 H2 H3 H4 H5 H6] Hn. split; cbn; try done.
  - intros k t. destruct (decide (k = name)) as [->|Hne]; [rewrite lookup_insert_eq; by intros [= <-]|].
    rewrite lookup_insert_ne by done. apply H3.
  - intros k c Hc. apply (command_nodes d); [done|by apply H4].
  - destruct H6 as [->|H6]; [by left|right]. destruct (decide (defaultTarget d = name)) as [->|]; [by rewrite lookup_insert_eq|by rewrite lookup_insert_ne].
Qed.

(** The analysis keeps the invariant. *)
Lemma addOutput_nodes n c : getName (addOutput n c) = getName c /\ getInputs (addOutput n c) = getInputs c
  /\ forall m, m ∈ getOutputs (addOutput n c) -> m ∈ getOutputs c \/ m = n.
Proof.
  destruct c; cbn; (split; [done|]); (split; [done|]); intros m; try (rewrite elem_of_app, list_elem_of_singleton); auto.
Qed.

Lemma addOutput_step owner n x d : graph_ok d -> node_there d n -> commands d !! owner = Some x ->
  let d' := updNode n (addProducer owner) (set_commands (<[owner := addOutput n x]> (commands d)) d) in
  graph_ok d' /\ forall m, node_there d m -> node_there d' m.
Proof.
  intros Hd Hn Hx d'. pose proof Hd as [H1 H2 H3 H4 H5 H6]. destruct (addOutput_nodes n x) as (A1 & A2 & A3).
  set (f := addProducer owner). assert (Hf : forall b, nodeName (f b) = nodeName b /\ forall k, k ∈ producers b -> k ∈ producers (f b)).
  { intros b. split; [done|]. intros k Hk. cbn. apply elem_of_app. by left. }
  assert (Hok : graph_ok (updNode n f d)).
  { apply graph_ok_upd; [done|done|]. intros b k Hb. cbn. rewrite elem_of_app, list_elem_of_singleton. intros [?| ->]; [by left|right; left; by exists x]. }
  pose proof (updNode_grown n f d Hf) as Hg. split; [|intros m; apply (grown_there _ _ _ Hg)].
  destruct Hok as [K1 K2 K3 K4 K5 K6]. split; try done.
  - intros k c. cbn. destruct (decide (k = owner)) as [->|Hne]; [|rewrite lookup_insert_ne by done; intros Hc; apply (command_nodes (updNode n f d)); [done|by apply K4]].
    rewrite lookup_insert_eq. intros [= <-]. destruct (K4 owner x Hx) as [C1 C2 C3]. split; [congruence| |].
    + intros m. rewrite A2. apply C2.
    + intros m Hm. destruct (A3 m Hm) as [Hm'| ->]; [by apply C3|]. destruct Hn as [b Hb]. exists (f b). split.
      * change (allNodes (updNode n f d) !! n = Some (f b)). by rewrite updNode_lookup, decide_True, Hb.
      * cbn. apply elem_of_app. right. by apply list_elem_of_singleton.
  - intros m b k Hb Hk. destruct (K5 m b k Hb Hk) as [Hc|]; [|done]. left. cbn.
    destruct (decide (k = owner)) as [->|Hne]; [by rewrite lookup_insert_eq|by rewrite lookup_insert_ne].
Qed.

Lemma amend_ok O a l : forall d, graph_ok d -> Forall (fun u => node_there d u.1) l ->
  graph_ok (foldl (OwnershipAnalysis.amend O a) d l).
Proof.
  induction l as [|u l IH]; intros d Hd Hl; [done|]. pose proof (Forall_inv Hl) as Hu. apply Forall_inv_tail in Hl. cbn.
  assert (H : graph_ok (OwnershipAnalysis.amend O a d u) /\ forall m, node_there d m -> node_there (OwnershipAnalysis.amend O a d u) m).
  { unfold OwnershipAnalysis.amend. repeat case_match; try done. by apply addOutput_step. }
  destruct H as [Hd' Ht]. apply IH; [done|]. revert Hl. apply List.Forall_impl. intros v. apply Ht.
Qed.
Lemma defer_ok un l : forall d, graph_ok d -> graph_ok (foldl (OwnershipAnalysis.defer un) d l).
Proof.
  induction l as [|u l IH]; intros d Hd; [done|]. cbn. apply IH. unfold OwnershipAnalysis.defer. case_match; [|done].
  apply graph_ok_upd; [done|done|]. intros b k _ Hk. by left.
Qed.

Lemma establish_fields O d l : forall a a', OwnershipAnalysis.establish O d l a = inl a' ->
  OwnershipAnalysis.directoryInputNodesAndCommands a' = OwnershipAnalysis.directoryInputNodesAndCommands a.
Proof.
  induction l as [|[n c] l IH]; intros a a' E; cbn in E; [by injection E as ->|].
  repeat case_match; try done; by apply IH in E.
Qed.

(** What the analysis returns is as well formed as what it was given. *)
Lemma run_ok O d d' : OwnershipAnalysis.orders_ok O -> graph_ok d -> OwnershipAnalysis.run O d = inl d' -> graph_ok d'.
Proof.
  intros HO Hd E. unfold OwnershipAnalysis.run in E. destruct (OwnershipAnalysis.establishOwnerships _ _ _) as [a|] eqn:Ea; [|done].
  injection E as <-. apply defer_ok, amend_ok; [done|]. rewrite (establish_fields _ _ _ _ _ Ea). apply Forall_forall. intros [n c] Hu%list_elem_of_In.
  apply (directory_use O HO) in Hu as (x & Hx & Hn & _). by apply (co_inputs _ _ _ (go_commands _ _ Hd _ _ Hx)).
Qed.
