(* ===== verification/BuildFile.v ===== *)
(** * Loading a build file

    [BuildFileImpl] (lib/BuildSystem/BuildFile.cpp), which reads a build description from
    YAML and hands it to the builder, with [BuildSystemFileDelegate::configureClient] and
    [BuildSystemImpl::loadDescription] (lib/BuildSystem/BuildSystem.cpp).  The YAML reader is
    LLVM's; its documents are the trees [Yaml].  It delivers them piece by piece and stops at
    a syntax error, so the tree of a broken file is what precedes the error.  Every node has
    the range of the file it came from, if any.  [numErrors] is counted and never read. *)

From Stdlib Require Import Ascii String Lia ZArith.
From stdpp Require Import base gmap list strings numbers.
From S2P Require Import Prelude Chars NinjaPath Coding BuildValue BuildKey Process BuildNode ExternalCommand ShellCommand BuildTasks BuildTools SwiftCompiler BuildCommands BuildRules BuildDescription.

Local Open Scope nat_scope.

(** Aliases, block scalars and the other kinds are accepted nowhere. *)
Inductive Yaml :=
| Null (at_ : option Token)
| Scalar (at_ : option Token) (v : chars)
| Mapping (at_ : option Token) (entries : list (option Token * Yaml * Yaml))
| Sequence (at_ : option Token) (items : list Yaml)
| Other (at_ : option Token).

(** A [KeyValueNode]: its range, the key, the value. *)
Definition Entry : Type := option Token * Yaml * Yaml.

Definition getSourceRange (n : Yaml) : option Token :=
  match n with Null t | Scalar t _ | Mapping t _ | Sequence t _ | Other t => t end.

Definition nodeIsScalarString (n : Yaml) (name : string) : bool :=
  match n with Scalar _ v => is_text v name | _ => false end.

Definition property_list : Type := list (chars * chars).

Section BuildFile.
Context (cwd : chars) (clientName : chars) (clientVersion : Z).
Abbreviation B := (M Builder).

(** ** Errors *)
Definition errorAt (at_ : option Token) (message : chars) : B unit :=
  f <~ gets originName; emit (reportError f at_ message).
Definition error (n : Yaml) (message : chars) : B unit := errorAt (getSourceRange n) message.
Definition getContext (n : Yaml) : B Context := f <~ gets originName; ret (mkContext f (getSourceRange n)).

Definition getToolFor (name : chars) (forNode : Yaml) : B (option Tool) :=
  t <~ getOrCreateTool name;
  match t with
  | Some t => ret (Some t)
  | None => error forNode (chars_of "invalid tool (" ++ name ++ chars_of ") type in 'tools' map") ;;; ret None
  end.

(** A loop over entries whose body returns [false] to give up. *)
Fixpoint forEach {A} (f : A -> B bool) (l : list A) : B bool :=
  match l with
  | [] => ret true
  | x :: l' => ok <~ f x; if ok then forEach f l' else ret false
  end.

(** The scalars of a sequence; each other item is an error. *)
Fixpoint scalarItems (message : chars) (l : list Yaml) : B (list chars) :=
  match l with
  | [] => ret []
  | Scalar _ v :: l' => vs <~ scalarItems message l'; ret (v :: vs)
  | n :: l' => error n message ;;; scalarItems message l'
  end.

(** The pairs of scalars of a mapping. *)
Fixpoint scalarPairs (keyMessage valueMessage : chars) (l : list Entry) : B (list (chars * chars)) :=
  match l with
  | [] => ret []
  | (_, Scalar _ k, Scalar _ v) :: l' => ps <~ scalarPairs keyMessage valueMessage l'; ret ((k, v) :: ps)
  | (_, Scalar t k, _) :: l' => error (Scalar t k) valueMessage ;;; scalarPairs keyMessage valueMessage l'
  | (_, n, _) :: l' => error n keyMessage ;;; scalarPairs keyMessage valueMessage l'
  end.

(** The nodes named by a sequence, created as they are met. *)
Fixpoint nodeItems (message : chars) (l : list Yaml) : B (list nat) :=
  match l with
  | [] => ret []
  | Scalar _ v :: l' => n <~ getOrCreateNode v true; ns <~ nodeItems message l'; ret (n :: ns)
  | n :: l' => error n message ;;; nodeItems message l'
  end.

(** ** Attributes of tools, nodes and commands

    [kind] and [section] are the words of the messages; [configure] the receiver's
    [configureAttribute], on the receiver [x]. *)
Definition parseAttributeValue {X} (kind section : chars) (configure : Context -> chars -> Attribute -> X -> B (bool * X))
    (attribute : chars) (key value : Yaml) (x : X) : B (bool * X) :=
  let wrongValue := chars_of "invalid value type for " ++ kind ++ chars_of " in '" ++ section ++ chars_of "' map" in
  match value with
  | Mapping _ es =>
      values <~ scalarPairs (chars_of "invalid key type for '" ++ attribute ++ chars_of "' in '" ++ section ++ chars_of "' map")
                  (chars_of "invalid value type for '" ++ attribute ++ chars_of "' in '" ++ section ++ chars_of "' map") es;
      ctx <~ getContext key;
      configure ctx attribute (Bindings values) x
  | Sequence _ l =>
      values <~ scalarItems wrongValue l;
      ctx <~ getContext key;
      configure ctx attribute (Values values) x
  | Scalar _ v => ctx <~ getContext key; configure ctx attribute (OneValue v) x
  | Null _ | Other _ => error value wrongValue ;;; ret (true, x)
  end.

(** An attribute of a tool or a node. *)
Definition parseAttribute (kind section wrongKey : chars) (configure : Context -> chars -> Attribute -> unit -> B (bool * unit))
    (e : Entry) : B bool :=
  match e with
  | (_, Scalar t attribute, value) =>
      r <~ parseAttributeValue kind section configure attribute (Scalar t attribute) value tt; ret r.1
  | (_, key, _) => error key wrongKey ;;; ret true
  end.

(** ** The sections *)

(** [BuildSystemFileDelegate::configureClient]. *)
Fixpoint configureProperties (ctx : Context) (l : property_list) : B bool :=
  match l with
  | [] => ret true
  | (name, value) :: l' =>
      if is_text name "file-system" then
        if is_text value "device-agnostic" then emit (configureFileSystem DeviceAgnostic) ;;; configureProperties ctx l'
        else if is_text value "checksum-only" then emit (configureFileSystem ChecksumOnly) ;;; configureProperties ctx l'
        else if is_text value "default" then configureProperties ctx l'
        else ctx_error ctx (chars_of "unsupported client file-system: " ++ quote value) ;;; ret false
      else configureProperties ctx l'
  end.
Definition configureClient (ctx : Context) (name : chars) (version : Z) (properties : property_list) : B bool :=
  if decide (name = clientName) then
    if decide (version = clientVersion) then configureProperties ctx properties else ret false
  else ret false.

(** The entries of the client section.  The test for [perform-ownership-analysis] is not part
    of the chain before it, so the name and the version become properties as well. *)
Fixpoint clientEntries (l : list Entry) (name : chars) (version : Z) (properties : property_list)
  : B (option (chars * Z * property_list)) :=
  match l with
  | [] => ret (Some (name, version, properties))
  | (_, Scalar _ key, Scalar t value) :: l' =>
      let name' := if is_text key "name" then value else name in
      version' <~ (if negb (is_text key "name") && is_text key "version" then
                     match Shell.getAsUInt32 value with
                     | Some v => ret v
                     | None => error (Scalar t value) (chars_of "invalid version number in 'client' map") ;;; ret version
                     end
                   else ret version);
      if is_text key "perform-ownership-analysis" then
        (if is_text value "yes" then modify (setPerformOwnershipAnalysis true) else ret tt) ;;;
        clientEntries l' name' version' properties
      else clientEntries l' name' version' (properties ++ [(key, value)])
  | (_, Scalar _ _, v) :: _ => error v (chars_of "invalid value type in 'client' map") ;;; ret None
  | (_, k, _) :: _ => error k (chars_of "invalid key type in 'client' map") ;;; ret None
  end.
Definition parseClientMapping (map : Yaml) (l : list Entry) : B bool :=
  r <~ clientEntries l [] 0 [];
  match r with
  | None => ret false
  | Some (name, version, properties) =>
      ctx <~ getContext map;
      ok <~ configureClient ctx name version properties;
      if ok then ret true else error map (chars_of "unable to configure client") ;;; ret false
  end.

Definition configureToolNamed (name : chars) (ctx : Context) (attribute : chars) (v : Attribute) (_ : unit) : B (bool * unit) :=
  b <~ get;
  match tools (graph b) !! name with
  | None => ret (false, tt)
  | Some t => r <~ configureToolAttribute ctx attribute v t; setTool name r.2 ;;; ret (r.1, tt)
  end.
Definition parseToolAttribute (name : chars) : Entry -> B bool :=
  parseAttribute (chars_of "tool") (chars_of "tools") (chars_of "invalid key type for tool in 'tools' map") (configureToolNamed name).
Definition parseToolsMapping : list Entry -> B bool := forEach (fun e =>
  match e with
  | (_, Scalar t name, Mapping _ attrs) =>
      tool <~ getToolFor name (Scalar t name);
      match tool with None => ret false | Some _ => forEach (parseToolAttribute name) attrs end
  | (_, Scalar _ _, v) => error v (chars_of "invalid value type in 'tools' map") ;;; ret true
  | (_, k, _) => error k (chars_of "invalid key type in 'tools' map") ;;; ret true
  end).

Definition parseTargetsMapping : list Entry -> B bool := forEach (fun e =>
  match e with
  | (_, Scalar _ name, Sequence _ nodes) =>
      names <~ scalarItems (chars_of "invalid node type in 'targets' map") nodes;
      addTargetNamed name names ;;; ret true
  | (_, Scalar _ _, v) => error v (chars_of "invalid value type in 'targets' map") ;;; ret true
  | (_, k, _) => error k (chars_of "invalid key type in 'targets' map") ;;; ret true
  end).

Definition parseDefaultTarget (entry : Yaml) (target : chars) : B bool :=
  ok <~ setDefaultTarget target;
  if ok then ret true
  else error entry (chars_of "invalid default target, a default target should be in targets") ;;; ret false.

Definition configureNodeAt (n : nat) (ctx : Context) (attribute : chars) (v : Attribute) (_ : unit) : B (bool * unit) :=
  ok <~ configureNode ctx n attribute v; ret (ok, tt).
Definition parseNodeAttribute (n : nat) : Entry -> B bool :=
  parseAttribute (chars_of "node") (chars_of "nodes") (chars_of "invalid key type for node in 'nodes' map") (configureNodeAt n).
Definition parseNodesMapping : list Entry -> B bool := forEach (fun e =>
  match e with
  | (_, Scalar _ name, Mapping _ attrs) => n <~ getOrCreateNode name false; forEach (parseNodeAttribute n) attrs
  | (_, Scalar _ _, v) => error v (chars_of "invalid value type in 'nodes' map") ;;; ret true
  | (_, k, _) => error k (chars_of "invalid key type in 'nodes' map") ;;; ret true
  end).

Definition parseEnvironmentBasesMapping : list Entry -> B bool := forEach (fun e =>
  match e with
  | (_, Scalar t name, Mapping _ bindings) =>
      b <~ get;
      if hasEnvironmentBase name b then
        error (Scalar t name) (chars_of "duplicate environment base '" ++ name ++ chars_of "'") ;;; ret true
      else
        ps <~ scalarPairs (chars_of "invalid key type in 'env-bases' entry '" ++ name ++ chars_of "'")
                (chars_of "invalid value type in 'env-bases' entry '" ++ name ++ chars_of "'") bindings;
        addEnvironmentBase name ps ;;; ret true
  | (_, Scalar _ _, v) => error v (chars_of "invalid value type in 'env-bases' map") ;;; ret true
  | (_, k, _) => error k (chars_of "invalid key type in 'env-bases' map") ;;; ret true
  end).

(** ** Commands *)
Definition parseCommandAttribute (e : Entry) (c : Command) : B (bool * Command) :=
  let '(_, key, value) := e in
  if nodeIsScalarString key "inputs" then
    match value with
    | Sequence _ l =>
        ns <~ nodeItems (chars_of "invalid node type in 'inputs' command key") l;
        ctx <~ getContext key;
        c' <~ configureCommandInputs ctx ns c; ret (true, c')
    | _ => error value (chars_of "invalid value type for 'inputs' command key") ;;; ret (true, c)
    end
  else if nodeIsScalarString key "outputs" then
    match value with
    | Sequence _ l =>
        ns <~ nodeItems (chars_of "invalid node type in 'outputs' command key") l;
        ctx <~ getContext key;
        c' <~ configureCommandOutputs ctx ns c; ret (true, c')
    | _ => error value (chars_of "invalid value type for 'outputs' command key") ;;; ret (true, c)
    end
  else if nodeIsScalarString key "description" then
    match value with
    | Scalar _ v => ret (true, configureCommandDescription v c)
    | _ => error value (chars_of "invalid value type for 'description' command key") ;;; ret (true, c)
    end
  else if nodeIsScalarString key "env-base" then
    match value with
    | Scalar _ baseName =>
        b <~ get;
        match lookupEnvironmentBase baseName b with
        | None => error value (chars_of "unknown environment base '" ++ baseName ++ chars_of "'") ;;; ret (true, c)
        | Some base =>
            let (ok, c') := configureEnvironmentBase base c in
            if ok then ret (true, c')
            else error key (chars_of "'env-base' is not supported by this command") ;;; ret (false, c')
        end
    | _ => error value (chars_of "invalid value type for 'env-base' command key") ;;; ret (true, c)
    end
  else
    match key with
    | Scalar _ attribute =>
        parseAttributeValue (chars_of "command") (chars_of "commands") (configureCommandAttribute cwd) attribute key value c
    | _ => error key (chars_of "invalid key type in 'commands' map") ;;; ret (true, c)
    end.

Fixpoint parseCommandAttributes (l : list Entry) (c : Command) : B (bool * Command) :=
  match l with
  | [] => ret (true, c)
  | e :: l' => r <~ parseCommandAttribute e c; if r.1 then parseCommandAttributes l' r.2 else ret (false, r.2)
  end.

(** The tools of the build system always create a command. *)
Definition parseCommand (e : Entry) : B bool :=
  match e with
  | (_, Scalar t name, Mapping _ attrs) =>
      b <~ get;
      if hasCommand name b then error (Scalar t name) (chars_of "duplicate command in 'commands' map") ;;; ret true
      else
        match attrs with
        | [] => error (Scalar t name) (chars_of "missing 'tool' key for command in 'command' map") ;;; ret true
        | (_, key, value) :: attrs' =>
            if negb (nodeIsScalarString key "tool") then
              error key (chars_of "expected 'tool' initial key for command in 'commands' map") ;;; ret true
            else
              match value with
              | Scalar _ toolName =>
                  tool <~ getToolFor toolName value;
                  match tool with
                  | None => ret false
                  | Some tool =>
                      r <~ parseCommandAttributes attrs' (createCommand name tool);
                      if r.1 then addCommandNamed name r.2 ;;; ret true else ret false
                  end
              | _ => error value (chars_of "invalid 'tool' value type for command in 'commands' map") ;;; ret true
              end
        end
  | (_, Scalar _ _, v) => error v (chars_of "invalid value type in 'commands' map") ;;; ret true
  | (_, k, _) => error k (chars_of "invalid key type in 'commands' map") ;;; ret true
  end.
Definition parseCommandsMapping : list Entry -> B bool := forEach parseCommand.

(** ** The file *)

(** A section that may be absent: go on with the rest if it could be read. *)
Definition section (name : string) (parse : Yaml -> B bool) (l : list Entry) (rest : list Entry -> B bool) : B bool :=
  match l with
  | (_, key, value) :: l' =>
      if nodeIsScalarString key name then ok <~ parse value; if ok then rest l' else ret false
      else rest l
  | [] => rest l
  end.
Definition wrongSection (name : string) (value : Yaml) : B bool :=
  error value (chars_of "unexpected '" ++ chars_of name ++ chars_of "' value (expected map)") ;;; ret false.
Definition expectMap (name : string) (parse : list Entry -> B bool) (value : Yaml) : B bool :=
  match value with Mapping _ l => parse l | _ => wrongSection name value end.
Definition defaultSection (value : Yaml) : B bool :=
  match value with
  | Scalar _ v => parseDefaultTarget value v
  | _ => error value (chars_of "unexpected 'default' target value (expected scalar)") ;;; ret false
  end.

Definition laterSections (l : list Entry) : B bool :=
  section "tools" (expectMap "tools" parseToolsMapping) l (fun l =>
  section "targets" (expectMap "targets" parseTargetsMapping) l (fun l =>
  section "default" defaultSection l (fun l =>
  section "nodes" (expectMap "nodes" parseNodesMapping) l (fun l =>
  section "env-bases" (expectMap "env-bases" parseEnvironmentBasesMapping) l (fun l =>
  section "commands" (expectMap "commands" parseCommandsMapping) l (fun l =>
  match l with
  | [] => ret true
  | (t, _, _) :: _ => error (Other t) (chars_of "unexpected trailing top-level section") ;;; ret false
  end)))))).

(** The first entry is read without a test that there is one. *)
Definition parseRootNode (node : Yaml) : B bool :=
  match node with
  | Mapping _ l =>
      match l with
      | [] => fail (AssertFailed "Attempted to access end iterator!")
      | (_, key, value) :: l' =>
          if negb (nodeIsScalarString key "client") then
            error key (chars_of "expected initial mapping key 'client'") ;;; ret false
          else
            match value with
            | Mapping _ es => ok <~ parseClientMapping value es; if ok then laterSections l' else ret false
            | _ => error value (chars_of "unexpected 'client' value (expected map)") ;;; ret false
            end
      end
  | _ => error node (chars_of "unexpected top-level node") ;;; ret false
  end.

Section Load.
Context (O : OwnershipAnalysis.Orders) (getFileContents : chars -> option chars) (documents : chars -> list (option Yaml)).

(** [BuildFile::load]; a document without a root has none to report an error at. *)
Definition load : B (option BuildDescription) :=
  b <~ get;
  match getFileContents (originName b) with
  | None => errorAt None (chars_of "unable to open '" ++ originName b ++ chars_of "'") ;;; ret None
  | Some buffer =>
      emit (setFileContentsBeingParsed buffer) ;;;
      match documents buffer with
      | [] | None :: _ => errorAt None (chars_of "missing document in stream") ;;; ret None
      | Some root :: rest =>
          ok <~ parseRootNode root;
          if ok then
            match rest with
            | [] => finalize O
            | Some r :: _ => error r (chars_of "unexpected additional document in stream") ;;; ret None
            | None :: _ => fail (OutOfBounds "it->getRoot()")
            end
          else ret None
      end
  end.
End Load.
End BuildFile.

(** ** [BuildSystemImpl] *)
Record System := mkSystem {
  mainFilename : chars;
  fileSystems : list FileSystemMode;
  buildDescription : option BuildDescription;
  systemEvents : list Event }.

(** The wrappers put around the file system, the last one first. *)
Definition configureSystemFileSystem (mode : FileSystemMode) (s : System) : System :=
  match mode with
  | Full => s
  | _ => mkSystem (mainFilename s) (mode :: fileSystems s) (buildDescription s) (systemEvents s)
  end.
(** What the builder's calls do to the system: most go on to the client. *)
Definition onEvent (s : System) (e : Event) : System :=
  match e with
  | configureFileSystem mode => configureSystemFileSystem mode s
  | _ => mkSystem (mainFilename s) (fileSystems s) (buildDescription s) (systemEvents s ++ [e])
  end.
Definition systemError (message : chars) (s : System) : System :=
  onEvent s (reportError (mainFilename s) None message).

Section Load.
Context (cwd clientName : chars) (clientVersion : Z).
Context (O : OwnershipAnalysis.Orders) (getFileContents : chars -> option chars) (documents : chars -> list (option Yaml)).

Definition setMainFilename (name : chars) (s : System) : System :=
  mkSystem name (fileSystems s) (buildDescription s) (systemEvents s).
Definition setBuildDescription (d : BuildDescription) (s : System) : System :=
  mkSystem (mainFilename s) (fileSystems s) (Some d) (systemEvents s).

Definition loadDescription (name : chars) (s : System) : outcome (bool * System) :=
  obind (load cwd clientName clientVersion O getFileContents documents (newBuilder name)) (fun r =>
  let s' := foldl onEvent (setMainFilename name s) (events r.2) in
  match r.1 with
  | None => Ok (false, systemError (chars_of "unable to load build file") s')
  | Some d => Ok (true, setBuildDescription d s')
  end).

(** The in-memory route: [populate] drives the builder. *)
Definition loadDescriptionWith (populate : M Builder bool) (origin : chars) (s : System) : outcome (bool * System) :=
  let failed s := Ok (false, systemError (chars_of "unable to build in-memory build description") s) in
  obind (populate (newBuilder origin)) (fun r =>
  if r.1 then
    obind (finalize O r.2) (fun r' =>
    let s' := foldl onEvent (setMainFilename origin s) (events r'.2) in
    match r'.1 with
    | None => failed s'
    | Some d => Ok (true, setBuildDescription d (configureSystemFileSystem (fileSystemMode r'.2) s'))
    end)
  else failed (foldl onEvent (setMainFilename origin s) (events r.2))).
End Load.
