(* ===== verification/BuildFileProps.v ===== *)
(** * Properties of the build file loader

    Loading ends in a well-formed description or in a reported failure; a description loaded
    from a file is the one that the same calls on the builder make. *)

From Stdlib Require Import Ascii String Lia ZArith.
From stdpp Require Import base gmap list strings numbers.
From S2P Require Import Prelude Chars NinjaPath Coding BuildValue BuildKey Process BuildNode ExternalCommand ShellCommand BuildTasks BuildTools SwiftCompiler BuildCommands BuildRules BuildRulesProps BuildDescription OwnershipProps DescriptionProps BuildFile.

Local Open Scope nat_scope.

(** ** How the builder develops *)
Definition is_failure (e : Event) : bool :=
  match e with reportError _ _ _ | cannotLoadDueToMultipleProducers _ _ => true | _ => false end.
Definition reported (b : Builder) : Prop := exists e, e ∈ events b /\ is_failure e = true.

Record evolves (p : option chars) (b b' : Builder) : Prop := mkEvolves {
  ev_ok : graph_ok_but p (graph b');
  ev_grown : grown (graph b) (graph b');
  ev_commands : commands (graph b') = commands (graph b);
  ev_tools : forall k, is_Some (tools (graph b) !! k) -> is_Some (tools (graph b') !! k);
  ev_events : events b `prefix_of` events b' }.

Lemma evolves_refl p b : graph_ok_but p (graph b) -> evolves p b b.
Proof. intros H. split; [done|apply grown_refl|done|done|done]. Qed.
Lemma evolves_trans p b1 b2 b3 : evolves p b1 b2 -> evolves p b2 b3 -> evolves p b1 b3.
Proof.
  intros [A1 A2 A3 A4 A5] [B1 B2 B3 B4 B5]. split; [done|by eapply grown_trans|congruence|auto|by etrans].
Qed.
Lemma reported_prefix b b' : events b `prefix_of` events b' -> reported b -> reported b'.
Proof. intros [r E] (e & He & Hf). exists e. split; [|done]. rewrite E. apply elem_of_app. by left. Qed.
Lemma reported_evolves p b b' : evolves p b b' -> reported b -> reported b'.
Proof. intros H. apply reported_prefix, H. Qed.

(** A step that logs an event. *)
Lemma emit_runs p e b : graph_ok_but p (graph b) ->
  runs (emit e) b (fun _ b' => evolves p b b' /\ graph b' = graph b /\ (is_failure e = true -> reported b')).
Proof.
  intros H. apply runs_modify. split; [|split; [done|]].
  - split; [done|apply grown_refl|done|done|by apply prefix_app_r].
  - intros Hf. exists e. split; [|done]. cbn. apply elem_of_app. right. by apply list_elem_of_singleton.
Qed.
Lemma error_runs p n msg b : graph_ok_but p (graph b) -> runs (error n msg) b (fun _ b' => evolves p b b' /\ reported b').
Proof.
  intros H. unfold error, errorAt. eapply runs_mono; [by apply (emit_runs p)|]. cbn. intros _ b' (E & _ & R). auto.
Qed.
Lemma ctx_error_runs p ctx msg b : graph_ok_but p (graph b) -> runs (ctx_error ctx msg) b (fun _ b' => evolves p b b' /\ reported b').
Proof. intros H. eapply runs_mono; [by apply (emit_runs p)|]. cbn. intros _ b' (E & _ & R). auto. Qed.

(** One more step, then what follows. *)
Lemma runs_then {A C} p (m : M Builder A) (k : A -> M Builder C) b (Q : A -> Builder -> Prop) (R : C -> Builder -> Prop) :
  runs m b (fun a b' => evolves p b b' /\ Q a b') ->
  (forall a b', evolves p b b' -> Q a b' -> runs (k a) b' (fun c b'' => evolves p b' b'' /\ R c b'')) ->
  runs (bind m k) b (fun c b'' => evolves p b b'' /\ R c b'').
Proof.
  intros Hm Hk. eapply runs_bind; [exact Hm|]. intros a b' [E HQ]. eapply runs_mono; [by apply Hk|].
  intros c b'' [E' HR]. split; [by eapply evolves_trans|done].
Qed.
Lemma runs_return {A} p (a : A) b (R : A -> Builder -> Prop) : graph_ok_but p (graph b) -> R a b ->
  runs (ret a) b (fun c b' => evolves p b b' /\ R c b').
Proof. intros H HR. apply runs_ret. split; [by apply evolves_refl|done]. Qed.

Lemma errors_run p ctx es b : graph_ok_but p (graph b) ->
  runs (mapM_ (ctx_error ctx) es) b (fun _ b' => evolves p b b' /\ (es <> [] -> reported b')).
Proof.
  revert b. induction es as [|e es IH]; intros b H; cbn; [by apply runs_return|].
  eapply runs_then; [by apply ctx_error_runs|]. intros [] b1 E R. cbn in R.
  eapply runs_mono; [apply IH, (ev_ok _ _ _ E)|]. intros [] b2 [E2 _]. split; [done|]. intros _. by eapply reported_evolves.
Qed.

(** ** Nodes *)
Lemma getOrCreateNode_runs p name i b : graph_ok_but p (graph b) ->
  runs (getOrCreateNode name i) b (fun n b' => evolves p b b' /\ nodeNames (graph b') !! name = Some n /\ node_there (graph b') n).
Proof.
  intros H. unfold getOrCreateNode, bind at 1, gets, runs. cbn.
  destruct (nodeNames (graph b) !! name) as [n|] eqn:E.
  - apply runs_return; [done|]. split; [done|]. destruct (go_named _ _ H _ _ E) as (x & Hx & _). by exists x.
  - eexists _, _. split; [done|]. cbn. split; [|split; [by rewrite lookup_insert_eq|]].
    + split; cbn; [by apply graph_ok_with|by apply with_node_grown|done|done|done].
    + eexists. by apply list_lookup_middle.
Qed.

Lemma nodes_run p names b : graph_ok_but p (graph b) ->
  runs (getOrCreateNodes names) b (fun ns b' => evolves p b b' /\ forall n, n ∈ ns -> node_there (graph b') n).
Proof.
  revert b. induction names as [|x names IH]; intros b H; cbn.
  - apply runs_return; [done|]. intros n. by rewrite elem_of_nil.
  - eapply runs_then; [by apply getOrCreateNode_runs|]. intros n b1 E1 [_ Hn].
    eapply runs_then; [by apply IH, (ev_ok _ _ _ E1)|]. intros ns b2 E2 Hns. apply runs_return; [apply (ev_ok _ _ _ E2)|].
    intros m [->|Hm]%elem_of_cons; [eapply grown_there; [apply (ev_grown _ _ _ E2)|done]|by apply Hns].
Qed.
Lemma nodeItems_run p msg l b : graph_ok_but p (graph b) ->
  runs (nodeItems msg l) b (fun ns b' => evolves p b b' /\ forall n, n ∈ ns -> node_there (graph b') n).
Proof.
  revert b. induction l as [|x l IH]; intros b H; cbn; [apply runs_return; [done|]; intros n; by rewrite elem_of_nil|].
  destruct x as [t|t v|t es|t ys|t]; cbn; try (eapply runs_then; [by apply error_runs|]; intros _ b1 E1 _; apply IH, (ev_ok _ _ _ E1)).
  eapply runs_then; [by apply getOrCreateNode_runs|]. intros n b1 E1 [_ Hn].
  eapply runs_then; [by apply IH, (ev_ok _ _ _ E1)|]. intros ns b2 E2 Hns. apply runs_return; [apply (ev_ok _ _ _ E2)|].
  intros m [->|Hm]%elem_of_cons; [eapply grown_there; [apply (ev_grown _ _ _ E2)|done]|by apply Hns].
Qed.

(** ** Scalars *)
Definition clean (v : chars) : Prop := NUL ∉ v.
Fixpoint yaml_ok (n : Yaml) : bool :=
  match n with
  | Scalar _ v => bool_decide (NUL ∉ v)
  | Mapping _ es => forallb (fun e => let '(_, k, v) := e in yaml_ok k && yaml_ok v) es
  | Sequence _ l => forallb yaml_ok l
  | Null _ | Other _ => true
  end.
Definition entries_ok (es : list Entry) : Prop := forallb (fun e => let '(_, k, v) := e in yaml_ok k && yaml_ok v) es = true.
Lemma entries_ok_cons t k v es : entries_ok ((t, k, v) :: es) <-> yaml_ok k = true /\ yaml_ok v = true /\ entries_ok es.
Proof. unfold entries_ok. cbn. rewrite !andb_true_iff. tauto. Qed.

Lemma scalarItems_run p msg l b : graph_ok_but p (graph b) -> forallb yaml_ok l = true ->
  runs (scalarItems msg l) b (fun vs b' => evolves p b b' /\ Forall clean vs).
Proof.
  revert b. induction l as [|x l IH]; intros b H Hl; cbn; [by apply runs_return|].
  cbn in Hl. apply andb_true_iff in Hl as [Hx Hl].
  destruct x as [t|t v|t es|t ys|t]; cbn; try (eapply runs_then; [by apply error_runs|]; intros _ b1 E1 _; apply IH; [apply (ev_ok _ _ _ E1)|done]).
  eapply runs_then; [by apply IH|]. intros vs b1 E1 Hvs. apply runs_return; [apply (ev_ok _ _ _ E1)|].
  constructor; [by apply bool_decide_eq_true in Hx|done].
Qed.
Lemma scalarPairs_run p m1 m2 es b : graph_ok_but p (graph b) ->
  runs (scalarPairs m1 m2 es) b (fun _ b' => evolves p b b' /\ True).
Proof.
  revert b. induction es as [|[[t k] v] es IH]; intros b H; cbn; [by apply runs_return|].
  assert (Herr : forall n m, runs (bind (error n m) (fun _ => scalarPairs m1 m2 es)) b (fun _ b' => evolves p b b' /\ True)).
  { intros n m. eapply runs_then; [by apply error_runs|]. intros _ b1 E1 _. apply IH, (ev_ok _ _ _ E1). }
  destruct k; try apply Herr. destruct v; try apply Herr.
  eapply runs_then; [by apply IH|]. intros vs b1 E1 _. by apply runs_return; [apply (ev_ok _ _ _ E1)|].
Qed.

(** ** Attributes *)
Lemma configured_runs {C} p (same : C -> C -> Prop) ctx c (r : Configured C) b : graph_ok_but p (graph b) -> attribute_ok same c r ->
  runs (configured ctx r) b (fun x b' => evolves p b b' /\ (same c x.2 /\ (x.1 = false -> reported b'))).
Proof.
  intros H [Hs Hr]. unfold configured. eapply runs_then; [by apply errors_run|]. intros [] b1 E1 R.
  apply runs_return; [apply (ev_ok _ _ _ E1)|]. auto.
Qed.

Definition clean_value (v : Attribute) : Prop :=
  match v with OneValue x => clean x | Values l => Forall clean l | Bindings _ => True end.

(** The receiver of an attribute: [J] is what is known of it. *)
Definition receives {X} p (J : X -> Builder -> Prop) (configure : Context -> chars -> Attribute -> X -> M Builder (bool * X)) : Prop :=
  forall ctx name v x b, graph_ok_but p (graph b) -> J x b -> clean_value v ->
  runs (configure ctx name v x) b (fun r b' => evolves p b b' /\ (J r.2 b' /\ (r.1 = false -> reported b'))).
Definition stable {X} p (J : X -> Builder -> Prop) : Prop := forall x b b', evolves p b b' -> J x b -> J x b'.

Lemma getContext_runs {A} p n (k : Context -> M Builder A) b (Q : A -> Builder -> Prop) :
  (forall ctx, runs (k ctx) b (fun a b' => evolves p b b' /\ Q a b')) -> runs (bind (getContext n) k) b (fun a b' => evolves p b b' /\ Q a b').
Proof. intros H. apply (H (mkContext (originName b) (getSourceRange n))). Qed.

Lemma parseAttributeValue_runs {X} p (J : X -> Builder -> Prop) kind sec configure attribute key value x b :
  stable p J -> receives p J configure -> graph_ok_but p (graph b) -> J x b -> yaml_ok value = true ->
  runs (parseAttributeValue kind sec configure attribute key value x) b
    (fun r b' => evolves p b b' /\ (J r.2 b' /\ (r.1 = false -> reported b'))).
Proof.
  intros HJ Hr H Hx Hv. destruct value as [t|t v|t es|t l|t]; cbn.
  - eapply runs_then; [by apply error_runs|]. intros [] b1 E1 _. apply runs_return; [apply (ev_ok _ _ _ E1)|]. split; [by eapply HJ|done].
  - apply getContext_runs. intros ctx. apply Hr; [done|done|]. by apply bool_decide_eq_true in Hv.
  - eapply runs_then; [by apply scalarPairs_run|]. intros vs b1 E1 _. apply getContext_runs. intros ctx.
    apply Hr; [apply (ev_ok _ _ _ E1)|by eapply HJ|done].
  - eapply runs_then; [by apply scalarItems_run|]. intros vs b1 E1 Hc. apply getContext_runs. intros ctx.
    apply Hr; [apply (ev_ok _ _ _ E1)|by eapply HJ|done].
  - eapply runs_then; [by apply error_runs|]. intros [] b1 E1 _. apply runs_return; [apply (ev_ok _ _ _ E1)|]. split; [by eapply HJ|done].
Qed.

(** Tools *)
Lemma tool_attribute name v t : attribute_ok (fun _ _ => True) t (match v with OneValue x => configureTool name x t | _ => configureToolOther name t end).
Proof. destruct v; [|done..]. unfold configureTool. destruct t; try done; repeat case_match; done. Qed.

Lemma evolves_tool p k t b : graph_ok_but p (graph b) -> evolves p b (set_graph (addTool k t (graph b)) b).
Proof.
  intros [H1 H2 H3 H4 H5 H6]. split; cbn; [|by split; [intros n x ?; exists x|..]|done| |done].
  - split; try done. intros n c Hc. by apply (command_nodes (graph b)), H4.
  - intros k' Hk. cbn. destruct (decide (k' = k)) as [->|]; [by rewrite lookup_insert_eq|by rewrite lookup_insert_ne].
Qed.

Definition tool_there (name : chars) (_ : unit) (b : Builder) : Prop := is_Some (tools (graph b) !! name).
Lemma tool_stable p name : stable p (tool_there name).
Proof. intros x b b' E. apply (ev_tools _ _ _ E). Qed.
Lemma tool_receives p name : receives p (tool_there name) (configureToolNamed name).
Proof.
  intros ctx a v x b H [t Ht] _. unfold configureToolNamed, bind at 1, get, runs. cbn. rewrite Ht.
  eapply runs_then; [eapply configured_runs; [done|apply tool_attribute]|]. intros r b1 E1 [_ R].
  unfold setTool, update, bind, modify, runs, ret. eexists _, _. split; [done|]. split; [by apply evolves_tool, (ev_ok _ _ _ E1)|].
  cbn. split; [unfold tool_there; cbn; by rewrite lookup_insert_eq|]. intros Hf. destruct (R Hf) as (e & He). by exists e.
Qed.

(** Nodes *)
Definition node_at (n : nat) (_ : unit) (b : Builder) : Prop := node_there (graph b) n.
Lemma node_stable p n : stable p (node_at n).
Proof. intros x b b' E. eapply grown_there, (ev_grown _ _ _ E). Qed.

Lemma bytes_clean v : clean v -> no_nul (bytes_of v).
Proof.
  unfold clean, no_nul, bytes_of. rewrite !list_elem_of_In, in_map_iff. intros H (c & E & Hc). apply H.
  assert (c = NUL) as <-; [|done]. unfold byte_of in E. destruct (N_of_ascii c) eqn:Ec; [|lia]. apply (f_equal ascii_of_N) in Ec.
  by rewrite ascii_N_embedding in Ec.
Qed.
Lemma newStringList_clean l : Forall clean l -> exists sl, newStringList (map bytes_of l) = Ok sl /\ exists vs, getValues sl = Ok vs.
Proof.
  intros H. assert (Hn : Forall no_nul (map bytes_of l)) by (apply Forall_map; revert H; apply List.Forall_impl, bytes_clean).
  eexists. split; [unfold newStringList; by rewrite pack_ok|]. eexists. by apply getValues_packed.
Qed.

Lemma node_configure name v n : clean_value v -> exists r,
  match v with
  | OneValue x => BuildNode.configureAttribute name x n
  | Values l => BuildNode.configureListAttribute name l n
  | Bindings _ => Ok (BuildNode.configurePairsAttribute name n)
  end = Ok r /\ match r with inl _ => True | inr n' => nodeName n' = nodeName n /\ producers n' = producers n end.
Proof.
  intros Hc. destruct v as [x|l|l]; cbn in Hc.
  - unfold BuildNode.configureAttribute, configureType, BuildNode.flag, reset_type, oneStringList. rewrite (decide_False (P := NUL ∈ x)) by done.
    destruct (parse_bool x) as [[]|]; repeat (destruct (is_text _ _)); (eexists; split; [reflexivity|]); cbn; repeat case_match; done.
  - unfold BuildNode.configureListAttribute. destruct (newStringList_clean l Hc) as (sl & E1 & vs & E2). rewrite E1.
    cbn [obind]. rewrite E2. repeat (destruct (is_text _ _)); by eexists.
  - by eexists.
Qed.

Lemma configureNode_runs p ctx n name v b : graph_ok_but p (graph b) -> node_there (graph b) n -> clean_value v ->
  runs (configureNode ctx n name v) b (fun ok b' => evolves p b b' /\ (ok = false -> reported b')).
Proof.
  intros H [x Hx] Hc. unfold configureNode, bind at 1, get, runs. cbn.
  destruct (node_configure name v (nodes_of b n) Hc) as (r & E & Hr). unfold bind at 1, lift. rewrite E.
  destruct r as [e|n'].
  - eapply runs_then; [by apply ctx_error_runs|]. intros [] b1 E1 R. by apply runs_return; [apply (ev_ok _ _ _ E1)|].
  - unfold update, bind, modify, ret. eexists _, _. split; [done|]. split; [|done].
    assert (En : nodes_of b n = x) by (unfold nodes_of, nodeAt; by rewrite Hx). rewrite En in Hr. destruct Hr as [N1 N2].
    set (f := fun m => mkBuildNode (nodeName m) (producers m) (BuildNode.type n') (commandTimestamp n') (mutated n')
      (exclusionPatterns n') (mustScanAfterPaths n')).
    assert (Eu : set_graph (updNode n (fun _ => n') (graph b)) b = set_graph (updNode n f (graph b)) b).
    { f_equal. unfold updNode. f_equal. apply list_eq. intros m. destruct (decide (n = m)) as [<-|Hne].
      - rewrite !list_lookup_alter_eq, Hx. cbn. unfold f. rewrite <- N1, <- N2. by destruct n'.
      - by rewrite !list_lookup_alter_ne. }
    rewrite Eu.
    split; cbn; [apply graph_ok_upd; [done|..]|apply updNode_grown|done|done|done].
    + done.
    + intros m k _. by left.
    + done.
Qed.
Lemma node_receives p n : receives p (node_at n) (configureNodeAt n).
Proof.
  intros ctx a v x b H Hn Hc. unfold configureNodeAt. eapply runs_then; [by apply configureNode_runs|].
  intros ok b1 E1 R. apply runs_return; [apply (ev_ok _ _ _ E1)|]. split; [by eapply (node_stable p n), Hn|done].
Qed.

(** Commands *)
Definition command_there (name : chars) (c : Command) (b : Builder) : Prop := command_ok (graph b) name c.
Lemma command_stable p name : stable p (command_there name).
Proof. intros c b b' E. apply grown_command, (ev_grown _ _ _ E). Qed.
Lemma command_receives cwd p name : receives p (command_there name) (configureCommandAttribute cwd).
Proof.
  intros ctx a v c b H Hc _. unfold configureCommandAttribute.
  eapply runs_mono; [apply (configured_runs p same_nodes ctx c); [done|]|].
  - destruct v; [apply scalar_ok|apply list_ok|apply pairs_ok].
  - intros r b' [E [Hs R]]. split; [done|]. split; [|done]. eapply command_same; [exact Hs|]. by eapply (command_stable p name).
Qed.

Lemma configureInputs_runs p ctx l name c b : graph_ok_but p (graph b) -> command_there name c b -> (forall n, n ∈ l -> node_there (graph b) n) ->
  runs (configureCommandInputs ctx l c) b (fun c' b' => evolves p b b' /\ command_there name c' b').
Proof.
  intros H Hc Hl. unfold configureCommandInputs, bind at 1, get, runs. cbn.
  pose proof (inputs_ok (nodes_of b) l c) as (I1 & I2 & I3). set (r := BuildCommands.configureInputs _ _ _) in *.
  eapply runs_then; [by apply errors_run|]. intros [] b1 E1 _. apply runs_return; [apply (ev_ok _ _ _ E1)|].
  eapply command_stable; [exact E1|]. destruct Hc as [C1 C2 C3]. split; [congruence| |by rewrite I2].
  intros n Hn. destruct (I3 n Hn); auto.
Qed.

Lemma producers_run name l b : graph_ok_but (Some name) (graph b) -> (forall n, n ∈ l -> node_there (graph b) n) ->
  runs (mapM_ (fun n => update (updNode n (addProducer name))) l) b
    (fun _ b' => evolves (Some name) b b' /\ forall n, n ∈ l -> produces (graph b') name n).
Proof.
  revert b. induction l as [|n l IH]; intros b H Hl; cbn.
  - apply runs_return; [done|]. intros n. by rewrite elem_of_nil.
  - set (f := addProducer name). assert (Hf : forall m, nodeName (f m) = nodeName m /\ forall k, k ∈ producers m -> k ∈ producers (f m)).
    { intros m. split; [done|]. intros k Hk. cbn. apply elem_of_app. by left. }
    eapply (runs_then _ _ _ _ (fun _ b' => produces (graph b') name n)).
    + apply runs_modify. split.
      * split; cbn; [apply graph_ok_upd; [done|done|]|by apply updNode_grown|done|done|done].
        intros m k _. cbn. rewrite elem_of_app, list_elem_of_singleton. intros [?| ->]; auto.
      * destruct (Hl n ltac:(left)) as [x Hx]. exists (f x). cbn [graph set_graph]. rewrite updNode_lookup, decide_True, Hx by done. split; [done|].
        cbn. apply elem_of_app. right. by apply list_elem_of_singleton.
    + intros [] b1 E1 Hp. cbn in Hp. eapply runs_mono; [apply IH; [apply (ev_ok _ _ _ E1)|]|].
      * intros m Hm. eapply grown_there; [apply (ev_grown _ _ _ E1)|apply Hl; by right].
      * intros [] b2 [E2 Hps]. split; [done|]. intros m [->|Hm]%elem_of_cons; [|by apply Hps].
        eapply grown_produces; [apply (ev_grown _ _ _ E2)|done].
Qed.
Lemma configureOutputs_runs ctx l name c b : graph_ok_but (Some name) (graph b) -> command_there name c b -> (forall n, n ∈ l -> node_there (graph b) n) ->
  runs (configureCommandOutputs ctx l c) b (fun c' b' => evolves (Some name) b b' /\ command_there name c' b').
Proof.
  intros H Hc Hl. unfold configureCommandOutputs. rewrite (co_name _ _ _ Hc).
  eapply runs_then; [by apply producers_run|]. intros [] b1 E1 Hp. cbn in Hp. unfold bind at 1, get, runs. cbn.
  pose proof (outputs_ok (nodes_of b1) l c) as (I1 & I2 & I3). set (r := BuildCommands.configureOutputs _ _ _) in *.
  eapply runs_then; [by apply errors_run, (ev_ok _ _ _ E1)|]. intros [] b2 E2 _. apply runs_return; [apply (ev_ok _ _ _ E2)|].
  eapply command_stable; [exact E2|]. eapply command_stable in Hc; [|exact E1]. destruct Hc as [C1 C2 C3]. split; [congruence|by rewrite I2|].
  intros n Hn. destruct (I3 n Hn); auto.
Qed.

Lemma parseCommandAttribute_runs cwd name e c b : graph_ok_but (Some name) (graph b) -> command_there name c b -> entries_ok [e] ->
  runs (parseCommandAttribute cwd e c) b
    (fun r b' => evolves (Some name) b b' /\ (command_there name r.2 b' /\ (r.1 = false -> reported b'))).
Proof.
  intros H Hc He. destruct e as [[t key] value]. apply entries_ok_cons in He as (_ & Hv & _).
  assert (Herr : forall n m, runs (bind (error n m) (fun _ => ret (true, c))) b
    (fun r b' => evolves (Some name) b b' /\ (command_there name r.2 b' /\ (r.1 = false -> reported b')))).
  { intros n m. eapply runs_then; [by apply error_runs|]. intros [] b1 E1 _. apply runs_return; [apply (ev_ok _ _ _ E1)|].
    split; [by eapply command_stable|done]. }
  cbn [parseCommandAttribute].
  destruct (nodeIsScalarString key "inputs"); [destruct value; try apply Herr|].
  { eapply runs_then; [by apply nodeItems_run|]. intros ns b1 E1 Hns. apply getContext_runs. intros ctx.
    eapply runs_then; [apply configureInputs_runs; [apply (ev_ok _ _ _ E1)|by eapply command_stable|done]|].
    intros c' b2 E2 Hc'. by apply runs_return; [apply (ev_ok _ _ _ E2)|]. }
  destruct (nodeIsScalarString key "outputs"); [destruct value; try apply Herr|].
  { eapply runs_then; [by apply nodeItems_run|]. intros ns b1 E1 Hns. apply getContext_runs. intros ctx.
    eapply runs_then; [apply configureOutputs_runs; [apply (ev_ok _ _ _ E1)|by eapply command_stable|done]|].
    intros c' b2 E2 Hc'. by apply runs_return; [apply (ev_ok _ _ _ E2)|]. }
  destruct (nodeIsScalarString key "description"); [destruct value; try apply Herr|].
  { apply runs_return; [done|]. split; [|done]. eapply command_same; [apply description_ok|done]. }
  destruct (nodeIsScalarString key "env-base"); [destruct value as [t'|t' v|t' es|t' l|t']; try apply Herr|].
  { unfold bind at 1, get, runs. cbn. destruct (lookupEnvironmentBase v b) as [base|]; [|apply Herr].
    pose proof (base_env_ok base c) as Hb. destruct (configureEnvironmentBase base c) as [ok c']. cbn in Hb.
    assert (Hc' : command_there name c' b) by by eapply command_same.
    destruct ok; [by apply runs_return|]. eapply runs_then; [by apply error_runs|]. intros [] b1 E1 R.
    apply runs_return; [apply (ev_ok _ _ _ E1)|]. split; [by eapply command_stable|done]. }
  destruct key; try apply Herr. apply parseAttributeValue_runs; [apply command_stable|apply command_receives|done..].
Qed.
Lemma parseCommandAttributes_runs cwd name l : forall c b, graph_ok_but (Some name) (graph b) -> command_there name c b -> entries_ok l ->
  runs (parseCommandAttributes cwd l c) b
    (fun r b' => evolves (Some name) b b' /\ (command_there name r.2 b' /\ (r.1 = false -> reported b'))).
Proof.
  induction l as [|[[t k] v] l IH]; intros c b H Hc Hl; cbn [parseCommandAttributes]; [by apply runs_return|].
  apply entries_ok_cons in Hl as (Hk & Hv & Hl). eapply runs_then.
  - apply parseCommandAttribute_runs; [done|done|]. by apply entries_ok_cons.
  - intros [ok c'] b1 E1 [Hc' R]. destruct ok; [by apply IH; [apply (ev_ok _ _ _ E1)|..]|].
    by apply runs_return; [apply (ev_ok _ _ _ E1)|].
Qed.

(** ** Sections *)
Record later (b b' : Builder) : Prop := mkLater {
  lt_ok : graph_ok (graph b');
  lt_events : events b `prefix_of` events b' }.
Lemma later_refl b : graph_ok (graph b) -> later b b.
Proof. by split. Qed.
Lemma later_trans b1 b2 b3 : later b1 b2 -> later b2 b3 -> later b1 b3.
Proof. intros [A1 A2] [B1 B2]. split; [done|by etrans]. Qed.
Lemma evolves_later b b' : evolves None b b' -> later b b'.
Proof. intros H. split; apply H. Qed.

(** The part of the file is read to the end, or given up with a report. *)
Definition outcome_of (b : Builder) (ok : bool) (b' : Builder) : Prop := if ok then later b b' else reported b'.
Definition sound (m : M Builder bool) : Prop := forall b, graph_ok (graph b) -> runs m b (outcome_of b).

Lemma outcome_later b b1 ok b2 : later b b1 -> outcome_of b1 ok b2 -> outcome_of b ok b2.
Proof. destruct ok; [apply later_trans|done]. Qed.
Lemma sound_then {A} (m : M Builder A) (k : A -> M Builder bool) b Q : graph_ok (graph b) ->
  runs m b (fun a b' => evolves None b b' /\ Q a b') ->
  (forall a b', evolves None b b' -> Q a b' -> runs (k a) b' (outcome_of b')) ->
  runs (bind m k) b (outcome_of b).
Proof.
  intros H Hm Hk. eapply runs_bind; [exact Hm|]. intros a b1 [E1 HQ]. eapply runs_mono; [by apply Hk|].
  intros ok b2. by apply outcome_later, evolves_later.
Qed.
Lemma sound_evolves m : (forall b, graph_ok (graph b) -> runs m b (fun ok b' => evolves None b b' /\ (ok = false -> reported b'))) -> sound m.
Proof. intros Hm b H. eapply runs_mono; [by apply Hm|]. intros [] b' [E R]; [by apply evolves_later|by apply R]. Qed.
Lemma sound_return ok b : graph_ok (graph b) -> (ok = false -> reported b) -> runs (ret ok) b (outcome_of b).
Proof. intros H R. apply runs_ret. destruct ok; [by apply later_refl|by apply R]. Qed.
Lemma sound_error n msg ok : sound (bind (error n msg) (fun _ => ret ok)).
Proof.
  intros b H. eapply sound_then; [done|by apply error_runs|]. intros [] b1 E1 R. by apply sound_return; [apply (ev_ok _ _ _ E1)|].
Qed.
Lemma sound_if (m k : M Builder bool) : sound m -> sound k -> sound (bind m (fun ok => if ok then k else ret false)).
Proof.
  intros Hm Hk b H. eapply runs_bind; [by apply Hm|]. intros [] b1 H1; [|by apply runs_ret].
  eapply runs_mono; [apply Hk, (lt_ok _ _ H1)|]. intros ok b2. by apply outcome_later.
Qed.
Lemma forEach_sound {A} (f : A -> M Builder bool) l : (forall x, x ∈ l -> sound (f x)) -> sound (forEach f l).
Proof.
  induction l as [|x l IH]; intros Hf; [intros b H; by apply sound_return|]. cbn. apply sound_if; [apply Hf; by left|].
  apply IH. intros y Hy. apply Hf. by right.
Qed.

Lemma entry_ok es t k v : entries_ok es -> (t, k, v) ∈ es -> yaml_ok k = true /\ yaml_ok v = true.
Proof.
  unfold entries_ok. rewrite forallb_forall. intros H Hin. specialize (H (t, k, v)). rewrite <- list_elem_of_In in H.
  specialize (H Hin). cbn in H. by apply andb_true_iff in H.
Qed.
Lemma value_entries t es : yaml_ok (Mapping t es) = true -> entries_ok es.
Proof. done. Qed.

Lemma attributes_sound J kind sec msg configure es : (forall p, stable p J) -> receives None J configure -> entries_ok es ->
  forall b, graph_ok (graph b) -> J tt b ->
  runs (forEach (parseAttribute kind sec msg configure) es) b (fun ok b' => evolves None b b' /\ (ok = false -> reported b')).
Proof.
  intros HJ Hr. induction es as [|[[t k] v] es IH]; intros Hes b H Hx; cbn [forEach]; [by apply runs_return|].
  apply entries_ok_cons in Hes as (Hk & Hv & Hes). eapply (runs_then _ _ _ _ (fun ok b' => ok = false -> reported b')).
  - assert (Herr : forall n, runs (bind (error n msg) (fun _ => ret true)) b (fun ok b' => evolves None b b' /\ (ok = false -> reported b'))).
    { intros n. eapply runs_then; [by apply error_runs|]. intros [] b1 E1 _. by apply runs_return; [apply (ev_ok _ _ _ E1)|]. }
    cbn. destruct k; try apply Herr.
    eapply runs_then; [by apply (parseAttributeValue_runs None J)|]. intros r b1 E1 [_ R]. by apply runs_return; [apply (ev_ok _ _ _ E1)|].
  - intros [] b1 E1 R; [apply IH; [done|apply (ev_ok _ _ _ E1)|by eapply HJ]|]. by apply runs_return; [apply (ev_ok _ _ _ E1)|].
Qed.

Lemma getToolFor_runs name n b : graph_ok (graph b) -> runs (getToolFor name n) b (fun t b' => evolves None b b' /\
  match t with Some _ => is_Some (tools (graph b') !! name) | None => reported b' end).
Proof.
  intros H. unfold getToolFor. eapply (runs_then _ _ _ _ (fun t b' => match t with Some _ => is_Some (tools (graph b') !! name) | None => True end)).
  - unfold getOrCreateTool, bind at 1, gets, runs. cbn. destruct (tools (graph b) !! name) as [t|] eqn:Et.
    + apply runs_return; [done|]. by rewrite Et.
    + destruct (lookupTool name) as [t|]; [|by apply runs_return].
      eexists _, _. split; [done|]. split; [by apply evolves_tool|]. cbn. by rewrite lookup_insert_eq.
  - intros [t|] b1 E1 Ht; [by apply runs_return; [apply (ev_ok _ _ _ E1)|]|].
    eapply runs_then; [by apply error_runs, (ev_ok _ _ _ E1)|]. intros [] b2 E2 R. by apply runs_return; [apply (ev_ok _ _ _ E2)|].
Qed.

Lemma tools_sound es : entries_ok es -> sound (parseToolsMapping es).
Proof.
  intros Hes. apply forEach_sound. intros [[t k] v] Hin. destruct (entry_ok _ _ _ _ Hes Hin) as [_ Hv].
  destruct k as [|t' name| | |]; try apply sound_error. destruct v as [| |t'' attrs| |]; try apply sound_error.
  apply sound_evolves. intros b H. eapply runs_then; [by apply getToolFor_runs|]. intros [tool|] b1 E1 Ht.
  - apply (attributes_sound (tool_there name)); [intros p; apply tool_stable|apply tool_receives|done|apply (ev_ok _ _ _ E1)|done].
  - by apply runs_return; [apply (ev_ok _ _ _ E1)|].
Qed.

Lemma nodesMapping_sound es : entries_ok es -> sound (parseNodesMapping es).
Proof.
  intros Hes. apply forEach_sound. intros [[t k] v] Hin. destruct (entry_ok _ _ _ _ Hes Hin) as [_ Hv].
  destruct k as [|t' name| | |]; try apply sound_error. destruct v as [| |t'' attrs| |]; try apply sound_error.
  apply sound_evolves. intros b H. eapply runs_then; [by apply getOrCreateNode_runs|]. intros n b1 E1 [_ Hn].
  apply (attributes_sound (node_at n)); [intros p; apply node_stable|apply node_receives|done|apply (ev_ok _ _ _ E1)|done].
Qed.

Lemma later_emit e b : graph_ok (graph b) -> later b (log_event e b).
Proof. intros H. split; [done|by apply prefix_app_r]. Qed.
Lemma later_graph d b b1 : later b b1 -> graph_ok d -> later b (set_graph d b1).
Proof. intros [_ H] Hd. by split. Qed.

Lemma targets_sound es : entries_ok es -> sound (parseTargetsMapping es).
Proof.
  intros Hes. apply forEach_sound. intros [[t k] v] Hin. destruct (entry_ok _ _ _ _ Hes Hin) as [_ Hv].
  destruct k as [|t' name| | |]; try apply sound_error. destruct v as [| | |t'' nodes|]; try apply sound_error.
  intros b H. eapply sound_then; [done|by apply scalarItems_run|]. intros names b1 E1 _. unfold addTargetNamed.
  eapply runs_bind; [eapply runs_bind; [by apply nodes_run, (ev_ok _ _ _ E1)|]|].
  - intros ns b2 [E2 Hns]. eapply runs_bind; [by apply (emit_runs None), (ev_ok _ _ _ E2)|]. intros [] b3 (E3 & G3 & _).
    apply (runs_modify _ _ (fun _ b' => later b1 b')). apply later_graph.
    + eapply later_trans; by apply evolves_later.
    + apply graph_ok_target; [apply (ev_ok _ _ _ E3)|]. rewrite G3. done.
  - intros [] b2 L2. by apply runs_ret.
Qed.

Lemma default_sound v name : sound (parseDefaultTarget v name).
Proof.
  intros b H. unfold parseDefaultTarget, setDefaultTarget. eapply runs_bind with (Q1 := fun ok b' => later b b').
  - unfold bind at 1, get, runs, hasTarget. cbn. case_bool_decide as Ht; [|by apply runs_ret, later_refl].
    unfold update, emit, bind, modify, ret. eexists _, _. split; [done|]. apply (later_trans _ (set_graph (set_defaultTarget name (graph b)) b)).
    + split; [|done]. destruct H as [H1 H2 H3 H4 H5 H6]. split; cbn; try done; [|by right].
      intros k c Hc. by apply (command_nodes (graph b)), H4.
    + split; [|by apply prefix_app_r]. cbn. destruct H as [H1 H2 H3 H4 H5 H6]. split; cbn; try done; [|by right].
      intros k c Hc. by apply (command_nodes (graph b)), H4.
  - intros [] b1 L1; [by apply runs_ret|]. eapply runs_mono; [apply sound_error, (lt_ok _ _ L1)|].
    intros ok b2. by apply outcome_later.
Qed.

Lemma bases_sound es : sound (parseEnvironmentBasesMapping es).
Proof.
  apply forEach_sound. intros [[t k] v] Hin.
  destruct k as [|t' name| | |]; try apply sound_error. destruct v as [| |t'' l| |]; try apply sound_error.
  intros b H. unfold bind at 1, get, runs. cbn. destruct (hasEnvironmentBase name b); [by apply sound_error|].
  eapply sound_then; [done|by apply scalarPairs_run|]. intros ps b1 E1 _. unfold addEnvironmentBase, bind, get, runs. cbn.
  pose proof (ev_ok _ _ _ E1) as H1. destruct (hasEnvironmentBase name b1); (eexists _, _; split; [done|]); [by apply later_refl|].
  split; [|done]. cbn. destruct H1 as [K1 K2 K3 K4 K5 K6]. split; cbn; try done. intros n c Hc. by apply (command_nodes (graph b1)), K4.
Qed.

Lemma created_ok d name t : command_ok d name (createCommand name t).
Proof. destruct t; split; try done; intros n; by rewrite elem_of_nil. Qed.

Lemma command_sound cwd e : entries_ok [e] -> sound (parseCommand cwd e).
Proof.
  intros He. destruct e as [[t k] v]. apply entries_ok_cons in He as (_ & Hv & _). cbn [parseCommand].
  destruct k as [|t' name| | |]; try apply sound_error. destruct v as [| |t'' attrs| |]; try apply sound_error.
  intros b H. unfold bind at 1, get, runs, hasCommand. cbn [fst snd]. case_bool_decide as Hc; [by apply sound_error|].
  destruct attrs as [|[[ta ka] va] attrs]; [by apply sound_error|]. destruct (nodeIsScalarString ka "tool"); cbn [negb]; [|by apply sound_error].
  destruct va as [|tv toolName| | |]; try (by apply sound_error).
  apply value_entries, entries_ok_cons in Hv as (_ & _ & Hattrs).
  eapply sound_then; [done|by apply getToolFor_runs|]. intros [tool|] b1 E1 Ht; [|by apply sound_return; [apply (ev_ok _ _ _ E1)|]].
  assert (Hn1 : commands (graph b1) !! name = None) by (rewrite (ev_commands _ _ _ E1); by apply eq_None_not_Some).
  eapply runs_bind; [apply parseCommandAttributes_runs; [apply graph_ok_pending, (ev_ok _ _ _ E1)|apply created_ok|done]|].
  intros [ok c] b2 (E2 & Hc2 & R). cbn [fst snd] in *. destruct ok.
  - unfold addCommandNamed, emit, update, bind, modify, ret. eexists _, _. split; [done|]. split.
    + cbn. apply graph_ok_command; [apply (ev_ok _ _ _ E2)|by rewrite (ev_commands _ _ _ E2)|done].
    + cbn. etrans; [apply (ev_events _ _ _ E2)|by apply prefix_app_r].
  - apply runs_ret. by apply R.
Qed.
Lemma commands_sound cwd es : entries_ok es -> sound (parseCommandsMapping cwd es).
Proof.
  intros Hes. apply forEach_sound. intros [[t k] v] Hin. apply command_sound, entries_ok_cons.
  by destruct (entry_ok _ _ _ _ Hes Hin).
Qed.

(** ** The client section and the file *)
Lemma properties_run ctx l b : graph_ok (graph b) -> runs (configureProperties ctx l) b (fun ok b' => evolves None b b' /\ (ok = false -> reported b')).
Proof.
  revert b. induction l as [|[name value] l IH]; intros b H; cbn [configureProperties]; [by apply runs_return|].
  assert (Hemit : forall e, runs (bind (emit e) (fun _ => configureProperties ctx l)) b (fun ok b' => evolves None b b' /\ (ok = false -> reported b'))).
  { intros e. eapply (runs_then _ _ _ _ (fun _ _ => True)).
    - eapply runs_mono; [by apply (emit_runs None)|]. intros [] b' (E & _). by split.
    - intros [] b1 E1 _. apply IH, (ev_ok _ _ _ E1). }
  repeat (destruct (is_text _ _)); try apply Hemit; try by apply IH.
  eapply runs_then; [by apply ctx_error_runs|]. intros [] b1 E1 R. by apply runs_return; [apply (ev_ok _ _ _ E1)|].
Qed.

Lemma clientEntries_run es : forall name version props b, graph_ok (graph b) ->
  runs (clientEntries es name version props) b (fun r b' => evolves None b b' /\ (r = None -> reported b')).
Proof.
  induction es as [|[[t k] v] es IH]; intros name version props b H; cbn [clientEntries]; [by apply runs_return|].
  assert (Herr : forall n m, runs (bind (error n m) (fun _ => ret None)) b
    (fun (r : option (chars * Z * property_list)) b' => evolves None b b' /\ (r = None -> reported b'))).
  { intros n m. eapply runs_then; [by apply error_runs|]. intros [] b1 E1 R. by apply runs_return; [apply (ev_ok _ _ _ E1)|]. }
  destruct k as [|tk key| | |]; try apply Herr. destruct v as [|tv value| | |]; try apply Herr.
  eapply (runs_then _ _ _ _ (fun _ _ => True)).
  - destruct (_ && _); [|by apply runs_return]. destruct (Shell.getAsUInt32 value); [by apply runs_return|].
    eapply runs_then; [by apply error_runs|]. intros [] b1 E1 _. by apply runs_return; [apply (ev_ok _ _ _ E1)|].
  - intros version' b1 E1 _. pose proof (ev_ok _ _ _ E1) as H1. destruct (is_text key "perform-ownership-analysis"); [|by apply IH].
    eapply (runs_then _ _ _ _ (fun _ _ => True)); [|intros [] b2 E2 _; apply IH, (ev_ok _ _ _ E2)].
    destruct (is_text value "yes"); [|by apply runs_return]. apply runs_modify. split; [|done]. split; [done|apply grown_refl|done|done|done].
Qed.

Lemma client_sound name version map es : sound (parseClientMapping name version map es).
Proof.
  apply sound_evolves. intros b H. unfold parseClientMapping. eapply runs_then; [by apply clientEntries_run|].
  intros [[[n v] ps]|] b1 E1 R; [|apply runs_return; [apply (ev_ok _ _ _ E1)|intros _; by apply R]]. apply getContext_runs. intros ctx.
  eapply (runs_then _ _ _ _ (fun _ _ => True)).
  - unfold configureClient. case_decide; [|apply runs_return; [apply (ev_ok _ _ _ E1)|done]].
    case_decide; [|apply runs_return; [apply (ev_ok _ _ _ E1)|done]].
    eapply runs_mono; [apply properties_run, (ev_ok _ _ _ E1)|]. intros ok b' [E _]. by split.
  - intros [] b2 E2 _; [by apply runs_return; [apply (ev_ok _ _ _ E2)|]|].
    eapply runs_then; [by apply error_runs, (ev_ok _ _ _ E2)|]. intros [] b3 E3 R3. by apply runs_return; [apply (ev_ok _ _ _ E3)|].
Qed.

Lemma section_sound name parse l rest : entries_ok l -> (forall v, yaml_ok v = true -> sound (parse v)) ->
  (forall l', entries_ok l' -> sound (rest l')) -> sound (section name parse l rest).
Proof.
  intros Hl Hp Hr. unfold section. destruct l as [|[[t k] v] l]; [by apply Hr|]. pose proof Hl as Hl'.
  apply entries_ok_cons in Hl as (_ & Hv & Hl). destruct (nodeIsScalarString k name); [|by apply Hr].
  apply sound_if; [by apply Hp|by apply Hr].
Qed.
Lemma expectMap_sound name parse v : yaml_ok v = true -> (forall es, entries_ok es -> sound (parse es)) -> sound (expectMap name parse v).
Proof. intros Hv Hp. destruct v; try apply sound_error. by apply Hp. Qed.

Lemma laterSections_sound cwd l : entries_ok l -> sound (laterSections cwd l).
Proof.
  intros Hl. unfold laterSections.
  apply section_sound; [done|intros v Hv; apply expectMap_sound; [done|apply tools_sound]|]. clear l Hl. intros l Hl.
  apply section_sound; [done|intros v Hv; apply expectMap_sound; [done|apply targets_sound]|]. clear l Hl. intros l Hl.
  apply section_sound; [done|intros v Hv; destruct v; try apply sound_error; apply default_sound|]. clear l Hl. intros l Hl.
  apply section_sound; [done|intros v Hv; apply expectMap_sound; [done|apply nodesMapping_sound]|]. clear l Hl. intros l Hl.
  apply section_sound; [done|intros v Hv; apply expectMap_sound; [done|intros es _; apply bases_sound]|]. clear l Hl. intros l Hl.
  apply section_sound; [done|intros v Hv; apply expectMap_sound; [done|apply commands_sound]|]. clear l Hl. intros [|[[t k] v] l] Hl.
  - intros b H. by apply sound_return.
  - apply sound_error.
Qed.

(** A document the loader does not fail on: scalars without NUL, and an entry in the root. *)
Definition root_ok (n : Yaml) : Prop := yaml_ok n = true /\ match n with Mapping _ [] => False | _ => True end.

Lemma root_sound cwd name version n : root_ok n -> sound (parseRootNode cwd name version n).
Proof.
  intros [Hn Hr]. destruct n as [| |t l| |]; try apply sound_error. cbn [parseRootNode]. destruct l as [|[[te k] v] l]; [done|].
  apply value_entries, entries_ok_cons in Hn as (_ & Hv & Hl). destruct (nodeIsScalarString k "client"); cbn [negb]; [|apply sound_error].
  destruct v; try apply sound_error. apply sound_if; [apply client_sound|by apply laterSections_sound].
Qed.

Lemma finalize_runs O b : OwnershipAnalysis.orders_ok O -> graph_ok (graph b) ->
  runs (finalize O) b (fun r b' => match r with Some d => graph_ok d | None => reported b' end).
Proof.
  intros HO H. unfold finalize, bind at 1, get, runs. cbn. destruct (performOwnershipAnalysis b); [|by eexists _, _].
  destruct (OwnershipAnalysis.run O (graph b)) as [d|[n cs]] eqn:E; eexists _, _; (split; [done|]).
  - exact (run_ok O _ _ HO H E).
  - exists (cannotLoadDueToMultipleProducers n cs). split; [|done]. cbn. apply elem_of_app. right. by apply list_elem_of_singleton.
Qed.

Section Load.
Context (cwd name : chars) (version : Z) (O : OwnershipAnalysis.Orders) (files : chars -> option chars) (documents : chars -> list (option Yaml)).

(** What is asked of the file: a root with an entry, if it is a mapping; further documents
    with roots; no NUL in scalars. *)
Definition file_ok (filename : chars) : Prop := forall buffer, files filename = Some buffer ->
  match documents buffer with
  | Some root :: rest => root_ok root /\ match rest with None :: _ => False | _ => True end
  | _ => True
  end.

(** C21: Loading a build file ends with a well-formed description or with a failure that was
    reported, whatever the file says, provided that its root has an entry if it is a mapping
    ([empty_file_asserts]), that the document after the first has a root and that no scalar
    contains a NUL.  In the description every node is found by its name, targets
    and commands are stored under their names and refer to nodes that are there, a node
    lists only commands that are there as its producers, every command is listed by its
    outputs, and the default target is a target.  No assertion fails on the way, also not in
    the configuration of nodes, tools and commands or in the ownership analysis. *)
Theorem load_wellformed filename : OwnershipAnalysis.orders_ok O -> file_ok filename ->
  exists r b', load cwd name version O files documents (newBuilder filename) = Ok (r, b')
    /\ match r with Some d => graph_ok d | None => reported b' end.
Proof.
  intros HO Hf. assert (H0 : graph_ok (graph (newBuilder filename))).
  { split; cbn; [intros k n; by rewrite lookup_empty|done|intros k t; by rewrite lookup_empty|intros k c; by rewrite lookup_empty|done|by left]. }
  unfold load, bind at 1, get. cbn [originName newBuilder]. specialize (Hf).
  assert (Herr : forall a msg b, graph_ok (graph b) -> runs (bind (errorAt a msg) (fun _ => ret None)) b
    (fun (r : option BuildDescription) b' => match r with Some d => graph_ok d | None => reported b' end)).
  { intros a msg b H. eapply runs_bind; [by apply (error_runs None (Null a))|]. intros [] b1 [_ R]. by apply runs_ret. }
  destruct (files filename) as [buffer|] eqn:Ef; [|by apply Herr]. specialize (Hf buffer Ef).
  eapply runs_bind; [by apply (emit_runs None)|]. intros [] b1 (E1 & _). pose proof (ev_ok _ _ _ E1) as H1.
  destruct (documents buffer) as [|[root|] rest]; try by apply Herr. destruct Hf as [Hroot Hrest].
  eapply runs_bind; [by apply root_sound|]. intros [] b2 H2; [|by apply runs_ret].
  destruct rest as [|[r|] rest]; [|by apply Herr, (lt_ok _ _ H2)|done]. apply finalize_runs; [done|by apply H2].
Qed.
End Load.

(** ** Concrete files *)
Definition txt (s : string) : Yaml := Scalar None (chars_of s).
Definition row (k : string) (v : Yaml) : Entry := (None, txt k, v).
Definition seq_of (l : list string) : Yaml := Sequence None (map txt l).

Definition client_section (version : string) : Entry :=
  row "client" (Mapping None [row "name" (txt "basic"); row "version" (txt version)]).
Definition example_root (version dir : string) : Yaml := Mapping None
  [client_section version;
   row "targets" (Mapping None [row "all" (seq_of ["out"])]);
   row "default" (txt "all");
   row "nodes" (Mapping None [row dir (Mapping None [row "is-directory" (txt "true")])]);
   row "env-bases" (Mapping None [row "shared" (Mapping None [row "LANG" (txt "C")])]);
   row "commands" (Mapping None
     [row "C" (Mapping None [row "tool" (txt "shell"); row "inputs" (seq_of ["in"; dir]); row "outputs" (seq_of ["out"]);
                             row "env-base" (txt "shared"); row "args" (seq_of ["cp"; "in"; "out"])])])].
Definition load_example (root : Yaml) : outcome (option BuildDescription * Builder) :=
  load [] (chars_of "basic") 0 OwnershipAnalysis.listOrders (fun _ => Some []) (fun _ => [Some root]) (newBuilder (chars_of "f")).
Definition errors_of (b : Builder) : list chars := omap (fun e => match e with reportError _ _ m => Some m | _ => None end) (events b).

Lemma load_wellformed_witness :
  (match load_example (example_root "0" "dir/") with
   | Ok (Some d, b) => errors_of b = [] /\ map nodeName (allNodes d) = [chars_of "out"; chars_of "dir/"; chars_of "in"]
       /\ defaultTarget d = chars_of "all" /\ is_Some (commands d !! chars_of "C")
   | _ => False
   end)
  /\ exists r b', load_example (example_root "0" "dir/") = Ok (r, b') /\ match r with Some d => graph_ok d | None => reported b' end.
Proof.
  split; [vm_compute; repeat split; by eexists|].
  apply (load_wellformed [] (chars_of "basic") 0 OwnershipAnalysis.listOrders (fun _ => Some []) (fun _ => [Some (example_root "0" "dir/")]) (chars_of "f")).
  - exact listOrders_ok.
  - intros buffer _. split; [split; [vm_compute; reflexivity|exact I]|exact I].
Defined.

(** An empty mapping at the top is read past its end. *)
Example empty_file_asserts : is_ok (load_example (Mapping None [])) = false.
Proof. reflexivity. Qed.

(** Errors are counted but do not keep the file from being loaded. *)
Example errors_do_not_fail :
  match load_example (example_root "0.1" "dir/") with
  | Ok (Some d, b) => errors_of b = [chars_of "invalid version number in 'client' map"]
  | _ => False
  end.
Proof. vm_compute. reflexivity. Qed.

(** The name and the version of the client are also passed as properties. *)
Example name_and_version_are_properties : exists b,
  clientEntries [row "name" (txt "basic"); row "version" (txt "0"); row "perform-ownership-analysis" (txt "yes")] [] 0 []
    (newBuilder (chars_of "f"))
  = Ok (Some (chars_of "basic", 0%Z, [(chars_of "name", chars_of "basic"); (chars_of "version", chars_of "0")]), b).
Proof. eexists. vm_compute. reflexivity. Qed.

(** A second target of the same name replaces the first without an error, although commands
    and environment bases may not be repeated. *)
Example repeated_target_replaces :
  match load_example (Mapping None [client_section "0";
    row "targets" (Mapping None [row "t" (seq_of ["a"]); row "t" (seq_of ["b"])])]) with
  | Ok (Some d, b) => errors_of b = [] /\ targets d !! chars_of "t" = Some (mkTarget (chars_of "t") [1])
  | _ => False
  end.
Proof. vm_compute. split; reflexivity. Qed.
