(* ===== verification/BuildManifest.v ===== *)
(** * The two ways to a description

    BuildDescriptionBuilder.h promises that a manifest and a client that drives the builder
    directly "cannot disagree about how a command is configured".  A [Graph] says what either
    of them has to say; [populate] says it by calls on the builder, [render] in YAML. *)

From Stdlib Require Import Ascii String Lia ZArith.
From stdpp Require Import base gmap list strings numbers.
From S2P Require Import Prelude Chars NinjaPath Coding BuildValue BuildKey Process BuildNode ExternalCommand ShellCommand BuildTasks BuildTools SwiftCompiler BuildCommands BuildRules BuildDescription BuildFile.

Local Open Scope nat_scope.

Inductive Part :=
| Inputs (names : list chars)
| Outputs (names : list chars)
| Description (text : chars)
| EnvBase (name : chars)
| Attr (name : chars) (v : Attribute).

Record CommandSpec := mkCommandSpec { csName : chars; csTool : chars; csParts : list Part }.

Record Graph := mkGraph {
  gTools : list (chars * list (chars * Attribute));
  gTargets : list (chars * list chars);
  gDefault : option chars;
  gNodes : list (chars * list (chars * Attribute));
  gBases : list (chars * list (chars * chars));
  gCommands : list CommandSpec }.

Section Manifest.
Context (cwd : chars).
Abbreviation B := (M Builder).

(** ** Calls on the builder *)
Definition withContext {A} (k : Context -> B A) : B A := ctx <~ gets noContext; k ctx.

Definition giveTool (t : chars * list (chars * Attribute)) : B bool :=
  tool <~ getOrCreateTool t.1;
  match tool with
  | None => ret false
  | Some _ => forEach (fun a => withContext (fun ctx => r <~ configureToolNamed t.1 ctx a.1 a.2 tt; ret r.1)) t.2
  end.
Definition giveTarget (t : chars * list chars) : B bool := addTargetNamed t.1 t.2 ;;; ret true.
Definition giveNode (n : chars * list (chars * Attribute)) : B bool :=
  getOrCreateNode n.1 false ;;; forEach (fun a => configureNodeAttribute n.1 a.1 a.2) n.2.
Definition giveBase (e : chars * list (chars * chars)) : B bool := addEnvironmentBase e.1 e.2.
Definition givePart (p : Part) (c : Command) : B (bool * Command) :=
  withContext (fun ctx =>
  match p with
  | Inputs l => c' <~ configureCommandInputNames ctx l c; ret (true, c')
  | Outputs l => c' <~ configureCommandOutputNames ctx l c; ret (true, c')
  | Description v => ret (true, configureCommandDescription v c)
  | EnvBase v => configureCommandEnvironmentBase ctx v c
  | Attr name v => configureCommandAttribute cwd ctx name v c
  end).
Fixpoint giveParts (l : list Part) (c : Command) : B (bool * Command) :=
  match l with
  | [] => ret (true, c)
  | p :: l' => r <~ givePart p c; if r.1 then giveParts l' r.2 else ret (false, r.2)
  end.
Definition giveCommand (s : CommandSpec) : B bool :=
  b <~ get;
  if hasCommand (csName s) b then ret false
  else
    c <~ createCommandNamed (csName s) (csTool s);
    match c with
    | None => ret false
    | Some c => r <~ giveParts (csParts s) c; if r.1 then addCommandNamed (csName s) r.2 ;;; ret true else ret false
    end.
Definition andThen (m k : B bool) : B bool := ok <~ m; if ok then k else ret false.
Definition populate (g : Graph) : B bool :=
  andThen (forEach giveTool (gTools g)) (
  andThen (forEach giveTarget (gTargets g)) (
  andThen (match gDefault g with Some name => setDefaultTarget name | None => ret true end) (
  andThen (forEach giveNode (gNodes g)) (
  andThen (forEach giveBase (gBases g)) (
  forEach giveCommand (gCommands g)))))).

(** ** The same in YAML *)
Definition scalar (v : chars) : Yaml := Scalar None v.
Definition pair_entry (p : chars * chars) : Entry := (None, scalar p.1, scalar p.2).
Definition value_yaml (v : Attribute) : Yaml :=
  match v with
  | OneValue x => scalar x
  | Values l => Sequence None (map scalar l)
  | Bindings l => Mapping None (map pair_entry l)
  end.
Definition attribute_entry (a : chars * Attribute) : Entry := (None, scalar a.1, value_yaml a.2).
Definition attributed (t : chars * list (chars * Attribute)) : Entry := (None, scalar t.1, Mapping None (map attribute_entry t.2)).
Definition target_entry (t : chars * list chars) : Entry := (None, scalar t.1, Sequence None (map scalar t.2)).
Definition base_entry (e : chars * list (chars * chars)) : Entry := (None, scalar e.1, Mapping None (map pair_entry e.2)).
Definition keyed (k : string) (v : Yaml) : Entry := (None, scalar (chars_of k), v).
Definition part_entry (p : Part) : Entry :=
  match p with
  | Inputs l => keyed "inputs" (Sequence None (map scalar l))
  | Outputs l => keyed "outputs" (Sequence None (map scalar l))
  | Description v => keyed "description" (scalar v)
  | EnvBase v => keyed "env-base" (scalar v)
  | Attr name v => attribute_entry (name, v)
  end.
Definition command_entry (s : CommandSpec) : Entry :=
  (None, scalar (csName s), Mapping None (keyed "tool" (scalar (csTool s)) :: map part_entry (csParts s))).
Definition sections (g : Graph) : list Entry :=
  keyed "tools" (Mapping None (map attributed (gTools g)))
  :: keyed "targets" (Mapping None (map target_entry (gTargets g)))
  :: (match gDefault g with Some name => [keyed "default" (scalar name)] | None => [] end)
  ++ [keyed "nodes" (Mapping None (map attributed (gNodes g)));
      keyed "env-bases" (Mapping None (map base_entry (gBases g)));
      keyed "commands" (Mapping None (map command_entry (gCommands g)))].

(** An attribute that is not one of the other keys of a command. *)
Definition part_ok (p : Part) : Prop :=
  match p with
  | Attr name _ => is_text name "inputs" = false /\ is_text name "outputs" = false
                   /\ is_text name "description" = false /\ is_text name "env-base" = false
  | _ => True
  end.
Definition graph_spec_ok (g : Graph) : Prop := Forall (fun s => Forall part_ok (csParts s)) (gCommands g).

(** ** They do the same *)

(** Whenever the first succeeds, so does the second, and both end alike. *)
Definition follows {A} (good : A -> Prop) (m k : B A) : Prop := forall b a b', m b = Ok (a, b') -> good a -> k b = Ok (a, b').
Definition yes (ok : bool) : Prop := ok = true.

Lemma follows_refl {A} (good : A -> Prop) (m : B A) : follows good m m.
Proof. by intros b a b' E _. Qed.

Lemma forEach_follows {A C} (f : A -> B bool) (g : C -> B bool) (r : A -> C) l :
  (forall x, x ∈ l -> follows yes (f x) (g (r x))) -> follows yes (forEach f l) (forEach g (map r l)).
Proof.
  induction l as [|x l IH]; intros H b ok b' E Hok; [exact E|]. cbn [map forEach] in *.
  apply bind_inv in E as (okx & b1 & Ex & E). destruct okx; [|injection E as <- _; discriminate Hok].
  rewrite (bind_ok _ _ _ _ _ (H x ltac:(left) _ _ _ Ex eq_refl)). eapply IH; [|exact E|done]. intros y Hy. apply H. by right.
Qed.

Lemma scalarItems_render msg l b : scalarItems msg (map scalar l) b = Ok (l, b).
Proof. induction l as [|v l IH]; [done|]. cbn. by rewrite (bind_ok _ _ _ _ _ IH). Qed.
Lemma scalarPairs_render m1 m2 l b : scalarPairs m1 m2 (map pair_entry l) b = Ok (l, b).
Proof. induction l as [|[k v] l IH]; [done|]. cbn. by rewrite (bind_ok _ _ _ _ _ IH). Qed.
Lemma nodeItems_render msg l b : nodeItems msg (map scalar l) b = getOrCreateNodes l b.
Proof. revert b. induction l as [|v l IH]; intros b; [done|]. cbn. unfold bind. destruct (getOrCreateNode v true b) as [[n b1]|]; [|done]. by rewrite IH. Qed.

Lemma attribute_render {X} kind sec configure attribute v (x : X) b :
  parseAttributeValue kind sec configure attribute (scalar attribute) (value_yaml v) x b
  = withContext (fun ctx => configure ctx attribute v x) b.
Proof.
  destruct v as [v|l|l]; [done| |]; cbn.
  - by rewrite (bind_ok _ _ _ _ _ (scalarItems_render _ l b)).
  - by rewrite (bind_ok _ _ _ _ _ (scalarPairs_render _ _ l b)).
Qed.

Lemma parseAttribute_render kind sec msg configure a b : parseAttribute kind sec msg configure (attribute_entry a) b
  = bind (withContext (fun ctx => configure ctx a.1 a.2 tt)) (fun r => ret r.1) b.
Proof. unfold parseAttribute, attribute_entry. cbn [scalar]. unfold bind at 1. fold (scalar a.1). by rewrite attribute_render. Qed.

(** Tools and nodes. *)
Lemma tool_follows t : follows yes (giveTool t)
  (tool <~ getToolFor t.1 (scalar t.1);
   match tool with None => ret false | Some _ => forEach (parseToolAttribute t.1) (map attribute_entry t.2) end).
Proof.
  intros b ok b' E Hok. unfold giveTool in E. apply bind_inv in E as (tool & b1 & Et & E).
  destruct tool as [tool|]; [|injection E as <- _; discriminate Hok].
  unfold getToolFor. rewrite bind_assoc, (bind_ok _ _ _ _ _ Et), bind_ret_l. revert Hok. revert E. apply forEach_follows.
  intros a _ b2 ok2 b2' E2 _. unfold parseToolAttribute. rewrite parseAttribute_render. exact E2.
Qed.

Lemma configureNode_names ctx n name v b ok b' : configureNode ctx n name v b = Ok (ok, b') -> nodeNames (graph b') = nodeNames (graph b).
Proof.
  unfold configureNode. intros E. apply bind_inv in E as (b0 & b1 & E0 & E). injection E0 as <- <-.
  apply bind_inv in E as (r & b1 & Er & E). assert (b1 = b) as ->.
  { unfold lift in Er. destruct v; cbn in Er; repeat case_match; congruence. }
  destruct r; injection E as _ <-; done.
Qed.
Lemma getOrCreate_found name i b n b' : getOrCreateNode name i b = Ok (n, b') ->
  nodeNames (graph b') !! name = Some n /\ originName b' = originName b.
Proof.
  unfold getOrCreateNode, bind, gets. destruct (nodeNames (graph b) !! name) as [m|] eqn:E; cbn; [by intros [= -> ->]|].
  intros [= <- <-]. cbn. by rewrite lookup_insert_eq.
Qed.
Lemma getOrCreateNodes_origin l : forall b ns b', getOrCreateNodes l b = Ok (ns, b') -> originName b' = originName b.
Proof.
  induction l as [|x l IH]; intros b ns b' E; [by injection E as _ ->|]. cbn in E.
  apply bind_inv in E as (n & b1 & En & E). apply bind_inv in E as (ns' & b2 & Ens & E). injection E as _ <-.
  rewrite (IH _ _ _ Ens). by apply (getOrCreate_found _ _ _ _ _ En).
Qed.
Lemma getOrCreate_again name i b n : nodeNames (graph b) !! name = Some n -> getOrCreateNode name i b = Ok (n, b).
Proof. intros E. unfold getOrCreateNode, bind, gets. by rewrite E. Qed.

Lemma attributes_follow name n l : forall b, nodeNames (graph b) !! name = Some n ->
  forall b', forEach (fun a => configureNodeAttribute name a.1 a.2) l b = Ok (true, b') ->
  forEach (parseNodeAttribute n) (map attribute_entry l) b = Ok (true, b').
Proof.
  induction l as [|a l IH]; intros b Hn b' E; [exact E|]. cbn [map forEach] in *.
  apply bind_inv in E as (ok & b1 & Ea & E). destruct ok; [|discriminate E].
  unfold configureNodeAttribute in Ea. rewrite (bind_ok _ _ _ _ _ (getOrCreate_again _ _ _ _ Hn)) in Ea.
  change (configureNode (noContext b) n a.1 a.2 b = Ok (true, b1)) in Ea.
  assert (Ep : parseNodeAttribute n (attribute_entry a) b = Ok (true, b1)).
  { unfold parseNodeAttribute. rewrite parseAttribute_render. unfold withContext, configureNodeAt, bind, gets. by rewrite Ea. }
  rewrite (bind_ok _ _ _ _ _ Ep). apply IH; [|exact E]. by rewrite (configureNode_names _ _ _ _ _ _ _ Ea).
Qed.
Lemma node_follows x : follows yes (giveNode x)
  (n <~ getOrCreateNode x.1 false; forEach (parseNodeAttribute n) (map attribute_entry x.2)).
Proof.
  intros b ok b' E Hok. unfold yes in Hok. subst ok. unfold giveNode in E. apply bind_inv in E as (n & b1 & En & E).
  rewrite (bind_ok _ _ _ _ _ En). eapply attributes_follow; [by eapply getOrCreate_found|exact E].
Qed.

(** Commands. *)
Lemma names_follow msg (configure : Context -> list nat -> Command -> B Command) l c b r :
  (c' <~ (ns <~ getOrCreateNodes l; configure (noContext b) ns c); ret (true, c')) b = Ok r ->
  (ns <~ nodeItems msg (map scalar l); ctx <~ getContext (scalar []); c' <~ configure ctx ns c; ret (true, c')) b = Ok r.
Proof.
  intros E. rewrite bind_assoc in E. destruct r as [r b']. apply bind_inv in E as (ns & b1 & En & E).
  unfold bind at 1. rewrite nodeItems_render, En. unfold noContext in E. rewrite <- (getOrCreateNodes_origin _ _ _ _ En) in E. exact E.
Qed.
Lemma part_follows p c : part_ok p -> follows (fun r : bool * Command => r.1 = true) (givePart p c) (parseCommandAttribute cwd (part_entry p) c).
Proof.
  intros Hp b [ok c'] b' E Hok. cbn in Hok. subst ok. change (givePart p c b) with
    (match p with
     | Inputs l => c' <~ configureCommandInputNames (noContext b) l c; ret (true, c')
     | Outputs l => c' <~ configureCommandOutputNames (noContext b) l c; ret (true, c')
     | Description v => ret (true, configureCommandDescription v c)
     | EnvBase v => configureCommandEnvironmentBase (noContext b) v c
     | Attr name v => configureCommandAttribute cwd (noContext b) name v c
     end b) in E.
  destruct p as [l|l|v|v|name v].
  - exact (names_follow _ configureCommandInputs l c b _ E).
  - exact (names_follow _ configureCommandOutputs l c b _ E).
  - exact E.
  - unfold configureCommandEnvironmentBase in E. apply bind_inv in E as (b0 & b1 & E0 & E). injection E0 as <- <-.
    change (parseCommandAttribute cwd (part_entry (EnvBase v)) c b) with
      (match lookupEnvironmentBase v b with
       | None => error (scalar v) (chars_of "unknown environment base '" ++ v ++ chars_of "'") ;;; ret (true, c)
       | Some base =>
           let (ok, c') := configureEnvironmentBase base c in
           if ok then ret (true, c')
           else error (scalar (chars_of "env-base")) (chars_of "'env-base' is not supported by this command") ;;; ret (false, c')
       end b).
    destruct (lookupEnvironmentBase v b) as [base|]; [|discriminate E].
    destruct (configureEnvironmentBase base c) as [ok c2]. destruct ok; [exact E|discriminate E].
  - destruct Hp as (H1 & H2 & H3 & H4). unfold part_entry, attribute_entry, parseCommandAttribute. cbn [fst snd nodeIsScalarString scalar].
    rewrite H1, H2, H3, H4. fold (scalar name). rewrite attribute_render. exact E.
Qed.
Lemma parts_follow l : Forall part_ok l -> forall c,
  follows (fun r : bool * Command => r.1 = true) (giveParts l c) (parseCommandAttributes cwd (map part_entry l) c).
Proof.
  induction l as [|p l IH]; intros Hl c b r b' E Hok; [exact E|]. cbn [map giveParts parseCommandAttributes] in *.
  pose proof (Forall_inv Hl) as Hp. apply Forall_inv_tail in Hl. apply bind_inv in E as ([ok c1] & b1 & Ep & E).
  destruct ok; [|injection E as <- _; discriminate Hok]. rewrite (bind_ok _ _ _ _ _ (part_follows p c Hp _ _ _ Ep eq_refl)).
  by apply (IH Hl c1 b1 r b').
Qed.
Lemma command_follows s : Forall part_ok (csParts s) -> follows yes (giveCommand s) (parseCommand cwd (command_entry s)).
Proof.
  intros Hs b ok b' E Hok. unfold yes in Hok. subst ok. unfold giveCommand in E. apply bind_inv in E as (b0 & b1 & E0 & E).
  injection E0 as <- <-. change (parseCommand cwd (command_entry s) b) with
    ((if hasCommand (csName s) b then error (scalar (csName s)) (chars_of "duplicate command in 'commands' map") ;;; ret true
      else
        tool <~ getToolFor (csTool s) (scalar (csTool s));
        match tool with
        | None => ret false
        | Some tool =>
            r <~ parseCommandAttributes cwd (map part_entry (csParts s)) (createCommand (csName s) tool);
            if r.1 then addCommandNamed (csName s) r.2 ;;; ret true else ret false
        end) b).
  destruct (hasCommand (csName s) b); [discriminate E|].
  unfold createCommandNamed in E. rewrite bind_assoc in E. apply bind_inv in E as (t & b1 & Et & E). rewrite bind_ret_l in E.
  unfold getToolFor. rewrite bind_assoc, (bind_ok _ _ _ _ _ Et). destruct t as [t|]; [|discriminate E]. rewrite bind_ret_l.
  apply bind_inv in E as ([ok c] & b2 & Ep & E). destruct ok; [|discriminate E].
  by rewrite (bind_ok _ _ _ _ _ (parts_follow _ Hs _ _ _ _ Ep eq_refl)).
Qed.

Lemma target_follows t : follows yes (giveTarget t)
  (names <~ scalarItems (chars_of "invalid node type in 'targets' map") (map scalar t.2); addTargetNamed t.1 names ;;; ret true).
Proof. intros b ok b' E _. by rewrite (bind_ok _ _ _ _ _ (scalarItems_render _ t.2 b)). Qed.
Lemma base_follows e : follows yes (giveBase e) (
  b <~ get;
  if hasEnvironmentBase e.1 b then
    error (scalar e.1) (chars_of "duplicate environment base '" ++ e.1 ++ chars_of "'") ;;; ret true
  else
    ps <~ scalarPairs (chars_of "invalid key type in 'env-bases' entry '" ++ e.1 ++ chars_of "'")
            (chars_of "invalid value type in 'env-bases' entry '" ++ e.1 ++ chars_of "'") (map pair_entry e.2);
    addEnvironmentBase e.1 ps ;;; ret true).
Proof.
  intros b ok b' E Hok. unfold yes in Hok. subst ok. unfold bind at 1, get.
  assert (Hn : hasEnvironmentBase e.1 b = false).
  { destruct (hasEnvironmentBase e.1 b) eqn:Eh; [|done]. unfold giveBase, addEnvironmentBase, bind, get in E. by rewrite Eh in E. }
  rewrite Hn, (bind_ok _ _ _ _ _ (scalarPairs_render _ _ e.2 b)). by rewrite (bind_ok _ _ _ _ _ E).
Qed.

Lemma andThen_follows m k m' k' : follows yes m m' -> follows yes k k' -> follows yes (andThen m k) (andThen m' k').
Proof.
  intros Hm Hk b ok b' E Hok. apply bind_inv in E as (ok1 & b1 & E1 & E). destruct ok1; [|injection E as <- _; discriminate Hok].
  unfold andThen. rewrite (bind_ok _ _ _ _ _ (Hm _ _ _ E1 eq_refl)). by apply (Hk b1 ok b').
Qed.

(** C18: A manifest and a client that drives the builder directly make the same description.
    Whatever tools, targets, nodes, environment bases and commands there are: if the calls on
    the builder all succeed, then the sections of the manifest that says the same are read
    without an error from the same state, with the same calls on the delegate, and end in the
    same state, so that every command has the same configuration and signature.  (The keys of
    a command other than its attributes must be given as such.) *)
Theorem manifest_equals_calls g b b' : graph_spec_ok g -> populate g b = Ok (true, b') ->
  laterSections cwd (sections g) b = Ok (true, b').
Proof.
  intros Hg E. enough (Hf : follows yes (populate g) (laterSections cwd (sections g))) by exact (Hf b true b' E eq_refl). clear b b' E.
  unfold populate, sections, laterSections. apply andThen_follows; [|apply andThen_follows].
  - apply forEach_follows. intros t _. apply tool_follows.
  - apply forEach_follows. intros t _. apply target_follows.
  - assert (Hrest : follows yes
      (andThen (forEach giveNode (gNodes g)) (andThen (forEach giveBase (gBases g)) (forEach giveCommand (gCommands g))))
      (andThen (parseNodesMapping (map attributed (gNodes g)))
        (andThen (parseEnvironmentBasesMapping (map base_entry (gBases g)))
          (andThen (parseCommandsMapping cwd (map command_entry (gCommands g))) (ret true))))).
    { apply andThen_follows; [apply forEach_follows; intros x _; apply node_follows|].
      apply andThen_follows; [apply forEach_follows; intros e _; apply base_follows|].
      intros b ok b' E Hok. unfold yes in Hok. subst ok. unfold andThen.
      assert (Ec : parseCommandsMapping cwd (map command_entry (gCommands g)) b = Ok (true, b')).
      { eapply (forEach_follows giveCommand); [|exact E|done]. intros s Hs. apply command_follows.
        unfold graph_spec_ok in Hg. rewrite List.Forall_forall in Hg. by apply Hg, list_elem_of_In. }
      by rewrite (bind_ok _ _ _ _ _ Ec). }
    destruct (gDefault g) as [name|].
    + apply (andThen_follows _ _ (parseDefaultTarget (scalar name) name)); [|exact Hrest].
      intros b ok b' E Hok. unfold yes in Hok. subst ok. unfold parseDefaultTarget. by rewrite (bind_ok _ _ _ _ _ E).
    + exact Hrest.
Qed.
End Manifest.

(** A description with one of everything. *)
Definition example_graph : Graph :=
  let c := chars_of in
  mkGraph [(c "shell", [(c "control-enabled", OneValue (c "false"))])]
    [(c "all", [c "out"])] (Some (c "all"))
    [(c "dir", [(c "is-directory", OneValue (c "true")); (c "content-exclusion-patterns", Values [c "*.o"])])]
    [(c "shared", [(c "LANG", c "C")])]
    [mkCommandSpec (c "C") (c "shell")
       [Inputs [c "in"; c "dir"]; Outputs [c "out"]; Description (c "copy"); EnvBase (c "shared");
        Attr (c "args") (Values [c "cp"; c "in"; c "out"]); Attr (c "env") (Bindings [(c "A", c "B")])]].
Lemma example_populates :
  match populate [] example_graph (newBuilder (chars_of "f")) with Ok (ok, _) => ok | Crash _ => false end = true.
Proof. vm_compute. reflexivity. Qed.

Lemma manifest_equals_calls_witness : exists b',
  populate [] example_graph (newBuilder (chars_of "f")) = Ok (true, b')
  /\ laterSections [] (sections example_graph) (newBuilder (chars_of "f")) = Ok (true, b').
Proof.
  pose proof example_populates as E. destruct (populate [] example_graph (newBuilder (chars_of "f"))) as [[[] b']|] eqn:Ep;
    [|discriminate E|discriminate E].
  exists b'. split; [reflexivity|]. apply (manifest_equals_calls [] example_graph); [|exact Ep].
  repeat constructor.
Defined.
