(* ===== verification/BuildLoad.v ===== *)
(** * From a build file to a build

    A loaded description as the rules of the build system see it: their [Description] and the
    delegate they start with.  The rules' invariant holds of it, and a file is loaded and its
    default target built. *)

From Stdlib Require Import Ascii String Lia ZArith.
From stdpp Require Import base gmap list strings numbers.
From S2P Require Import Prelude DepKeys Engine Chars NinjaPath Coding BuildValue BuildKey Process BuildNode ExternalCommand ShellCommand BuildTools SwiftCompiler BuildCommands BuildTasks BuildRules BuildRulesProps BuildClient BuildDescription OwnershipProps DescriptionProps BuildFile BuildFileProps.

Local Open Scope nat_scope.

(** The first tool that makes a command for the key.  Only the Swift tool makes any, so the
    order in which the tools are visited does not matter. *)
Definition customCommand (d : BuildDescription) (key : Key.Key) : option Command :=
  head (omap (fun t => match BuildCommands.createCustomCommand key t.2 with Ok (Some c) => Some c | _ => None end) (map_to_list (tools d))).

Definition descriptionOf (d : BuildDescription) : Description (C := Command) :=
  mkDescription (nodeNames d) (targets d) (customCommand d).
Definition delegateOf (d : BuildDescription) : Delegate (C := Command) :=
  mkDelegate (allNodes d) ∅ ∅ (kmap inl (commands d)) 0.

(** Symlink commands read their first output. *)
Definition links_have_outputs (d : BuildDescription) : Prop :=
  forall k s, commands d !! k = Some (SymlinkC s) -> Symlink.outputs s <> [].

Lemma signature_total H node c : (forall s, c = SymlinkC s -> Symlink.outputs s <> []) ->
  exists sig, getSignature H node c = Ok sig.
Proof.
  intros Hs. destruct c as [s|x|s|x|s|s|s|s|s|s]; cbn; try by eexists.
  unfold Symlink.getSignature, Symlink.firstOutput. specialize (Hs s eq_refl). destruct (Symlink.outputs s); [done|by eexists].
Qed.

Lemma custom_version d key c : customCommand d key = Some c -> exists s, c = SwiftVersionC s.
Proof.
  unfold customCommand. intros H. apply head_Some_elem_of, list_elem_of_omap in H as ([k t] & _ & Ht). cbn in Ht.
  unfold BuildCommands.createCustomCommand in Ht. destruct t; try done.
  destruct (Key.getCustomTaskName key) as [name|]; [|done]. cbn [obind] in Ht. destruct (is_text _ _); [|done].
  destruct (SwiftGetVersion.new key) as [s|]; [|done]. injection Ht as <-. by exists s.
Qed.

(** What the loader makes, the rules accept. *)
Theorem loaded_delegate_ok H node link d : graph_ok d -> links_have_outputs d ->
  delegate_ok (commandOps H node link) (descriptionOf d) (delegateOf d).
Proof.
  intros [H1 H2 H3 H4 H5 H6] Hl. split; cbn.
  - exact H1.
  - done.
  - intros k t Ht. by apply H3.
  - intros c x Hx. apply lookup_kmap_Some in Hx as (k & -> & Hk); [|apply _]. apply signature_total.
    intros s ->. by apply (Hl k).
  - intros i x Hx. by apply lookup_kmap_Some in Hx as (k & Hk & _); [|apply _].
  - intros key x Hx. destruct (custom_version _ _ _ Hx) as [s ->]. by apply signature_total.
Qed.

(** ** Loading and building *)
Definition build_loaded (present : bool) (d : BuildDescription) : outcome (Config (W := World (C := Command))) :=
  let node := nodeAt d in
  let key := string_of_key (Key.makeTarget (bytes_of (defaultTarget d))) in
  let client := buildSystemClient (commandOps example_hashes node (fun _ => zeroFileInfo)) example_tree example_hashes
                  (descriptionOf d) (delegateOf d) false None in
  let start := upd_currentEpoch (fun _ => 1%Z)
                 (initial_state (mkWorld (delegateOf d) ∅ ∅ (example_sys present) [] [] [] [] 0 false)) in
  obind (start_execution client key start) (fun p =>
  obind (run client 60 (fun _ => []) key (mkConfig LoopTop false p.2)) (fun c =>
  let w := world (engine c) in
  obind (match jobs w with
         | (t, inl _) :: _ =>
             match BuildRules.commands (delegate w) !! (inl (chars_of "C") : CommandRef) with
             | None => Ok []
             | Some x =>
                 let fs := example_fs (system w) in
                 obind (execute example_hashes node fs (fun _ => []) (fun _ => None) None 1 x tt) (fun r =>
                 let '(_, ran, x', _) := r in
                 obind (match ran with
                        | Complete v => Ok v
                        | Running _ _ _ files =>
                            obind (finish [] node fs 1 (newProcessResult Succeeded) files x' tt) (fun r' => Ok r'.2)
                        end) (fun v => obind (commandResult v) (fun l => Ok (map (EnvTaskCall t) (task_calls l)))))
             end
         | _ => Ok []
         end) (fun calls =>
  run client 60 (fun left => if decide (left = 50) then calls else []) key c))).

(** The file of [load_wellformed_witness]: its default target is built. *)
Example load_and_build :
  match load_example (example_root "0" "dir/") with
  | Ok (Some d, _) =>
      match build_loaded true d with
      | Ok c => phase c = Done true /\ faults (world (engine c)) = []
          /\ node_value "out" c = Ok (Value.decoded (Value.DExistingInput example_file))
      | Crash _ => False
      end
  | _ => False
  end.
Proof. vm_compute. repeat split; reflexivity. Qed.

(** A directory that is declared as such, without a slash at the end of its name, waits for
    itself: its tree is read when its contents are, and they wait for the node of the path. *)
Example directory_without_slash_cycles :
  match load_example (example_root "0" "dir") with
  | Ok (Some d, _) =>
      match build_loaded true d with
      | Ok c => phase c = Done false /\ faults (world (engine c)) = [] /\ buildWasAborted (world (engine c)) = true
      | Crash _ => False
      end
  | _ => False
  end.
Proof. vm_compute. repeat split; reflexivity. Qed.
