(* ===== verification/NinjaValue.v ===== *)
(** * Values of Ninja builds

    The class [BuildValue] of lib/Commands/NinjaBuildCommand.cpp.  The engine keeps a value
    as the bytes of the object in memory: [toValue] and [fromValue] copy them with [memcpy].
    The layout is that of 64-bit little-endian platforms: two words of 32 bits, the union
    of 80 bytes and the hash.  An array of file information is at an address, which is in
    the union when a value has more than one output. *)

From Stdlib Require Import ZArith Lia.
From stdpp Require Import base list strings numbers.
From S2P Require Import Prelude Coding.

Local Open Scope Z_scope.

(** ** Values *)

Inductive BuildValueKind := ExistingInput | MissingInput | SuccessfulCommand | FailedCommand | SkippedCommand.
#[export] Instance BuildValueKind_eq_dec : EqDecision BuildValueKind.
Proof. solve_decision. Defined.

Definition kindCode (k : BuildValueKind) : Z :=
  match k with ExistingInput => 0 | MissingInput => 1 | SuccessfulCommand => 2 | FailedCommand => 3 | SkippedCommand => 4 end.

(** The union, by the member that is in use. *)
Inductive ValueData :=
| asOutputInfo (info : FileInfo)
| asOutputInfos (address : Z) (infos : list FileInfo).

(** [kind] is the number of the enumerator: a value that was read may have any. *)
Record BuildValue := mkValue { kind : Z; numOutputInfos : Z; valueData : ValueData; commandHash : Z }.

Definition currentSchemaVersion : Z := 3.

(** The three constructors. *)
Definition newValue (k : BuildValueKind) : BuildValue := mkValue (kindCode k) 0 (asOutputInfo zeroFileInfo) 0.
Definition newWithInfo (k : BuildValueKind) (info : FileInfo) (hash : Z) : BuildValue :=
  mkValue (kindCode k) 1 (asOutputInfo info) hash.
Definition newWithInfos (k : BuildValueKind) (address : Z) (infos : list FileInfo) (hash : Z) : BuildValue :=
  mkValue (kindCode k) (u32 (Z.of_nat (length infos))) (asOutputInfos address infos) hash.

Definition makeExistingInput (info : FileInfo) : BuildValue := newWithInfo ExistingInput info 0.
Definition makeMissingInput : BuildValue := newValue MissingInput.
Definition makeSuccessfulCommand (info : FileInfo) (hash : Z) : BuildValue := newWithInfo SuccessfulCommand info hash.
Definition makeSuccessfulCommands (address : Z) (infos : list FileInfo) (hash : Z) : outcome BuildValue :=
  if 1 <? u32 (Z.of_nat (length infos)) then Ok (newWithInfos SuccessfulCommand address infos hash)
  else Crash (AssertFailed "numOutputInfos > 1").
Definition makeFailedCommand : BuildValue := newValue FailedCommand.
Definition makeSkippedCommand : BuildValue := newValue SkippedCommand.

(** ** Queries *)

Definition hasKind (k : BuildValueKind) (v : BuildValue) : bool := kind v =? kindCode k.
Definition isExistingInput : BuildValue -> bool := hasKind ExistingInput.
Definition isMissingInput : BuildValue -> bool := hasKind MissingInput.
Definition isSuccessfulCommand : BuildValue -> bool := hasKind SuccessfulCommand.
Definition isFailedCommand : BuildValue -> bool := hasKind FailedCommand.
Definition isSkippedCommand : BuildValue -> bool := hasKind SkippedCommand.
Definition hasMultipleOutputs (v : BuildValue) : bool := 1 <? numOutputInfos v.

Definition check (b : bool) (what : string) : outcome unit := if b then Ok tt else Crash (AssertFailed what).
Definition checkKind (v : BuildValue) : outcome unit :=
  check (isExistingInput v || isSuccessfulCommand v) "invalid call for value kind".

Definition getNumOutputs (v : BuildValue) : outcome Z := obind (checkKind v) (fun _ => Ok (numOutputInfos v)).

(** The union read as one file information. *)
Definition theInfo (v : BuildValue) : outcome FileInfo :=
  match valueData v with asOutputInfo f => Ok f | asOutputInfos _ _ => Crash (AssertFailed "asOutputInfo") end.

Definition getOutputInfo (v : BuildValue) : outcome FileInfo :=
  obind (checkKind v) (fun _ =>
  obind (check (negb (hasMultipleOutputs v)) "invalid call on result with multiple outputs") (fun _ => theInfo v)).

Definition getNthOutputInfo (v : BuildValue) (n : Z) : outcome FileInfo :=
  obind (getNumOutputs v) (fun num =>
  obind (check (n <? num) "n < getNumOutputs()") (fun _ =>
    if hasMultipleOutputs v then
      match valueData v with
      | asOutputInfos _ infos =>
          match infos !! Z.to_nat n with Some f => Ok f | None => Crash (OutOfBounds "asOutputInfos") end
      | asOutputInfo _ => Crash (UseAfterFree "asOutputInfos")
      end
    else obind (check (n =? 0) "n == 0") (fun _ => theInfo v))).

Definition getCommandHash (v : BuildValue) : outcome Z :=
  obind (check (isSuccessfulCommand v) "invalid call for value kind") (fun _ => Ok (commandHash v)).

(** ** Bytes *)

Definition sizeofFileInfo : nat := 80.
Definition sizeofValue : nat := 96.

(** The bytes of the union: a pointer leaves those after it zero. *)
Definition writeData (d : ValueData) : Encoder unit :=
  match d with
  | asOutputInfo f => writeFileInfo f
  | asOutputInfos address _ => write64 address ;;; writeBytes (replicate 72 0)
  end.
Definition writeValue (v : BuildValue) : Encoder unit :=
  write32 (kind v) ;;; write32 (numOutputInfos v) ;;; writeData (valueData v) ;;; write64 (commandHash v).
Definition infosOf (v : BuildValue) : list FileInfo :=
  match valueData v with asOutputInfos _ infos => infos | asOutputInfo _ => [] end.

(** [toValue]. *)
Definition toValue (v : BuildValue) : outcome (list Z) :=
  obind ((if hasMultipleOutputs v then writeValue v ;;; mapM_ writeFileInfo (infosOf v) else writeValue v) [])
    (fun r => Ok r.2).

Fixpoint readInfos (n : nat) : Decoder (list FileInfo) :=
  match n with
  | O => ret []
  | S n' => f <~ readFileInfo; l <~ readInfos n'; ret (f :: l)
  end.
(** The rest of [fromValue], after the assertion on the size; the new array is at [address]. *)
Definition readValue (address : Z) (size : nat) : Decoder BuildValue :=
  k <~ read32; num <~ read32; info <~ readFileInfo; hash <~ read64;
  if 1 <? num then
    ensure (size =? sizeofValue + Z.to_nat num * sizeofFileInfo)%nat
      (AssertFailed "value.size() == sizeof(result) + result.numOutputInfos * sizeof(FileInfo)") ;;;
    infos <~ readInfos (Z.to_nat num);
    ret (mkValue k num (asOutputInfos address infos) hash)
  else
    ensure (size =? sizeofValue)%nat (AssertFailed "value.size() == sizeof(result)") ;;;
    ret (mkValue k num (asOutputInfo info) hash).

(** [fromValue]. *)
Definition fromValue (address : Z) (bytes : list Z) : outcome BuildValue :=
  if (length bytes <? sizeofValue)%nat then Crash (AssertFailed "value.size() >= sizeof(result)")
  else obind (readValue address (length bytes) (mkDecoder bytes 0)) (fun r => Ok r.1).

(** ** Round trip *)

(** A value as the constructors make them, from parts of their width. *)
Record valid_value (v : BuildValue) : Prop := {
  vv_kind : exists k, kind v = kindCode k;
  vv_hash : range 64 (commandHash v);
  vv_data : match valueData v with
    | asOutputInfo f => valid_info f /\ (numOutputInfos v = 0 \/ numOutputInfos v = 1)
    | asOutputInfos a l => range 64 a /\ Forall valid_info l /\ (1 < length l)%nat
        /\ numOutputInfos v = Z.of_nat (length l) /\ range 32 (numOutputInfos v)
    end }.

Definition at_address (address : Z) (v : BuildValue) : BuildValue :=
  match valueData v with
  | asOutputInfo _ => v
  | asOutputInfos _ l => mkValue (kind v) (numOutputInfos v) (asOutputInfos address l) (commandHash v)
  end.

Lemma valid_zero : valid_info zeroFileInfo.
Proof. by repeat split. Qed.

Lemma kindCode_range k : range 32 (kindCode k).
Proof. by destruct k. Qed.

(** Coded file information has the size of its type. *)
Lemma emits_info f : valid_info f -> exists bs, emits (writeFileInfo f) bs /\ parses readFileInfo bs f /\ length bs = sizeofFileInfo.
Proof.
  intros Hf. destruct (cFileInfo_lawful f Hf) as (bs & E & D). exists bs. split; [exact E|]. split; [exact D|].
  destruct Hf as (H1 & H2 & H3 & H4 & H5 & H6 & H7).
  destruct (emits_64 _ H1) as (b1 & E1 & _ & L1), (emits_64 _ H2) as (b2 & E2 & _ & L2), (emits_64 _ H3) as (b3 & E3 & _ & L3),
    (emits_64 _ H4) as (b4 & E4 & _ & L4), (emits_64 _ H5) as (b5 & E5 & _ & L5), (emits_64 _ H6) as (b6 & E6 & _ & L6).
  rewrite (emits_unique (writeFileInfo f) bs (b1 ++ b2 ++ b3 ++ b4 ++ (b5 ++ b6) ++ Coding.bytes (checksum f)));
    [|exact E|repeat first [ done | apply emits_bind | apply emits_write8s ]].
  rewrite !length_app. unfold sizeofFileInfo. lia.
Qed.

Lemma emits_infos l : Forall valid_info l -> exists bs, emits (mapM_ writeFileInfo l) bs /\ parses (readInfos (length l)) bs l
  /\ length bs = (length l * sizeofFileInfo)%nat.
Proof.
  induction 1 as [|f l Hf _ (bl & El & Dl & Ll)]; [exists []; split; [apply emits_ret|split; [apply parses_ret|done]]|].
  destruct (emits_info f Hf) as (bf & Ef & Df & Lf). exists (bf ++ bl). split; [by apply emits_bind|]. split.
  - cbn [readInfos length]. eapply parses_bind; [exact Df|]. by apply (parses_map (readInfos (length l)) (cons f)).
  - rewrite length_app. cbn [length]. lia.
Qed.

(** The union as file information: a pointer is where the device would be. *)
Definition unionInfo (d : ValueData) : FileInfo :=
  match d with asOutputInfo f => f | asOutputInfos a _ => mkFileInfo a 0 0 0 (mkTimestamp 0 0) zeroChecksum end.
Lemma writeData_union d enc : writeData d enc = writeFileInfo (unionInfo d) enc.
Proof.
  destruct d as [f|a l]; [done|]. cbn [writeData unionInfo]. unfold writeFileInfo, writeTimestamp. cbn [device inode mode size modTime checksum seconds nanoseconds].
  unfold bind at 1 2. destruct (write64 a enc) as [[[] e]|]; [|done]. cbn. rewrite <- !app_assoc. done.
Qed.

Lemma valid_union v : valid_value v -> valid_info (unionInfo (valueData v)).
Proof. intros [_ _ H]. destruct (valueData v); destruct H as [H _]; [done|]. by repeat split; try apply H. Qed.

Lemma emits_value v : valid_value v -> range 32 (numOutputInfos v) -> exists bk bn bd bh,
  emits (writeValue v) (bk ++ bn ++ bd ++ bh) /\ length (bk ++ bn ++ bd ++ bh) = sizeofValue
  /\ parses read32 bk (kind v) /\ parses read32 bn (numOutputInfos v)
  /\ parses readFileInfo bd (unionInfo (valueData v)) /\ parses read64 bh (commandHash v).
Proof.
  intros Hv Hn. destruct (vv_kind v Hv) as [k Hk].
  destruct (emits_32 (kind v)) as (bk & Ek & Dk & Lk); [rewrite Hk; apply kindCode_range|].
  destruct (emits_32 _ Hn) as (bn & En & Dn & Ln). destruct (emits_info _ (valid_union v Hv)) as (bd & Ed & Dd & Ld).
  destruct (emits_64 _ (vv_hash v Hv)) as (bh & Eh & Dh & Lh). exists bk, bn, bd, bh. split.
  - unfold writeValue. repeat (apply emits_bind; [done|]). apply emits_bind; [|done]. intros enc. by rewrite writeData_union.
  - split; [|done]. rewrite !length_app, Lk, Ln, Ld, Lh. done.
Qed.

(** A value that is stored comes back: [toValue] fails no assertion and makes 96 bytes,
    and 80 more for every output if there are several, from which [fromValue] makes the same
    value, but for the address of its array. *)
Lemma value_stored v address : valid_value v ->
  exists bs, toValue v = Ok bs /\ fromValue address bs = Ok (at_address address v)
    /\ length bs = (sizeofValue + length (infosOf v) * sizeofFileInfo)%nat.
Proof.
  intros Hv. assert (Hn : range 32 (numOutputInfos v)).
  { pose proof (vv_data v Hv) as H. destruct (valueData v); [|tauto]. by destruct H as [_ [-> | ->]]. }
  destruct (emits_value v Hv Hn) as (bk & bn & bd & bh & E & L & Dk & Dn & Dd & Dh). pose proof (vv_data v Hv) as Hd.
  unfold toValue, hasMultipleOutputs, infosOf. destruct (valueData v) as [f|a l] eqn:Ev.
  - destruct Hd as [Hf H01]. replace (1 <? numOutputInfos v) with false by (symmetry; destruct H01 as [-> | ->]; done).
    rewrite (E []). cbn [obind snd]. eexists. split; [reflexivity|]. cbn [app length Nat.mul]. rewrite Nat.add_0_r. split; [|done].
    unfold fromValue. rewrite L. change (sizeofValue <? sizeofValue)%nat with false. cbn iota.
    assert (P : parses (readValue address sizeofValue) ((bk ++ bn ++ bd ++ bh) ++ []) v).
    { rewrite <- !app_assoc. unfold readValue. eapply parses_bind; [exact Dk|]. eapply parses_bind; [exact Dn|].
      eapply parses_bind; [exact Dd|]. eapply parses_bind; [exact Dh|].
      replace (1 <? numOutputInfos v) with false by (symmetry; destruct H01 as [-> | ->]; done).
      cbn. destruct v; cbn in *; subst. apply parses_ret. }
    specialize (P [] []). cbn [app length] in P. rewrite !app_nil_r in P. rewrite P. cbn. unfold at_address. by rewrite Ev.
  - destruct Hd as (Ha & Hl & H1 & Hnum & _). assert (Hm : (1 <? numOutputInfos v) = true) by (apply Z.ltb_lt; lia).
    destruct (emits_infos l Hl) as (bl & El & Dl & Ll). rewrite Hm.
    rewrite (emits_bind _ _ _ _ E El []). cbn [obind snd app]. eexists. split; [reflexivity|]. rewrite length_app, L, Ll. split; [|done].
    unfold fromValue. rewrite length_app, L, Ll. replace (_ <? _)%nat with false by (symmetry; apply Nat.ltb_ge; lia).
    assert (P : parses (readValue address (sizeofValue + length l * sizeofFileInfo)) ((bk ++ bn ++ bd ++ bh) ++ bl)
      (mkValue (kind v) (numOutputInfos v) (asOutputInfos address l) (commandHash v))).
    { rewrite <- !app_assoc. unfold readValue. eapply parses_bind; [exact Dk|]. eapply parses_bind; [exact Dn|].
      eapply parses_bind; [exact Dd|]. eapply parses_bind; [exact Dh|]. rewrite Hm, Hnum, Nat2Z.id, Nat.eqb_refl.
      apply (parses_map (readInfos (length l)) (fun i => mkValue (kind v) (Z.of_nat (length l)) (asOutputInfos address i) (commandHash v))).
      exact Dl. }
    specialize (P [] []). cbn [app length] in P. rewrite !app_nil_r in P. rewrite P. cbn. unfold at_address. by rewrite Ev.
Qed.

Definition example_info (size : Z) : FileInfo := mkFileInfo 1 2 0x8000 size (mkTimestamp 5 0) zeroChecksum.

(** The same outputs make different bytes at different addresses: the engine, which compares
    bytes, takes the result of a command with several outputs for changed whenever the
    command was run. *)
Example address_is_stored :
  let v a := newWithInfos SuccessfulCommand a [example_info 1; example_info 2] 77 in
  toValue (v 4096) <> toValue (v 8192).
Proof. vm_compute. discriminate. Qed.

(** ** What is read back *)

(** The predicates and parts of a value that was stored are those of the value. *)
Lemma at_address_kind a v k : hasKind k (at_address a v) = hasKind k v.
Proof. unfold at_address. by destruct (valueData v). Qed.
Lemma at_address_hash a v : commandHash (at_address a v) = commandHash v.
Proof. unfold at_address. by destruct (valueData v). Qed.
Lemma at_address_num a v : numOutputInfos (at_address a v) = numOutputInfos v.
Proof. unfold at_address. by destruct (valueData v). Qed.
Lemma at_address_single a v : hasMultipleOutputs v = false -> valid_value v -> at_address a v = v.
Proof.
  intros Hm [_ _ Hd]. unfold at_address. destruct (valueData v) as [|a' l]; [done|]. destruct Hd as (_ & _ & Hl & Hn & _).
  unfold hasMultipleOutputs in Hm. apply Z.ltb_ge in Hm. lia.
Qed.

(** The values the tasks make. *)
Lemma valid_new k : valid_value (newValue k).
Proof. split; [by exists k|done|]. cbn. split; [apply valid_zero|by left]. Qed.
Lemma valid_withInfo k info h : valid_info info -> range 64 h -> valid_value (newWithInfo k info h).
Proof. intros Hi Hh. split; [by exists k|done|]. cbn. split; [done|by right]. Qed.
Lemma valid_withInfos k a infos h : Forall valid_info infos -> range 64 h -> range 64 a -> (1 < length infos)%nat ->
  range 32 (Z.of_nat (length infos)) -> valid_value (newWithInfos k a infos h).
Proof.
  intros Hi Hh Ha Hl Hr. assert (E : u32 (Z.of_nat (length infos)) = Z.of_nat (length infos)) by (apply Z.mod_small, Hr).
  split; [by exists k|done|]. cbn. by rewrite E.
Qed.
#[export] Hint Resolve valid_new valid_withInfo valid_withInfos valid_zero : llb.
