(* ===== verification/NinjaBuild.v ===== *)
(** * Ninja builds: the tasks and rules

    lib/Commands/NinjaBuildCommand.cpp, the client of the build engine that builds a Ninja
    manifest: the context of a build, the tasks that run commands, read inputs, build the
    targets and select one output of several, and when their stored results are valid.

    A pointer to a node is its index in the manifest.  Callbacks act on the [BuildContext]
    in the monad [M]; what they tell the engine is their result.  What the operating system
    answers is in [Sys].  Output to the terminal is queued as [ConsoleOp]s in order. *)

From Stdlib Require Import ZArith Ascii Lia.
From stdpp Require Import base gmap list strings numbers pretty.
From S2P Require Import Prelude ExternalCommand Engine Chars Coding Process MakefileDeps NinjaPath NinjaManifest NinjaValue.

Local Open Scope Z_scope.

Abbreviation path_key := String.string_of_list_ascii.

(** ** The context *)

Record Options := mkOptions {
  quiet : bool; simulate : bool; strict : bool; verbose : bool;
  numFailedCommandsToTolerate : Z; statusLinePrefixFormat : chars }.

(** What the console queue is asked to do. *)
Inductive ConsoleOp :=
| emitDiagnostic (kind message : chars)
| emitDiagnosticAndText (kind message text : chars)
| emitText (text : chars)
| describe (c : Command).

(** What reaches the terminal. *)
Inductive Output :=
| writeText (text : chars)
| setOrWriteLine (text : chars)
| finishLine
| errorLine (kind message : chars)
| rawText (text : chars).

(** Changes of the file system. *)
Inductive FileEffect :=
| createDirectories (path : chars)
| writeResponseFile (path content : chars)
| removeFile (path : chars).

Record BuildContext := mkContext {
  manifest : Manifest;
  isCancelled : bool;
  wasCancelledBySigint : bool;
  numErrors : Z;
  numBuiltCommands : Z;
  numOutputDescriptions : Z;
  numFailedCommands : Z;
  numCommandsScanning : Z;
  numCommandsUpToDate : Z;
  numCommandsCompleted : Z;
  numCommandsUpdated : Z;
  outputBuffers : gmap Z chars;
  consoleQueue : list ConsoleOp;
  terminal : list Output;
  files : list FileEffect }.
Abbreviation B := (M BuildContext).

Definition newContext (m : Manifest) : BuildContext := mkContext m false false 0 0 0 0 0 0 0 0 ∅ [] [] [].

Definition set_manifest (x : Manifest) (c : BuildContext) : BuildContext :=
  mkContext x (isCancelled c) (wasCancelledBySigint c) (numErrors c) (numBuiltCommands c) (numOutputDescriptions c) (numFailedCommands c)
    (numCommandsScanning c) (numCommandsUpToDate c) (numCommandsCompleted c) (numCommandsUpdated c) (outputBuffers c) (consoleQueue c) (terminal c) (files c).
Definition set_cancelled (x : bool) (c : BuildContext) : BuildContext :=
  mkContext (manifest c) x (wasCancelledBySigint c) (numErrors c) (numBuiltCommands c) (numOutputDescriptions c) (numFailedCommands c)
    (numCommandsScanning c) (numCommandsUpToDate c) (numCommandsCompleted c) (numCommandsUpdated c) (outputBuffers c) (consoleQueue c) (terminal c) (files c).
Definition set_sigint (x : bool) (c : BuildContext) : BuildContext :=
  mkContext (manifest c) (isCancelled c) x (numErrors c) (numBuiltCommands c) (numOutputDescriptions c) (numFailedCommands c)
    (numCommandsScanning c) (numCommandsUpToDate c) (numCommandsCompleted c) (numCommandsUpdated c) (outputBuffers c) (consoleQueue c) (terminal c) (files c).
Definition set_numErrors (x : Z) (c : BuildContext) : BuildContext :=
  mkContext (manifest c) (isCancelled c) (wasCancelledBySigint c) x (numBuiltCommands c) (numOutputDescriptions c) (numFailedCommands c)
    (numCommandsScanning c) (numCommandsUpToDate c) (numCommandsCompleted c) (numCommandsUpdated c) (outputBuffers c) (consoleQueue c) (terminal c) (files c).
Definition set_numBuilt (x : Z) (c : BuildContext) : BuildContext :=
  mkContext (manifest c) (isCancelled c) (wasCancelledBySigint c) (numErrors c) x (numOutputDescriptions c) (numFailedCommands c)
    (numCommandsScanning c) (numCommandsUpToDate c) (numCommandsCompleted c) (numCommandsUpdated c) (outputBuffers c) (consoleQueue c) (terminal c) (files c).
Definition set_numDescriptions (x : Z) (c : BuildContext) : BuildContext :=
  mkContext (manifest c) (isCancelled c) (wasCancelledBySigint c) (numErrors c) (numBuiltCommands c) x (numFailedCommands c)
    (numCommandsScanning c) (numCommandsUpToDate c) (numCommandsCompleted c) (numCommandsUpdated c) (outputBuffers c) (consoleQueue c) (terminal c) (files c).
Definition set_numFailed (x : Z) (c : BuildContext) : BuildContext :=
  mkContext (manifest c) (isCancelled c) (wasCancelledBySigint c) (numErrors c) (numBuiltCommands c) (numOutputDescriptions c) x
    (numCommandsScanning c) (numCommandsUpToDate c) (numCommandsCompleted c) (numCommandsUpdated c) (outputBuffers c) (consoleQueue c) (terminal c) (files c).
Definition set_counts (scanning upToDate completed : Z) (c : BuildContext) : BuildContext :=
  mkContext (manifest c) (isCancelled c) (wasCancelledBySigint c) (numErrors c) (numBuiltCommands c) (numOutputDescriptions c) (numFailedCommands c)
    scanning upToDate completed (numCommandsUpdated c) (outputBuffers c) (consoleQueue c) (terminal c) (files c).
Definition set_numUpdated (x : Z) (c : BuildContext) : BuildContext :=
  mkContext (manifest c) (isCancelled c) (wasCancelledBySigint c) (numErrors c) (numBuiltCommands c) (numOutputDescriptions c) (numFailedCommands c)
    (numCommandsScanning c) (numCommandsUpToDate c) (numCommandsCompleted c) x (outputBuffers c) (consoleQueue c) (terminal c) (files c).
Definition set_buffers (x : gmap Z chars) (c : BuildContext) : BuildContext :=
  mkContext (manifest c) (isCancelled c) (wasCancelledBySigint c) (numErrors c) (numBuiltCommands c) (numOutputDescriptions c) (numFailedCommands c)
    (numCommandsScanning c) (numCommandsUpToDate c) (numCommandsCompleted c) (numCommandsUpdated c) x (consoleQueue c) (terminal c) (files c).
Definition set_console (x : list ConsoleOp) (c : BuildContext) : BuildContext :=
  mkContext (manifest c) (isCancelled c) (wasCancelledBySigint c) (numErrors c) (numBuiltCommands c) (numOutputDescriptions c) (numFailedCommands c)
    (numCommandsScanning c) (numCommandsUpToDate c) (numCommandsCompleted c) (numCommandsUpdated c) (outputBuffers c) x (terminal c) (files c).
Definition set_terminal (x : list Output) (c : BuildContext) : BuildContext :=
  mkContext (manifest c) (isCancelled c) (wasCancelledBySigint c) (numErrors c) (numBuiltCommands c) (numOutputDescriptions c) (numFailedCommands c)
    (numCommandsScanning c) (numCommandsUpToDate c) (numCommandsCompleted c) (numCommandsUpdated c) (outputBuffers c) (consoleQueue c) x (files c).
Definition set_files (x : list FileEffect) (c : BuildContext) : BuildContext :=
  mkContext (manifest c) (isCancelled c) (wasCancelledBySigint c) (numErrors c) (numBuiltCommands c) (numOutputDescriptions c) (numFailedCommands c)
    (numCommandsScanning c) (numCommandsUpToDate c) (numCommandsCompleted c) (numCommandsUpdated c) (outputBuffers c) (consoleQueue c) (terminal c) x.

(** An [atomic<unsigned>] that is incremented or decremented. *)
Definition incr (n : Z) : Z := u32 (n + 1).
Definition decr (n : Z) : Z := u32 (n - 1).

Definition lift {A} (o : outcome A) : B A := fun c => match o with Ok a => Ok (a, c) | Crash e => Crash e end.

(** What [printf] makes of strings: each up to its first NUL. *)
Definition c_str (s : chars) : chars := take_while (fun c => negb (Ascii.eqb c NUL)) s.
(** [getFormattedString], for a format whose result is [pieces] in a row. *)
Definition getFormattedString (pieces : list chars) : chars :=
  match concat (map c_str pieces) with [] => chars_of "unable to format message" | s => s end.

(** A format without arguments: a conversion reads an argument that is not there. *)
Fixpoint formatNoArgs (fmt : chars) : outcome chars :=
  match fmt with
  | [] => Ok []
  | c :: fmt' =>
      if Ascii.eqb c NUL then Ok []
      else if Ascii.eqb c "%" then
        match fmt' with
        | d :: fmt'' => if Ascii.eqb d "%" then obind (formatNoArgs fmt'') (fun s => Ok ("%"%char :: s)) else Crash (OutOfBounds "va_arg")
        | [] => Crash (OutOfBounds "va_arg")
        end
      else obind (formatNoArgs fmt') (fun s => Ok (c :: s))
  end.

(** ** Diagnostics *)

Section Diagnostics.
Context (options : Options) (stripColorCodes : chars -> chars).

Definition async (op : ConsoleOp) : B unit := modify (fun c => set_console (consoleQueue c ++ [op]) c).
Definition emitError (message : chars) : B unit :=
  async (emitDiagnostic (chars_of "error") message) ;;; modify (fun c => set_numErrors (incr (numErrors c)) c).
Definition emitErrorAndText (message text : chars) : B unit :=
  async (emitDiagnosticAndText (chars_of "error") message (stripColorCodes text)) ;;;
  modify (fun c => set_numErrors (incr (numErrors c)) c).
Definition emitErrorf (pieces : list chars) : B unit := emitError (getFormattedString pieces).
Definition emitNote (message : chars) : B unit := async (emitDiagnostic (chars_of "note") message).

Definition incrementFailedCommands : B unit :=
  modify (fun c => set_numFailed (incr (numFailedCommands c)) c) ;;;
  failed <~ gets numFailedCommands;
  if negb (numFailedCommandsToTolerate options =? 0) && (failed =? numFailedCommandsToTolerate options)
  then emitError (chars_of "stopping build due to command failures") ;;; modify (set_cancelled true)
  else ret tt.

(** *** The delegate of the execution queue *)

Definition processStarted (handle : Z) : B unit :=
  modify (fun c => match outputBuffers c !! handle with
                   | Some _ => c
                   | None => set_buffers (<[handle := []]> (outputBuffers c)) c
                   end).
Definition processHadError (message : chars) : B unit := emitError message.
Definition bufferOf (handle : Z) (c : BuildContext) : chars := default [] (outputBuffers c !! handle).
Definition processHadOutput (handle : Z) (data : chars) : B unit :=
  modify (fun c => set_buffers (<[handle := bufferOf handle c ++ data]> (outputBuffers c)) c).
Definition eraseBuffer (handle : Z) : B unit := modify (fun c => set_buffers (delete handle (outputBuffers c)) c).
Definition processFinished (job : Command) (handle : Z) (result : ProcessResult) : B unit :=
  modify (fun c => set_buffers (<[handle := bufferOf handle c]> (outputBuffers c)) c) ;;;
  output <~ gets (bufferOf handle);
  if decide (status result = Succeeded) then
    (match output with [] => ret tt | _ => async (emitText (stripColorCodes output)) end) ;;; eraseBuffer handle
  else if decide (status result = Cancelled) then eraseBuffer handle
  else
    emitErrorAndText (getFormattedString [chars_of "process failed: "; commandString job]) output ;;;
    incrementFailedCommands ;;; eraseBuffer handle.

(** [cancelBuildOnInterrupt]; the call of [cancelBuild] on the engine is the result. *)
Definition cancelBuildOnInterrupt : B bool :=
  emitNote (chars_of "cancelling build.") ;;; modify (set_cancelled true) ;;; modify (set_sigint true) ;;; ret true.

(** *** The delegate of the engine *)

Fixpoint cycleMessage (first : bool) (cycle : list Engine.Rule) : chars :=
  match cycle with
  | [] => []
  | r :: cycle' =>
      (if first then [] else chars_of " ->") ++ chars_of " " ++ ("034"%char :: chars_of (rule_key r)) ++ ["034"%char]
        ++ cycleMessage false cycle'
  end.
(** The message is given to [emitError] as a format. *)
Definition cycleDetected (cycle : list Engine.Rule) : B unit :=
  message <~ lift (formatNoArgs (chars_of "cycle detected among targets:" ++ cycleMessage true cycle));
  emitError (getFormattedString [message]) ;;; modify (set_cancelled true).
Definition delegateError (message : chars) : B unit :=
  emitError (chars_of "error: " ++ message) ;;; modify (set_cancelled true).
End Diagnostics.

(** ** Nodes and commands *)

Definition nodeAt (m : Manifest) (i : nat) : outcome Node :=
  match nodes m !! i with Some n => Ok n | None => Crash (UseAfterFree "Node") end.
Definition getCanonicalPath (m : Manifest) (i : nat) : outcome chars := obind (nodeAt m i) (fun n => Ok (canonicalPath n)).
Definition outputNode (o : option nat) : outcome nat :=
  match o with Some i => Ok i | None => Crash (UseAfterFree "null Node") end.
Definition outputPath (m : Manifest) (o : option nat) : outcome chars := obind (outputNode o) (getCanonicalPath m).

Definition isPhony (c : Command) : bool := bool_decide (rule c = phonyRule).
Definition isConsole (c : Command) : bool := bool_decide (executionPool c = Some consolePool).
Definition getEffectiveDescription (c : Command) : chars := match description c with [] => commandString c | d => d end.

(** The ranges [explicitInputs_begin()] to [explicitInputs_end()] and so on. *)
Definition explicitRange (c : Command) : list NodeInCommand := take (numExplicitInputs c) (inputs c).
Definition implicitRange (c : Command) : list NodeInCommand := take (numImplicitInputs c) (drop (numExplicitInputs c) (inputs c)).
Definition orderOnlyRange (c : Command) : list NodeInCommand := drop (numExplicitInputs c + numImplicitInputs c) (inputs c).

Fixpoint traverse {A C} (f : A -> outcome C) (l : list A) : outcome (list C) :=
  match l with
  | [] => Ok []
  | x :: l' => obind (f x) (fun y => obind (traverse f l') (fun ys => Ok (y :: ys)))
  end.

(** What the system answers during one callback: [stat], the contents of a file or why it
    cannot be read, why a response file cannot be created, and where a new array is. *)
Record Sys := mkSys {
  getInfoForPath : chars -> FileInfo;
  readFileContents : chars -> chars + chars;
  openResponseFile : chars -> option chars;
  newAddress : Z }.

Section Tasks.
Context (options : Options) (stripColorCodes : chars -> chars) (hash_value : chars -> Z) (workingDirectory : chars).

(** ** [NinjaCommandTask] *)

Record CommandTask := mkTask {
  command : Command;
  shouldSkip : bool;
  hasMissingInput : bool;
  canUpdateIfNewer : bool;
  hasPriorResult : bool;
  priorCommandHash : Z;
  newestModTime : FileTimestamp }.

Definition newTask (c : Command) : CommandTask :=
  mkTask c false false (match depsStyle c with DepsNone => true | _ => false end) false 0 (mkTimestamp 0 0).
Definition skip (missing : bool) (t : CommandTask) : CommandTask :=
  mkTask (command t) true (missing || hasMissingInput t) (canUpdateIfNewer t) (hasPriorResult t) (priorCommandHash t) (newestModTime t).
Definition set_canUpdate (b : bool) (t : CommandTask) : CommandTask :=
  mkTask (command t) (shouldSkip t) (hasMissingInput t) b (hasPriorResult t) (priorCommandHash t) (newestModTime t).
Definition set_prior (h : Z) (t : CommandTask) : CommandTask :=
  mkTask (command t) (shouldSkip t) (hasMissingInput t) (canUpdateIfNewer t) true h (newestModTime t).
Definition set_newest (x : FileTimestamp) (t : CommandTask) : CommandTask :=
  mkTask (command t) (shouldSkip t) (hasMissingInput t) (canUpdateIfNewer t) (hasPriorResult t) (priorCommandHash t) x.

Definition reportMissingInput (m : Manifest) (n : nat) : B unit :=
  path <~ lift (nodeScreenPath m n);
  emitErrorf [chars_of "missing input '"; path; chars_of "' and no rule to build it"].

(** The input was built: note its modification time. *)
Definition noteInput (info : FileInfo) (t : CommandTask) : CommandTask :=
  if isMissing info then set_canUpdate false t
  else if FileTimestamp_ltb (newestModTime t) (modTime info) then set_newest (modTime info) t else t.

Definition provideValue (sys : Sys) (inputID : Z) (valueData : list Z) (t : CommandTask) : B CommandTask :=
  value <~ lift (fromValue (newAddress sys) valueData);
  ensure (negb (hasMultipleOutputs value)) (AssertFailed "!value.hasMultipleOutputs()") ;;;
  if negb (isExistingInput value) && negb (isSuccessfulCommand value) then
    if isMissingInput value then
      m <~ gets manifest;
      n <~ of_option (OutOfBounds "getInputs()") (inputs (command t) !! Z.to_nat inputID);
      reportMissingInput m (node n) ;;; ret (skip true t)
    else ret (skip false t)
  else info <~ lift (getOutputInfo value); ret (noteInput info t).

Definition isImmediatelyCyclicInput (c : Command) (n : nat) : bool := bool_decide (Some n ∈ outputs c).
(** Whether an input is left out. *)
Definition ignored (c : Command) (n : NodeInCommand) : bool :=
  negb (strict options) && isPhony c && isImmediatelyCyclicInput c (node n).

Fixpoint requestInputs (m : Manifest) (c : Command) (id : Z) (l : list NodeInCommand) : outcome (list TaskCall) :=
  match l with
  | [] => Ok []
  | n :: l' =>
      if ignored c n then requestInputs m c (id + 1) l'
      else obind (getCanonicalPath m (node n)) (fun p =>
           obind (requestInputs m c (id + 1) l') (fun calls => Ok (CallRequest (path_key p) id :: calls)))
  end.
Fixpoint followInputs (m : Manifest) (c : Command) (l : list NodeInCommand) : outcome (list TaskCall) :=
  match l with
  | [] => Ok []
  | n :: l' =>
      if ignored c n then followInputs m c l'
      else obind (getCanonicalPath m (node n)) (fun p =>
           obind (followInputs m c l') (fun calls => Ok (CallMustFollow (path_key p) :: calls)))
  end.
Definition start (m : Manifest) (t : CommandTask) : outcome (list TaskCall) :=
  let c := command t in
  obind (requestInputs m c 0 (explicitRange c)) (fun l1 =>
  obind (requestInputs m c (Z.of_nat (length (explicitRange c))) (implicitRange c)) (fun l2 =>
  obind (followInputs m c (orderOnlyRange c)) (fun l3 => Ok (l1 ++ l2 ++ l3)))).

Definition providePriorValue (sys : Sys) (valueData : list Z) (t : CommandTask) : outcome CommandTask :=
  obind (fromValue (newAddress sys) valueData) (fun value =>
  if isSuccessfulCommand value then obind (getCommandHash value) (fun h => Ok (set_prior h t)) else Ok t).

Definition outputInfo (sys : Sys) (m : Manifest) (o : option nat) : outcome FileInfo :=
  obind (outputPath m o) (fun p => Ok (getInfoForPath sys p)).
Definition computeCommandResult (sys : Sys) (m : Manifest) (c : Command) (commandHash : Z) : outcome BuildValue :=
  match outputs c with
  | [o] => obind (outputInfo sys m o) (fun info => Ok (makeSuccessfulCommand info commandHash))
  | os => obind (traverse (outputInfo sys m) os) (fun infos => makeSuccessfulCommands (newAddress sys) infos commandHash)
  end.

(** The loops over the outputs of a result; the first yields whether one is missing. *)
Fixpoint missingFrom (result : BuildValue) (i : Z) (n : nat) : outcome bool :=
  match n with
  | O => Ok false
  | S n' => obind (getNthOutputInfo result i) (fun info => if isMissing info then Ok true else missingFrom result (i + 1) n')
  end.
Definition anyMissing (result : BuildValue) : outcome bool :=
  obind (getNumOutputs result) (fun e => missingFrom result 0 (Z.to_nat e)).

Definition isNewer (newest : FileTimestamp) (info : FileInfo) : bool :=
  if strict options then FileTimestamp_ltb newest (modTime info) else FileTimestamp_leb newest (modTime info).
Fixpoint newerFrom (newest : FileTimestamp) (result : BuildValue) (i : Z) (n : nat) : outcome bool :=
  match n with
  | O => Ok true
  | S n' => obind (getNthOutputInfo result i) (fun info =>
      if isMissing info then Ok false
      else if isNewer newest info then newerFrom newest result (i + 1) n' else Ok false)
  end.
Definition canUpdateIfNewerWithResult (t : CommandTask) (result : BuildValue) : outcome bool :=
  obind (check (isSuccessfulCommand result) "result.isSuccessfulCommand()") (fun _ =>
  obind (getNumOutputs result) (fun e => newerFrom (newestModTime t) result 0 (Z.to_nat e))).

(** What [inputsAvailable] ends with: the completion, or the job, added from the console
    queue if [console]. *)
Inductive Ready := Complete (v : list Z) (forceChange : bool) | AddJob (console : bool).

Definition complete (v : BuildValue) (forceChange : bool) : B Ready :=
  bytes <~ lift (toValue v); ret (Complete bytes forceChange).

(** [writeDescription] asks for the prefix of the status line. *)
Context (statusLinePrefix : BuildContext -> outcome chars).

Definition emitStatus (message : chars) : B unit :=
  modify (fun c => set_terminal (terminal c ++ [if verbose options then writeText (message ++ ["010"%char]) else setOrWriteLine message]) c).
Definition writeDescription (c : Command) : B unit :=
  let description := if verbose options then commandString c else getEffectiveDescription c in
  modify (fun ctx => set_numDescriptions (incr (numOutputDescriptions ctx)) ctx) ;;;
  ctx <~ get;
  prefix <~ lift (statusLinePrefix ctx);
  emitStatus (getFormattedString [prefix; description]) ;;;
  if isConsole c then modify (fun ctx => set_terminal (terminal ctx ++ [finishLine]) ctx) else ret tt.

(** May the command be updated, and is it newer than its inputs? *)
Definition updateResult (sys : Sys) (m : Manifest) (commandHash : Z) (t : CommandTask) : outcome (option BuildValue) :=
  let c := command t in
  if canUpdateIfNewer t && (isGenerator c || (hasPriorResult t && (priorCommandHash t =? commandHash))) then
    obind (computeCommandResult sys m c commandHash) (fun result =>
    obind (canUpdateIfNewerWithResult t result) (fun newer => Ok (if newer : bool then Some result else None)))
  else Ok None.

(** A command with a missing input counts as failed. *)
Definition reportUnbuildable (m : Manifest) (c : Command) : B unit :=
  o <~ of_option (OutOfBounds "getOutputs()[0]") (head (outputs c));
  i <~ lift (outputNode o);
  path <~ lift (nodeScreenPath m i);
  emitErrorf [chars_of "cannot build '"; path; chars_of "' due to missing input"] ;;;
  incrementFailedCommands options.
(** The end of [inputsAvailable], when the command was not found up to date. *)
Definition runOrSkip (m : Manifest) (t : CommandTask) : B Ready :=
  let c := command t in
  if simulate options then
    (if quiet options then ret tt else writeDescription c) ;;; complete makeSkippedCommand false
  else if shouldSkip t then
    (if hasMissingInput t then reportUnbuildable m c else ret tt) ;;; complete makeSkippedCommand false
  else
    ensure (negb (hasMissingInput t)) (AssertFailed "!hasMissingInput") ;;;
    ret (AddJob (isConsole c)).

Definition inputsAvailable (sys : Sys) (t : CommandTask) : B Ready :=
  ctx <~ get;
  if isCancelled ctx then complete makeSkippedCommand false
  else
    let c := command t in
    let commandHash := hash_value (commandString c) in
    if isPhony c then
      result <~ lift (computeCommandResult sys (manifest ctx) c commandHash);
      forceChange <~ lift (anyMissing result);
      complete result forceChange
    else
      updated <~ lift (updateResult sys (manifest ctx) commandHash t);
      match updated with
      | Some result => modify (fun x => set_numUpdated (incr (numCommandsUpdated x)) x) ;;; complete result false
      | None =>
          modify (fun x => set_numBuilt (incr (numBuiltCommands x)) x) ;;;
          runOrSkip (manifest ctx) t
      end.

(** *** The job *)

(** What the job does: complete at once, or run a process (connected to the console or not)
    whose completion is [processCompleted]. *)
Inductive Executed := CompleteNow (v : list Z) (forceChange : bool) | Spawn (args : list chars) (console : bool).

Definition completeNow (v : BuildValue) (forceChange : bool) : B Executed :=
  bytes <~ lift (toValue v); ret (CompleteNow bytes forceChange).
Definition fileEffect (e : FileEffect) : B unit := modify (fun c => set_files (files c ++ [e]) c).

Definition createParent (o : option nat) : B unit :=
  m <~ gets manifest;
  i <~ lift (outputNode o);
  path <~ lift (nodeScreenPath m i);
  match parent_path path with [] => ret tt | parent => fileEffect (createDirectories parent) end.

(** The response file is made, or the reason why not returned. *)
Definition makeResponseFile (sys : Sys) (c : Command) : B (option chars) :=
  match rspFile c with
  | [] => ret None
  | file =>
      match openResponseFile sys file with
      | Some error => ret (Some error)
      | None => fileEffect (writeResponseFile file (rspFileContent c)) ;;; ret None
      end
  end.

Definition executeCommand (sys : Sys) (t : CommandTask) : B Executed :=
  cancelled <~ gets isCancelled;
  if cancelled : bool then completeNow makeSkippedCommand false
  else
    let c := command t in
    (if quiet options then ret tt else if isConsole c then writeDescription c else async (describe c)) ;;;
    mapM_ createParent (outputs c) ;;;
    failed <~ makeResponseFile sys c;
    match failed with
    | Some error =>
        emitErrorf [chars_of "unable to create @response file '"; rspFile c; chars_of "': "; error; ["010"%char]] ;;;
        incrementFailedCommands options ;;;
        completeNow makeSkippedCommand false
    | None => ret (Spawn [chars_of "/bin/sh"; chars_of "-c"; c_str (commandString c)] (isConsole c))
    end.

(** [DepsActions], for the actions of the parser in order: the dependencies found, and the
    number of errors. *)
Fixpoint depsActions (path : chars) (l : list Action) : B (list TaskCall * nat) :=
  match l with
  | [] => ret ([], 0%nat)
  | ParseError message position :: l' =>
      emitErrorf [chars_of "error reading dependency file: "; path; chars_of " ("; chars_of message; chars_of ") at offset ";
                  chars_of (pretty position)] ;;;
      r <~ depsActions path l'; ret (r.1, S r.2)
  | RuleDependency _ word :: l' =>
      p <~ lift (normalize_path workingDirectory word);
      r <~ depsActions path l';
      ret (match p with Some p => (CallDiscoveredDependency (path_key p) :: r.1, r.2) | None => r end)
  | (RuleStart _ _ | RuleEnd) :: l' => depsActions path l'
  end.

Definition processDiscoveredDependencies (sys : Sys) (c : Command) : B (list TaskCall * bool) :=
  match depsStyle c with
  | DepsNone => ret ([], true)
  | DepsMSVC => emitError (chars_of "MSVC style dependencies are unsupported") ;;; ret ([], false)
  | DepsGCC =>
      match readFileContents sys (depsFile c) with
      | inr error =>
          if negb (strict options) then ret ([], true)
          else emitErrorf [chars_of "unable to read dependency file: "; error] ;;; ret ([], false)
      | inl contents =>
          actions <~ lift (MakefileDeps.parse false contents);
          r <~ depsActions (depsFile c) actions;
          ret (r.1, (r.2 =? 0)%nat)
      end
  end.

(** The completion of the process: the calls on the task interface. *)
Definition processCompleted (sys : Sys) (result : ProcessResult) (c : Command) : B (list TaskCall) :=
  if decide (status result = Succeeded) then
    r <~ processDiscoveredDependencies sys c;
    if negb r.2 then
      incrementFailedCommands options ;;;
      bytes <~ lift (toValue makeFailedCommand); ret (r.1 ++ [CallComplete bytes true])
    else
      m <~ gets manifest;
      value <~ lift (computeCommandResult sys m c (hash_value (commandString c)));
      (match rspFile c with [] => ret tt | file => fileEffect (removeFile file) end) ;;;
      bytes <~ lift (toValue value); ret (r.1 ++ [CallComplete bytes (negb (shouldRestat c))])
  else bytes <~ lift (toValue makeFailedCommand); ret [CallComplete bytes true].

(** ** The other tasks *)

(** [NinjaInputTask]. *)
Definition inputInputsAvailable (sys : Sys) (m : Manifest) (n : nat) : outcome (list Z * bool) :=
  if simulate options then obind (toValue (makeExistingInput zeroFileInfo)) (fun v => Ok (v, false))
  else
    obind (getCanonicalPath m n) (fun p =>
    let info := getInfoForPath sys p in
    obind (toValue (if isMissing info then makeMissingInput else makeExistingInput info)) (fun v => Ok (v, false))).

(** [TargetsTask]. *)
Definition targetsProvideValue (sys : Sys) (targetsToBuild : list chars) (inputID : Z) (valueData : list Z) : B unit :=
  value <~ lift (fromValue (newAddress sys) valueData);
  if isMissingInput value then
    target <~ of_option (OutOfBounds "targetsToBuild") (targetsToBuild !! Z.to_nat inputID);
    emitErrorf [chars_of "unknown target '"; target; chars_of "'"]
  else ret tt.
Definition targetsStart (targetsToBuild : list chars) : list TaskCall :=
  imap (fun id p => CallRequest (path_key p) (Z.of_nat id)) targetsToBuild.
Definition targetsInputsAvailable : outcome (list Z * bool) :=
  obind (toValue (makeSuccessfulCommand zeroFileInfo 0)) (fun v => Ok (v, false)).

(** [SelectResultTask]; the value of the composite rule is kept when it arrives. *)
Definition selectStart (compositeRuleName : chars) : list TaskCall := [CallRequest (path_key compositeRuleName) 0].
Definition selectInputsAvailable (sys : Sys) (inputIndex : Z) (compositeValueData : option (list Z)) : outcome (list Z * bool) :=
  match compositeValueData with
  | None => Crash (AssertFailed "compositeValueData")
  | Some data =>
      obind (fromValue (newAddress sys) data) (fun value =>
      if isFailedCommand value || isSkippedCommand value then obind (toValue value) (fun v => Ok (v, true))
      else
        obind (check (isSuccessfulCommand value) "value.isSuccessfulCommand()") (fun _ =>
        obind (check (hasMultipleOutputs value) "value.hasMultipleOutputs()") (fun _ =>
        obind (getNumOutputs value) (fun num =>
        obind (check (inputIndex <? num) "inputIndex < value.getNumOutputs()") (fun _ =>
        obind (getNthOutputInfo value inputIndex) (fun info =>
        obind (getCommandHash value) (fun h =>
        obind (toValue (makeSuccessfulCommand info h)) (fun v => Ok (v, false)))))))))
  end.

(** ** Are stored results valid? *)

Definition buildInputIsResultValid (sys : Sys) (m : Manifest) (n : nat) (valueData : list Z) : outcome bool :=
  obind (fromValue (newAddress sys) valueData) (fun value =>
  if negb (isExistingInput value) then Ok false
  else
    obind (getCanonicalPath m n) (fun p =>
    let info := getInfoForPath sys p in
    if isMissing info then Ok false else obind (getOutputInfo value) (fun old => Ok (FileInfo_eqb old info)))).

Fixpoint outputsUnchanged (sys : Sys) (m : Manifest) (value : BuildValue) (i : Z) (os : list (option nat)) : outcome bool :=
  match os with
  | [] => Ok true
  | o :: os' =>
      obind (outputInfo sys m o) (fun info =>
      if isMissing info then Ok false
      else obind (getNthOutputInfo value i) (fun old =>
        if negb (FileInfo_eqb old info) then Ok false else outputsUnchanged sys m value (i + 1) os'))
  end.
Definition buildCommandIsResultValid (sys : Sys) (m : Manifest) (c : Command) (valueData : list Z) : outcome bool :=
  obind (fromValue (newAddress sys) valueData) (fun value =>
  if negb (isSuccessfulCommand value) then Ok false
  else
    obind (if isGenerator c then Ok true
           else obind (getCommandHash value) (fun h => Ok (h =? hash_value (commandString c)))) (fun same =>
    if same : bool then outputsUnchanged sys m value 0 (outputs c) else Ok false)).

Definition selectCompositeIsResultValid (sys : Sys) (c : Command) (valueData : list Z) : outcome bool :=
  obind (fromValue (newAddress sys) valueData) (fun value =>
  if negb (isSuccessfulCommand value) then Ok false
  else obind (getCommandHash value) (fun h => Ok (h =? hash_value (commandString c)))).

Definition updateCommandStatus (c : Command) (st : StatusKind) : B unit :=
  if isPhony c then ret tt
  else modify (fun x => match st with
    | StatusIsScanning => set_counts (incr (numCommandsScanning x)) (numCommandsUpToDate x) (numCommandsCompleted x) x
    | StatusIsUpToDate => set_counts (decr (numCommandsScanning x)) (incr (numCommandsUpToDate x)) (incr (numCommandsCompleted x)) x
    | StatusIsComplete => set_counts (decr (numCommandsScanning x)) (numCommandsUpToDate x) (incr (numCommandsCompleted x)) x
    end).

(** ** Rules *)

Inductive NinjaRule :=
| NinjaInputRule (n : nat)
| NinjaBuildCommandRule (c : Command)
| NinjaCompositeResultRule (c : Command) (index : Z) (compositeRuleName : chars)
| NinjaBuildTargetsRule (targets : list chars).

(** [lookupRule]: the key of the rule is the path of the node as it was first written. *)
Definition lookupRule (key : chars) : B (chars * NinjaRule) :=
  m <~ gets manifest;
  r <~ lift (findOrCreateNode workingDirectory key m);
  modify (set_manifest r.2) ;;;
  n <~ lift (outputNode r.1);
  path <~ lift (nodeScreenPath r.2 n);
  ret (path, NinjaInputRule n).

Inductive NinjaTask :=
| CommandTaskOf (t : CommandTask)
| InputTask (n : nat)
| TargetsTask (targetsToBuild : list chars)
| SelectResultTask (inputIndex : Z) (compositeRuleName : chars) (compositeValueData : option (list Z)).

Definition createTask (r : NinjaRule) : NinjaTask :=
  match r with
  | NinjaInputRule n => InputTask n
  | NinjaBuildCommandRule c => CommandTaskOf (newTask c)
  | NinjaCompositeResultRule _ i name => SelectResultTask i name None
  | NinjaBuildTargetsRule l => TargetsTask l
  end.

Definition isResultValid (sys : Sys) (m : Manifest) (r : NinjaRule) (valueData : list Z) : outcome bool :=
  match r with
  | NinjaInputRule n => if simulate options then Ok true else buildInputIsResultValid sys m n valueData
  | NinjaBuildCommandRule c => if simulate options then Ok true else buildCommandIsResultValid sys m c valueData
  | NinjaCompositeResultRule c _ _ => if simulate options then Ok true else selectCompositeIsResultValid sys c valueData
  | NinjaBuildTargetsRule _ => Ok false
  end.

Definition updateStatus (r : NinjaRule) (st : StatusKind) : B unit :=
  match r with NinjaBuildCommandRule c => updateCommandStatus c st | _ => ret tt end.

Definition taskStart (m : Manifest) (t : NinjaTask) : outcome (list TaskCall) :=
  match t with
  | CommandTaskOf t => start m t
  | InputTask _ => Ok []
  | TargetsTask l => Ok (targetsStart l)
  | SelectResultTask _ name _ => Ok (selectStart name)
  end.
Definition taskProvidePriorValue (sys : Sys) (valueData : list Z) (t : NinjaTask) : outcome NinjaTask :=
  match t with
  | CommandTaskOf t => obind (providePriorValue sys valueData t) (fun t' => Ok (CommandTaskOf t'))
  | _ => Ok t
  end.
Definition taskProvideValue (sys : Sys) (inputID : Z) (valueData : list Z) (t : NinjaTask) : B NinjaTask :=
  match t with
  | CommandTaskOf t => t' <~ provideValue sys inputID valueData t; ret (CommandTaskOf t')
  | InputTask _ => ret t
  | TargetsTask l => targetsProvideValue sys l inputID valueData ;;; ret t
  | SelectResultTask i name _ => ret (SelectResultTask i name (Some valueData))
  end.
Definition readyOf (o : outcome (list Z * bool)) : B Ready := r <~ lift o; ret (Complete r.1 r.2).
Definition taskInputsAvailable (sys : Sys) (t : NinjaTask) : B Ready :=
  match t with
  | CommandTaskOf t => inputsAvailable sys t
  | InputTask n => m <~ gets manifest; readyOf (inputInputsAvailable sys m n)
  | TargetsTask _ => readyOf targetsInputsAvailable
  | SelectResultTask i _ data => readyOf (selectInputsAvailable sys i data)
  end.

(** ** The rules made up front *)

Fixpoint joinNames (name : chars) (paths : list chars) : chars :=
  match paths with
  | [] => name
  | p :: paths' => joinNames ((match name with [] => [] | _ => name ++ chars_of "&&" end) ++ p) paths'
  end.
Definition rulesOf (m : Manifest) (c : Command) : outcome (list (chars * NinjaRule)) :=
  obind (traverse (outputPath m) (outputs c)) (fun paths =>
  match paths with
  | [p] => Ok [(p, NinjaBuildCommandRule c)]
  | _ =>
      let compositeRuleName := joinNames [] paths in
      Ok ((compositeRuleName, NinjaBuildCommandRule c)
            :: imap (fun i p => (p, NinjaCompositeResultRule c (Z.of_nat i) compositeRuleName)) paths)
  end).
Definition createRules (m : Manifest) : outcome (list (chars * NinjaRule)) :=
  obind (traverse (rulesOf m) (commands m)) (fun l => Ok (concat l)).

(** ** The targets *)

(** The nodes given as arguments; an argument that names no node ends the program. *)
Fixpoint argumentTargets (m : Manifest) (args : list chars) : outcome (list chars + chars) :=
  match args with
  | [] => Ok (inl [])
  | arg :: args' =>
      obind (findNode workingDirectory arg m) (fun n =>
      match n with
      | None => Ok (inr arg)
      | Some n =>
          obind (getCanonicalPath m n) (fun p =>
          obind (argumentTargets m args') (fun r => Ok (match r with inl l => inl (p :: l) | inr bad => inr bad end)))
      end)
  end.

(** The outputs that are no inputs, in the order of the manifest. *)
Definition inputNodes (m : Manifest) : list nat := concat (map (fun c => map node (inputs c)) (commands m)).
Definition isRoot (m : Manifest) (o : option nat) : bool :=
  match o with Some i => negb (bool_decide (i ∈ inputNodes m)) | None => true end.
Definition rootOutputs (m : Manifest) : list (option nat) :=
  filter (fun o => isRoot m o = true) (concat (map outputs (commands m))).

Definition targetsToBuild (m : Manifest) (args : list chars) : outcome (list chars + chars) :=
  obind (argumentTargets m args) (fun r =>
  match r with
  | inl [] =>
      match defaultTargets m with
      | [] => obind (traverse (outputPath m) (rootOutputs m)) (fun l => Ok (inl l))
      | ds => obind (traverse (getCanonicalPath m) ds) (fun l => Ok (inl l))
      end
  | r => Ok r
  end).

(** The key to build for the targets, with the rule that is added for it. *)
Definition buildKey (targets : list chars) : option (chars * option NinjaRule) :=
  match targets with
  | [] => None
  | [t] => Some (t, None)
  | _ => Some (chars_of "<<build>>", Some (NinjaBuildTargetsRule targets))
  end.
End Tasks.
