(* ===== verification/NinjaBuildProps.v ===== *)
(** * Commands of Ninja builds

    When a command of a Ninja build is run, skipped or taken for up to date, and when a
    later build accepts what it stored. *)

From Stdlib Require Import ZArith Ascii Lia ZifyBool.
From stdpp Require Import base gmap list strings numbers pretty.
From S2P Require Import Prelude Engine Chars Coding Process MakefileDeps NinjaPath NinjaManifest NinjaLoaderInv NinjaValue NinjaBuild.

Local Open Scope Z_scope.

(** ** Paths of outputs *)

Definition pathOf (m : Manifest) (i : nat) : chars := default [] (canonicalPath <$> nodes m !! i).
Definition outPath (m : Manifest) (o : option nat) : chars := default [] (pathOf m <$> o).
Definition outPaths (m : Manifest) (c : Command) : list chars := map (outPath m) (outputs c).

Lemma traverse_ok {A C} (f : A -> outcome C) (g : A -> C) l : Forall (fun x => f x = Ok (g x)) l -> traverse f l = Ok (map g l).
Proof. induction 1 as [|x l E _ IH]; [done|]. cbn. by rewrite E, IH. Qed.

Lemma canonical_ok m i : (i < length (nodes m))%nat -> getCanonicalPath m i = Ok (pathOf m i).
Proof. intros Hi. unfold getCanonicalPath, nodeAt, pathOf. by destruct (lookup_lt_is_Some_2 _ _ Hi) as [n ->]. Qed.
Lemma screen_ok m i : (i < length (nodes m))%nat -> exists p, nodeScreenPath m i = Ok p.
Proof. intros Hi. unfold nodeScreenPath. destruct (lookup_lt_is_Some_2 _ _ Hi) as [n ->]. eauto. Qed.
Lemma outputPath_ok m o : node_in m o -> outputPath m o = Ok (outPath m o).
Proof. intros (i & -> & Hi). by apply canonical_ok. Qed.
Lemma outPaths_ok m os : Forall (node_in m) os -> traverse (outputPath m) os = Ok (map (outPath m) os).
Proof. intros H. apply traverse_ok. eapply Forall_impl; [exact H|]. apply outputPath_ok. Qed.
Lemma outputInfo_ok sys m o : node_in m o -> outputInfo sys m o = Ok (getInfoForPath sys (outPath m o)).
Proof. intros H. unfold outputInfo. by rewrite (outputPath_ok _ _ H). Qed.
Lemma outputInfos_ok sys m os : Forall (node_in m) os ->
  traverse (outputInfo sys m) os = Ok (map (fun o => getInfoForPath sys (outPath m o)) os).
Proof. intros H. apply traverse_ok. eapply Forall_impl; [exact H|]. intros o. apply outputInfo_ok. Qed.

(** What the system says of the outputs of a command. *)
Definition outInfos (sys : Sys) (m : Manifest) (c : Command) : list FileInfo := map (getInfoForPath sys) (outPaths m c).

Record sys_ok (sys : Sys) : Prop := {
  sys_info : forall p, valid_info (getInfoForPath sys p);
  sys_address : range 64 (newAddress sys) }.

(** The number of outputs fits into 32 bits. *)
Definition outputs_fit (c : Command) : Prop := range 32 (Z.of_nat (length (outputs c))).

Lemma outInfos_valid sys m c : sys_ok sys -> Forall valid_info (outInfos sys m c).
Proof. intros [H _]. apply Forall_map, Forall_forall. intros p _. apply H. Qed.
Lemma outInfos_length sys m c : length (outInfos sys m c) = length (outputs c).
Proof. unfold outInfos, outPaths. by rewrite !length_map. Qed.

(** ** Results of commands *)

(** [v] is the value of a successful command with this hash and these outputs. *)
Record success_of (v : BuildValue) (infos : list FileInfo) (h : Z) : Prop := {
  so_kind : isSuccessfulCommand v = true;
  so_hash : getCommandHash v = Ok h;
  so_num : getNumOutputs v = Ok (Z.of_nat (length infos));
  so_info i f : infos !! i = Some f -> getNthOutputInfo v (Z.of_nat i) = Ok f }.

Definition resultOf (sys : Sys) (m : Manifest) (c : Command) (h : Z) : BuildValue :=
  match outInfos sys m c with
  | [info] => makeSuccessfulCommand info h
  | infos => newWithInfos SuccessfulCommand (newAddress sys) infos h
  end.

Lemma success_one info h : success_of (makeSuccessfulCommand info h) [info] h.
Proof. split; try done. intros [|i] f; [|done]. by intros [= ->]. Qed.

Lemma success_many a infos h : (1 < length infos)%nat -> range 32 (Z.of_nat (length infos)) ->
  success_of (newWithInfos SuccessfulCommand a infos h) infos h.
Proof.
  intros Hl Hr. assert (E : u32 (Z.of_nat (length infos)) = Z.of_nat (length infos)) by (apply Z.mod_small, Hr).
  split; try done; [by cbn; rewrite E|]. intros i f Hi. pose proof (lookup_lt_Some _ _ _ Hi) as Hlt.
  unfold getNthOutputInfo, hasMultipleOutputs. cbn [getNumOutputs newWithInfos obind checkKind]. unfold checkKind. cbn.
  rewrite E, Nat2Z.id. replace (Z.of_nat i <? _) with true by (symmetry; apply Z.ltb_lt; lia). cbn.
  replace (1 <? _) with true by (symmetry; apply Z.ltb_lt; lia). by rewrite Hi.
Qed.

Lemma success_moved a v infos h : success_of v infos h -> success_of (at_address a v) infos h.
Proof. unfold at_address. intros H. destruct (valueData v) as [|a' l] eqn:E; [done|]. destruct v; cbn in *; subst. by destruct H. Qed.

Lemma result_ok sys m c h : command_ok m c -> outputs_fit c -> sys_ok sys -> range 64 h ->
  computeCommandResult sys m c h = Ok (resultOf sys m c h) /\ valid_value (resultOf sys m c h)
  /\ success_of (resultOf sys m c h) (outInfos sys m c) h.
Proof.
  intros Hc Hf Hs Hh. pose proof (co_outputs _ _ Hc) as Ho. destruct (co_numOut _ _ Hc) as [Hn1 Hn2].
  pose proof (outInfos_valid sys m c Hs) as Hv. pose proof (outInfos_length sys m c) as Hlen.
  unfold outputs_fit in Hf. rewrite <- Hlen in Hf, Hn2.
  unfold computeCommandResult, resultOf. pose proof (outputInfos_ok sys m (outputs c) Ho) as Ht.
  assert (E : map (fun o => getInfoForPath sys (outPath m o)) (outputs c) = outInfos sys m c) by (unfold outInfos, outPaths; by rewrite map_map).
  rewrite E in Ht.
  destruct (outputs c) as [|o [|o' os]], (outInfos sys m c) as [|f [|f' fs]]; try discriminate Hlen; try (cbn in Hn2; lia).
  - rewrite (outputInfo_ok sys m o) by (by apply Forall_inv in Ho). cbn [map] in E. injection E as ->. cbn [obind].
    apply Forall_inv in Hv. split; [done|]. split; [by apply valid_withInfo|apply success_one].
  - assert (Hl : (1 < length (f :: f' :: fs))%nat) by (cbn; lia). rewrite Ht. cbn [obind]. unfold makeSuccessfulCommands.
    assert (E32 : u32 (Z.of_nat (length (f :: f' :: fs))) = Z.of_nat (length (f :: f' :: fs))) by (apply Z.mod_small, Hf).
    rewrite E32. replace (1 <? _) with true by (symmetry; apply Z.ltb_lt; lia). split; [done|].
    split; [by apply valid_withInfos; [..|apply Hs| |]|by apply success_many].
Qed.

(** A stored value read back is the same kind of success. *)
Lemma success_stored v infos h a : valid_value v -> success_of v infos h ->
  exists bs v', toValue v = Ok bs /\ fromValue a bs = Ok v' /\ success_of v' infos h.
Proof.
  intros Hv Hs. destruct (value_stored v a Hv) as (bs & E & E' & _). exists bs, (at_address a v).
  split; [done|]. split; [done|]. by apply success_moved.
Qed.

(** ** Loops over outputs *)

Section Loops.
Context (v : BuildValue) (infos : list FileInfo) (h : Z) (Hv : success_of v infos h).

Lemma missingFrom_spec : forall n i, (i + n)%nat = length infos ->
  missingFrom v (Z.of_nat i) n = Ok (existsb isMissing (drop i infos)).
Proof.
  induction n as [|n IH]; intros i Hi; cbn [missingFrom]; [by rewrite drop_ge by lia|].
  destruct (lookup_lt_is_Some_2 infos i) as [f Ef]; [lia|]. rewrite (so_info _ _ _ Hv _ _ Ef). cbn [obind].
  rewrite (drop_S _ _ _ Ef). cbn [existsb]. destruct (isMissing f); [done|].
  replace (Z.of_nat i + 1) with (Z.of_nat (S i)) by lia. apply IH. lia.
Qed.
Lemma anyMissing_spec : anyMissing v = Ok (existsb isMissing infos).
Proof. unfold anyMissing. rewrite (so_num _ _ _ Hv). cbn [obind]. rewrite Nat2Z.id. by apply (missingFrom_spec _ 0). Qed.

Lemma newerFrom_spec options newest : forall n i, (i + n)%nat = length infos ->
  newerFrom options newest v (Z.of_nat i) n = Ok (forallb (fun f => negb (isMissing f) && isNewer options newest f) (drop i infos)).
Proof.
  induction n as [|n IH]; intros i Hi; cbn [newerFrom]; [by rewrite drop_ge by lia|].
  destruct (lookup_lt_is_Some_2 infos i) as [f Ef]; [lia|]. rewrite (so_info _ _ _ Hv _ _ Ef). cbn [obind].
  rewrite (drop_S _ _ _ Ef). cbn [forallb]. destruct (isMissing f); [done|]. destruct (isNewer options newest f); [|done].
  replace (Z.of_nat i + 1) with (Z.of_nat (S i)) by lia. cbn. apply IH. lia.
Qed.
Lemma canUpdate_spec options t :
  canUpdateIfNewerWithResult options t v = Ok (forallb (fun f => negb (isMissing f) && isNewer options (newestModTime t) f) infos).
Proof.
  unfold canUpdateIfNewerWithResult. rewrite (so_kind _ _ _ Hv), (so_num _ _ _ Hv). cbn [check obind]. rewrite Nat2Z.id.
  by apply (newerFrom_spec _ _ _ 0).
Qed.

(** The check that outputs did not change. *)
Lemma unchanged_spec sys m : forall os i, Forall (node_in m) os -> (i + length os)%nat = length infos ->
  outputsUnchanged sys m v (Z.of_nat i) os
  = Ok (forallb (fun p => negb (isMissing (getInfoForPath sys p.2)) && FileInfo_eqb p.1 (getInfoForPath sys p.2))
          (zip (drop i infos) (map (outPath m) os))).
Proof.
  induction os as [|o os IH]; intros i Ho Hi; cbn [outputsUnchanged]; [by destruct (drop i infos)|].
  cbn [length] in Hi. apply Forall_cons in Ho as [Ho Hos]. rewrite (outputInfo_ok _ _ _ Ho). cbn [obind].
  destruct (lookup_lt_is_Some_2 infos i) as [f Ef]; [lia|]. rewrite (drop_S _ _ _ Ef). cbn [map zip zip_with forallb fst snd].
  destruct (isMissing _); [done|]. rewrite (so_info _ _ _ Hv _ _ Ef). cbn [obind negb andb].
  destruct (FileInfo_eqb f _); [|done]. cbn [negb andb]. replace (Z.of_nat i + 1) with (Z.of_nat (S i)) by lia. apply IH; [done|lia].
Qed.
End Loops.

(** ** Stored results *)

Section Valid.
Context (hash_value : chars -> Z) (hash_range : forall s, range 64 (hash_value s)).

(** C24: What a command stores, and when it is accepted.  After a command ran (or was found
    newer than its inputs) the value of its outputs' file information and of its command line
    survives the engine's storage, and a later build accepts it for the command with the same
    outputs exactly when each output exists with the information it had and the hash of the
    command line is the same, which is not asked of a generator. *)
Theorem ninja_result_valid_iff sys sys' m m' c c' : command_ok m c -> command_ok m' c' -> outputs_fit c ->
  sys_ok sys -> outPaths m c = outPaths m' c' ->
  exists v bs accepted, computeCommandResult sys m c (hash_value (commandString c)) = Ok v /\ toValue v = Ok bs
    /\ buildCommandIsResultValid hash_value sys' m' c' bs = Ok accepted
    /\ (accepted = true <-> (isGenerator c' = true \/ hash_value (commandString c) = hash_value (commandString c'))
         /\ forall p, p ∈ outPaths m c ->
              isMissing (getInfoForPath sys' p) = false
              /\ FileInfo_eqb (getInfoForPath sys p) (getInfoForPath sys' p) = true).
Proof.
  intros Hc Hc' Hf Hs Hp. set (h := hash_value (commandString c)).
  destruct (result_ok sys m c h Hc Hf Hs (hash_range _)) as (E & Hv & Hsuc).
  destruct (success_stored _ _ _ (newAddress sys') Hv Hsuc) as (bs & v' & Eb & Ev & Hsuc'). exists (resultOf sys m c h), bs.
  unfold buildCommandIsResultValid. rewrite Ev. cbn [obind]. rewrite (so_kind _ _ _ Hsuc'). cbn [negb].
  assert (Hlen : length (outInfos sys m c) = length (outputs c')).
  { rewrite outInfos_length. pose proof (f_equal length Hp) as Hl. unfold outPaths in Hl. by rewrite !length_map in Hl. }
  pose proof (unchanged_spec _ _ _ Hsuc' sys' m' (outputs c') 0 (co_outputs _ _ Hc') (eq_sym Hlen)) as Hu. change (Z.of_nat 0) with 0 in Hu. rewrite drop_0 in Hu.
  fold (outPaths m' c') in Hu. rewrite <- Hp in Hu.
  rewrite Hu, (so_hash _ _ _ Hsuc'). cbn [obind]. fold h.
  assert (Hz : forallb (fun p => negb (isMissing (getInfoForPath sys' p.2)) && FileInfo_eqb p.1 (getInfoForPath sys' p.2))
      (zip (outInfos sys m c) (outPaths m c)) = true
    <-> forall p, p ∈ outPaths m c -> isMissing (getInfoForPath sys' p) = false /\ FileInfo_eqb (getInfoForPath sys p) (getInfoForPath sys' p) = true).
  { unfold outInfos. clear. induction (outPaths m c) as [|p ps IH]; cbn [map zip zip_with forallb fst snd].
    - split; [|done]. intros _ p Hp. by apply elem_of_nil in Hp.
    - rewrite andb_true_iff, IH, andb_true_iff, negb_true_iff. setoid_rewrite elem_of_cons. split.
      + intros [Hp Hps] q [-> | Hq]; [done|by apply Hps].
      + intros H. split; [apply H; by left|]. intros q Hq. apply H. by right. }
  destruct (isGenerator c'); cbn [obind].
  - eexists. do 3 (split; [done|]). rewrite Hz. split; [|tauto]. intros H. split; [by left|done].
  - destruct (Z.eqb_spec h (hash_value (commandString c'))) as [Eh|Eh]; cbn [obind]; eexists; do 3 (split; [done|]).
    + rewrite Hz. split; [|tauto]. intros H. split; [by right|done].
    + split; [done|]. intros [[?|?] _]; congruence.
Qed.
End Valid.

(** ** Inputs of a command *)

(** A value that does not stop the command. *)
Definition usable (v : BuildValue) : bool := isExistingInput v || isSuccessfulCommand v.
Definition infoOf (v : BuildValue) : FileInfo := match valueData v with asOutputInfo f => f | asOutputInfos _ _ => zeroFileInfo end.

(** The value of the input with this number. *)
Record input_ok (c : Command) (p : Z * BuildValue) : Prop := {
  io_id : exists i, p.1 = Z.of_nat i /\ (i < length (inputs c))%nat;
  io_valid : valid_value p.2;
  io_single : hasMultipleOutputs p.2 = false }.

(** The engine hands over the values of inputs, as they are stored, in some order. *)
Fixpoint provideAll (sys : Sys) (l : list (Z * BuildValue)) (t : CommandTask) : B CommandTask :=
  match l with
  | [] => ret t
  | p :: l' => bytes <~ lift (toValue p.2); t' <~ provideValue sys p.1 bytes t; provideAll sys l' t'
  end.

(** What an input does to the task. *)
Definition absorb (t : CommandTask) (v : BuildValue) : CommandTask :=
  if usable v then noteInput (infoOf v) t else skip (isMissingInput v) t.
Definition absorbAll (t : CommandTask) (l : list (Z * BuildValue)) : CommandTask := foldl (fun t p => absorb t p.2) t l.

Lemma infoOf_ok v : usable v = true -> hasMultipleOutputs v = false -> valid_value v -> getOutputInfo v = Ok (infoOf v).
Proof.
  intros Hu Hm Hv. unfold getOutputInfo, checkKind. unfold usable in Hu. rewrite Hu, Hm. cbn. unfold theInfo, infoOf.
  pose proof (at_address_single 0 v Hm Hv) as E. unfold at_address in E. destruct (valueData v) as [|a l] eqn:Ed; [done|].
  pose proof (vv_data v Hv) as Hd. rewrite Ed in Hd. unfold hasMultipleOutputs in Hm. apply Z.ltb_ge in Hm. lia.
Qed.

Lemma absorb_command t v : command (absorb t v) = command t.
Proof. unfold absorb, noteInput. by repeat case_match. Qed.
Lemma absorb_skip t v : shouldSkip (absorb t v) = negb (usable v) || shouldSkip t.
Proof. unfold absorb, noteInput. by repeat case_match. Qed.
Lemma absorb_missing t v : hasMissingInput (absorb t v) = (negb (usable v) && isMissingInput v) || hasMissingInput t.
Proof. unfold absorb, noteInput. by repeat case_match. Qed.
Lemma absorb_update t v : canUpdateIfNewer (absorb t v) = negb (usable v && isMissing (infoOf v)) && canUpdateIfNewer t.
Proof. unfold absorb, noteInput. by repeat case_match. Qed.
Lemma absorb_prior t v : hasPriorResult (absorb t v) = hasPriorResult t /\ priorCommandHash (absorb t v) = priorCommandHash t.
Proof. unfold absorb, noteInput. by repeat case_match. Qed.

Lemma absorbAll_command l : forall t, command (absorbAll t l) = command t.
Proof. induction l as [|p l IH]; intros t; [done|]. cbn. rewrite IH. apply absorb_command. Qed.
Lemma absorbAll_skip l : forall t, shouldSkip (absorbAll t l) = shouldSkip t || existsb (fun p => negb (usable p.2)) l.
Proof.
  induction l as [|p l IH]; intros t; cbn; [by rewrite orb_false_r|]. rewrite IH, absorb_skip.
  by destruct (shouldSkip t), (usable p.2).
Qed.
Lemma absorbAll_missing l : forall t,
  hasMissingInput (absorbAll t l) = hasMissingInput t || existsb (fun p => negb (usable p.2) && isMissingInput p.2) l.
Proof.
  induction l as [|p l IH]; intros t; cbn; [by rewrite orb_false_r|]. rewrite IH, absorb_missing.
  by destruct (hasMissingInput t), (usable p.2), (isMissingInput p.2).
Qed.
Lemma absorbAll_update l : forall t,
  canUpdateIfNewer (absorbAll t l) = canUpdateIfNewer t && forallb (fun p => negb (usable p.2 && isMissing (infoOf p.2))) l.
Proof.
  induction l as [|p l IH]; intros t; cbn; [by rewrite andb_true_r|]. rewrite IH, absorb_update.
  by destruct (canUpdateIfNewer t), (usable p.2), (isMissing _).
Qed.
Lemma absorbAll_prior l : forall t, hasPriorResult (absorbAll t l) = hasPriorResult t /\ priorCommandHash (absorbAll t l) = priorCommandHash t.
Proof.
  induction l as [|p l IH]; intros t; [done|]. change (absorbAll t (p :: l)) with (absorbAll (absorb t p.2) l).
  destruct (IH (absorb t p.2)) as [-> ->]. apply absorb_prior.
Qed.

(** *** The newest input *)
Lemma leb_trans_max options a b f : isNewer options (if FileTimestamp_ltb a b then b else a) f = isNewer options a f && isNewer options b f.
Proof.
  destruct (FileTimestamp_ltb a b) eqn:E; revert E; unfold isNewer, FileTimestamp_ltb, FileTimestamp_leb;
    destruct a as [as_ an], b as [bs bn], (modTime f) as [fs fn]; cbn; destruct (strict options); intros E; lia.
Qed.
Lemma absorb_newer options t v f : canUpdateIfNewer (absorb t v) = true ->
  isNewer options (newestModTime (absorb t v)) f
  = isNewer options (newestModTime t) f && (negb (usable v) || isNewer options (modTime (infoOf v)) f).
Proof.
  rewrite absorb_update. unfold absorb, noteInput. destruct (usable v); cbn; [|by rewrite andb_true_r].
  destruct (isMissing (infoOf v)); [done|]. intros _. rewrite <- leb_trans_max. by destruct (FileTimestamp_ltb _ _).
Qed.
Lemma absorbAll_newer options f l : forall t, canUpdateIfNewer (absorbAll t l) = true ->
  isNewer options (newestModTime (absorbAll t l)) f
  = isNewer options (newestModTime t) f && forallb (fun p => negb (usable p.2) || isNewer options (modTime (infoOf p.2)) f) l.
Proof.
  induction l as [|p l IH]; intros t Hu; [cbn; by rewrite andb_true_r|].
  change (absorbAll t (p :: l)) with (absorbAll (absorb t p.2) l) in *. rewrite (IH _ Hu).
  rewrite absorbAll_update in Hu. apply andb_prop in Hu as [Hu _]. cbn [forallb]. by rewrite absorb_newer, andb_assoc by done.
Qed.

(** *** Handing over the values *)

(** What reporting does to a context. *)
Record reported (c c' : BuildContext) : Prop := {
  rp_manifest : manifest c' = manifest c;
  rp_cancelled : isCancelled c' = isCancelled c;
  rp_built : numBuiltCommands c' = numBuiltCommands c;
  rp_failed : numFailedCommands c' = numFailedCommands c;
  rp_updated : numCommandsUpdated c' = numCommandsUpdated c }.
#[export] Instance reported_refl : Reflexive reported.
Proof. by constructor. Qed.
#[export] Instance reported_trans : Transitive reported.
Proof. intros a b c [? ? ? ? ?] [? ? ? ? ?]. constructor; congruence. Qed.

Lemma emitError_ok message c : exists c', emitError message c = Ok (tt, c') /\ reported c c'.
Proof. eexists. split; [reflexivity|]. by constructor. Qed.

Lemma provide_ok sys p t c :
  Forall (fun n => (node n < length (nodes (manifest c)))%nat) (inputs (command t)) -> input_ok (command t) p ->
  exists bytes c', toValue p.2 = Ok bytes /\ provideValue sys p.1 bytes t c = Ok (absorb t p.2, c') /\ reported c c'.
Proof.
  intros Hin [(i & Ei & Hi) Hv Hs]. destruct (value_stored p.2 (newAddress sys) Hv) as (bytes & Eb & Ev & _).
  rewrite (at_address_single _ _ Hs Hv) in Ev. exists bytes. unfold provideValue. unfold lift at 1. unfold bind at 1. rewrite Ev, Hs. cbn [negb ensure].
  rewrite bind_ret_l. unfold absorb, usable. destruct (isExistingInput p.2) eqn:Ee; [|destruct (isSuccessfulCommand p.2) eqn:Es]; cbn [negb andb orb].
  1,2: unfold lift; cbn; rewrite infoOf_ok by (unfold usable; rewrite ?Ee, ?Es; done); cbn; eexists; split; [done|]; split; [reflexivity|done].
  destruct (isMissingInput p.2); [|by eexists; split; [done|]; split; [reflexivity|done]].
  rewrite Ei, Nat2Z.id. destruct (lookup_lt_is_Some_2 _ _ Hi) as [n En]. rewrite En. cbn.
  rewrite Forall_lookup in Hin. destruct (screen_ok (manifest c) (node n) (Hin _ _ En)) as [path Ep].
  unfold bind, gets, lift, reportMissingInput, ret. rewrite Ep. cbn.
  eexists; split; [done|]; split; [reflexivity|by constructor].
Qed.

Lemma provideAll_ok sys l : forall t c,
  Forall (fun n => (node n < length (nodes (manifest c)))%nat) (inputs (command t)) -> Forall (input_ok (command t)) l ->
  exists c', provideAll sys l t c = Ok (absorbAll t l, c') /\ reported c c'.
Proof.
  induction l as [|p l IH]; intros t c Hin Hl; [by exists c|]. apply Forall_cons in Hl as [Hp Hl].
  destruct (provide_ok sys p t c Hin Hp) as (bytes & c1 & Eb & E1 & R1).
  destruct (IH (absorb t p.2) c1) as (c2 & E2 & R2).
  - rewrite absorb_command. by rewrite (rp_manifest _ _ R1).
  - by rewrite absorb_command.
  - exists c2. split; [|by transitivity c1]. cbn [provideAll]. unfold lift. unfold bind at 1. rewrite Eb. by rewrite (bind_ok _ _ _ _ _ E1), E2.
Qed.

(** ** What a command does once its inputs are there *)

Section Decision.
Context (options : Options) (hash_value : chars -> Z) (hash_range : forall s, range 64 (hash_value s))
  (statusLinePrefix : BuildContext -> outcome chars).
Context (sys0 sys : Sys) (Hsys : sys_ok sys).

(** The task of the command, given the value of the last build if there is one. *)
Definition preparedTask (c : Command) (prior : option BuildValue) : outcome CommandTask :=
  match prior with
  | None => Ok (newTask c)
  | Some v => obind (toValue v) (fun bytes => providePriorValue sys0 bytes (newTask c))
  end.
Definition withPrior (prior : option BuildValue) (t : CommandTask) : CommandTask :=
  match prior with Some v => if isSuccessfulCommand v then set_prior (commandHash v) t else t | None => t end.

Lemma prepared_ok c prior : (forall v, prior = Some v -> valid_value v) -> preparedTask c prior = Ok (withPrior prior (newTask c)).
Proof.
  intros Hp. destruct prior as [v|]; [|done]. cbn [preparedTask withPrior].
  destruct (value_stored v (newAddress sys0) (Hp v eq_refl)) as (bytes & Eb & Ev & _). rewrite Eb. cbn [obind].
  unfold providePriorValue. rewrite Ev. cbn [obind]. unfold getCommandHash, isSuccessfulCommand. rewrite at_address_kind, at_address_hash.
  by destruct (hasKind SuccessfulCommand v).
Qed.

Section Command.
Context (m : Manifest) (c : Command) (prior : option BuildValue) (l : list (Z * BuildValue)).
Context (Hc : command_ok m c) (Hfit : outputs_fit c).

Definition commandHash_ : Z := hash_value (commandString c).
Definition result : BuildValue := resultOf sys m c commandHash_.

(** The command has not changed and its outputs are newer than its inputs. *)
Record up_to_date : Prop := mkUpToDate {
  ud_deps : depsStyle c = DepsNone;
  ud_hash : isGenerator c = true \/ exists v, prior = Some v /\ isSuccessfulCommand v = true /\ commandHash v = commandHash_;
  ud_inputs : forall p, p ∈ l -> usable p.2 = true -> isMissing (infoOf p.2) = false;
  ud_outputs : forall f, f ∈ outInfos sys m c -> isMissing f = false /\ isNewer options (mkTimestamp 0 0) f = true
    /\ forall p, p ∈ l -> usable p.2 = true -> isNewer options (modTime (infoOf p.2)) f = true }.

Inductive decides (cancelled : bool) : Ready -> Prop :=
| decides_cancelled bs : cancelled = true -> toValue makeSkippedCommand = Ok bs -> decides cancelled (Complete bs false)
| decides_phony bs : cancelled = false -> isPhony c = true -> toValue result = Ok bs ->
    decides cancelled (Complete bs (existsb isMissing (outInfos sys m c)))
| decides_update bs : cancelled = false -> isPhony c = false -> up_to_date -> toValue result = Ok bs -> decides cancelled (Complete bs false)
| decides_skip bs : cancelled = false -> isPhony c = false -> ~ up_to_date ->
    simulate options = true \/ (exists p, p ∈ l /\ usable p.2 = false) ->
    toValue makeSkippedCommand = Ok bs -> decides cancelled (Complete bs false)
| decides_run : cancelled = false -> isPhony c = false -> ~ up_to_date -> simulate options = false ->
    (forall p, p ∈ l -> usable p.2 = true) -> decides cancelled (AddJob (isConsole c)).

Definition task : CommandTask := absorbAll (withPrior prior (newTask c)) l.

Lemma withPrior_other t : command (withPrior prior t) = command t /\ canUpdateIfNewer (withPrior prior t) = canUpdateIfNewer t
  /\ shouldSkip (withPrior prior t) = shouldSkip t /\ hasMissingInput (withPrior prior t) = hasMissingInput t
  /\ newestModTime (withPrior prior t) = newestModTime t.
Proof. unfold withPrior. destruct prior as [v|]; [|done]. by destruct (isSuccessfulCommand v). Qed.

Lemma task_command : command task = c.
Proof. unfold task. rewrite absorbAll_command. by destruct (withPrior_other (newTask c)) as (-> & _). Qed.
Lemma task_skip : shouldSkip task = existsb (fun p => negb (usable p.2)) l.
Proof. unfold task. rewrite absorbAll_skip. by destruct (withPrior_other (newTask c)) as (_ & _ & -> & _). Qed.
Lemma task_missing : hasMissingInput task = existsb (fun p => negb (usable p.2) && isMissingInput p.2) l.
Proof. unfold task. rewrite absorbAll_missing. by destruct (withPrior_other (newTask c)) as (_ & _ & _ & -> & _). Qed.
Lemma task_update : canUpdateIfNewer task = true <-> depsStyle c = DepsNone /\ forall p, p ∈ l -> usable p.2 = true -> isMissing (infoOf p.2) = false.
Proof.
  unfold task. rewrite absorbAll_update. destruct (withPrior_other (newTask c)) as (_ & -> & _). rewrite andb_true_iff, forallb_forall.
  cbn. split.
  - intros [Hd Hl]. split; [by destruct (depsStyle c)|]. intros p Hp Hu. specialize (Hl p (proj1 (list_elem_of_In _ _) Hp)).
    rewrite Hu in Hl. by apply negb_true_iff in Hl.
  - intros [-> Hl]. split; [done|]. intros p Hp. destruct (usable p.2) eqn:Hu; [|done]. cbn. by rewrite (Hl p (proj2 (list_elem_of_In _ _) Hp) Hu).
Qed.
Lemma task_hash : hasPriorResult task && (priorCommandHash task =? commandHash_) = true
  <-> exists v, prior = Some v /\ isSuccessfulCommand v = true /\ commandHash v = commandHash_.
Proof.
  unfold task. destruct (absorbAll_prior l (withPrior prior (newTask c))) as [-> ->]. unfold withPrior. destruct prior as [v|].
  - destruct (isSuccessfulCommand v) eqn:Es; cbn.
    + rewrite Z.eqb_eq. split; [by exists v|]. by intros (? & [= <-] & _ & ?).
    + split; [done|]. intros (? & [= <-] & ? & _). congruence.
  - cbn. split; [done|]. by intros (? & ? & _).
Qed.

Lemma update_spec : exists b : bool, updateResult options sys m commandHash_ task = Ok (if b then Some result else None) /\ (b = true <-> up_to_date).
Proof.
  destruct (result_ok sys m c commandHash_ Hc Hfit Hsys (hash_range _)) as (E & _ & Hs). unfold updateResult. rewrite task_command.
  destruct (canUpdateIfNewer task && (isGenerator c || _)) eqn:Eb.
  - rewrite E. cbn [obind]. fold result. rewrite (canUpdate_spec _ _ _ Hs). cbn [obind].
    apply andb_prop in Eb as [Eu Eh]. apply orb_prop in Eh. rewrite task_hash in Eh. pose proof Eu as Ecan. apply task_update in Eu as [Ed Ei].
    eexists. split; [reflexivity|]. rewrite forallb_forall.
    assert (Hn : forall f, isNewer options (newestModTime task) f = isNewer options (mkTimestamp 0 0) f
        && forallb (fun p => negb (usable p.2) || isNewer options (modTime (infoOf p.2)) f) l).
    { intros f. unfold task in *. rewrite (absorbAll_newer _ _ _ _ Ecan). by destruct (withPrior_other (newTask c)) as (_ & _ & _ & _ & ->). }
    split.
    + intros H. split; [done..|]. intros f Hf. specialize (H f (proj1 (list_elem_of_In _ _) Hf)). rewrite Hn in H.
      apply andb_prop in H as [H1 H2]. apply andb_prop in H2 as [H2 H3]. split; [by apply negb_true_iff|]. split; [done|].
      rewrite forallb_forall in H3. intros p Hp Hu. specialize (H3 p (proj1 (list_elem_of_In _ _) Hp)). by rewrite Hu in H3.
    + intros [_ _ _ H] f Hf. destruct (H f (proj2 (list_elem_of_In _ _) Hf)) as (H1 & H2 & H3). rewrite H1, Hn, H2. cbn.
      apply forallb_forall. intros p Hp. destruct (usable p.2) eqn:Hu; [|done]. by apply H3; [apply list_elem_of_In|].
  - exists false. split; [done|]. split; [done|]. intros [H1 H2 H3 _]. apply andb_false_iff in Eb as [Eb|Eb].
    + assert (canUpdateIfNewer task = true) by by apply task_update. congruence.
    + apply orb_false_iff in Eb as [Eg Eh]. destruct H2 as [H2|H2]; [congruence|]. apply task_hash in H2. congruence.
Qed.
End Command.

Lemma lifted {A} (o : outcome A) a (k : A -> B Ready) c : o = Ok a -> bind (lift o) k c = k a c.
Proof. intros ->. done. Qed.
Lemma complete_ok v bs force c : toValue v = Ok bs -> complete v force c = Ok (Complete bs force, c).
Proof. intros E. unfold complete. by rewrite (lifted _ _ _ _ E). Qed.

Lemma incrementFailed_ok x : exists x', incrementFailedCommands options x = Ok (tt, x') /\ manifest x' = manifest x
  /\ numBuiltCommands x' = numBuiltCommands x /\ numCommandsUpdated x' = numCommandsUpdated x.
Proof.
  unfold incrementFailedCommands. rewrite bind_modify. unfold bind at 1, gets. destruct (_ && _); eexists; split; try reflexivity; done.
Qed.
Lemma describe_ok c x : is_ok (statusLinePrefix (set_numDescriptions (incr (numOutputDescriptions x)) x)) = true ->
  exists x', writeDescription options statusLinePrefix c x = Ok (tt, x') /\ manifest x' = manifest x /\ numBuiltCommands x' = numBuiltCommands x
    /\ numCommandsUpdated x' = numCommandsUpdated x.
Proof.
  intros H. unfold writeDescription. rewrite bind_modify. unfold bind at 1, get. unfold bind at 1, lift.
  destruct (statusLinePrefix _) as [p|]; [|done]. unfold emitStatus. rewrite bind_modify.
  destruct (isConsole c); eexists; split; try reflexivity; done.
Qed.

Lemma blame_ok m c x : command_ok m c -> exists x', reportUnbuildable options m c x = Ok (tt, x')
  /\ manifest x' = manifest x /\ numBuiltCommands x' = numBuiltCommands x /\ numCommandsUpdated x' = numCommandsUpdated x.
Proof.
  intros Hc. destruct (co_numOut _ _ Hc) as [H1 H2]. pose proof (co_outputs _ _ Hc) as Ho. unfold reportUnbuildable.
  destruct (outputs c) as [|o os]; [cbn in H2; lia|]. apply Forall_inv in Ho as (i & -> & Hi). destruct (screen_ok m i Hi) as [path Ep].
  cbn [head of_option outputNode]. rewrite bind_ret_l, (bind_ok (lift (Ok i)) _ x i x) by done.
  rewrite (bind_ok (lift (nodeScreenPath m i)) _ x path x) by (unfold lift; by rewrite Ep).
  destruct (emitError_ok (getFormattedString [chars_of "cannot build '"; path; chars_of "' due to missing input"]) x) as (x1 & E1 & [Q1 Q2 Q3 Q4 Q5]).
  unfold emitErrorf. rewrite (bind_ok _ _ _ _ _ E1). destruct (incrementFailed_ok x1) as (x2 & E2 & P0 & P1 & P2).
  exists x2. rewrite P0, P1, P2. done.
Qed.

Lemma some_unusable (l : list (Z * BuildValue)) : existsb (fun p => negb (usable p.2)) l = true <-> exists p, p ∈ l /\ usable p.2 = false.
Proof.
  rewrite existsb_exists. split; intros (p & Hp & Hu); exists p; (split; [by apply list_elem_of_In|]); [by apply negb_true_iff|].
  by rewrite Hu.
Qed.

Lemma runOrSkip_ok m c prior l x : command_ok m c -> isPhony c = false -> ~ up_to_date m c prior l ->
  (quiet options = true \/ forall x, is_ok (statusLinePrefix x) = true) ->
  exists r x', runOrSkip options statusLinePrefix m (task c prior l) x = Ok (r, x') /\ decides m c prior l false r
    /\ manifest x' = manifest x /\ numBuiltCommands x' = numBuiltCommands x /\ numCommandsUpdated x' = numCommandsUpdated x.
Proof.
  intros Hc Eph Hn Hq. unfold runOrSkip. rewrite task_command, task_skip, task_missing.
  assert (Hskip : forall x', simulate options = true \/ (exists p, p ∈ l /\ usable p.2 = false) ->
    exists r, complete makeSkippedCommand false x' = Ok (r, x') /\ decides m c prior l false r).
  { intros x' H. eexists. split; [by apply complete_ok|by apply decides_skip]. }
  destruct (simulate options) eqn:Esim.
  { assert (Hd : exists x', (if quiet options then ret tt else writeDescription options statusLinePrefix c) x = Ok (tt, x')
      /\ manifest x' = manifest x /\ numBuiltCommands x' = numBuiltCommands x /\ numCommandsUpdated x' = numCommandsUpdated x).
    { destruct (quiet options); [by exists x|]. apply describe_ok. by destruct Hq as [Hq|Hq]. }
    destruct Hd as (x' & Ex & X). destruct (Hskip x') as (r & Er & Hr); [by left|]. exists r, x'. by rewrite (bind_ok _ _ _ _ _ Ex). }
  destruct (existsb (fun p => negb (usable p.2)) l) eqn:Eun.
  - pose proof (proj1 (some_unusable l) Eun) as Hun.
    assert (Hd : exists x', (if existsb (fun p => negb (usable p.2) && isMissingInput p.2) l then reportUnbuildable options m c else ret tt) x = Ok (tt, x')
      /\ manifest x' = manifest x /\ numBuiltCommands x' = numBuiltCommands x /\ numCommandsUpdated x' = numCommandsUpdated x).
    { destruct (existsb (fun p => _ && _) l); [by apply blame_ok|by exists x]. }
    destruct Hd as (x' & Ex & X). destruct (Hskip x') as (r & Er & Hr); [by right|]. exists r, x'. by rewrite (bind_ok _ _ _ _ _ Ex).
  - assert (Hall : forall p, p ∈ l -> usable p.2 = true).
    { intros p Hp. apply not_false_iff_true. intros Hu. apply not_true_iff_false in Eun. apply Eun, some_unusable. eauto. }
    replace (existsb (fun p => negb (usable p.2) && isMissingInput p.2) l) with false.
    + eexists _, x. split; [reflexivity|]. split; [by apply decides_run|done].
    + symmetry. apply not_true_iff_false. rewrite existsb_exists. intros (p & Hp & Hu). apply list_elem_of_In, Hall in Hp. by rewrite Hp in Hu.
Qed.

Lemma inputsAvailable_ok m c prior l x : manifest x = m -> command_ok m c -> outputs_fit c ->
  (quiet options = true \/ forall x, is_ok (statusLinePrefix x) = true) ->
  exists r x', inputsAvailable options hash_value statusLinePrefix sys (task c prior l) x = Ok (r, x') /\ manifest x' = manifest x
    /\ decides m c prior l (isCancelled x) r
    /\ (isCancelled x = false -> isPhony c = false ->
        (up_to_date m c prior l /\ numCommandsUpdated x' = incr (numCommandsUpdated x) /\ numBuiltCommands x' = numBuiltCommands x)
        \/ (~ up_to_date m c prior l /\ numCommandsUpdated x' = numCommandsUpdated x /\ numBuiltCommands x' = incr (numBuiltCommands x))).
Proof.
  intros <- Hc Hf Hq. set (m := manifest x). assert (Hskip : exists bs, toValue makeSkippedCommand = Ok bs) by by eexists.
  destruct Hskip as [sk Esk]. destruct (result_ok sys m c (hash_value (commandString c)) Hc Hf Hsys (hash_range _)) as (Er & Hv & Hs).
  destruct (success_stored _ _ _ 0 Hv Hs) as (rb & _ & Erb & _).
  unfold inputsAvailable. unfold bind at 1, get. rewrite task_command. fold m.
  destruct (isCancelled x) eqn:Ecan; [exists (Complete sk false), x; rewrite (complete_ok _ _ _ _ Esk); split; [done|]; split; [done|]; split; [by constructor|done]|].
  destruct (isPhony c) eqn:Eph.
  { rewrite (lifted _ _ _ _ Er), (lifted _ _ _ _ (anyMissing_spec _ _ _ Hs)), (complete_ok _ _ _ _ Erb).
    eexists _, _. split; [reflexivity|]. split; [done|]. split; [by apply decides_phony|done]. }
  destruct (update_spec m c prior l Hc Hf) as (b & Eu & Hb). unfold commandHash_, result in Eu. rewrite (lifted _ _ _ _ Eu). destruct b.
  { rewrite bind_modify, (complete_ok _ _ _ _ Erb). eexists _, _. split; [reflexivity|]. apply proj1 in Hb. specialize (Hb eq_refl).
    split; [done|]. split; [by apply decides_update|]. intros _ _. by left. }
  assert (Hn : ~ up_to_date m c prior l) by (rewrite <- Hb; done). rewrite bind_modify.
  destruct (runOrSkip_ok m c prior l (set_numBuilt (incr (numBuiltCommands x)) x) Hc Eph Hn Hq) as (r & x' & Ex & Hd & X0 & X1 & X2).
  exists r, x'. split; [done|]. split; [done|]. split; [done|]. intros _ _. right. by rewrite X1, X2.
Qed.

(** C23: When a command of a Ninja build is run.  Whatever values its inputs have, of
    one file each, and in whatever order they arrive, the callbacks of its task fail no assertion and end in one
    decision: nothing is done if the build is cancelled; a phony command succeeds, and forces
    its dependents if an output is missing; a command without a dependency file, whose
    command line is the one stored (or that is a generator), with no input that was built
    but is missing, and whose outputs all exist and are newer than every input, is taken as
    built, also if the value of an input is unusable ([missing_input_is_updated]); otherwise
    it is skipped when simulating or if the value of an input is unusable, and run if not.
    A command that is not phony is counted as updated or as built accordingly.  The command
    is one the loading of a manifest makes, with fewer than 2^32 outputs, and the prefix of
    the status line can be made or is not asked for. *)
Theorem ninja_command_decides c prior l ctx :
  command_ok (manifest ctx) c -> outputs_fit c -> Forall (input_ok c) l -> (forall v, prior = Some v -> valid_value v) ->
  (quiet options = true \/ forall x, is_ok (statusLinePrefix x) = true) ->
  exists t ctx1 r ctx2, preparedTask c prior = Ok t
    /\ provideAll sys0 l t ctx = Ok (absorbAll t l, ctx1)
    /\ inputsAvailable options hash_value statusLinePrefix sys (absorbAll t l) ctx1 = Ok (r, ctx2)
    /\ decides (manifest ctx) c prior l (isCancelled ctx) r
    /\ (isCancelled ctx = false -> isPhony c = false ->
        (up_to_date (manifest ctx) c prior l
          /\ numCommandsUpdated ctx2 = incr (numCommandsUpdated ctx) /\ numBuiltCommands ctx2 = numBuiltCommands ctx)
        \/ (~ up_to_date (manifest ctx) c prior l
          /\ numCommandsUpdated ctx2 = numCommandsUpdated ctx /\ numBuiltCommands ctx2 = incr (numBuiltCommands ctx))).
Proof.
  intros Hc Hf Hl Hp Hq. set (m := manifest ctx) in *. pose proof (prepared_ok c prior Hp) as Et. set (t := withPrior prior (newTask c)) in *.
  assert (Hcmd : command t = c) by (unfold t; by destruct (withPrior_other prior (newTask c)) as (-> & _)).
  destruct (provideAll_ok sys0 l t ctx) as (ctx1 & E1 & [R1 R2 R3 R4 R5]); [rewrite Hcmd; apply (co_inputs _ _ Hc)|by rewrite Hcmd|].
  destruct (inputsAvailable_ok m c prior l ctx1 R1) as (r & ctx2 & K1 & _ & K2 & K3); [done..|]. rewrite R2, R3, R5 in *.
  exists t, ctx1, r, ctx2. done.
Qed.
End Decision.

(** ** A manifest with one command *)

Definition example_manifest : Manifest :=
  mkManifest [mkScope None ∅ ∅] [mkNode (chars_of "/w/in") (chars_of "in"); mkNode (chars_of "/w/out") (chars_of "out")]
    (list_to_map [(chars_of "/w/in", 0%nat); (chars_of "/w/out", 1%nat)])
    [mkRule (chars_of "phony") ∅; mkRule (chars_of "cc") ∅] [mkPool (chars_of "console") 1] ∅ [] [].
Definition example_command : Command :=
  mkCommand 1 [Some 1%nat] [mkNodeIn 0 []] 1 0 1 ∅ None (chars_of "cc in") [] [] [] [] DepsNone false false.
Definition example_options : Options := mkOptions true false false false 1 [].
Definition example_hash (s : chars) : Z := Z.of_nat (length s) mod 2 ^ 64.
Definition example_sys : Sys := mkSys (fun _ => example_info 3) (fun _ => inl []) (fun _ => None) 4096.

Lemma example_command_ok : command_ok example_manifest example_command.
Proof.
  constructor; cbn; try lia; try done.
  - constructor; [|constructor]. exists 1%nat. split; [done|cbn; lia].
  - apply NoDup_singleton.
  - constructor; [cbn; lia|constructor].
Qed.
Lemma example_info_valid n : 0 <= n < 2 ^ 64 -> valid_info (example_info n).
Proof. intros Hn. unfold valid_info, range, example_info. cbn. repeat split; lia || done. Qed.
Lemma example_sys_ok : sys_ok example_sys.
Proof. split; [intros p; apply example_info_valid|unfold range; cbn]; lia. Qed.
Lemma example_hash_range s : range 64 (example_hash s).
Proof. apply Z.mod_pos_bound. done. Qed.
Lemma example_fits : outputs_fit example_command.
Proof. unfold outputs_fit, range. cbn. lia. Qed.

Lemma ninja_result_valid_iff_witness :
  exists v bs accepted, computeCommandResult example_sys example_manifest example_command 5 = Ok v /\ toValue v = Ok bs
    /\ buildCommandIsResultValid example_hash example_sys example_manifest example_command bs = Ok accepted
    /\ (accepted = true <-> (false = true \/ 5 = 5) /\ forall p, p ∈ [chars_of "/w/out"] ->
          false = false /\ FileInfo_eqb (example_info 3) (example_info 3) = true).
Proof.
  apply (ninja_result_valid_iff example_hash example_hash_range example_sys example_sys example_manifest example_manifest
    example_command example_command).
  - exact example_command_ok.
  - exact example_command_ok.
  - exact example_fits.
  - exact example_sys_ok.
  - reflexivity.
Defined.

Lemma ninja_command_decides_witness :
  let l := [(0, makeExistingInput (example_info 3))] in
  exists t ctx1 r ctx2, preparedTask example_sys example_command None = Ok t
    /\ provideAll example_sys l t (newContext example_manifest) = Ok (absorbAll t l, ctx1)
    /\ inputsAvailable example_options example_hash (fun _ => Ok []) example_sys (absorbAll t l) ctx1 = Ok (r, ctx2)
    /\ decides example_options example_hash example_sys example_manifest example_command None l false r.
Proof.
  intros l.
  destruct (ninja_command_decides example_options example_hash example_hash_range (fun _ => Ok []) example_sys example_sys example_sys_ok
    example_command None l (newContext example_manifest)) as (t & ctx1 & r & ctx2 & E1 & E2 & E3 & E4 & _).
  - exact example_command_ok.
  - exact example_fits.
  - constructor; [|constructor]. split.
    + exists 0%nat. split; [reflexivity|cbn; lia].
    + apply valid_withInfo; [apply example_info_valid; lia|done].
    + reflexivity.
  - intros v H. discriminate H.
  - left. reflexivity.
  - exists t, ctx1, r, ctx2. split; [exact E1|]. split; [exact E2|]. split; [exact E3|exact E4].
Defined.

(** A command whose input is missing, so that it should be skipped, is recorded as built
    if its outputs are newer than its other inputs: the test for failed inputs comes after
    the test for newer outputs. *)
Example missing_input_is_updated :
  let t := set_prior 5 (newTask example_command) in
  let run := (t' <~ provideAll example_sys [(0, makeMissingInput)] t;
              inputsAvailable example_options example_hash (fun _ => Ok []) example_sys t') (newContext example_manifest) in
  match run with
  | Ok (Complete bs forceChange, ctx) =>
      fromValue 0 bs = Ok (makeSuccessfulCommand (example_info 3) 5) /\ forceChange = false
      /\ consoleQueue ctx = [emitDiagnostic (chars_of "error") (chars_of "missing input 'in' and no rule to build it")]
      /\ numCommandsUpdated ctx = 1 /\ numBuiltCommands ctx = 0
  | _ => False
  end.
Proof. vm_compute. repeat split; reflexivity. Qed.

(** The message of a cycle is used as a format: the name of a target can make the program
    read an argument that is not there. *)
Example cycle_message_is_format :
  cycleDetected [Engine.mkRule "/w/100%" 0; Engine.mkRule "/w/a" 0] (newContext example_manifest) = Crash (OutOfBounds "va_arg").
Proof. reflexivity. Qed.
