(* ===== verification/NinjaStop.v ===== *)
(** * When a Ninja build stops

    The callbacks of a Ninja build in any order: the number of failed commands that is
    tolerated, and what is still done after the build is cancelled. *)

From Stdlib Require Import ZArith Ascii Lia.
From stdpp Require Import base gmap list strings numbers pretty.
From S2P Require Import Prelude Engine Chars Coding Process MakefileDeps NinjaPath NinjaManifest NinjaValue NinjaBuild NinjaBuildProps.

Local Open Scope Z_scope.

(** ** Callbacks *)

Inductive Callback :=
| onProvideValue (sys : Sys) (inputID : Z) (valueData : list Z) (t : NinjaTask)
| onInputsAvailable (sys : Sys) (t : NinjaTask)
| onExecute (sys : Sys) (t : CommandTask)
| onCompleted (sys : Sys) (result : ProcessResult) (c : Command)
| onProcessStarted (handle : Z)
| onProcessHadOutput (handle : Z) (data : chars)
| onProcessHadError (message : chars)
| onProcessFinished (job : Command) (handle : Z) (result : ProcessResult)
| onUpdateStatus (r : NinjaRule) (st : StatusKind)
| onLookupRule (key : chars)
| onCycleDetected (cycle : list Engine.Rule)
| onError (message : chars)
| onInterrupt.

Section Stop.
Context (options : Options) (stripColorCodes : chars -> chars) (hash_value : chars -> Z) (workingDirectory : chars)
  (statusLinePrefix : BuildContext -> outcome chars).

Definition callback (e : Callback) : B unit :=
  match e with
  | onProvideValue sys i v t => taskProvideValue sys i v t ;;; ret tt
  | onInputsAvailable sys t => taskInputsAvailable options hash_value statusLinePrefix sys t ;;; ret tt
  | onExecute sys t => executeCommand options statusLinePrefix sys t ;;; ret tt
  | onCompleted sys r c => processCompleted options hash_value workingDirectory sys r c ;;; ret tt
  | onProcessStarted h => processStarted h
  | onProcessHadOutput h d => processHadOutput h d
  | onProcessHadError msg => processHadError msg
  | onProcessFinished job h r => processFinished options stripColorCodes job h r
  | onUpdateStatus r st => updateStatus r st
  | onLookupRule key => lookupRule workingDirectory key ;;; ret tt
  | onCycleDetected cycle => cycleDetected cycle
  | onError msg => delegateError msg
  | onInterrupt => cancelBuildOnInterrupt ;;; ret tt
  end.

(** ** What every callback keeps *)

Definition below (c : BuildContext) : Prop := isCancelled c = true \/ 0 <= numFailedCommands c < numFailedCommandsToTolerate options.
Record kept (c c' : BuildContext) : Prop := { kept_cancelled : isCancelled c = true -> isCancelled c' = true; kept_below : below c -> below c' }.
#[local] Instance kept_refl : Reflexive kept.
Proof. by constructor. Qed.
#[local] Instance kept_trans : Transitive kept.
Proof. intros a b c [? ?] [? ?]. constructor; auto. Qed.

Definition keeps {A} (m : B A) : Prop := forall c a c', m c = Ok (a, c') -> kept c c'.

Lemma keeps_ret {A} (a : A) : keeps (ret a).
Proof. by intros c b c' [= _ <-]. Qed.
Lemma keeps_bind {A C} (m : B A) (f : A -> B C) : keeps m -> (forall a, keeps (f a)) -> keeps (bind m f).
Proof. intros Hm Hf c b c' E. apply bind_inv in E as (a & c1 & E1 & E2). transitivity c1; [by eapply Hm|by eapply Hf]. Qed.
Lemma keeps_gets {A} (f : BuildContext -> A) : keeps (gets f).
Proof. by intros c b c' [= _ <-]. Qed.
Lemma keeps_get : keeps get.
Proof. by intros c b c' [= _ <-]. Qed.
Lemma keeps_lift {A} (o : outcome A) : keeps (lift o).
Proof. intros c b c' E. unfold lift in E. destruct o; [|done]. by injection E as _ <-. Qed.
Lemma keeps_fail {A} e : keeps (@fail BuildContext A e).
Proof. done. Qed.
Lemma keeps_ensure b e : keeps (ensure b e).
Proof. destruct b; [apply keeps_ret|apply keeps_fail]. Qed.
Lemma keeps_of_option {A} e (o : option A) : keeps (of_option e o).
Proof. destruct o; [apply keeps_ret|apply keeps_fail]. Qed.
(** A change that leaves the cancellation and the failures alone. *)
Lemma keeps_modify f : (forall c, isCancelled (f c) = isCancelled c) -> (forall c, numFailedCommands (f c) = numFailedCommands c) -> keeps (modify f).
Proof. intros H1 H2 c a c' [= _ <-]. unfold below. constructor; unfold below; by rewrite H1, ?H2. Qed.
Lemma keeps_cancel : keeps (modify (set_cancelled true)).
Proof. intros c a c' [= _ <-]. constructor; [done|by left]. Qed.
Lemma keeps_mapM {A} (f : A -> B unit) l : (forall a, keeps (f a)) -> keeps (mapM_ f l).
Proof. intros Hf. induction l; [apply keeps_ret|]. by apply keeps_bind. Qed.

Lemma keeps_async op : keeps (async op).
Proof. by apply keeps_modify. Qed.
Lemma keeps_emitError message : keeps (emitError message).
Proof. apply keeps_bind; [|intros _]; by apply keeps_modify. Qed.

(** The failure that reaches the number cancels the build. *)
Lemma incrementFailed_spec c : 0 < numFailedCommandsToTolerate options < 2 ^ 32 ->
  exists c', incrementFailedCommands options c = Ok (tt, c') /\ numFailedCommands c' = incr (numFailedCommands c)
    /\ isCancelled c' = (isCancelled c || (incr (numFailedCommands c) =? numFailedCommandsToTolerate options)).
Proof.
  intros Hk. unfold incrementFailedCommands. rewrite bind_modify. unfold bind at 1, gets. cbn [numFailedCommands set_numFailed].
  replace (numFailedCommandsToTolerate options =? 0) with false by (symmetry; apply Z.eqb_neq; lia). cbn [negb andb].
  destruct (_ =? _) eqn:E.
  - eexists. split; [reflexivity|]. cbn. by rewrite orb_true_r.
  - eexists. split; [reflexivity|]. cbn. by rewrite orb_false_r.
Qed.

Context (tolerates : 0 < numFailedCommandsToTolerate options < 2 ^ 32).

Lemma keeps_incrementFailed : keeps (incrementFailedCommands options).
Proof.
  intros c a c' E. destruct (incrementFailed_spec c tolerates) as (c1 & E1 & H1 & H2). rewrite E1 in E. injection E as _ <-.
  constructor; [by intros Hc; rewrite H2, Hc|]. unfold below. rewrite H1, H2. intros [Hc|Hc]; [left; by rewrite Hc|].
  destruct (Z.eqb_spec (incr (numFailedCommands c)) (numFailedCommandsToTolerate options)) as [E|Hne]; [left; by rewrite orb_true_r|].
  right. revert Hne. unfold incr, u32. rewrite Z.mod_small by lia. lia.
Qed.

Create HintDb keeps discriminated.
#[local] Hint Resolve keeps_ret keeps_gets keeps_get keeps_lift keeps_fail keeps_ensure keeps_of_option keeps_cancel
  keeps_async keeps_emitError keeps_incrementFailed : keeps.
#[local] Hint Extern 1 (keeps (modify _)) => apply keeps_modify; intros ?; repeat case_match; reflexivity : keeps.
(** Follow the structure of a callback. *)
Ltac keep :=
  repeat match goal with
    | |- keeps (bind _ _) => apply keeps_bind; [|intros ?]
    | |- keeps (mapM_ _ _) => apply keeps_mapM; intros ?
    | |- keeps (match ?x with _ => _ end) => destruct x
    | |- keeps _ => solve [auto with keeps]
    end.

Lemma keeps_writeDescription c : keeps (writeDescription options statusLinePrefix c).
Proof. unfold writeDescription, emitStatus. keep. Qed.
#[local] Hint Resolve keeps_writeDescription : keeps.
Lemma keeps_provideValue sys i v t : keeps (taskProvideValue sys i v t).
Proof. unfold taskProvideValue, provideValue, targetsProvideValue, reportMissingInput, emitErrorf. keep. Qed.
Lemma keeps_inputsAvailable sys t : keeps (taskInputsAvailable options hash_value statusLinePrefix sys t).
Proof. unfold taskInputsAvailable, inputsAvailable, runOrSkip, reportUnbuildable, emitErrorf, readyOf, complete. keep. Qed.
Lemma keeps_executeCommand sys t : keeps (executeCommand options statusLinePrefix sys t).
Proof. unfold executeCommand, completeNow, createParent, makeResponseFile, fileEffect, async, emitErrorf. keep. Qed.
Lemma keeps_depsActions path l : keeps (depsActions workingDirectory path l).
Proof. induction l as [|[] l IH]; cbn [depsActions]; unfold emitErrorf; keep; done. Qed.
#[local] Hint Resolve keeps_depsActions : keeps.
Lemma keeps_processCompleted sys r c : keeps (processCompleted options hash_value workingDirectory sys r c).
Proof. unfold processCompleted, processDiscoveredDependencies, fileEffect, emitErrorf. keep. Qed.
Lemma keeps_processFinished job h r : keeps (processFinished options stripColorCodes job h r).
Proof. unfold processFinished, eraseBuffer, emitErrorAndText. keep. Qed.
#[local] Hint Resolve keeps_provideValue keeps_inputsAvailable keeps_executeCommand keeps_processCompleted keeps_processFinished : keeps.

Lemma callback_keeps e : keeps (callback e).
Proof.
  destruct e; cbn [callback]; unfold processStarted, processHadOutput, processHadError, updateStatus, updateCommandStatus, lookupRule,
    cycleDetected, delegateError, cancelBuildOnInterrupt, emitNote; keep.
Qed.

(** ** The tolerated failures *)

Lemma skipped_bytes : exists bs, toValue makeSkippedCommand = Ok bs.
Proof. by eexists. Qed.

(** C26: How a Ninja build stops.  From the start of the build the callbacks may come in any
    order and number.  As long as the build is not cancelled, fewer commands have failed than
    are tolerated, and a failing process is counted: when it is the last that is tolerated the
    build is cancelled.  Once the build is cancelled it stays so, and no command is started any
    more: every command whose inputs are there is skipped, and so is every job that was queued
    before, without running its process or touching a file. *)
Theorem failures_stop_commands m evs ctx : mapM_ callback evs (newContext m) = Ok (tt, ctx) ->
  (isCancelled ctx = true \/ 0 <= numFailedCommands ctx < numFailedCommandsToTolerate options)
  /\ (forall job handle result, status result <> Succeeded -> status result <> Cancelled ->
        exists ctx', processFinished options stripColorCodes job handle result ctx = Ok (tt, ctx')
          /\ numFailedCommands ctx' = incr (numFailedCommands ctx)
          /\ (numFailedCommands ctx' = numFailedCommandsToTolerate options -> isCancelled ctx' = true))
  /\ (isCancelled ctx = true -> forall later ctx', mapM_ callback later ctx = Ok (tt, ctx') ->
        isCancelled ctx' = true
        /\ exists skipped, toValue makeSkippedCommand = Ok skipped
          /\ (forall sys t, executeCommand options statusLinePrefix sys t ctx' = Ok (CompleteNow skipped false, ctx'))
          /\ (forall sys t, inputsAvailable options hash_value statusLinePrefix sys t ctx' = Ok (Complete skipped false, ctx'))).
Proof.
  intros E. assert (Hall : forall l, keeps (mapM_ callback l)) by (intros l; apply keeps_mapM, callback_keeps).
  split; [|split].
  - apply (Hall evs _ _ _ E). right. cbn. lia.
  - intros job handle result Hs Hc. unfold processFinished. rewrite bind_modify. unfold bind at 1, gets.
    rewrite !decide_False by done. unfold emitErrorAndText, async. rewrite bind_assoc, bind_modify, bind_modify.
    set (c1 := set_numErrors _ _). destruct (incrementFailed_spec c1 tolerates) as (c2 & E2 & H1 & H2). rewrite (bind_ok _ _ _ _ _ E2).
    eexists. split; [reflexivity|]. cbn [numFailedCommands isCancelled set_buffers]. rewrite H1, H2. split; [done|].
    intros Hk. change (numFailedCommands c1) with (numFailedCommands ctx) in *. rewrite Hk, Z.eqb_refl. apply orb_true_r.
  - intros Hc later ctx' E'. pose proof (kept_cancelled _ _ (Hall later _ _ _ E') Hc) as Hc'. split; [done|].
    destruct skipped_bytes as [bs Eb]. exists bs. split; [done|]. split; intros sys t.
    + unfold executeCommand. unfold bind at 1, gets. rewrite Hc'. unfold completeNow. by rewrite (bind_ok (lift _) _ ctx' bs ctx') by (unfold lift; by rewrite Eb).
    + unfold inputsAvailable. unfold bind at 1, get. rewrite Hc'. unfold complete. by rewrite (bind_ok (lift _) _ ctx' bs ctx') by (unfold lift; by rewrite Eb).
Qed.
End Stop.

Lemma failures_stop_commands_witness :
  let result := mkProcessResult Failed 1 7 0 0 0 in
  let events := [onProcessStarted 1; onProcessHadOutput 1 (chars_of "no"); onProcessFinished example_command 1 result] in
  exists ctx, mapM_ (callback example_options id example_hash (chars_of "/w") (fun _ => Ok [])) events (newContext example_manifest) = Ok (tt, ctx)
    /\ numFailedCommands ctx = 1 /\ isCancelled ctx = true
    /\ exists skipped, toValue makeSkippedCommand = Ok skipped
      /\ forall sys t, executeCommand example_options (fun _ => Ok []) sys t ctx = Ok (CompleteNow skipped false, ctx).
Proof.
  intros result events.
  destruct (mapM_ (callback example_options id example_hash (chars_of "/w") (fun _ => Ok [])) events (newContext example_manifest)) as [[[] ctx]|] eqn:E.
  - exists ctx. split; [reflexivity|]. assert (Hf : numFailedCommands ctx = 1 /\ isCancelled ctx = true) by (vm_compute in E; injection E as <-; split; reflexivity).
    destruct Hf as [Hf Hc]. split; [exact Hf|]. split; [exact Hc|].
    destruct (failures_stop_commands example_options id example_hash (chars_of "/w") (fun _ => Ok [])) with (m := example_manifest) (evs := events) (ctx := ctx)
      as (_ & _ & H); [cbn; lia|exact E|].
    destruct (H Hc [] ctx eq_refl) as (_ & skipped & Es & Hx & _). exists skipped. split; [exact Es|exact Hx].
  - vm_compute in E. discriminate E.
Defined.
