(* ===== verification/NinjaRules.v ===== *)
(** * The rules of a Ninja build

    The rules made up front for a manifest, and the values they produce: the value of a key is
    always one that the tasks which request the key and the test of stored results expect, so
    none of their assertions fails. *)

From Stdlib Require Import ZArith Ascii Lia.
From stdpp Require Import base gmap list strings numbers pretty.
From S2P Require Import Prelude Engine EngineSafety Chars Coding Process MakefileDeps NinjaPath NinjaManifest NinjaLoader NinjaLoaderInv NinjaValue NinjaBuild NinjaBuildProps.

Local Open Scope Z_scope.

(** ** The rules of a manifest *)

Definition compositeName (m : Manifest) (c : Command) : chars := joinNames [] (outPaths m c).
Definition rulesFor (m : Manifest) (c : Command) : list (chars * NinjaRule) :=
  match outPaths m c with
  | [p] => [(p, NinjaBuildCommandRule c)]
  | ps => (compositeName m c, NinjaBuildCommandRule c)
            :: imap (fun i p => (p, NinjaCompositeResultRule c (Z.of_nat i) (compositeName m c))) ps
  end.
Definition allRules (m : Manifest) : list (chars * NinjaRule) := concat (map (rulesFor m) (commands m)).

Lemma rulesOf_ok m c : command_ok m c -> rulesOf m c = Ok (rulesFor m c).
Proof.
  intros Hc. unfold rulesOf, rulesFor, compositeName. rewrite (outPaths_ok _ _ (co_outputs _ _ Hc)). cbn [obind].
  fold (outPaths m c). by destruct (outPaths m c) as [|p [|p' ps]].
Qed.
Lemma createRules_ok m : Forall (command_ok m) (commands m) -> createRules m = Ok (allRules m).
Proof.
  intros H. unfold createRules, allRules. rewrite (traverse_ok _ (rulesFor m)); [done|]. eapply Forall_impl; [exact H|]. apply rulesOf_ok.
Qed.

(** The rule of a key, [None] for an input file. *)
Fixpoint findRule (key : chars) (l : list (chars * NinjaRule)) : option NinjaRule :=
  match l with [] => None | (k, r) :: l' => if decide (k = key) then Some r else findRule key l' end.

Lemma findRule_in key l r : findRule key l = Some r -> (key, r) ∈ l.
Proof.
  induction l as [|[k r'] l IH]; cbn; [done|]. destruct (decide (k = key)) as [->|]; [intros [= ->]; by left|]. intros H. right. by apply IH.
Qed.
Lemma findRule_unique key l r : NoDup (map fst l) -> (key, r) ∈ l -> findRule key l = Some r.
Proof.
  induction l as [|[k r'] l IH]; cbn; [by intros _ H%elem_of_nil|]. intros [Hk Hl]%NoDup_cons [[= -> ->]|H]%elem_of_cons; [by rewrite decide_True|].
  rewrite decide_False; [by apply IH|]. intros ->. apply Hk. apply list_elem_of_fmap. by exists (key, r).
Qed.

(** The commands with several outputs. *)
Definition composite (c : Command) : Prop := length (outputs c) <> 1%nat.

Inductive rule_for (m : Manifest) : chars -> NinjaRule -> Prop :=
| rule_single c p : c ∈ commands m -> outPaths m c = [p] -> rule_for m p (NinjaBuildCommandRule c)
| rule_composite c : c ∈ commands m -> composite c -> rule_for m (compositeName m c) (NinjaBuildCommandRule c)
| rule_select c i p : c ∈ commands m -> composite c -> outPaths m c !! i = Some p ->
    rule_for m p (NinjaCompositeResultRule c (Z.of_nat i) (compositeName m c)).

Lemma outPaths_length m c : length (outPaths m c) = length (outputs c).
Proof. unfold outPaths. apply length_map. Qed.

Lemma rulesFor_spec m c k r : c ∈ commands m -> (k, r) ∈ rulesFor m c -> rule_for m k r.
Proof.
  intros Hc. unfold rulesFor. pose proof (outPaths_length m c) as Hl.
  destruct (outPaths m c) as [|p [|p' ps]] eqn:E.
  2: { rewrite list_elem_of_singleton. intros [= -> ->]. by apply rule_single. }
  all: assert (Hcomp : composite c) by (unfold composite; rewrite <- Hl; done).
  all: intros [[= -> ->]|H]%elem_of_cons; [by apply rule_composite|].
  - by apply elem_of_nil in H.
  - apply elem_of_lookup_imap in H as (i & q & [= -> ->] & Hi). apply rule_select; [done..|]. by rewrite E.
Qed.
Lemma allRules_spec m k r : (k, r) ∈ allRules m -> rule_for m k r.
Proof.
  unfold allRules. intros H. apply list_elem_of_In, in_concat in H as (l & Hl & H). apply in_map_iff in Hl as (c & <- & Hc).
  apply (rulesFor_spec m c); by apply list_elem_of_In.
Qed.
Lemma composite_rule m c : c ∈ commands m -> composite c -> (compositeName m c, NinjaBuildCommandRule c) ∈ allRules m.
Proof.
  intros Hc Hcomp. unfold allRules. apply list_elem_of_In, in_concat. exists (rulesFor m c). split; [apply in_map, list_elem_of_In, Hc|].
  apply list_elem_of_In. unfold rulesFor. pose proof (outPaths_length m c) as Hl. unfold composite in Hcomp.
  destruct (outPaths m c) as [|p [|p' ps]]; [by left|by rewrite <- Hl in Hcomp|by left].
Qed.

(** ** What is asked of the names *)

(** Keys are not registered twice, and no file is named like the rule of a command with
    several outputs. *)
Record names_apart (m : Manifest) : Prop := {
  na_keys : NoDup (map fst (allRules m));
  na_files : forall c i, c ∈ commands m -> composite c -> (i < length (nodes m))%nat -> pathOf m i <> compositeName m c }.

(** ** The type of a rule's values *)

Definition failed_or_skipped (v : BuildValue) : Prop := v = makeFailedCommand \/ v = makeSkippedCommand.
Definition produces (r : option NinjaRule) (v : BuildValue) : Prop :=
  valid_value v /\
  match r with
  | None | Some (NinjaInputRule _) => v = makeMissingInput \/ isExistingInput v = true /\ hasMultipleOutputs v = false
  | Some (NinjaBuildCommandRule c) => failed_or_skipped v \/ exists infos h, length infos = length (outputs c) /\ success_of v infos h
  | Some (NinjaCompositeResultRule _ _ _) => failed_or_skipped v \/ exists info h, success_of v [info] h
  | Some (NinjaBuildTargetsRule _) => exists info h, success_of v [info] h
  end.
(** The bytes the engine keeps for a key with this rule. *)
Definition typed (r : option NinjaRule) (bytes : list Z) : Prop := exists v, produces r v /\ toValue v = Ok bytes.
Definition typed_key (m : Manifest) (key : KeyID) (bytes : list Z) : Prop :=
  typed (findRule (String.list_ascii_of_string key) (allRules m)) bytes.

(** The value of a rule that is not for several outputs has one file information at most. *)
Lemma single_value r v : match r with Some (NinjaBuildCommandRule c) => ~ composite c | _ => True end ->
  produces r v -> hasMultipleOutputs v = false.
Proof.
  assert (Hfs : failed_or_skipped v -> hasMultipleOutputs v = false) by by intros [-> | ->].
  assert (Hone : forall infos h, length infos = 1%nat -> success_of v infos h -> hasMultipleOutputs v = false).
  { intros infos h Hl [_ _ Hn _]. unfold getNumOutputs, obind, checkKind, check in Hn. rewrite Hl in Hn.
    destruct (_ || _); [|done]. injection Hn as Hn. unfold hasMultipleOutputs. by rewrite Hn. }
  intros Hr [_ Hp]. destruct r as [[n|c|c i name|l]|].
  - destruct Hp as [-> |[_ Hp]]; done.
  - unfold composite in Hr. destruct Hp as [Hp|(infos & h & Hl & Hs)]; [auto|]. apply (Hone infos h); [|done]. destruct (decide (length (outputs c) = 1%nat)); [lia|done].
  - destruct Hp as [Hp|(info & h & Hs)]; [auto|]. by apply (Hone [info] h).
  - destruct Hp as (info & h & Hs). by apply (Hone [info] h).
  - destruct Hp as [-> |[_ Hp]]; done.
Qed.

(** The rule of a file never is one for several outputs. *)
Lemma file_rule m i : names_apart m -> (i < length (nodes m))%nat ->
  match findRule (pathOf m i) (allRules m) with Some (NinjaBuildCommandRule c) => ~ composite c | _ => True end.
Proof.
  intros [_ Hn] Hi. destruct (findRule _ _) as [r|] eqn:E; [|done]. apply findRule_in, allRules_spec in E.
  inversion E as [c p Hc Hp Ek Er|c Hc Hcomp Ek Er|c i' p Hc Hcomp Hp Ek Er]; subst; try done.
  - unfold composite. intros H. apply H. by rewrite <- (outPaths_length m c), Hp.
  - by destruct (Hn c i Hc Hcomp Hi).
Qed.

(** ** A manifest during the build

    The engine asks for the rules of files that no command makes, which may add nodes. *)
Record grown (m m' : Manifest) : Prop := {
  gw_nodes : exists ns, nodes m' = nodes m ++ ns;
  gw_rules : (length (ruleStore m) <= length (ruleStore m'))%nat;
  gw_pools : (length (poolStore m) <= length (poolStore m'))%nat }.

Lemma manifest_grown_refl m : grown m m.
Proof. split; [exists []; by rewrite app_nil_r|done..]. Qed.
Lemma grown_length m m' : grown m m' -> (length (nodes m) <= length (nodes m'))%nat.
Proof. intros [[ns ->] _ _]. rewrite length_app. lia. Qed.
Lemma grown_path m m' i : grown m m' -> (i < length (nodes m))%nat -> pathOf m' i = pathOf m i.
Proof. intros [[ns E] _ _] Hi. unfold pathOf. rewrite E. by rewrite lookup_app_l. Qed.
Lemma manifest_grown_command m m' c : grown m m' -> command_ok m c -> command_ok m' c.
Proof. intros H. apply command_ok_grows. constructor; [by apply gw_rules|by apply gw_pools|by apply grown_length]. Qed.
Lemma grown_outPath m m' o : grown m m' -> node_in m o -> outPath m' o = outPath m o.
Proof. intros H (i & -> & Hi). cbn. by apply grown_path. Qed.
Lemma grown_outPaths m m' c : grown m m' -> command_ok m c -> outPaths m' c = outPaths m c.
Proof.
  intros H Hc. unfold outPaths. apply map_ext_in. intros o Ho. apply (grown_outPath _ _ _ H).
  pose proof (co_outputs _ _ Hc) as Hall. rewrite Forall_forall in Hall. by apply Hall, list_elem_of_In.
Qed.

Definition requestOf (c : TaskCall) : option (KeyID * Z) := match c with CallRequest k i => Some (k, i) | _ => None end.
Definition requests (calls : list TaskCall) : list (KeyID * Z) := omap requestOf calls.

(** The values of the requested keys, each of its type, in some order. *)
Definition answers (m : Manifest) (calls : list TaskCall) (l : list (Z * list Z)) : Prop :=
  exists order, order ≡ₚ requests calls /\ Forall2 (fun q p => q.2 = p.1 /\ typed_key m q.1 p.2) order l.

Fixpoint provideBytes (sys : Sys) (l : list (Z * list Z)) (t : NinjaTask) : B NinjaTask :=
  match l with [] => ret t | p :: l' => t' <~ taskProvideValue sys p.1 p.2 t; provideBytes sys l' t' end.

Lemma answers_each m calls l : answers m calls l -> Forall (fun p => exists k, (k, p.1) ∈ requests calls /\ typed_key m k p.2) l.
Proof.
  intros (order & Hp & H). assert (Hall : Forall (fun q => q ∈ requests calls) order) by (apply Forall_forall; intros q Hq; by rewrite <- Hp).
  clear Hp. induction H as [|[k i] p order l [E Ht] _ IH]; [constructor|]. apply Forall_cons in Hall as [Hq Hall].
  constructor; [|by apply IH]. exists k. cbn in E. by rewrite <- E.
Qed.

(** ** Starting a command *)

Section Requests.
Context (options : Options) (m : Manifest) (c : Command).

(** Input [n] is requested under the number [i]. *)
Definition input_request (q : KeyID * Z) : Prop :=
  exists i n, q = (path_key (pathOf m (node n)), Z.of_nat i) /\ n ∈ inputs c /\ (i < length (inputs c))%nat.
Context (Hc : command_ok m c).

Lemma input_node n : n ∈ inputs c -> (node n < length (nodes m))%nat.
Proof. pose proof (co_inputs _ _ Hc) as H. rewrite Forall_forall in H. apply H. Qed.

Lemma requestInputs_ok l : forall id, l ⊆ inputs c -> (id + length l <= length (inputs c))%nat ->
  exists calls, requestInputs options m c (Z.of_nat id) l = Ok calls /\ Forall is_request calls /\ Forall input_request (requests calls).
Proof.
  induction l as [|n l IH]; intros id Hl Hid; [exists []; repeat split; constructor|]. cbn [length] in Hid.
  assert (Hn : n ∈ inputs c) by (apply Hl; by left).
  destruct (IH (S id)) as (calls & E & H1 & H2); [set_solver|lia|]. replace (Z.of_nat (S id)) with (Z.of_nat id + 1) in E by lia.
  cbn [requestInputs]. destruct (ignored options c n); [by exists calls|]. rewrite (canonical_ok _ _ (input_node n Hn)). cbn [obind]. rewrite E. cbn [obind].
  eexists. split; [reflexivity|]. split; [by constructor|]. unfold requests. cbn. constructor; [|done]. exists id, n. split; [done|]. split; [done|lia].
Qed.
Lemma followInputs_ok l : l ⊆ inputs c ->
  exists calls, followInputs options m c l = Ok calls /\ Forall is_request calls /\ requests calls = [].
Proof.
  induction l as [|n l IH]; intros Hl; [exists []; repeat split; constructor|]. assert (Hn : n ∈ inputs c) by (apply Hl; by left).
  destruct IH as (calls & E & H1 & H2); [set_solver|]. cbn [followInputs].
  destruct (ignored options c n); [by exists calls|]. rewrite (canonical_ok _ _ (input_node n Hn)). cbn [obind]. rewrite E. cbn [obind].
  eexists. split; [reflexivity|]. split; [by constructor|done].
Qed.

Lemma start_ok : exists calls, start options m (newTask c) = Ok calls /\ Forall is_request calls /\ Forall input_request (requests calls).
Proof.
  pose proof (co_numIn _ _ Hc) as Hn. unfold start. cbn [command newTask].
  assert (He : length (explicitRange c) = numExplicitInputs c) by (unfold explicitRange; rewrite length_take; lia).
  assert (Hsub : explicitRange c ⊆ inputs c /\ implicitRange c ⊆ inputs c /\ orderOnlyRange c ⊆ inputs c).
  { unfold explicitRange, implicitRange, orderOnlyRange. split; [|split].
    - apply subseteq_take.
    - etransitivity; [apply subseteq_take|apply subseteq_drop].
    - apply subseteq_drop. }
  destruct Hsub as (S1 & S2 & S3).
  destruct (requestInputs_ok (explicitRange c) 0 S1) as (c1 & E1 & A1 & B1); [lia|].
  destruct (requestInputs_ok (implicitRange c) (numExplicitInputs c) S2) as (c2 & E2 & A2 & B2).
  { unfold implicitRange. rewrite length_take, length_drop. lia. }
  destruct (followInputs_ok (orderOnlyRange c) S3) as (c3 & E3 & A3 & B3).
  change (Z.of_nat 0) with 0 in E1. rewrite E1. cbn [obind]. rewrite He, E2. cbn [obind]. rewrite E3. cbn [obind].
  eexists. split; [reflexivity|]. split; [by rewrite !Forall_app|]. unfold requests in *. rewrite !omap_app, B3, app_nil_r. by apply Forall_app.
Qed.
End Requests.

(** ** The callbacks *)

Section Safe.
Context (options : Options) (hash_value : chars -> Z) (hash_range : forall s, range 64 (hash_value s)) (workingDirectory : chars)
  (statusLinePrefix : BuildContext -> outcome chars).
Context (absolute : is_absolute workingDirectory = true)
  (described : quiet options = true \/ forall x, is_ok (statusLinePrefix x) = true).

(** What the system may answer: no dependency file ends in a backslash. *)
Record answers_ok (sys : Sys) : Prop := {
  ao_sys : sys_ok sys;
  ao_deps : forall p contents, readFileContents sys p = inl contents -> terminated contents }.

(** [m] returns from [x], leaving the manifest alone, with a result that satisfies [Q]. *)
Definition returns {A} (k : B A) (x : BuildContext) (Q : A -> Prop) : Prop :=
  exists a x', k x = Ok (a, x') /\ manifest x' = manifest x /\ Q a.

Lemma returns_ret {A} (a : A) x (Q : A -> Prop) : Q a -> returns (ret a) x Q.
Proof. intros H. by exists a, x. Qed.
Lemma returns_bind {A C} (k : B A) (f : A -> B C) x P (Q : C -> Prop) :
  returns k x P -> (forall a x', manifest x' = manifest x -> P a -> returns (f a) x' Q) -> returns (bind k f) x Q.
Proof.
  intros (a & x1 & E1 & M1 & Ha) Hf. destruct (Hf a x1 M1 Ha) as (b & x2 & E2 & M2 & Hb). exists b, x2.
  rewrite (bind_ok _ _ _ _ _ E1). split; [done|]. split; [congruence|done].
Qed.
Lemma returns_lift {A} (o : outcome A) a x (Q : A -> Prop) : o = Ok a -> Q a -> returns (lift o) x Q.
Proof. intros -> H. by exists a, x. Qed.
Lemma returns_modify f x : (forall y, manifest (f y) = manifest y) -> returns (modify f) x (fun _ => True).
Proof. intros H. by eexists tt, _. Qed.
Lemma returns_gets {A} (f : BuildContext -> A) x (Q : A -> Prop) : Q (f x) -> returns (gets f) x Q.
Proof. intros H. by exists (f x), x. Qed.
Lemma returns_mono {A} (k : B A) x (P Q : A -> Prop) : returns k x P -> (forall a, P a -> Q a) -> returns k x Q.
Proof. intros (a & x' & E & M & H) HQ. exists a, x'. auto. Qed.
Lemma returns_mapM {A} (f : A -> B unit) l x : (forall a y, a ∈ l -> manifest y = manifest x -> returns (f a) y (fun _ => True)) ->
  returns (mapM_ f l) x (fun _ => True).
Proof.
  revert x. induction l as [|a l IH]; intros x H; [by apply returns_ret|]. cbn [mapM_]. eapply returns_bind; [apply H; [by left|done]|].
  intros [] y My _. apply IH. intros b z Hb Mz. apply H; [by right|congruence].
Qed.

Lemma emitError_returns message x : returns (emitError message) x (fun _ => True).
Proof. by eexists tt, _. Qed.
Lemma increment_returns x : returns (incrementFailedCommands options) x (fun _ => True).
Proof. destruct (incrementFailed_ok options x) as (x' & E & M & _). by exists tt, x'. Qed.
Lemma describe_returns c x : returns (writeDescription options statusLinePrefix c) x (fun _ => True) \/ quiet options = true.
Proof.
  destruct described as [Hq|Hp]; [by right|]. left. unfold writeDescription. eapply returns_bind; [by apply returns_modify|]. intros [] y _ _.
  apply (returns_bind _ _ _ (fun _ => True)); [by exists y, y|]. intros z y' _ _. specialize (Hp z). destruct (statusLinePrefix z) as [p|] eqn:E; [|done].
  eapply returns_bind; [by eapply (returns_lift _ _ _ (fun _ => True))|]. intros p' y2 _ _.
  eapply returns_bind; [by apply returns_modify|]. intros [] y3 _ _. destruct (isConsole c); [by apply returns_modify|by apply returns_ret].
Qed.

(** *** Values *)
Section Rule.
Context (m : Manifest) (commands_fine : Forall (command_ok m) (commands m)) (fit : Forall outputs_fit (commands m)).

Lemma produces_skipped r : match r with Some (NinjaBuildCommandRule _) | Some (NinjaCompositeResultRule _ _ _) => True | _ => False end ->
  produces r makeSkippedCommand /\ produces r makeFailedCommand.
Proof. intros Hr. split; (split; [apply valid_new|]); destruct r as [[]|]; try done; left; [right|right|left|left]; done. Qed.
Lemma typed_value r v : produces r v -> exists bs, toValue v = Ok bs /\ typed r bs.
Proof. intros Hp. destruct (value_stored v 0 (proj1 Hp)) as (bs & E & _). exists bs. split; [done|]. by exists v. Qed.

Lemma result_typed m' sys c : grown m m' -> c ∈ commands m -> answers_ok sys ->
  exists v bs, computeCommandResult sys m' c (hash_value (commandString c)) = Ok v /\ toValue v = Ok bs
    /\ success_of v (outInfos sys m' c) (hash_value (commandString c)) /\ typed (Some (NinjaBuildCommandRule c)) bs.
Proof.
  intros Hg Hc [Hs _]. pose proof (proj1 (Forall_forall _ _) commands_fine c Hc) as Hok. pose proof (proj1 (Forall_forall _ _) fit c Hc) as Hfit.
  destruct (result_ok sys m' c (hash_value (commandString c))) as (E & Hv & Hsuc);
    [by eapply manifest_grown_command|done|done|done|].
  assert (Hp : produces (Some (NinjaBuildCommandRule c)) (resultOf sys m' c (hash_value (commandString c)))).
  { split; [done|]. right. eexists _, _. split; [apply outInfos_length|exact Hsuc]. }
  destruct (typed_value _ _ Hp) as (bs & Eb & Ht). by exists (resultOf sys m' c (hash_value (commandString c))), bs.
Qed.

(** *** Jobs *)

(** A completion of the task of [r]. *)
Definition completes (r : NinjaRule) (calls : list TaskCall) : Prop :=
  exists ds bs force, calls = ds ++ [CallComplete bs force] /\ Forall is_discovery ds /\ typed (Some r) bs.

Lemma depsActions_returns path l x : returns (depsActions workingDirectory path l) x (fun r => Forall is_discovery r.1).
Proof.
  revert x. induction l as [|a l IH]; intros x; [by apply returns_ret; constructor|]. destruct a as [n u|d word| |msg pos]; cbn [depsActions]; auto.
  - destruct (normalize_some workingDirectory word absolute) as (q & Eq & _).
    eapply returns_bind; [by eapply (returns_lift _ (Some q) _ (eq (Some q)))|]. intros p y _ <-.
    eapply returns_bind; [apply IH|]. intros r z _ Hr. apply returns_ret. by constructor.
  - eapply returns_bind; [apply emitError_returns|]. intros [] y _ _. eapply returns_bind; [apply IH|]. intros r z _ Hr. by apply returns_ret.
Qed.

Lemma discovered_returns sys c x : answers_ok sys ->
  returns (processDiscoveredDependencies options workingDirectory sys c) x (fun r => Forall is_discovery r.1).
Proof.
  intros [_ Hd]. unfold processDiscoveredDependencies. destruct (depsStyle c); [by apply returns_ret; constructor| |].
  - destruct (readFileContents sys (depsFile c)) as [contents|error] eqn:E.
    + assert (Hl : exists l, MakefileDeps.parse false contents = Ok l) by (apply parseRules_total; [lia|by eapply Hd]). destruct Hl as [l El].
      eapply returns_bind; [by eapply (returns_lift _ l _ (fun _ => True))|]. intros l' y _ _.
      eapply returns_bind; [apply depsActions_returns|]. intros r z _ Hr. by apply returns_ret.
    + destruct (negb (strict options)); [by apply returns_ret; constructor|]. eapply returns_bind; [apply emitError_returns|].
      intros [] y _ _. apply returns_ret. constructor.
  - eapply returns_bind; [apply emitError_returns|]. intros [] y _ _. apply returns_ret. constructor.
Qed.

Lemma completed_returns sys result c x : grown m (manifest x) -> c ∈ commands m -> answers_ok sys ->
  returns (processCompleted options hash_value workingDirectory sys result c) x (completes (NinjaBuildCommandRule c)).
Proof.
  intros Hg Hc Hs. destruct (produces_skipped (Some (NinjaBuildCommandRule c)) I) as [_ Hf].
  destruct (typed_value _ _ Hf) as (fb & Ef & Tf).
  unfold processCompleted. destruct (decide _).
  - eapply returns_bind; [by apply discovered_returns|]. intros [ds ok] y My Hds. cbn [fst snd] in *. destruct (negb ok).
    + eapply returns_bind; [apply increment_returns|]. intros [] z _ _.
      eapply returns_bind; [by eapply (returns_lift _ fb _ (eq fb))|]. intros ? ? _ <-. apply returns_ret. by exists ds, fb, true.
    + eapply returns_bind; [by apply (returns_gets _ _ (fun a => a = manifest y))|]. intros m' z Mz ->. rewrite My.
      destruct (result_typed (manifest x) sys c Hg Hc Hs) as (v & bs & Ev & Eb & _ & Ht).
      eapply returns_bind; [by eapply (returns_lift _ v _ (eq v))|]. intros ? z1 _ <-.
      apply (returns_bind _ _ _ (fun _ => True)); [destruct (rspFile c); [by apply returns_ret|by apply returns_modify]|]. intros [] z2 _ _.
      eapply returns_bind; [by eapply (returns_lift _ bs _ (eq bs))|]. intros ? ? _ <-. apply returns_ret. by exists ds, bs, (negb (shouldRestat c)).
  - eapply returns_bind; [by eapply (returns_lift _ fb _ (eq fb))|]. intros ? ? _ <-. apply returns_ret. by exists [], fb, true.
Qed.

(** The job completes its task with a value of its type, at once or when its process did. *)
Definition job_safe (r : NinjaRule) (t : CommandTask) : Prop :=
  forall sys x, answers_ok sys -> grown m (manifest x) ->
  returns (executeCommand options statusLinePrefix sys t) x (fun e =>
    match e with
    | CompleteNow bs _ => typed (Some r) bs
    | Spawn args _ => exists line, args = [chars_of "/bin/sh"; chars_of "-c"; line]
        /\ forall sys' x' result, answers_ok sys' -> grown m (manifest x') ->
             returns (processCompleted options hash_value workingDirectory sys' result (command t)) x' (completes r)
    end).

Lemma execute_returns t c : command t = c -> c ∈ commands m -> job_safe (NinjaBuildCommandRule c) t.
Proof.
  intros Ht Hc sys x Hs Hg. destruct (produces_skipped (Some (NinjaBuildCommandRule c)) I) as [Hk _].
  destruct (typed_value _ _ Hk) as (sb & Esb & Tsb). unfold executeCommand. rewrite Ht.
  assert (Hnow : forall y, returns (completeNow makeSkippedCommand false) y (fun e => e = CompleteNow sb false)).
  { intros y. unfold completeNow. eapply returns_bind; [by eapply (returns_lift _ sb _ (eq sb))|]. intros ? ? _ <-. by apply returns_ret. }
  eapply returns_bind; [by apply (returns_gets _ _ (fun _ => True))|]. intros cancelled y My _. destruct cancelled.
  { eapply returns_mono; [apply Hnow|]. by intros e ->. }
  apply (returns_bind _ _ _ (fun _ => True)).
  { pose proof (describe_returns c y) as Hd. destruct (quiet options); [by apply returns_ret|]. destruct (isConsole c); [|by apply returns_modify].
    by destruct Hd. }
  intros [] y1 M1 _. pose proof (proj1 (Forall_forall _ _) commands_fine c Hc) as Hok.
  assert (Hcm : command_ok (manifest y1) c) by (rewrite M1, My; by eapply manifest_grown_command).
  apply (returns_bind _ _ _ (fun _ => True)).
  { apply returns_mapM. intros o z Ho Mz. pose proof (co_outputs _ _ Hcm) as Hall. rewrite Forall_forall in Hall.
    destruct (Hall o Ho) as (i & -> & Hi). unfold createParent. eapply returns_bind; [by apply (returns_gets _ _ (fun a => a = manifest z))|].
    intros mz z1 M2 ->. eapply returns_bind; [by eapply (returns_lift _ i _ (eq i))|]. intros ? z2 _ <-. rewrite Mz.
    destruct (screen_ok _ i Hi) as [p Ep]. eapply returns_bind; [by eapply (returns_lift _ p _ (eq p))|]. intros ? z3 _ <-.
    destruct (ExternalCommand.parent_path p); [by apply returns_ret|by apply returns_modify]. }
  intros [] y2 M2 _. apply (returns_bind _ _ _ (fun _ => True)).
  { unfold makeResponseFile. destruct (rspFile c); [by apply returns_ret|]. destruct (openResponseFile _ _); [by apply returns_ret|].
    eapply returns_bind; [by apply returns_modify|]. intros [] z _ _. by apply returns_ret. }
  intros [error|] y3 M3 _.
  - eapply returns_bind; [apply emitError_returns|]. intros [] z _ _. eapply returns_bind; [apply increment_returns|]. intros [] z' _ _.
    eapply returns_mono; [apply Hnow|]. by intros e ->.
  - apply returns_ret. eexists. split; [reflexivity|]. intros sys' x' result Hs' Hg'. by apply completed_returns.
Qed.

(** *** Handing over values *)

Lemma provideBytes_command sys l : forall t x lv,
  Forall (fun n => (node n < length (nodes (manifest x)))%nat) (inputs (command t)) ->
  Forall2 (fun p pv => p.1 = pv.1 /\ toValue pv.2 = Ok p.2) l lv -> Forall (input_ok (command t)) lv ->
  returns (provideBytes sys l (CommandTaskOf t)) x (fun t' => t' = CommandTaskOf (absorbAll t lv)).
Proof.
  induction l as [|p l IH]; intros t x lv Hin Hl Hlv; apply Forall2_cons_nil_inv_l in Hl || inversion Hl as [|? pv ? lv' [E Eb] Hl']; subst.
  - by apply returns_ret.
  - apply Forall_cons in Hlv as [Hpv Hlv]. cbn [provideBytes taskProvideValue].
    destruct (provide_ok sys pv t x Hin Hpv) as (bytes & x1 & Eb' & E1 & R1).
    assert (bytes = p.2) as -> by congruence. rewrite E. apply (returns_bind _ _ _ (fun t' => t' = CommandTaskOf (absorb t pv.2))).
    + exists (CommandTaskOf (absorb t pv.2)), x1. rewrite (bind_ok _ _ _ _ _ E1). split; [done|]. split; [apply R1|done].
    + intros t' y My ->. change (absorbAll t (pv :: lv')) with (absorbAll (absorb t pv.2) lv'). apply IH; [by rewrite absorb_command, My|done|by rewrite absorb_command].
Qed.

(** The values of a command's inputs, as it takes them. *)
Lemma answers_inputs c calls l : names_apart m -> command_ok m c -> Forall (input_request m c) (requests calls) -> answers m calls l ->
  exists lv, Forall2 (fun p pv => p.1 = pv.1 /\ toValue pv.2 = Ok p.2) l lv /\ Forall (input_ok c) lv.
Proof.
  intros Hna Hc Hreq Hl. pose proof (answers_each m calls l Hl) as Hall. clear Hl.
  induction Hall as [|p l (k & Hk & v & Hp & Ev) _ (lv & H1 & H2)]; [exists []; by split|].
  rewrite Forall_forall in Hreq. destruct (Hreq _ Hk) as (i & n & [= -> Ei] & Hn & Hi).
  exists ((p.1, v) :: lv). split; [by constructor|]. constructor; [|done]. split; cbn.
  - exists i. by split.
  - apply Hp.
  - eapply single_value; [|exact Hp]. unfold path_key. rewrite String.list_ascii_of_string_of_list_ascii. by apply file_rule, (input_node m c).
Qed.

(** ** The theorem *)

(** A rule of the build: made up front, for the targets, or for a file. *)
Inductive build_rule : NinjaRule -> Prop :=
| build_rule_listed k r : (k, r) ∈ allRules m -> build_rule r
| build_rule_targets l : Forall (fun p => exists i, p = pathOf m i /\ (i < length (nodes m))%nat) l -> build_rule (NinjaBuildTargetsRule l)
| build_rule_file m' n : grown m m' -> (n < length (nodes m'))%nat -> build_rule (NinjaInputRule n).

(** The context of a callback on a rule: its manifest has the rule's nodes. *)
Definition context_for (r : NinjaRule) (m' : Manifest) : Prop :=
  grown m m' /\ match r with NinjaInputRule n => (n < length (nodes m'))%nat | _ => True end.

Definition ready_safe (r : NinjaRule) (t : NinjaTask) (ready : Ready) : Prop :=
  match ready with
  | Complete bs _ => typed (Some r) bs
  | AddJob _ => exists c, t = CommandTaskOf c /\ job_safe r c
  end.

(** What is proved of a rule. *)
Record rule_safe (r : NinjaRule) : Prop := {
  safe_start m' : context_for r m' -> exists calls, taskStart options m' (createTask r) = Ok calls /\ Forall is_request calls;
  safe_run m' calls prior l sys sys0 x : context_for r m' -> taskStart options m' (createTask r) = Ok calls ->
    (forall bs, prior = Some bs -> typed (Some r) bs) -> answers m calls l -> answers_ok sys ->
    context_for r (manifest x) -> exists t,
    match prior with None => Ok (createTask r) | Some bs => taskProvidePriorValue sys0 bs (createTask r) end = Ok t
    /\ returns (provideBytes sys0 l t) x (fun t' => forall x', context_for r (manifest x') ->
         returns (taskInputsAvailable options hash_value statusLinePrefix sys t') x' (ready_safe r t'));
  safe_valid sys m' bs : context_for r m' -> typed (Some r) bs -> exists b, isResultValid options hash_value sys m' r bs = Ok b }.

Lemma provideBytes_other sys l t x : (forall p y, p ∈ l -> returns (taskProvideValue sys p.1 p.2 t) y (eq t)) ->
  returns (provideBytes sys l t) x (eq t).
Proof.
  revert x. induction l as [|p l IH]; intros x H; [by apply returns_ret|]. cbn [provideBytes].
  eapply returns_bind; [apply H; by left|]. intros ? y _ <-. apply IH. intros q z Hq. apply H. by right.
Qed.

Lemma readyOf_returns o bytes force r x t v : o = Ok (bytes, force) -> toValue v = Ok bytes -> produces (Some r) v ->
  returns (readyOf o) x (ready_safe r t).
Proof.
  intros -> Ev Hp. unfold readyOf. eapply returns_bind; [by eapply (returns_lift _ _ _ (eq _))|]. intros ? y _ <-. apply returns_ret. by exists v.
Qed.

(** *** Commands *)
Lemma grown_request m' c q : grown m m' -> command_ok m c -> input_request m' c q -> input_request m c q.
Proof.
  intros Hg Hc (i & n & -> & Hn & Hi). exists i, n. split; [|done]. by rewrite (grown_path m m' _ Hg (input_node m c Hc n Hn)).
Qed.

(** The decision of a command is a completion of its type, or its job. *)
Lemma decides_safe c m' prior l cancelled r sys t : grown m m' -> c ∈ commands m -> answers_ok sys -> command t = c ->
  decides options hash_value sys m' c prior l cancelled r -> ready_safe (NinjaBuildCommandRule c) (CommandTaskOf t) r.
Proof.
  intros Hg Hc Hs Ht H. destruct (produces_skipped (Some (NinjaBuildCommandRule c)) I) as [Hk _].
  pose proof (proj1 (Forall_forall _ _) commands_fine c Hc) as Hok. pose proof (proj1 (Forall_forall _ _) fit c Hc) as Hfit.
  assert (Hres : produces (Some (NinjaBuildCommandRule c)) (result hash_value sys m' c)).
  { destruct (result_ok sys m' c (commandHash_ hash_value c)) as (_ & Hv & Hsuc); [by eapply manifest_grown_command|done|apply Hs|apply hash_range|].
    split; [done|]. right. eexists _, _. split; [apply outInfos_length|exact Hsuc]. }
  destruct H as [bs _ E|bs _ _ E|bs _ _ _ E|bs _ _ _ _ E|_ _ _ _ _]; cbn.
  1,4: by exists makeSkippedCommand.
  1,2: by eexists.
  exists t. split; [done|]. by apply execute_returns.
Qed.

Lemma command_safe c : names_apart m -> c ∈ commands m -> rule_safe (NinjaBuildCommandRule c).
Proof.
  intros Hna Hc. pose proof (proj1 (Forall_forall _ _) commands_fine c Hc) as Hok. pose proof (proj1 (Forall_forall _ _) fit c Hc) as Hfit.
  split.
  - intros m' [Hg _]. destruct (start_ok options m' c (manifest_grown_command _ _ _ Hg Hok)) as (calls & E & H & _). by exists calls.
  - intros m' calls prior l sys sys0 x [Hg _] Ecalls Hprior Hl Hs [Hgx _].
    destruct (start_ok options m' c (manifest_grown_command _ _ _ Hg Hok)) as (calls' & E & _ & Hreq). cbn in Ecalls. rewrite E in Ecalls. injection Ecalls as ->.
    assert (Hreq' : Forall (input_request m c) (requests calls)) by (eapply Forall_impl; [exact Hreq|]; intros q; by apply grown_request).
    destruct (answers_inputs c calls l Hna Hok Hreq' Hl) as (lv & Hlv & Hin).
    assert (Hpv : exists pv, (forall v, pv = Some v -> valid_value v)
      /\ match prior with None => Ok (createTask (NinjaBuildCommandRule c)) | Some bs => taskProvidePriorValue sys0 bs (createTask (NinjaBuildCommandRule c)) end
         = Ok (CommandTaskOf (withPrior pv (newTask c)))).
    { destruct prior as [bs|]; [|by exists None]. destruct (Hprior bs eq_refl) as (v & [Hv _] & Ev). exists (Some v).
      split; [by intros ? [= <-]|]. pose proof (prepared_ok sys0 c (Some v)) as Ep. cbn [preparedTask] in Ep. rewrite Ev in Ep. cbn [obind] in Ep.
      cbn [createTask taskProvidePriorValue]. by rewrite Ep by by intros ? [= <-]. }
    destruct Hpv as (pv & Hpv & Et). exists (CommandTaskOf (withPrior pv (newTask c))). split; [exact Et|].
    assert (Hcmd : command (withPrior pv (newTask c)) = c) by apply withPrior_other.
    eapply returns_mono.
    + apply (provideBytes_command sys0 l (withPrior pv (newTask c)) x lv); rewrite ?Hcmd; [|done|done]. eapply Forall_impl; [apply (co_inputs _ _ Hok)|]. cbn. intros n Hn.
      pose proof (grown_length _ _ Hgx). lia.
    + intros t' -> x' [Hg' _]. cbn [taskInputsAvailable]. change (absorbAll _ lv) with (task c pv lv).
      destruct (inputsAvailable_ok options hash_value hash_range statusLinePrefix sys (ao_sys _ Hs) (manifest x') c pv lv x' eq_refl) as (r & x'' & E' & M' & Hd & _);
        [by eapply manifest_grown_command|done|done|].
      exists r, x''. split; [done|]. split; [done|]. eapply decides_safe; [exact Hg'|done|done|apply task_command|exact Hd].
  - intros sys m' bs [Hg _] (v & [Hv Hp] & Eb). cbn [isResultValid]. destruct (simulate options); [by exists true|].
    unfold buildCommandIsResultValid. destruct (value_stored v (newAddress sys) Hv) as (bs' & Eb' & Ev & _). assert (bs' = bs) as -> by congruence.
    rewrite Ev. cbn [obind]. destruct Hp as [[-> | ->]|(infos & h & Hl & Hsuc)]; [by exists false..|].
    apply (success_moved (newAddress sys)) in Hsuc. rewrite (so_kind _ _ _ Hsuc), (so_hash _ _ _ Hsuc). cbn [negb obind].
    pose proof (unchanged_spec _ _ _ Hsuc sys m' (outputs c) 0) as Hu. change (Z.of_nat 0) with 0 in Hu.
    rewrite Hu by (apply (co_outputs _ _ (manifest_grown_command _ _ _ Hg Hok)) || done).
    destruct (isGenerator c); cbn [obind]; [by eexists|]. destruct (_ =? _); by eexists.
Qed.

(** *** Selections *)

(** One of several outputs of a stored value. *)
Lemma nth_valid v infos h i f : valid_value v -> success_of v infos h -> (1 < length infos)%nat -> infos !! i = Some f ->
  valid_info f /\ range 64 h /\ hasMultipleOutputs v = true.
Proof.
  intros Hv [Hk Hh Hn Hi] Hl Ei. specialize (Hi _ _ Ei).
  assert (Hnum : numOutputInfos v = Z.of_nat (length infos)) by (unfold getNumOutputs, checkKind in Hn; rewrite Hk, orb_true_r in Hn; by injection Hn).
  assert (Hm : hasMultipleOutputs v = true) by (apply Z.ltb_lt; lia).
  split; [|split; [|done]].
  - unfold getNthOutputInfo in Hi. rewrite Hn in Hi. cbn [obind] in Hi. rewrite Hm in Hi. destruct (check _ _); [|done]. cbn [obind] in Hi.
    pose proof (vv_data v Hv) as Hd. destruct (valueData v) as [f'|addr l]; [done|]. destruct Hd as (_ & Hall & _).
    destruct (l !! Z.to_nat (Z.of_nat i)) as [f'|] eqn:E; [|done]. injection Hi as ->. rewrite Forall_lookup in Hall. by eapply Hall.
  - unfold getCommandHash in Hh. rewrite Hk in Hh. injection Hh as <-. apply Hv.
Qed.

Lemma select_safe c i p : names_apart m -> c ∈ commands m -> composite c -> outPaths m c !! i = Some p ->
  rule_safe (NinjaCompositeResultRule c (Z.of_nat i) (compositeName m c)).
Proof.
  intros Hna Hc Hcomp Hi. set (r := NinjaCompositeResultRule c (Z.of_nat i) (compositeName m c)).
  pose proof (proj1 (Forall_forall _ _) commands_fine c Hc) as Hok. split.
  - intros m' _. eexists. split; [reflexivity|]. by repeat constructor.
  - intros m' calls prior l sys sys0 x _ Ecalls _ Hl Hs _. cbn in Ecalls. injection Ecalls as <-.
    exists (createTask r). split; [by destruct prior|].
    destruct Hl as (order & Hp & H). cbn in Hp. apply Permutation_singleton_r in Hp as ->.
    apply Forall2_cons_inv_l in H as ([id bytes] & l' & [Eid Ht] & Hl' & ->). apply Forall2_nil_inv_l in Hl' as ->. cbn in Eid, Ht. subst id.
    unfold typed_key, path_key in Ht. rewrite String.list_ascii_of_string_of_list_ascii in Ht.
    rewrite (findRule_unique _ _ _ (na_keys m Hna) (composite_rule m c Hc Hcomp)) in Ht.
    exists (SelectResultTask (Z.of_nat i) (compositeName m c) (Some bytes)), x. split; [done|]. split; [done|].
    intros x' _. cbn [taskInputsAvailable]. destruct Ht as (v & [Hv Hp] & Eb).
    destruct (value_stored v (newAddress sys) Hv) as (bs' & Eb' & Ev & _). assert (bs' = bytes) as -> by congruence.
    destruct (produces_skipped (Some r) I) as [Psk Pf].
    destruct Hp as [[-> | ->]|(infos & h & Hlen & Hsuc)].
    + apply (readyOf_returns _ bytes true _ _ _ makeFailedCommand); [|exact Eb|exact Pf]. cbn [selectInputsAvailable]. rewrite Ev. cbn -[toValue]. by rewrite Eb.
    + apply (readyOf_returns _ bytes true _ _ _ makeSkippedCommand); [|exact Eb|exact Psk]. cbn [selectInputsAvailable]. rewrite Ev. cbn -[toValue]. by rewrite Eb.
    + pose proof (lookup_lt_Some _ _ _ Hi) as Hlt. rewrite (outPaths_length m c) in Hlt.
      destruct (lookup_lt_is_Some_2 infos i) as [f Ef]; [lia|]. destruct (co_numOut _ _ Hok) as [Hn1 Hn2].
      assert (Hl2 : (1 < length infos)%nat) by (unfold composite in Hcomp; lia).
      destruct (nth_valid v infos h i f Hv Hsuc Hl2 Ef) as (Hf & Hh & Hm).
      assert (Pv : produces (Some r) (makeSuccessfulCommand f h)).
      { split; [by apply valid_withInfo|]. right. exists f, h. apply success_one. }
      destruct (value_stored _ 0 (proj1 Pv)) as (fb & Efb & _).
      assert (Hsel : selectInputsAvailable sys (Z.of_nat i) (Some bytes) = Ok (fb, false)).
      { pose proof (success_moved (newAddress sys) _ _ _ Hsuc) as [K1 K2 K3 K4]. cbn [selectInputsAvailable]. rewrite Ev. cbn [obind].
        unfold isFailedCommand, isSkippedCommand. rewrite K1, K2, K3, (K4 _ _ Ef).
        assert (Hks : kind (at_address (newAddress sys) v) = 2) by (unfold isSuccessfulCommand, hasKind in K1; by apply Z.eqb_eq in K1).
        unfold hasKind, hasMultipleOutputs. rewrite at_address_num, Hks. cbn. unfold hasMultipleOutputs in Hm. rewrite Hm. cbn.
        replace (Z.of_nat i <? _) with true by (symmetry; apply Z.ltb_lt; lia). cbn. by rewrite Efb. }
      by apply (readyOf_returns _ fb false _ _ _ (makeSuccessfulCommand f h)).
  - intros sys m' bs _ (v & [Hv Hp] & Eb). unfold r. cbn [isResultValid]. destruct (simulate options); [by exists true|].
    unfold selectCompositeIsResultValid. destruct (value_stored v (newAddress sys) Hv) as (bs' & Eb' & Ev & _). assert (bs' = bs) as -> by congruence.
    rewrite Ev. cbn [obind]. destruct Hp as [[-> | ->]|(info & h & Hsuc)]; [by exists false..|].
    apply (success_moved (newAddress sys)) in Hsuc. rewrite (so_kind _ _ _ Hsuc), (so_hash _ _ _ Hsuc). by eexists.
Qed.

(** *** Files *)
Lemma info_produces sys p : answers_ok sys ->
  produces None (if isMissing (getInfoForPath sys p) then makeMissingInput else makeExistingInput (getInfoForPath sys p)).
Proof.
  intros [Hs _]. destruct (isMissing _); (split; [|by (left + right)]); [apply valid_new|]. apply valid_withInfo; [apply Hs|done].
Qed.

Lemma file_safe n : rule_safe (NinjaInputRule n).
Proof.
  split.
  - intros m' _. by exists [].
  - intros m' calls prior l sys sys0 x _ Ecalls _ Hl Hs _. injection Ecalls as <-. exists (InputTask n). split; [by destruct prior|].
    destruct Hl as (order & Hp & H). apply Permutation_nil_r in Hp as ->. apply Forall2_nil_inv_l in H as ->.
    exists (InputTask n), x. split; [done|]. split; [done|]. intros x' [_ Hn]. cbn [taskInputsAvailable].
    eapply returns_bind; [by apply (returns_gets _ _ (fun a => a = manifest x'))|]. intros ? y My ->.
    unfold inputInputsAvailable. rewrite (canonical_ok _ _ Hn). cbn [obind].
    set (v := if simulate options then makeExistingInput zeroFileInfo
      else if isMissing (getInfoForPath sys (pathOf (manifest x') n)) then makeMissingInput else makeExistingInput (getInfoForPath sys (pathOf (manifest x') n))).
    assert (Pv : produces (Some (NinjaInputRule n)) v).
    { unfold v. destruct (simulate options); [|by apply info_produces]. split; [by apply valid_withInfo|by right]. }
    destruct (typed_value _ _ Pv) as (bs & Ebs & _).
    apply (readyOf_returns _ bs false _ _ _ v); [|exact Ebs|exact Pv]. unfold v in Ebs. destruct (simulate options); by rewrite Ebs.
  - intros sys m' bs [_ Hn] (v & [Hv Hp] & Eb). cbn [isResultValid]. destruct (simulate options); [by exists true|].
    unfold buildInputIsResultValid. destruct (value_stored v (newAddress sys) Hv) as (bs' & Eb' & Ev & _). assert (bs' = bs) as -> by congruence.
    rewrite Ev. cbn [obind]. destruct Hp as [-> |[Hp Hm]]; [by exists false|]. rewrite (at_address_single _ _ Hm Hv), Hp. cbn [negb].
    rewrite (canonical_ok _ _ Hn). cbn [obind]. destruct (isMissing _); [by exists false|].
    rewrite infoOf_ok by (unfold usable; rewrite ?Hp; done). by eexists.
Qed.

(** *** Targets *)
Lemma targets_requests l : requests (targetsStart l) = imap (fun id p => (path_key p, Z.of_nat id)) l.
Proof.
  assert (H : forall f : nat -> Z, omap requestOf (imap (fun id p => CallRequest (path_key p) (f id)) l) = imap (fun id p => (path_key p, f id)) l).
  { induction l as [|p l IH]; intros f; [done|]. cbn. f_equal. apply (IH (f ∘ S)). }
  apply (H Z.of_nat).
Qed.

Lemma targets_safe l : rule_safe (NinjaBuildTargetsRule l).
Proof.
  split.
  - intros m' _. eexists. split; [reflexivity|]. apply Forall_lookup. intros i c. unfold targetsStart. rewrite list_lookup_imap.
    by destruct (l !! i); intros [= <-].
  - intros m' calls prior l' sys sys0 x _ Ecalls _ Hl Hs _. cbn in Ecalls. injection Ecalls as <-. exists (TargetsTask l). split; [by destruct prior|].
    eapply returns_mono; [apply provideBytes_other|].
    + intros p y Hp. pose proof (answers_each m _ _ Hl) as Hall. rewrite Forall_forall in Hall. destruct (Hall p Hp) as (k & Hk & v & [Hv _] & Ev).
      rewrite targets_requests in Hk. apply elem_of_lookup_imap in Hk as (i & q & [= _ Ei] & Hi). cbn [taskProvideValue].
      apply (returns_bind _ _ _ (fun _ => True)); [|intros [] z _ _; by apply returns_ret]. unfold targetsProvideValue.
      destruct (value_stored v (newAddress sys0) Hv) as (bs' & Eb' & Ef & _). assert (bs' = p.2) as -> by congruence.
      eapply returns_bind; [by eapply (returns_lift _ _ _ (fun _ => True))|]. intros v' z _ _. destruct (isMissingInput v'); [|by apply returns_ret].
      rewrite Ei, Nat2Z.id, Hi. eapply returns_bind; [by apply (returns_ret q _ (fun _ => True))|]. intros ? ? _ _. apply emitError_returns.
    + intros t' <- x' _. cbn [taskInputsAvailable].
      assert (Pv : produces (Some (NinjaBuildTargetsRule l)) (makeSuccessfulCommand zeroFileInfo 0)).
      { split; [by apply valid_withInfo; [apply valid_zero|]|]. exists zeroFileInfo, 0. apply success_one. }
      destruct (typed_value _ _ Pv) as (bs & Ebs & _). apply (readyOf_returns _ bs false _ _ _ (makeSuccessfulCommand zeroFileInfo 0)); [|done..].
      unfold targetsInputsAvailable. by rewrite Ebs.
  - intros sys m' bs _ _. by exists false.
Qed.

(** C25: The tasks of a Ninja build fit together.  Take the commands of a loaded manifest, each
    with fewer than 2^32 outputs, in an absolute working directory, with dependency files
    that do not end in a backslash and a prefix of the status line that can be made or is not
    asked for.  If no rule is registered twice and no file
    has the name of a rule for several outputs ([composite_name_is_a_path]), then the rules made up front succeed, and for
    every rule of the build (of a command, of one output of several, of the targets, of a
    file): its task starts by requesting keys; given the stored value of the last build and
    the values of these keys, which are of the types of their rules, in any order, no
    assertion fails, and the task is completed with a value of the type of its own rule, or a
    job is queued that completes it so, at once or when its process ended in any way; and the
    test whether a stored value is still valid fails no assertion. *)
Theorem ninja_rules_type_safe : names_apart m ->
  createRules m = Ok (allRules m) /\ forall r, build_rule r -> rule_safe r.
Proof.
  intros Hna. split; [by apply createRules_ok|]. intros r [k r' Hr|l Hl|m' n Hg Hn]; [|apply targets_safe|apply file_safe].
  apply allRules_spec in Hr. inversion Hr as [c p Hc Hp|c Hc Hcomp|c i p Hc Hcomp Hi]; subst.
  - by apply command_safe.
  - by apply command_safe.
  - by eapply select_safe.
Qed.
End Rule.
End Safe.

(** ** Distinct names *)

(** A file named like the rule of a command with several outputs stops the program: its value
    is handed to a command, which asserts that it has a single output. *)
Definition clash_manifest : Manifest :=
  let node p := mkNode (chars_of p) (chars_of p) in
  mkManifest [mkScope None ∅ ∅] [node "/w/a"; node "/w/b"; node "/w/a&&/w/b"; node "/w/out"] ∅
    [mkRule (chars_of "phony") ∅; mkRule (chars_of "cc") ∅] [mkPool (chars_of "console") 1] ∅
    [mkCommand 1 [Some 0%nat; Some 1%nat] [] 0 0 2 ∅ None (chars_of "two") [] [] [] [] DepsNone false false;
     mkCommand 1 [Some 3%nat] [mkNodeIn 2 []] 1 0 1 ∅ None (chars_of "one") [] [] [] [] DepsNone false false] [].

Example composite_name_is_a_path :
  match commands clash_manifest with
  | [two; one] =>
      compositeName clash_manifest two = pathOf clash_manifest 2
      /\ start example_options clash_manifest (newTask one) = Ok [CallRequest "/w/a&&/w/b" 0]
      /\ match obind (computeCommandResult example_sys clash_manifest two 5) toValue with
         | Ok bs => provideValue example_sys 0 bs (newTask one) (newContext clash_manifest) = Crash (AssertFailed "!value.hasMultipleOutputs()")
         | Crash _ => False
         end
  | _ => False
  end.
Proof. vm_compute. repeat split; reflexivity. Qed.

(** *** When names are apart

    No ampersand in a path and no file that two commands make are enough. *)
Section Apart.
Context (m : Manifest) (nodes_fine : nodes_ok m) (commands_fine : Forall (command_ok m) (commands m)).
Context (plain_paths : forall i, (i < length (nodes m))%nat -> "&"%char ∉ pathOf m i).

Lemma pathOf_inj i j : (i < length (nodes m))%nat -> (j < length (nodes m))%nat -> pathOf m i = pathOf m j -> i = j.
Proof.
  intros Hi Hj. unfold pathOf. destruct (lookup_lt_is_Some_2 _ _ Hi) as [a Ea], (lookup_lt_is_Some_2 _ _ Hj) as [b Eb].
  rewrite Ea, Eb. cbn. intros E. pose proof (no_node m nodes_fine _ _ Ea) as Ha. pose proof (no_node m nodes_fine _ _ Eb) as Hb. congruence.
Qed.
Lemma outPath_inj o o' : node_in m o -> node_in m o' -> outPath m o = outPath m o' -> o = o'.
Proof. intros (i & -> & Hi) (j & -> & Hj). cbn. intros E. f_equal. by apply pathOf_inj. Qed.
Lemma outPath_plain o : node_in m o -> "&"%char ∉ outPath m o.
Proof. intros (i & -> & Hi). by apply plain_paths. Qed.
Lemma outPath_nonempty o : node_in m o -> outPath m o <> [].
Proof.
  intros (i & -> & Hi). cbn. unfold pathOf. destruct (lookup_lt_is_Some_2 _ _ Hi) as [n E]. rewrite E. cbn. intros H.
  pose proof (no_normal m nodes_fine _ _ E (chars_of "/w")) as Hn. rewrite H in Hn. vm_compute in Hn. discriminate Hn.
Qed.

Lemma joinNames_head ps : forall name, name <> [] -> exists r, joinNames name ps = name ++ r /\ (ps <> [] -> exists r', r = "&"%char :: r').
Proof.
  induction ps as [|p ps IH]; intros name Hne; cbn [joinNames]; [exists []; by rewrite app_nil_r|].
  destruct name as [|c name]; [done|]. destruct (IH ((c :: name) ++ chars_of "&&" ++ p)) as (r & E & _); [done|].
  rewrite app_assoc in E. rewrite E. eexists. split; [by rewrite <- !app_assoc|]. intros _. by eexists.
Qed.

(** The name of a rule for several outputs begins with the first. *)
Lemma compositeName_first c : c ∈ commands m -> composite c -> exists o os r, outputs c = o :: os /\ compositeName m c = outPath m o ++ "&"%char :: r.
Proof.
  intros Hc Hcomp. pose proof (proj1 (Forall_forall _ _) commands_fine c Hc) as Hok. destruct (co_numOut _ _ Hok) as [H1 H2].
  pose proof (co_outputs _ _ Hok) as Ho. unfold composite in Hcomp. unfold compositeName, outPaths.
  destruct (outputs c) as [|o [|o' os]]; [cbn in H2; lia|done|]. apply Forall_cons in Ho as [Ho _]. exists o, (o' :: os). cbn [map joinNames].
  change ([] ++ outPath m o) with (outPath m o).
  destruct (joinNames_head (outPath m o' :: map (outPath m) os) (outPath m o) (outPath_nonempty o Ho)) as (r & E & Hr).
  destruct Hr as [r' ->]; [done|]. exists r'. split; [done|]. exact E.
Qed.

Lemma plain_split (a b r s : chars) : "&"%char ∉ a -> "&"%char ∉ b -> a ++ "&"%char :: r = b ++ "&"%char :: s -> a = b.
Proof.
  revert b. induction a as [|c a IH]; intros [|d b] Ha Hb E; [done| | |].
  - injection E as <- _. exfalso. apply Hb. by left.
  - injection E as -> _. exfalso. apply Ha. by left.
  - injection E as <- E. f_equal. apply IH; [..|exact E]; intros H; [apply Ha|apply Hb]; by right.
Qed.

Definition keysFor (c : Command) : list chars := map fst (rulesFor m c).
Lemma map_fst_imap {A C} (f : nat -> A -> C) (l : list A) : map fst (imap (fun i p => (p, f i p)) l) = l.
Proof. revert f. induction l as [|x l IH]; intros f; [done|]. cbn. f_equal. apply (IH (fun i => f (S i))). Qed.
Lemma keysFor_eq c : keysFor c = if decide (composite c) then compositeName m c :: outPaths m c else outPaths m c.
Proof.
  unfold keysFor, rulesFor, composite. rewrite <- (outPaths_length m c). set (name := compositeName m c).
  destruct (outPaths m c) as [|p [|p' ps]]; try done. cbn [map fst]. rewrite decide_True by done. f_equal.
  apply (map_fst_imap (fun i _ => NinjaCompositeResultRule c (Z.of_nat i) name)).
Qed.

(** A key belongs to the output of a command, or begins with its first output and an ampersand. *)
Definition key_of (o : option nat) (k : chars) : Prop := k = outPath m o \/ exists r, k = outPath m o ++ "&"%char :: r.
Lemma keysFor_spec c k : c ∈ commands m -> k ∈ keysFor c -> exists o, o ∈ outputs c /\ key_of o k.
Proof.
  intros Hc. rewrite keysFor_eq. assert (Ho : k ∈ outPaths m c -> exists o, o ∈ outputs c /\ key_of o k).
  { intros (o & -> & Ho)%list_elem_of_fmap. exists o. split; [done|by left]. }
  case_decide as Hcomp; [|done]. intros [-> |Hk]%elem_of_cons; [|by apply Ho].
  destruct (compositeName_first c Hc Hcomp) as (o & os & r & Eo & E). exists o. split; [rewrite Eo; by left|]. right. by exists r.
Qed.
Lemma key_of_output o o' k : node_in m o -> node_in m o' -> key_of o k -> key_of o' k -> o = o'.
Proof.
  intros Ho Ho' H1 H2. apply outPath_inj; [done..|]. pose proof (outPath_plain o Ho) as P1. pose proof (outPath_plain o' Ho') as P2.
  destruct H1 as [-> |[r ->]], H2 as [H2|[s H2]]; [done| | |by eapply plain_split].
  - exfalso. apply P1. rewrite H2. apply elem_of_app. right. by left.
  - exfalso. apply P2. rewrite <- H2. apply elem_of_app. right. by left.
Qed.
Lemma output_node c o : c ∈ commands m -> o ∈ outputs c -> node_in m o.
Proof. intros Hc Ho. pose proof (co_outputs _ _ (proj1 (Forall_forall _ _) commands_fine c Hc)) as H. rewrite Forall_forall in H. by apply H. Qed.

Lemma keysFor_distinct c : c ∈ commands m -> NoDup (keysFor c).
Proof.
  intros Hc. pose proof (proj1 (Forall_forall _ _) commands_fine c Hc) as Hok.
  assert (Hp : NoDup (outPaths m c)).
  { unfold outPaths. apply NoDup_fmap_2_strong; [|apply (co_distinct _ _ Hok)]. intros o o' Ho Ho'. apply outPath_inj; by eapply output_node. }
  rewrite keysFor_eq. case_decide as Hcomp; [|done]. constructor; [|done]. intros (o & Eo & Ho)%list_elem_of_fmap.
  destruct (compositeName_first c Hc Hcomp) as (o' & os & r & _ & E). apply (outPath_plain o (output_node c o Hc Ho)).
  rewrite <- Eo, E. apply elem_of_app. right. by left.
Qed.

Lemma keys_distinct l : (forall c, c ∈ l -> c ∈ commands m) -> NoDup (concat (map outputs l)) -> NoDup (concat (map keysFor l)).
Proof.
  induction l as [|c l IH]; intros Hl Hd; [constructor|]. cbn [map concat] in *. apply list.NoDup_app in Hd as (_ & Hdis & Hd).
  apply list.NoDup_app. split; [apply keysFor_distinct, Hl; by left|]. split; [|apply IH; [|done]; intros c' Hc'; apply Hl; by right].
  intros k Hk Hk'. apply list_elem_of_In, in_concat in Hk' as (ks & Hks & Hk'). apply in_map_iff in Hks as (c' & <- & Hc').
  apply list_elem_of_In in Hk', Hc'. assert (Hin : c ∈ commands m) by (apply Hl; by left). assert (Hin' : c' ∈ commands m) by (apply Hl; by right).
  destruct (keysFor_spec c k Hin Hk) as (o & Ho & K), (keysFor_spec c' k Hin' Hk') as (o' & Ho' & K').
  assert (o = o') as -> by (eapply key_of_output; [by apply (output_node c)|by apply (output_node c')|done..]).
  apply (Hdis o' Ho). apply list_elem_of_In, in_concat. exists (outputs c'). split; [apply in_map|]; by apply list_elem_of_In.
Qed.

Lemma names_apart_plain : NoDup (concat (map outputs (commands m))) -> names_apart m.
Proof.
  intros Hd. split.
  - unfold allRules. rewrite concat_map, map_map. by apply keys_distinct.
  - intros c i Hc Hcomp Hi E. destruct (compositeName_first c Hc Hcomp) as (o & os & r & _ & En). apply (plain_paths i Hi).
    rewrite E, En. apply elem_of_app. right. by left.
Qed.
End Apart.

(** ** The manifest with one command *)

Definition one_command : Manifest := NinjaLoader.setCommands [example_command] example_manifest.

Lemma one_command_nodes : nodes_ok one_command.
Proof.
  split.
  - intros p i Hi. cbn in Hi. rewrite !lookup_insert_Some, lookup_empty in Hi.
    destruct Hi as [[<- <-]|[_ [[<- <-]|[_ Hi]]]]; [by eexists..|discriminate Hi].
  - intros [|[|i]] n E; [..|discriminate E]; injection E as <-; reflexivity.
  - intros [|[|i]] n E; [..|discriminate E]; injection E as <-; intros wd; vm_compute; reflexivity.
Qed.
Lemma one_command_ok : Forall (command_ok one_command) (commands one_command).
Proof. constructor; [|constructor]. eapply command_ok_grows; [|exact example_command_ok]. by split. Qed.
Lemma one_command_apart : names_apart one_command.
Proof.
  apply names_apart_plain.
  - exact one_command_nodes.
  - exact one_command_ok.
  - intros [|[|i]] Hi; [..|cbn in Hi; lia]; vm_compute; intros H; repeat (apply elem_of_cons in H as [H|H]; [discriminate H|]); by apply elem_of_nil in H.
  - apply NoDup_singleton.
Qed.

Lemma ninja_rules_type_safe_witness :
  createRules one_command = Ok (allRules one_command)
  /\ rule_safe example_options example_hash (chars_of "/w") (fun _ => Ok []) one_command (NinjaBuildCommandRule example_command).
Proof.
  destruct (ninja_rules_type_safe example_options example_hash example_hash_range (chars_of "/w") (fun _ => Ok []) eq_refl) with (m := one_command) as [E H].
  - left. reflexivity.
  - exact one_command_ok.
  - constructor; [exact example_fits|constructor].
  - exact one_command_apart.
  - split; [exact E|]. apply H. apply (build_rule_listed one_command (chars_of "/w/out")). vm_compute. left.
Defined.
