(* ===== verification/NinjaStatus.v ===== *)
(** * The status line of a Ninja build

    [statusLinePrefix] of lib/Commands/NinjaBuildCommand.cpp, which expands the format in
    NINJA_STATUS, and the counts of commands it shows.  What [snprintf] makes of a floating
    point number is a parameter. *)

From Stdlib Require Import ZArith Ascii Lia ZifyBool.
From stdpp Require Import base gmap list strings numbers pretty.
From S2P Require Import Prelude Engine Chars Coding NinjaManifest NinjaBuild.

Local Open Scope Z_scope.

(** ** Counts *)

(** [getNumPossibleMaxCommands]: the conversions to [int] and back wrap around. *)
Definition getNumPossibleMaxCommands (c : BuildContext) : Z :=
  u32 (u32 (numCommandsCompleted c + numCommandsScanning c) - u32 (numCommandsUpToDate c + numCommandsUpdated c)).

(** ** Numbers in escapes *)

(** The value of a character as a digit, in any radix up to 36. *)
Definition charVal (c : ascii) : option Z :=
  let n := Z.of_nat (nat_of_ascii c) in
  if (48 <=? n) && (n <=? 57) then Some (n - 48)
  else if (97 <=? n) && (n <=? 122) then Some (n - 97 + 10)
  else if (65 <=? n) && (n <=? 90) then Some (n - 65 + 10)
  else None.
(** [consumeUnsignedInteger] of the whole of a string. *)
Fixpoint unsignedDigits (radix result : Z) (l : chars) : option Z :=
  match l with
  | [] => Some result
  | c :: l' =>
      match charVal c with
      | Some d => if radix <=? d then None
                  else let r := (result * radix + d) mod 2 ^ 64 in if r / radix <? result then None else unsignedDigits radix r l'
      | None => None
      end
  end.
(** [StringRef::getAsInteger] into a [uint8_t]. *)
Definition getAsUInt8 (radix : Z) (l : chars) : option Z :=
  match l with
  | [] => None
  | _ => match unsignedDigits radix 0 l with Some r => if r mod 2 ^ 8 =? r then Some r else None | None => None end
  end.
Definition charOf (n : Z) : ascii := ascii_of_nat (Z.to_nat n).

(** ** The prefix *)

(** The clock of one call: the milliseconds since the start, and what [snprintf] makes of
    the elapsed seconds and of the rate of so many commands in so many milliseconds. *)
Record Clock := mkClock {
  elapsedMs : Z;
  formatSeconds : Z -> chars;
  formatRate : Z -> Z -> chars }.

(** [snprintf] of a percentage. *)
Definition padLeft (width : nat) (s : chars) : chars := replicate (width - length s) " "%char ++ s.
Definition number (n : Z) : chars := chars_of (pretty n).

Section Prefix.
Context (clock : Clock) (c : BuildContext).

(** The directive after a percent sign. *)
Definition directive (d : ascii) : outcome chars :=
  if Ascii.eqb d "e" then Ok (formatSeconds clock (elapsedMs clock))
  else if Ascii.eqb d "f" then Ok (number (numOutputDescriptions c))
  else if Ascii.eqb d "o" || Ascii.eqb d "c" then Ok (formatRate clock (numOutputDescriptions c) (elapsedMs clock))
  else if Ascii.eqb d "p" then
    if getNumPossibleMaxCommands c =? 0 then Crash (AssertFailed "division by zero")
    else Ok (padLeft 3 (number (u32 (100 * numOutputDescriptions c) / getNumPossibleMaxCommands c)) ++ ["%"%char])
  else if Ascii.eqb d "r" then Ok (number (numCommandsScanning c))
  else if Ascii.eqb d "s" then Ok (number (numCommandsScanning c))
  else if Ascii.eqb d "t" then Ok (number (getNumPossibleMaxCommands c))
  else if Ascii.eqb d "u" then Ok (number (u32 (getNumPossibleMaxCommands c - numOutputDescriptions c)))
  else if Ascii.eqb d "%" then Ok ["%"%char]
  else Ok ["%"%char; d].

(** The character an escape of one letter stands for. *)
Definition escape (d : ascii) : chars :=
  if Ascii.eqb d "a" then ["007"%char]
  else if Ascii.eqb d "b" then ["008"%char]
  else if Ascii.eqb d "e" then ["027"%char]
  else if Ascii.eqb d "f" then ["012"%char]
  else if Ascii.eqb d "n" then [LF]
  else if Ascii.eqb d "r" then [CR]
  else if Ascii.eqb d "t" then [TAB]
  else if Ascii.eqb d "v" then ["011"%char]
  else if Ascii.eqb d BACKSLASH then [BACKSLASH]
  else [BACKSLASH; d].

(** The characters an octal or hexadecimal escape takes from what follows its letter, and
    the character it stands for. *)
Definition octal (rest : chars) : option (nat * Z) :=
  match (if (3 <=? length rest)%nat then getAsUInt8 8 (take 3 rest) else None) with
  | Some n => Some (3%nat, n)
  | None =>
      match (if (2 <=? length rest)%nat then getAsUInt8 8 ("0"%char :: take 2 rest) else None) with
      | Some n => Some (2%nat, n)
      | None => None
      end
  end.
Definition hexadecimal (rest : chars) : option (nat * Z) :=
  match (if (2 <=? length rest)%nat then getAsUInt8 16 (take 2 rest) else None) with
  | Some n => Some (2%nat, n)
  | None => None
  end.

(** The loop; [skip] counts the characters an escape has already taken. *)
Fixpoint expand (skip : nat) (format : chars) : outcome chars :=
  match format with
  | [] => Ok []
  | ch :: format' =>
      match skip with
      | S skip' => expand skip' format'
      | O =>
          if Ascii.eqb ch "%" then
            match format' with
            | [] => Ok [ch]
            | d :: format'' => obind (directive d) (fun s => obind (expand 0 format'') (fun r => Ok (s ++ r)))
            end
          else if Ascii.eqb ch BACKSLASH then
            match format' with
            | [] => Ok [ch]
            | d :: format'' =>
                let taken := if Ascii.eqb d "0" then octal format'' else if Ascii.eqb d "x" then hexadecimal format'' else None in
                match taken with
                | Some (n, code) => obind (expand n format'') (fun r => Ok (charOf code :: r))
                | None => obind (expand 0 format'') (fun r => Ok (escape d ++ r))
                end
            end
          else obind (expand 0 format') (fun r => Ok (ch :: r))
      end
  end.
End Prefix.

Definition statusLinePrefix (options : Options) (clock : Clock) (c : BuildContext) : outcome chars :=
  expand clock c 0 (statusLinePrefixFormat options).

(** ** What is printed *)

Lemma directive_ok clock c d : getNumPossibleMaxCommands c <> 0 -> is_ok (directive clock c d) = true.
Proof.
  intros H. unfold directive. replace (getNumPossibleMaxCommands c =? 0) with false by (symmetry; by apply Z.eqb_neq).
  repeat match goal with |- is_ok (if ?b then _ else _) = true => destruct b; [done|] end. done.
Qed.
Lemma obind_is_ok {A C} (o : outcome A) (f : A -> outcome C) : is_ok o = true -> (forall a, is_ok (f a) = true) -> is_ok (obind o f) = true.
Proof. destruct o; [|done]. intros _ H. apply H. Qed.

Lemma expand_ok clock c : getNumPossibleMaxCommands c <> 0 -> forall format skip, is_ok (expand clock c skip format) = true.
Proof.
  intros H format. induction format as [format IH] using (induction_ltof1 _ length). unfold ltof in IH. intros skip.
  destruct format as [|ch format']; [done|]. cbn [expand]. destruct skip; [|apply IH; cbn; lia].
  destruct (Ascii.eqb ch "%"); [|destruct (Ascii.eqb ch BACKSLASH)].
  - destruct format' as [|d format'']; [done|]. apply obind_is_ok; [by apply directive_ok|]. intros s. apply obind_is_ok; [apply IH; cbn; lia|done].
  - destruct format' as [|d format'']; [done|]. destruct (if Ascii.eqb d "0" then _ else _) as [[n code]|];
      (apply obind_is_ok; [apply IH; cbn; lia|done]).
  - apply obind_is_ok; [apply IH; cbn; lia|done].
Qed.

(** The default format shows the number of the description and of the commands. *)
Example default_status :
  let c := set_counts 3 1 4 (set_numDescriptions 2 (newContext (mkManifest [] [] ∅ [] [] ∅ [] []))) in
  statusLinePrefix (mkOptions false false false false 1 (chars_of "[%f/%t] ")) (mkClock 0 (fun _ => []) (fun _ _ => [])) c
    = Ok (chars_of "[2/6] ").
Proof. vm_compute. reflexivity. Qed.
(** Both ways to write an escape character, one that is no number, and a sign at the end. *)
Example escapes_status :
  let c := newContext (mkManifest [] [] ∅ [] [] ∅ [] []) in
  statusLinePrefix (mkOptions false false false false 1 (chars_of "\0033m\033m\x1bm\08\q%")) (mkClock 0 (fun _ => []) (fun _ _ => [])) c
    = Ok ("027"%char :: "m"%char :: "027"%char :: "m"%char :: "027"%char :: "m"%char :: chars_of "\08\q%").
Proof. vm_compute. reflexivity. Qed.

(** ** The counts of a build

    Each command that is no phony one is scanned, and then found up to date, or completed,
    possibly after it was found newer than its inputs. *)

Inductive Phase := NotSeen | Scanning | Updating | Completed | Updated | UpToDate.
#[export] Instance Phase_eq_dec : EqDecision Phase.
Proof. solve_decision. Defined.

(** The count of the phases that satisfy [f]. *)
Definition total (f : Phase -> bool) (l : list Phase) : Z := foldr (fun p n => (if f p then 1 else 0) + n) 0 l.

Definition isScanned (p : Phase) : bool := bool_decide (p = Scanning \/ p = Updating).
Definition isCompleted (p : Phase) : bool := bool_decide (p = Completed \/ p = Updated \/ p = UpToDate).
Definition isUpdated (p : Phase) : bool := bool_decide (p = Updating \/ p = Updated).
Definition isUpToDate (p : Phase) : bool := bool_decide (p = UpToDate).
(** The commands that are run, or may still be. *)
Definition isShown (p : Phase) : bool := bool_decide (p = Scanning \/ p = Completed).

Section Counts.
Context (commands : list Command) (plain : Forall (fun c => isPhony c = false) commands).

(** [moved p q m]: a command moves from phase [p] to [q] when [m] runs. *)
Inductive moved (c : Command) : Phase -> Phase -> B unit -> Prop :=
| moved_scan : moved c NotSeen Scanning (updateCommandStatus c StatusIsScanning)
| moved_current : moved c Scanning UpToDate (updateCommandStatus c StatusIsUpToDate)
| moved_updated : moved c Scanning Updating (modify (fun x => set_numUpdated (incr (numCommandsUpdated x)) x))
| moved_complete : moved c Scanning Completed (updateCommandStatus c StatusIsComplete)
| moved_complete_updated : moved c Updating Updated (updateCommandStatus c StatusIsComplete).

Inductive counted : list Phase -> BuildContext -> Prop :=
| counted_start m : counted (replicate (length commands) NotSeen) (newContext m)
| counted_other phases x x' : counted phases x -> numCommandsScanning x' = numCommandsScanning x ->
    numCommandsUpToDate x' = numCommandsUpToDate x -> numCommandsCompleted x' = numCommandsCompleted x ->
    numCommandsUpdated x' = numCommandsUpdated x -> counted phases x'
| counted_move phases x i c p q m x' : counted phases x -> commands !! i = Some c -> phases !! i = Some p ->
    moved c p q m -> m x = Ok (tt, x') -> counted (<[i := q]> phases) x'.

Lemma total_cons f p l : total f (p :: l) = (if f p then 1 else 0) + total f l.
Proof. done. Qed.
Lemma total_insert f l : forall i p q, l !! i = Some p ->
  total f (<[i := q]> l) = total f l - (if f p then 1 else 0) + (if f q then 1 else 0).
Proof.
  induction l as [|p' l IH]; intros i p q Hi; [done|]. destruct i as [|i].
  - injection Hi as ->. change (<[0%nat := q]> (p :: l)) with (q :: l). rewrite !total_cons. lia.
  - change (<[S i := q]> (p' :: l)) with (p' :: <[i := q]> l). rewrite !total_cons, (IH i p q Hi). lia.
Qed.
Lemma total_replicate f p n : f p = false -> total f (replicate n p) = 0.
Proof. intros H. induction n; [done|]. cbn [replicate]. by rewrite total_cons, H, IHn. Qed.

Lemma total_range f l : 0 <= total f l <= Z.of_nat (length l).
Proof. unfold total. induction l as [|p l IH]; cbn [foldr length]; [lia|]. destruct (f p); lia. Qed.
Lemma total_positive f l i p : l !! i = Some p -> f p = true -> 0 < total f l.
Proof.
  revert i. induction l as [|p' l IH]; intros i Hi Hf; [done|]. pose proof (total_range f l) as H. rewrite total_cons. destruct i as [|i].
  - injection Hi as ->. rewrite Hf. lia.
  - specialize (IH i Hi Hf). destruct (f p'); lia.
Qed.

(** The counters, modulo their width. *)
Record counts (phases : list Phase) (x : BuildContext) : Prop := {
  cn_length : length phases = length commands;
  cn_scanning : numCommandsScanning x = u32 (total isScanned phases);
  cn_current : numCommandsUpToDate x = u32 (total isUpToDate phases);
  cn_completed : numCommandsCompleted x = u32 (total isCompleted phases);
  cn_updated : numCommandsUpdated x = u32 (total isUpdated phases) }.

Lemma incr_u32 n : incr (u32 n) = u32 (n + 1).
Proof. unfold incr, u32. by rewrite Zplus_mod_idemp_l. Qed.
Lemma decr_u32 n : decr (u32 n) = u32 (n - 1).
Proof. unfold decr, u32. by rewrite Zminus_mod_idemp_l. Qed.

(** Compute which counts a phase belongs to. *)
Ltac phases :=
  repeat match goal with |- context [?f ?p] =>
    match type of (f p) with bool => let v := eval vm_compute in (f p) in change (f p) with v end end; cbv match.

Lemma counted_counts phases x : counted phases x -> counts phases x.
Proof.
  induction 1 as [m|phases x x' _ [L S U C P] ? ? ? ?|phases x i c p q m x' _ [L S U C P] Hc Hp Hm E].
  - constructor; [by rewrite length_replicate|..]; by rewrite total_replicate.
  - constructor; congruence.
  - assert (Hph : isPhony c = false) by (rewrite Forall_lookup in plain; by eapply plain).
    destruct Hm; unfold updateCommandStatus in E; rewrite ?Hph in E; injection E as <-; constructor; rewrite ?length_insert; try done;
      rewrite (total_insert _ _ _ _ _ Hp); cbn [numCommandsScanning numCommandsUpToDate numCommandsCompleted numCommandsUpdated set_counts set_numUpdated];
      rewrite ?S, ?U, ?C, ?P, ?incr_u32, ?decr_u32; f_equal; phases; lia.
Qed.

Lemma total_split l : total isCompleted l + total isScanned l = total isShown l + total isUpToDate l + total isUpdated l.
Proof. induction l as [|p l IH]; [done|]. rewrite !total_cons. destruct p; phases; lia. Qed.

Lemma maxCommands_shown phases x : counted phases x -> getNumPossibleMaxCommands x = u32 (total isShown phases).
Proof.
  intros [L S U C P]%counted_counts. unfold getNumPossibleMaxCommands. rewrite S, U, C, P. unfold u32.
  rewrite <- !Zplus_mod, <- Zminus_mod.
  pose proof (total_split phases). f_equal. lia.
Qed.

(** The status line can always be written.  Whatever the format, whenever the description
    of a command is printed, which was scanned and neither found up to date nor newer than its
    inputs (its output may be printed after it was completed), the prefix is defined: no
    percentage divides by zero.  The number of commands it shows is the number of commands
    that were scanned so far and were run or may still be. *)
Theorem status_line_defined options clock phases x i p :
  counted phases x -> Z.of_nat (length commands) < 2 ^ 32 -> phases !! i = Some p -> isShown p = true ->
  getNumPossibleMaxCommands x = total isShown phases /\ is_ok (statusLinePrefix options clock x) = true.
Proof.
  intros Hx Hn Hi Hp. pose proof (maxCommands_shown _ _ Hx) as E. apply counted_counts in Hx as [L _ _ _ _].
  pose proof (total_range isShown phases). pose proof (total_positive _ _ _ _ Hi Hp).
  assert (Eq : getNumPossibleMaxCommands x = total isShown phases) by (rewrite E; unfold u32; apply Z.mod_small; lia).
  split; [done|]. apply expand_ok. lia.
Qed.
End Counts.

Lemma status_line_defined_witness :
  exists x, updateCommandStatus (mkCommand 1 [] [] 0 0 0 ∅ None [] [] [] [] [] DepsNone false false) StatusIsScanning
      (newContext (mkManifest [] [] ∅ [] [] ∅ [] [])) = Ok (tt, x)
    /\ getNumPossibleMaxCommands x = 1
    /\ is_ok (statusLinePrefix (mkOptions false false false false 1 (chars_of "%p ")) (mkClock 0 (fun _ => []) (fun _ _ => [])) x) = true.
Proof.
  set (c := mkCommand 1 [] [] 0 0 0 ∅ None [] [] [] [] [] DepsNone false false).
  eexists. split; [reflexivity|]. refine (status_line_defined [c] _ _ _ [Scanning] _ 0%nat Scanning _ _ _ _).
  - constructor; [reflexivity|constructor].
  - refine (counted_move [c] [NotSeen] _ 0%nat c NotSeen Scanning _ _ (counted_start [c] _) _ _ (moved_scan c) _); reflexivity.
  - reflexivity.
  - reflexivity.
  - reflexivity.
Defined.
