(* ===== verification/SQLiteBuildDB.v ===== *)
(** * The SQLite build database

    lib/Core/SQLiteBuildDB.cpp, the implementation of [BuildDB] that keeps the results of
    rules in a file.  Keys are numbered in a table [key_names]; the results are rows of
    [rule_results], whose dependencies are a blob of numbers of keys with two flags.  Two
    caches map the numbers of the database to those of the engine (KeyTable.v) and back.

    The statements are modelled by what their SQL text does to the tables.  Every call of
    the library may fail: [script] says which of the following calls fail and with which
    code.  An operation returns [inl] of its result, or [inr] of the error message, which is
    where the code returns [false] after setting [error_out]. *)

From Stdlib Require Import ZArith String Ascii Lia.
From stdpp Require Import base gmap list strings numbers pretty.
From S2P Require Import Prelude DepKeys KeyTable Coding.

Local Open Scope Z_scope.

(** ** The tables *)

(** A row of [rule_results]. *)
Record ResultRow := mkRow {
  row_value : list Z;
  row_signature : Z;
  row_built_at : Z;
  row_computed_at : Z;
  row_start : Z;
  row_end : Z;
  row_dependencies : list Z }.

(** The row of [info], if any; the rows of [key_names] by rowid; [rule_results]. *)
Record InfoRow := mkInfo { version : Z; client_version : Z; iteration : Z }.
Record Tables := mkTables { info : option InfoRow; key_names : list (Z * string); rule_results : gmap Z ResultRow }.
Definition set_iteration (n : Z) (t : Tables) : Tables :=
  mkTables ((fun r => mkInfo (version r) (client_version r) n) <$> info t) (key_names t) (rule_results t).
Definition set_key_names (l : list (Z * string)) (t : Tables) : Tables := mkTables (info t) l (rule_results t).
Definition set_rule_results (m : gmap Z ResultRow) (t : Tables) : Tables := mkTables (info t) (key_names t) m.

(** The file: none, one without tables, or one with them. *)
Inductive File := NoFile | Empty | Schema (t : Tables).

(** The prepared statements, in the order in which [open] prepares them. *)
Inductive Stmt := findKeyIDForKey | findKeyNameForKeyID | insertIntoKeys | insertIntoRuleResults | deleteFromKeys
  | findRuleResult | fastFindRuleResult | selectKeysWithResult.
#[export] Instance Stmt_eq_dec : EqDecision Stmt.
Proof. solve_decision. Defined.
Definition allStatements : list Stmt := [findKeyIDForKey; findKeyNameForKeyID; insertIntoKeys; insertIntoRuleResults; deleteFromKeys;
  findRuleResult; fastFindRuleResult; selectKeysWithResult].

(** A connection: whether [sqlite3_open] failed on it, its statements that are not null, the
    tables within its transaction, and [sqlite3_last_insert_rowid]. *)
Record Connection := mkConnection { broken : bool; statements : list Stmt; transaction : option File; lastRowid : Z }.

(** The results the engine gives and takes.  The times, doubles in the code, are only stored
    and handed back: any type would do. *)
Record Result := mkResult {
  value : list Z;
  signature : Z;
  computedAt : Z;
  builtAt : Z;
  dependencies : DependencyKeyIDs N;
  start_time : Z;
  end_time : Z }.

(** The file, the object, its delegate (the key table of the engine) and the script. *)
Record State := mkState {
  file : File;
  db : option Connection;
  delegate : option KeyTable;
  engineKeyIDs : gmap Z N;
  dbKeyIDs : gmap N Z;
  script : list (option Z) }.
Definition set_file (x : File) (s : State) : State := mkState x (db s) (delegate s) (engineKeyIDs s) (dbKeyIDs s) (script s).
Definition set_db (x : option Connection) (s : State) : State := mkState (file s) x (delegate s) (engineKeyIDs s) (dbKeyIDs s) (script s).
Definition set_delegate (x : option KeyTable) (s : State) : State := mkState (file s) (db s) x (engineKeyIDs s) (dbKeyIDs s) (script s).
Definition set_script (x : list (option Z)) (s : State) : State := mkState (file s) (db s) (delegate s) (engineKeyIDs s) (dbKeyIDs s) x.
(** Both caches map a pair of numbers. *)
Definition cacheIDs (d : Z) (e : N) (s : State) : State :=
  mkState (file s) (db s) (delegate s) (<[d := e]> (engineKeyIDs s)) (<[e := d]> (dbKeyIDs s)) (script s).

(** ** Operations that may fail with an error message *)

Abbreviation DB A := (M State (A + string)).
Definition dret {A} (a : A) : DB A := ret (inl a).
Definition dfail {A} (e : string) : DB A := ret (inr e).
Definition dbind {A B} (m : DB A) (f : A -> DB B) : DB B := r <~ m; match r with inl a => f a | inr e => ret (inr e) end.
Declare Scope db_scope.
Delimit Scope db_scope with db.
Notation "x <- m ;; k" := (dbind m (fun x => k)) (at level 100, m at next level, right associativity) : db_scope.
Notation "m ;; k" := (dbind m (fun _ => k)) (at level 100, right associativity) : db_scope.
Local Open Scope db_scope.
Definition dlift {A} (m : M State A) : DB A := a <~ m; ret (inl a).
Definition doutcome {A} (o : outcome A) : DB A := fun s => match o with Ok a => Ok (inl a, s) | Crash e => Crash e end.

Definition SQLITE_ERROR : Z := 1.
Definition SQLITE_BUSY : Z := 5.
Definition SQLITE_LOCKED : Z := 6.
Definition SQLITE_MISUSE : Z := 21.
Definition SQLITE_DONE : Z := 101.
Definition ENOENT : Z := 2.
Definition quotation : string := String "034"%char EmptyString.

(** The path, the version of the client's values, what to do with other versions, whether
    the library is thread safe; the messages of the library; and what a column of type
    STRING keeps of a text: such a column has numeric affinity, so a text that is a number
    is kept as this number. *)
Record Config := mkConfig {
  path : string;
  clientSchemaVersion : Z;
  recreateOnUnmatchedVersion : bool;
  threadsafe : bool;
  errorMessage : Z -> string;
  text : string -> string }.

(** [int64_t] from [uint64_t]. *)
Definition i64 (v : Z) : Z := (v + 2 ^ 63) mod 2 ^ 64 - 2 ^ 63.

Section Database.
Context (cfg : Config).

Definition currentSchemaVersion : Z := 17.

Definition getCurrentErrorMessage (code : Z) : string :=
  ("error: accessing build database " ++ quotation ++ path cfg ++ quotation ++ ": " ++ errorMessage cfg code
   ++ (if ((code =? SQLITE_BUSY) || (code =? SQLITE_LOCKED))%Z
       then " Possibly there are two concurrent builds running in the same filesystem location." else ""))%string.

(** The result code of the next call, [None] if it succeeds. *)
Definition answer : M State (option Z) := fun s =>
  match script s with [] => Ok (None, s) | r :: rs => Ok (r, set_script rs s) end.
(** A call on the connection: one on which [sqlite3_open] failed refuses everything. *)
Definition call : M State (option Z) := fun s =>
  match db s with Some c => if broken c then Ok (Some SQLITE_MISUSE, s) else answer s | None => Ok (Some SQLITE_MISUSE, s) end.
(** [checkSQLiteResultOKReturnFalse]. *)
Definition checked : DB unit := r <~ call; match r with None => dret tt | Some code => dfail (getCurrentErrorMessage code) end.
Fixpoint checkedTimes (n : nat) : DB unit := match n with O => dret tt | S n' => checked ;; checkedTimes n' end.

(** *** Reading and writing the tables *)

Definition contents (s : State) : File := match db s with Some c => default (file s) (transaction c) | None => file s end.
Definition tables : DB Tables := fun s =>
  match contents s with Schema t => Ok (inl t, s) | _ => Ok (inr (getCurrentErrorMessage SQLITE_ERROR), s) end.
Definition update (t : Tables) : M State unit := modify (fun s =>
  match db s with
  | Some c => match transaction c with
              | Some _ => set_db (Some (mkConnection (broken c) (statements c) (Some (Schema t)) (lastRowid c))) s
              | None => set_file (Schema t) s
              end
  | None => s
  end).
Definition set_rowid (id : Z) : M State unit := modify (fun s =>
  match db s with Some c => set_db (Some (mkConnection (broken c) (statements c) (transaction c) id)) s | None => s end).

(** [sqlite3_reset], [sqlite3_clear_bindings] and [n] bindings on a statement: resetting null
    does nothing, clearing its bindings dereferences it. *)
Definition prepared (st : Stmt) (s : State) : bool :=
  match db s with Some c => bool_decide (st ∈ statements c) | None => false end.
Definition bindings (st : Stmt) (n : nat) : DB unit :=
  p <~ gets (prepared st);
  if p : bool then checkedTimes (2 + n) else fail (UseAfterFree "null sqlite3_stmt").

(** The first row of [key_names] with this key, and the key of a row. *)
Definition findID (key : string) (l : list (Z * string)) : option Z :=
  fst <$> head (filter (fun r => r.2 = text cfg key) l).
Definition findName (id : Z) (l : list (Z * string)) : option string := snd <$> head (filter (fun r => r.1 = id) l).
(** The rowid of a new row: one more than the largest. *)
Definition nextID (l : list (Z * string)) : Z := foldr (fun r n => Z.max (r.1 + 1) n) 1 l.

(** ** Opening and closing *)

Definition newConnection : Connection := mkConnection false [] None 0.

(** [sqlite3_open] creates the file. *)
Definition sqlite3_open : M State (option Z) :=
  r <~ answer;
  match r with
  | None => modify (fun s => set_db (Some newConnection) (match file s with NoFile => set_file Empty s | _ => s end)) ;;; ret None
  | Some code => modify (set_db (Some (mkConnection true [] None 0))) ;;; ret (Some code)
  end.

(** [sqlite3_exec] of the statements in turn, while they succeed. *)
Fixpoint execs (n : nat) : M State (option Z) :=
  match n with
  | O => ret None
  | S n' => r <~ call; match r with None => execs n' | Some code => ret (Some code) end
  end.

(** BEGIN, four statements for the tables [info], [key_names] and [rule_results], the index,
    END; a transaction that fails is rolled back. *)
Definition createSchema : DB unit :=
  r <~ execs 7;
  match r with
  | None => modify (set_file (Schema (mkTables (Some (mkInfo currentSchemaVersion (u32 (clientSchemaVersion cfg)) 0)) [] ∅))) ;;; dret tt
  | Some code => modify (set_db None) ;;; dfail ("unable to initialize database (" ++ errorMessage cfg code ++ ")")%string
  end.

(** The version of the schema and the client's, -1 and 0 without tables. *)
Definition readVersion : DB (Z * Z) :=
  r <~ call;
  match r with
  | Some code => if code =? SQLITE_ERROR then dret (-1, 0) else dfail (getCurrentErrorMessage code)
  | None =>
      f <~ gets contents;
      match f with
      | Schema t =>
          r <~ call;
          match r with
          | Some code => dfail (getCurrentErrorMessage code)
          | None => match info t with Some row => dret (version row, u32 (client_version row)) | None => dret (-1, 0) end
          end
      | _ => dret (-1, 0)
      end
  end.

Definition versionMismatch (v : Z * Z) : string :=
  ("Version mismatch. (database-schema: " ++ pretty v.1 ++ " requested schema: " ++ pretty currentSchemaVersion ++ ". database-client: "
   ++ pretty v.2 ++ " requested client: " ++ pretty (clientSchemaVersion cfg) ++ ")")%string.

(** The database is deleted and made again.  If there was nothing to delete it is not opened
    again, the statements fail on the null pointer without setting [cError], which is read. *)
Definition recreate (v : Z * Z) : DB unit :=
  modify (set_db None) ;;;
  if negb (recreateOnUnmatchedVersion cfg) then dfail (versionMismatch v)
  else
    e <~ answer;
    match e with
    | Some errno =>
        if errno =? ENOENT then fail (OutOfBounds "cError") else dfail ("unable to unlink existing database: " ++ errorMessage cfg errno)%string
    | None =>
        modify (set_file NoFile) ;;;
        r <~ sqlite3_open;
        match r with Some code => dfail (getCurrentErrorMessage code) | None => createSchema end
    end.

Fixpoint prepareAll (l : list Stmt) : DB unit :=
  match l with
  | [] => dret tt
  | st :: l' =>
      checked ;;
      modify (fun s => match db s with
                       | Some c => set_db (Some (mkConnection (broken c) (statements c ++ [st]) (transaction c) (lastRowid c))) s
                       | None => s
                       end) ;;;
      prepareAll l'
  end.

Definition open : DB unit :=
  c <~ gets db;
  match c with
  | Some _ => dret tt
  | None =>
      if negb (threadsafe cfg) then dfail "unable to configure database: not thread-safe"
      else
        r <~ sqlite3_open;
        match r with
        | Some code => dfail ("unable to open database: " ++ errorMessage cfg code)%string
        | None =>
            v <- readVersion;;
            (if (v.1 =? currentSchemaVersion) && (v.2 =? clientSchemaVersion cfg) then dret tt else recreate v) ;;
            prepareAll allStatements
        end
  end.

(** Closing rolls a transaction back. *)
Definition close : M State unit := modify (set_db None).

(** ** The numbers of keys *)

Definition getDelegate : M State KeyTable :=
  d <~ gets delegate; match d with Some t => ret t | None => fail (AssertFailed "delegate != nullptr") end.
(** [delegate->getKeyForID] and [delegate->getKeyID]. *)
Definition keyForID (id : N) : M State string :=
  t <~ getDelegate; match getKeyForID id t with Some k => ret k | None => fail (UseAfterFree "KeyID") end.
Definition internKey (k : string) : M State N :=
  t <~ getDelegate; let r := KeyTable.getKeyID k t in modify (set_delegate (Some r.2)) ;;; ret r.1.

(** A step that fails is taken for one without a row; if the key is there after all, the
    insertion is ignored and leaves the last rowid as it was. *)
Definition getKeyIDFromDB (keyID : N) : DB Z :=
  key <~ keyForID keyID;
  bindings findKeyIDForKey 1 ;;
  r <~ call;
  t <- tables;;
  match r, findID key (key_names t) with
  | None, Some id => dret id
  | _, found =>
      bindings insertIntoKeys 1 ;;
      checked ;;
      (match found with
       | Some _ => ret tt
       | None => let id := nextID (key_names t) in
                 update (set_key_names (key_names t ++ [(id, text cfg key)]) t) ;;; set_rowid id
       end) ;;;
      c <~ gets db;
      match c with Some c => dret (lastRowid c) | None => dfail "" end
  end.

Definition getKeyID (keyID : N) : DB Z :=
  cached <~ gets (fun s => dbKeyIDs s !! keyID);
  match cached with
  | Some d => dret d
  | None =>
      d <- getKeyIDFromDB keyID;;
      (if u64 d =? 0 then ret tt else modify (cacheIDs d keyID)) ;;; dret d
  end.

Definition getKeyIDForID (dbKeyID : Z) : DB N :=
  cached <~ gets (fun s => engineKeyIDs s !! dbKeyID);
  match cached with
  | Some e => dret e
  | None =>
      bindings findKeyNameForKeyID 1 ;;
      r <~ call;
      match r with
      | Some code => dfail (getCurrentErrorMessage code)
      | None =>
          t <- tables;;
          match findName dbKeyID (key_names t) with
          | None => dfail (getCurrentErrorMessage SQLITE_DONE)
          | Some name =>
              e <~ internKey name;
              modify (cacheIDs dbKeyID e) ;;; dret e
          end
      end
  end.

(** ** Results *)

(** The loop over the blob of dependencies, at the [i]-th of [n + i]. *)
Fixpoint loadDependencies (n i : nat) (d : BinaryDecoder) (deps : DependencyKeyIDs N) : DB (DependencyKeyIDs N) :=
  match n with
  | O => dret deps
  | S n' =>
      r <- doutcome (read64 d);;
      let raw := r.1 in
      let orderOnly := negb (Z.land raw 1 =? 0) in
      let singleUse := negb (Z.land (Z.shiftr raw 1) 1 =? 0) in
      keyID <- getKeyIDForID (Z.shiftr raw 2);;
      deps' <- doutcome (deps_set deps i keyID orderOnly singleUse);;
      loadDependencies n' (S i) r.2 deps'
  end.

(** A row as a result. *)
Definition loadRow (dbKeyID : Z) (row : ResultRow) : DB Result :=
  let bytes := row_dependencies row in
  let numDependencies := (length bytes / 8)%nat in
  if negb (length bytes =? numDependencies * 8)%nat then dfail ("unexpected contents for database result: " ++ pretty dbKeyID)%string
  else
    deps <- loadDependencies numDependencies 0 (mkDecoder bytes 0) (deps_resize 0%N numDependencies (mkDeps [] []));;
    dret (mkResult (row_value row) (u64 (row_signature row)) (u64 (row_computed_at row)) (u64 (row_built_at row)) deps
           (row_start row) (row_end row)).

(** The result of a rule, if there is one; [result_out] is what the caller passes to be filled in. *)
Definition lookupRuleResult (keyID : N) (key : string) (result_out : Result) : DB (option Result) :=
  getDelegate ;;;
  ensure (builtAt result_out =? 0) (AssertFailed "result_out->builtAt == 0") ;;;
  open ;;
  cached <~ gets (fun s => dbKeyIDs s !! keyID);
  match cached with
  | Some d =>
      bindings fastFindRuleResult 1 ;;
      checked ;;
      t <- tables;;
      match rule_results t !! d with
      | None => dret None
      | Some row => r <- loadRow d row;; dret (Some r)
      end
  | None =>
      bindings findRuleResult 1 ;;
      checked ;;
      t <- tables;;
      match (d ← findID key (key_names t); row ← rule_results t !! d; Some (d, row)) with
      | None => dret None
      | Some (d, row) => modify (cacheIDs d keyID) ;;; r <- loadRow d row;; dret (Some r)
      end
  end.

(** The blob of the dependencies from the [i]-th on. *)
Fixpoint encodeDependencies (n i : nat) (deps : DependencyKeyIDs N) (encoder : list Z) : DB (list Z) :=
  match n with
  | O => dret encoder
  | S n' =>
      dep <- doutcome (deps_get deps i);;
      d <- getKeyID (dep_key dep);;
      r <- doutcome (write64 (u64 (u64 (Z.shiftl (u64 d) 2) + Z.shiftl (Z.b2z (dep_singleUse dep)) 1 + Z.b2z (dep_orderOnly dep))) encoder);;
      encodeDependencies n' (S i) deps r.2
  end.

Definition setRuleResult (keyID : N) (r : Result) : DB unit :=
  getDelegate ;;;
  open ;;
  d <- getKeyID keyID;;
  encoder <- encodeDependencies (deps_size (dependencies r)) 0 (dependencies r) [];;
  bindings insertIntoRuleResults 8 ;;
  checked ;;
  t <- tables;;
  update (set_rule_results (<[d := mkRow (value r) (i64 (signature r)) (i64 (builtAt r)) (i64 (computedAt r)) (start_time r) (end_time r) encoder]>
                              (rule_results t)) t) ;;;
  dret tt.

(** ** Iterations, transactions *)

Definition attachDelegate (t : KeyTable) : M State unit := modify (set_delegate (Some t)).

Definition getCurrentEpoch : DB Z :=
  open ;; checked ;; checked ;;
  t <- tables;;
  match info t with Some row => dret (u64 (iteration row)) | None => dfail (getCurrentErrorMessage SQLITE_DONE) end.

(** The statement is prepared, bound and stepped. *)
Definition setCurrentIteration (n : Z) : DB unit :=
  open ;; checked ;; checked ;; checked ;;
  t <- tables;;
  update (set_iteration (i64 n) t) ;;; dret tt.

Definition buildStarted : DB unit :=
  open ;; checked ;;
  s <~ get;
  match db s with
  | Some c =>
      match transaction c with
      | Some _ => dfail (getCurrentErrorMessage SQLITE_ERROR)
      | None => modify (set_db (Some (mkConnection (broken c) (statements c) (Some (file s)) (lastRowid c)))) ;;; dret tt
      end
  | None => dfail ""
  end.

Definition buildComplete : M State unit :=
  r <~ call;
  s <~ get;
  match r, db s with
  | None, Some c =>
      match transaction c with
      | Some f => modify (set_file f) ;;; close
      | None => fail (AssertFailed "result == SQLITE_OK")
      end
  | _, _ => fail (AssertFailed "result == SQLITE_OK")
  end.

(** ** All keys *)

(** The loops end with the rows or with a step that fails. *)
Fixpoint stepKeys (rows : list string) : M State (list string) :=
  r <~ call;
  match r, rows with
  | None, k :: rows' => l <~ stepKeys rows'; ret (k :: l)
  | _, _ => ret []
  end.
Definition getKeys : DB (list string) :=
  open ;; checked ;;
  t <- tables;;
  dlift (stepKeys (map snd (key_names t))).

(** The rows of the join, in some order. *)
Definition joined (t : Tables) : list (Z * string * ResultRow) :=
  omap (fun n => row ← rule_results t !! n.1; Some (n.1, n.2, row)) (key_names t).
Fixpoint stepResults (rows : list (Z * string * ResultRow)) : DB (list (string * Result)) :=
  r <~ call;
  match r, rows with
  | None, (d, key, row) :: rows' =>
      e <~ internKey key;
      modify (cacheIDs d e) ;;;
      r <- loadRow d row;;
      l <- stepResults rows';;
      dret ((key, r) :: l)
  | _, _ => dret []
  end.
(** The statement is only reset; stepping a null one ends the loop at once. *)
Definition getKeysWithResult : DB (list (string * Result)) :=
  getDelegate ;;;
  open ;;
  p <~ gets (prepared selectKeysWithResult);
  if negb p then dret []
  else checked ;; t <- tables;; stepResults (joined t).
End Database.
