(* ===== verification/SQLiteProps.v ===== *)
(** * What the SQLite build database keeps

    As long as the library's calls succeed, the database is a map from keys to results that
    survives the process, with builds as transactions. *)

From Stdlib Require Import ZArith String Lia ZifyBool.
From stdpp Require Import base gmap list strings numbers pretty.
From S2P Require Import Prelude DepKeys KeyTable Coding SQLiteBuildDB.

Local Open Scope Z_scope.

(** ** Programs whose calls succeed *)

Lemma runs_dret {A} (a : A) s (Q : A + string -> State -> Prop) : Q (inl a) s -> runs (dret a) s Q.
Proof. apply runs_ret. Qed.
(** [m] returns a result, without an error. *)
Definition gives {A} (m : DB A) (s : State) (Q : A -> State -> Prop) : Prop :=
  runs m s (fun r s' => match r with inl a => Q a s' | inr _ => False end).

Lemma gives_ret {A} (a : A) s (Q : A -> State -> Prop) : Q a s -> gives (dret a) s Q.
Proof. intros H. by apply runs_ret. Qed.
Lemma gives_bind {A B} (m : DB A) (f : A -> DB B) s (P : A -> State -> Prop) Q :
  gives m s P -> (forall a s', P a s' -> gives (f a) s' Q) -> gives (dbind m f) s Q.
Proof. intros Hm Hf. eapply runs_bind; [exact Hm|]. intros [a|e] s' H; [by apply Hf|done]. Qed.
Lemma gives_step {A B} (m : DB A) (f : A -> DB B) s a s' Q : m s = Ok (inl a, s') -> gives (f a) s' Q -> gives (dbind m f) s Q.
Proof. intros E H. eapply runs_step; [exact E|exact H]. Qed.
Lemma gives_mono {A} (m : DB A) s (P Q : A -> State -> Prop) : gives m s P -> (forall a s', P a s' -> Q a s') -> gives m s Q.
Proof. intros H HQ. eapply runs_mono; [exact H|]. intros [a|e] s'; auto. Qed.
Lemma gives_pre {A B} (m : M State A) (f : A -> DB B) s a s' Q : m s = Ok (a, s') -> gives (f a) s' Q -> gives (bind m f) s Q.
Proof. apply runs_step. Qed.

(** ** Names and numbers of keys *)

Definition verbatim (cfg : Config) (k : string) : Prop := text cfg k = k.

Record names_ok (cfg : Config) (l : list (Z * string)) : Prop := {
  na_ids : NoDup (map fst l);
  na_names : NoDup (map snd l);
  na_positive : forall d k, (d, k) ∈ l -> 0 < d;
  na_verbatim : forall d k, (d, k) ∈ l -> verbatim cfg k }.

Lemma name_unique (l : list (Z * string)) d k k' : NoDup (map fst l) -> (d, k) ∈ l -> (d, k') ∈ l -> k = k'.
Proof.
  induction l as [|[d0 k0] l IH]; [by intros _ ?%elem_of_nil|]. cbn. intros [H0 Hl]%NoDup_cons.
  assert (Hin : forall x, (d0, x) ∈ l -> False) by (intros x Hx; apply H0, list_elem_of_fmap; by exists (d0, x)).
  intros [[= -> ->]|H1]%elem_of_cons [[= E1]|H2]%elem_of_cons; subst; try done; [by apply Hin in H2|by apply Hin in H1|by apply IH].
Qed.
Lemma id_unique (l : list (Z * string)) d d' k : NoDup (map snd l) -> (d, k) ∈ l -> (d', k) ∈ l -> d = d'.
Proof.
  induction l as [|[d0 k0] l IH]; [by intros _ ?%elem_of_nil|]. cbn. intros [H0 Hl]%NoDup_cons.
  assert (Hin : forall x, (x, k0) ∈ l -> False) by (intros x Hx; apply H0, list_elem_of_fmap; by exists (x, k0)).
  intros [[= -> ->]|H1]%elem_of_cons [[= E1]|H2]%elem_of_cons; subst; try done; [by apply Hin in H2|by apply Hin in H1|by apply IH].
Qed.

Lemma head_filter {A} (P : A -> Prop) `{!forall x, Decision (P x)} l x : x ∈ l -> P x -> (forall y, y ∈ l -> P y -> y = x) -> head (filter P l) = Some x.
Proof.
  intros Hin HP Hu. assert (Hf : x ∈ filter P l) by (by apply list_elem_of_filter).
  destruct (filter P l) as [|y l'] eqn:E; [by apply elem_of_nil in Hf|]. cbn. f_equal.
  assert (Hy : y ∈ filter P l) by (rewrite E; by left). apply list_elem_of_filter in Hy as [Hy1 Hy2]. by apply Hu.
Qed.
Lemma head_filter_in {A} (P : A -> Prop) `{!forall x, Decision (P x)} l x : head (filter P l) = Some x -> x ∈ l /\ P x.
Proof.
  intros E. assert (Hf : x ∈ filter P l) by (destruct (filter P l); [done|injection E as ->; by left]).
  apply list_elem_of_filter in Hf. tauto.
Qed.

Section Database.
Context (cfg : Config).

Lemma findID_spec l k d : names_ok cfg l -> verbatim cfg k -> findID cfg k l = Some d <-> (d, k) ∈ l.
Proof.
  intros Hl Hk. unfold findID. rewrite Hk. split.
  - intros ([d' k'] & Hin & ->)%fmap_Some. apply head_filter_in in Hin as [Hin E]. by cbn in *; subst.
  - intros Hin. apply fmap_Some. exists (d, k). split; [|done]. apply head_filter; [done..|]. intros [d' k'] Hy E. cbn in E. subst. f_equal.
    eapply id_unique; [apply (na_names _ _ Hl)|done..].
Qed.
Lemma findID_none l k : verbatim cfg k -> findID cfg k l = None -> forall d, (d, k) ∉ l.
Proof.
  unfold findID. intros -> E%fmap_None d Hin. assert (Hf : (d, k) ∈ filter (fun r => r.2 = k) l) by (by apply list_elem_of_filter).
  destruct (filter _ l); [by apply elem_of_nil in Hf|done].
Qed.
Lemma findName_spec l d k : names_ok cfg l -> findName d l = Some k <-> (d, k) ∈ l.
Proof.
  intros Hl. unfold findName. split.
  - intros ([d' k'] & Hin & ->)%fmap_Some. apply head_filter_in in Hin as [Hin E]. by cbn in *; subst.
  - intros Hin. apply fmap_Some. exists (d, k). split; [|done]. apply head_filter; [done..|]. intros [d' k'] Hy E. cbn in E. subst. f_equal.
    eapply name_unique; [apply (na_ids _ _ Hl)|done..].
Qed.

Lemma nextID_cons r l : nextID (r :: l) = Z.max (r.1 + 1) (nextID l).
Proof. done. Qed.
Lemma nextID_above l d k : (d, k) ∈ l -> d < nextID l.
Proof.
  induction l as [|r l IH]; [by intros ?%elem_of_nil|]. rewrite nextID_cons. intros [<-|H]%elem_of_cons; [cbn; lia|]. specialize (IH H). lia.
Qed.
Lemma nextID_positive l : 0 < nextID l.
Proof. induction l; [done|]. rewrite nextID_cons. lia. Qed.
Lemma nextID_app l id k : nextID (l ++ [(id, k)]) = Z.max (nextID l) (id + 1).
Proof.
  induction l as [|r l IH]; [cbn; lia|].
  cbn [app]. rewrite !nextID_cons, IH. lia.
Qed.

Lemma names_add l k : names_ok cfg l -> verbatim cfg k -> (forall d, (d, k) ∉ l) -> names_ok cfg (l ++ [(nextID l, k)]).
Proof.
  intros [H1 H2 H3 H4] Hk Hn. constructor.
  - rewrite map_app. apply list.NoDup_app. split; [done|]. split; [|apply NoDup_singleton]. intros d Hd ->%list_elem_of_singleton.
    apply list_elem_of_fmap in Hd as ([d' k'] & E & Hin). apply nextID_above in Hin. cbn in E. lia.
  - rewrite map_app. apply list.NoDup_app. split; [done|]. split; [|apply NoDup_singleton]. intros x Hx ->%list_elem_of_singleton.
    apply list_elem_of_fmap in Hx as ([d' k'] & E & Hin). cbn in E. subst. by apply (Hn d').
  - intros d x [H|H%list_elem_of_singleton]%elem_of_app; [by eapply H3|]. injection H as -> ->. apply nextID_positive.
  - intros d x [H|H%list_elem_of_singleton]%elem_of_app; [by eapply H4|]. by injection H as -> ->.
Qed.

(** ** The key table of the engine *)

Definition named (kt : KeyTable) (e : N) (k : string) : Prop := getKeyForID e kt = Some k.
Definition table_grows (kt kt' : KeyTable) : Prop := forall e k, named kt e k -> named kt' e k.
Lemma table_grows_refl kt : table_grows kt kt.
Proof. by intros e k. Qed.
Lemma table_grows_trans a b c : table_grows a b -> table_grows b c -> table_grows a c.
Proof. intros H1 H2 e k H. by apply H2, H1. Qed.

Lemma intern_ok kt k : table_ok kt -> exists e kt', KeyTable.getKeyID k kt = (e, kt') /\ table_ok kt' /\ table_grows kt kt' /\ named kt' e k.
Proof.
  intros Hkt. destruct (KeyTable.getKeyID k kt) as [e kt'] eqn:E. exists e, kt'. split; [done|].
  destruct (getKeyID_ok _ _ _ _ Hkt E) as (Hkt' & H1 & H2). split; [done|]. split.
  - intros i x Hi. unfold named, getKeyForID in *. apply (tb_entry _ Hkt'), H2. by apply (tb_entry _ Hkt).
  - by apply (tb_entry _ Hkt').
Qed.

(** ** States *)

(** The object, for tables [t] and key table [kt]: the caches are right. *)
Record inv (t : Tables) (kt : KeyTable) (s : State) : Prop := {
  in_script : script s = [];
  in_delegate : delegate s = Some kt;
  in_table : table_ok kt;
  in_names : names_ok cfg (key_names t);
  in_engine d e : engineKeyIDs s !! d = Some e -> exists k, (d, k) ∈ key_names t /\ named kt e k;
  in_db e d : dbKeyIDs s !! e = Some d -> exists k, (d, k) ∈ key_names t /\ named kt e k }.

(** The connection is open on the tables. *)
Record live (t : Tables) (kt : KeyTable) (s : State) : Prop := {
  lv_inv : inv t kt s;
  lv_conn : exists c, db s = Some c /\ broken c = false /\ statements c = allStatements;
  lv_contents : contents s = Schema t }.

Definition in_build (s : State) : Prop := exists c f, db s = Some c /\ transaction c = Some f.
(** The tables were written: to the file, or to the transaction of the build. *)
Definition written (s : State) (t : Tables) (s' : State) : Prop :=
  (in_build s <-> in_build s') /\ (in_build s -> file s' = file s) /\ (~ in_build s -> file s' = Schema t).

Lemma live_call t kt s : live t kt s -> call s = Ok (None, s).
Proof. intros [[Hs] (c & Ec & Hb & _) _]. unfold call. rewrite Ec, Hb. unfold answer. by rewrite Hs. Qed.
Lemma live_checked t kt s : live t kt s -> checked cfg s = Ok (inl tt, s).
Proof. intros H. unfold checked. by rewrite (bind_ok _ _ _ _ _ (live_call _ _ _ H)). Qed.
Lemma live_checkedTimes t kt s n : live t kt s -> checkedTimes cfg n s = Ok (inl tt, s).
Proof. intros H. induction n as [|n IH]; [done|]. cbn. unfold dbind. by rewrite (bind_ok _ _ _ _ _ (live_checked _ _ _ H)). Qed.
Lemma live_bindings t kt s st n : live t kt s -> bindings cfg st n s = Ok (inl tt, s).
Proof.
  intros H. unfold bindings. unfold bind at 1, gets, prepared. destruct (lv_conn _ _ _ H) as (c & -> & _ & ->).
  rewrite bool_decide_true by (destruct st; set_solver). by apply (live_checkedTimes t kt).
Qed.
Lemma live_tables t kt s : live t kt s -> tables cfg s = Ok (inl t, s).
Proof. intros [_ _ H]. unfold tables. by rewrite H. Qed.
Lemma live_open t kt s : live t kt s -> open cfg s = Ok (inl tt, s).
Proof. intros [_ (c & E & _) _]. unfold open. unfold bind at 1, gets. by rewrite E. Qed.

Lemma written_refl t kt s : live t kt s -> written s t s.
Proof.
  intros [_ (c & Ec & _) H]. split; [done|]. split; [done|]. intros Hb. unfold contents in H. rewrite Ec in H.
  destruct (transaction c) as [f|] eqn:E; [|done]. destruct Hb. by exists c, f.
Qed.
Lemma written_trans s1 t2 s2 t3 s3 : written s1 t2 s2 -> written s2 t3 s3 -> written s1 t3 s3.
Proof. intros (A1 & A2 & A3) (B1 & B2 & B3). split; [by rewrite A1|]. split; intros H; [rewrite B2, A2; tauto|apply B3; tauto]. Qed.

(** The caches change, and the key table grows. *)
Lemma live_cache t kt s d e k : live t kt s -> (d, k) ∈ key_names t -> named kt e k -> live t kt (cacheIDs d e s).
Proof.
  intros [[I1 I2 I3 I4 I5 I6] H2 H3] Hd He. constructor; [constructor; try done|done|done].
  - cbn. intros d' e' [[<- <-]|[_ H]]%lookup_insert_Some; [by exists k|by apply I5].
  - cbn. intros e' d' [[<- <-]|[_ H]]%lookup_insert_Some; [by exists k|by apply I6].
Qed.
Lemma live_intern t kt s k : live t kt s -> exists e kt' s', internKey k s = Ok (e, s') /\ live t kt' s' /\ table_grows kt kt'
  /\ named kt' e k /\ file s' = file s /\ db s' = db s.
Proof.
  intros [[I1 I2 I3 I4 I5 I6] H2 H3]. destruct (intern_ok kt k I3) as (e & kt' & E & Hkt' & Hg & Hn).
  exists e, kt', (set_delegate (Some kt') s). split.
  - unfold internKey, getDelegate. unfold bind at 2, gets, bind at 1. rewrite I2. cbn. by rewrite E.
  - split; [|done]. constructor; [constructor; try done|done|done].
    + intros d x H. destruct (I5 d x H) as (y & ? & ?). exists y. auto.
    + intros x d H. destruct (I6 x d H) as (y & ? & ?). exists y. auto.
Qed.
Lemma live_store t kt s t' : live t kt s -> names_ok cfg (key_names t') -> key_names t ⊆ key_names t' ->
  exists s', update t' s = Ok (tt, s') /\ live t' kt s' /\ written s t' s'.
Proof.
  intros [[I1 I2 I3 I4 I5 I6] (c & Ec & Hb & Hs) H3] Hn Hsub. eexists. split; [reflexivity|]. rewrite Ec. unfold in_build.
  assert (Hi : forall s', script s' = script s -> delegate s' = delegate s -> engineKeyIDs s' = engineKeyIDs s -> dbKeyIDs s' = dbKeyIDs s -> inv t' kt s').
  { intros s' E1 E2 E3 E4. constructor; rewrite ?E1, ?E2, ?E3, ?E4; try done.
    - intros d e H. destruct (I5 d e H) as (k & Hk & ?). exists k. auto.
    - intros e d H. destruct (I6 e d H) as (k & Hk & ?). exists k. auto. }
  destruct (transaction c) as [f|] eqn:Et.
  - split; [constructor; [by apply Hi| |done]|].
    + eexists. split; [reflexivity|]. done.
    + split; [|split; [done|intros []; by exists c, f]]. split; intros _; [|by exists c, f]. eexists _, _. split; reflexivity.
  - split; [constructor; [by apply Hi|by exists c|]|].
    + unfold contents. cbn. by rewrite Ec, Et.
    + split; [done|]. split; [|done]. intros (c' & f & E & E'). congruence.
Qed.

(** ** Numbering keys *)

(** [t'] has the rows of [t], and maybe more keys. *)
Record more_names (t t' : Tables) : Prop := {
  mn_names : key_names t ⊆ key_names t';
  mn_info : info t' = info t;
  mn_results : rule_results t' = rule_results t }.
Lemma more_names_refl t : more_names t t.
Proof. done. Qed.
Lemma more_names_trans a b c : more_names a b -> more_names b c -> more_names a c.
Proof. intros [? ? ?] [? ? ?]. split; [by etransitivity|congruence..]. Qed.

Lemma live_key t kt s e k : live t kt s -> named kt e k -> keyForID e s = Ok (k, s).
Proof.
  intros [[_ Hd _ _ _ _] _ _] He. unfold keyForID, getDelegate. unfold bind at 2, gets, bind at 1. rewrite Hd. cbn. unfold named in He. by rewrite He.
Qed.

(** A key gets a number: the one it has, or a new one. *)
Lemma getKeyIDFromDB_ok t kt s e k : live t kt s -> named kt e k -> verbatim cfg k ->
  exists d t' s', getKeyIDFromDB cfg e s = Ok (inl d, s') /\ live t' kt s' /\ more_names t t' /\ (d, k) ∈ key_names t'
    /\ nextID (key_names t') <= nextID (key_names t) + 1 /\ written s t' s'.
Proof.
  intros H He Hk. pose proof (in_names _ _ _ (lv_inv _ _ _ H)) as Hn. unfold getKeyIDFromDB.
  rewrite (bind_ok _ _ _ _ _ (live_key _ _ _ _ _ H He)). unfold dbind.
  rewrite (bind_ok _ _ _ _ _ (live_bindings _ _ _ _ _ H)), (bind_ok _ _ _ _ _ (live_call _ _ _ H)), (bind_ok _ _ _ _ _ (live_tables _ _ _ H)).
  destruct (findID cfg k (key_names t)) as [d|] eqn:E.
  { exists d, t, s. split; [done|]. split; [done|]. split; [done|]. split; [by apply findID_spec|]. split; [lia|by eapply written_refl]. }
  rewrite (bind_ok _ _ _ _ _ (live_bindings _ _ _ _ _ H)), (bind_ok _ _ _ _ _ (live_checked _ _ _ H)).
  set (t' := set_key_names _ t). destruct (live_store t kt s t' H) as (s1 & E1 & H1 & W1).
  { cbn. rewrite Hk. apply names_add; [done..|]. by apply findID_none. }
  { cbn. set_solver. }
  destruct (lv_conn _ _ _ H1) as (c & Ec & Hb & Hs). rewrite bind_assoc, (bind_ok _ _ _ _ _ E1).
  set (s2 := set_db (Some (mkConnection (broken c) (statements c) (transaction c) (nextID (key_names t)))) s1).
  assert (E2 : set_rowid (nextID (key_names t)) s1 = Ok (tt, s2)) by (unfold set_rowid, modify; by rewrite Ec).
  rewrite (bind_ok _ _ _ _ _ E2). unfold bind, gets. cbn.
  exists (nextID (key_names t)), t', s2. split; [done|]. split; [|split; [|split; [|split]]].
  - destruct H1 as [[I1 I2 I3 I4 I5 I6] _ Hc]. constructor; [by constructor|by eexists|]. unfold contents in *. by rewrite Ec in Hc.
  - split; [|done..]. cbn. set_solver.
  - cbn. rewrite Hk. apply elem_of_app. right. by apply list_elem_of_singleton.
  - cbn. rewrite nextID_app. lia.
  - destruct W1 as (A1 & A2 & A3). split; [|done]. rewrite A1. unfold in_build, s2. rewrite Ec. cbn.
    split; intros (c' & f & E' & Ef); injection E' as <-; by eexists _, f.
Qed.

Lemma key_number_ok t kt s e k : live t kt s -> named kt e k -> verbatim cfg k ->
  exists d t' s', getKeyID cfg e s = Ok (inl d, s') /\ live t' kt s' /\ more_names t t' /\ (d, k) ∈ key_names t'
    /\ nextID (key_names t') <= nextID (key_names t) + 1 /\ written s t' s'.
Proof.
  intros H He Hk. unfold getKeyID. unfold bind at 1, gets. destruct (dbKeyIDs s !! e) as [d|] eqn:E.
  - exists d, t, s. destruct (in_db _ _ _ (lv_inv _ _ _ H) _ _ E) as (k' & Hd & He'). assert (k' = k) as -> by (unfold named in *; congruence).
    split; [done|]. split; [done|]. split; [done|]. split; [done|]. split; [lia|by eapply written_refl].
  - destruct (getKeyIDFromDB_ok t kt s e k H He Hk) as (d & t' & s' & E1 & H1 & M1 & D1 & N1 & W1).
    unfold dbind. rewrite (bind_ok _ _ _ _ _ E1). exists d, t'. destruct (u64 d =? 0).
    + exists s'. split; [done|]. done.
    + exists (cacheIDs d e s'). split; [done|]. split; [by eapply live_cache|]. done.
Qed.

(** A number is mapped to a key of the engine. *)
Lemma getKeyIDForID_ok t kt s d k : live t kt s -> (d, k) ∈ key_names t ->
  exists e kt' s', getKeyIDForID cfg d s = Ok (inl e, s') /\ live t kt' s' /\ table_grows kt kt' /\ named kt' e k
    /\ file s' = file s /\ db s' = db s.
Proof.
  intros H Hd. pose proof (in_names _ _ _ (lv_inv _ _ _ H)) as Hn. unfold getKeyIDForID. unfold bind at 1, gets.
  destruct (engineKeyIDs s !! d) as [e|] eqn:E.
  - destruct (in_engine _ _ _ (lv_inv _ _ _ H) _ _ E) as (k' & Hd' & He). assert (k' = k) as -> by (eapply name_unique; [apply Hn|done..]).
    exists e, kt, s. split; [done|]. split; [done|]. split; [apply table_grows_refl|done].
  - unfold dbind at 1. rewrite (bind_ok _ _ _ _ _ (live_bindings _ _ _ _ _ H)), (bind_ok _ _ _ _ _ (live_call _ _ _ H)).
    unfold dbind. rewrite (bind_ok _ _ _ _ _ (live_tables _ _ _ H)). rewrite (proj2 (findName_spec _ _ _ Hn) Hd).
    destruct (live_intern t kt s k H) as (e & kt' & s1 & E1 & H1 & G1 & N1 & F1 & D1). rewrite (bind_ok _ _ _ _ _ E1).
    exists e, kt', (cacheIDs d e s1). split; [done|]. split; [by eapply live_cache|]. done.
Qed.

(** ** Stored results *)

(** What is stored of a result, with its dependencies by key. *)
Record Stored := mkStored {
  s_value : list Z;
  s_signature : Z;
  s_computedAt : Z;
  s_builtAt : Z;
  s_start : Z;
  s_end : Z;
  s_dependencies : list (KeyIDAndFlags string) }.
Record stored_ok (a : Stored) : Prop := {
  so_signature : range 64 (s_signature a);
  so_computed : range 64 (s_computedAt a);
  so_built : range 64 (s_builtAt a);
  so_keys : Forall (fun x => verbatim cfg (dep_key x)) (s_dependencies a) }.

Definition same_dependency (kt : KeyTable) (x : KeyIDAndFlags N) (y : KeyIDAndFlags string) : Prop :=
  named kt (dep_key x) (dep_key y) /\ dep_orderOnly x = dep_orderOnly y /\ dep_singleUse x = dep_singleUse y.
(** A result of the engine, whose keys are those of the key table. *)
Record is_result (kt : KeyTable) (r : Result) (a : Stored) : Prop := {
  ir_value : value r = s_value a;
  ir_signature : signature r = s_signature a;
  ir_computed : computedAt r = s_computedAt a;
  ir_built : builtAt r = s_builtAt a;
  ir_start : start_time r = s_start a;
  ir_end : end_time r = s_end a;
  ir_wf : deps_wf (dependencies r);
  ir_dependencies : Forall2 (same_dependency kt) (view (dependencies r)) (s_dependencies a) }.

Definition rawOf (d : Z) (x : KeyIDAndFlags string) : Z := d * 4 + Z.b2z (dep_singleUse x) * 2 + Z.b2z (dep_orderOnly x).
(** The bytes of a number. *)
Record word (raw : Z) (b : list Z) : Prop := { wd_emits : emits (write64 raw) b; wd_parses : parses read64 b raw; wd_length : length b = 8%nat }.
Definition word_of (t : Tables) (b : list Z) (x : KeyIDAndFlags string) : Prop :=
  exists d, (d, dep_key x) ∈ key_names t /\ d < 2 ^ 62 /\ word (rawOf d x) b.

(** A row that stores [a]. *)
Record is_row (t : Tables) (row : ResultRow) (a : Stored) : Prop := {
  ro_value : row_value row = s_value a;
  ro_signature : row_signature row = i64 (s_signature a);
  ro_computed : row_computed_at row = i64 (s_computedAt a);
  ro_built : row_built_at row = i64 (s_builtAt a);
  ro_start : row_start row = s_start a;
  ro_end : row_end row = s_end a;
  ro_dependencies : exists words, Forall2 (word_of t) words (s_dependencies a) /\ row_dependencies row = concat words }.

Lemma u64_i64 v : range 64 v -> u64 (i64 v) = v.
Proof.
  intros Hv. unfold u64, i64. rewrite Zminus_mod_idemp_l. replace (v + 2 ^ 63 - 2 ^ 63) with v by lia. by apply Z.mod_small.
Qed.

Lemma raw_flags d x : 0 <= d -> Z.shiftr (rawOf d x) 2 = d /\ negb (Z.land (rawOf d x) 1 =? 0) = dep_orderOnly x
  /\ negb (Z.land (Z.shiftr (rawOf d x) 1) 1 =? 0) = dep_singleUse x.
Proof.
  intros Hd. assert (Hl : forall x, Z.land x 1 = x mod 2) by (intros y; apply (Z.land_ones y 1); lia).
  unfold rawOf. rewrite !Hl, !Z.shiftr_div_pow2 by lia. change (2 ^ 2) with 4. change (2 ^ 1) with 2.
  destruct (dep_singleUse x), (dep_orderOnly x); cbn [Z.b2z]; repeat split; Z.to_euclidean_division_equations; lia.
Qed.
Lemma raw_encoded d x : 0 < d < 2 ^ 62 ->
  u64 (u64 (Z.shiftl (u64 d) 2) + Z.shiftl (Z.b2z (dep_singleUse x)) 1 + Z.b2z (dep_orderOnly x)) = rawOf d x /\ range 64 (rawOf d x).
Proof.
  intros Hd. unfold rawOf, u64, range. rewrite !Z.shiftl_mul_pow2, (Z.mod_small d), (Z.mod_small (d * 2 ^ 2)) by lia.
  destruct (dep_singleUse x), (dep_orderOnly x); cbn [Z.b2z]; (split; [|lia]); rewrite Z.mod_small; lia.
Qed.
Lemma word_exists raw : range 64 raw -> exists b, word raw b.
Proof. intros H. destruct (emits_64 raw H) as (b & ? & ? & ?). by exists b. Qed.

Lemma deps_set_ok {K} (deps : DependencyKeyIDs K) i k o u : deps_wf deps -> (i < deps_size deps)%nat ->
  exists deps', deps_set deps i k o u = Ok deps' /\ deps_wf deps' /\ deps_size deps' = deps_size deps /\ view deps' = <[i := mkDep k o u]> (view deps).
Proof.
  intros Hw Hi. unfold deps_set, deps_size, deps_wf in *. rewrite (proj2 (Nat.ltb_lt _ _) Hi). rewrite Hw in Hi. rewrite (proj2 (Nat.ltb_lt _ _) Hi).
  eexists. split; [reflexivity|]. cbn. rewrite !length_insert. split; [done|]. split; [done|].
  unfold view. cbn. by rewrite <- insert_zip_with, encode_flags_orderOnly, encode_flags_singleUse.
Qed.
Lemma deps_resize_ok (k : N) n : deps_wf (deps_resize k n (mkDeps [] [])) /\ deps_size (deps_resize k n (mkDeps [] [])) = n.
Proof. unfold deps_wf, deps_size, deps_resize. cbn. by rewrite !length_resize. Qed.

Lemma same_dependency_grows kt kt' l l' : table_grows kt kt' -> Forall2 (same_dependency kt) l l' -> Forall2 (same_dependency kt') l l'.
Proof. intros G H. eapply Forall2_impl; [exact H|]. intros x y (Hx & ?). split; [by apply G|done]. Qed.

Lemma take_insert_next {A} (l : list A) i x : (i < length l)%nat -> take (S i) (<[i := x]> l) = take i l ++ [x].
Proof.
  intros Hi. rewrite (take_S_r _ _ x) by (by apply list_lookup_insert_eq). by rewrite take_insert_ge by lia.
Qed.

Lemma loadDependencies_ok t words deps : Forall2 (word_of t) words deps -> forall i pre l kt s,
  live t kt s -> deps_wf l -> deps_size l = (i + length words)%nat ->
  exists kt' s' l' loaded, loadDependencies cfg (length words) i (mkDecoder (pre ++ concat words) (length pre)) l s = Ok (inl l', s')
    /\ live t kt' s' /\ table_grows kt kt' /\ file s' = file s /\ db s' = db s
    /\ deps_wf l' /\ view l' = take i (view l) ++ loaded /\ Forall2 (same_dependency kt') loaded deps.
Proof.
  induction 1 as [|b x words deps (d & Hd & Hd62 & Hw) _ IH]; intros i pre l kt s H Hwf Hsize.
  { exists kt, s, l, []. split; [done|]. split; [done|]. split; [apply table_grows_refl|]. split; [done|]. split; [done|]. split; [done|].
    split; [|constructor]. rewrite app_nil_r, take_ge; [done|]. rewrite view_length by done. rewrite Hsize. cbn. lia. }
  cbn [loadDependencies length concat]. unfold dbind at 1, bind at 1, doutcome. rewrite (wd_parses _ _ Hw pre (concat words)). cbn [fst snd].
  pose proof (na_positive _ _ (in_names _ _ _ (lv_inv _ _ _ H)) _ _ Hd) as Hpos.
  destruct (raw_flags d x) as (-> & -> & ->); [lia|].
  destruct (getKeyIDForID_ok t kt s d _ H Hd) as (e & kt1 & s1 & E1 & H1 & G1 & N1 & F1 & D1).
  unfold dbind at 1. rewrite (bind_ok _ _ _ _ _ E1).
  destruct (deps_set_ok l i e (dep_orderOnly x) (dep_singleUse x) Hwf) as (l1 & E2 & W2 & S2 & V2); [rewrite Hsize; cbn; lia|].
  unfold dbind at 1, bind at 1, doutcome. rewrite E2.
  destruct (IH (S i) (pre ++ b) l1 kt1 s1 H1 W2) as (kt2 & s2 & l2 & loaded & E3 & H3 & G3 & F3 & D3 & W3 & V3 & L3); [rewrite S2, Hsize; cbn; lia|].
  rewrite length_app, <- app_assoc in E3. exists kt2, s2, l2, (mkDep e (dep_orderOnly x) (dep_singleUse x) :: loaded).
  split; [exact E3|]. split; [done|]. split; [by eapply table_grows_trans|]. split; [congruence|]. split; [congruence|]. split; [done|]. split.
  - rewrite V3, V2, take_insert_next, <- app_assoc; [done|]. rewrite view_length by done. rewrite Hsize. cbn. lia.
  - constructor; [|done]. split; [by apply G3|done].
Qed.

Lemma loadRow_ok t kt s d row a : live t kt s -> is_row t row a -> stored_ok a ->
  exists kt' s' r, loadRow cfg d row s = Ok (inl r, s') /\ live t kt' s' /\ table_grows kt kt' /\ file s' = file s /\ db s' = db s
    /\ is_result kt' r a.
Proof.
  intros H [R1 R2 R3 R4 R5 R6 (words & Hw & R7)] [O1 O2 O3 _]. unfold loadRow.
  assert (Hl : length (row_dependencies row) = (length words * 8)%nat).
  { rewrite R7. clear R7. induction Hw as [|b x words deps (d' & _ & _ & [_ _ Hb]) _ IH]; [done|]. cbn. rewrite length_app, IH, Hb. lia. }
  assert (Hn : (length (row_dependencies row) / 8)%nat = length words) by (rewrite Hl; apply Nat.div_mul; lia).
  rewrite Hn, Hl, Nat.eqb_refl. cbn [negb]. rewrite R7.
  destruct (deps_resize_ok 0%N (length words)) as [W S].
  destruct (loadDependencies_ok t words _ Hw 0 [] _ kt s H W S) as (kt1 & s1 & l & loaded & E1 & H1 & G1 & F1 & D1 & W1 & V1 & L1).
  unfold dbind. change (length []) with 0%nat in E1. cbn [app] in E1. rewrite (bind_ok _ _ _ _ _ E1).
  exists kt1, s1. eexists. split; [reflexivity|]. split; [done|]. split; [done|]. split; [done|]. split; [done|].
  rewrite take_0 in V1. cbn [app] in V1. rewrite R2, R3, R4, R1, R5, R6, !u64_i64 by done. constructor; try done. cbn. by rewrite V1.
Qed.

Lemma word_of_more t t' b x : more_names t t' -> word_of t b x -> word_of t' b x.
Proof. intros [Hs _ _] (d & Hd & ?). exists d. split; [by apply Hs|done]. Qed.
Lemma is_row_more t t' row a : more_names t t' -> is_row t row a -> is_row t' row a.
Proof.
  intros Hm [R1 R2 R3 R4 R5 R6 (words & Hw & R7)]. constructor; try done. exists words. split; [|done].
  eapply Forall2_impl; [exact Hw|]. intros b x. by apply word_of_more.
Qed.

Lemma drop_lookup_cons {A} (l : list A) i x l' : drop i l = x :: l' -> l !! i = Some x /\ drop (S i) l = l'.
Proof.
  revert l. induction i as [|i IH]; intros [|y l] E; [discriminate E|by injection E as -> ->|discriminate E|]. by apply IH.
Qed.

Lemma encodeDependencies_ok kt l : deps_wf l -> forall deps i suffix acc t s,
  live t kt s -> drop i (view l) = suffix -> Forall2 (same_dependency kt) suffix deps -> Forall (fun x => verbatim cfg (dep_key x)) deps ->
  nextID (key_names t) + Z.of_nat (length deps) <= 2 ^ 62 ->
  exists t' s' words, encodeDependencies cfg (length suffix) i l acc s = Ok (inl (acc ++ concat words), s') /\ live t' kt s' /\ more_names t t'
    /\ Forall2 (word_of t') words deps /\ nextID (key_names t') <= nextID (key_names t) + Z.of_nat (length deps) /\ written s t' s'.
Proof.
  intros Hwf deps. induction deps as [|y deps IH]; intros i suffix acc t s H Hd Hs Hv Hn.
  { apply Forall2_nil_inv_r in Hs as ->. exists t, s, []. cbn. rewrite app_nil_r. split; [done|]. split; [done|]. split; [done|].
    split; [constructor|]. split; [lia|by eapply written_refl]. }
  apply Forall2_cons_inv_r in Hs as (x & suffix' & (Hx & Ho & Hu) & Hs & ->). apply Forall_cons in Hv as [Hy Hv].
  destruct (drop_lookup_cons _ _ _ _ Hd) as [Hi Hd']. cbn [encodeDependencies length] in *.
  unfold dbind at 1, bind at 1, doutcome. rewrite (deps_get_view l i Hwf), Hi.
  destruct (key_number_ok t kt s _ _ H Hx Hy) as (d & t1 & s1 & E1 & H1 & M1 & D1 & N1 & W1).
  unfold dbind at 1. rewrite (bind_ok _ _ _ _ _ E1).
  pose proof (na_positive _ _ (in_names _ _ _ (lv_inv _ _ _ H1)) _ _ D1) as Hpos. pose proof (nextID_above _ _ _ D1) as Hab.
  rewrite Ho, Hu. destruct (raw_encoded d y) as [-> Hr]; [lia|]. destruct (word_exists _ Hr) as [b Hb].
  unfold dbind at 1, bind at 1, doutcome. rewrite (wd_emits _ _ Hb acc). cbn [snd].
  destruct (IH (S i) suffix' (acc ++ b) t1 s1 H1 Hd' Hs Hv) as (t2 & s2 & words & E2 & H2 & M2 & L2 & N2 & W2); [lia|].
  exists t2, s2, (b :: words). cbn [concat]. rewrite app_assoc. split; [exact E2|]. split; [done|]. split; [by eapply more_names_trans|].
  split; [|split; [lia|by eapply written_trans]]. constructor; [|done]. exists d. split; [by apply M2|]. split; [lia|done].
Qed.

(** ** The map *)

(** The tables hold the map [m]. *)
Record holds (t : Tables) (m : gmap string Stored) : Prop := {
  ho_rows d row : rule_results t !! d = Some row -> exists k a, (d, k) ∈ key_names t /\ m !! k = Some a /\ is_row t row a;
  ho_map k a : m !! k = Some a -> stored_ok a /\ verbatim cfg k /\ exists d row, (d, k) ∈ key_names t /\ rule_results t !! d = Some row }.

Lemma holds_more t t' m : more_names t t' -> holds t m -> holds t' m.
Proof.
  intros Hm [H1 H2]. pose proof Hm as [Hn _ Hr]. split.
  - intros d row Hd. rewrite Hr in Hd. destruct (H1 d row Hd) as (k & a & ? & ? & ?). exists k, a. split; [by apply Hn|]. split; [done|]. by eapply is_row_more.
  - intros k a Hk. destruct (H2 k a Hk) as (? & ? & d & row & ? & ?). split; [done|]. split; [done|]. exists d, row. rewrite Hr. split; [by apply Hn|done].
Qed.
Lemma holds_lookup t m d k row : names_ok cfg (key_names t) -> holds t m -> (d, k) ∈ key_names t -> rule_results t !! d = Some row ->
  exists a, m !! k = Some a /\ is_row t row a /\ stored_ok a.
Proof.
  intros Hn [H1 H2] Hd Hr. destruct (H1 d row Hr) as (k' & a & Hd' & Hm & Ha). assert (k' = k) as -> by (eapply name_unique; [apply Hn|done..]).
  exists a. split; [done|]. split; [done|]. by apply (H2 k).
Qed.
Lemma holds_none t m d k : names_ok cfg (key_names t) -> holds t m -> (d, k) ∈ key_names t -> rule_results t !! d = None -> m !! k = None.
Proof.
  intros Hn [_ H2] Hd Hr. destruct (m !! k) as [a|] eqn:E; [|done]. destruct (H2 k a E) as (_ & _ & d' & row & Hd' & Hr').
  assert (d' = d) as -> by (eapply id_unique; [apply Hn|done..]). congruence.
Qed.
Lemma holds_insert t m d k row a : names_ok cfg (key_names t) -> holds t m -> (d, k) ∈ key_names t -> is_row t row a -> stored_ok a ->
  holds (set_rule_results (<[d := row]> (rule_results t)) t) (<[k := a]> m).
Proof.
  intros Hn [H1 H2] Hd Ha Hok. set (t' := set_rule_results _ t).
  assert (Hr : forall row a, is_row t row a -> is_row t' row a) by (by intros ? ? []).
  split.
  - intros d' row'. cbn. intros [[<- <-]|[Hne Hd']]%lookup_insert_Some; [exists k, a; rewrite lookup_insert_eq; auto|].
    destruct (H1 d' row' Hd') as (k' & a' & Hk' & Hm & Ha'). exists k', a'. split; [done|]. split; [|by apply Hr]. rewrite lookup_insert_ne; [done|].
    intros ->. apply Hne. eapply id_unique; [apply Hn|done..].
  - intros k' a'. intros [[<- <-]|[Hne Hk']]%lookup_insert_Some.
    + split; [done|]. split; [by eapply (na_verbatim _ _ Hn)|]. exists d, row. split; [done|]. cbn. by rewrite lookup_insert_eq.
    + destruct (H2 k' a' Hk') as (? & ? & d' & row' & Hd' & Hr'). split; [done|]. split; [done|]. cbn. destruct (decide (d' = d)) as [->|Hd2].
      * destruct Hne. eapply name_unique; [apply Hn|done..].
      * exists d', row'. by rewrite lookup_insert_ne.
Qed.

Lemma lookupRuleResult_ok t kt s m e k out : live t kt s -> holds t m -> named kt e k -> verbatim cfg k -> builtAt out = 0 ->
  exists kt' s' r, lookupRuleResult cfg e k out s = Ok (inl r, s') /\ live t kt' s' /\ table_grows kt kt' /\ file s' = file s /\ db s' = db s
    /\ match r with Some r => exists a, m !! k = Some a /\ is_result kt' r a | None => m !! k = None end.
Proof.
  intros H Hm He Hk Hout. pose proof (in_names _ _ _ (lv_inv _ _ _ H)) as Hn. unfold lookupRuleResult.
  assert (Eg : getDelegate s = Ok (kt, s)).
  { unfold getDelegate. unfold bind, gets. by rewrite (in_delegate _ _ _ (lv_inv _ _ _ H)). }
  rewrite (bind_ok _ _ _ _ _ Eg), bind_ensure by (by apply Z.eqb_eq). unfold dbind at 1. rewrite (bind_ok _ _ _ _ _ (live_open _ _ _ H)). unfold bind at 1, gets.
  destruct (dbKeyIDs s !! e) as [d|] eqn:E.
  - destruct (in_db _ _ _ (lv_inv _ _ _ H) _ _ E) as (k' & Hd & He'). assert (k' = k) as -> by (unfold named in *; congruence).
    unfold dbind at 1. rewrite (bind_ok _ _ _ _ _ (live_bindings _ _ _ _ _ H)). unfold dbind at 1. rewrite (bind_ok _ _ _ _ _ (live_checked _ _ _ H)).
    unfold dbind at 1. rewrite (bind_ok _ _ _ _ _ (live_tables _ _ _ H)). destruct (rule_results t !! d) as [row|] eqn:Er.
    + destruct (holds_lookup t m d k row Hn Hm Hd Er) as (a & Ea & Ha & Hok).
      destruct (loadRow_ok t kt s d row a H Ha Hok) as (kt1 & s1 & r & E1 & H1 & G1 & F1 & D1 & R1).
      unfold dbind. rewrite (bind_ok _ _ _ _ _ E1). exists kt1, s1, (Some r). do 5 (split; [done|]). by exists a.
    + exists kt, s, None. split; [done|]. split; [done|]. split; [apply table_grows_refl|]. split; [done|]. split; [done|]. by eapply holds_none.
  - unfold dbind at 1. rewrite (bind_ok _ _ _ _ _ (live_bindings _ _ _ _ _ H)). unfold dbind at 1. rewrite (bind_ok _ _ _ _ _ (live_checked _ _ _ H)).
    unfold dbind at 1. rewrite (bind_ok _ _ _ _ _ (live_tables _ _ _ H)).
    assert (Hnone : forall r : option Result, r = None -> m !! k = None -> exists kt' s' r, dret None s = Ok (inl r, s') /\ live t kt' s' /\ table_grows kt kt' /\ file s' = file s /\ db s' = db s
      /\ match r with Some r => exists a, m !! k = Some a /\ is_result kt' r a | None => m !! k = None end).
    { intros _ _ Hnone. exists kt, s, None. split; [done|]. split; [done|]. split; [apply table_grows_refl|done]. }
    destruct (findID cfg k (key_names t)) as [d|] eqn:Ef; cbn [mbind option_bind].
    + pose proof (proj1 (findID_spec _ _ _ Hn Hk) Ef) as Hd. destruct (rule_results t !! d) as [row|] eqn:Er; cbn [mbind option_bind].
      * destruct (holds_lookup t m d k row Hn Hm Hd Er) as (a & Ea & Ha & Hok). rewrite bind_modify.
        destruct (loadRow_ok t kt (cacheIDs d e s) d row a) as (kt1 & s1 & r & E1 & H1 & G1 & F1 & D1 & R1); [by eapply live_cache|done..|].
        unfold dbind. rewrite (bind_ok _ _ _ _ _ E1). exists kt1, s1, (Some r). do 5 (split; [done|]). by exists a.
      * apply (Hnone None); [done|]. by eapply holds_none.
    + apply (Hnone None); [done|]. destruct (m !! k) as [a|] eqn:Em; [|done]. destruct (ho_map _ _ Hm k a Em) as (_ & _ & d & _ & Hd & _).
      by destruct (findID_none _ _ Hk Ef d).
Qed.

Lemma setRuleResult_ok t kt s m e k r a : live t kt s -> holds t m -> named kt e k -> verbatim cfg k -> stored_ok a -> is_result kt r a ->
  nextID (key_names t) + 1 + Z.of_nat (length (s_dependencies a)) <= 2 ^ 62 ->
  exists t' s', setRuleResult cfg e r s = Ok (inl tt, s') /\ live t' kt s' /\ holds t' (<[k := a]> m) /\ info t' = info t
    /\ nextID (key_names t') <= nextID (key_names t) + 1 + Z.of_nat (length (s_dependencies a)) /\ written s t' s'.
Proof.
  intros H Hm He Hk Hok Hr Hn. unfold setRuleResult.
  assert (Eg : getDelegate s = Ok (kt, s)).
  { unfold getDelegate. unfold bind, gets. by rewrite (in_delegate _ _ _ (lv_inv _ _ _ H)). }
  rewrite (bind_ok _ _ _ _ _ Eg). unfold dbind at 1. rewrite (bind_ok _ _ _ _ _ (live_open _ _ _ H)).
  destruct (key_number_ok t kt s e k H He Hk) as (d & t1 & s1 & E1 & H1 & M1 & D1 & N1 & W1).
  unfold dbind at 1. rewrite (bind_ok _ _ _ _ _ E1).
  destruct (encodeDependencies_ok kt (dependencies r) (ir_wf _ _ _ Hr) (s_dependencies a) 0 (view (dependencies r)) [] t1 s1 H1)
    as (t2 & s2 & words & E2 & H2 & M2 & L2 & N2 & W2); [apply drop_0|apply (ir_dependencies _ _ _ Hr)|apply (so_keys _ Hok)|lia|].
  rewrite (view_length _ (ir_wf _ _ _ Hr)) in E2. unfold dbind at 1. rewrite (bind_ok _ _ _ _ _ E2).
  unfold dbind at 1. rewrite (bind_ok _ _ _ _ _ (live_bindings _ _ _ _ _ H2)). unfold dbind at 1. rewrite (bind_ok _ _ _ _ _ (live_checked _ _ _ H2)).
  unfold dbind at 1. rewrite (bind_ok _ _ _ _ _ (live_tables _ _ _ H2)). pose proof (in_names _ _ _ (lv_inv _ _ _ H2)) as Hn2.
  set (row := mkRow _ _ _ _ _ _ _). set (t3 := set_rule_results _ t2).
  destruct (live_store t2 kt s2 t3 H2) as (s3 & E3 & H3 & W3); [done|done|]. rewrite (bind_ok _ _ _ _ _ E3).
  exists t3, s3. split; [done|]. split; [done|]. split; [|split; [|split]].
  - apply holds_insert; [done|by apply (holds_more t1), (holds_more t)|by apply M2| |done].
    destruct Hr. constructor; cbn; try congruence. by exists words.
  - cbn. rewrite (mn_info _ _ M2). apply (mn_info _ _ M1).
  - change (key_names t3) with (key_names t2). lia.
  - eapply written_trans; [exact W1|]. by eapply written_trans.
Qed.
End Database.
