(* ===== verification/SQLiteSession.v ===== *)
(** * Sessions of the SQLite build database

    Processes that open the database in turn, look up and store results, in builds or
    outside, and end in the middle of a build: what they see is a map from keys to results
    with transactions. *)

From Stdlib Require Import ZArith String Ascii Lia ZifyBool.
From stdpp Require Import base gmap list strings numbers pretty.
From S2P Require Import Prelude DepKeys KeyTable Coding SQLiteBuildDB SQLiteProps.

Local Open Scope Z_scope.
Local Open Scope db_scope.

(** ** Operations of a session *)

(** [opRestart]: the process ends, whatever it was doing, and another one starts. *)
Inductive Op :=
| opStart
| opLookup (k : string)
| opSet (k : string) (a : Stored)
| opGetEpoch
| opSetEpoch (n : Z)
| opComplete
| opRestart.
Inductive Answer := Done | Found (r : option Stored) | Epoch (n : Z).

(** *** What the database does *)

Fixpoint internDependencies (l : list (KeyIDAndFlags string)) (deps : DependencyKeyIDs N) : M State (DependencyKeyIDs N) :=
  match l with
  | [] => ret deps
  | x :: l' => e <~ internKey (dep_key x); internDependencies l' (deps_push_back deps e (dep_orderOnly x) (dep_singleUse x))
  end.
Definition toResult (a : Stored) : M State Result :=
  deps <~ internDependencies (s_dependencies a) (mkDeps [] []);
  ret (mkResult (s_value a) (s_signature a) (s_computedAt a) (s_builtAt a) deps (s_start a) (s_end a)).
Fixpoint nameDependencies (l : list (KeyIDAndFlags N)) : M State (list (KeyIDAndFlags string)) :=
  match l with
  | [] => ret []
  | x :: l' => k <~ keyForID (dep_key x); r <~ nameDependencies l'; ret (mkDep k (dep_orderOnly x) (dep_singleUse x) :: r)
  end.
Definition fromResult (r : Result) : M State Stored :=
  deps <~ nameDependencies (view (dependencies r));
  ret (mkStored (value r) (signature r) (computedAt r) (builtAt r) (start_time r) (end_time r) deps).

(** A fresh [Result], as the engine passes it. *)
Definition newResult : Result := mkResult [] 0 0 0 (mkDeps [] []) 0 0.
Definition newProcess (f : File) (script : list (option Z)) : State := mkState f None (Some emptyKeyTable) ∅ ∅ script.

Section Session.
Context (cfg : Config).

Definition exec (op : Op) : DB Answer :=
  match op with
  | opStart => buildStarted cfg ;; dret Done
  | opLookup k =>
      e <~ internKey k;
      r <- lookupRuleResult cfg e k newResult;;
      match r with Some r => a <~ fromResult r; dret (Found (Some a)) | None => dret (Found None) end
  | opSet k a => e <~ internKey k; r <~ toResult a; setRuleResult cfg e r ;; dret Done
  | opGetEpoch => n <- getCurrentEpoch cfg;; dret (Epoch n)
  | opSetEpoch n => setCurrentIteration cfg n ;; dret Done
  | opComplete => buildComplete ;;; dret Done
  | opRestart => modify (fun s => newProcess (file s) (script s)) ;;; dret Done
  end.
Fixpoint execAll (ops : list Op) : DB (list Answer) :=
  match ops with
  | [] => dret []
  | op :: ops' => a <- exec op;; l <- execAll ops';; dret (a :: l)
  end.

(** *** What it promises *)

(** The results and the iteration on disk, and those of the current build. *)
Record Abs := mkAbs { committed : gmap string Stored * Z; inBuild : option (gmap string Stored * Z) }.
Definition current (A : Abs) : gmap string Stored * Z := default (committed A) (inBuild A).
Definition set_current (x : gmap string Stored * Z) (A : Abs) : Abs :=
  match inBuild A with Some _ => mkAbs (committed A) (Some x) | None => mkAbs x None end.
Definition emptyAbs : Abs := mkAbs (∅, 0) None.

Definition spec (op : Op) (A : Abs) : Answer * Abs :=
  match op with
  | opStart => (Done, mkAbs (committed A) (Some (committed A)))
  | opLookup k => (Found ((current A).1 !! k), A)
  | opSet k a => (Done, set_current (<[k := a]> (current A).1, (current A).2) A)
  | opGetEpoch => (Epoch (current A).2, A)
  | opSetEpoch n => (Done, set_current ((current A).1, n) A)
  | opComplete => (Done, mkAbs (current A) None)
  | opRestart => (Done, mkAbs (committed A) None)
  end.
Fixpoint specAll (ops : list Op) (A : Abs) : list Answer :=
  match ops with [] => [] | op :: ops' => (spec op A).1 :: specAll ops' (spec op A).2 end.

(** Builds do not nest, and the parts of results have their width. *)
Definition allowed (op : Op) (A : Abs) : Prop :=
  match op with
  | opStart => inBuild A = None
  | opComplete => is_Some (inBuild A)
  | opLookup k => verbatim cfg k
  | opSet k a => verbatim cfg k /\ stored_ok cfg a
  | opSetEpoch n => range 64 n
  | opGetEpoch | opRestart => True
  end.
Fixpoint allAllowed (ops : list Op) (A : Abs) : Prop :=
  match ops with [] => True | op :: ops' => allowed op A /\ allAllowed ops' (spec op A).2 end.
(** The number of keys an operation may number. *)
Definition weight (op : Op) : Z := match op with opSet _ a => 1 + Z.of_nat (length (s_dependencies a)) | _ => 0 end.
Definition totalWeight (ops : list Op) : Z := foldr (fun op n => weight op + n) 0 ops.

(** ** The simulation *)

Definition noTables : Tables := mkTables None [] ∅.
Definition tablesOf (f : File) : Tables := match f with Schema t => t | _ => noTables end.

Definition rep (t : Tables) (x : gmap string Stored * Z) : Prop :=
  holds cfg t x.1 /\ info t = Some (mkInfo currentSchemaVersion (clientSchemaVersion cfg) (i64 x.2)) /\ range 64 x.2.
Definition room (t : Tables) (n : Z) : Prop := nextID (key_names t) + n <= 2 ^ 62.
Definition file_rep (f : File) (x : gmap string Stored * Z) (n : Z) : Prop :=
  match f with Schema t => names_ok cfg (key_names t) /\ rep t x /\ room t n | _ => x = (∅, 0) /\ room noTables n end.

Inductive connected (s : State) (A : Abs) (n : Z) (kt : KeyTable) : Prop :=
| not_connected : db s = None -> inBuild A = None -> inv cfg (tablesOf (file s)) kt s -> connected s A n kt
| is_connected c t : db s = Some c -> live cfg t kt s -> rep t (current A) -> room t n ->
    (transaction c = None <-> inBuild A = None) -> connected s A n kt.
Definition sim (s : State) (A : Abs) (n : Z) (kt : KeyTable) : Prop := file_rep (file s) (committed A) n /\ connected s A n kt.

Lemma sim_weaken s A n n' kt : n' <= n -> sim s A n kt -> sim s A n' kt.
Proof.
  intros Hn [Hf Hc]. assert (Hr : forall t, room t n -> room t n') by (unfold room; intros; lia). split.
  - unfold file_rep in *. destruct (file s); naive_solver.
  - destruct Hc as [? ? ?|c t ? ? ? ? ?]; [by apply not_connected|]. by apply (is_connected _ _ _ _ c t); auto.
Qed.

Lemma sim_script s A n kt : sim s A n kt -> script s = [].
Proof. intros [_ [_ _ [H]|c t _ [[H]] _ _ _]]; exact H. Qed.
Lemma sim_table s A n kt : sim s A n kt -> table_ok kt /\ delegate s = Some kt.
Proof. intros [_ [_ _ []|c t _ [[]] _ _ _]]; done. Qed.

(** *** Opening *)

Context (threads : threadsafe cfg = true) (again : recreateOnUnmatchedVersion cfg = true) (client_range : range 32 (clientSchemaVersion cfg)).

(** A connection on the tables, without statements yet. *)
Definition opened (t : Tables) (kt : KeyTable) (st : list Stmt) (s : State) : Prop :=
  inv cfg t kt s /\ db s = Some (mkConnection false st None 0) /\ file s = Schema t.

Lemma opened_call t kt st s : opened t kt st s -> call s = Ok (None, s).
Proof. intros ([Hs] & Hd & _). unfold call. rewrite Hd. cbn. unfold answer. by rewrite Hs. Qed.
Lemma inv_db t kt s x : inv cfg t kt s -> inv cfg t kt (set_db x s).
Proof. by intros []. Qed.
Lemma inv_file t kt s x : inv cfg t kt s -> inv cfg t kt (set_file x s).
Proof. by intros []. Qed.

Lemma prepareAll_ok t kt l : forall st s, opened t kt st s -> exists s', prepareAll cfg l s = Ok (inl tt, s') /\ opened t kt (st ++ l) s'.
Proof.
  induction l as [|x l IH]; intros st s H; [exists s; by rewrite app_nil_r|]. cbn [prepareAll]. unfold dbind.
  assert (Ec : checked cfg s = Ok (inl tt, s)) by (unfold checked; by rewrite (bind_ok _ _ _ _ _ (opened_call _ _ _ _ H))).
  rewrite (bind_ok _ _ _ _ _ Ec), bind_modify. destruct H as (Hi & Hd & Hf). rewrite Hd.
  destruct (IH (st ++ [x]) (set_db (Some (mkConnection false (st ++ [x]) None 0)) s)) as (s' & E & H'); [split; [by apply inv_db|done]|].
  exists s'. split; [exact E|]. by rewrite <- app_assoc in H'.
Qed.

(** A database is made. *)
Lemma recreate_ok kt s v : inv cfg noTables kt s ->
  let t := mkTables (Some (mkInfo currentSchemaVersion (clientSchemaVersion cfg) 0)) [] ∅ in
  exists s', recreate cfg v s = Ok (inl tt, s') /\ opened t kt [] s'.
Proof.
  intros Hi t. assert (Hs : script s = []) by by destruct Hi. unfold recreate. rewrite bind_modify, again. cbn [negb].
  unfold bind at 1, answer. cbn [script set_db]. rewrite Hs, bind_modify.
  unfold bind at 1, sqlite3_open, bind at 1, answer. cbn [script set_db set_file]. rewrite Hs. rewrite bind_modify. cbn [file set_file]. unfold ret at 1.
  set (s1 := set_db (Some newConnection) _). unfold createSchema.
  assert (Hc : call s1 = Ok (None, s1)) by (unfold call; cbn; unfold answer; cbn; by rewrite Hs).
  assert (He : execs 7 s1 = Ok (None, s1)) by (cbn [execs]; by do 7 rewrite (bind_ok _ _ _ _ _ Hc)).
  rewrite (bind_ok _ _ _ _ _ He), bind_modify. eexists. split; [reflexivity|].
  replace (u32 (clientSchemaVersion cfg)) with (clientSchemaVersion cfg) by (symmetry; by apply Z.mod_small).
  split; [|done]. by destruct Hi.
Qed.

Lemma new_tables_rep n : room noTables n ->
  file_rep (Schema (mkTables (Some (mkInfo currentSchemaVersion (clientSchemaVersion cfg) 0)) [] ∅)) (∅, 0) n.
Proof.
  intros Hn. split; [|split; [|exact Hn]].
  - constructor; [apply NoDup_nil_2|apply NoDup_nil_2|by intros ? ? ?%elem_of_nil|by intros ? ? ?%elem_of_nil].
  - split; [split|done].
    + intros d row. cbn. by rewrite lookup_empty.
    + intros k a. cbn. by rewrite lookup_empty.
Qed.

Lemma opened_live t kt s : opened t kt allStatements s -> live cfg t kt s.
Proof.
  intros (Hi & Hd & Hf). constructor; [done|by eexists|]. unfold contents. by rewrite Hd.
Qed.

Lemma sim_open s A n kt : sim s A n kt -> exists s' c t, open cfg s = Ok (inl tt, s') /\ sim s' A n kt
  /\ db s' = Some c /\ live cfg t kt s' /\ rep t (current A) /\ room t n /\ (transaction c = None <-> inBuild A = None).
Proof.
  intros [Hf [Hd Hb Hi|c t Hd Hl Hr Hn Ht]].
  2: { exists s, c, t. rewrite (live_open _ _ _ _ Hl). split; [done|]. split; [|done]. split; [done|by eapply is_connected]. }
  assert (Hs : script s = []) by by destruct Hi.
  assert (Hfin : forall t s1, file_rep (Schema t) (committed A) n -> opened t kt [] s1 ->
    exists s' c t, prepareAll cfg allStatements s1 = Ok (inl tt, s') /\ sim s' A n kt
      /\ db s' = Some c /\ live cfg t kt s' /\ rep t (current A) /\ room t n /\ (transaction c = None <-> inBuild A = None)).
  { intros t s1 Ht Ho. destruct (prepareAll_ok t kt allStatements [] s1 Ho) as (s2 & E & Ho2). cbn [app] in Ho2.
    pose proof (opened_live _ _ _ Ho2) as Hl. destruct Ho2 as (_ & Hd2 & Hf2). destruct Ht as (Ht1 & Ht2 & Ht3). unfold current. rewrite Hb. cbn [default].
    eexists s2, _, t. split; [done|]. split; [|split; [exact Hd2|done]]. split; [by rewrite Hf2|].
    eapply is_connected; [exact Hd2|exact Hl| |done|done]. unfold current. by rewrite Hb. }
  unfold open. unfold bind at 1, gets. rewrite Hd, threads. cbn [negb].
  unfold bind at 1, sqlite3_open, bind at 1, answer. rewrite Hs, bind_modify. unfold ret at 1. cbn [fst snd].
  set (s1 := set_db (Some newConnection) _).
  assert (Hc : call s1 = Ok (None, s1)) by (unfold call; cbn; unfold answer; destruct (file s); cbn; by rewrite Hs).
  destruct (file s) as [| |t] eqn:Ef.
  1, 2: destruct Hf as [Hcm Hroom];
    assert (Ev : readVersion cfg s1 = Ok (inl (-1, 0), s1)) by (unfold readVersion; rewrite (bind_ok _ _ _ _ _ Hc); unfold bind, gets, contents, s1; cbn; by rewrite ?Ef);
    unfold dbind at 1; rewrite (bind_ok _ _ _ _ _ Ev); unfold dbind; cbn [fst Z.eqb andb];
    change (-1 =? currentSchemaVersion) with false; cbn [andb];
    destruct (recreate_ok kt s1 (-1, 0)) as (s2 & E2 & H2); [by destruct Hi|];
    rewrite (bind_ok _ _ _ _ _ E2); eapply Hfin; [|exact H2]; rewrite Hcm; by apply new_tables_rep.
  assert (Ev : readVersion cfg s1 = Ok (inl (currentSchemaVersion, clientSchemaVersion cfg), s1)).
  { unfold readVersion. rewrite (bind_ok _ _ _ _ _ Hc). unfold bind at 1, gets. change (contents s1) with (file s). rewrite Ef.
    rewrite (bind_ok _ _ _ _ _ Hc). destruct Hf as (_ & (_ & -> & _) & _). cbn [version client_version].
    unfold u32. by rewrite Z.mod_small. }
  unfold dbind at 1. rewrite (bind_ok _ _ _ _ _ Ev). cbn [fst snd]. rewrite !Z.eqb_refl. cbn [andb]. unfold dbind. rewrite (bind_ok _ _ _ (inl tt) s1 eq_refl).
  apply (Hfin t); [done|]. split; [by apply inv_db|done].
Qed.

(** ** Each operation *)

(** Interning works whether the database is open or not. *)
Lemma internKey_eq kt s k : delegate s = Some kt ->
  internKey k s = Ok ((KeyTable.getKeyID k kt).1, set_delegate (Some (KeyTable.getKeyID k kt).2) s).
Proof. intros Hd. unfold internKey, getDelegate. unfold bind at 2, gets, bind at 1. by rewrite Hd. Qed.
Lemma inv_delegate t kt kt' s : inv cfg t kt s -> table_ok kt' -> table_grows kt kt' -> inv cfg t kt' (set_delegate (Some kt') s).
Proof.
  intros [I1 I2 I3 I4 I5 I6] Hkt' Hg. constructor; try done.
  - intros d x H. destruct (I5 d x H) as (y & ? & ?). exists y. auto.
  - intros x d H. destruct (I6 x d H) as (y & ? & ?). exists y. auto.
Qed.
Lemma sim_intern s A n kt k : sim s A n kt -> exists e kt' s', internKey k s = Ok (e, s') /\ sim s' A n kt' /\ table_grows kt kt' /\ named kt' e k.
Proof.
  intros H. destruct (sim_table _ _ _ _ H) as [Ht Hd]. destruct (intern_ok kt k Ht) as (e & kt' & E & Hkt' & G & N).
  exists e, kt', (set_delegate (Some kt') s). split; [by rewrite (internKey_eq kt), E|]. split; [|done]. destruct H as [Hf Hc]. split; [done|].
  destruct Hc as [H1 H2 H3|c t H1 [H2 H3 H4] H5 H6 H7].
  - apply not_connected; [done|done|]. by eapply inv_delegate.
  - apply (is_connected _ _ _ _ c t); [done| |done..]. constructor; [by eapply inv_delegate|done|done].
Qed.

Lemma same_dependency_app kt l l' x y : Forall2 (same_dependency kt) l l' -> same_dependency kt x y -> Forall2 (same_dependency kt) (l ++ [x]) (l' ++ [y]).
Proof. intros H1 H2. apply Forall2_app; [done|]. by constructor. Qed.

Lemma sim_interns A n l : forall s kt deps done, sim s A n kt -> deps_wf deps -> Forall2 (same_dependency kt) (view deps) done ->
  exists kt' s' deps', internDependencies l deps s = Ok (deps', s') /\ sim s' A n kt' /\ table_grows kt kt' /\ deps_wf deps'
    /\ Forall2 (same_dependency kt') (view deps') (done ++ l).
Proof.
  induction l as [|x l IH]; intros s kt deps done H Hw Hd.
  { exists kt, s, deps. rewrite app_nil_r. split; [reflexivity|]. split; [exact H|]. split; [apply table_grows_refl|]. by split. }
  cbn [internDependencies]. destruct (sim_intern s A n kt (dep_key x) H) as (e & kt1 & s1 & E1 & H1 & G1 & N1). rewrite (bind_ok _ _ _ _ _ E1).
  destruct (view_push_back deps e (dep_orderOnly x) (dep_singleUse x) Hw) as [V W].
  destruct (IH s1 kt1 (deps_push_back deps e (dep_orderOnly x) (dep_singleUse x)) (done ++ [x]) H1 W) as (kt2 & s2 & deps2 & E2 & H2 & G2 & W2 & D2).
  { rewrite V. apply same_dependency_app; [by eapply same_dependency_grows|]. by split. }
  exists kt2, s2, deps2. rewrite <- app_assoc in D2. split; [exact E2|]. split; [exact H2|]. split; [by eapply table_grows_trans|]. by split.
Qed.
Lemma sim_result s A n kt a : sim s A n kt -> exists kt' s' r, toResult a s = Ok (r, s') /\ sim s' A n kt' /\ table_grows kt kt' /\ is_result kt' r a.
Proof.
  intros H. destruct (sim_interns A n (s_dependencies a) s kt (mkDeps [] []) [] H) as (kt1 & s1 & deps & E & H1 & G & W & D); [done|constructor|].
  unfold toResult. rewrite (bind_ok _ _ _ _ _ E). exists kt1, s1. eexists. split; [reflexivity|]. split; [done|]. split; [done|]. by constructor.
Qed.

Lemma nameDependencies_ok t kt s l l' : live cfg t kt s -> Forall2 (same_dependency kt) l l' -> nameDependencies l s = Ok (l', s).
Proof.
  intros H. induction 1 as [|x [k o u] l l' (Hk & Ho & Hu) _ IH]; [done|]. cbn [nameDependencies dep_key dep_orderOnly dep_singleUse] in *.
  rewrite (bind_ok _ _ _ _ _ (live_key _ _ _ _ _ _ H Hk)), (bind_ok _ _ _ _ _ IH). by rewrite Ho, Hu.
Qed.
Lemma fromResult_ok t kt s r a : live cfg t kt s -> is_result kt r a -> fromResult r s = Ok (a, s).
Proof.
  intros H [R1 R2 R3 R4 R5 R6 _ R7]. unfold fromResult. rewrite (bind_ok _ _ _ _ _ (nameDependencies_ok _ _ _ _ _ H R7)).
  rewrite R1, R2, R3, R4, R5, R6. by destruct a.
Qed.

(** The tables of an open database were written. *)
Lemma sim_written s A n kt c t n' t' s' x : db s = Some c -> file_rep (file s) (committed A) n -> (transaction c = None <-> inBuild A = None) -> 0 <= n' <= n ->
  live cfg t kt s -> live cfg t' kt s' -> written s t' s' -> rep t' x -> room t' n' -> sim s' (set_current x A) n' kt.
Proof.
  intros Hd Hf Ht Hn Hl [H1 (c' & Hd' & Hb & Hs) H3] (W1 & W2 & W3) Hx Hr.
  assert (Hin : in_build s <-> is_Some (inBuild A)).
  { unfold in_build. rewrite Hd. destruct (transaction c) as [f|] eqn:E, (inBuild A) as [b|] eqn:Eb.
    - split; intros _; [eauto|by exists c, f].
    - discriminate (proj2 Ht eq_refl).
    - discriminate (proj1 Ht eq_refl).
    - split; [intros (c2 & f & [= <-] & E2); congruence|by intros [? ?]]. }
  assert (Hin' : in_build s' <-> transaction c' <> None).
  { unfold in_build. rewrite Hd'. split; [intros (c2 & f & [= <-] & E2); congruence|]. intros Hne. destruct (transaction c') as [f|] eqn:E; [by exists c', f|done]. }
  unfold set_current. destruct (inBuild A) as [b|] eqn:Eb.
  - assert (Hyes : in_build s) by (apply Hin; eauto). rewrite <- W2 in Hf by done. split.
    + cbn. revert Hf. unfold file_rep. destruct (file s'); unfold room; naive_solver lia.
    + eapply is_connected; [exact Hd'|by constructor; [|eexists|]|done|done|]. cbn. split; [|done]. intros Hno. by destruct (proj1 Hin' (proj1 W1 Hyes)).
  - assert (Hno : ~ in_build s) by (intros [? ?]%Hin; done). split.
    + rewrite W3 by done. cbn. by split; [apply (in_names _ _ _ _ H1)|].
    + eapply is_connected; [exact Hd'|by constructor; [|eexists|]|done|done|]. cbn. split; [done|]. intros _.
      destruct (transaction c') eqn:E; [|done]. destruct Hno. apply W1, Hin'. congruence.
Qed.

Definition simulates (op : Op) : Prop := forall s A n kt, 0 <= n -> sim s A (weight op + n) kt -> allowed op A ->
  exists kt' s', exec op s = Ok (inl (spec op A).1, s') /\ sim s' (spec op A).2 n kt'.

Lemma getDelegate_ok s kt : delegate s = Some kt -> getDelegate s = Ok (kt, s).
Proof. intros E. unfold getDelegate, bind, gets. by rewrite E. Qed.
(** An operation that opens the database first may as well find it open. *)
Lemma open_first {T} (m : DB T) s s' : open cfg s = Ok (inl tt, s') -> open cfg s' = Ok (inl tt, s') ->
  (open cfg ;; m)%db s = (open cfg ;; m)%db s'.
Proof. intros E E'. unfold dbind. by rewrite (bind_ok _ _ _ _ _ E), (bind_ok _ _ _ _ _ E'). Qed.

Lemma lookup_simulates k : simulates (opLookup k).
Proof.
  intros s A n kt Hn H Hk. cbn [exec weight] in *. destruct (sim_intern s A n kt k H) as (e & kt1 & s1 & E1 & H1 & G1 & N1).
  rewrite (bind_ok _ _ _ _ _ E1). destruct (sim_open s1 A n kt1 H1) as (s2 & c & t & E2 & H2 & D2 & L2 & R2 & M2 & T2).
  destruct R2 as (Hm & Hi & Hr). destruct (lookupRuleResult_ok cfg t kt1 s2 (current A).1 e k newResult L2 Hm N1 Hk eq_refl) as (kt3 & s3 & r & E3 & L3 & G3 & F3 & D3 & R3).
  assert (E : lookupRuleResult cfg e k newResult s1 = Ok (inl r, s3)).
  { rewrite <- E3. unfold lookupRuleResult. destruct (sim_table _ _ _ _ H1) as [_ Hd1], (sim_table _ _ _ _ H2) as [_ Hd2].
    rewrite (bind_ok _ _ _ _ _ (getDelegate_ok _ _ Hd1)), (bind_ok _ _ _ _ _ (getDelegate_ok _ _ Hd2)), !bind_ensure by done.
    exact (open_first _ _ _ E2 (live_open _ _ _ _ L2)). }
  unfold dbind. rewrite (bind_ok _ _ _ _ _ E). cbn [spec fst snd]. exists kt3.
  assert (H3 : sim s3 A n kt3).
  { destruct H2 as [Hf _]. split; [by rewrite F3|]. apply (is_connected _ _ _ _ c t); [congruence|done|done|done|done]. }
  destruct r as [r|]; [|by rewrite R3; exists s3]. destruct R3 as (a & -> & Ha). rewrite (bind_ok _ _ _ _ _ (fromResult_ok _ _ _ _ _ L3 Ha)). by exists s3.
Qed.

Lemma set_simulates k a : simulates (opSet k a).
Proof.
  intros s A n kt Hn H [Hk Ha]. cbn [exec weight] in *. set (w := 1 + _) in H.
  destruct (sim_intern s A _ kt k H) as (e & kt1 & s1 & E1 & H1 & G1 & N1). rewrite (bind_ok _ _ _ _ _ E1).
  destruct (sim_result s1 A _ kt1 a H1) as (kt2 & s2 & r & E2 & H2 & G2 & R2). rewrite (bind_ok _ _ _ _ _ E2).
  destruct (sim_open s2 A (w + n) kt2 H2) as (s3 & c & t & E3 & H3 & D3 & L3 & (Hm & Hi & Hr) & M3 & T3).
  destruct (setRuleResult_ok cfg t kt2 s3 (current A).1 e k r a L3 Hm) as (t4 & s4 & E4 & L4 & Hm4 & Hi4 & N4 & W4);
    [by apply G2|done..|unfold room, w in M3; lia|].
  assert (E : setRuleResult cfg e r s2 = Ok (inl tt, s4)).
  { rewrite <- E4. unfold setRuleResult. destruct (sim_table _ _ _ _ H2) as [_ Hd1], (sim_table _ _ _ _ H3) as [_ Hd2].
    rewrite (bind_ok _ _ _ _ _ (getDelegate_ok _ _ Hd1)), (bind_ok _ _ _ _ _ (getDelegate_ok _ _ Hd2)).
    exact (open_first _ _ _ E3 (live_open _ _ _ _ L3)). }
  unfold dbind. rewrite (bind_ok _ _ _ _ _ E). exists kt2, s4. split; [done|]. cbn [spec snd].
  apply (sim_written s3 A (w + n) kt2 c t n t4 s4); [done|apply H3|done|unfold w; lia|done..| |].
  - cbn. split; [done|]. split; [rewrite Hi4; exact Hi|done].
  - unfold room, w in *. lia.
Qed.

Lemma epoch_simulates : simulates opGetEpoch.
Proof.
  intros s A n kt Hn H _. cbn [exec weight] in *. destruct (sim_open s A n kt H) as (s1 & c & t & E1 & H1 & D1 & L1 & (Hm & Hi & Hr) & M1 & T1).
  unfold getCurrentEpoch, dbind. rewrite !bind_assoc, (bind_ok _ _ _ _ _ E1), !bind_assoc, (bind_ok _ _ _ _ _ (live_checked _ _ _ _ L1)).
  rewrite !bind_assoc, (bind_ok _ _ _ _ _ (live_checked _ _ _ _ L1)), !bind_assoc, (bind_ok _ _ _ _ _ (live_tables _ _ _ _ L1)), Hi.
  exists kt, s1. cbn. rewrite u64_i64 by done. done.
Qed.

Lemma setEpoch_simulates v : simulates (opSetEpoch v).
Proof.
  intros s A n kt Hn H Hv. cbn [exec weight] in *. destruct (sim_open s A n kt H) as (s1 & c & t & E1 & H1 & D1 & L1 & (Hm & Hi & Hr) & M1 & T1).
  unfold setCurrentIteration, dbind. rewrite !bind_assoc, (bind_ok _ _ _ _ _ E1). do 3 rewrite !bind_assoc, (bind_ok _ _ _ _ _ (live_checked _ _ _ _ L1)).
  rewrite !bind_assoc, (bind_ok _ _ _ _ _ (live_tables _ _ _ _ L1)). destruct (live_store cfg t kt s1 (set_iteration (i64 v) t) L1) as (s2 & E2 & L2 & W2);
    [apply (in_names _ _ _ _ (lv_inv _ _ _ _ L1))|done|].
  rewrite bind_assoc, (bind_ok _ _ _ _ _ E2). exists kt, s2. split; [done|]. cbn [spec snd].
  apply (sim_written s1 A n kt c t n (set_iteration (i64 v) t) s2); [done|apply H1|done|lia|done..| |done].
  split; [|split; [|done]].
  - destruct Hm as [A1 A2]. split; [|exact A2]. intros d row Hd. destruct (A1 d row Hd) as (k & a & ? & ? & []). exists k, a. split; [done|]. split; [done|]. by constructor.
  - cbn. by rewrite Hi.
Qed.

Lemma start_simulates : simulates opStart.
Proof.
  intros s A n kt Hn H Hb. cbn [exec weight allowed] in *. destruct (sim_open s A n kt H) as (s1 & c & t & E1 & H1 & D1 & L1 & R1 & M1 & T1).
  unfold buildStarted, dbind. rewrite !bind_assoc, (bind_ok _ _ _ _ _ E1), !bind_assoc, (bind_ok _ _ _ _ _ (live_checked _ _ _ _ L1)).
  rewrite bind_assoc. unfold bind at 1, get. rewrite D1. pose proof (proj2 T1 Hb) as Ht. rewrite Ht.
  exists kt. eexists. split; [reflexivity|]. cbn [spec snd]. destruct L1 as [Hi (c' & Hd' & Hbr & Hst) Hc]. rewrite D1 in Hd'. injection Hd' as <-.
  unfold contents in Hc. rewrite D1, Ht in Hc. cbn in Hc. split; [exact (proj1 H1)|].
  eapply is_connected; [reflexivity| | | |done].
  - constructor; [by destruct Hi|by eexists|]. unfold contents. by rewrite <- Hc.
  - unfold current in *. by rewrite Hb in R1.
  - exact M1.
Qed.

Lemma complete_simulates : simulates opComplete.
Proof.
  intros s A n kt Hn [Hf Hc] [b Hb]. cbn [exec weight] in *. destruct Hc as [_ ? _|c t Hd Hl Hr Hm Ht]; [congruence|].
  destruct (transaction c) as [f|] eqn:Et; [|by rewrite (proj1 Ht eq_refl) in Hb].
  assert (Ef : f = Schema t). { pose proof (lv_contents _ _ _ _ Hl) as E. unfold contents in E. by rewrite Hd, Et in E. }
  unfold buildComplete. rewrite bind_assoc, (bind_ok _ _ _ _ _ (live_call _ _ _ _ Hl)), bind_assoc. unfold bind at 1, get. rewrite Hd, Et.
  rewrite bind_assoc, bind_modify. unfold close. rewrite bind_modify. exists kt. eexists. split; [reflexivity|]. cbn [spec snd]. subst f.
  pose proof (in_names _ _ _ _ (lv_inv _ _ _ _ Hl)) as Hnames. split; [cbn; by split|].
  apply not_connected; [done|done|]. cbn. destruct (lv_inv _ _ _ _ Hl). by constructor.
Qed.

Lemma restart_simulates : simulates opRestart.
Proof.
  intros s A n kt Hn H _. cbn [exec weight] in *. exists emptyKeyTable. eexists. split; [reflexivity|]. cbn [spec snd].
  pose proof (sim_script _ _ _ _ H) as Hs. destruct H as [Hf _]. split; [exact Hf|]. apply not_connected; [done|done|].
  constructor; cbn; [done|done|apply empty_table_ok| |by intros ? ? ?%lookup_empty_Some|by intros ? ? ?%lookup_empty_Some].
  destruct (file s); [..|apply Hf]; (constructor; [apply NoDup_nil_2|apply NoDup_nil_2|by intros ? ? ?%elem_of_nil|by intros ? ? ?%elem_of_nil]).
Qed.

Lemma every_simulates op : simulates op.
Proof.
  destruct op; [apply start_simulates|apply lookup_simulates|apply set_simulates|apply epoch_simulates|apply setEpoch_simulates|
    apply complete_simulates|apply restart_simulates].
Qed.

Lemma totalWeight_positive ops : 0 <= totalWeight ops.
Proof. unfold totalWeight. induction ops as [|op ops IH]; cbn [foldr]; [lia|]. destruct op; cbn [weight]; lia. Qed.

Lemma all_simulate ops : forall s A kt, sim s A (totalWeight ops) kt -> allAllowed ops A ->
  exists s', execAll ops s = Ok (inl (specAll ops A), s').
Proof.
  induction ops as [|op ops IH]; intros s A kt H Ha; [by exists s|]. destruct Ha as [Ha Hall].
  destruct (every_simulates op s A (totalWeight ops) kt (totalWeight_positive ops) H Ha) as (kt1 & s1 & E1 & H1).
  destruct (IH s1 _ kt1 H1 Hall) as (s2 & E2). exists s2. cbn [execAll specAll]. unfold dbind. by rewrite (bind_ok _ _ _ _ _ E1), (bind_ok _ _ _ _ _ E2).
Qed.

(** C9: For keys that SQLite keeps as they are, the database is a map with transactions.  The
    column of the keys has numeric affinity, so that keys which are the same number share a
    row ([number_keys_collide]); the statement is about keys that are not rewritten
    ([verbatim]).  While the calls of the SQLite library succeed, which is thread safe, with
    fewer than 2^62 keys, a client that lets a database of another version be made again, and
    builds started and completed in turn, whatever sequence of operations processes perform on it one after another --
    starting and completing builds, looking up and storing results and iterations in builds
    or outside, ending at any time -- no assertion fails, no error is reported and every
    answer is that of a map from keys to results: a look-up gives the result stored last
    under this key, with its value, signature, epochs and its dependencies in order with
    their flags, whatever numbers the engines of the processes gave the keys; a build's
    changes are there for others when it is complete, and are lost together if the process
    ends before. *)
Theorem database_is_map ops : totalWeight ops < 2 ^ 62 -> allAllowed ops emptyAbs ->
  exists s', execAll ops (newProcess NoFile []) = Ok (inl (specAll ops emptyAbs), s').
Proof.
  intros Hw Ha. apply (all_simulate ops _ emptyAbs emptyKeyTable); [|done]. split.
  - cbn. split; [done|]. unfold room. cbn. lia.
  - apply not_connected; [done|done|]. constructor; cbn; [done|done|apply empty_table_ok| |by intros ? ? ?%lookup_empty_Some|by intros ? ? ?%lookup_empty_Some].
    constructor; [apply NoDup_nil_2|apply NoDup_nil_2|by intros ? ? ?%elem_of_nil|by intros ? ? ?%elem_of_nil].
Qed.
End Session.

(** ** Runs *)

Definition exampleConfig : Config := mkConfig "db" 9 true true (fun _ => "failed"%string) (fun k => k).
Definition valueOf (n : Z) : Stored := mkStored [n] 5 1 1 0 0 [].
Definition exampleOps : list Op := [opStart; opSet "all" (mkStored [7] 5 1 1 0 0 [mkDep "a" false true; mkDep "b" true false]); opSet "a" (valueOf 1);
  opSetEpoch 1; opComplete; opRestart; opLookup "all"; opStart; opSet "a" (valueOf 2); opLookup "a"; opRestart; opLookup "a"; opLookup "b"; opGetEpoch].

Lemma database_is_map_witness : exists s', execAll exampleConfig exampleOps (newProcess NoFile []) = Ok (inl
    [Done; Done; Done; Done; Done; Done; Found (Some (mkStored [7] 5 1 1 0 0 [mkDep "a" false true; mkDep "b" true false]));
     Done; Done; Found (Some (valueOf 2)); Done; Found (Some (valueOf 1)); Found None; Epoch 1], s').
Proof.
  apply (database_is_map exampleConfig eq_refl eq_refl ltac:(by split) exampleOps); [reflexivity|].
  assert (Hok : forall v l, range 8 v -> stored_ok exampleConfig (mkStored [v] 5 1 1 0 0 l)).
  { intros v l Hv. constructor; cbn; try (by split); try (by constructor). by apply Forall_true. }
  cbn. repeat match goal with |- _ /\ _ => split | |- stored_ok _ _ => apply Hok | |- is_Some _ => eexists end; done.
Defined.

Definition answers {A} (r : outcome ((A + string) * State)) : option (A + string) := match r with Ok (x, _) => Some x | Crash _ => None end.

(** A column of type STRING has numeric affinity: keys that are the same number share a row. *)
Fixpoint stripZeros (k : string) : string :=
  match k with String "0"%char (String c k' as k1) => stripZeros k1 | _ => k end.
Example number_keys_collide :
  answers (execAll (mkConfig "db" 9 true true (fun _ => "failed"%string) stripZeros) [opSet "1" (valueOf 1); opSet "01" (valueOf 2); opRestart; opLookup "1"] (newProcess NoFile []))
  = Some (inl [Done; Done; Done; Found (Some (valueOf 2))]).
Proof. vm_compute. reflexivity. Qed.

(** The caches outlive the connection: if another process makes the file anew in between, a
    key is looked up under the number it had in the old one. *)
Example caches_outlive_file :
  answers ((execAll exampleConfig [opStart; opSet "a" (valueOf 1); opComplete];;
            r <- dlift (gets (fun s => execAll exampleConfig [opStart; opSet "b" (valueOf 2); opComplete] (newProcess NoFile [])));;
            match r with Ok (_, s') => modify (set_file (file s')) | Crash _ => ret tt end ;;;
            execAll exampleConfig [opLookup "a"]) (newProcess NoFile []))
  = Some (inl [Found (Some (valueOf 2))]).
Proof. vm_compute. reflexivity. Qed.

(** An open that fails after [db] is set is not noticed by the next operation, which uses
    statements that are null. *)
Example failed_open_forgotten :
  let s := newProcess NoFile [None; None; None; None; None; None; None; None; None; None; None; None; Some SQLITE_BUSY] in
  answers (exec exampleConfig (opLookup "a") s)
    = Some (inr (getCurrentErrorMessage exampleConfig SQLITE_BUSY))
  /\ (match exec exampleConfig (opLookup "a") s with Ok (_, s') => answers (exec exampleConfig (opLookup "a") s') | Crash _ => Some (inr "") end) = None.
Proof. by vm_compute. Qed.

(** If the step that looks for the number of a key fails, the key is inserted, in vain if it
    is there, and the last rowid is taken: the result is stored for another key. *)
Definition failingStep : DB (list Answer) :=
  execAll exampleConfig [opStart; opSet "a" (valueOf 1); opComplete; opRestart; opStart; opSet "c" (valueOf 3)];;
  modify (set_script [None; None; None; Some SQLITE_BUSY]) ;;;
  execAll exampleConfig [opSet "a" (valueOf 2); opComplete; opRestart; opLookup "a"; opLookup "c"].
Example failing_step_wrong_key :
  answers (failingStep (newProcess NoFile [])) = Some (inl [Done; Done; Done; Found (Some (valueOf 1)); Found (Some (valueOf 2))]).
Proof. vm_compute. reflexivity. Qed.

(** A step that fails ends the enumeration of the keys without an error. *)
Example keys_cut_short :
  answers ((execAll exampleConfig [opSet "a" (valueOf 1); opSet "b" (valueOf 2)];;
            modify (set_script [None; None; Some SQLITE_BUSY]) ;;; getKeys exampleConfig) (newProcess NoFile []))
  = Some (inl ["a"]).
Proof. vm_compute. reflexivity. Qed.

(** If there is no file of this name to delete, as for a database in memory, the schema is
    made on a null pointer and the message that is not set is read. *)
Example memory_database_uninitialised :
  exec (mkConfig ":memory:" 9 true true (fun _ => "failed"%string) (fun k => k)) opGetEpoch (newProcess NoFile [None; None; Some ENOENT])
  = Crash (OutOfBounds "cError").
Proof. vm_compute. reflexivity. Qed.
