(* ===== verification/SerialQueue.v ===== *)
(** * The serial queue

    [SerialQueueImpl] of lib/Basic/SerialQueue.cpp as a transition system: one worker
    thread executes operations in the order in which they are added, by other threads or by
    operations, until the destructor's nil operation.  What an operation does besides
    calling the queue is left open.  The regions a thread executes under a mutex are single
    steps.  [sync] adds an operation that signals its completion; each of its calls is
    numbered by a ticket. *)

From Stdlib Require Import Lia ZArith String.
From stdpp Require Import base list option strings numbers sets.
From S2P Require Import Prelude.

Section Queue.
Context {O : Type}.

(** ** State *)

(** An operation in the queue; the ticket of the [sync] that waits for it. *)
Record Entry := mkEntry { op : O; ticket : option nat }.

Inductive WorkerPC :=
| AtLock                          (* about to take the lock and test the queue *)
| Waiting                         (* in readyOperationsCondition.wait *)
| Got (x : option Entry)          (* an operation was taken, the lock released *)
| Running (x : Entry)             (* in fn() *)
| Completing (t : nat)            (* after the fn() of a sync, before the lock *)
| Syncing (x : Entry) (t : nat)   (* in a sync called by the operation *)
| Exited.

(** The variables on the stack of a [sync], and where it is. *)
Inductive SyncPC := STesting | SWaiting | SReturned.
Record Sync := mkSync { isComplete : bool; spc : SyncPC }.

Inductive Phase := Alive | Joining | Destroyed.
Inductive Event := EAdd (x : option Entry) | EStart (x : Entry) | EFinish (x : Entry) | EReturn (t : nat).

Record Queue := mkQueue {
  operations : list (option Entry);
  worker : WorkerPC;
  syncs : list Sync;
  phase : Phase;
  trace : list Event }.
Definition set_operations (l : list (option Entry)) (q : Queue) : Queue := mkQueue l (worker q) (syncs q) (phase q) (trace q).
Definition set_worker (w : WorkerPC) (q : Queue) : Queue := mkQueue (operations q) w (syncs q) (phase q) (trace q).
Definition set_syncs (l : list Sync) (q : Queue) : Queue := mkQueue (operations q) (worker q) l (phase q) (trace q).
Definition set_phase (p : Phase) (q : Queue) : Queue := mkQueue (operations q) (worker q) (syncs q) p (trace q).
Definition log (e : Event) (q : Queue) : Queue := mkQueue (operations q) (worker q) (syncs q) (phase q) (trace q ++ [e]).

Definition newQueue : Queue := mkQueue [] AtLock [] Alive [].

(** ** Operations *)

(** [notify_one]: only the worker waits. *)
Definition notifyWorker (q : Queue) : Queue := match worker q with Waiting => set_worker AtLock q | _ => q end.
Definition addOperation (x : option Entry) (q : Queue) : Queue := notifyWorker (log (EAdd x) (set_operations (operations q ++ [x]) q)).

Definition async (o : O) (q : Queue) : Queue := addOperation (Some (mkEntry o None)) q.
(** [sync] up to the test of [isComplete]. *)
Definition syncEnter (o : O) (q : Queue) : Queue :=
  addOperation (Some (mkEntry o (Some (length (syncs q))))) (set_syncs (syncs q ++ [mkSync false STesting]) q).
(** The loop of [sync]. *)
Definition syncTest (t : nat) (q : Queue) : option Queue :=
  s ← syncs q !! t;
  match spc s with
  | STesting =>
      Some (if isComplete s then
              let q' := log (EReturn t) (set_syncs (<[t := mkSync true SReturned]> (syncs q)) q) in
              match worker q with Syncing x t' => if decide (t = t') then set_worker (Running x) q' else q' | _ => q' end
            else set_syncs (<[t := mkSync false SWaiting]> (syncs q)) q)
  | _ => None
  end.
Definition syncWake (t : nat) (q : Queue) : option Queue :=
  s ← syncs q !! t;
  match spc s with SWaiting => Some (set_syncs (<[t := mkSync (isComplete s) STesting]> (syncs q)) q) | _ => None end.

(** The end of the operation of a [sync]: set the flag and notify, under the lock. *)
Definition complete (t : nat) (q : Queue) : option (outcome Queue) :=
  s ← syncs q !! t;
  Some match spc s with
       | SReturned => Crash (UseAfterFree "isCompleteMutex")
       | _ => Ok (set_worker AtLock (set_syncs (<[t := mkSync true STesting]> (syncs q)) q))
       end.

(** [run]. *)
Definition workerStep (q : Queue) : option (outcome Queue) :=
  match worker q with
  | AtLock =>
      Some (Ok (match operations q with
                | [] => set_worker Waiting q
                | x :: l => set_worker (Got x) (set_operations l q)
                end))
  | Got None => Some (Ok (set_worker Exited q))
  | Got (Some x) => Some (Ok (log (EStart x) (set_worker (Running x) q)))
  | Running x =>
      Some (Ok (log (EFinish x) (set_worker (match ticket x with Some t => Completing t | None => AtLock end) q)))
  | Completing t => complete t q
  | Waiting | Syncing _ _ | Exited => None
  end.

Definition destructorStep (q : Queue) : option Queue :=
  match phase q, worker q with
  | Alive, _ => Some (addOperation None (set_phase Joining q))
  | Joining, Exited => Some (set_phase Destroyed q)
  | _, _ => None
  end.

(** ** Steps *)

Inductive Label :=
| WorkerL
| SpuriousL
| ClientAsync (o : O)
| ClientSync (o : O)
| OperationAsync (o : O)
| OperationSync (o : O)
| SyncL (t : nat)
| SyncSpuriousL (t : nat)
| DestructorL.

(** Clients use the queue before they destroy it; operations while they run. *)
Definition step (l : Label) (q : Queue) : option (outcome Queue) :=
  match l with
  | WorkerL => workerStep q
  | SpuriousL => match worker q with Waiting => Some (Ok (set_worker AtLock q)) | _ => None end
  | ClientAsync o => match phase q with Alive => Some (Ok (async o q)) | _ => None end
  | ClientSync o => match phase q with Alive => Some (Ok (syncEnter o q)) | _ => None end
  | OperationAsync o => match worker q with Running _ => Some (Ok (async o q)) | _ => None end
  | OperationSync o =>
      match worker q with
      | Running x => Some (Ok (set_worker (Syncing x (length (syncs q))) (syncEnter o q)))
      | _ => None
      end
  | SyncL t => Ok <$> syncTest t q
  | SyncSpuriousL t => Ok <$> syncWake t q
  | DestructorL => Ok <$> destructorStep q
  end.

Inductive reachable : Queue -> Prop :=
| reach_new : reachable newQueue
| reach_step q l q' : reachable q -> step l q = Some (Ok q') -> reachable q'.

(** ** What happened *)

Definition added (q : Queue) : list (option Entry) := omap (fun e => match e with EAdd x => Some x | _ => None end) (trace q).
Definition started (q : Queue) : list Entry := omap (fun e => match e with EStart x => Some x | _ => None end) (trace q).
Definition finished (q : Queue) : list Entry := omap (fun e => match e with EFinish x => Some x | _ => None end) (trace q).
Definition returned (q : Queue) : list nat := omap (fun e => match e with EReturn t => Some t | _ => None end) (trace q).
(** Starts and ends in order. *)
Definition activity (q : Queue) : list (bool * Entry) :=
  omap (fun e => match e with EStart x => Some (true, x) | EFinish x => Some (false, x) | _ => None end) (trace q).

(** ** The invariant *)

Definition current (w : WorkerPC) : list Entry := match w with Running x | Syncing x _ => [x] | _ => [] end.
Definition taken (w : WorkerPC) : list (option Entry) := match w with Got x => [x] | Exited => [None] | _ => [] end.
Definition tickets (l : list (option Entry)) : list nat := omap (fun x : option Entry => x ≫= ticket) l.

(** A [sync] in the state [s] with the ticket [t]. *)
Record sync_ok (q : Queue) (t : nat) (s : Sync) : Prop := {
  so_complete : isComplete s = true <-> t ∈ tickets (map Some (finished q)) /\ worker q <> Completing t;
  so_waiting : spc s = SWaiting -> isComplete s = false;
  so_returned : spc s = SReturned <-> t ∈ returned q;
  so_done : spc s = SReturned -> isComplete s = true }.

Record queue_ok (q : Queue) : Prop := {
  qo_added : added q = map Some (started q) ++ taken (worker q) ++ operations q;
  qo_started : started q = finished q ++ current (worker q);
  qo_activity : activity q = flat_map (fun x => [(true, x); (false, x)]) (finished q) ++ map (pair true) (current (worker q));
  qo_awake : worker q = Waiting -> operations q = [];
  qo_tickets : tickets (added q) = seq 0 (length (syncs q));
  qo_syncs : forall t s, syncs q !! t = Some s -> sync_ok q t s;
  qo_returned : forall t, t ∈ returned q -> is_Some (syncs q !! t);
  qo_completing : forall t, worker q = Completing t -> exists l x, finished q = l ++ [x] /\ ticket x = Some t;
  qo_nil : length (filter (fun x => x = None) (added q)) = match phase q with Alive => 0%nat | _ => 1%nat end;
  qo_destroyed : phase q = Destroyed -> worker q = Exited }.

Lemma tickets_app l1 l2 : tickets (l1 ++ l2) = tickets l1 ++ tickets l2.
Proof. apply omap_app. Qed.
Lemma elem_of_tickets_app t l1 l2 : t ∈ tickets (l1 ++ l2) <-> t ∈ tickets l1 \/ t ∈ tickets l2.
Proof. by rewrite tickets_app, elem_of_app. Qed.

Lemma new_queue_ok : queue_ok newQueue.
Proof.
  constructor; try done.
  intros t. cbn. by rewrite elem_of_nil.
Qed.

Lemma finished_ticket q t : queue_ok q -> t ∈ tickets (map Some (finished q)) -> t < length (syncs q).
Proof.
  intros H Ht. assert (Ha : t ∈ tickets (added q)).
  { rewrite (qo_added q H), (qo_started q H), map_app, <- !app_assoc, tickets_app. apply elem_of_app. by left. }
  rewrite (qo_tickets q H) in Ha. apply elem_of_seq in Ha. lia.
Qed.

Lemma sync_ok_frame q q' t s : finished q' = finished q -> returned q' = returned q ->
  (worker q' = Completing t <-> worker q = Completing t) -> sync_ok q t s -> sync_ok q' t s.
Proof.
  intros Hf Hr Hw [H1 H2 H3 H4]. constructor; [|done|by rewrite Hr|done]. rewrite Hf, H1. naive_solver.
Qed.

(** A change of the worker's position that keeps what it does. *)
Lemma set_worker_ok q w : queue_ok q -> current w = current (worker q) -> taken w = taken (worker q) -> w <> Waiting ->
  (forall t, w = Completing t <-> worker q = Completing t) -> (phase q = Destroyed -> w = Exited) -> queue_ok (set_worker w q).
Proof.
  intros [] Hc Ht Hw Hcm Hd. constructor; cbn; try done; rewrite ?Hc, ?Ht; try done.
  - intros t s E. apply (sync_ok_frame q); auto.
  - intros t E%Hcm. auto.
Qed.
Lemma notifyWorker_ok q : queue_ok q -> queue_ok (notifyWorker q).
Proof.
  intros H. unfold notifyWorker. destruct (worker q) eqn:E; try done. apply set_worker_ok; rewrite ?E; try done.
  intros Hd. pose proof (qo_destroyed q H Hd). congruence.
Qed.

(** Adding an operation, with the stack of the [sync] that waits for it. *)
Lemma enqueue_ok q x ss p : queue_ok q -> worker q <> Waiting ->
  seq 0 (length ss) = tickets (added q) ++ tickets [x] ->
  (forall t s, ss !! t = Some s -> syncs q !! t = Some s \/ t = length (syncs q) /\ s = mkSync false STesting) ->
  (forall t s, syncs q !! t = Some s -> ss !! t = Some s) ->
  length (filter (fun x => x = None) (added q ++ [x])) = match p with Alive => 0%nat | _ => 1%nat end ->
  (p = Destroyed -> worker q = Exited) -> queue_ok (log (EAdd x) (set_operations (operations q ++ [x]) (set_phase p (set_syncs ss q)))).
Proof.
  intros H Hw Hs Hnew Hold Hnil Hd. set (q' := log _ _).
  assert (Ea : added q' = added q ++ [x]) by (unfold added; cbn; by rewrite omap_app).
  assert (Es : started q' = started q) by (unfold started; cbn; by rewrite omap_app, app_nil_r).
  assert (Ef : finished q' = finished q) by (unfold finished; cbn; by rewrite omap_app, app_nil_r).
  assert (Er : returned q' = returned q) by (unfold returned; cbn; by rewrite omap_app, app_nil_r).
  assert (Ec : activity q' = activity q) by (unfold activity; cbn; by rewrite omap_app, app_nil_r).
  pose proof H as []. constructor; rewrite ?Ea, ?Es, ?Ef, ?Er, ?Ec; cbn; try done.
  - by rewrite qo_added0, <- !app_assoc.
  - by rewrite tickets_app.
  - intros t s [E|[-> ->]]%Hnew.
    + apply (sync_ok_frame q); auto.
    + constructor; rewrite ?Ef, ?Er; cbn [isComplete spc]; try done.
      * split; [done|]. intros [E%finished_ticket _]; [lia|done].
      * split; [done|]. intros [s E]%qo_returned0. apply lookup_lt_Some in E. lia.
  - intros t [s E]%qo_returned0. eauto.
Qed.
Lemma addOperation_ok q x ss p : queue_ok q ->
  seq 0 (length ss) = tickets (added q) ++ tickets [x] ->
  (forall t s, ss !! t = Some s -> syncs q !! t = Some s \/ t = length (syncs q) /\ s = mkSync false STesting) ->
  (forall t s, syncs q !! t = Some s -> ss !! t = Some s) ->
  length (filter (fun x => x = None) (added q ++ [x])) = match p with Alive => 0%nat | _ => 1%nat end ->
  p <> Destroyed -> queue_ok (addOperation x (set_phase p (set_syncs ss q))).
Proof.
  intros H Hs Hnew Hold Hnil Hd.
  assert (E : addOperation x (set_phase p (set_syncs ss q)) =
    log (EAdd x) (set_operations (operations (notifyWorker q) ++ [x]) (set_phase p (set_syncs ss (notifyWorker q))))).
  { unfold addOperation, notifyWorker. cbn. by destruct (worker q) eqn:E; cbn; rewrite ?E. }
  assert (Ew : syncs (notifyWorker q) = syncs q /\ added (notifyWorker q) = added q) by (unfold notifyWorker; by destruct (worker q)).
  destruct Ew as [Ew1 Ew2]. rewrite E. apply enqueue_ok; rewrite ?Ew1, ?Ew2; try done; [by apply notifyWorker_ok|].
  unfold notifyWorker. destruct (worker q) eqn:Ew; cbn; congruence.
Qed.

Lemma alive_nil q o : queue_ok q -> length (filter (fun x => x = None) (added q ++ [Some o])) = length (filter (fun x => x = None) (added q)).
Proof. intros H. by rewrite list.filter_app, length_app, Nat.add_0_r. Qed.

Lemma async_ok q o : queue_ok q -> phase q <> Destroyed -> queue_ok (async o q).
Proof.
  intros H Hp. enough (queue_ok (addOperation (Some (mkEntry o None)) (set_phase (phase q) (set_syncs (syncs q) q)))) by (by destruct q).
  apply addOperation_ok; auto.
  - by rewrite (qo_tickets q H), app_nil_r.
  - rewrite alive_nil by done. apply (qo_nil q H).
Qed.
Lemma syncEnter_ok q o : queue_ok q -> phase q <> Destroyed -> queue_ok (syncEnter o q).
Proof.
  intros H Hp. unfold syncEnter. assert (E : forall ss, set_syncs ss q = set_phase (phase q) (set_syncs ss q)) by (by destruct q).
  rewrite E. apply addOperation_ok; auto.
  - rewrite length_app, seq_app, (qo_tickets q H). done.
  - intros t s [Hs|[Ht Hs]]%lookup_app_Some; [by left|]. right. apply list_lookup_singleton_Some in Hs as [Hs <-]. split; [lia|done].
  - intros t s Hs. by apply lookup_app_l_Some.
  - rewrite alive_nil by done. apply (qo_nil q H).
Qed.

(** The steps of the worker. *)
Lemma working_ok q x : queue_ok q -> worker q = Got (Some x) -> queue_ok (log (EStart x) (set_worker (Running x) q)).
Proof.
  intros H Hw. set (q' := log _ _).
  assert (Ea : added q' = added q) by (unfold added; cbn; by rewrite omap_app, app_nil_r).
  assert (Es : started q' = started q ++ [x]) by (unfold started; cbn; by rewrite omap_app).
  assert (Ef : finished q' = finished q) by (unfold finished; cbn; by rewrite omap_app, app_nil_r).
  assert (Er : returned q' = returned q) by (unfold returned; cbn; by rewrite omap_app, app_nil_r).
  assert (Ec : activity q' = activity q ++ [(true, x)]) by (unfold activity; cbn; by rewrite omap_app).
  pose proof H as []. rewrite Hw in *. constructor; rewrite ?Ea, ?Es, ?Ef, ?Er, ?Ec; try done.
  - rewrite qo_added0, map_app, <- !app_assoc. done.
  - rewrite qo_started0. cbn. by rewrite app_nil_r.
  - rewrite qo_activity0. cbn. by rewrite app_nil_r.
  - intros t s E. apply (sync_ok_frame q); auto. by rewrite Hw.
  - intros Hd. by apply qo_destroyed0 in Hd.
Qed.
Lemma running_ticket q x t : queue_ok q -> x ∈ current (worker q) -> ticket x = Some t ->
  (t ∉ tickets (map Some (finished q))) /\ is_Some (syncs q !! t).
Proof.
  intros H Hx Ht. pose proof (NoDup_seq 0 (length (syncs q))) as Hn. pose proof (qo_tickets q H) as E.
  assert (Hc : current (worker q) = [x]) by (destruct (worker q); cbn in *; set_solver).
  rewrite (qo_added q H), (qo_started q H), Hc, map_app, <- app_assoc, tickets_app in E. cbn in E. rewrite Ht in E. rewrite <- E in Hn. split.
  - intros Hin. apply NoDup_app in Hn as (_ & Hd & _). apply (Hd t Hin). apply elem_of_cons. by left.
  - apply lookup_lt_is_Some. assert (Hin : t ∈ seq 0 (length (syncs q))) by (rewrite <- E; apply elem_of_app; right; apply elem_of_cons; by left).
    apply elem_of_seq in Hin. lia.
Qed.
Lemma finishing_ok q x : queue_ok q -> worker q = Running x ->
  queue_ok (log (EFinish x) (set_worker (match ticket x with Some t => Completing t | None => AtLock end) q)).
Proof.
  intros H Hw. set (w := match ticket x with Some t => Completing t | None => AtLock end). set (q' := log _ _).
  assert (Ea : added q' = added q) by (unfold added; cbn; by rewrite omap_app, app_nil_r).
  assert (Es : started q' = started q) by (unfold started; cbn; by rewrite omap_app, app_nil_r).
  assert (Ef : finished q' = finished q ++ [x]) by (unfold finished; cbn; by rewrite omap_app).
  assert (Er : returned q' = returned q) by (unfold returned; cbn; by rewrite omap_app, app_nil_r).
  assert (Ec : activity q' = activity q ++ [(false, x)]) by (unfold activity; cbn; by rewrite omap_app).
  assert (Hcur : current w = [] /\ taken w = [] /\ w <> Waiting) by (unfold w; by destruct (ticket x)). destruct Hcur as (Hcur & Htak & Hnw).
  assert (Htk : forall t, t ∈ tickets (map Some (finished q ++ [x])) <-> t ∈ tickets (map Some (finished q)) \/ ticket x = Some t).
  { intros t. rewrite map_app, elem_of_tickets_app. unfold tickets at 2. cbn. destruct (ticket x) as [t'|]; cbn; rewrite ?elem_of_cons, elem_of_nil; naive_solver. }
  assert (Ew : worker q' = w) by done.
  pose proof H as []. constructor; rewrite ?Ea, ?Es, ?Ef, ?Er, ?Ec, ?Ew, ?Hcur, ?Htak; try done.
  - by rewrite qo_added0, Hw.
  - rewrite qo_started0, Hw, app_nil_r. done.
  - rewrite qo_activity0, Hw, flat_map_app, <- app_assoc, app_nil_r. done.
  - intros t s E. destruct (qo_syncs0 t s E) as [S1 S2 S3 S4]. constructor; rewrite ?Er; try done. rewrite Ef, Htk, S1, Hw, Ew. unfold w.
    split; [intros [Hin _]|].
    + split; [by left|]. destruct (ticket x) as [t'|] eqn:Ex; [|done]. intros [= ->].
      destruct (running_ticket q x t H) as [Hno _]; [by rewrite Hw; apply list_elem_of_singleton|done|done].
    + intros [[Hin|Ex] Hne]; [done|]. by rewrite Ex in Hne.
  - intros t. unfold w. destruct (ticket x) as [t'|] eqn:Ex; [|done]. intros [= ->]. eauto.
  - intros Hd. rewrite (qo_destroyed0 Hd) in Hw. done.
Qed.

Lemma completing_ticket q t : queue_ok q -> worker q = Completing t -> t ∈ tickets (map Some (finished q)).
Proof.
  intros H Hw. destruct (qo_completing q H t Hw) as (l & x & -> & Hx). rewrite map_app, elem_of_tickets_app. right.
  unfold tickets. cbn. rewrite Hx. by left.
Qed.
Lemma completion_ok q t : queue_ok q -> worker q = Completing t ->
  exists s, syncs q !! t = Some s /\ spc s <> SReturned /\ queue_ok (set_worker AtLock (set_syncs (<[t := mkSync true STesting]> (syncs q)) q)).
Proof.
  intros H Hw. pose proof H as []. pose proof (completing_ticket q t H Hw) as Ht. pose proof (finished_ticket q t H Ht) as Hl.
  apply lookup_lt_is_Some in Hl as [s Hs]. exists s. split; [done|]. destruct (qo_syncs0 t s Hs) as [S1 S2 S3 S4].
  assert (Hr : spc s <> SReturned). { intros E%S4. apply S1 in E as [_ E]. congruence. } split; [done|].
  constructor; cbn; rewrite ?length_insert; rewrite ?Hw in *; try done.
  - intros t' s' [[<- [<- _]]|[Hne Hs']]%list_lookup_insert_Some.
    + constructor; cbn; try done. split; [done|]. intros E%S3. done.
    + apply (sync_ok_frame q); [done|done| |by apply qo_syncs0]. cbn. rewrite Hw. split; [done|]. by intros [= ->].
  - intros t' Hr'. apply lookup_lt_is_Some. rewrite length_insert. apply lookup_lt_is_Some. auto.
  - intros Hd. by apply qo_destroyed0 in Hd.
Qed.

Lemma queue_worker_ok q r : queue_ok q -> workerStep q = Some r -> exists q', r = Ok q' /\ queue_ok q'.
Proof.
  intros H E. unfold workerStep in E. pose proof H as []. destruct (worker q) as [| |[x|]|x|t|x t|] eqn:Hw; try done; try (injection E as <-).
  - eexists. split; [done|]. destruct (operations q) as [|x l] eqn:Ho.
    + constructor; cbn; rewrite ?Ho; try done; rewrite ?Hw in *; try done.
      * intros t s Es. apply (sync_ok_frame q); auto. by rewrite Hw.
      * intros Hd. by apply qo_destroyed0 in Hd.
    + constructor; cbn; try done; try (by rewrite Hw in *).
      * intros t s Es. apply (sync_ok_frame q); auto. by rewrite Hw.
      * intros Hd. by apply qo_destroyed0 in Hd.
  - eexists. split; [done|]. by apply working_ok.
  - eexists. split; [done|]. apply set_worker_ok; rewrite ?Hw; try done.
  - eexists. split; [done|]. by apply finishing_ok.
  - destruct (completion_ok q t H Hw) as (s & Hs & Hr & H'). unfold complete in E. rewrite Hs in E. cbn in E. injection E as <-.
    destruct (spc s); try done; by eexists.
Qed.

(** Changing where a [sync] is. *)
Lemma set_sync_ok q t s s' : queue_ok q -> syncs q !! t = Some s -> isComplete s' = isComplete s -> spc s <> SReturned -> spc s' <> SReturned ->
  (spc s' = SWaiting -> isComplete s = false) -> queue_ok (set_syncs (<[t := s']> (syncs q)) q).
Proof.
  intros H Hs Hc Hr Hr' Hw. pose proof H as []. constructor; cbn; rewrite ?length_insert; try done.
  - intros t' s1 [[<- [<- _]]|[Hne Hs']]%list_lookup_insert_Some; [|by apply (sync_ok_frame q); auto].
    destruct (qo_syncs0 t s Hs) as [S1 S2 S3 S4]. constructor; rewrite ?Hc; try done. split; [done|]. intros E%S3. done.
  - intros t' Ht'. apply lookup_lt_is_Some. rewrite length_insert. apply lookup_lt_is_Some. auto.
Qed.
Lemma returning_ok q t s : queue_ok q -> syncs q !! t = Some s -> isComplete s = true ->
  queue_ok (log (EReturn t) (set_syncs (<[t := mkSync true SReturned]> (syncs q)) q)).
Proof.
  intros H Hs Hc. set (q' := log _ _).
  assert (Ea : added q' = added q) by (unfold added; cbn; by rewrite omap_app, app_nil_r).
  assert (Es : started q' = started q) by (unfold started; cbn; by rewrite omap_app, app_nil_r).
  assert (Ef : finished q' = finished q) by (unfold finished; cbn; by rewrite omap_app, app_nil_r).
  assert (Er : returned q' = returned q ++ [t]) by (unfold returned; cbn; by rewrite omap_app).
  assert (Ec : activity q' = activity q) by (unfold activity; cbn; by rewrite omap_app, app_nil_r).
  assert (Hl : length (syncs q') = length (syncs q)) by apply length_insert.
  pose proof H as []. constructor; rewrite ?Ea, ?Es, ?Ef, ?Er, ?Ec, ?Hl; try done.
  - intros t' s' [[<- [<- _]]|[Hne Hs']]%list_lookup_insert_Some.
    + destruct (qo_syncs0 t s Hs) as [S1 S2 S3 S4]. constructor; rewrite ?Er, ?Ef; cbn [isComplete spc]; try done.
      * split; [intros _; by apply S1|done].
      * split; [|done]. intros _. set_solver.
    + destruct (qo_syncs0 t' s' Hs') as [S1 S2 S3 S4]. constructor; rewrite ?Er, ?Ef; try done.
      rewrite S3, elem_of_app, list_elem_of_singleton. naive_solver.
  - intros t' [Ht' | ->%list_elem_of_singleton]%elem_of_app; apply lookup_lt_is_Some; rewrite Hl; apply lookup_lt_is_Some; eauto.
Qed.

Lemma syncTest_ok q t q' : queue_ok q -> syncTest t q = Some q' -> queue_ok q'.
Proof.
  intros H E. unfold syncTest in E. destruct (syncs q !! t) as [s|] eqn:Hs; [|done]. cbn in E. destruct (spc s) eqn:Hp; try done. injection E as <-.
  destruct (isComplete s) eqn:Hc; [|apply (set_sync_ok q t s); rewrite ?Hp; done].
  pose proof (returning_ok q t s H Hs Hc) as H'. set (q1 := log _ _) in *. destruct (worker q) as [| | | | |x t'|] eqn:Hw; try done.
  destruct (decide (t = t')); [|done]. apply set_worker_ok; try done; cbn; rewrite ?Hw; try done.
  intros Hd. pose proof (qo_destroyed q H Hd). congruence.
Qed.
Lemma syncWake_ok q t q' : queue_ok q -> syncWake t q = Some q' -> queue_ok q'.
Proof.
  intros H E. unfold syncWake in E. destruct (syncs q !! t) as [s|] eqn:Hs; [|done]. cbn in E. destruct (spc s) eqn:Hp; try done. injection E as <-.
  apply (set_sync_ok q t s); rewrite ?Hp; done.
Qed.
Lemma queue_destructor_ok q q' : queue_ok q -> destructorStep q = Some q' -> queue_ok q'.
Proof.
  intros H E. unfold destructorStep in E. destruct (phase q) eqn:Hp; [injection E as <-| |done].
  - enough (queue_ok (addOperation None (set_phase Joining (set_syncs (syncs q) q)))) by (by destruct q). apply addOperation_ok; auto.
    + by rewrite (qo_tickets q H), app_nil_r.
    + by rewrite list.filter_app, length_app, (qo_nil q H), Hp.
  - destruct (worker q) eqn:Hw; try done. injection E as <-. pose proof H as []. constructor; try done; cbn.
    + intros t s Es. apply (sync_ok_frame q); auto.
    + by rewrite Hp in qo_nil0.
Qed.

Lemma queue_step_ok q l r : queue_ok q -> step l q = Some r -> exists q', r = Ok q' /\ queue_ok q'.
Proof.
  intros H E. destruct l as [| |o|o|o|o|t|t|]; cbn [step] in E.
  - by eapply queue_worker_ok.
  - destruct (worker q) eqn:Hw; try done. injection E as <-. eexists. split; [done|]. apply set_worker_ok; rewrite ?Hw; try done.
    intros Hd. pose proof (qo_destroyed q H Hd). congruence.
  - destruct (phase q) eqn:Hp; try done. injection E as <-. eexists. split; [done|]. apply async_ok; [done|congruence].
  - destruct (phase q) eqn:Hp; try done. injection E as <-. eexists. split; [done|]. apply syncEnter_ok; [done|congruence].
  - destruct (worker q) eqn:Hw; try done. injection E as <-. eexists. split; [done|]. apply async_ok; [done|].
    intros Hd. pose proof (qo_destroyed q H Hd). congruence.
  - destruct (worker q) as [| | |x| | |] eqn:Hw; try done. injection E as <-.
    assert (Hd : phase q <> Destroyed) by (intros Hd; pose proof (qo_destroyed q H Hd); congruence).
    assert (Hw' : worker (syncEnter o q) = Running x /\ phase (syncEnter o q) = phase q)
      by (unfold syncEnter, addOperation, notifyWorker; cbn; by rewrite Hw). destruct Hw' as [Hw' Hp'].
    eexists. split; [done|]. apply set_worker_ok; [by apply syncEnter_ok|..]; rewrite ?Hw', ?Hp'; done.
  - destruct (syncTest t q) eqn:Et; [|done]. injection E as <-. eexists. split; [done|]. by eapply syncTest_ok.
  - destruct (syncWake t q) eqn:Et; [|done]. injection E as <-. eexists. split; [done|]. by eapply syncWake_ok.
  - destruct (destructorStep q) eqn:Et; [|done]. injection E as <-. eexists. split; [done|]. by eapply queue_destructor_ok.
Qed.

Lemma queue_reachable_ok q : reachable q -> queue_ok q.
Proof.
  induction 1 as [|q l q' _ IH E]; [exact new_queue_ok|]. destruct (queue_step_ok q l _ IH E) as (q1 & [= <-] & H). done.
Qed.

(** What clients may rely on. *)
Lemma finished_prefix q : queue_ok q -> map Some (finished q) `prefix_of` added q.
Proof. intros H. rewrite (qo_added q H), (qo_started q H), map_app, <- !app_assoc. by eexists. Qed.
End Queue.
