(* ===== verification/SerialQueueProps.v ===== *)
(** * What the serial queue guarantees

    Operations run one at a time in the order in which they were added, [sync] returns when
    its operation is done, the destructor when all are; and under weak fairness all this
    happens. *)

From Stdlib Require Import Lia ZArith String.
From stdpp Require Import base list option strings numbers sets.
From S2P Require Import Prelude SerialQueue.

Section Props.
Context {O : Type}.
Implicit Types (q : Queue (O := O)) (l : Label (O := O)).

(** In every state the queue can reach, whatever threads and operations call it in
    whatever order: no step uses the stack of a [sync] that has returned; the operations
    that have run are the first that were added, in this order; each ended before the next
    began, and at most one runs; a [sync] has returned only if its operation is done; and
    when the queue is destroyed every operation added before its end has been run. *)
Theorem serial_queue_order q : reachable q ->
  (forall l r, step l q = Some r -> exists q', r = Ok q')
  /\ (exists rest, added q = map Some (finished q) ++ rest)
  /\ (exists running, activity q = flat_map (fun x => [(true, x); (false, x)]) (finished q) ++ map (pair true) running
        /\ (running = [] \/ exists x rest, running = [x] /\ added q = map Some (finished q) ++ Some x :: rest))
  /\ (forall t, t ∈ returned q -> exists x, x ∈ finished q /\ ticket x = Some t)
  /\ (phase q = Destroyed -> exists rest, added q = map Some (finished q) ++ None :: rest /\ None ∉ rest).
Proof.
  intros H%queue_reachable_ok. split; [|split; [|split; [|split]]].
  - intros l r E. destruct (queue_step_ok q l r H E) as (q' & -> & _). eauto.
  - destruct (finished_prefix q H) as [rest E]. eauto.
  - exists (current (worker q)). split; [apply (qo_activity q H)|]. destruct (current (worker q)) as [|x [|]] eqn:E; [by left| |by destruct (worker q)].
    right. exists x. eexists. split; [done|]. by rewrite (qo_added q H), (qo_started q H), E, map_app, <- !app_assoc.
  - intros t Ht. destruct (qo_returned q H t Ht) as [s Hs]. destruct (qo_syncs q H t s Hs) as [S1 S2 S3 S4].
    apply S3, S4, S1 in Ht as [Ht _]. unfold tickets in Ht. apply list_elem_of_omap in Ht as (y & (x & -> & Hx)%list_elem_of_fmap & E). eauto.
  - intros Hd. exists (operations q). pose proof (qo_destroyed q H Hd) as Hw. pose proof (qo_nil q H) as Hn. rewrite Hd in Hn.
    rewrite (qo_added q H), (qo_started q H), Hw, app_nil_r in *. split; [done|]. intros Hin.
    rewrite !list.filter_app, !length_app in Hn. change (length (filter (fun x => x = None) (taken Exited))) with 1 in Hn.
    assert (Hl : 0 < length (filter (fun x => x = None) (operations q))); [|lia].
    assert (Hf : None ∈ filter (fun x => x = None) (operations q)) by by apply list_elem_of_filter.
    destruct (filter _ (operations q)); [by apply not_elem_of_nil in Hf|cbn; lia].
Qed.

(** ** Progress *)

(** No operation calls [sync] on its own queue. *)
Definition foreign l : Prop := match l with OperationSync _ => False | _ => True end.
Definition unblocked q : Prop := forall x t, worker q <> Syncing x t.

Definition phase_clock (w : WorkerPC (O := O)) : nat :=
  match w with AtLock | Waiting => 1 | Got _ => 2 | Running _ | Syncing _ _ | Exited => 3 | Completing _ => 0 end.
Definition clock q : nat := 4 * length (finished q) + phase_clock (worker q).
(** The clock when an operation, or the end of the queue, has been dealt with. *)
Definition goal (i : nat) (y : option (Entry (O := O))) : nat := match y with Some _ => 4 * S i + 1 | None => 4 * i + 3 end.

Lemma workerStep_enabled q : queue_ok q -> unblocked q -> worker q <> Waiting -> worker q <> Exited -> exists q', workerStep q = Some (Ok q').
Proof.
  intros H Hu Hw He. unfold workerStep. destruct (worker q) as [| |[x|]|x|t|x t|] eqn:E; try done; eauto.
  - destruct (completion_ok q t H E) as (s & Hs & Hr & _). unfold complete. rewrite Hs. cbn. destruct (spc s); try done; eauto.
  - by destruct (Hu x t).
Qed.

(** Until then the worker is busy. *)
Lemma busy q i y : queue_ok q -> added q !! i = Some y -> None ∉ take i (added q) -> clock q < goal i y ->
  worker q <> Exited /\ (worker q = AtLock \/ worker q = Waiting -> operations q <> []).
Proof.
  intros H Hi Hn Hc. unfold clock in Hc. pose proof (qo_added q H) as Ea. rewrite (qo_started q H) in Ea.
  assert (Hf : forall r, added q = map Some (finished q) ++ None :: r -> length (finished q) < i -> False).
  { intros r E Hl. apply Hn. rewrite E, take_app. apply elem_of_app. right. rewrite length_map.
    destruct (i - length (finished q)) eqn:Ei; [lia|]. cbn. by left. }
  split.
  - intros Hw. rewrite Hw in *. cbn in *. rewrite app_nil_r in Ea. destruct (decide (length (finished q) < i)) as [Hl|Hl]; [by eapply Hf|].
    assert (length (finished q) = i) as <- by (unfold goal in Hc; destruct y; lia).
    rewrite Ea, list_lookup_middle in Hi by (by rewrite length_map). injection Hi as <-. cbn in Hc. lia.
  - intros Hw Ho. assert (Ea' : added q = map Some (finished q)).
    { rewrite Ea, Ho. by destruct Hw as [-> | ->]; cbn; rewrite !app_nil_r. }
    apply lookup_lt_Some in Hi. rewrite Ea', length_map in Hi. destruct Hw as [Hw|Hw]; rewrite Hw in Hc; cbn in Hc; unfold goal in Hc; destruct y; lia.
Qed.

Lemma worker_clock q q' : queue_ok q -> workerStep q = Some (Ok q') ->
  clock q < clock q' \/ worker q = AtLock /\ operations q = [] /\ worker q' = Waiting /\ clock q' = clock q.
Proof.
  intros H E. unfold workerStep in E. destruct (worker q) as [| |[x|]|x|t|x t|] eqn:Hw; try done.
  - injection E as <-. unfold clock. rewrite Hw. destruct (operations q); [right|left]; cbn; [done|unfold finished; cbn; lia].
  - injection E as <-. left. unfold clock. rewrite Hw. cbn. unfold finished. cbn. rewrite omap_app, app_nil_r. lia.
  - injection E as <-. left. unfold clock. rewrite Hw. unfold finished. cbn. lia.
  - injection E as <-. left. unfold clock. rewrite Hw. cbn. unfold finished. cbn. rewrite omap_app, length_app. cbn. destruct (ticket x); cbn; lia.
  - unfold complete in E. destruct (syncs q !! t) as [s|]; [|done]. cbn in E. left. unfold clock. rewrite Hw.
    destruct (spc s); try done; injection E as <-; unfold finished; cbn; lia.
Qed.

(** What the other steps keep. *)
Definition settled q q' : Prop :=
  finished q' = finished q /\ (worker q' = worker q \/ worker q = Waiting /\ worker q' = AtLock).
Lemma addOperation_settled q x : settled q (addOperation x q).
Proof.
  unfold settled, addOperation, notifyWorker. split; [|cbn; destruct (worker q) eqn:E; cbn; rewrite ?E; auto].
  destruct (worker (log _ _)); unfold finished; cbn; by rewrite omap_app, app_nil_r.
Qed.
Lemma other_settled q l q' : unblocked q -> foreign l -> step l q = Some (Ok q') -> l <> WorkerL -> settled q q'.
Proof.
  intros Hu Hf E Hl. destruct l as [| |o|o|o|o|t|t|]; try done; cbn [step] in E.
  - unfold settled. destruct (worker q) eqn:Hw; try done. injection E as <-. auto.
  - destruct (phase q); try done. injection E as <-. apply addOperation_settled.
  - destruct (phase q); try done. injection E as <-. apply (addOperation_settled (set_syncs _ q)).
  - destruct (worker q); try done. injection E as <-. apply addOperation_settled.
  - unfold syncTest in E. destruct (syncs q !! t) as [s|]; [|done]. cbn in E. destruct (spc s); try done. injection E as <-. unfold settled.
    destruct (isComplete s); [|by auto]. destruct (worker q) as [| | | | |x t'|] eqn:Hw; try by destruct (Hu x t').
    all: unfold finished; cbn; rewrite omap_app, app_nil_r, Hw; auto.
  - unfold syncWake in E. destruct (syncs q !! t) as [s|]; [|done]. cbn in E. destruct (spc s); try done. injection E as <-. by split; [|left].
  - unfold destructorStep in E. destruct (phase q); try done; [injection E as <-; apply (addOperation_settled (set_phase _ q))|].
    destruct (worker q) eqn:Hw; try done. injection E as <-. split; [done|]. cbn. auto.
Qed.

(** *** The trace grows *)

Lemma trace_add q x : exists es, trace (addOperation x q) = trace q ++ es.
Proof. exists [EAdd x]. unfold addOperation, notifyWorker. by destruct (worker _). Qed.
Lemma trace_grows q l q' : step l q = Some (Ok q') -> exists es, trace q' = trace q ++ es.
Proof.
  assert (Hno : exists es, trace q = trace q ++ es) by (exists []; by rewrite app_nil_r).
  assert (Hone : forall e, exists es, trace q ++ [e] = trace q ++ es) by eauto.
  intros E. destruct l as [| |o|o|o|o|t|t|]; cbn [step] in E.
  - unfold workerStep, complete in E. destruct (worker q) as [| |[x|]|x|t|x t|]; try done; try (injection E as <-; first [exact Hno|apply Hone]).
    + injection E as <-. by destruct (operations q).
    + destruct (syncs q !! t) as [s|]; [|done]. cbn in E. by destruct (spc s); try done; injection E as <-.
  - destruct (worker q); try done; by injection E as <-.
  - destruct (phase q); try done; injection E as <-. apply trace_add.
  - destruct (phase q); try done; injection E as <-. apply (trace_add (set_syncs _ q)).
  - destruct (worker q); try done; injection E as <-. apply trace_add.
  - destruct (worker q); try done; injection E as <-. apply (trace_add (set_syncs _ q)).
  - unfold syncTest in E. destruct (syncs q !! t) as [s|]; [|done]. cbn in E. destruct (spc s); try done. injection E as <-.
    destruct (isComplete s); [|exact Hno]. destruct (worker q); try apply Hone. case_decide; apply Hone.
  - unfold syncWake in E. destruct (syncs q !! t) as [s|]; [|done]. cbn in E. by destruct (spc s); try done; injection E as <-.
  - unfold destructorStep in E. destruct (phase q); try done; [injection E as <-; apply (trace_add (set_phase _ q))|].
    by destruct (worker q); try done; injection E as <-.
Qed.

Lemma is_worker l : l = WorkerL \/ l <> WorkerL.
Proof. destruct l; auto. Qed.
Lemma unblocked_step q l q' : unblocked q -> foreign l -> step l q = Some (Ok q') -> unblocked q'.
Proof.
  intros Hu Hf E. destruct (is_worker l) as [->|Hl].
  - cbn in E. intros x k Hk. unfold workerStep, complete in E. destruct (worker q) as [| |[y|]|y|n|y n|]; try done; try (injection E as E; rewrite <- E in Hk).
    + by destruct (operations q).
    + done.
    + done.
    + cbn in Hk. by destruct (ticket y).
    + destruct (syncs q !! n) as [s|]; [|done]. cbn in E. destruct (spc s); try done; injection E as E; by rewrite <- E in Hk.
  - destruct (other_settled _ _ _ Hu Hf E Hl) as [_ [Ew|[_ Ew]]]; intros x k; rewrite Ew; [apply Hu|done].
Qed.

(** *** Executions *)

Definition execution (e : nat -> Queue (O := O)) (ls : nat -> option (Label (O := O))) : Prop :=
  e 0 = newQueue /\ forall t, match ls t with
    | Some l => foreign l /\ step l (e t) = Some (Ok (e (S t)))
    | None => e (S t) = e t
    end.
(** Weak fairness of the step [f], which the label [l] takes. *)
Definition fair {A} (f : Queue -> option A) l (e : nat -> Queue (O := O)) (ls : nat -> option (Label (O := O))) : Prop :=
  forall t, exists t', t <= t' /\ (ls t' = Some l \/ f (e t') = None).

Section Fair.
Context (e : nat -> Queue (O := O)) (ls : nat -> option (Label (O := O))) (Hex : execution e ls).

Lemma execution_reachable t : reachable (e t).
Proof.
  destruct Hex as [H0 Hs]. induction t as [|t IH]; [rewrite H0; apply reach_new|].
  specialize (Hs t). destruct (ls t) as [l|]; [|by rewrite Hs]. destruct Hs as [_ Hs]. by eapply reach_step.
Qed.
Lemma states_ok t : queue_ok (e t).
Proof. apply queue_reachable_ok, execution_reachable. Qed.
Lemma execution_unblocked t : unblocked (e t).
Proof.
  destruct Hex as [H0 Hs]. induction t as [|t IH]; [by rewrite H0|]. specialize (Hs t). destruct (ls t) as [l|]; [|by rewrite Hs].
  destruct Hs as [Hf Hs]. by eapply unblocked_step.
Qed.

Lemma run_clock_step t : clock (e t) <= clock (e (S t)).
Proof.
  destruct Hex as [_ Hs]. specialize (Hs t). destruct (ls t) as [l|]; [|by rewrite Hs]. destruct Hs as [Hf Hs]. destruct (is_worker l) as [->|Hl].
  - destruct (worker_clock _ _ (states_ok t) Hs) as [H|(_ & _ & _ & ->)]; lia.
  - destruct (other_settled _ _ _ (execution_unblocked t) Hf Hs Hl) as [E1 [E2|[E2 E3]]]; unfold clock; rewrite E1, ?E2, ?E3; cbn; lia.
Qed.
Lemma execution_clock t t' : t <= t' -> clock (e t) <= clock (e t').
Proof. induction 1 as [|t' _ IH]; [lia|]. pose proof (run_clock_step t'). lia. Qed.

Lemma execution_trace t t' : t <= t' -> exists es, trace (e t') = trace (e t) ++ es.
Proof.
  destruct Hex as [_ Hs]. induction 1 as [|t' _ [es IH]]; [exists []; by rewrite app_nil_r|]. specialize (Hs t'). destruct (ls t') as [l|].
  - destruct Hs as [_ [es' E]%trace_grows]. exists (es ++ es'). by rewrite E, IH, app_assoc.
  - exists es. by rewrite Hs.
Qed.
Lemma execution_added t t' i y : t <= t' -> added (e t) !! i = Some y -> added (e t') !! i = Some y /\ take i (added (e t')) = take i (added (e t)).
Proof.
  intros [es E]%execution_trace Hi. unfold added. rewrite E, omap_app. fold (added (e t)). pose proof (lookup_lt_Some _ _ _ Hi) as Hl.
  split; [by apply lookup_app_l_Some|]. by rewrite take_app_le by lia.
Qed.

Context (Hwf : fair workerStep WorkerL e ls).

(** A busy worker takes a step. *)
Lemma worker_moves t i y : added (e t) !! i = Some y -> None ∉ take i (added (e t)) -> clock (e t) < goal i y ->
  exists t', t <= t' /\ clock (e t) < clock (e t').
Proof.
  intros Hi Hn Hc. destruct (Hwf t) as (t1 & Ht1 & H1).
  assert (Hadd : forall t', t <= t' -> added (e t') !! i = Some y /\ None ∉ take i (added (e t'))).
  { intros t' Ht'. destruct (execution_added t t' i y Ht' Hi) as [? ->]. done. }
  destruct (decide (clock (e t) < clock (e t1))) as [Hlt|Hge]; [by exists t1|]. pose proof (execution_clock t t1 Ht1) as Hle.
  assert (Hc1 : clock (e t1) < goal i y) by lia. destruct (Hadd t1 Ht1) as [Hi1 Hn1].
  destruct (busy _ _ _ (states_ok t1) Hi1 Hn1 Hc1) as [Hx Ho].
  assert (Hnw : worker (e t1) <> Waiting).
  { intros Hw. apply (qo_awake _ (states_ok t1)) in Hw as Hq. apply Ho; auto. }
  destruct H1 as [El|Ed].
  - destruct Hex as [_ Hs]. specialize (Hs t1). rewrite El in Hs. destruct Hs as [_ Hs]. exists (S t1). split; [lia|].
    destruct (worker_clock _ _ (states_ok t1) Hs) as [H|(Hw & Hq & _)]; [lia|]. exfalso. apply Ho; auto.
  - destruct (workerStep_enabled _ (states_ok t1) (execution_unblocked t1) Hnw Hx) as [q' E]. congruence.
Qed.
Lemma dealt_with n : forall t i y, added (e t) !! i = Some y -> None ∉ take i (added (e t)) -> goal i y <= clock (e t) + n ->
  exists t', t <= t' /\ goal i y <= clock (e t').
Proof.
  induction n as [|n IH]; intros t i y Hi Hn Hc; [exists t; split; lia|].
  destruct (decide (goal i y <= clock (e t))) as [H|H]; [by exists t|].
  destruct (worker_moves t i y Hi Hn) as (t1 & Ht1 & H1); [lia|]. destruct (execution_added t t1 i y Ht1 Hi) as [Hi1 E1].
  destruct (IH t1 i y Hi1) as (t2 & Ht2 & H2); [by rewrite E1|lia|]. exists t2. split; [lia|done].
Qed.

Lemma finished_at t i x : added (e t) !! i = Some (Some x) -> None ∉ take i (added (e t)) -> goal i (Some x) <= clock (e t) -> finished (e t) !! i = Some x.
Proof.
  intros Hi Hn Hc. destruct (finished_prefix _ (states_ok t)) as [rest E].
  assert (Hl : i < length (finished (e t))) by (unfold clock, goal in Hc; destruct (worker (e t)); cbn in Hc; lia).
  rewrite E, lookup_app_l, list_lookup_fmap in Hi by (by rewrite length_map). by destruct (finished (e t) !! i); simplify_eq/=.
Qed.
(** A ticket has one operation, so the worker is past its completion. *)
Lemma completed_at t i x k : added (e t) !! i = Some (Some x) -> finished (e t) !! i = Some x -> ticket x = Some k ->
  goal i (Some x) <= clock (e t) -> worker (e t) <> Completing k.
Proof.
  intros Hi Hf Hk Hc Hw. pose proof (states_ok t) as H. destruct (qo_completing _ H k Hw) as (l & y & E & Hy).
  unfold clock, goal in Hc. rewrite Hw, E, length_app in Hc. cbn in Hc. assert (Hl : i < length l) by lia.
  pose proof (NoDup_seq 0 (length (syncs (e t)))) as Hn. rewrite <- (qo_tickets _ H), (qo_added _ H), (qo_started _ H), E, !map_app, <- !app_assoc, tickets_app in Hn.
  apply NoDup_app in Hn as (_ & Hn & _). rewrite E, lookup_app_l in Hf by done. apply (Hn k).
  - unfold tickets. apply list_elem_of_omap. exists (Some x). split; [|done]. apply list_elem_of_fmap. exists x. split; [done|]. by eapply list_elem_of_lookup_2.
  - cbn. rewrite Hy. by left.
Qed.

Lemma sync_stays q l q' k : step l q = Some (Ok q') -> syncs q !! k = Some (mkSync true STesting) ->
  syncs q' !! k = Some (mkSync true STesting) \/ l = SyncL k /\ k ∈ returned q'.
Proof.
  intros E Hk. pose proof (lookup_lt_Some _ _ _ Hk) as Hl.
  assert (Hadd : forall x q, syncs (addOperation x q) = syncs q) by (intros x q1; unfold addOperation, notifyWorker; by destruct (worker _)).
  assert (Henter : forall o, syncs (syncEnter o q) !! k = Some (mkSync true STesting)).
  { intros o. unfold syncEnter. rewrite Hadd. cbn. by apply lookup_app_l_Some. }
  destruct l as [| |o|o|o|o|t|t|]; cbn [step] in E.
  - left. unfold workerStep, complete in E. destruct (worker q) as [| |[x|]|x|t|x t|]; try done; try (by injection E as <-).
    + injection E as <-. by destruct (operations q).
    + destruct (syncs q !! t) as [s|] eqn:Et; [|done]. cbn in E.
      assert (Hq : q' = set_worker AtLock (set_syncs (<[t := mkSync true STesting]> (syncs q)) q)) by (by destruct (spc s); try done; injection E as <-).
      rewrite Hq. cbn. destruct (decide (t = k)) as [->|Hne]; [by rewrite list_lookup_insert_eq|by rewrite list_lookup_insert_ne].
  - left. by destruct (worker q); try done; injection E as <-.
  - left. destruct (phase q); try done; injection E as <-. unfold async. by rewrite Hadd.
  - left. destruct (phase q); try done; injection E as <-. apply Henter.
  - left. destruct (worker q); try done; injection E as <-. unfold async. by rewrite Hadd.
  - left. destruct (worker q); try done; injection E as <-. apply Henter.
  - unfold syncTest in E. destruct (syncs q !! t) as [s|] eqn:Et; [|done]. cbn in E. destruct (spc s) eqn:Hp; try done. injection E as <-.
    destruct (decide (t = k)) as [->|Hne].
    + right. split; [done|]. rewrite Hk in Et. injection Et as <-. cbn [isComplete].
      assert (Hin : k ∈ returned (log (EReturn k) (set_syncs (<[k:=mkSync true SReturned]> (syncs q)) q))).
      { unfold returned. cbn. rewrite omap_app. apply elem_of_app. right. by left. }
      destruct (worker q); try exact Hin. by case_decide.
    + left. destruct (isComplete s); [|cbn; by rewrite list_lookup_insert_ne].
      destruct (worker q); try case_decide; cbn; by rewrite list_lookup_insert_ne.
  - left. unfold syncWake in E. destruct (syncs q !! t) as [s|] eqn:Et; [|done]. cbn in E. destruct (spc s) eqn:Hp; try done. injection E as <-.
    cbn. destruct (decide (t = k)) as [->|Hne]; [rewrite Hk in Et; by injection Et as <-|by rewrite list_lookup_insert_ne].
  - left. unfold destructorStep in E. destruct (phase q); try done; [injection E as <-; by rewrite Hadd|]. by destruct (worker q); try done; injection E as <-.
Qed.

Lemma sync_waits t k : syncs (e t) !! k = Some (mkSync true STesting) -> forall t', t <= t' ->
  syncs (e t') !! k = Some (mkSync true STesting) \/ exists t1, t <= t1 <= t' /\ k ∈ returned (e t1).
Proof.
  intros Hk t' Hle. destruct Hex as [_ Hs]. induction Hle as [|t' Hle IH]; [by left|]. specialize (Hs t').
  destruct IH as [IH|(t1 & Ht1 & IH)]; [|right; exists t1; split; [lia|done]]. destruct (ls t') as [l|]; [|left; by rewrite Hs].
  destruct Hs as [_ Hs]. destruct (sync_stays _ _ _ _ Hs IH) as [H|[_ H]]; [by left|]. right. exists (S t'). split; [lia|done].
Qed.
Lemma returned_grows t t' k : t <= t' -> k ∈ returned (e t) -> k ∈ returned (e t').
Proof. intros [es E]%execution_trace Hin. unfold returned. rewrite E, omap_app. apply elem_of_app. by left. Qed.

Lemma sync_returns t k : fair (syncTest k) (SyncL k) e ls -> k ∈ tickets (map Some (finished (e t))) -> worker (e t) <> Completing k ->
  exists t', t <= t' /\ k ∈ returned (e t').
Proof.
  intros Hf Hin Hw. pose proof (states_ok t) as H. pose proof (finished_ticket _ k H Hin) as Hl. apply lookup_lt_is_Some in Hl as [s Hs].
  destruct (qo_syncs _ H k s Hs) as [S1 S2 S3 S4]. assert (Hc : isComplete s = true) by (by apply S1).
  destruct (spc s) eqn:Hp; [|by rewrite S2 in Hc|exists t; split; [done|by apply S3]].
  assert (Hk : syncs (e t) !! k = Some (mkSync true STesting)) by (by destruct s; simplify_eq/=).
  destruct (Hf t) as (t1 & Ht1 & H1). destruct (sync_waits t k Hk t1 Ht1) as [Hk1|(t2 & Ht2 & H2)]; [|exists t2; split; [lia|done]].
  destruct H1 as [El|Ed].
  - destruct Hex as [_ Hst]. specialize (Hst t1). rewrite El in Hst. destruct Hst as [_ Hst].
    exists (S t1). split; [lia|]. cbn in Hst. unfold syncTest in Hst. rewrite Hk1 in Hst. cbn in Hst. injection Hst as <-.
    assert (Hr : k ∈ returned (log (EReturn k) (set_syncs (<[k:=mkSync true SReturned]> (syncs (e t1))) (e t1)))).
    { unfold returned. cbn. rewrite omap_app. apply elem_of_app. right. by left. }
    destruct (worker (e t1)); try exact Hr. by case_decide.
  - unfold syncTest in Ed. by rewrite Hk1 in Ed.
Qed.

Lemma operation_runs t i x : (forall k, fair (syncTest k) (SyncL k) e ls) -> added (e t) !! i = Some (Some x) -> None ∉ take i (added (e t)) ->
  exists t', t <= t' /\ finished (e t') !! i = Some x /\ forall k, ticket x = Some k -> k ∈ returned (e t').
Proof.
  intros Hf Hi Hn. destruct (dealt_with (goal i (Some x)) t i (Some x) Hi Hn) as (t1 & Ht1 & H1); [lia|].
  destruct (execution_added t t1 i _ Ht1 Hi) as [Hi1 E1]. pose proof (finished_at t1 i x Hi1 ltac:(by rewrite E1) H1) as Hx.
  destruct (ticket x) as [k|] eqn:Hk; [|by exists t1].
  destruct (sync_returns t1 k (Hf k)) as (t2 & Ht2 & H2).
  - unfold tickets. apply list_elem_of_omap. exists (Some x). split; [|done]. apply list_elem_of_fmap. exists x. split; [done|]. by eapply list_elem_of_lookup_2.
  - by eapply completed_at.
  - exists t2. split; [lia|]. split; [|by intros ? [= <-]].
    destruct (execution_trace t1 t2 Ht2) as [es E]. unfold finished. rewrite E, omap_app. by apply lookup_app_l_Some.
Qed.

Lemma first_nil {A} (xs : list (option A)) : None ∈ xs -> exists ys zs, xs = ys ++ None :: zs /\ (None ∉ ys).
Proof.
  induction xs as [|[x|] xs IH]; intros H; [by apply not_elem_of_nil in H| |].
  - apply elem_of_cons in H as [|H]; [done|]. destruct (IH H) as (ys & zs & -> & Hn). exists (Some x :: ys), zs. split; [done|]. by apply not_elem_of_cons.
  - exists [], xs. split; [done|]. apply not_elem_of_nil.
Qed.
(** The end of the queue comes after finitely many operations. *)
Lemma worker_exits t : phase (e t) = Joining -> exists t', t <= t' /\ worker (e t') = Exited.
Proof.
  intros Hp. pose proof (qo_nil _ (states_ok t)) as Hn. rewrite Hp in Hn.
  assert (Hin : None ∈ added (e t)).
  { destruct (filter (fun x => x = None) (added (e t))) as [|z l] eqn:E; [done|].
    assert (Hz : z ∈ filter (fun x => x = None) (added (e t))) by (rewrite E; by left). by apply list_elem_of_filter in Hz as [-> Hz]. }
  destruct (first_nil _ Hin) as (l1 & l2 & E & Hl1).
  assert (Hi : added (e t) !! length l1 = Some None) by (rewrite E; by apply list_lookup_middle).
  assert (Htake : None ∉ take (length l1) (added (e t))) by (by rewrite E, take_app_length).
  destruct (dealt_with (goal (length l1) None) t (length l1) None Hi Htake) as (t1 & Ht1 & H1); [lia|].
  destruct (execution_added t t1 _ _ Ht1 Hi) as [Hi1 E1]. exists t1. split; [done|]. rewrite <- E1 in Htake.
  pose proof (states_ok t1) as H. pose proof (qo_added _ H) as Ea. rewrite (qo_started _ H), map_app, <- !app_assoc in Ea.
  assert (Hle : length (finished (e t1)) <= length l1).
  { destruct (decide (length l1 < length (finished (e t1)))) as [Hlt|]; [|lia]. exfalso.
    rewrite Ea, lookup_app_l, list_lookup_fmap in Hi1 by (by rewrite length_map). by destruct (finished (e t1) !! length l1). }
  unfold clock, goal in H1. assert (Hlen : length (finished (e t1)) = length l1 /\ phase_clock (worker (e t1)) = 3) by (destruct (worker (e t1)); cbn in *; lia).
  destruct Hlen as [Hlen Hpc]. rewrite Ea, lookup_app_r, length_map, Hlen, Nat.sub_diag in Hi1 by (rewrite length_map; lia).
  by destruct (worker (e t1)).
Qed.
Lemma addOperation_phase q x : phase (addOperation x q) = phase q.
Proof. unfold addOperation, notifyWorker. by destruct (worker _). Qed.
Lemma joining_step q l q' : step l q = Some (Ok q') -> phase q = Joining -> phase q' = Joining \/ phase q' = Destroyed.
Proof.
  intros E Hp. destruct l as [| |o|o|o|o|t|t|]; cbn [step] in E; rewrite ?Hp in E; try done.
  - left. unfold workerStep, complete in E. destruct (worker q) as [| |[x|]|x|t|x t|]; try done; try (by injection E as <-).
    + injection E as <-. by destruct (operations q).
    + destruct (syncs q !! t) as [s|]; [|done]. cbn in E. by destruct (spc s); try done; injection E as <-.
  - left. by destruct (worker q); try done; injection E as <-.
  - left. destruct (worker q); try done; injection E as <-. unfold async. by rewrite addOperation_phase.
  - left. destruct (worker q); try done; injection E as <-. unfold syncEnter. cbn. by rewrite addOperation_phase.
  - left. unfold syncTest in E. destruct (syncs q !! t) as [s|]; [|done]. cbn in E. destruct (spc s); try done. injection E as <-.
    destruct (isComplete s); [|done]. destruct (worker q); try done. by case_decide.
  - left. unfold syncWake in E. destruct (syncs q !! t) as [s|]; [|done]. cbn in E. by destruct (spc s); try done; injection E as <-.
  - unfold destructorStep in E. rewrite Hp in E. right. by destruct (worker q); try done; injection E as <-.
Qed.
Lemma joining_stays t t' : t <= t' -> phase (e t) = Joining -> phase (e t') = Joining \/ exists t1, t <= t1 /\ phase (e t1) = Destroyed.
Proof.
  destruct Hex as [_ Hs]. intros Hle Hp. induction Hle as [|t' Hle IH]; [by left|]. destruct IH as [IH|IH]; [|by right]. specialize (Hs t').
  destruct (ls t') as [l|]; [|left; by rewrite Hs]. destruct Hs as [_ Hs]. destruct (joining_step _ _ _ Hs IH) as [H|H]; [by left|].
  right. exists (S t'). split; [lia|done].
Qed.
Lemma exited_stays t t' : t <= t' -> worker (e t) = Exited -> worker (e t') = Exited.
Proof.
  destruct Hex as [_ Hs]. induction 1 as [|t' Hle IH]; [done|]. intros Hw. specialize (IH Hw). specialize (Hs t').
  destruct (ls t') as [l|]; [|by rewrite Hs]. destruct Hs as [Hf Hs]. destruct (is_worker l) as [->|Hl].
  - cbn in Hs. unfold workerStep in Hs. by rewrite IH in Hs.
  - destruct (other_settled _ _ _ (execution_unblocked t') Hf Hs Hl) as [_ [->|[E _]]]; [done|congruence].
Qed.
Lemma destroyed t : fair destructorStep DestructorL e ls -> phase (e t) = Joining -> exists t', t <= t' /\ phase (e t') = Destroyed.
Proof.
  intros Hf Hp. destruct (worker_exits t Hp) as (t1 & Ht1 & Hw). destruct (Hf t1) as (t2 & Ht2 & H2).
  destruct (joining_stays t t2) as [Hp2|(t3 & Ht3 & H3)]; [lia|done| |by exists t3]. pose proof (exited_stays t1 t2 Ht2 Hw) as Hw2.
  destruct H2 as [El|Ed].
  - destruct Hex as [_ Hs]. specialize (Hs t2). rewrite El in Hs. destruct Hs as [_ Hs]. cbn in Hs. unfold destructorStep in Hs. rewrite Hp2, Hw2 in Hs.
    injection Hs as Hs. exists (S t2). split; [lia|]. by rewrite <- Hs.
  - unfold destructorStep in Ed. by rewrite Hp2, Hw2 in Ed.
Qed.
End Fair.

(** Nothing that was asked for is forgotten.  While no operation calls [sync] on its own
    queue and under weak fairness -- a thread that can take a step for ever takes one, in
    particular operations return -- every operation added before the end of the queue is
    run, a [sync] that waits for it returns, and a destructor that has begun comes to an
    end, however many other operations are added by threads and operations meanwhile. *)
Theorem serial_queue_progress e ls : execution e ls -> fair workerStep WorkerL e ls -> (forall k, fair (syncTest k) (SyncL k) e ls) ->
  (forall t i x, added (e t) !! i = Some (Some x) -> None ∉ take i (added (e t)) ->
     exists t', t <= t' /\ finished (e t') !! i = Some x /\ forall k, ticket x = Some k -> k ∈ returned (e t'))
  /\ (fair destructorStep DestructorL e ls -> forall t, phase (e t) = Joining -> exists t', t <= t' /\ phase (e t') = Destroyed).
Proof.
  intros Hex Hw Hs. split.
  - intros t i x Hi Hn. exact (operation_runs e ls Hex Hw t i x Hs Hi Hn).
  - intros Hd t Hp. exact (destroyed e ls Hex Hw t Hd Hp).
Qed.
End Props.

(** ** Runs *)

Section Runs.
Context {S L : Type} (step : L -> S -> option (outcome S)) (start : S).
Fixpoint run (ls : list L) (q : S) : option S :=
  match ls with
  | [] => Some q
  | l :: ls' => match step l q with Some (Ok q') => run ls' q' | _ => None end
  end.
Lemma run_invariant (P : S -> Prop) ls : (forall q l q', P q -> step l q = Some (Ok q') -> P q') -> forall q q', P q -> run ls q = Some q' -> P q'.
Proof.
  intros Hs. induction ls as [|l ls IH]; intros q q' H E; cbn in E; [by injection E as <-|]. destruct (step l q) as [[q1|]|] eqn:Es; try done.
  eapply IH; [|exact E]. by eapply Hs.
Qed.

(** The states of a finite run, then nothing happens. *)
Definition play (ls : list L) (t : nat) : S := default start (run (take t ls) start).
Lemma run_snoc ls l q q' : run (ls ++ [l]) q = Some q' -> exists q1, run ls q = Some q1 /\ step l q1 = Some (Ok q').
Proof.
  revert q. induction ls as [|l' ls IH]; intros q E; cbn in *.
  - destruct (step l q) as [[q1|]|] eqn:Es; try done. injection E as <-. eauto.
  - destruct (step l' q) as [[q1|]|]; try done. by apply IH.
Qed.
Lemma run_take ls q q' t : run ls q = Some q' -> is_Some (run (take t ls) q).
Proof.
  revert q t. induction ls as [|l ls IH]; intros q t E; [rewrite take_nil; eauto|]. destruct t as [|t]; [cbn; eauto|].
  cbn in *. destruct (step l q) as [[q1|]|]; try done. by apply IH.
Qed.
Lemma play_step ls q' t : run ls start = Some q' ->
  match ls !! t with Some l => step l (play ls t) = Some (Ok (play ls (Datatypes.S t))) | None => play ls (Datatypes.S t) = play ls t end.
Proof.
  intros Hr. unfold play. destruct (ls !! t) as [l|] eqn:El.
  - destruct (run_take _ _ _ (Datatypes.S t) Hr) as [q1 E1]. rewrite E1. erewrite take_S_r in E1 by done.
    destruct (run_snoc _ _ _ _ E1) as (q2 & -> & E2). done.
  - apply lookup_ge_None in El. by rewrite !take_ge by lia.
Qed.
Lemma play_end ls q' t : run ls start = Some q' -> play ls (t + length ls) = q'.
Proof. intros Hr. unfold play. by rewrite take_ge, Hr by lia. Qed.
End Runs.

Section Play.
Context {O : Type}.
Lemma queue_play_execution (ls : list (Label (O := O))) q' : Forall foreign ls -> run step ls newQueue = Some q' -> execution (play step newQueue ls) (fun t => ls !! t).
Proof.
  intros Hf Hr. split; [done|]. intros t. pose proof (play_step step newQueue ls q' t Hr) as H. cbn in *.
  destruct (ls !! t) as [l|] eqn:El; [|done]. split; [by eapply Forall_lookup_1|done].
Qed.
Lemma queue_play_fair {A} (f : Queue -> option A) l (ls : list (Label (O := O))) q' : run step ls newQueue = Some q' -> f q' = None ->
  fair f l (play step newQueue ls) (fun t => ls !! t).
Proof. intros Hr Hn t. exists (t + length ls). split; [lia|]. right. by rewrite (play_end step newQueue ls q'). Qed.
End Play.

Definition exampleRun : list (Label (O := nat)) := [WorkerL; ClientAsync 1; ClientSync 2; SyncL 0; WorkerL; WorkerL; OperationAsync 3; WorkerL; WorkerL; WorkerL; DestructorL;
  WorkerL; WorkerL; SyncL 0; WorkerL; WorkerL; WorkerL; WorkerL; WorkerL; DestructorL].
Definition exampleEnd : Queue (O := nat) := default newQueue (run step exampleRun newQueue).

Lemma serial_queue_order_witness : finished exampleEnd = [mkEntry 1 None; mkEntry 2 (Some 0); mkEntry 3 None]
  /\ (phase exampleEnd = Destroyed -> exists rest, added exampleEnd = map Some (finished exampleEnd) ++ None :: rest /\ None ∉ rest).
Proof.
  split; [by vm_compute|]. apply serial_queue_order. apply (run_invariant step reachable exampleRun reach_step newQueue); [apply reach_new|by vm_compute].
Defined.
Lemma serial_queue_progress_witness :
  exists t', 3 <= t' /\ finished (play step newQueue exampleRun t') !! 1 = Some (mkEntry 2 (Some 0)) /\ forall k, ticket (mkEntry 2 (Some 0)) = Some k -> k ∈ returned (play step newQueue exampleRun t').
Proof.
  apply (serial_queue_progress (play step newQueue exampleRun) (fun t => exampleRun !! t)).
  - apply (queue_play_execution _ exampleEnd); [by repeat constructor|by vm_compute].
  - by apply (queue_play_fair _ _ _ exampleEnd); vm_compute.
  - intros k. apply (queue_play_fair _ _ _ exampleEnd); [by vm_compute|]. by destruct k.
  - by vm_compute.
  - vm_compute. intros H. apply elem_of_cons in H as [H|H]; [done|by apply not_elem_of_nil in H].
Defined.

(** The program of an operation that calls [sync] on its own queue never goes on. *)
Definition selfSync : list (Label (O := nat)) := [ClientAsync 1; WorkerL; WorkerL; OperationSync 2].
Lemma syncing_stays {O} (l : Label (O := O)) q q' x t s : worker q = Syncing x t -> syncs q !! t = Some s -> isComplete s = false ->
  step l q = Some (Ok q') -> worker q' = Syncing x t /\ exists s', syncs q' !! t = Some s' /\ isComplete s' = false.
Proof.
  intros Hw Hs Hc E. assert (Hadd : forall y q, worker q = Syncing x t -> worker (addOperation y q) = Syncing x t /\ syncs (addOperation y q) = syncs q).
  { intros y q1 E1. unfold addOperation, notifyWorker. cbn. by rewrite E1. }
  destruct l as [| |o|o|o|o|k|k|]; cbn [step] in E; rewrite ?Hw in E; try done.
  - cbn in E. unfold workerStep in E. by rewrite Hw in E.
  - destruct (phase q); try done. injection E as <-. unfold async. destruct (Hadd (Some (mkEntry o None)) q Hw) as [-> ->]. eauto.
  - destruct (phase q); try done. injection E as <-. unfold syncEnter.
    destruct (Hadd (Some (mkEntry o (Some (length (syncs q))))) (set_syncs (syncs q ++ [mkSync false STesting]) q) Hw) as [-> ->].
    split; [done|]. exists s. split; [|done]. cbn. by apply lookup_app_l_Some.
  - unfold syncTest in E. destruct (syncs q !! k) as [s1|] eqn:Ek; [|done]. cbn in E. destruct (spc s1); try done. injection E as <-.
    destruct (decide (k = t)) as [->|Hne].
    + rewrite Hs in Ek. injection Ek as <-. rewrite Hc. cbn. split; [done|]. exists (mkSync false SWaiting). split; [|done]. apply list_lookup_insert_eq. exact (lookup_lt_Some _ _ _ Hs).
    + destruct (isComplete s1); cbn; rewrite ?Hw; [case_decide as Hd; [by subst|]|]; cbn; rewrite ?list_lookup_insert_ne by done; eauto.
  - unfold syncWake in E. destruct (syncs q !! k) as [s1|] eqn:Ek; [|done]. cbn in E. destruct (spc s1); try done. injection E as <-. split; [done|]. cbn.
    destruct (decide (k = t)) as [->|Hne]; [|rewrite list_lookup_insert_ne by done; eauto].
    rewrite Hs in Ek. injection Ek as <-. exists (mkSync (isComplete s) STesting). split; [|done]. apply list_lookup_insert_eq. exact (lookup_lt_Some _ _ _ Hs).
  - unfold destructorStep in E. rewrite Hw in E. destruct (phase q); try done. injection E as <-.
    destruct (Hadd None (set_phase Joining q) Hw) as [-> ->]. cbn. eauto.
Qed.
Example self_sync_deadlocks ls q q' : run step selfSync newQueue = Some q -> run step ls q = Some q' -> worker q' = Syncing (mkEntry 1 None) 0.
Proof.
  intros Hq. assert (Hinit : worker q = Syncing (mkEntry 1 None) 0 /\ exists s, syncs q !! 0 = Some s /\ isComplete s = false) by (vm_compute in Hq; injection Hq as <-; cbn; eauto).
  clear Hq. revert q Hinit. induction ls as [|l ls IH]; intros q (Hw & s & Hs & Hc) E; [by injection E as <-|]. cbn in E.
  destruct (step l q) as [[q1|]|] eqn:Es; try done. eapply IH; [|exact E]. by eapply syncing_stays.
Qed.
