(* ===== verification/SerialExecution.v ===== *)
(** * The serial execution queue

    [SerialExecutionQueue] of lib/Basic/SerialQueue.cpp, the execution queue on a serial
    queue (SerialQueue.v), with the jobs, actions, environments and process groups of the
    lane based one (ExecutionQueue.v).  The worker of the serial queue is inside
    [job.execute] while it runs an operation; [pc] says where.  [addJob] counts jobs without
    a lock before it takes the one of the serial queue: reading the counter, writing it and
    queueing the job are steps of their own, and any number of threads can be between them. *)

From Stdlib Require Import Ascii String Lia ZArith.
From stdpp Require Import base gmap list strings numbers sets.
From S2P Require Import Prelude Chars Process ExecutionQueue SerialQueue SerialQueueProps.

Module SQ := SerialQueue.

(** ** State *)

(** [SerialContext]: the job and its number. *)
Definition SerialContext : Type := Z * QueueJob.

(** A thread inside [addJob]: it has read [jobCount], or has written it and has its number. *)
Inductive Adder := Loaded (count : Z) (j : QueueJob) | Numbered (jobID : Z) (j : QueueJob).

Inductive JobPC :=
| Idle                                                               (* not in a job *)
| Executing (todo : list JobAction)                                  (* the calls the job has still to make *)
| Adding (a : Adder) (todo : list JobAction)                         (* in addJob *)
| Spawning (r : ProcessRequest) (todo : list JobAction)
| InProcess (pid : pid_t) (todo : list JobAction)
| Interrupting (todo : list JobAction)                               (* in cancelAllJobs, before signalAll *)
| StartingKiller (todo : list JobAction).                            (* in cancelAllJobs, after signalAll *)

(** The destructor: alive, deleting the queue, after it, waiting for the killer, waiting for
    the group, destroyed. *)
Inductive Stage := Living | Deleting | Deleted | JoiningKiller | Draining | Gone.

Inductive Event :=
| ESpawned (id : Z) (pid : pid_t) (env : list chars)
| ECompleted (id : Z) (st : ProcessStatus)
| ESignal (p : pid_t) (sig : Signal).

Record XQueue := mkX {
  buildID : Z;
  environment : list chars;
  queue : SQ.Queue (O := SerialContext);
  pc : JobPC;
  jobCount : Z;
  cancelled : bool;
  spawnedProcesses : ProcessGroup;
  adders : list Adder;                                               (* threads outside the queue, in addJob *)
  cancellers : list Canceller;
  killer : Killer;
  queueComplete : bool;
  stage : Stage;
  events : list Event }.
Definition set_queue (v : SQ.Queue (O := SerialContext)) (x : XQueue) : XQueue :=
  mkX (buildID x) (environment x) v (pc x) (jobCount x) (cancelled x) (spawnedProcesses x) (adders x) (cancellers x) (killer x) (queueComplete x) (stage x) (events x).
Definition set_pc (v : JobPC) (x : XQueue) : XQueue :=
  mkX (buildID x) (environment x) (queue x) v (jobCount x) (cancelled x) (spawnedProcesses x) (adders x) (cancellers x) (killer x) (queueComplete x) (stage x) (events x).
Definition set_jobCount (v : Z) (x : XQueue) : XQueue :=
  mkX (buildID x) (environment x) (queue x) (pc x) v (cancelled x) (spawnedProcesses x) (adders x) (cancellers x) (killer x) (queueComplete x) (stage x) (events x).
Definition set_cancelled (v : bool) (x : XQueue) : XQueue :=
  mkX (buildID x) (environment x) (queue x) (pc x) (jobCount x) v (spawnedProcesses x) (adders x) (cancellers x) (killer x) (queueComplete x) (stage x) (events x).
Definition set_group (v : ProcessGroup) (x : XQueue) : XQueue :=
  mkX (buildID x) (environment x) (queue x) (pc x) (jobCount x) (cancelled x) v (adders x) (cancellers x) (killer x) (queueComplete x) (stage x) (events x).
Definition set_adders (v : list Adder) (x : XQueue) : XQueue :=
  mkX (buildID x) (environment x) (queue x) (pc x) (jobCount x) (cancelled x) (spawnedProcesses x) v (cancellers x) (killer x) (queueComplete x) (stage x) (events x).
Definition set_cancellers (v : list Canceller) (x : XQueue) : XQueue :=
  mkX (buildID x) (environment x) (queue x) (pc x) (jobCount x) (cancelled x) (spawnedProcesses x) (adders x) v (killer x) (queueComplete x) (stage x) (events x).
Definition set_killer (v : Killer) (x : XQueue) : XQueue :=
  mkX (buildID x) (environment x) (queue x) (pc x) (jobCount x) (cancelled x) (spawnedProcesses x) (adders x) (cancellers x) v (queueComplete x) (stage x) (events x).
Definition set_queueComplete (v : bool) (x : XQueue) : XQueue :=
  mkX (buildID x) (environment x) (queue x) (pc x) (jobCount x) (cancelled x) (spawnedProcesses x) (adders x) (cancellers x) (killer x) v (stage x) (events x).
Definition set_stage (v : Stage) (x : XQueue) : XQueue :=
  mkX (buildID x) (environment x) (queue x) (pc x) (jobCount x) (cancelled x) (spawnedProcesses x) (adders x) (cancellers x) (killer x) (queueComplete x) v (events x).
Definition emit (l : list Event) (x : XQueue) : XQueue :=
  mkX (buildID x) (environment x) (queue x) (pc x) (jobCount x) (cancelled x) (spawnedProcesses x) (adders x) (cancellers x) (killer x) (queueComplete x) (stage x) (events x ++ l).

Definition newX (build : Z) (env : list chars) : XQueue := mkX build env SQ.newQueue Idle 0 false newGroup [] [] KNone false Living [].

(** ** Operations *)

(** [addJob(job, priority)] in three steps: [++jobCount] reads the counter and writes it, both
    without a lock; then [async] takes the lock of the serial queue. *)
Definition addJobEnter (j : QueueJob) (x : XQueue) : Adder := Loaded (jobCount x) j.
Definition addJobStep (a : Adder) (x : XQueue) : option Adder * XQueue :=
  match a with
  | Loaded n j => let jobID := u64 (n + 1) in (Some (Numbered jobID j), set_jobCount jobID x)
  | Numbered jobID j => (None, set_queue (SQ.async (jobID, j) (queue x)) x)
  end.

(** The locked region of [cancelAllJobs]; [false] for the early return. *)
Definition cancelEnter (x : XQueue) : bool * XQueue :=
  if cancelled x then (false, x) else (true, set_group (close_group (spawnedProcesses x)) (set_cancelled true x)).
Definition signalProcesses (sig : Signal) (x : XQueue) : XQueue := emit (map (fun '(p, s) => ESignal p s) (signalAll sig (spawnedProcesses x))) x.
Definition startKiller (x : XQueue) : XQueue := set_killer KStarted x.

Definition environmentOf (x : XQueue) (r : ProcessRequest) : outcome POSIXEnvironment :=
  processEnvironment (mkConfig FIFO (buildID x) 0 (environment x)) 0 r.

(** The job the worker is in. *)
Definition currentJob (x : XQueue) : option SerialContext := match SQ.worker (queue x) with SQ.Running y => Some (SQ.op y) | _ => None end.

(** [spawnProcess] under the lock of the process group. *)
Definition spawn (id : Z) (r : ProcessRequest) (todo : list JobAction) (res : option pid_t) (x : XQueue) : outcome XQueue :=
  if isClosed (spawnedProcesses x) then Ok (emit [ECompleted id Cancelled] (set_pc (Executing todo) x))
  else match res with
  | None => Ok (emit [ECompleted id Failed] (set_pc (Executing todo) x))
  | Some p =>
      obind (environmentOf x r) (fun env =>
      Ok (emit [ESpawned id p (fst (getEnvp env))]
           (set_group (add_process p (canSafelyInterrupt (attributes r)) (spawnedProcesses x)) (set_pc (InProcess p todo) x))))
  end.

(** A step of the serial queue. *)
Definition ofQueue (f : SQ.Queue (O := SerialContext) -> XQueue) (r : option (outcome (SQ.Queue (O := SerialContext)))) : option (outcome XQueue) :=
  (fun o => obind o (fun q => Ok (f q))) <$> r.

(** A step of the worker: [res] is what the operating system answers to a spawn, [st] how a
    process ends.  A process that asks for its lane to be released is waited for. *)
Definition workerStep (res : option pid_t) (st : ProcessStatus) (x : XQueue) : option (outcome XQueue) :=
  match pc x, currentJob x with
  | Idle, None => ofQueue (fun q => set_pc (match SQ.worker (queue x) with SQ.Got (Some y) => Executing (jobWork (snd (SQ.op y))) | _ => Idle end) (set_queue q x)) (SQ.workerStep (queue x))
  | Executing [], Some _ => ofQueue (fun q => set_pc Idle (set_queue q x)) (SQ.workerStep (queue x))
  | Executing (AddJob j _ :: todo), Some _ => Some (Ok (set_pc (Adding (addJobEnter j x) todo) x))
  | Adding a todo, Some _ => let '(a', x') := addJobStep a x in Some (Ok (set_pc (match a' with Some b => Adding b todo | None => Executing todo end) x'))
  | Executing (ExecuteProcess r :: todo), Some (id, _) =>
      Some (Ok (if cancelled x then emit [ECompleted id Cancelled] (set_pc (Executing todo) x) else set_pc (Spawning r todo) x))
  | Executing (CancelAllJobs :: todo), Some _ =>
      let '(entered, x') := cancelEnter x in Some (Ok (set_pc (if entered : bool then Interrupting todo else Executing todo) x'))
  | Spawning r todo, Some (id, _) => Some (spawn id r todo res x)
  | InProcess p todo, Some (id, _) =>
      Some (Ok (emit [ECompleted id st] (set_group (remove_process p (spawnedProcesses x)) (set_pc (Executing todo) x))))
  | Interrupting todo, Some _ => Some (Ok (set_pc (StartingKiller todo) (signalProcesses SIGINT x)))
  | StartingKiller todo, Some _ => Some (Ok (set_pc (Executing todo) (startKiller x)))
  | _, _ => None
  end.

Definition adderStep (i : nat) (x : XQueue) : option XQueue :=
  a ← adders x !! i;
  let '(a', x') := addJobStep a x in
  Some (set_adders (match a' with Some b => <[i := b]> (adders x) | None => remove_at i (adders x) end) x').
Definition cancellerStep (i : nat) (x : XQueue) : option XQueue :=
  c ← cancellers x !! i;
  Some match c with
  | CInterrupting => set_cancellers (<[i := CStartingKiller]> (cancellers x)) (signalProcesses SIGINT x)
  | CStartingKiller => set_cancellers (remove_at i (cancellers x)) (startKiller x)
  end.

(** [killAfterTimeout]: whatever ends the wait, the processes are killed. *)
Definition killerStep (x : XQueue) : option XQueue :=
  match killer x with
  | KStarted => Some (set_killer (if queueComplete x then KFinished else KWaiting) x)
  | KWaiting => Some (set_killer KWoken x)
  | KWoken => Some (set_killer KFinished (signalProcesses SIGKILL x))
  | _ => None
  end.

Definition destructorStep (x : XQueue) : option XQueue :=
  match stage x with
  | Living => if decide (adders x = [] /\ cancellers x = []) then (fun q => set_stage Deleting (set_queue q x)) <$> SQ.destructorStep (queue x) else None
  | Deleting => (fun q => set_stage Deleted (set_queue q x)) <$> SQ.destructorStep (queue x)
  | Deleted => Some (set_stage JoiningKiller (match killer x with KNone => x | _ => set_queueComplete true x end))
  | JoiningKiller => match killer x with KNone | KFinished => Some (set_stage Draining x) | _ => None end
  | Draining => if decide (processes (spawnedProcesses x) = ∅) then Some (set_stage Gone x) else None
  | Gone => None
  end.

Inductive Label :=
| WorkerL (res : option pid_t) (st : ProcessStatus)
| SpuriousL
| ClientAdd (j : QueueJob)
| ClientCancel
| AdderL (i : nat)
| CancellerL (i : nat)
| KillerL
| DestructorL.

(** Clients use the queue before they destroy it. *)
Definition step (l : Label) (x : XQueue) : option (outcome XQueue) :=
  match l with
  | WorkerL res st => workerStep res st x
  | SpuriousL => ofQueue (fun q => set_queue q x) (SQ.step SQ.SpuriousL (queue x))
  | ClientAdd j => match stage x with Living => Some (Ok (set_adders (adders x ++ [addJobEnter j x]) x)) | _ => None end
  | ClientCancel =>
      match stage x with
      | Living => let '(entered, x') := cancelEnter x in Some (Ok (if entered : bool then set_cancellers (cancellers x' ++ [CInterrupting]) x' else x'))
      | _ => None
      end
  | AdderL i => Ok <$> adderStep i x
  | CancellerL i => Ok <$> cancellerStep i x
  | KillerL => Ok <$> killerStep x
  | DestructorL => Ok <$> destructorStep x
  end.

Inductive reachable (x0 : XQueue) : XQueue -> Prop :=
| reach_start : reachable x0 x0
| reach_step x l x' : reachable x0 x -> step l x = Some (Ok x') -> reachable x0 x'.

(** *** Calls of [addJob] that do not overlap *)

Definition adding (x : XQueue) : list Adder := adders x ++ match pc x with Adding a _ => [a] | _ => [] end.
(** The step enters [addJob]. *)
Definition enters (l : Label) (x : XQueue) : bool :=
  match l with
  | ClientAdd _ => true
  | WorkerL _ _ => match pc x with Executing (AddJob _ _ :: _) => true | _ => false end
  | _ => false
  end.
(** The states reached when no thread enters [addJob] while another is inside. *)
Inductive reachable_apart (x0 : XQueue) : XQueue -> Prop :=
| apart_start : reachable_apart x0 x0
| apart_step x l x' : reachable_apart x0 x -> (enters l x = true -> adding x = []) -> step l x = Some (Ok x') -> reachable_apart x0 x'.
