(* ===== verification/SerialExecutionProps.v ===== *)
(** * What the serial execution queue guarantees

    Its steps are steps of the serial queue, so jobs run one at a time in the order in which
    they are added; processes complete exactly once, at most one exists at a time and none
    is started after cancelling. *)

From Stdlib Require Import Ascii String Lia ZArith.
From stdpp Require Import base gmap list strings numbers sets.
From S2P Require Import Prelude Chars Process ExecutionQueue SerialQueue SerialQueueProps SerialExecution.

(** ** Steps of the serial queue *)

(** The step of the serial queue a step is. *)
Definition project (l : Label) (x : XQueue) : option (SQ.Label (O := SerialContext)) :=
  match l with
  | WorkerL _ _ =>
      match pc x with
      | Idle | Executing [] => Some SQ.WorkerL
      | Adding (Numbered id j) _ => Some (SQ.OperationAsync (id, j))
      | _ => None
      end
  | SpuriousL => Some SQ.SpuriousL
  | AdderL i => match adders x !! i with Some (Numbered id j) => Some (SQ.ClientAsync (id, j)) | _ => None end
  | DestructorL => match stage x with Living | Deleting => Some SQ.DestructorL | _ => None end
  | _ => None
  end.

Definition stage_phase (s : Stage) : SQ.Phase := match s with Living => SQ.Alive | Deleting => SQ.Joining | _ => SQ.Destroyed end.

(** The calls of [executeProcess] a job has still to complete. *)
Definition processCalls (l : list JobAction) : nat := sum_list_with (fun a => match a with ExecuteProcess _ => 1 | _ => 0 end) l.
Definition callsLeft (p : JobPC) : nat :=
  match p with
  | Idle => 0
  | Executing l | Adding _ l | Interrupting l | StartingKiller l => processCalls l
  | Spawning _ l | InProcess _ l => S (processCalls l)
  end.
Definition completedIDs (x : XQueue) : list Z := omap (fun e => match e with ECompleted id _ => Some id | _ => None end) (events x).
Definition callsOf (y : SQ.Entry (O := SerialContext)) : list Z := replicate (processCalls (jobWork (snd (SQ.op y)))) (fst (SQ.op y)).
Definition jobs (x : XQueue) : list (SQ.Entry (O := SerialContext)) := omap id (SQ.added (queue x)).

Record xqueue_ok (x : XQueue) : Prop := {
  xo_queue : SQ.queue_ok (queue x);
  xo_unblocked : unblocked (queue x);
  xo_idle : pc x = Idle <-> currentJob x = None;
  xo_group : dom (processes (spawnedProcesses x)) = match pc x with InProcess p _ => {[p]} | _ => ∅ end;
  xo_closed : closed (spawnedProcesses x) = cancelled x;
  xo_stage : SQ.phase (queue x) = stage_phase (stage x);
  xo_calls : completedIDs x ++ replicate (callsLeft (pc x)) (default 0%Z (fst <$> currentJob x)) = flat_map callsOf (SQ.started (queue x));
  xo_adders : adders x <> [] -> stage x = Living }.

Lemma environmentOf_ok x r : exists env, environmentOf x r = Ok env.
Proof.
  unfold environmentOf, processEnvironment. destruct (setAll_first_wins (environmentEntries (mkConfig FIFO (buildID x) 0 (environment x)) 0 r) newEnvironment eq_refl) as (ks & E & _).
  eauto.
Qed.

(** The worker of the serial queue is not inside [sync], so its steps do not block. *)
Lemma worker_steps x : xqueue_ok x -> match SQ.worker (queue x) with SQ.Waiting | SQ.Exited => False | _ => True end -> exists q', SQ.workerStep (queue x) = Some (Ok q').
Proof.
  intros H Hw. apply workerStep_enabled; [apply (xo_queue x H)|apply (xo_unblocked x H)|intros E; by rewrite E in Hw|intros E; by rewrite E in Hw].
Qed.

Lemma step_projects l x x' : xqueue_ok x -> step l x = Some (Ok x') ->
  match project l x with Some l' => SQ.step l' (queue x) = Some (Ok (queue x')) /\ foreign l' | None => queue x' = queue x end.
Proof.
  intros H E. destruct l as [res st| |j| |i|i| |]; cbn [step project] in *.
  - unfold workerStep in E. destruct (pc x) as [|[|[j p|r|] todo]|a todo|r todo|p todo|todo|todo] eqn:Hp, (currentJob x) as [[id j']|] eqn:Hc; try done.
    + unfold ofQueue in E. destruct (SQ.workerStep (queue x)) as [[q'|]|] eqn:Eq; try done. cbn in E. injection E as <-. by cbn.
    + unfold ofQueue in E. destruct (SQ.workerStep (queue x)) as [[q'|]|] eqn:Eq; try done. cbn in E. injection E as <-. by cbn.
    + by injection E as <-.
    + injection E as <-. by destruct (cancelled x).
    + unfold cancelEnter in E. destruct (cancelled x); by injection E as <-.
    + destruct a as [n j|k j]; injection E as <-; [done|]. unfold currentJob in Hc. cbn. destruct (SQ.worker (queue x)); try done.
    + injection E as E. unfold spawn in E. destruct (isClosed _); [by injection E as <-|]. destruct res as [p|]; [|by injection E as <-].
      destruct (environmentOf_ok x r) as [env Ee]. rewrite Ee in E. by injection E as <-.
    + by injection E as <-.
    + by injection E as <-.
    + by injection E as <-.
  - unfold ofQueue in E. destruct (SQ.step SQ.SpuriousL (queue x)) as [[q'|]|] eqn:Eq; try done. cbn in E. by injection E as <-.
  - destruct (stage x) eqn:Hs; try done. by injection E as <-.
  - destruct (stage x); try done. unfold cancelEnter in E. destruct (cancelled x); by injection E as <-.
  - unfold adderStep in E. destruct (adders x !! i) as [[n j|k j]|] eqn:Ea; try done; injection E as <-; [done|].
    assert (Hs : stage x = Living) by (apply (xo_adders x H); intros Hn; by rewrite Hn in Ea).
    pose proof (xo_stage x H) as Hph. rewrite Hs in Hph. cbn. by rewrite Hph.
  - unfold cancellerStep in E. destruct (cancellers x !! i) as [[]|]; try done; by injection E as <-.
  - unfold killerStep in E. destruct (killer x); try done; by injection E as <-.
  - unfold destructorStep in E. destruct (stage x) eqn:Hs.
    + destruct (decide _); [|done]. destruct (SQ.destructorStep (queue x)) as [q'|] eqn:Eq; [|done]. injection E as <-. cbn. by rewrite Eq.
    + destruct (SQ.destructorStep (queue x)) as [q'|] eqn:Eq; [|done]. injection E as <-. cbn. by rewrite Eq.
    + injection E as <-. by destruct (killer x).
    + destruct (killer x); try done; by injection E as <-.
    + destruct (decide _); [|done]. by injection E as <-.
    + done.
Qed.

(** ** The invariant *)

(** What a step of the serial queue does to the jobs. *)
Definition jobsOf (q : SQ.Queue (O := SerialContext)) : list (SQ.Entry (O := SerialContext)) := omap id (SQ.added q).
Definition jobOf (q : SQ.Queue (O := SerialContext)) : option SerialContext := match SQ.worker q with SQ.Running y => Some (SQ.op y) | _ => None end.

Lemma addOperation_frame q y : jobOf (SQ.addOperation y q) = jobOf q /\ SQ.started (SQ.addOperation y q) = SQ.started q
  /\ SQ.added (SQ.addOperation y q) = SQ.added q ++ [y].
Proof.
  unfold SQ.addOperation, SQ.notifyWorker, jobOf, SQ.started, SQ.added. cbn.
  split; [by destruct (SQ.worker q) eqn:E; cbn; rewrite ?E|]. destruct (SQ.worker q); cbn; by rewrite !omap_app, ?app_nil_r.
Qed.
(** A step of the worker outside operations. *)
Lemma worker_frame q q' : jobOf q = None -> SQ.workerStep q = Some (Ok q') ->
  SQ.added q' = SQ.added q /\ match SQ.worker q with
    | SQ.Got (Some y) => SQ.started q' = SQ.started q ++ [y] /\ jobOf q' = Some (SQ.op y)
    | _ => SQ.started q' = SQ.started q /\ jobOf q' = None
    end.
Proof.
  intros Hj E. unfold SQ.workerStep, SQ.complete, jobOf in *. destruct (SQ.worker q) as [| |[y|]|y|t|y t|] eqn:Hw; try done.
  - injection E as <-. by destruct (SQ.operations q).
  - injection E as <-. unfold SQ.added, SQ.started. cbn. by rewrite !omap_app, app_nil_r.
  - by injection E as <-.
  - destruct (SQ.syncs q !! t) as [s|]; [|done]. cbn in E. by destruct (SQ.spc s); try done; injection E as <-.
Qed.
(** The end of an operation. *)
Lemma finish_frame q q' : is_Some (jobOf q) -> SQ.workerStep q = Some (Ok q') ->
  SQ.added q' = SQ.added q /\ SQ.started q' = SQ.started q /\ jobOf q' = None.
Proof.
  intros [c Hj] E. unfold SQ.workerStep, jobOf in *. destruct (SQ.worker q) as [| |[y|]|y|t|y t|] eqn:Hw; try done.
  injection E as <-. unfold SQ.added, SQ.started. cbn. rewrite !omap_app, !app_nil_r. by destruct (SQ.ticket y).
Qed.

Lemma u64_small n : u64 (u64 n + 1) = u64 (n + 1).
Proof. unfold u64. by rewrite Zplus_mod_idemp_l. Qed.

Lemma new_x_ok b env : xqueue_ok (newX b env).
Proof. constructor; try done. apply new_queue_ok. Qed.

(** The parts of the invariant about the serial queue and the worker's place in it. *)
Lemma queue_part_ok x x' l' : xqueue_ok x -> SQ.step l' (queue x) = Some (Ok (queue x')) -> foreign l' -> SQ.queue_ok (queue x') /\ unblocked (queue x').
Proof.
  intros H E Hf. destruct (SQ.queue_step_ok _ _ _ (xo_queue x H) E) as (q1 & [= <-] & Hq). split; [done|]. eapply unblocked_step; [apply (xo_unblocked x H)|done|done].
Qed.
(** A step that leaves the serial queue and the group alone. *)
Lemma keep_ok x x' : xqueue_ok x -> queue x' = queue x -> spawnedProcesses x' = spawnedProcesses x -> cancelled x' = cancelled x -> stage_phase (stage x') = stage_phase (stage x) ->
  (adders x' <> [] -> stage x' = Living) -> (pc x' = Idle <-> pc x = Idle) -> (forall p t, pc x' = InProcess p t <-> pc x = InProcess p t) ->
  completedIDs x' ++ replicate (callsLeft (pc x')) (default 0%Z (fst <$> currentJob x)) = completedIDs x ++ replicate (callsLeft (pc x)) (default 0%Z (fst <$> currentJob x)) ->
  xqueue_ok x'.
Proof.
  intros [] Eq Eg Ec Es Ha Hi Hp Hcalls. assert (Ej : currentJob x' = currentJob x) by (unfold currentJob; by rewrite Eq).
  constructor; rewrite ?Eq, ?Eg, ?Ec, ?Es, ?Ej; try done.
  - by rewrite Hi.
  - rewrite xo_group0. destruct (pc x) as [| | | |p t| |] eqn:E, (pc x') as [| | | |p' t'| |] eqn:E'; try done;
      try (pose proof (proj1 (Hp p t) eq_refl)); try (pose proof (proj2 (Hp p t) eq_refl)); try (pose proof (proj1 (Hp p' t') eq_refl)); congruence.
  - by rewrite Hcalls.
Qed.

Lemma completed_emit x l : completedIDs (emit l x) = completedIDs x ++ omap (fun e => match e with ECompleted id _ => Some id | _ => None end) l.
Proof. apply omap_app. Qed.
Lemma no_completed (l : list (pid_t * Signal)) : omap (fun e => match e with ECompleted id _ => Some id | _ => None end) (map (fun '(p, s) => ESignal p s) l) = [].
Proof. by induction l as [|[] l IH]. Qed.
Lemma signal_completed sig x : completedIDs (signalProcesses sig x) = completedIDs x.
Proof. unfold signalProcesses. by rewrite completed_emit, no_completed, app_nil_r. Qed.

Lemma queued_job_ok x id j : xqueue_ok x -> SQ.phase (queue x) <> SQ.Destroyed -> xqueue_ok (set_queue (SQ.async (id, j) (queue x)) x).
Proof.
  intros [] Hd. set (y := SQ.mkEntry (id, j) None : SQ.Entry (O := SerialContext)). set (x' := set_queue _ x).
  destruct (addOperation_frame (queue x) (Some y)) as (F1 & F2 & F3). assert (Ec : currentJob x' = currentJob x) by exact F1.
  constructor; rewrite ?Ec; try done.
  - cbn. by apply async_ok.
  - intros k t. change (queue x') with (SQ.addOperation (Some y) (queue x)).
    destruct (addOperation_settled (queue x) (Some y)) as [_ [->|[_ ->]]]; [apply xo_unblocked0|done].
  - cbn. unfold SQ.async. by rewrite addOperation_phase.
  - change (SQ.started (queue x')) with (SQ.started (SQ.addOperation (Some y) (queue x))). by rewrite F2.
Qed.
Lemma set_adders_ok x l : xqueue_ok x -> (l <> [] -> stage x = Living) -> xqueue_ok (set_adders l x).
Proof. intros H Hl. by apply (keep_ok x). Qed.
(** A step in [addJob], by a thread or by the job that the worker is in. *)
Lemma addJobStep_ok x a : xqueue_ok x -> SQ.phase (queue x) <> SQ.Destroyed -> xqueue_ok (addJobStep a x).2.
Proof. intros H Hd. destruct a as [n j|id j]; cbn [addJobStep snd]; [apply (keep_ok x); try done; apply (xo_adders x H)|by apply queued_job_ok]. Qed.
Lemma addJobStep_frame x a : let x' := (addJobStep a x).2 in
  pc x' = pc x /\ currentJob x' = currentJob x /\ completedIDs x' = completedIDs x /\ stage x' = stage x /\ adders x' = adders x.
Proof.
  destruct a as [n j|id j]; [done|]. split; [done|]. split; [|done].
  by destruct (addOperation_frame (queue x) (Some (SQ.mkEntry (id, j) None : SQ.Entry (O := SerialContext)))) as [F _].
Qed.

Lemma requeue_ok x q st : xqueue_ok x -> SQ.queue_ok q -> unblocked q -> jobOf q = jobOf (queue x) -> SQ.started q = SQ.started (queue x) ->
  SQ.phase q = stage_phase st -> (adders x <> [] -> st = Living) -> xqueue_ok (set_stage st (set_queue q x)).
Proof.
  intros [] Hq Hu Ej Es Hp Ha. assert (Ec : currentJob (set_stage st (set_queue q x)) = currentJob x) by exact Ej.
  constructor; rewrite ?Ec; try done. cbn. by rewrite Es.
Qed.

Lemma worker_phase (q q' : SQ.Queue (O := SerialContext)) : SQ.workerStep q = Some (Ok q') -> SQ.phase q' = SQ.phase q.
Proof.
  intros E. unfold SQ.workerStep, SQ.complete in E. destruct (SQ.worker q) as [| |[y|]|y|t|y t|]; try done; try (by injection E as <-).
  - injection E as <-. by destruct (SQ.operations q).
  - destruct (SQ.syncs q !! t) as [s|]; [|done]. cbn in E. by destruct (SQ.spc s); try done; injection E as <-.
Qed.

(** The worker takes an operation, waits or leaves. *)
Lemma outside_ok x q : xqueue_ok x -> pc x = Idle -> SQ.workerStep (queue x) = Some (Ok q) ->
  xqueue_ok (set_pc (match SQ.worker (queue x) with SQ.Got (Some y) => Executing (jobWork (snd (SQ.op y))) | _ => Idle end) (set_queue q x)).
Proof.
  intros H Hp E. set (x' := set_pc _ _). destruct (queue_part_ok x x' SQ.WorkerL H E I) as [Hq Hu]. pose proof H as [].
  pose proof (proj1 xo_idle0 Hp) as Hj. destruct (worker_frame _ _ Hj E) as [Fa F]. rewrite Hp in *. cbn [callsLeft replicate] in xo_calls0. rewrite app_nil_r in xo_calls0.
  assert (Hcase : exists p, pc x' = p /\ (p = Idle <-> jobOf q = None) /\ (forall k t, p <> InProcess k t)
     /\ replicate (callsLeft p) (default 0%Z (fst <$> jobOf q)) = match SQ.worker (queue x) with SQ.Got (Some y) => callsOf y | _ => [] end).
  { eexists. split; [reflexivity|]. cbn. destruct (SQ.worker (queue x)) as [| |[y|]| | | |]; destruct F as [_ ->]; done. }
  destruct Hcase as (p & Ep & Hp1 & Hp2 & Hp3).
  constructor; rewrite ?Ep; try done.
  - change (spawnedProcesses x') with (spawnedProcesses x). rewrite xo_group0. destruct p; try done. by destruct (Hp2 pid todo).
  - cbn. by rewrite (worker_phase _ _ E).
  - change (currentJob x') with (jobOf q). rewrite Hp3. change (completedIDs x') with (completedIDs x). cbn [queue x' set_pc set_queue].
    destruct (SQ.worker (queue x)) as [| |[y|]| | | |]; destruct F as [Fs _]; rewrite Fs, ?app_nil_r; try done.
    rewrite flat_map_app, xo_calls0. cbn. by rewrite app_nil_r.
Qed.
(** A job returns. *)
Lemma finish_job_ok x q : xqueue_ok x -> pc x = Executing [] -> SQ.workerStep (queue x) = Some (Ok q) -> xqueue_ok (set_pc Idle (set_queue q x)).
Proof.
  intros H Hp E. set (x' := set_pc _ _). destruct (queue_part_ok x x' SQ.WorkerL H E I) as [Hq Hu]. pose proof H as []. rewrite Hp in *.
  assert (Hj : is_Some (jobOf (queue x))).
  { change (is_Some (currentJob x)). destruct (currentJob x) eqn:Ec; [eauto|]. by pose proof (proj2 xo_idle0 eq_refl). }
  destruct (finish_frame _ _ Hj E) as (Fa & Fs & Fj).
  constructor; try done.
  - cbn. by rewrite (worker_phase _ _ E).
  - cbn in *. by rewrite Fs.
Qed.

Lemma cancelEnter_ok x : xqueue_ok x -> xqueue_ok (snd (cancelEnter x)).
Proof. intros H. unfold cancelEnter. destruct (cancelled x); [done|]. pose proof H as []. by constructor. Qed.
Lemma cancelEnter_frame x : pc (snd (cancelEnter x)) = pc x /\ queue (snd (cancelEnter x)) = queue x /\ completedIDs (snd (cancelEnter x)) = completedIDs x.
Proof. unfold cancelEnter. by destruct (cancelled x). Qed.

(** A process is started, and ends. *)
Lemma process_started_ok x p info id env r todo : xqueue_ok x -> pc x = Spawning r todo ->
  xqueue_ok (emit [ESpawned id p env] (set_group (add_process p info (spawnedProcesses x)) (set_pc (InProcess p todo) x))).
Proof.
  intros H Hp. pose proof H as []. rewrite Hp in *. assert (Hno : processes (spawnedProcesses x) !! p = None) by (apply not_elem_of_dom; rewrite xo_group0; set_solver).
  assert (Ec : forall g c, completedIDs (emit [ESpawned id p env] (set_group g (set_pc c x))) = completedIDs x) by (intros; rewrite completed_emit; apply app_nil_r).
  constructor; rewrite ?Ec; try done.
  - split; [done|]. intros E. by apply xo_idle0 in E.
  - assert (Eg : processes (add_process p info (spawnedProcesses x)) = <[p := info]> (processes (spawnedProcesses x))) by (unfold add_process; by rewrite Hno).
    change (dom (processes (add_process p info (spawnedProcesses x))) = {[p]}). rewrite Eg, dom_insert_L, xo_group0. set_solver.
  - cbn. unfold add_process. by rewrite Hno.
Qed.
Lemma ended_ok x p id j st todo : xqueue_ok x -> pc x = InProcess p todo -> currentJob x = Some (id, j) ->
  xqueue_ok (emit [ECompleted id st] (set_group (remove_process p (spawnedProcesses x)) (set_pc (Executing todo) x))).
Proof.
  intros H Hp Hj. pose proof H as []. rewrite Hp, ?Hj in *. set (x' := emit _ _). assert (Ej : currentJob x' = Some (id, j)) by exact Hj.
  assert (Ec : completedIDs x' = completedIDs x ++ [id]) by (unfold x'; by rewrite completed_emit).
  constructor; rewrite ?Ec, ?Ej; try done.
  - change (dom (delete p (processes (spawnedProcesses x))) = ∅). rewrite dom_delete_L, xo_group0. set_solver.
  - cbn in *. by rewrite <- xo_calls0, <- app_assoc.
Qed.

Lemma x_worker_ok x res st r : xqueue_ok x -> workerStep res st x = Some r -> exists x', r = Ok x' /\ xqueue_ok x'.
Proof.
  intros H E. unfold workerStep in E.
  destruct (pc x) as [|[|[j p|rq|] todo]|a todo|rq todo|p todo|todo|todo] eqn:Hp, (currentJob x) as [[id j']|] eqn:Hc; try done.
  - unfold ofQueue in E. destruct (SQ.workerStep (queue x)) as [o|] eqn:Eq; [|done]. destruct (SQ.queue_worker_ok _ _ (xo_queue x H) Eq) as (q & -> & _).
    cbn in E. injection E as <-. eexists. split; [done|]. by apply outside_ok.
  - unfold ofQueue in E. destruct (SQ.workerStep (queue x)) as [o|] eqn:Eq; [|done]. destruct (SQ.queue_worker_ok _ _ (xo_queue x H) Eq) as (q & -> & _).
    cbn in E. injection E as <-. eexists. split; [done|]. by apply finish_job_ok.
  - injection E as <-. eexists. split; [done|]. apply (keep_ok x); rewrite ?Hp, ?Hc; try done; apply (xo_adders x H).
  - injection E as <-. eexists. split; [done|]. destruct (cancelled x); apply (keep_ok x); rewrite ?Hp, ?Hc; try done; try apply (xo_adders x H).
    rewrite completed_emit. cbn. by rewrite <- app_assoc.
  - destruct (cancelEnter x) as [entered x1] eqn:Ee. injection E as <-. eexists. split; [done|].
    pose proof (cancelEnter_ok x H) as H1. destruct (cancelEnter_frame x) as (F1 & F2 & F3). rewrite Ee in *. cbn [snd] in *.
    assert (Hc1 : currentJob x1 = Some (id, j')) by (unfold currentJob in *; by rewrite F2).
    apply (keep_ok x1); rewrite ?F1, ?Hp, ?Hc1; try done; try apply (xo_adders x1 H1); by destruct entered.
  - assert (Hd : SQ.phase (queue x) <> SQ.Destroyed).
    { intros Hd. pose proof (qo_destroyed _ (xo_queue x H) Hd) as Hw. unfold currentJob in Hc. by rewrite Hw in Hc. }
    pose proof (addJobStep_ok x a H Hd) as H1. destruct (addJobStep_frame x a) as (F1 & F2 & F3 & F4 & F5). destruct (addJobStep a x) as [a' x1]. cbn [snd] in *.
    injection E as <-. eexists. split; [done|]. apply (keep_ok x1); rewrite ?F1, ?F2, ?Hp, ?Hc; try done; try apply (xo_adders x1 H1); by destruct a'.
  - injection E as <-. unfold spawn. destruct (isClosed _).
    + eexists. split; [done|]. apply (keep_ok x); try done; try apply (xo_adders x H); rewrite ?Hp, ?Hc; try done. rewrite completed_emit. cbn. by rewrite <- app_assoc.
    + destruct res as [p|].
      * destruct (environmentOf_ok x rq) as [env ->]. eexists. split; [reflexivity|]. by eapply process_started_ok.
      * eexists. split; [done|]. apply (keep_ok x); try done; try apply (xo_adders x H); rewrite ?Hp, ?Hc; try done. rewrite completed_emit. cbn. by rewrite <- app_assoc.
  - injection E as <-. eexists. split; [done|]. by eapply ended_ok.
  - injection E as <-. eexists. split; [done|]. apply (keep_ok x); try done; try apply (xo_adders x H); rewrite ?Hp, ?Hc; try done. f_equal. exact (signal_completed SIGINT x).
  - injection E as <-. eexists. split; [done|]. apply (keep_ok x); try done; try apply (xo_adders x H); by rewrite ?Hp, ?Hc.
Qed.

Lemma x_destructor_ok x x' : xqueue_ok x -> destructorStep x = Some x' -> xqueue_ok x'.
Proof.
  intros H E. unfold destructorStep in E.
  assert (Hq : forall q st, SQ.destructorStep (queue x) = Some q -> (stage x = Living /\ st = Deleting \/ stage x = Deleting /\ st = Deleted) -> adders x = [] -> xqueue_ok (set_stage st (set_queue q x))).
  { intros q st Eq Hst Ha. destruct (queue_part_ok x (set_stage st (set_queue q x)) SQ.DestructorL H) as [Hq Hu]; [cbn; by rewrite Eq|done|].
    unfold SQ.destructorStep in Eq. rewrite (xo_stage x H) in Eq. destruct Hst as [[Hs ->]|[Hs ->]]; rewrite Hs in Eq; cbn in Eq.
    - injection Eq as <-. destruct (addOperation_frame (SQ.set_phase SQ.Joining (queue x)) None) as (F1 & F2 & F3).
      apply requeue_ok; try done. by rewrite addOperation_phase.
    - destruct (SQ.worker (queue x)) eqn:Hw; try done. injection Eq as <-. apply requeue_ok; try done. }
  assert (Ha : stage x <> Living -> adders x = []) by (intros Hs; destruct (adders x) eqn:Ea; [done|]; destruct Hs; apply (xo_adders x H); congruence).
  destruct (stage x) eqn:Hs.
  - destruct (decide _) as [[Had _]|]; [|done]. destruct (SQ.destructorStep (queue x)) as [q|] eqn:Eq; [|done]. injection E as <-. apply Hq; auto.
  - destruct (SQ.destructorStep (queue x)) as [q|] eqn:Eq; [|done]. injection E as <-. apply Hq; auto.
  - injection E as <-. destruct (killer x); apply (keep_ok x); try done; cbn; rewrite ?Hs, ?Ha; done.
  - destruct (killer x); try done; injection E as <-; apply (keep_ok x); try done; cbn; rewrite ?Hs, ?Ha; done.
  - destruct (decide _); [|done]. injection E as <-. apply (keep_ok x); try done; cbn; rewrite ?Hs, ?Ha; done.
  - done.
Qed.

Lemma x_step_ok x l r : xqueue_ok x -> step l x = Some r -> exists x', r = Ok x' /\ xqueue_ok x'.
Proof.
  intros H E. destruct l as [res st| |j| |i|i| |]; cbn [step] in E.
  - by eapply x_worker_ok.
  - unfold ofQueue in E. cbn in E. destruct (SQ.worker (queue x)) eqn:Hw; try done. injection E as <-. eexists. split; [done|].
    enough (xqueue_ok (set_stage (stage x) (set_queue (SQ.set_worker SQ.AtLock (queue x)) x))) by (by destruct x).
    destruct (queue_part_ok x (set_queue (SQ.set_worker SQ.AtLock (queue x)) x) SQ.SpuriousL H) as [Hq Hu]; [cbn; by rewrite Hw|done|].
    apply requeue_ok; try done; [unfold jobOf; by rewrite Hw|apply (xo_stage x H)|apply (xo_adders x H)].
  - destruct (stage x) eqn:Hs; try done. injection E as <-. eexists. split; [done|]. by apply set_adders_ok.
  - destruct (stage x) eqn:Hs; try done. destruct (cancelEnter x) as [entered x1] eqn:Ee. injection E as <-. eexists. split; [done|].
    pose proof (cancelEnter_ok x H) as H1. rewrite Ee in H1. destruct entered; [|done]. apply (keep_ok x1); try done; apply (xo_adders x1 H1).
  - destruct (adderStep i x) as [x1|] eqn:Ea; [|done]. injection E as <-. eexists. split; [done|]. unfold adderStep in Ea.
    destruct (adders x !! i) as [a|] eqn:El; [|done]. assert (Hs : stage x = Living) by (apply (xo_adders x H); intros Hn; by rewrite Hn in El).
    pose proof (addJobStep_ok x a H) as H1. destruct (addJobStep_frame x a) as (_ & _ & _ & F4 & _). cbn in Ea. destruct (addJobStep a x) as [a' x2]. cbn [snd] in *.
    injection Ea as <-. apply set_adders_ok; [|by rewrite F4]. apply H1. by rewrite (xo_stage x H), Hs.
  - destruct (cancellerStep i x) as [x1|] eqn:Ec; [|done]. injection E as <-. eexists. split; [done|]. unfold cancellerStep in Ec.
    destruct (cancellers x !! i) as [[]|]; try done; injection Ec as <-; apply (keep_ok x); try done; try apply (xo_adders x H).
    f_equal. exact (signal_completed SIGINT x).
  - destruct (killerStep x) as [x1|] eqn:Ek; [|done]. injection E as <-. eexists. split; [done|]. unfold killerStep in Ek.
    destruct (killer x); try done; injection Ek as <-; apply (keep_ok x); try done; try apply (xo_adders x H). f_equal. exact (signal_completed SIGKILL x).
  - destruct (destructorStep x) as [x1|] eqn:Ed; [|done]. injection E as <-. eexists. split; [done|]. by eapply x_destructor_ok.
Qed.

Lemma x_reachable_ok b env x : reachable (newX b env) x -> xqueue_ok x.
Proof. induction 1 as [|x l x' _ IH E]; [apply new_x_ok|]. destruct (x_step_ok x l _ IH E) as (x1 & [= <-] & H). done. Qed.

(** ** Cancelling *)

Lemma emit_events es x : events (emit es x) = events x ++ es.
Proof. done. Qed.
Definition spawns (e : Event) : bool := match e with ESpawned _ _ _ => true | _ => false end.
(** A step that starts a process finds the group open. *)
Lemma cancelled_step x l x' : xqueue_ok x -> cancelled x = true -> step l x = Some (Ok x') ->
  cancelled x' = true /\ exists es, events x' = events x ++ es /\ forallb (fun e => negb (spawns e)) es = true.
Proof.
  intros H Hc E. pose proof (xo_closed x H) as Hg. rewrite Hc in Hg.
  assert (Hsame : forall x', cancelled x' = cancelled x -> events x' = events x -> cancelled x' = true /\ exists es, events x' = events x ++ es /\ forallb (fun e => negb (spawns e)) es = true).
  { intros x1 -> ->. split; [done|]. exists []. by rewrite app_nil_r. }
  assert (Hone : forall x', cancelled x' = cancelled x -> (exists id st, events x' = events x ++ [ECompleted id st]) -> cancelled x' = true /\ exists es, events x' = events x ++ es /\ forallb (fun e => negb (spawns e)) es = true).
  { intros x1 -> (id & st & ->). split; [done|]. by eexists. }
  assert (Hsig : forall sig x', cancelled x' = cancelled x -> events x' = events (signalProcesses sig x) -> cancelled x' = true /\ exists es, events x' = events x ++ es /\ forallb (fun e => negb (spawns e)) es = true).
  { intros sig x1 -> ->. split; [done|]. eexists. split; [done|]. by induction (signalAll sig (spawnedProcesses x)) as [|[] es IH]. }
  destruct l as [res st| |j| |i|i| |]; cbn [step] in E.
  - unfold workerStep in E. destruct (pc x) as [|[|[j p|rq|] todo]|a todo|rq todo|p todo|todo|todo], (currentJob x) as [[id j']|]; try done.
    + unfold ofQueue in E. destruct (SQ.workerStep (queue x)) as [[q|]|]; try done. cbn in E. injection E as <-. by apply Hsame.
    + unfold ofQueue in E. destruct (SQ.workerStep (queue x)) as [[q|]|]; try done. cbn in E. injection E as <-. by apply Hsame.
    + injection E as <-. by apply Hsame.
    + injection E as <-. rewrite Hc. apply Hone; [done|]. by eexists _, _.
    + unfold cancelEnter in E. rewrite Hc in E. injection E as <-. by apply Hsame.
    + destruct a; injection E as <-; by apply Hsame.
    + unfold spawn, isClosed in E. rewrite Hg in E. injection E as <-. apply Hone; [done|]. by eexists _, _.
    + injection E as <-. apply Hone; [done|]. by eexists _, _.
    + injection E as <-. by apply (Hsig SIGINT).
    + injection E as <-. by apply Hsame.
  - unfold ofQueue in E. destruct (SQ.step SQ.SpuriousL (queue x)) as [[q|]|]; try done. cbn in E. injection E as <-. by apply Hsame.
  - destruct (stage x); try done. injection E as <-. by apply Hsame.
  - destruct (stage x); try done. unfold cancelEnter in E. rewrite Hc in E. injection E as <-. by apply Hsame.
  - unfold adderStep in E. destruct (adders x !! i) as [[]|]; try done; injection E as <-; by apply Hsame.
  - unfold cancellerStep in E. destruct (cancellers x !! i) as [[]|]; try done; injection E as <-; [by apply (Hsig SIGINT)|by apply Hsame].
  - unfold killerStep in E. destruct (killer x); try done; injection E as <-; [by apply Hsame|by apply Hsame|by apply (Hsig SIGKILL)].
  - unfold destructorStep in E. destruct (stage x).
    + destruct (decide _); [|done]. destruct (SQ.destructorStep (queue x)); [|done]. injection E as <-. by apply Hsame.
    + destruct (SQ.destructorStep (queue x)); [|done]. injection E as <-. by apply Hsame.
    + injection E as <-. destruct (killer x); by apply Hsame.
    + destruct (killer x); try done; injection E as <-; by apply Hsame.
    + destruct (decide _); [|done]. injection E as <-. by apply Hsame.
    + done.
Qed.

(** ** The guarantees *)

Lemma omap_some {A} (l : list A) : omap id (map Some l) = l.
Proof. induction l as [|y l IH]; [done|]. cbn in *. by rewrite IH. Qed.
Lemma finished_jobs x : xqueue_ok x -> exists rest, jobs x = SQ.finished (queue x) ++ rest.
Proof.
  intros H. destruct (finished_prefix _ (xo_queue x H)) as [rest E]. exists (omap id rest). unfold jobs. by rewrite E, omap_app, omap_some.
Qed.
Lemma gone_empty b env x : reachable (newX b env) x -> stage x = Gone -> processes (spawnedProcesses x) = ∅ /\ pc x = Idle.
Proof.
  intros R Hs. pose proof (x_reachable_ok _ _ _ R) as H. pose proof (xo_stage x H) as Hp. rewrite Hs in Hp.
  pose proof (qo_destroyed _ (xo_queue x H) Hp) as Hw. assert (Hi : pc x = Idle) by (apply (xo_idle x H); unfold currentJob; by rewrite Hw).
  split; [|done]. pose proof (xo_group x H) as Hg. rewrite Hi in Hg. by apply dom_empty_inv_L in Hg.
Qed.

(** ** Numbers *)

Definition numbers_kept (x x' : XQueue) : Prop := adding x' = adding x /\ jobCount x' = jobCount x /\ jobs x' = jobs x.
(** The effect of a step in [addJob] on the rest. *)
Definition addJob_effect (a : Adder) (rest : list Adder) (x x' : XQueue) : Prop :=
  match a with
  | Loaded n j => adding x' ≡ₚ Numbered (u64 (n + 1)) j :: rest /\ jobCount x' = u64 (n + 1) /\ jobs x' = jobs x
  | Numbered id j => adding x' ≡ₚ rest /\ jobCount x' = jobCount x /\ jobs x' = jobs x ++ [SQ.mkEntry (id, j) None]
  end.

Lemma jobs_async x n j : jobs (set_queue (SQ.async (n, j) (queue x)) x) = jobs x ++ [SQ.mkEntry (n, j) None].
Proof.
  destruct (addOperation_frame (queue x) (Some (SQ.mkEntry (n, j) None : SQ.Entry (O := SerialContext)))) as (_ & _ & F). unfold jobs. cbn [queue set_queue]. unfold SQ.async.
  etransitivity; [exact (f_equal (omap id) F)|]. by rewrite omap_app.
Qed.
Lemma at_middle {A} (l : list A) i a : l !! i = Some a -> l = take i l ++ a :: drop (S i) l.
Proof. intros H. by rewrite take_drop_middle. Qed.
Lemma adder_effect x a x' l1 l2 :
  adding x = l1 ++ a :: l2 -> jobCount x' = jobCount (addJobStep a x).2 -> jobs x' = jobs (addJobStep a x).2 ->
  adding x' = l1 ++ match (addJobStep a x).1 with Some b => [b] | None => [] end ++ l2 -> exists rest, adding x ≡ₚ a :: rest /\ addJob_effect a rest x x'.
Proof.
  intros Ha Hc Hj Ha'. exists (l1 ++ l2). split; [rewrite Ha; symmetry; apply Permutation_middle|]. destruct a as [n j|id j]; cbn in *; rewrite Ha', Hc, Hj.
  - split; [symmetry; apply Permutation_middle|done].
  - split; [done|]. split; [done|]. apply jobs_async.
Qed.

(** What a step does to the calls of [addJob], the counter and the jobs. *)
Lemma numbers_step x l x' : xqueue_ok x -> step l x = Some (Ok x') ->
  if enters l x then (exists j, adding x' ≡ₚ Loaded (jobCount x) j :: adding x) /\ jobCount x' = jobCount x /\ jobs x' = jobs x
  else numbers_kept x x' \/ exists a rest, adding x ≡ₚ a :: rest /\ addJob_effect a rest x x'.
Proof.
  intros H E.
  assert (Hsame : forall y, adders y = adders x -> match pc y with Adding a _ => [a] | _ => [] end = match pc x with Adding a _ => [a] | _ => [] end ->
    jobCount y = jobCount x -> jobs y = jobs x -> numbers_kept x y) by (intros y E1 E2 E3 E4; split; [unfold adding; by rewrite E1, E2|done]).
  assert (Hsq : forall q, jobOf (queue x) = None \/ is_Some (jobOf (queue x)) -> SQ.workerStep (queue x) = Some (Ok q) -> omap id (SQ.added q) = jobs x).
  { intros q [Hj|Hj] Eq; [destruct (worker_frame _ _ Hj Eq) as [F _]|destruct (finish_frame _ _ Hj Eq) as [F _]]; unfold jobs; by rewrite F. }
  assert (Hcase : jobOf (queue x) = None \/ is_Some (jobOf (queue x))) by (destruct (jobOf (queue x)); eauto).
  destruct l as [res st| |j| |i|i| |]; cbn [step enters] in *.
  - unfold workerStep in E. destruct (pc x) as [|[|[j p|rq|] todo]|a todo|rq todo|p todo|todo|todo] eqn:Hp, (currentJob x) as [[id j']|]; try done.
    + unfold ofQueue in E. destruct (SQ.workerStep (queue x)) as [[q|]|] eqn:Eq; try done. cbn in E. injection E as <-. left. apply Hsame; rewrite ?Hp; try done; [|by apply Hsq].
      cbn. by destruct (SQ.worker (queue x)) as [| |[]| | | |].
    + unfold ofQueue in E. destruct (SQ.workerStep (queue x)) as [[q|]|] eqn:Eq; try done. cbn in E. injection E as <-. left. apply Hsame; rewrite ?Hp; try done. by apply Hsq.
    + injection E as <-. split; [|done]. exists j. unfold adding. cbn. rewrite Hp, app_nil_r. symmetry. apply Permutation_cons_append.
    + injection E as <-. left. apply Hsame; rewrite ?Hp; by destruct (cancelled x).
    + unfold cancelEnter in E. left. destruct (cancelled x); injection E as <-; by apply Hsame; rewrite ?Hp.
    + right. exists a. apply (adder_effect x a x' (adders x) []); [unfold adding; by rewrite Hp|..]; destruct a; injection E as <-; try done; unfold adding; cbn; by rewrite ?app_nil_r.
    + left. injection E as E. unfold spawn in E. destruct (isClosed _); [injection E as <-; by apply Hsame; rewrite ?Hp|]. destruct res; [|injection E as <-; by apply Hsame; rewrite ?Hp].
      destruct (environmentOf x rq); [|done]. injection E as <-. by apply Hsame; rewrite ?Hp.
    + left. injection E as <-. by apply Hsame; rewrite ?Hp.
    + left. injection E as <-. by apply Hsame; rewrite ?Hp.
    + left. injection E as <-. by apply Hsame; rewrite ?Hp.
  - left. unfold ofQueue in E. cbn in E. destruct (SQ.worker (queue x)) eqn:Hw; try done. injection E as <-. apply Hsame; try done.
  - destruct (stage x); try done. injection E as <-. split; [|done]. exists j. unfold adding. cbn. rewrite <- app_assoc. symmetry. apply Permutation_middle.
  - left. destruct (stage x); try done. unfold cancelEnter in E. destruct (cancelled x); injection E as <-; by apply Hsame.
  - right. unfold adderStep in E. destruct (adders x !! i) as [a|] eqn:Ea; [|done]. exists a.
    apply (adder_effect x a x' (take i (adders x)) (drop (S i) (adders x) ++ match pc x with Adding a _ => [a] | _ => [] end)).
    + unfold adding. rewrite (at_middle _ _ _ Ea) at 1. by rewrite <- app_assoc.
    + destruct a; by injection E as <-.
    + destruct a; by injection E as <-.
    + destruct a; injection E as <-; unfold adding; cbn; rewrite ?app_assoc; try done.
      rewrite insert_take_drop by (by eapply lookup_lt_Some). by rewrite <- !app_assoc.
  - left. unfold cancellerStep in E. destruct (cancellers x !! i) as [[]|]; try done; injection E as <-; by apply Hsame.
  - left. unfold killerStep in E. destruct (killer x); try done; injection E as <-; by apply Hsame.
  - left. unfold destructorStep in E. destruct (stage x) eqn:Hs.
    + destruct (decide _); [|done]. destruct (SQ.destructorStep (queue x)) as [q|] eqn:Eq; [|done]. injection E as <-. apply Hsame; try done.
      unfold SQ.destructorStep in Eq. rewrite (xo_stage x H), Hs in Eq. cbn in Eq. injection Eq as <-. unfold jobs. cbn [queue set_stage set_queue].
      destruct (addOperation_frame (SQ.set_phase SQ.Joining (queue x)) None) as (_ & _ & F). rewrite F, omap_app. apply app_nil_r.
    + destruct (SQ.destructorStep (queue x)) as [q|] eqn:Eq; [|done]. injection E as <-. apply Hsame; try done.
      unfold SQ.destructorStep in Eq. rewrite (xo_stage x H), Hs in Eq. cbn in Eq. destruct (SQ.worker (queue x)) eqn:Hw; try done. by injection Eq as <-.
    + injection E as <-. destruct (killer x); by apply Hsame.
    + destruct (killer x); try done; injection E as <-; by apply Hsame.
    + destruct (decide _); [|done]. injection E as <-. by apply Hsame.
    + done.
Qed.

(** Calls that do not overlap number the jobs in order. *)
Record numbered (x : XQueue) : Prop := {
  nu_one : match adding x with
           | [] => jobCount x = u64 (Z.of_nat (length (jobs x)))
           | [Loaded n _] => n = jobCount x /\ jobCount x = u64 (Z.of_nat (length (jobs x)))
           | [Numbered id _] => id = jobCount x /\ jobCount x = u64 (Z.of_nat (length (jobs x)) + 1)
           | _ => False
           end;
  nu_jobs : forall k y, jobs x !! k = Some y -> fst (SQ.op y) = u64 (Z.of_nat k + 1) }.

Lemma apart_reachable b env x : reachable_apart (newX b env) x -> reachable (newX b env) x.
Proof. induction 1; [apply reach_start|by eapply reach_step]. Qed.
Lemma apart_numbered b env x : reachable_apart (newX b env) x -> numbered x.
Proof.
  induction 1 as [|x l x' R [N1 N2] Hen E]; [by constructor|].
  pose proof (numbers_step x l x' (x_reachable_ok _ _ _ (apart_reachable _ _ _ R)) E) as Hs. destruct (enters l x).
  - rewrite (Hen eq_refl) in *. destruct Hs as ([j Hp] & Hc & Hj). symmetry in Hp. apply Permutation_length_1_inv in Hp.
    constructor; rewrite ?Hp, ?Hc, ?Hj; done.
  - destruct Hs as [(Ha & Hc & Hj)|(a & rest & Hp & He)]; [constructor; rewrite ?Ha, ?Hc, ?Hj; done|].
    assert (Hx : adding x = [a] /\ rest = []).
    { destruct (adding x) as [|b0 [|b1 l0]]; [by apply Permutation_nil_cons in Hp| |by destruct b0]. apply Permutation_length_1_inv in Hp. by injection Hp as -> ->. }
    destruct Hx as [Hx ->]. rewrite Hx in N1. destruct a as [n j|id j]; destruct He as (Ha & Hc & Hj); destruct N1 as [-> N1].
    + symmetry in Ha. apply Permutation_length_1_inv in Ha. constructor; rewrite ?Ha, ?Hc, ?Hj; [|done]. split; [done|]. by rewrite N1, u64_small.
    + apply Permutation_sym, Permutation_nil in Ha. constructor; rewrite ?Ha, ?Hc, ?Hj.
      * rewrite length_app, N1. f_equal. cbn. lia.
      * intros k z [Hk|[Hk Hz]]%lookup_app_Some; [by apply N2|]. apply list_lookup_singleton_Some in Hz as [Hz <-].
        apply Nat.sub_0_le in Hz; assert (k = length (jobs x)) as -> by (by apply Nat.le_antisymm). cbn. by rewrite N1.
Qed.

(** C37: In every state the serial execution queue can reach, whatever threads add jobs and
    cancel, whatever jobs do and whatever the operating system answers: no step fails; the
    jobs that have run are the first that were queued, in this order, and each ended before the
    next began; if no two calls of [addJob] overlapped, jobs are numbered from 1 in this order
    (the counter is not protected: see [overlapping_adds_share_number]); their processes have
    completed exactly once each, in order, up to the running job; a process exists only while
    the running job waits for it; after cancelling no process is started; and a queue that is
    destroyed has run every job queued before, and left no process. *)
Theorem serial_execution_safe b env x : reachable (newX b env) x ->
  (forall l r, step l x = Some r -> exists x', r = Ok x')
  /\ (exists running, SQ.activity (queue x) = flat_map (fun y => [(true, y); (false, y)]) (SQ.finished (queue x)) ++ map (pair true) running /\ length running <= 1)
  /\ (exists rest, jobs x = SQ.finished (queue x) ++ rest)
  /\ (reachable_apart (newX b env) x -> forall k y, jobs x !! k = Some y -> fst (SQ.op y) = u64 (Z.of_nat k + 1))
  /\ completedIDs x ++ replicate (callsLeft (pc x)) (default 0%Z (fst <$> currentJob x)) = flat_map callsOf (SQ.started (queue x))
  /\ (forall p info, processes (spawnedProcesses x) !! p = Some info -> exists todo, pc x = InProcess p todo)
  /\ (cancelled x = true -> forall l x', step l x = Some (Ok x') -> cancelled x' = true /\
        exists es, events x' = events x ++ es /\ forallb (fun e => negb (spawns e)) es = true)
  /\ (stage x = Gone -> processes (spawnedProcesses x) = ∅ /\ completedIDs x = flat_map callsOf (SQ.finished (queue x))
        /\ exists rest, SQ.added (queue x) = map Some (SQ.finished (queue x)) ++ None :: rest).
Proof.
  intros R. pose proof (x_reachable_ok _ _ _ R) as H. split; [|split; [|split; [|split; [|split; [|split; [|split]]]]]].
  - intros l r E. destruct (x_step_ok x l r H E) as (x' & -> & _). eauto.
  - exists (SQ.current (SQ.worker (queue x))). split; [apply (qo_activity _ (xo_queue x H))|]. destruct (SQ.worker (queue x)); cbn; lia.
  - by apply finished_jobs.
  - intros Ra. apply (apart_numbered b env x Ra).
  - apply (xo_calls x H).
  - intros p info E. assert (Hp : p ∈ dom (processes (spawnedProcesses x))) by (apply elem_of_dom; eauto). rewrite (xo_group x H) in Hp.
    destruct (pc x) as [| | | |p' t| |]; try (by apply not_elem_of_empty in Hp). apply elem_of_singleton in Hp as ->. eauto.
  - intros Hc l x' E. by eapply cancelled_step.
  - intros Hs. destruct (gone_empty b env x R Hs) as [Hg Hi]. pose proof (xo_stage x H) as Hp. rewrite Hs in Hp.
    pose proof (qo_destroyed _ (xo_queue x H) Hp) as Hw. pose proof (qo_started _ (xo_queue x H)) as Es. rewrite Hw, app_nil_r in Es. split; [done|]. split.
    + pose proof (xo_calls x H) as Hc. rewrite Hi, Es in Hc. cbn in Hc. by rewrite app_nil_r in Hc.
    + exists (SQ.operations (queue x)). by rewrite (qo_added _ (xo_queue x H)), Es, Hw.
Qed.

(** ** Progress *)

(** The steps a job needs to return. *)
Definition action_steps (a : JobAction) : nat := match a with AddJob _ _ | ExecuteProcess _ | CancelAllJobs => 3 end.
Definition steps_left (p : JobPC) : nat :=
  match p with
  | Idle => 0
  | Executing l => sum_list_with action_steps l
  | Adding (Loaded _ _) l | Spawning _ l | Interrupting l => 2 + sum_list_with action_steps l
  | Adding (Numbered _ _) l | InProcess _ l | StartingKiller l => 1 + sum_list_with action_steps l
  end.

(** A step of the worker is one of the serial queue's worker or brings the job nearer its end. *)
Lemma worker_nearer res st x x' : workerStep res st x = Some (Ok x') -> project (WorkerL res st) x = Some SQ.WorkerL \/ steps_left (pc x') < steps_left (pc x).
Proof.
  intros E. unfold workerStep in E. cbn. destruct (pc x) as [|[|[j p|rq|] todo]|a todo|rq todo|p todo|todo|todo], (currentJob x) as [[id j']|]; try done; auto; right.
  - injection E as <-. cbn. lia.
  - injection E as <-. destruct (cancelled x); cbn; lia.
  - unfold cancelEnter in E. destruct (cancelled x); injection E as <-; cbn; lia.
  - destruct a; injection E as <-; cbn; lia.
  - injection E as E. unfold spawn in E. destruct (isClosed _); [injection E as <-; cbn; lia|]. destruct res; [|injection E as <-; cbn; lia].
    destruct (environmentOf x rq); [|done]. injection E as <-. cbn. lia.
  - injection E as <-. cbn. lia.
  - injection E as <-. cbn. lia.
  - injection E as <-. cbn. lia.
Qed.
Lemma other_pc l x x' : step l x = Some (Ok x') -> (forall res st, l <> WorkerL res st) -> pc x' = pc x.
Proof.
  intros E Hl. destruct l as [res st| |j| |i|i| |]; cbn [step] in E.
  - by destruct (Hl res st).
  - unfold ofQueue in E. destruct (SQ.step SQ.SpuriousL (queue x)) as [[q|]|]; try done. cbn in E. by injection E as <-.
  - destruct (stage x); try done. by injection E as <-.
  - destruct (stage x); try done. unfold cancelEnter in E. destruct (cancelled x); by injection E as <-.
  - unfold adderStep in E. destruct (adders x !! i) as [[]|]; try done; by injection E as <-.
  - unfold cancellerStep in E. destruct (cancellers x !! i) as [[]|]; try done; by injection E as <-.
  - unfold killerStep in E. destruct (killer x); try done; by injection E as <-.
  - unfold destructorStep in E. destruct (stage x).
    + destruct (decide _); [|done]. destruct (SQ.destructorStep (queue x)); [|done]. by injection E as <-.
    + destruct (SQ.destructorStep (queue x)); [|done]. by injection E as <-.
    + injection E as <-. by destruct (killer x).
    + destruct (killer x); try done; by injection E as <-.
    + destruct (decide _); [|done]. by injection E as <-.
    + done.
Qed.
Lemma worker_enabled x : xqueue_ok x -> is_Some (SQ.workerStep (queue x)) -> exists x', workerStep None Succeeded x = Some (Ok x').
Proof.
  intros H [r Er].
  assert (Hs : forall r, workerStep None Succeeded x = Some r -> exists x', workerStep None Succeeded x = Some (Ok x')).
  { intros r' E. destruct (x_worker_ok x _ _ r' H E) as (x' & -> & _). eauto. }
  pose proof (xo_idle x H) as Hi. unfold workerStep in *.
  destruct (pc x) as [|[|[j p|rq|] todo]|a todo|rq todo|p todo|todo|todo], (currentJob x) as [[id j']|];
    try (by pose proof (proj1 Hi eq_refl)); try (by pose proof (proj2 Hi eq_refl)); try (by eapply Hs);
    try (rewrite Er in *; by eapply Hs).
  - destruct (cancelEnter x). by eapply Hs.
  - destruct (addJobStep a x). by eapply Hs.
Qed.

Definition execution (e : nat -> XQueue) (ls : nat -> option Label) : Prop :=
  (exists b env, e 0 = newX b env) /\ forall t, match ls t with Some l => step l (e t) = Some (Ok (e (S t))) | None => e (S t) = e t end.
(** The worker takes a step if it can for ever; in particular processes end. *)
Definition worker_fair (e : nat -> XQueue) (ls : nat -> option Label) : Prop :=
  forall t, exists t', t <= t' /\ ((exists res st, ls t' = Some (WorkerL res st)) \/ ~ exists res st x', workerStep res st (e t') = Some (Ok x')).
Definition destructor_fair (e : nat -> XQueue) (ls : nat -> option Label) : Prop :=
  forall t, exists t', t <= t' /\ (ls t' = Some DestructorL \/ destructorStep (e t') = None).

Section Fair.
Context (e : nat -> XQueue) (ls : nat -> option Label) (Hex : execution e ls).
Definition queues (t : nat) : SQ.Queue (O := SerialContext) := queue (e t).
Definition labels (t : nat) : option (SQ.Label (O := SerialContext)) := l ← ls t; project l (e t).

Lemma x_ok t : xqueue_ok (e t).
Proof.
  destruct Hex as [(b & env & H0) Hs]. apply (x_reachable_ok b env). induction t as [|t IH]; [rewrite H0; constructor|].
  specialize (Hs t). destruct (ls t) as [l|]; [by eapply reach_step|by rewrite Hs].
Qed.
Lemma queues_execution : SerialQueueProps.execution queues labels.
Proof.
  pose proof Hex as [(b & env & H0) Hs]. split; [unfold queues; by rewrite H0|]. intros t. unfold labels, queues. specialize (Hs t).
  destruct (ls t) as [l|]; cbn; [|by rewrite Hs]. pose proof (step_projects l _ _ (x_ok t) Hs) as Hp. destruct (project l (e t)); [|done]. by destruct Hp.
Qed.

Context (Hwf : worker_fair e ls).

(** While the worker does not reach the queue, its job comes nearer its end. *)
Lemma approaches t t' : t <= t' -> (exists u, t <= u /\ labels u = Some SQ.WorkerL) \/ pc (e t') = pc (e t) \/ exists u, t <= u <= t' /\ steps_left (pc (e u)) < steps_left (pc (e t)).
Proof.
  intros Hle. destruct Hex as [_ Hs]. induction Hle as [|t' Hle IH]; [auto|]. destruct IH as [IH|[IH|(u & Hu & IH)]]; [by left| |right; right; exists u; split; [lia|done]].
  pose proof (Hs t') as E. destruct (ls t') as [l|] eqn:El; [|right; left; by rewrite E].
  destruct l as [res st| |j| |i|i| |]; try (right; left; rewrite <- IH; by eapply other_pc).
  cbn [step] in E. destruct (worker_nearer _ _ _ _ E) as [Hp|Hp].
  - left. exists t'. split; [done|]. unfold labels. by rewrite El.
  - right. right. exists (S t'). split; [lia|]. by rewrite <- IH.
Qed.
Lemma reaches n : forall t, steps_left (pc (e t)) < n -> exists t', t <= t' /\ (labels t' = Some SQ.WorkerL \/ SQ.workerStep (queues t') = None).
Proof.
  induction n as [|n IH]; intros t Hn; [lia|]. destruct (Hwf t) as (t1 & Ht1 & H1).
  destruct (approaches t t1 Ht1) as [(u & Hu & E)|[Hp|(u & Hu & Hlt)]]; [by exists u; auto| |destruct (IH u) as (t' & Ht' & H'); [lia|]; exists t'; split; [lia|done]].
  destruct H1 as [(res & st & El)|Hd].
  - destruct Hex as [_ Hs]. specialize (Hs t1). rewrite El in Hs. cbn in Hs. destruct (worker_nearer _ _ _ _ Hs) as [Hq|Hq].
    + exists t1. split; [done|]. left. unfold labels. by rewrite El.
    + destruct (IH (S t1)) as (t' & Ht' & H'); [rewrite Hp in Hq; lia|]. exists t'. split; [lia|done].
  - exists t1. split; [done|]. right. destruct (SQ.workerStep (queues t1)) eqn:E; [|done]. destruct Hd.
    destruct (worker_enabled (e t1) (x_ok t1)) as [x' Ex]; [by eexists|]. eauto.
Qed.
Lemma queues_fair : fair SQ.workerStep SQ.WorkerL queues labels.
Proof. intros t. apply (reaches (S (steps_left (pc (e t))))). lia. Qed.

(** Jobs do not wait for each other. *)
Lemma no_syncs t : SQ.syncs (queues t) = [].
Proof.
  unfold queues. destruct Hex as [(b & env & H0) Hs]. induction t as [|t IH]; [by rewrite H0|]. specialize (Hs t). destruct (ls t) as [l|]; [|by rewrite Hs].
  pose proof (step_projects l _ _ (x_ok t) Hs) as Hp.
  assert (Hadd : forall y (q : SQ.Queue (O := SerialContext)), SQ.syncs (SQ.addOperation y q) = SQ.syncs q) by (intros y q; unfold SQ.addOperation, SQ.notifyWorker; by destruct (SQ.worker _)).
  destruct (project l (e t)) as [l'|] eqn:El; [|by rewrite Hp]. destruct Hp as [E _]. clear Hs.
  assert (Hl : l' = SQ.WorkerL \/ l' = SQ.SpuriousL \/ (exists o, l' = SQ.ClientAsync o) \/ (exists o, l' = SQ.OperationAsync o) \/ l' = SQ.DestructorL).
  { destruct l; cbn in El; [destruct (pc (e t)) as [|[|[] ?]|[] ?| | | |]| | | |destruct (adders (e t) !! i) as [[]|]| | |destruct (stage (e t))]; simplify_eq/=; eauto 8. }
  destruct Hl as [-> |[-> |[[o ->]|[[o ->]| ->]]]]; cbn [SQ.step] in E.
  - unfold SQ.workerStep, SQ.complete in E. rewrite IH in E. destruct (SQ.worker (queue (e t))) as [| |[y|]|y|k|y k|]; try done; injection E as <-; try done.
    by destruct (SQ.operations (queue (e t))).
  - destruct (SQ.worker (queue (e t))); try done. by injection E as <-.
  - destruct (SQ.phase (queue (e t))); try done. injection E as <-. unfold SQ.async. by rewrite Hadd.
  - destruct (SQ.worker (queue (e t))); try done. injection E as <-. unfold SQ.async. by rewrite Hadd.
  - unfold SQ.destructorStep in E. destruct (SQ.phase (queue (e t))); try done; [injection E as <-; by rewrite Hadd|].
    destruct (SQ.worker (queue (e t))); try done. by injection E as <-.
Qed.
Lemma syncs_fair k : fair (SQ.syncTest k) (SQ.SyncL k) queues labels.
Proof. intros t. exists t. split; [done|]. right. unfold SQ.syncTest. by rewrite no_syncs. Qed.

(** *** The end of the destructor *)

Definition stage_rank (s : Stage) : nat := match s with Living => 5 | Deleting => 4 | Deleted => 3 | JoiningKiller => 2 | Draining => 1 | Gone => 0 end.
Definition killer_rank (k : Killer) : nat := match k with KStarted => 3 | KWaiting => 2 | KWoken => 1 | _ => 0 end.
Definition rank (x : XQueue) : nat := 4 * stage_rank (stage x) + killer_rank (killer x).

Ltac later := cbn [stage_rank]; split; [lia|split; [auto; done|intros; first [done|congruence]]].
Lemma stage_le l x x' : step l x = Some (Ok x') -> stage_rank (stage x') <= stage_rank (stage x) /\ (stage x <> Living -> cancellers x = [] -> cancellers x' = [])
  /\ (stage x = Living -> stage x' <> Living -> cancellers x' = []).
Proof.
  intros E. destruct l as [res st| |j| |i|i| |]; cbn [step] in E.
  - assert (Hf : stage x' = stage x /\ cancellers x' = cancellers x); [|destruct Hf as [-> ->]; later].
    unfold workerStep in E. destruct (pc x) as [|[|[j p|rq|] todo]|a todo|rq todo|p todo|todo|todo], (currentJob x) as [[id j']|]; try done.
    + unfold ofQueue in E. destruct (SQ.workerStep (queue x)) as [[q|]|]; try done. cbn in E. by injection E as <-.
    + unfold ofQueue in E. destruct (SQ.workerStep (queue x)) as [[q|]|]; try done. cbn in E. by injection E as <-.
    + by injection E as <-.
    + injection E as <-. by destruct (cancelled x).
    + unfold cancelEnter in E. destruct (cancelled x); by injection E as <-.
    + destruct a; by injection E as <-.
    + injection E as E. unfold spawn in E. destruct (isClosed _); [by injection E as <-|]. destruct res; [|by injection E as <-].
      destruct (environmentOf x rq); [|done]. by injection E as <-.
    + by injection E as <-.
    + by injection E as <-.
    + by injection E as <-.
  - unfold ofQueue in E. destruct (SQ.step SQ.SpuriousL (queue x)) as [[q|]|]; try done. cbn in E. injection E as <-. cbn. later.
  - destruct (stage x) eqn:Hs; try done. injection E as <-. cbn. rewrite Hs. later.
  - destruct (stage x) eqn:Hs; try done. unfold cancelEnter in E. destruct (cancelled x); injection E as <-; cbn; rewrite Hs; later.
  - unfold adderStep in E. destruct (adders x !! i) as [[]|]; try done; injection E as <-; cbn; later.
  - unfold cancellerStep in E. destruct (cancellers x !! i) as [c|] eqn:Ec; [|done].
    assert (Hne : cancellers x <> []) by (intros En; by rewrite En in Ec). destruct c; injection E as <-; cbn; later.
  - unfold killerStep in E. destruct (killer x); try done; injection E as <-; cbn; later.
  - unfold destructorStep in E. destruct (stage x) eqn:Hs.
    + destruct (decide _) as [[_ Hca]|]; [|done]. destruct (SQ.destructorStep (queue x)); [|done]. injection E as <-. cbn. later.
    + destruct (SQ.destructorStep (queue x)); [|done]. injection E as <-. cbn. later.
    + injection E as <-. destruct (killer x); cbn; later.
    + destruct (killer x); try done; injection E as <-; cbn; later.
    + destruct (decide _); [|done]. injection E as <-. cbn. later.
    + done.
Qed.
Lemma no_cancellers t : stage (e t) <> Living -> cancellers (e t) = [].
Proof.
  destruct Hex as [(b & env & H0) Hs]. induction t as [|t IH]; [by rewrite H0|]. specialize (Hs t). destruct (ls t) as [l|]; [|by rewrite Hs].
  destruct (stage_le _ _ _ Hs) as (_ & H2 & H3). intros Hl. destruct (stage (e t)) eqn:E; try (apply H2; [congruence|by apply IH]). by apply H3.
Qed.

(** After the queue was deleted every step brings the end nearer. *)
Lemma late_step l t : stage_rank (stage (e t)) <= 3 -> step l (e t) = Some (Ok (e (S t))) -> rank (e (S t)) < rank (e t).
Proof.
  intros Hr E. pose proof (x_ok t) as H. assert (Hp : SQ.phase (queue (e t)) = SQ.Destroyed) by (rewrite (xo_stage _ H); by destruct (stage (e t)); cbn in *; try lia).
  pose proof (qo_destroyed _ (xo_queue _ H) Hp) as Hw. assert (Hi : pc (e t) = Idle) by (apply (xo_idle _ H); unfold currentJob; by rewrite Hw).
  assert (Hc : cancellers (e t) = []) by (apply no_cancellers; intros Hs; rewrite Hs in Hr; cbn in Hr; lia).
  unfold rank. destruct l as [res st| |j| |i|i| |]; cbn [step] in E.
  - unfold workerStep in E. rewrite Hi in E. unfold currentJob in E. rewrite Hw in E. unfold ofQueue, SQ.workerStep in E. by rewrite Hw in E.
  - unfold ofQueue in E. cbn in E. by rewrite Hw in E.
  - destruct (stage (e t)); cbn in *; try done; lia.
  - destruct (stage (e t)); cbn in *; try done; lia.
  - unfold adderStep in E. destruct (adders (e t) !! i) eqn:Ea; [|done].
    assert (Hs : stage (e t) = Living) by (apply (xo_adders _ H); intros Hn; by rewrite Hn in Ea). rewrite Hs in Hr. cbn in Hr. lia.
  - unfold cancellerStep in E. by rewrite Hc in E.
  - unfold killerStep in E. destruct (killer (e t)); try done; injection E as <-; cbn; [destruct (queueComplete (e t)); cbn; lia|lia|lia].
  - unfold destructorStep in E. destruct (stage (e t)); try (cbn in Hr; lia); try done.
    + injection E as <-. destruct (killer (e t)) eqn:Hk; cbn; rewrite ?Hk; cbn; lia.
    + destruct (killer (e t)) eqn:Hk; try done; injection E as <-; cbn; rewrite ?Hk; cbn; lia.
    + destruct (decide _); [|done]. injection E as <-. cbn. lia.
Qed.
Lemma late_states t t' : t <= t' -> stage_rank (stage (e t)) <= 3 -> e t' = e t \/ exists u, t <= u /\ rank (e u) < rank (e t) /\ stage_rank (stage (e u)) <= 3.
Proof.
  destruct Hex as [_ Hs]. induction 1 as [|t' Hle IH]; intros Hr; [by left|]. destruct (IH Hr) as [E|E]; [|by right]. specialize (Hs t').
  destruct (ls t') as [l|]; [|left; congruence]. right. exists (S t'). split; [lia|]. rewrite <- E in Hr. pose proof (late_step _ _ Hr Hs). destruct (stage_le _ _ _ Hs) as [Hle' _].
  rewrite <- E. split; lia.
Qed.

Context (Hdf : destructor_fair e ls) (Hkf : forall t, exists t', t <= t' /\ (ls t' = Some KillerL \/ killerStep (e t') = None)).

Lemma late_enabled x : xqueue_ok x -> stage_rank (stage x) <= 3 -> stage x <> Gone -> is_Some (destructorStep x) \/ is_Some (killerStep x).
Proof.
  intros H Hr Hg. unfold destructorStep, killerStep. destruct (stage x) eqn:Hs; try (cbn in Hr; lia); [by left|destruct (killer x); eauto| |done].
  left. pose proof (xo_stage x H) as Hp. rewrite Hs in Hp. pose proof (qo_destroyed _ (xo_queue x H) Hp) as Hw.
  assert (Hi : pc x = Idle) by (apply (xo_idle x H); unfold currentJob; by rewrite Hw). pose proof (xo_group x H) as Hd. rewrite Hi in Hd.
  apply dom_empty_inv_L in Hd. rewrite decide_True by done. eauto.
Qed.
Lemma taken_late l t t' : t <= t' -> stage_rank (stage (e t)) <= 3 -> ls t' = Some l -> exists u, t <= u /\ rank (e u) < rank (e t) /\ stage_rank (stage (e u)) <= 3.
Proof.
  intros Ht Hr El. destruct (late_states t t' Ht Hr) as [E|Hu]; [|done]. destruct Hex as [_ Hs]. specialize (Hs t'). rewrite El in Hs.
  rewrite <- E in *. exists (S t'). pose proof (late_step _ _ Hr Hs). destruct (stage_le _ _ _ Hs) as [Hle _]. split; [lia|]. split; lia.
Qed.
Lemma ends n : forall t, rank (e t) < n -> stage_rank (stage (e t)) <= 3 -> exists t', t <= t' /\ stage (e t') = Gone.
Proof.
  induction n as [|n IH]; intros t Hn Hr; [lia|].
  assert (Hnext : stage (e t) = Gone \/ exists u, t <= u /\ rank (e u) < rank (e t) /\ stage_rank (stage (e u)) <= 3).
  { destruct (stage (e t)) eqn:Hs; try (by left); right; rewrite <- Hs in *.
    all: assert (Hg : stage (e t) <> Gone) by congruence; destruct (late_enabled _ (x_ok t) Hr Hg) as [[x Ex]|[x Ex]];
      [destruct (Hdf t) as (t1 & Ht1 & [El|Ed])|destruct (Hkf t) as (t1 & Ht1 & [El|Ed])]; try (by eapply taken_late);
      destruct (late_states t t1 Ht1 Hr) as [E|Hu]; try done; rewrite E in Ed; congruence. }
  destruct Hnext as [Hg|(u & Hu & Hlt & Hr')]; [by exists t|]. destruct (IH u) as (t' & Ht' & Hg); [lia|done|]. exists t'. split; [lia|done].
Qed.

Lemma deletes t : stage (e t) = Deleting -> exists t', t <= t' /\ stage_rank (stage (e t')) <= 3.
Proof.
  intros Hs. assert (Hp : SQ.phase (queues t) = SQ.Joining) by (unfold queues; by rewrite (xo_stage _ (x_ok t)), Hs).
  destruct (worker_exits queues labels queues_execution queues_fair t Hp) as (t1 & Ht1 & Hw).
  destruct (Hdf t1) as (t2 & Ht2 & H2). pose proof (exited_stays queues labels queues_execution t1 t2 Ht2 Hw) as Hw2.
  assert (Hst : forall u, t <= u -> stage (e u) = Deleting \/ stage_rank (stage (e u)) <= 3).
  { intros u Hu. induction Hu as [|u Hu IH]; [by left|]. destruct Hex as [_ Hst]. specialize (Hst u). destruct (ls u) as [l|]; [|by rewrite Hst].
    destruct (stage_le _ _ _ Hst) as [Hle _]. destruct IH as [E|IH]; [rewrite E in Hle|right; lia]. destruct (stage (e (S u))); cbn in *; try lia; [by left|right; lia..]. }
  destruct (Hst t2) as [E|E]; [lia| |by exists t2; split; [lia|]]. destruct H2 as [El|Ed].
  - destruct Hex as [_ Hs2]. specialize (Hs2 t2). rewrite El in Hs2. cbn in Hs2. unfold destructorStep in Hs2. rewrite E in Hs2.
    destruct (SQ.destructorStep (queue (e t2))); [|done]. cbn in Hs2. injection Hs2 as Hs2. exists (S t2). split; [lia|]. rewrite <- Hs2. cbn. lia.
  - unfold destructorStep in Ed. rewrite E in Ed. unfold SQ.destructorStep in Ed. rewrite (xo_stage _ (x_ok t2)), E in Ed. cbn in Ed.
    unfold queues in Hw2. by rewrite Hw2 in Ed.
Qed.
End Fair.

(** C38: The serial execution queue comes to an end.  Under weak fairness of its threads --
    processes end and [killAfterTimeout] times out -- every job added before the destructor
    is run, and a destructor that has begun returns. *)
Theorem serial_execution_progress e ls : execution e ls -> worker_fair e ls -> destructor_fair e ls ->
  (forall t, exists t', t <= t' /\ (ls t' = Some KillerL \/ killerStep (e t') = None)) ->
  (forall t i y, SQ.added (queue (e t)) !! i = Some (Some y) -> None ∉ take i (SQ.added (queue (e t))) ->
     exists t', t <= t' /\ SQ.finished (queue (e t')) !! i = Some y)
  /\ (forall t, stage (e t) = Deleting -> exists t', t <= t' /\ stage (e t') = Gone).
Proof.
  intros Hex Hw Hd Hk. split.
  - intros t i y Hi Hn. destruct (operation_runs (queues e) (labels e ls) (queues_execution e ls Hex) (queues_fair e ls Hex Hw) t i y) as (t' & Ht' & Hf & _);
      [intros k; by apply syncs_fair|done|done|]. by exists t'.
  - intros t Hs. destruct (deletes e ls Hex Hw Hd t Hs) as (t1 & Ht1 & H1). destruct (ends e ls Hex Hd Hk (S (rank (e t1))) t1) as (t2 & Ht2 & H2); [lia|done|].
    exists t2. split; [lia|done].
Qed.

(** ** Runs *)

Definition quiet (id : string) : QueueJob := mkJob (Some id) [].
Definition request : ProcessRequest := mkRequest [] [] (mkAttributes true false [] false false).
(** Two jobs run a process each; the first adds a job, the second cancels. *)
Definition exampleRun : list Label :=
  let W := WorkerL (Some 7%Z) Succeeded in
  [W; ClientAdd (mkJob (Some "a"%string) [ExecuteProcess request; AddJob (quiet "c"%string) Normal]); AdderL 0; AdderL 0;
   ClientAdd (mkJob (Some "b"%string) [CancelAllJobs; ExecuteProcess request]); AdderL 0; AdderL 0;
   W; W; W; W; W; W; W; W; W; W; W; DestructorL; W; W; W; W; W; KillerL; W; W; W; W; W; DestructorL; DestructorL; KillerL; KillerL;
   DestructorL; DestructorL].
Definition exampleEnd : XQueue := default (newX 5 []) (run step exampleRun (newX 5 [])).

(** A job that a job adds after the destructor has begun is dropped; the lane based queue
    runs it. *)
Example late_job_dropped :
  let W := WorkerL None Succeeded in
  (fun x => (stage x, map (fun y => getDescriptor (snd (SQ.op y))) (jobs x), map (fun y => getDescriptor (snd (SQ.op y))) (SQ.finished (queue x)))) <$>
    run step [ClientAdd (mkJob (Some "a"%string) [AddJob (quiet "b"%string) Normal]); AdderL 0; AdderL 0; W; W; DestructorL; W; W; W; W; W; W; DestructorL; DestructorL; DestructorL; DestructorL] (newX 5 [])
  = Some (Gone, [Some "a"%string; Some "b"%string], [Some "a"%string]).
Proof. by vm_compute. Qed.

(** Two threads that add jobs at the same time read the same counter: both jobs get the number 1. *)
Example overlapping_adds_share_number :
  (fun x => map (fun y => (fst (SQ.op y), getDescriptor (snd (SQ.op y)))) (jobs x)) <$>
    run step [ClientAdd (quiet "a"%string); ClientAdd (quiet "b"%string); AdderL 0; AdderL 1; AdderL 1; AdderL 0] (newX 5 [])
  = Some [(1%Z, Some "b"%string); (1%Z, Some "a"%string)].
Proof. by vm_compute. Qed.

(** The wait of [killAfterTimeout] has no condition: a spurious wakeup kills the process that
    was interrupted a moment ago. *)
Example spurious_wakeup_kills :
  let W := WorkerL (Some 7%Z) Succeeded in
  events <$> run step [ClientAdd (mkJob (Some "a"%string) [ExecuteProcess request]); AdderL 0; AdderL 0; W; W; W; W; ClientCancel; CancellerL 0; CancellerL 0; KillerL; KillerL; KillerL] (newX 5 [])
  = Some [ESpawned 1 7 [chars_of "LLBUILD_BUILD_ID=5"; chars_of "LLBUILD_LANE_ID=0"]; ESignal 7 SIGINT; ESignal 7 SIGKILL].
Proof. by vm_compute. Qed.

(** Steps that keep the calls of [addJob] apart. *)
Definition stepApart (l : Label) (x : XQueue) : option (outcome XQueue) :=
  if enters l x && match adding x with [] => false | _ => true end then None else step l x.

Lemma serial_execution_safe_witness : events exampleEnd <> [] /\ map (fun y => fst (SQ.op y)) (jobs exampleEnd) = [1; 2; 3]%Z
  /\ (forall k y, jobs exampleEnd !! k = Some y -> fst (SQ.op y) = u64 (Z.of_nat k + 1))
  /\ (stage exampleEnd = Gone -> processes (spawnedProcesses exampleEnd) = ∅ /\ completedIDs exampleEnd = flat_map callsOf (SQ.finished (queue exampleEnd))
    /\ exists rest, SQ.added (queue exampleEnd) = map Some (SQ.finished (queue exampleEnd)) ++ None :: rest).
Proof.
  assert (R : reachable_apart (newX 5 []) exampleEnd).
  { apply (run_invariant stepApart (reachable_apart (newX 5 [])) exampleRun) with (q := newX 5 []); [|apply apart_start|by vm_compute].
    intros x l x' Rx E. unfold stepApart in E. eapply apart_step; [exact Rx| |destruct (_ && _); [done|exact E]].
    intros Hen. rewrite Hen in E. by destruct (adding x). }
  split; [by vm_compute|]. split; [by vm_compute|].
  split; [apply (serial_execution_safe 5 [] exampleEnd (apart_reachable _ _ _ R)), R|apply (serial_execution_safe 5 [] exampleEnd (apart_reachable _ _ _ R))].
Defined.
Lemma serial_execution_progress_witness : exists t', 19 <= t' /\ stage (play step (newX 5 []) exampleRun t') = Gone.
Proof.
  assert (Hr : run step exampleRun (newX 5 []) = Some exampleEnd) by by vm_compute.
  apply (serial_execution_progress (play step (newX 5 []) exampleRun) (fun t => exampleRun !! t)).
  - split; [by exists 5%Z, []|]. intros t. exact (play_step step (newX 5 []) exampleRun exampleEnd t Hr).
  - intros t. exists (t + length exampleRun). split; [lia|]. right. intros (res & st & x' & E). rewrite (play_end _ _ _ _ _ Hr) in E. by vm_compute in E.
  - intros t. exists (t + length exampleRun). split; [lia|]. right. rewrite (play_end _ _ _ _ _ Hr). by vm_compute.
  - intros t. exists (t + length exampleRun). split; [lia|]. right. rewrite (play_end _ _ _ _ _ Hr). by vm_compute.
  - by vm_compute.
Defined.
