(* ===== verification/Invocation.v ===== *)
(** * The options of the build system

    [BuildSystemInvocation] of lib/BuildSystem/BuildSystemFrontend.cpp: the parser of the
    command line and the description of cycles; [strtol] of the C library, which it uses. *)

From Stdlib Require Import Ascii String Lia ZArith NArith.
From stdpp Require Import base list strings numbers pretty.
From S2P Require Import Prelude Chars Process ExecutionQueue BuildKey BuildNode.

(** ** Numbers *)

Definition is_space (c : ascii) : bool := let n := N_of_ascii c in ((n =? 32) || ((9 <=? n) && (n <=? 13)))%N.
Definition digit_value (c : ascii) : option Z :=
  let n := N_of_ascii c in if ((48 <=? n) && (n <=? 57))%N then Some (Z.of_N n - 48)%Z else None.
Fixpoint skip_spaces (s : chars) : chars := match s with c :: s' => if is_space c then skip_spaces s' else s | [] => [] end.
Fixpoint read_digits (n : Z) (s : chars) : Z * chars :=
  match s with
  | c :: s' => match digit_value c with Some d => read_digits (n * 10 + d)%Z s' | None => (n, s) end
  | [] => (n, s)
  end.
Definition LONG_MAX : Z := 2 ^ 63 - 1.
Definition LONG_MIN : Z := - 2 ^ 63.
(** [strtol(s, &end, 10)]: the number, which stays in the range of [long], and [end]. *)
Definition strtol (s : chars) : Z * chars :=
  let t := skip_spaces s in
  let '(negative, u) := match t with "-"%char :: u => (true, u) | "+"%char :: u => (false, u) | _ => (false, t) end in
  match u with
  | c :: _ =>
      match digit_value c with
      | Some _ => let r := read_digits 0 u in
                  (Z.min LONG_MAX (Z.max LONG_MIN (if negative : bool then - r.1 else r.1)%Z), r.2)
      | None => (0%Z, s)
      end
  | [] => (0%Z, s)
  end.

(** ** The invocation *)

Record Invocation := mkInvocation {
  showUsage : bool;
  showVersion : bool;
  showVerboseStatus : bool;
  useSerialBuild : bool;
  dbPath : chars;
  chdirPath : chars;
  buildFilePath : chars;
  traceFilePath : chars;
  schedulerAlgorithm : SchedulerAlgorithm;
  schedulerLanes : Z;
  positionalArgs : list chars;
  hadErrors : bool;
  diagnostics : list chars }.
Definition newInvocation : Invocation :=
  mkInvocation false false false false (chars_of "build.db") [] (chars_of "build.llbuild") [] NamePriority 0 [] false [].

Definition set_showUsage (i : Invocation) := mkInvocation true (showVersion i) (showVerboseStatus i) (useSerialBuild i) (dbPath i) (chdirPath i) (buildFilePath i) (traceFilePath i) (schedulerAlgorithm i) (schedulerLanes i) (positionalArgs i) (hadErrors i) (diagnostics i).
Definition set_showVersion (i : Invocation) := mkInvocation (showUsage i) true (showVerboseStatus i) (useSerialBuild i) (dbPath i) (chdirPath i) (buildFilePath i) (traceFilePath i) (schedulerAlgorithm i) (schedulerLanes i) (positionalArgs i) (hadErrors i) (diagnostics i).
Definition set_showVerboseStatus (i : Invocation) := mkInvocation (showUsage i) (showVersion i) true (useSerialBuild i) (dbPath i) (chdirPath i) (buildFilePath i) (traceFilePath i) (schedulerAlgorithm i) (schedulerLanes i) (positionalArgs i) (hadErrors i) (diagnostics i).
Definition set_useSerialBuild (i : Invocation) := mkInvocation (showUsage i) (showVersion i) (showVerboseStatus i) true (dbPath i) (chdirPath i) (buildFilePath i) (traceFilePath i) (schedulerAlgorithm i) (schedulerLanes i) (positionalArgs i) (hadErrors i) (diagnostics i).
Definition set_dbPath (x : chars) (i : Invocation) := mkInvocation (showUsage i) (showVersion i) (showVerboseStatus i) (useSerialBuild i) x (chdirPath i) (buildFilePath i) (traceFilePath i) (schedulerAlgorithm i) (schedulerLanes i) (positionalArgs i) (hadErrors i) (diagnostics i).
Definition set_chdirPath (x : chars) (i : Invocation) := mkInvocation (showUsage i) (showVersion i) (showVerboseStatus i) (useSerialBuild i) (dbPath i) x (buildFilePath i) (traceFilePath i) (schedulerAlgorithm i) (schedulerLanes i) (positionalArgs i) (hadErrors i) (diagnostics i).
Definition set_buildFilePath (x : chars) (i : Invocation) := mkInvocation (showUsage i) (showVersion i) (showVerboseStatus i) (useSerialBuild i) (dbPath i) (chdirPath i) x (traceFilePath i) (schedulerAlgorithm i) (schedulerLanes i) (positionalArgs i) (hadErrors i) (diagnostics i).
Definition set_traceFilePath (x : chars) (i : Invocation) := mkInvocation (showUsage i) (showVersion i) (showVerboseStatus i) (useSerialBuild i) (dbPath i) (chdirPath i) (buildFilePath i) x (schedulerAlgorithm i) (schedulerLanes i) (positionalArgs i) (hadErrors i) (diagnostics i).
Definition set_schedulerAlgorithm (x : SchedulerAlgorithm) (i : Invocation) := mkInvocation (showUsage i) (showVersion i) (showVerboseStatus i) (useSerialBuild i) (dbPath i) (chdirPath i) (buildFilePath i) (traceFilePath i) x (schedulerLanes i) (positionalArgs i) (hadErrors i) (diagnostics i).
(** [schedulerLanes] has 32 bits. *)
Definition set_schedulerLanes (x : Z) (i : Invocation) := mkInvocation (showUsage i) (showVersion i) (showVerboseStatus i) (useSerialBuild i) (dbPath i) (chdirPath i) (buildFilePath i) (traceFilePath i) (schedulerAlgorithm i) (u32 x) (positionalArgs i) (hadErrors i) (diagnostics i).
Definition add_positionalArgs (l : list chars) (i : Invocation) := mkInvocation (showUsage i) (showVersion i) (showVerboseStatus i) (useSerialBuild i) (dbPath i) (chdirPath i) (buildFilePath i) (traceFilePath i) (schedulerAlgorithm i) (schedulerLanes i) (positionalArgs i ++ l) (hadErrors i) (diagnostics i).
(** The function [error] of [parse]. *)
Definition parse_error (m : chars) (i : Invocation) := mkInvocation (showUsage i) (showVersion i) (showVerboseStatus i) (useSerialBuild i) (dbPath i) (chdirPath i) (buildFilePath i) (traceFilePath i) (schedulerAlgorithm i) (schedulerLanes i) (positionalArgs i) true (diagnostics i ++ [m]).

Definition missingArgument (option : chars) : chars := chars_of "missing argument to '" ++ option ++ chars_of "'".
Definition says (option : chars) (s : string) : bool := bool_decide (option = chars_of s).

(** The loop of [parse]. *)
Fixpoint parse (args : list chars) (i : Invocation) : Invocation :=
  match args with
  | [] => i
  | option :: args =>
      if says option "-" then add_positionalArgs args i
      else if (match option with c :: _ => negb (c =? "-")%char | [] => false end) then parse args (add_positionalArgs [option] i)
      else if says option "--help" then set_showUsage i
      else if says option "--version" then set_showVersion i
      else if says option "--no-db" then parse args (set_dbPath [] i)
      else if says option "--db" then
        match args with [] => parse_error (missingArgument option) i | x :: args => parse args (set_dbPath x i) end
      else if says option "-C" || says option "--chdir" then
        match args with [] => parse_error (missingArgument option) i | x :: args => parse args (set_chdirPath x i) end
      else if says option "-f" then
        match args with [] => parse_error (missingArgument option) i | x :: args => parse args (set_buildFilePath x i) end
      else if says option "--serial" then parse args (set_useSerialBuild i)
      else if says option "--scheduler" then
        match args with
        | [] => parse_error (missingArgument option) i
        | x :: args =>
            if says x "commandNamePriority" || says x "default" then parse args (set_schedulerAlgorithm NamePriority i)
            else if says x "fifo" then parse args (set_schedulerAlgorithm FIFO i)
            else parse_error (chars_of "unknown scheduler algorithm '" ++ x ++ chars_of "'") i
        end
      else if says option "-j" || says option "--jobs" then
        match args with
        | [] => parse_error (missingArgument option) i
        | x :: args =>
            let r := strtol (c_str x) in
            let i := set_schedulerLanes r.1 i in
            parse args (match r.2 with [] => i | _ => parse_error (chars_of "invalid argument '" ++ x ++ chars_of "' to '" ++ option ++ chars_of "'") i end)
        end
      else if (match option with "-"%char :: "j"%char :: _ => true | _ => false end) then
        let r := strtol (c_str (drop 2 option)) in
        let i := set_schedulerLanes r.1 i in
        parse args (match r.2 with [] => i | _ => parse_error (chars_of "invalid argument to '-j'") i end)
      else if says option "-v" || says option "--verbose" then parse args (set_showVerboseStatus i)
      else if says option "--trace" then
        match args with [] => parse_error (missingArgument option) i | x :: args => parse args (set_traceFilePath x i) end
      else parse_error (chars_of "invalid option '" ++ option ++ chars_of "'") i
  end.

(** ** Cycles *)

Definition describeKey (key : Key.Key) : outcome (list Z) :=
  let text (s : string) := bytes_of (chars_of s) in
  let quoted (s : string) (name : outcome (list Z)) := obind name (fun n => Ok (text s ++ [32; 39]%Z ++ n ++ [39]%Z)) in
  match Key.getKind key with
  | Key.Unknown => Ok (text "((unknown))")
  | Key.Command => quoted "command" (Key.getCommandName key)
  | Key.CustomTask => quoted "custom task" (Key.getCustomTaskName key)
  | Key.DirectoryContents => quoted "directory-contents" (Key.getDirectoryPath key)
  | Key.FilteredDirectoryContents => quoted "filtered-directory-contents" (Key.getFilteredDirectoryPath key)
  | Key.DirectoryTreeSignature => quoted "directory-tree-signature" (Key.getDirectoryTreeSignaturePath key)
  | Key.DirectoryTreeStructureSignature => quoted "directory-tree-structure-signature" (Key.getFilteredDirectoryPath key)
  | Key.Node => quoted "node" (Key.getNodeName key)
  | Key.Stat => quoted "stat" (Key.getStatName key)
  | Key.Target => quoted "target" (Key.getTargetName key)
  end.
Fixpoint formatRules (first : bool) (cycle : list Key.Key) (os : list Z) : outcome (list Z) :=
  match cycle with
  | [] => Ok os
  | data :: cycle =>
      obind (Key.fromData data) (fun key =>
      obind (describeKey key) (fun d =>
      formatRules false cycle (os ++ (if first then [] else bytes_of (chars_of " -> ")) ++ d)))
  end.
Definition formatDetectedCycle (cycle : list Key.Key) : outcome (list Z) := formatRules true cycle (bytes_of (chars_of "cycle detected while building: ")).

(** ** What a command line means *)

Lemma digit_char n : (n < 10)%N -> digit_value (pretty_N_char n) = Some (Z.of_N n) /\ is_space (pretty_N_char n) = false
  /\ (pretty_N_char n =? NUL)%char = false /\ pretty_N_char n <> "-"%char /\ pretty_N_char n <> "+"%char.
Proof.
  intros H. rewrite <- (N2Nat.id n) in *. set (k := N.to_nat n) in *. assert (k < 10)%nat as Hk by lia. clearbody k. clear H.
  do 10 (destruct k as [|k]; [by vm_compute|]). lia.
Qed.
(** The digits of a number, most significant first. *)
Lemma pretty_digits n : forall s, (0 < n)%N -> exists d ds, chars_of (pretty_N_go n s) = d :: ds ++ chars_of s
  /\ is_Some (digit_value d) /\ is_space d = false /\ d <> "-"%char /\ d <> "+"%char /\ Forall (fun c => (c =? NUL)%char = false) (d :: ds)
  /\ forall t, read_digits 0 (d :: ds ++ t) = read_digits (Z.of_N n) t.
Proof.
  induction (N.lt_wf_0 n) as [n _ IH]. intros s Hn. rewrite pretty_N_go_step by done.
  pose proof (N.mod_lt n 10 ltac:(lia)) as Hm. destruct (digit_char _ Hm) as (D1 & D2 & D3 & D4 & D5). set (c := pretty_N_char (n mod 10)) in *.
  destruct (decide (0 < n / 10)%N) as [Hq|Hq].
  - destruct (IH (n / 10)%N (N.div_lt n 10 ltac:(lia) ltac:(lia)) (String c s) Hq) as (d & ds & E & H1 & H2 & H3 & H4 & H5 & H6).
    exists d, (ds ++ [c]). split; [by rewrite E, <- app_assoc|]. split; [done|]. split; [done|]. split; [done|]. split; [done|]. split.
    + apply Forall_cons in H5 as [H5 H5']. apply Forall_cons. split; [done|]. apply Forall_app. split; [done|]. by apply Forall_singleton.
    + intros t. rewrite <- app_assoc, H6. cbn. rewrite D1. f_equal. rewrite N2Z.inj_div, N2Z.inj_mod. change (Z.of_N 10) with 10%Z. pose proof (Z.div_mod (Z.of_N n) 10 ltac:(lia)). lia.
  - assert (E : (n / 10 = 0)%N) by (by apply N.le_0_r, N.nlt_ge). rewrite E, pretty_N_go_0. exists c, []. cbn. split; [done|]. rewrite D1. split; [eauto|]. split; [done|].
    split; [done|]. split; [done|]. split; [by apply Forall_singleton|]. intros t. f_equal. pose proof (N.div_mod n 10 ltac:(lia)). lia.
Qed.
Lemma c_str_plain s : Forall (fun c => (c =? NUL)%char = false) s -> c_str s = s.
Proof. induction 1 as [|c s Hc _ IH]; [done|]. cbn. by rewrite Hc, IH. Qed.
Lemma strtol_decimal n : (0 <= n <= LONG_MAX)%Z -> strtol (c_str (decimal n)) = (n, []).
Proof.
  intros [Hn Hm]. unfold decimal. destruct n as [|p|p]; [by vm_compute| |lia].
  change (pretty (Z.pos p)) with (pretty_N_go (N.pos p) ""). destruct (pretty_digits (N.pos p) "" ltac:(lia)) as (d & ds & -> & [v Hv] & H2 & H3 & H4 & H5 & H6).
  cbn [chars_of list_ascii_of_string]. rewrite app_nil_r, c_str_plain by done. unfold strtol. cbn [skip_spaces]. rewrite H2.
  assert (E : match d :: ds with "-"%char :: u => (true, u) | "+"%char :: u => (false, u) | _ => (false, d :: ds) end = (false, d :: ds)).
  { clear -H3 H4. destruct d as [[] [] [] [] [] [] [] []]; try done. }
  rewrite E, Hv. specialize (H6 []). rewrite app_nil_r in H6. rewrite H6. cbn. unfold LONG_MAX, LONG_MIN in *. f_equal. lia.
Qed.

(** A command line for an invocation. *)
Definition algorithmName (a : SchedulerAlgorithm) : chars := chars_of (match a with NamePriority => "default" | FIFO => "fifo" end).
Definition toArgs (i : Invocation) : list chars :=
  (if showVerboseStatus i then [chars_of "--verbose"] else []) ++ (if useSerialBuild i then [chars_of "--serial"] else [])
  ++ [chars_of "--db"; dbPath i; chars_of "--chdir"; chdirPath i; chars_of "-f"; buildFilePath i; chars_of "--trace"; traceFilePath i;
      chars_of "--scheduler"; algorithmName (schedulerAlgorithm i); chars_of "-j"; decimal (schedulerLanes i); chars_of "-"] ++ positionalArgs i.
Record invocation_ok (i : Invocation) : Prop := {
  io_usage : showUsage i = false; io_version : showVersion i = false;
  io_errors : hadErrors i = false; io_diagnostics : diagnostics i = [];
  io_lanes : (0 <= schedulerLanes i < 2 ^ 32)%Z }.

(** The options, one at a time. *)
Lemma parse_verbose b args i : showVerboseStatus i = false ->
  parse ((if b : bool then [chars_of "--verbose"] else []) ++ args) i = parse args (if b then set_showVerboseStatus i else i).
Proof. by destruct b. Qed.
Lemma parse_serial b args i : parse ((if b : bool then [chars_of "--serial"] else []) ++ args) i = parse args (if b then set_useSerialBuild i else i).
Proof. by destruct b. Qed.
Lemma parse_db x args i : parse (chars_of "--db" :: x :: args) i = parse args (set_dbPath x i).
Proof. done. Qed.
Lemma parse_chdir x args i : parse (chars_of "--chdir" :: x :: args) i = parse args (set_chdirPath x i).
Proof. done. Qed.
Lemma parse_file x args i : parse (chars_of "-f" :: x :: args) i = parse args (set_buildFilePath x i).
Proof. done. Qed.
Lemma parse_trace x args i : parse (chars_of "--trace" :: x :: args) i = parse args (set_traceFilePath x i).
Proof. done. Qed.
Lemma parse_scheduler a args i : parse (chars_of "--scheduler" :: algorithmName a :: args) i = parse args (set_schedulerAlgorithm a i).
Proof. by destruct a. Qed.
Lemma parse_jobs n args i : (0 <= n <= LONG_MAX)%Z -> parse (chars_of "-j" :: decimal n :: args) i = parse args (set_schedulerLanes n i).
Proof.
  intros H. change (parse (chars_of "-j" :: decimal n :: args) i) with
    (let r := strtol (c_str (decimal n)) in let i := set_schedulerLanes r.1 i in
     parse args (match r.2 with [] => i | _ => parse_error (chars_of "invalid argument '" ++ decimal n ++ chars_of "' to '" ++ chars_of "-j" ++ chars_of "'") i end)).
  by rewrite (strtol_decimal n H).
Qed.
Lemma parse_positional args i : parse (chars_of "-" :: args) i = add_positionalArgs args i.
Proof. done. Qed.

(** Every invocation can be asked for: for each choice of options, with any texts as
    paths, any 32 bit number of lanes and any positional arguments, also ones that look like
    options, parsing the command line that spells it out gives this invocation, without an
    error. *)
Theorem parse_args_roundtrip i : invocation_ok i -> parse (toArgs i) newInvocation = i.
Proof.
  intros []. destruct i as [us ve vb se db cd bf tf al la po he di]. cbn in *. subst us ve he di.
  change (toArgs _) with ((if vb : bool then [chars_of "--verbose"] else []) ++ (if se : bool then [chars_of "--serial"] else []) ++ chars_of "--db" :: db :: chars_of "--chdir" :: cd
    :: chars_of "-f" :: bf :: chars_of "--trace" :: tf :: chars_of "--scheduler" :: algorithmName al :: chars_of "-j" :: decimal la :: chars_of "-" :: po).
  etransitivity; [by apply parse_verbose|]. etransitivity; [apply parse_serial|]. etransitivity; [apply parse_db|]. etransitivity; [apply parse_chdir|].
  etransitivity; [apply parse_file|]. etransitivity; [apply parse_trace|]. etransitivity; [apply parse_scheduler|].
  etransitivity; [apply parse_jobs; unfold LONG_MAX; lia|]. etransitivity; [apply parse_positional|].
  unfold set_schedulerLanes, u32. rewrite Z.mod_small by lia. by destruct vb, se.
Qed.

Definition exampleInvocation : Invocation :=
  mkInvocation false false true false [] (chars_of "--version") (chars_of "a b.llbuild") [] FIFO 12 [chars_of "--help"; chars_of "-"; []] false [].
Lemma parse_args_roundtrip_witness : parse (toArgs exampleInvocation) newInvocation = exampleInvocation.
Proof. apply parse_args_roundtrip. by constructor. Defined.

(** A negative or too large number of jobs is not an error. *)
Example negative_jobs_accepted : let i := parse [chars_of "-j"; chars_of "-1"] newInvocation in (schedulerLanes i, hadErrors i) = (2 ^ 32 - 1, false)%Z.
Proof. by vm_compute. Qed.
Example huge_jobs_wrap : let i := parse [chars_of "-j8589934593"] newInvocation in (schedulerLanes i, hadErrors i) = (1, false)%Z.
Proof. by vm_compute. Qed.

(** *** Cycles *)

Definition spellDesc (d : Key.Desc) : list Z :=
  let spell (s : string) (n : list Z) := bytes_of (chars_of s) ++ [32; 39]%Z ++ n ++ [39]%Z in
  match d with
  | Key.KCommand n => spell "command" n
  | Key.KCustomTask n _ => spell "custom task" n
  | Key.KDirectoryContents p => spell "directory-contents" p
  | Key.KFilteredDirectoryContents p _ => spell "filtered-directory-contents" p
  | Key.KDirectoryTreeSignature p _ => spell "directory-tree-signature" p
  | Key.KDirectoryTreeStructureSignature p _ => spell "directory-tree-structure-signature" p
  | Key.KNode p => spell "node" p
  | Key.KStat p => spell "stat" p
  | Key.KTarget n => spell "target" n
  end.
Lemma describeKey_ok d key : Key.describe key = Ok d -> describeKey key = Ok (spellDesc d).
Proof.
  unfold Key.describe, describeKey. intros E. destruct (Key.getKind key); try done; repeat (let F := fresh "F" in apply obind_inv in E as (? & F & E); try rewrite F); by injection E as <-.
Qed.
(** The keys of a cycle, made from what they stand for. *)
Definition made (d : Key.Desc) (key : Key.Key) : Prop := Key.valid_desc d /\ Key.make d = Ok key.
Definition arrow : list Z := bytes_of (chars_of " -> ").
Fixpoint spellCycle (ds : list Key.Desc) : list Z :=
  match ds with [] => [] | [d] => spellDesc d | d :: ds' => spellDesc d ++ arrow ++ spellCycle ds' end.
Lemma formatRules_later ds keys : Forall2 made ds keys -> forall os, formatRules false keys os = Ok (os ++ match ds with [] => [] | _ => arrow ++ spellCycle ds end).
Proof.
  induction 1 as [|d key ds keys [Hd Hm] _ IH]; intros os; [by cbn; rewrite app_nil_r|]. cbn [formatRules].
  destruct (Key.make_describe d Hd) as (key' & E' & Ef & Ed). rewrite Hm in E'. injection E' as <-. rewrite Ef. cbn [obind].
  rewrite (describeKey_ok d key Ed). cbn [obind]. rewrite IH. f_equal. fold arrow. rewrite <- !app_assoc. do 2 f_equal.
  destruct ds; cbn [spellCycle]; [by rewrite app_nil_r|done].
Qed.
(** The description of a cycle names its keys in order. *)
Lemma formatDetectedCycle_ok ds keys : Forall2 made ds keys -> formatDetectedCycle keys = Ok (bytes_of (chars_of "cycle detected while building: ") ++ spellCycle ds).
Proof.
  unfold formatDetectedCycle. destruct 1 as [|d key ds keys [Hd Hm] Hr]; [done|]. cbn [formatRules].
  destruct (Key.make_describe d Hd) as (key' & E' & Ef & Ed). rewrite Hm in E'. injection E' as <-. rewrite Ef. cbn [obind].
  rewrite (describeKey_ok d key Ed). cbn [obind]. rewrite (formatRules_later ds keys Hr). f_equal. rewrite <- !app_assoc. f_equal.
  destruct ds; cbn [spellCycle]; [by rewrite app_nil_r|done].
Qed.
