(* ===== verification/Frontend.v ===== *)
(** * The frontend of the build system

    lib/BuildSystem/BuildSystemFrontend.cpp: [BuildSystemFrontendImpl], which initializes a
    build system from an invocation and builds with it, while other threads cancel, report
    errors and count failed commands; and the default [BuildSystemFrontendDelegate].

    The regions under [stateMutex] are single steps of a transition system.  What the build
    system and the file system answer is part of the label of a step; the calls made to them
    are logged. *)

From Stdlib Require Import Ascii String Lia ZArith.
From stdpp Require Import base gmap list strings numbers.
From S2P Require Import Prelude Chars NinjaPath ExternalCommand ExecutionQueue Invocation.

(** ** State *)

Inductive Request := BuildTarget (target : chars) | BuildNode (node : chars).
(** What the build system answers: for a target whether there is a value, for a node its value. *)
Inductive NodeValue := ExistingInput | MissingInput | OtherValue.
Inductive BuildResult := TargetResult (b : bool) | NodeResult (v : option NodeValue).

Inductive BuilderPC :=
| Quiet
| Initializing (r : Request)                    (* before initialize *)
| Building (r : Request)                        (* in BuildSystem::build *)
| Built (r : Request) (v : BuildResult)         (* before the result is computed *)
| Returning (b : bool).                         (* before resetAfterBuild *)

Inductive SystemCall :=
| CChdir (path : chars) | CNewSystem | CLoadFile (path : chars) | CLoadPopulated (name : chars) | CCreateDirectories (path : chars)
| CEnableTracing (path : chars) | CAttachDB (path : chars) | CResetForBuild | CBuild (r : Request) | CCancel.

Record Frontend := mkFrontend {
  invocation : Invocation;
  descriptionOriginName : chars;
  inMemoryDescription : bool;
  cancelled : bool;
  system : bool;                    (* is there a build system *)
  fileSystem : bool;                (* is the file system still here *)
  populateDescription : bool;       (* is the callback still here *)
  numErrors : Z;
  numFailedCommands : Z;
  builder : BuilderPC;
  calls : list SystemCall;
  console : list chars;
  results : list bool }.
Definition set_cancelled (v : bool) (f : Frontend) := mkFrontend (invocation f) (descriptionOriginName f) (inMemoryDescription f) v (system f) (fileSystem f) (populateDescription f) (numErrors f) (numFailedCommands f) (builder f) (calls f) (console f) (results f).
Definition set_system (v : bool) (f : Frontend) := mkFrontend (invocation f) (descriptionOriginName f) (inMemoryDescription f) (cancelled f) v (fileSystem f) (populateDescription f) (numErrors f) (numFailedCommands f) (builder f) (calls f) (console f) (results f).
Definition set_fileSystem (v : bool) (f : Frontend) := mkFrontend (invocation f) (descriptionOriginName f) (inMemoryDescription f) (cancelled f) (system f) v (populateDescription f) (numErrors f) (numFailedCommands f) (builder f) (calls f) (console f) (results f).
Definition set_populate (v : bool) (f : Frontend) := mkFrontend (invocation f) (descriptionOriginName f) (inMemoryDescription f) (cancelled f) (system f) (fileSystem f) v (numErrors f) (numFailedCommands f) (builder f) (calls f) (console f) (results f).
Definition set_counters (e c : Z) (f : Frontend) := mkFrontend (invocation f) (descriptionOriginName f) (inMemoryDescription f) (cancelled f) (system f) (fileSystem f) (populateDescription f) e c (builder f) (calls f) (console f) (results f).
Definition set_builder (v : BuilderPC) (f : Frontend) := mkFrontend (invocation f) (descriptionOriginName f) (inMemoryDescription f) (cancelled f) (system f) (fileSystem f) (populateDescription f) (numErrors f) (numFailedCommands f) v (calls f) (console f) (results f).
Definition call (c : SystemCall) (f : Frontend) := mkFrontend (invocation f) (descriptionOriginName f) (inMemoryDescription f) (cancelled f) (system f) (fileSystem f) (populateDescription f) (numErrors f) (numFailedCommands f) (builder f) (calls f ++ [c]) (console f) (results f).
Definition print (m : chars) (f : Frontend) := mkFrontend (invocation f) (descriptionOriginName f) (inMemoryDescription f) (cancelled f) (system f) (fileSystem f) (populateDescription f) (numErrors f) (numFailedCommands f) (builder f) (calls f) (console f ++ [m]) (results f).
Definition answerClient (b : bool) (f : Frontend) := mkFrontend (invocation f) (descriptionOriginName f) (inMemoryDescription f) (cancelled f) (system f) (fileSystem f) (populateDescription f) (numErrors f) (numFailedCommands f) (builder f) (calls f) (console f) (results f ++ [b]).

(** The two constructors. *)
Definition newFrontend (i : Invocation) : Frontend := mkFrontend i [] false false false true false 0 0 Quiet [] [] [].
Definition newFrontendPopulated (i : Invocation) (name : chars) : Frontend := mkFrontend i name true false false true true 0 0 Quiet [] [] [].

(** ** The delegate's counters *)

(** [error]; the counters have 32 bits. *)
Definition error (m : chars) (f : Frontend) : Frontend := print m (set_counters (u32 (numErrors f + 1)) (numFailedCommands f) f).
Definition hadCommandFailure (f : Frontend) : Frontend := set_counters (numErrors f) (u32 (numFailedCommands f + 1)) f.
(** The errors a call of the build system reports. *)
Definition errors (ms : list chars) (f : Frontend) : Frontend := fold_left (fun f m => error m f) ms f.

(** ** Initialization *)

(** What the calls answer: the error of [chdir], whether the description was loaded and the
    errors reported meanwhile, whether the directory of the trace file could be made or is
    there, the errors of enabling tracing and attaching the database. *)
Record Answers := mkAnswers {
  chdirError : option chars;
  loaded : bool;
  loadErrors : list chars;
  createdDirectories : bool;
  isDirectory : bool;
  tracingError : option chars;
  attachError : option chars }.

Definition is_relative (p : chars) : bool := negb (is_absolute p).
Fixpoint contains (needle s : chars) : bool :=
  bool_decide (take (length needle) s = needle) || match s with [] => false | _ :: s' => contains needle s' end.

(** [createSystemLocked]. *)
Definition createSystemLocked (a : Answers) : M Frontend bool :=
  i <~ gets invocation;
  ok <~ (match chdirPath i with
         | [] => ret true
         | p => modify (call (CChdir p)) ;;;
                match chdirError a with
                | Some e => modify (error (chars_of "unable to honor --chdir: " ++ e)) ;;; ret false
                | None => ret true
                end
         end);
  if negb (ok : bool) then ret false
  else
    fs <~ gets fileSystem;
    if negb (fs : bool) then modify (error (chars_of "invalid reuse after initialization failure")) ;;; ret false
    else modify (fun f => call CNewSystem (set_system true (set_fileSystem false f))) ;;; ret true.

(** [beginInitializeLocked]: [None] if a description is to be loaded. *)
Definition beginInitializeLocked (a : Answers) : M Frontend (option bool) :=
  modify (set_counters 0 0) ;;;
  c <~ gets cancelled;
  if c : bool then ret (Some false)
  else
    s <~ gets system;
    if s : bool then modify (call CResetForBuild) ;;; ret (Some true)
    else ok <~ createSystemLocked a; ret (if ok : bool then None else Some false).

(** The path of the database; [None] if it has to be absolute. *)
Definition databasePath (f : Frontend) : option chars :=
  let p := dbPath (invocation f) in
  if is_relative p && negb (contains (chars_of "://") p) && negb (bool_decide (take 1 p = chars_of ":")) then
    if inMemoryDescription f then None else Some (append (append [] (parent_path (buildFilePath (invocation f)))) p)
  else Some p.

Definition failInit (m : chars) : M Frontend bool := modify (fun f => set_system false (error m f)) ;;; ret false.

(** [finishInitializeLocked]. *)
Definition finishInitializeLocked (a : Answers) : M Frontend bool :=
  i <~ gets invocation;
  traced <~ (match traceFilePath i with
             | [] => ret true
             | p =>
                 let dir := parent_path p in
                 modify (call (CCreateDirectories dir)) ;;;
                 if negb (createdDirectories a) && negb (isDirectory a) then failInit (chars_of "unable to create tracing directory: " ++ dir)
                 else
                   modify (call (CEnableTracing p)) ;;;
                   match tracingError a with Some e => failInit (chars_of "unable to enable tracing: " ++ e) | None => ret true end
             end);
  if negb (traced : bool) then ret false
  else
    match dbPath i with
    | [] => ret true
    | p =>
        d <~ gets databasePath;
        match d with
        | None => failInit (chars_of "database path must be absolute when the build description is built in memory: " ++ p)
        | Some path =>
            modify (call (CAttachDB path)) ;;;
            match attachError a with Some e => failInit (chars_of "unable to attach DB: " ++ e) | None => ret true end
        end
    end.

(** [initialize], with the lock. *)
Definition initialize (a : Answers) : M Frontend bool :=
  r <~ beginInitializeLocked a;
  match r with
  | Some b => ret b
  | None =>
      f <~ get;
      (if populateDescription f then modify (fun f => call (CLoadPopulated (descriptionOriginName f)) (set_populate false f))
       else modify (call (CLoadFile (buildFilePath (invocation f))))) ;;;
      modify (errors (loadErrors a)) ;;;
      if negb (loaded a) then modify (set_system false) ;;; ret false else finishInitializeLocked a
  end.

(** ** Steps *)

Inductive Label :=
| BuildL (r : Request)            (* a client calls build or buildNode *)
| InitL (a : Answers)
| EndL (v : BuildResult)          (* BuildSystem::build returns *)
| CheckL
| ResetL
| CancelL                         (* any thread *)
| ErrorL (m : chars)
| FailureL.

(** The result of a build, under the lock for a target. *)
Definition check (r : Request) (v : BuildResult) : M Frontend bool :=
  f <~ get;
  let noFailures := ((numFailedCommands f =? 0) && (numErrors f =? 0))%Z in
  match r, v with
  | BuildTarget _, TargetResult b => ret (b && negb (cancelled f) && noFailures)
  | BuildNode n, NodeResult None => ret false
  | BuildNode n, NodeResult (Some ExistingInput) => ret noFailures
  | BuildNode n, NodeResult (Some MissingInput) => modify (error (chars_of "missing input '" ++ n ++ chars_of "' and no rule to build it")) ;;; ret false
  | BuildNode n, NodeResult (Some OtherValue) => ret false
  | _, _ => ret false
  end.

Definition runM {A} (m : M Frontend A) (k : A -> Frontend -> Frontend) (f : Frontend) : option Frontend :=
  match m f with Ok (a, f') => Some (k a f') | Crash _ => None end.

Definition step (l : Label) (f : Frontend) : option Frontend :=
  match l, builder f with
  | BuildL r, Quiet => Some (set_builder (Initializing r) f)
  | InitL a, Initializing r => runM (initialize a) (fun b f => if b : bool then call (CBuild r) (set_builder (Building r) f) else set_builder (Returning false) f) f
  | EndL v, Building r =>
      match r, v with
      | BuildTarget _, TargetResult _ | BuildNode _, NodeResult _ => Some (set_builder (Built r v) f)
      | _, _ => None
      end
  | CheckL, Built r v => runM (check r v) (fun b => set_builder (Returning b)) f
  | ResetL, Returning b => Some (answerClient b (set_builder Quiet (set_cancelled false f)))
  | CancelL, _ => Some (let f := set_cancelled true f in if system f then call CCancel f else f)
  | ErrorL m, _ => Some (error m f)
  | FailureL, _ => Some (hadCommandFailure f)
  | _, _ => None
  end.
Fixpoint run (ls : list Label) (f : Frontend) : option Frontend :=
  match ls with [] => Some f | l :: ls' => f' ← step l f; run ls' f' end.

(** ** The delegate *)

(** [createExecutionQueue]: the number of lanes, given that of CPUs. *)
Definition lanesOf (numCPUs : Z) (f : Frontend) : Z * Frontend :=
  let i := invocation f in
  if useSerialBuild i then (1%Z, f)
  else if (schedulerLanes i =? 0)%Z then
    if (numCPUs =? 0)%Z then (1%Z, error (chars_of "unable to detect number of CPUs") f) else (numCPUs, f)
  else (schedulerLanes i, f).

(** The part of a file of [size] characters an error at [offset] refers to, if it is shown. *)
Definition diagnosticRange (offset length size : Z) : option (Z * Z) :=
  if (u32 (u32 offset + length) <? size)%Z then Some (u32 offset, u32 (u32 offset + length)) else None.

Definition comma (first : bool) : chars := if first then [] else chars_of ", ".
Fixpoint quotedList (first : bool) (l : list chars) : chars :=
  match l with [] => [] | x :: l' => comma first ++ chars_of "'" ++ x ++ chars_of "'" ++ quotedList false l' end.
(** The names of nodes, and the data of other keys. *)
Definition missingInputsMessage (output : chars) (inputs : list chars) : chars :=
  chars_of "cannot build '" ++ output ++ chars_of "' due to missing inputs: " ++ quotedList true inputs.
(** A command is compared with the first one to put commas. *)
Fixpoint producers (firstCommand : chars) (commands : list chars) : chars :=
  match commands with
  | [] => []
  | c :: commands' => (if bool_decide (c = firstCommand) then [] else chars_of ", ") ++ chars_of "'" ++ c ++ chars_of "'" ++ producers firstCommand commands'
  end.
Definition multipleProducersMessage (output : chars) (commands : list chars) : chars :=
  chars_of "unable to build node: '" ++ output ++ chars_of "' (node is produced by multiple commands: '" ++ producers (default [] (head commands)) commands.

(** What [commandStarted] prints. *)
Definition commandLine (showStatus verbose : bool) (short long : chars) : option chars :=
  if negb showStatus then None else Some (if verbose then long else match short with [] => long | _ => short end).

(** The output of processes by their handles. *)
Inductive ProcessEvent := HadOutput (handle : Z) (data : list Z) | Finished (handle : Z).
Record Buffers := mkBuffers { processOutputBuffers : gmap Z (list Z); stdout : list Z }.
Definition processEvent (e : ProcessEvent) (b : Buffers) : Buffers :=
  match e with
  | HadOutput h data => mkBuffers (<[h := default [] (processOutputBuffers b !! h) ++ data]> (processOutputBuffers b)) (stdout b)
  | Finished h =>
      match processOutputBuffers b !! h with
      | None => b
      | Some data => mkBuffers (delete h (processOutputBuffers b)) (stdout b ++ data)
      end
  end.
