(* ===== verification/FrontendProps.v ===== *)
(** * What the frontend guarantees

    A build succeeds only if it was initialized, was not cancelled, and nothing went wrong
    while it ran; a frontend whose initialization failed stays unusable; the output of a
    process is printed in one piece. *)

From Stdlib Require Import Ascii String Lia ZArith.
From stdpp Require Import base gmap list strings numbers.
From S2P Require Import Prelude Chars NinjaPath ExternalCommand ExecutionQueue Invocation Frontend.

Local Open Scope Z_scope.

(** ** Counters *)

(** [counts m n f]: [m] errors and [n] failures were counted. *)
Definition counts (m n : Z) (f : Frontend) : Prop := numErrors f = u32 m /\ numFailedCommands f = u32 n.
(** What a call leaves alone: the builder, its results, the cancellation. *)
Definition frame (f : Frontend) := (builder f, results f, cancelled f).
Definition has_system (f : Frontend) := (system f, fileSystem f).

Lemma u32_succ m : u32 (u32 m + 1) = u32 (m + 1).
Proof. unfold u32. by rewrite Zplus_mod_idemp_l. Qed.
Lemma error_counts msg m n f : counts m n f -> counts (m + 1) n (error msg f).
Proof. intros [H1 H2]. split; cbn; [|done]. by rewrite H1, u32_succ. Qed.
Lemma failure_counts m n f : counts m n f -> counts m (n + 1) (hadCommandFailure f).
Proof. intros [H1 H2]. split; cbn; [done|]. by rewrite H2, u32_succ. Qed.
Lemma errors_cons msg ms f : errors (msg :: ms) f = errors ms (error msg f).
Proof. done. Qed.
Lemma errors_counts ms : forall m n f, counts m n f -> counts (m + Z.of_nat (length ms)) n (errors ms f).
Proof.
  induction ms as [|msg ms IH]; intros m n f H; [by rewrite Z.add_0_r|]. rewrite errors_cons.
  replace (m + Z.of_nat (length (msg :: ms))) with (m + 1 + Z.of_nat (length ms)) by (cbn [length]; lia). by apply IH, error_counts.
Qed.
Lemma errors_frame ms : forall f, frame (errors ms f) = frame f /\ has_system (errors ms f) = has_system f.
Proof. induction ms as [|m ms IH]; intros f; [done|]. rewrite errors_cons. by destruct (IH (error m f)) as [-> ->]. Qed.
Lemma counts_zero m n f : 0 <= m < 2 ^ 32 -> 0 <= n < 2 ^ 32 -> counts m n f ->
  ((numFailedCommands f =? 0) && (numErrors f =? 0)) = bool_decide (m = 0 /\ n = 0).
Proof.
  intros Hm Hn [-> ->]. unfold u32. rewrite !Z.mod_small by done. apply eq_true_iff_eq. rewrite andb_true_iff, !Z.eqb_eq, bool_decide_eq_true. tauto.
Qed.

(** ** Initialization *)

(** A call answers, and its success leaves the counters and the system. *)
Definition checks (m : M Frontend bool) : Prop := forall f, exists b f', m f = Ok (b, f') /\ frame f' = frame f /\ fileSystem f' = fileSystem f
  /\ (b = true -> system f' = system f /\ numErrors f' = numErrors f /\ numFailedCommands f' = numFailedCommands f)
  /\ (b = false -> system f' = false).

Lemma checks_ret : checks (ret true).
Proof. intros f. exists true, f. by split_and!. Qed.
Lemma checks_fail m : checks (failInit m).
Proof. intros f. eexists false, _. split; [reflexivity|]. split_and!; by intros. Qed.
Lemma checks_call c m : checks m -> checks (modify (call c) ;;; m).
Proof. intros H f. destruct (H (call c f)) as (b & f' & E & F). by exists b, f'. Qed.
Lemma checks_seq (m k : M Frontend bool) : checks m -> checks k -> checks (b <~ m; if negb (b : bool) then ret false else k).
Proof.
  intros H1 H2 f. destruct (H1 f) as (b & f1 & E1 & F1 & G1 & T1 & X1). unfold bind. rewrite E1. destruct b; cbn [negb].
  - destruct (H2 f1) as (b & f2 & E2 & F2 & G2 & T2 & X2). destruct (T1 eq_refl) as (A & B & C). exists b, f2. split; [done|].
    split; [by rewrite F2|]. split; [by rewrite G2|]. split; [|done]. intros Hb. destruct (T2 Hb) as (-> & -> & ->). done.
  - exists false, f1. split; [done|]. split; [done|]. split; [done|]. split; [done|]. intros _. by apply X1.
Qed.
Lemma checks_gets {A} (g : Frontend -> A) m : (forall x, checks (m x)) -> checks (x <~ gets g; m x).
Proof. intros H f. apply H. Qed.
Lemma finish_checks a : checks (finishInitializeLocked a).
Proof.
  unfold finishInitializeLocked. apply checks_gets. intros i. apply checks_seq.
  - destruct (traceFilePath i) as [|c p]; [apply checks_ret|]. apply checks_call. destruct (_ && _); [apply checks_fail|]. apply checks_call.
    destruct (tracingError a); [apply checks_fail|apply checks_ret].
  - destruct (dbPath i) as [|c p]; [apply checks_ret|]. apply checks_gets. intros [path|]; [|apply checks_fail]. apply checks_call.
    destruct (attachError a); [apply checks_fail|apply checks_ret].
Qed.

(** Creating the system fails if the directory cannot be entered or the file system is gone. *)
Definition chdirFails (a : Answers) (f : Frontend) : bool := match chdirPath (invocation f), chdirError a with _ :: _, Some _ => true | _, _ => false end.
Lemma create_spec a f : exists b f', createSystemLocked a f = Ok (b, f') /\ frame f' = frame f /\ b = negb (chdirFails a f) && fileSystem f
  /\ has_system f' = (if b then (true, false) else has_system f) /\ (b = true -> numErrors f' = numErrors f /\ numFailedCommands f' = numFailedCommands f)
  /\ populateDescription f' = populateDescription f.
Proof.
  unfold createSystemLocked, chdirFails. monad_unfold.
  destruct (chdirPath (invocation f)) as [|c p]; [|destruct (chdirError a)].
  2:{ eexists false, _. split; [reflexivity|]. split_and!; try reflexivity. intros [=]. }
  all: cbn; destruct (fileSystem f) eqn:E; cbn; eexists _, _; (split; [reflexivity|]); (split_and!; try reflexivity; first [by intros|unfold has_system; cbn; by rewrite ?E]).
Qed.

(** The number of errors loading reports: a system that is there is not loaded again. *)
Definition initErrors (a : Answers) (f : Frontend) : Z := if system f then 0 else Z.of_nat (length (loadErrors a)).

Lemma describe_spec f : exists f', (if populateDescription f then modify (fun f => call (CLoadPopulated (descriptionOriginName f)) (set_populate false f))
    else modify (call (CLoadFile (buildFilePath (invocation f))))) f = Ok (tt, f')
  /\ frame f' = frame f /\ has_system f' = has_system f /\ (numErrors f', numFailedCommands f') = (numErrors f, numFailedCommands f).
Proof. destruct (populateDescription f); eexists; by split_and!. Qed.
Lemma initialize_spec a f : exists b f', initialize a f = Ok (b, f') /\ frame f' = frame f
  /\ (b = true -> cancelled f = false /\ system f' = true /\ counts (initErrors a f) 0 f')
  /\ (b = false -> system f' = (cancelled f && system f))
  /\ (fileSystem f' = true -> fileSystem f = true /\ (b = true -> system f = true) /\ (b = false -> cancelled f = true \/ chdirFails a f = true))
  /\ (b = true -> system f = true \/ fileSystem f = true).
Proof.
  unfold initialize, initErrors, bind at 1, beginInitializeLocked, bind at 1, modify at 1. cbn. unfold bind at 1, gets at 1. cbn.
  destruct (cancelled f) eqn:C; cbn.
  { eexists false, _. split; [done|]. cbn. unfold frame; cbn. rewrite C. naive_solver. }
  destruct (system f) eqn:S; cbn.
  { eexists true, _. split; [done|]. unfold frame, counts; cbn. rewrite C. naive_solver. }
  unfold bind at 1. destruct (create_spec a (set_counters 0 0 f)) as (b & f1 & -> & F1 & Eb & H1 & N1 & P1). change (chdirFails a (set_counters 0 0 f)) with (chdirFails a f) in Eb.
  destruct b; cbn.
  2:{ exists false, f1. split; [done|]. unfold has_system in H1. cbn in H1. injection H1 as H1 H1'. split; [done|]. split; [done|]. split; [by rewrite H1|].
      rewrite H1'. split; [|done]. intros Hf. split; [done|]. split; [done|]. intros _. right. cbn in Eb. rewrite Hf, andb_true_r in Eb. by destruct (chdirFails a f). }
  symmetry in Eb. apply andb_true_iff in Eb as [_ Eb]. cbn in Eb. injection H1 as S1 G1. destruct (N1 eq_refl) as [NE NF]. unfold bind at 1, get. cbv beta iota.
  destruct (describe_spec f1) as (f2 & E2 & F2 & H2 & N2). unfold bind at 1. rewrite E2. cbv beta iota. cbn in F1, NE, NF.
  rewrite F1 in F2. unfold has_system at 2 in H2. rewrite S1, G1 in H2. rewrite NE, NF in N2. injection N2 as N2a N2b. assert (N2 : counts 0 0 f2) by done.
  unfold bind at 1, modify at 1. destruct (errors_frame (loadErrors a) f2) as [F3 H3]. pose proof (errors_counts (loadErrors a) 0 0 f2 N2) as N3.
  set (f3 := errors _ f2) in *. destruct (loaded a); cbn [negb].
  - destruct (finish_checks a f3) as (b & f4 & E4 & F4 & G4 & T4 & X4). rewrite E4. exists b, f4. split; [done|]. split; [by rewrite F4, F3|].
    rewrite H2 in H3. injection H3 as S3 G3. split; [|split; [done|]].
    + intros Hb. destruct (T4 Hb) as (-> & HE & HF). split; [done|]. split; [done|]. unfold counts in *. by rewrite HE, HF.
    + rewrite G4, G3. split; [done|]. by right.
  - eexists false, _. split; [done|]. split; [exact (eq_trans F3 F2)|]. split; [done|]. split; [done|]. cbn. rewrite H2 in H3. injection H3 as S3 G3. rewrite G3. by split.
Qed.

(** ** Builds *)

(** What other threads do: cancel, report errors, count failed commands. *)
Definition environment (l : Label) : Prop := match l with CancelL | ErrorL _ | FailureL => True | _ => False end.
Definition is_cancel (l : Label) : bool := match l with CancelL => true | _ => false end.
Definition is_problem (l : Label) : bool := match l with ErrorL _ | FailureL => true | _ => false end.
Fixpoint errorsIn (ls : list Label) : Z := match ls with [] => 0 | ErrorL _ :: ls => 1 + errorsIn ls | _ :: ls => errorsIn ls end.
Fixpoint failuresIn (ls : list Label) : Z := match ls with [] => 0 | FailureL :: ls => 1 + failuresIn ls | _ :: ls => failuresIn ls end.

Lemma run_steps_app ls ls' : forall f, run (ls ++ ls') f = f' ← run ls f; run ls' f'.
Proof. induction ls as [|l ls IH]; intros f; [done|]. cbn. destruct (step l f); [apply IH|done]. Qed.

(** The effect of other threads. *)
Record disturbed (ls : list Label) (f f' : Frontend) : Prop := {
  di_builder : builder f' = builder f;
  di_results : results f' = results f;
  di_system : has_system f' = has_system f;
  di_cancelled : cancelled f' = cancelled f || existsb is_cancel ls;
  di_counts m n : counts m n f -> counts (m + errorsIn ls) (n + failuresIn ls) f' }.
Lemma run_environment ls : Forall environment ls -> forall f, exists f', run ls f = Some f' /\ disturbed ls f f'.
Proof.
  induction 1 as [|l ls Hl _ IH]; intros f.
  { exists f. split; [done|]. split; try done; [by rewrite orb_false_r|]. intros m n. by rewrite !Z.add_0_r. }
  assert (exists g, step l f = Some g /\ disturbed [l] f g) as (g & E & [A1 A2 A3 A4 A5]).
  { destruct l as [| | | | | |msg|]; try done; eexists; (split; [done|]); split; cbn; try done.
    all: try (by rewrite orb_false_r).
    all: try (unfold has_system; destruct (system f) eqn:S; cbn; by rewrite ?S, ?orb_true_r).
    - intros m n [H1 H2]. cbn [errorsIn failuresIn]. rewrite !Z.add_0_r. by destruct (system f).
    - intros m n H. cbn [errorsIn failuresIn]. rewrite !Z.add_0_r. by apply error_counts.
    - intros m n H. cbn [errorsIn failuresIn]. rewrite !Z.add_0_r. by apply failure_counts. }
  destruct (IH g) as (f' & E' & [B1 B2 B3 B4 B5]). exists f'. cbn. rewrite E. split; [done|]. split.
  - by rewrite B1. - by rewrite B2. - by rewrite B3.
  - rewrite B4, A4. cbn. by rewrite orb_false_r, orb_assoc.
  - intros m n H. apply A5, B5 in H. clear -H. unfold errorsIn, failuresIn in *.
    destruct l; cbn [errorsIn failuresIn] in *; rewrite ?Z.add_0_r, <- ?Z.add_assoc in *; done.
Qed.

Lemma errorsIn_app ls ls' : errorsIn (ls ++ ls') = errorsIn ls + errorsIn ls'.
Proof. induction ls as [|[] ls IH]; cbn [errorsIn app]; rewrite ?IH; lia. Qed.
Lemma failuresIn_app ls ls' : failuresIn (ls ++ ls') = failuresIn ls + failuresIn ls'.
Proof. induction ls as [|[] ls IH]; cbn [failuresIn app]; rewrite ?IH; lia. Qed.

(** The answer to a request has its kind. *)
Definition answers (r : Request) (v : BuildResult) : Prop := match r, v with BuildTarget _, TargetResult _ | BuildNode _, NodeResult _ => True | _, _ => False end.
(** When a build whose system answers [v], after [n] errors while loading, succeeds. *)
Definition succeeds (v : BuildResult) (n : Z) (during : list Label) : bool :=
  (match v with TargetResult b => b && negb (existsb is_cancel during) | NodeResult (Some ExistingInput) => true | NodeResult _ => false end)
  && (n =? 0) && negb (existsb is_problem during).

Lemma problems_counted ls : 0 <= errorsIn ls /\ 0 <= failuresIn ls /\ errorsIn ls + failuresIn ls <= Z.of_nat (length ls)
  /\ (existsb is_problem ls = false <-> errorsIn ls = 0 /\ failuresIn ls = 0).
Proof.
  induction ls as [|l ls (H1 & H2 & H3 & H4)]; [by cbn|]. destruct l; cbn [errorsIn failuresIn length existsb is_problem orb]; (split; [lia|]); (split; [lia|]); (split; [lia|]); try done; (split; [done|lia]).
Qed.
Lemma check_spec r v f m n during : answers r v -> counts (m + errorsIn during) (failuresIn during) f -> 0 <= m -> m + Z.of_nat (length during) < 2 ^ 32 ->
  cancelled f = existsb is_cancel during ->
  n = m -> exists f', check r v f = Ok (succeeds v n during, f') /\ frame f' = frame f /\ has_system f' = has_system f.
Proof.
  intros Hv Hc Hm Hb C ->. destruct (problems_counted during) as (P1 & P2 & P3 & P4).
  pose proof (counts_zero (m + errorsIn during) (failuresIn during) f ltac:(lia) ltac:(lia) Hc) as Hz.
  assert (Ez : bool_decide (m + errorsIn during = 0 /\ failuresIn during = 0) = (m =? 0) && negb (existsb is_problem during)).
  { apply eq_true_iff_eq. rewrite bool_decide_eq_true, andb_true_iff, Z.eqb_eq, negb_true_iff, P4. clear -Hm P1 P2 P3. intuition lia. }
  rewrite Ez in Hz. unfold check, succeeds. monad_unfold. rewrite Hz, C.
  destruct r, v as [b|[[| |]|]]; try done; eexists; (split; [rewrite ?andb_assoc; reflexivity|by split]).
Qed.


(** C19: What a build tells its client.  However other threads cancel, report errors and
    count failed commands before, while and after the system is initialized, a build is
    initialized or answers false.  If it is initialized, it was not cancelled before; and it
    answers true exactly if no error was reported while the description was loaded, no
    error or failed command after that, and the target was built and not cancelled in the
    meantime, or the node is an input that exists.  Either way the cancellation is forgotten
    when it returns. *)
Theorem build_outcome r a v pre mid post f : builder f = Quiet -> Forall environment pre -> Forall environment mid -> Forall environment post ->
  answers r v -> Z.of_nat (length (loadErrors a)) + Z.of_nat (length (mid ++ post)) < 2 ^ 32 ->
  exists f1, run (BuildL r :: pre ++ [InitL a]) f = Some f1 /\
    (builder f1 = Returning false /\ (exists f', run (mid ++ [ResetL]) f1 = Some f' /\ builder f' = Quiet /\ cancelled f' = false /\ results f' = results f ++ [false])
     \/ builder f1 = Building r /\ cancelled f = false /\ existsb is_cancel pre = false /\ system f1 = true /\
         exists f', run (mid ++ EndL v :: post ++ [CheckL; ResetL]) f1 = Some f' /\ builder f' = Quiet /\ cancelled f' = false
           /\ results f' = results f ++ [succeeds v (initErrors a f) (mid ++ post)]).
Proof.
  intros Q Hpre Hmid Hpost Hv Hb. cbn [run step]. rewrite Q. cbn [mbind option_bind].
  destruct (run_environment pre Hpre (set_builder (Initializing r) f)) as (g & Eg & [A1 A2 A3 A4 A5]). cbn in A1, A2, A4.
  rewrite run_steps_app, Eg. cbn [mbind option_bind run step]. rewrite A1. unfold runM.
  destruct (initialize_spec a g) as (b & h & -> & F & T & _). unfold frame in F. injection F as F1 F2 F3.
  assert (En : initErrors a g = initErrors a f). { unfold has_system in A3. cbn in A3. injection A3 as A3 _. unfold initErrors. by rewrite A3. }
  assert (Hn : 0 <= initErrors a f <= Z.of_nat (length (loadErrors a))) by (unfold initErrors; destruct (system f); lia).
  destruct b; cbn [mbind option_bind]; eexists; (split; [reflexivity|]); [right|left]; (split; [done|]).
  - destruct (T eq_refl) as (T1 & T2 & T3). rewrite A4, orb_false_iff in T1. destruct T1 as [T1 T1']. split; [done|]. split; [done|]. split; [done|].
    rewrite En in T3. set (h1 := call _ _).
    destruct (run_environment mid Hmid h1) as (k & Ek & [B1 B2 B3 B4 B5]). rewrite run_steps_app, Ek. cbn [mbind option_bind run step]. rewrite B1. cbn [builder h1 call set_builder].
    replace (match r, v with BuildTarget _, TargetResult _ | BuildNode _, NodeResult _ => Some (set_builder (Built r v) k) | _, _ => None end) with (Some (set_builder (Built r v) k)) by (by destruct r, v).
    cbn [mbind option_bind]. destruct (run_environment post Hpost (set_builder (Built r v) k)) as (l & El & [C1 C2 C3 C4 C5]).
    rewrite run_steps_app, El. cbn [mbind option_bind run step]. rewrite C1. cbn [builder set_builder]. unfold runM.
    assert (Hc : counts (initErrors a f + errorsIn (mid ++ post)) (failuresIn (mid ++ post)) l).
    { rewrite errorsIn_app, failuresIn_app, Z.add_assoc. apply C5. apply (B5 (initErrors a f) 0). exact T3. }
    destruct (check_spec r v l (initErrors a f) (initErrors a f) (mid ++ post) Hv Hc ltac:(lia) ltac:(lia)) as (q & -> & G & _); [|done|].
    { rewrite C4, existsb_app. cbn. rewrite B4. cbn. by rewrite F3, A4, T1, T1'. }
    unfold frame in G. injection G as G1 G2 G3. cbn [mbind option_bind run step builder set_builder]. eexists. split; [reflexivity|]. cbn. split; [done|]. split; [done|].
    rewrite G2, C2. cbn. rewrite B2. cbn. by rewrite F2, A2.
  - set (h1 := set_builder _ _). destruct (run_environment mid Hmid h1) as (k & Ek & [B1 B2 B3 B4 B5]). rewrite run_steps_app, Ek. cbn [mbind option_bind run step]. rewrite B1. cbn.
    eexists. split; [reflexivity|]. cbn. split; [done|]. split; [done|]. rewrite B2. cbn. by rewrite F2, A2.
Qed.

(** A target with a description in memory: another build was cancelled, a command fails, a
    build that works. *)
Definition exampleFrontend : Frontend := newFrontendPopulated (set_dbPath [] newInvocation) (chars_of "memory").
Definition goodAnswers : Answers := mkAnswers None true [] true true None None.
Lemma build_outcome_witness :
  (exists f1, run (BuildL (BuildTarget (chars_of "all")) :: [FailureL] ++ [InitL goodAnswers]) exampleFrontend = Some f1 /\
    (builder f1 = Returning false /\ (exists f', run ([ErrorL (chars_of "e")] ++ [ResetL]) f1 = Some f' /\ builder f' = Quiet /\ cancelled f' = false /\ results f' = results exampleFrontend ++ [false])
     \/ builder f1 = Building (BuildTarget (chars_of "all")) /\ cancelled exampleFrontend = false /\ existsb is_cancel [FailureL] = false /\ system f1 = true /\
         exists f', run ([ErrorL (chars_of "e")] ++ EndL (TargetResult true) :: [] ++ [CheckL; ResetL]) f1 = Some f' /\ builder f' = Quiet /\ cancelled f' = false
           /\ results f' = results exampleFrontend ++ [succeeds (TargetResult true) (initErrors goodAnswers exampleFrontend) ([ErrorL (chars_of "e")] ++ [])]))
  /\ succeeds (TargetResult true) 0 [ErrorL (chars_of "e")] = false /\ succeeds (TargetResult true) 0 [] = true.
Proof. split; [|by vm_compute]. by apply build_outcome; repeat constructor. Defined.

(** ** After a failed initialization *)

(** There is no system and no file system to make one, and no answer is on its way. *)
Definition unusable (f : Frontend) : Prop := system f = false /\ fileSystem f = false /\ match builder f with Quiet | Initializing _ | Returning false => True | _ => False end.
Lemma unusable_step l f f' : unusable f -> step l f = Some f' -> unusable f' /\ (results f' = results f \/ results f' = results f ++ [false]).
Proof.
  intros (S & G & B). destruct l; cbn [step].
  - destruct (builder f); intros [= <-]; by repeat split; auto.
  - destruct (builder f) as [|r| | |[]] eqn:Q; try done. unfold runM. destruct (initialize_spec a f) as (b & h & -> & F & T & X & Y & Z). unfold frame in F. injection F as F1 F2 F3.
    destruct (fileSystem h) eqn:Gh; [destruct (Y eq_refl); congruence|]. destruct b.
    { destruct (Z eq_refl); congruence. }
    intros [= <-]. split; [|by left]. split; [|done]. cbn. rewrite X by done. by rewrite S, andb_false_r.
  - by destruct (builder f).
  - by destruct (builder f).
  - destruct (builder f) as [| | | |[]] eqn:Q; try done. intros [= <-]. split; [done|]. by right.
  - intros [= <-]. rewrite S. split; [done|]. by left.
  - intros [= <-]. split; [done|]. by left.
  - intros [= <-]. split; [done|]. by left.
Qed.

(** Whatever clients and other threads do, they are only ever told that builds failed. *)
Lemma unusable_stays ls : forall f f', unusable f -> run ls f = Some f' -> unusable f' /\ exists n, results f' = results f ++ replicate n false.
Proof.
  induction ls as [|l ls IH]; intros f f' U E; [injection E as <-; split; [done|]; exists O; by rewrite app_nil_r|].
  cbn [run] in E. destruct (step l f) as [g|] eqn:Es; [|done]. destruct (unusable_step l f g U Es) as [Ug Rg]. destruct (IH g f' Ug E) as [Uf [n Rf]].
  split; [done|]. destruct Rg as [Rg|Rg]; rewrite Rf, Rg; [by exists n|]. exists (S n). by rewrite <- app_assoc.
Qed.

(** C20: A frontend does not recover from a failed initialization: if there is no system yet,
    the build was not cancelled and the directory could be entered, then whatever fails
    (loading the description, making the directory of the trace, tracing, the database)
    leaves it without a system and without a file system, and whatever clients and other
    threads do afterwards, every build they ask for answers false. *)
Theorem failed_initialization_is_final a r f f1 ls f' : builder f = Initializing r -> system f = false -> cancelled f = false -> chdirFails a f = false ->
  step (InitL a) f = Some f1 -> builder f1 = Returning false -> run ls f1 = Some f' ->
  system f' = false /\ fileSystem f' = false /\ exists n, results f' = results f ++ replicate n false.
Proof.
  cbn [step]. intros Q S C D. rewrite Q. unfold runM. destruct (initialize_spec a f) as (b & h & -> & F & T & X & Y & _). unfold frame in F. injection F as F1 F2 F3.
  destruct b; intros [= <-]; [done|]. intros _ E.
  assert (Gh : fileSystem h = false). { destruct (fileSystem h); [|done]. destruct (Y eq_refl) as (_ & _ & Y'). destruct (Y' eq_refl); congruence. }
  assert (Sh : system h = false) by (rewrite X by done; by rewrite C).
  destruct (unusable_stays ls (set_builder (Returning false) h) f') as [(U1 & U2 & _) [n R]]; [by split_and!|done|].
  split; [done|]. split; [done|]. exists n. rewrite R. cbn. by rewrite F2.
Qed.

(** A description that cannot be loaded; a second build. *)
Definition badAnswers : Answers := mkAnswers None false [chars_of "unexpected token"] true true None None.
Definition failingLabels : list Label := [ResetL; BuildL (BuildNode (chars_of "in")); CancelL; InitL goodAnswers; ResetL].
Definition startedFrontend : Frontend := set_builder (Initializing (BuildTarget (chars_of "all"))) (newFrontend newInvocation).
Definition failedFrontend : Frontend := default startedFrontend (step (InitL badAnswers) startedFrontend).
Definition laterFrontend : Frontend := default startedFrontend (run failingLabels failedFrontend).
Lemma failed_initialization_is_final_witness : (system laterFrontend = false /\ fileSystem laterFrontend = false /\
  exists n, results laterFrontend = results startedFrontend ++ replicate n false) /\ results laterFrontend = [false; false].
Proof.
  split; [|vm_compute; reflexivity].
  apply (failed_initialization_is_final badAnswers (BuildTarget (chars_of "all")) startedFrontend failedFrontend failingLabels laterFrontend); vm_compute; reflexivity.
Defined.

(** ** The output of processes *)

Definition output (es : list ProcessEvent) : Buffers := foldl (fun b e => processEvent e b) (mkBuffers ∅ []) es.
(** What a process wrote. *)
Fixpoint written (h : Z) (es : list ProcessEvent) : list Z :=
  match es with
  | [] => []
  | HadOutput h' data :: es => (if decide (h = h') then data else []) ++ written h es
  | Finished _ :: es => written h es
  end.
Definition finishes (h : Z) (e : ProcessEvent) : Prop := match e with Finished h' => h = h' | HadOutput _ _ => False end.
Lemma buffered h es : forall b, Forall (fun e => ~ finishes h e) es ->
  default [] (processOutputBuffers (foldl (fun b e => processEvent e b) b es) !! h) = default [] (processOutputBuffers b !! h) ++ written h es.
Proof.
  induction es as [|e es IH]; intros b H; [by rewrite app_nil_r|]. destruct (Forall_cons_1 _ _ _ H) as [He H']. cbn [foldl]. rewrite IH by done.
  destruct e as [h' data|h']; cbn [processEvent written]; cbn [processOutputBuffers].
  - rewrite app_assoc. f_equal. destruct (decide (h = h')) as [<-|Hn].
    + by rewrite lookup_insert_eq.
    + by rewrite lookup_insert_ne, app_nil_r.
  - cbn in He. destruct (processOutputBuffers b !! h') eqn:E; cbn; [|done]. by rewrite lookup_delete_ne.
Qed.
(** What a process wrote since its handle was last used is printed in one piece when it
    finishes, whatever other processes wrote meanwhile. *)
Lemma output_in_one_piece h before es : Forall (fun e => ~ finishes h e) es ->
  let b := foldl (fun b e => processEvent e b) (output (before ++ [Finished h])) es in
  stdout (processEvent (Finished h) b) = stdout b ++ written h es.
Proof.
  intros H b. assert (E : default [] (processOutputBuffers b !! h) = written h es).
  { unfold b. rewrite buffered by done. unfold output. rewrite foldl_app. cbn [foldl processEvent].
    destruct (processOutputBuffers (foldl _ _ before) !! h) eqn:E; cbn; [by rewrite lookup_delete_eq|by rewrite E]. }
  cbn [processEvent]. destruct (processOutputBuffers b !! h) eqn:F; cbn in *; [by rewrite E|by rewrite <- E, app_nil_r].
Qed.

(** ** Messages *)

(** The parenthesis is never closed, and the first name follows two quotes. *)
Example producers_message_unclosed : multipleProducersMessage (chars_of "a") [chars_of "b"; chars_of "c"]
  = chars_of "unable to build node: 'a' (node is produced by multiple commands: ''b', 'c'".
Proof. by vm_compute. Qed.
(** A build of a node that was cancelled after it began can answer true. *)
Example cancelled_node_succeeds : results <$> run (BuildL (BuildNode (chars_of "in")) :: InitL goodAnswers :: CancelL :: EndL (NodeResult (Some ExistingInput)) :: [CheckL; ResetL]) exampleFrontend = Some [true].
Proof. by vm_compute. Qed.
